(* ===== verification/_CoqProject ===== *)
-Q . S2P
Prelude.v
KernelModels.v
StateMachine.v
Storage.v
Journal.v
ProcessService.v
Fnmatch.v
CapabilityService.v
SignalService.v
LeaseService.v
LeaseFacts.v
LeaseProps.v
Graph.v
Deadlock.v
DeadlockProps.v
ActionService.v
ActionProps.v
VpgModels.v
Dag.v
Readiness.v
ReadinessProps.v
Invalidation.v
InvalidationProps.v
PyString.v
Verification.v
VerificationProps.v
Patches.v
PatchValidator.v
PatchProps.v
Derivation.v
DerivationProps.v
Resources.v
ResourceProps.v
Claims.v
ClaimProps.v
KernelProviders.v
OwnershipProps.v
Agents.v
Matching.v
MatchingProps.v
Attempts.v
AttemptProps.v
Scheduler.v
SchedulerProps.v
Lifecycle.v
Reconciliation.v
LifecycleProps.v
ReconciliationProps.v
Dispatcher.v
Kernel.v
KernelFacts.v
KernelProps.v
KernelOutcomes.v
Isolation.v
Outbox.v
OutboxProps.v
GraphStore.v
GraphCommit.v
GraphFacts.v
GraphOps.v
GraphCommitProps.v
GraphCompaction.v
GraphRecovery.v
GraphWorld.v
GraphDemo.v
GraphStoreProps.v
ProgressRuntime.v
ProgressRuntimeProps.v
ArtifactUri.v
ArtifactModels.v
LocalArtifactStorage.v
NamespaceService.v
ArtifactService.v
ArtifactFacts.v
ArtifactSdk.v
ArtifactProps.v
ContextModels.v
ContextService.v
ContextFacts.v
ContextProps.v
