(* ===== verification/Prelude.v ===== *)
(** * LongHorizonOS: a verification development

    LongHorizonOS runs long-lived agents under an operating-system-like kernel.
    Core V1 has four layers, all under src/src/lhos:

    - [agent_os]: the kernel.  Services keep SQLite projections of processes,
      actions, resource leases, signals and capabilities; every change is an
      event of an append-only journal, and the projections can be rebuilt from
      it.  Leases carry fencing tokens, so that an action commits only while it
      still owns what it claimed.  The artifact file system keeps versioned files
      of each process in namespaces that can be mounted into one another; the
      context virtual memory loads ranges of them, in pages and under budgets.
    - [runtimes/verified_progress]: the Verified Progress Graph.  Goals depend on
      tasks, tasks on tasks; a task becomes VERIFIED only through evidence; the
      ready frontier is what may be dispatched.  A SQLite store keeps every version
      of every graph, so a version once committed can be read back exactly.
    - [runtimes/invalidation]: when evidence loses its applicability, the causal
      cone of affected tasks becomes STALE and a repair frontier is derived.

    - [runtimes/multi_agent]: agents claim ready tasks.  A claim is backed by an
      exclusive lease of the kernel; a pass matches tasks to agents and acquires
      claims, reconciliation compares them with kernel and graph.

    [sdk] drives it all from a host program.

    ** How the code is modelled

    A method is a definition in the monad [M S A := S -> result A * S] over the
    tables it touches: [Raise e] is a Python exception of the class [e], changes
    made before a raise persist, and [transaction] rolls them back, as the
    storage layer does.  Tables are lists of rows in rowid order ([Storage.KState]
    holds all of them); INSERT, upsert, INSERT OR REPLACE, UPDATE and DELETE are
    the [tbl_*] functions below.  Instants are integers in microseconds, the clock
    is a field of the state, [uuid4] is an argument with freshness laws
    ([Storage.UuidSource]).  JSON values keep the insertion order of objects.
    Python's sorts, string order, dict and set iteration are modelled; where the
    iteration order of a set is unspecified the model takes any order
    ([Dag.SetOrder], [Derivation.PairOrder]).  SHA-256 is an argument
    ([Invalidation.Sha256]) of which no theorem assumes anything, and so are the
    texts of [str], [repr] and [isoformat] and the digests of the scheduler.
    Pydantic's text of a node or edge is an argument with the laws the store relies
    on ([GraphCommitProps.ModelTextLaws]); [GraphDemo.Codes] is a text that has them.
    Several connections on one graph database are a [GraphWorld.World]: each keeps
    its own cache and clock, and their transactions interleave in any order;
    [ProgressRuntimeProps.r_step] lets a submission stop between any two of them.
    The artifact service writes its tables one statement at a time: each durable
    write ([ArtifactModels.durable]) may be the last before the process stops
    ([stop_at], with the outcome [Killed]), and the theorems hold for every stop.
    Unicode normalisation and content digests are arguments there.  The artifact store
    and capability checks the context service is given are a host
    ([ContextService.ContextHost]) that may change between calls.
    Objects that are shared and mutated (claims, attempts) live in a store and are
    passed by address.  What a component is given from outside is a class of
    operations over an abstract state ([Claims.LeaseProvider],
    [Scheduler.SchedulerHost], drivers and programs as [Kernel.Machine]), where
    every call may fail or change that state.  An [await] of the kernel loop is such
    a call over the whole kernel, so other coroutines can act while it is pending;
    the record of the kernel counts the driver calls made ([Kernel.dispatched]).
    Pure functions of the runtimes are functions, with [result] where they can
    raise.

    ** Files

    - [Prelude]: exceptions, the monad and its frame reasoning ([within],
      [keeps], [preserves]), Python orders and stable sorting, SQL tables, JSON.
    - [KernelModels]: agent_os/kernel/models.py.  [StateMachine]: state_machine.py.
    - [Storage]: storage/schema.py and sqlite.py.  [Journal]: services/journal.py,
      with the rebuild of projections.
    - [ProcessService], [CapabilityService] (with [Fnmatch] for the patterns),
      [SignalService]: the services of the same names.
    - [LeaseService]: services/lease_service.py; [LeaseFacts]: invariants and run
      lemmas; [LeaseProps]: its theorems.
    - [Graph]: chains, cycles, finishing orders.  [Deadlock]: detect_deadlocks and
      _find_cycles of the lease service; [DeadlockProps]: its theorem.
    - [ActionService]: services/action_service.py; [ActionProps]: its theorems.
    - [VpgModels]: verified_progress/models.py; [Dag]: dag.py; [Readiness]:
      readiness.py and closure.py, with [ReadinessProps].
    - [Invalidation]: models.py, evidence.py, cone.py, frontier.py and engine.py
      of runtimes/invalidation; [InvalidationProps]: its theorems.
    - [PyString]: the string methods the runtimes use (strip, rsplit, lower,
      startswith, json.dumps of string lists).
    - [Verification]: verified_progress/verification.py with the providers of
      protocols.py as records; [VerificationProps]: its theorems.
    - [Patches]: patches.py, events.py and the patch models; [PatchValidator]:
      admission.py and patch_validator.py; [PatchProps]: their theorems.
    - [Derivation]: the re-derivation of task state of verified_progress/sdk.py;
      [DerivationProps]: its theorems.
    - [GraphStore]: the tables and reads of verified_progress/graph_store.py;
      [GraphCommit]: its writing operations; [GraphFacts]: rows, revisions and the
      invariant of the tables, and what a load returns; [GraphOps],
      [GraphCommitProps], [GraphCompaction]: each operation as a change of the
      histories.  [GraphRecovery]: recovery.py.  [GraphWorld]: connections
      interleaved; [GraphDemo]: a text to run with; [GraphStoreProps]: the theorems.
    - [ProgressRuntime]: VerifiedProgressRuntime of verified_progress/sdk.py;
      [ProgressRuntimeProps]: its theorems.
    - [Resources]: ResourceVector and resources.py of runtimes/multi_agent;
      [ResourceProps]: its theorems.
    - [Claims]: claims.py and lease_adapter.py; [ClaimProps]: its theorems over any
      provider that keeps the promises of [LeaseAuthority]; [KernelProviders]: the
      adapters of sdk/providers.py; [OwnershipProps]: the kernel keeps the promises.
    - [Agents]: the agent descriptor, registry.py and requirements.py; [Matching]:
      eligibility.py and matching.py; [MatchingProps]: their theorems.
    - [Attempts]: attempts, snapshots and attempts.py; [AttemptProps]: its theorems.
    - [Scheduler]: events.py and the scheduling pass of scheduler.py;
      [SchedulerProps]: its theorem.  [Lifecycle]: the methods on a dispatched
      claim; [Reconciliation]: reconciliation.py, schedule_once and
      schedule_until_idle; [LifecycleProps], [ReconciliationProps]: their theorems.
    - [Dispatcher]: kernel/dispatcher.py and the request classes of models.py, the
      system calls over all services.  [Kernel]: kernel/kernel.py, the tick with
      dispatch, crash recovery, deadlock recovery and process steps.
      [KernelFacts]: what every operation of every service keeps; [KernelProps]:
      runs of the kernel with interference; [KernelOutcomes]: where actions,
      steps and deadlocks end; [Isolation]: what a system call can reach.
    - [Outbox]: services/outbox.py; [OutboxProps]: its theorems.
    - [ArtifactUri]: artifacts/uri.py and its theorem; [ArtifactModels]:
      models.py and projections.py of agent_os/artifacts; [LocalArtifactStorage]:
      drivers/local_artifact_storage.py; [NamespaceService], [ArtifactService]: the
      services of the same names; [ArtifactSdk]: sdk/artifact_sdk.py and the rebuild
      of the tables; [ArtifactFacts]: the invariant of tables and files, and what a
      stopped or finished operation leaves; [ArtifactProps]: the theorems.
    - [ContextModels]: models.py, estimator.py, pager.py and policies.py of
      agent_os/context; [ContextService]: service.py and sdk.py; [ContextFacts]: pages,
      selection and what a load computes; [ContextProps]: the states of the service
      and the theorems.

    ** What is proved

    - Leases: mutual exclusion and fence freshness in every reachable state;
      acquisition is all or nothing and exact; tokens grow, so a superseded lease
      is fenced; cleanup, expiry and renewal touch exactly what they should; an
      accepted fencing contract means the claims are held.
    - Actions: a fenced commit happens exactly for a running action with a valid
      contract; terminal actions are absorbing; a retry is reserved at most once;
      the two fence checks agree.
    - Kernel loop: an external effect happens at most once, or twice for a PURE
      action whose retry was reserved; a dispatched or recovered action ends with
      its leases released and its owner told; a process step ends in the state its
      outcome calls for; deadlock recovery removes the least victim and its waits.
    - System calls: in every reachable kernel, whatever a request names, it reaches
      only what its process owns, and a child has at most the capabilities of its
      parent.
    - Outbox: a change and its intent are committed together and once per key;
      every delivery of a key is the same; acknowledgements are fenced by the
      claim; a drain delivers what is due.
    - Journal: well-formedness, idempotent append, exact lookup.  Rebuilding from
      the journal gives back the live leases, fences and mailbox, the lifecycle
      state of every process, and the state, claims, leases, tokens, retry count
      and result of every action (simulation of each operation by its events).
    - Processes, signals, capabilities: exact behaviour of transition, delivery,
      grant, enforcement and child restriction on every branch.
    - Deadlock and dependency cycles: both iterative searches terminate and are
      exact.
    - Progress graph: the frontier is exactly the ready tasks in dispatch order (a
      STALE task is ready once released for repair), independent of insertion order,
      and non-empty while work is pending.
    - Invalidation: the cone is the least causal closure, marking it stale
      restores the invariant on verified tasks with the least change, the repair
      frontier is exact and not empty while repair is due, and goal reopening agrees with goal closure.
    - Verification: which evidence validates, which tasks count as verified, and
      that a verified task is attested by evidence of the right version.
    - Patches: an admitted patch is well typed and keeps the graph well formed;
      what an accepted patch can change of a task is exactly delimited.
    - Derivation: the stale sweep terminates with the least closed set, and the
      derived states agree with evidence, closure and readiness.
    - Graph store: the tables refine append-only histories, under any interleaving
      of connections; what was read of a version never changes; a commit is atomic,
      fenced by its guards and made once; compaction keeps what it retains; recovery
      restores the current version and refuses a broken chain.
    - Progress runtime: a submission commits exactly the derived result of its
      validated operations or changes nothing, and every version readable in a
      reachable database, with the submissions of any connections interleaved, is well
      formed, acyclic and has task states that its evidence supports.
    - Artifacts: a committed version is read with the same bytes for ever, whatever
      is stopped, restarted or written later, unless its artifact is deleted; a
      write that returns is read back, when no other content has its digest; reads, writes and deletions reach only
      namespaces the capabilities allow, also through mounts; canonical URIs stay
      inside their namespace; both resolutions of mounts pick the longest.
    - Context: pages cover a range exactly; a load succeeds exactly when it should,
      stays within its budgets and depends on the order of references at most in media
      types; a snapshot restores the bytes it was taken of; a call touches only its
      process.
    - Resources: reservations never exceed capacity, also while a restore, which is
      built outside the lock, is pending, unless a capacity is lowered below what it
      restores meanwhile;
      a reservation is all or nothing, and restoring from persisted rows gives back
      the live ones.
    - Claims: over the kernel's leases a task has one owner; an acquisition ends
      with a usable lease, or without one, or says that cleanup is due.
    - Agents: eligibility is its nine conditions, matching does not depend on the
      order of agents, what is sealed on an attempt stays.
    - Scheduling: a pass dispatches only what it may, whatever fails on the way; in
      every reachable scheduler agents are within the largest concurrency they were
      registered with and a task has one ACTIVE claim, with a lease; reconciliation ends
      a claim only when an answer of its walk ended the ownership, or the claim has no
      name for its lease; the loop of passes stops when idle or at its bound.

    Lemmas such as [ProcessService.replay_keeps_dead_wait_condition],
    [CapabilityService.child_subset_escalates],
    [VerificationProps.foreign_evidence_verifies],
    [PatchProps.attach_overwrites_task],
    [DerivationProps.derivation_depends_on_order],
    [ResourceProps.restore_drops_duplicate_owner],
    [ResourceProps.restore_races_set_capacity],
    [ReconciliationProps.nameless_lease_kept],
    [InvalidationProps.open_task_beside_cone],
    [AttemptProps.late_context_breaks_reload],
    [SchedulerProps.unranked_before_ranked],
    [KernelOutcomes.Deviations.denied_request_strands],
    [ArtifactProps.ArtifactRun.stopped_commit_loses_write],
    [ArtifactSdk.rebuild_forgets_artifacts],
    [ContextProps.ContextRun.unpin_of_other_process] or
    [ReconciliationProps.reconcile_partial_leak] record behaviour that differs
    from what the code or its documentation means.

    ** Loops and fuel

    Loops that are not structural take fuel computed from their input, and the
    theorems prove that it suffices, so no result is conditional on it:
    [Deadlock.dfs_fuel] (each node pushed and popped once), [Dag.dag_fuel] (each
    node entered and each edge looked at once), [Readiness.depth_fuel] (a
    recursion path repeats no task), [Invalidation.cone_fuel] (each seed popped
    and each dependency queued once), [Derivation.sweep_fuel] (every sweep but the
    last makes a VERIFIED task STALE), and the scan of [PyString.strip] (the
    length of the string).

    ** Not modelled

    Of the graph store the migrations of older schemas.  The audit replay of
    patches (projections.py) and the facade over the runtime (coordinator.py).
    The invalidation projection and its facade; handoff, the durable state and the
    worker pool of the multi-agent runtime, so the runs of a scheduler contain no
    handoff and start without claims; the SDK object and its policies.  Drivers,
    integrations, the command line, scripts and the legacy plane are I/O or outside
    Core V1.  Concurrency between connections appears as
    the interleaving of whole transactions, which SQLite's write lock serialises. *)

From stdpp Require Export base tactics list gmap strings sorting pretty.
From Stdlib Require Export ZArith Lia.

#[global] Set Default Goal Selector "!".
#[global] Set Warnings "-clear-no-such-hyp".

(** ** Python exceptions and the state-and-error monad *)

(** The exceptions the modelled code raises, by class. *)
Inductive py_error : Type :=
| IllegalStateTransition (obj_id old new : string)
| TerminalStateError (obj_id state : string)
| WaitConditionMissing (pid : string)
| CapabilityDenied (pid resource operation : string)
| LeaseAcquisitionFailed (pid failed_resource : string)
| KernelInvariantViolation (what : string)
| ValueError (what : string)
| OverflowError (what : string)
| KeyError (key : string)
| ValidationError (what : string)
| IntegrityError (table : string)
| TypeError (what : string)
| AttributeError (what : string)
| VPGError (code : string)
| LeaseReleaseFailed (claim_id lease_id reason : string)
| KernelLeaseRequired (claim_id task_id : string)
| SchedulerStateCorruption (what : string)
| RuntimeError (what : string)
| IndexError (what : string)
| OutboxIdempotencyConflict (idempotency_key : string)
| OutboxIntegrityError (what : string)
| PermissionError (what : string)
| InvalidArtifactURI (uri reason : string)
| PathTraversalRejected (uri : string)
| ArtifactNotFound (uri_or_msg : string)
| NamespaceNotFound (namespace_id : string)
| VersionConflict (artifact_id : string) (expected actual : option Z)
| QuotaExceeded (message : string)
| TransactionNotFound (transaction_id : string)
| IdempotencyConflict (transaction_id original_state : string)
| FileNotFoundError (what : string)
| OperationalError (what : string)
| ZeroDivisionError
| ErrInvalidManifest (what : string)
| ErrDuplicateRefId (what : string)
| ErrCapabilityDenied (what : string)
| ErrArtifactNotFound (what : string)
| ErrInvalidContentHash (what : string)
| ErrInvalidRange (what : string)
| ErrRequiredBudgetExceeded (what : string)
| ErrInvalidPolicy (what : string)
| ErrInvalidEstimator (what : string)
| ErrHandleNotOwned (what : string)
| ErrHandleClosed (what : string)
| ErrSnapshotCorrupt (what : string)
| InvalidGraphVersionRace (what : string)
(** not an exception: the process was stopped here *)
| Killed.

(** [str(exc)] and [type(exc).__name__]. *)
Class ExcText := {
  exc_str : py_error -> string;
  exc_name : py_error -> string }.

Inductive result (A : Type) : Type :=
| Ok (a : A)
| Raise (e : py_error).
Arguments Ok {A} a.
Arguments Raise {A} e.

(** A method body: it reads and changes the state and returns or raises.  A
    raised exception keeps the changes made before it. *)
Definition M (S A : Type) : Type := S -> result A * S.

#[global] Instance result_ret : MRet result := fun A a => Ok a.
#[global] Instance result_bind : MBind result := fun A B k r =>
  match r with Ok a => k a | Raise e => Raise e end.

#[global] Instance M_ret {S} : MRet (M S) := fun A a s => (Ok a, s).
#[global] Instance M_bind {S} : MBind (M S) := fun A B k m s =>
  match m s with
  | (Ok a, s') => k a s'
  | (Raise e, s') => (Raise e, s')
  end.

Definition raise {S A} (e : py_error) : M S A := fun s => (Raise e, s).
Definition get_state {S} : M S S := fun s => (Ok s, s).
Definition gets {S A} (f : S -> A) : M S A := fun s => (Ok (f s), s).
Definition modify {S} (f : S -> S) : M S unit := fun s => (Ok tt, f s).
(** [raise_if b e] is [if b: raise e]. *)
Definition raise_if {S} (b : bool) (e : py_error) : M S unit :=
  if b then raise e else mret tt.
(** [if c is None: raise e] followed by the use of [c]. *)
Definition some_or_raise {S A} (o : option A) (e : py_error) : M S A :=
  match o with Some a => mret a | None => raise e end.
(** [with storage.transaction() as tx]: COMMIT on a normal exit, ROLLBACK of
    every change of the block when an exception leaves it. *)
Definition transaction {S A} (m : M S A) : M S A := fun s =>
  match m s with
  | (Ok a, s') => (Ok a, s')
  | (Raise e, _) => (Raise e, s)
  end.
(** [try: m except e: handler e] *)
Definition try_except {S A} (m : M S A) (h : py_error -> M S A) : M S A := fun s =>
  match m s with
  | (Ok a, s') => (Ok a, s')
  | (Raise e, s') => h e s'
  end.

(** [try: x = await m] as a value: what the call returned or raised. *)
Definition attempt {S A} (m : M S A) : M S (result A) := fun s =>
  let '(r, s') := m s in (Ok r, s').

(** [with suppress(Exception): m] *)
Definition suppress {S A} (m : M S A) : M S unit :=
  try_except (m ;; mret tt) (fun _ => mret tt).

(** [try: m finally: f]: an exception of [f] replaces that of [m]. *)
Definition try_finally {S A} (m : M S A) (f : M S unit) : M S A := fun s =>
  let '(r, s1) := m s in
  match f s1 with
  | (Ok _, s2) => (r, s2)
  | (Raise e, s2) => (Raise e, s2)
  end.

(** A call of a function that returns or raises and changes no state. *)
Definition of_result {S A} (r : result A) : M S A := fun s => (r, s).

Fixpoint for_each {S A} (f : A -> M S unit) (l : list A) : M S unit :=
  match l with
  | [] => mret tt
  | x :: l' => f x ;; for_each f l'
  end.

(** A loop that collects one value per element. *)
Fixpoint map_each {S A B} (f : A -> M S B) (l : list A) : M S (list B) :=
  match l with
  | [] => mret []
  | x :: l' => y ← f x; ys ← map_each f l'; mret (y :: ys)
  end.

(** ** Python's total orders *)

Class PyOrd (A : Type) := py_cmp : A -> A -> comparison.
Class PyOrdLaws (A : Type) `{PyOrd A} := {
  py_cmp_eq (x y : A) : py_cmp x y = Eq <-> x = y;
  py_cmp_flip (x y : A) : py_cmp y x = CompOpp (py_cmp x y);
  py_cmp_lt_trans (x y z : A) : py_cmp x y = Lt -> py_cmp y z = Lt -> py_cmp x z = Lt }.

#[global] Instance Z_PyOrd : PyOrd Z := Z.compare.
(** Strings compare by code point; on UTF-8 bytes that is the byte order. *)
#[global] Instance string_PyOrd : PyOrd string := String.compare.
(** Tuples and lists compare lexicographically. *)
#[global] Instance prod_PyOrd {A B} `{PyOrd A, PyOrd B} : PyOrd (A * B) := fun p q =>
  match py_cmp p.1 q.1 with Eq => py_cmp p.2 q.2 | c => c end.
#[global] Instance list_PyOrd {A} `{PyOrd A} : PyOrd (list A) :=
  fix go xs ys := match xs, ys with
  | [], [] => Eq
  | [], _ :: _ => Lt
  | _ :: _, [] => Gt
  | x :: xs', y :: ys' => match py_cmp x y with Eq => go xs' ys' | c => c end
  end.

Definition py_leb {A} `{PyOrd A} (x y : A) : bool :=
  match py_cmp x y with Gt => false | _ => true end.
Definition py_ltb {A} `{PyOrd A} (x y : A) : bool :=
  match py_cmp x y with Lt => true | _ => false end.

(** [sorted(l, key=f)]: a stable sort. *)
Fixpoint insert_on {A K} `{PyOrd K} (f : A -> K) (x : A) (l : list A) : list A :=
  match l with
  | [] => [x]
  | y :: l' => if py_leb (f x) (f y) then x :: y :: l' else y :: insert_on f x l'
  end.
Definition sort_on {A K} `{PyOrd K} (f : A -> K) (l : list A) : list A :=
  foldr (insert_on f) [] l.
Abbreviation py_sorted := (sort_on id).

(** ** SQL tables: rows in rowid order, with a key column *)

Section Table.
Context {R K : Type} `{EqDecision K} (key : R -> K).

(** [SELECT * FROM t WHERE key = k] (at most one row when the key is unique) *)
Fixpoint tbl_find (k : K) (t : list R) : option R :=
  match t with
  | [] => None
  | r :: t' => if decide (key r = k) then Some r else tbl_find k t'
  end.
(** [INSERT INTO t ... ON CONFLICT(key) DO UPDATE SET ...]: [upd old new] is the
    row after the update; the row keeps its place. *)
Fixpoint tbl_upsert (upd : R -> R -> R) (r : R) (t : list R) : list R :=
  match t with
  | [] => [r]
  | r0 :: t' => if decide (key r0 = key r) then upd r0 r :: t' else r0 :: tbl_upsert upd r t'
  end.
(** [INSERT OR REPLACE INTO t]: the old row is deleted, the new one gets a new
    rowid at the end. *)
Definition tbl_replace (r : R) (t : list R) : list R :=
  filter (fun r0 => key r0 <> key r) t ++ [r].
(** [UPDATE t SET ... WHERE key = k] *)
Definition tbl_update (f : R -> R) (k : K) (t : list R) : list R :=
  (fun r => if decide (key r = k) then f r else r) <$> t.
(** [DELETE FROM t WHERE key = k] *)
Definition tbl_delete (k : K) (t : list R) : list R :=
  filter (fun r => key r <> k) t.
End Table.

(** ** JSON values: what [json.dumps] and [json.loads] carry.  A [datetime] is
    carried as its ISO-8601 string; [JTime] is that string, by the instant (in
    microseconds).  An object is its items in insertion order. *)

#[warnings="-register-all"]
Inductive json : Type :=
| JNull
| JBool (b : bool)
| JInt (z : Z)
| JFloat (repr : string)
| JStr (s : string)
| JTime (t : Z)
| JList (l : list json)
| JObj (o : list (string * json)).
Abbreviation jobj := (list (string * json)).

(** A [datetime]: the instant (in microseconds), and whether it carries a time zone. *)
Record datetime : Type := mkDatetime { instant : Z; tz_aware : bool }.
Definition aware (t : Z) : datetime := mkDatetime t true.

(** [d.get(k)] as an option; [d.get(k, default)] is [default d v]. *)
Fixpoint jget (k : string) (o : jobj) : option json :=
  match o with
  | [] => None
  | (k', v) :: o' => if String.eqb k k' then Some v else jget k o'
  end.
(** Python's truth value. *)
Definition truthy (j : json) : bool :=
  match j with
  | JNull => false
  | JBool b => b
  | JInt z => negb (Z.eqb z 0)
  | JFloat r => negb (String.eqb r "0.0" || String.eqb r "-0.0")
  | JStr s => negb (String.eqb s "")
  | JTime _ => true
  | JList l => match l with [] => false | _ => true end
  | JObj o => match o with [] => false | _ => true end
  end.
Definition otruthy (o : option json) : bool :=
  match o with Some j => truthy j | None => false end.

Definition jstr_opt (o : option string) : json :=
  match o with Some s => JStr s | None => JNull end.
Definition jint_opt (o : option Z) : json :=
  match o with Some z => JInt z | None => JNull end.
Definition jobj_opt (o : option jobj) : json :=
  match o with Some x => JObj x | None => JNull end.
Definition jtime_opt (o : option Z) : json :=
  match o with Some t => JTime t | None => JNull end.

Definition as_str (j : json) : option string := match j with JStr s => Some s | _ => None end.
Definition as_int (j : json) : option Z := match j with JInt z => Some z | _ => None end.
Definition as_time (j : json) : option Z := match j with JTime t => Some t | _ => None end.
Definition as_obj (j : json) : option jobj := match j with JObj o => Some o | _ => None end.
Definition as_list (j : json) : option (list json) := match j with JList l => Some l | _ => None end.
Definition as_bool (j : json) : option bool := match j with JBool b => Some b | _ => None end.

(** A pydantic field read from [**payload]: [req] for a required field, [dfl]
    for one with a default, [nul] for [T | None = None]. *)
Definition req {A} (f : json -> option A) (k : string) (o : jobj) : option A :=
  jget k o ≫= f.
Definition dfl {A} (f : json -> option A) (d : A) (k : string) (o : jobj) : option A :=
  match jget k o with None => Some d | Some j => f j end.
Definition nul {A} (f : json -> option A) (k : string) (o : jobj) : option (option A) :=
  match jget k o with
  | None | Some JNull => Some None
  | Some j => Some <$> f j
  end.

(** [==] on JSON values: dicts compare as maps, [True == 1]. *)
Fixpoint json_eqb (a b : json) {struct a} : bool :=
  match a, b with
  | JNull, JNull => true
  | JBool x, JBool y => Bool.eqb x y
  | JBool x, JInt z => Z.eqb (if x then 1 else 0) z
  | JInt z, JBool x => Z.eqb (if x then 1 else 0) z
  | JInt x, JInt y => Z.eqb x y
  | JFloat x, JFloat y => String.eqb x y
  | JStr x, JStr y => String.eqb x y
  | JTime x, JTime y => Z.eqb x y
  | JList xs, JList ys =>
      (fix go xs ys := match xs, ys with
       | [], [] => true
       | x :: xs', y :: ys' => json_eqb x y && go xs' ys'
       | _, _ => false
       end) xs ys
  | JObj xs, JObj ys =>
      Nat.eqb (length xs) (length ys) &&
      forallb (fun kv => match jget kv.1 ys with Some w => json_eqb kv.2 w | None => false end) xs
  | _, _ => false
  end.

#[global] Instance json_eq_dec : EqDecision json.
Proof.
  refine (fix go x y {struct x} : Decision (x = y) :=
    match x, y with
    | JNull, JNull => left _
    | JBool a, JBool b => cast_if (decide (a = b))
    | JInt a, JInt b => cast_if (decide (a = b))
    | JFloat a, JFloat b => cast_if (decide (a = b))
    | JStr a, JStr b => cast_if (decide (a = b))
    | JTime a, JTime b => cast_if (decide (a = b))
    | JList a, JList b => cast_if (@list_eq_dec json go a b)
    | JObj a, JObj b => cast_if (@list_eq_dec (string * json) (@prod_eq_dec _ _ _ go) a b)
    | _, _ => right _
    end); clear go; congruence.
Defined.

(** [json.dumps(j, sort_keys=True)], read back: keys sorted at every level
    ([SQLiteStorage.dumps] and [_json_dumps]). *)
Fixpoint dumps (j : json) : json :=
  match j with
  | JList l => JList (dumps <$> l)
  | JObj o => JObj (sort_on fst ((fun kv => (kv.1, dumps kv.2)) <$> o))
  | _ => j
  end.

(** ** Reasoning about methods *)

(** [within R m]: whatever [m] returns or raises, its final state is related to
    its initial one by [R]. *)
Definition within {S A} (R : S -> S -> Prop) (m : M S A) : Prop := forall s, R s (m s).2.

Create HintDb lhos.
Create Rewrite HintDb lhos_rw.

Section Within.
Context {S : Type} (R : S -> S -> Prop) `{!Reflexive R, !Transitive R}.

Lemma within_ret {A} (a : A) : within R (mret a).
Proof. intros s; reflexivity. Qed.
Lemma within_raise {A} e : within R (raise e : M S A).
Proof. intros s; reflexivity. Qed.
Lemma within_raise_if b e : within R (raise_if b e).
Proof. intros s; by destruct b. Qed.
Lemma within_some_or_raise {A} (o : option A) e : within R (some_or_raise o e).
Proof. intros s; by destruct o. Qed.
Lemma within_gets {A} (f : S -> A) : within R (gets f).
Proof. intros s; reflexivity. Qed.
Lemma within_get_state : within R get_state.
Proof. intros s; reflexivity. Qed.
Lemma within_of_result {A} (r : result A) : within R (of_result r).
Proof. intros s; reflexivity. Qed.
Lemma within_modify f : (forall s, R s (f s)) -> within R (modify f).
Proof. intros H s; apply H. Qed.
Lemma within_bind {A B} (m : M S A) (k : A -> M S B) :
  within R m -> (forall a, within R (k a)) -> within R (m ≫= k).
Proof.
  intros Hm Hk s. unfold mbind, M_bind. specialize (Hm s).
  destruct (m s) as [[a|e] s'] eqn:E; cbn in *; [|done].
  transitivity s'; [done|]. apply Hk.
Qed.
Lemma within_transaction {A} (m : M S A) : within R m -> within R (transaction m).
Proof.
  intros Hm s. unfold transaction. specialize (Hm s).
  by destruct (m s) as [[a|e] s'].
Qed.
Lemma within_try {A} (m : M S A) h :
  within R m -> (forall e, within R (h e)) -> within R (try_except m h).
Proof.
  intros Hm Hh s. unfold try_except. specialize (Hm s).
  destruct (m s) as [[a|e] s'] eqn:E; cbn in *; [done|].
  transitivity s'; [done|]. apply Hh.
Qed.
Lemma within_suppress {A} (m : M S A) : within R m -> within R (suppress m).
Proof.
  intros Hm. apply within_try; [apply within_bind; [done|]|]; intros; apply within_ret.
Qed.
Lemma within_attempt {A} (m : M S A) : within R m -> within R (attempt m).
Proof. intros Hm s. unfold attempt. specialize (Hm s). by destruct (m s). Qed.
Lemma within_finally {A} (m : M S A) f : within R m -> within R f -> within R (try_finally m f).
Proof.
  intros Hm Hf s. unfold try_finally. specialize (Hm s). destruct (m s) as [r s1]. specialize (Hf s1).
  destruct (f s1) as [[u|e] s2]; cbn in *; by transitivity s1.
Qed.
Lemma within_for_each {A} (f : A -> M S unit) l :
  (forall x, within R (f x)) -> within R (for_each f l).
Proof.
  intros Hf. induction l as [|x l IH]; cbn; [apply within_ret|].
  apply within_bind; [apply Hf|done].
Qed.
Lemma within_map_each {A B} (f : A -> M S B) l :
  (forall x, within R (f x)) -> within R (map_each f l).
Proof.
  intros Hf. induction l as [|x l IH]; cbn; [apply within_ret|].
  apply within_bind; [apply Hf|]. intros y.
  apply within_bind; [done|]. intros ys. apply within_ret.
Qed.
End Within.

(** [keeps π]: the part [π] of the state is as it was. *)
Definition keeps {S T : Type} (π : S -> T) : S -> S -> Prop := fun s s' => π s' = π s.
#[global] Instance keeps_preorder {S T} (π : S -> T) : PreOrder (keeps π).
Proof. split; [by intros x|]. unfold keeps. intros x y z Hxy Hyz. congruence. Qed.

(** [preserves I]: the invariant [I], as a relation. *)
Definition preserves {S : Type} (I : S -> Prop) : S -> S -> Prop := fun s s' => I s -> I s'.
#[global] Instance preserves_preorder {S} (I : S -> Prop) : PreOrder (preserves I).
Proof. split; [by intros x Hx|]. intros x y z Hxy Hyz Hx. by apply Hyz, Hxy. Qed.

(** Follows the structure of a method body; leaves the primitive changes. *)
Ltac within_step :=
  lazymatch goal with
  | |- within ?R (mbind _ _) => apply (within_bind R); [|intro]
  | |- within ?R (mret _) => apply (within_ret R)
  | |- within ?R (raise _) => apply (within_raise R)
  | |- within ?R (raise_if _ _) => apply (within_raise_if R)
  | |- within ?R (some_or_raise _ _) => apply (within_some_or_raise R)
  | |- within ?R (gets _) => apply (within_gets R)
  | |- within ?R (of_result _) => apply (within_of_result R)
  | |- within ?R get_state => apply (within_get_state R)
  | |- within ?R (transaction _) => apply (within_transaction R)
  | |- within ?R (try_except _ _) => apply (within_try R); [|intro]
  | |- within ?R (attempt _) => apply (within_attempt R)
  | |- within ?R (suppress _) => apply (within_suppress R)
  | |- within ?R (try_finally _ _) => apply (within_finally R)
  | |- within ?R (for_each _ _) => apply (within_for_each R); intro
  | |- within ?R (map_each _ _) => apply (within_map_each R); intro
  | |- within _ (match ?x with _ => _ end) => destruct x
  end.
Ltac solve_within :=
  repeat first [solve [eauto with lhos] | within_step];
  try solve [apply within_modify; intro; first [reflexivity | eauto with lhos]].

Lemma within_ext {S A} (R : S -> S -> Prop) (m n : M S A) :
  (forall s, m s = n s) -> within R m -> within R n.
Proof. intros He Hm s. rewrite <-He. apply Hm. Qed.
Lemma bind_assoc {S A B C} (m : M S A) (k : A -> M S B) (j : B -> M S C) s :
  ((m ≫= k) ≫= j) s = (m ≫= fun a => k a ≫= j) s.
Proof. unfold mbind, M_bind. by destruct (m s) as [[a|e] s1]. Qed.
(** Groups the first two steps of a sequence. *)
Lemma within_group {S A B C} (R : S -> S -> Prop) (m : M S A) (k : A -> M S B) (j : B -> M S C) :
  within R ((m ≫= k) ≫= j) -> within R (m ≫= fun a => k a ≫= j).
Proof. apply within_ext. intros s. apply bind_assoc. Qed.

Lemma rtc_preorder {A} (R : A -> A -> Prop) `{!PreOrder R} x y : rtc R x y -> R x y.
Proof. induction 1 as [|x y z Hxy _ IH]; [reflexivity|]. by transitivity y. Qed.

Lemma bind_Ok {S A B} (m : M S A) (k : A -> M S B) s a s' :
  m s = (Ok a, s') -> (m ≫= k) s = k a s'.
Proof. unfold mbind, M_bind. by intros ->. Qed.
Lemma bind_Raise {S A B} (m : M S A) (k : A -> M S B) s e s' :
  m s = (Raise e, s') -> (m ≫= k) s = (Raise e, s').
Proof. unfold mbind, M_bind. by intros ->. Qed.
Lemma bind_inv {S A B} (m : M S A) (k : A -> M S B) s r s' :
  (m ≫= k) s = (r, s') ->
  (exists a s1, m s = (Ok a, s1) /\ k a s1 = (r, s')) \/
  (exists e, m s = (Raise e, s') /\ r = Raise e).
Proof.
  unfold mbind, M_bind. destruct (m s) as [[a|e] s1]; intros H; simplify_eq; eauto 6.
Qed.
Lemma bind_Ok_inv {S A B} (m : M S A) (f : A -> M S B) s b s' :
  (m ≫= f) s = (Ok b, s') -> exists a s1, m s = (Ok a, s1) /\ f a s1 = (Ok b, s').
Proof. intros [(a & s1 & ?)|(e & _ & ?)]%bind_inv; [eauto|done]. Qed.
Lemma gets_bind {S A B} (f : S -> A) (k : A -> M S B) s : (gets f ≫= k) s = k (f s) s.
Proof. done. Qed.
Lemma transaction_raise {S A} (m : M S A) s e s' :
  transaction m s = (Raise e, s') -> s' = s.
Proof. unfold transaction. destruct (m s) as [[a|?] ?]; naive_solver. Qed.

(** Unfolds the monad's plumbing in the goal and evaluates what is known. *)
Ltac run_m := unfold mbind, M_bind, mret, M_ret, raise, raise_if, gets, get_state, modify,
  some_or_raise in *; cbn [fst snd] in *.

(** Splits on the first [match] or [if] of the goal and simplifies. *)
Ltac split_match := repeat (case_match; simplify_eq/=).

(** ** Orders and sorting *)

#[global] Instance Z_PyOrdLaws : PyOrdLaws Z.
Proof.
  split; unfold py_cmp, Z_PyOrd.
  - intros x y. apply Z.compare_eq_iff.
  - intros x y. apply Z.compare_antisym.
  - intros x y z. rewrite !Z.compare_lt_iff. lia.
Qed.

Lemma ascii_compare_flip a b : Ascii.compare b a = CompOpp (Ascii.compare a b).
Proof. apply Ascii.compare_antisym. Qed.
Lemma ascii_compare_lt_trans a b c :
  Ascii.compare a b = Lt -> Ascii.compare b c = Lt -> Ascii.compare a c = Lt.
Proof. unfold Ascii.compare. rewrite !N.compare_lt_iff. lia. Qed.
Lemma ascii_compare_eq a b : Ascii.compare a b = Eq <-> a = b.
Proof.
  split; [apply Ascii.compare_eq_iff|intros ->].
  unfold Ascii.compare. by rewrite N.compare_refl.
Qed.

#[global] Instance string_PyOrdLaws : PyOrdLaws string.
Proof.
  split; unfold py_cmp, string_PyOrd.
  - induction x as [|a x IH]; intros [|b y]; cbn; try done.
    destruct (Ascii.compare a b) eqn:E.
    + apply ascii_compare_eq in E as ->. rewrite IH. split; [by intros ->|by intros [= ->]].
    + split; [done|]. intros [= -> ->].
      by rewrite (proj2 (ascii_compare_eq b b) eq_refl) in E.
    + split; [done|]. intros [= -> ->].
      by rewrite (proj2 (ascii_compare_eq b b) eq_refl) in E.
  - induction x as [|a x IH]; intros [|b y]; cbn; try done.
    rewrite ascii_compare_flip. destruct (Ascii.compare a b); cbn; done.
  - induction x as [|a x IH]; intros [|b y] [|c z]; cbn; try done.
    destruct (Ascii.compare a b) eqn:E1, (Ascii.compare b c) eqn:E2; try done.
    + apply ascii_compare_eq in E1 as ->, E2 as ->.
      rewrite (proj2 (ascii_compare_eq c c) eq_refl). apply IH.
    + apply ascii_compare_eq in E1 as ->. by rewrite E2.
    + apply ascii_compare_eq in E2 as ->. by rewrite E1.
    + by rewrite (ascii_compare_lt_trans _ _ _ E1 E2).
Qed.

Section Orders.
Context {A : Type} `{PyOrdLaws A}.
Lemma py_cmp_refl (x : A) : py_cmp x x = Eq.
Proof. by apply py_cmp_eq. Qed.
Lemma py_leb_refl (x : A) : py_leb x x = true.
Proof. unfold py_leb. by rewrite py_cmp_refl. Qed.
Lemma py_leb_total (x y : A) : py_leb x y = false -> py_leb y x = true.
Proof. unfold py_leb. rewrite (py_cmp_flip x y). by destruct (py_cmp x y). Qed.
Lemma py_leb_antisym (x y : A) : py_leb x y = true -> py_leb y x = true -> x = y.
Proof.
  unfold py_leb. rewrite (py_cmp_flip x y).
  destruct (py_cmp x y) eqn:E; [by apply py_cmp_eq in E|done..].
Qed.
Lemma py_leb_trans (x y z : A) : py_leb x y = true -> py_leb y z = true -> py_leb x z = true.
Proof.
  unfold py_leb. intros H1 H2.
  destruct (py_cmp x y) eqn:E1, (py_cmp y z) eqn:E2; try done.
  - apply py_cmp_eq in E1 as ->. by rewrite E2.
  - apply py_cmp_eq in E1 as ->. by rewrite E2.
  - apply py_cmp_eq in E2 as ->. by rewrite E1.
  - by rewrite (py_cmp_lt_trans _ _ _ E1 E2).
Qed.
End Orders.

Lemma prod_cmp {A B} `{PyOrd A, PyOrd B} (a c : A) (b d : B) :
  py_cmp (a, b) (c, d) = match py_cmp a c with Eq => py_cmp b d | o => o end.
Proof. done. Qed.
Lemma list_cmp_cons {A} `{PyOrd A} (x y : A) xs ys :
  py_cmp (x :: xs) (y :: ys) = match py_cmp x y with Eq => py_cmp xs ys | o => o end.
Proof. done. Qed.

#[global] Instance prod_PyOrdLaws {A B} `{PyOrdLaws A, PyOrdLaws B} : PyOrdLaws (A * B).
Proof.
  split.
  - intros [x1 x2] [y1 y2]. rewrite prod_cmp. destruct (py_cmp x1 y1) eqn:E.
    + apply py_cmp_eq in E as ->. rewrite py_cmp_eq. naive_solver.
    + split; [done|]. intros [= -> ->]. by rewrite py_cmp_refl in E.
    + split; [done|]. intros [= -> ->]. by rewrite py_cmp_refl in E.
  - intros [x1 x2] [y1 y2]. rewrite !prod_cmp, (py_cmp_flip x1 y1).
    destruct (py_cmp x1 y1); cbn; try done. apply py_cmp_flip.
  - intros [x1 x2] [y1 y2] [z1 z2]. rewrite !prod_cmp.
    destruct (py_cmp x1 y1) eqn:E1, (py_cmp y1 z1) eqn:E2; try done.
    + apply py_cmp_eq in E1 as ->, E2 as ->. rewrite py_cmp_refl. apply py_cmp_lt_trans.
    + apply py_cmp_eq in E1 as ->. by rewrite E2.
    + apply py_cmp_eq in E2 as ->. by rewrite E1.
    + by rewrite (py_cmp_lt_trans _ _ _ E1 E2).
Qed.

#[global] Instance list_PyOrdLaws {A} `{PyOrdLaws A} : PyOrdLaws (list A).
Proof.
  split.
  - induction x as [|x xs IH]; intros [|y ys]; try done. rewrite list_cmp_cons.
    destruct (py_cmp x y) eqn:E.
    + apply py_cmp_eq in E as ->. rewrite IH. split; [by intros ->|by intros [= ->]].
    + split; [done|]. intros [= -> ->]. by rewrite py_cmp_refl in E.
    + split; [done|]. intros [= -> ->]. by rewrite py_cmp_refl in E.
  - induction x as [|x xs IH]; intros [|y ys]; try done.
    rewrite !list_cmp_cons, (py_cmp_flip x y). destruct (py_cmp x y); cbn; auto.
  - induction x as [|x xs IH]; intros [|y ys] [|z zs]; try done. rewrite !list_cmp_cons.
    destruct (py_cmp x y) eqn:E1, (py_cmp y z) eqn:E2; try done.
    + apply py_cmp_eq in E1 as ->, E2 as ->. rewrite py_cmp_refl. apply IH.
    + apply py_cmp_eq in E1 as ->. by rewrite E2.
    + apply py_cmp_eq in E2 as ->. by rewrite E1.
    + by rewrite (py_cmp_lt_trans _ _ _ E1 E2).
Qed.

Section Sorting.
Context {A K : Type} `{PyOrdLaws K} (f : A -> K).
Definition key_le (x y : A) : Prop := py_leb (f x) (f y) = true.

Lemma insert_on_perm x l : insert_on f x l ≡ₚ x :: l.
Proof.
  induction l as [|y l IH]; cbn; [done|]. destruct (py_leb _ _); [done|].
  rewrite IH. constructor.
Qed.
Lemma sort_on_perm l : sort_on f l ≡ₚ l.
Proof.
  induction l as [|x l IH]; cbn; [done|]. rewrite insert_on_perm. by f_equiv.
Qed.
Lemma elem_of_sort_on x l : x ∈ sort_on f l <-> x ∈ l.
Proof. apply elem_of_Permutation_proper, sort_on_perm. Qed.
Lemma length_sort_on l : length (sort_on f l) = length l.
Proof. apply Permutation_length, sort_on_perm. Qed.
Lemma insert_on_sorted x l :
  StronglySorted key_le l -> StronglySorted key_le (insert_on f x l).
Proof.
  induction 1 as [|y l Hs IH Hall]; cbn; [repeat constructor|].
  destruct (py_leb (f x) (f y)) eqn:E.
  - constructor; [by constructor|]. constructor; [done|].
    eapply Forall_impl; [done|]. intros z Hz. unfold key_le in *. by eapply py_leb_trans.
  - constructor; [done|]. rewrite insert_on_perm. constructor; [|done].
    by apply py_leb_total.
Qed.
Lemma sort_on_sorted l : StronglySorted key_le (sort_on f l).
Proof. induction l as [|x l IH]; cbn; [constructor|by apply insert_on_sorted]. Qed.
Lemma sort_on_id l : StronglySorted key_le l -> sort_on f l = l.
Proof.
  induction 1 as [|x l Hs IH Hall]; [done|]. change (sort_on f (x :: l)) with (insert_on f x (sort_on f l)).
  rewrite IH. destruct l as [|y l]; cbn; [done|]. apply Forall_cons in Hall as [Hxy _].
  unfold key_le in Hxy. by rewrite Hxy.
Qed.
(** The order of the input does not matter when the keys tell elements apart. *)
Lemma sort_on_unique l1 l2 :
  (forall x y, x ∈ l1 -> y ∈ l1 -> f x = f y -> x = y) ->
  l1 ≡ₚ l2 -> sort_on f l1 = sort_on f l2.
Proof.
  intros Hinj Hp. eapply (StronglySorted_unique_strong key_le).
  - intros x y Hx Hy Hxy Hyx. apply Hinj.
    + by rewrite <-elem_of_sort_on.
    + rewrite Hp. by rewrite <-elem_of_sort_on.
    + by apply py_leb_antisym.
  - apply sort_on_sorted.
  - apply sort_on_sorted.
  - by rewrite !sort_on_perm.
Qed.
End Sorting.

(** Only the keys of the elements matter. *)
Lemma insert_on_ext {A K} `{PyOrd K} (f g : A -> K) x l :
  (forall y, y ∈ x :: l -> f y = g y) -> insert_on f x l = insert_on g x l.
Proof.
  intros Hfg. induction l as [|y l IH]; cbn; [done|].
  rewrite (Hfg x), (Hfg y) by set_solver. destruct (py_leb _ _); [done|]. rewrite IH; set_solver.
Qed.
Lemma sort_on_ext {A K} `{PyOrdLaws K} (f g : A -> K) l :
  (forall y, y ∈ l -> f y = g y) -> sort_on f l = sort_on g l.
Proof.
  intros Hfg. induction l as [|x l IH]; [done|].
  change (insert_on f x (sort_on f l) = insert_on g x (sort_on g l)). rewrite IH by set_solver.
  apply insert_on_ext. intros y Hy. apply Hfg. apply elem_of_cons in Hy as [->|Hy]; [set_solver|].
  apply elem_of_sort_on in Hy. set_solver.
Qed.

(** ** Lists *)

Lemma StronglySorted_weaken {A} (R Q : A -> A -> Prop) (l : list A) :
  (forall x y, R x y -> Q x y) -> StronglySorted R l -> StronglySorted Q l.
Proof. intros HRQ. induction 1; constructor; [done|]. eapply Forall_impl; [done|]. auto. Qed.

Lemma Forall2_impl_in {A B} (P Q : A -> B -> Prop) l k :
  Forall2 P l k -> (forall x y, x ∈ l -> P x y -> Q x y) -> Forall2 Q l k.
Proof. induction 1; intros HPQ; constructor; [apply HPQ; set_solver|]. set_solver. Qed.

Lemma filter_all {A} (P : A -> Prop) `{!forall x, Decision (P x)} (l : list A) :
  (forall x, x ∈ l -> P x) -> filter P l = l.
Proof.
  intros HP. induction l as [|x l IH]; [done|]. rewrite filter_cons, decide_True by set_solver.
  f_equal. apply IH. set_solver.
Qed.
Lemma filter_none {A} (P : A -> Prop) `{!forall x, Decision (P x)} (l : list A) :
  (forall x, x ∈ l -> ~ P x) -> filter P l = [].
Proof.
  intros HP. induction l as [|x l IH]; [done|]. rewrite filter_cons, decide_False by set_solver.
  apply IH. set_solver.
Qed.
Lemma filter_ext_in {A} (P Q : A -> Prop) `{!forall x, Decision (P x), !forall x, Decision (Q x)} (l : list A) :
  (forall x, x ∈ l -> P x <-> Q x) -> filter P l = filter Q l.
Proof.
  intros HP. induction l as [|x l IH]; [done|]. rewrite !filter_cons.
  rewrite (IH ltac:(set_solver)). rewrite (decide_ext (P x) (Q x)) by (apply HP; set_solver). done.
Qed.
Lemma filter_filter {A} (P Q : A -> Prop) `{!forall x, Decision (P x), !forall x, Decision (Q x)} (l : list A) :
  filter P (filter Q l) = filter (fun x => P x /\ Q x) l.
Proof.
  induction l as [|x l IH]; [done|]. rewrite !filter_cons.
  destruct (decide (Q x)); [|rewrite decide_False by tauto; done]. rewrite filter_cons, IH.
  destruct (decide (P x)); [rewrite decide_True by done|rewrite decide_False by tauto]; done.
Qed.

Lemma filter_length_split {A} (P : A -> Prop) `{!forall x, Decision (P x)} (l : list A) :
  length (filter P l) + length (filter (fun x => ~ P x) l) = length l.
Proof.
  induction l as [|x l IH]; [done|]. rewrite !filter_cons.
  destruct (decide (P x)); [rewrite decide_False by tauto|rewrite decide_True by done]; cbn; lia.
Qed.

(** With distinct keys at most one element has a given key. *)
Lemma filter_key_one {A K} `{EqDecision K} (key : A -> K) (P : A -> Prop)
    `{!forall x, Decision (P x)} (l : list A) (x : A) :
  NoDup (key <$> l) -> x ∈ l -> P x -> filter (fun y => key y = key x /\ P y) l = [x].
Proof.
  induction l as [|y l IH]; [set_solver|]. intros [Hni Hn]%NoDup_cons Hx HP. rewrite filter_cons.
  apply elem_of_cons in Hx as [->|Hx].
  - rewrite decide_True by done. f_equal. apply filter_none. intros z Hz [Hk _]. apply Hni.
    rewrite <-Hk. by apply list_elem_of_fmap_2.
  - rewrite decide_False; [by apply IH|]. intros [Hk _]. apply Hni. rewrite Hk. by apply list_elem_of_fmap_2.
Qed.
Lemma NoDup_key_inj {A K} (key : A -> K) (l : list A) x y :
  NoDup (key <$> l) -> x ∈ l -> y ∈ l -> key x = key y -> x = y.
Proof.
  intros Hn [i Hi]%list_elem_of_lookup [j Hj]%list_elem_of_lookup Hk.
  assert (i = j) as ->; [|congruence].
  eapply NoDup_lookup; [exact Hn|rewrite list_lookup_fmap, Hi; reflexivity|].
  rewrite list_lookup_fmap, Hj. cbn. by rewrite Hk.
Qed.

(** ** Tables *)

Section TableFacts.
Context {R K : Type} `{EqDecision K} (key : R -> K).
Implicit Types (t : list R) (r : R) (k : K).

Lemma tbl_find_Some k t r : tbl_find key k t = Some r -> key r = k /\ r ∈ t.
Proof.
  induction t as [|r0 t IH]; cbn; [done|]. case_decide; intros; simplify_eq.
  - split; [done|]. set_solver.
  - destruct IH; [done|]. split; [done|]. set_solver.
Qed.
Lemma tbl_find_None k t : tbl_find key k t = None <-> (forall r, r ∈ t -> key r <> k).
Proof.
  induction t as [|r0 t IH]; cbn; [set_solver|]. case_decide.
  - split; [done|]. intros H1. exfalso. apply (H1 r0); [set_solver|done].
  - rewrite IH. set_solver.
Qed.
Lemma tbl_find_app k t1 t2 :
  tbl_find key k (t1 ++ t2) = match tbl_find key k t1 with Some r => Some r | None => tbl_find key k t2 end.
Proof. induction t1 as [|r t1 IH]; cbn; [done|]. by case_decide. Qed.
Lemma tbl_find_elem t r : NoDup (key <$> t) -> r ∈ t -> tbl_find key (key r) t = Some r.
Proof.
  induction t as [|r0 t IH]; cbn; [set_solver|]. intros [Hn Hd]%NoDup_cons Hr.
  case_decide as Hk.
  - apply elem_of_cons in Hr as [->|Hr]; [done|]. exfalso. apply Hn.
    rewrite Hk. by apply list_elem_of_fmap_2.
  - apply IH; [done|]. set_solver.
Qed.
Lemma tbl_find_upsert_eq upd r t :
  (forall r0, key r0 = key r -> key (upd r0 r) = key r) ->
  tbl_find key (key r) (tbl_upsert key upd r t) =
  Some (match tbl_find key (key r) t with Some r0 => upd r0 r | None => r end).
Proof.
  intros Hu. induction t as [|r0 t IH]; cbn; [by rewrite decide_True|].
  case_decide as Hk; cbn.
  - by rewrite decide_True by auto.
  - by rewrite decide_False.
Qed.
Lemma tbl_find_upsert_ne upd r t k :
  (forall r0, key r0 = key r -> key (upd r0 r) = key r) ->
  k <> key r -> tbl_find key k (tbl_upsert key upd r t) = tbl_find key k t.
Proof.
  intros Hu Hk. induction t as [|r0 t IH]; cbn; [by rewrite decide_False|].
  destruct (decide (key r0 = key r)) as [E|E]; cbn.
  - rewrite decide_False by (rewrite Hu; auto). by rewrite decide_False by congruence.
  - case_decide; [done|apply IH].
Qed.
Lemma tbl_upsert_keys upd r t :
  (forall r0, key r0 = key r -> key (upd r0 r) = key r) ->
  key <$> tbl_upsert key upd r t =
  match tbl_find key (key r) t with
  | Some _ => key <$> t
  | None => (key <$> t) ++ [key r]
  end.
Proof.
  intros Hu. induction t as [|r0 t IH]; cbn; [done|].
  case_decide as Hk; cbn; [by rewrite Hu by done; rewrite <-Hk|].
  rewrite IH. by destruct (tbl_find _ _ _).
Qed.
Lemma tbl_upsert_NoDup upd r t :
  (forall r0, key r0 = key r -> key (upd r0 r) = key r) ->
  NoDup (key <$> t) -> NoDup (key <$> tbl_upsert key upd r t).
Proof.
  intros Hu Hd. rewrite tbl_upsert_keys by done.
  destruct (tbl_find key (key r) t) eqn:E; [done|].
  apply NoDup_app; split_and!; [done| |by apply NoDup_singleton].
  intros k (r0 & Hk & Hr0)%list_elem_of_fmap Hk'%list_elem_of_singleton.
  rewrite tbl_find_None in E. apply (E r0); congruence.
Qed.
Lemma elem_of_tbl_upsert upd r t r' :
  r' ∈ tbl_upsert key upd r t ->
  r' ∈ t \/ r' = r \/ exists r0, r0 ∈ t /\ key r0 = key r /\ r' = upd r0 r.
Proof.
  induction t as [|r0 t IH]; cbn; [set_solver|].
  case_decide; rewrite elem_of_cons; intros [->|Hr].
  - right; right. exists r0. set_solver.
  - left. set_solver.
  - left. set_solver.
  - destruct (IH Hr) as [?|[?|(r1 & ? & ? & ?)]]; [set_solver|by auto|].
    right; right. exists r1. set_solver.
Qed.
Lemma filter_keys_NoDup (P : R -> Prop) `{!forall x, Decision (P x)} t :
  NoDup (key <$> t) -> NoDup (key <$> filter P t).
Proof.
  induction t as [|r t IH]; [done|]. intros Hd.
  apply NoDup_cons in Hd as [Hn Hd]. rewrite filter_cons. case_decide; [|by apply IH].
  cbn. apply NoDup_cons. split; [|by apply IH].
  intros (r0 & Hk & [_ Hr0]%list_elem_of_filter)%list_elem_of_fmap. apply Hn.
  rewrite Hk. by apply list_elem_of_fmap_2.
Qed.
Lemma tbl_find_filter (P : R -> Prop) `{!forall x, Decision (P x)} k t :
  NoDup (key <$> t) ->
  tbl_find key k (filter P t) =
  match tbl_find key k t with
  | Some r => if decide (P r) then Some r else None
  | None => None
  end.
Proof.
  intros Hd. destruct (tbl_find key k t) as [r|] eqn:E.
  - apply tbl_find_Some in E as [<- Hr]. case_decide.
    + apply tbl_find_elem; [by apply filter_keys_NoDup|]. by apply list_elem_of_filter.
    + apply tbl_find_None. intros r' [HP Hr']%list_elem_of_filter Hk.
      pose proof (tbl_find_elem t r Hd Hr) as H1.
      pose proof (tbl_find_elem t r' Hd Hr') as H2. rewrite Hk, H1 in H2. by simplify_eq.
  - rewrite tbl_find_None in *. intros r [_ Hr]%list_elem_of_filter. eauto.
Qed.
Lemma tbl_update_keys f k t :
  (forall r, key (f r) = key r) -> key <$> tbl_update key f k t = key <$> t.
Proof.
  intros Hf. unfold tbl_update. rewrite <-list_fmap_compose. apply list_fmap_ext.
  intros i r _. cbn. case_decide; [apply Hf|done].
Qed.
Lemma tbl_find_update f k t k' :
  (forall r, key (f r) = key r) ->
  tbl_find key k' (tbl_update key f k t) =
  (fun r => if decide (k' = k) then f r else r) <$> tbl_find key k' t.
Proof.
  intros Hf. induction t as [|r t IH]; cbn; [done|].
  destruct (decide (key r = k)) as [<-|Hk]; cbn.
  - rewrite Hf. destruct (decide (key r = k')) as [<-|E]; cbn; [by rewrite decide_True|apply IH].
  - destruct (decide (key r = k')) as [<-|E]; cbn; [by rewrite decide_False|apply IH].
Qed.
End TableFacts.
