(* ===== verification/KernelModels.v ===== *)
(** * Kernel domain models (agent_os/kernel/models.py)

    The enumerations of the kernel with their string values, the control blocks
    and events as records, and the pydantic dump and load of the objects that
    travel through the journal.  A [datetime] is an instant in microseconds; a
    [dict[str, Any]] is a JSON object. *)

From S2P Require Import Prelude.

Module ProcessState.
Inductive t : Type := CREATED | READY | RUNNING | BLOCKED | SUSPENDED | EXITED | FAILED.
#[global] Instance t_eq_dec : EqDecision t.
Proof. solve_decision. Defined.
Definition value (s : t) : string :=
  match s with
  | CREATED => "created" | READY => "ready" | RUNNING => "running" | BLOCKED => "blocked"
  | SUSPENDED => "suspended" | EXITED => "exited" | FAILED => "failed"
  end.
Definition all : list t := [CREATED; READY; RUNNING; BLOCKED; SUSPENDED; EXITED; FAILED].
(** [ProcessState(v)]; [None] is the [ValueError]. *)
Definition of_value (v : string) : option t := List.find (fun s => String.eqb (value s) v) all.
End ProcessState.

Definition TERMINAL_PROCESS_STATES : list ProcessState.t := [ProcessState.EXITED; ProcessState.FAILED].

Module ActionState.
Inductive t : Type :=
  SUBMITTED | ADMITTED | RUNNING | COMMITTED | FAILED | CANCELLED | TIMED_OUT | UNCERTAIN.
#[global] Instance t_eq_dec : EqDecision t.
Proof. solve_decision. Defined.
Definition value (s : t) : string :=
  match s with
  | SUBMITTED => "submitted" | ADMITTED => "admitted" | RUNNING => "running"
  | COMMITTED => "committed" | FAILED => "failed" | CANCELLED => "cancelled"
  | TIMED_OUT => "timed_out" | UNCERTAIN => "uncertain"
  end.
Definition all : list t :=
  [SUBMITTED; ADMITTED; RUNNING; COMMITTED; FAILED; CANCELLED; TIMED_OUT; UNCERTAIN].
Definition of_value (v : string) : option t := List.find (fun s => String.eqb (value s) v) all.
End ActionState.

Definition TERMINAL_ACTION_STATES : list ActionState.t :=
  [ActionState.COMMITTED; ActionState.FAILED; ActionState.CANCELLED;
   ActionState.TIMED_OUT; ActionState.UNCERTAIN].

Module SideEffectClass.
Inductive t : Type := PURE | IDEMPOTENT | NON_REVERSIBLE | UNKNOWN.
#[global] Instance t_eq_dec : EqDecision t.
Proof. solve_decision. Defined.
Definition value (s : t) : string :=
  match s with
  | PURE => "pure" | IDEMPOTENT => "idempotent" | NON_REVERSIBLE => "non_reversible"
  | UNKNOWN => "unknown"
  end.
Definition all : list t := [PURE; IDEMPOTENT; NON_REVERSIBLE; UNKNOWN].
Definition of_value (v : string) : option t := List.find (fun s => String.eqb (value s) v) all.
End SideEffectClass.

Module RecoveryPolicy.
Inductive t : Type := RETRY | INSPECT | UNCERTAIN | DEAD_LETTER.
#[global] Instance t_eq_dec : EqDecision t.
Proof. solve_decision. Defined.
Definition value (s : t) : string :=
  match s with
  | RETRY => "retry" | INSPECT => "inspect" | UNCERTAIN => "uncertain"
  | DEAD_LETTER => "dead_letter"
  end.
Definition all : list t := [RETRY; INSPECT; UNCERTAIN; DEAD_LETTER].
Definition of_value (v : string) : option t := List.find (fun s => String.eqb (value s) v) all.
End RecoveryPolicy.

Inductive lease_mode : Type := shared | exclusive.
#[global] Instance lease_mode_eq_dec : EqDecision lease_mode.
Proof. solve_decision. Defined.
Definition mode_value (m : lease_mode) : string :=
  match m with shared => "shared" | exclusive => "exclusive" end.
Definition mode_of_value (v : string) : option lease_mode :=
  if String.eqb v "shared" then Some shared
  else if String.eqb v "exclusive" then Some exclusive else None.

(** ** Process control block *)

Record ProcessControlBlock : Type := mkPCB {
  pcb_pid : string;
  parent_pid : option string;
  program_id : string;
  pcb_state : ProcessState.t;
  priority : Z;
  effective_priority : Z;
  capability_set_id : string;
  namespace_id : string;
  resource_group_id : string;
  program_state_ref : string;
  pending_request_id : option string;
  wait_condition : option jobj;
  checkpoint_ref : option string;
  exit_code : option string;
  result_ref : option string;
  event_cursor : Z;
  pcb_created_at : Z }.

(** ** Resource claims, leases *)

(** A claim [{"resource_id": ..., "mode": ...}]; an absent mode is exclusive. *)
Record claim : Type := mkClaim { claim_resource : string; claim_mode_opt : option lease_mode }.
#[global] Instance claim_eq_dec : EqDecision claim.
Proof. solve_decision. Defined.
(** [claim.get("mode", "exclusive")] *)
Definition claim_mode (c : claim) : lease_mode := default exclusive (claim_mode_opt c).

Record ResourceLease : Type := mkLease {
  lease_id : string;
  resource_id : string;
  owner_pid : string;
  mode : lease_mode;
  fencing_token : Z;
  acquired_at : Z;
  expires_at : Z;
  renewable : bool;
  revocable : bool }.
#[global] Instance ResourceLease_eq_dec : EqDecision ResourceLease.
Proof. solve_decision. Defined.

(** ** Action control block *)

Record ActionControlBlock : Type := mkACB {
  action_id : string;
  acb_pid : string;
  device_type : string;
  operation : string;
  arguments : jobj;
  acb_state : ActionState.t;
  resource_claims : list claim;
  lease_ids : list string;
  fencing_tokens : list (string * Z);
  idempotency_key : option string;
  side_effect_class : SideEffectClass.t;
  recovery_policy : RecoveryPolicy.t;
  retry_count : Z;
  timeout_seconds : option Z;
  acb_result : option jobj;
  acb_error : option jobj;
  submitted_at : Z;
  finished_at : option Z }.

(** ** Journal entry *)

Record KernelEvent : Type := mkEvent {
  event_id : string;
  journal_offset : Z;
  ev_pid : string;
  process_sequence : Z;
  event_type : string;
  causation_id : option string;
  correlation_id : option string;
  payload : jobj;
  created_at : Z }.

(** ** Signals *)

Record Signal : Type := mkSignal {
  signal_id : string;
  target_pid : string;
  signal_type : string;
  source_pid : option string;
  sig_payload : jobj;
  sig_created_at : Z;
  consumed : bool }.

(** ** Capabilities *)

Record Capability : Type := mkCapability {
  capability_id : string;
  resource_pattern : string;
  operations : gset string;
  constraints : jobj }.

Record CapabilitySet : Type := mkCapabilitySet {
  set_id : string;
  cs_pid : string;
  capabilities : list Capability }.

(** ** Pydantic dumps and loads *)

Definition pcb_dump (p : ProcessControlBlock) : jobj :=
  [("pid", JStr (pcb_pid p)); ("parent_pid", jstr_opt (parent_pid p));
   ("program_id", JStr (program_id p)); ("state", JStr (ProcessState.value (pcb_state p)));
   ("priority", JInt (priority p)); ("effective_priority", JInt (effective_priority p));
   ("capability_set_id", JStr (capability_set_id p)); ("namespace_id", JStr (namespace_id p));
   ("resource_group_id", JStr (resource_group_id p));
   ("program_state_ref", JStr (program_state_ref p));
   ("pending_request_id", jstr_opt (pending_request_id p));
   ("wait_condition", jobj_opt (wait_condition p));
   ("checkpoint_ref", jstr_opt (checkpoint_ref p)); ("exit_code", jstr_opt (exit_code p));
   ("result_ref", jstr_opt (result_ref p)); ("event_cursor", JInt (event_cursor p));
   ("created_at", JTime (pcb_created_at p))].

(** [ProcessControlBlock( **o)]; [None] is the [ValidationError].  [now] is the
    default of [created_at]. *)
Definition pcb_load (now : Z) (o : jobj) : option ProcessControlBlock :=
  pid ← req as_str "pid" o;
  parent ← nul as_str "parent_pid" o;
  prog ← req as_str "program_id" o;
  st ← dfl (fun j => as_str j ≫= ProcessState.of_value) ProcessState.CREATED "state" o;
  prio ← dfl as_int 10%Z "priority" o;
  eprio ← dfl as_int 10%Z "effective_priority" o;
  caps ← req as_str "capability_set_id" o;
  ns ← req as_str "namespace_id" o;
  rg ← dfl as_str "default" "resource_group_id" o;
  psr ← dfl as_str "" "program_state_ref" o;
  pend ← nul as_str "pending_request_id" o;
  wc ← nul as_obj "wait_condition" o;
  ck ← nul as_str "checkpoint_ref" o;
  ec ← nul as_str "exit_code" o;
  rr ← nul as_str "result_ref" o;
  cur ← dfl as_int 0%Z "event_cursor" o;
  cr ← dfl as_time now "created_at" o;
  Some (mkPCB pid parent prog st prio eprio caps ns rg psr pend wc ck ec rr cur cr).

Definition lease_dump (l : ResourceLease) : jobj :=
  [("lease_id", JStr (lease_id l)); ("resource_id", JStr (resource_id l));
   ("owner_pid", JStr (owner_pid l)); ("mode", JStr (mode_value (mode l)));
   ("fencing_token", JInt (fencing_token l)); ("acquired_at", JTime (acquired_at l));
   ("expires_at", JTime (expires_at l)); ("renewable", JBool (renewable l));
   ("revocable", JBool (revocable l))].

(** [ResourceLease( **o)]: [expires_at] has no default ([_require_expires_at])
    and a token must be [>= 0]; [fresh] and [now] are the defaults of [lease_id]
    and [acquired_at]. *)
Definition lease_load (fresh : string) (now : Z) (o : jobj) : option ResourceLease :=
  lid ← dfl as_str fresh "lease_id" o;
  res ← req as_str "resource_id" o;
  own ← req as_str "owner_pid" o;
  md ← dfl (fun j => as_str j ≫= mode_of_value) exclusive "mode" o;
  tok ← dfl as_int 0%Z "fencing_token" o;
  acq ← dfl as_time now "acquired_at" o;
  exp ← req as_time "expires_at" o;
  ren ← dfl as_bool true "renewable" o;
  rev ← dfl as_bool true "revocable" o;
  if (tok <? 0)%Z then None else Some (mkLease lid res own md tok acq exp ren rev).

Definition signal_dump (s : Signal) : jobj :=
  [("signal_id", JStr (signal_id s)); ("target_pid", JStr (target_pid s));
   ("signal_type", JStr (signal_type s)); ("source_pid", jstr_opt (source_pid s));
   ("payload", JObj (sig_payload s)); ("created_at", JTime (sig_created_at s));
   ("consumed", JBool (consumed s))].

Definition signal_load (fresh : string) (now : Z) (o : jobj) : option Signal :=
  sid ← dfl as_str fresh "signal_id" o;
  tgt ← req as_str "target_pid" o;
  ty ← req as_str "signal_type" o;
  src ← nul as_str "source_pid" o;
  pl ← dfl as_obj [] "payload" o;
  cr ← dfl as_time now "created_at" o;
  co ← dfl as_bool false "consumed" o;
  Some (mkSignal sid tgt ty src pl cr co).

Definition claim_dump (c : claim) : json :=
  JObj (("resource_id", JStr (claim_resource c)) ::
        match claim_mode_opt c with Some m => [("mode", JStr (mode_value m))] | None => [] end).
Definition claim_load (j : json) : option claim :=
  o ← as_obj j;
  r ← req as_str "resource_id" o;
  match jget "mode" o with
  | None => Some (mkClaim r None)
  | Some m => md ← as_str m ≫= mode_of_value; Some (mkClaim r (Some md))
  end.

Definition tokens_dump (l : list (string * Z)) : jobj := (fun p => (p.1, JInt p.2)) <$> l.
Definition tokens_load (o : jobj) : option (list (string * Z)) :=
  mapM (fun p => z ← as_int p.2; Some (p.1, z)) o.

Definition acb_dump (a : ActionControlBlock) : jobj :=
  [("action_id", JStr (action_id a)); ("pid", JStr (acb_pid a));
   ("device_type", JStr (device_type a)); ("operation", JStr (operation a));
   ("arguments", JObj (arguments a)); ("state", JStr (ActionState.value (acb_state a)));
   ("resource_claims", JList (claim_dump <$> resource_claims a));
   ("lease_ids", JList (JStr <$> lease_ids a));
   ("fencing_tokens", JObj (tokens_dump (fencing_tokens a)));
   ("idempotency_key", jstr_opt (idempotency_key a));
   ("side_effect_class", JStr (SideEffectClass.value (side_effect_class a)));
   ("recovery_policy", JStr (RecoveryPolicy.value (recovery_policy a)));
   ("retry_count", JInt (retry_count a)); ("timeout_seconds", jint_opt (timeout_seconds a));
   ("result", jobj_opt (acb_result a)); ("error", jobj_opt (acb_error a));
   ("submitted_at", JTime (submitted_at a)); ("finished_at", jtime_opt (finished_at a))].

Definition acb_load (fresh : string) (now : Z) (o : jobj) : option ActionControlBlock :=
  aid ← dfl as_str fresh "action_id" o;
  pid ← req as_str "pid" o;
  dev ← req as_str "device_type" o;
  op ← req as_str "operation" o;
  args ← dfl as_obj [] "arguments" o;
  st ← dfl (fun j => as_str j ≫= ActionState.of_value) ActionState.SUBMITTED "state" o;
  rcs ← dfl (fun j => as_list j ≫= mapM claim_load) [] "resource_claims" o;
  lids ← dfl (fun j => as_list j ≫= mapM as_str) [] "lease_ids" o;
  toks ← dfl (fun j => as_obj j ≫= tokens_load) [] "fencing_tokens" o;
  idem ← nul as_str "idempotency_key" o;
  sec ← dfl (fun j => as_str j ≫= SideEffectClass.of_value) SideEffectClass.PURE
        "side_effect_class" o;
  rp ← dfl (fun j => as_str j ≫= RecoveryPolicy.of_value) RecoveryPolicy.RETRY
       "recovery_policy" o;
  rc ← dfl as_int 0%Z "retry_count" o;
  ts ← nul as_int "timeout_seconds" o;
  res ← nul as_obj "result" o;
  err ← nul as_obj "error" o;
  sub ← dfl as_time now "submitted_at" o;
  fin ← nul as_time "finished_at" o;
  if (rc <? 0)%Z then None
  else Some (mkACB aid pid dev op args st rcs lids toks idem sec rp rc ts res err sub fin).

(** ** Facts *)

Arguments ProcessState.of_value : simpl never.
Arguments ActionState.of_value : simpl never.
Arguments SideEffectClass.of_value : simpl never.
Arguments RecoveryPolicy.of_value : simpl never.
Arguments claim_load : simpl never.
Arguments claim_dump : simpl never.
Arguments tokens_load : simpl never.
Arguments tokens_dump : simpl never.

Lemma process_value_inj s1 s2 : ProcessState.value s1 = ProcessState.value s2 -> s1 = s2.
Proof. by destruct s1, s2. Qed.
Lemma process_of_value s : ProcessState.of_value (ProcessState.value s) = Some s.
Proof. by destruct s. Qed.
Lemma action_of_value s : ActionState.of_value (ActionState.value s) = Some s.
Proof. by destruct s. Qed.
Lemma side_effect_of_value s : SideEffectClass.of_value (SideEffectClass.value s) = Some s.
Proof. by destruct s. Qed.
Lemma recovery_of_value s : RecoveryPolicy.of_value (RecoveryPolicy.value s) = Some s.
Proof. by destruct s. Qed.
Lemma mode_of_mode_value m : mode_of_value (mode_value m) = Some m.
Proof. by destruct m. Qed.
#[export] Hint Rewrite process_of_value action_of_value side_effect_of_value
  recovery_of_value mode_of_mode_value : lhos_rw.

Lemma mapM_roundtrip {A B} (f : A -> B) (g : B -> option A) l :
  (forall x, g (f x) = Some x) -> mapM g (f <$> l) = Some l.
Proof. intros Hg. induction l as [|x l IH]; cbn; [done|]. rewrite Hg; cbn. by rewrite IH. Qed.
Lemma lease_roundtrip fresh now l :
  (0 <= fencing_token l)%Z -> lease_load fresh now (lease_dump l) = Some l.
Proof.
  intros Ht. destruct l as [lid res own md tok acq exp ren rev]; cbn in Ht.
  unfold lease_load, lease_dump, req, dfl; cbn. rewrite mode_of_mode_value; cbn.
  by rewrite (proj2 (Z.ltb_ge _ _)).
Qed.
Lemma signal_roundtrip fresh now s : signal_load fresh now (signal_dump s) = Some s.
Proof. destruct s as [? ? ? [] ? ? ?]; reflexivity. Qed.
Lemma pcb_roundtrip now p : pcb_load now (pcb_dump p) = Some p.
Proof.
  destruct p as [? [] ? [] ? ? ? ? ? ? [] [] [] [] [] ? ?]; reflexivity.
Qed.
Lemma claim_roundtrip c : claim_load (claim_dump c) = Some c.
Proof. by destruct c as [r [[]|]]. Qed.
Lemma tokens_roundtrip l : tokens_load (tokens_dump l) = Some l.
Proof. apply mapM_roundtrip. by intros []. Qed.
Lemma acb_roundtrip fresh now a :
  (0 <= retry_count a)%Z -> acb_load fresh now (acb_dump a) = Some a.
Proof.
  intros Hr. destruct a as [aid pid dev op args st rcs lids toks idem sec rp rc ts res err sub fin].
  cbn in Hr. unfold acb_load, acb_dump, req, dfl, nul; cbn.
  rewrite action_of_value; cbn. rewrite (mapM_roundtrip claim_dump) by apply claim_roundtrip; cbn.
  rewrite (mapM_roundtrip JStr) by done; cbn. rewrite tokens_roundtrip; cbn.
  destruct idem; cbn; rewrite side_effect_of_value; cbn; rewrite recovery_of_value; cbn;
    destruct ts, res, err, fin; cbn; by rewrite (proj2 (Z.ltb_ge _ _)).
Qed.
