(* ===== verification/StateMachine.v ===== *)
(** * Process and Action state machines (agent_os/kernel/state_machine.py)

    The two transition tables, the validation of a transition and its in-place
    application, and what the tables imply for whole lifecycles. *)

From S2P Require Import Prelude KernelModels.
From Hammer Require Import Tactics.

(** ** Process state machine *)

Definition PROCESS_TRANSITIONS : list ((ProcessState.t * ProcessState.t) * string) :=
  [((ProcessState.CREATED, ProcessState.READY), "spawn_complete");
   ((ProcessState.READY, ProcessState.RUNNING), "scheduled");
   ((ProcessState.RUNNING, ProcessState.READY), "yielded");
   ((ProcessState.RUNNING, ProcessState.BLOCKED), "blocked");
   ((ProcessState.BLOCKED, ProcessState.READY), "woken");
   ((ProcessState.READY, ProcessState.SUSPENDED), "paused");
   ((ProcessState.BLOCKED, ProcessState.SUSPENDED), "paused");
   ((ProcessState.SUSPENDED, ProcessState.READY), "resumed");
   ((ProcessState.RUNNING, ProcessState.EXITED), "exit");
   ((ProcessState.READY, ProcessState.EXITED), "exit");
   ((ProcessState.BLOCKED, ProcessState.EXITED), "exit");
   ((ProcessState.RUNNING, ProcessState.FAILED), "error");
   ((ProcessState.READY, ProcessState.FAILED), "error");
   ((ProcessState.BLOCKED, ProcessState.FAILED), "error");
   ((ProcessState.SUSPENDED, ProcessState.FAILED), "error")].

(** [table[key]], [None] when the key is absent *)
Fixpoint assoc {K V} `{EqDecision K} (k : K) (l : list (K * V)) : option V :=
  match l with
  | [] => None
  | (k', v) :: l' => if decide (k = k') then Some v else assoc k l'
  end.

Definition validate_process_transition (pcb : ProcessControlBlock) (target : ProcessState.t)
    (wc : option jobj) : result string :=
  if decide (pcb_state pcb ∈ TERMINAL_PROCESS_STATES) then
    Raise (TerminalStateError (pcb_pid pcb) (ProcessState.value (pcb_state pcb)))
  else
    match assoc (pcb_state pcb, target) PROCESS_TRANSITIONS with
    | None => Raise (IllegalStateTransition (pcb_pid pcb)
                       (ProcessState.value (pcb_state pcb)) (ProcessState.value target))
    | Some reason =>
        if decide (target = ProcessState.BLOCKED /\ wc = None)
        then Raise (WaitConditionMissing (pcb_pid pcb))
        else Ok reason
    end.

(** [pcb.state = s; pcb.wait_condition = wc] *)
Definition pcb_set_state (p : ProcessControlBlock) (s : ProcessState.t) (wc : option jobj) :=
  mkPCB (pcb_pid p) (parent_pid p) (program_id p) s (priority p) (effective_priority p)
    (capability_set_id p) (namespace_id p) (resource_group_id p) (program_state_ref p)
    (pending_request_id p) wc (checkpoint_ref p) (exit_code p) (result_ref p)
    (event_cursor p) (pcb_created_at p).

Definition apply_process_transition (pcb : ProcessControlBlock) (target : ProcessState.t)
    (wc : option jobj) : result (string * ProcessControlBlock) :=
  match validate_process_transition pcb target wc with
  | Raise e => Raise e
  | Ok reason =>
      Ok (reason,
          pcb_set_state pcb target
            (if decide (target = ProcessState.BLOCKED) then wc
             else if decide (target ∈ [ProcessState.READY; ProcessState.RUNNING] \/
                             target ∈ TERMINAL_PROCESS_STATES) then None
             else wait_condition pcb))
  end.

(** ** Action state machine *)

Definition ACTION_TRANSITIONS : list ((ActionState.t * ActionState.t) * string) :=
  [((ActionState.SUBMITTED, ActionState.ADMITTED), "admission_pass");
   ((ActionState.SUBMITTED, ActionState.FAILED), "admission_fail");
   ((ActionState.ADMITTED, ActionState.RUNNING), "dispatched");
   ((ActionState.ADMITTED, ActionState.FAILED), "dispatch_precondition_failed");
   ((ActionState.ADMITTED, ActionState.CANCELLED), "cancelled_pre_dispatch");
   ((ActionState.RUNNING, ActionState.COMMITTED), "driver_success");
   ((ActionState.RUNNING, ActionState.FAILED), "driver_failure");
   ((ActionState.RUNNING, ActionState.TIMED_OUT), "deadline_exceeded");
   ((ActionState.RUNNING, ActionState.CANCELLED), "cancelled_in_flight");
   ((ActionState.RUNNING, ActionState.UNCERTAIN), "driver_unknown")].

Definition validate_action_transition (acb : ActionControlBlock) (target : ActionState.t)
    : result string :=
  if decide (acb_state acb ∈ TERMINAL_ACTION_STATES) then
    Raise (TerminalStateError (action_id acb) (ActionState.value (acb_state acb)))
  else
    match assoc (acb_state acb, target) ACTION_TRANSITIONS with
    | None => Raise (IllegalStateTransition (action_id acb)
                       (ActionState.value (acb_state acb)) (ActionState.value target))
    | Some reason => Ok reason
    end.

(** [acb.state = s] *)
Definition acb_set_state (a : ActionControlBlock) (s : ActionState.t) :=
  mkACB (action_id a) (acb_pid a) (device_type a) (operation a) (arguments a) s
    (resource_claims a) (lease_ids a) (fencing_tokens a) (idempotency_key a)
    (side_effect_class a) (recovery_policy a) (retry_count a) (timeout_seconds a)
    (acb_result a) (acb_error a) (submitted_at a) (finished_at a).

Definition apply_action_transition (acb : ActionControlBlock) (target : ActionState.t)
    : result (string * ActionControlBlock) :=
  match validate_action_transition acb target with
  | Raise e => Raise e
  | Ok reason => Ok (reason, acb_set_state acb target)
  end.

(** ** Lifecycles *)

(** One successful transition of a process or an action. *)
Definition process_step (p p' : ProcessControlBlock) : Prop :=
  exists target wc reason, apply_process_transition p target wc = Ok (reason, p').
Definition action_step (a a' : ActionControlBlock) : Prop :=
  exists target reason, apply_action_transition a target = Ok (reason, a').

(** The states an action goes through along a chain of transitions. *)
Inductive action_trace : ActionControlBlock -> list ActionState.t -> ActionControlBlock -> Prop :=
| trace_here a : action_trace a [acb_state a] a
| trace_step a a' a'' tr :
    action_step a a' -> action_trace a' tr a'' -> action_trace a (acb_state a :: tr) a''.

(** What the kernel relies on about a control block's wait condition: it is
    present while the process is BLOCKED and absent while it can run or is over. *)
Definition wait_ok (p : ProcessControlBlock) : Prop :=
  (pcb_state p = ProcessState.BLOCKED -> is_Some (wait_condition p)) /\
  (pcb_state p <> ProcessState.BLOCKED -> pcb_state p <> ProcessState.SUSPENDED ->
   wait_condition p = None).

(** The fields a transition must leave alone. *)
Definition same_identity (p p' : ProcessControlBlock) : Prop :=
  pcb_pid p' = pcb_pid p /\ parent_pid p' = parent_pid p /\ program_id p' = program_id p /\
  priority p' = priority p /\ capability_set_id p' = capability_set_id p /\
  namespace_id p' = namespace_id p /\ exit_code p' = exit_code p /\
  pcb_created_at p' = pcb_created_at p.

Lemma process_step_wait_ok p p' : process_step p p' -> wait_ok p -> wait_ok p'.
Proof.
  intros (target & wc & reason & H) [Hb Hn]. unfold apply_process_transition in H.
  destruct (validate_process_transition p target wc) as [r|e] eqn:V; simplify_eq.
  unfold validate_process_transition in V. case_decide; [done|]. case_match; [|done].
  case_decide as HG; [done|]. unfold wait_ok; cbn. destruct target; cbn; try by split.
  - by destruct (pcb_state p).
  - split; [|done]. intros _. destruct wc; [done|]. exfalso. by apply HG.
Qed.

Lemma process_step_identity p p' : process_step p p' -> same_identity p p'.
Proof.
  intros (target & wc & reason & H). unfold apply_process_transition in H.
  destruct (validate_process_transition p target wc); simplify_eq. done.
Qed.

Lemma process_step_inv p p' :
  process_step p p' ->
  (pcb_state p ∉ TERMINAL_PROCESS_STATES) /\
  is_Some (assoc (pcb_state p, pcb_state p') PROCESS_TRANSITIONS).
Proof.
  intros (target & wc & reason & H). unfold apply_process_transition in H.
  destruct (validate_process_transition p target wc) as [r|e] eqn:V; simplify_eq.
  cbn [pcb_state pcb_set_state]. unfold validate_process_transition in V. case_decide; [done|]. case_match eqn:T; [|done].
  by eauto.
Qed.

Lemma action_step_inv a a' :
  action_step a a' ->
  (acb_state a ∉ TERMINAL_ACTION_STATES) /\ a' = acb_set_state a (acb_state a') /\
  is_Some (assoc (acb_state a, acb_state a') ACTION_TRANSITIONS).
Proof.
  intros (target & reason & H). unfold apply_action_transition in H.
  destruct (validate_action_transition a target) as [r|e] eqn:V; simplify_eq.
  cbn [acb_state acb_set_state]. unfold validate_action_transition in V. case_decide; [done|]. case_match eqn:T; [|done].
  by eauto.
Qed.

Lemma apply_action_Ok a target reason a' :
  apply_action_transition a target = Ok (reason, a') ->
  (acb_state a ∉ TERMINAL_ACTION_STATES) /\ a' = acb_set_state a target.
Proof.
  unfold apply_action_transition, validate_action_transition. case_decide; [done|].
  case_match; [|done]. by intros; simplify_eq.
Qed.

(** The chains of the action machine are short: a table argument. *)
Lemma action_trace_shape a tr a' :
  action_trace a tr a' ->
  match acb_state a with
  | ActionState.SUBMITTED => length tr <= 4
  | ActionState.ADMITTED => length tr <= 3
  | ActionState.RUNNING => length tr <= 2
  | _ => length tr = 1
  end /\ last tr = Some (acb_state a').
Proof.
  induction 1 as [a|a a' a'' tr Hs Ht [IH IHl]]; [destruct (acb_state a); cbn; split; done || lia|].
  destruct (action_step_inv _ _ Hs) as (Hn & _ & [r Hr]). split.
  - destruct (acb_state a), (acb_state a'); vm_compute in Hr; try done; cbn in *; lia.
  - destruct Ht; cbn in *; done.
Qed.

Lemma action_trace_commit a tr a' :
  action_trace a tr a' -> acb_state a' = ActionState.COMMITTED ->
  match acb_state a with
  | ActionState.SUBMITTED =>
      tr = [ActionState.SUBMITTED; ActionState.ADMITTED; ActionState.RUNNING; ActionState.COMMITTED]
  | ActionState.ADMITTED => tr = [ActionState.ADMITTED; ActionState.RUNNING; ActionState.COMMITTED]
  | ActionState.RUNNING => tr = [ActionState.RUNNING; ActionState.COMMITTED]
  | ActionState.COMMITTED => tr = [ActionState.COMMITTED]
  | _ => False
  end.
Proof.
  induction 1 as [a|a a' a'' tr Hs Ht IH]; intros Hc; [by rewrite Hc|]. specialize (IH Hc).
  destruct (action_step_inv _ _ Hs) as (Hn & _ & [r Hr]).
  destruct (acb_state a), (acb_state a'); vm_compute in Hr; try done; by subst.
Qed.

(** Small control blocks for the evaluations below. *)
Definition demo_pcb (s : ProcessState.t) : ProcessControlBlock :=
  mkPCB "p1" None "prog" s 10 10 "caps" "default" "default" "p1" None None None None None 0 0.
Definition demo_acb (s : ActionState.t) : ActionControlBlock :=
  mkACB "a1" "p1" "tool/mock" "write" [] s [] [] [] None SideEffectClass.PURE
    RecoveryPolicy.RETRY 0 None None None 0 None.

(** The life of a process.  From a freshly created control block, any
    sequence of successful transitions keeps the wait condition present exactly
    while the process is blocked (a suspended process may keep it), leaves the
    identity, scheduling and security fields alone, and ends for good in a
    terminal state: no transition leaves EXITED or FAILED. *)
Theorem process_lifecycle p p' :
  pcb_state p = ProcessState.CREATED -> wait_condition p = None -> rtc process_step p p' ->
  wait_ok p' /\ same_identity p p' /\
  (pcb_state p' ∈ TERMINAL_PROCESS_STATES -> forall p'', ~ process_step p' p'').
Proof.
  intros Hc Hw Hr. split_and!.
  - assert (wait_ok p) as H0 by (by split; rewrite Hc).
    clear Hc Hw. induction Hr; eauto using process_step_wait_ok.
  - clear Hc Hw. induction Hr as [|x y z Hxy _ IH]; [done|].
    apply process_step_identity in Hxy. unfold same_identity in *. intuition congruence.
  - intros Ht p'' Hs. by apply process_step_inv in Hs as [? _].
Qed.

Lemma process_lifecycle_witness :
  wait_ok (pcb_set_state (demo_pcb ProcessState.READY) ProcessState.READY None) /\
  forall p'', ~ process_step (pcb_set_state (demo_pcb ProcessState.READY) ProcessState.FAILED None) p''.
Proof.
  split.
  - apply (process_lifecycle (demo_pcb ProcessState.CREATED)); [done|done|].
    apply rtc_once. by exists ProcessState.READY, None, "spawn_complete".
  - apply (process_lifecycle (demo_pcb ProcessState.CREATED)); [done|done| |set_solver].
    eapply rtc_l; [by exists ProcessState.READY, None, "spawn_complete"|].
    apply rtc_once. by exists ProcessState.FAILED, None, "error".
Defined.

(** An action commits only along the one legal path.  A chain of
    transitions from SUBMITTED that ends COMMITTED went through ADMITTED and
    RUNNING, in that order and once each; and no chain of an action has more
    than three transitions. *)
Theorem action_commit_path a tr a' :
  action_trace a tr a' -> acb_state a = ActionState.SUBMITTED ->
  length tr <= 4 /\
  (acb_state a' = ActionState.COMMITTED ->
   tr = [ActionState.SUBMITTED; ActionState.ADMITTED; ActionState.RUNNING; ActionState.COMMITTED]).
Proof.
  intros Ht Hs. split.
  - apply action_trace_shape in Ht as [H _]. by rewrite Hs in H.
  - intros Hc. pose proof (action_trace_commit _ _ _ Ht Hc) as H. by rewrite Hs in H.
Qed.

Lemma action_commit_path_witness :
  length [ActionState.SUBMITTED; ActionState.ADMITTED; ActionState.RUNNING;
          ActionState.COMMITTED] <= 4.
Proof.
  refine (proj1 (action_commit_path (demo_acb ActionState.SUBMITTED) _
                   (demo_acb ActionState.COMMITTED) _ eq_refl)).
  eapply (trace_step (demo_acb ActionState.SUBMITTED) (demo_acb ActionState.ADMITTED)).
  { by exists ActionState.ADMITTED, "admission_pass". }
  eapply (trace_step (demo_acb ActionState.ADMITTED) (demo_acb ActionState.RUNNING)).
  { by exists ActionState.RUNNING, "dispatched". }
  eapply (trace_step (demo_acb ActionState.RUNNING) (demo_acb ActionState.COMMITTED)).
  { by exists ActionState.COMMITTED, "driver_success". }
  apply (trace_here (demo_acb ActionState.COMMITTED)).
Defined.
