(* ===== verification/Storage.v ===== *)
(** * Durable state (agent_os/storage/sqlite.py, schema.py)

    The tables of the kernel database as one record, in rowid order, with the
    clock and the source of fresh identifiers the services draw from.  A
    transaction of [SQLiteStorage] is [Prelude.transaction]: every service runs
    its blocks under the one writer lock, so blocks do not interleave.  The clock
    does not move inside one operation; a block that is rolled back gives back the
    identifiers it drew, which nothing stored refers to.  Rows are the records the
    services' [_row_to_*] helpers read; the repair of malformed rows in those
    helpers is not modelled. *)

From S2P Require Import Prelude KernelModels.

(** A row of [checkpoints]. *)
Record ProcessCheckpoint : Type := mkCheckpoint {
  checkpoint_id : string;
  ck_pid : string;
  ck_journal_offset : Z;
  ck_process_sequence : Z;
  pcb_snapshot : jobj;
  ck_program_state_ref : string;
  ck_wait_condition : option jobj;
  mailbox_cursor : Z;
  ck_created_at : Z }.

Record KState : Type := mkKState {
  journal_events : list KernelEvent;
  (** [journal_meta.next_offset]; [None] when the row is missing *)
  meta_next_offset : option Z;
  processes_projection : list ProcessControlBlock;
  program_states : list (string * jobj);
  actions_projection : list ActionControlBlock;
  leases_projection : list ResourceLease;
  resource_fencing_tokens : gmap string Z;
  (** [(pid, resource_id)] *)
  lease_waiters : list (string * string);
  signals_projection : list Signal;
  capability_sets : list CapabilitySet;
  checkpoints : list ProcessCheckpoint;
  (** [datetime.now(UTC)] *)
  clock_now : Z;
  (** how many identifiers [uuid4] has produced *)
  uuid_count : N }.

Definition set_journal f (s : KState) : KState :=
  mkKState (f (journal_events s)) (meta_next_offset s) (processes_projection s) (program_states s)
    (actions_projection s) (leases_projection s) (resource_fencing_tokens s) (lease_waiters s)
    (signals_projection s) (capability_sets s) (checkpoints s) (clock_now s) (uuid_count s).
Definition set_meta f (s : KState) : KState :=
  mkKState (journal_events s) (f (meta_next_offset s)) (processes_projection s) (program_states s)
    (actions_projection s) (leases_projection s) (resource_fencing_tokens s) (lease_waiters s)
    (signals_projection s) (capability_sets s) (checkpoints s) (clock_now s) (uuid_count s).
Definition set_processes f (s : KState) : KState :=
  mkKState (journal_events s) (meta_next_offset s) (f (processes_projection s)) (program_states s)
    (actions_projection s) (leases_projection s) (resource_fencing_tokens s) (lease_waiters s)
    (signals_projection s) (capability_sets s) (checkpoints s) (clock_now s) (uuid_count s).
Definition set_program_states f (s : KState) : KState :=
  mkKState (journal_events s) (meta_next_offset s) (processes_projection s) (f (program_states s))
    (actions_projection s) (leases_projection s) (resource_fencing_tokens s) (lease_waiters s)
    (signals_projection s) (capability_sets s) (checkpoints s) (clock_now s) (uuid_count s).
Definition set_actions f (s : KState) : KState :=
  mkKState (journal_events s) (meta_next_offset s) (processes_projection s) (program_states s)
    (f (actions_projection s)) (leases_projection s) (resource_fencing_tokens s) (lease_waiters s)
    (signals_projection s) (capability_sets s) (checkpoints s) (clock_now s) (uuid_count s).
Definition set_leases f (s : KState) : KState :=
  mkKState (journal_events s) (meta_next_offset s) (processes_projection s) (program_states s)
    (actions_projection s) (f (leases_projection s)) (resource_fencing_tokens s) (lease_waiters s)
    (signals_projection s) (capability_sets s) (checkpoints s) (clock_now s) (uuid_count s).
Definition set_fences f (s : KState) : KState :=
  mkKState (journal_events s) (meta_next_offset s) (processes_projection s) (program_states s)
    (actions_projection s) (leases_projection s) (f (resource_fencing_tokens s)) (lease_waiters s)
    (signals_projection s) (capability_sets s) (checkpoints s) (clock_now s) (uuid_count s).
Definition set_waiters f (s : KState) : KState :=
  mkKState (journal_events s) (meta_next_offset s) (processes_projection s) (program_states s)
    (actions_projection s) (leases_projection s) (resource_fencing_tokens s) (f (lease_waiters s))
    (signals_projection s) (capability_sets s) (checkpoints s) (clock_now s) (uuid_count s).
Definition set_signals f (s : KState) : KState :=
  mkKState (journal_events s) (meta_next_offset s) (processes_projection s) (program_states s)
    (actions_projection s) (leases_projection s) (resource_fencing_tokens s) (lease_waiters s)
    (f (signals_projection s)) (capability_sets s) (checkpoints s) (clock_now s) (uuid_count s).
Definition set_capability_sets f (s : KState) : KState :=
  mkKState (journal_events s) (meta_next_offset s) (processes_projection s) (program_states s)
    (actions_projection s) (leases_projection s) (resource_fencing_tokens s) (lease_waiters s)
    (signals_projection s) (f (capability_sets s)) (checkpoints s) (clock_now s) (uuid_count s).
Definition set_checkpoints f (s : KState) : KState :=
  mkKState (journal_events s) (meta_next_offset s) (processes_projection s) (program_states s)
    (actions_projection s) (leases_projection s) (resource_fencing_tokens s) (lease_waiters s)
    (signals_projection s) (capability_sets s) (f (checkpoints s)) (clock_now s) (uuid_count s).
Definition set_clock f (s : KState) : KState :=
  mkKState (journal_events s) (meta_next_offset s) (processes_projection s) (program_states s)
    (actions_projection s) (leases_projection s) (resource_fencing_tokens s) (lease_waiters s)
    (signals_projection s) (capability_sets s) (checkpoints s) (f (clock_now s)) (uuid_count s).
Definition set_uuid f (s : KState) : KState :=
  mkKState (journal_events s) (meta_next_offset s) (processes_projection s) (program_states s)
    (actions_projection s) (leases_projection s) (resource_fencing_tokens s) (lease_waiters s)
    (signals_projection s) (capability_sets s) (checkpoints s) (clock_now s) (f (uuid_count s)).

(** The database [_init_schema] leaves on an empty file, at time [now]. *)
Definition init_storage (now : Z) : KState :=
  mkKState [] (Some 0%Z) [] [] [] [] ∅ [] [] [] [] now 0.

(** [uuid.uuid4().hex]: the [n]-th identifier drawn; identifiers are non-empty and
    do not repeat. *)
Class UuidSource := {
  uuid4 : N -> string;
  uuid4_inj : Inj (=) (=) uuid4;
  uuid4_nonempty n : uuid4 n <> "" }.
#[global] Existing Instance uuid4_inj.

Definition fresh_uuid `{UuidSource} : M KState string := fun s =>
  (Ok (uuid4 (uuid_count s)), set_uuid N.succ s).

(** A concrete source, for evaluation. *)
Definition pretty_uuid : UuidSource :=
  {| uuid4 := fun n => String.append "uuid-" (pretty n); uuid4_inj := _;
     uuid4_nonempty := fun n => ltac:(discriminate) |}.

Example pretty_uuid_3 : @uuid4 pretty_uuid 3 = "uuid-3".
Proof. reflexivity. Qed.
