(* ===== verification/Journal.v ===== *)
(** * Journal service (agent_os/services/journal.py)

    The append-only event log: allocation of the global offset and of the
    per-process sequence, idempotence on the event id, the reads, and the clear
    and replay of [rebuild_projections].  The allocation invariant is
    [journal_ok]. *)

From S2P Require Import Prelude KernelModels Storage.

(** [ev.journal_offset = off; ev.process_sequence = seq] *)
Definition ev_at (ev : KernelEvent) (off seq : Z) : KernelEvent :=
  mkEvent (event_id ev) off (ev_pid ev) seq (event_type ev) (causation_id ev)
    (correlation_id ev) (payload ev) (created_at ev).

(** [SELECT MAX(process_sequence) FROM journal_events WHERE pid = ?] *)
Definition max_sequence (pid : string) (js : list KernelEvent) : option Z :=
  foldr (fun e acc => if decide (ev_pid e = pid)
                      then Some (match acc with Some m => Z.max (process_sequence e) m
                                 | None => process_sequence e end)
                      else acc) None js.

(** The body of the append loop: one event. *)
Definition append_event_row (ev : KernelEvent) : M KState KernelEvent :=
  js ← gets journal_events;
  match tbl_find event_id (event_id ev) js with
  | Some existing => mret (ev_at ev (journal_offset existing) (process_sequence existing))
  | None =>
      meta ← gets meta_next_offset;
      offset ← some_or_raise meta (KernelInvariantViolation "journal_meta.next_offset is missing");
      let seq := match max_sequence (ev_pid ev) js with Some m => (m + 1)%Z | None => 0%Z end in
      let ev' := ev_at ev offset seq in
      (* the UNIQUE constraint of journal_offset *)
      raise_if (bool_decide (offset ∈ (journal_offset <$> js))) (IntegrityError "journal_events") ;;
      modify (set_journal (fun l => l ++ [ev'])) ;;
      modify (set_meta (fmap (Z.add 1))) ;;
      mret ev'
  end.

(** Append inside an already open transaction. *)
Definition append_events_tx (evs : list KernelEvent) : M KState (list KernelEvent) :=
  map_each append_event_row evs.

Definition append_events_atomically (evs : list KernelEvent) : M KState (list KernelEvent) :=
  match evs with
  | [] => mret []
  | _ => transaction (map_each append_event_row evs)
  end.

Definition append_event (ev : KernelEvent) : M KState KernelEvent :=
  evs ← append_events_atomically [ev];
  some_or_raise (head evs) (ValueError "IndexError").

(** [KernelEvent(pid=..., event_type=..., payload=...)]: the event id and the
    creation time are drawn when the object is built. *)
Definition new_event `{UuidSource} (pid ty : string) (pl : jobj) : M KState KernelEvent :=
  eid ← fresh_uuid; now ← gets clock_now;
  mret (mkEvent eid 0 pid 0 ty None None pl now).
(** The same with an explicit [created_at]. *)
Definition new_event_at `{UuidSource} (pid ty : string) (pl : jobj) (at_ : Z) : M KState KernelEvent :=
  eid ← fresh_uuid; mret (mkEvent eid 0 pid 0 ty None None pl at_).
(** Build an event and [append_event] it. *)
Definition emit `{UuidSource} (pid ty : string) (pl : jobj) : M KState KernelEvent :=
  ev ← new_event pid ty pl; append_event ev.

(** Build one event per [(pid, event_type, payload)] and append them all inside the
    open transaction. *)
Definition publish `{UuidSource} (specs : list (string * string * jobj)) : M KState (list KernelEvent) :=
  evs ← map_each (fun sp => new_event sp.1.1 sp.1.2 sp.2) specs;
  append_events_tx evs.

(** ** Reads *)

Definition read_from_offset (offset : Z) (limit : nat) (s : KState) : list KernelEvent :=
  take limit (sort_on journal_offset
                (filter (fun e => (offset <= journal_offset e)%Z) (journal_events s))).

(** [ORDER BY journal_offset DESC LIMIT 1] *)
Definition read_last_for_pid_since (pid : string) (offset : Z) (s : KState) : option KernelEvent :=
  last (sort_on journal_offset
          (filter (fun e => ev_pid e = pid /\ (offset <= journal_offset e)%Z) (journal_events s))).

(** [limit=10**9] is no limit on a journal that fits in memory. *)
Definition read_all (s : KState) : list KernelEvent :=
  read_from_offset 0 (length (journal_events s)) s.

Definition next_offset (s : KState) : Z := default 0%Z (meta_next_offset s).

Definition last_sequence_for_pid (pid : string) (s : KState) : Z :=
  match max_sequence pid (journal_events s) with Some m => (m + 1)%Z | None => 0%Z end.

(** ** Projection rebuild *)

(** [COALESCE(MAX(journal_offset) + 1, 0)] *)
Definition offset_after (js : list KernelEvent) : Z :=
  foldr (fun e acc => Z.max (journal_offset e + 1) acc) 0%Z js.

(** The kernel tables the clearing transaction empties; the fencing tokens and
    the journal itself stay. *)
Definition clear_projections (s : KState) : KState :=
  mkKState (journal_events s) (Some (offset_after (journal_events s))) [] [] [] []
    (resource_fencing_tokens s) [] [] [] [] (clock_now s) (uuid_count s).

Definition rebuild_projections (handlers : list (KernelEvent -> M KState unit)) : M KState nat :=
  transaction (modify clear_projections) ;;
  events ← gets read_all;
  for_each (fun ev => for_each (fun h => h ev) handlers) events ;;
  mret (length events).

(** ** The allocation invariant *)

Record journal_ok (s : KState) : Prop := {
  jok_meta : meta_next_offset s = Some (Z.of_nat (length (journal_events s)));
  jok_offset i e : journal_events s !! i = Some e -> journal_offset e = Z.of_nat i;
  jok_ids : NoDup (event_id <$> journal_events s);
  jok_seq i e : journal_events s !! i = Some e ->
    process_sequence e =
    Z.of_nat (length (filter (fun x => ev_pid x = ev_pid e) (take i (journal_events s)))) }.

Definition count_pid (pid : string) (js : list KernelEvent) : nat :=
  length (filter (fun x => ev_pid x = pid) js).

Lemma count_pid_app pid l1 l2 : count_pid pid (l1 ++ l2) = count_pid pid l1 + count_pid pid l2.
Proof. unfold count_pid. by rewrite filter_app, length_app. Qed.

Lemma count_pid_one pid e : count_pid pid [e] = if decide (ev_pid e = pid) then 1 else 0.
Proof. unfold count_pid. rewrite filter_cons. by case_decide. Qed.

Lemma max_sequence_one pid e :
  max_sequence pid [e] = if decide (ev_pid e = pid) then Some (process_sequence e) else None.
Proof. done. Qed.

Lemma max_sequence_app pid l1 l2 :
  max_sequence pid (l1 ++ l2) =
  match max_sequence pid l1, max_sequence pid l2 with
  | Some a, Some b => Some (Z.max a b)
  | Some a, None => Some a
  | None, o => o
  end.
Proof.
  induction l1 as [|e l1 IH]; [done|]. cbn.
  fold (max_sequence pid (l1 ++ l2)). fold (max_sequence pid l1). rewrite IH.
  case_decide; [|done].
  destruct (max_sequence pid l1), (max_sequence pid l2); try done. f_equal. lia.
Qed.

(** With contiguous sequences the maximum is the count minus one. *)
Lemma max_sequence_count pid js :
  (forall i e, js !! i = Some e -> process_sequence e = Z.of_nat (count_pid (ev_pid e) (take i js))) ->
  match max_sequence pid js with Some m => (m + 1)%Z | None => 0%Z end
  = Z.of_nat (count_pid pid js).
Proof.
  induction js as [|e js IH] using rev_ind; [done|]. intros Hs.
  assert (match max_sequence pid js with Some m => (m + 1)%Z | None => 0%Z end
          = Z.of_nat (count_pid pid js)) as IH'.
  { apply IH. intros i e0 He. rewrite (Hs i) by (by apply lookup_app_l_Some).
    rewrite take_app_le; [done|]. apply lookup_lt_Some in He. lia. }
  specialize (Hs (length js) e). rewrite take_app_length in Hs.
  assert (process_sequence e = Z.of_nat (count_pid (ev_pid e) js)) as He.
  { apply Hs. rewrite lookup_app_r, Nat.sub_diag by lia. done. }
  rewrite max_sequence_app, count_pid_app, count_pid_one, max_sequence_one.
  case_decide as Hp.
  - subst pid. rewrite He. destruct (max_sequence (ev_pid e) js); lia.
  - destruct (max_sequence pid js); lia.
Qed.

(** Everything [append_event_row] does under the invariant. *)
Lemma append_event_row_spec ev s :
  journal_ok s ->
  append_event_row ev s =
  match tbl_find event_id (event_id ev) (journal_events s) with
  | Some old => (Ok (ev_at ev (journal_offset old) (process_sequence old)), s)
  | None =>
      let ev' := ev_at ev (Z.of_nat (length (journal_events s)))
                   (Z.of_nat (count_pid (ev_pid ev) (journal_events s))) in
      (Ok ev', set_meta (fun _ => Some (Z.of_nat (S (length (journal_events s)))))
                 (set_journal (fun l => l ++ [ev']) s))
  end.
Proof.
  intros [Hm Ho Hi Hs]. unfold append_event_row. run_m.
  destruct (tbl_find event_id (event_id ev) (journal_events s)) eqn:E; [done|].
  rewrite Hm. run_m. rewrite max_sequence_count by done. rewrite bool_decide_eq_false_2.
  - unfold set_meta, set_journal; cbn. rewrite Hm; cbn. do 3 f_equal. lia.
  - intros (e & He & [i Hl]%list_elem_of_lookup)%list_elem_of_fmap.
    pose proof (Ho _ _ Hl). apply lookup_lt_Some in Hl. lia.
Qed.

Lemma lookup_snoc_inv {A} (l : list A) x i y :
  (l ++ [x]) !! i = Some y -> l !! i = Some y \/ (i = length l /\ y = x).
Proof.
  intros [H|[Hle H]]%lookup_app_Some; [by left|]. right.
  destruct (i - length l) as [|n] eqn:E; cbn in H; [|by destruct n].
  split; [lia|congruence].
Qed.

Lemma append_event_row_ok ev : within (preserves journal_ok) (append_event_row ev).
Proof.
  intros s H. rewrite append_event_row_spec by done.
  destruct (tbl_find event_id (event_id ev) (journal_events s)) eqn:E; cbn; [done|].
  destruct H as [Hm Ho Hi Hs]. split; cbn.
  - rewrite length_app; cbn. f_equal. lia.
  - intros i e [Hl|[-> ->]]%lookup_snoc_inv; [by apply Ho|done].
  - rewrite fmap_app. apply NoDup_app. split_and!; [done| |by apply NoDup_singleton].
    intros x (e & -> & He)%list_elem_of_fmap Hx%list_elem_of_singleton.
    rewrite tbl_find_None in E. by apply (E e).
  - intros i e [Hl|[-> ->]]%lookup_snoc_inv.
    + rewrite take_app_le by (apply lookup_lt_Some in Hl; lia). by apply Hs.
    + by rewrite take_app_length.
Qed.
#[export] Hint Resolve append_event_row_ok : lhos.

(** Appending never fails and only extends the journal. *)
Lemma append_event_row_total ev s :
  journal_ok s -> exists ev' s', append_event_row ev s = (Ok ev', s').
Proof. intros H. rewrite append_event_row_spec by done. destruct (tbl_find _ _ _); eauto. Qed.

(** A relation on states that the journal, its counter and the identifier
    source do not matter to. *)
Class JFrame (R : KState -> KState -> Prop) : Prop := {
  jframe_pre :: PreOrder R;
  jframe_journal s f : R s (set_journal f s);
  jframe_meta s f : R s (set_meta f s);
  jframe_uuid s : R s (set_uuid N.succ s) }.
#[export] Hint Extern 1 (JFrame (keeps _)) =>
  split; [apply keeps_preorder|intros; reflexivity..] : typeclass_instances.

Section Frames.
Context `{UuidSource} (R : KState -> KState -> Prop) `{!JFrame R}.
Lemma modify_journal_frame f : within R (modify (set_journal f)).
Proof. intros s. apply jframe_journal. Qed.
Lemma modify_meta_frame f : within R (modify (set_meta f)).
Proof. intros s. apply jframe_meta. Qed.
#[local] Hint Resolve modify_journal_frame modify_meta_frame : lhos.
Lemma append_event_row_frame ev : within R (append_event_row ev).
Proof. unfold append_event_row. solve_within. Qed.
Lemma append_events_tx_frame evs : within R (append_events_tx evs).
Proof. apply (within_map_each R). intros ev. apply append_event_row_frame. Qed.
Lemma append_events_atomically_frame evs : within R (append_events_atomically evs).
Proof.
  destruct evs; cbn; [solve_within|]. apply (within_transaction R).
  apply append_events_tx_frame with (evs := _ :: _).
Qed.
Lemma append_event_frame ev : within R (append_event ev).
Proof. unfold append_event. within_step; [apply append_events_atomically_frame|solve_within]. Qed.
Lemma fresh_uuid_frame : within R fresh_uuid.
Proof. intros s. apply jframe_uuid. Qed.
Lemma new_event_frame pid ty pl : within R (new_event pid ty pl).
Proof. unfold new_event. within_step; [apply fresh_uuid_frame|solve_within]. Qed.
Lemma new_event_at_frame pid ty pl t : within R (new_event_at pid ty pl t).
Proof. unfold new_event_at. within_step; [apply fresh_uuid_frame|solve_within]. Qed.
Lemma emit_frame pid ty pl : within R (emit pid ty pl).
Proof. unfold emit. within_step; [apply new_event_frame|apply append_event_frame]. Qed.
End Frames.
#[export] Hint Resolve append_event_row_frame append_events_tx_frame
  append_events_atomically_frame append_event_frame fresh_uuid_frame new_event_frame
  new_event_at_frame emit_frame : lhos.

(** [ev'] is [ev] with the offset and sequence its id has in the journal. *)
Definition recorded (s : KState) (ev ev' : KernelEvent) : Prop :=
  exists row, tbl_find event_id (event_id ev) (journal_events s) = Some row /\
              ev' = ev_at ev (journal_offset row) (process_sequence row).

Lemma recorded_mono s s' ev ev' :
  journal_events s `prefix_of` journal_events s' -> recorded s ev ev' -> recorded s' ev ev'.
Proof.
  intros [l Hl] (row & Hr & ->). exists row. split; [|done].
  by rewrite Hl, tbl_find_app, Hr.
Qed.

Lemma append_event_row_recorded ev s :
  journal_ok s -> exists ev' s', append_event_row ev s = (Ok ev', s') /\ journal_ok s' /\
    journal_events s `prefix_of` journal_events s' /\ recorded s' ev ev'.
Proof.
  intros H. pose proof (append_event_row_ok ev s H) as Hok.
  rewrite append_event_row_spec in Hok |- * by done.
  destruct (tbl_find event_id (event_id ev) (journal_events s)) as [row|] eqn:E; cbn in *.
  - eexists _, _. split_and!; [done|done|done|]. by exists row.
  - eexists _, _. split_and!; [done|done|by eexists|]. eexists. split.
    + cbn. rewrite tbl_find_app, E. cbn. by rewrite decide_True.
    + done.
Qed.

Lemma append_each_spec evs s :
  journal_ok s -> exists out s', map_each append_event_row evs s = (Ok out, s') /\ journal_ok s' /\
    journal_events s `prefix_of` journal_events s' /\ Forall2 (recorded s') evs out.
Proof.
  revert s. induction evs as [|ev evs IH]; intros s H; cbn; [by exists [], s|].
  destruct (append_event_row_recorded ev s H) as (ev' & s1 & E1 & H1 & P1 & R1).
  destruct (IH s1 H1) as (out & s2 & E2 & H2 & P2 & R2).
  exists (ev' :: out), s2. rewrite (bind_Ok _ _ _ _ _ E1), (bind_Ok _ _ _ _ _ E2).
  split_and!; [done|done|by etrans|]. constructor; [|done]. by eapply recorded_mono.
Qed.

Lemma append_each_recorded evs out s :
  Forall2 (recorded s) evs out -> map_each append_event_row evs s = (Ok out, s).
Proof.
  induction 1 as [|ev ev' evs out (row & Hr & ->) _ IH]; cbn; [done|].
  erewrite bind_Ok; [by erewrite bind_Ok|].
  unfold append_event_row. run_m. by rewrite Hr.
Qed.

Lemma append_events_atomically_each evs s :
  journal_ok s -> append_events_atomically evs s = map_each append_event_row evs s.
Proof.
  intros H. destruct (append_each_spec evs s H) as (out & s' & E & _).
  unfold append_events_atomically. destruct evs as [|ev evs]; [done|].
  unfold transaction. by rewrite E.
Qed.

(** Under the invariant [append_event] of a new id appends exactly one row. *)
Lemma append_event_new ev s :
  journal_ok s -> tbl_find event_id (event_id ev) (journal_events s) = None ->
  let ev' := ev_at ev (Z.of_nat (length (journal_events s)))
               (Z.of_nat (count_pid (ev_pid ev) (journal_events s))) in
  append_event ev s =
  (Ok ev', set_meta (fun _ => Some (Z.of_nat (S (length (journal_events s)))))
             (set_journal (fun l => l ++ [ev']) s)).
Proof.
  intros H E. unfold append_event.
  erewrite bind_Ok; [|rewrite append_events_atomically_each by done; cbn;
    erewrite bind_Ok; [reflexivity|rewrite append_event_row_spec, E by done; reflexivity]].
  done.
Qed.

Lemma journal_sorted s (P : KernelEvent -> Prop) `{!forall x, Decision (P x)} :
  journal_ok s -> sort_on journal_offset (filter P (journal_events s)) = filter P (journal_events s).
Proof.
  intros Hok. apply sort_on_id. destruct Hok as [_ Ho _ _].
  generalize dependent (journal_events s). intros js Ho.
  assert (StronglySorted (key_le journal_offset) js) as Hs.
  { assert (forall n, (forall i e, js !! i = Some e -> journal_offset e = Z.of_nat (n + i)) ->
      StronglySorted (key_le journal_offset) js) as Hgen; [|by apply (Hgen 0)].
    clear Ho. induction js as [|e js IH]; intros n Ho; [constructor|]. constructor.
    - apply (IH (S n)). intros i e' He'. rewrite (Ho (S i)) by done. lia.
    - apply Forall_forall. intros e' [i Hi]%list_elem_of_lookup. unfold key_le, py_leb, py_cmp, Z_PyOrd.
      pose proof (Ho 0 e eq_refl). pose proof (Ho (S i) e' Hi).
      destruct (Z.compare_spec (journal_offset e) (journal_offset e')); [done|done|lia]. }
  clear Ho. induction Hs as [|e js _ IH Hall]; [constructor|]. rewrite filter_cons.
  case_decide; [|done]. constructor; [done|].
  apply Forall_forall. intros x [_ Hx]%list_elem_of_filter. by eapply Forall_forall.
Qed.

Lemma sorted_app_last (l : list KernelEvent) e e' :
  StronglySorted (key_le journal_offset) (l ++ [e]) -> e' ∈ l ->
  (journal_offset e' <= journal_offset e)%Z.
Proof.
  induction l as [|x l IH]; intros Hs He; [set_solver|]. cbn in Hs.
  apply StronglySorted_inv in Hs as [Hs Hall]. apply elem_of_cons in He as [->|He]; [|by apply IH].
  rewrite Forall_forall in Hall. specialize (Hall e ltac:(set_solver)).
  unfold key_le, py_leb, py_cmp, Z_PyOrd in Hall.
  destruct (Z.compare_spec (journal_offset x) (journal_offset e)); [lia|lia|done].
Qed.

Lemma read_all_ok s : journal_ok s -> read_all s = journal_events s.
Proof.
  intros H. unfold read_all, read_from_offset. rewrite journal_sorted by done.
  rewrite filter_all; [apply firstn_all|].
  intros e [i He]%list_elem_of_lookup. rewrite (jok_offset s H i e He). lia.
Qed.

Lemma journal_offset_lt s i j e e' :
  journal_ok s -> journal_events s !! i = Some e -> journal_events s !! j = Some e' ->
  (journal_offset e <= journal_offset e')%Z <-> i <= j.
Proof. intros H Hi Hj. rewrite (jok_offset s H _ _ Hi), (jok_offset s H _ _ Hj). lia. Qed.

Lemma init_journal_ok now : journal_ok (init_storage now).
Proof. by split; [|intros []|constructor|intros []]. Qed.

(** ** Emitting fresh events *)

Section Emit.
Context `{UuidSource}.

(** No identifier still to be drawn is in the journal. *)
Definition ids_fresh (s : KState) : Prop :=
  forall n e, (uuid_count s <= n)%N -> e ∈ journal_events s -> event_id e <> uuid4 n.
Definition log_ok (s : KState) : Prop := journal_ok s /\ ids_fresh s.

(** The event [emit] records, and the state after it. *)
Definition emitted_at (s : KState) (pid ty : string) (pl : jobj) (t : Z) : KernelEvent :=
  mkEvent (uuid4 (uuid_count s)) (Z.of_nat (length (journal_events s))) pid
    (Z.of_nat (count_pid pid (journal_events s))) ty None None pl t.
Definition emitted s pid ty pl := emitted_at s pid ty pl (clock_now s).
Definition logged (s : KState) (ev : KernelEvent) : KState :=
  set_meta (fun _ => Some (Z.of_nat (S (length (journal_events s)))))
    (set_journal (fun l => l ++ [ev]) (set_uuid N.succ s)).

Lemma journal_ok_same s s' :
  journal_events s' = journal_events s -> meta_next_offset s' = meta_next_offset s ->
  journal_ok s -> journal_ok s'.
Proof. intros Hj Hm []. split; rewrite ?Hj, ?Hm; done. Qed.
Lemma log_ok_same s s' :
  journal_events s' = journal_events s -> meta_next_offset s' = meta_next_offset s ->
  uuid_count s' = uuid_count s -> log_ok s -> log_ok s'.
Proof.
  intros Hj Hm Hu [H1 H2]. split; [by apply (journal_ok_same s)|].
  intros n e. rewrite Hu, Hj. apply H2.
Qed.

Lemma ids_fresh_find s :
  ids_fresh s -> tbl_find event_id (uuid4 (uuid_count s)) (journal_events s) = None.
Proof. intros Hf. apply tbl_find_None. intros e He. apply (Hf _ _ (N.le_refl _) He). Qed.

Lemma append_fresh s pid ty pl t :
  log_ok s ->
  append_event (mkEvent (uuid4 (uuid_count s)) 0 pid 0 ty None None pl t) (set_uuid N.succ s) =
  (Ok (emitted_at s pid ty pl t), logged s (emitted_at s pid ty pl t)).
Proof.
  intros [Hj Hf]. rewrite append_event_new; [done| |].
  - by apply (journal_ok_same s).
  - exact (ids_fresh_find s Hf).
Qed.
Lemma append_row_fresh s pid ty pl t :
  log_ok s ->
  append_event_row (mkEvent (uuid4 (uuid_count s)) 0 pid 0 ty None None pl t) (set_uuid N.succ s) =
  (Ok (emitted_at s pid ty pl t), logged s (emitted_at s pid ty pl t)).
Proof.
  intros [Hj Hf]. rewrite append_event_row_spec.
  - cbn. by rewrite (ids_fresh_find s Hf).
  - by apply (journal_ok_same s).
Qed.

Lemma emit_spec s pid ty pl :
  log_ok s -> emit pid ty pl s = (Ok (emitted s pid ty pl), logged s (emitted s pid ty pl)).
Proof.
  intros Hs. unfold emit, new_event, fresh_uuid. run_m. by apply append_fresh.
Qed.
Lemma logged_ok s pid ty pl t : log_ok s -> log_ok (logged s (emitted_at s pid ty pl t)).
Proof.
  intros Hs. pose proof (append_row_fresh s pid ty pl t Hs) as E.
  destruct Hs as [Hj Hf]. split.
  - pose proof (append_event_row_ok (mkEvent (uuid4 (uuid_count s)) 0 pid 0 ty None None pl t)
      (set_uuid N.succ s)) as Hp. rewrite E in Hp. apply Hp.
    by apply (journal_ok_same s).
  - intros n e; cbn. intros Hn [He|He%list_elem_of_singleton]%elem_of_app; [|subst e]; cbn.
    + apply Hf; [lia|done].
    + intros Heq%(inj uuid4). lia.
Qed.

(** ** Publishing several events *)

(** [ev] is the event of a specification, wherever it was recorded. *)
Definition ev_of (s : KState) (sp : string * string * jobj) (ev : KernelEvent) : Prop :=
  ev_pid ev = sp.1.1 /\ event_type ev = sp.1.2 /\ payload ev = sp.2 /\ created_at ev = clock_now s.
Definition published (s : KState) (out : list KernelEvent) : KState :=
  set_meta (fun _ => Some (Z.of_nat (length (journal_events s) + length out)))
    (set_journal (fun l => l ++ out) (set_uuid (fun n => n + N.of_nat (length out))%N s)).

Lemma new_events_run specs s :
  exists evs, map_each (fun sp => new_event sp.1.1 sp.1.2 sp.2) specs s =
    (Ok evs, set_uuid (fun n => n + N.of_nat (length specs))%N s) /\
    Forall2 (ev_of s) specs evs /\
    forall i ev, evs !! i = Some ev -> event_id ev = uuid4 (uuid_count s + N.of_nat i)%N.
Proof.
  revert s. induction specs as [|sp specs IH]; intros s.
  - exists []. split_and!; [|constructor|done]. destruct s; cbn.
    unfold mret, M_ret, set_uuid; cbn. by rewrite N.add_0_r.
  - destruct (IH (set_uuid N.succ s)) as (evs & E & Hf & Hi).
    exists (mkEvent (uuid4 (uuid_count s)) 0 sp.1.1 0 sp.1.2 None None sp.2 (clock_now s) :: evs).
    cbn [map_each]. rewrite (bind_Ok (new_event sp.1.1 sp.1.2 sp.2) _ s _ (set_uuid N.succ s) eq_refl).
    rewrite (bind_Ok _ _ _ _ _ E). split_and!.
    + unfold mret, M_ret. f_equal. unfold set_uuid; cbn. f_equal. lia.
    + by constructor.
    + intros [|i] ev He; cbn in He; [simplify_eq; cbn; f_equal; lia|].
      rewrite (Hi i ev He). cbn. f_equal. lia.
Qed.

Lemma append_tx_fresh specs evs s :
  journal_ok s -> Forall2 (ev_of s) specs evs -> NoDup (event_id <$> evs) ->
  (forall ev, ev ∈ evs -> tbl_find event_id (event_id ev) (journal_events s) = None) ->
  exists out, append_events_tx evs s =
    (Ok out, set_meta (fun _ => Some (Z.of_nat (length (journal_events s) + length out)))
               (set_journal (fun l => l ++ out) s)) /\
    Forall2 (ev_of s) specs out /\ event_id <$> out = event_id <$> evs.
Proof.
  unfold append_events_tx. intros Hok Hf. revert s Hok Hf.
  intros s Hok Hf. revert s Hok Hf. induction evs as [|ev evs IH] in specs |- *;
    intros s Hok Hf Hn Hnew.
  - exists []. apply Forall2_nil_inv_r in Hf as ->. split_and!; [|constructor|done].
    cbn. unfold mret, M_ret. f_equal. unfold set_meta, set_journal; cbn.
    rewrite app_nil_r, Nat.add_0_r, <-(jok_meta s Hok). by destruct s.
  - apply Forall2_cons_inv_r in Hf as (sp & specs' & Hsp & Hf & ->).
    cbn in Hn. apply NoDup_cons in Hn as [Hni Hn].
    assert (tbl_find event_id (event_id ev) (journal_events s) = None) as He by (apply Hnew; set_solver).
    pose proof (append_event_row_spec ev s Hok) as E. rewrite He in E.
    set (ev' := ev_at ev _ _) in E. pose proof (append_event_row_ok ev s Hok) as Hok1. rewrite E in Hok1.
    cbn [snd] in Hok1. set (s1 := set_meta _ _) in E, Hok1.
    destruct (IH specs' s1) as (out & E2 & Hf2 & Hid); [done|done|done| |].
    { intros e Hein. cbn. rewrite tbl_find_app, (Hnew e) by set_solver. cbn.
      rewrite decide_False; [done|]. intros Heq. apply Hni. rewrite Heq. by apply list_elem_of_fmap_2. }
    exists (ev' :: out). cbn [map_each]. rewrite (bind_Ok _ _ _ _ _ E), (bind_Ok _ _ _ _ _ E2).
    split_and!; [|by constructor|cbn; by f_equal].
    unfold mret, M_ret. f_equal. unfold s1, set_meta, set_journal; cbn.
    rewrite <-app_assoc, length_app; cbn. do 3 f_equal. lia.
Qed.

Lemma publish_run specs s :
  log_ok s -> exists out, publish specs s = (Ok out, published s out) /\
    Forall2 (ev_of s) specs out /\ log_ok (published s out).
Proof.
  intros [Hj Hf]. destruct (new_events_run specs s) as (evs & E & Hs & Hi).
  set (s1 := set_uuid (fun n => n + N.of_nat (length specs))%N s) in E.
  assert (journal_ok s1) as Hj1 by (by apply (journal_ok_same s)).
  destruct (append_tx_fresh specs evs s1) as (out & E2 & Ho & Hid); [done|done| | |].
  - apply NoDup_alt. intros i j x Hx Hy. rewrite list_lookup_fmap in Hx, Hy.
    apply fmap_Some in Hx as (e1 & H1 & ->), Hy as (e2 & H2 & He).
    rewrite (Hi _ _ H1), (Hi _ _ H2) in He. apply (inj uuid4) in He. lia.
  - intros ev [i He]%list_elem_of_lookup. rewrite (Hi _ _ He). apply tbl_find_None.
    intros e Hein. apply Hf; [lia|done].
  - assert (length specs = length out) as Hlen by (by eapply Forall2_length).
    assert (set_meta (fun _ => Some (Z.of_nat (length (journal_events s1) + length out)))
              (set_journal (fun l => l ++ out) s1) = published s out) as Hp.
    { unfold published, s1. by rewrite <-Hlen. }
    rewrite Hp in E2. exists out. unfold publish. rewrite (bind_Ok _ _ _ _ _ E).
    split; [done|]. split; [done|]. split.
    + assert (journal_ok (append_events_tx evs s1).2) as Hj2.
      { apply (within_map_each (preserves journal_ok)); [|done]. intros ev. apply append_event_row_ok. }
      by rewrite E2 in Hj2.
    + intros n e. cbn. intros Hn [Hein|Hein]%elem_of_app; [apply Hf; [lia|done]|].
      assert (event_id e ∈ event_id <$> evs) as (e0 & -> & [i He]%list_elem_of_lookup)%list_elem_of_fmap.
      { rewrite <-Hid. by apply list_elem_of_fmap_2. }
      rewrite (Hi _ _ He). intros Heq%(inj uuid4). apply lookup_lt_Some in He.
      apply Forall2_length in Hs. lia.
Qed.
End Emit.
#[export] Hint Resolve logged_ok : lhos.

(** ** Replay

    [replays h sim s s']: from [s] to [s'] the service only appended events, and
    a projection [r] that agrees with [s] ([sim s r]) agrees with [s'] after the
    handler [h] has replayed those events. *)

Definition replays `{UuidSource} (h : KernelEvent -> M KState unit)
    (sim : KState -> KState -> Prop) : KState -> KState -> Prop := fun s s' =>
  log_ok s ->
  log_ok s' /\ exists evs, journal_events s' = journal_events s ++ evs /\
    forall r, sim s r -> exists r', for_each h evs r = (Ok tt, r') /\ sim s' r'.

Lemma for_each_app {S A} (f : A -> M S unit) l1 l2 s :
  for_each f (l1 ++ l2) s = (for_each f l1 ;; for_each f l2) s.
Proof.
  revert s. induction l1 as [|x l1 IH]; intros s; [done|]. cbn. unfold mbind, M_bind in *.
  destruct (f x s) as [[[]|e] s1]; [|done]. apply IH.
Qed.
Lemma for_each_ext {S A} (f g : A -> M S unit) l s :
  (forall x s, f x s = g x s) -> for_each f l s = for_each g l s.
Proof.
  intros He. revert s. induction l as [|x l IH]; intros s; [done|]. cbn.
  unfold mbind, M_bind. rewrite He. destruct (g x s) as [[[]|e] s1]; [apply IH|done].
Qed.

Section Replay.
Context `{UuidSource} (h : KernelEvent -> M KState unit) (sim : KState -> KState -> Prop).

#[global] Instance replays_preorder : PreOrder (replays h sim).
Proof.
  split.
  - intros s Hs. split; [done|]. exists []. rewrite app_nil_r. split; [done|].
    intros r Hr. by exists r.
  - intros s1 s2 s3 H12 H23 H1. destruct (H12 H1) as (H2 & e1 & J1 & K1).
    destruct (H23 H2) as (H3 & e2 & J2 & K2). split; [done|]. exists (e1 ++ e2).
    split; [by rewrite J2, J1, app_assoc|]. intros r Hr.
    destruct (K1 r Hr) as (r1 & E1 & S1). destruct (K2 r1 S1) as (r2 & E2 & S2).
    exists r2. split; [|done]. rewrite for_each_app. by rewrite (bind_Ok _ _ _ _ _ E1).
Qed.

(** A silent step: no event, and [sim] cannot see the change. *)
Lemma replays_silent s s' :
  journal_events s' = journal_events s -> (log_ok s -> log_ok s') ->
  (forall r, sim s r -> sim s' r) -> replays h sim s s'.
Proof.
  intros Hj Hl Hs Hok. split; [auto|]. exists []. rewrite app_nil_r. split; [done|].
  intros r Hr. exists r. split; [done|]. by apply Hs.
Qed.

(** A step that logs one event and ends in [s']. *)
Lemma replays_one s pid ty pl t s' :
  let ev := emitted_at s pid ty pl t in
  (log_ok s -> journal_events s' = journal_events s ++ [ev] /\ log_ok s') ->
  (forall r, sim s r -> exists r', h ev r = (Ok tt, r') /\ sim s' r') ->
  replays h sim s s'.
Proof.
  intros ev Hj Hs Hok. destruct (Hj Hok) as [Hj1 Hl]. split; [done|]. exists [ev].
  split; [done|]. intros r Hr. destruct (Hs r Hr) as (r' & E & S'). exists r'.
  split; [|done]. cbn. by rewrite (bind_Ok _ _ _ _ _ E).
Qed.

Lemma rebuild_replays s0 s :
  log_ok s0 -> journal_events s0 = [] -> replays h sim s0 s -> sim s0 (clear_projections s) ->
  exists r, rebuild_projections [h] s = (Ok (length (journal_events s)), r) /\ sim s r.
Proof.
  intros Hl Hn Hr H0. destruct (Hr Hl) as ([Hj _] & evs & Hje & Hk).
  rewrite Hn in Hje. cbn in Hje. destruct (Hk _ H0) as (r & E & S').
  exists r. split; [|done]. unfold rebuild_projections.
  assert (read_all (clear_projections s) = journal_events s) as Hra.
  { change (read_all s = journal_events s). by apply read_all_ok. }
  run_m. unfold transaction. rewrite Hra, Hje.
  erewrite for_each_ext; [by rewrite E|]. intros ev r0. cbn. unfold mbind, M_bind.
  by destruct (h ev r0) as [[[]|e] r1].
Qed.
End Replay.

Lemma fresh_uuid_log_ok `{UuidSource} s : log_ok s -> log_ok (set_uuid N.succ s).
Proof.
  intros [Hj Hf]. split; [by apply (journal_ok_same s)|]. intros n e Hn. apply Hf. cbn in Hn. lia.
Qed.
Lemma fresh_uuid_replays `{UuidSource} h sim :
  (forall s r, sim s r -> sim (set_uuid N.succ s) r) -> within (replays h sim) fresh_uuid.
Proof. intros Hs s. apply replays_silent; [done|apply fresh_uuid_log_ok|]. intros r. apply Hs. Qed.

Lemma init_log_ok `{UuidSource} now : log_ok (init_storage now).
Proof. split; [apply init_journal_ok|]. intros n e _ He. set_solver. Qed.

(** ** Properties *)

(** The journal's key invariants.  On a well-formed journal every append
    succeeds, keeps what was recorded as a prefix, and leaves the journal
    well-formed: the [i]-th row has offset [i] (globally monotonic, no gap), its
    sequence counts the earlier rows of its process, event ids are unique, and
    [next_offset] is the length.  Each returned event carries the offset and
    sequence its id has in the journal. *)
Theorem append_keeps_journal evs s :
  journal_ok s ->
  exists out s', append_events_atomically evs s = (Ok out, s') /\ journal_ok s' /\
    journal_events s `prefix_of` journal_events s' /\ Forall2 (recorded s') evs out.
Proof. intros H. rewrite append_events_atomically_each by done. by apply append_each_spec. Qed.

Definition demo_event (id pid : string) : KernelEvent :=
  mkEvent id 0 pid 0 "SIGNAL_SENT" None None [] 0.

Lemma append_keeps_journal_witness :
  exists out s', append_events_atomically [demo_event "e1" "p"; demo_event "e2" "p"]
                   (init_storage 0) = (Ok out, s') /\ journal_ok s' /\
    [] `prefix_of` journal_events s' /\
    Forall2 (recorded s') [demo_event "e1" "p"; demo_event "e2" "p"] out.
Proof. apply (append_keeps_journal _ (init_storage 0)). apply init_journal_ok. Defined.

(** Appending is idempotent on event ids.  Appending the same events again
    changes nothing and returns the same offsets and sequences, even when the
    batch itself repeats an id. *)
Theorem append_idempotent evs s out s' :
  journal_ok s -> append_events_atomically evs s = (Ok out, s') ->
  append_events_atomically evs s' = (Ok out, s').
Proof.
  intros H E. rewrite append_events_atomically_each in E by done.
  destruct (append_each_spec evs s H) as (out1 & s1 & E1 & H1 & _ & R1).
  rewrite E in E1. simplify_eq. rewrite append_events_atomically_each by done.
  by apply append_each_recorded.
Qed.

Lemma append_idempotent_witness :
  let s1 := (append_events_atomically [demo_event "e1" "p"; demo_event "e1" "p"] (init_storage 0)).2 in
  append_events_atomically [demo_event "e1" "p"; demo_event "e1" "p"] s1 =
  (Ok [demo_event "e1" "p"; demo_event "e1" "p"], s1).
Proof.
  apply (append_idempotent _ (init_storage 0)); [apply init_journal_ok|vm_compute; reflexivity].
Defined.

(** The indexed lookup is exact.  [read_last_for_pid_since] returns an event
    iff it is the newest one of the process at or after the offset, whatever
    other events are interleaved; it returns nothing iff there is none. *)
Theorem read_last_exact pid off s :
  journal_ok s ->
  match read_last_for_pid_since pid off s with
  | Some e => e ∈ journal_events s /\ ev_pid e = pid /\ (off <= journal_offset e)%Z /\
      forall e', e' ∈ journal_events s -> ev_pid e' = pid -> (journal_offset e' <= journal_offset e)%Z
  | None => forall e', e' ∈ journal_events s -> ev_pid e' = pid -> (journal_offset e' < off)%Z
  end.
Proof.
  intros Hok. unfold read_last_for_pid_since.
  pose proof (sort_on_sorted journal_offset
    (filter (fun e => ev_pid e = pid /\ (off <= journal_offset e)%Z) (journal_events s))) as Hs.
  pose proof (fun e => elem_of_sort_on journal_offset e
    (filter (fun e => ev_pid e = pid /\ (off <= journal_offset e)%Z) (journal_events s))) as Hin.
  destruct (last (sort_on _ _)) as [e|] eqn:E.
  - apply last_Some in E as [l El]. rewrite El in Hs, Hin.
    assert (e ∈ l ++ [e]) as [[He1 He2] He3]%Hin%list_elem_of_filter by set_solver.
    split_and!; [done..|]. intros e' He' Hp.
    destruct (Z.leb_spec off (journal_offset e')) as [Hle|Hlt]; [|lia].
    assert (e' ∈ l ++ [e]) as [Hl|Hl%list_elem_of_singleton]%elem_of_app.
    + by apply Hin, list_elem_of_filter.
    + by apply (sorted_app_last _ _ _ Hs).
    + by subst.
  - apply last_None in E. intros e' He' Hp.
    destruct (Z.leb_spec off (journal_offset e')) as [Hle|Hlt]; [|done].
    exfalso. assert (e' ∈ @nil KernelEvent) as Hn; [|set_solver].
    rewrite <-E. by apply Hin, list_elem_of_filter.
Qed.

Lemma read_last_exact_witness :
  let s1 := (append_events_atomically [demo_event "e1" "p"; demo_event "e2" "q"] (init_storage 0)).2 in
  match read_last_for_pid_since "p" 0 s1 with
  | Some e => e ∈ journal_events s1 /\ ev_pid e = "p" /\ (0 <= journal_offset e)%Z /\
      forall e', e' ∈ journal_events s1 -> ev_pid e' = "p" -> (journal_offset e' <= journal_offset e)%Z
  | None => forall e', e' ∈ journal_events s1 -> ev_pid e' = "p" -> (journal_offset e' < 0)%Z
  end.
Proof.
  apply (read_last_exact "p" 0).
  destruct (append_each_spec [demo_event "e1" "p"; demo_event "e2" "q"] (init_storage 0)
              (init_journal_ok 0)) as (out & s' & E & H & _).
  rewrite append_events_atomically_each by apply init_journal_ok. by rewrite E.
Defined.
