(* ===== verification/ProcessService.v ===== *)
(** * Process service (agent_os/services/process_service.py)

    Spawning, validated transitions with their journal entries, the queries, and
    the projection handler that replays process events. *)

From S2P Require Import Prelude KernelModels StateMachine Storage Journal.

(** ** Rows of [processes_projection] *)

(** [dumps(wc) if wc else None]: an empty wait condition is stored as NULL. *)
Definition stored_wait (wc : option jobj) : option jobj :=
  match wc with Some [] => None | _ => wc end.
Definition pcb_row (p : ProcessControlBlock) : ProcessControlBlock :=
  pcb_set_state p (pcb_state p) (stored_wait (wait_condition p)).
(** The [DO UPDATE SET] list of [_upsert_projection]. *)
Definition pcb_conflict (old new : ProcessControlBlock) : ProcessControlBlock :=
  mkPCB (pcb_pid old) (parent_pid old) (program_id old) (pcb_state new) (priority new)
    (effective_priority new) (capability_set_id old) (namespace_id old) (resource_group_id old)
    (program_state_ref old) (pending_request_id new) (wait_condition new) (checkpoint_ref new)
    (exit_code new) (result_ref new) (event_cursor new) (pcb_created_at old).

Definition _upsert_projection (pcb : ProcessControlBlock) : M KState unit :=
  transaction (modify (set_processes (tbl_upsert pcb_pid pcb_conflict (pcb_row pcb)))).

(** ** Queries *)

Definition get_process (pid : string) (s : KState) : option ProcessControlBlock :=
  tbl_find pcb_pid pid (processes_projection s).

(** [WHERE state = 'ready' ORDER BY priority ASC, created_at ASC] *)
Definition list_ready (s : KState) : list ProcessControlBlock :=
  sort_on (fun p => (priority p, pcb_created_at p))
    (filter (fun p => pcb_state p = ProcessState.READY) (processes_projection s)).

Definition list_all (s : KState) : list ProcessControlBlock :=
  sort_on pcb_created_at (processes_projection s).

Definition list_blocked (s : KState) : list ProcessControlBlock :=
  filter (fun p => pcb_state p = ProcessState.BLOCKED) (processes_projection s).

(** ** Program state *)

Definition get_program_state (pid : string) (s : KState) : jobj :=
  match tbl_find fst pid (program_states s) with Some r => r.2 | None => [] end.

Definition _save_program_state (pid : string) (state : jobj) : M KState unit :=
  transaction (modify (set_program_states (tbl_upsert fst (fun _ new => new) (pid, state)))).

(** ** State transitions *)

(** [f"PROCESS_{target.value.upper()}"] *)
Definition process_event_type (target : ProcessState.t) : string :=
  match target with
  | ProcessState.CREATED => "PROCESS_CREATED" | ProcessState.READY => "PROCESS_READY"
  | ProcessState.RUNNING => "PROCESS_RUNNING" | ProcessState.BLOCKED => "PROCESS_BLOCKED"
  | ProcessState.SUSPENDED => "PROCESS_SUSPENDED" | ProcessState.EXITED => "PROCESS_EXITED"
  | ProcessState.FAILED => "PROCESS_FAILED"
  end.

Section Service.
Context `{UuidSource}.

(** The payload is built after [apply_process_transition] has updated the
    control block in place: [pcb] is the updated one. *)
Definition transition_payload (pcb : ProcessControlBlock) (target : ProcessState.t)
    (reason : string) (wc : option jobj) : jobj :=
  [("old_state", JStr (if decide (target = ProcessState.READY)
                       then ProcessState.value (pcb_state pcb) else ProcessState.value target));
   ("new_state", JStr (ProcessState.value target)); ("reason", JStr reason);
   ("wait_condition", jobj_opt wc)].

Definition transition (pid : string) (target : ProcessState.t) (wc : option jobj)
    : M KState KernelEvent :=
  opcb ← gets (get_process pid);
  pcb ← some_or_raise opcb (ValueError "Process not found");
  match validate_process_transition pcb target wc with
  | Raise e => raise e
  | Ok reason =>
      match apply_process_transition pcb target wc with
      | Raise e => raise e
      | Ok (_, pcb') =>
          ev ← emit pid (process_event_type target) (transition_payload pcb' target reason wc);
          _upsert_projection pcb' ;;
          mret ev
      end
  end.

Definition safe_transition (pid : string) (target : ProcessState.t) (wc : option jobj)
    : M KState (option KernelEvent) :=
  try_except
    (ev ← transition pid target wc; mret (Some ev))
    (fun _ =>
       opcb ← gets (get_process pid);
       let current := match opcb with Some p => ProcessState.value (pcb_state p)
                      | None => "unknown" end in
       emit pid "PROCESS_TRANSITION_REJECTED"
         [("from", JStr current); ("to", JStr (ProcessState.value target));
          ("reason", JStr "illegal_transition")] ;;
       mret None).

(** ** Spawn *)

Definition spawn (program namespace : string) (cap_set : option string) (parent : option string)
    (resource_group : string) (prio : Z) (program_state : option jobj)
    : M KState ProcessControlBlock :=
  pid ← fresh_uuid;
  cap_set_id ← (match cap_set with
                | Some c => if String.eqb c "" then fresh_uuid else mret c
                | None => fresh_uuid
                end);
  now ← gets clock_now;
  _save_program_state pid (default [] program_state) ;;
  let pcb := mkPCB pid parent program ProcessState.CREATED prio prio cap_set_id namespace
               resource_group pid None None None None None 0 now in
  emit pid "PROCESS_SPAWNED" (pcb_dump pcb) ;;
  _upsert_projection pcb ;;
  transition pid ProcessState.READY None ;;
  updated ← gets (get_process pid);
  mret (default pcb updated).
End Service.

(** ** Projection handler *)

Definition is_process_update (ty : string) : bool :=
  String.prefix "PROCESS_" ty &&
  negb (String.eqb ty "PROCESS_SPAWNED" || String.eqb ty "PROCESS_TRANSITION_REJECTED").

(** [current_pcb.wait_condition = ...] as the handler decides it *)
Definition replayed_wait (pl : jobj) (new_state : string) (old : option jobj) : option jobj :=
  if otruthy (jget "wait_condition" pl) then jget "wait_condition" pl ≫= as_obj
  else if String.eqb new_state "ready" || String.eqb new_state "running" then None
  else old.

Definition pcb_set_exit (p : ProcessControlBlock) (ec rr : option string) : ProcessControlBlock :=
  mkPCB (pcb_pid p) (parent_pid p) (program_id p) (pcb_state p) (priority p)
    (effective_priority p) (capability_set_id p) (namespace_id p) (resource_group_id p)
    (program_state_ref p) (pending_request_id p) (wait_condition p) (checkpoint_ref p) ec rr
    (event_cursor p) (pcb_created_at p).
Definition pcb_set_cursor (p : ProcessControlBlock) (c : Z) : ProcessControlBlock :=
  mkPCB (pcb_pid p) (parent_pid p) (program_id p) (pcb_state p) (priority p)
    (effective_priority p) (capability_set_id p) (namespace_id p) (resource_group_id p)
    (program_state_ref p) (pending_request_id p) (wait_condition p) (checkpoint_ref p)
    (exit_code p) (result_ref p) c (pcb_created_at p).
(** [if payload.get(k): x = payload[k]] on a string field *)
Definition payload_or (k : string) (pl : jobj) (old : option string) : option string :=
  if otruthy (jget k pl) then jget k pl ≫= as_str else old.

(** [ProcessState(payload["new_state"])] *)
Definition payload_state (pl : jobj) : option ProcessState.t :=
  v ← req as_str "new_state" pl; ProcessState.of_value v.

Definition when_some {S A} (o : option A) (f : A -> M S unit) : M S unit :=
  match o with Some a => f a | None => mret tt end.

(** Update the state from the payload. *)
Definition replay_state_update (ev : KernelEvent) : M KState unit :=
  if otruthy (jget "new_state" (payload ev)) then
    ocur ← gets (get_process (ev_pid ev));
    when_some ocur (fun cur =>
      st ← some_or_raise (payload_state (payload ev)) (ValueError "ProcessState");
      _upsert_projection
        (pcb_set_state cur st
           (replayed_wait (payload ev) (ProcessState.value st) (wait_condition cur))))
  else mret tt.
(** Restore exit_code and result_ref for PROCESS_EXITED events. *)
Definition replay_exit_fields (ev : KernelEvent) : M KState unit :=
  if String.eqb (event_type ev) "PROCESS_EXITED" then
    oexit ← gets (get_process (ev_pid ev));
    when_some oexit (fun p =>
      _upsert_projection
        (pcb_set_exit p (payload_or "exit_code" (payload ev) (exit_code p))
           (payload_or "result_ref" (payload ev) (result_ref p))))
  else mret tt.
(** Update event_cursor to track the replay position. *)
Definition replay_cursor (ev : KernelEvent) : M KState unit :=
  ocursor ← gets (get_process (ev_pid ev));
  when_some ocursor (fun p =>
    _upsert_projection (pcb_set_cursor p (journal_offset ev + 1)%Z)).

Definition handle_event (ev : KernelEvent) : M KState unit :=
  if String.eqb (event_type ev) "PROCESS_SPAWNED" then
    now ← gets clock_now;
    pcb ← some_or_raise (pcb_load now (payload ev)) (ValidationError "ProcessControlBlock");
    _upsert_projection pcb ;;
    st ← gets (get_program_state (pcb_pid pcb));
    _save_program_state (pcb_pid pcb) st
  else if is_process_update (event_type ev) then
    replay_state_update ev ;; replay_exit_fields ev ;; replay_cursor ev
  else mret tt.

(** ** What the operations do *)

Lemma pcb_conflict_pid old new : pcb_pid old = pcb_pid new -> pcb_pid (pcb_conflict old new) = pcb_pid new.
Proof. done. Qed.
#[export] Hint Resolve pcb_conflict_pid : lhos.

Definition upserted (pcb : ProcessControlBlock) (s : KState) : KState :=
  set_processes (tbl_upsert pcb_pid pcb_conflict (pcb_row pcb)) s.

Lemma upsert_run pcb s : _upsert_projection pcb s = (Ok tt, upserted pcb s).
Proof. done. Qed.

Lemma get_upserted pcb s pid :
  get_process pid (upserted pcb s) =
  if decide (pid = pcb_pid pcb)
  then Some (match get_process pid s with
             | Some old => pcb_conflict old (pcb_row pcb)
             | None => pcb_row pcb end)
  else get_process pid s.
Proof.
  unfold get_process, upserted; cbn. case_decide as Hp.
  - subst pid. change (pcb_pid pcb) with (pcb_pid (pcb_row pcb)).
    by apply tbl_find_upsert_eq.
  - by apply tbl_find_upsert_ne.
Qed.

Lemma get_logged `{UuidSource} s ev pid : get_process pid (logged s ev) = get_process pid s.
Proof. done. Qed.

Section Specs.
Context `{UuidSource}.

(** The whole behaviour of [transition], one case per outcome. *)
Lemma transition_run pid target wc s :
  log_ok s ->
  transition pid target wc s =
  match get_process pid s with
  | None => (Raise (ValueError "Process not found"), s)
  | Some pcb =>
      match apply_process_transition pcb target wc with
      | Raise e => (Raise e, s)
      | Ok (reason, pcb') =>
          let ev := emitted s pid (process_event_type target)
                      (transition_payload pcb' target reason wc) in
          (Ok ev, upserted pcb' (logged s ev))
      end
  end.
Proof.
  intros Hs. unfold transition. run_m. destruct (get_process pid s) as [pcb|]; run_m; [|done].
  unfold apply_process_transition.
  destruct (validate_process_transition pcb target wc) as [reason|e]; run_m; [|done].
  by rewrite emit_spec.
Qed.

Lemma safe_transition_run pid target wc s :
  log_ok s ->
  safe_transition pid target wc s =
  match transition pid target wc s with
  | (Ok ev, s') => (Ok (Some ev), s')
  | (Raise _, _) =>
      let current := match get_process pid s with Some p => ProcessState.value (pcb_state p)
                     | None => "unknown" end in
      (Ok None, logged s (emitted s pid "PROCESS_TRANSITION_REJECTED"
         [("from", JStr current); ("to", JStr (ProcessState.value target));
          ("reason", JStr "illegal_transition")]))
  end.
Proof.
  intros Hs. unfold safe_transition, try_except. unfold mbind at 1, M_bind at 1.
  rewrite transition_run by done.
  destruct (get_process pid s) as [pcb|] eqn:E; cbn.
  - destruct (apply_process_transition pcb target wc) as [[reason pcb']|e]; cbn; [done|].
    run_m. rewrite E. by rewrite emit_spec.
  - run_m. rewrite E. by rewrite emit_spec.
Qed.

Lemma upserted_log_ok pcb s : log_ok s -> log_ok (upserted pcb s).
Proof. by apply log_ok_same. Qed.

Lemma transition_log_ok pid target wc : within (preserves log_ok) (transition pid target wc).
Proof.
  intros s Hs. rewrite transition_run by done. destruct (get_process pid s) as [pcb|]; [|done].
  destruct (apply_process_transition pcb target wc) as [[reason pcb']|e]; [|done]. cbn.
  by apply upserted_log_ok, logged_ok.
Qed.

(** ** Replay of the lifecycle states *)

Definition proc_state (s : KState) (pid : string) : option ProcessState.t :=
  pcb_state <$> get_process pid s.
Definition same_states (s r : KState) : Prop := forall pid, proc_state r pid = proc_state s pid.

Lemma proc_state_upserted pcb s pid :
  proc_state (upserted pcb s) pid =
  if decide (pid = pcb_pid pcb) then Some (pcb_state pcb) else proc_state s pid.
Proof.
  unfold proc_state. rewrite get_upserted. case_decide; [|done].
  by destruct (get_process pid s).
Qed.

Lemma process_event_is_update target : is_process_update (process_event_type target) = true.
Proof. by destruct target. Qed.

(** The exit fields and the cursor do not touch the states. *)
Lemma upsert_same_state p p' r :
  get_process (pcb_pid p') r = Some p -> pcb_state p' = pcb_state p ->
  forall pid, proc_state (upserted p' r) pid = proc_state r pid.
Proof.
  intros Hg Hs pid. rewrite proc_state_upserted. case_decide as Hp; [|done].
  subst. unfold proc_state. by rewrite Hg, Hs.
Qed.
Lemma get_process_pid pid r p : get_process pid r = Some p -> pcb_pid p = pid.
Proof. by intros [? _]%tbl_find_Some. Qed.

Lemma replay_cursor_run ev r :
  exists r', replay_cursor ev r = (Ok tt, r') /\ forall pid, proc_state r' pid = proc_state r pid.
Proof.
  unfold replay_cursor. run_m. destruct (get_process (ev_pid ev) r) as [p|] eqn:E; [|by exists r].
  cbn. eexists. split; [done|]. apply (upsert_same_state p); [|done].
  cbn. by rewrite (get_process_pid _ _ _ E).
Qed.
Lemma replay_exit_run ev r :
  exists r', replay_exit_fields ev r = (Ok tt, r') /\ forall pid, proc_state r' pid = proc_state r pid.
Proof.
  unfold replay_exit_fields. destruct (String.eqb _ _); [|by exists r]. run_m.
  destruct (get_process (ev_pid ev) r) as [p|] eqn:E; [|by exists r].
  cbn. eexists. split; [done|]. apply (upsert_same_state p); [|done].
  cbn. by rewrite (get_process_pid _ _ _ E).
Qed.
Lemma replay_state_run ev target r :
  otruthy (jget "new_state" (payload ev)) = true -> payload_state (payload ev) = Some target ->
  exists r', replay_state_update ev r = (Ok tt, r') /\
    forall pid, proc_state r' pid =
      if decide (pid = ev_pid ev) then (fun _ => target) <$> proc_state r pid else proc_state r pid.
Proof.
  intros Ht Hp. unfold replay_state_update. rewrite Ht, Hp. run_m.
  destruct (get_process (ev_pid ev) r) as [p|] eqn:E.
  - eexists (upserted _ r). split; [done|]. intros pid. rewrite proc_state_upserted. cbn.
    rewrite (get_process_pid _ _ _ E). case_decide as Hpid; [|done].
    subst pid. unfold proc_state. by rewrite E.
  - exists r. split; [done|]. intros pid. case_decide as Hpid; [|done].
    subst pid. unfold proc_state. by rewrite E.
Qed.

(** Replaying a transition event moves exactly that process, if it exists. *)
Lemma handle_transition_event ev pcb target reason wc r :
  event_type ev = process_event_type target -> payload ev = transition_payload pcb target reason wc ->
  exists r', handle_event ev r = (Ok tt, r') /\
    forall pid, proc_state r' pid =
      if decide (pid = ev_pid ev) then (fun _ => target) <$> proc_state r pid else proc_state r pid.
Proof.
  intros Ht Hp. unfold handle_event. rewrite Ht, process_event_is_update.
  replace (String.eqb (process_event_type target) "PROCESS_SPAWNED") with false by (by destruct target).
  destruct (replay_state_run ev target r) as (r1 & E1 & S1); [by rewrite Hp; destruct target..|].
  destruct (replay_exit_run ev r1) as (r2 & E2 & S2).
  destruct (replay_cursor_run ev r2) as (r3 & E3 & S3).
  exists r3. rewrite (bind_Ok _ _ _ _ _ E1), (bind_Ok _ _ _ _ _ E2). split; [done|].
  intros pid. by rewrite S3, S2, S1.
Qed.

(** Replaying a spawn event adds the process (or resets its row). *)
Lemma handle_spawned_event ev pcb r :
  event_type ev = "PROCESS_SPAWNED" -> payload ev = pcb_dump pcb ->
  exists r', handle_event ev r = (Ok tt, r') /\
    forall pid, proc_state r' pid =
      if decide (pid = pcb_pid pcb) then Some (pcb_state pcb) else proc_state r pid.
Proof.
  intros Ht Hp. unfold handle_event. rewrite Ht, Hp. cbn [String.eqb Ascii.eqb Bool.eqb].
  run_m. rewrite pcb_roundtrip. eexists. split; [reflexivity|]. intros pid.
  exact (proc_state_upserted pcb r pid).
Qed.

Lemma handle_other_event ev r :
  event_type ev <> "PROCESS_SPAWNED" -> is_process_update (event_type ev) = false ->
  handle_event ev r = (Ok tt, r).
Proof. intros Hn Hu. unfold handle_event. by rewrite (proj2 (String.eqb_neq _ _) Hn), Hu. Qed.

(** Every operation of the service, seen as a step a replay can follow. *)
Abbreviation proc_replays := (replays handle_event same_states).

Lemma same_states_ext s s' r : 
  (forall pid, proc_state s' pid = proc_state s pid) -> same_states s r -> same_states s' r.
Proof. intros He Hs pid. by rewrite He. Qed.

Lemma emit_other_replays s pid ty pl :
  ty <> "PROCESS_SPAWNED" -> is_process_update ty = false ->
  log_ok s -> proc_replays s (logged s (emitted s pid ty pl)).
Proof.
  intros Hn Hu Hs. eapply (replays_one _ _ s pid ty pl (clock_now s)).
  - intros _. split; [done|]. by apply logged_ok.
  - intros r Hr. exists r. split; [by apply handle_other_event|]. exact Hr.
Qed.

Lemma transition_replays pid target wc : within proc_replays (transition pid target wc).
Proof.
  intros s Hs. rewrite transition_run by done.
  destruct (get_process pid s) as [pcb|] eqn:E; [|by apply (reflexivity (R := proc_replays) s)].
  destruct (apply_process_transition pcb target wc) as [[reason pcb']|e] eqn:A;
    [|by apply (reflexivity (R := proc_replays) s)].
  revert Hs. eapply (replays_one _ _ s pid _ _ (clock_now s)).
  - intros Hs. split; [done|]. by apply upserted_log_ok, logged_ok.
  - intros r Hr.
    destruct (handle_transition_event
      (emitted s pid (process_event_type target) (transition_payload pcb' target reason wc))
      pcb' target reason wc r eq_refl eq_refl) as (r' & Er & Sr).
    exists r'. split; [exact Er|]. intros pid'. rewrite Sr.
    transitivity (proc_state (upserted pcb' s) pid'); [|done].
    rewrite proc_state_upserted. unfold apply_process_transition in A.
    destruct (validate_process_transition pcb target wc); simplify_eq; cbn.
    rewrite (get_process_pid _ _ _ E).
    destruct (decide (pid' = pid)) as [->|Hp]; [|apply Hr].
    rewrite Hr. unfold proc_state. by rewrite E.
Qed.

Lemma safe_transition_replays pid target wc : within proc_replays (safe_transition pid target wc).
Proof.
  intros s Hs. rewrite safe_transition_run by done.
  pose proof (transition_replays pid target wc s) as Ht.
  destruct (transition pid target wc s) as [[ev|e] s']; [by apply Ht|].
  by apply emit_other_replays.
Qed.

Lemma spawned_replays pcb :
  within proc_replays (emit (pcb_pid pcb) "PROCESS_SPAWNED" (pcb_dump pcb) ;; _upsert_projection pcb).
Proof.
  intros s Hs. rewrite (bind_Ok _ _ _ _ _ (emit_spec _ _ _ _ Hs)). revert Hs.
  eapply (replays_one _ _ s _ _ _ (clock_now s)).
  - intros Hs. split; [done|]. by apply upserted_log_ok, logged_ok.
  - intros r Hr.
    destruct (handle_spawned_event (emitted s (pcb_pid pcb) "PROCESS_SPAWNED" (pcb_dump pcb))
      pcb r eq_refl eq_refl) as (r' & Er & Sr).
    exists r'. split; [exact Er|]. intros pid'. rewrite Sr.
    transitivity (proc_state (upserted pcb s) pid'); [|done].
    rewrite proc_state_upserted. case_decide; [done|apply Hr].
Qed.

Lemma save_program_state_replays pid st : within proc_replays (_save_program_state pid st).
Proof. intros s. apply replays_silent; [done|by apply log_ok_same|done]. Qed.
#[local] Hint Resolve transition_replays spawned_replays save_program_state_replays : lhos.

Lemma spawn_replays prog ns cap parent rg prio st :
  within proc_replays (spawn prog ns cap parent rg prio st).
Proof.
  assert (within proc_replays fresh_uuid) as Hf by (by apply fresh_uuid_replays).
  unfold spawn. apply within_bind; [typeclasses eauto|done|]. intros pid.
  apply within_bind; [typeclasses eauto|solve_within|]. intros cap'.
  apply within_bind; [typeclasses eauto|solve_within|]. intros now.
  apply within_bind; [typeclasses eauto|solve_within|]. intros _.
  apply within_group, within_bind; [typeclasses eauto| |intros _; solve_within].
  exact (spawned_replays (mkPCB pid parent prog ProcessState.CREATED prio prio cap' ns rg pid
           None None None None None 0 now)).
Qed.

(** The process side of a run of the kernel: its own operations, the writes of
    control-block fields other than the state (cursor, checkpoint and exit
    fields), and whatever the other services journal. *)
Inductive proc_step : KState -> KState -> Prop :=
| step_spawn prog ns cap parent rg prio st s :
    proc_step s (spawn prog ns cap parent rg prio st s).2
| step_transition pid target wc s : proc_step s (transition pid target wc s).2
| step_safe_transition pid target wc s : proc_step s (safe_transition pid target wc s).2
| step_save pid st s : proc_step s (_save_program_state pid st s).2
| step_fields p p' s :
    get_process (pcb_pid p') s = Some p -> pcb_state p' = pcb_state p ->
    proc_step s (_upsert_projection p' s).2
| step_other_event pid ty pl s :
    String.prefix "PROCESS_" ty = false -> proc_step s (emit pid ty pl s).2.

Lemma proc_step_replays s s' : proc_step s s' -> proc_replays s s'.
Proof.
  destruct 1 as [| | | |p p' s Hg Hst|pid ty pl s Hty].
  - apply spawn_replays.
  - apply transition_replays.
  - apply safe_transition_replays.
  - apply save_program_state_replays.
  - apply replays_silent; [done|apply upserted_log_ok|]. intros r.
    apply same_states_ext, (upsert_same_state p); done.
  - intros Hs. rewrite emit_spec by done. apply emit_other_replays; [| |done|done].
    + by intros ->.
    + unfold is_process_update. by rewrite Hty.
Qed.
End Specs.

(** ** Properties *)

(** The whole behaviour of [transition].  An unknown process and an illegal,
    terminal or wait-less transition raise and change nothing; otherwise exactly
    one event is appended to the journal and exactly that control block changes,
    to the target state. *)
Theorem transition_behaviour `{UuidSource} pid target wc s :
  log_ok s ->
  match get_process pid s with
  | None => transition pid target wc s = (Raise (ValueError "Process not found"), s)
  | Some pcb =>
      match apply_process_transition pcb target wc with
      | Raise e => transition pid target wc s = (Raise e, s)
      | Ok (reason, pcb') =>
          exists ev s', transition pid target wc s = (Ok ev, s') /\ log_ok s' /\
            journal_events s' = journal_events s ++ [ev] /\
            event_type ev = process_event_type target /\ ev_pid ev = pid /\
            proc_state s' pid = Some target /\
            (forall pid', pid' <> pid -> get_process pid' s' = get_process pid' s) /\
            leases_projection s' = leases_projection s /\
            actions_projection s' = actions_projection s
      end
  end.
Proof.
  intros Hs. pose proof (transition_run pid target wc s Hs) as Hr.
  pose proof (transition_log_ok pid target wc s Hs) as Hl. rewrite Hr in *.
  destruct (get_process pid s) as [pcb|] eqn:E; [|done].
  destruct (apply_process_transition pcb target wc) as [[reason pcb']|e] eqn:A; [|done].
  assert (pcb_pid pcb' = pid /\ pcb_state pcb' = target) as [Hp Ht].
  { unfold apply_process_transition in A. rewrite <-(get_process_pid _ _ _ E).
    by destruct (validate_process_transition pcb target wc); simplify_eq. }
  eexists _, _. split; [done|]. split; [exact Hl|]. split_and!; try done.
  - rewrite proc_state_upserted, Hp, decide_True by done. by rewrite Ht.
  - intros pid' Hne. rewrite get_upserted, Hp, decide_False by done. apply get_logged.
Qed.

Definition demo_running : KState :=
  set_processes (fun _ => [demo_pcb ProcessState.RUNNING]) (init_storage 0).
Lemma demo_running_ok `{UuidSource} : log_ok demo_running.
Proof. apply (log_ok_same (init_storage 0)); [done..|apply init_log_ok]. Qed.

Lemma transition_behaviour_witness :
  exists ev s', @transition pretty_uuid "p1" ProcessState.EXITED None demo_running = (Ok ev, s') /\
    @log_ok pretty_uuid s' /\ journal_events s' = journal_events demo_running ++ [ev] /\
    event_type ev = "PROCESS_EXITED" /\ ev_pid ev = "p1" /\
    proc_state s' "p1" = Some ProcessState.EXITED /\
    (forall pid', pid' <> "p1" -> get_process pid' s' = get_process pid' demo_running) /\
    leases_projection s' = leases_projection demo_running /\
    actions_projection s' = actions_projection demo_running.
Proof.
  exact (@transition_behaviour pretty_uuid "p1" ProcessState.EXITED None demo_running
           (@demo_running_ok pretty_uuid)).
Defined.

(** The journal determines the process states.  After any run of the process
    service from an empty database, clearing the projections and replaying the
    journal through [handle_event] succeeds and gives every process the
    lifecycle state it had. *)
Theorem replay_process_states `{UuidSource} now s :
  rtc proc_step (init_storage now) s ->
  exists r, rebuild_projections [handle_event] s = (Ok (length (journal_events s)), r) /\
            forall pid, proc_state r pid = proc_state s pid.
Proof.
  intros Hr. apply (rebuild_replays handle_event same_states (init_storage now)).
  - apply init_log_ok.
  - done.
  - apply rtc_preorder; [typeclasses eauto|].
    revert Hr. apply rtc_subrel. intros x y. apply proc_step_replays.
  - done.
Qed.

Lemma replay_process_states_witness :
  let s := (@spawn pretty_uuid "prog" "ns" None None "default" 10 None (init_storage 5)).2 in
  exists r, rebuild_projections [handle_event] s = (Ok 2, r) /\
            forall pid, proc_state r pid = proc_state s pid.
Proof.
  apply (@replay_process_states pretty_uuid 5). apply rtc_once. apply (@step_spawn pretty_uuid).
Defined.

(** What the journaled [old_state] is: the in-place update has already run when
    the payload is built, so the recorded old state is the new one. *)
Lemma transition_records_new_as_old `{UuidSource} pid target wc s ev s' :
  log_ok s -> transition pid target wc s = (Ok ev, s') ->
  jget "old_state" (payload ev) = jget "new_state" (payload ev).
Proof.
  intros Hs. rewrite transition_run by done. destruct (get_process pid s) as [pcb|]; [|done].
  unfold apply_process_transition.
  destruct (validate_process_transition pcb target wc); [|done]. intros; simplify_eq/=.
  by case_decide; subst.
Qed.

(** A blocked process that fails loses its wait condition in the live table and
    keeps it in the replayed one. *)
Lemma replay_keeps_dead_wait_condition :
  let ops := @spawn pretty_uuid "prog" "ns" None None "default" 10 None ;;
             @transition pretty_uuid "uuid-0" ProcessState.RUNNING None ;;
             @transition pretty_uuid "uuid-0" ProcessState.BLOCKED (Some [("signal_type", JStr "RESUME")]) ;;
             @transition pretty_uuid "uuid-0" ProcessState.FAILED None in
  let s := (ops (init_storage 5)).2 in
  let r := (rebuild_projections [handle_event] s).2 in
  (wait_condition <$> get_process "uuid-0" s) = Some None /\
  (wait_condition <$> get_process "uuid-0" r) = Some (Some [("signal_type", JStr "RESUME")]).
Proof. vm_compute. split; reflexivity. Qed.
