(* ===== verification/Fnmatch.v ===== *)
(** * Shell patterns: Python's [fnmatch.fnmatch]

    The capability service matches resources against patterns with the standard
    library's [fnmatch].  [translate] follows [fnmatch.translate] (with its
    bracket expressions), [glob_match] is the anchored match of the resulting
    expression; file names are case sensitive (POSIX).  Strings are ASCII. *)

From S2P Require Import Prelude.
From Stdlib Require Import Ascii String.
From stdpp Require Import strings list.

Abbreviation chars := (list ascii).

(** One item of a translated pattern. *)
Inductive glob : Type :=
| GStar
| GAny
| GLit (c : ascii)
| GSet (negated : bool) (ranges : list (ascii * ascii)).

Definition in_range (c : ascii) (r : ascii * ascii) : bool :=
  (N_of_ascii r.1 <=? N_of_ascii c)%N && (N_of_ascii c <=? N_of_ascii r.2)%N.
Definition accepts (g : glob) (c : ascii) : bool :=
  match g with
  | GStar => false
  | GAny => true
  | GLit d => Ascii.eqb c d
  | GSet neg rs => xorb neg (existsb (in_range c) rs)
  end.

(** The position of the bracket that closes [pat[i:]]; a ['!'] and then a [']']
    at the start belong to the set. *)
Fixpoint index_close (l : chars) : option nat :=
  match l with
  | [] => None
  | c :: l' => if Ascii.eqb c "]" then Some 0 else S <$> index_close l'
  end.
Definition close_bracket (l : chars) : option nat :=
  let n1 := match l with c :: _ => if Ascii.eqb c "!" then 1 else 0 | [] => 0 end in
  let n2 := match drop n1 l with c :: _ => if Ascii.eqb c "]" then 1 else 0 | [] => 0 end in
  (fun k => n1 + n2 + k) <$> index_close (drop (n1 + n2) l).

(** The members of a set: [x-y] is a range (empty when [x > y]), any other
    character stands for itself. *)
Fixpoint set_ranges (fuel : nat) (l : chars) : list (ascii * ascii) :=
  match fuel, l with
  | S fuel', a :: "-"%char :: b :: l' => (a, b) :: set_ranges fuel' l'
  | S fuel', a :: l' => (a, a) :: set_ranges fuel' l'
  | _, _ => []
  end.
Definition bracket_set (stuff : chars) : glob :=
  match stuff with
  | "!"%char :: body => GSet true (set_ranges (length body) body)
  | body => GSet false (set_ranges (length body) body)
  end.

(** The token of a character outside brackets. *)
Definition token (c : ascii) : glob :=
  if Ascii.eqb c "*" then GStar else if Ascii.eqb c "?" then GAny else GLit c.

(** [skip] counts the characters already consumed by a bracket expression. *)
Fixpoint translate (skip : nat) (pat : chars) : list glob :=
  match pat with
  | [] => []
  | c :: pat' =>
      match skip with
      | S k => translate k pat'
      | 0 =>
          if Ascii.eqb c "[" then
            match close_bracket pat' with
            | None => GLit c :: translate 0 pat'
            | Some n => bracket_set (take n pat') :: translate (S n) pat'
            end
          else token c :: translate 0 pat'
      end
  end.

Fixpoint glob_match (p : list glob) : chars -> bool :=
  match p with
  | [] => fun s => match s with [] => true | _ => false end
  | GStar :: p' => fix star s :=
      glob_match p' s || match s with [] => false | _ :: s' => star s' end
  | g :: p' => fun s => match s with [] => false | c :: s' => accepts g c && glob_match p' s' end
  end.

Definition fnmatch (name pattern : string) : bool :=
  glob_match (translate 0 (String.list_ascii_of_string pattern)) (String.list_ascii_of_string name).

Example fnmatch_star : fnmatch "resource:workspace/p1/a" "resource:workspace/*" = true.
Proof. reflexivity. Qed.
Example fnmatch_set : fnmatch "v7" "v[0-9]" && negb (fnmatch "v7" "v[!0-9]") = true.
Proof. reflexivity. Qed.
Example fnmatch_open : fnmatch "a[b" "a[b" = true.
Proof. reflexivity. Qed.

(** ** The match as a relation *)

Inductive matches : list glob -> chars -> Prop :=
| matches_nil : matches [] []
| matches_star_done p s : matches p s -> matches (GStar :: p) s
| matches_star_skip p c s : matches (GStar :: p) s -> matches (GStar :: p) (c :: s)
| matches_char g p c s : accepts g c = true -> matches p s -> matches (g :: p) (c :: s).
#[export] Hint Constructors matches : lhos.

Lemma glob_match_spec p s : glob_match p s = true <-> matches p s.
Proof.
  split.
  - revert s. induction p as [|g p IH]; intros s.
    + destruct s; [constructor|done].
    + destruct g as [| |d|neg rs]; [|destruct s as [|c s]; [done|];
        match goal with |- glob_match (?g :: _) _ = true -> _ =>
          change (accepts g c && glob_match p s = true -> matches (g :: p) (c :: s)) end;
        intros [? ?]%andb_true_iff; apply matches_char; [done|by apply IH]..].
      induction s as [|c s IHs]; cbn.
      * rewrite orb_false_r. intros ?%IH. by constructor.
      * intros [?%IH|?%IHs]%orb_true_iff; [by apply matches_star_done|by apply matches_star_skip].
  - induction 1 as [|p s Hm IH|p c s Hm IH|g p c s Ha Hm IH]; [done| | |].
    + destruct s; cbn; by rewrite IH.
    + cbn. apply orb_true_iff. by right.
    + destruct g as [| |d|neg rs]; [done|..];
        match goal with |- glob_match (?g :: _) _ = true =>
          change (accepts g c && glob_match p s = true) end; by rewrite Ha, IH.
Qed.

(** What a leading star does to a suffix. *)
Lemma matches_star_app p s1 s2 : matches (GStar :: p) s2 -> matches (GStar :: p) (s1 ++ s2).
Proof. intros Hm. induction s1; cbn; auto with lhos. Qed.

Lemma matches_star_inv p s :
  matches (GStar :: p) s -> exists s1 s2, s = s1 ++ s2 /\ matches p s2.
Proof.
  intros Hm. remember (GStar :: p) as q eqn:Hq. induction Hm as [|? s Hm _|? c s Hm IH|g ? c s Ha Hm _];
    simplify_eq.
  - by exists [], s.
  - destruct (IH eq_refl) as (s1 & s2 & -> & H2). by exists (c :: s1), s2.
Qed.

Lemma translate_plain pat :
  Forall (fun c => c <> "["%char) pat -> translate 0 pat = token <$> pat.
Proof.
  induction 1 as [|c pat Hc _ IH]; cbn; [done|].
  destruct (Ascii.eqb_spec c "["); [done|]. by rewrite IH.
Qed.

(** If the parent's items are stars and literals that are not special, whatever
    the child pattern matches is matched by the parent once the child pattern,
    read as a name, is. *)
Lemma matches_subst (p : list glob) (child name : chars) :
  Forall (fun g => match g with GStar => True
                   | GLit c => c <> "*"%char /\ c <> "?"%char | _ => False end) p ->
  matches p child -> matches (token <$> child) name -> matches p name.
Proof.
  intros Hp Hm. revert name.
  induction Hm as [|p s Hm IH|p c s Hm IH|g p c s Ha Hm IH]; intros name Hn.
  - done.
  - apply Forall_cons in Hp as [_ Hp]. apply matches_star_done. by apply IH.
  - cbn in Hn. unfold token in Hn at 1. destruct (Ascii.eqb_spec c "*") as [->|Hs].
    + apply matches_star_inv in Hn as (s1 & s2 & -> & Hn). apply matches_star_app. by apply IH.
    + destruct (Ascii.eqb c "?"); inversion Hn; subst; apply matches_star_skip; by apply IH.
  - apply Forall_cons in Hp as [Hg Hp]. destruct g as [| |d|]; [done|done| |done].
    cbn in Ha. apply Ascii.eqb_eq in Ha as ->. destruct Hg as [Hg1 Hg2].
    cbn in Hn. unfold token in Hn at 1.
    rewrite (proj2 (Ascii.eqb_neq _ _) Hg1), (proj2 (Ascii.eqb_neq _ _) Hg2) in Hn.
    inversion Hn; subst. apply matches_char; [done|by apply IH].
Qed.

(** Patterns without brackets; parent patterns moreover without ['?']. *)
Definition no_char (c : ascii) (pat : string) : bool :=
  forallb (fun d => negb (Ascii.eqb d c)) (String.list_ascii_of_string pat).

Lemma no_char_Forall c pat : no_char c pat = true -> Forall (fun d => d <> c) (String.list_ascii_of_string pat).
Proof.
  unfold no_char. rewrite forallb_forall, Forall_forall. intros Hf d Hd%list_elem_of_In.
  apply Hf in Hd. by destruct (Ascii.eqb_spec d c).
Qed.

Definition no_bracket : string -> bool := no_char "["%char.
Definition no_question : string -> bool := no_char "?"%char.

Lemma fnmatch_covers parent child name :
  no_bracket parent = true -> no_question parent = true -> no_bracket child = true ->
  fnmatch child parent = true -> fnmatch name child = true -> fnmatch name parent = true.
Proof.
  intros Hp1%no_char_Forall Hp2%no_char_Forall Hc%no_char_Forall. unfold fnmatch.
  rewrite !translate_plain by done. rewrite !glob_match_spec. intros Hcp Hnc.
  eapply matches_subst; [|done|done]. apply Forall_fmap, Forall_forall. intros d Hd. cbn.
  unfold token. destruct (Ascii.eqb_spec d "*"); [done|].
  rewrite Forall_forall in Hp2. specialize (Hp2 d Hd).
  by rewrite (proj2 (Ascii.eqb_neq _ _) Hp2).
Qed.
