(* ===== verification/CapabilityService.v ===== *)
(** * Capability service (agent_os/services/capability_service.py)

    Capability sets per process, grants, checks with shell patterns, the
    child-subset test and the projection handler. *)

From S2P Require Import Prelude KernelModels Storage Journal Fnmatch.

(** ** [CapabilitySet.check] *)

Definition cap_allows (resource op : string) (c : Capability) : bool :=
  fnmatch resource (resource_pattern c) && bool_decide (op ∈ operations c).
Definition set_check (cs : CapabilitySet) (resource op : string) : bool :=
  existsb (cap_allows resource op) (capabilities cs).

(** ** Dumps and loads; a [set] is dumped as a list in some order *)

Definition capability_dump (c : Capability) : json :=
  JObj [("capability_id", JStr (capability_id c)); ("resource_pattern", JStr (resource_pattern c));
        ("operations", JList (JStr <$> elements (operations c)));
        ("constraints", JObj (constraints c))].
Definition capability_load (fresh : string) (j : json) : option Capability :=
  o ← as_obj j;
  cid ← dfl as_str fresh "capability_id" o;
  pat ← req as_str "resource_pattern" o;
  ops ← dfl (fun j => as_list j ≫= mapM as_str) [] "operations" o;
  cons ← dfl as_obj [] "constraints" o;
  Some (mkCapability cid pat (list_to_set ops) cons).
Definition capset_dump (cs : CapabilitySet) : jobj :=
  [("set_id", JStr (set_id cs)); ("pid", JStr (cs_pid cs));
   ("capabilities", JList (capability_dump <$> capabilities cs))].
Definition capset_load (fresh : string) (o : jobj) : option CapabilitySet :=
  sid ← dfl as_str fresh "set_id" o;
  pid ← req as_str "pid" o;
  caps ← dfl (fun j => as_list j ≫= mapM (capability_load fresh)) [] "capabilities" o;
  Some (mkCapabilitySet sid pid caps).

(** ** Rows *)

(** [ON CONFLICT(pid) DO UPDATE SET capabilities_json = excluded.capabilities_json] *)
Definition capset_conflict (old new : CapabilitySet) : CapabilitySet :=
  mkCapabilitySet (set_id old) (cs_pid old) (capabilities new).

Definition get_capability_set (pid : string) (s : KState) : option CapabilitySet :=
  tbl_find cs_pid pid (capability_sets s).

(** The INSERT; [set_id] is the primary key. *)
Definition insert_capset (cs : CapabilitySet) : M KState unit :=
  rows ← gets capability_sets;
  raise_if (bool_decide (cs_pid cs ∉ cs_pid <$> rows) && bool_decide (set_id cs ∈ set_id <$> rows))
    (IntegrityError "capability_sets") ;;
  modify (set_capability_sets (tbl_upsert cs_pid capset_conflict cs)).
Definition _upsert_capability_set (cs : CapabilitySet) : M KState unit :=
  transaction (insert_capset cs).

(** ** Operations *)

Section Service.
Context `{UuidSource}.

(** [(c.resource_pattern, frozenset(c.operations)) == key] *)
Definition same_grant (a b : Capability) : bool :=
  String.eqb (resource_pattern a) (resource_pattern b) &&
  bool_decide (operations a = operations b).

Definition grant (pid : string) (cap : Capability) : M KState unit :=
  transaction (
    row ← gets (get_capability_set pid);
    let existing := match row with Some r => capabilities r | None => [] end in
    if existsb (same_grant cap) existing then mret tt
    else
      sid ← fresh_uuid;
      insert_capset (mkCapabilitySet sid pid (existing ++ [cap]))).

Definition create_capability_set (pid : string) (caps : option (list Capability))
    : M KState CapabilitySet :=
  sid ← fresh_uuid;
  let cs := mkCapabilitySet sid pid (default [] caps) in
  _upsert_capability_set cs ;;
  emit pid "CAPABILITY_SET_CREATED" (capset_dump cs) ;;
  mret cs.

Definition check (pid resource op : string) (s : KState) : bool :=
  match get_capability_set pid s with
  | None => false
  | Some cs => set_check cs resource op
  end.

Definition enforce (pid resource op : string) : M KState unit :=
  ok ← gets (check pid resource op);
  if ok : bool then mret tt
  else
    emit pid "CAPABILITY_DENIED"
      [("pid", JStr pid); ("resource", JStr resource); ("operation", JStr op)] ;;
    raise (CapabilityDenied pid resource op).

Definition check_namespace_isolation (caller_pid caller_ns target_resource target_ns : string)
    (s : KState) : bool :=
  if String.eqb caller_ns target_ns then true
  else check caller_pid (String.append "resource:" (String.append target_ns "/*")) "acquire" s.

(** [fnmatch(cc.resource_pattern, pc.resource_pattern) and set(cc.ops) <= set(pc.ops)] *)
Definition covered_by (cc pc : Capability) : bool :=
  fnmatch (resource_pattern cc) (resource_pattern pc) &&
  bool_decide (operations cc ⊆ operations pc).

Definition verify_child_subset (parent child : string) (s : KState) : bool :=
  match get_capability_set parent s, get_capability_set child s with
  | None, None => true
  | None, Some c => Nat.eqb (length (capabilities c)) 0
  | Some _, None => true
  | Some p, Some c => forallb (fun cc => existsb (covered_by cc) (capabilities p)) (capabilities c)
  end.

Definition handle_event (ev : KernelEvent) : M KState unit :=
  if String.eqb (event_type ev) "CAPABILITY_SET_CREATED" then
    fresh ← fresh_uuid;
    cs ← some_or_raise (capset_load fresh (payload ev)) (ValidationError "CapabilitySet");
    _upsert_capability_set cs
  else if String.eqb (event_type ev) "CAPABILITY_GRANTED" then
    pid ← some_or_raise (req as_str "pid" (payload ev)) (KeyError "pid");
    fresh ← fresh_uuid;
    cap ← some_or_raise (jget "capability" (payload ev) ≫= capability_load fresh)
            (ValidationError "Capability");
    found ← gets (get_capability_set pid);
    existing ← (match found with Some cs => mret cs | None => create_capability_set pid None end);
    _upsert_capability_set
      (mkCapabilitySet (set_id existing) (cs_pid existing) (capabilities existing ++ [cap]))
  else mret tt.

(** ** Invariant and lemmas *)

(** No identifier still to be drawn names a set. *)
Definition caps_ok (s : KState) : Prop :=
  forall n cs, (uuid_count s <= n)%N -> cs ∈ capability_sets s -> set_id cs <> uuid4 n.

Lemma get_capset_upsert cs s pid :
  get_capability_set pid (set_capability_sets (tbl_upsert cs_pid capset_conflict cs) s) =
  if decide (pid = cs_pid cs)
  then Some (match get_capability_set pid s with Some old => capset_conflict old cs | None => cs end)
  else get_capability_set pid s.
Proof.
  unfold get_capability_set; cbn. case_decide as Hp.
  - subst pid. by apply tbl_find_upsert_eq.
  - by apply tbl_find_upsert_ne.
Qed.

(** Inserting a set under a fresh identifier succeeds. *)
Lemma insert_fresh_capset pid caps s :
  caps_ok s ->
  insert_capset (mkCapabilitySet (uuid4 (uuid_count s)) pid caps) (set_uuid N.succ s) =
  (Ok tt, set_capability_sets
            (tbl_upsert cs_pid capset_conflict (mkCapabilitySet (uuid4 (uuid_count s)) pid caps))
            (set_uuid N.succ s)).
Proof.
  intros Hok. unfold insert_capset. run_m. rewrite (bool_decide_eq_false_2 (_ ∈ set_id <$> _)).
  - by rewrite andb_false_r.
  - cbn. intros (cs & Hs & Hcs)%list_elem_of_fmap. by apply (Hok (uuid_count s) cs).
Qed.

Lemma capset_upsert_ok pid caps s :
  caps_ok s ->
  caps_ok (set_capability_sets
            (tbl_upsert cs_pid capset_conflict (mkCapabilitySet (uuid4 (uuid_count s)) pid caps))
            (set_uuid N.succ s)).
Proof.
  intros Hok n cs Hn Hcs. cbn in Hn, Hcs.
  apply elem_of_tbl_upsert in Hcs as [Hcs|[->|(old & Hold & _ & ->)]]; cbn.
  - apply Hok; [lia|done].
  - intros Heq%(inj uuid4). lia.
  - apply Hok; [lia|done].
Qed.

Lemma set_check_snoc sid pid caps cap resource op :
  set_check (mkCapabilitySet sid pid (caps ++ [cap])) resource op =
  existsb (cap_allows resource op) caps || cap_allows resource op cap.
Proof. unfold set_check; cbn. by rewrite existsb_app; cbn; rewrite orb_false_r. Qed.

Lemma same_grant_allows a b resource op :
  same_grant a b = true -> cap_allows resource op a = cap_allows resource op b.
Proof.
  intros [Hp%String.eqb_eq Ho%bool_decide_eq_true]%andb_true_iff. unfold cap_allows.
  by rewrite Hp, Ho.
Qed.

Lemma covered_allows cc pc resource op :
  no_bracket (resource_pattern pc) = true -> no_question (resource_pattern pc) = true ->
  no_bracket (resource_pattern cc) = true ->
  covered_by cc pc = true -> cap_allows resource op cc = true -> cap_allows resource op pc = true.
Proof.
  unfold covered_by, cap_allows. rewrite !andb_true_iff, !bool_decide_eq_true.
  intros Hp1 Hp2 Hc [Hcov Hsub] [Hm Ho]. split; [|set_solver]. by eapply fnmatch_covers.
Qed.
End Service.

(** ** Properties *)

(** A grant adds exactly the granted authority.  [grant] always succeeds, and
    afterwards a process may do an operation on a resource iff it could before or
    it is the grantee and the new capability allows it; no other process gains or
    loses anything, and granting twice changes nothing more. *)
Theorem grant_exact `{UuidSource} pid cap s :
  caps_ok s ->
  exists s', grant pid cap s = (Ok tt, s') /\ caps_ok s' /\
    journal_events s' = journal_events s /\
    (forall pid' resource op, check pid' resource op s' =
       check pid' resource op s || (String.eqb pid' pid && cap_allows resource op cap)) /\
    capability_sets (grant pid cap s').2 = capability_sets s'.
Proof.
  intros Hok. unfold grant at 1, transaction at 1. run_m.
  destruct (existsb (same_grant cap) _) eqn:E.
  - exists s. split_and!; [done|done|done| |].
    + intros pid' resource op. destruct (String.eqb_spec pid' pid) as [->|]; cbn; [|by rewrite orb_false_r].
      apply existsb_exists in E as (c & Hc & Hs).
      destruct (cap_allows resource op cap) eqn:A; [|by rewrite orb_false_r].
      rewrite orb_true_r. unfold check. destruct (get_capability_set pid s) as [cs|]; [|done].
      apply existsb_exists. exists c. split; [done|]. by rewrite <-(same_grant_allows _ _ _ _ Hs).
    + unfold grant, transaction. run_m. by rewrite E.
  - unfold fresh_uuid. rewrite insert_fresh_capset by done. eexists. split; [done|].
    split; [by apply capset_upsert_ok|]. split; [done|].
    assert (forall pid', get_capability_set pid' (set_uuid N.succ s) = get_capability_set pid' s)
      as Hu by done.
    split.
    + intros pid' resource op. unfold check. rewrite get_capset_upsert, Hu. cbn.
      destruct (String.eqb_spec pid' pid) as [->|Hp].
      * rewrite decide_True by done. cbn.
        destruct (get_capability_set pid s) as [cs|]; apply set_check_snoc.
      * rewrite decide_False by done. by rewrite orb_false_r.
    + unfold grant, transaction. run_m. rewrite get_capset_upsert, decide_True by done.
      assert (forall l, existsb (same_grant cap) (l ++ [cap]) = true) as Hg.
      { intros l. rewrite existsb_app. apply orb_true_iff. right. cbn.
        unfold same_grant. by rewrite String.eqb_refl, bool_decide_eq_true_2. }
      destruct (get_capability_set pid (set_uuid N.succ s)); cbn; by rewrite Hg.
Qed.

Definition demo_cap (pat : string) (ops : list string) : Capability :=
  mkCapability "c" pat (list_to_set ops) [].

Lemma grant_exact_witness :
  exists s', @grant pretty_uuid "p" (demo_cap "resource:workspace/*" ["acquire"]) (init_storage 0) = (Ok tt, s') /\
    @caps_ok pretty_uuid s' /\ journal_events s' = [] /\
    (forall pid' resource op, check pid' resource op s' =
       check pid' resource op (init_storage 0) ||
       (String.eqb pid' "p" && cap_allows resource op (demo_cap "resource:workspace/*" ["acquire"]))) /\
    capability_sets (@grant pretty_uuid "p" (demo_cap "resource:workspace/*" ["acquire"]) s').2 = capability_sets s'.
Proof.
  apply (@grant_exact pretty_uuid "p" (demo_cap "resource:workspace/*" ["acquire"]) (init_storage 0)).
  intros n cs _ Hcs. by apply not_elem_of_nil in Hcs.
Defined.

(** [enforce] is complete mediation.  It returns without any effect exactly
    when the process holds a capability whose pattern matches the resource and
    whose operations contain the operation; otherwise it journals one
    CAPABILITY_DENIED event and raises, changing nothing else. *)
Theorem enforce_exact `{UuidSource} pid resource op s :
  log_ok s ->
  ((exists cs c, get_capability_set pid s = Some cs /\ c ∈ capabilities cs /\
      fnmatch resource (resource_pattern c) = true /\ op ∈ operations c) /\
   enforce pid resource op s = (Ok tt, s)) \/
  ((forall cs c, get_capability_set pid s = Some cs -> c ∈ capabilities cs ->
      fnmatch resource (resource_pattern c) = true -> op ∉ operations c) /\
   exists ev, event_type ev = "CAPABILITY_DENIED" /\ ev_pid ev = pid /\
     enforce pid resource op s = (Raise (CapabilityDenied pid resource op), logged s ev)).
Proof.
  intros Hs. unfold enforce. run_m. destruct (check pid resource op s) eqn:E.
  - left. split; [|done]. unfold check in E. destruct (get_capability_set pid s) as [cs|]; [|done].
    apply existsb_exists in E as (c & Hc & [Hm Ho%bool_decide_eq_true]%andb_true_iff).
    exists cs, c. split_and!; [done|by apply list_elem_of_In|done|done].
  - right. split.
    + intros cs c Hcs Hc Hm Ho. unfold check in E. rewrite Hcs in E.
      apply not_true_iff_false in E. apply E, existsb_exists. exists c.
      split; [by apply list_elem_of_In|]. unfold cap_allows. rewrite Hm. by rewrite bool_decide_eq_true_2.
    + rewrite emit_spec by done. eexists. split_and!; [| |reflexivity]; done.
Qed.

Lemma enforce_exact_witness :
  ((exists cs c, get_capability_set "p" (init_storage 0) = Some cs /\ c ∈ capabilities cs /\
      fnmatch "r" (resource_pattern c) = true /\ "use" ∈ operations c) /\
   @enforce pretty_uuid "p" "r" "use" (init_storage 0) = (Ok tt, init_storage 0)) \/
  ((forall cs c, get_capability_set "p" (init_storage 0) = Some cs -> c ∈ capabilities cs ->
      fnmatch "r" (resource_pattern c) = true -> "use" ∉ operations c) /\
   exists ev, event_type ev = "CAPABILITY_DENIED" /\ ev_pid ev = "p" /\
     @enforce pretty_uuid "p" "r" "use" (init_storage 0) =
     (Raise (CapabilityDenied "p" "r" "use"), @logged (init_storage 0) ev)).
Proof. apply (@enforce_exact pretty_uuid). apply (@init_log_ok pretty_uuid). Defined.

(** The child-subset test is sound on star patterns.  When the parent's
    patterns use no ['?'] and no brackets and the child's no brackets, a passed
    [verify_child_subset] means the child can do nothing its parent cannot. *)
Theorem child_subset_sound parent child s :
  (forall cs c, get_capability_set parent s = Some cs -> c ∈ capabilities cs ->
     no_bracket (resource_pattern c) = true /\ no_question (resource_pattern c) = true) ->
  (forall cs c, get_capability_set child s = Some cs -> c ∈ capabilities cs ->
     no_bracket (resource_pattern c) = true) ->
  verify_child_subset parent child s = true ->
  forall resource op, check child resource op s = true -> check parent resource op s = true.
Proof.
  intros Hp Hc Hv resource op. unfold check, verify_child_subset in *.
  destruct (get_capability_set child s) as [cs|] eqn:Ec; [|done].
  destruct (get_capability_set parent s) as [ps|] eqn:Ep.
  - intros (c & Hin & Hcc)%existsb_exists. rewrite forallb_forall in Hv.
    apply Hv in Hin as Hcov. apply existsb_exists in Hcov as (pc & Hpc & Hcov).
    apply existsb_exists. exists pc. split; [done|]. apply list_elem_of_In in Hin, Hpc.
    destruct (Hp ps pc eq_refl Hpc) as [Hb Hq].
    by apply (covered_allows c pc); [| |by apply (Hc cs)| |].
  - destruct cs as [sid pid [|c caps]]; [|done]. by intros [].
Qed.

Definition demo_caps : KState :=
  set_capability_sets (fun _ => [mkCapabilitySet "s1" "parent" [demo_cap "resource:ws/*" ["acquire"; "release"]];
                                 mkCapabilitySet "s2" "child" [demo_cap "resource:ws/a*" ["acquire"]]])
    (init_storage 0).

Lemma child_subset_sound_witness :
  check "child" "resource:ws/a1" "acquire" demo_caps = true /\
  check "parent" "resource:ws/a1" "acquire" demo_caps = true.
Proof.
  split; [vm_compute; reflexivity|]. apply (child_subset_sound "parent" "child").
  - intros cs c [= <-] Hc%list_elem_of_singleton. by subst c.
  - intros cs c [= <-] Hc%list_elem_of_singleton. by subst c.
  - vm_compute. reflexivity.
  - vm_compute. reflexivity.
Defined.

(** With a ['?'] in the parent's pattern the test accepts a child that can do
    more: the pattern ["ws/a*"] is matched as a name by ["ws/a?"]. *)
Lemma child_subset_escalates :
  let s := set_capability_sets (fun _ => [mkCapabilitySet "s1" "parent" [demo_cap "ws/a?" ["acquire"]];
                                          mkCapabilitySet "s2" "child" [demo_cap "ws/a*" ["acquire"]]])
             (init_storage 0) in
  verify_child_subset "parent" "child" s = true /\
  check "child" "ws/a12" "acquire" s = true /\ check "parent" "ws/a12" "acquire" s = false.
Proof. vm_compute. done. Qed.

(** A grant is not journaled: a replay of the journal forgets it. *)
Lemma grant_not_replayed :
  let ops := @create_capability_set pretty_uuid "p" None ;;
             @grant pretty_uuid "p" (demo_cap "ws/*" ["acquire"]) in
  let s := (ops (init_storage 0)).2 in
  let r := (rebuild_projections [@handle_event pretty_uuid] s).2 in
  check "p" "ws/1" "acquire" s = true /\ check "p" "ws/1" "acquire" r = false.
Proof. vm_compute. done. Qed.
