(* ===== verification/SignalService.v ===== *)
(** * Signal service (agent_os/services/signal_service.py)

    Durable signals: sending, delivery to blocked processes by wait condition,
    and the projection handler. *)

From S2P Require Import Prelude KernelModels StateMachine Storage Journal ProcessService.

(** [signal.consumed = True] *)
Definition sig_consume (g : Signal) : Signal :=
  mkSignal (signal_id g) (target_pid g) (signal_type g) (source_pid g) (sig_payload g)
    (sig_created_at g) true.

Definition _matches_wait_condition (wc : option jobj) (g : Signal) : bool :=
  match wc with
  | None => true
  | Some o =>
      (* signal_type *)
      if (match jget "signal_type" o with
          | Some ty => truthy ty && negb (json_eqb (JStr (signal_type g)) ty)
          | None => false
          end) then false
      (* action_id *)
      else if (match jget "action_id" o with
               | Some aid => truthy aid &&
                   negb (match jget "action_id" (sig_payload g) with
                         | Some a => json_eqb a aid
                         | None => json_eqb JNull aid
                         end)
               | None => false
               end) then false
      (* signal_types *)
      else match jget "signal_types" o with
           | Some (JList l) =>
               negb (truthy (JList l) && negb (existsb (json_eqb (JStr (signal_type g))) l))
           | _ => true
           end
  end.

(** [INSERT OR REPLACE] *)
Definition _upsert_signal (g : Signal) : M KState unit :=
  transaction (modify (set_signals (tbl_replace signal_id g))).

(** [WHERE consumed = 0 ORDER BY created_at ASC] *)
Definition unconsumed (s : KState) : list Signal :=
  sort_on sig_created_at (filter (fun g => consumed g = false) (signals_projection s)).
Definition list_pending (pid : string) (s : KState) : list Signal :=
  sort_on sig_created_at
    (filter (fun g => consumed g = false /\ target_pid g = pid) (signals_projection s)).
Definition list_all (s : KState) : list Signal := sort_on sig_created_at (signals_projection s).

(** [UPDATE signals_projection SET consumed = 1 WHERE signal_id = ?] *)
Definition consume_row (id : string) : M KState unit :=
  transaction (modify (set_signals (tbl_update signal_id sig_consume id))).

Section Service.
Context `{UuidSource}.

Definition send (target sig_type : string) (source : option string) (pl : option jobj)
    : M KState Signal :=
  sid ← fresh_uuid;
  now ← gets clock_now;
  let g := mkSignal sid target sig_type source (default [] pl) now false in
  let pid := match source with Some src => if String.eqb src "" then target else src
             | None => target end in
  emit pid "SIGNAL_SENT" (signal_dump g) ;;
  _upsert_signal g ;;
  mret g.

Definition _mark_consumed (id : string) : M KState unit :=
  consume_row id ;;
  emit "kernel" "SIGNAL_CONSUMED" [("signal_id", JStr id)] ;;
  mret tt.

(** One turn of the delivery loop: how many signals it delivered. *)
Definition deliver_row (g : Signal) : M KState nat :=
  opcb ← gets (get_process (target_pid g));
  match opcb with
  | None => mret 0
  | Some pcb =>
      if decide (pcb_state pcb <> ProcessState.BLOCKED) then mret 0
      else if negb (_matches_wait_condition (wait_condition pcb) g) then mret 0
      else
        _mark_consumed (signal_id g) ;;
        transition (target_pid g) ProcessState.READY None ;;
        mret 1
  end.
Definition deliver_rows (rows : list Signal) : M KState nat :=
  ns ← map_each deliver_row rows; mret (sum_list ns).

Definition deliver_pending : M KState nat := rows ← gets unconsumed; deliver_rows rows.
Definition deliver_to_pid (pid : string) : M KState nat :=
  rows ← gets (list_pending pid); deliver_rows rows.

Definition handle_event (ev : KernelEvent) : M KState unit :=
  if String.eqb (event_type ev) "SIGNAL_SENT" then
    fresh ← fresh_uuid;
    now ← gets clock_now;
    g ← some_or_raise (signal_load fresh now (payload ev)) (ValidationError "Signal");
    _upsert_signal g
  else if String.eqb (event_type ev) "SIGNAL_CONSUMED" then
    if otruthy (jget "signal_id" (payload ev)) then
      match jget "signal_id" (payload ev) ≫= as_str with
      | Some id => consume_row id
      | None => mret tt
      end
    else mret tt
  else mret tt.

(** ** Delivery, by process

    The signal that wakes a process: the oldest pending one that is addressed to
    it and matches its wait condition. *)
Definition wakes (pcb : ProcessControlBlock) (g : Signal) : bool :=
  String.eqb (target_pid g) (pcb_pid pcb) && _matches_wait_condition (wait_condition pcb) g.
Definition first_match (rows : list Signal) (s : KState) (pid : string) : option Signal :=
  match get_process pid s with
  | Some pcb => if decide (pcb_state pcb = ProcessState.BLOCKED) then List.find (wakes pcb) rows else None
  | None => None
  end.
Definition waking_signal (s : KState) (pid : string) : option Signal := first_match (unconsumed s) s pid.
Definition is_waking (s : KState) (g : Signal) : bool :=
  match waking_signal s (target_pid g) with
  | Some w => String.eqb (signal_id w) (signal_id g)
  | None => false
  end.

Definition mark (ids : list string) (g : Signal) : Signal :=
  if decide (signal_id g ∈ ids) then sig_consume g else g.

(** The state after one delivery. *)
Lemma mark_consumed_run id s :
  log_ok s -> exists s', _mark_consumed id s = (Ok tt, s') /\ log_ok s' /\
    processes_projection s' = processes_projection s /\
    signals_projection s' = tbl_update signal_id sig_consume id (signals_projection s).
Proof.
  intros Hs. unfold _mark_consumed.
  assert (log_ok (set_signals (tbl_update signal_id sig_consume id) s)) as Hs1 by (by apply (log_ok_same s)).
  rewrite (bind_Ok (consume_row id) _ s tt _ eq_refl), (bind_Ok _ _ _ _ _ (emit_spec _ _ _ _ Hs1)).
  eexists. split; [reflexivity|]. split; [by apply logged_ok|done].
Qed.

Lemma wake_run pid pcb s :
  log_ok s -> get_process pid s = Some pcb -> pcb_state pcb = ProcessState.BLOCKED ->
  exists ev s', transition pid ProcessState.READY None s = (Ok ev, s') /\ log_ok s' /\
    signals_projection s' = signals_projection s /\
    proc_state s' pid = Some ProcessState.READY /\
    (forall pid', pid' <> pid -> get_process pid' s' = get_process pid' s).
Proof.
  intros Hs Hg Hb. pose proof (transition_log_ok pid ProcessState.READY None s Hs) as Hl.
  rewrite transition_run, Hg in Hl |- * by done.
  pose proof (get_process_pid _ _ _ Hg) as Hp.
  unfold apply_process_transition, validate_process_transition in *. rewrite Hb in *. cbn in Hl |- *.
  eexists _, _. split; [reflexivity|]. split; [exact Hl|]. split; [done|]. split.
  - rewrite proc_state_upserted. cbn. by rewrite decide_True.
  - intros pid' Hne. rewrite get_upserted. cbn. by rewrite decide_False by congruence.
Qed.

(** One turn of the loop: it delivers its signal, or changes nothing. *)
Lemma deliver_row_run g s :
  log_ok s ->
  (exists pcb s', deliver_row g s = (Ok 1, s') /\ log_ok s' /\
     get_process (target_pid g) s = Some pcb /\ pcb_state pcb = ProcessState.BLOCKED /\
     wakes pcb g = true /\
     signals_projection s' = tbl_update signal_id sig_consume (signal_id g) (signals_projection s) /\
     proc_state s' (target_pid g) = Some ProcessState.READY /\
     (forall pid', pid' <> target_pid g -> get_process pid' s' = get_process pid' s)) \/
  (deliver_row g s = (Ok 0, s) /\
   forall pcb, get_process (target_pid g) s = Some pcb -> pcb_state pcb = ProcessState.BLOCKED ->
     wakes pcb g = false).
Proof.
  intros Hs. unfold deliver_row. run_m.
  destruct (get_process (target_pid g) s) as [pcb|] eqn:E; [|by right].
  case_decide as Hb; [right; split; [done|]; congruence|].
  assert (wakes pcb g = _matches_wait_condition (wait_condition pcb) g) as Hw.
  { unfold wakes. rewrite (get_process_pid _ _ _ E). by rewrite String.eqb_refl. }
  destruct (_matches_wait_condition (wait_condition pcb) g); cbn;
    [left|right; split; [done|]; congruence].
  destruct (mark_consumed_run (signal_id g) s Hs) as (s1 & E1 & H1 & P1 & G1).
  assert (forall pid, get_process pid s1 = get_process pid s) as Hg1.
  { intros pid. unfold get_process. by rewrite P1. }
  destruct (wake_run (target_pid g) pcb s1 H1) as (ev & s2 & E2 & H2 & G2 & P2 & Q2); [by rewrite Hg1|done|].
  exists pcb, s2. rewrite E1, E2. split_and!; try done; [by rewrite G2|].
  intros pid' Hne. by rewrite Q2, Hg1.
Qed.

Lemma first_match_cons g rows s pid :
  first_match (g :: rows) s pid =
  match get_process pid s with
  | Some pcb => if decide (pcb_state pcb = ProcessState.BLOCKED)
                then if wakes pcb g then Some g else first_match rows s pid else None
  | None => None
  end.
Proof. unfold first_match. destruct (get_process pid s); [|done]. by case_decide. Qed.
Lemma wakes_other pcb g : target_pid g <> pcb_pid pcb -> wakes pcb g = false.
Proof. intros Hne. unfold wakes. by rewrite (proj2 (String.eqb_neq _ _) Hne). Qed.

Lemma first_match_skip g rows s pid :
  (forall pcb, get_process pid s = Some pcb -> pcb_state pcb = ProcessState.BLOCKED -> wakes pcb g = false) ->
  first_match (g :: rows) s pid = first_match rows s pid.
Proof.
  intros Hw. rewrite first_match_cons. destruct (get_process pid s) as [pcb|] eqn:E.
  - case_decide; [by rewrite Hw|]. unfold first_match. by rewrite E, decide_False.
  - unfold first_match. by rewrite E.
Qed.
Lemma first_match_other g rows s pid :
  pid <> target_pid g -> first_match (g :: rows) s pid = first_match rows s pid.
Proof.
  intros Hne. apply first_match_skip. intros pcb E _. apply wakes_other.
  by rewrite (get_process_pid _ _ _ E).
Qed.
Lemma first_match_ext rows s s' pid :
  get_process pid s' = get_process pid s -> first_match rows s' pid = first_match rows s pid.
Proof. unfold first_match. by intros ->. Qed.
Lemma first_match_ready rows s pid :
  proc_state s pid = Some ProcessState.READY -> first_match rows s pid = None.
Proof.
  unfold first_match, proc_state. destruct (get_process pid s) as [pcb|]; [|done].
  cbn. intros [= ->]. done.
Qed.

Lemma mark_update id ids (l : list Signal) :
  mark ids <$> tbl_update signal_id sig_consume id l = mark (id :: ids) <$> l.
Proof.
  unfold tbl_update. rewrite <-list_fmap_compose. apply list_fmap_ext. intros i g _. cbn.
  unfold mark. destruct (decide (signal_id g = id)) as [->|Hne]; cbn.
  - rewrite (decide_True (P := id ∈ id :: ids)) by set_solver. by case_decide.
  - destruct (decide (signal_id g ∈ ids)); [rewrite decide_True by set_solver|rewrite decide_False by set_solver]; done.
Qed.

Lemma mark_nil (l : list Signal) : mark [] <$> l = l.
Proof. induction l as [|g l IH]; cbn; [done|]. by rewrite IH. Qed.

(** The loop, by process: what the reference [first_match] says happens. *)
Definition delivered (rows : list Signal) (s s' : KState) (ids : list string) : Prop :=
  log_ok s' /\ ids `sublist_of` (signal_id <$> rows) /\
  signals_projection s' = mark ids <$> signals_projection s /\
  (forall id, id ∈ ids <-> exists pid g, first_match rows s pid = Some g /\ signal_id g = id) /\
  (forall pid, match first_match rows s pid with
               | Some _ => proc_state s' pid = Some ProcessState.READY
               | None => get_process pid s' = get_process pid s
               end).

Lemma delivered_wake g rows s s1 s' ids pcb :
  get_process (target_pid g) s = Some pcb -> pcb_state pcb = ProcessState.BLOCKED -> wakes pcb g = true ->
  signals_projection s1 = tbl_update signal_id sig_consume (signal_id g) (signals_projection s) ->
  proc_state s1 (target_pid g) = Some ProcessState.READY ->
  (forall pid', pid' <> target_pid g -> get_process pid' s1 = get_process pid' s) ->
  delivered rows s1 s' ids -> delivered (g :: rows) s s' (signal_id g :: ids).
Proof.
  intros Hg Hb Hw Hs1 Hr Hq (Hl & Hsub & Hsig & Hids & Hproc).
  assert (first_match (g :: rows) s (target_pid g) = Some g) as Hhd.
  { rewrite first_match_cons, Hg, decide_True by done. by rewrite Hw. }
  assert (forall pid, pid <> target_pid g -> first_match rows s1 pid = first_match (g :: rows) s pid) as Htl.
  { intros pid Hne. rewrite first_match_other by done. apply first_match_ext. by apply Hq. }
  pose proof (first_match_ready rows s1 (target_pid g) Hr) as Hnone.
  split_and!; [done|by constructor|by rewrite Hsig, Hs1, mark_update| |].
  - intros id. rewrite elem_of_cons, Hids. split.
    + intros [->|(pid & w & Hm & <-)]; [by exists (target_pid g), g|].
      exists pid, w. split; [|done]. rewrite <-Htl; [done|]. intros ->. congruence.
    + intros (pid & w & Hm & <-). destruct (decide (pid = target_pid g)) as [->|Hne].
      * left. congruence.
      * right. exists pid, w. by rewrite Htl.
  - intros pid. specialize (Hproc pid). destruct (decide (pid = target_pid g)) as [->|Hne].
    + rewrite Hhd. rewrite Hnone in Hproc. unfold proc_state in *. by rewrite Hproc.
    + rewrite <-Htl by done. destruct (first_match rows s1 pid); [done|]. by rewrite Hproc, Hq.
Qed.

Lemma delivered_skip g rows s s' ids :
  (forall pcb, get_process (target_pid g) s = Some pcb -> pcb_state pcb = ProcessState.BLOCKED -> wakes pcb g = false) ->
  delivered rows s s' ids -> delivered (g :: rows) s s' ids.
Proof.
  intros Hw (Hl & Hsub & Hsig & Hids & Hproc).
  assert (forall pid, first_match (g :: rows) s pid = first_match rows s pid) as He.
  { intros pid. destruct (decide (pid = target_pid g)) as [->|Hne].
    - by apply first_match_skip.
    - by apply first_match_other. }
  split_and!; [done|by constructor|done| |].
  - intros id. rewrite Hids. by setoid_rewrite He.
  - intros pid. rewrite He. apply Hproc.
Qed.

Lemma deliver_each rows s :
  log_ok s -> exists ns s' ids, map_each deliver_row rows s = (Ok ns, s') /\
    sum_list ns = length ids /\ delivered rows s s' ids.
Proof.
  revert s. induction rows as [|g rows IH]; intros s Hs.
  - exists [], s, []. split_and!; [done|done|]. split_and!; [done|constructor| | |].
    + by rewrite mark_nil.
    + intros id. split; [by intros ?%not_elem_of_nil|]. intros (pid & g & Hm & _).
      unfold first_match in Hm. destruct (get_process pid s); [|done]. by case_decide.
    + intros pid. unfold first_match. destruct (get_process pid s); [|done]. by case_decide.
  - destruct (deliver_row_run g s Hs) as [(pcb & s1 & E & H1 & Hg & Hb & Hw & Hsig & Hr & Hq)|[E Hw]].
    + destruct (IH s1 H1) as (ns & s' & ids & E2 & Hn & Hd).
      exists (1 :: ns), s', (signal_id g :: ids). cbn.
      rewrite (bind_Ok _ _ _ _ _ E), (bind_Ok _ _ _ _ _ E2). split; [done|]. split; [cbn; lia|].
      by eapply delivered_wake.
    + destruct (IH s Hs) as (ns & s' & ids & E2 & Hn & Hd).
      exists (0 :: ns), s', ids. cbn.
      rewrite (bind_Ok _ _ _ _ _ E), (bind_Ok _ _ _ _ _ E2). split; [done|]. split; [done|].
      by apply delivered_skip.
Qed.

Lemma elem_of_unconsumed s g : g ∈ unconsumed s <-> g ∈ signals_projection s /\ consumed g = false.
Proof. unfold unconsumed. rewrite elem_of_sort_on, list_elem_of_filter. tauto. Qed.
Lemma unconsumed_NoDup s :
  NoDup (signal_id <$> signals_projection s) -> NoDup (signal_id <$> unconsumed s).
Proof.
  intros Hn. unfold unconsumed. rewrite (fmap_Permutation signal_id _ _ (sort_on_perm _ _)).
  by apply filter_keys_NoDup.
Qed.
Lemma first_match_Some rows s pid g :
  first_match rows s pid = Some g -> g ∈ rows /\ target_pid g = pid.
Proof.
  unfold first_match. destruct (get_process pid s) as [pcb|] eqn:E; [|done]. case_decide; [|done].
  intros [Hin [Ht _]%andb_true_iff]%List.find_some. split; [by apply list_elem_of_In|].
  apply String.eqb_eq in Ht. by rewrite Ht, (get_process_pid _ _ _ E).
Qed.

(** The delivered identifiers are those of the waking signals. *)
Lemma waking_ids s (ids : list string) :
  NoDup (signal_id <$> signals_projection s) ->
  (forall id, id ∈ ids <-> exists pid g, waking_signal s pid = Some g /\ signal_id g = id) ->
  forall g, g ∈ signals_projection s -> (signal_id g ∈ ids <-> is_waking s g = true).
Proof.
  intros Hn Hids g Hg. rewrite Hids. unfold is_waking. split.
  - intros (pid & w & Hw & He). apply first_match_Some in Hw as Hm.
    destruct Hm as [[Hws _]%elem_of_unconsumed Ht].
    assert (w = g) as ->.
    { pose proof (tbl_find_elem signal_id _ w Hn Hws) as F1.
      pose proof (tbl_find_elem signal_id _ g Hn Hg) as F2. congruence. }
    rewrite Ht, Hw. apply String.eqb_refl.
  - destruct (waking_signal s (target_pid g)) as [w|] eqn:E; [|done].
    intros He%String.eqb_eq. by exists (target_pid g), w.
Qed.

Lemma waking_count s (ids : list string) :
  NoDup (signal_id <$> signals_projection s) -> NoDup ids ->
  (forall id, id ∈ ids <-> exists pid g, waking_signal s pid = Some g /\ signal_id g = id) ->
  length ids = length (filter (fun g => is_waking s g = true) (signals_projection s)).
Proof.
  intros Hn Hd Hids. rewrite <-(length_fmap signal_id). apply Permutation_length, NoDup_Permutation.
  - done.
  - by apply filter_keys_NoDup.
  - intros id. rewrite list_elem_of_fmap. setoid_rewrite list_elem_of_filter. split.
    + intros Hid. apply Hids in Hid as Hw. destruct Hw as (pid & g & Hw & <-).
      apply first_match_Some in Hw as [[Hg _]%elem_of_unconsumed _].
      exists g. split; [done|]. split; [|done]. by apply (waking_ids s ids).
    + intros (g & -> & Hw & Hg). by apply (waking_ids s ids).
Qed.

(** What a delivery round does, by process and by signal. *)
Definition delivery_round (s : KState) (n : nat) (s' : KState) : Prop :=
  (forall pid, match waking_signal s pid with
               | Some _ => proc_state s' pid = Some ProcessState.READY
               | None => get_process pid s' = get_process pid s
               end) /\
  signals_projection s' =
    (fun g => if is_waking s g then sig_consume g else g) <$> signals_projection s /\
  n = length (filter (fun g => is_waking s g = true) (signals_projection s)).

Lemma deliver_pending_run s :
  log_ok s -> NoDup (signal_id <$> signals_projection s) ->
  exists n s', deliver_pending s = (Ok n, s') /\ log_ok s' /\ delivery_round s n s'.
Proof.
  intros Hs Hn. destruct (deliver_each (unconsumed s) s Hs) as (ns & s' & ids & E & Hsum & Hd).
  destruct Hd as (Hl & Hsub & Hsig & Hids & Hproc).
  exists (sum_list ns), s'. unfold deliver_pending, deliver_rows. run_m. rewrite E.
  split; [done|]. split; [done|]. split; [done|]. split.
  - rewrite Hsig. apply list_fmap_ext. intros i g Hg%list_elem_of_lookup_2. unfold mark.
    pose proof (waking_ids s ids Hn Hids g Hg) as Hw.
    case_decide as Hi; destruct (is_waking s g); try done; [by apply Hw in Hi|].
    exfalso. apply Hi. by apply Hw.
  - rewrite Hsum. apply waking_count; [done| |done].
    eapply sublist_NoDup; [|exact Hsub]. by apply unconsumed_NoDup.
Qed.

(** After a round nobody is left waiting for a pending signal. *)
Lemma round_no_waking s n s' pid : delivery_round s n s' -> waking_signal s' pid = None.
Proof.
  intros (Hproc & Hsig & _). specialize (Hproc pid).
  destruct (waking_signal s pid) as [w|] eqn:E.
  - by apply first_match_ready.
  - unfold waking_signal in E |- *. rewrite (first_match_ext _ s) by done. unfold first_match in *.
    destruct (get_process pid s) as [pcb|]; [|done]. case_decide; [|done].
    destruct (List.find (wakes pcb) (unconsumed s')) as [g|] eqn:F; [|done]. exfalso.
    apply List.find_some in F as [Hin Hw]. apply list_elem_of_In, elem_of_unconsumed in Hin as [Hin Hc].
    rewrite Hsig in Hin. apply list_elem_of_fmap in Hin as (g0 & -> & Hg0).
    destruct (is_waking s g0); [done|].
    eapply List.find_none in E; [|apply list_elem_of_In, elem_of_unconsumed; done]. congruence.
Qed.

(** ** Replay *)

(** The replayed rows are the live ones, in the same order. *)
Definition same_signals (s r : KState) : Prop :=
  signals_projection r = signals_projection s /\
  Forall (fun g => signal_id g <> "") (signals_projection s).
Abbreviation sig_replays := (replays handle_event same_signals).

Lemma handle_other_signal_event ev r :
  String.prefix "SIGNAL_" (event_type ev) = false -> handle_event ev r = (Ok tt, r).
Proof.
  intros Hp. unfold handle_event.
  destruct (String.eqb_spec (event_type ev) "SIGNAL_SENT") as [He|_]; [by rewrite He in Hp|].
  by destruct (String.eqb_spec (event_type ev) "SIGNAL_CONSUMED") as [He|_]; [rewrite He in Hp|].
Qed.

(** A step that journals at most events this service ignores. *)
Lemma emit_other_sig_replays s pid ty pl s' :
  String.prefix "SIGNAL_" ty = false -> log_ok s' ->
  journal_events s' = journal_events s ++ [emitted s pid ty pl] ->
  signals_projection s' = signals_projection s -> sig_replays s s'.
Proof.
  intros Hp Hl Hj Hs. eapply (replays_one _ _ s pid ty pl (clock_now s)); [done|].
  intros r Hr. exists r. split; [by apply handle_other_signal_event|].
  unfold same_signals in *. by rewrite Hs.
Qed.

Lemma transition_sig_replays pid target wc : within sig_replays (transition pid target wc).
Proof.
  intros s Hs. pose proof (transition_log_ok pid target wc s Hs) as Hl.
  rewrite transition_run in Hl |- * by done.
  destruct (get_process pid s) as [pcb|]; [|by apply (reflexivity (R := sig_replays) s)].
  destruct (apply_process_transition pcb target wc) as [[reason pcb']|e];
    [|by apply (reflexivity (R := sig_replays) s)].
  revert Hs. eapply emit_other_sig_replays; [|exact Hl|done|done]. by destruct target.
Qed.

Lemma mark_consumed_replays g s :
  g ∈ signals_projection s -> sig_replays s (_mark_consumed (signal_id g) s).2.
Proof.
  intros Hg Hs. set (s1 := set_signals (tbl_update signal_id sig_consume (signal_id g)) s).
  assert (log_ok s1) as Hs1 by (by apply (log_ok_same s)).
  unfold _mark_consumed. rewrite (bind_Ok (consume_row (signal_id g)) _ s tt s1 eq_refl).
  rewrite (bind_Ok _ _ _ _ _ (emit_spec s1 "kernel" "SIGNAL_CONSUMED" _ Hs1)). revert Hs.
  eapply (replays_one _ _ s "kernel" "SIGNAL_CONSUMED" _ (clock_now s)).
  - intros Hs. split; [done|]. by apply logged_ok.
  - intros r [Hr Hne].
    exists (set_signals (tbl_update signal_id sig_consume (signal_id g)) r).
    split.
    + unfold handle_event. cbn. rewrite Forall_forall in Hne.
      by rewrite (proj2 (String.eqb_neq _ _) (Hne g Hg)).
    + split; cbn; [by rewrite Hr|]. unfold tbl_update. apply Forall_fmap.
      eapply Forall_impl; [done|]. intros x Hx; cbn. by case_decide.
Qed.

Lemma deliver_row_replays g s :
  (exists g0, g0 ∈ signals_projection s /\ signal_id g0 = signal_id g) ->
  sig_replays s (deliver_row g s).2.
Proof.
  intros (g0 & Hg0 & Hid). unfold deliver_row. run_m.
  destruct (get_process (target_pid g) s) as [pcb|]; [|reflexivity].
  case_decide; [reflexivity|]. destruct (negb _); [reflexivity|].
  pose proof (mark_consumed_replays g0 s Hg0) as H1. rewrite Hid in H1.
  destruct (_mark_consumed (signal_id g) s) as [[[]|e] s1]; cbn in *; [|done].
  pose proof (transition_sig_replays (target_pid g) ProcessState.READY None s1) as H2.
  etransitivity; [exact H1|].
  by destruct (transition (target_pid g) ProcessState.READY None s1) as [[ev|e] s2].
Qed.

Lemma deliver_row_ids g s :
  log_ok s -> signal_id <$> signals_projection (deliver_row g s).2 = signal_id <$> signals_projection s.
Proof.
  intros Hs. destruct (deliver_row_run g s Hs) as [(pcb & s' & E & _ & _ & _ & _ & Hsig & _)|[E _]].
  - rewrite E. cbn. rewrite Hsig. by apply tbl_update_keys.
  - by rewrite E.
Qed.

Lemma deliver_each_replays rows s :
  (forall g, g ∈ rows -> signal_id g ∈ signal_id <$> signals_projection s) ->
  sig_replays s (map_each deliver_row rows s).2.
Proof.
  revert s. induction rows as [|g rows IH]; intros s Hin; [reflexivity|]. intros Hs.
  assert (sig_replays s (deliver_row g s).2) as H1.
  { apply deliver_row_replays. specialize (Hin g ltac:(set_solver)).
    apply list_elem_of_fmap in Hin as (g0 & ? & ?). by exists g0. }
  pose proof (deliver_row_ids g s Hs) as Hids. revert Hs.
  change (sig_replays s (map_each deliver_row (g :: rows) s).2). cbn. unfold mbind, M_bind.
  destruct (deliver_row g s) as [[n|e] s1]; cbn in Hids, H1; [|done].
  assert (sig_replays s1 (map_each deliver_row rows s1).2) as H2.
  { apply IH. intros g' Hg'. rewrite Hids. apply Hin. set_solver. }
  destruct (map_each deliver_row rows s1) as [[ns|e] s2];
    exact (transitivity (R := sig_replays) H1 H2).
Qed.

Lemma deliver_rows_replays rows s :
  (forall g, g ∈ rows -> g ∈ signals_projection s) -> sig_replays s (deliver_rows rows s).2.
Proof.
  intros Hin. pose proof (deliver_each_replays rows s) as Hd.
  unfold deliver_rows, mbind, M_bind. destruct (map_each deliver_row rows s) as [[ns|e] s'];
    apply Hd; intros g Hg; by apply list_elem_of_fmap_2, Hin.
Qed.

Lemma send_replays target ty source pl : within sig_replays (send target ty source pl).
Proof.
  intros s0. unfold send, fresh_uuid. run_m. set (s := set_uuid N.succ s0).
  assert (sig_replays s0 s) as H0 by exact (fresh_uuid_replays handle_event same_signals (fun _ _ Hr => Hr) s0).
  set (g := mkSignal (uuid4 (uuid_count s0)) _ _ _ _ _ _).
  set (pid := match source with Some _ => _ | None => _ end).
  apply (transitivity (R := sig_replays) H0). intros Hs. rewrite emit_spec by done. cbn [snd]. revert Hs.
  eapply (replays_one _ _ s pid "SIGNAL_SENT" (signal_dump g) (clock_now s)).
  - intros Hs. split; [done|]. apply (log_ok_same (logged s (emitted s pid "SIGNAL_SENT" (signal_dump g)))); try done.
    by apply logged_ok.
  - intros r [Hr Hne]. eexists. split.
    + unfold handle_event. cbn [event_type emitted emitted_at String.eqb Ascii.eqb Bool.eqb payload].
      unfold fresh_uuid. run_m. rewrite signal_roundtrip. reflexivity.
    + split; cbn; [by rewrite Hr|]. unfold tbl_replace. apply Forall_app. split.
      { apply Forall_forall. intros x [_ Hx]%list_elem_of_filter. rewrite Forall_forall in Hne. by apply Hne. }
      apply Forall_singleton. cbn. apply uuid4_nonempty.
Qed.

(** A run of the signal service, between steps of the others that leave the
    signals alone and journal no SIGNAL event. *)
Inductive sig_step : KState -> KState -> Prop :=
| step_send target ty source pl s : sig_step s (send target ty source pl s).2
| step_deliver s : sig_step s (deliver_pending s).2
| step_deliver_to pid s : sig_step s (deliver_to_pid pid s).2
| step_process pid target wc s : sig_step s (transition pid target wc s).2
| step_other pid ty pl s : String.prefix "SIGNAL_" ty = false -> sig_step s (emit pid ty pl s).2.

Lemma sig_step_replays s s' : sig_step s s' -> sig_replays s s'.
Proof.
  destruct 1 as [target ty source pl s|s|pid s|pid target wc s|pid ty pl s Hty].
  - apply send_replays.
  - apply deliver_rows_replays. intros g Hg. by apply elem_of_unconsumed in Hg as [].
  - apply deliver_rows_replays. intros g Hg. unfold list_pending in Hg.
    by apply elem_of_sort_on, list_elem_of_filter in Hg as [].
  - apply transition_sig_replays.
  - intros Hs. pose proof (emit_spec s pid ty pl Hs) as E. rewrite E. revert Hs.
    intros Hs. eapply emit_other_sig_replays; [exact Hty|by apply logged_ok|done|done|done].
Qed.
End Service.

(** ** Properties *)

(** One delivery round, exactly.  A process is woken iff it is blocked and some
    pending signal addressed to it matches its wait condition; it becomes READY
    and the oldest such signal, and no other, is consumed.  Every other process
    and signal is left as it was, and the returned count is the number of
    signals consumed. *)
Theorem deliver_pending_exact `{UuidSource} s :
  log_ok s -> NoDup (signal_id <$> signals_projection s) ->
  exists n s', deliver_pending s = (Ok n, s') /\ log_ok s' /\
    (forall pid, match waking_signal s pid with
                 | Some _ => proc_state s' pid = Some ProcessState.READY
                 | None => get_process pid s' = get_process pid s
                 end) /\
    signals_projection s' =
      (fun g => if is_waking s g then sig_consume g else g) <$> signals_projection s /\
    n = length (filter (fun g => is_waking s g = true) (signals_projection s)).
Proof. apply deliver_pending_run. Qed.

Definition demo_signals : KState :=
  set_signals (fun _ => [mkSignal "g1" "p1" "RESUME" None [] 5 false;
                         mkSignal "g2" "p1" "ACTION_COMPLETED" None [("action_id", JStr "a1")] 3 false;
                         mkSignal "g3" "p1" "ACTION_COMPLETED" None [("action_id", JStr "a1")] 4 false])
  (set_processes (fun _ => [pcb_set_state (demo_pcb ProcessState.RUNNING) ProcessState.BLOCKED
                              (Some [("signal_type", JStr "ACTION_COMPLETED"); ("action_id", JStr "a1")])])
     (init_storage 0)).

Example demo_wakes : (fun g => @is_waking demo_signals g) <$> signals_projection demo_signals = [false; true; false].
Proof. reflexivity. Qed.

Lemma deliver_pending_exact_witness :
  exists n s', @deliver_pending pretty_uuid demo_signals = (Ok n, s') /\ @log_ok pretty_uuid s' /\
    (forall pid, match waking_signal demo_signals pid with
                 | Some _ => proc_state s' pid = Some ProcessState.READY
                 | None => get_process pid s' = get_process pid demo_signals
                 end) /\
    signals_projection s' =
      (fun g => if is_waking demo_signals g then sig_consume g else g) <$> signals_projection demo_signals /\
    n = length (filter (fun g => is_waking demo_signals g = true) (signals_projection demo_signals)).
Proof.
  apply (@deliver_pending_exact pretty_uuid demo_signals).
  - apply (@log_ok_same pretty_uuid (init_storage 0)); [reflexivity..|apply (@init_log_ok pretty_uuid)].
  - cbn. repeat constructor; set_solver.
Defined.

(** No lost wake-up and no second wake-up.  A delivery round leaves no blocked
    process with a pending matching signal, so a second round delivers nothing
    and changes nothing. *)
Theorem deliver_pending_complete `{UuidSource} s n s' :
  log_ok s -> NoDup (signal_id <$> signals_projection s) ->
  deliver_pending s = (Ok n, s') ->
  (forall pid pcb g, get_process pid s' = Some pcb -> pcb_state pcb = ProcessState.BLOCKED ->
     g ∈ signals_projection s' -> consumed g = false -> target_pid g = pid ->
     _matches_wait_condition (wait_condition pcb) g = false) /\
  exists s'', deliver_pending s' = (Ok 0, s'') /\
    signals_projection s'' = signals_projection s' /\
    forall pid, get_process pid s'' = get_process pid s'.
Proof.
  intros Hs Hn E. destruct (deliver_pending_run s Hs Hn) as (n1 & s1 & E1 & H1 & R1).
  rewrite E in E1. injection E1 as <- <-.
  assert (forall pid, waking_signal s' pid = None) as Hw by (intros pid; by eapply round_no_waking).
  assert (forall g, is_waking s' g = false) as Hi by (intros g; unfold is_waking; by rewrite Hw).
  split.
  - intros pid pcb g Hp Hb Hg Hc Ht. specialize (Hw pid). unfold waking_signal, first_match in Hw.
    rewrite Hp, decide_True in Hw by done.
    eapply List.find_none in Hw; [|apply list_elem_of_In, elem_of_unconsumed; done].
    unfold wakes in Hw. rewrite Ht, (get_process_pid _ _ _ Hp), String.eqb_refl in Hw. done.
  - assert (NoDup (signal_id <$> signals_projection s')) as Hn'.
    { destruct R1 as (_ & -> & _). rewrite <-list_fmap_compose.
      erewrite list_fmap_ext; [exact Hn|]. intros i g _. cbn. by destruct (is_waking s g). }
    destruct (deliver_pending_run s' H1 Hn') as (n2 & s2 & E2 & _ & P2 & G2 & N2).
    assert (n2 = 0) as ->.
    { rewrite N2. clear -Hi. induction (signals_projection s') as [|g l IH]; [done|].
      rewrite filter_cons, decide_False by (by rewrite Hi). done. }
    exists s2. split_and!; [done| |].
    + rewrite G2. rewrite <-list_fmap_id. apply list_fmap_ext. intros i g _. cbn. by rewrite Hi.
    + intros pid. specialize (P2 pid). by rewrite Hw in P2.
Qed.

Lemma deliver_pending_complete_witness :
  let s' := (@deliver_pending pretty_uuid demo_signals).2 in
  (forall pid pcb g, get_process pid s' = Some pcb -> pcb_state pcb = ProcessState.BLOCKED ->
     g ∈ signals_projection s' -> consumed g = false -> target_pid g = pid ->
     _matches_wait_condition (wait_condition pcb) g = false) /\
  exists s'', @deliver_pending pretty_uuid s' = (Ok 0, s'') /\
    signals_projection s'' = signals_projection s' /\
    forall pid, get_process pid s'' = get_process pid s'.
Proof.
  apply (@deliver_pending_complete pretty_uuid demo_signals 1).
  - apply (@log_ok_same pretty_uuid (init_storage 0)); [reflexivity..|apply (@init_log_ok pretty_uuid)].
  - cbn. repeat constructor; set_solver.
  - vm_compute. reflexivity.
Defined.

(** Signal delivery is replayable.  After any run of the signal service from an
    empty database, replaying the journal rebuilds exactly the same mailbox: the
    same signals in the same order with the same consumed flags. *)
Theorem replay_signals `{UuidSource} now s :
  rtc sig_step (init_storage now) s ->
  exists r, rebuild_projections [handle_event] s = (Ok (length (journal_events s)), r) /\
            signals_projection r = signals_projection s.
Proof.
  intros Hr. destruct (rebuild_replays handle_event same_signals (init_storage now) s) as (r & E & S & _).
  - apply init_log_ok.
  - done.
  - apply rtc_preorder; [typeclasses eauto|].
    revert Hr. apply rtc_subrel. intros x y. apply sig_step_replays.
  - by split.
  - by exists r.
Qed.

Lemma replay_signals_witness :
  let s := (@send pretty_uuid "p1" "RESUME" None None (init_storage 5)).2 in
  exists r, rebuild_projections [@handle_event pretty_uuid] s = (Ok (length (journal_events s)), r) /\
            signals_projection r = signals_projection s.
Proof.
  apply (@replay_signals pretty_uuid 5). apply rtc_once. apply (@step_send pretty_uuid).
Defined.
