(* ===== verification/LeaseService.v ===== *)
(** * Lease service (agent_os/services/lease_service.py)

    Atomic acquisition of resource leases with fencing tokens, release, renewal,
    reclamation, wait edges, the action contracts and the projection handler.
    Time stamps are stored as ISO-8601 UTC strings; their string order is the
    order of the instants. *)

From S2P Require Import Prelude KernelModels StateMachine Storage Journal ProcessService.

(** ** Queries *)

Definition get_lease (id : string) (s : KState) : option ResourceLease :=
  tbl_find lease_id id (leases_projection s).
Definition leases_on (r : string) (rows : list ResourceLease) : list ResourceLease :=
  filter (fun l => resource_id l = r) rows.
Definition list_leases_for_pid (pid : string) (s : KState) : list ResourceLease :=
  filter (fun l => owner_pid l = pid) (leases_projection s).
Definition list_all_leases (s : KState) : list ResourceLease := leases_projection s.
Definition list_active_leases_for_resource (r : string) (s : KState) : list ResourceLease :=
  leases_on r (leases_projection s).
Definition list_waiters (r : string) (s : KState) : list string :=
  fst <$> filter (fun w => w.2 = r) (lease_waiters s).

(** ** Wait edges *)

Definition delete_waiters (P : string * string -> Prop) `{!forall w, Decision (P w)} : M KState nat :=
  ws ← gets lease_waiters;
  modify (set_waiters (filter (fun w => ~ P w))) ;;
  mret (length (filter P ws)).
Definition remove_waiter (pid r : string) : M KState nat :=
  transaction (delete_waiters (fun w => w.1 = pid /\ w.2 = r)).
Definition clear_waiters_for_pid (pid : string) : M KState nat :=
  transaction (delete_waiters (fun w => w.1 = pid)).
(** [INSERT OR IGNORE]; the key is [(pid, resource_id)]. *)
Definition _add_waiter (pid r : string) : M KState unit :=
  transaction (modify (set_waiters (fun ws =>
    if decide ((pid, r) ∈ ws) then ws else ws ++ [(pid, r)]))).

(** ** Acquire *)

(** The first resource a request names twice. *)
Fixpoint repeated_resource (seen : list string) (claims : list claim) : option string :=
  match claims with
  | [] => None
  | c :: claims' =>
      if decide (claim_resource c ∈ seen) then Some (claim_resource c)
      else repeated_resource (claim_resource c :: seen) claims'
  end.

(** Does an active lease of the resource conflict with the claim? *)
Definition busy (rows : list ResourceLease) (c : claim) : bool :=
  existsb (fun l => bool_decide (claim_mode c = exclusive) || bool_decide (mode l = exclusive))
    (leases_on (claim_resource c) rows).

Definition US_PER_SECOND : Z := 1000000.
Definition DEFAULT_LEASE_TTL : Z := 300 * US_PER_SECOND.

Section Service.
Context `{UuidSource}.

(** The fencing token of a new lease; [rows] are the leases read by the
    availability check. *)
Definition next_token (rows : list ResourceLease) (c : claim) : M KState Z :=
  let r := claim_resource c in
  fences ← gets resource_fencing_tokens;
  match claim_mode c, leases_on r rows with
  | shared, l :: ls =>
      (* the cohort: {int(row["fencing_token"]) for row in active} *)
      raise_if (existsb (fun l' => negb (fencing_token l' =? fencing_token l)%Z) ls
                || (fencing_token l <=? 0)%Z)
        (KernelInvariantViolation "shared fencing cohort is inconsistent") ;;
      raise_if (bool_decide (fences !! r <> Some (fencing_token l)))
        (KernelInvariantViolation "shared fencing cohort is superseded") ;;
      mret (fencing_token l)
  | _, _ =>
      let tok := match fences !! r with Some t => (t + 1)%Z | None => 1%Z end in
      modify (set_fences (<[r := tok]>)) ;;
      mret tok
  end.

Definition acquire_claim (pid : string) (rows : list ResourceLease) (now exp : Z) (c : claim)
    : M KState ResourceLease :=
  tok ← next_token rows c;
  lid ← fresh_uuid;
  let lease := mkLease lid (claim_resource c) pid (claim_mode c) tok now exp true true in
  ids ← gets (fun s => lease_id <$> leases_projection s);
  raise_if (bool_decide (lid ∈ ids)) (IntegrityError "leases_projection") ;;
  modify (set_leases (fun l => l ++ [lease])) ;;
  mret lease.

(** The BEGIN IMMEDIATE transaction: the new leases, or the busy claim. *)
Definition acquire_tx (pid : string) (claims : list claim) (ttl : Z)
    : M KState (list ResourceLease + claim) :=
  transaction (
    proc ← gets (get_process pid);
    raise_if (match proc with Some p => bool_decide (pcb_state p ∈ TERMINAL_PROCESS_STATES)
              | None => false end)
      (LeaseAcquisitionFailed pid (match claims with c :: _ => claim_resource c | [] => "" end)) ;;
    rows ← gets leases_projection;
    match List.find (busy rows) claims with
    | Some c => mret (inr c)
    | None =>
        now ← gets clock_now;
        leases ← map_each (acquire_claim pid rows now (now + ttl)%Z) claims;
        modify (set_waiters (filter (fun w => w.1 <> pid))) ;;
        publish ((fun l => (pid, "LEASE_ACQUIRED", lease_dump l)) <$> leases) ;;
        mret (inl leases)
    end).

Definition atomic_acquire (pid : string) (claims : list claim) (ttl : Z)
    : M KState (list ResourceLease) :=
  match claims with
  | [] => clear_waiters_for_pid pid ;; mret []
  | _ =>
      match repeated_resource [] claims with
      | Some r => raise (LeaseAcquisitionFailed pid r)
      | None =>
          out ← acquire_tx pid claims ttl;
          match out with
          | inl leases => mret leases
          | inr c =>
              clear_waiters_for_pid pid ;;
              _add_waiter pid (claim_resource c) ;;
              emit pid "LEASE_ACQUIRE_FAILED"
                [("resource_id", JStr (claim_resource c)); ("mode", JStr (mode_value (claim_mode c)));
                 ("reason", JStr "resource_busy")] ;;
              raise (LeaseAcquisitionFailed pid (claim_resource c))
          end
      end
  end.

(** ** Release *)

(** [DELETE FROM leases_projection WHERE ...] and its row count *)
Definition delete_leases (P : ResourceLease -> Prop) `{!forall l, Decision (P l)} : M KState nat :=
  rows ← gets leases_projection;
  modify (set_leases (filter (fun l => ~ P l))) ;;
  mret (length (filter P rows)).

Definition released_payload (l : ResourceLease) : jobj :=
  [("lease_id", JStr (lease_id l)); ("resource_id", JStr (resource_id l));
   ("owner_pid", JStr (owner_pid l))].
Definition released_event (l : ResourceLease) : string * string * jobj :=
  (owner_pid l, "LEASE_RELEASED", released_payload l).
Definition expired_event (l : ResourceLease) : string * string * jobj :=
  (owner_pid l, "LEASE_EXPIRED",
   [("lease_id", JStr (lease_id l)); ("resource_id", JStr (resource_id l))]).

(** One lease id of [release]: the row it removed. *)
Definition release_one (lid : string) : M KState (option ResourceLease) :=
  row ← gets (get_lease lid);
  match row with
  | None => mret None
  | Some l => delete_leases (fun l' => lease_id l' = lid) ;; mret (Some l)
  end.

Definition release (ids : list string) : M KState nat :=
  match ids with
  | [] => mret 0
  | _ =>
      transaction (
        rows ← map_each release_one ids;
        publish (released_event <$> omap id rows) ;;
        mret (length (omap id rows)))
  end.

(** [if deleted.rowcount != 1: continue] *)
Definition delete_row (P : ResourceLease -> Prop) `{!forall l, Decision (P l)} (l : ResourceLease)
    : M KState (option ResourceLease) :=
  n ← delete_leases (fun l' => lease_id l' = lease_id l /\ P l');
  mret (if decide (n = 1) then Some l else None).

Definition release_all_for_pid (pid : string) : M KState nat :=
  raise_if (String.eqb pid "") (ValueError "pid must be a non-empty string") ;;
  transaction (
    rows ← gets (list_leases_for_pid pid);
    deleted ← map_each (delete_row (fun l => owner_pid l = pid)) rows;
    modify (set_waiters (filter (fun w => w.1 <> pid))) ;;
    publish (released_event <$> omap id deleted) ;;
    mret (length (omap id deleted))).

(** ** Renew and reclaim *)

Definition lease_set_expiry (l : ResourceLease) (t : Z) : ResourceLease :=
  mkLease (lease_id l) (resource_id l) (owner_pid l) (mode l) (fencing_token l) (acquired_at l) t
    (renewable l) (revocable l).

Definition renewed_event (l : ResourceLease) (t : Z) : string * string * jobj :=
  (owner_pid l, "LEASE_RENEWED",
   [("lease_id", JStr (lease_id l)); ("resource_id", JStr (resource_id l));
    ("owner_pid", JStr (owner_pid l)); ("new_expiry", JTime t);
    ("fencing_token", JInt (fencing_token l))]).

(** [UPDATE ... SET expires_at = ? WHERE lease_id = ? AND expires_at > ?] *)
Definition renew_rows (lid : string) (now t : Z) : list ResourceLease -> list ResourceLease :=
  fmap (fun l => if decide (lease_id l = lid /\ (now < expires_at l)%Z) then lease_set_expiry l t else l).

Definition renew (lid : string) (ttl : Z) : M KState (option ResourceLease) :=
  transaction (
    now ← gets clock_now;
    rows ← gets leases_projection;
    modify (set_leases (renew_rows lid now (now + ttl)%Z)) ;;
    if decide (length (filter (fun l => lease_id l = lid /\ (now < expires_at l)%Z) rows) = 0) then mret None
    else
      orow ← gets (get_lease lid);
      row ← some_or_raise orow (KernelInvariantViolation "lease disappeared after a successful renewal");
      publish [renewed_event row (now + ttl)%Z] ;;
      mret (Some (lease_set_expiry row (now + ttl)%Z))).

Definition reclaim_expired (cutoff : Z) : M KState nat :=
  transaction (
    rows ← gets (fun s => filter (fun l => (expires_at l <= cutoff)%Z) (leases_projection s));
    deleted ← map_each (delete_row (fun l => (expires_at l <= cutoff)%Z)) rows;
    publish (omap id deleted ≫= fun l => [released_event l; expired_event l]) ;;
    mret (length (omap id deleted))).

(** ** Contracts of actions *)

(** [(resource_id, mode)] pairs compare as strings. *)
Definition claim_key (c : claim) : string * string := (claim_resource c, mode_value (claim_mode c)).
Definition lease_key (l : ResourceLease) : string * string := (resource_id l, mode_value (mode l)).

(** The loop over the lease ids: the leases, or the error. *)
Fixpoint contract_leases (pid : string) (ids : list string) (now : Z) (s : KState)
    : list ResourceLease + string :=
  match ids with
  | [] => inl []
  | id :: ids' =>
      match get_lease id s with
      | None => inr "lease_missing"
      | Some l =>
          if negb (String.eqb (owner_pid l) pid) then inr "lease_owner_mismatch"
          else if (expires_at l <=? now)%Z then inr "lease_expired"
          else match contract_leases pid ids' now s with
               | inl ls => inl (l :: ls)
               | inr e => inr e
               end
      end
  end.

Definition validate_action_contract (pid : string) (claims : list claim) (ids : list string)
    (now : Z) (s : KState) : bool * option string :=
  match claims with
  | [] => match ids with [] => (true, None) | _ => (false, Some "unexpected_leases") end
  | _ =>
      if decide (length ids <> length claims \/ ~ NoDup ids) then (false, Some "lease_count_mismatch")
      else match contract_leases pid ids now s with
           | inr e => (false, Some e)
           | inl ls =>
               if decide (py_sorted (lease_key <$> ls) = py_sorted (claim_key <$> claims))
               then (true, None) else (false, Some "lease_claim_mismatch")
           end
  end.

(** [out[k] = v] on a dict in insertion order *)
Fixpoint dict_set {V} (k : string) (v : V) (d : list (string * V)) : list (string * V) :=
  match d with
  | [] => [(k, v)]
  | (k', v') :: d' => if String.eqb k k' then (k, v) :: d' else (k', v') :: dict_set k v d'
  end.

Fixpoint capture_tokens (ids : list string) (out : list (string * Z)) (s : KState)
    : option (list (string * Z)) :=
  match ids with
  | [] => Some out
  | id :: ids' => l ← get_lease id s; capture_tokens ids' (dict_set (resource_id l) (fencing_token l) out) s
  end.

Definition capture_fencing_contract (pid : string) (claims : list claim) (ids : list string)
    (now : Z) (s : KState) : option (list (string * Z)) :=
  if (validate_action_contract pid claims ids now s).1 then capture_tokens ids [] s else None.

Fixpoint check_tokens (ids : list string) (tokens : list (string * Z)) (s : KState)
    : bool * option string :=
  match ids with
  | [] => (true, None)
  | id :: ids' =>
      match get_lease id s with
      | None => (false, Some "lease_missing")
      | Some l =>
          if decide (assoc (resource_id l) tokens <> Some (fencing_token l))
          then (false, Some "lease_fencing_token_mismatch")
          else if decide (resource_fencing_tokens s !! resource_id l <> assoc (resource_id l) tokens)
          then (false, Some "resource_fencing_token_superseded")
          else check_tokens ids' tokens s
      end
  end.

Definition validate_fencing_contract (pid : string) (claims : list claim) (ids : list string)
    (tokens : list (string * Z)) (now : Z) (s : KState) : bool * option string :=
  let v := validate_action_contract pid claims ids now s in
  if negb v.1 then v
  else if decide (list_to_set tokens.*1 <> (list_to_set (claim_resource <$> claims) : gset string))
  then (false, Some "fencing_token_count_mismatch")
  else check_tokens ids tokens s.

(** ** Projection handler *)

(** [ON CONFLICT DO UPDATE SET last_token = MAX(last_token, excluded.last_token)] *)
Definition raise_fence (r : string) (tok : Z) (m : gmap string Z) : gmap string Z :=
  <[r := match m !! r with Some t => Z.max t tok | None => tok end]> m.

Definition handle_event (ev : KernelEvent) : M KState unit :=
  if String.eqb (event_type ev) "LEASE_ACQUIRED" then
    fresh ← fresh_uuid;
    now ← gets clock_now;
    l ← some_or_raise (lease_load fresh now (payload ev)) (ValidationError "ResourceLease");
    transaction (modify (set_leases (tbl_replace lease_id l)) ;;
                 modify (set_fences (raise_fence (resource_id l) (fencing_token l))))
  else if String.eqb (event_type ev) "LEASE_RELEASED" || String.eqb (event_type ev) "LEASE_EXPIRED" then
    lid ← some_or_raise (req as_str "lease_id" (payload ev)) (KeyError "lease_id");
    transaction (modify (set_leases (tbl_delete lease_id lid)))
  else if String.eqb (event_type ev) "LEASE_RENEWED" then
    t ← some_or_raise (req as_time "new_expiry" (payload ev)) (KeyError "new_expiry");
    lid ← some_or_raise (req as_str "lease_id" (payload ev)) (KeyError "lease_id");
    transaction (modify (set_leases (tbl_update lease_id (fun l => lease_set_expiry l t) lid)))
  else mret tt.
End Service.
