(* ===== verification/LeaseFacts.v ===== *)
(** * Lease service: invariant and behaviour of each operation

    [leases_ok] is the invariant of the lease table and the fences; every
    operation of [LeaseService] has a lemma that says what it returns and which
    state it leaves. *)

From S2P Require Import Prelude KernelModels StateMachine Storage Journal ProcessService LeaseService.

Section Facts.
Context `{UuidSource}.

(** Lease ids are unique and were drawn before; every live lease carries the
    latest token of its resource; tokens are positive; two leases on a resource
    are both shared. *)
Record leases_ok (s : KState) : Prop := {
  lok_ids : NoDup (lease_id <$> leases_projection s);
  lok_fresh n l : (uuid_count s <= n)%N -> l ∈ leases_projection s -> lease_id l <> uuid4 n;
  lok_token l : l ∈ leases_projection s ->
    resource_fencing_tokens s !! resource_id l = Some (fencing_token l);
  lok_pos r t : resource_fencing_tokens s !! r = Some t -> (0 < t)%Z;
  lok_excl l1 l2 : l1 ∈ leases_projection s -> l2 ∈ leases_projection s ->
    resource_id l1 = resource_id l2 -> lease_id l1 <> lease_id l2 ->
    mode l1 = shared /\ mode l2 = shared }.

Definition kernel_ok (s : KState) : Prop := log_ok s /\ leases_ok s.

Lemma init_leases_ok now : leases_ok (init_storage now).
Proof. split; cbn; [constructor|set_solver..| |set_solver]. intros r t. by rewrite lookup_empty. Qed.
Lemma init_kernel_ok now : kernel_ok (init_storage now).
Proof. split; [apply init_log_ok|apply init_leases_ok]. Qed.

(** The invariant only sees leases, fences and the identifier source. *)
Lemma leases_ok_same s s' :
  leases_projection s' = leases_projection s ->
  resource_fencing_tokens s' = resource_fencing_tokens s ->
  (uuid_count s <= uuid_count s')%N -> leases_ok s -> leases_ok s'.
Proof.
  intros Hl Hf Hu [H1 H2 H3 H4 H5]. split; rewrite ?Hl, ?Hf; try done.
  intros n l Hn. apply H2. lia.
Qed.

Lemma leases_ok_filter (P : ResourceLease -> Prop) `{!forall x, Decision (P x)} s :
  leases_ok s -> leases_ok (set_leases (filter P) s).
Proof.
  intros [H1 H2 H3 H4 H5]. split; cbn; try done.
  - by apply filter_keys_NoDup.
  - intros n l Hn [_ Hl]%list_elem_of_filter. by apply H2.
  - intros l [_ Hl]%list_elem_of_filter. by apply H3.
  - intros l1 l2 [_ Hl1]%list_elem_of_filter [_ Hl2]%list_elem_of_filter. by apply H5.
Qed.

(** ** Acquire *)

Definition granted_token (c : claim) (s : KState) : Z :=
  match claim_mode c, leases_on (claim_resource c) (leases_projection s) with
  | shared, l :: _ => fencing_token l
  | _, _ => (default 0%Z (resource_fencing_tokens s !! claim_resource c) + 1)%Z
  end.

Lemma elem_of_leases_on r rows l : l ∈ leases_on r rows <-> l ∈ rows /\ resource_id l = r.
Proof. unfold leases_on. rewrite list_elem_of_filter. tauto. Qed.

(** A free claim opens a new epoch on a free resource, or joins a shared cohort. *)
Lemma grant_cases c s :
  leases_ok s -> busy (leases_projection s) c = false ->
  (leases_on (claim_resource c) (leases_projection s) = [] /\
   granted_token c s = (default 0%Z (resource_fencing_tokens s !! claim_resource c) + 1)%Z) \/
  (claim_mode c = shared /\
   resource_fencing_tokens s !! claim_resource c = Some (granted_token c s) /\
   forall l, l ∈ leases_projection s -> resource_id l = claim_resource c ->
     mode l = shared /\ fencing_token l = granted_token c s).
Proof.
  intros Hok Hb. unfold granted_token, busy in *.
  destruct (leases_on (claim_resource c) (leases_projection s)) as [|l0 ls] eqn:E.
  - left. split; [done|]. by destruct (claim_mode c).
  - right. assert (forall l, l ∈ l0 :: ls -> claim_mode c = shared /\ mode l = shared) as Hall.
    { intros l Hl. destruct (claim_mode c) eqn:Ec, (mode l) eqn:El; try done; exfalso;
        (apply not_true_iff_false in Hb; apply Hb, existsb_exists; exists l;
         split; [by apply list_elem_of_In|rewrite ?El; done]). }
    destruct (Hall l0 ltac:(set_solver)) as [Hc _]. rewrite Hc.
    assert (forall l, l ∈ leases_projection s -> resource_id l = claim_resource c -> l ∈ l0 :: ls) as Hin.
    { intros l Hl Hr. rewrite <-E. by apply elem_of_leases_on. }
    assert (l0 ∈ leases_projection s /\ resource_id l0 = claim_resource c) as [Hl0 Hr0].
    { apply elem_of_leases_on. rewrite E. set_solver. }
    pose proof (lok_token s Hok l0 Hl0) as Ht. rewrite Hr0 in Ht.
    split_and!; [done|done|]. intros l Hl Hr. split; [by apply (Hall l); apply Hin|].
    pose proof (lok_token s Hok l Hl) as Ht'. rewrite Hr in Ht'. congruence.
Qed.

Lemma next_token_run rows c s :
  leases_ok s -> busy (leases_projection s) c = false ->
  leases_on (claim_resource c) rows = leases_on (claim_resource c) (leases_projection s) ->
  next_token rows c s =
  (Ok (granted_token c s), set_fences (<[claim_resource c := granted_token c s]>) s).
Proof.
  intros Hok Hb Hrows. destruct (grant_cases c s Hok Hb) as [[He Ht]|(Hm & Hf & Hall)].
  - unfold next_token. rewrite Hrows, He, Ht. run_m.
    destruct (claim_mode c), (resource_fencing_tokens s !! claim_resource c); done.
  - unfold next_token. rewrite Hrows. unfold granted_token in *. rewrite Hm in *.
    destruct (leases_on (claim_resource c) (leases_projection s)) as [|l ls] eqn:E.
    + run_m. by rewrite Hf.
    + assert (forall l', l' ∈ l :: ls -> fencing_token l' = fencing_token l) as Hs.
      { intros l' Hl'. rewrite <-E in Hl'. apply elem_of_leases_on in Hl' as [??]. by apply Hall. }
      assert (existsb (fun l' => negb (fencing_token l' =? fencing_token l)%Z) ls = false) as ->.
      { apply not_true_iff_false. intros (l' & Hl' & Hn)%existsb_exists.
        rewrite (Hs l'), Z.eqb_refl in Hn by (apply elem_of_cons; right; by apply list_elem_of_In). done. }
      pose proof (lok_pos s Hok _ _ Hf). rewrite (proj2 (Z.leb_gt _ _)) by done. run_m.
      rewrite bool_decide_eq_false_2 by (intros Hn; by apply Hn). f_equal.
      destruct s; unfold set_fences; cbn in *. by rewrite insert_id.
Qed.

(** The lease a claim is granted in [s]. *)
Definition grants (pid : string) (now exp : Z) (s : KState) (c : claim) (l : ResourceLease) : Prop :=
  resource_id l = claim_resource c /\ owner_pid l = pid /\ mode l = claim_mode c /\
  fencing_token l = granted_token c s /\ acquired_at l = now /\ expires_at l = exp.

Definition new_lease (pid : string) (now exp : Z) (c : claim) (s : KState) : ResourceLease :=
  mkLease (uuid4 (uuid_count s)) (claim_resource c) pid (claim_mode c) (granted_token c s) now exp true true.
Definition acquired (c : claim) (l : ResourceLease) (s : KState) : KState :=
  set_leases (fun ls => ls ++ [l]) (set_uuid N.succ (set_fences (<[claim_resource c := granted_token c s]>) s)).

Lemma acquire_claim_run pid rows now exp c s :
  leases_ok s -> busy (leases_projection s) c = false ->
  leases_on (claim_resource c) rows = leases_on (claim_resource c) (leases_projection s) ->
  acquire_claim pid rows now exp c s =
  (Ok (new_lease pid now exp c s), acquired c (new_lease pid now exp c s) s).
Proof.
  intros Hok Hb Hrows. unfold acquire_claim.
  rewrite (bind_Ok _ _ _ _ _ (next_token_run rows c s Hok Hb Hrows)). unfold fresh_uuid. run_m.
  rewrite bool_decide_eq_false_2; [done|].
  intros (l & Hl & Hin)%list_elem_of_fmap. cbn in Hl, Hin. by apply (lok_fresh s Hok (uuid_count s) l).
Qed.

Lemma acquired_ok pid now exp c s :
  leases_ok s -> busy (leases_projection s) c = false ->
  leases_ok (acquired c (new_lease pid now exp c s) s).
Proof.
  intros Hok Hb. pose proof (grant_cases c s Hok Hb) as Hcases. destruct Hok as [H1 H2 H3 H4 H5].
  assert (forall l, l ∈ leases_projection s -> resource_id l = claim_resource c ->
            claim_mode c = shared /\ mode l = shared /\ fencing_token l = granted_token c s) as Hold.
  { intros l Hl Hr. destruct Hcases as [[He _]|(Hm & _ & Hall)].
    - exfalso. apply (not_elem_of_nil l). rewrite <-He. by apply elem_of_leases_on.
    - destruct (Hall l Hl Hr). done. }
  assert (0 < granted_token c s)%Z as Hpos.
  { destruct Hcases as [[_ ->]|(_ & Hf & _)]; [|by eapply H4].
    destruct (resource_fencing_tokens s !! claim_resource c) as [t|] eqn:E; cbn; [|lia].
    apply H4 in E. lia. }
  split; cbn.
  - rewrite fmap_app. apply NoDup_app. split_and!; [done| |apply NoDup_singleton].
    intros x (l & -> & Hl)%list_elem_of_fmap Hx%list_elem_of_singleton.
    apply (H2 (uuid_count s) l); [lia|done|done].
  - intros n l Hn [Hl|Hl%list_elem_of_singleton]%elem_of_app; [apply H2; [lia|done]|subst l; cbn].
    intros Heq%(inj uuid4). lia.
  - intros l [Hl|Hl%list_elem_of_singleton]%elem_of_app; [|subst l; cbn; by rewrite lookup_insert_eq].
    destruct (decide (resource_id l = claim_resource c)) as [Hr|Hr].
    + destruct (Hold l Hl Hr) as (_ & _ & ->). by rewrite Hr, lookup_insert_eq.
    + rewrite lookup_insert_ne by done. by apply H3.
  - intros r t. destruct (decide (r = claim_resource c)) as [->|Hr].
    + rewrite lookup_insert_eq. by intros [= <-].
    + rewrite lookup_insert_ne by done. apply H4.
  - intros l1 l2 [Hl1|Hl1%list_elem_of_singleton]%elem_of_app [Hl2|Hl2%list_elem_of_singleton]%elem_of_app Hr Hne.
    + by apply H5.
    + subst l2. cbn in *. destruct (Hold l1 Hl1 Hr) as (? & ? & _). done.
    + subst l1. cbn in *. destruct (Hold l2 Hl2 (eq_sym Hr)) as (? & ? & _). done.
    + by subst.
Qed.

Lemma leases_on_app r l1 l2 : leases_on r (l1 ++ l2) = leases_on r l1 ++ leases_on r l2.
Proof. apply filter_app. Qed.
Lemma leases_on_acquired c l s r :
  resource_id l = claim_resource c -> r <> claim_resource c ->
  leases_on r (leases_projection (acquired c l s)) = leases_on r (leases_projection s).
Proof.
  intros Hl Hr. change (leases_projection (acquired c l s)) with (leases_projection s ++ [l]).
  rewrite leases_on_app. unfold leases_on at 2.
  rewrite filter_cons, decide_False by congruence. by rewrite app_nil_r.
Qed.
Lemma granted_token_acquired c l s c' :
  resource_id l = claim_resource c -> claim_resource c' <> claim_resource c ->
  granted_token c' (acquired c l s) = granted_token c' s.
Proof.
  intros Hl Hc. unfold granted_token. rewrite leases_on_acquired by done. cbn.
  by rewrite lookup_insert_ne.
Qed.

Lemma acquired_compose c l s ls F n :
  set_leases (fun x => x ++ ls) (set_uuid (fun k => k + n)%N (set_fences (fun _ => F) (acquired c l s))) =
  set_leases (fun x => x ++ l :: ls) (set_uuid (fun k => k + (1 + n))%N (set_fences (fun _ => F) s)).
Proof.
  unfold acquired. generalize (granted_token c s). intros tok. destruct s.
  unfold set_fences; cbn. unfold set_uuid; cbn. unfold set_leases; cbn. rewrite <-app_assoc; cbn. f_equal. lia.
Qed.

(** The whole acquisition loop. *)
Lemma acquire_each pid rows now exp claims s :
  kernel_ok s -> NoDup (claim_resource <$> claims) ->
  (forall c, c ∈ claims -> busy rows c = false /\
     leases_on (claim_resource c) rows = leases_on (claim_resource c) (leases_projection s)) ->
  exists ls F n, let s' := set_leases (fun l => l ++ ls)
                      (set_uuid (fun k => k + n)%N (set_fences (fun _ => F) s)) in
    map_each (acquire_claim pid rows now exp) claims s = (Ok ls, s') /\ kernel_ok s' /\
    Forall2 (grants pid now exp s) claims ls /\
    (forall r, r ∉ claim_resource <$> claims -> F !! r = resource_fencing_tokens s !! r).
Proof.
  revert s. induction claims as [|c claims IH]; intros s [Hlog Hok] Hn Hfree.
  - exists [], (resource_fencing_tokens s), 0%N.
    replace (set_leases _ _) with s.
    { by split_and!; [|split|constructor|]. }
    destruct s; unfold set_leases, set_uuid, set_fences; cbn. by rewrite app_nil_r, N.add_0_r.
  - cbn in Hn. apply NoDup_cons in Hn as [Hni Hn].
    destruct (Hfree c ltac:(set_solver)) as [Hb Hrows].
    assert (busy (leases_projection s) c = false) as Hb' by (unfold busy in *; by rewrite <-Hrows).
    pose proof (acquire_claim_run pid rows now exp c s Hok Hb' Hrows) as E.
    pose proof (acquired_ok pid now exp c s Hok Hb') as Hok1.
    set (l := new_lease pid now exp c s) in *. set (s1 := acquired c l s) in *.
    assert (log_ok s1) as Hlog1.
    { apply (log_ok_same (set_uuid N.succ s)); [done..|]. by apply fresh_uuid_log_ok. }
    assert (forall c', c' ∈ claims -> claim_resource c' <> claim_resource c) as Hdiff.
    { intros c' Hc' Heq. apply Hni. rewrite <-Heq. by apply list_elem_of_fmap_2. }
    destruct (IH s1) as (ls & F & n & E2 & Hk & Hg & HF); [by split|done| |].
    { intros c' Hc'. destruct (Hfree c' ltac:(set_solver)) as [? Hr']. split; [done|].
      rewrite Hr'. symmetry. apply leases_on_acquired; [done|]. by apply Hdiff. }
    set (s2 := set_leases _ _) in E2, Hk.
    assert (s2 = set_leases (fun x => x ++ l :: ls)
              (set_uuid (fun k => k + (1 + n))%N (set_fences (fun _ => F) s))) as Hs2.
    { apply acquired_compose. }
    exists (l :: ls), F, (1 + n)%N. rewrite <-Hs2. cbn [map_each].
    rewrite (bind_Ok _ _ _ _ _ E), (bind_Ok _ _ _ _ _ E2). split_and!; [done|done| |].
    + constructor; [done|]. eapply Forall2_impl_in; [exact Hg|].
      intros c' l' Hc' (Ha & Hb1 & Hc1 & Hd & He & Hf1). split_and!; try done.
      rewrite Hd. apply granted_token_acquired; [done|]. by apply Hdiff.
    + intros r Hr. cbn in Hr. rewrite HF by set_solver. cbn. rewrite lookup_insert_ne; [done|]. set_solver.
Qed.

Lemma repeated_resource_None seen claims :
  repeated_resource seen claims = None <->
  NoDup (claim_resource <$> claims) /\ forall c, c ∈ claims -> claim_resource c ∉ seen.
Proof.
  induction claims as [|c claims IH] in seen |- *; cbn.
  - split; [|done]. intros _. split; [constructor|set_solver].
  - case_decide as Hc; [split; [done|intros [_ Hn]; exfalso; apply (Hn c); set_solver]|].
    rewrite IH, NoDup_cons, list_elem_of_fmap. split.
    + intros [Hn Hs]. split_and!; [intros (c' & He & Hc')|done|].
      * apply (Hs c' Hc'). rewrite <-He. set_solver.
      * intros c' [->|Hc']%elem_of_cons; [done|]. specialize (Hs c' Hc'). set_solver.
    + intros [[Hni Hn] Hs]. split; [done|]. intros c' Hc' [He|Hin]%elem_of_cons.
      * apply Hni. by exists c'.
      * apply (Hs c'); set_solver.
Qed.

Lemma repeated_resource_in seen claims r :
  repeated_resource seen claims = Some r -> r ∈ claim_resource <$> claims.
Proof.
  induction claims as [|c claims IH] in seen |- *; cbn; [done|].
  case_decide; [intros [= <-]; set_solver|]. intros Hr%IH. set_solver.
Qed.

Definition is_terminal (pid : string) (s : KState) : bool :=
  match get_process pid s with
  | Some p => bool_decide (pcb_state p ∈ TERMINAL_PROCESS_STATES)
  | None => false
  end.
Definition without_waits (pid : string) (s : KState) : KState :=
  set_waiters (filter (fun w => w.1 <> pid)) s.

(** The possible outcomes of a request, with the state each leaves. *)
Inductive acquire_outcome (pid : string) (claims : list claim) (ttl : Z) (s : KState)
  : result (list ResourceLease) -> KState -> Prop :=
| acq_nothing :
    claims = [] -> acquire_outcome pid claims ttl s (Ok []) (without_waits pid s)
| acq_repeated r :
    repeated_resource [] claims = Some r ->
    acquire_outcome pid claims ttl s (Raise (LeaseAcquisitionFailed pid r)) s
| acq_terminal c rest :
    claims = c :: rest -> NoDup (claim_resource <$> claims) -> is_terminal pid s = true ->
    acquire_outcome pid claims ttl s (Raise (LeaseAcquisitionFailed pid (claim_resource c))) s
| acq_busy c ev :
    NoDup (claim_resource <$> claims) -> is_terminal pid s = false ->
    c ∈ claims -> busy (leases_projection s) c = true ->
    event_type ev = "LEASE_ACQUIRE_FAILED" -> ev_pid ev = pid ->
    acquire_outcome pid claims ttl s (Raise (LeaseAcquisitionFailed pid (claim_resource c)))
      (logged (set_waiters (fun ws => ws ++ [(pid, claim_resource c)]) (without_waits pid s)) ev)
| acq_granted ls F n evs :
    claims <> [] -> NoDup (claim_resource <$> claims) -> is_terminal pid s = false ->
    (forall c, c ∈ claims -> busy (leases_projection s) c = false) ->
    Forall2 (grants pid (clock_now s) (clock_now s + ttl)%Z s) claims ls ->
    (forall r, r ∉ claim_resource <$> claims -> F !! r = resource_fencing_tokens s !! r) ->
    Forall2 (ev_of s) ((fun l => (pid, "LEASE_ACQUIRED", lease_dump l)) <$> ls) evs ->
    acquire_outcome pid claims ttl s (Ok ls)
      (published (without_waits pid (set_leases (fun l => l ++ ls)
         (set_uuid (fun k => k + n)%N (set_fences (fun _ => F) s)))) evs).

Lemma published_leases_ok s evs : leases_ok s -> leases_ok (published s evs).
Proof. apply leases_ok_same; [done|done|]. cbn. lia. Qed.
Lemma without_waits_ok pid s : kernel_ok s -> kernel_ok (without_waits pid s).
Proof. intros [Hl Hk]. split; [by apply (log_ok_same s)|by apply (leases_ok_same s)]. Qed.
Lemma logged_kernel_ok s pid ty pl t : kernel_ok s -> kernel_ok (logged s (emitted_at s pid ty pl t)).
Proof.
  intros [Hl Hk]. split; [by apply logged_ok|]. apply (leases_ok_same s); [done|done|cbn; lia|done].
Qed.

(** The transaction, once duplicates are excluded. *)
Lemma acquire_tx_run pid claims ttl s :
  kernel_ok s -> NoDup (claim_resource <$> claims) ->
  if is_terminal pid s
  then acquire_tx pid claims ttl s =
       (Raise (LeaseAcquisitionFailed pid (match claims with c :: _ => claim_resource c | [] => "" end)), s)
  else match List.find (busy (leases_projection s)) claims with
       | Some c => acquire_tx pid claims ttl s = (Ok (inr c), s)
       | None => exists ls F n evs,
           let s' := published (without_waits pid (set_leases (fun l => l ++ ls)
                       (set_uuid (fun k => k + n)%N (set_fences (fun _ => F) s)))) evs in
           acquire_tx pid claims ttl s = (Ok (inl ls), s') /\ kernel_ok s' /\
           Forall2 (grants pid (clock_now s) (clock_now s + ttl)%Z s) claims ls /\
           (forall r, r ∉ claim_resource <$> claims -> F !! r = resource_fencing_tokens s !! r) /\
           Forall2 (ev_of s) ((fun l => (pid, "LEASE_ACQUIRED", lease_dump l)) <$> ls) evs
       end.
Proof.
  intros Hk Hn. unfold acquire_tx, transaction.
  rewrite (bind_Ok (gets (get_process pid)) _ s _ s eq_refl).
  change (match get_process pid s with Some p => _ | None => _ end) with (is_terminal pid s).
  destruct (is_terminal pid s); [done|].
  rewrite (bind_Ok (raise_if false _) _ s tt s eq_refl), (bind_Ok (gets leases_projection) _ s _ s eq_refl).
  destruct (List.find (busy (leases_projection s)) claims) as [c|] eqn:E; [done|].
  rewrite (bind_Ok (gets clock_now) _ s _ s eq_refl).
  destruct (acquire_each pid (leases_projection s) (clock_now s) (clock_now s + ttl)%Z claims s Hk Hn)
    as (ls & F & n & E2 & Hk2 & Hg & HF).
  { intros c Hc. split; [|done]. eapply List.find_none in E; [done|]. by apply list_elem_of_In. }
  rewrite (bind_Ok _ _ _ _ _ E2). set (s1 := set_leases _ _) in E2, Hk2 |- *.
  pose proof (without_waits_ok pid s1 Hk2) as Hk3.
  change (modify (set_waiters (filter (fun w => w.1 <> pid)))) with (modify (without_waits pid)).
  rewrite (bind_Ok (modify (without_waits pid)) _ s1 tt (without_waits pid s1) eq_refl).
  destruct (publish_run ((fun l => (pid, "LEASE_ACQUIRED", lease_dump l)) <$> ls) (without_waits pid s1))
    as (evs & E3 & He & Hl3); [by apply Hk3|].
  exists ls, F, n, evs. rewrite (bind_Ok _ _ _ _ _ E3). split_and!; try done.
  split; [exact Hl3|]. apply published_leases_ok. by apply Hk3.
Qed.

Lemma clear_waiters_run pid s :
  clear_waiters_for_pid pid s = (Ok (length (filter (fun w => w.1 = pid) (lease_waiters s))), without_waits pid s).
Proof. done. Qed.

Lemma add_waiter_after_clear pid r s :
  _add_waiter pid r (without_waits pid s) =
  (Ok tt, set_waiters (fun ws => ws ++ [(pid, r)]) (without_waits pid s)).
Proof.
  assert (((pid, r) ∉ lease_waiters (without_waits pid s))) as Hni.
  { by intros [Hn _]%list_elem_of_filter. }
  unfold _add_waiter, transaction, modify. f_equal. generalize dependent (without_waits pid s).
  intros s0 Hni. unfold set_waiters. by rewrite decide_False.
Qed.

Lemma atomic_acquire_run pid claims ttl s :
  kernel_ok s ->
  exists out s', atomic_acquire pid claims ttl s = (out, s') /\ kernel_ok s' /\
    acquire_outcome pid claims ttl s out s'.
Proof.
  intros Hk. destruct claims as [|c0 rest].
  { eexists _, _. split; [reflexivity|]. split; [by apply without_waits_ok|]. by apply acq_nothing. }
  unfold atomic_acquire. cbv iota. remember (c0 :: rest) as claims eqn:Hc.
  destruct (repeated_resource [] claims) as [r|] eqn:Hr.
  { eexists _, _. split; [reflexivity|]. split; [done|]. by apply acq_repeated. }
  apply repeated_resource_None in Hr as [Hn _].
  pose proof (acquire_tx_run pid claims ttl s Hk Hn) as Ht.
  destruct (is_terminal pid s) eqn:Hterm.
  { rewrite (bind_Raise _ _ _ _ _ Ht). eexists _, _. split; [reflexivity|]. split; [done|].
    rewrite Hc at 2. by eapply acq_terminal. }
  destruct (List.find (busy (leases_projection s)) claims) as [c|] eqn:Hb.
  - apply List.find_some in Hb as [Hin%list_elem_of_In Hb].
    rewrite (bind_Ok _ _ _ _ _ Ht), (bind_Ok _ _ _ _ _ (clear_waiters_run pid s)).
    rewrite (bind_Ok _ _ _ _ _ (add_waiter_after_clear pid (claim_resource c) s)).
    assert (kernel_ok (set_waiters (fun ws => ws ++ [(pid, claim_resource c)]) (without_waits pid s))) as Hk1.
    { apply (without_waits_ok pid) in Hk as [Hl1 Hl2].
      split; [by eapply log_ok_same in Hl1|by eapply leases_ok_same in Hl2]. }
    rewrite (bind_Ok _ _ _ _ _ (emit_spec _ _ _ _ (proj1 Hk1))).
    eexists _, _. split; [reflexivity|]. split; [by apply logged_kernel_ok|].
    by apply acq_busy.
  - destruct Ht as (ls & F & n & evs & E & Hk1 & Hg & HF & He).
    rewrite (bind_Ok _ _ _ _ _ E). eexists _, _. split; [reflexivity|]. split; [exact Hk1|].
    apply acq_granted; try done; [by rewrite Hc|].
    intros c Hin. eapply List.find_none in Hb; [done|]. by apply list_elem_of_In.
Qed.

(** ** Release *)

Definition drop_leases (ids : list string) (s : KState) : KState :=
  set_leases (filter (fun l => lease_id l ∉ ids)) s.

Lemma set_leases_compose f g s : set_leases f (set_leases g s) = set_leases (fun l => f (g l)) s.
Proof. done. Qed.
Lemma set_leases_ext f g s : f (leases_projection s) = g (leases_projection s) -> set_leases f s = set_leases g s.
Proof. unfold set_leases. by intros ->. Qed.
Lemma set_leases_id s : set_leases id s = s.
Proof. by destruct s. Qed.

Lemma drop_nil s : drop_leases [] s = s.
Proof.
  rewrite <-set_leases_id. apply set_leases_ext. apply filter_all. intros l _. apply not_elem_of_nil.
Qed.
Lemma drop_cons id ids s : drop_leases ids (drop_leases [id] s) = drop_leases (id :: ids) s.
Proof.
  unfold drop_leases. rewrite set_leases_compose. apply set_leases_ext.
  rewrite filter_filter. apply filter_ext_in. set_solver.
Qed.
Lemma drop_ok ids s : kernel_ok s -> kernel_ok (drop_leases ids s).
Proof. intros [Hl Hk]. split; [by apply (log_ok_same s)|by apply leases_ok_filter]. Qed.

Lemma get_lease_Some id s l : get_lease id s = Some l -> lease_id l = id /\ l ∈ leases_projection s.
Proof. apply tbl_find_Some. Qed.
Lemma get_lease_elem s l : leases_ok s -> l ∈ leases_projection s -> get_lease (lease_id l) s = Some l.
Proof. intros Hok. apply tbl_find_elem, Hok. Qed.

Lemma release_one_run id s :
  leases_ok s -> release_one id s = (Ok (get_lease id s), drop_leases [id] s).
Proof.
  intros Hok. unfold release_one. rewrite (bind_Ok (gets (get_lease id)) _ s _ s eq_refl).
  destruct (get_lease id s) as [l|] eqn:E.
  - unfold delete_leases, drop_leases. run_m. f_equal. apply set_leases_ext.
    apply filter_ext_in. set_solver.
  - unfold mret, M_ret. f_equal. rewrite <-(set_leases_id s) at 1. apply set_leases_ext. symmetry. apply filter_all.
    intros l Hl. unfold get_lease in E. rewrite tbl_find_None in E. specialize (E l Hl). set_solver.
Qed.

Lemma release_each ids s :
  leases_ok s ->
  exists orows, map_each release_one ids s = (Ok orows, drop_leases ids s) /\
    (forall l, l ∈ omap id orows <-> l ∈ leases_projection s /\ lease_id l ∈ ids) /\
    NoDup (omap id orows).
Proof.
  revert s. induction ids as [|i ids IH]; intros s Hok.
  - exists []. rewrite drop_nil. split_and!; [done|set_solver|constructor].
  - destruct (IH (drop_leases [i] s)) as (orows & E & Hin & Hn); [by apply leases_ok_filter|].
    exists (get_lease i s :: orows). cbn [map_each].
    rewrite (bind_Ok _ _ _ _ _ (release_one_run i s Hok)), (bind_Ok _ _ _ _ _ E), drop_cons.
    split; [done|].
    assert (forall l, l ∈ omap id orows <-> l ∈ leases_projection s /\ lease_id l ∈ ids /\ lease_id l <> i) as Hin'.
    { intros l. rewrite Hin. cbn. rewrite list_elem_of_filter. set_solver. }
    destruct (get_lease i s) as [l0|] eqn:E0; cbn.
    + apply get_lease_Some in E0 as [Hl0 Hi0]. split.
      * intros l. rewrite elem_of_cons, Hin'. split.
        -- intros [->|(? & ? & ?)]; set_solver.
        -- intros [Hl Hids]. destruct (decide (lease_id l = i)) as [Hi|Hi]; [|set_solver]. left.
           apply (NoDup_key_inj lease_id (leases_projection s)); [apply Hok|done|done|congruence].
      * apply NoDup_cons. split; [|done]. rewrite Hin'. tauto.
    + split; [|done]. intros l. rewrite Hin'. unfold get_lease in E0. rewrite tbl_find_None in E0.
      split; [set_solver|]. intros [Hl Hi]. specialize (E0 l Hl). set_solver.
Qed.

(** Deleting the rows read by the same query removes each of them. *)
Lemma delete_row_run (P : ResourceLease -> Prop) `{!forall l, Decision (P l)} l s :
  leases_ok s -> l ∈ leases_projection s -> P l ->
  delete_row P l s = (Ok (Some l), drop_leases [lease_id l] s).
Proof.
  intros Hok Hl HP. unfold delete_row, delete_leases. run_m.
  rewrite (filter_key_one lease_id P (leases_projection s) l) by (try done; apply Hok). cbn.
  f_equal. apply set_leases_ext, filter_ext_in. intros l' Hl'.
  rewrite list_elem_of_singleton. split; [|tauto].
  intros Hn Hid. apply Hn. split; [done|].
  assert (l' = l) as ->; [|done]. apply (NoDup_key_inj lease_id (leases_projection s)); try done. apply Hok.
Qed.

Lemma delete_rows_run (P : ResourceLease -> Prop) `{!forall l, Decision (P l)} rows s :
  leases_ok s -> NoDup (lease_id <$> rows) -> (forall l, l ∈ rows -> l ∈ leases_projection s /\ P l) ->
  map_each (delete_row P) rows s = (Ok (Some <$> rows), drop_leases (lease_id <$> rows) s).
Proof.
  revert s. induction rows as [|l rows IH]; intros s Hok Hn Hin; [by cbn; rewrite drop_nil|].
  cbn in Hn. apply NoDup_cons in Hn as [Hni Hn]. destruct (Hin l ltac:(set_solver)) as [Hl HP].
  cbn [map_each]. rewrite (bind_Ok _ _ _ _ _ (delete_row_run P l s Hok Hl HP)).
  rewrite (bind_Ok _ _ _ _ _ (IH (drop_leases [lease_id l] s) ltac:(by apply leases_ok_filter) Hn
    ltac:(intros l' Hl'; destruct (Hin l' ltac:(set_solver)); split; [|done]; cbn;
          apply list_elem_of_filter; split; [|done]; rewrite list_elem_of_singleton;
          intros Heq; apply Hni; rewrite <-Heq; by apply list_elem_of_fmap_2))).
  cbn [fmap list_fmap]. by rewrite drop_cons.
Qed.

Lemma omap_id_Some {A} (l : list A) : omap id (Some <$> l) = l.
Proof. induction l as [|x l IH]; cbn; [done|]. by rewrite IH. Qed.

(** Dropping the rows that satisfy [P] keeps those that do not. *)
Lemma drop_filter (P : ResourceLease -> Prop) `{!forall l, Decision (P l)} s :
  leases_ok s ->
  drop_leases (lease_id <$> filter P (leases_projection s)) s = set_leases (filter (fun l => ~ P l)) s.
Proof.
  intros Hok. apply set_leases_ext, filter_ext_in. intros l Hl. split.
  - intros Hn HP. apply Hn, list_elem_of_fmap_2, list_elem_of_filter. done.
  - intros Hn (l' & He & [HP Hl']%list_elem_of_filter)%list_elem_of_fmap.
    assert (l = l') as ->; [|done]. apply (NoDup_key_inj lease_id (leases_projection s)); try done. apply Hok.
Qed.

Lemma release_run ids s :
  kernel_ok s -> ids <> [] ->
  exists rows evs, release ids s = (Ok (length rows), published (drop_leases ids s) evs) /\
    kernel_ok (published (drop_leases ids s) evs) /\ NoDup rows /\
    (forall l, l ∈ rows <-> l ∈ leases_projection s /\ lease_id l ∈ ids) /\
    Forall2 (ev_of s) (released_event <$> rows) evs.
Proof.
  intros Hk Hne. destruct (release_each ids s) as (orows & E & Hin & Hn); [apply Hk|].
  unfold release. destruct ids as [|i ids]; [done|]. cbv iota. remember (i :: ids) as l eqn:Hl.
  unfold transaction. rewrite (bind_Ok _ _ _ _ _ E).
  destruct (publish_run (released_event <$> omap id orows) (drop_leases l s)) as (evs & E2 & He & Hlog).
  { by apply drop_ok. }
  rewrite (bind_Ok _ _ _ _ _ E2). exists (omap id orows), evs. split_and!; try done; [|apply Hin..].
  split; [done|]. apply published_leases_ok. by apply leases_ok_filter, Hk.
Qed.

Lemma release_all_run pid s :
  kernel_ok s -> pid <> "" ->
  let s1 := without_waits pid (set_leases (filter (fun l => ~ owner_pid l = pid)) s) in
  exists evs, release_all_for_pid pid s = (Ok (length (list_leases_for_pid pid s)), published s1 evs) /\
    kernel_ok (published s1 evs) /\
    Forall2 (ev_of s) (released_event <$> list_leases_for_pid pid s) evs.
Proof.
  intros Hk Hp s1. unfold release_all_for_pid. rewrite (proj2 (String.eqb_neq _ _) Hp).
  rewrite (bind_Ok (raise_if false _) _ s tt s eq_refl). unfold transaction.
  rewrite (bind_Ok (gets (list_leases_for_pid pid)) _ s _ s eq_refl).
  rewrite (bind_Ok _ _ _ _ _ (delete_rows_run (fun l => owner_pid l = pid) (list_leases_for_pid pid s) s
    (proj2 Hk) ltac:(apply filter_keys_NoDup, Hk) ltac:(intros l Hl; apply list_elem_of_filter in Hl; tauto))).
  rewrite (drop_filter (fun l => owner_pid l = pid) s (proj2 Hk) : drop_leases (lease_id <$> list_leases_for_pid pid s) s = _).
  change (modify (set_waiters (filter (fun w => w.1 <> pid)))) with (modify (without_waits pid)).
  rewrite (bind_Ok (modify (without_waits pid)) _ _ tt s1 eq_refl), omap_id_Some.
  assert (kernel_ok s1) as Hk1.
  { apply without_waits_ok. split; [by apply (log_ok_same s), Hk|by apply leases_ok_filter, Hk]. }
  destruct (publish_run (released_event <$> list_leases_for_pid pid s) s1) as (evs & E2 & He & Hlog).
  { by apply Hk1. }
  rewrite (bind_Ok _ _ _ _ _ E2). exists evs. split_and!; try done.
  split; [done|]. by apply published_leases_ok, Hk1.
Qed.

Lemma reclaim_run cutoff s :
  kernel_ok s ->
  let expired := filter (fun l => (expires_at l <= cutoff)%Z) (leases_projection s) in
  let s1 := set_leases (filter (fun l => ~ (expires_at l <= cutoff)%Z)) s in
  exists evs, reclaim_expired cutoff s = (Ok (length expired), published s1 evs) /\
    kernel_ok (published s1 evs) /\
    Forall2 (ev_of s) (expired ≫= fun l => [released_event l; expired_event l]) evs.
Proof.
  intros Hk expired s1. unfold reclaim_expired, transaction.
  rewrite (bind_Ok (gets (fun s => filter (fun l => (expires_at l <= cutoff)%Z) (leases_projection s)))
             _ s expired s eq_refl).
  rewrite (bind_Ok _ _ _ _ _ (delete_rows_run (fun l => (expires_at l <= cutoff)%Z) expired s
    (proj2 Hk) ltac:(apply filter_keys_NoDup, Hk) ltac:(intros l Hl; apply list_elem_of_filter in Hl; tauto))).
  rewrite (drop_filter (fun l => (expires_at l <= cutoff)%Z) s (proj2 Hk) : drop_leases (lease_id <$> expired) s = s1).
  rewrite omap_id_Some.
  assert (kernel_ok s1) as Hk1.
  { split; [by apply (log_ok_same s), Hk|by apply leases_ok_filter, Hk]. }
  destruct (publish_run (expired ≫= fun l => [released_event l; expired_event l]) s1) as (evs & E2 & He & Hlog).
  { by apply Hk1. }
  rewrite (bind_Ok _ _ _ _ _ E2). exists evs. split_and!; try done.
  split; [done|]. by apply published_leases_ok, Hk1.
Qed.

(** ** Renew *)

Lemma renew_rows_elem lid now t rows l' :
  l' ∈ renew_rows lid now t rows ->
  exists l, l ∈ rows /\ lease_id l' = lease_id l /\ resource_id l' = resource_id l /\
    owner_pid l' = owner_pid l /\ mode l' = mode l /\ fencing_token l' = fencing_token l.
Proof. intros (l & -> & Hl)%list_elem_of_fmap. exists l. split; [done|]. by case_decide. Qed.

Lemma renew_rows_ok lid now t s : leases_ok s -> leases_ok (set_leases (renew_rows lid now t) s).
Proof.
  intros [H1 H2 H3 H4 H5]. split; cbn; try done.
  - unfold renew_rows. rewrite <-list_fmap_compose. erewrite list_fmap_ext; [exact H1|].
    intros i l _. cbn. by case_decide.
  - intros n l' Hn (l & Hl & -> & _)%renew_rows_elem. by apply H2.
  - intros l' (l & Hl & _ & -> & _ & _ & ->)%renew_rows_elem. by apply H3.
  - intros l1' l2' (l1 & Hl1 & -> & -> & _ & -> & _)%renew_rows_elem
      (l2 & Hl2 & -> & -> & _ & -> & _)%renew_rows_elem. by apply H5.
Qed.

Lemma renew_rows_miss lid now t rows :
  (forall l, l ∈ rows -> ~ (lease_id l = lid /\ (now < expires_at l)%Z)) -> renew_rows lid now t rows = rows.
Proof.
  intros Hn. induction rows as [|l rows IH]; [done|]. cbn.
  rewrite decide_False by (apply Hn; set_solver). f_equal. apply IH. set_solver.
Qed.

Lemma renew_rows_other lid now t rows lid' :
  lid' <> lid -> tbl_find lease_id lid' (renew_rows lid now t rows) = tbl_find lease_id lid' rows.
Proof.
  intros Hne. induction rows as [|l rows IH]; [done|]. cbn.
  destruct (decide (lease_id l = lid /\ (now < expires_at l)%Z)) as [[Hl _]|_]; cbn;
    [rewrite !decide_False by congruence; exact IH|by case_decide].
Qed.

(** Renewal extends exactly a live, unexpired lease. *)
Lemma renew_run lid ttl s :
  kernel_ok s ->
  match get_lease lid s with
  | Some l =>
      if decide (clock_now s < expires_at l)%Z then
        let s1 := set_leases (renew_rows lid (clock_now s) (clock_now s + ttl)%Z) s in
        let l' := lease_set_expiry l (clock_now s + ttl)%Z in
        exists evs, renew lid ttl s = (Ok (Some l'), published s1 evs) /\ kernel_ok (published s1 evs) /\
          get_lease lid s1 = Some l' /\
          Forall2 (ev_of s) [renewed_event l' (clock_now s + ttl)%Z] evs
      else renew lid ttl s = (Ok None, s)
  | None => renew lid ttl s = (Ok None, s)
  end.
Proof.
  intros Hk. set (now := clock_now s). set (t := (now + ttl)%Z).
  assert (forall rows, (forall l, l ∈ rows -> ~ (lease_id l = lid /\ (now < expires_at l)%Z)) ->
            leases_projection s = rows -> renew lid ttl s = (Ok None, s)) as Hmiss.
  { intros rows Hn Hrows. unfold renew, transaction. run_m. rewrite Hrows. fold now t.
    rewrite filter_none by done. cbn. f_equal.
    rewrite <-set_leases_id. apply set_leases_ext. rewrite Hrows. by apply renew_rows_miss. }
  destruct (get_lease lid s) as [l|] eqn:E.
  - apply get_lease_Some in E as [Hid Hl]. subst lid. case_decide as Hexp.
    + set (s1 := set_leases (renew_rows (lease_id l) now t) s).
      assert (kernel_ok s1) as Hk1.
      { split; [by apply (log_ok_same s), Hk|by apply renew_rows_ok, Hk]. }
      assert (get_lease (lease_id l) s1 = Some (lease_set_expiry l t)) as Hg.
      { apply (get_lease_elem s1 (lease_set_expiry l t)); [apply Hk1|].
        cbn. unfold renew_rows. apply list_elem_of_fmap. exists l. by rewrite decide_True. }
      destruct (publish_run [renewed_event (lease_set_expiry l t) t] s1) as (evs & E2 & He & Hlog).
      { by apply Hk1. }
      exists evs. split_and!; [|split; [done|by apply published_leases_ok, Hk1]|done|done].
      unfold renew, transaction. rewrite (bind_Ok (gets clock_now) _ s now s eq_refl).
      rewrite (bind_Ok (gets leases_projection) _ s _ s eq_refl). fold t.
      rewrite (bind_Ok (modify (set_leases (renew_rows (lease_id l) now t))) _ s tt s1 eq_refl).
      rewrite (filter_key_one lease_id (fun l => (now < expires_at l)%Z) (leases_projection s) l) by (try done; apply Hk).
      cbn [length decide]. rewrite decide_False by done.
      rewrite (bind_Ok (gets (get_lease (lease_id l))) _ s1 _ s1 eq_refl), Hg.
      rewrite (bind_Ok (some_or_raise (Some _) _) _ s1 _ s1 eq_refl), (bind_Ok _ _ _ _ _ E2). done.
    + apply (Hmiss (leases_projection s)); [|done]. intros l' Hl' [Hid' He]. apply Hexp.
      assert (l = l') as ->; [|done]. apply (NoDup_key_inj lease_id (leases_projection s)); try done. apply Hk.
  - apply (Hmiss (leases_projection s)); [|done]. intros l' Hl' [Hid' _].
    unfold get_lease in E. rewrite tbl_find_None in E. by apply (E l').
Qed.
End Facts.
