(* ===== verification/LeaseProps.v ===== *)
(** * Lease service: properties over whole runs

    Runs of the lease service among the other services as a step relation,
    mutual exclusion, fencing, exact behaviour of the operations, replay, and
    the contracts that authorize actions. *)

From S2P Require Import Prelude KernelModels StateMachine Storage Journal ProcessService LeaseService LeaseFacts.

Section Runs.
Context `{UuidSource}.

(** One step of a kernel as the lease tables see it: a lease operation, the
    passage of time, a process transition, or an event of another service. *)
Inductive lease_step : KState -> KState -> Prop :=
| step_acquire pid claims ttl s : lease_step s (atomic_acquire pid claims ttl s).2
| step_release ids s : lease_step s (release ids s).2
| step_release_all pid s : lease_step s (release_all_for_pid pid s).2
| step_renew lid ttl s : lease_step s (renew lid ttl s).2
| step_reclaim cutoff s : lease_step s (reclaim_expired cutoff s).2
| step_remove_waiter pid r s : lease_step s (remove_waiter pid r s).2
| step_clear_waiters pid s : lease_step s (clear_waiters_for_pid pid s).2
| step_clock t s : lease_step s (set_clock (fun _ => t) s)
| step_process pid target wc s : lease_step s (transition pid target wc s).2
| step_event pid ty pl s : String.prefix "LEASE_" ty = false -> lease_step s (emit pid ty pl s).2.

(** What a step may do to fences and leases: fences grow; a lease is an old one
    (same identity, owner, mode and token), or a fresh one that either starts a
    newer epoch or joins a shared cohort. *)
Definition lease_core (l : ResourceLease) := (lease_id l, resource_id l, owner_pid l, mode l, fencing_token l).
Definition new_lease_ok (s : KState) (l : ResourceLease) : Prop :=
  (forall t, resource_fencing_tokens s !! resource_id l = Some t -> (t < fencing_token l)%Z) \/
  (mode l = shared /\ exists l0, l0 ∈ leases_projection s /\ resource_id l0 = resource_id l /\
     mode l0 = shared /\ fencing_token l0 = fencing_token l).
Record evolves (s s' : KState) : Prop := {
  ev_fences r t : resource_fencing_tokens s !! r = Some t ->
    exists t', resource_fencing_tokens s' !! r = Some t' /\ (t <= t')%Z;
  ev_leases l' : l' ∈ leases_projection s' ->
    (exists l, l ∈ leases_projection s /\ lease_core l' = lease_core l) \/ new_lease_ok s l' }.

Lemma evolves_sub s s' :
  resource_fencing_tokens s' = resource_fencing_tokens s ->
  (forall l', l' ∈ leases_projection s' -> exists l, l ∈ leases_projection s /\ lease_core l' = lease_core l) ->
  evolves s s'.
Proof. intros Hf Hl. split; rewrite ?Hf; [eauto with lia|]. intros l' Hl'. left. by apply Hl. Qed.
Lemma evolves_same s s' :
  resource_fencing_tokens s' = resource_fencing_tokens s -> leases_projection s' = leases_projection s ->
  evolves s s'.
Proof. intros Hf Hl. apply evolves_sub; [done|]. rewrite Hl. eauto. Qed.

(** A granted lease starts a newer epoch or joins the current cohort; either way
    its token is at least the last one. *)
Lemma granted_new_ok pid now exp s c l :
  leases_ok s -> busy (leases_projection s) c = false -> grants pid now exp s c l ->
  new_lease_ok s l /\
  forall t, resource_fencing_tokens s !! resource_id l = Some t -> (t <= fencing_token l)%Z.
Proof.
  intros Hok Hb (Hr & _ & Hm & Ht & _). unfold new_lease_ok. rewrite Hr, Ht.
  destruct (grant_cases c s Hok Hb) as [[He Hg]|(Hs & Hf & Hall)].
  - rewrite Hg. split; [left|]; intros t ->; cbn; lia.
  - split; [|rewrite Hf; intros t [= <-]; lia].
    destruct (leases_on (claim_resource c) (leases_projection s)) as [|l0 ls] eqn:E.
    + left. unfold granted_token. rewrite E, Hs. intros t ->; cbn; lia.
    + assert (l0 ∈ leases_projection s /\ resource_id l0 = claim_resource c) as [Hl0 Hr0].
      { apply elem_of_leases_on. rewrite E. set_solver. }
      right. split; [congruence|]. exists l0. destruct (Hall l0 Hl0 Hr0). done.
Qed.

Lemma acquire_evolves pid claims ttl s :
  kernel_ok s -> evolves s (atomic_acquire pid claims ttl s).2.
Proof.
  intros Hk. destruct (atomic_acquire_run pid claims ttl s Hk) as (out & s' & E & Hk' & Ho). rewrite E. cbn.
  destruct Ho as [| | | |ls F n evs Hne Hn _ Hfree Hg HF _]; [by apply evolves_same..|].
  assert (forall l, l ∈ ls -> exists c, c ∈ claims /\ grants pid (clock_now s) (clock_now s + ttl)%Z s c l) as Hgl.
  { intros l [i Hi]%list_elem_of_lookup. eapply Forall2_lookup_r in Hi as (c & Hc & Hgc); [|exact Hg].
    exists c. split; [by eapply list_elem_of_lookup_2|done]. }
  split.
  - intros r t Ht. destruct (decide (r ∈ claim_resource <$> claims)) as [Hr|Hr].
    + apply list_elem_of_fmap in Hr as (c & -> & [i Hi]%list_elem_of_lookup).
      eapply Forall2_lookup_l in Hi as Hl; [|exact Hg]. destruct Hl as (l & Hl & Hgc).
      apply list_elem_of_lookup_2 in Hi, Hl.
      destruct (granted_new_ok _ _ _ s c l (proj2 Hk) (Hfree c Hi) Hgc) as [_ Hle].
      exists (fencing_token l). pose proof (proj1 Hgc) as Hrc. rewrite <-Hrc in Ht |- *. split; [|by apply Hle].
      apply (lok_token _ (proj2 Hk')). cbn. set_solver.
    + exists t. split; [|lia]. cbn. by rewrite HF.
  - cbn. intros l' [Hl'|Hl']%elem_of_app; [by left; exists l'|right].
    destruct (Hgl l' Hl') as (c & Hc & Hgc). by eapply granted_new_ok; [apply Hk|apply Hfree|].
Qed.

Lemma lease_step_ok s s' : lease_step s s' -> kernel_ok s -> kernel_ok s' /\ evolves s s'.
Proof.
  destruct 1 as [pid claims ttl s|ids s|pid s|lid ttl s|cutoff s|pid r s|pid s|t s|pid target wc s|pid ty pl s Hty];
    intros Hk.
  - split; [|by apply acquire_evolves].
    destruct (atomic_acquire_run pid claims ttl s Hk) as (out & s' & -> & Hk' & _). done.
  - destruct ids as [|i ids]; [by split; [|apply evolves_same]|].
    destruct (release_run (i :: ids) s Hk) as (rows & evs & -> & Hk' & _); [done|]. split; [done|].
    apply evolves_sub; [done|]. cbn. intros l' [_ Hl']%list_elem_of_filter. eauto.
  - destruct (decide (pid = "")) as [->|Hp]; [by split; [|apply evolves_same]|].
    destruct (release_all_run pid s Hk Hp) as (evs & -> & Hk' & _). split; [done|].
    apply evolves_sub; [done|]. cbn. intros l' [_ Hl']%list_elem_of_filter. eauto.
  - pose proof (renew_run lid ttl s Hk) as Hr.
    destruct (get_lease lid s) as [l|]; [|rewrite Hr; by split; [|apply evolves_same]].
    case_decide; [|rewrite Hr; by split; [|apply evolves_same]].
    destruct Hr as (evs & -> & Hk' & _). split; [done|]. apply evolves_sub; [done|]. cbn.
    intros l' (l0 & Hl0 & H1 & H2 & H3 & H4 & H5)%renew_rows_elem. exists l0. split; [done|].
    unfold lease_core. congruence.
  - destruct (reclaim_run cutoff s Hk) as (evs & -> & Hk' & _). split; [done|].
    apply evolves_sub; [done|]. cbn. intros l' [_ Hl']%list_elem_of_filter. eauto.
  - split; [|by apply evolves_same]. split; [by eapply log_ok_same, Hk|by eapply leases_ok_same, Hk].
  - split; [|by apply evolves_same]. by apply without_waits_ok.
  - split; [|by apply evolves_same]. split; [by eapply log_ok_same, Hk|by eapply leases_ok_same, Hk].
  - pose proof (transition_log_ok pid target wc s (proj1 Hk)) as Hl.
    rewrite transition_run in Hl |- * by apply Hk. destruct (get_process pid s); [|by split; [|apply evolves_same]].
    destruct (apply_process_transition _ _ _) as [[reason pcb']|e]; [|by split; [|apply evolves_same]].
    split; [|by apply evolves_same]. split; [exact Hl|]. apply (leases_ok_same s); [done|done|cbn; lia|apply Hk].
  - rewrite emit_spec by apply Hk. split; [by apply logged_kernel_ok|by apply evolves_same].
Qed.

Lemma lease_run_ok s s' : rtc lease_step s s' -> kernel_ok s -> kernel_ok s'.
Proof. induction 1 as [|s s1 s' Hs _ IH]; [done|]. intros Hk. by apply IH, (lease_step_ok s). Qed.

Lemma fences_monotone s s' r t :
  rtc lease_step s s' -> kernel_ok s -> resource_fencing_tokens s !! r = Some t ->
  exists t', resource_fencing_tokens s' !! r = Some t' /\ (t <= t')%Z.
Proof.
  intros Hr. revert t. induction Hr as [s|s s1 s' Hs _ IH]; intros t Hk Ht; [by exists t; split; [|lia]|].
  destruct (lease_step_ok s s1 Hs Hk) as [Hk1 He]. destruct (ev_fences _ _ He r t Ht) as (t1 & Ht1 & Hle).
  destruct (IH t1 Hk1 Ht1) as (t' & Ht' & Hle'). exists t'. split; [done|lia].
Qed.

(** How a lease of a later state relates to a lease [l] of an earlier one. *)
Definition succeeds (l l' : ResourceLease) : Prop :=
  lease_core l' = lease_core l \/ (fencing_token l < fencing_token l')%Z \/ (mode l = shared /\ mode l' = shared).

Lemma lease_succession s s' l :
  rtc lease_step s s' -> kernel_ok s -> l ∈ leases_projection s ->
  forall l', l' ∈ leases_projection s' -> resource_id l' = resource_id l -> succeeds l l'.
Proof.
  intros Hr Hk Hl. pose proof (lok_token s (proj2 Hk) l Hl) as Ht.
  revert s' Hr. refine (rtc_ind_r _ s _ _); [|intros s1 s2 Hr1 Hs IH]; intros l' Hl' Hres.
  - unfold succeeds. destruct (decide (lease_id l' = lease_id l)) as [Hid|Hid].
    + left. f_equal. assert (l' = l) as ->; [|done].
      apply (NoDup_key_inj lease_id (leases_projection s)); try done. apply Hk.
    + right; right. by destruct (lok_excl s (proj2 Hk) l l' Hl Hl' (eq_sym Hres)).
  - pose proof (lease_run_ok s s1 Hr1 Hk) as Hk1.
    destruct (fences_monotone s s1 _ _ Hr1 Hk Ht) as (t1 & Ht1 & Hle).
    destruct (lease_step_ok s1 s2 Hs Hk1) as [_ He].
    destruct (ev_leases _ _ He l' Hl') as [(l1 & Hl1 & Hc)|[Hnew|(Hm & l0 & Hl0 & Hr0 & Hm0 & Ht0)]].
    + assert (resource_id l1 = resource_id l) as Hr1' by (unfold lease_core in Hc; congruence).
      specialize (IH l1 Hl1 Hr1'). unfold succeeds, lease_core in *.
      injection Hc as Ha Hb Hcc Hd Hee. rewrite Ha, Hb, Hcc, Hd, Hee. exact IH.
    + right; left. rewrite Hres in Hnew. specialize (Hnew t1 Ht1). lia.
    + destruct (IH l0 Hl0 ltac:(congruence)) as [Hc|[Hlt|[Hs1 _]]]; unfold succeeds.
      * right; right. unfold lease_core in Hc. split; congruence.
      * right; left. lia.
      * by right; right.
Qed.

(** ** Replay *)

Definition fences_below (m m' : gmap string Z) : Prop :=
  forall r t, m !! r = Some t -> exists t', m' !! r = Some t' /\ (t <= t')%Z.
(** The replay starts from the fences [T] kept by the rebuild: it reproduces the
    leases and leaves [T] as long as [T] is not behind. *)
Definition same_leases (T : gmap string Z) (s r : KState) : Prop :=
  leases_projection r = leases_projection s /\
  (fences_below (resource_fencing_tokens s) T -> resource_fencing_tokens r = T).
Abbreviation lease_replays T := (replays handle_event (same_leases T)).

Lemma fences_below_trans m1 m2 m3 : fences_below m1 m2 -> fences_below m2 m3 -> fences_below m1 m3.
Proof.
  intros H1 H2 r t Ht. destruct (H1 r t Ht) as (t2 & Ht2 & ?). destruct (H2 r t2 Ht2) as (t3 & ? & ?).
  exists t3. split; [done|lia].
Qed.

Definition lease_event_types : list string :=
  ["LEASE_ACQUIRED"; "LEASE_RELEASED"; "LEASE_EXPIRED"; "LEASE_RENEWED"].
Lemma handle_other_lease_event ev r :
  event_type ev ∉ lease_event_types -> handle_event ev r = (Ok tt, r).
Proof.
  intros Hp. unfold handle_event, lease_event_types in *.
  destruct (String.eqb_spec (event_type ev) "LEASE_ACQUIRED"); [set_solver|].
  destruct (String.eqb_spec (event_type ev) "LEASE_RELEASED"); [set_solver|].
  destruct (String.eqb_spec (event_type ev) "LEASE_EXPIRED"); [set_solver|].
  destruct (String.eqb_spec (event_type ev) "LEASE_RENEWED"); [set_solver|done].
Qed.
Lemma other_prefix ty : String.prefix "LEASE_" ty = false -> ty ∉ lease_event_types.
Proof. intros Hp Hin. unfold lease_event_types in Hin. set_unfold. naive_solver. Qed.

(** Replaying the deletion of a lease. *)
Lemma handle_delete_event ev r lid :
  event_type ev = "LEASE_RELEASED" \/ event_type ev = "LEASE_EXPIRED" ->
  req as_str "lease_id" (payload ev) = Some lid ->
  handle_event ev r = (Ok tt, drop_leases [lid] r).
Proof.
  intros Hty Hp. unfold handle_event.
  assert (String.eqb (event_type ev) "LEASE_ACQUIRED" = false /\
          String.eqb (event_type ev) "LEASE_RELEASED" || String.eqb (event_type ev) "LEASE_EXPIRED" = true)
    as [-> ->] by (by destruct Hty as [->| ->]).
  rewrite Hp. run_m. unfold transaction. f_equal. apply set_leases_ext. unfold tbl_delete.
  apply filter_ext_in. set_solver.
Qed.

Lemma handle_deletes rows evs s r :
  Forall2 (ev_of s) (released_event <$> rows) evs ->
  for_each handle_event evs r = (Ok tt, drop_leases (lease_id <$> rows) r).
Proof.
  revert evs r. induction rows as [|l rows IH]; intros evs r Hf; cbn in Hf.
  - apply Forall2_nil_inv_l in Hf as ->. cbn. by rewrite drop_nil.
  - apply Forall2_cons_inv_l in Hf as (ev & evs' & (Hp & Hty & Hpl & _) & Hf & ->). cbn [for_each].
    rewrite (bind_Ok _ _ _ _ _ (handle_delete_event ev r (lease_id l) (or_introl Hty) ltac:(by rewrite Hpl))).
    rewrite (IH evs' _ Hf). cbn [fmap list_fmap]. by rewrite drop_cons.
Qed.

Lemma handle_expiries rows evs s r :
  Forall2 (ev_of s) (rows ≫= fun l => [released_event l; expired_event l]) evs ->
  for_each handle_event evs r = (Ok tt, drop_leases (lease_id <$> rows) r).
Proof.
  revert evs r. induction rows as [|l rows IH]; intros evs r Hf; cbn in Hf.
  - apply Forall2_nil_inv_l in Hf as ->. cbn. by rewrite drop_nil.
  - apply Forall2_cons_inv_l in Hf as (ev & evs' & (_ & Hty & Hpl & _) & Hf & ->).
    apply Forall2_cons_inv_l in Hf as (ev2 & evs2 & (_ & Hty2 & Hpl2 & _) & Hf & ->). cbn [for_each].
    rewrite (bind_Ok _ _ _ _ _ (handle_delete_event ev r (lease_id l) (or_introl Hty) ltac:(by rewrite Hpl))).
    rewrite (bind_Ok _ _ _ _ _ (handle_delete_event ev2 _ (lease_id l) (or_intror Hty2) ltac:(by rewrite Hpl2))).
    rewrite (IH evs2 _ Hf), drop_cons, drop_cons. f_equal. cbn [fmap list_fmap].
    apply set_leases_ext, filter_ext_in. set_solver.
Qed.

Lemma raise_fence_id r tok t T : T !! r = Some t -> (tok <= t)%Z -> raise_fence r tok T = T.
Proof. intros Ht Hle. unfold raise_fence. rewrite Ht. rewrite Z.max_l by done. by apply insert_id. Qed.

(** Replaying acquisitions appends the same leases. *)
Lemma handle_acquires ls evs s pid r :
  Forall2 (ev_of s) ((fun l => (pid, "LEASE_ACQUIRED", lease_dump l)) <$> ls) evs ->
  NoDup (lease_id <$> leases_projection r ++ ls) -> Forall (fun l => (0 <= fencing_token l)%Z) ls ->
  exists r', for_each handle_event evs r = (Ok tt, r') /\
    leases_projection r' = leases_projection r ++ ls /\
    forall T, resource_fencing_tokens r = T ->
      (forall l, l ∈ ls -> exists t, T !! resource_id l = Some t /\ (fencing_token l <= t)%Z) ->
      resource_fencing_tokens r' = T.
Proof.
  revert evs r. induction ls as [|l ls IH]; intros evs r Hf Hn Hpos; cbn in Hf.
  - apply Forall2_nil_inv_l in Hf as ->. exists r. by rewrite app_nil_r.
  - apply Forall2_cons_inv_l in Hf as (ev & evs' & (_ & Hty & Hpl & _) & Hf & ->).
    apply Forall_cons in Hpos as [Hp Hpos]. cbn [for_each].
    set (r1 := set_fences (raise_fence (resource_id l) (fencing_token l))
                 (set_leases (tbl_replace lease_id l) (set_uuid N.succ r))).
    assert (handle_event ev r = (Ok tt, r1)) as E1.
    { unfold handle_event. cbn in Hty, Hpl. rewrite Hty. cbn [String.eqb Ascii.eqb Bool.eqb].
      unfold fresh_uuid. run_m. rewrite Hpl, lease_roundtrip by done. done. }
    assert (leases_projection r1 = leases_projection r ++ [l]) as Hl1.
    { cbn. unfold tbl_replace. rewrite filter_all; [done|]. intros l' Hl' Heq.
      rewrite fmap_app in Hn. apply NoDup_app in Hn as (_ & Hd & _).
      apply (Hd (lease_id l')); [by apply list_elem_of_fmap_2|]. cbn. rewrite Heq. set_solver. }
    rewrite (bind_Ok _ _ _ _ _ E1). destruct (IH evs' r1 Hf) as (r' & E & Hl & HT); [|done|].
    { by rewrite Hl1, <-app_assoc. }
    exists r'. split; [done|]. split; [by rewrite Hl, Hl1, <-app_assoc|].
    intros T HrT Hall. apply HT; [|intros l' Hl'; apply Hall; set_solver].
    cbn. rewrite HrT. destruct (Hall l ltac:(set_solver)) as (t & Ht & Hle). by eapply raise_fence_id.
Qed.

Lemma lease_silent T s s' :
  journal_events s' = journal_events s -> (log_ok s -> log_ok s') ->
  leases_projection s' = leases_projection s ->
  resource_fencing_tokens s' = resource_fencing_tokens s -> lease_replays T s s'.
Proof.
  intros Hj Hlog Hl Hf. apply replays_silent; [done|done|]. intros r [Hr HT].
  split; [by rewrite Hl|by rewrite Hf].
Qed.

(** A step that only deletes leases and journals the deletions. *)
Lemma lease_deletion T s s' evs ids :
  log_ok s' -> journal_events s' = journal_events s ++ evs ->
  leases_projection s' = leases_projection (drop_leases ids s) ->
  resource_fencing_tokens s' = resource_fencing_tokens s ->
  (forall r, leases_projection r = leases_projection s -> exists r', for_each handle_event evs r = (Ok tt, r') /\
     leases_projection r' = leases_projection (drop_leases ids s) /\
     resource_fencing_tokens r' = resource_fencing_tokens r) ->
  lease_replays T s s'.
Proof.
  intros Hlog Hj Hl Hf Hr _. split; [done|]. exists evs. split; [done|]. intros r [Hrl HrT].
  destruct (Hr r Hrl) as (r' & E & Hl' & Hf'). exists r'. split; [done|]. split; [by rewrite Hl, Hl'|].
  rewrite Hf, Hf'. exact HrT.
Qed.

Lemma acquire_replays T pid claims ttl s :
  kernel_ok s -> lease_replays T s (atomic_acquire pid claims ttl s).2.
Proof.
  intros Hk. pose proof (acquire_evolves pid claims ttl s Hk) as Hev.
  destruct (atomic_acquire_run pid claims ttl s Hk) as (out & s' & E & Hk' & Ho). rewrite E in *. cbn in *.
  destruct Ho as [_|r _|c rest _ _ _|c ev _ _ _ _ Hty _|ls F n evs Hne Hn _ Hfree Hg HF He].
  - apply lease_silent; try done. by apply log_ok_same.
  - reflexivity.
  - reflexivity.
  - intros _. split; [apply Hk'|]. exists [ev]. split; [done|]. intros r Hr. exists r. split; [|exact Hr].
    cbn [for_each]. rewrite (bind_Ok _ _ _ _ _ (handle_other_lease_event ev r ltac:(rewrite Hty; set_solver))). done.
  - intros _. split; [apply Hk'|]. exists evs. split; [done|]. intros r [Hrl HrT].
    destruct (handle_acquires ls evs s pid r He) as (r' & E2 & Hl2 & HT2).
    { rewrite Hrl. apply (lok_ids _ (proj2 Hk')). }
    { apply Forall_forall. intros l Hl.
      assert (0 < fencing_token l)%Z; [|lia]. eapply (lok_pos _ (proj2 Hk')).
      apply (lok_token _ (proj2 Hk')). cbn. set_solver. }
    exists r'. split; [done|]. split; [by rewrite Hl2, Hrl|]. intros Hb. apply HT2.
    + apply HrT. eapply fences_below_trans; [|exact Hb]. intros x t Hx. by apply (ev_fences _ _ Hev).
    + intros l Hl. apply Hb. apply (lok_token _ (proj2 Hk')). cbn. set_solver.
Qed.

Lemma drop_leases_of ids s r :
  leases_projection r = leases_projection s ->
  leases_projection (drop_leases ids r) = leases_projection (drop_leases ids s).
Proof. intros Hr. cbn. by rewrite Hr. Qed.

(** Only the ids of live leases matter to a deletion. *)
Lemma drop_rows ids rows s :
  (forall l, l ∈ rows <-> l ∈ leases_projection s /\ lease_id l ∈ ids) ->
  leases_projection (drop_leases (lease_id <$> rows) s) = leases_projection (drop_leases ids s).
Proof.
  intros Hin. apply filter_ext_in. intros l Hl. rewrite list_elem_of_fmap. split.
  - intros Hn Hid. apply Hn. exists l. split; [done|]. by apply Hin.
  - intros Hn (l' & He & Hl'%Hin). apply Hn. rewrite He. apply Hl'.
Qed.

Lemma renewed_replay lid now t T s evs l r :
  leases_ok s -> get_lease lid s = Some l -> (now < expires_at l)%Z ->
  Forall2 (ev_of s) [renewed_event (lease_set_expiry l t) t] evs ->
  same_leases T s r ->
  exists r', for_each handle_event evs r = (Ok tt, r') /\
    same_leases T (set_leases (renew_rows lid now t) s) r'.
Proof.
  intros Hok Hg Hexp Hf [Hrl HrT]. apply get_lease_Some in Hg as [Hid Hl].
  apply Forall2_cons_inv_l in Hf as (ev & evs' & (_ & Hty & Hpl & _) & Hf & ->).
  apply Forall2_nil_inv_l in Hf as ->. cbn in Hty, Hpl.
  exists (set_leases (tbl_update lease_id (fun l => lease_set_expiry l t) (lease_id l)) r). split.
  - cbn [for_each]. erewrite bind_Ok; [done|]. unfold handle_event. rewrite Hty, Hpl. done.
  - split; [|exact HrT]. cbn. rewrite Hrl. unfold tbl_update, renew_rows. apply list_fmap_ext.
    intros i l' Hl'%list_elem_of_lookup_2. rewrite <-Hid.
    destruct (decide (lease_id l' = lease_id l)) as [Heq|Heq]; [|by rewrite decide_False by tauto].
    assert (l' = l) as -> by (apply (NoDup_key_inj lease_id (leases_projection s)); try done; apply Hok).
    by rewrite decide_True.
Qed.

Lemma lease_step_replays T s s' : lease_step s s' -> kernel_ok s -> lease_replays T s s'.
Proof.
  intros Hs. destruct Hs as [pid claims ttl s|ids s|pid s|lid ttl s|cutoff s|pid r s|pid s|t s|pid target wc s|pid ty pl s Hty];
    intros Hk.
  - by apply acquire_replays.
  - destruct ids as [|i ids]; [reflexivity|].
    destruct (release_run (i :: ids) s Hk) as (rows & evs & -> & Hk' & _ & Hin & He); [done|].
    apply (lease_deletion T _ _ evs (i :: ids)); [apply Hk'|done..|]. intros r Hr.
    eexists. split; [by eapply handle_deletes|]. split; [|done].
    rewrite (drop_leases_of _ s r Hr). by apply drop_rows.
  - destruct (decide (pid = "")) as [->|Hp]; [reflexivity|].
    destruct (release_all_run pid s Hk Hp) as (evs & -> & Hk' & He).
    pose proof (drop_filter (fun l => owner_pid l = pid) s (proj2 Hk)) as Hd.
    apply (lease_deletion T _ _ evs (lease_id <$> list_leases_for_pid pid s)); [apply Hk'|done| |done|].
    + unfold list_leases_for_pid. by rewrite Hd.
    + intros r Hr. eexists. split; [by eapply handle_deletes|]. split; [|done]. by apply drop_leases_of.
  - pose proof (renew_run lid ttl s Hk) as Hr.
    destruct (get_lease lid s) as [l|] eqn:El; [|rewrite Hr; reflexivity].
    case_decide as Hexp; [|rewrite Hr; reflexivity].
    destruct Hr as (evs & -> & Hk' & _ & He). intros _. split; [apply Hk'|]. exists evs. split; [done|].
    intros r Hr. destruct (renewed_replay lid _ _ T s evs l r (proj2 Hk) El Hexp He Hr) as (r' & E & Hsim).
    by exists r'.
  - destruct (reclaim_run cutoff s Hk) as (evs & -> & Hk' & He).
    pose proof (drop_filter (fun l => (expires_at l <= cutoff)%Z) s (proj2 Hk)) as Hd.
    apply (lease_deletion T _ _ evs (lease_id <$> filter (fun l => (expires_at l <= cutoff)%Z) (leases_projection s)));
      [apply Hk'|done|by rewrite Hd|done|].
    intros r Hr. eexists. split; [by eapply handle_expiries|]. split; [|done]. by apply drop_leases_of.
  - apply lease_silent; try done. by apply log_ok_same.
  - apply lease_silent; try done. by apply log_ok_same.
  - apply lease_silent; try done. by apply log_ok_same.
  - pose proof (transition_log_ok pid target wc s (proj1 Hk)) as Hl.
    rewrite transition_run in Hl |- * by apply Hk. destruct (get_process pid s); [|reflexivity].
    destruct (apply_process_transition _ _ _) as [[reason pcb']|e]; [|reflexivity].
    eapply (replays_one _ _ s pid _ _ (clock_now s)); [intros _; split; [reflexivity|exact Hl]|].
    intros r Hr. exists r. split; [|exact Hr]. apply handle_other_lease_event, other_prefix. by destruct target.
  - rewrite emit_spec by apply Hk.
    eapply (replays_one _ _ s pid ty pl (clock_now s)); [intros Hs; split; [reflexivity|by apply logged_ok]|].
    intros r Hr. exists r. split; [|exact Hr]. by apply handle_other_lease_event, other_prefix.
Qed.

Lemma lease_run_replays T s s' : rtc lease_step s s' -> kernel_ok s -> lease_replays T s s'.
Proof.
  induction 1 as [|s s1 s' Hs _ IH]; intros Hk; [reflexivity|].
  transitivity s1; [by apply lease_step_replays|]. apply IH. by apply (lease_step_ok s).
Qed.

(** ** Contracts *)

Lemma contract_leases_inl pid ids now s ls :
  contract_leases pid ids now s = inl ls ->
  Forall2 (fun id l => get_lease id s = Some l /\ owner_pid l = pid /\ (now < expires_at l)%Z) ids ls.
Proof.
  revert ls. induction ids as [|id ids IH]; intros ls; cbn; [intros [= <-]; constructor|].
  destruct (get_lease id s) as [l|] eqn:E; [|done].
  destruct (String.eqb_spec (owner_pid l) pid); [|done]. cbn.
  destruct (Z.leb_spec (expires_at l) now); [done|].
  destruct (contract_leases pid ids now s) as [ls'|]; [|done]. intros [= <-]. constructor; [done|by apply IH].
Qed.

(** A valid contract: the leases behind the ids, live, owned, and one per claim. *)
Lemma validate_action_contract_true pid claims ids now s :
  (validate_action_contract pid claims ids now s).1 = true ->
  exists ls, Forall2 (fun id l => get_lease id s = Some l /\ owner_pid l = pid /\ (now < expires_at l)%Z) ids ls /\
    lease_key <$> ls ≡ₚ claim_key <$> claims.
Proof.
  unfold validate_action_contract. destruct claims as [|c claims].
  - destruct ids; [|done]. intros _. exists []. split; [constructor|done].
  - case_decide; [done|]. destruct (contract_leases pid ids now s) as [ls|] eqn:E; [|done].
    case_decide as Hp; [|done]. intros _. exists ls. split; [by apply contract_leases_inl|].
    by rewrite <-(sort_on_perm id (lease_key <$> ls)), Hp, sort_on_perm.
Qed.

Lemma check_tokens_true ids tokens s :
  (check_tokens ids tokens s).1 = true ->
  forall id l, id ∈ ids -> get_lease id s = Some l ->
    assoc (resource_id l) tokens = Some (fencing_token l) /\
    resource_fencing_tokens s !! resource_id l = Some (fencing_token l).
Proof.
  induction ids as [|i ids IH]; cbn; [set_solver|].
  destruct (get_lease i s) as [l0|] eqn:E; [|done]. case_decide as H1; [done|]. case_decide as H2; [done|].
  intros Hc id l [->|Hid]%elem_of_cons Hl; [|by eapply IH].
  simplify_eq. split; congruence.
Qed.

Lemma assoc_dict_set k k' (v : Z) d :
  assoc k' (dict_set k v d) = if decide (k' = k) then Some v else assoc k' d.
Proof.
  induction d as [|[k0 v0] d IH]; cbn; [done|].
  destruct (String.eqb_spec k k0) as [->|Hne]; cbn; [by case_decide|].
  rewrite IH. destruct (decide (k' = k0)) as [->|]; [by rewrite decide_False|done].
Qed.
Lemma dict_set_keys k (v : Z) d :
  list_to_set (dict_set k v d).*1 = ({[k]} ∪ list_to_set d.*1 : gset string).
Proof.
  induction d as [|[k0 v0] d IH]; cbn; [done|].
  destruct (String.eqb_spec k k0) as [->|Hne]; cbn; [set_solver|]. rewrite IH. set_solver.
Qed.

(** The captured dict maps each leased resource to its lease's token. *)
Lemma capture_tokens_spec ids ls out s :
  Forall2 (fun id l => get_lease id s = Some l) ids ls -> NoDup (resource_id <$> ls) ->
  exists toks, capture_tokens ids out s = Some toks /\
    (forall l, l ∈ ls -> assoc (resource_id l) toks = Some (fencing_token l)) /\
    (forall r, r ∉ resource_id <$> ls -> assoc r toks = assoc r out) /\
    list_to_set toks.*1 = (list_to_set (resource_id <$> ls) ∪ list_to_set out.*1 : gset string).
Proof.
  intros Hf. revert out. induction Hf as [|id l ids ls Hg _ IH]; intros out Hn.
  - exists out. split_and!; [done|set_solver|done|set_solver].
  - cbn in Hn. apply NoDup_cons in Hn as [Hni Hn].
    destruct (IH (dict_set (resource_id l) (fencing_token l) out) Hn) as (toks & E & H1 & H2 & H3).
    exists toks. cbn. rewrite Hg. split_and!; [exact E| | |].
    + intros l' [->|Hl']%elem_of_cons; [|by apply H1]. rewrite H2 by done.
      rewrite assoc_dict_set. by rewrite decide_True.
    + intros r Hr. cbn in Hr. rewrite H2 by set_solver. rewrite assoc_dict_set. rewrite decide_False; [done|set_solver].
    + rewrite H3, dict_set_keys. set_solver.
Qed.

Lemma check_tokens_complete ids ls toks s :
  leases_ok s -> Forall2 (fun id l => get_lease id s = Some l) ids ls ->
  (forall l, l ∈ ls -> assoc (resource_id l) toks = Some (fencing_token l)) ->
  check_tokens ids toks s = (true, None).
Proof.
  intros Hok Hf. induction Hf as [|id l ids ls Hg _ IH]; intros Ha; [done|]. cbn. rewrite Hg.
  assert (assoc (resource_id l) toks = Some (fencing_token l)) as Hl by (apply Ha; set_solver).
  apply get_lease_Some in Hg as [_ Hin]. pose proof (lok_token s Hok l Hin) as Ht.
  rewrite (decide_False (P := assoc _ _ <> _)) by (intros Hn; by apply Hn).
  rewrite (decide_False (P := _ !! _ <> _)) by (intros Hn; apply Hn; congruence).
  apply IH. intros l' Hl'. apply Ha. set_solver.
Qed.

Lemma lease_claim_resources (ls : list ResourceLease) claims :
  lease_key <$> ls ≡ₚ claim_key <$> claims -> resource_id <$> ls ≡ₚ claim_resource <$> claims.
Proof.
  intros Hp. apply (fmap_Permutation fst) in Hp. rewrite <-!list_fmap_compose in Hp. exact Hp.
Qed.
End Runs.

(** The meaning of an accepted contract. *)
Definition claim_held (pid : string) (ids : list string) (tokens : list (string * Z)) (now : Z)
    (s : KState) (c : claim) : Prop :=
  exists l, l ∈ leases_projection s /\ lease_id l ∈ ids /\
    resource_id l = claim_resource c /\ mode l = claim_mode c /\ owner_pid l = pid /\
    (now < expires_at l)%Z /\
    assoc (claim_resource c) tokens = Some (fencing_token l) /\
    resource_fencing_tokens s !! claim_resource c = Some (fencing_token l) /\
    (forall l', l' ∈ leases_projection s -> resource_id l' = claim_resource c -> l' <> l ->
       mode l' = shared /\ claim_mode c = shared).

Lemma contract_claims_held `{UuidSource} pid claims ids tokens now s :
  leases_ok s -> (validate_fencing_contract pid claims ids tokens now s).1 = true ->
  forall c, c ∈ claims -> claim_held pid ids tokens now s c.
Proof.
  intros Hok Hv c Hc. unfold validate_fencing_contract in Hv.
  destruct (validate_action_contract pid claims ids now s).1 eqn:Ha; cbn in Hv; [|congruence].
  destruct (decide _) in Hv; [done|].
  destruct (validate_action_contract_true _ _ _ _ _ Ha) as (ls & Hf & Hp).
  assert (claim_key c ∈ lease_key <$> ls) as (l & Hkey & Hl)%list_elem_of_fmap.
  { rewrite Hp. by apply list_elem_of_fmap_2. }
  apply list_elem_of_lookup in Hl as [i Hi].
  destruct (Forall2_lookup_r _ _ _ _ _ Hf Hi) as (id & Hid & Hg & Hown & Hexp).
  apply list_elem_of_lookup_2 in Hid. destruct (get_lease_Some _ _ _ Hg) as [Hlid Hin].
  destruct (check_tokens_true ids tokens s Hv id l Hid Hg) as [Htok Hfence].
  unfold claim_key, lease_key in Hkey. injection Hkey as Hres Hmode.
  assert (mode l = claim_mode c) as Hm by (by destruct (mode l), (claim_mode c)).
  exists l. rewrite Hres. split_and!; try done; [by rewrite Hlid|].
  intros l' Hl' Hr' Hne. rewrite <-Hm. apply (lok_excl s Hok); [done|done|done|].
  intros Heq. apply Hne. apply (NoDup_key_inj lease_id (leases_projection s)); try done. apply Hok.
Qed.

(** ** Properties *)

(** C1: mutual exclusion.  In every state a run can reach, two different leases on
    one resource are both shared; lease ids are unique; and every live lease
    carries the latest fencing token of its resource, which is positive. *)
Theorem lease_mutual_exclusion `{UuidSource} now s :
  rtc lease_step (init_storage now) s ->
  NoDup (lease_id <$> leases_projection s) /\
  (forall l1 l2, l1 ∈ leases_projection s -> l2 ∈ leases_projection s ->
     resource_id l1 = resource_id l2 -> l1 <> l2 -> mode l1 = shared /\ mode l2 = shared) /\
  (forall l, l ∈ leases_projection s ->
     resource_fencing_tokens s !! resource_id l = Some (fencing_token l) /\ (0 < fencing_token l)%Z).
Proof.
  intros Hr. apply lease_run_ok in Hr as [_ [H1 H2 H3 H4 H5]]; [|apply init_kernel_ok]. split; [done|]. split.
  - intros l1 l2 Hl1 Hl2 Hres Hne. apply H5; try done. intros Hid. apply Hne.
    by apply (NoDup_key_inj lease_id (leases_projection s)).
  - intros l Hl. split; [by apply H3|]. by eapply H4, H3.
Qed.

Definition demo_acquire (pid r : string) (m : lease_mode) : M KState (list ResourceLease) :=
  @atomic_acquire pretty_uuid pid [mkClaim r (Some m)] DEFAULT_LEASE_TTL.

Lemma lease_mutual_exclusion_witness :
  let s1 := (demo_acquire "p1" "R" shared (init_storage 0)).2 in
  let s := (demo_acquire "p2" "R" shared s1).2 in
  (length (leases_projection s) = 2) /\
  forall l1 l2, l1 ∈ leases_projection s -> l2 ∈ leases_projection s ->
    resource_id l1 = resource_id l2 -> l1 <> l2 -> mode l1 = shared /\ mode l2 = shared.
Proof.
  intros s1 s. split; [vm_compute; reflexivity|]. apply (@lease_mutual_exclusion pretty_uuid 0).
  eapply rtc_l; [exact (@step_acquire pretty_uuid "p1" [mkClaim "R" (Some shared)] DEFAULT_LEASE_TTL (init_storage 0))|].
  apply rtc_once.
  exact (@step_acquire pretty_uuid "p2" [mkClaim "R" (Some shared)] DEFAULT_LEASE_TTL s1).
Defined.

(** Acquisition is all-or-nothing.  A request succeeds exactly when it names no
    resource twice, its process is not terminal and no claim conflicts with a
    live lease; then one lease per claim, in order, is added with the requested
    mode and expiry and every wait edge of the process is gone.  Otherwise it
    raises LeaseAcquisitionFailed and neither leases nor fences change. *)
Theorem acquire_all_or_nothing `{UuidSource} pid claims ttl s :
  kernel_ok s -> claims <> [] ->
  exists out s', atomic_acquire pid claims ttl s = (out, s') /\ kernel_ok s' /\
  match out with
  | Ok ls =>
      (NoDup (claim_resource <$> claims) /\ is_terminal pid s = false /\
       forall c, c ∈ claims -> busy (leases_projection s) c = false) /\
      Forall2 (fun c l => resource_id l = claim_resource c /\ mode l = claim_mode c /\ owner_pid l = pid /\
                 expires_at l = (clock_now s + ttl)%Z) claims ls /\
      leases_projection s' = leases_projection s ++ ls /\
      (forall r, (pid, r) ∉ lease_waiters s')
  | Raise e =>
      ~ (NoDup (claim_resource <$> claims) /\ is_terminal pid s = false /\
         forall c, c ∈ claims -> busy (leases_projection s) c = false) /\
      (exists r, e = LeaseAcquisitionFailed pid r /\ r ∈ claim_resource <$> claims) /\
      leases_projection s' = leases_projection s /\
      resource_fencing_tokens s' = resource_fencing_tokens s
  end.
Proof.
  intros Hk Hne. destruct (atomic_acquire_run pid claims ttl s Hk) as (out & s' & E & Hk' & Ho).
  exists out, s'. split; [done|]. split; [done|].
  destruct Ho as [Hc|r Hr|c rest Hc Hn Ht|c ev Hn Ht Hin Hb _ _|ls F n evs _ Hn Ht Hfree Hg HF _]; [done|..].
  - split_and!; [|exists r; split; [done|]|done|done].
    + intros (Hn & _). assert (repeated_resource [] claims = None) as Hx; [|congruence].
      apply repeated_resource_None. split; [done|set_solver].
    + by eapply repeated_resource_in.
  - split_and!; [intros (_ & ? & _); congruence| |done|done]. exists (claim_resource c). split; [done|]. rewrite Hc. cbn. set_solver.
  - split_and!; [| |done|done].
    + intros (_ & _ & Hf). specialize (Hf c Hin). congruence.
    + exists (claim_resource c). split; [done|]. by apply list_elem_of_fmap_2.
  - split_and!; try done.
    + eapply Forall2_impl; [exact Hg|]. intros c l (? & ? & ? & ? & ? & ?). done.
    + cbn. intros r [Hx _]%list_elem_of_filter. done.
Qed.

Lemma acquire_all_or_nothing_witness :
  let s := (demo_acquire "p1" "R" exclusive (init_storage 0)).2 in
  let claims := [mkClaim "Q" None; mkClaim "R" (Some shared)] in
  exists out s', @atomic_acquire pretty_uuid "p2" claims 7 s = (out, s') /\ @kernel_ok pretty_uuid s' /\
  match out with
  | Ok ls =>
      (NoDup (claim_resource <$> claims) /\ is_terminal "p2" s = false /\
       forall c, c ∈ claims -> busy (leases_projection s) c = false) /\
      Forall2 (fun c l => resource_id l = claim_resource c /\ mode l = claim_mode c /\ owner_pid l = "p2" /\
                 expires_at l = (clock_now s + 7)%Z) claims ls /\
      leases_projection s' = leases_projection s ++ ls /\
      (forall r, ("p2", r) ∉ lease_waiters s')
  | Raise e =>
      ~ (NoDup (claim_resource <$> claims) /\ is_terminal "p2" s = false /\
         forall c, c ∈ claims -> busy (leases_projection s) c = false) /\
      (exists r, e = LeaseAcquisitionFailed "p2" r /\ r ∈ claim_resource <$> claims) /\
      leases_projection s' = leases_projection s /\
      resource_fencing_tokens s' = resource_fencing_tokens s
  end.
Proof.
  apply (@acquire_all_or_nothing pretty_uuid); [|done].
  apply (@lease_run_ok pretty_uuid (init_storage 0)); [|apply (@init_kernel_ok pretty_uuid)].
  apply rtc_once. exact (@step_acquire pretty_uuid "p1" [mkClaim "R" (Some exclusive)] DEFAULT_LEASE_TTL _).
Defined.

(** Fencing.  Along any run the fencing token of a resource never decreases,
    and a lease that replaced another one, where one of the two was exclusive,
    has a strictly larger token: an old holder can always be told from the new. *)
Theorem stale_lease_fenced `{UuidSource} s s' :
  kernel_ok s -> rtc lease_step s s' ->
  (forall r t, resource_fencing_tokens s !! r = Some t ->
     exists t', resource_fencing_tokens s' !! r = Some t' /\ (t <= t')%Z) /\
  (forall l l', l ∈ leases_projection s -> l' ∈ leases_projection s' ->
     resource_id l' = resource_id l -> lease_id l' <> lease_id l ->
     mode l = exclusive \/ mode l' = exclusive -> (fencing_token l < fencing_token l')%Z).
Proof.
  intros Hk Hr. split; [intros r t; by apply fences_monotone|].
  intros l l' Hl Hl' Hres Hid Hm.
  destruct (lease_succession s s' l Hr Hk Hl l' Hl' Hres) as [Hc|[Hlt|[H1 H2]]]; [|done|].
  - unfold lease_core in Hc. congruence.
  - destruct Hm; congruence.
Qed.

Lemma stale_lease_fenced_witness :
  let s1 := (demo_acquire "p1" "R" exclusive (init_storage 0)).2 in
  let s2 := (@release_all_for_pid pretty_uuid "p1" s1).2 in
  let s3 := (demo_acquire "p2" "R" exclusive s2).2 in
  (length (leases_projection s1) = 1 /\ length (leases_projection s3) = 1) /\
  forall l l', l ∈ leases_projection s1 -> l' ∈ leases_projection s3 ->
     resource_id l' = resource_id l -> lease_id l' <> lease_id l ->
     mode l = exclusive \/ mode l' = exclusive -> (fencing_token l < fencing_token l')%Z.
Proof.
  intros s1 s2 s3. split; [split; vm_compute; reflexivity|].
  apply (@stale_lease_fenced pretty_uuid s1 s3).
  - apply (@lease_run_ok pretty_uuid (init_storage 0)); [|apply (@init_kernel_ok pretty_uuid)].
    apply rtc_once. exact (@step_acquire pretty_uuid "p1" [mkClaim "R" (Some exclusive)] DEFAULT_LEASE_TTL _).
  - eapply rtc_l; [exact (@step_release_all pretty_uuid "p1" s1)|]. apply rtc_once.
    exact (@step_acquire pretty_uuid "p2" [mkClaim "R" (Some exclusive)] DEFAULT_LEASE_TTL s2).
Defined.

(** Process cleanup is complete.  [release_all_for_pid] always succeeds for a
    real pid, leaves the process with no lease and no wait edge, keeps everything
    of the others, and journals exactly one LEASE_RELEASED event per lease it
    removed, whose number it returns. *)
Theorem release_all_complete `{UuidSource} pid s :
  kernel_ok s -> pid <> "" ->
  exists evs s', release_all_for_pid pid s = (Ok (length (list_leases_for_pid pid s)), s') /\ kernel_ok s' /\
    list_leases_for_pid pid s' = [] /\ (forall r, (pid, r) ∉ lease_waiters s') /\
    (forall pid', pid' <> pid -> list_leases_for_pid pid' s' = list_leases_for_pid pid' s) /\
    (forall w, w.1 <> pid -> w ∈ lease_waiters s' <-> w ∈ lease_waiters s) /\
    journal_events s' = journal_events s ++ evs /\
    Forall2 (fun l ev => event_type ev = "LEASE_RELEASED" /\ payload ev = released_payload l)
      (list_leases_for_pid pid s) evs.
Proof.
  intros Hk Hp. destruct (release_all_run pid s Hk Hp) as (evs & E & Hk' & He).
  eexists evs, _. split; [exact E|]. split; [exact Hk'|]. split_and!.
  - cbn. unfold list_leases_for_pid. cbn. rewrite filter_filter. apply filter_none. tauto.
  - cbn. by intros r [Hx _]%list_elem_of_filter.
  - intros pid' Hne. unfold list_leases_for_pid. cbn. rewrite filter_filter. apply filter_ext_in.
    intros l _. split; [tauto|]. intros ->. done.
  - intros w Hw. cbn. rewrite list_elem_of_filter. tauto.
  - done.
  - rewrite Forall2_fmap_l in He. eapply Forall2_impl; [exact He|]. by intros l ev (_ & ? & ? & _).
Qed.

Lemma release_all_complete_witness :
  let s := (demo_acquire "p1" "R" exclusive (init_storage 0)).2 in
  exists evs s', @release_all_for_pid pretty_uuid "p1" s = (Ok (length (list_leases_for_pid "p1" s)), s') /\
    @kernel_ok pretty_uuid s' /\
    list_leases_for_pid "p1" s' = [] /\ (forall r, ("p1", r) ∉ lease_waiters s') /\
    (forall pid', pid' <> "p1" -> list_leases_for_pid pid' s' = list_leases_for_pid pid' s) /\
    (forall w, w.1 <> "p1" -> w ∈ lease_waiters s' <-> w ∈ lease_waiters s) /\
    journal_events s' = journal_events s ++ evs /\
    Forall2 (fun l ev => event_type ev = "LEASE_RELEASED" /\ payload ev = released_payload l)
      (list_leases_for_pid "p1" s) evs.
Proof.
  apply (@release_all_complete pretty_uuid); [|done].
  apply (@lease_run_ok pretty_uuid (init_storage 0)); [|apply (@init_kernel_ok pretty_uuid)].
  apply rtc_once. exact (@step_acquire pretty_uuid "p1" [mkClaim "R" (Some exclusive)] DEFAULT_LEASE_TTL _).
Defined.

(** Reclamation against renewal.  [reclaim_expired] removes exactly the leases
    expired at the cutoff; a reclaimed lease cannot be renewed any more, while a
    surviving lease is renewed iff it has not expired on the clock, and renewal
    changes nothing but its expiry. *)
Theorem reclaim_then_renew `{UuidSource} cutoff lid ttl s :
  kernel_ok s ->
  exists n s', reclaim_expired cutoff s = (Ok n, s') /\ kernel_ok s' /\
    (forall l, l ∈ leases_projection s' <-> l ∈ leases_projection s /\ (cutoff < expires_at l)%Z) /\
    n + length (leases_projection s') = length (leases_projection s) /\
    match get_lease lid s with
    | Some l =>
        if decide (cutoff < expires_at l /\ clock_now s < expires_at l)%Z
        then exists s'', renew lid ttl s' = (Ok (Some (lease_set_expiry l (clock_now s + ttl)%Z)), s'') /\
               get_lease lid s'' = Some (lease_set_expiry l (clock_now s + ttl)%Z) /\
               forall lid', lid' <> lid -> get_lease lid' s'' = get_lease lid' s'
        else renew lid ttl s' = (Ok None, s')
    | None => renew lid ttl s' = (Ok None, s')
    end.
Proof.
  intros Hk. destruct (reclaim_run cutoff s Hk) as (evs & E & Hk' & He).
  set (s' := published _ evs) in E, Hk'. eexists _, s'. split; [exact E|]. split; [done|].
  assert (forall id, get_lease id s' = match get_lease id s with
            | Some l => if decide (~ (expires_at l <= cutoff)%Z) then Some l else None | None => None end) as Hg.
  { intros id. apply tbl_find_filter. apply Hk. }
  split_and!.
  - intros l. cbn. rewrite list_elem_of_filter. rewrite Z.nle_gt. tauto.
  - cbn. apply filter_length_split.
  - pose proof (renew_run lid ttl s' Hk') as Hr. rewrite Hg in Hr.
    destruct (get_lease lid s) as [l|]; [|done]. change (clock_now s') with (clock_now s) in Hr.
    destruct (decide (~ (expires_at l <= cutoff)%Z)) as [Hc|Hc]; [|rewrite decide_False by lia; done].
    destruct (decide (clock_now s < expires_at l)%Z); [|rewrite decide_False by lia; done].
    rewrite decide_True by lia. destruct Hr as (evs2 & E2 & _ & Hg2 & _).
    eexists. split; [exact E2|]. split; [exact Hg2|]. intros lid' Hne. apply renew_rows_other. done.
Qed.

Lemma reclaim_then_renew_witness :
  let s := (demo_acquire "p1" "R" exclusive (init_storage 0)).2 in
  exists n s', @reclaim_expired pretty_uuid DEFAULT_LEASE_TTL s = (Ok n, s') /\ @kernel_ok pretty_uuid s' /\
    (forall l, l ∈ leases_projection s' <-> l ∈ leases_projection s /\ (DEFAULT_LEASE_TTL < expires_at l)%Z) /\
    n + length (leases_projection s') = length (leases_projection s) /\
    @renew pretty_uuid "uuid-0" 5 s' = (Ok None, s').
Proof.
  apply (@reclaim_then_renew pretty_uuid DEFAULT_LEASE_TTL "uuid-0" 5).
  apply (@lease_run_ok pretty_uuid (init_storage 0)); [|apply (@init_kernel_ok pretty_uuid)].
  apply rtc_once. exact (@step_acquire pretty_uuid "p1" [mkClaim "R" (Some exclusive)] DEFAULT_LEASE_TTL _).
Defined.

(** Leases are rebuilt from the journal.  After any run from an empty database
    a rebuild gives back exactly the live lease rows, in order, with their tokens
    and renewed expiries, and leaves the fences as they were. *)
Theorem replay_leases `{UuidSource} now s :
  rtc lease_step (init_storage now) s ->
  exists r, rebuild_projections [handle_event] s = (Ok (length (journal_events s)), r) /\
    leases_projection r = leases_projection s /\
    resource_fencing_tokens r = resource_fencing_tokens s.
Proof.
  intros Hr. pose proof (init_kernel_ok now) as Hk.
  destruct (rebuild_replays handle_event (same_leases (resource_fencing_tokens s)) (init_storage now) s)
    as (r & E & Hl & HT).
  - apply Hk.
  - done.
  - by apply lease_run_replays.
  - split; done.
  - exists r. split_and!; [done|done|]. apply HT. intros x t Ht. exists t. split; [done|lia].
Qed.

Lemma replay_leases_witness :
  let s1 := (demo_acquire "p1" "R" exclusive (init_storage 0)).2 in
  let s := (@release_all_for_pid pretty_uuid "p1" s1).2 in
  exists r, rebuild_projections [@handle_event pretty_uuid] s = (Ok (length (journal_events s)), r) /\
    leases_projection r = leases_projection s /\
    resource_fencing_tokens r = resource_fencing_tokens s.
Proof.
  intros s1 s. apply (@replay_leases pretty_uuid 0).
  eapply rtc_l; [exact (@step_acquire pretty_uuid "p1" [mkClaim "R" (Some exclusive)] DEFAULT_LEASE_TTL _)|].
  apply rtc_once. exact (@step_release_all pretty_uuid "p1" s1).
Defined.

(** What a valid fencing contract guarantees.  When [validate_fencing_contract]
    accepts, every claimed resource is held by the process at that moment through
    one of the named leases, in the claimed mode, unexpired, with the contract's
    token, which is the newest one issued; and no other lease on it conflicts. *)
Theorem fencing_contract_sound `{UuidSource} pid claims ids tokens now s :
  leases_ok s -> (validate_fencing_contract pid claims ids tokens now s).1 = true ->
  forall c, c ∈ claims -> exists l, l ∈ leases_projection s /\ lease_id l ∈ ids /\
    resource_id l = claim_resource c /\ mode l = claim_mode c /\ owner_pid l = pid /\
    (now < expires_at l)%Z /\
    assoc (claim_resource c) tokens = Some (fencing_token l) /\
    resource_fencing_tokens s !! claim_resource c = Some (fencing_token l) /\
    (forall l', l' ∈ leases_projection s -> resource_id l' = claim_resource c -> l' <> l ->
       mode l' = shared /\ claim_mode c = shared).
Proof. apply contract_claims_held. Qed.

Lemma fencing_contract_sound_witness :
  let s := (demo_acquire "p1" "R" exclusive (init_storage 0)).2 in
  let c := mkClaim "R" (Some exclusive) in
  exists l, l ∈ leases_projection s /\ lease_id l ∈ ["uuid-0"] /\
    resource_id l = "R" /\ mode l = exclusive /\ owner_pid l = "p1" /\
    (10 < expires_at l)%Z /\ assoc "R" [("R", 1%Z)] = Some (fencing_token l) /\
    resource_fencing_tokens s !! "R" = Some (fencing_token l) /\
    (forall l', l' ∈ leases_projection s -> resource_id l' = "R" -> l' <> l ->
       mode l' = shared /\ claim_mode c = shared).
Proof.
  intros s c. refine (@fencing_contract_sound pretty_uuid "p1" [c] ["uuid-0"] [("R", 1%Z)] 10 s _ _ c _).
  - apply (@lease_run_ok pretty_uuid (init_storage 0)); [|apply (@init_kernel_ok pretty_uuid)].
    apply rtc_once. exact (@step_acquire pretty_uuid "p1" [mkClaim "R" (Some exclusive)] DEFAULT_LEASE_TTL _).
  - vm_compute. reflexivity.
  - by apply list_elem_of_singleton.
Defined.

(** Capture and validate agree.  For claims on distinct resources, a contract
    whose leases are valid can always be captured, and the captured tokens
    validate in the same state. *)
Theorem capture_validates `{UuidSource} pid claims ids now s :
  leases_ok s -> NoDup (claim_resource <$> claims) ->
  (validate_action_contract pid claims ids now s).1 = true ->
  exists tokens, capture_fencing_contract pid claims ids now s = Some tokens /\
    validate_fencing_contract pid claims ids tokens now s = (true, None).
Proof.
  intros Hok Hn Ha. destruct (validate_action_contract_true _ _ _ _ _ Ha) as (ls & Hf & Hp).
  apply lease_claim_resources in Hp.
  assert (Forall2 (fun id l => get_lease id s = Some l) ids ls) as Hf'
    by (eapply Forall2_impl; [exact Hf|]; by intros ?? []).
  destruct (capture_tokens_spec ids ls [] s Hf') as (toks & E & Htok & _ & Hkeys); [by rewrite Hp|].
  exists toks. unfold capture_fencing_contract, validate_fencing_contract. rewrite Ha. split; [done|]. cbn [negb].
  rewrite decide_False; [by eapply check_tokens_complete|].
  intros Hne. apply Hne. rewrite Hkeys. cbn. rewrite union_empty_r_L.
  apply set_eq. intros x. rewrite !elem_of_list_to_set. by rewrite Hp.
Qed.

Lemma capture_validates_witness :
  let s := (demo_acquire "p1" "R" exclusive (init_storage 0)).2 in
  exists tokens, capture_fencing_contract "p1" [mkClaim "R" None] ["uuid-0"] 10 s = Some tokens /\
    validate_fencing_contract "p1" [mkClaim "R" None] ["uuid-0"] tokens 10 s = (true, None).
Proof.
  intros s. apply (@capture_validates pretty_uuid).
  - apply (@lease_run_ok pretty_uuid (init_storage 0)); [|apply (@init_kernel_ok pretty_uuid)].
    apply rtc_once. exact (@step_acquire pretty_uuid "p1" [mkClaim "R" (Some exclusive)] DEFAULT_LEASE_TTL _).
  - apply NoDup_singleton.
  - vm_compute. reflexivity.
Defined.
