(* ===== verification/Graph.v ===== *)
(** * Directed graphs by adjacency

    Chains, simple cycles and finishing orders, shared by the wait-for graph of
    the lease service and the dependency graph of the progress graph. *)

From S2P Require Import Prelude.

Section Graph.
Context (adj : string -> list string).

Definition edge (x y : string) : Prop := y ∈ adj x.

(** Consecutive elements are joined by edges. *)
Inductive chain : list string -> Prop :=
| chain_nil : chain []
| chain_one x : chain [x]
| chain_cons x y l : edge x y -> chain (y :: l) -> chain (x :: y :: l).

(** A simple cycle: a chain without repetition whose last element has an edge to
    the first. *)
Definition is_cycle (c : list string) : Prop :=
  NoDup c /\ chain c /\ exists x y, head c = Some x /\ last c = Some y /\ edge y x.

Definition cyclic : Prop := exists x, tc edge x x.

Lemma chain_app l1 l2 :
  chain (l1 ++ l2) <->
  chain l1 /\ chain l2 /\
  (forall x y, last l1 = Some x -> head l2 = Some y -> edge x y).
Proof.
  induction l1 as [|x l1 IH]; cbn.
  { split; [intros Hc; split_and!; [constructor|done|done]|tauto]. }
  destruct l1 as [|x1 l1]; cbn in *.
  - destruct l2 as [|y l2]; cbn.
    + split; [intros _; split_and!; [constructor..|done]|intros _; constructor].
    + split.
      * inversion 1; subst. split_and!; [constructor|done|]. intros ? ? [= <-] [= <-]. done.
      * intros (_ & Hc & He). constructor; [by apply He|done].
  - split.
    + inversion 1 as [| |? ? ? He Hc]; subst. apply IH in Hc as (H1 & H2 & H3).
      split_and!; [by constructor|done|done].
    + intros (H1 & H2 & H3). inversion H1 as [| |? ? ? He Hc]; subst. constructor; [done|]. by apply IH.
Qed.

Lemma last_app_Some (l1 l2 : list string) x : last l2 = Some x -> last (l1 ++ l2) = Some x.
Proof. intros Hl. rewrite last_app. by rewrite Hl. Qed.

(** Rotating a cycle gives a cycle. *)
Lemma is_cycle_rotate l1 l2 : is_cycle (l1 ++ l2) -> is_cycle (l2 ++ l1).
Proof.
  destruct l1 as [|a l1]; [by rewrite app_nil_r|]. destruct l2 as [|b l2]; [by rewrite app_nil_r|].
  intros (Hn & Hc & x & y & Hx & Hy & He).
  apply chain_app in Hc as (H1 & H2 & H3). split_and!.
  - by rewrite Permutation_app_comm.
  - apply chain_app. split_and!; [done|done|]. intros u v Hu [= <-]. cbn in Hx. simplify_eq.
    rewrite last_app, Hu in Hy. by simplify_eq.
  - destruct (last (a :: l1)) as [z|] eqn:Ez; [|by rewrite last_None in Ez].
    exists b, z. split_and!; [done|by apply last_app_Some|by apply H3].
Qed.

Lemma chain_tc x l y : chain (x :: l) -> last (x :: l) = Some y -> rtc edge x y.
Proof.
  revert x. induction l as [|z l IH]; intros x Hc Hl; [cbn in Hl; by simplify_eq|].
  inversion Hc; subst. eapply rtc_l; [done|]. by apply IH.
Qed.
Lemma cycle_cyclic c : is_cycle c -> cyclic.
Proof.
  intros (_ & Hc & x & y & Hx & Hy & He). destruct c as [|x0 l]; [done|]. cbn in Hx. simplify_eq.
  exists x. eapply tc_rtc_l; [by eapply chain_tc|by apply tc_once].
Qed.

(** A finishing order, newest first: successors finished earlier. *)
Inductive finishing : list string -> Prop :=
| fin_nil : finishing []
| fin_cons v l : v ∉ l -> (forall w, edge v w -> w ∈ l) -> finishing l -> finishing (v :: l).

Lemma finishing_reach l v w : finishing l -> v ∈ l -> tc edge v w -> w ∈ l.
Proof.
  intros Hf. revert v. induction Hf as [|u l Hu Hw Hf IH]; intros v Hv Ht; [set_solver|].
  assert (forall x, x ∈ u :: l -> edge x w \/ (exists y, edge x y /\ tc edge y w) -> w ∈ l) as Hstep.
  { intros x [->|Hx]%elem_of_cons [He|(y & He & Hy)].
    - by apply Hw.
    - apply (IH y); [by apply Hw|done].
    - apply (IH x); [done|by apply tc_once].
    - apply (IH x); [done|]. by eapply tc_l. }
  apply elem_of_cons. right. apply (Hstep v Hv). inversion Ht; subst; [by left|right; eauto].
Qed.

Lemma finishing_acyclic l v : finishing l -> v ∈ l -> ~ tc edge v v.
Proof.
  intros Hf. induction Hf as [|u l Hu Hw Hf IH]; [set_solver|]. intros [->|Hv]%elem_of_cons Ht; [|by apply IH].
  apply Hu. inversion Ht as [? ? He|? y ? He Hy]; subst; [by apply Hw|].
  eapply (finishing_reach l y); [done|by apply Hw|done].
Qed.
End Graph.

(** ** Graphs with the same edges *)

Lemma tc_mono {A} (R Q : A -> A -> Prop) x y : (forall a b, R a b -> Q a b) -> tc R x y -> tc Q x y.
Proof. intros HRQ. induction 1; [apply tc_once; auto|eapply tc_l; eauto]. Qed.
Lemma tc_iff {A} (R Q : A -> A -> Prop) x y : (forall a b, R a b <-> Q a b) -> tc R x y <-> tc Q x y.
Proof. intros HRQ. split; apply tc_mono; intros a b; apply HRQ. Qed.

Lemma chain_iff adj adj' l : (forall x y, edge adj x y <-> edge adj' x y) -> chain adj l <-> chain adj' l.
Proof. intros He. split; induction 1; constructor; try done; by apply He. Qed.
Lemma is_cycle_iff adj adj' c :
  (forall x y, edge adj x y <-> edge adj' x y) -> is_cycle adj c <-> is_cycle adj' c.
Proof.
  intros He. unfold is_cycle. rewrite (chain_iff adj adj' c He). by setoid_rewrite He.
Qed.
