(* ===== verification/Deadlock.v ===== *)
(** * Deadlock detection (LeaseService.detect_deadlocks, _find_cycles)

    The wait-for graph built from wait edges and leases, and the iterative
    depth-first search over it.  [work] is kept with its top first; [stack] and
    [stack_position] are as in the code. *)

From S2P Require Import Prelude KernelModels Storage LeaseService Graph.

(** ** The wait-for graph *)

Definition owners (leases : list ResourceLease) (r : string) : list string :=
  owner_pid <$> leases_on r leases.

(** [wait_for.setdefault(pid, set()).add(owner)] *)
Definition add_wait (pid owner : string) (g : gmap string (gset string)) : gmap string (gset string) :=
  <[pid := {[owner]} ∪ default ∅ (g !! pid)]> g.

Definition wait_for_graph (s : KState) : gmap string (gset string) :=
  foldl (fun g w =>
    foldl (fun g owner => if decide (owner <> w.1) then add_wait w.1 owner g else g) g
      (owners (leases_projection s) w.2))
    ∅ (lease_waiters s).

(** ** Depth-first search *)

Record dfs : Type := mkDfs {
  cycles : list (list string);
  seen : list (list string);
  visited : gset string;
  stack : list string;
  stack_position : gmap string nat;
  work : list (string * list string) }.

(** [min(cycle)] *)
Definition smallest (l : list string) : string :=
  match l with [] => "" | x :: l' => foldl (fun m y => if py_ltb y m then y else m) x l' end.
(** [cycle.index(x)] *)
Fixpoint index_of (x : string) (l : list string) : nat :=
  match l with [] => 0 | y :: l' => if decide (y = x) then 0 else S (index_of x l') end.
Definition normalize (cycle : list string) : list string :=
  let rotation := index_of (smallest cycle) cycle in
  drop rotation cycle ++ take rotation cycle.

Definition record_cycle (st : dfs) (cycle : list string) : dfs :=
  let normalized := normalize cycle in
  if decide (normalized ∈ seen st) then st
  else mkDfs (cycles st ++ [normalized]) (normalized :: seen st) (visited st) (stack st)
         (stack_position st) (work st).

(** The [for neighbour in neighbours] loop: reports back edges, skips visited
    nodes, stops at the first node to descend into, with what is left. *)
Fixpoint scan (st : dfs) (ns : list string) : dfs * option (string * list string) :=
  match ns with
  | [] => (st, None)
  | n :: ns' =>
      match stack_position st !! n with
      | Some position => scan (record_cycle st (drop position (stack st))) ns'
      | None => if decide (n ∈ visited st) then scan st ns' else (st, Some (n, ns'))
      end
  end.

Section Search.
Context (adjacency : gmap string (list string)).
Definition neighbours (n : string) : list string := default [] (adjacency !! n).

(** One turn of [while work]. *)
Definition dfs_step (st : dfs) : dfs :=
  match work st with
  | [] => st
  | (node, ns) :: work' =>
      match scan st ns with
      | (st', Some (n, rest)) =>
          mkDfs (cycles st') (seen st') (visited st') (stack st' ++ [n])
            (<[n := length (stack st')]> (stack_position st'))
            ((n, neighbours n) :: (node, rest) :: work')
      | (st', None) =>
          match last (stack st') with
          | Some finished =>
              mkDfs (cycles st') (seen st') ({[finished]} ∪ visited st') (take (length (stack st') - 1) (stack st'))
                (delete finished (stack_position st')) work'
          | None => mkDfs (cycles st') (seen st') (visited st') [] (stack_position st') work'
          end
      end
  end.

Fixpoint dfs_loop (fuel : nat) (st : dfs) : dfs :=
  match work st with
  | [] => st
  | _ => match fuel with 0 => st | S fuel' => dfs_loop fuel' (dfs_step st) end
  end.

(** The nodes of the graph: keys and targets. *)
Definition universe : gset string := dom adjacency ∪ list_to_set (mjoin (map_to_list adjacency).*2).
(** Each node is pushed and popped at most once. *)
Definition dfs_fuel : nat := 2 * size universe + 2.

Definition dfs_root (st : dfs) (root : string) : dfs :=
  if decide (root ∈ visited st) then st
  else dfs_loop dfs_fuel
         (mkDfs (cycles st) (seen st) (visited st) (stack st ++ [root])
            (<[root := 0]> (stack_position st)) ((root, neighbours root) :: work st)).

Definition dfs_all : dfs :=
  foldl dfs_root (mkDfs [] [] ∅ [] ∅ []) (py_sorted (elements (dom adjacency))).
End Search.

Definition _find_cycles (wait_for : gmap string (gset string)) : list (list string) :=
  py_sorted (cycles (dfs_all ((fun targets => py_sorted (elements targets)) <$> wait_for))).

Definition detect_deadlocks (s : KState) : list (list string) := _find_cycles (wait_for_graph s).

(** The example of the code's documentation. *)
Example find_cycles_demo :
  _find_cycles {["p1" := {["p2"; "p3"]}; "p2" := {["p3"; "p1"]}; "p3" := {["p1"; "p2"]}]}
  = [["p1"; "p2"]; ["p1"; "p2"; "p3"]; ["p2"; "p3"]].
Proof. vm_compute. reflexivity. Qed.
