(* ===== verification/DeadlockProps.v ===== *)
(** * Deadlock detection: soundness, completeness, termination

    The search of [Deadlock] reports only genuine cycles, finishes within its
    fuel, and reports nothing exactly when the wait-for graph has no cycle. *)

From S2P Require Import Prelude KernelModels Storage LeaseService Graph Deadlock.

(** ** Normalized cycles *)

Lemma py_ltb_leb {A} `{PyOrdLaws A} (x y : A) : py_ltb x y = negb (py_leb y x).
Proof. unfold py_ltb, py_leb. rewrite (py_cmp_flip x y). by destruct (py_cmp x y). Qed.

Lemma smallest_fold m l :
  let r := foldl (fun m y => if py_ltb y m then y else m) m l in
  (r = m \/ r ∈ l) /\ py_leb r m = true /\ forall y, y ∈ l -> py_leb r y = true.
Proof.
  revert m. induction l as [|y l IH]; intros m; cbn; [split_and!; [by left|apply py_leb_refl|set_solver]|].
  rewrite py_ltb_leb. destruct (py_leb m y) eqn:E; cbn.
  - destruct (IH m) as (H1 & H2 & H3). split_and!; [set_solver|done|].
    intros z [->|Hz]%elem_of_cons; [by eapply py_leb_trans|by apply H3].
  - apply py_leb_total in E as E'. destruct (IH y) as (H1 & H2 & H3).
    split_and!; [set_solver|by eapply py_leb_trans|].
    intros z [->|Hz]%elem_of_cons; [done|by apply H3].
Qed.
Lemma smallest_spec l : l <> [] -> smallest l ∈ l /\ forall y, y ∈ l -> py_leb (smallest l) y = true.
Proof.
  destruct l as [|x l]; [done|]. intros _. destruct (smallest_fold x l) as (H1 & H2 & H3). split.
  - cbn. set_solver.
  - intros y [->|Hy]%elem_of_cons; [done|by apply H3].
Qed.
Lemma index_of_lookup x l : x ∈ l -> l !! index_of x l = Some x.
Proof.
  induction l as [|y l IH]; [set_solver|]. cbn. intros Hx. case_decide; [by subst|]. cbn. apply IH. set_solver.
Qed.

(** What is reported: a genuine cycle from its smallest member. *)
Definition reported_ok (adj : string -> list string) (c : list string) : Prop :=
  is_cycle adj c /\ exists x, head c = Some x /\ forall y, y ∈ c -> py_leb x y = true.

Lemma normalize_ok adj c : is_cycle adj c -> reported_ok adj (normalize c).
Proof.
  intros Hc. assert (c <> []) as Hne by (destruct Hc as (_ & _ & x & y & Hx & _); by destruct c).
  destruct (smallest_spec c Hne) as [Hin Hmin]. unfold normalize. set (k := index_of _ _).
  assert (c !! k = Some (smallest c)) as Hk by (by apply index_of_lookup).
  split.
  - apply is_cycle_rotate. by rewrite take_drop.
  - exists (smallest c). rewrite (drop_S _ _ _ Hk). split; [done|].
    intros y Hy. apply Hmin. rewrite <-(take_drop k c), (drop_S _ _ _ Hk). set_solver.
Qed.

(** ** The invariant of the search *)

Section Invariant.
Context (adjacency : gmap string (list string)).
Abbreviation adj := (neighbours adjacency).

(** Every item of [work] has handled a prefix of its neighbours: unless a cycle
    was reported they are visited, except the child being explored. *)
Fixpoint covered (st : dfs) (child : option string) (w : list (string * list string)) : Prop :=
  match w with
  | [] => True
  | (n, rest) :: w' =>
      (exists done_, adj n = done_ ++ rest /\
         (cycles st = [] -> forall x, x ∈ done_ -> x ∈ visited st \/ child = Some x)) /\
      covered st (Some n) w'
  end.

Record Inv (st : dfs) (w : list (string * list string)) : Prop := {
  inv_stack : stack st = reverse w.*1;
  inv_nodup : NoDup (stack st);
  inv_pos n i : stack_position st !! n = Some i <-> stack st !! i = Some n;
  inv_chain : chain adj (stack st);
  inv_disj n : n ∈ stack st -> n ∉ visited st;
  inv_univ n : n ∈ stack st \/ n ∈ visited st -> n ∈ universe adjacency;
  inv_cyc c : c ∈ cycles st -> reported_ok adj c;
  inv_seen c : c ∈ seen st -> c ∈ cycles st;
  inv_fin : cycles st = [] -> exists fin, visited st = list_to_set fin /\ finishing adj fin;
  inv_cov : covered st None w }.

Lemma neighbours_universe n x : x ∈ adj n -> x ∈ universe adjacency.
Proof.
  unfold neighbours, universe. destruct (adjacency !! n) as [l|] eqn:E; cbn; [|set_solver]. intros Hx.
  apply elem_of_union. right. apply elem_of_list_to_set, list_elem_of_join. exists l. split; [done|].
  apply list_elem_of_fmap. exists (n, l). split; [done|]. by apply elem_of_map_to_list.
Qed.

Lemma covered_cycles st st' child w :
  (cycles st' = [] -> cycles st = []) -> visited st ⊆ visited st' -> covered st child w -> covered st' child w.
Proof.
  intros Hc Hv. induction w as [|[n rest] w IH] in child |- *; cbn; [done|].
  intros [(d & Hd & Hx) Hw]. split; [|by apply IH]. exists d. split; [done|].
  intros Hc' x Hin. destruct (Hx (Hc Hc') x Hin); [left; set_solver|by right].
Qed.

(** The cycle closed by a back edge from the top of the stack. *)
Lemma back_edge_cycle st node ns w n i :
  Inv st ((node, ns) :: w) -> n ∈ adj node -> stack st !! i = Some n -> is_cycle adj (drop i (stack st)).
Proof.
  intros HI Hn Hi. pose proof (inv_stack _ _ HI) as Hs. rewrite fmap_cons, reverse_cons in Hs; cbn [fst] in Hs.
  split_and!.
  - eapply sublist_NoDup; [apply (inv_nodup _ _ HI)|]. apply sublist_drop.
  - pose proof (inv_chain _ _ HI) as Hc. rewrite <-(take_drop i (stack st)) in Hc. by apply chain_app in Hc as (_ & ? & _).
  - exists n, node. split_and!; [by rewrite (drop_S _ _ _ Hi)| |done].
    assert (last (stack st) = Some node) as Hl by (rewrite Hs; apply last_snoc).
    rewrite <-(take_drop i (stack st)), last_app in Hl.
    destruct (last (drop i (stack st))) eqn:E; [done|]. rewrite last_None, (drop_S _ _ _ Hi) in E. done.
Qed.

Lemma record_cycle_cases st c :
  visited (record_cycle st c) = visited st /\ stack (record_cycle st c) = stack st /\
  stack_position (record_cycle st c) = stack_position st /\
  (record_cycle st c = st /\ normalize c ∈ seen st \/
   cycles (record_cycle st c) = cycles st ++ [normalize c] /\ seen (record_cycle st c) = normalize c :: seen st).
Proof. unfold record_cycle. case_decide; cbn; split_and!; try done; [by left|by right]. Qed.

Lemma Inv_record st node n ns w i :
  Inv st ((node, n :: ns) :: w) -> stack_position st !! n = Some i ->
  Inv (record_cycle st (drop i (stack st))) ((node, ns) :: w).
Proof.
  intros HI Hi. pose proof (inv_cov _ _ HI) as [(d & Hd & Hx) Hw]. fold covered in Hw.
  assert (n ∈ adj node) as Hn by (rewrite Hd; set_solver).
  pose proof (back_edge_cycle st node (n :: ns) w n i HI Hn (proj1 (inv_pos _ _ HI n i) Hi)) as Hc.
  destruct (record_cycle_cases st (drop i (stack st))) as (Hv & Hs & Hp & Hcase).
  set (st' := record_cycle _ _) in *.
  assert (cycles st' <> []) as Hne.
  { destruct Hcase as [[-> Hin]|[-> _]]; [|by destruct (cycles st)]. apply (inv_seen _ _ HI) in Hin.
    intros Heq. rewrite Heq in Hin. by apply not_elem_of_nil in Hin. }
  assert (forall c, c ∈ cycles st -> c ∈ cycles st') as Hmono.
  { destruct Hcase as [[-> _]|[-> _]]; set_solver. }
  destruct HI as [H1 H2 H3 H4 H5 H6 H7 H8 H9 H10].
  split; rewrite ?Hv, ?Hs, ?Hp; try done.
  - intros c Hin. destruct Hcase as [[Heq _]|[Heq _]]; [rewrite Heq in Hin; by apply H7|].
    rewrite Heq in Hin. apply elem_of_app in Hin as [Hin|Hin%list_elem_of_singleton]; [by apply H7|].
    subst c. by apply normalize_ok.
  - intros c Hin. destruct Hcase as [[Heq _]|[Heq Heq2]]; [rewrite Heq in *; by apply H8|].
    rewrite Heq2 in Hin. rewrite Heq. set_solver.
  - cbn. split; [|eapply covered_cycles; [| |exact Hw]; [done|by rewrite Hv]].
    exists (d ++ [n]). split; [by rewrite <-app_assoc|done].
Qed.

Lemma Inv_skip st node n ns w :
  Inv st ((node, n :: ns) :: w) -> n ∈ visited st -> Inv st ((node, ns) :: w).
Proof.
  intros HI Hn. destruct HI as [H1 H2 H3 H4 H5 H6 H7 H8 H9 [(d & Hd & Hx) Hw]]. split; try done.
  split; [|done]. exists (d ++ [n]). split; [by rewrite <-app_assoc|].
  intros Hc x [Hin|Hin%list_elem_of_singleton]%elem_of_app; [by apply Hx|]. subst x. by left.
Qed.

Lemma scan_inv st node ns w :
  Inv st ((node, ns) :: w) ->
  match scan st ns with
  | (st', Some (n, rest)) => Inv st' ((node, n :: rest) :: w) /\ (n ∉ stack st') /\ (n ∉ visited st') /\
      stack st' = stack st /\ visited st' = visited st
  | (st', None) => Inv st' ((node, []) :: w) /\ stack st' = stack st /\ visited st' = visited st
  end.
Proof.
  revert st. induction ns as [|n ns IH]; intros st HI; cbn; [done|].
  destruct (stack_position st !! n) as [i|] eqn:Hp.
  - specialize (IH _ (Inv_record _ _ _ _ _ _ HI Hp)).
    destruct (record_cycle_cases st (drop i (stack st))) as (Hv & Hs & _). rewrite Hv, Hs in IH. exact IH.
  - case_decide as Hv; [by apply IH, (Inv_skip st node n)|]. split; [done|]. split; [|done].
    intros [i Hi]%list_elem_of_lookup. apply (inv_pos _ _ HI) in Hi. congruence.
Qed.

(** Descending into an unvisited neighbour. *)
Lemma Inv_push st node n rest w :
  Inv st ((node, n :: rest) :: w) -> n ∉ stack st -> n ∉ visited st ->
  Inv (mkDfs (cycles st) (seen st) (visited st) (stack st ++ [n]) (<[n := length (stack st)]> (stack_position st))
         ((n, adj n) :: (node, rest) :: w)) ((n, adj n) :: (node, rest) :: w).
Proof.
  intros HI Hns Hnv. pose proof (inv_stack _ _ HI) as Hst. rewrite fmap_cons, reverse_cons in Hst; cbn [fst] in Hst.
  destruct HI as [H1 H2 H3 H4 H5 H6 H7 H8 H9 [(d & Hd & Hx) Hw]].
  assert (n ∈ adj node) as Hn by (rewrite Hd; set_solver).
  split; cbn; try done.
  - change (stack st ++ [n] = reverse (n :: node :: w.*1)). by rewrite !reverse_cons, Hst.
  - apply NoDup_app. split_and!; [done|set_solver|apply NoDup_singleton].
  - intros m i. destruct (decide (m = n)) as [->|Hne].
    + rewrite lookup_insert_eq. split.
      * intros [= <-]. apply list_lookup_middle. done.
      * intros Hl. f_equal. apply lookup_app_Some in Hl as [Hl|[Hle Hl]].
        -- exfalso. apply Hns. by eapply list_elem_of_lookup_2.
        -- destruct (i - length (stack st)) as [|k] eqn:E; cbn in Hl; [lia|by destruct k].
    + rewrite lookup_insert_ne by done. rewrite H3. split.
      * intros Hl. by apply lookup_app_l_Some.
      * intros Hl. apply lookup_app_Some in Hl as [Hl|[Hle Hl]]; [done|].
        destruct (i - length (stack st)) as [|k]; cbn in Hl; [congruence|by destruct k].
  - apply chain_app. split_and!; [done|constructor|]. intros x y Hxl [= <-].
    rewrite Hst, last_snoc in Hxl. by simplify_eq.
  - intros m [Hm|Hm%list_elem_of_singleton]%elem_of_app; [by apply H5|by subst].
  - intros m [[Hm|Hm%list_elem_of_singleton]%elem_of_app|Hm]; [by apply H6; left| |by apply H6; right].
    subst m. by eapply neighbours_universe.
  - split_and!.
    + exists []. split; [done|]. set_solver.
    + exists (d ++ [n]). split; [by rewrite <-app_assoc|].
      intros Hc x [Hin|Hin%list_elem_of_singleton]%elem_of_app; [|subst x; by right].
      destruct (Hx Hc x Hin); [by left|done].
    + eapply covered_cycles; [| |exact Hw]; done.
Qed.

(** Finishing the top of the stack. *)
Lemma Inv_pop st node w :
  Inv st ((node, []) :: w) ->
  Inv (mkDfs (cycles st) (seen st) ({[node]} ∪ visited st) (reverse w.*1) (delete node (stack_position st)) w) w.
Proof.
  intros HI. pose proof (inv_stack _ _ HI) as Hst. rewrite fmap_cons, reverse_cons in Hst; cbn [fst] in Hst.
  destruct HI as [H1 H2 H3 H4 H5 H6 H7 H8 H9 [(d & Hd & Hx) Hw]]. fold covered in Hw.
  rewrite app_nil_r in Hd. rewrite Hst in *. apply NoDup_app in H2 as (Hn1 & Hn2 & _).
  split; cbn; try done.
  - intros m i. destruct (decide (m = node)) as [->|Hne].
    + rewrite lookup_delete_eq. split; [done|]. intros Hl. exfalso.
      apply (Hn2 node); [by eapply list_elem_of_lookup_2|set_solver].
    + rewrite lookup_delete_ne by done. rewrite H3. split.
      * intros [Hl|[Hle Hl]]%lookup_app_Some; [done|].
        destruct (i - length (reverse w.*1)) as [|k]; cbn in Hl; [congruence|by destruct k].
      * intros Hl. by apply lookup_app_l_Some.
  - by apply chain_app in H4 as (? & _).
  - intros m Hm [Heq%elem_of_singleton|Hv]%elem_of_union; [subst m; apply (Hn2 node); set_solver|].
    apply (H5 m); [set_solver|done].
  - intros m [Hm|[Heq%elem_of_singleton|Hv]%elem_of_union]; apply H6; set_solver.
  - intros Hc. destruct (H9 Hc) as (fin & Hv & Hf). exists (node :: fin). split; [cbn; by rewrite Hv|].
    constructor; [| |done].
    + intros Hin. apply (H5 node); [set_solver|]. rewrite Hv. by apply elem_of_list_to_set.
    + intros x Hxe. unfold edge in Hxe. rewrite Hd in Hxe. destruct (Hx Hc x Hxe) as [Hxv|]; [|done].
      rewrite Hv in Hxv. by apply elem_of_list_to_set in Hxv.
  - destruct w as [|[m rest] w]; cbn in *; [done|]. destruct Hw as [(d' & Hd' & Hx') Hw]. split.
    + exists d'. split; [done|]. intros Hc x Hin. left. destruct (Hx' Hc x Hin) as [?|[= ->]]; set_solver.
    + eapply covered_cycles; [| |exact Hw]; [done|set_solver].
Qed.

(** ** Termination *)

Definition measure (st : dfs) : nat :=
  2 * size (universe adjacency ∖ (visited st ∪ list_to_set (stack st))) + length (work st).

Lemma dfs_step_inv st :
  Inv st (work st) -> work st <> [] ->
  Inv (dfs_step adjacency st) (work (dfs_step adjacency st)) /\ measure (dfs_step adjacency st) < measure st.
Proof.
  intros HI Hne. unfold dfs_step, measure. destruct (work st) as [|[node ns] w] eqn:Hw; [done|].
  pose proof (scan_inv st node ns w HI) as Hs. destruct (scan st ns) as [st' [[n rest]|]].
  - destruct Hs as (HI' & Hns & Hnv & Es & Ev). split; [by apply Inv_push|]. cbn [visited stack work length].
    assert (n ∈ universe adjacency) as Hu.
    { destruct (inv_cov _ _ HI') as [(d & Hd & _) _]. apply (neighbours_universe node). rewrite Hd. set_solver. }
    set (X := visited st ∪ list_to_set (stack st)).
    assert (size (universe adjacency ∖ (visited st' ∪ list_to_set (stack st' ++ [n]))) <
            size (universe adjacency ∖ X)); [|lia].
    apply subset_size. rewrite Ev, Es, list_to_set_app_L. split; [set_solver|].
    intros Hsub. assert (n ∈ universe adjacency ∖ X) as Hn.
    { apply elem_of_difference. split; [done|]. unfold X. rewrite <-Ev, <-Es. set_solver. }
    apply Hsub in Hn. set_solver.
  - destruct Hs as (HI' & Es & Ev). pose proof (inv_stack _ _ HI') as Hst.
    rewrite fmap_cons, reverse_cons in Hst; cbn [fst] in Hst.
    assert (last (stack st') = Some node) as Hl by (rewrite Hst; apply last_snoc).
    assert (take (length (stack st') - 1) (stack st') = reverse w.*1) as Ht.
    { rewrite Hst, length_app. cbn. rewrite Nat.add_sub. by rewrite take_app_length. }
    rewrite Hl, Ht. split; [by apply Inv_pop|]. cbn [visited stack work length].
    assert ({[node]} ∪ visited st' ∪ list_to_set (reverse w.*1) = visited st ∪ list_to_set (stack st)) as ->.
    { rewrite <-Ev, <-Es, Hst, list_to_set_app_L. set_solver. }
    lia.
Qed.

Lemma dfs_loop_done fuel st :
  Inv st (work st) -> measure st <= fuel ->
  Inv (dfs_loop adjacency fuel st) [] /\ work (dfs_loop adjacency fuel st) = [].
Proof.
  revert st. induction fuel as [|fuel IH]; intros st HI Hm; cbn.
  - destruct (work st) eqn:Hw; [done|]. exfalso. unfold measure in Hm. rewrite Hw in Hm. cbn in Hm. lia.
  - destruct (work st) as [|x w] eqn:Hw; [done|].
    destruct (dfs_step_inv st) as [HI' Hlt]; [by rewrite Hw|by rewrite Hw|]. apply IH; [done|lia].
Qed.

Lemma dfs_loop_visits fuel st n :
  Inv st (work st) -> measure st <= fuel -> n ∈ stack st \/ n ∈ visited st ->
  n ∈ visited (dfs_loop adjacency fuel st).
Proof.
  revert st. induction fuel as [|fuel IH]; intros st HI Hm Hn; cbn.
  - destruct (work st) eqn:Hw; [|unfold measure in Hm; rewrite Hw in Hm; cbn in Hm; lia].
    rewrite (inv_stack _ _ HI) in Hn. destruct Hn as [Hn|Hn]; [by apply not_elem_of_nil in Hn|done].
  - destruct (work st) as [|[node ns] w] eqn:Hw.
    { rewrite (inv_stack _ _ HI) in Hn. destruct Hn as [Hn|Hn]; [by apply not_elem_of_nil in Hn|done]. }
    assert (Inv st (work st)) as HI0 by (by rewrite Hw).
    destruct (dfs_step_inv st HI0) as [HI' Hlt]; [by rewrite Hw|].
    apply IH; [done|lia|]. unfold dfs_step. rewrite Hw. pose proof (scan_inv st node ns w HI) as Hs.
    destruct (scan st ns) as [st' [[m rest]|]].
    + destruct Hs as (_ & _ & _ & Es & Ev). cbn. rewrite Es, Ev. set_solver.
    + destruct Hs as (HI2 & Es & Ev). pose proof (inv_stack _ _ HI2) as Hst.
      rewrite fmap_cons, reverse_cons in Hst; cbn [fst] in Hst.
      assert (last (stack st') = Some node) as Hl by (rewrite Hst; apply last_snoc).
      rewrite Hl. cbn. rewrite Ev. rewrite <-Es, Hst in Hn.
      rewrite Hst, length_app. cbn. rewrite Nat.add_sub, take_app_length. set_solver.
Qed.

Lemma dfs_root_inv st root :
  Inv st [] -> work st = [] -> root ∈ universe adjacency ->
  Inv (dfs_root adjacency st root) [] /\ work (dfs_root adjacency st root) = [] /\
  root ∈ visited (dfs_root adjacency st root) /\ visited st ⊆ visited (dfs_root adjacency st root).
Proof.
  intros HI Hw Hr. unfold dfs_root. case_decide as Hv; [done|]. rewrite Hw.
  pose proof (inv_stack _ _ HI) as Hst. cbn in Hst.
  set (st0 := mkDfs _ _ _ _ _ _).
  assert (Inv st0 [(root, adj root)]) as HI0.
  { destruct HI as [H1 H2 H3 H4 H5 H6 H7 H8 H9 H10]. rewrite Hst in *. split; cbn; rewrite ?Hst; try done.
    - apply NoDup_singleton.
    - intros n i. destruct (decide (n = root)) as [->|Hne].
      + rewrite lookup_insert_eq. split; [by intros [= <-]|]. destruct i as [|[|]]; done.
      + rewrite lookup_insert_ne by done. rewrite H3. split; [by destruct i|].
        destruct i as [|[|]]; cbn; [congruence|done..].
    - constructor.
    - intros n Hn%list_elem_of_singleton. by subst.
    - intros n [Hn%list_elem_of_singleton|Hn]; [by subst|]. apply H6. by right.
    - split; [|done]. exists []. split; [done|set_solver]. }
  assert (measure st0 <= dfs_fuel adjacency) as Hm.
  { unfold measure, dfs_fuel, st0. cbn [work length visited stack].
    pose proof (subseteq_size (universe adjacency ∖ (visited st ∪ list_to_set (stack st ++ [root])))
                  (universe adjacency) ltac:(set_solver)). lia. }
  destruct (dfs_loop_done (dfs_fuel adjacency) st0 HI0 Hm) as [HI1 Hw1].
  split_and!; [done|done| |].
  - apply dfs_loop_visits; [done|done|]. left. cbn. set_solver.
  - intros n Hn. apply dfs_loop_visits; [done|done|by right].
Qed.

Lemma dfs_roots_inv roots st :
  Inv st [] -> work st = [] -> (forall r, r ∈ roots -> r ∈ universe adjacency) ->
  let st' := foldl (dfs_root adjacency) st roots in
  Inv st' [] /\ work st' = [] /\ (forall r, r ∈ roots -> r ∈ visited st') /\ visited st ⊆ visited st'.
Proof.
  revert st. induction roots as [|r roots IH]; intros st HI Hw Hu; cbn.
  - split_and!; [done|done|set_solver|done].
  - destruct (dfs_root_inv st r HI Hw ltac:(set_solver)) as (HI1 & Hw1 & Hr & Hsub).
    destruct (IH _ HI1 Hw1 ltac:(set_solver)) as (HI2 & Hw2 & Hr2 & Hsub2).
    split_and!; [done|done| |set_solver]. intros x [->|Hx]%elem_of_cons; [by apply Hsub2|by apply Hr2].
Qed.

Lemma dfs_all_spec :
  let st := dfs_all adjacency in
  work st = [] /\ (forall c, c ∈ cycles st -> reported_ok adj c) /\ (cycles st = [] -> ~ cyclic adj).
Proof.
  unfold dfs_all. set (st0 := mkDfs _ _ _ _ _ _).
  assert (Inv st0 []) as HI0.
  { split; cbn.
    - done.
    - apply NoDup_nil_2.
    - intros n i. by rewrite lookup_empty.
    - apply chain_nil.
    - set_solver.
    - set_solver.
    - set_solver.
    - set_solver.
    - intros _. exists []. split; [done|apply fin_nil].
    - done. }
  destruct (dfs_roots_inv (py_sorted (elements (dom adjacency))) st0 HI0 eq_refl) as (HI & Hw & Hr & _).
  { intros r Hr%elem_of_sort_on%elem_of_elements. unfold universe. set_solver. }
  split_and!; [done|apply (inv_cyc _ _ HI)|]. intros Hc [x Hx].
  destruct (inv_fin _ _ HI Hc) as (fin & Hv & Hf).
  assert (x ∈ fin) as Hin.
  { assert (exists y, edge adj x y) as [y He].
    { inversion Hx as [? ? He|? y ? He _]; subst; by eexists. }
    apply (elem_of_list_to_set (C := gset string)). rewrite <-Hv. apply Hr, elem_of_sort_on, elem_of_elements.
    unfold edge, neighbours in He. apply elem_of_dom. destruct (adjacency !! x); [done|].
    by apply not_elem_of_nil in He. }
  by apply (finishing_acyclic adj fin x).
Qed.
End Invariant.

(** ** The wait-for relation *)

(** [x] waits for a resource that [y] holds. *)
Definition waits_for (s : KState) (x y : string) : Prop :=
  exists r l, (x, r) ∈ lease_waiters s /\ l ∈ leases_projection s /\
    resource_id l = r /\ owner_pid l = y /\ y <> x.

Lemma add_wait_lookup pid owner g x y :
  y ∈ default ∅ (add_wait pid owner g !! x) <-> (x = pid /\ y = owner) \/ y ∈ default ∅ (g !! x).
Proof.
  unfold add_wait. destruct (decide (x = pid)) as [->|Hne].
  - rewrite lookup_insert_eq. cbn. set_solver.
  - rewrite lookup_insert_ne by done. set_solver.
Qed.
Lemma add_waits_lookup pid os g x y :
  y ∈ default ∅ (foldl (fun g owner => if decide (owner <> pid) then add_wait pid owner g else g) g os !! x) <->
  (x = pid /\ y ∈ os /\ y <> pid) \/ y ∈ default ∅ (g !! x).
Proof.
  revert g. induction os as [|o os IH]; intros g; cbn; [set_solver|]. rewrite IH.
  case_decide as Ho; [rewrite add_wait_lookup|]; set_solver.
Qed.
Lemma wait_for_graph_spec s x y : y ∈ default ∅ (wait_for_graph s !! x) <-> waits_for s x y.
Proof.
  unfold wait_for_graph, waits_for.
  assert (forall ws g, y ∈ default ∅ (foldl (fun g w =>
      foldl (fun g owner => if decide (owner <> w.1) then add_wait w.1 owner g else g) g
        (owners (leases_projection s) w.2)) g ws !! x) <->
    (exists r, (x, r) ∈ ws /\ y ∈ owners (leases_projection s) r /\ y <> x) \/ y ∈ default ∅ (g !! x)) as Hgen.
  { induction ws as [|[p r] ws IH]; intros g; cbn; [set_solver|]. rewrite IH, add_waits_lookup. cbn.
    split.
    - intros [(r' & Hr & Hy)|[(-> & Hy & Hne)|Hg]]; [left; exists r'; set_solver|left; exists r; set_solver|by right].
    - intros [(r' & [[= -> ->]|Hr]%elem_of_cons & Hy & Hne)|Hg]; [by right; left|left; by exists r'|by right; right]. }
  rewrite Hgen, lookup_empty. cbn. unfold owners. split.
  - intros [(r & Hr & (l & -> & Hl)%list_elem_of_fmap & Hne)|?]; [|set_solver].
    unfold leases_on in Hl. apply list_elem_of_filter in Hl as [Hres Hl]. by exists r, l.
  - intros (r & l & Hr & Hl & Hres & <- & Hne). left. exists r. split_and!; [done| |done].
    apply list_elem_of_fmap_2. unfold leases_on. by apply list_elem_of_filter.
Qed.

Lemma chain_lookup adj l i x y : chain adj l -> l !! i = Some x -> l !! S i = Some y -> edge adj x y.
Proof.
  intros Hc. revert i. induction Hc as [|z|a b l He Hc IH]; intros i Hx Hy; [done|by destruct i|].
  destruct i as [|i]; [cbn in *; by simplify_eq|]. by apply (IH i).
Qed.

(** [c] is a cycle of waits: each member waits for the next, the last for the first. *)
Definition wait_cycle (s : KState) (c : list string) : Prop :=
  NoDup c /\ forall i x, c !! i = Some x ->
    exists y, c !! (S i mod length c) = Some y /\ waits_for s x y.

Abbreviation wait_adj s :=
  (neighbours ((fun targets : gset string => py_sorted (elements targets)) <$> wait_for_graph s)).

Lemma wait_adj_edge s x y : edge (wait_adj s) x y <-> waits_for s x y.
Proof.
  rewrite <-wait_for_graph_spec. unfold edge, neighbours. rewrite lookup_fmap.
  destruct (wait_for_graph s !! x) as [t|]; cbn; [|set_solver].
  by rewrite elem_of_sort_on, elem_of_elements.
Qed.

Lemma is_cycle_waits s c : is_cycle (wait_adj s) c -> wait_cycle s c.
Proof.
  intros (Hn & Hc & a & b & Ha & Hb & He). split; [done|]. intros i x Hi.
  pose proof (lookup_lt_Some _ _ _ Hi) as Hlt.
  destruct (decide (S i < length c)) as [Hs|Hs].
  - rewrite Nat.mod_small by done. destruct (lookup_lt_is_Some_2 c (S i) Hs) as [y Hy].
    exists y. split; [done|]. apply wait_adj_edge. by eapply chain_lookup.
  - replace (S i) with (length c) by lia. rewrite Nat.Div0.mod_same. exists a.
    rewrite head_lookup in Ha. split; [done|]. apply wait_adj_edge.
    rewrite last_lookup in Hb. replace (pred (length c)) with i in Hb by lia. by simplify_eq.
Qed.

Lemma deadlock_nonempty s c : c ∈ detect_deadlocks s -> c <> [].
Proof.
  unfold detect_deadlocks, _find_cycles.
  destruct (dfs_all_spec ((fun targets => py_sorted (elements targets)) <$> wait_for_graph s)) as (_ & Hok & _).
  intros [_ (x & Hx & _)]%elem_of_sort_on%Hok ->. done.
Qed.

(** ** Property *)

(** C25: deadlock detection is exact.  [detect_deadlocks] reports nothing iff no
    process waits, directly or through others, for itself; and everything it
    reports is a genuine simple cycle of waits, rotated to its smallest pid, in
    sorted order. *)
Theorem deadlock_detection_exact s :
  (detect_deadlocks s = [] <-> ~ exists x, tc (waits_for s) x x) /\
  (forall c, c ∈ detect_deadlocks s -> wait_cycle s c /\
     exists x, head c = Some x /\ forall y, y ∈ c -> py_leb x y = true) /\
  StronglySorted (fun c1 c2 => py_leb c1 c2 = true) (detect_deadlocks s).
Proof.
  unfold detect_deadlocks, _find_cycles.
  destruct (dfs_all_spec ((fun targets => py_sorted (elements targets)) <$> wait_for_graph s)) as (_ & Hok & Hnil).
  set (cs := cycles _) in *. split_and!.
  - split.
    + intros Hs [x Hx]. apply Hnil.
      * apply length_zero_iff_nil. by rewrite <-(length_sort_on id cs), Hs.
      * exists x. by apply (tc_iff (edge (wait_adj s)) (waits_for s) x x (wait_adj_edge s)).
    + intros Hno. destruct (sort_on id cs) as [|c l] eqn:E; [done|]. exfalso. apply Hno.
      destruct (Hok c) as [Hc _]; [apply (elem_of_sort_on id); rewrite E; set_solver|].
      apply cycle_cyclic in Hc as [x Hx]. exists x.
      by apply (tc_iff (edge (wait_adj s)) (waits_for s) x x (wait_adj_edge s)).
  - intros c Hc%elem_of_sort_on%Hok. destruct Hc as [Hc Hmin]. split; [by apply is_cycle_waits|done].
  - apply (sort_on_sorted id cs).
Qed.

Definition demo_deadlock : KState :=
  set_waiters (fun _ => [("p1", "R2"); ("p2", "R1"); ("p3", "R1")])
    (set_leases (fun _ => [mkLease "l1" "R1" "p1" exclusive 1 0 10 true true;
                           mkLease "l2" "R2" "p2" exclusive 1 0 10 true true]) (init_storage 0)).
Example deadlock_demo : detect_deadlocks demo_deadlock = [["p1"; "p2"]].
Proof. vm_compute. reflexivity. Qed.
