(* ===== verification/ActionService.v ===== *)
(** * Action service (agent_os/services/action_service.py)

    The action lifecycle: submission, admission, durable intent, dispatch, the
    terminal outcomes, the fenced commit and the fenced retry, with the
    projection handler.  Each conditional operation runs in one transaction. *)

From S2P Require Import Prelude KernelModels StateMachine Storage Journal LeaseService.

(** ** Rows of [actions_projection] *)

(** [dumps(x) if x else None] *)
Definition stored_obj (o : option jobj) : option jobj := match o with Some [] => None | _ => o end.

(** [acb] with its mutable columns replaced. *)
Definition acb_with (a : ActionControlBlock) (st : ActionState.t) (claims : list claim)
    (ids : list string) (toks : list (string * Z)) (rc : Z) (res err : option jobj) (fin : option Z) :=
  mkACB (action_id a) (acb_pid a) (device_type a) (operation a) (arguments a) st claims ids toks
    (idempotency_key a) (side_effect_class a) (recovery_policy a) rc (timeout_seconds a) res err
    (submitted_at a) fin.
Definition acb_row (a : ActionControlBlock) : ActionControlBlock :=
  acb_with a (acb_state a) (resource_claims a) (lease_ids a) (fencing_tokens a) (retry_count a)
    (stored_obj (acb_result a)) (stored_obj (acb_error a)) (finished_at a).
(** The [DO UPDATE SET] list. *)
Definition acb_conflict (old new : ActionControlBlock) : ActionControlBlock :=
  acb_with old (acb_state new) (resource_claims new) (lease_ids new) (fencing_tokens new)
    (retry_count new) (acb_result new) (acb_error new) (finished_at new).

Definition _upsert_projection_tx (a : ActionControlBlock) : M KState unit :=
  modify (set_actions (tbl_upsert action_id acb_conflict (acb_row a))).
Definition _upsert_projection (a : ActionControlBlock) : M KState unit :=
  transaction (_upsert_projection_tx a).

(** ** Queries *)

Definition get_action (aid : string) (s : KState) : option ActionControlBlock :=
  tbl_find action_id aid (actions_projection s).
Definition list_by_pid (pid : string) (s : KState) : list ActionControlBlock :=
  sort_on submitted_at (filter (fun a => acb_pid a = pid) (actions_projection s)).
Definition list_running (s : KState) : list ActionControlBlock :=
  filter (fun a => acb_state a = ActionState.RUNNING) (actions_projection s).
Definition list_non_terminal (s : KState) : list ActionControlBlock :=
  filter (fun a => acb_state a ∉ TERMINAL_ACTION_STATES) (actions_projection s).
Definition list_incomplete (s : KState) : list ActionControlBlock :=
  filter (fun a => acb_state a ∈ [ActionState.SUBMITTED; ActionState.ADMITTED; ActionState.RUNNING])
    (actions_projection s).

(** Assignments to the fields of a control block. *)
Definition set_outcome (a : ActionControlBlock) (res err : option jobj) (fin : option Z) :=
  acb_with a (acb_state a) (resource_claims a) (lease_ids a) (fencing_tokens a) (retry_count a) res err fin.
Definition set_intent (a : ActionControlBlock) (ids : list string) (toks : list (string * Z)) :=
  acb_with a (acb_state a) (resource_claims a) ids toks (retry_count a) (acb_result a) (acb_error a) (finished_at a).
Definition set_retry (a : ActionControlBlock) (rc : Z) :=
  acb_with a (acb_state a) (resource_claims a) (lease_ids a) (fencing_tokens a) rc (acb_result a)
    (acb_error a) (finished_at a).

(** ** The fence check inside a transaction *)

Fixpoint check_leases_tx (pid : string) (ids : list string) (tokens : list (string * Z)) (now : Z)
    (actual : list (string * string)) (s : KState) : list (string * string) + string :=
  match ids with
  | [] => inl actual
  | id :: ids' =>
      match get_lease id s with
      | None => inr "lease_missing"
      | Some l =>
          if negb (String.eqb (owner_pid l) pid) then inr "lease_owner_mismatch"
          else if (expires_at l <=? now)%Z then inr "lease_expired"
          else if (fencing_token l <=? 0)%Z || bool_decide (assoc (resource_id l) tokens <> Some (fencing_token l))
          then inr "lease_fencing_token_mismatch"
          else if decide (resource_fencing_tokens s !! resource_id l <> Some (fencing_token l))
          then inr "resource_fencing_token_superseded"
          else check_leases_tx pid ids' tokens now (actual ++ [lease_key l]) s
      end
  end.

(** [None] when the contract holds, the reason otherwise. *)
Definition _validate_fencing_contract_tx (a : ActionControlBlock) (now : Z) (s : KState) : option string :=
  let claims := resource_claims a in
  let ids := lease_ids a in
  let tokens := fencing_tokens a in
  match claims with
  | [] =>
      match ids, tokens with
      | _ :: _, _ => Some "unexpected_leases"
      | [], _ :: _ => Some "unexpected_fencing_tokens"
      | [], [] => None
      end
  | _ =>
      if decide (length ids <> length claims \/ ~ NoDup ids) then Some "lease_count_mismatch"
      else if decide (list_to_set tokens.*1 <> (list_to_set (claim_resource <$> claims) : gset string))
      then Some "fencing_token_count_mismatch"
      else match check_leases_tx (acb_pid a) ids tokens now [] s with
           | inr e => Some e
           | inl actual =>
               if decide (py_sorted actual = py_sorted (claim_key <$> claims)) then None
               else Some "lease_claim_mismatch"
           end
  end.

Section Service.
Context `{UuidSource}.

(** ** Submit *)

(** [action_id or uuid4().hex] *)
Definition choose_id (aid : option string) : M KState string :=
  match aid with
  | Some a => if String.eqb a "" then fresh_uuid else mret a
  | None => fresh_uuid
  end.

Definition submit (pid device op : string) (args : option jobj) (sec : SideEffectClass.t)
    (rp : RecoveryPolicy.t) (idem : option string) (timeout : option Z) (aid : option string)
    (claims : option (list claim)) : M KState ActionControlBlock :=
  id ← choose_id aid;
  now ← gets clock_now;
  let acb := mkACB id pid device op (default [] args) ActionState.SUBMITTED (default [] claims) [] []
               idem sec rp 0 timeout None None now None in
  emit pid "ACTION_SUBMITTED" (acb_dump acb) ;;
  _upsert_projection acb ;;
  mret acb.

(** ** Unconditional transitions: they raise on an illegal state *)

Definition load_action (aid : string) : M KState ActionControlBlock :=
  o ← gets (get_action aid); some_or_raise o (ValueError "Action not found").
Definition applied (a : ActionControlBlock) (target : ActionState.t) : M KState ActionControlBlock :=
  match apply_action_transition a target with
  | Ok (_, a') => mret a'
  | Raise e => raise e
  end.

Definition admit_action (aid : string) : M KState KernelEvent :=
  acb ← load_action aid;
  acb ← applied acb ActionState.ADMITTED;
  ev ← emit (acb_pid acb) "ACTION_ADMITTED" [("action_id", JStr aid); ("state", JStr "admitted")];
  _upsert_projection acb ;; mret ev.

Definition reject (aid reason : string) : M KState KernelEvent :=
  acb ← load_action aid;
  acb ← applied acb ActionState.FAILED;
  let acb := set_outcome acb (acb_result acb) (Some [("reason", JStr reason)]) (finished_at acb) in
  ev ← emit (acb_pid acb) "ACTION_REJECTED" [("action_id", JStr aid); ("reason", JStr reason)];
  _upsert_projection acb ;; mret ev.

Definition mark_intent_durable (aid : string) (ids : list string) (tokens : option (list (string * Z)))
    : M KState KernelEvent :=
  acb ← load_action aid;
  let acb := set_intent acb ids (default (fencing_tokens acb) tokens) in
  ev ← emit (acb_pid acb) "ACTION_INTENT_DURABLE"
         [("action_id", JStr aid); ("lease_ids", JList (JStr <$> ids));
          ("fencing_tokens", JObj (tokens_dump (fencing_tokens acb)))];
  _upsert_projection acb ;; mret ev.

Definition dispatch (aid : string) : M KState KernelEvent :=
  acb ← load_action aid;
  acb ← applied acb ActionState.RUNNING;
  ev ← emit (acb_pid acb) "ACTION_RUNNING" [("action_id", JStr aid)];
  _upsert_projection acb ;; mret ev.

Definition commit (aid : string) (res : option jobj) : M KState KernelEvent :=
  acb ← load_action aid;
  acb ← applied acb ActionState.COMMITTED;
  now ← gets clock_now;
  let acb := set_outcome acb (Some (default [] res)) (acb_error acb) (Some now) in
  ev ← emit (acb_pid acb) "ACTION_COMMITTED" [("action_id", JStr aid); ("result", JObj (default [] res))];
  _upsert_projection acb ;; mret ev.

Definition fail (aid : string) (error : option jobj) : M KState KernelEvent :=
  acb ← load_action aid;
  acb ← applied acb ActionState.FAILED;
  now ← gets clock_now;
  let acb := set_outcome acb (acb_result acb) (Some (default [] error)) (Some now) in
  ev ← emit (acb_pid acb) "ACTION_FAILED" [("action_id", JStr aid); ("error", JObj (default [] error))];
  _upsert_projection acb ;; mret ev.

Definition mark_timed_out (aid : string) : M KState KernelEvent :=
  acb ← load_action aid;
  acb ← applied acb ActionState.TIMED_OUT;
  now ← gets clock_now;
  let acb := set_outcome acb (acb_result acb) (Some [("reason", JStr "timeout")]) (Some now) in
  ev ← emit (acb_pid acb) "ACTION_TIMED_OUT" [("action_id", JStr aid)];
  _upsert_projection acb ;; mret ev.

(** [detail or {"reason": "uncertain"}] *)
Definition uncertain_detail (detail : option jobj) : jobj :=
  match detail with Some (_ :: _ as d) => d | _ => [("reason", JStr "uncertain")] end.

Definition mark_uncertain (aid : string) (detail : option jobj) : M KState KernelEvent :=
  acb ← load_action aid;
  acb ← applied acb ActionState.UNCERTAIN;
  now ← gets clock_now;
  let acb := set_outcome acb (acb_result acb) (Some (uncertain_detail detail)) (Some now) in
  ev ← emit (acb_pid acb) "ACTION_UNCERTAIN" [("action_id", JStr aid); ("detail", JObj (default [] detail))];
  _upsert_projection acb ;; mret ev.

Definition cancel (aid : string) : M KState KernelEvent :=
  acb ← load_action aid;
  acb ← applied acb ActionState.CANCELLED;
  now ← gets clock_now;
  let acb := set_outcome acb (acb_result acb) (acb_error acb) (Some now) in
  ev ← emit (acb_pid acb) "ACTION_CANCELLED" [("action_id", JStr aid)];
  _upsert_projection acb ;; mret ev.

(** ** Conditional operations: one transaction each *)

Definition not_running (a : ActionControlBlock) : string :=
  String.append "action_not_running:" (ActionState.value (acb_state a)).

(** Journal one event with an explicit time inside the transaction. *)
Definition emit_tx (pid ty : string) (pl : jobj) (t : Z) : M KState unit :=
  ev ← new_event_at pid ty pl t; append_events_tx [ev] ;; mret tt.

Definition retry_permitted (a : ActionControlBlock) : bool :=
  bool_decide (side_effect_class a = SideEffectClass.PURE) &&
  bool_decide (recovery_policy a = RecoveryPolicy.RETRY).

Definition reserve_retry_if_fenced (aid : string) (now : option Z) : M KState (bool * option string) :=
  clock ← gets clock_now;
  let t := default clock now in
  transaction (
    row ← gets (get_action aid);
    match row with
    | None => mret (false, Some "action_missing")
    | Some acb =>
        if decide (acb_state acb <> ActionState.RUNNING) then mret (false, Some (not_running acb))
        else if negb (retry_permitted acb) then mret (false, Some "retry_not_permitted")
        else if (1 <=? retry_count acb)%Z then mret (false, Some "retry_budget_exhausted")
        else
          fence ← gets (_validate_fencing_contract_tx acb t);
          match fence with
          | Some e => mret (false, Some e)
          | None =>
              let acb := set_retry acb (retry_count acb + 1)%Z in
              emit_tx (acb_pid acb) "ACTION_RETRY_RESERVED"
                [("action_id", JStr aid); ("retry_count", JInt (retry_count acb));
                 ("fencing_tokens", JObj (tokens_dump (fencing_tokens acb)))] t ;;
              _upsert_projection_tx acb ;;
              mret (true, None)
          end
    end).

Definition validate_reserved_retry_if_fenced (aid : string) (now : option Z)
    : M KState (bool * option string) :=
  clock ← gets clock_now;
  let t := default clock now in
  transaction (
    row ← gets (get_action aid);
    match row with
    | None => mret (false, Some "action_missing")
    | Some acb =>
        if decide (acb_state acb <> ActionState.RUNNING) then mret (false, Some (not_running acb))
        else if negb (retry_permitted acb) then mret (false, Some "retry_not_permitted")
        else if negb (retry_count acb =? 1)%Z then mret (false, Some "retry_not_reserved")
        else
          fence ← gets (_validate_fencing_contract_tx acb t);
          match fence with
          | Some e => mret (false, Some e)
          | None => mret (true, None)
          end
    end).

Definition commit_if_fenced (aid : string) (res : option jobj) (now : option Z)
    : M KState (bool * option string) :=
  clock ← gets clock_now;
  let t := default clock now in
  transaction (
    row ← gets (get_action aid);
    match row with
    | None => mret (false, Some "action_missing")
    | Some acb =>
        if decide (acb_state acb <> ActionState.RUNNING) then mret (false, Some (not_running acb))
        else
          fence ← gets (_validate_fencing_contract_tx acb t);
          match fence with
          | Some e => mret (false, Some e)
          | None =>
              acb ← applied acb ActionState.COMMITTED;
              let acb := set_outcome acb (Some (default [] res)) (acb_error acb) (Some t) in
              emit_tx (acb_pid acb) "ACTION_COMMITTED"
                [("action_id", JStr aid); ("result", JObj (default [] res));
                 ("fencing_tokens", JObj (tokens_dump (fencing_tokens acb)))] t ;;
              _upsert_projection_tx acb ;;
              mret (true, None)
          end
    end).

(** The common shape of the two [..._if_running] operations. *)
Definition fail_if_running (aid : string) (error : option jobj) : M KState bool :=
  transaction (
    row ← gets (get_action aid);
    match row with
    | None => mret false
    | Some acb =>
        if decide (acb_state acb <> ActionState.RUNNING) then mret false
        else
          acb ← applied acb ActionState.FAILED;
          now ← gets clock_now;
          let acb := set_outcome acb (acb_result acb) (Some (default [] error)) (Some now) in
          emit_tx (acb_pid acb) "ACTION_FAILED"
            [("action_id", JStr aid); ("error", JObj (default [] error))] now ;;
          _upsert_projection_tx acb ;;
          mret true
    end).

Definition mark_uncertain_if_running (aid : string) (detail : option jobj) : M KState bool :=
  transaction (
    row ← gets (get_action aid);
    match row with
    | None => mret false
    | Some acb =>
        if decide (acb_state acb <> ActionState.RUNNING) then mret false
        else
          acb ← applied acb ActionState.UNCERTAIN;
          now ← gets clock_now;
          let acb := set_outcome acb (acb_result acb) (Some (uncertain_detail detail)) (Some now) in
          emit_tx (acb_pid acb) "ACTION_UNCERTAIN"
            [("action_id", JStr aid); ("detail", JObj (uncertain_detail detail))] now ;;
          _upsert_projection_tx acb ;;
          mret true
    end).
End Service.

(** ** Projection handler *)

Definition state_map : list (string * ActionState.t) :=
  [("ACTION_ADMITTED", ActionState.ADMITTED); ("ACTION_RUNNING", ActionState.RUNNING);
   ("ACTION_COMMITTED", ActionState.COMMITTED); ("ACTION_FAILED", ActionState.FAILED);
   ("ACTION_REJECTED", ActionState.FAILED); ("ACTION_TIMED_OUT", ActionState.TIMED_OUT);
   ("ACTION_UNCERTAIN", ActionState.UNCERTAIN); ("ACTION_CANCELLED", ActionState.CANCELLED)].
Definition action_updates : list string :=
  ["ACTION_ADMITTED"; "ACTION_INTENT_DURABLE"; "ACTION_RUNNING"; "ACTION_RETRY_RESERVED";
   "ACTION_COMMITTED"; "ACTION_FAILED"; "ACTION_TIMED_OUT"; "ACTION_UNCERTAIN"; "ACTION_CANCELLED";
   "ACTION_REJECTED"].
Definition action_failures : list string :=
  ["ACTION_FAILED"; "ACTION_REJECTED"; "ACTION_TIMED_OUT"; "ACTION_UNCERTAIN"].

(** [payload.get(k) or ...] on objects *)
Definition truthy_obj (k : string) (pl : jobj) : option jobj :=
  match jget k pl ≫= as_obj with Some (_ :: _ as o) => Some o | _ => None end.

(** The control block after replaying an update event. *)
Definition replay_update (ev : KernelEvent) (a : ActionControlBlock) : ActionControlBlock :=
  let pl := payload ev in
  let ty := event_type ev in
  let a := match assoc ty state_map with Some st => acb_set_state a st | None => a end in
  let a := if String.eqb ty "ACTION_INTENT_DURABLE"
           then set_intent a (default [] (dfl (fun j => as_list j ≫= mapM as_str) [] "lease_ids" pl))
                  (default [] (dfl (fun j => as_obj j ≫= tokens_load) [] "fencing_tokens" pl))
           else a in
  let a := if String.eqb ty "ACTION_RETRY_RESERVED"
           then set_retry a (Z.max (Z.max (retry_count a) (default 1%Z (jget "retry_count" pl ≫= as_int))) 1)
           else a in
  let a := if String.eqb ty "ACTION_COMMITTED"
           then set_outcome a (Some (default [] (jget "result" pl ≫= as_obj))) (acb_error a) (Some (created_at ev))
           else a in
  if decide (ty ∈ action_failures)
  then set_outcome a (acb_result a)
         (Some (match truthy_obj "error" pl with
                | Some o => o
                | None => match truthy_obj "detail" pl with
                          | Some o => o
                          | None => [("reason", default (JStr "action_failed") (jget "reason" pl))]
                          end
                end)) (Some (created_at ev))
  else a.

(** [payload.setdefault("retry_count", 1)] *)
Definition with_retry_default (pl : jobj) : jobj :=
  match jget "retry_count" pl with Some _ => pl | None => pl ++ [("retry_count", JInt 1)] end.

Definition handle_event `{UuidSource} (ev : KernelEvent) : M KState unit :=
  if String.eqb (event_type ev) "ACTION_SUBMITTED" then
    fresh ← fresh_uuid;
    now ← gets clock_now;
    a ← some_or_raise (acb_load fresh now (with_retry_default (payload ev))) (ValidationError "ActionControlBlock");
    _upsert_projection a
  else if decide (event_type ev ∈ action_updates) then
    match jget "action_id" (payload ev) ≫= as_str with
    | None => mret tt
    | Some aid =>
        if String.eqb aid "" then mret tt
        else
          cur ← gets (get_action aid);
          match cur with
          | None => mret tt
          | Some a => _upsert_projection (replay_update ev a)
          end
    end
  else mret tt.
