(* ===== verification/ActionProps.v ===== *)
(** * Action service: behaviour and properties

    Every operation is one legal effect on one control block, journaled in the
    same step ([act_effect]); the run-level properties follow from the effects. *)

From S2P Require Import Prelude KernelModels StateMachine Storage Journal LeaseService LeaseFacts LeaseProps ActionService.

Definition upserted_action (a : ActionControlBlock) (s : KState) : KState :=
  set_actions (tbl_upsert action_id acb_conflict (acb_row a)) s.

Lemma get_action_id aid s a : get_action aid s = Some a -> action_id a = aid.
Proof. by intros [? _]%tbl_find_Some. Qed.
Lemma get_upserted_action a s aid :
  get_action aid (upserted_action a s) =
  if decide (aid = action_id a)
  then Some (match get_action aid s with Some old => acb_conflict old (acb_row a) | None => acb_row a end)
  else get_action aid s.
Proof.
  unfold get_action, upserted_action; cbn. case_decide as Ha.
  - subst aid. change (action_id a) with (action_id (acb_row a)). by apply tbl_find_upsert_eq.
  - by apply tbl_find_upsert_ne.
Qed.

(** What an operation may do to a control block, with the event it journals. *)
Inductive act_effect (a : ActionControlBlock) : ActionControlBlock -> string -> jobj -> Prop :=
| eff_transition target reason a1 res err fin ty pl :
    apply_action_transition a target = Ok (reason, a1) ->
    assoc ty state_map = Some target ->
    jget "action_id" pl = Some (JStr (action_id a)) ->
    (if decide (target = ActionState.COMMITTED)
     then res = Some (default [] (jget "result" pl ≫= as_obj)) else res = acb_result a) ->
    act_effect a (set_outcome a1 res err fin) ty pl
| eff_intent ids toks :
    act_effect a (set_intent a ids toks) "ACTION_INTENT_DURABLE"
      [("action_id", JStr (action_id a)); ("lease_ids", JList (JStr <$> ids));
       ("fencing_tokens", JObj (tokens_dump toks))]
| eff_retry :
    acb_state a = ActionState.RUNNING -> (retry_count a < 1)%Z -> retry_permitted a = true ->
    act_effect a (set_retry a (retry_count a + 1)%Z) "ACTION_RETRY_RESERVED"
      [("action_id", JStr (action_id a)); ("retry_count", JInt (retry_count a + 1));
       ("fencing_tokens", JObj (tokens_dump (fencing_tokens a)))].

Section Effects.
Context `{UuidSource}.

(** A step of the service on an existing action: nothing, or one effect. *)
Definition act_update (s s' : KState) : Prop :=
  s' = s \/
  exists a a' ty pl t, get_action (action_id a) s = Some a /\ act_effect a a' ty pl /\
    s' = upserted_action a' (logged s (emitted_at s (acb_pid a) ty pl t)).

Lemma set_outcome_id a : set_outcome a (acb_result a) (acb_error a) (finished_at a) = a.
Proof. by destruct a. Qed.
Lemma apply_action_fields a target reason a1 :
  apply_action_transition a target = Ok (reason, a1) ->
  a1 = acb_set_state a target.
Proof. by intros [_ ?]%apply_action_Ok. Qed.

(** The tail every unconditional operation ends with. *)
Lemma act_finish s a a' ty pl :
  log_ok s -> get_action (action_id a) s = Some a -> act_effect a a' ty pl -> acb_pid a' = acb_pid a ->
  act_update s ((ev ← emit (acb_pid a') ty pl; _upsert_projection a' ;; mret ev) s).2.
Proof.
  intros Hs Ha He Hp. rewrite (bind_Ok _ _ _ _ _ (emit_spec s (acb_pid a') ty pl Hs)). right.
  exists a, a', ty, pl, (clock_now s). rewrite Hp. split_and!; done.
Qed.
Lemma effect_pid a a' ty pl : act_effect a a' ty pl -> acb_pid a' = acb_pid a.
Proof. by destruct 1 as [? ? ? ? ? ? ? ? ->%apply_action_fields _ _ _|?|?]. Qed.

Lemma load_then {B} aid (k : ActionControlBlock -> M KState B) s :
  (forall a, get_action (action_id a) s = Some a -> action_id a = aid -> act_update s (k a s).2) ->
  act_update s ((load_action aid ≫= k) s).2.
Proof.
  intros Hk. unfold load_action. run_m. destruct (get_action aid s) as [a|] eqn:E; [|by left].
  pose proof (get_action_id _ _ _ E) as Hid. subst aid. apply (Hk a); done.
Qed.
Lemma applied_then {B} a target (k : ActionControlBlock -> M KState B) s :
  (forall reason a1, apply_action_transition a target = Ok (reason, a1) -> act_update s (k a1 s).2) ->
  act_update s ((applied a target ≫= k) s).2.
Proof.
  intros Hk. unfold applied. run_m. destruct (apply_action_transition a target) as [[reason a1]|e] eqn:E.
  - by apply (Hk reason).
  - by left.
Qed.

Lemma eff_plain a target reason a1 ty pl :
  apply_action_transition a target = Ok (reason, a1) -> target <> ActionState.COMMITTED ->
  assoc ty state_map = Some target -> jget "action_id" pl = Some (JStr (action_id a)) ->
  act_effect a a1 ty pl.
Proof.
  intros Ha Hn Hty Hpl. rewrite <-(set_outcome_id a1). eapply eff_transition; [exact Ha|exact Hty|done|].
  rewrite decide_False by done. by rewrite (apply_action_fields _ _ _ _ Ha).
Qed.
Lemma eff_failed a target reason a1 err fin ty pl :
  apply_action_transition a target = Ok (reason, a1) -> target <> ActionState.COMMITTED ->
  assoc ty state_map = Some target -> jget "action_id" pl = Some (JStr (action_id a)) ->
  act_effect a (set_outcome a1 (acb_result a1) err fin) ty pl.
Proof.
  intros Ha Hn Hty Hpl. eapply eff_transition; [exact Ha|exact Hty|done|].
  rewrite decide_False by done. by rewrite (apply_action_fields _ _ _ _ Ha).
Qed.
Lemma eff_committed a reason a1 r err fin pl :
  apply_action_transition a ActionState.COMMITTED = Ok (reason, a1) ->
  jget "action_id" pl = Some (JStr (action_id a)) -> jget "result" pl = Some (JObj r) ->
  act_effect a (set_outcome a1 (Some r) err fin) "ACTION_COMMITTED" pl.
Proof.
  intros Ha Hpl Hr. eapply eff_transition; [exact Ha|done|done|]. rewrite decide_True by done. by rewrite Hr.
Qed.

Ltac act_op := apply load_then; intros a Ha <-; apply applied_then; intros reason a1 Hap;
  try rewrite (bind_Ok (gets clock_now) _ _ _ _ eq_refl);
  apply (act_finish _ a); [done|done| |by rewrite (apply_action_fields _ _ _ _ Hap)].

Lemma admit_update aid s : log_ok s -> act_update s (admit_action aid s).2.
Proof. intros Hs. unfold admit_action. act_op. by eapply eff_plain. Qed.
Lemma reject_update aid why s : log_ok s -> act_update s (reject aid why s).2.
Proof. intros Hs. unfold reject. act_op. by eapply eff_failed. Qed.
Lemma dispatch_update aid s : log_ok s -> act_update s (dispatch aid s).2.
Proof. intros Hs. unfold dispatch. act_op. by eapply eff_plain. Qed.
Lemma commit_update aid res s : log_ok s -> act_update s (commit aid res s).2.
Proof. intros Hs. unfold commit. act_op. by eapply eff_committed. Qed.
Lemma fail_update aid err s : log_ok s -> act_update s (fail aid err s).2.
Proof. intros Hs. unfold fail. act_op. by eapply eff_failed. Qed.
Lemma timed_out_update aid s : log_ok s -> act_update s (mark_timed_out aid s).2.
Proof. intros Hs. unfold mark_timed_out. act_op. by eapply eff_failed. Qed.
Lemma uncertain_update aid detail s : log_ok s -> act_update s (mark_uncertain aid detail s).2.
Proof. intros Hs. unfold mark_uncertain. act_op. by eapply eff_failed. Qed.
Lemma cancel_update aid s : log_ok s -> act_update s (cancel aid s).2.
Proof. intros Hs. unfold cancel. act_op. by eapply eff_failed. Qed.
Lemma intent_update aid ids toks s : log_ok s -> act_update s (mark_intent_durable aid ids toks s).2.
Proof.
  intros Hs. unfold mark_intent_durable. apply load_then. intros a Ha <-.
  apply (act_finish _ a); [done|done|apply eff_intent|done].
Qed.

(** ** The conditional operations, exactly *)

Lemma emit_tx_run s pid ty pl t :
  log_ok s -> emit_tx pid ty pl t s = (Ok tt, logged s (emitted_at s pid ty pl t)).
Proof.
  intros Hs. unfold emit_tx, new_event_at, fresh_uuid, append_events_tx. run_m. cbn [map_each].
  unfold mbind, M_bind. by rewrite (append_row_fresh s pid ty pl t Hs).
Qed.

Definition fenced (a : ActionControlBlock) (t : Z) (s : KState) : bool :=
  bool_decide (_validate_fencing_contract_tx a t s = None).

Definition committed_acb (a : ActionControlBlock) (res : option jobj) (t : Z) : ActionControlBlock :=
  set_outcome (acb_set_state a ActionState.COMMITTED) (Some (default [] res)) (acb_error a) (Some t).

Lemma commit_if_fenced_run aid res now s :
  log_ok s ->
  let t := default (clock_now s) now in
  match get_action aid s with
  | Some a =>
      if bool_decide (acb_state a = ActionState.RUNNING) && fenced a t s
      then exists pl, commit_if_fenced aid res now s =
             (Ok (true, None), upserted_action (committed_acb a res t)
                                 (logged s (emitted_at s (acb_pid a) "ACTION_COMMITTED" pl t))) /\
             act_effect a (committed_acb a res t) "ACTION_COMMITTED" pl
      else exists e, commit_if_fenced aid res now s = (Ok (false, Some e), s)
  | None => commit_if_fenced aid res now s = (Ok (false, Some "action_missing"), s)
  end.
Proof.
  intros Hs t. unfold commit_if_fenced, transaction.
  rewrite (bind_Ok (gets clock_now) _ _ _ _ eq_refl). fold t.
  rewrite (bind_Ok (gets (get_action aid)) _ _ _ _ eq_refl).
  destruct (get_action aid s) as [a|] eqn:E; [|done]. pose proof (get_action_id _ _ _ E) as Hid.
  case_bool_decide as Hr; cbn [andb].
  - rewrite decide_False by (intros Hn; by apply Hn).
    rewrite (bind_Ok (gets (_validate_fencing_contract_tx a t)) _ _ _ _ eq_refl). unfold fenced.
    destruct (_validate_fencing_contract_tx a t s) as [e|]; cbn [bool_decide decide]; [by exists e|].
    assert (apply_action_transition a ActionState.COMMITTED = Ok ("driver_success", acb_set_state a ActionState.COMMITTED)) as Ha.
    { unfold apply_action_transition, validate_action_transition. by rewrite Hr. }
    unfold applied. rewrite Ha. eexists. split.
    + rewrite (bind_Ok (mret _) _ _ _ _ eq_refl), (bind_Ok _ _ _ _ _ (emit_tx_run s _ _ _ t Hs)). reflexivity.
    + eapply eff_committed; [exact Ha|by rewrite <-Hid|done].
  - rewrite decide_True by done. by eexists.
Qed.

Lemma reserve_retry_run aid now s :
  log_ok s ->
  let t := default (clock_now s) now in
  match get_action aid s with
  | Some a =>
      if bool_decide (acb_state a = ActionState.RUNNING) && retry_permitted a &&
         (retry_count a <? 1)%Z && fenced a t s
      then exists pl, reserve_retry_if_fenced aid now s =
             (Ok (true, None), upserted_action (set_retry a (retry_count a + 1)%Z)
                                 (logged s (emitted_at s (acb_pid a) "ACTION_RETRY_RESERVED" pl t))) /\
             act_effect a (set_retry a (retry_count a + 1)%Z) "ACTION_RETRY_RESERVED" pl
      else exists e, reserve_retry_if_fenced aid now s = (Ok (false, Some e), s)
  | None => reserve_retry_if_fenced aid now s = (Ok (false, Some "action_missing"), s)
  end.
Proof.
  intros Hs t. unfold reserve_retry_if_fenced, transaction.
  rewrite (bind_Ok (gets clock_now) _ _ _ _ eq_refl). fold t.
  rewrite (bind_Ok (gets (get_action aid)) _ _ _ _ eq_refl).
  destruct (get_action aid s) as [a|] eqn:E; [|done]. pose proof (get_action_id _ _ _ E) as Hid.
  case_bool_decide as Hr; cbn [andb]; [|rewrite decide_True by done; by eexists].
  rewrite decide_False by (intros Hn; by apply Hn).
  destruct (retry_permitted a) eqn:Hp; cbn [negb andb]; [|by eexists].
  destruct (Z.ltb_spec (retry_count a) 1) as [Hc|Hc]; cbn [andb];
    [rewrite (proj2 (Z.leb_gt _ _)) by lia|rewrite (proj2 (Z.leb_le _ _)) by lia; by eexists].
  rewrite (bind_Ok (gets (_validate_fencing_contract_tx a t)) _ _ _ _ eq_refl). unfold fenced.
  destruct (_validate_fencing_contract_tx a t s) as [e|]; cbn [bool_decide decide]; [by exists e|].
  eexists. split.
  - rewrite (bind_Ok _ _ _ _ _ (emit_tx_run s _ _ _ t Hs)). reflexivity.
  - cbn. rewrite <-Hid. by apply eff_retry.
Qed.

Lemma fail_if_running_update aid err s : log_ok s -> act_update s (fail_if_running aid err s).2.
Proof.
  intros Hs. unfold fail_if_running, transaction. rewrite (bind_Ok (gets (get_action aid)) _ _ _ _ eq_refl).
  destruct (get_action aid s) as [a|] eqn:E; [|by left]. pose proof (get_action_id _ _ _ E) as Hid. subst aid.
  case_decide as Hr; [by left|]. unfold applied.
  destruct (apply_action_transition a ActionState.FAILED) as [[reason a1]|e] eqn:Ha; [|by left].
  rewrite (bind_Ok (mret a1) _ s _ s eq_refl), (bind_Ok (gets clock_now) _ s _ s eq_refl).
  rewrite (bind_Ok _ _ _ _ _ (emit_tx_run s _ _ _ _ Hs)). right.
  pose proof (apply_action_fields _ _ _ _ Ha) as Hf. subst a1.
  eexists a, _, _, _, (clock_now s). split; [done|]. split; [|reflexivity]. by eapply eff_failed.
Qed.
Lemma uncertain_if_running_update aid detail s : log_ok s -> act_update s (mark_uncertain_if_running aid detail s).2.
Proof.
  intros Hs. unfold mark_uncertain_if_running, transaction. rewrite (bind_Ok (gets (get_action aid)) _ _ _ _ eq_refl).
  destruct (get_action aid s) as [a|] eqn:E; [|by left]. pose proof (get_action_id _ _ _ E) as Hid. subst aid.
  case_decide as Hr; [by left|]. unfold applied.
  destruct (apply_action_transition a ActionState.UNCERTAIN) as [[reason a1]|e] eqn:Ha; [|by left].
  rewrite (bind_Ok (mret a1) _ s _ s eq_refl), (bind_Ok (gets clock_now) _ s _ s eq_refl).
  rewrite (bind_Ok _ _ _ _ _ (emit_tx_run s _ _ _ _ Hs)). right.
  pose proof (apply_action_fields _ _ _ _ Ha) as Hf. subst a1.
  eexists a, _, _, _, (clock_now s). split; [done|]. split; [|reflexivity]. by eapply eff_failed.
Qed.
Lemma commit_if_fenced_update aid res now s : log_ok s -> act_update s (commit_if_fenced aid res now s).2.
Proof.
  intros Hs. pose proof (commit_if_fenced_run aid res now s Hs) as Hr. cbn in Hr.
  destruct (get_action aid s) as [a|] eqn:E; [|by left; rewrite Hr].
  pose proof (get_action_id _ _ _ E) as Hid. subst aid. destruct (_ && _).
  - destruct Hr as (pl & -> & He). right. by eexists a, _, _, pl, _.
  - destruct Hr as (e & ->). by left.
Qed.
Lemma reserve_retry_update aid now s : log_ok s -> act_update s (reserve_retry_if_fenced aid now s).2.
Proof.
  intros Hs. pose proof (reserve_retry_run aid now s Hs) as Hr. cbn in Hr.
  destruct (get_action aid s) as [a|] eqn:E; [|by left; rewrite Hr].
  pose proof (get_action_id _ _ _ E) as Hid. subst aid. destruct (_ && _).
  - destruct Hr as (pl & -> & He). right. by eexists a, _, _, pl, _.
  - destruct Hr as (e & ->). by left.
Qed.
Lemma validate_reserved_pure aid now s : (validate_reserved_retry_if_fenced aid now s).2 = s.
Proof.
  unfold validate_reserved_retry_if_fenced, transaction. run_m.
  by repeat case_match; simplify_eq.
Qed.

(** ** The two fence checks agree *)

Lemma check_leases_tx_spec pid ids tokens now acc s :
  leases_ok s ->
  match check_leases_tx pid ids tokens now acc s with
  | inl actual => exists ls, contract_leases pid ids now s = inl ls /\
      (check_tokens ids tokens s).1 = true /\ actual = acc ++ (lease_key <$> ls)
  | inr _ => forall ls, contract_leases pid ids now s = inl ls -> (check_tokens ids tokens s).1 = false
  end.
Proof.
  intros Hok. revert acc. induction ids as [|id ids IH]; intros acc; cbn.
  - exists []. by rewrite app_nil_r.
  - destruct (get_lease id s) as [l|] eqn:El; [|done].
    apply get_lease_Some in El as [_ Hin].
    destruct (String.eqb_spec (owner_pid l) pid); cbn; [|done].
    destruct (Z.leb_spec (expires_at l) now); [done|].
    pose proof (lok_pos s Hok _ _ (lok_token s Hok l Hin)) as Hpos.
    rewrite (proj2 (Z.leb_gt (fencing_token l) 0)) by done. cbn.
    destruct (decide (assoc (resource_id l) tokens = Some (fencing_token l))) as [Ha|Ha].
    + rewrite bool_decide_eq_false_2 by (intros Hn; by apply Hn).
      rewrite (decide_False (P := assoc _ _ <> _)) by (intros Hn; by apply Hn). rewrite Ha.
      destruct (decide (resource_fencing_tokens s !! resource_id l <> Some (fencing_token l))) as [Hf|Hf].
      * by destruct (contract_leases pid ids now s).
      * specialize (IH (acc ++ [lease_key l])).
        destruct (check_leases_tx pid ids tokens now (acc ++ [lease_key l]) s) as [actual|err].
        -- destruct IH as (ls & -> & Hc & ->). exists (l :: ls). split_and!; [done|done|].
           by rewrite <-app_assoc.
        -- intros ls Hls. destruct (contract_leases pid ids now s) as [ls'|]; [|done]. by apply (IH ls').
    + rewrite bool_decide_eq_true_2 by done. rewrite (decide_True (P := assoc _ _ <> _)) by done. done.
Qed.

Lemma check_tokens_fst ids tokens s : (check_tokens ids tokens s).1 = true -> check_tokens ids tokens s = (true, None).
Proof.
  induction ids as [|id ids IH]; cbn; [done|]. destruct (get_lease id s); [|done].
  do 2 (case_decide; [done|]). apply IH.
Qed.

Lemma fence_checks_agree a t s :
  leases_ok s ->
  _validate_fencing_contract_tx a t s = None <->
  validate_fencing_contract (acb_pid a) (resource_claims a) (lease_ids a) (fencing_tokens a) t s = (true, None).
Proof.
  intros Hok. unfold _validate_fencing_contract_tx, validate_fencing_contract, validate_action_contract.
  destruct (resource_claims a) as [|c claims] eqn:Hc.
  - destruct (lease_ids a) as [|i ids]; cbn; [|done]. destruct (fencing_tokens a) as [|[k v] toks]; cbn.
    + rewrite decide_False by (intros Hn; by apply Hn). done.
    + split; [done|]. rewrite decide_True; [done|]. set_solver.
  - cbv iota. rewrite <-Hc. destruct (decide (length (lease_ids a) <> length (resource_claims a) \/ ~ NoDup (lease_ids a))); [done|].
    pose proof (check_leases_tx_spec (acb_pid a) (lease_ids a) (fencing_tokens a) t [] s Hok) as Hs.
    destruct (decide (list_to_set (fencing_tokens a).*1 <> _)) as [Hne|He].
    + split; [done|]. destruct (contract_leases _ _ _ _); [|done]. by case_decide.
    + destruct (check_leases_tx _ _ _ _ _ _) as [actual|e].
      * destruct Hs as (ls & -> & Hck & ->). cbn [app]. case_decide; [|done]. cbn [negb fst].
        split; [|done]. intros _. by apply check_tokens_fst.
      * split; [done|]. destruct (contract_leases _ _ _ _) as [ls|]; [|done]. case_decide; [|done]. cbn [negb fst].
        specialize (Hs ls eq_refl). intros Hx. by rewrite Hx in Hs.
Qed.

(** ** Runs of the action service *)

(** Rows are stored normalized, under a non-empty id, with a retry count. *)
Definition actions_ok (s : KState) : Prop :=
  log_ok s /\
  forall a, a ∈ actions_projection s -> acb_row a = a /\ action_id a <> "" /\ (0 <= retry_count a)%Z.

(** The id [submit] chooses. *)
Definition chosen_id (aid : option string) (s : KState) : string :=
  match aid with
  | Some a => if String.eqb a "" then uuid4 (uuid_count s) else a
  | None => uuid4 (uuid_count s)
  end.

Inductive act_step : KState -> KState -> Prop :=
| act_submit pid dev op args sec rp idem timeout aid claims s :
    get_action (chosen_id aid s) s = None ->
    act_step s (submit pid dev op args sec rp idem timeout aid claims s).2
| act_admit aid s : act_step s (admit_action aid s).2
| act_reject aid reason s : act_step s (reject aid reason s).2
| act_intent aid ids toks s : act_step s (mark_intent_durable aid ids toks s).2
| act_dispatch aid s : act_step s (dispatch aid s).2
| act_commit aid res s : act_step s (commit aid res s).2
| act_fail aid err s : act_step s (fail aid err s).2
| act_timed_out aid s : act_step s (mark_timed_out aid s).2
| act_uncertain aid detail s : act_step s (mark_uncertain aid detail s).2
| act_cancel aid s : act_step s (cancel aid s).2
| act_commit_fenced aid res now s : act_step s (commit_if_fenced aid res now s).2
| act_reserve aid now s : act_step s (reserve_retry_if_fenced aid now s).2
| act_validate aid now s : act_step s (validate_reserved_retry_if_fenced aid now s).2
| act_fail_running aid err s : act_step s (fail_if_running aid err s).2
| act_uncertain_running aid detail s : act_step s (mark_uncertain_if_running aid detail s).2
| act_event pid ty pl s : String.prefix "ACTION_" ty = false -> act_step s (emit pid ty pl s).2
| act_frame s s' :
    actions_projection s' = actions_projection s -> journal_events s' = journal_events s ->
    meta_next_offset s' = meta_next_offset s -> (uuid_count s <= uuid_count s')%N -> act_step s s'.

(** The state [submit] leaves. *)
Definition submitted_acb pid dev op args sec rp idem timeout aid claims (s : KState) : ActionControlBlock :=
  mkACB (chosen_id aid s) pid dev op (default [] args) ActionState.SUBMITTED (default [] claims) [] []
    idem sec rp 0 timeout None None (clock_now s) None.

Lemma log_ok_frame s s' :
  journal_events s' = journal_events s -> meta_next_offset s' = meta_next_offset s ->
  (uuid_count s <= uuid_count s')%N -> log_ok s -> log_ok s'.
Proof.
  intros Hj Hm Hu [H1 H2]. split; [by apply (journal_ok_same s)|]. intros n e Hn. rewrite Hj. apply H2. lia.
Qed.

Lemma choose_id_run aid s :
  exists s1, choose_id aid s = (Ok (chosen_id aid s), s1) /\ (s1 = s \/ s1 = set_uuid N.succ s) /\
    chosen_id aid s <> "".
Proof.
  unfold choose_id, chosen_id. destruct aid as [x|].
  - destruct (String.eqb_spec x "") as [->|Hne]; eexists; split_and!; try done;
      [by right|apply uuid4_nonempty|by left].
  - eexists. split_and!; [done|by right|apply uuid4_nonempty].
Qed.

Lemma submit_run pid dev op args sec rp idem timeout aid claims s :
  log_ok s -> let a := submitted_acb pid dev op args sec rp idem timeout aid claims s in
  exists s1, (s1 = s \/ s1 = set_uuid N.succ s) /\ log_ok s1 /\ action_id a <> "" /\
    submit pid dev op args sec rp idem timeout aid claims s =
    (Ok a, upserted_action a (logged s1 (emitted s1 pid "ACTION_SUBMITTED" (acb_dump a)))).
Proof.
  intros Hs a. destruct (choose_id_run aid s) as (s1 & E & Hs1 & Hne).
  assert (log_ok s1) as Hl by (destruct Hs1 as [->| ->]; [done|by apply fresh_uuid_log_ok]).
  assert (clock_now s1 = clock_now s) as Hc by (by destruct Hs1 as [->| ->]).
  exists s1. split_and!; [done|done|done|]. unfold submit. rewrite (bind_Ok _ _ _ _ _ E).
  rewrite (bind_Ok (gets clock_now) _ s1 _ s1 eq_refl), Hc. fold (submitted_acb pid dev op args sec rp idem timeout aid claims s).
  fold a. rewrite (bind_Ok _ _ _ _ _ (emit_spec s1 pid "ACTION_SUBMITTED" (acb_dump a) Hl)). done.
Qed.

(** What any step does to the rows: a legal effect on one, a new one, nothing. *)
Definition act_change (s s' : KState) : Prop :=
  actions_projection s' = actions_projection s \/
  (exists a a' ty pl s1, get_action (action_id a) s = Some a /\ act_effect a a' ty pl /\
     s' = upserted_action a' s1 /\ actions_projection s1 = actions_projection s) \/
  (exists a s1, get_action (action_id a) s = None /\ s' = upserted_action a s1 /\
     action_id a <> "" /\ retry_count a = 0%Z /\ actions_projection s1 = actions_projection s).

Lemma update_change s s' : log_ok s -> act_update s s' -> log_ok s' /\ act_change s s'.
Proof.
  intros Hs [->|(a & a' & ty & pl & t & Ha & He & ->)]; [by split; [|left]|]. split.
  - apply (log_ok_same (logged s (emitted_at s (acb_pid a) ty pl t))); [done..|by apply logged_ok].
  - right; left. by exists a, a', ty, pl, (logged s (emitted_at s (acb_pid a) ty pl t)).
Qed.

Lemma act_step_change s s' : act_step s s' -> log_ok s -> log_ok s' /\ act_change s s'.
Proof.
  intros Hstep Hs. destruct Hstep.
  2-12, 14-15: apply update_change; [done|eauto using admit_update, reject_update, intent_update,
    dispatch_update, commit_update, fail_update, timed_out_update, uncertain_update, cancel_update,
    commit_if_fenced_update, reserve_retry_update, fail_if_running_update, uncertain_if_running_update].
  - destruct (submit_run pid dev op args sec rp idem timeout aid claims s Hs) as (s1 & Hs1 & Hl & Hne & ->).
    split; [by apply (log_ok_same (logged s1 (emitted s1 pid "ACTION_SUBMITTED"
      (acb_dump (submitted_acb pid dev op args sec rp idem timeout aid claims s))))), logged_ok|].
    right; right. eexists _, _. split_and!; [|reflexivity|done|done|by destruct Hs1 as [->| ->]]. done.
  - rewrite validate_reserved_pure. by split; [|left].
  - rewrite emit_spec by done. split; [by apply logged_ok|by left].
  - split; [by apply (log_ok_frame s)|by left].
Qed.

Lemma effect_id a a' ty pl : act_effect a a' ty pl -> action_id a' = action_id a.
Proof. by destruct 1 as [? ? ? ? ? ? ? ? ->%apply_action_fields _ _ _|?|?]. Qed.
Lemma effect_row a a' ty pl : act_effect a a' ty pl -> acb_conflict a (acb_row a') = acb_row a'.
Proof. by destruct 1 as [? ? ? ? ? ? ? ? ->%apply_action_fields _ _ _|?|?]. Qed.
Lemma stored_obj_idem o : stored_obj (stored_obj o) = stored_obj o.
Proof. by destruct o as [[|]|]. Qed.
Lemma acb_row_row a : acb_row (acb_row a) = acb_row a.
Proof. unfold acb_row, acb_with; cbn. by rewrite !stored_obj_idem. Qed.

(** What a legal effect never undoes. *)
Definition act_progress (a a' : ActionControlBlock) : Prop :=
  (retry_count a <= retry_count a')%Z /\
  (acb_state a ∈ TERMINAL_ACTION_STATES ->
   acb_state a' = acb_state a /\ acb_result a' = acb_result a /\ acb_error a' = acb_error a /\
   finished_at a' = finished_at a /\ retry_count a' = retry_count a).

Lemma effect_progress a a' ty pl :
  acb_row a = a -> act_effect a a' ty pl -> act_progress a (acb_row a').
Proof.
  intros Hrow. assert (stored_obj (acb_result a) = acb_result a /\ stored_obj (acb_error a) = acb_error a) as [Hr He].
  { rewrite <-Hrow at 2 4. done. }
  destruct 1 as [target reason a1 res err fin ty pl Ha _ _ _|ids toks|Hrun Hc]; split; cbn; try lia.
  - by rewrite (apply_action_fields _ _ _ _ Ha).
  - intros Ht. by apply apply_action_Ok in Ha as [Hn _].
  - done.
  - intros Ht. rewrite Hrun in Ht. set_solver.
Qed.

Lemma change_ok s s' :
  actions_ok s -> log_ok s' -> act_change s s' ->
  actions_ok s' /\
  forall aid a, get_action aid s = Some a -> exists a', get_action aid s' = Some a' /\ act_progress a a'.
Proof.
  intros [Hs Hrows] Hs' Hc.
  assert (forall a, act_progress a a) as Hrefl by (intros a; split; [lia|done]).
  destruct Hc as [Hsame|[(a & a' & ty & pl & s1 & Ha & He & -> & Hs1)|(a & s1 & Hnone & -> & Hne & Hrc & Hs1)]].
  - split; [split; [done|by rewrite Hsame]|]. intros aid a Ha. exists a. unfold get_action. by rewrite Hsame.
  - pose proof Ha as [_ Hin]%tbl_find_Some. destruct (Hrows a Hin) as (Hrow & Hne & Hpos).
    pose proof (effect_progress _ _ _ _ Hrow He) as Hp. pose proof (effect_id _ _ _ _ He) as Hid.
    split.
    + split; [done|]. intros b Hb. cbn in Hb. rewrite Hs1 in Hb.
      apply elem_of_tbl_upsert in Hb as [Hb|[->|(old & Hold & Hk & ->)]]; [by apply Hrows| |].
      * split; [apply acb_row_row|]. cbn. rewrite Hid. split; [done|]. destruct Hp as [Hp _]. cbn in Hp. lia.
      * destruct (Hrows old Hold) as (_ & Hne' & _). split; [|split; [done|]].
        -- unfold acb_conflict, acb_row, acb_with; cbn. by rewrite !stored_obj_idem.
        -- destruct Hp as [Hp _]. cbn in *. lia.
    + intros aid b Hb. rewrite get_upserted_action.
      assert (get_action aid s1 = get_action aid s) as -> by (unfold get_action; by rewrite Hs1).
      destruct (decide (aid = action_id a')) as [->|Hne']; [|by exists b]. rewrite Hb. rewrite Hid in Hb.
      assert (b = a) as -> by congruence. rewrite (effect_row _ _ _ _ He). by eexists.
  - split.
    + split; [done|]. intros b Hb. cbn in Hb. rewrite Hs1 in Hb.
      apply elem_of_tbl_upsert in Hb as [Hb|[->|(old & Hold & Hk & ->)]]; [by apply Hrows| |].
      * split; [apply acb_row_row|]. cbn. split; [done|]. lia.
      * exfalso. unfold get_action in Hnone. rewrite tbl_find_None in Hnone. by apply (Hnone old).
    + intros aid b Hb. exists b. split; [|done]. rewrite get_upserted_action.
      assert (get_action aid s1 = get_action aid s) as -> by (unfold get_action; by rewrite Hs1).
      rewrite decide_False by congruence. done.
Qed.

Lemma act_run_progress s s' :
  rtc act_step s s' -> actions_ok s ->
  actions_ok s' /\
  forall aid a, get_action aid s = Some a -> exists a', get_action aid s' = Some a' /\ act_progress a a'.
Proof.
  induction 1 as [s|s s1 s' Hstep _ IH]; intros Hs.
  - split; [done|]. intros aid a Ha. exists a. split; [done|]. split; [lia|done].
  - destruct (act_step_change s s1 Hstep (proj1 Hs)) as [Hl1 Hc].
    destruct (change_ok s s1 Hs Hl1 Hc) as [Hs1 Hp1]. destruct (IH Hs1) as [Hs' Hp2]. split; [done|].
    intros aid a Ha. destruct (Hp1 aid a Ha) as (a1 & Ha1 & Hle1 & Ht1).
    destruct (Hp2 aid a1 Ha1) as (a2 & Ha2 & Hle2 & Ht2). exists a2. split; [done|]. split; [lia|].
    intros Ht. destruct (Ht1 Ht) as (E1 & E2 & E3 & E4 & E5).
    destruct Ht2 as (F1 & F2 & F3 & F4 & F5); [by rewrite E1|]. split_and!; congruence.
Qed.

(** ** Replay *)

(** A control block without its error detail and its finishing time. *)
Definition act_view (a : ActionControlBlock) : ActionControlBlock :=
  acb_with a (acb_state a) (resource_claims a) (lease_ids a) (fencing_tokens a) (retry_count a)
    (acb_result a) None None.
Definition same_actions (s r : KState) : Prop :=
  forall aid, act_view <$> get_action aid r = act_view <$> get_action aid s.
Abbreviation act_replays := (replays handle_event same_actions).

Lemma act_view_inv a b : act_view a = act_view b ->
  exists err fin, a = set_outcome b (acb_result b) err fin.
Proof.
  intros Hv. exists (acb_error a), (finished_at a).
  destruct a, b. unfold act_view, acb_with in Hv; cbn in Hv. injection Hv; intros; subst. reflexivity.
Qed.

Lemma state_map_type ty target :
  assoc ty state_map = Some target ->
  String.eqb ty "ACTION_INTENT_DURABLE" = false /\ String.eqb ty "ACTION_RETRY_RESERVED" = false /\
  (String.eqb ty "ACTION_COMMITTED" = true <-> target = ActionState.COMMITTED) /\
  ty ∈ action_updates /\ ty <> "ACTION_SUBMITTED".
Proof.
  unfold state_map, action_updates. cbn.
  repeat (case_decide; [subst; intros [= <-]; split_and!; [done|done|by split|set_solver|done]|]). done.
Qed.

(** Replaying an effect on a block with the same view gives the same view. *)
Lemma replay_effect a b a' ty pl ev :
  act_effect a a' ty pl -> (0 <= retry_count a)%Z -> act_view b = act_view a ->
  event_type ev = ty -> payload ev = pl ->
  act_view (acb_conflict b (acb_row (replay_update ev b))) = act_view (acb_row a').
Proof.
  intros He Hrc (err & fin & ->)%act_view_inv Hty Hpl. destruct He as
    [target reason a1 res err' fin' ty pl Ha Hm Hid Hres|ids toks|Hrun Hc].
  - rewrite (apply_action_fields _ _ _ _ Ha). unfold replay_update. rewrite Hty, Hm, Hpl.
    destruct (state_map_type ty target Hm) as (-> & -> & Hcm & _).
    destruct (String.eqb ty "ACTION_COMMITTED"); (destruct (decide (target = ActionState.COMMITTED)) as [->|Hne]);
      try (exfalso; by destruct Hcm as [H1 H2]; (apply Hne, H1 || discriminate (H2 eq_refl))); subst res;
      by case_decide.
  - unfold replay_update. rewrite Hty, Hpl. replace (assoc _ state_map) with (@None ActionState.t) by done.
    cbn -[mapM tokens_load]. unfold dfl. cbn -[mapM tokens_load].
    rewrite (mapM_roundtrip JStr as_str ids) by done. rewrite tokens_roundtrip. by case_decide.
  - unfold replay_update. rewrite Hty, Hpl. replace (assoc _ state_map) with (@None ActionState.t) by done.
    cbn -[Z.max Z.add].
    replace (Z.max (Z.max (retry_count a) (retry_count a + 1)) 1) with (retry_count a + 1)%Z by lia.
    by case_decide.
Qed.

Lemma replay_update_id ev b : action_id (replay_update ev b) = action_id b.
Proof.
  unfold replay_update.
  destruct (decide _), (String.eqb (event_type ev) "ACTION_COMMITTED"),
    (String.eqb (event_type ev) "ACTION_RETRY_RESERVED"),
    (String.eqb (event_type ev) "ACTION_INTENT_DURABLE"), (assoc (event_type ev) state_map); reflexivity.
Qed.

Lemma effect_type a a' ty pl : act_effect a a' ty pl ->
  ty ∈ action_updates /\ ty <> "ACTION_SUBMITTED" /\ jget "action_id" pl = Some (JStr (action_id a)).
Proof.
  destruct 1 as [target reason a1 res err fin ty pl Ha Hm Hid _|ids toks|_ _].
  - by destruct (state_map_type ty target Hm) as (_ & _ & _ & ? & ?).
  - split_and!; [unfold action_updates; set_solver|done|done].
  - split_and!; [unfold action_updates; set_solver|done|done].
Qed.

Lemma update_replays s s' :
  actions_ok s -> act_update s s' -> act_replays s s'.
Proof.
  intros [Hs Hrows] [->|(a & a' & ty & pl & t & Ha & He & ->)]; [reflexivity|].
  pose proof Ha as [_ Hin]%tbl_find_Some. destruct (Hrows a Hin) as (Hrow & Hne & Hpos).
  destruct (effect_type _ _ _ _ He) as (Hty & Hns & Hpl).
  eapply (replays_one _ _ s (acb_pid a) ty pl t).
  { intros _. split; [done|].
    apply (log_ok_same (logged s (emitted_at s (acb_pid a) ty pl t))); [done..|by apply logged_ok]. }
  intros r Hr. pose proof (Hr (action_id a)) as Hra. rewrite Ha in Hra.
  destruct (get_action (action_id a) r) as [b|] eqn:Hb; [|done].
  assert (act_view b = act_view a) as Hv by (by apply (inj Some)).
  pose proof (get_action_id _ _ _ Hb) as Hbid.
  set (ev := emitted_at s (acb_pid a) ty pl t).
  exists (upserted_action (replay_update ev b) r). split.
  - unfold handle_event. change (event_type ev) with ty. change (payload ev) with pl.
    rewrite (proj2 (String.eqb_neq _ _) Hns), decide_True, Hpl by done. cbn [mbind option_bind as_str].
    rewrite (proj2 (String.eqb_neq _ _) Hne). run_m. by rewrite Hb.
  - intros aid. rewrite get_upserted_action.
    rewrite replay_update_id, Hbid. transitivity (act_view <$> get_action aid (upserted_action a' s)); [|done].
    rewrite get_upserted_action, (effect_id _ _ _ _ He). destruct (decide (aid = action_id a)) as [->|Hd]; [|apply Hr].
    rewrite Hb, Ha, (effect_row _ _ _ _ He). cbn. f_equal. by apply (replay_effect a b a' ty pl ev).
Qed.

Lemma submit_replays pid dev op args sec rp idem timeout aid claims s :
  log_ok s -> get_action (chosen_id aid s) s = None ->
  act_replays s (submit pid dev op args sec rp idem timeout aid claims s).2.
Proof.
  intros Hs Hnone.
  destruct (submit_run pid dev op args sec rp idem timeout aid claims s Hs) as (s1 & Hs1 & Hl & Hne & ->).
  set (a := submitted_acb pid dev op args sec rp idem timeout aid claims s). cbn [snd].
  assert (act_replays s s1) as H1.
  { destruct Hs1 as [->| ->]; [reflexivity|].
    exact (fresh_uuid_replays handle_event same_actions (fun _ _ Hr => Hr) s). }
  assert (forall x, get_action x s1 = get_action x s) as Hg by (by destruct Hs1 as [->| ->]).
  apply (transitivity (R := act_replays) H1).
  eapply (replays_one _ _ s1 pid "ACTION_SUBMITTED" (acb_dump a) (clock_now s1)).
  { intros _. split; [done|].
    apply (log_ok_same (logged s1 (emitted s1 pid "ACTION_SUBMITTED" (acb_dump a)))); [done..|by apply logged_ok]. }
  intros r Hr. exists (upserted_action a (set_uuid N.succ r)). split.
  - unfold handle_event. cbn [event_type emitted_at String.eqb Ascii.eqb Bool.eqb payload].
    unfold fresh_uuid. run_m. change (with_retry_default (acb_dump a)) with (acb_dump a).
    by rewrite acb_roundtrip.
  - intros x. transitivity (act_view <$> get_action x (upserted_action a s1)); [|done].
    rewrite !get_upserted_action. change (get_action x (set_uuid N.succ r)) with (get_action x r).
    destruct (decide (x = action_id a)) as [->|Hx]; [|apply Hr].
    pose proof (Hr (action_id a)) as Hra. rewrite Hg in *. cbn in Hra |- *. rewrite Hnone in *.
    by destruct (get_action (chosen_id aid s) r).
Qed.

Lemma handle_other_action_event ev r :
  String.prefix "ACTION_" (event_type ev) = false -> handle_event ev r = (Ok tt, r).
Proof.
  intros Hp. unfold handle_event.
  destruct (String.eqb_spec (event_type ev) "ACTION_SUBMITTED") as [He|_]; [by rewrite He in Hp|].
  rewrite decide_False; [done|]. intros Hin. unfold action_updates in Hin.
  repeat (apply elem_of_cons in Hin as [Hin|Hin]; [by rewrite Hin in Hp|]). by apply not_elem_of_nil in Hin.
Qed.

Lemma act_step_replays s s' : act_step s s' -> actions_ok s -> act_replays s s'.
Proof.
  intros Hstep Hs. pose proof (proj1 Hs) as Hl. destruct Hstep.
  2-12, 14-15: apply update_replays; [done|eauto using admit_update, reject_update, intent_update,
    dispatch_update, commit_update, fail_update, timed_out_update, uncertain_update, cancel_update,
    commit_if_fenced_update, reserve_retry_update, fail_if_running_update, uncertain_if_running_update].
  - by apply submit_replays.
  - rewrite validate_reserved_pure. reflexivity.
  - rewrite emit_spec by done. eapply (replays_one _ _ s pid ty pl (clock_now s)).
    { intros _. split; [done|by apply logged_ok]. }
    intros r Hr. exists r. split; [by apply handle_other_action_event|exact Hr].
  - apply replays_silent; [done|by apply log_ok_frame|]. intros r Hr aid. unfold get_action.
    rewrite H0. apply Hr.
Qed.

Lemma act_run_replays s s' : rtc act_step s s' -> actions_ok s -> act_replays s s'.
Proof.
  induction 1 as [|s s1 s' Hs _ IH]; intros Hk; [reflexivity|].
  transitivity s1; [by apply act_step_replays|]. apply IH.
  destruct (act_step_change s s1 Hs (proj1 Hk)) as [Hl1 Hc]. by apply (change_ok s s1).
Qed.

Lemma init_actions_ok now : actions_ok (init_storage now).
Proof. split; [apply init_log_ok|]. intros a Ha. by apply not_elem_of_nil in Ha. Qed.
End Effects.

(** ** Properties *)

(** The two fence checks are equivalent.  The check the action service runs
    inside its transactions accepts exactly when the lease service's
    [validate_fencing_contract] accepts the action's contract. *)
Theorem fence_checks_equivalent `{UuidSource} a t s :
  leases_ok s ->
  _validate_fencing_contract_tx a t s = None <->
  validate_fencing_contract (acb_pid a) (resource_claims a) (lease_ids a) (fencing_tokens a) t s = (true, None).
Proof. apply fence_checks_agree. Qed.

Definition demo_leased : KState := (demo_acquire "p1" "R" exclusive (init_storage 0)).2.
Lemma demo_leased_ok : @kernel_ok pretty_uuid demo_leased.
Proof.
  apply (@lease_run_ok pretty_uuid (init_storage 0)); [|apply (@init_kernel_ok pretty_uuid)].
  apply rtc_once. exact (@step_acquire pretty_uuid "p1" [mkClaim "R" (Some exclusive)] DEFAULT_LEASE_TTL _).
Qed.
Definition demo_fenced (st : ActionState.t) : ActionControlBlock :=
  acb_with (demo_acb st) st [mkClaim "R" None] ["uuid-0"] [("R", 1%Z)] 0 None None None.
Definition demo_action_state (st : ActionState.t) : KState := set_actions (fun _ => [demo_fenced st]) demo_leased.
Lemma set_actions_kernel_ok `{UuidSource} f s : kernel_ok s -> kernel_ok (set_actions f s).
Proof. intros [Hl Hk]. split; [by apply (log_ok_same s)|by apply (leases_ok_same s)]. Qed.
Lemma demo_action_kernel_ok st : @kernel_ok pretty_uuid (demo_action_state st).
Proof. apply set_actions_kernel_ok, demo_leased_ok. Qed.

Lemma fence_checks_equivalent_witness :
  _validate_fencing_contract_tx (demo_fenced ActionState.RUNNING) 10 demo_leased = None <->
  validate_fencing_contract "p1" [mkClaim "R" None] ["uuid-0"] [("R", 1%Z)] 10 demo_leased = (true, None).
Proof.
  apply (@fence_checks_equivalent pretty_uuid (demo_fenced ActionState.RUNNING) 10 demo_leased).
  apply demo_leased_ok.
Defined.

(** C2: the fenced commit.  [commit_if_fenced] commits exactly a RUNNING action
    whose contract holds at that moment: then every claimed resource is held
    through the action's own unexpired leases with the newest tokens and no
    conflicting holder, one event is journaled, exactly this action becomes
    COMMITTED with the result and the time, and no lease changes.  In every other
    case it reports why and changes nothing at all. *)
Theorem commit_if_fenced_exact `{UuidSource} aid res now s :
  kernel_ok s ->
  let t := default (clock_now s) now in
  match get_action aid s with
  | None => commit_if_fenced aid res now s = (Ok (false, Some "action_missing"), s)
  | Some a =>
      let valid := acb_state a = ActionState.RUNNING /\
        validate_fencing_contract (acb_pid a) (resource_claims a) (lease_ids a) (fencing_tokens a) t s = (true, None) in
      (valid -> exists a' ev s', commit_if_fenced aid res now s = (Ok (true, None), s') /\
         (forall c, c ∈ resource_claims a -> claim_held (acb_pid a) (lease_ids a) (fencing_tokens a) t s c) /\
         get_action aid s' = Some a' /\ acb_state a' = ActionState.COMMITTED /\ finished_at a' = Some t /\
         acb_result a' = stored_obj (Some (default [] res)) /\
         (forall aid', aid' <> aid -> get_action aid' s' = get_action aid' s) /\
         journal_events s' = journal_events s ++ [ev] /\ event_type ev = "ACTION_COMMITTED" /\
         leases_projection s' = leases_projection s) /\
      (~ valid -> exists e, commit_if_fenced aid res now s = (Ok (false, Some e), s))
  end.
Proof.
  intros [Hl Hk] t. pose proof (commit_if_fenced_run aid res now s Hl) as Hr. fold t in Hr. cbv zeta in Hr.
  destruct (get_action aid s) as [a|] eqn:Ea; [|done]. pose proof (get_action_id _ _ _ Ea) as Hid.
  pose proof (fence_checks_agree a t s Hk) as Hf. unfold fenced in Hr.
  intros valid. destruct (bool_decide (acb_state a = ActionState.RUNNING) && _) eqn:Ev.
  - apply andb_true_iff in Ev as [Er%bool_decide_eq_true Ef%bool_decide_eq_true].
    assert (valid) as Hv by (split; [done|by apply Hf]). split; [intros _|intros Hn; by destruct Hn].
    destruct Hr as (pl & E & He). eexists _, _, _. split; [exact E|].
    assert (action_id (committed_acb a res t) = aid) as Hid' by done.
    split.
    { intros c Hc. apply (contract_claims_held _ (resource_claims a)); [done| |done]. by rewrite (proj2 Hv). }
    split.
    { rewrite get_upserted_action, Hid', decide_True by done.
      change (get_action aid (logged s _)) with (get_action aid s). rewrite Ea. reflexivity. }
    split_and!; [done|done|done| |reflexivity|done|done].
    intros aid' Hne. rewrite get_upserted_action, Hid', decide_False by done. done.
  - split; [|done]. intros [Hv1 Hv2]. apply Hf in Hv2.
    by rewrite !bool_decide_eq_true_2 in Ev by done.
Qed.

Lemma commit_if_fenced_exact_witness :
  let s := demo_action_state ActionState.RUNNING in
  exists a' ev s', @commit_if_fenced pretty_uuid "a1" None None s = (Ok (true, None), s') /\
    (forall c, c ∈ [mkClaim "R" None] -> claim_held "p1" ["uuid-0"] [("R", 1%Z)] 0 s c) /\
    get_action "a1" s' = Some a' /\ acb_state a' = ActionState.COMMITTED /\ finished_at a' = Some 0%Z /\
    acb_result a' = None /\
    (forall aid', aid' <> "a1" -> get_action aid' s' = get_action aid' s) /\
    journal_events s' = journal_events s ++ [ev] /\ event_type ev = "ACTION_COMMITTED" /\
    leases_projection s' = leases_projection s.
Proof.
  apply (@commit_if_fenced_exact pretty_uuid "a1" None None (demo_action_state ActionState.RUNNING)
           (demo_action_kernel_ok ActionState.RUNNING)).
  split; vm_compute; reflexivity.
Defined.

(** An action enters at most one terminal state.  Whatever operations run
    afterwards, conditional or not, on this action or others, a terminal action
    keeps its state, result, error, finishing time and retry count. *)
Theorem terminal_action_absorbing `{UuidSource} s s' aid a :
  actions_ok s -> get_action aid s = Some a -> acb_state a ∈ TERMINAL_ACTION_STATES ->
  rtc act_step s s' ->
  exists a', get_action aid s' = Some a' /\ acb_state a' = acb_state a /\ acb_result a' = acb_result a /\
    acb_error a' = acb_error a /\ finished_at a' = finished_at a /\ retry_count a' = retry_count a.
Proof.
  intros Hs Ha Ht Hr. destruct (act_run_progress s s' Hr Hs) as [_ Hp].
  destruct (Hp aid a Ha) as (a' & Ha' & _ & Hfin). exists a'. split; [done|by apply Hfin].
Qed.

Lemma demo_actions_ok st : @actions_ok pretty_uuid (demo_action_state st).
Proof.
  split; [apply demo_action_kernel_ok|]. intros a Ha%list_elem_of_singleton. subst a. done.
Qed.

Lemma terminal_action_absorbing_witness :
  let s := demo_action_state ActionState.COMMITTED in
  let s' := (@fail_if_running pretty_uuid "a1" None s).2 in
  exists a', get_action "a1" s' = Some a' /\ acb_state a' = ActionState.COMMITTED /\ acb_result a' = None /\
    acb_error a' = None /\ finished_at a' = None /\ retry_count a' = 0%Z.
Proof.
  apply (@terminal_action_absorbing pretty_uuid (demo_action_state ActionState.COMMITTED) _ "a1"
           (demo_fenced ActionState.COMMITTED) (demo_actions_ok _)); [reflexivity|set_solver|].
  apply rtc_once. apply (@act_fail_running pretty_uuid).
Defined.

(** The retry budget.  A retry is reserved only for a RUNNING, side-effect free
    action with the RETRY policy, under a valid fence; and once it is reserved,
    no later attempt, after whatever run, reserves a second one. *)
Theorem retry_reserved_once `{UuidSource} aid now s s1 :
  actions_ok s -> reserve_retry_if_fenced aid now s = (Ok (true, None), s1) ->
  (exists a, get_action aid s = Some a /\ acb_state a = ActionState.RUNNING /\
     side_effect_class a = SideEffectClass.PURE /\ recovery_policy a = RecoveryPolicy.RETRY /\
     retry_count a = 0%Z /\ _validate_fencing_contract_tx a (default (clock_now s) now) s = None) /\
  forall s2 now', rtc act_step s1 s2 ->
    exists e, reserve_retry_if_fenced aid now' s2 = (Ok (false, Some e), s2).
Proof.
  intros Hs E. pose proof (reserve_retry_run aid now s (proj1 Hs)) as Hr. cbv zeta in Hr.
  destruct (get_action aid s) as [a|] eqn:Ea; [|rewrite E in Hr; done].
  pose proof (get_action_id _ _ _ Ea) as Hid. pose proof Ea as [_ Hin]%tbl_find_Some.
  destruct (proj2 Hs a Hin) as (_ & _ & Hpos).
  destruct (bool_decide _ && _ && _ && _) eqn:Ec; [|destruct Hr as (e & Hr); rewrite E in Hr; done].
  apply andb_true_iff in Ec as [[[Er%bool_decide_eq_true Ep]%andb_true_iff Eb%Z.ltb_lt]%andb_true_iff Ef%bool_decide_eq_true].
  apply andb_true_iff in Ep as [Ep1%bool_decide_eq_true Ep2%bool_decide_eq_true].
  split; [exists a; split_and!; [done..|lia|done]|].
  destruct Hr as (pl & Hr & He). rewrite E in Hr. injection Hr as ->.
  set (s1 := upserted_action _ _). intros s2 now' Hrun.
  destruct (act_step_change s s1) as [Hl1 Hc]; [|apply Hs|].
  { replace s1 with (reserve_retry_if_fenced aid now s).2 by (by rewrite E). apply act_reserve. }
  destruct (change_ok s s1 Hs Hl1 Hc) as [Hs1 _].
  assert (get_action aid s1 = Some (acb_row (set_retry a (retry_count a + 1)%Z))) as Ha1.
  { unfold s1. rewrite get_upserted_action, decide_True by done.
    change (get_action aid (logged s _)) with (get_action aid s). rewrite Ea. done. }
  destruct (act_run_progress s1 s2 Hrun Hs1) as [Hs2 Hp].
  destruct (Hp aid _ Ha1) as (a2 & Ha2 & Hle & _). cbn in Hle.
  pose proof (reserve_retry_run aid now' s2 (proj1 Hs2)) as Hr2. cbv zeta in Hr2. rewrite Ha2 in Hr2.
  rewrite (proj2 (Z.ltb_ge (retry_count a2) 1)) in Hr2 by lia. by rewrite andb_false_r in Hr2.
Qed.

Lemma retry_reserved_once_witness :
  let s := demo_action_state ActionState.RUNNING in
  let s1 := (@reserve_retry_if_fenced pretty_uuid "a1" None s).2 in
  exists e, @reserve_retry_if_fenced pretty_uuid "a1" None s1 = (Ok (false, Some e), s1).
Proof.
  intros s s1. refine (proj2 (@retry_reserved_once pretty_uuid "a1" None s s1 (demo_actions_ok _) _) s1 None _).
  - vm_compute. reflexivity.
  - apply rtc_refl.
Defined.

(** Actions are rebuilt from the journal.  After any run from an empty
    database, replaying the journal gives every action the same state, claims,
    lease ids, fencing tokens, retry count, result and identity; only the error
    detail and the finishing time may differ. *)
Theorem replay_actions `{UuidSource} now s :
  rtc act_step (init_storage now) s ->
  exists r, rebuild_projections [handle_event] s = (Ok (length (journal_events s)), r) /\
    forall aid, act_view <$> get_action aid r = act_view <$> get_action aid s.
Proof.
  intros Hr. apply (rebuild_replays handle_event same_actions (init_storage now)).
  - apply init_log_ok.
  - done.
  - apply act_run_replays; [done|apply init_actions_ok].
  - done.
Qed.

Definition demo_submit : M KState ActionControlBlock :=
  @submit pretty_uuid "p1" "tool/mock" "write" None SideEffectClass.PURE RecoveryPolicy.RETRY None None None None.

Lemma replay_actions_witness :
  let s1 := (demo_submit (init_storage 0)).2 in
  let s := (@admit_action pretty_uuid "uuid-0" s1).2 in
  (acb_state <$> get_action "uuid-0" s) = Some ActionState.ADMITTED /\
  exists r, rebuild_projections [@handle_event pretty_uuid] s = (Ok (length (journal_events s)), r) /\
    forall aid, act_view <$> get_action aid r = act_view <$> get_action aid s.
Proof.
  intros s1 s. split; [vm_compute; reflexivity|]. apply (@replay_actions pretty_uuid 0).
  eapply rtc_l; [exact (@act_submit pretty_uuid "p1" "tool/mock" "write" None SideEffectClass.PURE
    RecoveryPolicy.RETRY None None None None (init_storage 0) eq_refl)|].
  apply rtc_once. exact (@act_admit pretty_uuid "uuid-0" s1).
Defined.

(** What replay gets differently: a timeout's error detail, the finishing time of
    a cancellation (lost) and of a rejection (invented). *)
Definition demo_replayed (op : M KState KernelEvent) : option (option jobj * option Z) * option (option jobj * option Z) :=
  let view s := (fun a => (acb_error a, finished_at a)) <$> get_action "uuid-0" s in
  let s := ((demo_submit ;; @admit_action pretty_uuid "uuid-0" ;; @dispatch pretty_uuid "uuid-0" ;; op) (init_storage 3)).2 in
  (view s, view (rebuild_projections [@handle_event pretty_uuid] s).2).
Lemma replay_timeout_error :
  demo_replayed (@mark_timed_out pretty_uuid "uuid-0") =
  (Some (Some [("reason", JStr "timeout")], Some 3%Z), Some (Some [("reason", JStr "action_failed")], Some 3%Z)).
Proof. vm_compute. reflexivity. Qed.
Lemma replay_cancel_time :
  demo_replayed (@cancel pretty_uuid "uuid-0") = (Some (None, Some 3%Z), Some (None, None)).
Proof. vm_compute. reflexivity. Qed.
Lemma replay_reject_time :
  demo_replayed (@reject pretty_uuid "uuid-0" "no") =
  (Some (Some [("reason", JStr "no")], None), Some (Some [("reason", JStr "no")], Some 3%Z)).
Proof. vm_compute. reflexivity. Qed.

(** Submitting under the id of an existing action resets it, even a terminal one. *)
Lemma resubmit_resets :
  let s := ((demo_submit ;; @reject pretty_uuid "uuid-0" "no") (init_storage 0)).2 in
  let s' := (@submit pretty_uuid "p1" "tool/mock" "write" None SideEffectClass.PURE RecoveryPolicy.RETRY
               None None (Some "uuid-0") None s).2 in
  (acb_state <$> get_action "uuid-0" s) = Some ActionState.FAILED /\
  (acb_state <$> get_action "uuid-0" s') = Some ActionState.SUBMITTED.
Proof. vm_compute. done. Qed.
