(* ===== verification/VpgModels.v ===== *)
(** * Verified Progress Graph models (runtimes/verified_progress/models.py)

    Nodes as a tagged union over a common record, typed edges, and the
    dependency relation every derivation of the runtime reads off the edges.  A
    Python [dict] is the list of its items in insertion order. *)

From S2P Require Import Prelude.

(** ** Dicts *)

Abbreviation dict A := (list (string * A)).
Definition dict_get {A} (k : string) (d : dict A) : option A := snd <$> tbl_find fst k d.
(** [d[k] = v]: an existing key keeps its place. *)
Definition dict_set {A} (k : string) (v : A) (d : dict A) : dict A :=
  tbl_upsert fst (fun _ kv => kv) (k, v) d.
(** [d.pop(k, None)] *)
Definition dict_pop {A} (k : string) (d : dict A) : dict A := tbl_delete fst k d.
(** Keys of a dict are unique. *)
Definition dict_ok {A} (d : dict A) : Prop := NoDup d.*1.

(** ** Enumerations *)

Module EdgeType.
Inductive t : Type := DEPENDS_ON | PRODUCES | VERIFIES.
#[global] Instance t_eq_dec : EqDecision t.
Proof. solve_decision. Defined.
Definition value (x : t) : string :=
  match x with DEPENDS_ON => "depends_on" | PRODUCES => "produces" | VERIFIES => "verifies" end.
End EdgeType.

Module NodeType.
Inductive t : Type := GOAL | TASK | ARTIFACT_REF | VERIFICATION | EVIDENCE.
#[global] Instance t_eq_dec : EqDecision t.
Proof. solve_decision. Defined.
Definition value (x : t) : string :=
  match x with
  | GOAL => "goal" | TASK => "task" | ARTIFACT_REF => "artifact_ref" | VERIFICATION => "verification"
  | EVIDENCE => "evidence"
  end.
End NodeType.

Module NodeLifecycle.
Inductive t : Type := PROPOSED | ADMITTED | ACTIVE | CLOSED.
#[global] Instance t_eq_dec : EqDecision t.
Proof. solve_decision. Defined.
End NodeLifecycle.

Module NodeValidity.
Inductive t : Type := UNVERIFIED | VERIFIED | STALE | INVALID.
#[global] Instance t_eq_dec : EqDecision t.
Proof. solve_decision. Defined.
Definition value (v : t) : string :=
  match v with
  | UNVERIFIED => "unverified" | VERIFIED => "verified" | STALE => "stale" | INVALID => "invalid"
  end.
End NodeValidity.

Module EvidenceResult.
Inductive t : Type := PASS | FAIL | INCONCLUSIVE.
#[global] Instance t_eq_dec : EqDecision t.
Proof. solve_decision. Defined.
End EvidenceResult.

(** ** Nodes *)

Record VPGNode : Type := mkNode {
  node_id : string;
  node_graph_id : string;
  lifecycle : NodeLifecycle.t;
  validity : NodeValidity.t;
  created_in_version : Z;
  updated_in_version : Z;
  created_by_pid : string;
  created_at : Z;
  metadata : jobj }.

Record ArtifactVersionBinding : Type := mkBinding {
  b_canonical_uri : string;
  b_artifact_id : string;
  b_version : Z;
  b_content_hash : string;
  b_media_type : string }.

Record GoalNode : Type := mkGoal {
  goal_base : VPGNode; goal_title : string; goal_description : string }.

Record TaskNode : Type := mkTask {
  task_base : VPGNode;
  task_title : string;
  task_description : string;
  task_kind : string;
  execution_spec : jobj;
  required_verification_count : Z }.

Record ArtifactRefNode : Type := mkArtifactRef {
  aref_base : VPGNode; aref_binding : ArtifactVersionBinding }.

Record VerificationNode : Type := mkVerification {
  verif_base : VPGNode;
  verification_kind : string;
  obligation : jobj;
  verif_source_action_id : option string }.

Record EvidenceNode : Type := mkEvidence {
  evid_base : VPGNode;
  evidence_kind : string;
  evid_result : EvidenceResult.t;
  source_verification_id : option string;
  source_action_id : option string;
  source_event_ids : list string;
  artifact_bindings : list ArtifactVersionBinding;
  evidence_content_ref : option ArtifactVersionBinding;
  evidence_hash : string;
  produced_by_pid : string;
  evid_claim_id : option string;
  evid_attempt_id : option string;
  semantic_epoch : option Z;
  lease_fencing_token : option Z;
  provenance_digest : option string;
  context_snapshot_id : option string;
  context_manifest_id : option string;
  context_manifest_hash : option string;
  context_working_set_hash : option string;
  context_materialized_hash : option string;
  produced_at : Z }.

Inductive AnyNode : Type :=
| NGoal (g : GoalNode)
| NTask (t : TaskNode)
| NArtifactRef (a : ArtifactRefNode)
| NVerification (v : VerificationNode)
| NEvidence (e : EvidenceNode).

Definition base (n : AnyNode) : VPGNode :=
  match n with
  | NGoal g => goal_base g
  | NTask t => task_base t
  | NArtifactRef a => aref_base a
  | NVerification v => verif_base v
  | NEvidence e => evid_base e
  end.
Definition node_type (n : AnyNode) : NodeType.t :=
  match n with
  | NGoal _ => NodeType.GOAL
  | NTask _ => NodeType.TASK
  | NArtifactRef _ => NodeType.ARTIFACT_REF
  | NVerification _ => NodeType.VERIFICATION
  | NEvidence _ => NodeType.EVIDENCE
  end.
(** [isinstance(n, TaskNode)] *)
Definition as_task (n : AnyNode) : option TaskNode :=
  match n with NTask t => Some t | _ => None end.

Abbreviation task_id_of t := (node_id (task_base t)).

(** ** Edges *)

Record VPGEdge : Type := mkEdge {
  edge_id : string;
  edge_graph_id : string;
  edge_type : EdgeType.t;
  source_node_id : string;
  target_node_id : string;
  edge_created_in_version : Z;
  edge_created_by_pid : string;
  edge_created_at : Z }.

(** The targets of the [depends_on] edges of [n], in edge order:
    [[e.target_node_id for e in edges if e.edge_type == DEPENDS_ON and
    e.source_node_id == n]]. *)
Definition depends_on (edges : list VPGEdge) (n : string) : list string :=
  target_node_id <$> filter (fun e => edge_type e = EdgeType.DEPENDS_ON /\ source_node_id e = n) edges.

(** ** Readiness *)

Record ReadinessProof : Type := mkReadinessProof {
  rp_graph_id : string;
  rp_graph_version : Z;
  rp_task_id : string;
  lifecycle_ok : bool;
  validity_ok : bool;
  all_deps_verified : bool;
  has_execution_attempt : bool }.

Record TaskDispatchCandidate : Type := mkCandidate {
  tc_graph_id : string;
  tc_graph_version : Z;
  tc_task_id : string;
  readiness_proof : ReadinessProof;
  tc_execution_spec : jobj }.

(** ** Facts *)

Section DictFacts.
Context {A : Type}.
Implicit Types (d : dict A) (k : string) (v : A).
Lemma dict_get_Some d k v : dict_ok d -> dict_get k d = Some v <-> (k, v) ∈ d.
Proof.
  intros Hd. unfold dict_get. split.
  - intros ([k' v'] & [<- Hin]%tbl_find_Some & ->)%fmap_Some_1. done.
  - intros Hin. pose proof (tbl_find_elem fst d (k, v) Hd Hin) as Ht. cbn in Ht. by rewrite Ht.
Qed.
Lemma dict_get_elem d k v : dict_get k d = Some v -> (k, v) ∈ d.
Proof. unfold dict_get. intros ([k' v'] & [<- Hin]%tbl_find_Some & ->)%fmap_Some_1. done. Qed.
Lemma dict_set_get d k v k' : dict_get k' (dict_set k v d) = if decide (k' = k) then Some v else dict_get k' d.
Proof.
  unfold dict_get, dict_set. case_decide as E.
  - subst. rewrite (tbl_find_upsert_eq fst (fun _ kv => kv) (k, v)) by done. by destruct (tbl_find _ _ d).
  - by rewrite (tbl_find_upsert_ne fst (fun _ kv => kv) (k, v)).
Qed.
Lemma dict_set_ok d k v : dict_ok d -> dict_ok (dict_set k v d).
Proof. by apply tbl_upsert_NoDup. Qed.
(** Rebinding a key of the dict changes no key. *)
Lemma dict_set_same_keys d k v : is_Some (dict_get k d) -> (dict_set k v d).*1 = d.*1.
Proof.
  unfold dict_get, dict_set. rewrite fmap_is_Some. intros [kv Hk]. rewrite tbl_upsert_keys by done.
  cbn. by rewrite Hk.
Qed.
Lemma dict_get_None d k : dict_get k d = None <-> k ∉ d.*1.
Proof.
  unfold dict_get. rewrite fmap_None, tbl_find_None, list_elem_of_fmap. split.
  - intros H1 (kv & -> & Hin). by apply (H1 kv).
  - intros H1 kv Hin <-. apply H1. by exists kv.
Qed.
Lemma dict_get_keys d k : is_Some (dict_get k d) <-> k ∈ d.*1.
Proof.
  unfold dict_get. rewrite fmap_is_Some, list_elem_of_fmap. split.
  - intros [[k' v] [<- Hin]%tbl_find_Some]. by exists (k', v).
  - intros ([k' v] & -> & Hin). destruct (tbl_find fst (k', v).1 d) eqn:E; [done|].
    by destruct (proj1 (tbl_find_None fst _ d) E (k', v) Hin).
Qed.
Lemma dict_get_perm d d' k : dict_ok d -> d ≡ₚ d' -> dict_get k d = dict_get k d'.
Proof.
  intros Hd Hp. assert (dict_ok d') as Hd' by (unfold dict_ok; by rewrite <-Hp).
  apply option_eq. intros v. rewrite !dict_get_Some by done. by rewrite Hp.
Qed.
End DictFacts.

Lemma depends_on_elem edges n m :
  m ∈ depends_on edges n <->
  exists e, e ∈ edges /\ edge_type e = EdgeType.DEPENDS_ON /\ source_node_id e = n /\ target_node_id e = m.
Proof.
  unfold depends_on. rewrite list_elem_of_fmap. split.
  - intros (e & -> & [[Ht Hs] He]%list_elem_of_filter). by exists e.
  - intros (e & He & Ht & Hs & <-). exists e. split; [done|]. by apply list_elem_of_filter.
Qed.
Lemma depends_on_app e1 e2 n : depends_on (e1 ++ e2) n = depends_on e1 n ++ depends_on e2 n.
Proof. unfold depends_on. by rewrite filter_app, fmap_app. Qed.
Lemma depends_on_cons e es n :
  depends_on (e :: es) n =
  (if decide (edge_type e = EdgeType.DEPENDS_ON /\ source_node_id e = n) then [target_node_id e] else [])
  ++ depends_on es n.
Proof. unfold depends_on. rewrite filter_cons. by case_decide. Qed.
