(* ===== verification/Dag.v ===== *)
(** * Cycle detection (runtimes/verified_progress/dag.py)

    The iterative depth-first search over the [depends_on] edges of the graph
    and of a patch.  [stack] is kept with its top first.  The order in which
    Python iterates a set of strings is not fixed, so the start order is any
    enumeration of the node set. *)

From S2P Require Import Prelude Graph VpgModels.

(** Iteration over a Python set: every element once, in some order. *)
Class SetOrder := {
  set_iter : gset string -> list string;
  set_iter_perm X : set_iter X ≡ₚ elements X }.

(** ** The search *)

(** [adj[e.source_node_id].append(e.target_node_id)] *)
Definition add_edge (adj : gmap string (list string)) (e : VPGEdge) : gmap string (list string) :=
  if decide (edge_type e = EdgeType.DEPENDS_ON)
  then <[source_node_id e := default [] (adj !! source_node_id e) ++ [target_node_id e]]> adj
  else adj.
Definition _depends_on_adj (existing new_edges : list VPGEdge) : gmap string (list string) :=
  foldl add_edge (foldl add_edge ∅ existing) new_edges.

Inductive mark : Type := UNVISITED | IN_STACK | DONE.
#[global] Instance mark_eq_dec : EqDecision mark.
Proof. solve_decision. Defined.

Record dag_dfs : Type := mkDag {
  state : gmap string mark;
  stack : list (string * nat);
  path : list string }.

(** [path.index(x)] *)
Fixpoint py_index (x : string) (l : list string) : option nat :=
  match l with [] => None | y :: l' => if decide (y = x) then Some 0 else S <$> py_index x l' end.

(** What one turn of [while stack] does: go on, return a cycle, or raise. *)
Inductive turn : Type := Cont (st : dag_dfs) | Found (cycle : list string) | Err (e : py_error).

Section Search.
Context (adj : gmap string (list string)).
Definition children (n : string) : list string := default [] (adj !! n).

(** [if state[node] == UNVISITED: state[node] = IN_STACK; path.append(node)] *)
Definition enter (st : dag_dfs) : dag_dfs :=
  match stack st with
  | (node, _) :: _ =>
      if decide (state st !! node = Some UNVISITED)
      then mkDag (<[node := IN_STACK]> (state st)) (stack st) (path st ++ [node])
      else st
  | [] => st
  end.

Definition dag_body (st : dag_dfs) : turn :=
  match stack st with
  | [] => Cont st
  | (node, idx) :: rest =>
      match children node !! idx with
      | Some child =>
          let stack' := (node, S idx) :: rest in
          match state st !! child with
          | None => Err (KeyError child)
          | Some IN_STACK =>
              match py_index child (path st) with
              | Some cycle_start => Found (drop cycle_start (path st) ++ [child])
              | None => Err (ValueError "x not in list")
              end
          | Some UNVISITED => Cont (mkDag (state st) ((child, 0) :: stack') (path st))
          | Some DONE => Cont (mkDag (state st) stack' (path st))
          end
      | None =>
          Cont (mkDag (<[node := DONE]> (state st)) rest
                  (if decide (last (path st) = Some node) then take (length (path st) - 1) (path st)
                   else path st))
      end
  end.
Definition dag_step (st : dag_dfs) : turn :=
  match stack st with
  | (node, _) :: _ =>
      match state st !! node with None => Err (KeyError node) | Some _ => dag_body (enter st) end
  | [] => Cont st
  end.

Fixpoint dag_loop (fuel : nat) (st : dag_dfs) : result (dag_dfs + list string) :=
  match stack st with
  | [] => Ok (inl st)
  | _ => match fuel with
         | 0 => Ok (inl st)
         | S fuel' => match dag_step st with
                      | Cont st' => dag_loop fuel' st'
                      | Found c => Ok (inr c)
                      | Err e => Raise e
                      end
         end
  end.

(** [nodes]: every source and every target. *)
Definition nodes_of : gset string :=
  map_fold (fun src tgts acc => {[src]} ∪ (list_to_set tgts ∪ acc)) ∅ adj.

(** Each node is entered once and each of its edges is looked at once. *)
Definition weight (n : string) : nat := length (children n) + 2.
Definition dag_fuel : nat := sum_list_with weight (elements nodes_of).

(** [for start in nodes]; [path] starts empty for each start. *)
Fixpoint dag_starts (starts : list string) (marks : gmap string mark) : result (option (list string)) :=
  match starts with
  | [] => Ok None
  | start :: starts' =>
      match marks !! start with
      | None => Raise (KeyError start)
      | Some UNVISITED =>
          match dag_loop dag_fuel (mkDag marks [(start, 0)] []) with
          | Ok (inl st) => dag_starts starts' (state st)
          | Ok (inr c) => Ok (Some c)
          | Raise e => Raise e
          end
      | Some _ => dag_starts starts' marks
      end
  end.
End Search.

Section Detect.
Context `{SetOrder}.
Definition detect_cycle (existing_edges new_edges : list VPGEdge) : result (option (list string)) :=
  let adj := _depends_on_adj existing_edges new_edges in
  let nodes := nodes_of adj in
  if decide (nodes = ∅) then Ok None
  else dag_starts adj (set_iter nodes) (gset_to_gmap UNVISITED nodes).
End Detect.

Definition is_self_loop (e : VPGEdge) : bool :=
  bool_decide (edge_type e = EdgeType.DEPENDS_ON) && bool_decide (source_node_id e = target_node_id e).

(** ** The adjacency is the dependency relation *)

Lemma add_edges_lookup es adj n :
  default [] (foldl add_edge adj es !! n) = default [] (adj !! n) ++ depends_on es n.
Proof.
  revert adj. induction es as [|e es IH]; intros adj; cbn [foldl]; [by rewrite app_nil_r|].
  rewrite IH, depends_on_cons. unfold add_edge. destruct (decide (edge_type e = _)) as [Ht|Ht].
  - destruct (decide (source_node_id e = n)) as [<-|Hs].
    + rewrite lookup_insert_eq, decide_True by done. cbn. by rewrite <-app_assoc.
    + rewrite lookup_insert_ne, decide_False by naive_solver. done.
  - rewrite decide_False by naive_solver. done.
Qed.
Lemma depends_on_adj_children existing new_edges n :
  children (_depends_on_adj existing new_edges) n = depends_on (existing ++ new_edges) n.
Proof.
  unfold children, _depends_on_adj. by rewrite !add_edges_lookup, lookup_empty, depends_on_app.
Qed.

Lemma nodes_of_spec adj n :
  n ∈ nodes_of adj <-> exists src tgts, adj !! src = Some tgts /\ (n = src \/ n ∈ tgts).
Proof.
  unfold nodes_of. refine (map_fold_weak_ind (fun X adj => n ∈ X <-> _) _ ∅ _ _ adj).
  - setoid_rewrite lookup_empty. set_solver.
  - intros i x m r Hi IH. rewrite !elem_of_union, elem_of_list_to_set, elem_of_singleton, IH. split.
    + intros [->|[Hx|(src & tgts & Hs & Hn)]].
      * exists i, x. rewrite lookup_insert_eq. by auto.
      * exists i, x. rewrite lookup_insert_eq. by auto.
      * exists src, tgts. rewrite lookup_insert_ne by naive_solver. by auto.
    + intros (src & tgts & [[<- <-]|[Hne Hs]]%lookup_insert_Some & Hn); [naive_solver|].
      right; right. by exists src, tgts.
Qed.
Lemma children_nodes adj n c : c ∈ children adj n -> n ∈ nodes_of adj /\ c ∈ nodes_of adj.
Proof.
  unfold children. rewrite !nodes_of_spec. destruct (adj !! n) as [l|] eqn:E; cbn; [|set_solver].
  intros Hc. split; exists n, l; by auto.
Qed.

(** ** The invariant of the search *)

Section Invariant.
Context (adj : gmap string (list string)).
Abbreviation ch := (children adj).
Abbreviation N := (nodes_of adj).

Definition done_set (m : gmap string mark) (n : string) : Prop := m !! n = Some DONE.

(** Every item of the stack has looked at the children before its index: they
    are done, except the one being explored. *)
Fixpoint looked (m : gmap string mark) (child : option string) (w : list (string * nat)) : Prop :=
  match w with
  | [] => True
  | (n, idx) :: w' =>
      (forall x, x ∈ take idx (ch n) -> done_set m x \/ child = Some x) /\ looked m (Some n) w'
  end.

Record marks_ok (m : gmap string mark) : Prop := {
  mk_dom : dom m = N;
  mk_fin : exists fin, finishing ch fin /\ forall n, m !! n = Some DONE <-> n ∈ fin }.

(** Once the top of the stack is entered. *)
Record DInv (st : dag_dfs) : Prop := {
  di_marks : marks_ok (state st);
  di_path : path st = reverse (stack st).*1;
  di_nodup : NoDup (path st);
  di_chain : chain ch (path st);
  di_stack n : state st !! n = Some IN_STACK <-> n ∈ path st;
  di_looked : looked (state st) None (stack st) }.

Lemma looked_mono m m' child w :
  (forall x, done_set m x -> done_set m' x) -> looked m child w -> looked m' child w.
Proof.
  intros Hm. revert child. induction w as [|[n i] w IH]; intros child; cbn; [done|].
  intros [Hx Hw]. split; [|by apply IH]. intros x Hin. destruct (Hx x Hin); auto.
Qed.

Lemma marks_ok_insert m n k :
  marks_ok m -> n ∈ N -> m !! n <> Some DONE -> k <> DONE -> marks_ok (<[n := k]> m).
Proof.
  intros [Hd (fin & Hf & Hfin)] Hn Hm Hk. split; [rewrite dom_insert_L, Hd; set_solver|].
  exists fin. split; [done|]. intros x. rewrite <-Hfin. destruct (decide (x = n)) as [->|Hx].
  - rewrite lookup_insert_eq. naive_solver.
  - by rewrite lookup_insert_ne.
Qed.

(** The top of the stack of an entered state. *)
Lemma DInv_top st n i w : DInv st -> stack st = (n, i) :: w ->
  path st = reverse w.*1 ++ [n] /\ state st !! n = Some IN_STACK.
Proof.
  intros HI Hs. pose proof (di_path _ HI) as Hp. rewrite Hs, fmap_cons, reverse_cons in Hp. cbn in Hp.
  split; [done|]. apply (di_stack _ HI). rewrite Hp. set_solver.
Qed.
Lemma enter_id st : DInv st -> enter st = st.
Proof.
  intros HI. unfold enter. destruct (stack st) as [|[n i] w] eqn:E; [done|].
  destruct (DInv_top st n i w HI E) as [_ ->]. by rewrite decide_False.
Qed.

(** Going down: the child becomes the entered top. *)
Lemma DInv_push st n i w c :
  DInv st -> stack st = (n, i) :: w -> ch n !! i = Some c -> state st !! c = Some UNVISITED ->
  DInv (enter (mkDag (state st) ((c, 0) :: (n, S i) :: w) (path st))).
Proof.
  intros HI Hs Hi Hc. destruct (DInv_top st n i w HI Hs) as [Hp Hn].
  destruct HI as [H1 H2 H3 H4 H5 H6]. unfold enter. cbn. rewrite decide_True by done.
  assert (c ∉ path st) as Hcp by (intros Hx%H5; congruence).
  pose proof (list_elem_of_lookup_2 _ _ _ Hi) as Hch.
  rewrite Hs in H6. cbn in H6. destruct H6 as [Hlk Hw].
  split; cbn [state stack path].
  - apply marks_ok_insert; [done|by eapply children_nodes|congruence|done].
  - by rewrite Hp, !fmap_cons, !reverse_cons.
  - apply NoDup_app. split_and!; [done|set_solver|apply NoDup_singleton].
  - apply chain_app. split_and!; [done|constructor|]. intros x y Hx [= <-].
    rewrite Hp, last_snoc in Hx. by simplify_eq.
  - intros x. destruct (decide (x = c)) as [->|Hx].
    + rewrite lookup_insert_eq. set_solver.
    + rewrite lookup_insert_ne, H5 by done. set_solver.
  - assert (forall x, done_set (state st) x -> done_set (<[c := IN_STACK]> (state st)) x) as Hmono.
    { unfold done_set. intros x Hx. rewrite lookup_insert_ne by congruence. done. }
    cbn [looked]. split_and!; [by intros x Hx%not_elem_of_nil| |by eapply looked_mono].
    intros x Hx. rewrite (take_S_r _ _ _ Hi) in Hx.
    apply elem_of_app in Hx as [Hx| ->%list_elem_of_singleton]; [|by right].
    destruct (Hlk x Hx); [auto|done].
Qed.

(** Moving on: the child is done. *)
Lemma DInv_next st n i w c :
  DInv st -> stack st = (n, i) :: w -> ch n !! i = Some c -> state st !! c = Some DONE ->
  DInv (mkDag (state st) ((n, S i) :: w) (path st)).
Proof.
  intros HI Hs Hi Hc. destruct HI as [H1 H2 H3 H4 H5 H6].
  split; cbn; try done; [by rewrite H2, Hs|].
  rewrite Hs in H6. cbn in H6. destruct H6 as [Hlk Hw]. split; [|done].
  intros x Hx. rewrite (take_S_r _ _ _ Hi) in Hx.
  apply elem_of_app in Hx as [Hx| ->%list_elem_of_singleton]; [auto|by left].
Qed.

(** Coming up: the top has looked at all its children. *)
Lemma DInv_pop st n i w :
  DInv st -> stack st = (n, i) :: w -> n ∈ N -> ch n !! i = None ->
  DInv (mkDag (<[n := DONE]> (state st)) w (reverse w.*1)).
Proof.
  intros HI Hs HnN Hi. destruct (DInv_top st n i w HI Hs) as [Hp Hn].
  destruct HI as [[Hd (fin & Hf & Hfin)] H2 H3 H4 H5 H6]. rewrite Hs in H6. cbn in H6.
  destruct H6 as [Hlk Hw]. rewrite take_ge in Hlk by (by apply lookup_ge_None). rewrite Hp in *.
  apply NoDup_app in H3 as (Hn1 & Hn2 & _). split; cbn.
  - split; [rewrite dom_insert_L, Hd; set_solver|]. exists (n :: fin). split.
    + constructor; [rewrite <-Hfin; congruence| |done]. intros x Hx. apply Hfin.
      by destruct (Hlk x Hx).
    + intros x. destruct (decide (x = n)) as [->|Hx]; [rewrite lookup_insert_eq; set_solver|].
      rewrite lookup_insert_ne, Hfin by done. set_solver.
  - done.
  - done.
  - by apply chain_app in H4 as (? & _).
  - intros x. destruct (decide (x = n)) as [->|Hx].
    + rewrite lookup_insert_eq. split; [done|]. intros Hx. exfalso. apply (Hn2 n Hx). set_solver.
    + rewrite lookup_insert_ne, H5 by done. set_solver.
  - destruct w as [|[m j] w]; cbn in *; [done|]. destruct Hw as [Hm Hw].
    assert (forall x, done_set (state st) x -> done_set (<[n := DONE]> (state st)) x) as Hmono.
    { unfold done_set. intros x Hx. destruct (decide (x = n)) as [->|Hne];
        [by rewrite lookup_insert_eq|by rewrite lookup_insert_ne]. }
    split; [|by eapply looked_mono]. intros x Hx. left. destruct (Hm x Hx) as [?|[= ->]]; [auto|].
    unfold done_set. by rewrite lookup_insert_eq.
Qed.

(** A back edge closes a cycle. *)
Definition closed_cycle (p : list string) : Prop :=
  exists c x, p = c ++ [x] /\ head c = Some x /\ is_cycle ch c.

Lemma py_index_Some x l : x ∈ l -> exists i, py_index x l = Some i /\ l !! i = Some x.
Proof.
  induction l as [|y l IH]; [set_solver|]. intros Hx. cbn. case_decide as Hy; [subst; by exists 0|].
  destruct IH as (i & -> & Hi); [set_solver|]. by exists (S i).
Qed.
Lemma DInv_found st n i w c k :
  DInv st -> stack st = (n, i) :: w -> ch n !! i = Some c -> path st !! k = Some c ->
  closed_cycle (drop k (path st) ++ [c]).
Proof.
  intros HI Hs Hi Hk. destruct (DInv_top st n i w HI Hs) as [Hp _].
  exists (drop k (path st)), c. split_and!; [done|by rewrite (drop_S _ _ _ Hk)|]. split_and!.
  - eapply sublist_NoDup; [apply (di_nodup _ HI)|]. apply sublist_drop.
  - pose proof (di_chain _ HI) as Hc. rewrite <-(take_drop k (path st)) in Hc.
    by apply chain_app in Hc as (_ & ? & _).
  - exists c, n. split_and!; [by rewrite (drop_S _ _ _ Hk)| |by eapply list_elem_of_lookup_2].
    assert (last (path st) = Some n) as Hl by (rewrite Hp; apply last_snoc).
    rewrite <-(take_drop k (path st)), last_app in Hl.
    destruct (last (drop k (path st))) eqn:E; [done|]. rewrite last_None, (drop_S _ _ _ Hk) in E. done.
Qed.

(** ** Termination *)

Definition unvisited_weight (m : gmap string mark) : nat :=
  sum_list_with (fun n => if decide (m !! n = Some UNVISITED) then weight adj n else 0) (elements N).
Definition measure (st : dag_dfs) : nat :=
  unvisited_weight (state (enter st)) +
  sum_list_with (fun '(n, i) => length (ch n) - i + 1) (stack st).

Lemma sum_list_with_change (f g : string -> nat) (l : list string) c :
  NoDup l -> c ∈ l -> (forall n, n <> c -> f n = g n) ->
  sum_list_with f l + g c = sum_list_with g l + f c.
Proof.
  intros Hn Hc Hfg. induction l as [|x l IH]; [set_solver|]. apply NoDup_cons in Hn as [Hx Hn]. cbn.
  apply elem_of_cons in Hc as [->|Hc].
  - assert (sum_list_with f l = sum_list_with g l) as ->; [|lia].
    clear IH Hn. induction l as [|y l IH]; [done|]. cbn. rewrite Hfg, IH by set_solver. done.
  - specialize (IH Hn Hc). rewrite (Hfg x) by (intros ->; done). lia.
Qed.
Lemma unvisited_weight_insert m c k :
  c ∈ N -> k <> UNVISITED ->
  unvisited_weight (<[c := k]> m) + (if decide (m !! c = Some UNVISITED) then weight adj c else 0)
  = unvisited_weight m.
Proof.
  intros Hc Hk. unfold unvisited_weight.
  rewrite (sum_list_with_change _ (fun n => if decide (m !! n = Some UNVISITED) then weight adj n else 0) _ c).
  - rewrite lookup_insert_eq, decide_False by naive_solver. lia.
  - apply NoDup_elements.
  - by apply elem_of_elements.
  - intros n Hn. by rewrite lookup_insert_ne.
Qed.

(** Done or on the stack: what the loop ends up marking done. *)
Definition reached (st : dag_dfs) (x : string) : Prop := done_set (state st) x \/ x ∈ (stack st).*1.

Lemma dag_step_spec st :
  DInv (enter st) -> stack st <> [] ->
  match dag_step adj st with
  | Cont st' => DInv (enter st') /\ measure st' < measure st /\
                forall x, reached st x -> reached st' x
  | Found c => closed_cycle c
  | Err _ => False
  end.
Proof.
  intros HI Hne. destruct (stack st) as [|[n i] w] eqn:Hs; [done|].
  assert (stack (enter st) = (n, i) :: w) as Hs'.
  { unfold enter. rewrite Hs. by case_decide. }
  destruct (DInv_top _ _ _ _ HI Hs') as [Hp Hn].
  assert (forall x, done_set (state st) x -> done_set (state (enter st)) x) as Hent.
  { unfold done_set, enter. rewrite Hs. case_decide; [|done]. cbn. intros x Hx.
    rewrite lookup_insert_ne by congruence. done. }
  assert (is_Some (state st !! n)) as [m0 Hm0].
  { destruct (state st !! n) eqn:E; [done|]. unfold enter in Hn. rewrite Hs, decide_False in Hn by congruence.
    congruence. }
  assert (n ∈ N) as HnN by (rewrite <-(mk_dom _ (di_marks _ HI)); by eapply elem_of_dom_2).
  unfold dag_step, dag_body, measure, reached. rewrite Hs, Hm0, Hs'. set (e := enter st) in *.
  destruct (ch n !! i) as [c|] eqn:Hi.
  - pose proof (children_nodes _ _ _ (list_elem_of_lookup_2 _ _ _ Hi)) as [_ HcN].
    pose proof (lookup_lt_Some _ _ _ Hi) as Hlt.
    assert (is_Some (state e !! c)) as [mc Hmc].
    { apply elem_of_dom. by rewrite (mk_dom _ (di_marks _ HI)). }
    rewrite Hmc. destruct mc.
    + split_and!; [by eapply DInv_push| |intros x [Hx|Hx]; [by left; apply Hent|right; cbn; set_solver]].
      unfold enter. cbn. rewrite decide_True by done. cbn.
      pose proof (unvisited_weight_insert (state e) c IN_STACK HcN ltac:(done)) as Hw.
      rewrite decide_True in Hw by done. unfold weight in Hw. lia.
    + assert (c ∈ path e) as Hcp by (by apply (di_stack _ HI)).
      destruct (py_index_Some c (path e) Hcp) as (k & -> & Hk). by eapply DInv_found.
    + pose proof (DInv_next e n i w c HI Hs' Hi Hmc) as HI'. rewrite (enter_id _ HI').
      split_and!; [done| |intros x [Hx|Hx]; [by left; apply Hent|right; cbn; set_solver]]. cbn. lia.
  - assert (last (path e) = Some n) as Hl by (rewrite Hp; apply last_snoc). rewrite decide_True by done.
    assert (take (length (path e) - 1) (path e) = reverse w.*1) as ->.
    { rewrite Hp, length_app. cbn. rewrite Nat.add_sub. by rewrite take_app_length. }
    pose proof (DInv_pop e n i w HI Hs' HnN Hi) as HI'. rewrite (enter_id _ HI'). split_and!; [done| |].
    + cbn. pose proof (unvisited_weight_insert (state e) n DONE HnN ltac:(done)). lia.
    + intros x Hx. unfold reached, done_set in *. cbn. destruct (decide (x = n)) as [->|Hx'];
        [left; by rewrite lookup_insert_eq|]. rewrite lookup_insert_ne by done.
      destruct Hx as [Hx%Hent|Hx]; [by left|right; set_solver].
Qed.

Lemma dag_loop_spec fuel st :
  DInv (enter st) -> measure st <= fuel ->
  match dag_loop adj fuel st with
  | Ok (inl st') => DInv st' /\ stack st' = [] /\ forall x, reached st x -> reached st' x
  | Ok (inr c) => closed_cycle c
  | Raise _ => False
  end.
Proof.
  revert st. induction fuel as [|fuel IH]; intros st HI Hm; cbn.
  - destruct (stack st) as [|[n i] w] eqn:Hs.
    + unfold enter in HI. by rewrite Hs in HI.
    + unfold measure in Hm. rewrite Hs in Hm. cbn in Hm. lia.
  - destruct (stack st) as [|a w] eqn:Hs.
    + unfold enter in HI. by rewrite Hs in HI.
    + pose proof (dag_step_spec st HI ltac:(by rewrite Hs)) as Hst.
      destruct (dag_step adj st) as [st'|c|e]; [|done..]. destruct Hst as (HI' & Hlt & Hd).
      specialize (IH st' HI' ltac:(lia)). destruct (dag_loop adj fuel st') as [[st''|c]|e]; [|done..].
      destruct IH as (? & ? & ?). auto.
Qed.

(** ** All starts *)

(** Between two starts every mark is [UNVISITED] or [DONE]. *)
Definition settled (m : gmap string mark) : Prop := marks_ok m /\ forall n, m !! n <> Some IN_STACK.

Lemma dag_loop_start m start :
  settled m -> m !! start = Some UNVISITED ->
  match dag_loop adj (dag_fuel adj) (mkDag m [(start, 0)] []) with
  | Ok (inl st) => settled (state st) /\ done_set (state st) start /\
                   forall x, done_set m x -> done_set (state st) x
  | Ok (inr c) => closed_cycle c
  | Raise _ => False
  end.
Proof.
  intros [Hm Hni] Hs. set (st := mkDag m [(start, 0)] []).
  assert (start ∈ N) as HsN by (rewrite <-(mk_dom _ Hm); by eapply elem_of_dom_2).
  assert (enter st = mkDag (<[start := IN_STACK]> m) [(start, 0)] [start]) as He.
  { unfold enter. cbn. by rewrite decide_True. }
  assert (DInv (enter st)) as HI.
  { rewrite He. split; cbn; [|done|apply NoDup_singleton|constructor| |].
    - apply marks_ok_insert; [done|done|congruence|done].
    - intros n. destruct (decide (n = start)) as [->|Hn]; [rewrite lookup_insert_eq; set_solver|].
      rewrite lookup_insert_ne by done. split; [by intros ?%Hni|set_solver].
    - split; [by intros x Hx%not_elem_of_nil|done]. }
  assert (measure st <= dag_fuel adj) as Hf.
  { unfold measure, dag_fuel. rewrite He. cbn.
    pose proof (unvisited_weight_insert m start IN_STACK HsN ltac:(done)) as Hw. rewrite decide_True in Hw by done.
    assert (unvisited_weight m <= sum_list_with (weight adj) (elements N)) as Hle.
    { unfold unvisited_weight. generalize (elements N). induction l as [|x l IH]; cbn; [done|]. case_decide; lia. }
    unfold weight in Hw at 1. lia. }
  pose proof (dag_loop_spec (dag_fuel adj) st HI Hf) as Hl.
  destruct (dag_loop adj (dag_fuel adj) st) as [[st'|c]|e]; [|done..].
  destruct Hl as (HI' & Hst & Hr).
  assert (forall x, reached st x -> done_set (state st') x) as Hr'.
  { intros x Hx%Hr. destruct Hx as [Hx|Hx]; [done|]. rewrite Hst in Hx. by apply not_elem_of_nil in Hx. }
  split_and!.
  - split; [apply (di_marks _ HI')|]. intros n Hn%(di_stack _ HI').
    rewrite (di_path _ HI'), Hst in Hn. by apply not_elem_of_nil in Hn.
  - apply Hr'. right. cbn. set_solver.
  - intros x Hx. apply Hr'. by left.
Qed.

Lemma dag_starts_spec starts m :
  settled m -> (forall n, n ∈ starts -> n ∈ N) ->
  match dag_starts adj starts m with
  | Ok (Some c) => closed_cycle c
  | Ok None => exists m', settled m' /\ (forall n, n ∈ starts \/ done_set m n -> done_set m' n)
  | Raise _ => False
  end.
Proof.
  revert m. induction starts as [|s starts IH]; intros m Hm Hn; cbn [dag_starts].
  { exists m. split; [done|]. set_solver. }
  assert (is_Some (m !! s)) as [k Hk].
  { apply elem_of_dom. rewrite (mk_dom _ (proj1 Hm)). apply Hn. set_solver. }
  assert (forall n, n ∈ starts -> n ∈ N) as Hn' by set_solver.
  rewrite Hk. destruct k.
  - pose proof (dag_loop_start m s Hm Hk) as Hl. destruct (dag_loop _ _ _) as [[st|c]|e]; [|done..].
    destruct Hl as (Hm1 & Hs & Hd). specialize (IH (state st) Hm1 Hn').
    destruct (dag_starts adj starts (state st)) as [[c|]|e]; [done| |done].
    destruct IH as (m' & Hm' & Hr). exists m'. split; [done|].
    intros n [[->|Hin]%elem_of_cons|Hx]; auto.
  - by destruct (proj2 Hm s).
  - specialize (IH m Hm Hn'). destruct (dag_starts adj starts m) as [[c|]|e]; [done| |done].
    destruct IH as (m' & Hm' & Hr). exists m'. split; [done|].
    intros n [[->|Hin]%elem_of_cons|Hx]; auto.
Qed.
End Invariant.

(** ** Property *)

Section Property.
Context `{SetOrder}.

Lemma detect_cycle_spec existing new_edges :
  match detect_cycle existing new_edges with
  | Ok (Some p) => exists c x, p = c ++ [x] /\ head c = Some x /\ is_cycle (depends_on (existing ++ new_edges)) c
  | Ok None => ~ cyclic (depends_on (existing ++ new_edges))
  | Raise _ => False
  end.
Proof.
  unfold detect_cycle. set (adj := _depends_on_adj existing new_edges).
  assert (forall n, children adj n = depends_on (existing ++ new_edges) n) as Hadj
    by apply depends_on_adj_children.
  assert (forall x y, edge (children adj) x y <-> edge (depends_on (existing ++ new_edges)) x y) as Hedge
    by (intros x y; unfold edge; by rewrite Hadj).
  case_decide as Hn.
  { intros [x Hx]. assert (exists y, edge (depends_on (existing ++ new_edges)) x y) as [y He].
    { inversion Hx; subst; eauto. }
    apply Hedge in He. apply children_nodes in He as [He _]. by rewrite Hn in He. }
  assert (settled adj (gset_to_gmap UNVISITED (nodes_of adj))) as Hm.
  { split; [|by intros n [? ?]%lookup_gset_to_gmap_Some]. split; [by rewrite dom_gset_to_gmap|].
    exists []. split; [constructor|]. intros n. split; [by intros [? ?]%lookup_gset_to_gmap_Some|].
    by intros ?%not_elem_of_nil. }
  pose proof (dag_starts_spec adj (set_iter (nodes_of adj)) _ Hm) as Hs.
  destruct (dag_starts _ _ _) as [[p|]|e].
  - destruct Hs as (c & x & -> & Hh & Hc); [intros n; by rewrite set_iter_perm, elem_of_elements|].
    exists c, x. split_and!; [done|done|]. by apply (is_cycle_iff _ _ c Hedge).
  - destruct Hs as (m' & [[_ (fin & Hf & Hfin)] _] & Hr);
      [intros n; by rewrite set_iter_perm, elem_of_elements|].
    intros [x Hx]. apply (tc_iff _ _ x x Hedge) in Hx.
    apply (finishing_acyclic _ fin x Hf); [|done]. apply Hfin, Hr. left.
    rewrite set_iter_perm, elem_of_elements.
    assert (exists y, edge (children adj) x y) as [y He] by (inversion Hx; subst; eauto).
    by apply children_nodes in He as [He _].
  - apply Hs. intros n. by rewrite set_iter_perm, elem_of_elements.
Qed.

(** C26: cycle detection is exact and total.  Whatever order Python iterates the
    node set in, [detect_cycle] never raises; it returns [None] iff no node
    reaches itself along the [depends_on] edges of graph and patch together, and
    a returned path is a simple cycle of them closed by its first node. *)
Theorem detect_cycle_exact existing new_edges :
  (detect_cycle existing new_edges = Ok None <-> ~ cyclic (depends_on (existing ++ new_edges))) /\
  (~ exists e, detect_cycle existing new_edges = Raise e) /\
  (forall p, detect_cycle existing new_edges = Ok (Some p) ->
     exists c x, p = c ++ [x] /\ head c = Some x /\ is_cycle (depends_on (existing ++ new_edges)) c).
Proof.
  pose proof (detect_cycle_spec existing new_edges) as Hs.
  destruct (detect_cycle existing new_edges) as [[p|]|e]; [|naive_solver..].
  split_and!; [|naive_solver..]. split; [done|]. intros Hno. exfalso. apply Hno.
  destruct Hs as (c & x & _ & _ & Hc). by eapply cycle_cyclic.
Qed.
End Property.

Definition demo_edge (s t : string) : VPGEdge := mkEdge (s +:+ t) "g" EdgeType.DEPENDS_ON s t 0 "p" 0.
Definition elements_order : SetOrder :=
  {| set_iter X := elements X; set_iter_perm X := Permutation_refl _ |}.
Example detect_cycle_demo :
  @detect_cycle elements_order [demo_edge "a" "b"; demo_edge "b" "c"] [demo_edge "c" "b"; demo_edge "d" "d"]
  = Ok (Some ["c"; "b"; "c"]).
Proof. vm_compute. reflexivity. Qed.
