(* ===== verification/Readiness.v ===== *)
(** * Ready frontier (runtimes/verified_progress/readiness.py)

    The readiness predicate, the memoised topological depth, and the sorted
    frontier of dispatchable tasks. *)

From Stdlib Require Import Ascii.
From S2P Require Import Prelude Graph VpgModels Dag.

(** ** [int(float)]

    A float is known by its [repr]: an optional sign, digits, fraction and
    exponent, or [inf] or [nan].  Truncating that decimal is [int] of the float,
    except from 2^53 on, where the decimal stands for the nearest float. *)

Definition digit_value (a : Ascii.ascii) : option Z :=
  let n := Z.of_nat (Ascii.nat_of_ascii a) in
  if (48 <=? n)%Z && (n <=? 57)%Z then Some (n - 48)%Z else None.
(** Reads digits: the number read so far, how many, and the rest. *)
Fixpoint read_digits (acc count : Z) (s : string) : Z * Z * string :=
  match s with
  | String a s' => match digit_value a with
                   | Some d => read_digits (10 * acc + d) (count + 1) s'
                   | None => (acc, count, s)
                   end
  | EmptyString => (acc, count, s)
  end.
(** To the nearest multiple of the float spacing, ties to even. *)
Definition round53 (v : Z) : Z :=
  if (v <? 2 ^ 53)%Z then v else
  let k := (Z.log2 v - 52)%Z in
  let q := (v / 2 ^ k)%Z in
  let r := (v mod 2 ^ k)%Z in
  let half := (2 ^ (k - 1))%Z in
  ((if (r <? half)%Z then q else if (r =? half)%Z then (if Z.even q then q else q + 1) else q + 1) * 2 ^ k)%Z.
Definition read_exponent (s : string) : Z :=
  match s with
  | String "e"%char (String "-"%char s') => (- (read_digits 0 0 s').1.1)%Z
  | String "e"%char (String "+"%char s') => (read_digits 0 0 s').1.1
  | _ => 0%Z
  end.
Definition py_int_of_float (repr : string) : result Z :=
  let '(sign, s) := match repr with String "-"%char s => ((-1)%Z, s) | _ => (1%Z, repr) end in
  if String.eqb s "inf" then Raise (OverflowError "cannot convert float infinity to integer")
  else if String.eqb s "nan" then Raise (ValueError "cannot convert float NaN to integer")
  else
    let '(whole, _, s1) := read_digits 0 0 s in
    let '(mantissa, places, s2) :=
      match s1 with String "."%char s' => read_digits whole 0 s' | _ => (whole, 0%Z, s1) end in
    let e := (read_exponent s2 - places)%Z in
    let v := if (0 <=? e)%Z then (mantissa * 10 ^ e)%Z else (mantissa / 10 ^ (- e))%Z in
    Ok (sign * round53 v)%Z.
Example int_of_float_demo :
  (py_int_of_float <$> ["2.75"; "-2.75"; "1e+23"; "5e-324"; "-inf"; "9007199254740992.0"]) =
  [Ok 2; Ok (-2); Ok 99999999999999991611392; Ok 0;
   Raise (OverflowError "cannot convert float infinity to integer"); Ok 9007199254740992]%Z.
Proof. vm_compute. reflexivity. Qed.

(** ** The readiness predicate *)

(** [lifecycle in {ADMITTED, ACTIVE, CLOSED}] *)
Definition live (l : NodeLifecycle.t) : bool :=
  match l with NodeLifecycle.PROPOSED => false | _ => true end.

Definition _depends_on_index (edges : list VPGEdge) : gmap string (list string) := foldl add_edge ∅ edges.

(** [dep_index.get(task_id, ()) if dep_index is not None else [...]] *)
Definition dep_targets (task_id : string) (edges : list VPGEdge) (dep_index : option (gmap string (list string)))
    : list string :=
  match dep_index with
  | Some index => default [] (index !! task_id)
  | None => depends_on edges task_id
  end.

Definition _task_deps_all_verified (task_id : string) (nodes : dict AnyNode) (edges : list VPGEdge)
    (dep_index : option (gmap string (list string))) : bool :=
  forallb (fun target =>
    match dict_get target nodes with
    | None => true
    | Some (NTask dep) =>
        bool_decide (validity (task_base dep) = NodeValidity.VERIFIED) && live (lifecycle (task_base dep))
    | Some _ => false
    end) (dep_targets task_id edges dep_index).

Definition task_is_ready (task : TaskNode) (nodes : dict AnyNode) (edges : list VPGEdge)
    (dep_index : option (gmap string (list string))) : bool :=
  let b := task_base task in
  if negb (bool_decide (lifecycle b = NodeLifecycle.ADMITTED)) then false
  else if bool_decide (validity b = NodeValidity.STALE) && negb (otruthy (jget "__repair_ready" (metadata b)))
  then false
  else if negb (bool_decide (validity b = NodeValidity.UNVERIFIED) || bool_decide (validity b = NodeValidity.STALE))
  then false
  else _task_deps_all_verified (node_id b) nodes edges dep_index.

(** ** Topological depth *)

Definition is_task (nodes : dict AnyNode) (n : string) : bool :=
  match dict_get n nodes with Some (NTask _) => true | _ => false end.

Abbreviation depth_state := (gmap string Z * gset string)%type.

(** [memo] and [visiting] are the two shared mutable arguments. *)
Fixpoint _compute_topo_depth (fuel : nat) (nodes : dict AnyNode) (edges : list VPGEdge)
    (dep_index : option (gmap string (list string))) (task_id : string) (st : depth_state) : Z * depth_state :=
  let '(memo, visiting) := st in
  match memo !! task_id with
  | Some d => (d, st)
  | None =>
      if decide (task_id ∈ visiting) then (0%Z, st) else
      match fuel with
      | 0 => (0%Z, st)
      | S fuel' =>
          let '(max_child, (memo', visiting')) :=
            foldl (fun '(max_child, st) target =>
              if is_task nodes target then
                let '(child_depth, st') := _compute_topo_depth fuel' nodes edges dep_index target st in
                (Z.max max_child (1 + child_depth), st')
              else (max_child, st))
              (0%Z, (memo, {[task_id]} ∪ visiting)) (dep_targets task_id edges dep_index) in
          (max_child, (<[task_id := max_child]> memo', visiting' ∖ {[task_id]}))
      end
  end.

(** A path of the recursion never repeats a task. *)
Definition depth_fuel (nodes : dict AnyNode) : nat := S (length nodes).

(** [visiting] starts empty for every call. *)
Definition _depth_of (task_id : string) (nodes : dict AnyNode) (edges : list VPGEdge) (memo : gmap string Z)
    (dep_index : option (gmap string (list string))) : Z * gmap string Z :=
  let '(d, (memo', _)) := _compute_topo_depth (depth_fuel nodes) nodes edges dep_index task_id (memo, ∅) in
  (d, memo').

(** ** The frontier *)

Definition _priority_of (task_id : string) (nodes : dict AnyNode) : result Z :=
  match dict_get task_id nodes with
  | Some (NTask n) =>
      match jget "priority" (metadata (task_base n)) with
      | Some (JInt p) => Ok p
      | Some (JBool p) => Ok (if p then 1 else 0)%Z
      | Some (JFloat r) => py_int_of_float r
      | _ => Ok 0%Z
      end
  | _ => Ok 0%Z
  end.

Definition _created_of (task_id : string) (nodes : dict AnyNode) : Z :=
  match dict_get task_id nodes with Some n => created_in_version (base n) | None => 0%Z end.

Abbreviation sort_key := (Z * (Z * (Z * string)))%type.

(** The keys of [task_ids.sort(key=...)], computed in list order with one memo. *)
Fixpoint sort_keys (nodes : dict AnyNode) (edges : list VPGEdge) (dep_index : option (gmap string (list string)))
    (task_ids : list string) (depth_memo : gmap string Z) : result (list (sort_key * string)) :=
  match task_ids with
  | [] => Ok []
  | task_id :: rest =>
      match _priority_of task_id nodes with
      | Raise e => Raise e
      | Ok p =>
          let '(depth, depth_memo') := _depth_of task_id nodes edges depth_memo dep_index in
          match sort_keys nodes edges dep_index rest depth_memo' with
          | Raise e => Raise e
          | Ok ks => Ok ((((- p)%Z, (depth, (_created_of task_id nodes, task_id))), task_id) :: ks)
          end
      end
  end.

(** [for n in nodes.values()]: the ready ones, by [n.node_id]. *)
Definition ready_ids (nodes : dict AnyNode) (edges : list VPGEdge) : list string :=
  let dep_index := Some (_depends_on_index edges) in
  omap (fun n => match n with
                 | NTask t => if task_is_ready t nodes edges dep_index then Some (task_id_of t) else None
                 | _ => None
                 end) nodes.*2.

Definition compute_ready_task_ids (nodes : dict AnyNode) (edges : list VPGEdge) : result (list string) :=
  match sort_keys nodes edges (Some (_depends_on_index edges)) (ready_ids nodes edges) ∅ with
  | Raise e => Raise e
  | Ok ks => Ok (sort_on fst ks).*2
  end.

Definition compute_ready_frontier (graph_id : string) (graph_version : Z) (nodes : dict AnyNode)
    (edges : list VPGEdge) : result (list TaskDispatchCandidate) :=
  match compute_ready_task_ids nodes edges with
  | Raise e => Raise e
  | Ok task_ids =>
      Ok (omap (fun task_id =>
        match dict_get task_id nodes with
        | Some (NTask node) =>
            Some (mkCandidate graph_id graph_version task_id
              (mkReadinessProof graph_id graph_version task_id true true true false)
              (execution_spec node))
        | _ => None
        end) task_ids)
  end.

(** * Logical closure (runtimes/verified_progress/closure.py)

    When a goal counts as closed and when a task's lifecycle follows its
    validity. *)

(** The directly depended-on tasks of a goal, by their own [node_id]. *)
Definition dependent_task_ids (goal : GoalNode) (nodes : dict AnyNode) (edges : list VPGEdge) : list string :=
  omap (fun e =>
    if bool_decide (edge_type e = EdgeType.DEPENDS_ON) && bool_decide (source_node_id e = node_id (goal_base goal))
    then match dict_get (target_node_id e) nodes with Some (NTask dep) => Some (task_id_of dep) | _ => None end
    else None) edges.

Definition goal_is_closed (goal : GoalNode) (nodes : dict AnyNode) (edges : list VPGEdge) : bool :=
  match dependent_task_ids goal nodes edges with
  | [] => false
  | ids =>
      forallb (fun tid =>
        match dict_get tid nodes with
        | Some (NTask d) =>
            bool_decide (validity (task_base d) = NodeValidity.VERIFIED) && live (lifecycle (task_base d))
        | _ => false
        end) ids
  end.

Definition task_should_be_closed (task : TaskNode) : bool :=
  bool_decide (validity (task_base task) = NodeValidity.VERIFIED) &&
  (bool_decide (lifecycle (task_base task) = NodeLifecycle.ADMITTED) ||
   bool_decide (lifecycle (task_base task) = NodeLifecycle.ACTIVE)).

Definition task_should_reopen (task : TaskNode) : bool :=
  if negb (bool_decide (lifecycle (task_base task) = NodeLifecycle.CLOSED)) then false
  else bool_decide (validity (task_base task) = NodeValidity.STALE) ||
       bool_decide (validity (task_base task) = NodeValidity.UNVERIFIED).
