(* ===== verification/ReadinessProps.v ===== *)
(** * Ready frontier: exactness, order, progress

    The memoised depth is the longest dependency path, the frontier holds
    exactly the ready tasks in dispatch order whatever the insertion order of
    nodes and edges, and an unfinished acyclic graph always has a ready task. *)

From S2P Require Import Prelude Graph VpgModels Dag Readiness.

(** Nodes are filed under their own id. *)
Definition nodes_ok (nodes : dict AnyNode) : Prop :=
  dict_ok nodes /\ forall k n, (k, n) ∈ nodes -> node_id (base n) = k.

(** The dependencies of a node that are tasks. *)
Definition task_deps (nodes : dict AnyNode) (edges : list VPGEdge) (n : string) : list string :=
  filter (fun m => is_task nodes m = true) (depends_on edges n).

(** [d] edges on the longest path of task dependencies from [n]. *)
Definition longest (nodes : dict AnyNode) (edges : list VPGEdge) (n : string) (d : Z) : Prop :=
  (exists l, chain (task_deps nodes edges) (n :: l) /\ Z.of_nat (length l) = d) /\
  (forall l, chain (task_deps nodes edges) (n :: l) -> (Z.of_nat (length l) <= d)%Z).

Lemma dep_index_targets edges n : dep_targets n edges (Some (_depends_on_index edges)) = depends_on edges n.
Proof. unfold dep_targets, _depends_on_index. by rewrite add_edges_lookup, lookup_empty. Qed.

Lemma is_task_get nodes n : is_task nodes n = true <-> exists t, dict_get n nodes = Some (NTask t).
Proof. unfold is_task. destruct (dict_get n nodes) as [[]|]; naive_solver. Qed.
Lemma is_task_key nodes n : is_task nodes n = true -> n ∈ nodes.*1.
Proof. intros [t Ht]%is_task_get. apply dict_get_keys. by rewrite Ht. Qed.

(** ** Depth *)

Section Depth.
Context (nodes : dict AnyNode) (edges : list VPGEdge).
Abbreviation deps := (task_deps nodes edges).
Abbreviation index := (Some (_depends_on_index edges)).
Context (Hacyclic : ~ cyclic deps).

Definition memo_ok (memo : gmap string Z) : Prop :=
  forall n d, memo !! n = Some d -> longest nodes edges n d.

Lemma longest_unique n d d' : longest nodes edges n d -> longest nodes edges n d' -> d = d'.
Proof.
  intros [(l & Hl & <-) Hd] [(l' & Hl' & <-) Hd']. pose proof (Hd l' Hl'). pose proof (Hd' l Hl). lia.
Qed.

(** The maximum over the children looked at so far. *)
Definition best_of (P : list string) (m : Z) : Prop :=
  (0 <= m)%Z /\
  (m = 0%Z \/ exists c l, c ∈ P /\ is_task nodes c = true /\ chain deps (c :: l) /\ m = (1 + Z.of_nat (length l))%Z) /\
  (forall c l, c ∈ P -> is_task nodes c = true -> chain deps (c :: l) -> (1 + Z.of_nat (length l) <= m)%Z).

Lemma best_of_step P m c d :
  best_of P m -> is_task nodes c = true -> longest nodes edges c d -> best_of (P ++ [c]) (Z.max m (1 + d)).
Proof.
  intros (H0 & H1 & H2) Hc [(l & Hl & <-) Hd]. split_and!; [lia| |].
  - destruct (Z.max_spec m (1 + Z.of_nat (length l))) as [[_ ->]|[_ ->]].
    + right. exists c, l. split_and!; [set_solver|done..].
    + destruct H1 as [->|(c' & l' & Hin & H1)]; [by left|]. right. exists c', l'. split; [set_solver|done].
  - intros c' l' [Hin| ->%list_elem_of_singleton]%elem_of_app Ht Hl'.
    + specialize (H2 c' l' Hin Ht Hl'). lia.
    + specialize (Hd l' Hl'). lia.
Qed.
Lemma best_of_skip P m c : best_of P m -> is_task nodes c = false -> best_of (P ++ [c]) m.
Proof.
  intros (H0 & H1 & H2) Hc. split_and!; [done| |].
  - destruct H1 as [->|(c' & l' & Hin & H1)]; [by left|]. right. exists c', l'. split; [set_solver|done].
  - intros c' l' [Hin| ->%list_elem_of_singleton]%elem_of_app Ht Hl'; [by eapply H2|congruence].
Qed.
Lemma best_of_longest n m : best_of (depends_on edges n) m -> longest nodes edges n m.
Proof.
  intros (H0 & H1 & H2). split.
  - destruct H1 as [->|(c & l & Hin & Ht & Hl & ->)].
    + exists []. split; [constructor|done].
    + exists (c :: l). split; [|cbn; lia]. constructor; [|done].
      unfold edge, task_deps. by apply list_elem_of_filter.
  - intros [|c l] Hl; [cbn; lia|]. inversion Hl as [| |? ? ? He Hc]; subst.
    unfold edge, task_deps in He. apply list_elem_of_filter in He as [Ht Hin].
    specialize (H2 c l Hin Ht Hc). cbn [length]. lia.
Qed.

Abbreviation universe := (list_to_set nodes.*1 : gset string).

Lemma visiting_shrinks n (V : gset string) :
  is_task nodes n = true -> n ∉ V -> size (universe ∖ ({[n]} ∪ V)) < size (universe ∖ V).
Proof.
  intros Hn%is_task_key HV. apply subset_size. split; [set_solver|]. intros Hsub.
  assert (n ∈ universe ∖ V) as Hin by (apply elem_of_difference; split; [by apply elem_of_list_to_set|done]).
  apply Hsub in Hin. set_solver.
Qed.

Definition depth_call (fuel : nat) : Prop := forall n memo V,
  is_task nodes n = true -> memo_ok memo -> (forall x, x ∈ V -> tc (edge deps) x n) ->
  size (universe ∖ V) <= fuel ->
  exists d memo', _compute_topo_depth fuel nodes edges index n (memo, V) = (d, (memo', V)) /\
    longest nodes edges n d /\ memo_ok memo'.

(** The loop over the children. *)
Lemma depth_children fuel n V ts P m memo :
  depth_call fuel -> depends_on edges n = P ++ ts -> (forall x, x ∈ V -> tc (edge deps) x n) ->
  size (universe ∖ ({[n]} ∪ V)) <= fuel -> best_of P m -> memo_ok memo ->
  exists m' memo',
    foldl (fun '(max_child, st) target =>
        if is_task nodes target then
          let '(child_depth, st') := _compute_topo_depth fuel nodes edges index target st in
          (Z.max max_child (1 + child_depth), st')
        else (max_child, st)) (m, (memo, {[n]} ∪ V)) ts = (m', (memo', {[n]} ∪ V)) /\
    best_of (depends_on edges n) m' /\ memo_ok memo'.
Proof.
  intros Hcall. revert P m memo. induction ts as [|c ts IH]; intros P m memo Hd HV Hf Hb Hm; cbn [foldl].
  { rewrite app_nil_r in Hd. rewrite Hd. by exists m, memo. }
  assert (depends_on edges n = (P ++ [c]) ++ ts) as Hd' by (by rewrite <-app_assoc).
  destruct (is_task nodes c) eqn:Hc.
  - assert (edge deps n c) as He.
    { unfold edge, task_deps. apply list_elem_of_filter. split; [done|]. rewrite Hd. set_solver. }
    destruct (Hcall c memo ({[n]} ∪ V)) as (d & memo' & -> & Hl & Hm'); [done|done| |done|].
    + intros x [->%elem_of_singleton|Hx]%elem_of_union; [by apply tc_once|]. eapply tc_r; [by apply HV|done].
    + eapply IH; [done|done|done|by apply best_of_step|done].
  - eapply IH; [done|done|done|by apply best_of_skip|done].
Qed.

Lemma depth_ok fuel : depth_call fuel.
Proof.
  induction fuel as [|fuel IH]; intros n memo V Hn Hm HV Hf; cbn [_compute_topo_depth].
  all: destruct (memo !! n) as [d|] eqn:Hd; [by exists d, memo; eauto|].
  all: assert (n ∉ V) as HnV by (intros Hx%HV; apply Hacyclic; by exists n).
  all: rewrite decide_False by done.
  all: pose proof (visiting_shrinks n V Hn HnV) as Hlt.
  1: lia.
  rewrite dep_index_targets.
  destruct (depth_children fuel n V (depends_on edges n) [] 0 memo) as (m & memo' & -> & Hb & Hm');
    [done|done|done|lia| |done|].
  { split_and!; [done|by left|by intros c l Hx%not_elem_of_nil]. }
  apply best_of_longest in Hb. exists m, (<[n := m]> memo'). split_and!; [|done|].
  - do 2 f_equal. set_solver.
  - intros k d [[<- <-]|[_ Hk]]%lookup_insert_Some; [done|by apply Hm'].
Qed.

Lemma depth_of_ok n memo :
  is_task nodes n = true -> memo_ok memo ->
  exists d memo', _depth_of n nodes edges memo index = (d, memo') /\ longest nodes edges n d /\ memo_ok memo'.
Proof.
  intros Hn Hm. unfold _depth_of.
  destruct (depth_ok (depth_fuel nodes) n memo ∅) as (d & memo' & -> & Hl & Hm'); [done|done|set_solver| |].
  - unfold depth_fuel. transitivity (length nodes.*1); [|rewrite length_fmap; lia].
    rewrite difference_empty_L. clear. induction nodes.*1 as [|x l IH]; cbn; [by rewrite size_empty|].
    rewrite size_union_alt, size_singleton.
    pose proof (subseteq_size (list_to_set l ∖ {[x]} : gset string) (list_to_set l) ltac:(set_solver)). lia.
  - by exists d, memo'.
Qed.
End Depth.

(** ** The frontier *)

Definition repair_ready (t : TaskNode) : Prop := otruthy (jget "__repair_ready" (metadata (task_base t))) = true.

(** Waiting to be executed: never verified, or stale and released for repair. *)
Definition pending (t : TaskNode) : Prop :=
  lifecycle (task_base t) = NodeLifecycle.ADMITTED /\
  (validity (task_base t) = NodeValidity.UNVERIFIED \/
   validity (task_base t) = NodeValidity.STALE /\ repair_ready t).
(** Usable as a dependency. *)
Definition established (t : TaskNode) : Prop :=
  validity (task_base t) = NodeValidity.VERIFIED /\ lifecycle (task_base t) <> NodeLifecycle.PROPOSED.

Definition ready (nodes : dict AnyNode) (edges : list VPGEdge) (id : string) : Prop :=
  exists t, dict_get id nodes = Some (NTask t) /\ pending t /\
    forall d n, d ∈ depends_on edges id -> dict_get d nodes = Some n ->
      exists t', n = NTask t' /\ established t'.

(** READY as the header of readiness.py lists it, which asks no release of STALE tasks. *)
Definition listed (nodes : dict AnyNode) (edges : list VPGEdge) (id : string) : Prop :=
  exists t, dict_get id nodes = Some (NTask t) /\ lifecycle (task_base t) = NodeLifecycle.ADMITTED /\
    (validity (task_base t) = NodeValidity.UNVERIFIED \/ validity (task_base t) = NodeValidity.STALE) /\
    forall d n, d ∈ depends_on edges id -> dict_get d nodes = Some n -> exists t', n = NTask t' /\ established t'.
(** STALE tasks have been released for repair. *)
Definition all_released (nodes : dict AnyNode) : Prop :=
  forall id t, dict_get id nodes = Some (NTask t) -> validity (task_base t) = NodeValidity.STALE -> repair_ready t.
Lemma ready_listed nodes edges id : ready nodes edges id -> listed nodes edges id.
Proof. intros (t & Ht & (Hl & Hv) & Hd). exists t. split_and!; [done..|naive_solver|done]. Qed.
Lemma listed_ready nodes edges id : all_released nodes -> listed nodes edges id -> ready nodes edges id.
Proof.
  intros Hr (t & Ht & Hl & Hv & Hd). exists t. split_and!; [done| |done]. split; [done|].
  destruct Hv as [Hv|Hv]; [by left|right; split; [done|by eapply Hr]].
Qed.

(** What the frontier is sorted by. *)
Definition dispatch_key (nodes : dict AnyNode) (edges : list VPGEdge) (id : string) (k : sort_key) : Prop :=
  exists p d, _priority_of id nodes = Ok p /\ longest nodes edges id d /\
    k = ((- p)%Z, (d, (_created_of id nodes, id))).
Definition dispatch_le (nodes : dict AnyNode) (edges : list VPGEdge) (a b : string) : Prop :=
  exists ka kb, dispatch_key nodes edges a ka /\ dispatch_key nodes edges b kb /\ py_leb ka kb = true.

Lemma live_spec l : live l = true <-> l <> NodeLifecycle.PROPOSED.
Proof. by destruct l. Qed.

Lemma deps_verified_spec nodes edges n :
  _task_deps_all_verified n nodes edges (Some (_depends_on_index edges)) = true <->
  forall d m, d ∈ depends_on edges n -> dict_get d nodes = Some m -> exists t, m = NTask t /\ established t.
Proof.
  unfold _task_deps_all_verified, established. rewrite dep_index_targets, forallb_forall.
  setoid_rewrite <-list_elem_of_In. split.
  - intros Hf d m Hd Hm. specialize (Hf d Hd). rewrite Hm in Hf. destruct m as [|t| | |]; try done.
    exists t. apply andb_true_iff in Hf as [H1%bool_decide_eq_true H2%live_spec]. done.
  - intros Hf d Hd. destruct (dict_get d nodes) as [m|] eqn:Hm; [|done].
    destruct (Hf d m Hd Hm) as (t & -> & H1 & H2). by rewrite bool_decide_eq_true_2, (proj2 (live_spec _) H2).
Qed.

Lemma task_is_ready_spec nodes edges t :
  task_is_ready t nodes edges (Some (_depends_on_index edges)) = true <->
  pending t /\ _task_deps_all_verified (task_id_of t) nodes edges (Some (_depends_on_index edges)) = true.
Proof.
  unfold task_is_ready, pending, repair_ready.
  destruct (lifecycle (task_base t)), (validity (task_base t)), (otruthy _); cbn; naive_solver.
Qed.

Lemma ready_ids_spec nodes edges id :
  nodes_ok nodes -> id ∈ ready_ids nodes edges <-> ready nodes edges id.
Proof.
  intros [Hd Hk]. unfold ready_ids, ready. rewrite list_elem_of_omap. split.
  - intros (n & ([k n'] & -> & Hin)%list_elem_of_fmap & Hn). cbn in Hn. destruct n' as [|t| | |]; try done.
    destruct (task_is_ready _ _ _ _) eqn:Hr; [|done]. apply (inj Some) in Hn as <-.
    apply task_is_ready_spec in Hr as [Hp Hv]. rewrite deps_verified_spec in Hv. exists t. split_and!; [|done|done].
    pose proof (Hk _ _ Hin) as Heq. cbn in Heq. rewrite Heq. by apply dict_get_Some.
  - intros (t & Ht & Hp & Hv). apply dict_get_Some in Ht; [|done]. exists (NTask t).
    pose proof (Hk _ _ Ht) as Heq. cbn in Heq. split; [apply list_elem_of_fmap; by exists (id, NTask t)|].
    rewrite (proj2 (task_is_ready_spec _ _ _)); [by rewrite Heq|]. split; [done|].
    rewrite Heq. by apply deps_verified_spec.
Qed.
Lemma ready_ids_NoDup nodes edges : nodes_ok nodes -> NoDup (ready_ids nodes edges).
Proof.
  intros [Hd Hk]. eapply sublist_NoDup; [exact Hd|]. unfold ready_ids.
  generalize (task_is_ready). intros f. clear Hd.
  assert (forall l, l ⊆ nodes -> omap (fun n => match n with
     | NTask t => if f t nodes edges (Some (_depends_on_index edges)) then Some (task_id_of t) else None
     | _ => None end) l.*2 `sublist_of` l.*1) as Hgen; [|by apply Hgen].
  induction l as [|[k n] l IH]; intros Hl; cbn; [constructor|].
  assert (l ⊆ nodes) as Hl' by set_solver. specialize (IH Hl').
  assert (node_id (base n) = k) as <- by (apply Hk; set_solver).
  destruct n as [|t| | |]; cbn; try by constructor. destruct (f _ _ _ _); by constructor.
Qed.

Lemma sort_keys_ok nodes edges ids memo :
  ~ cyclic (task_deps nodes edges) -> memo_ok nodes edges memo ->
  (forall id, id ∈ ids -> is_task nodes id = true /\ exists p, _priority_of id nodes = Ok p) ->
  exists ks, sort_keys nodes edges (Some (_depends_on_index edges)) ids memo = Ok ks /\
    ks.*2 = ids /\ Forall (fun k => dispatch_key nodes edges k.2 k.1) ks.
Proof.
  intros Hac. revert memo. induction ids as [|id ids IH]; intros memo Hm Hids; cbn; [by exists []|].
  destruct (Hids id) as [Ht [p Hp]]; [set_solver|]. rewrite Hp.
  destruct (depth_of_ok nodes edges Hac id memo Ht Hm) as (d & memo' & -> & Hl & Hm').
  destruct (IH memo' Hm') as (ks & -> & Hks & Hf); [set_solver|].
  eexists. split; [done|]. cbn. split; [by f_equal|]. constructor; [|done]. cbn. by exists p, d.
Qed.

Lemma sorted_keys_ids nodes edges (ks : list (sort_key * string)) :
  StronglySorted (key_le fst) ks -> Forall (fun k => dispatch_key nodes edges k.2 k.1) ks ->
  StronglySorted (dispatch_le nodes edges) ks.*2.
Proof.
  induction 1 as [|k ks Hs IH Hall]; intros Hf; cbn; [constructor|].
  apply Forall_cons in Hf as [Hk Hf]. constructor; [by apply IH|].
  rewrite Forall_fmap. eapply Forall_impl; [apply Forall_and; split; [exact Hall|exact Hf]|].
  intros k' [Hle Hk']. cbn. by exists k.1, k'.1.
Qed.

(** The priority of a dispatchable task is convertible to [int]. *)
Definition priorities_ok (nodes : dict AnyNode) (edges : list VPGEdge) : Prop :=
  forall id, ready nodes edges id -> exists p, _priority_of id nodes = Ok p.

Lemma ready_ids_sorted nodes edges :
  nodes_ok nodes -> ~ cyclic (task_deps nodes edges) -> priorities_ok nodes edges ->
  exists ids, compute_ready_task_ids nodes edges = Ok ids /\ NoDup ids /\
    (forall id, id ∈ ids <-> ready nodes edges id) /\ StronglySorted (dispatch_le nodes edges) ids.
Proof.
  intros Hok Hac Hp. unfold compute_ready_task_ids.
  destruct (sort_keys_ok nodes edges (ready_ids nodes edges) ∅ Hac) as (ks & -> & Hks & Hf).
  { by intros n d Hn%lookup_empty_Some. }
  { intros id Hid%ready_ids_spec; [|done]. split; [|by apply Hp].
    destruct Hid as (t & Ht & _). apply is_task_get. eauto. }
  assert ((sort_on fst ks).*2 ≡ₚ ready_ids nodes edges) as Hperm by (by rewrite sort_on_perm, Hks).
  eexists. split; [done|]. split_and!.
  - rewrite Hperm. by apply ready_ids_NoDup.
  - intros id. rewrite Hperm. by apply ready_ids_spec.
  - apply sorted_keys_ids; [apply sort_on_sorted|]. by rewrite sort_on_perm.
Qed.

(** ** Independence of the insertion order *)

Section Reordered.
Context (nodes nodes' : dict AnyNode) (edges edges' : list VPGEdge).
Context (Hok : nodes_ok nodes) (Hn : nodes ≡ₚ nodes') (He : edges ≡ₚ edges').

Lemma reordered_get k : dict_get k nodes' = dict_get k nodes.
Proof using Hok Hn. symmetry. by apply dict_get_perm; [apply Hok|]. Qed.
Lemma reordered_ok : nodes_ok nodes'.
Proof using Hok Hn. destruct Hok as [Hd Hk]. unfold nodes_ok, dict_ok. setoid_rewrite <-Hn. done. Qed.
Lemma reordered_deps n m : m ∈ depends_on edges' n <-> m ∈ depends_on edges n.
Proof using He. rewrite !depends_on_elem. by setoid_rewrite He. Qed.
Lemma reordered_edge n m : edge (task_deps nodes' edges') n m <-> edge (task_deps nodes edges) n m.
Proof using Hok Hn He.
  unfold edge, task_deps. rewrite !list_elem_of_filter, reordered_deps. unfold is_task. by rewrite reordered_get.
Qed.
Lemma reordered_acyclic : ~ cyclic (task_deps nodes edges) -> ~ cyclic (task_deps nodes' edges').
Proof using Hok Hn He. intros Hac [x Hx]. apply Hac. exists x. by apply (tc_iff _ _ x x reordered_edge) in Hx. Qed.
Lemma reordered_longest n d : longest nodes' edges' n d <-> longest nodes edges n d.
Proof using Hok Hn He. unfold longest. by setoid_rewrite (chain_iff _ _ _ reordered_edge). Qed.
Lemma reordered_ready id : ready nodes' edges' id <-> ready nodes edges id.
Proof using Hok Hn He.
  unfold ready. setoid_rewrite reordered_deps. by setoid_rewrite reordered_get.
Qed.
Lemma reordered_priority id : _priority_of id nodes' = _priority_of id nodes.
Proof using Hok Hn. unfold _priority_of. by rewrite reordered_get. Qed.
Lemma reordered_le a b : dispatch_le nodes' edges' a b <-> dispatch_le nodes edges a b.
Proof using Hok Hn He.
  unfold dispatch_le, dispatch_key, _created_of. setoid_rewrite reordered_longest.
  setoid_rewrite reordered_priority. by setoid_rewrite reordered_get.
Qed.
Lemma reordered_priorities : priorities_ok nodes edges -> priorities_ok nodes' edges'.
Proof using Hok Hn He. intros Hp id Hr%reordered_ready. rewrite reordered_priority. by apply Hp. Qed.
End Reordered.

Lemma dispatch_le_antisym nodes edges a b :
  dispatch_le nodes edges a b -> dispatch_le nodes edges b a -> a = b.
Proof.
  assert (forall id k k', dispatch_key nodes edges id k -> dispatch_key nodes edges id k' -> k = k') as Hfun.
  { intros id k k' (p & d & Hp & Hl & ->) (p' & d' & Hp' & Hl' & ->).
    assert (p = p') as -> by congruence. by rewrite (longest_unique nodes edges id d d'). }
  intros (ka & kb & Ha & Hb & Hab) (kb' & ka' & Hb' & Ha' & Hba).
  rewrite (Hfun _ _ _ Ha' Ha), (Hfun _ _ _ Hb' Hb) in Hba.
  assert (ka = kb) as Heq by (by apply py_leb_antisym).
  destruct Ha as (p & d & _ & _ & ->), Hb as (p' & d' & _ & _ & ->). by simplify_eq.
Qed.

(** ** Progress *)

Lemma deps_unverified nodes edges n :
  _task_deps_all_verified n nodes edges (Some (_depends_on_index edges)) = false ->
  exists d m, d ∈ depends_on edges n /\ dict_get d nodes = Some m /\ forall t, m = NTask t -> ~ established t.
Proof.
  unfold _task_deps_all_verified. rewrite dep_index_targets. induction (depends_on edges n) as [|d l IH]; [done|].
  intros [Hd|Hl]%andb_false_iff.
  - destruct (dict_get d nodes) as [m|] eqn:Hm; [|done]. exists d, m. split_and!; [set_solver|done|].
    intros t -> [Hv Hl]. by rewrite bool_decide_eq_true_2, (proj2 (live_spec _) Hl) in Hd.
  - destruct (IH Hl) as (d' & m & Hin & Hm). exists d', m. split; [set_solver|done].
Qed.

(** A pending task has a ready one at or below it, by the length of the longest
    path. *)
Lemma pending_has_ready nodes edges (k : nat) id t :
  (forall id t, dict_get id nodes = Some (NTask t) -> established t \/ pending t) ->
  (forall id d n, is_task nodes id = true -> d ∈ depends_on edges id -> dict_get d nodes = Some n ->
     exists t', n = NTask t') ->
  dict_get id nodes = Some (NTask t) -> pending t ->
  (forall l, chain (task_deps nodes edges) (id :: l) -> length l <= k) ->
  exists id', ready nodes edges id'.
Proof.
  intros Hst Hdep. revert id t. induction k as [|k IH]; intros id t Hid Hp Hmax.
  all: destruct (_task_deps_all_verified id nodes edges (Some (_depends_on_index edges))) eqn:Hv;
    [exists id, t; split_and!; [done..|by apply deps_verified_spec]|].
  all: apply deps_unverified in Hv as (d & m & Hd & Hm & Hno).
  all: destruct (Hdep id d m) as [t' ->]; [apply is_task_get; eauto|done|done|].
  all: assert (edge (task_deps nodes edges) id d) as He
    by (unfold edge, task_deps; apply list_elem_of_filter; split; [apply is_task_get; eauto|done]).
  - pose proof (Hmax [d] ltac:(constructor; [done|constructor])) as Hle. cbn in Hle. lia.
  - destruct (Hst d t' Hm) as [Hes|Hpe]; [by destruct (Hno t')|]. apply (IH d t' Hm Hpe).
    intros l Hl. pose proof (Hmax (d :: l) ltac:(by constructor)) as Hle. cbn in Hle. lia.
Qed.

(** ** Properties *)


(** The frontier does not depend on insertion order.  Listing the nodes or
    the edges of the graph in another order gives the same frontier. *)
Theorem ready_frontier_deterministic nodes nodes' edges edges' :
  nodes_ok nodes -> ~ cyclic (task_deps nodes edges) -> priorities_ok nodes edges ->
  nodes ≡ₚ nodes' -> edges ≡ₚ edges' ->
  compute_ready_task_ids nodes' edges' = compute_ready_task_ids nodes edges.
Proof.
  intros Hok Hac Hp Hn He.
  destruct (ready_ids_sorted nodes edges Hok Hac Hp) as (ids & -> & Hnd & Hin & Hs).
  destruct (ready_ids_sorted nodes' edges') as (ids' & -> & Hnd' & Hin' & Hs').
  { by eapply reordered_ok. }
  { by apply (reordered_acyclic nodes nodes' edges edges'). }
  { by apply (reordered_priorities nodes nodes' edges edges'). }
  f_equal. apply (StronglySorted_unique_strong (dispatch_le nodes edges)).
  - intros x y _ _. apply dispatch_le_antisym.
  - eapply StronglySorted_weaken; [|exact Hs']. intros a b. apply (reordered_le nodes nodes' edges edges' Hok Hn He).
  - done.
  - apply NoDup_Permutation; [done|done|]. intros id. rewrite Hin, Hin'. by apply reordered_ready.
Qed.

(** An unfinished graph can always go on.  When every task is verified or
    pending, dependencies are tasks and there is no cycle, a pending task means
    a non-empty frontier. *)
Theorem ready_frontier_progress nodes edges id t :
  nodes_ok nodes -> ~ cyclic (task_deps nodes edges) -> priorities_ok nodes edges ->
  (forall id t, dict_get id nodes = Some (NTask t) -> established t \/ pending t) ->
  (forall id d n, is_task nodes id = true -> d ∈ depends_on edges id -> dict_get d nodes = Some n ->
     exists t', n = NTask t') ->
  dict_get id nodes = Some (NTask t) -> pending t ->
  exists next rest, compute_ready_task_ids nodes edges = Ok (next :: rest).
Proof.
  intros Hok Hac Hp Hst Hdep Hid Hpe.
  destruct (ready_ids_sorted nodes edges Hok Hac Hp) as (ids & -> & _ & Hin & _).
  destruct (depth_of_ok nodes edges Hac id ∅) as (d & _ & _ & [_ Hmax] & _).
  { apply is_task_get. eauto. }
  { by intros n k Hn%lookup_empty_Some. }
  destruct (pending_has_ready nodes edges (Z.to_nat d) id t) as [id' Hr]; [done|done|done|done| |].
  { intros l Hl%Hmax. lia. }
  apply Hin in Hr. destruct ids as [|next rest]; [by apply not_elem_of_nil in Hr|]. by exists next, rest.
Qed.

(** ** Examples *)

Definition demo_task (id : string) (v : NodeValidity.t) (md : jobj) : string * AnyNode :=
  (id, NTask (mkTask (mkNode id "g" NodeLifecycle.ADMITTED v 1 1 "p" 0 md) "" "" "" [] 1)).
Definition demo_nodes : dict AnyNode :=
  [demo_task "d" NodeValidity.STALE [("priority", JFloat "2.5"); ("__repair_ready", JBool true)];
   demo_task "c" NodeValidity.UNVERIFIED []; demo_task "b" NodeValidity.UNVERIFIED [("priority", JInt 2)];
   demo_task "a" NodeValidity.VERIFIED []].
Definition demo_edges : list VPGEdge :=
  [demo_edge "c" "b"; demo_edge "b" "a"; demo_edge "d" "missing"].
Example ready_demo : compute_ready_task_ids demo_nodes demo_edges = Ok ["d"; "b"].
Proof. vm_compute. reflexivity. Qed.

(** A STALE task that was not released waits, although the header lists it as ready. *)
Lemma stale_task_waits : let nodes := [demo_task "s" NodeValidity.STALE []] in
  compute_ready_task_ids nodes [] = Ok [] /\ listed nodes [] "s".
Proof. split; [vm_compute; reflexivity|]. eexists. split_and!; [vm_compute; reflexivity|done|by right|]. by intros d n Hd%not_elem_of_nil. Qed.

(** What patch admission checks implies acyclicity of the task graph. *)
Lemma detected_acyclic `{SetOrder} nodes edges :
  detect_cycle edges [] = Ok None -> ~ cyclic (task_deps nodes edges).
Proof.
  intros Hd [x Hx]. pose proof (detect_cycle_spec edges []) as Hs. rewrite Hd, app_nil_r in Hs. apply Hs.
  exists x. eapply tc_mono; [|exact Hx]. intros a b He. unfold edge, task_deps in He.
  by apply list_elem_of_filter in He as [_ He].
Qed.
Lemma demo_nodes_ok : nodes_ok demo_nodes.
Proof.
  split; [refine (bool_decide_unpack (NoDup demo_nodes.*1) _); vm_compute; exact I|]. intros k n Hin.
  repeat (apply elem_of_cons in Hin as [[= -> ->]|Hin]; [done|]). by apply not_elem_of_nil in Hin.
Qed.
Lemma demo_acyclic : ~ cyclic (task_deps demo_nodes demo_edges).
Proof. apply (@detected_acyclic elements_order). vm_compute. reflexivity. Qed.
Lemma demo_priorities : priorities_ok demo_nodes demo_edges.
Proof.
  intros id (t & Hin%dict_get_elem & _).
  repeat (apply elem_of_cons in Hin as [[= -> ->]|Hin]; [by eexists|]). by apply not_elem_of_nil in Hin.
Qed.
Lemma ready_frontier_deterministic_witness :
  compute_ready_task_ids (reverse demo_nodes) (reverse demo_edges) = compute_ready_task_ids demo_nodes demo_edges.
Proof.
  apply (ready_frontier_deterministic demo_nodes _ demo_edges _ demo_nodes_ok demo_acyclic demo_priorities).
  - symmetry. apply reverse_Permutation.
  - symmetry. apply reverse_Permutation.
Defined.
Lemma ready_frontier_progress_witness :
  exists next rest, compute_ready_task_ids demo_nodes demo_edges = Ok (next :: rest).
Proof.
  apply (ready_frontier_progress demo_nodes demo_edges "c" (mkTask (mkNode "c" "g" NodeLifecycle.ADMITTED
    NodeValidity.UNVERIFIED 1 1 "p" 0 []) "" "" "" [] 1) demo_nodes_ok demo_acyclic demo_priorities).
  - intros id t Hin%dict_get_elem.
    repeat (apply elem_of_cons in Hin as [[= -> ->]|Hin];
      [first [by left|by right; split; [done|left]|by right; split; [done|right]]|]).
    by apply not_elem_of_nil in Hin.
  - intros id d n _ _ Hin%dict_get_elem.
    repeat (apply elem_of_cons in Hin as [[= -> ->]|Hin]; [by eexists|]). by apply not_elem_of_nil in Hin.
  - done.
  - by split; [|left].
Defined.
