(* ===== verification/Invalidation.v ===== *)
(** * Causal invalidation and repair (runtimes/invalidation)

    Evidence applicability (evidence.py), the invalidation cone and its proofs
    (cone.py), the repair frontier (frontier.py) and the engine that composes
    them (engine.py).  Everything is a pure derivation from the graph. *)

From Stdlib Require Import Ascii.
From S2P Require Import Prelude VpgModels.

(** ** Strings: [repr], [str], substring, digest *)

(** Values that reach [_hash]: [None], integers, strings and tuples of them. *)
#[warnings="-register-all"]
Inductive pyval : Type := PNone | PInt (z : Z) | PStr (s : string) | PTuple (l : list pyval).

Fixpoint has_char (c : ascii) (s : string) : bool :=
  match s with EmptyString => false | String a s' => Ascii.eqb a c || has_char c s' end.
Definition squote : ascii := "'"%char.
Definition dquote : ascii := ascii_of_nat 34.
Definition hex_digit (n : nat) : ascii := default "0"%char (String.get n "0123456789abcdef").
(** One character inside a [repr]; characters from code 128 on stand for
    themselves. *)
Definition repr_char (q a : ascii) : string :=
  let n := nat_of_ascii a in
  if Ascii.eqb a q || Ascii.eqb a "\" then String "\" (String a EmptyString)
  else if Nat.eqb n 10 then "\n" else if Nat.eqb n 13 then "\r" else if Nat.eqb n 9 then "\t"
  else if Nat.ltb n 32 || Nat.eqb n 127
  then "\x" +:+ String (hex_digit (n / 16)) (String (hex_digit (n mod 16)) EmptyString)
  else String a EmptyString.
Fixpoint repr_chars (q : ascii) (s : string) : string :=
  match s with EmptyString => EmptyString | String a s' => repr_char q a +:+ repr_chars q s' end.
Definition repr_str (s : string) : string :=
  let q := if has_char squote s && negb (has_char dquote s) then dquote else squote in
  String q (repr_chars q s +:+ String q EmptyString).

Fixpoint join (sep : string) (l : list string) : string :=
  match l with [] => "" | [x] => x | x :: l' => x +:+ sep +:+ join sep l' end.
Fixpoint py_repr (v : pyval) : string :=
  match v with
  | PNone => "None"
  | PInt z => pretty z
  | PStr s => repr_str s
  | PTuple [x] => "(" +:+ py_repr x +:+ ",)"
  | PTuple l => "(" +:+ join ", " (map py_repr l) +:+ ")"
  end.
(** ["" if p is None else str(p)] *)
Definition hash_part (v : pyval) : string :=
  match v with PNone => "" | PStr s => s | _ => py_repr v end.
Definition strs (l : list string) : pyval := PTuple (PStr <$> l).

(** [hashlib.sha256(...).hexdigest()] of the UTF-8 bytes. *)
Class Sha256 := sha256_hexdigest : string -> string.

(** ["\x1f".join(...)], digested; the same in cone.py, frontier.py, engine.py. *)
Definition _hash `{Sha256} (parts : list pyval) : string :=
  sha256_hexdigest (join (String (ascii_of_nat 31) EmptyString) (hash_part <$> parts)).

Fixpoint starts_with (p s : string) : bool :=
  match p, s with
  | EmptyString, _ => true
  | String a p', String b s' => Ascii.eqb a b && starts_with p' s'
  | _, EmptyString => false
  end.
(** [p in s] *)
Fixpoint substring_of (p s : string) : bool :=
  starts_with p s || match s with EmptyString => false | String _ s' => substring_of p s' end.

(** ** models.py *)

Inductive InvalidationCauseType : Type :=
  ARTIFACT_VERSION_SUPERSEDED | EVIDENCE_ARTIFACT_INVALID | SOURCE_ACTION_INVALID | SOURCE_EVENT_INVALID.
Definition cause_type_value (c : InvalidationCauseType) : string :=
  match c with
  | ARTIFACT_VERSION_SUPERSEDED => "ARTIFACT_VERSION_SUPERSEDED"
  | EVIDENCE_ARTIFACT_INVALID => "EVIDENCE_ARTIFACT_INVALID"
  | SOURCE_ACTION_INVALID => "SOURCE_ACTION_INVALID"
  | SOURCE_EVENT_INVALID => "SOURCE_EVENT_INVALID"
  end.

Record InvalidationCause : Type := mkCause {
  cause_id : string;
  cause_graph_id : string;
  cause_graph_version : Z;
  cause_type : InvalidationCauseType;
  cause_source_node_id : option string;
  cause_artifact_id : option string;
  cause_old_version : option Z;
  cause_new_version : option Z;
  cause_evidence_id : option string;
  cause_action_id : option string;
  cause_reason : string }.

Record EvidenceApplicability : Type := mkApplicability {
  ea_graph_id : string;
  ea_graph_version : Z;
  ea_evidence_id : string;
  ea_applies : bool;
  ea_reason : string;
  ea_cause_id : option string;
  ea_derived_at_version : Z }.

Record InvalidationCone : Type := mkCone {
  cone_graph_id : string;
  base_graph_version : Z;
  causes : list InvalidationCause;
  seed_node_ids : list string;
  affected_node_ids : list string;
  preserved_node_ids : list string;
  propagation_edges : list string;
  cone_hash : string }.

Record InvalidationProof : Type := mkProof {
  proof_graph_id : string;
  proof_graph_version : Z;
  proof_task_id : string;
  root_causes : list string;
  causal_path : list string;
  previous_validity : string;
  resulting_validity : string;
  proof_hash : string }.

Record RepairCandidate : Type := mkRepair {
  repair_task_id : string;
  repair_causes : list string;
  invalidated_by : list string;
  dependency_proof : list string }.

Record RepairFrontier : Type := mkFrontier {
  frontier_graph_id : string;
  frontier_graph_version : Z;
  candidates : list RepairCandidate;
  frontier_hash : string }.

Record D3Event : Type := mkD3Event {
  d3_event_id : string;
  d3_graph_id : string;
  d3_graph_version : Z;
  d3_event_type : string;
  d3_cause_ids : list string;
  d3_source_node_id : option string;
  d3_affected_node_id : option string;
  d3_causal_edge : option string;
  d3_old_validity : option string;
  d3_new_validity : option string;
  d3_occurred_at_version : Z;
  d3_reason : string }.

(** ** evidence.py *)

Section Evidence.
Context (graph_id : string) (graph_version : Z).
Context (verify_binding : option (string -> Z -> string -> bool)).
Context (action_valid event_valid : option (string -> bool)).
Context (current_output_versions : option (dict Z)).

Definition cause_ref (kind what : string) : string :=
  "cause:" +:+ graph_id +:+ ":v" +:+ pretty graph_version +:+ ":" +:+ kind +:+ ":" +:+ what.

(** The loop over the bindings: the reason and cause of the first one that fails. *)
Fixpoint check_bindings (bindings : list ArtifactVersionBinding) : option (string * string) :=
  match bindings with
  | [] => None
  | b :: rest =>
      match (current ← current_output_versions; cur ← dict_get (b_artifact_id b) current;
             if decide (b_version b < cur)%Z then Some cur else None) with
      | Some cur =>
          Some ("artifact " +:+ b_artifact_id b +:+ " version " +:+ pretty (b_version b) +:+
                " superseded by " +:+ pretty cur, cause_ref "out" (b_artifact_id b))
      | None =>
          match verify_binding with
          | Some verify =>
              if verify (b_artifact_id b) (b_version b) (b_content_hash b) then check_bindings rest
              else Some ("backing artifact " +:+ b_artifact_id b +:+ "@" +:+ pretty (b_version b) +:+ " invalid",
                         cause_ref "art" (b_artifact_id b))
          | None => check_bindings rest
          end
      end
  end.
Definition check_action (ev : EvidenceNode) : option (string * string) :=
  match source_action_id ev, action_valid with
  | Some a, Some valid =>
      if negb (String.eqb a "") && negb (valid a)
      then Some ("source action " +:+ a +:+ " no longer valid", cause_ref "act" a) else None
  | _, _ => None
  end.
Definition check_events (ev : EvidenceNode) : option (string * string) :=
  match event_valid with
  | Some valid =>
      e ← List.find (fun e => negb (valid e)) (source_event_ids ev);
      Some ("source event " +:+ e +:+ " no longer valid", cause_ref "evt" e)
  | None => None
  end.
(** The first seed (A/B, then C on the action, then C on the events) that
    applies. *)
Definition check_evidence (ev : EvidenceNode) : option (string * string) :=
  match check_bindings (artifact_bindings ev) with
  | Some r => Some r
  | None => match check_action ev with Some r => Some r | None => check_events ev end
  end.

Definition evidence_applicability_for_graph (evidence_nodes : dict EvidenceNode) : list EvidenceApplicability :=
  omap (fun eid =>
    ev ← dict_get eid evidence_nodes;
    Some (match check_evidence ev with
          | Some (reason, cause) =>
              mkApplicability graph_id graph_version eid false reason (Some cause) graph_version
          | None => mkApplicability graph_id graph_version eid true "" None graph_version
          end)) (py_sorted evidence_nodes.*1).

Definition cause_of (v : EvidenceApplicability) : InvalidationCause :=
  let is_kind kind := match ea_cause_id v with
                      | Some c => negb (String.eqb c "") && substring_of kind c
                      | None => false
                      end in
  let ctype := if is_kind ":art:" then EVIDENCE_ARTIFACT_INVALID
               else if is_kind ":act:" then SOURCE_ACTION_INVALID
               else if is_kind ":evt:" then SOURCE_EVENT_INVALID
               else ARTIFACT_VERSION_SUPERSEDED in
  let fallback := "cause:" +:+ graph_id +:+ ":v" +:+ pretty graph_version +:+ ":" +:+ ea_evidence_id v in
  let cid := match ea_cause_id v with
             | Some c => if String.eqb c "" then fallback else c
             | None => fallback
             end in
  mkCause cid graph_id graph_version ctype None None None None (Some (ea_evidence_id v)) None (ea_reason v).
Definition causes_from_applicability (verds : list EvidenceApplicability) : list InvalidationCause :=
  sort_on cause_id (cause_of <$> filter (fun v => ea_applies v = false) verds).
End Evidence.

(** ** cone.py *)

Record _GraphView : Type := mkView {
  forward_deps : gmap string (list string);
  reverse_deps : gmap string (list string) }.

Definition has_key {A} (k : string) (d : dict A) : bool := bool_decide (k ∈ d.*1).
Definition push (k v : string) (m : gmap string (list string)) : gmap string (list string) :=
  <[k := default [] (m !! k) ++ [v]]> m.

Definition view_edge (task_nodes : dict TaskNode) (v : _GraphView) (e : VPGEdge) : _GraphView :=
  if bool_decide (edge_type e = EdgeType.DEPENDS_ON) &&
     (has_key (source_node_id e) task_nodes && has_key (target_node_id e) task_nodes)
  then mkView (push (source_node_id e) (target_node_id e) (forward_deps v))
              (push (target_node_id e) (source_node_id e) (reverse_deps v))
  else v.
Definition _build_view (task_nodes : dict TaskNode) (edges : list VPGEdge) : _GraphView :=
  let empty := list_to_map ((fun tid => (tid, [])) <$> task_nodes.*1) in
  let v := foldl (view_edge task_nodes) (mkView empty empty) edges in
  mkView (py_sorted <$> forward_deps v) (py_sorted <$> reverse_deps v).

Definition deps_in (m : gmap string (list string)) (n : string) : list string := default [] (m !! n).

(** [{a.evidence_id: a.applies for a in evidence_applicability}] *)
Definition applic_map (verds : list EvidenceApplicability) : gmap string bool :=
  foldl (fun m a => <[ea_evidence_id a := ea_applies a]> m) ∅ verds.

Definition add_seed (seed_ids : list string) (tid : string) : list string :=
  if decide (tid ∈ seed_ids) then seed_ids else seed_ids ++ [tid].
Definition cause_seeds (task_nodes : dict TaskNode) (cs : list InvalidationCause) : list string :=
  foldl (fun acc c =>
    match cause_source_node_id c with
    | Some s => if negb (String.eqb s "") && has_key s task_nodes then add_seed acc s else acc
    | None => acc
    end) [] cs.
Definition evidence_lost (verds : list EvidenceApplicability) (evids : list string) : bool :=
  existsb (fun eid => bool_decide (applic_map verds !! eid = Some false)) evids.
Definition seeds (task_nodes : dict TaskNode) (cs : list InvalidationCause)
    (verds : list EvidenceApplicability) (evidence_of : option (dict (list string))) : list string :=
  py_sorted (foldl (fun acc '(tid, evids) =>
    if has_key tid task_nodes && evidence_lost verds evids then add_seed acc tid else acc)
    (cause_seeds task_nodes cs) (default [] evidence_of)).

Record cone_loop : Type := mkLoop {
  stale : gset string;
  queue : list string;
  prop_edges : list string }.

(** [for rely in view.reverse_deps.get(node_id, ())] *)
Fixpoint spread (task_nodes : dict TaskNode) (node_id : string) (st : cone_loop) (dependents : list string)
    : result cone_loop :=
  match dependents with
  | [] => Ok st
  | rely :: rest =>
      if decide (rely ∈ stale st) then spread task_nodes node_id st rest else
      match dict_get rely task_nodes with
      | None => Raise (KeyError rely)
      | Some n =>
          if decide (validity (task_base n) = NodeValidity.VERIFIED)
          then spread task_nodes node_id
                 (mkLoop (stale st) (queue st ++ [rely]) (prop_edges st ++ [node_id +:+ "->" +:+ rely])) rest
          else spread task_nodes node_id st rest
      end
  end.

Fixpoint propagate (fuel : nat) (task_nodes : dict TaskNode) (view : _GraphView) (st : cone_loop)
    : result cone_loop :=
  match queue st with
  | [] => Ok st
  | node_id :: queue' =>
      match fuel with
      | 0 => Ok st
      | S fuel' =>
          let st' := mkLoop (stale st) queue' (prop_edges st) in
          if decide (node_id ∈ stale st) then propagate fuel' task_nodes view st'
          else if negb (has_key node_id task_nodes) then propagate fuel' task_nodes view st'
          else match spread task_nodes node_id (mkLoop ({[node_id]} ∪ stale st) queue' (prop_edges st))
                       (deps_in (reverse_deps view) node_id) with
               | Raise e => Raise e
               | Ok st'' => propagate fuel' task_nodes view st''
               end
      end
  end.

(** Every seed is popped once, every dependency edge queues at most once. *)
Definition cone_fuel (task_nodes : dict TaskNode) (view : _GraphView) (seed_ids : list string) : nat :=
  length seed_ids +
  sum_list_with (fun tid => length (deps_in (reverse_deps view) tid))
    (elements (list_to_set task_nodes.*1 : gset string)).

Definition compute_invalidation_cone (graph_id : string) (version : Z) (task_nodes : dict TaskNode)
    (edges : list VPGEdge) (cs : list InvalidationCause) (verds : list EvidenceApplicability)
    (evidence_of : option (dict (list string))) : result InvalidationCone :=
  let view := _build_view task_nodes edges in
  let seed_ids := seeds task_nodes cs verds evidence_of in
  match propagate (cone_fuel task_nodes view seed_ids) task_nodes view (mkLoop ∅ seed_ids []) with
  | Raise e => Raise e
  | Ok st =>
      Ok (mkCone graph_id version cs seed_ids (py_sorted (elements (stale st)))
            (py_sorted (filter (fun tid => tid ∉ stale st) task_nodes.*1))
            (py_sorted (prop_edges st)) "")
  end.

Definition _cone_hash `{Sha256} (c : InvalidationCone) : string :=
  _hash [PStr "cone"; PStr (cone_graph_id c); PInt (base_graph_version c);
         strs (py_sorted (cause_id <$> causes c)); strs (seed_node_ids c);
         strs (affected_node_ids c); strs (propagation_edges c)].

(** ** Proofs: the climb along [forward_deps] from a stale task to a cause *)

(** [{c.source_node_id: c.cause_id for c in cone.causes if ... is not None}] *)
Definition cause_roots (cs : list InvalidationCause) : gmap string string :=
  foldl (fun m c => match cause_source_node_id c with Some s => <[s := cause_id c]> m | None => m end) ∅ cs.

(** [for parent in view.forward_deps.get(cur, ())] *)
Fixpoint climb_from (p : list string) (parents : list string) (visited : gset string)
    (fringe : list (string * list string)) : gset string * list (string * list string) :=
  match parents with
  | [] => (visited, fringe)
  | parent :: rest =>
      if decide (parent ∈ visited) then climb_from p rest visited fringe
      else climb_from p rest ({[parent]} ∪ visited) (fringe ++ [(parent, parent :: p)])
  end.
Fixpoint climb (fuel : nat) (view : _GraphView) (roots : gmap string string) (visited : gset string)
    (fringe : list (string * list string)) : option (string * list string) :=
  match fringe, fuel with
  | (cur, p) :: fringe', S fuel' =>
      match roots !! cur with
      | Some root => Some (root, p)
      | None =>
          let '(visited', fringe'') := climb_from p (deps_in (forward_deps view) cur) visited fringe' in
          climb fuel' view roots visited' fringe''
      end
  | _, _ => None
  end.

Definition proof_of (cone : InvalidationCone) (task_nodes : dict TaskNode) (view : _GraphView) (tid : string)
    : result InvalidationProof :=
  let roots := cause_roots (causes cone) in
  let '(rs, path) :=
    match climb (S (length task_nodes)) view roots {[tid]} [(tid, [tid])] with
    | Some (root, p) => ([root], p)
    | None => match roots !! tid with Some root => ([root], [tid]) | None => ([], [tid]) end
    end in
  match dict_get tid task_nodes with
  | None => Raise (KeyError tid)
  | Some t => Ok (mkProof (cone_graph_id cone) (base_graph_version cone) tid rs path
                    (NodeValidity.value (validity (task_base t))) "stale" "")
  end.
Fixpoint all_ok {A B} (f : A -> result B) (l : list A) : result (list B) :=
  match l with
  | [] => Ok []
  | x :: l' => match f x with
               | Raise e => Raise e
               | Ok y => match all_ok f l' with Raise e => Raise e | Ok ys => Ok (y :: ys) end
               end
  end.
Definition build_proofs `{Sha256} (cone : InvalidationCone) (task_nodes : dict TaskNode) (edges : list VPGEdge)
    : result (list InvalidationProof) :=
  match all_ok (proof_of cone task_nodes (_build_view task_nodes edges)) (affected_node_ids cone) with
  | Raise e => Raise e
  | Ok proofs =>
      Ok ((fun p => mkProof (proof_graph_id p) (proof_graph_version p) (proof_task_id p) (root_causes p)
             (causal_path p) (previous_validity p) (resulting_validity p)
             (_hash [PStr "proof"; PStr (proof_task_id p); strs (root_causes p); strs (causal_path p)]))
          <$> sort_on proof_task_id proofs)
  end.

(** ** frontier.py *)

Section Frontier.
Context `{Sha256} (graph_id : string) (graph_version : Z) (task_nodes : dict TaskNode) (edges : list VPGEdge).
Context (stale_or_unverified : option (gset string)) (derived_validity : option (dict string)).
Context (has_active_claim : option (string -> bool)).

(** The [depends_on] edges between tasks, sorted per source. *)
Definition frontier_forward : gmap string (list string) :=
  py_sorted <$> foldl (fun m e =>
    if bool_decide (edge_type e = EdgeType.DEPENDS_ON) &&
       (has_key (source_node_id e) task_nodes && has_key (target_node_id e) task_nodes)
    then push (source_node_id e) (target_node_id e) m else m) ∅ edges.

Definition _validity (tid : string) : string :=
  match derived_validity ≫= dict_get tid with
  | Some v => v
  | None => match dict_get tid task_nodes with
            | Some n => NodeValidity.value (validity (task_base n))
            | None => "missing"
            end
  end.
Definition is_open (v : string) : bool := String.eqb v "stale" || String.eqb v "unverified".
Definition eligible : gset string :=
  match stale_or_unverified with
  | Some s => s
  | None => list_to_set (filter (fun tid => is_open (_validity tid) = true) task_nodes.*1)
  end.
(** One turn of the candidate loop: a candidate, or nothing. *)
Definition candidate_of (tid : string) : option RepairCandidate :=
  let deps := deps_in frontier_forward tid in
  if forallb (fun d => String.eqb (_validity d) "verified") deps then
    if match has_active_claim with Some claimed => claimed tid | None => false end then None
    else Some (mkRepair tid [] [] ((fun d => d +:+ ":verified") <$> deps))
  else None.
Definition compute_repair_frontier : RepairFrontier :=
  let cands := sort_on repair_task_id (omap candidate_of (py_sorted (elements eligible))) in
  mkFrontier graph_id graph_version cands
    (_hash [PStr "frontier"; PStr graph_id; PInt graph_version; strs (repair_task_id <$> cands)]).
End Frontier.

(** ** engine.py *)

Record EngineInputs : Type := mkInputs {
  in_graph_id : string;
  current_version : Z;
  task_nodes : dict TaskNode;
  goal_nodes : dict GoalNode;
  evidence_nodes : dict EvidenceNode;
  in_edges : list VPGEdge;
  in_current_output_versions : option (dict Z);
  in_verify_binding : option (string -> Z -> string -> bool);
  in_action_valid : option (string -> bool);
  in_event_valid : option (string -> bool);
  explicit_causes : option (list InvalidationCause);
  in_has_active_claim : option (string -> bool);
  goal_direct_tasks : option (dict (list string));
  evidence_of : option (dict (list string)) }.

Record EngineResult : Type := mkEngineResult {
  applicability : list EvidenceApplicability;
  er_causes : list InvalidationCause;
  er_cone : InvalidationCone;
  er_proofs : list InvalidationProof;
  er_frontier : RepairFrontier;
  reopened_goals : list string;
  er_events : list D3Event }.

(** Goal nodes have no [closed] attribute: the lifecycle decides. *)
Definition goal_must_reopen (goals : dict GoalNode) (cone : InvalidationCone) (direct : dict (list string))
    (gid : string) : bool :=
  match dict_get gid goals with
  | Some g => bool_decide (lifecycle (goal_base g) = NodeLifecycle.CLOSED) &&
              existsb (fun tid => bool_decide (tid ∈ affected_node_ids cone)) (default [] (dict_get gid direct))
  | None => false
  end.
Definition _derive_goal_reopen (goals : dict GoalNode) (cone : InvalidationCone) (direct : dict (list string))
    : list string :=
  filter (fun gid => goal_must_reopen goals cone direct gid = true) (py_sorted goals.*1).

Section Engine.
Context `{Sha256}.

Definition _build_events (inp : EngineInputs) (cs : list InvalidationCause) (cone : InvalidationCone)
    (frontier : RepairFrontier) (reopened : list string) (started completed : bool) : list D3Event :=
  let g := in_graph_id inp in
  let v := current_version inp in
  let cid := g +:+ ":v" +:+ pretty v in
  let evt parts := _hash (PStr "evt" :: PStr cid :: (PStr <$> parts)) in
  let count {A} (l : list A) : string := pretty (length l) in
  sort_on d3_event_id
   ((if started then [mkD3Event (evt ["STARTED"]) g v "INVALIDATION_STARTED" (cause_id <$> cs)
       None None None None None v "invalidation transaction started"] else []) ++
    ((fun c => mkD3Event (evt ["CAUSE"; cause_id c]) g v "INVALIDATION_CAUSE_VALIDATED" [cause_id c]
       (cause_source_node_id c) None None None None v
       (cause_type_value (cause_type c) +:+ " :: " +:+ cause_reason c)) <$> cs) ++
    ((fun tid => mkD3Event (evt ["STALE"; tid]) g v "TASK_STALE_DERIVED" []
       None (Some tid) None (Some "verified") (Some "stale") v
       "dependency lost VERIFIED proof") <$> affected_node_ids cone) ++
    ((fun e => mkD3Event (evt ["PROP"; e]) g v "INVALIDATION_PROPAGATED" []
       None None (Some e) None None v "stale propagated along dependency") <$> propagation_edges cone) ++
    ((fun r => mkD3Event (evt ["REOPEN"; r]) g v "GOAL_REOPENED_DERIVED" []
       None (Some r) None (Some "closed") (Some "stale") v "goal dependency became stale") <$> reopened) ++
    [mkD3Event (evt ["FRONTIER"]) g v "REPAIR_FRONTIER_UPDATED" [] None None None None None v
       (count (candidates frontier) +:+ " repair candidates")] ++
    (if completed then [mkD3Event (evt ["COMPLETED"]) g v "INVALIDATION_COMPLETED" []
       None None None None None v
       ("cone=" +:+ count (affected_node_ids cone) +:+ " affected, " +:+
        count (preserved_node_ids cone) +:+ " preserved, frontier=" +:+ count (candidates frontier))] else [])).

(** [{tid: STALE if tid in affected else n.validity.value}] *)
Definition derived_of (tasks : dict TaskNode) (affected : list string) : dict string :=
  (fun '(tid, n) => (tid, if decide (tid ∈ affected) then "stale"
                          else NodeValidity.value (validity (task_base n)))) <$> tasks.

Definition engine_causes (inp : EngineInputs) (verds : list EvidenceApplicability) : list InvalidationCause :=
  match explicit_causes inp with
  | Some cs => cs
  | None => causes_from_applicability (in_graph_id inp) (current_version inp) verds
  end.

Definition run_invalidation_engine (inp : EngineInputs) : result EngineResult :=
  let g := in_graph_id inp in
  let v := current_version inp in
  let verds := evidence_applicability_for_graph g v (in_verify_binding inp) (in_action_valid inp)
                 (in_event_valid inp) (in_current_output_versions inp) (evidence_nodes inp) in
  match engine_causes inp verds with
  | [] =>
      let cone := mkCone g v [] [] [] (py_sorted (task_nodes inp).*1) [] "" in
      let frontier := compute_repair_frontier g v (task_nodes inp) (in_edges inp) None None
                        (in_has_active_claim inp) in
      Ok (mkEngineResult verds [] cone [] frontier [] (_build_events inp [] cone frontier [] true true))
  | cs =>
      match compute_invalidation_cone g v (task_nodes inp) (in_edges inp) cs verds (evidence_of inp) with
      | Raise e => Raise e
      | Ok cone0 =>
          let cone := mkCone (cone_graph_id cone0) (base_graph_version cone0) (causes cone0) (seed_node_ids cone0)
                        (affected_node_ids cone0) (preserved_node_ids cone0) (propagation_edges cone0)
                        (_cone_hash cone0) in
          match build_proofs cone (task_nodes inp) (in_edges inp) with
          | Raise e => Raise e
          | Ok proofs =>
              let reopened := match goal_direct_tasks inp with
                              | Some direct => _derive_goal_reopen (goal_nodes inp) cone direct
                              | None => []
                              end in
              let frontier := compute_repair_frontier g v (task_nodes inp) (in_edges inp)
                                (Some (list_to_set (affected_node_ids cone)))
                                (Some (derived_of (task_nodes inp) (affected_node_ids cone)))
                                (in_has_active_claim inp) in
              Ok (mkEngineResult verds cs cone proofs frontier reopened
                    (_build_events inp cs cone frontier reopened true true))
          end
      end
  end.
End Engine.
