(* ===== verification/InvalidationProps.v ===== *)
(** * Invalidation: exact cones, restored soundness, repair progress

    The cone is the least set of tasks that contains the seeds and is closed
    under "a verified task that depends on a member".  Marking exactly it stale
    restores the invariant that verified tasks have verified dependencies, and
    on an acyclic graph some member of it can be repaired at once. *)

From S2P Require Import Prelude Graph VpgModels Readiness Invalidation.

(** ** The dependency relation between tasks *)

Definition task_dep {A} (tasks : dict A) (edges : list VPGEdge) (x y : string) : Prop :=
  x ∈ tasks.*1 /\ y ∈ tasks.*1 /\ y ∈ depends_on edges x.
Definition verified (tasks : dict TaskNode) (x : string) : Prop :=
  exists t, dict_get x tasks = Some t /\ validity (task_base t) = NodeValidity.VERIFIED.

Lemma has_key_spec {A} k (d : dict A) : has_key k d = true <-> k ∈ d.*1.
Proof. apply bool_decide_eq_true. Qed.

Lemma deps_in_push k v m x y :
  x ∈ deps_in (push k v m) y <-> (x = v /\ y = k) \/ x ∈ deps_in m y.
Proof.
  unfold deps_in, push. destruct (decide (y = k)) as [->|Hne].
  - rewrite lookup_insert_eq. cbn. set_solver.
  - rewrite lookup_insert_ne by done. set_solver.
Qed.
Lemma deps_in_sorted m x y : x ∈ deps_in (py_sorted <$> m) y <-> x ∈ deps_in m y.
Proof.
  unfold deps_in. rewrite lookup_fmap. destruct (m !! y); cbn; [by rewrite elem_of_sort_on|done].
Qed.
Lemma deps_in_empty (ks : list string) x y : x ∉ deps_in (list_to_map ((fun k => (k, [])) <$> ks)) y.
Proof.
  unfold deps_in. destruct (list_to_map _ !! y) as [l|] eqn:E; cbn; [|apply not_elem_of_nil].
  apply elem_of_list_to_map_2, list_elem_of_fmap in E as (k & [= -> ->] & _). apply not_elem_of_nil.
Qed.

(** One more edge adds its pair when it is a dependency between tasks. *)
Lemma task_dep_cons {A} (tasks : dict A) e es x y :
  task_dep tasks (e :: es) x y <->
  (bool_decide (edge_type e = EdgeType.DEPENDS_ON) &&
   (has_key (source_node_id e) tasks && has_key (target_node_id e) tasks) = true /\
   x = source_node_id e /\ y = target_node_id e) \/ task_dep tasks es x y.
Proof.
  unfold task_dep. rewrite depends_on_cons, elem_of_app, !andb_true_iff, !has_key_spec, bool_decide_eq_true.
  case_decide as Hd; [set_solver|]. split; [set_solver|]. intros [(H1 & -> & ->)|H]; [|set_solver].
  destruct Hd. split; [apply H1|done].
Qed.

Lemma build_view_spec tasks edges x y :
  (y ∈ deps_in (forward_deps (_build_view tasks edges)) x <-> task_dep tasks edges x y) /\
  (x ∈ deps_in (reverse_deps (_build_view tasks edges)) y <-> task_dep tasks edges x y).
Proof.
  unfold _build_view. cbn. rewrite !deps_in_sorted. set (v0 := mkView _ _).
  assert (forall es v,
    (y ∈ deps_in (forward_deps (foldl (view_edge tasks) v es)) x <->
       task_dep tasks es x y \/ y ∈ deps_in (forward_deps v) x) /\
    (x ∈ deps_in (reverse_deps (foldl (view_edge tasks) v es)) y <->
       task_dep tasks es x y \/ x ∈ deps_in (reverse_deps v) y)) as Hgen.
  { induction es as [|e es IH]; intros v; cbn [foldl].
    - assert (~ task_dep tasks [] x y) by (intros (_ & _ & H%not_elem_of_nil); done). tauto.
    - destruct (IH (view_edge tasks v e)) as [-> ->]. rewrite !task_dep_cons. unfold view_edge.
      destruct (_ && _); cbn; [rewrite !deps_in_push|]; intuition congruence. }
  destruct (Hgen edges v0) as [-> ->]. unfold v0. cbn.
  pose proof (deps_in_empty tasks.*1 y x). pose proof (deps_in_empty tasks.*1 x y). tauto.
Qed.
Lemma frontier_forward_spec tasks edges x y :
  y ∈ deps_in (frontier_forward tasks edges) x <-> task_dep tasks edges x y.
Proof.
  unfold frontier_forward. rewrite deps_in_sorted.
  assert (forall es m, y ∈ deps_in (foldl (fun m e =>
      if bool_decide (edge_type e = EdgeType.DEPENDS_ON) &&
         (has_key (source_node_id e) tasks && has_key (target_node_id e) tasks)
      then push (source_node_id e) (target_node_id e) m else m) m es) x <->
      task_dep tasks es x y \/ y ∈ deps_in m x) as Hgen.
  { induction es as [|e es IH]; intros m; cbn [foldl].
    - assert (~ task_dep tasks [] x y) by (intros (_ & _ & H%not_elem_of_nil); done). tauto.
    - rewrite IH, task_dep_cons. destruct (_ && _); [rewrite deps_in_push|]; intuition congruence. }
  rewrite Hgen. unfold deps_in at 1. rewrite lookup_empty. cbn. pose proof (not_elem_of_nil y). tauto.
Qed.

(** ** Seeds *)

(** Named by a cause, or verified by evidence that lost its applicability. *)
Definition is_seed (tasks : dict TaskNode) (cs : list InvalidationCause) (verds : list EvidenceApplicability)
    (evidence_of : option (dict (list string))) (tid : string) : Prop :=
  tid ∈ tasks.*1 /\
  ((exists c, c ∈ cs /\ cause_source_node_id c = Some tid /\ tid <> "") \/
   exists evids, (tid, evids) ∈ default [] evidence_of /\ evidence_lost verds evids = true).

Lemma elem_of_add_seed acc tid x : x ∈ add_seed acc tid <-> x ∈ acc \/ x = tid.
Proof. unfold add_seed. case_decide; set_solver. Qed.
Lemma add_seed_NoDup acc tid : NoDup acc -> NoDup (add_seed acc tid).
Proof.
  intros Hn. unfold add_seed. case_decide; [done|]. apply NoDup_app. split_and!; [done|set_solver|apply NoDup_singleton].
Qed.
(** A loop that adds the elements that qualify. *)
Lemma seed_loop {A} (f : list string -> A -> list string) (P : A -> string -> Prop) (l : list A) (acc : list string) :
  (forall acc a, NoDup acc -> NoDup (f acc a)) ->
  (forall acc a x, x ∈ f acc a <-> x ∈ acc \/ P a x) ->
  (NoDup acc -> NoDup (foldl f acc l)) /\ forall x, x ∈ foldl f acc l <-> x ∈ acc \/ exists a, a ∈ l /\ P a x.
Proof.
  intros Hn Hx. setoid_rewrite <-Exists_exists. revert acc.
  induction l as [|a l IH]; intros acc; cbn [foldl].
  - split; [done|]. intros x. rewrite Exists_nil. tauto.
  - destruct (IH (f acc a)) as [IH1 IH2]. split; [auto|]. intros x. rewrite IH2, Hx, Exists_cons. tauto.
Qed.
Lemma cause_seeds_spec tasks cs :
  NoDup (cause_seeds tasks cs) /\
  forall x, x ∈ cause_seeds tasks cs <->
    exists c, c ∈ cs /\ x ∈ tasks.*1 /\ cause_source_node_id c = Some x /\ x <> "".
Proof.
  unfold cause_seeds. set (f := fun _ _ => _).
  destruct (seed_loop f (fun c x => x ∈ tasks.*1 /\ cause_source_node_id c = Some x /\ x <> "") cs []) as [Hn Hx].
  - intros acc c Ha. unfold f. repeat case_match; try done. by apply add_seed_NoDup.
  - intros acc c x. unfold f. destruct (cause_source_node_id c) as [s|]; [|split; [by left|by intros [?|[_ [? _]]]]].
    rewrite <-(has_key_spec x tasks). destruct (String.eqb_spec s "") as [->|Hs]; cbn.
    + split; [by left|]. by intros [?|(_ & [= <-] & ?)].
    + destruct (has_key s tasks) eqn:E; rewrite ?elem_of_add_seed.
      * split; [intros [?| ->]; auto|]. intros [?|(_ & [= <-] & _)]; auto.
      * split; [by left|]. intros [?|(Hk & [= <-] & _)]; [done|congruence].
  - split; [apply Hn; constructor|]. intros x. rewrite Hx. pose proof (not_elem_of_nil x). tauto.
Qed.
Lemma seeds_spec tasks cs verds evidence_of :
  NoDup (seeds tasks cs verds evidence_of) /\
  forall x, x ∈ seeds tasks cs verds evidence_of <-> is_seed tasks cs verds evidence_of x.
Proof.
  unfold seeds, is_seed. set (f := fun _ _ => _). destruct (cause_seeds_spec tasks cs) as [Hn0 Hx0].
  destruct (seed_loop f (fun a x => x ∈ tasks.*1 /\ x = a.1 /\ evidence_lost verds a.2 = true)
    (default [] evidence_of) (cause_seeds tasks cs)) as [Hn Hx].
  - intros acc [tid evids] Ha. cbn. case_match; [by apply add_seed_NoDup|done].
  - intros acc [tid evids] x. unfold f. cbv beta iota. cbn [fst snd]. rewrite <-(has_key_spec x tasks).
    destruct (has_key tid tasks && _) eqn:E; rewrite ?elem_of_add_seed.
    + apply andb_true_iff in E. split; [intros [?| ->]; naive_solver|]. intros [?|(_ & -> & _)]; auto.
    + split; [by left|]. intros [?|(H1 & -> & H2)]; [done|]. by rewrite H1, H2 in E.
  - split; [rewrite sort_on_perm; by apply Hn|]. intros x. rewrite elem_of_sort_on, Hx, Hx0. split.
    + intros [(c & Hc & Ht & Hs & He)|([tid evids] & Hin & Ht & -> & Hl)];
        split; [done|left; by exists c|done|right; by exists evids].
    + intros [Ht [(c & Hc & Hs & He)|(evids & Hin & Hl)]]; [left; by exists c|right; by exists (x, evids)].
Qed.

(** ** The cone *)

Inductive in_cone (tasks : dict TaskNode) (edges : list VPGEdge) (S : string -> Prop) : string -> Prop :=
| cone_seed x : S x -> in_cone tasks edges S x
| cone_step x y : in_cone tasks edges S y -> task_dep tasks edges x y -> verified tasks x -> in_cone tasks edges S x.

(** One printed propagation step. *)
Definition real_step (tasks : dict TaskNode) (edges : list VPGEdge) (S : string -> Prop) (p : string) : Prop :=
  exists y x, p = y +:+ "->" +:+ x /\ in_cone tasks edges S y /\ task_dep tasks edges x y /\ verified tasks x.

#[global] Instance verified_dec tasks x : Decision (verified tasks x).
Proof.
  refine (match dict_get x tasks as o return dict_get x tasks = o -> _ with
          | Some t => fun E => match decide (validity (task_base t) = NodeValidity.VERIFIED) with
                               | left H => left _ | right H => right _ end
          | None => fun E => right _
          end eq_refl).
  - by exists t.
  - intros (t' & E' & H'). congruence.
  - intros (t' & E' & _). congruence.
Defined.

Lemma spread_ok tasks n ds st :
  (forall x, x ∈ ds -> x ∈ tasks.*1) ->
  let new := filter (fun x => (x ∉ stale st) /\ verified tasks x) ds in
  spread tasks n st ds =
  Ok (mkLoop (stale st) (queue st ++ new) (prop_edges st ++ ((fun x => n +:+ "->" +:+ x) <$> new))).
Proof.
  cbn. revert st. induction ds as [|x ds IH]; intros st Hds.
  { cbn. rewrite !app_nil_r. by destruct st. }
  cbn [spread]. rewrite filter_cons. case_decide as Hs.
  { rewrite decide_False by tauto. apply IH. set_solver. }
  destruct (proj2 (dict_get_keys tasks x) ltac:(set_solver)) as [t Ht]. rewrite Ht. case_decide as Hv.
  - rewrite decide_True by (split; [done|by exists t]). rewrite IH by set_solver. cbn [stale queue prop_edges].
    rewrite fmap_cons, <-!app_assoc. done.
  - rewrite decide_False; [apply IH; set_solver|]. intros (_ & t' & Ht' & Hv'). congruence.
Qed.

Section Cone.
Context (tasks : dict TaskNode) (edges : list VPGEdge) (S : string -> Prop).
Context (HS : forall x, S x -> x ∈ tasks.*1).
Abbreviation view := (_build_view tasks edges).
Abbreviation universe := (list_to_set tasks.*1 : gset string).

Record CInv (st : cone_loop) : Prop := {
  ci_in x : x ∈ stale st \/ x ∈ queue st -> in_cone tasks edges S x /\ x ∈ tasks.*1;
  ci_seed x : S x -> x ∈ stale st \/ x ∈ queue st;
  ci_step x y : y ∈ stale st -> task_dep tasks edges x y -> verified tasks x -> x ∈ stale st \/ x ∈ queue st;
  ci_edges : Forall (real_step tasks edges S) (prop_edges st) }.

Definition cone_measure (st : cone_loop) : nat :=
  length (queue st) +
  sum_list_with (fun tid => length (deps_in (reverse_deps view) tid)) (elements (universe ∖ stale st)).

Lemma measure_stale (X : gset string) (f : string -> nat) n :
  n ∈ universe -> n ∉ X ->
  sum_list_with f (elements (universe ∖ X)) = f n + sum_list_with f (elements (universe ∖ ({[n]} ∪ X))).
Proof.
  intros Hn HX. assert (universe ∖ X = {[n]} ∪ universe ∖ ({[n]} ∪ X)) as ->.
  { apply set_eq. intros x. destruct (decide (x = n)); set_solver. }
  assert (elements ({[n]} ∪ universe ∖ ({[n]} ∪ X)) ≡ₚ n :: elements (universe ∖ ({[n]} ∪ X))) as Hp
    by (apply elements_union_singleton; set_solver).
  by rewrite Hp.
Qed.

Lemma CInv_drop st n q :
  CInv st -> queue st = n :: q -> n ∈ stale st -> CInv (mkLoop (stale st) q (prop_edges st)).
Proof.
  intros [H1 H2 H3 H4] Hq Hn. rewrite Hq in *. split; cbn; [|intros x Hx; specialize (H2 x Hx)| |done].
  - intros x Hx. apply H1. set_solver.
  - set_solver.
  - intros x y Hy Hd Hv. specialize (H3 x y Hy Hd Hv). set_solver.
Qed.
Lemma CInv_grow st n q :
  CInv st -> queue st = n :: q -> n ∉ stale st ->
  let new := filter (fun x => (x ∉ {[n]} ∪ stale st) /\ verified tasks x) (deps_in (reverse_deps view) n) in
  CInv (mkLoop ({[n]} ∪ stale st) (q ++ new) (prop_edges st ++ ((fun x => n +:+ "->" +:+ x) <$> new))).
Proof.
  intros [H1 H2 H3 H4] Hq Hn new. rewrite Hq in *.
  destruct (H1 n ltac:(set_solver)) as [Hc Ht].
  assert (forall x, x ∈ new -> task_dep tasks edges x n /\ verified tasks x) as Hnew.
  { intros x [[_ Hv] Hx]%list_elem_of_filter. split; [by apply build_view_spec|done]. }
  split; cbn.
  - intros x [[->%elem_of_singleton|Hx]%elem_of_union|[Hx|Hx%Hnew]%elem_of_app].
    + done.
    + apply H1. by left.
    + apply H1. set_solver.
    + destruct Hx as [Hd Hv]. split; [by eapply cone_step|apply Hd].
  - intros x Hx. specialize (H2 x Hx). set_solver.
  - intros x y [->%elem_of_singleton|Hy]%elem_of_union Hd Hv.
    + destruct (decide (x ∈ {[n]} ∪ stale st)) as [Hx|Hx]; [by left|]. right. apply elem_of_app. right.
      apply list_elem_of_filter. split; [done|]. by apply build_view_spec.
    + specialize (H3 x y Hy Hd Hv). set_solver.
  - apply Forall_app. split; [done|]. apply Forall_fmap, Forall_forall. intros x Hx%Hnew.
    destruct Hx as [Hd Hv]. by exists n, x.
Qed.

Lemma propagate_ok fuel st :
  CInv st -> cone_measure st <= fuel ->
  exists st', propagate fuel tasks view st = Ok st' /\ CInv st' /\ queue st' = [].
Proof.
  revert st. induction fuel as [|fuel IH]; intros st HI Hm; cbn [propagate].
  all: destruct (queue st) as [|n q] eqn:Hq; [by exists st|].
  all: unfold cone_measure in Hm; rewrite Hq in Hm; cbn [length] in Hm.
  1: lia.
  destruct (ci_in _ HI n) as [_ Hn]; [rewrite Hq; set_solver|]. case_decide as Hs.
  - apply IH; [by eapply CInv_drop|]. unfold cone_measure. cbn [queue stale]. lia.
  - rewrite (proj2 (has_key_spec n tasks) Hn). cbn [negb].
    rewrite spread_ok by (intros x Hx; cbn; apply build_view_spec in Hx; apply Hx). cbn [stale queue prop_edges].
    apply IH; [by eapply CInv_grow|]. unfold cone_measure. cbn [queue stale].
    rewrite (measure_stale (stale st) _ n) in Hm; [|by apply elem_of_list_to_set|done].
    rewrite length_app. pose proof (length_filter (fun x => (x ∉ {[n]} ∪ stale st) /\ verified tasks x)
      (deps_in (reverse_deps view) n)). lia.
Qed.

Lemma cone_set seeds_ :
  NoDup seeds_ -> (forall x, x ∈ seeds_ <-> S x) ->
  exists st, propagate (cone_fuel tasks view seeds_) tasks view (mkLoop ∅ seeds_ []) = Ok st /\
    (forall x, x ∈ stale st <-> in_cone tasks edges S x) /\ Forall (real_step tasks edges S) (prop_edges st).
Proof.
  intros Hn Hs. destruct (propagate_ok (cone_fuel tasks view seeds_) (mkLoop ∅ seeds_ [])) as (st & -> & HI & Hq).
  - split; cbn; [|set_solver..|constructor]. intros x [Hx|Hx%Hs]; [set_solver|].
    split; [by apply cone_seed|by apply HS].
  - unfold cone_measure, cone_fuel. cbn [queue stale]. by rewrite difference_empty_L.
  - destruct HI as [H1 H2 H3 H4]. rewrite Hq in *. exists st. split_and!; [done| |done]. intros x. split.
    + intros Hx. apply H1. by left.
    + induction 1 as [x Hx|x y _ IHy Hd Hv]; [destruct (H2 x Hx)|destruct (H3 x y IHy Hd Hv)]; set_solver.
Qed.
End Cone.

(** What [compute_invalidation_cone] returns. *)
Definition cone_of (tasks : dict TaskNode) (edges : list VPGEdge) (S : string -> Prop) (c : InvalidationCone) : Prop :=
  (NoDup (affected_node_ids c) /\ StronglySorted (key_le id) (affected_node_ids c) /\
   forall x, x ∈ affected_node_ids c <-> in_cone tasks edges S x) /\
  (StronglySorted (key_le id) (preserved_node_ids c) /\
   forall x, x ∈ preserved_node_ids c <-> x ∈ tasks.*1 /\ ~ in_cone tasks edges S x) /\
  (forall x, x ∈ seed_node_ids c <-> S x) /\
  Forall (real_step tasks edges S) (propagation_edges c).

Lemma compute_cone_ok g v tasks edges cs verds eo :
  exists c, compute_invalidation_cone g v tasks edges cs verds eo = Ok c /\
    cone_of tasks edges (is_seed tasks cs verds eo) c /\ causes c = cs.
Proof.
  unfold compute_invalidation_cone. destruct (seeds_spec tasks cs verds eo) as [Hn Hs].
  destruct (cone_set tasks edges (is_seed tasks cs verds eo) ltac:(by intros x [? _]) _ Hn Hs) as (st & -> & Hst & He).
  eexists. split; [done|]. split; [|done]. split_and!; cbn.
  - rewrite sort_on_perm. apply NoDup_elements.
  - apply sort_on_sorted.
  - intros x. by rewrite elem_of_sort_on, elem_of_elements.
  - apply sort_on_sorted.
  - intros x. rewrite elem_of_sort_on, list_elem_of_filter, Hst. tauto.
  - done.
  - by rewrite sort_on_perm.
Qed.
Lemma in_cone_task tasks edges cs verds eo x : in_cone tasks edges (is_seed tasks cs verds eo) x -> x ∈ tasks.*1.
Proof. destruct 1 as [x [Hx _]|x y _ [Hx _] _]; done. Qed.

(** ** Soundness of the verified state *)

(** Verified tasks depend on verified tasks only. *)
Definition sound_graph (tasks : dict TaskNode) (edges : list VPGEdge) : Prop :=
  forall x y, verified tasks x -> task_dep tasks edges x y -> verified tasks y.
(** ... after [A] has been marked stale. *)
Definition verified_after (tasks : dict TaskNode) (A : list string) (x : string) : Prop :=
  dict_get x (derived_of tasks A) = Some "verified".
Definition sound_after (tasks : dict TaskNode) (edges : list VPGEdge) (A : list string) : Prop :=
  forall x y, verified_after tasks A x -> task_dep tasks edges x y -> verified_after tasks A y.

Lemma validity_value_verified v : NodeValidity.value v = "verified" <-> v = NodeValidity.VERIFIED.
Proof. by destruct v. Qed.
Lemma dict_get_fmap {A B} (f : string -> A -> B) k (d : dict A) :
  dict_get k ((fun '(k, a) => (k, f k a)) <$> d) = f k <$> dict_get k d.
Proof.
  unfold dict_get. induction d as [|[k' a] d IH]; [done|]. cbn. case_decide; [by subst|]. apply IH.
Qed.
Lemma derived_get tasks A x :
  dict_get x (derived_of tasks A) =
  (fun n => if decide (x ∈ A) then "stale" else NodeValidity.value (validity (task_base n))) <$> dict_get x tasks.
Proof. apply (dict_get_fmap (fun tid n => if decide (tid ∈ A) then "stale" else _)). Qed.
Lemma verified_after_spec tasks A x : verified_after tasks A x <-> verified tasks x /\ x ∉ A.
Proof.
  unfold verified_after, verified. rewrite derived_get. destruct (dict_get x tasks) as [t|]; cbn.
  - case_decide as Ha; [split; [done|]; by intros [_ ?]|]. split.
    + intros [= Hv%validity_value_verified]. split; [by exists t|done].
    + intros [(t' & [= <-] & ->) _]. done.
  - split; [done|]. by intros [(t & ? & _) _].
Qed.

Lemma cone_restores tasks edges S c :
  sound_graph tasks edges -> cone_of tasks edges S c -> sound_after tasks edges (affected_node_ids c).
Proof.
  intros Hs ((_ & _ & Hin) & _) x y. rewrite !verified_after_spec. intros [Hv Hx] Hd. split; [by eapply Hs|].
  intros Hy. apply Hx, Hin. eapply cone_step; [by apply Hin|done|done].
Qed.
Lemma cone_least tasks edges S c A :
  cone_of tasks edges S c -> sound_after tasks edges A -> (forall x, S x -> x ∈ A) ->
  forall x, x ∈ affected_node_ids c -> x ∈ A.
Proof.
  intros ((_ & _ & Hin) & _) Hs HA x Hx%Hin. induction Hx as [x Hx|x y _ IH Hd Hv]; [by apply HA|].
  destruct (decide (x ∈ A)) as [|Hn]; [done|]. exfalso.
  assert (verified_after tasks A y) as [_ Hy]%verified_after_spec; [|done].
  apply (Hs x y); [by apply verified_after_spec|done].
Qed.

(** ** The repair frontier *)

Definition claimed (h : option (string -> bool)) (tid : string) : bool :=
  match h with Some f => f tid | None => false end.

(** RepairReady once the tasks of [A] are stale: a stale or unverified task that is not
    claimed and whose dependencies are verified. *)
Definition open_after (tasks : dict TaskNode) (A : list string) (tid : string) : Prop :=
  exists t, dict_get tid tasks = Some t /\
    (tid ∈ A \/ validity (task_base t) = NodeValidity.STALE \/ validity (task_base t) = NodeValidity.UNVERIFIED).
Definition repair_ready_after (tasks : dict TaskNode) (edges : list VPGEdge) (A : list string) (h : option (string -> bool))
    (tid : string) : Prop :=
  open_after tasks A tid /\ (forall y, task_dep tasks edges tid y -> verified tasks y /\ y ∉ A) /\ claimed h tid = false.

(** The frontier of any eligible tasks and validities. *)
Lemma frontier_of `{Sha256} g v tasks edges sel dv h tid :
  tid ∈ repair_task_id <$> candidates (compute_repair_frontier g v tasks edges sel dv h) <->
  tid ∈ eligible tasks sel dv /\ (forall y, task_dep tasks edges tid y -> _validity tasks dv y = "verified") /\
  claimed h tid = false.
Proof.
  unfold compute_repair_frontier. cbn [candidates]. rewrite (sort_on_perm repair_task_id).
  assert ((forall y, task_dep tasks edges tid y -> _validity tasks dv y = "verified") <->
     forallb (fun d => String.eqb (_validity tasks dv d) "verified") (deps_in (frontier_forward tasks edges) tid) = true) as Hdeps.
  { rewrite forallb_forall. setoid_rewrite <-list_elem_of_In. setoid_rewrite frontier_forward_spec.
    by setoid_rewrite String.eqb_eq. }
  rewrite Hdeps, list_elem_of_fmap. setoid_rewrite list_elem_of_omap. unfold candidate_of, claimed. split.
  - intros (c & -> & tid' & Hin & Hc). rewrite elem_of_sort_on, elem_of_elements in Hin.
    destruct (forallb _ (deps_in _ tid')) eqn:Hf; [|done].
    destruct (match h with Some _ => _ | None => _ end) eqn:Hcl; [done|]. apply (inj Some) in Hc as <-. done.
  - intros (Hin & Hf & Hcl). eexists. split; [|exists tid; split;
      [by rewrite elem_of_sort_on, elem_of_elements|by rewrite Hf, Hcl]]. done.
Qed.
(** Called with the graph only, it is the definition of RepairReady. *)
Lemma open_frontier_spec `{Sha256} g v tasks edges h tid :
  tid ∈ repair_task_id <$> candidates (compute_repair_frontier g v tasks edges None None h) <->
  repair_ready_after tasks edges [] h tid.
Proof.
  rewrite frontier_of. unfold repair_ready_after, open_after, eligible, _validity. cbn.
  rewrite elem_of_list_to_set, list_elem_of_filter.
  assert (forall y, match dict_get y tasks with Some n => NodeValidity.value (validity (task_base n)) | None => "missing" end = "verified"
    <-> verified tasks y /\ y ∉ []) as Hv.
  { intros y. unfold verified. destruct (dict_get y tasks) as [t|]; [rewrite validity_value_verified|]; set_solver. }
  setoid_rewrite Hv. f_equiv. rewrite <-dict_get_keys. destruct (dict_get tid tasks) as [t|]; [|by split; [intros [? []]|intros (? & ? & _)]].
  unfold is_open. destruct (validity (task_base t)) eqn:E; cbn; split; try (intros [? _]; done);
    try (intros _; exists t; by eauto); try (intros (? & [= <-] & [?|[?|?]]); [set_solver|congruence..]); by intros _; eauto.
Qed.

Section RepairFrontier.
Context `{Sha256} (g : string) (v : Z) (tasks : dict TaskNode) (edges : list VPGEdge).
Context (A : list string) (h : option (string -> bool)).
Abbreviation frontier :=
  (compute_repair_frontier g v tasks edges (Some (list_to_set A)) (Some (derived_of tasks A)) h).

Lemma frontier_spec tid :
  tid ∈ repair_task_id <$> candidates frontier <->
  tid ∈ A /\ (forall y, task_dep tasks edges tid y -> verified_after tasks A y) /\ claimed h tid = false.
Proof.
  rewrite frontier_of. unfold eligible. rewrite elem_of_list_to_set.
  assert (forall y, task_dep tasks edges tid y -> _validity tasks (Some (derived_of tasks A)) y = "verified" <-> verified_after tasks A y) as Hv.
  { intros y (_ & Hk & _). unfold _validity, verified_after. cbn. rewrite derived_get. apply dict_get_keys in Hk as [t ->]. cbn.
    split; [by intros ->|by intros [= ->]]. }
  f_equiv. f_equiv. split; intros Hall y Hy; apply (Hv y Hy); by apply Hall.
Qed.
Lemma frontier_sorted : StronglySorted (key_le repair_task_id) (candidates frontier).
Proof. apply sort_on_sorted. Qed.

(** On an acyclic graph a non-empty stale set has a member none of whose
    dependencies is stale. *)
Lemma minimal_stale x :
  ~ (exists z, tc (task_dep tasks edges) z z) -> x ∈ A ->
  exists y, y ∈ A /\ forall z, task_dep tasks edges y z -> z ∉ A.
Proof.
  intros Hac Hx.
  assert (sn (task_dep tasks edges) x) as Hsn.
  { apply tc_finite_sn; [intros z Hz; apply Hac; by exists z|]. exists tasks.*1. intros z Hz.
    destruct Hz as [? ? [_ [Hz _]]|? ? z _ Hz]; [done|]. clear -Hz.
    induction Hz as [? ? [_ [Hz _]]|]; done. }
  induction Hsn as [x _ IH].
  destruct (decide (Exists (fun z => z ∈ A) (deps_in (frontier_forward tasks edges) x))) as [Hex|Hno].
  - apply Exists_exists in Hex as (z & Hz%frontier_forward_spec & HzA). by apply (IH z).
  - exists x. split; [done|]. intros z Hz HzA. apply Hno, Exists_exists. exists z.
    by rewrite frontier_forward_spec.
Qed.
Lemma frontier_nonempty x :
  sound_after tasks edges A -> (forall y z, y ∈ A -> task_dep tasks edges y z -> verified tasks z) ->
  ~ (exists z, tc (task_dep tasks edges) z z) -> (forall y, y ∈ A -> claimed h y = false) ->
  x ∈ A -> candidates frontier <> [].
Proof.
  intros Hs Hv Hac Hcl Hx. destruct (minimal_stale x Hac Hx) as (y & Hy & Hmin).
  assert (y ∈ repair_task_id <$> candidates frontier) as Hin.
  { apply frontier_spec. split_and!; [done| |by apply Hcl]. intros z Hz. apply verified_after_spec.
    split; [by eapply Hv|by apply Hmin]. }
  intros Hnil. rewrite Hnil in Hin. by apply not_elem_of_nil in Hin.
Qed.
End RepairFrontier.

(** ** The engine *)

Lemma all_ok_spec {A B} (f : A -> result B) l :
  (forall x, x ∈ l -> exists y, f x = Ok y) -> exists ys, all_ok f l = Ok ys.
Proof.
  induction l as [|x l IH]; intros Hl; [by exists []|]. cbn. destruct (Hl x) as [y ->]; [set_solver|].
  destruct IH as [ys ->]; [set_solver|]. by eexists.
Qed.
Lemma build_proofs_ok `{Sha256} c tasks edges :
  (forall x, x ∈ affected_node_ids c -> x ∈ tasks.*1) -> exists ps, build_proofs c tasks edges = Ok ps.
Proof.
  intros Ha. unfold build_proofs.
  destruct (all_ok_spec (proof_of c tasks (_build_view tasks edges)) (affected_node_ids c)) as [ps ->]; [|by eexists].
  intros x [t Ht]%Ha%dict_get_keys. unfold proof_of. destruct (match climb _ _ _ _ _ with Some _ => _ | None => _ end).
  rewrite Ht. by eexists.
Qed.

Abbreviation engine_verds inp :=
  (evidence_applicability_for_graph (in_graph_id inp) (current_version inp) (in_verify_binding inp)
     (in_action_valid inp) (in_event_valid inp) (in_current_output_versions inp) (evidence_nodes inp)).
(** The seeds of a run. *)
Definition engine_seed (inp : EngineInputs) : string -> Prop :=
  is_seed (task_nodes inp) (engine_causes inp (engine_verds inp)) (engine_verds inp) (evidence_of inp).

Lemma engine_ok `{Sha256} inp :
  engine_causes inp (engine_verds inp) <> [] ->
  exists r, run_invalidation_engine inp = Ok r /\
    cone_of (task_nodes inp) (in_edges inp) (engine_seed inp) (er_cone r) /\
    er_frontier r = compute_repair_frontier (in_graph_id inp) (current_version inp) (task_nodes inp) (in_edges inp)
      (Some (list_to_set (affected_node_ids (er_cone r))))
      (Some (derived_of (task_nodes inp) (affected_node_ids (er_cone r)))) (in_has_active_claim inp) /\
    reopened_goals r = default [] (_derive_goal_reopen (goal_nodes inp) (er_cone r) <$> goal_direct_tasks inp).
Proof.
  unfold engine_seed, run_invalidation_engine. set (verds := evidence_applicability_for_graph _ _ _ _ _ _ _).
  destruct (engine_causes inp verds) as [|c0 cs0] eqn:Hcs; [done|]. intros _. rewrite <-Hcs.
  destruct (compute_cone_ok (in_graph_id inp) (current_version inp) (task_nodes inp) (in_edges inp)
    (engine_causes inp verds) verds (evidence_of inp)) as (c & -> & Hc & _).
  set (c' := mkCone _ _ _ _ _ _ _ _).
  assert (cone_of (task_nodes inp) (in_edges inp)
    (is_seed (task_nodes inp) (engine_causes inp verds) verds (evidence_of inp)) c') as Hc' by done.
  destruct (build_proofs_ok c' (task_nodes inp) (in_edges inp)) as [ps ->].
  { intros x Hx%Hc'. by eapply in_cone_task. }
  eexists. split; [done|]. cbn. split_and!; [done|done|]. by destruct (goal_direct_tasks inp).
Qed.

(** ** Goals *)

(** The graph with the tasks of [A] marked stale. *)
Definition stale_task (t : TaskNode) : TaskNode :=
  let b := task_base t in
  mkTask (mkNode (node_id b) (node_graph_id b) (lifecycle b) NodeValidity.STALE (created_in_version b)
            (updated_in_version b) (created_by_pid b) (created_at b) (metadata b))
    (task_title t) (task_description t) (task_kind t) (execution_spec t) (required_verification_count t).
Definition mark_stale (A : list string) (nodes : dict AnyNode) : dict AnyNode :=
  (fun '(k, n) => (k, match n with NTask t => if decide (k ∈ A) then NTask (stale_task t) else n | _ => n end)) <$> nodes.

Lemma mark_stale_get A nodes k :
  dict_get k (mark_stale A nodes) =
  (fun n => match n with NTask t => if decide (k ∈ A) then NTask (stale_task t) else n | _ => n end) <$> dict_get k nodes.
Proof. apply (dict_get_fmap (fun k n => match n with NTask t => _ | _ => n end)). Qed.
Lemma mark_stale_dependents A goal nodes edges :
  dependent_task_ids goal (mark_stale A nodes) edges = dependent_task_ids goal nodes edges.
Proof.
  unfold dependent_task_ids. induction edges as [|e es IH]; [done|]. cbn. rewrite mark_stale_get.
  destruct (_ && _); [|done]. destruct (dict_get _ nodes) as [[]|]; cbn; try done.
  case_decide; cbn; by rewrite IH.
Qed.
Lemma goal_closed_after A goal nodes edges :
  goal_is_closed goal nodes edges = true ->
  goal_is_closed goal (mark_stale A nodes) edges = false <->
  Exists (fun tid => tid ∈ A) (dependent_task_ids goal nodes edges).
Proof.
  unfold goal_is_closed. rewrite mark_stale_dependents.
  destruct (dependent_task_ids goal nodes edges) as [|a l]; [done|]. generalize (a :: l) as ids. clear a l.
  induction ids as [|tid ids IH]; [cbn; rewrite Exists_nil; done|].
  cbn [forallb]. intros [Hh Ht]%andb_true_iff. rewrite Exists_cons, <-IH, andb_false_iff by done.
  rewrite mark_stale_get. destruct (dict_get tid nodes) as [[]|]; try done. cbn [fmap option_fmap option_map].
  destruct (decide (tid ∈ A)) as [Hin|Hin]; [split; intros _; by left|]. rewrite Hh.
  split; (intros [?|?]; [done|by right]).
Qed.

(** ** Properties *)

(** C38: the invalidation cone is the exact causal closure.  The computation
    always returns; the affected tasks, sorted and without repetition, are the
    least set with the seeds (tasks named by a cause or whose evidence lost
    applicability) and every verified task depending on a member; all other
    tasks are preserved; and each recorded step is a dependency between two
    members. *)
Theorem invalidation_cone_exact g v tasks edges cs verds eo :
  exists c, compute_invalidation_cone g v tasks edges cs verds eo = Ok c /\
    cone_of tasks edges (is_seed tasks cs verds eo) c /\ causes c = cs.
Proof. apply compute_cone_ok. Qed.

(** Invalidation restores soundness with the least change.  If verified
    tasks had only verified dependencies, that holds again once the affected
    tasks are stale; and any set of tasks that contains the seeds and restores
    it contains all affected tasks. *)
Theorem invalidation_restores_soundness g v tasks edges cs verds eo c :
  sound_graph tasks edges ->
  compute_invalidation_cone g v tasks edges cs verds eo = Ok c ->
  sound_after tasks edges (affected_node_ids c) /\
  forall A, (forall x, is_seed tasks cs verds eo x -> x ∈ A) -> sound_after tasks edges A ->
    affected_node_ids c ⊆ A.
Proof.
  intros Hs Hc. destruct (compute_cone_ok g v tasks edges cs verds eo) as (c' & Hc' & Hok & _).
  assert (c' = c) as -> by congruence. split; [by eapply cone_restores|].
  intros A HA Hs' x Hx. by eapply cone_least.
Qed.

(** C40: repair can always start.  The engine returns, and its repair frontier is as
    follows.  When nothing caused an invalidation, it holds exactly the tasks that are
    stale or unverified, unclaimed and have verified dependencies only.  When there are
    causes, it holds exactly the affected tasks that are so once the affected ones count
    as stale (so their dependencies are unaffected); and if the graph is acyclic and
    sound, the seeds were verified and no affected task is claimed, it is not empty
    unless nothing is affected. *)
Theorem repair_progress `{Sha256} inp :
  exists r, run_invalidation_engine inp = Ok r /\
    let frontier := repair_task_id <$> candidates (er_frontier r) in
    let affected := affected_node_ids (er_cone r) in
    let ready := repair_ready_after (task_nodes inp) (in_edges inp) affected (in_has_active_claim inp) in
    (engine_causes inp (engine_verds inp) = [] -> affected = [] /\ forall tid, tid ∈ frontier <-> ready tid) /\
    (engine_causes inp (engine_verds inp) <> [] ->
     (forall tid, tid ∈ frontier <-> tid ∈ affected /\ ready tid) /\
     (sound_graph (task_nodes inp) (in_edges inp) ->
      ~ (exists z, tc (task_dep (task_nodes inp) (in_edges inp)) z z) ->
      (forall x, engine_seed inp x -> verified (task_nodes inp) x) ->
      (forall x, x ∈ affected -> claimed (in_has_active_claim inp) x = false) ->
      affected <> [] -> frontier <> [])).
Proof.
  destruct (decide (engine_causes inp (engine_verds inp) = [])) as [Hnil|Hne].
  { unfold run_invalidation_engine. rewrite Hnil. eexists. split; [done|]. cbn [er_frontier er_cone affected_node_ids]. cbv zeta. split; [|done]. intros _. split; [done|].
    intros tid. apply open_frontier_spec. }
  destruct (engine_ok inp Hne) as (r & -> & Hc & Hf & _). exists r. split; [done|]. cbv zeta. rewrite Hf. split; [done|]. intros _. split.
  - intros tid. rewrite frontier_spec. setoid_rewrite verified_after_spec. unfold repair_ready_after. split; [|tauto].
    intros (Hin & Hd & Hcl). split_and!; try done. assert (tid ∈ (task_nodes inp).*1) as [t Ht]%dict_get_keys.
    { apply Hc in Hin. by eapply in_cone_task. }
    exists t. by eauto.
  - intros Hs Hac Hseed Hcl Hnil. destruct (affected_node_ids (er_cone r)) as [|x A] eqn:HA; [done|].
    intros Hemp%fmap_nil_inv. revert Hemp.
    apply (frontier_nonempty (in_graph_id inp) (current_version inp) _ _ _ _ x); [| |done|done|set_solver].
    + rewrite <-HA. by eapply cone_restores.
    + intros y z Hy Hd. apply (Hs y z); [|done]. rewrite <-HA in Hy. apply Hc in Hy.
      destruct Hy as [y Hy|y w _ _ Hv]; [by apply Hseed|done].
Qed.

(** Goal reopening agrees with goal closure.  A goal that is closed, and that
    the closure rule accepts, is reopened by the engine iff the rule rejects it
    once the affected tasks are stale. *)
Theorem goal_reopen_exact goals cone direct gid goal nodes edges :
  dict_get gid goals = Some goal -> lifecycle (goal_base goal) = NodeLifecycle.CLOSED ->
  goal_is_closed goal nodes edges = true ->
  dict_get gid direct = Some (dependent_task_ids goal nodes edges) ->
  gid ∈ _derive_goal_reopen goals cone direct <->
  goal_is_closed goal (mark_stale (affected_node_ids cone) nodes) edges = false.
Proof.
  intros Hg Hl Hcl Hd. rewrite goal_closed_after by done. unfold _derive_goal_reopen, goal_must_reopen.
  rewrite list_elem_of_filter, elem_of_sort_on, Hg, Hd. cbn. rewrite bool_decide_eq_true_2 by done. cbn.
  rewrite existsb_exists, Exists_exists. setoid_rewrite <-list_elem_of_In. setoid_rewrite bool_decide_eq_true.
  assert (gid ∈ goals.*1) by (apply dict_get_keys; by rewrite Hg). tauto.
Qed.

(** Causes derived from evidence name no source node, so the proofs of a run
    without explicit causes have no root cause. *)
Lemma derived_causes_rootless g v verds c : c ∈ causes_from_applicability g v verds -> cause_source_node_id c = None.
Proof. unfold causes_from_applicability. intros (a & -> & _)%elem_of_sort_on%list_elem_of_fmap. done. Qed.
Lemma derived_roots_empty g v verds : cause_roots (causes_from_applicability g v verds) = ∅.
Proof.
  unfold cause_roots. set (f := fun _ _ => _).
  assert (forall cs m, (forall c, c ∈ cs -> cause_source_node_id c = None) -> foldl f m cs = m) as Hgen.
  { induction cs as [|c cs IH]; intros m Hc; [done|]. cbn [foldl]. unfold f at 2.
    rewrite (Hc c) by set_solver. apply IH. set_solver. }
  apply Hgen. apply derived_causes_rootless.
Qed.

(** ** Examples *)

Definition plain_digest : Sha256 := fun s => s.
Definition inv_task (tid : string) (v : NodeValidity.t) : string * TaskNode :=
  (tid, mkTask (mkNode tid "g" NodeLifecycle.CLOSED v 1 1 "p" 0 []) "" "" "" [] 1).
Definition inv_edge (s t : string) : VPGEdge := mkEdge (s +:+ t) "g" EdgeType.DEPENDS_ON s t 0 "p" 0.
Definition inv_tasks : dict TaskNode :=
  [inv_task "c" NodeValidity.UNVERIFIED; inv_task "b" NodeValidity.VERIFIED;
   inv_task "a" NodeValidity.VERIFIED; inv_task "d" NodeValidity.VERIFIED].
Definition inv_edges : list VPGEdge := [inv_edge "c" "b"; inv_edge "b" "a"; inv_edge "goal" "b"].
Definition inv_evidence : EvidenceNode :=
  mkEvidence (mkNode "e1" "g" NodeLifecycle.CLOSED NodeValidity.VERIFIED 1 1 "p" 0 []) "command_result"
    EvidenceResult.PASS None None [] [mkBinding "lhos://x" "x" 1 "h" ""] None "" "p" None None None None
    None None None None None None 0.
Definition inv_goal : GoalNode := mkGoal (mkNode "goal" "g" NodeLifecycle.CLOSED NodeValidity.VERIFIED 1 1 "p" 0 []) "" "".
(** The artifact behind the evidence of [a] no longer validates. *)
Definition inv_inputs : EngineInputs :=
  mkInputs "g" 7 inv_tasks [("goal", inv_goal)] [("e1", inv_evidence)] inv_edges None
    (Some (fun a _ _ => negb (String.eqb a "x"))) None None None None (Some [("goal", ["b"])])
    (Some [("a", ["e1"]); ("d", [])]).
Example engine_demo :
  match @run_invalidation_engine plain_digest inv_inputs with
  | Ok r => affected_node_ids (er_cone r) = ["a"; "b"] /\ preserved_node_ids (er_cone r) = ["c"; "d"] /\
            propagation_edges (er_cone r) = ["a->b"] /\ reopened_goals r = ["goal"] /\
            repair_task_id <$> candidates (er_frontier r) = ["a"]
  | Raise _ => False
  end.
Proof. vm_compute. repeat split. Qed.

Ltac inv_dep H := destruct H as (?Hx & ?Hy & ?Hd);
  apply depends_on_elem in Hd as (?e & ?He & ?Ht & ?Hs & ?Htg);
  repeat (apply elem_of_cons in He as [->|He]; [cbn in Hs, Htg; subst|]);
  [..|by apply not_elem_of_nil in He].
Lemma inv_sound : sound_graph inv_tasks inv_edges.
Proof.
  intros x y Hv Hd. inv_dep Hd.
  - destruct Hv as (t & [= <-] & Hv). done.
  - by eexists.
  - by eexists.
Qed.
(** Every edge of the example goes down in the order of ids. *)
Lemma inv_acyclic : ~ (exists z, tc (task_dep inv_tasks inv_edges) z z).
Proof.
  intros [z Hz].
  assert (forall x y, tc (task_dep inv_tasks inv_edges) x y -> py_cmp y x = Lt) as Hlt.
  { induction 1 as [x y Hd|x y w Hd _ IH]; [inv_dep Hd; done|]. eapply py_cmp_lt_trans; [exact IH|].
    clear IH. inv_dep Hd; done. }
  apply Hlt in Hz. by rewrite py_cmp_refl in Hz.
Qed.
Lemma inv_seeds x : engine_seed inv_inputs x -> verified inv_tasks x.
Proof.
  intros [_ [(c & Hc & Hs & _)|(evids & Hin & Hl)]].
  - apply derived_causes_rootless in Hc. congruence.
  - clear Hl. repeat (apply elem_of_cons in Hin as [[= -> ->]|Hin]; [eexists; split; [reflexivity|done]|]).
    by apply not_elem_of_nil in Hin.
Qed.
Lemma invalidation_restores_soundness_witness :
  let c := mkCone "g" 7 [] ["a"] ["a"; "b"] ["c"; "d"] ["a->b"] "" in
  sound_after inv_tasks inv_edges (affected_node_ids c) /\
  forall A, (forall x, is_seed inv_tasks [] (engine_verds inv_inputs) (evidence_of inv_inputs) x -> x ∈ A) ->
    sound_after inv_tasks inv_edges A -> affected_node_ids c ⊆ A.
Proof.
  intros c. apply (invalidation_restores_soundness "g" 7 inv_tasks inv_edges [] (engine_verds inv_inputs)
    (evidence_of inv_inputs) c inv_sound). vm_compute. reflexivity.
Defined.
(** Without causes the open task whose dependencies are verified is in the frontier; once
    [a] is affected only [a] is, and an open task beside the cone is left out. *)
Definition quiet_inputs : EngineInputs :=
  mkInputs "g" 7 inv_tasks [("goal", inv_goal)] [] inv_edges None None None None None None (Some [("goal", ["b"])]) None.
Definition beside_inputs : EngineInputs :=
  mkInputs "g" 7 (inv_tasks ++ [inv_task "e" NodeValidity.UNVERIFIED]) [("goal", inv_goal)] [("e1", inv_evidence)] inv_edges None
    (Some (fun a _ _ => negb (String.eqb a "x"))) None None None None (Some [("goal", ["b"])]) (Some [("a", ["e1"]); ("d", [])]).
Definition frontier_ids (inp : EngineInputs) : option (list string) :=
  match @run_invalidation_engine plain_digest inp with Ok r => Some (repair_task_id <$> candidates (er_frontier r)) | Raise _ => None end.
Lemma open_task_beside_cone :
  frontier_ids quiet_inputs = Some ["c"] /\ frontier_ids beside_inputs = Some ["a"] /\
  repair_ready_after (task_nodes beside_inputs) (in_edges beside_inputs) ["a"; "b"] None "e".
Proof.
  split; [vm_compute; reflexivity|]. split; [vm_compute; reflexivity|]. split_and!; [|..|done].
  - eexists. split; [vm_compute; reflexivity|]. right. right. done.
  - intros y Hd. inv_dep Hd; done.
Qed.
Lemma repair_progress_witness :
  exists r, @run_invalidation_engine plain_digest inv_inputs = Ok r /\
    (forall tid, tid ∈ repair_task_id <$> candidates (er_frontier r) <->
       tid ∈ affected_node_ids (er_cone r) /\ repair_ready_after inv_tasks inv_edges (affected_node_ids (er_cone r)) None tid) /\
    (affected_node_ids (er_cone r) <> [] -> repair_task_id <$> candidates (er_frontier r) <> []).
Proof.
  destruct (@repair_progress plain_digest inv_inputs) as (r & Hr & _ & Hp).
  destruct Hp as [Hf Hn]; [vm_compute; discriminate|].
  exists r. split_and!; [done|done|]. by apply Hn; [apply inv_sound|apply inv_acyclic|apply inv_seeds|].
Defined.
Lemma goal_reopen_exact_witness :
  let nodes := (fun '(k, t) => (k, NTask t)) <$> inv_tasks in
  let cone := mkCone "g" 7 [] ["a"] ["a"; "b"] ["c"; "d"] ["a->b"] "" in
  "goal" ∈ _derive_goal_reopen [("goal", inv_goal)] cone [("goal", ["b"])] <->
  goal_is_closed inv_goal (mark_stale ["a"; "b"] nodes) inv_edges = false.
Proof.
  intros nodes cone.
  apply (goal_reopen_exact [("goal", inv_goal)] cone [("goal", ["b"])] "goal" inv_goal nodes inv_edges);
    vm_compute; reflexivity.
Defined.
