(* ===== verification/PyString.v ===== *)
(** * Python string methods

    [str.strip()] and [str.rsplit(sep, 1)] on UTF-8 encoded strings.  A string is
    its UTF-8 bytes; the whitespace characters are those of [str.isspace]. *)

From Stdlib Require Import Ascii.
From S2P Require Import Prelude.

Abbreviation chars := String.list_ascii_of_string.
Abbreviation unchars := String.string_of_list_ascii.

(** ** Stripping *)

(** The UTF-8 encodings of the characters [str.strip] removes. *)
Definition ws_bytes : list (list nat) :=
  ((fun n => [n]) <$> [9; 10; 11; 12; 13; 28; 29; 30; 31; 32]) ++
  [[194; 133]; [194; 160]; [225; 154; 128]] ++
  ((fun n => [226; 128; n]) <$> (seq 128 11 ++ [168; 169; 175])) ++
  [[226; 129; 159]; [227; 128; 128]].
Definition whitespace : list (list ascii) := map (map ascii_of_nat) ws_bytes.

(** [drop_prefix p l] is [l] without its prefix [p]. *)
Fixpoint drop_prefix (p l : list ascii) : option (list ascii) :=
  match p, l with
  | [], _ => Some l
  | a :: p', b :: l' => if decide (a = b) then drop_prefix p' l' else None
  | _ :: _, [] => None
  end.
Fixpoint drop_one (toks : list (list ascii)) (l : list ascii) : option (list ascii) :=
  match toks with
  | [] => None
  | t :: toks' => match drop_prefix t l with Some r => Some r | None => drop_one toks' l end
  end.
Fixpoint drop_all (fuel : nat) (toks : list (list ascii)) (l : list ascii) : list ascii :=
  match fuel with
  | O => l
  | S fuel' => match drop_one toks l with Some r => drop_all fuel' toks r | None => l end
  end.
(** Each round removes at least one byte. *)
Definition lstrip_with (toks : list (list ascii)) (l : list ascii) : list ascii :=
  drop_all (length l) toks l.
Definition rstrip_with (toks : list (list ascii)) (l : list ascii) : list ascii :=
  reverse (lstrip_with (reverse <$> toks) (reverse l)).
Definition strip (s : string) : string :=
  unchars (rstrip_with whitespace (lstrip_with whitespace (chars s))).

(** ** Splitting at the last separator *)

(** [s.rsplit(sep, 1)] for a separator that occurs in [s]: what is before its
    last occurrence and what is after it; [None] is [sep not in s]. *)
Fixpoint rsplit_chars (sep : ascii) (l : list ascii) : option (list ascii * list ascii) :=
  match l with
  | [] => None
  | c :: l' =>
      match rsplit_chars sep l' with
      | Some (a, b) => Some (c :: a, b)
      | None => if decide (c = sep) then Some ([], l') else None
      end
  end.
Definition rsplit1 (sep : ascii) (s : string) : option (string * string) :=
  (fun ab => (unchars ab.1, unchars ab.2)) <$> rsplit_chars sep (chars s).

(** ** Case and prefixes *)

(** [s.lower()], for comparison with ASCII text: the characters whose lower case
    is ASCII are the letters A to Z and the Kelvin sign (UTF-8 E2 84 AA). *)
Fixpoint lower_chars (l : list ascii) : list ascii :=
  match l with
  | [] => []
  | a :: l' =>
      match l' with
      | b :: c :: l'' =>
          if decide (nat_of_ascii <$> [a; b; c] = [226; 132; 170]) then "k"%char :: lower_chars l''
          else (if (65 <=? nat_of_ascii a) && (nat_of_ascii a <=? 90) then ascii_of_nat (nat_of_ascii a + 32) else a)
               :: lower_chars l'
      | _ => (if (65 <=? nat_of_ascii a) && (nat_of_ascii a <=? 90) then ascii_of_nat (nat_of_ascii a + 32) else a)
             :: lower_chars l'
      end
  end.
Definition lower (s : string) : string := unchars (lower_chars (chars s)).
(** [s.startswith(p)] *)
Definition startswith (p s : string) : bool := bool_decide (is_Some (drop_prefix (chars p) (chars s))).
(** [s.removeprefix(p)] *)
Definition removeprefix (p s : string) : string :=
  match drop_prefix (chars p) (chars s) with Some r => unchars r | None => s end.

(** ** JSON text *)

(** [json.dumps(s, ensure_ascii=False)] of a string: the short escapes, and
    [\u00XX] for the other control characters. *)
Definition hex_nibble (n : nat) : ascii := default "0"%char (String.get n "0123456789abcdef").
Definition json_char (a : ascii) : list ascii :=
  let n := nat_of_ascii a in
  let bs := ascii_of_nat 92 in
  match n with
  | 34 => [bs; a]
  | 92 => [bs; a]
  | 8 => [bs; "b"%char]
  | 9 => [bs; "t"%char]
  | 10 => [bs; "n"%char]
  | 12 => [bs; "f"%char]
  | 13 => [bs; "r"%char]
  | _ => if n <? 32 then [bs; "u"%char; "0"%char; "0"%char; hex_nibble (n / 16); hex_nibble (n mod 16)] else [a]
  end.
Definition json_quote (s : string) : list ascii :=
  let q := ascii_of_nat 34 in [q] ++ (chars s ≫= json_char) ++ [q].
Fixpoint json_items (l : list string) : list ascii :=
  match l with
  | [] => []
  | [s] => json_quote s
  | s :: l' => json_quote s ++ ","%char :: json_items l'
  end.
(** [json.dumps(list(l), ensure_ascii=False, separators=(",", ":"))] *)
Definition json_dumps_strings (l : list string) : string :=
  unchars ("["%char :: json_items l ++ ["]"%char]).

(** ** Facts *)

Lemma chars_inj s t : chars s = chars t -> s = t.
Proof. intros E. rewrite <-(String.string_of_list_ascii_of_string s), E. apply String.string_of_list_ascii_of_string. Qed.
Lemma chars_unchars l : chars (unchars l) = l.
Proof. apply String.list_ascii_of_string_of_list_ascii. Qed.

Lemma drop_prefix_Some p l r : drop_prefix p l = Some r <-> l = p ++ r.
Proof.
  revert l. induction p as [|a p IH]; intros l; cbn; [naive_solver|].
  destruct l as [|b l]; [naive_solver|]. case_decide as E; [|naive_solver].
  rewrite IH, E. naive_solver.
Qed.
Lemma drop_one_None toks l : drop_one toks l = None <-> forall t r, t ∈ toks -> l <> t ++ r.
Proof.
  induction toks as [|t toks IH]; cbn; [set_solver|].
  destruct (drop_prefix t l) as [r|] eqn:E.
  - split; [done|]. intros H1. apply drop_prefix_Some in E. by destruct (H1 t r ltac:(set_solver)).
  - rewrite IH. split; [|set_solver]. intros H1 t' r [->|Ht']%elem_of_cons; [|by apply H1].
    intros Er%drop_prefix_Some. congruence.
Qed.
Lemma drop_one_Some toks l r : drop_one toks l = Some r -> exists t, t ∈ toks /\ l = t ++ r.
Proof.
  induction toks as [|t toks IH]; cbn; [done|]. destruct (drop_prefix t l) as [r'|] eqn:E.
  - intros [= ->]. exists t. split; [set_solver|]. by apply drop_prefix_Some.
  - intros (t' & Ht' & ->)%IH. exists t'. set_solver.
Qed.

(** A stripped list starts with no token. *)
Definition clean (toks : list (list ascii)) (l : list ascii) : Prop := drop_one toks l = None.

Section Strip.
Context (toks : list (list ascii)) (Hne : [] ∉ toks).

Lemma drop_all_suffix fuel l : exists p, l = p ++ drop_all fuel toks l.
Proof.
  revert l. induction fuel as [|fuel IH]; intros l; cbn; [by exists []|].
  destruct (drop_one toks l) as [r|] eqn:E; [|by exists []].
  apply drop_one_Some in E as (t & _ & ->). destruct (IH r) as [p Hp].
  exists (t ++ p). rewrite <-app_assoc. congruence.
Qed.
Lemma drop_all_clean fuel l : length l <= fuel -> clean toks (drop_all fuel toks l).
Proof.
  revert l. induction fuel as [|fuel IH]; intros l Hl; cbn.
  - destruct l; [|cbn in Hl; lia]. apply drop_one_None. intros [|a t] r Ht; [done|]. done.
  - destruct (drop_one toks l) as [r|] eqn:E; [|done]. apply IH.
    apply drop_one_Some in E as ([|a t] & Ht & ->); [done|]. rewrite length_app in Hl. cbn in Hl. lia.
Qed.
Lemma lstrip_clean l : clean toks (lstrip_with toks l).
Proof. by apply drop_all_clean. Qed.
Lemma lstrip_suffix l : exists p, l = p ++ lstrip_with toks l.
Proof. apply drop_all_suffix. Qed.
Lemma lstrip_id l : clean toks l -> lstrip_with toks l = l.
Proof. unfold lstrip_with, clean. intros E. destruct (length l); cbn; [done|]. by rewrite E. Qed.
End Strip.

(** A prefix of a clean list is clean: a token it starts with would start the
    whole. *)
Lemma clean_prefix toks p l : clean toks (p ++ l) -> clean toks p.
Proof.
  unfold clean. rewrite !drop_one_None. intros H1 t r Ht ->. apply (H1 t (r ++ l) Ht). by rewrite app_assoc.
Qed.
Lemma rstrip_prefix toks l : exists p, l = rstrip_with toks l ++ p.
Proof.
  unfold rstrip_with. destruct (lstrip_suffix (reverse <$> toks) (reverse l)) as [p Hp].
  exists (reverse p). rewrite <-reverse_app, <-Hp. by rewrite reverse_involutive.
Qed.
Lemma whitespace_nonempty : ([] ∉ whitespace) /\ ([] ∉ (reverse <$> whitespace)).
Proof. split; apply (bool_decide_unpack (_ ∉ (_ : list _))); vm_compute; exact I. Qed.

Definition strip_chars (l : list ascii) : list ascii := rstrip_with whitespace (lstrip_with whitespace l).
Lemma strip_chars_idem l : strip_chars (strip_chars l) = strip_chars l.
Proof.
  destruct whitespace_nonempty as [Hw Hr]. unfold strip_chars.
  set (m := lstrip_with whitespace l).
  assert (clean whitespace (rstrip_with whitespace m)) as Hc.
  { destruct (rstrip_prefix whitespace m) as [p Hp]. apply (clean_prefix _ _ p). rewrite <-Hp.
    by apply lstrip_clean. }
  rewrite (lstrip_id _ _ Hc). unfold rstrip_with. rewrite reverse_involutive, lstrip_id; [done|].
  by apply lstrip_clean.
Qed.
Lemma strip_idem s : strip (strip s) = strip s.
Proof. unfold strip. rewrite chars_unchars. f_equal. apply strip_chars_idem. Qed.

Lemma rsplit_chars_None sep l : rsplit_chars sep l = None <-> sep ∉ l.
Proof.
  induction l as [|c l IH]; cbn; [set_solver|]. destruct (rsplit_chars sep l) as [[a b]|].
  - split; [done|]. intros H1. assert (sep ∉ l) as H2%IH by set_solver. done.
  - assert (sep ∉ l) as Hl by tauto. case_decide; set_solver.
Qed.
Lemma rsplit_chars_Some sep l a b : rsplit_chars sep l = Some (a, b) -> l = a ++ sep :: b /\ sep ∉ b.
Proof.
  revert a. induction l as [|c l IH]; intros a; cbn; [done|].
  destruct (rsplit_chars sep l) as [[a' b']|] eqn:E.
  - intros [= <- <-]. destruct (IH a' eq_refl) as [-> ?]. done.
  - apply rsplit_chars_None in E. case_decide; [|done]. intros [= <- <-]. by subst.
Qed.

Example strip_demo : strip (unchars (ascii_of_nat <$> [32; 194; 160; 97; 32; 98; 226; 128; 131; 10])) = "a b".
Proof. vm_compute. reflexivity. Qed.
Example rsplit1_demo : rsplit1 ":"%char "device:tool/mock:invoke" = Some ("device:tool/mock", "invoke").
Proof. vm_compute. reflexivity. Qed.
Example lower_demo : lower (unchars (chars "CallBac" ++ (ascii_of_nat <$> [226; 132; 170]))) = "callback".
Proof. vm_compute. reflexivity. Qed.
Example json_dumps_demo : json_dumps_strings ["a"; "b"; unchars [ascii_of_nat 10]] =
  unchars (chars "[" ++ [ascii_of_nat 34] ++ chars "a" ++ [ascii_of_nat 34] ++ chars "," ++ [ascii_of_nat 34] ++ chars "b"
    ++ [ascii_of_nat 34] ++ chars "," ++ [ascii_of_nat 34] ++ [ascii_of_nat 92] ++ chars "n" ++ [ascii_of_nat 34] ++ chars "]").
Proof. vm_compute. reflexivity. Qed.
