(* ===== verification/Verification.v ===== *)
(** * Evidence validation and the VERIFIED predicate
    (runtimes/verified_progress/verification.py, protocols.py)

    What the runtime learns from outside comes through two providers: the
    artifact store and the kernel journal.  Each is a record of read-only
    operations; a caller may pass none. *)

From Stdlib Require Import Ascii.
From S2P Require Import Prelude PyString VpgModels Readiness.
Open Scope Z_scope.

(** ** Providers of external facts (protocols.py) *)

Record ArtifactFactProvider : Type := mkArtifactFacts {
  artifact_exists : string -> string -> Z -> bool;
  verify_binding : string -> ArtifactVersionBinding -> bool;
  (** [latest] is optional and may raise. *)
  latest : option (string -> result (option Z)) }.

Record KernelActionInfo : Type := mkActionInfo { action_pid : string; action_state : string }.
Record KernelEventProvider : Type := mkKernelFacts { get_action : string -> option KernelActionInfo }.

(** ** Error codes (errors.py), as far as the runtime raises them *)

Module VPGCode.
Inductive t : Type :=
| GRAPH_NOT_FOUND | GRAPH_ALREADY_EXISTS | GRAPH_CLOSED | GRAPH_VERSION_CONFLICT
| PATCH_REJECTED | PATCH_EMPTY | PATCH_TOO_LARGE
| NODE_NOT_FOUND | NODE_ALREADY_EXISTS | INVALID_NODE_TYPE
| EDGE_ALREADY_EXISTS | INVALID_EDGE_TYPE_COMBINATION | EDGE_SOURCE_NOT_FOUND | EDGE_TARGET_NOT_FOUND
| EDGE_CROSS_GRAPH | GRAPH_EXECUTION_CYCLE
| ARTIFACT_NOT_FOUND | ARTIFACT_HASH_MISMATCH
| EVIDENCE_SOURCE_ACTION_NOT_FOUND | EVIDENCE_SOURCE_ACTION_NOT_TERMINAL | EVIDENCE_SOURCE_ACTION_WRONG_PID
| EVIDENCE_VERIFICATION_EDGE_MISSING | EVIDENCE_PRODUCES_EDGE_MISSING | EVIDENCE_ARTIFACT_HASH_MISMATCH
| EVIDENCE_PROVENANCE_DIGEST_MISMATCH | EVIDENCE_FAIL_REJECTED | EVIDENCE_INCONCLUSIVE_REJECTED
| LEASE_FENCE_LOST | STALE_COGNITION | READ_SET_UNAVAILABLE | STORAGE_ERROR
| GRAPH_RECOVERY_FAILED | GRAPH_HISTORY_PRUNED.
#[global] Instance t_eq_dec : EqDecision t.
Proof. solve_decision. Defined.
Definition value (c : t) : string :=
  match c with
  | GRAPH_NOT_FOUND => "GRAPH_NOT_FOUND" | GRAPH_ALREADY_EXISTS => "GRAPH_ALREADY_EXISTS"
  | GRAPH_CLOSED => "GRAPH_CLOSED" | GRAPH_VERSION_CONFLICT => "GRAPH_VERSION_CONFLICT"
  | PATCH_REJECTED => "PATCH_REJECTED" | PATCH_EMPTY => "PATCH_EMPTY" | PATCH_TOO_LARGE => "PATCH_TOO_LARGE"
  | NODE_NOT_FOUND => "NODE_NOT_FOUND" | NODE_ALREADY_EXISTS => "NODE_ALREADY_EXISTS"
  | INVALID_NODE_TYPE => "INVALID_NODE_TYPE" | EDGE_ALREADY_EXISTS => "EDGE_ALREADY_EXISTS"
  | INVALID_EDGE_TYPE_COMBINATION => "INVALID_EDGE_TYPE_COMBINATION"
  | EDGE_SOURCE_NOT_FOUND => "EDGE_SOURCE_NOT_FOUND" | EDGE_TARGET_NOT_FOUND => "EDGE_TARGET_NOT_FOUND"
  | EDGE_CROSS_GRAPH => "EDGE_CROSS_GRAPH" | GRAPH_EXECUTION_CYCLE => "GRAPH_EXECUTION_CYCLE"
  | ARTIFACT_NOT_FOUND => "ARTIFACT_NOT_FOUND" | ARTIFACT_HASH_MISMATCH => "ARTIFACT_HASH_MISMATCH"
  | EVIDENCE_SOURCE_ACTION_NOT_FOUND => "EVIDENCE_SOURCE_ACTION_NOT_FOUND"
  | EVIDENCE_SOURCE_ACTION_NOT_TERMINAL => "EVIDENCE_SOURCE_ACTION_NOT_TERMINAL"
  | EVIDENCE_SOURCE_ACTION_WRONG_PID => "EVIDENCE_SOURCE_ACTION_WRONG_PID"
  | EVIDENCE_VERIFICATION_EDGE_MISSING => "EVIDENCE_VERIFICATION_EDGE_MISSING"
  | EVIDENCE_PRODUCES_EDGE_MISSING => "EVIDENCE_PRODUCES_EDGE_MISSING"
  | EVIDENCE_ARTIFACT_HASH_MISMATCH => "EVIDENCE_ARTIFACT_HASH_MISMATCH"
  | EVIDENCE_PROVENANCE_DIGEST_MISMATCH => "EVIDENCE_PROVENANCE_DIGEST_MISMATCH"
  | EVIDENCE_FAIL_REJECTED => "EVIDENCE_FAIL_REJECTED"
  | EVIDENCE_INCONCLUSIVE_REJECTED => "EVIDENCE_INCONCLUSIVE_REJECTED"
  | LEASE_FENCE_LOST => "LEASE_FENCE_LOST" | STALE_COGNITION => "STALE_COGNITION"
  | READ_SET_UNAVAILABLE => "READ_SET_UNAVAILABLE" | STORAGE_ERROR => "STORAGE_ERROR"
  | GRAPH_RECOVERY_FAILED => "GRAPH_RECOVERY_FAILED" | GRAPH_HISTORY_PRUNED => "GRAPH_HISTORY_PRUNED"
  end.
End VPGCode.
(** [raise VPGError(code, message)] *)
Definition vpg_error (c : VPGCode.t) : py_error := VPGError (VPGCode.value c).

(** ** The graph around a piece of evidence *)

Definition _verifies_target (verification_id : string) (edges : list VPGEdge) : option string :=
  target_node_id <$> head (filter (fun e => edge_type e = EdgeType.VERIFIES /\ source_node_id e = verification_id) edges).

(** [cur is None or n.version > cur[1]] *)
Definition pin_version (nodes : dict AnyNode) (pins : gmap string Z) (target : string) : gmap string Z :=
  match dict_get target nodes with
  | Some (NArtifactRef a) =>
      let uri := b_canonical_uri (aref_binding a) in
      let version := b_version (aref_binding a) in
      match pins !! uri with
      | Some cur => if decide (cur < version) then <[uri := version]> pins else pins
      | None => <[uri := version]> pins
      end
  | _ => pins
  end.
(** The targets of the edges of one type that leave [n], in edge order. *)
Definition targets (ty : EdgeType.t) (edges : list VPGEdge) (n : string) : list string :=
  target_node_id <$> filter (fun e => edge_type e = ty /\ source_node_id e = n) edges.
(** [set(latest.values())] *)
Definition pin_set (pins : gmap string Z) : gset (string * Z) := list_to_set (map_to_list pins).
Definition _task_current_artifact_versions (task_id : string) (nodes : dict AnyNode) (edges : list VPGEdge)
    : gset (string * Z) :=
  pin_set (foldl (pin_version nodes) ∅ (targets EdgeType.PRODUCES edges task_id)).

(** ** [validate_evidence] *)

Record EvidenceCheckResult : Type := mkCheck { valid : bool; code : option VPGCode.t }.
Definition _fail (c : VPGCode.t) : EvidenceCheckResult := mkCheck false (Some c).

(** [report_hash.strip().lower() == evidence.provenance_digest], with the report
    hash read from the metadata *)
Definition provenance_matches (evidence : EvidenceNode) (digest : string) : bool :=
  match jget "provenance" (metadata (evid_base evidence)) with
  | Some (JObj provenance) =>
      match jget "report_hash" provenance with
      | Some (JStr report_hash) => String.eqb (lower (strip report_hash)) digest
      | _ => false
      end
  | _ => false
  end.

Definition binding_key (b : ArtifactVersionBinding) : string * Z := (b_canonical_uri b, b_version b).
Definition bindings_verified (facts : option ArtifactFactProvider) (pid : string) (evidence : EvidenceNode) : bool :=
  match facts with
  | None => true
  | Some f =>
      forallb (verify_binding f pid) (artifact_bindings evidence) &&
      match evidence_content_ref evidence with Some b => verify_binding f pid b | None => true end
  end.

(** What follows the checks on the action: the verification that produced the
    evidence, its task, and the task's pins. *)
Definition check_structure (evidence : EvidenceNode) (nodes : dict AnyNode) (edges : list VPGEdge)
    : EvidenceCheckResult :=
  match source_verification_id evidence with
  | None => _fail VPGCode.EVIDENCE_VERIFICATION_EDGE_MISSING
  | Some vid =>
      if negb (existsb (fun e => bool_decide (edge_type e = EdgeType.PRODUCES) &&
                                 bool_decide (source_node_id e = vid) &&
                                 bool_decide (target_node_id e = node_id (evid_base evidence))) edges)
      then _fail VPGCode.EVIDENCE_PRODUCES_EDGE_MISSING
      else
        match dict_get vid nodes with
        | Some (NVerification verification) =>
            match _verifies_target (node_id (verif_base verification)) edges with
            | None => _fail VPGCode.EVIDENCE_VERIFICATION_EDGE_MISSING
            | Some target_task_id =>
                match dict_get target_task_id nodes with
                | Some (NTask task_node) =>
                    let pinned := _task_current_artifact_versions (task_id_of task_node) nodes edges in
                    let evidence_versions : gset (string * Z) := list_to_set (binding_key <$> artifact_bindings evidence) in
                    if decide (evidence_versions = pinned) then mkCheck true None
                    else _fail VPGCode.EVIDENCE_ARTIFACT_HASH_MISMATCH
                | _ => mkCheck true None
                end
            end
        | _ => _fail VPGCode.EVIDENCE_VERIFICATION_EDGE_MISSING
        end
  end.

Definition check_source_action (evidence : EvidenceNode) (nodes : dict AnyNode) (edges : list VPGEdge)
    (facts_artifact : option ArtifactFactProvider) (facts_kernel : option KernelEventProvider) : EvidenceCheckResult :=
  match facts_kernel ≫= fun k => source_action_id evidence ≫= get_action k with
  | None => _fail VPGCode.EVIDENCE_SOURCE_ACTION_NOT_FOUND
  | Some action =>
      if negb (String.eqb (action_pid action) (produced_by_pid evidence))
      then _fail VPGCode.EVIDENCE_SOURCE_ACTION_WRONG_PID
      else if negb (String.eqb (action_state action) "committed")
      then _fail VPGCode.EVIDENCE_SOURCE_ACTION_NOT_TERMINAL
      else
        let producer_pid := if String.eqb (produced_by_pid evidence) "" then action_pid action else produced_by_pid evidence in
        if negb (bindings_verified facts_artifact producer_pid evidence)
        then _fail VPGCode.EVIDENCE_ARTIFACT_HASH_MISMATCH
        else check_structure evidence nodes edges
  end.

(** [not evidence.source_action_id] *)
Definition falsy_id (o : option string) : bool := match o with Some s => String.eqb s "" | None => true end.

Definition validate_evidence (evidence : EvidenceNode) (nodes : dict AnyNode) (edges : list VPGEdge)
    (facts_artifact : option ArtifactFactProvider) (facts_kernel : option KernelEventProvider) : EvidenceCheckResult :=
  match evid_result evidence with
  | EvidenceResult.FAIL => _fail VPGCode.EVIDENCE_FAIL_REJECTED
  | EvidenceResult.INCONCLUSIVE => _fail VPGCode.EVIDENCE_INCONCLUSIVE_REJECTED
  | EvidenceResult.PASS =>
      if match provenance_digest evidence with Some d => negb (provenance_matches evidence d) | None => false end
      then _fail VPGCode.EVIDENCE_PROVENANCE_DIGEST_MISMATCH
      else if falsy_id (source_action_id evidence) then _fail VPGCode.EVIDENCE_SOURCE_ACTION_NOT_FOUND
      else check_source_action evidence nodes edges facts_artifact facts_kernel
  end.

(** ** Indices *)

Definition add_to (k v : string) (m : gmap string (list string)) : gmap string (list string) :=
  <[k := default [] (m !! k) ++ [v]]> m.
Definition index_edge (ix : gmap string (list string) * gmap string (list string)) (e : VPGEdge) :=
  match edge_type e with
  | EdgeType.VERIFIES => (add_to (target_node_id e) (source_node_id e) ix.1, ix.2)
  | EdgeType.PRODUCES => (ix.1, add_to (source_node_id e) (target_node_id e) ix.2)
  | EdgeType.DEPENDS_ON => ix
  end.
Definition build_verification_indices (edges : list VPGEdge) : gmap string (list string) * gmap string (list string) :=
  foldl index_edge (∅, ∅) edges.

Definition verification_at (nodes : dict AnyNode) (id : string) : option VerificationNode :=
  match dict_get id nodes with Some (NVerification v) => Some v | _ => None end.
Definition evidence_at (nodes : dict AnyNode) (id : string) : option EvidenceNode :=
  match dict_get id nodes with Some (NEvidence e) => Some e | _ => None end.

Definition _find_verifications (task_id : string) (nodes : dict AnyNode) (edges : list VPGEdge)
    (verifies_index : option (gmap string (list string))) : list VerificationNode :=
  match verifies_index with
  | Some index => omap (verification_at nodes) (default [] (index !! task_id))
  | None => omap (fun e =>
      if bool_decide (edge_type e = EdgeType.VERIFIES) && bool_decide (target_node_id e = task_id)
      then verification_at nodes (source_node_id e) else None) edges
  end.
Definition _find_evidence_for_verification (verification_id : string) (nodes : dict AnyNode) (edges : list VPGEdge)
    (produces_index : option (gmap string (list string))) : list EvidenceNode :=
  match produces_index with
  | Some index => omap (evidence_at nodes) (default [] (index !! verification_id))
  | None => omap (fun e =>
      if bool_decide (edge_type e = EdgeType.PRODUCES) && bool_decide (source_node_id e = verification_id)
      then evidence_at nodes (target_node_id e) else None) edges
  end.

(** ** The VERIFIED predicate *)

Definition dep_established (n : AnyNode) : bool :=
  match n with
  | NTask dep => bool_decide (validity (task_base dep) = NodeValidity.VERIFIED) && live (lifecycle (task_base dep))
  | _ => false
  end.
Definition _task_deps_verified (task : TaskNode) (nodes : dict AnyNode) (edges : list VPGEdge) : bool :=
  forallb (fun e =>
    if bool_decide (edge_type e = EdgeType.DEPENDS_ON) && bool_decide (source_node_id e = task_id_of task)
    then match dict_get (target_node_id e) nodes with Some n => dep_established n | None => true end
    else true) edges.

Section TaskIsVerified.
Context (facts_artifact : option ArtifactFactProvider) (facts_kernel : option KernelEventProvider).

Definition has_valid_evidence (nodes : dict AnyNode) (edges : list VPGEdge)
    (produces_index : option (gmap string (list string))) (v : VerificationNode) : bool :=
  existsb (fun ev => valid (validate_evidence ev nodes edges facts_artifact facts_kernel))
    (_find_evidence_for_verification (node_id (verif_base v)) nodes edges produces_index).

Definition task_is_verified (task : TaskNode) (nodes : dict AnyNode) (edges : list VPGEdge)
    (verifies_index produces_index : option (gmap string (list string))) : bool :=
  if negb (live (lifecycle (task_base task))) then false
  else if bool_decide (validity (task_base task) = NodeValidity.INVALID) then false
  else
    let verifications := _find_verifications (task_id_of task) nodes edges verifies_index in
    let valid_verification_count :=
      Z.of_nat (length (filter (fun v => has_valid_evidence nodes edges produces_index v = true) verifications)) in
    bool_decide (Z.max 1 (required_verification_count task) <= valid_verification_count) &&
    _task_deps_verified task nodes edges.
End TaskIsVerified.
