(* ===== verification/VerificationProps.v ===== *)
(** * Theorems on evidence and task verification

    What a valid piece of evidence stands for, what the VERIFIED predicate
    entails, and that the precomputed indices change no answer. *)

From Stdlib Require Import Ascii.
From S2P Require Import Prelude PyString Graph VpgModels Dag Readiness ReadinessProps Verification.
Open Scope Z_scope.

(** ** Edges *)

Definition sources (ty : EdgeType.t) (edges : list VPGEdge) (n : string) : list string :=
  source_node_id <$> filter (fun e => edge_type e = ty /\ target_node_id e = n) edges.

Lemma targets_elem ty edges n m :
  m ∈ targets ty edges n <-> exists e, e ∈ edges /\ edge_type e = ty /\ source_node_id e = n /\ target_node_id e = m.
Proof.
  unfold targets. rewrite list_elem_of_fmap. setoid_rewrite list_elem_of_filter. naive_solver.
Qed.
Lemma sources_elem ty edges n m :
  m ∈ sources ty edges n <-> exists e, e ∈ edges /\ edge_type e = ty /\ target_node_id e = n /\ source_node_id e = m.
Proof.
  unfold sources. rewrite list_elem_of_fmap. setoid_rewrite list_elem_of_filter. naive_solver.
Qed.

(** The indices list, for every node, the other ends of its edges in edge order. *)
Lemma indices_lookup edges n :
  default [] ((build_verification_indices edges).1 !! n) = sources EdgeType.VERIFIES edges n /\
  default [] ((build_verification_indices edges).2 !! n) = targets EdgeType.PRODUCES edges n.
Proof.
  unfold build_verification_indices, sources, targets.
  induction edges as [|e edges IH] using rev_ind; [done|].
  rewrite foldl_app, !filter_app, !fmap_app. cbn [foldl].
  destruct (foldl index_edge (∅, ∅) edges) as [vi pi]. cbn [fst snd] in *. destruct IH as [<- <-].
  rewrite !filter_cons, !filter_nil. unfold index_edge, add_to. destruct (edge_type e) eqn:E; cbn [fst snd].
  - rewrite !decide_False by (intros [? _]; done). by rewrite !app_nil_r.
  - rewrite (decide_False (P := EdgeType.PRODUCES = EdgeType.VERIFIES /\ _)) by (intros [? _]; done). rewrite app_nil_r.
    split; [done|]. destruct (decide (source_node_id e = n)) as [<-|Hn].
    + rewrite lookup_insert_eq. by rewrite decide_True.
    + rewrite lookup_insert_ne by done. rewrite decide_False by tauto. by rewrite app_nil_r.
  - rewrite (decide_False (P := EdgeType.VERIFIES = EdgeType.PRODUCES /\ _)) by (intros [? _]; done). rewrite app_nil_r.
    split; [|done]. destruct (decide (target_node_id e = n)) as [<-|Hn].
    + rewrite lookup_insert_eq. by rewrite decide_True.
    + rewrite lookup_insert_ne by done. rewrite decide_False by tauto. by rewrite app_nil_r.
Qed.

Lemma omap_filter {A B C} (P : A -> Prop) `{!forall x, Decision (P x)} (f : A -> B) (g : B -> option C) (l : list A) :
  omap g (f <$> filter P l) = omap (fun x => if bool_decide (P x) then g (f x) else None) l.
Proof.
  induction l as [|x l IH]; [done|]. rewrite filter_cons. cbn [omap list_omap]. case_decide as Hx.
  - rewrite bool_decide_true by done. cbn. by rewrite IH.
  - rewrite bool_decide_false by done. exact IH.
Qed.
Lemma omap_ext {A B} (f g : A -> option B) (l : list A) : (forall x, f x = g x) -> omap f l = omap g l.
Proof. intros H. induction l as [|x l IH]; [done|]. cbn. by rewrite H, IH. Qed.

Lemma find_verifications_index task_id nodes edges :
  _find_verifications task_id nodes edges (Some (build_verification_indices edges).1) =
  _find_verifications task_id nodes edges None.
Proof.
  unfold _find_verifications. rewrite (proj1 (indices_lookup edges task_id)). unfold sources. rewrite omap_filter.
  apply omap_ext. intros e. by rewrite bool_decide_and.
Qed.
Lemma find_evidence_index vid nodes edges :
  _find_evidence_for_verification vid nodes edges (Some (build_verification_indices edges).2) =
  _find_evidence_for_verification vid nodes edges None.
Proof.
  unfold _find_evidence_for_verification. rewrite (proj2 (indices_lookup edges vid)). unfold targets. rewrite omap_filter.
  apply omap_ext. intros e. by rewrite bool_decide_and.
Qed.

Lemma task_is_verified_index fa fk task nodes edges :
  task_is_verified fa fk task nodes edges
    (Some (build_verification_indices edges).1) (Some (build_verification_indices edges).2) =
  task_is_verified fa fk task nodes edges None None.
Proof.
  unfold task_is_verified. rewrite find_verifications_index.
  rewrite (filter_ext_in _ (fun v => has_valid_evidence fa fk nodes edges None v = true)); [done|].
  intros v _. unfold has_valid_evidence. by rewrite find_evidence_index.
Qed.

(** The O(degree) lookups through the indices built once per pass give
    [task_is_verified] the answer of the edge scans they replace, on every graph
    and for every provider. *)
Theorem task_is_verified_indexed fa fk task nodes edges :
  task_is_verified fa fk task nodes edges
    (Some (build_verification_indices edges).1) (Some (build_verification_indices edges).2) =
  task_is_verified fa fk task nodes edges None None.
Proof. apply task_is_verified_index. Qed.

(** ** What valid evidence stands for *)

(** The claims a valid piece of evidence makes about the outside world. *)
Definition backed (fa : option ArtifactFactProvider) (fk : option KernelEventProvider) (ev : EvidenceNode) : Prop :=
  evid_result ev = EvidenceResult.PASS /\
  (forall d, provenance_digest ev = Some d -> provenance_matches ev d = true) /\
  (exists k aid action, fk = Some k /\ source_action_id ev = Some aid /\ aid <> "" /\
     get_action k aid = Some action /\ action_pid action = produced_by_pid ev /\ action_state action = "committed") /\
  forall f, fa = Some f -> forall b,
    b ∈ artifact_bindings ev \/ evidence_content_ref ev = Some b -> verify_binding f (produced_by_pid ev) b = true.
Definition evidence_versions (ev : EvidenceNode) : gset (string * Z) :=
  list_to_set (binding_key <$> artifact_bindings ev).
(** Its place in the graph: produced by its own verification, which verifies
    something; if that is a task, the versions are the task's pins. *)
Definition placed (nodes : dict AnyNode) (edges : list VPGEdge) (ev : EvidenceNode) : Prop :=
  exists vid v target,
    source_verification_id ev = Some vid /\ node_id (evid_base ev) ∈ targets EdgeType.PRODUCES edges vid /\
    verification_at nodes vid = Some v /\ _verifies_target (node_id (verif_base v)) edges = Some target /\
    forall t, dict_get target nodes = Some (NTask t) ->
      evidence_versions ev = _task_current_artifact_versions (task_id_of t) nodes edges.

Lemma produces_check edges vid n :
  existsb (fun e => bool_decide (edge_type e = EdgeType.PRODUCES) && bool_decide (source_node_id e = vid) &&
                    bool_decide (target_node_id e = n)) edges = true <-> n ∈ targets EdgeType.PRODUCES edges vid.
Proof.
  rewrite existsb_exists, targets_elem. setoid_rewrite <-list_elem_of_In.
  setoid_rewrite andb_true_iff. setoid_rewrite andb_true_iff. setoid_rewrite bool_decide_eq_true.
  split; intros (e & H1); exists e; tauto.
Qed.
Lemma check_structure_spec ev nodes edges : valid (check_structure ev nodes edges) = true <-> placed nodes edges ev.
Proof.
  unfold check_structure. destruct (source_verification_id ev) as [vid|] eqn:Es; cycle 1.
  { split; [done|]. intros (? & ? & ? & ? & _). congruence. }
  destruct (existsb _ edges) eqn:Ee; cycle 1.
  { split; [done|]. intros (? & v & target & Hs & Ht & _). rewrite Es in Hs. simplify_eq.
    apply produces_check in Ht. congruence. }
  apply produces_check in Ee. cbn [negb].
  destruct (verification_at nodes vid) as [v|] eqn:Ev; unfold verification_at in Ev; cycle 1.
  { split; [intros H1; exfalso; by repeat case_match|]. intros (? & v & target & Hs & _ & Hv & _).
    rewrite Es in Hs. simplify_eq. unfold verification_at in Hv. by repeat case_match. }
  assert (dict_get vid nodes = Some (NVerification v)) as Hd by (repeat case_match; congruence). rewrite Hd.
  assert (verification_at nodes vid = Some v) as Hat by (unfold verification_at; by rewrite Hd).
  destruct (_verifies_target _ edges) as [target|] eqn:Et; cycle 1.
  { split; [done|]. intros (? & v' & target & Hs & _ & Hv & Ht & _). rewrite Es in Hs. by simplify_eq. }
  assert (forall P, (forall t, dict_get target nodes = Some (NTask t) ->
      evidence_versions ev = _task_current_artifact_versions (task_id_of t) nodes edges) <-> P ->
      placed nodes edges ev <-> P) as Hpl.
  { intros P <-. split.
    - intros (? & v' & target' & Hs & _ & Hv & Ht & Hp). rewrite Es in Hs. by simplify_eq.
    - intros Hp. by exists vid, v, target. }
  symmetry. apply Hpl. destruct (dict_get target nodes) as [[|t| | |]|] eqn:En.
  2: { unfold evidence_versions. case_decide as Hv; cbn.
       - split; [done|]. intros _ t' Ht'. by simplify_eq.
       - split; [|done]. intros H1. exfalso. by apply Hv, (H1 t). }
  all: cbn; split; [done|]; intros _ t' Ht'; congruence.
Qed.

Lemma bindings_verified_spec fa pid ev :
  bindings_verified fa pid ev = true <-> forall f, fa = Some f -> forall b,
    b ∈ artifact_bindings ev \/ evidence_content_ref ev = Some b -> verify_binding f pid b = true.
Proof.
  unfold bindings_verified. destruct fa as [f|]; [|naive_solver].
  rewrite andb_true_iff, forallb_forall. setoid_rewrite <-list_elem_of_In. split.
  - intros [H1 H2] ? [= <-] b [Hb|Hb]; [by apply H1|]. by rewrite Hb in H2.
  - intros H1. split; [naive_solver|]. destruct (evidence_content_ref ev); naive_solver.
Qed.

Lemma check_source_action_spec ev nodes edges fa fk :
  valid (check_source_action ev nodes edges fa fk) = true <->
  (exists k aid action, fk = Some k /\ source_action_id ev = Some aid /\ get_action k aid = Some action /\
     action_pid action = produced_by_pid ev /\ action_state action = "committed") /\
  bindings_verified fa (produced_by_pid ev) ev = true /\ placed nodes edges ev.
Proof.
  unfold check_source_action. destruct (fk ≫= _) as [a|] eqn:Ea; cycle 1.
  { split; [done|]. intros [(k & aid & a & -> & Ha & Hk & _) _]. cbn in Ea. rewrite Ha in Ea. cbn in Ea. congruence. }
  assert (forall P, P <-> action_pid a = produced_by_pid ev /\ action_state a = "committed" /\
      bindings_verified fa (produced_by_pid ev) ev = true /\ placed nodes edges ev ->
    P <-> (exists k aid action, fk = Some k /\ source_action_id ev = Some aid /\ get_action k aid = Some action /\
      action_pid action = produced_by_pid ev /\ action_state action = "committed") /\
      bindings_verified fa (produced_by_pid ev) ev = true /\ placed nodes edges ev) as Hgen.
  { intros P ->. destruct fk as [k|]; [|done]. cbn in Ea. destruct (source_action_id ev) as [aid|]; [|done]. cbn in Ea.
    split.
    - intros (H1 & H2 & H3). split; [|done]. by exists k, aid, a.
    - intros [(k' & aid' & a' & [= <-] & [= <-] & Ha' & H1 & H2) H3]. assert (a' = a) as -> by congruence. done. }
  apply Hgen. clear Hgen.
  destruct (String.eqb_spec (action_pid a) (produced_by_pid ev)) as [Hp|Hp]; cbn [negb]; [|split; [done|tauto]].
  destruct (String.eqb_spec (action_state a) "committed") as [Hs|Hs]; cbn [negb]; [|split; [done|tauto]].
  rewrite Hp. assert ((if String.eqb (produced_by_pid ev) "" then produced_by_pid ev else produced_by_pid ev) = produced_by_pid ev)
    as -> by by case_match.
  destruct (bindings_verified fa _ ev); cbn [negb]; [|split; [done|intros (_ & _ & ? & _); done]].
  rewrite check_structure_spec. tauto.
Qed.

Lemma validate_evidence_spec ev nodes edges fa fk :
  valid (validate_evidence ev nodes edges fa fk) = true <-> backed fa fk ev /\ placed nodes edges ev.
Proof.
  unfold validate_evidence, backed. rewrite <-bindings_verified_spec.
  destruct (evid_result ev); [|by split; [|intros [(? & _) _]]..].
  assert (match provenance_digest ev with Some d => negb (provenance_matches ev d) | None => false end = false <->
          forall d, provenance_digest ev = Some d -> provenance_matches ev d = true) as Hprov.
  { destruct (provenance_digest ev) as [d|]; [rewrite negb_false_iff|done].
    split; [by intros H1 ? [= <-]|]. intros H1. by apply H1. }
  destruct (match provenance_digest ev with Some d => negb (provenance_matches ev d) | None => false end) eqn:Ep.
  { split; [done|]. intros [(_ & H1 & _) _]. apply Hprov in H1. done. }
  assert (falsy_id (source_action_id ev) = false <-> exists aid, source_action_id ev = Some aid /\ aid <> "") as Hf.
  { unfold falsy_id. destruct (source_action_id ev) as [aid|]; [rewrite String.eqb_neq|]; split; try done.
    - intros H1. by exists aid.
    - by intros (? & [= <-] & ?).
    - by intros (? & ? & _). }
  destruct (falsy_id (source_action_id ev)) eqn:Ef.
  { split; [done|]. intros [(_ & _ & (k & aid & a & _ & Ha & Hne & _) & _) _].
    assert (true = false) by (apply Hf; eauto). done. }
  rewrite check_source_action_spec. destruct (proj1 Hf eq_refl) as (aid0 & Ha0 & Hne0).
  split.
  - intros [(k & aid & a & H1 & H2 & H3) [H4 H5]]. split; [|done]. split; [done|]. split; [by apply Hprov|]. split; [|done].
    exists k, aid, a. split_and!; try tauto. congruence.
  - intros [(_ & _ & (k & aid & a & H1 & H2 & _ & H3) & H4) H5]. split; [|done]. by exists k, aid, a.
Qed.

(** [validate_evidence] accepts exactly the evidence that passed, whose
    provenance digest (if any) is the recorded report hash, whose source action
    the kernel knows as COMMITTED and as the producing process's own, whose
    bindings the artifact store confirms, and that its own verification, which
    verifies a task, produced with exactly that task's pinned versions. *)
Theorem validate_evidence_exact ev nodes edges fa fk :
  valid (validate_evidence ev nodes edges fa fk) = true <-> backed fa fk ev /\ placed nodes edges ev.
Proof. apply validate_evidence_spec. Qed.

(** ** What VERIFIED entails *)

Lemma elem_find_verifications task_id nodes edges v :
  v ∈ _find_verifications task_id nodes edges None <->
  exists vid, vid ∈ sources EdgeType.VERIFIES edges task_id /\ verification_at nodes vid = Some v.
Proof.
  rewrite <-find_verifications_index. unfold _find_verifications.
  rewrite (proj1 (indices_lookup edges task_id)), list_elem_of_omap. done.
Qed.
Lemma elem_find_evidence vid nodes edges ev :
  ev ∈ _find_evidence_for_verification vid nodes edges None <->
  exists id, id ∈ targets EdgeType.PRODUCES edges vid /\ evidence_at nodes id = Some ev.
Proof.
  rewrite <-find_evidence_index. unfold _find_evidence_for_verification.
  rewrite (proj2 (indices_lookup edges vid)), list_elem_of_omap. done.
Qed.
Lemma verification_at_id nodes vid v : nodes_ok nodes -> verification_at nodes vid = Some v -> node_id (verif_base v) = vid.
Proof.
  intros [_ Hk]. unfold verification_at. repeat case_match; try done. intros [= <-].
  by apply (Hk vid (NVerification v0)), dict_get_elem.
Qed.
Lemma verifies_target_elem vid edges t : _verifies_target vid edges = Some t -> t ∈ targets EdgeType.VERIFIES edges vid.
Proof. unfold _verifies_target, targets. intros (e & He%head_Some_elem_of & ->)%fmap_Some. by apply list_elem_of_fmap_2. Qed.

(** Evidence hangs only off the verification it names, and a verification
    verifies one task, by one edge. *)
Record well_attached (nodes : dict AnyNode) (edges : list VPGEdge) : Prop := {
  own_evidence vid id ev : id ∈ targets EdgeType.PRODUCES edges vid -> evidence_at nodes id = Some ev ->
    source_verification_id ev = Some vid;
  own_task vid : (length (targets EdgeType.VERIFIES edges vid) <= 1)%nat }.

(** [vid] verifies the task with evidence that is backed and matches its pins. *)
Definition attests fa fk (nodes : dict AnyNode) (edges : list VPGEdge) (task : string) (vid : string) : Prop :=
  vid ∈ sources EdgeType.VERIFIES edges task /\
  exists id ev, id ∈ targets EdgeType.PRODUCES edges vid /\ evidence_at nodes id = Some ev /\
    source_verification_id ev = Some vid /\ backed fa fk ev /\
    evidence_versions ev = _task_current_artifact_versions task nodes edges.

Lemma has_valid_evidence_attests fa fk nodes edges task t v :
  nodes_ok nodes -> well_attached nodes edges -> dict_get task nodes = Some (NTask t) ->
  v ∈ _find_verifications task nodes edges None -> has_valid_evidence fa fk nodes edges None v = true ->
  attests fa fk nodes edges task (node_id (verif_base v)).
Proof.
  intros Hok Hwa Ht (vid & Hvid & Hv)%elem_find_verifications He.
  pose proof (verification_at_id _ _ _ Hok Hv) as Hid. rewrite Hid. split; [done|].
  unfold has_valid_evidence in He. apply existsb_exists in He as (ev & Hev%list_elem_of_In & Hval).
  rewrite Hid in Hev. apply elem_find_evidence in Hev as (id & Hin & Hat).
  apply validate_evidence_spec in Hval as [Hb (vid' & v' & target & Hs & _ & Hv' & Htgt & Hp)].
  pose proof (own_evidence _ _ Hwa _ _ _ Hin Hat) as Hs'. assert (vid' = vid) as -> by congruence.
  assert (v' = v) as -> by congruence. rewrite Hid in Htgt. apply verifies_target_elem in Htgt.
  assert (target = task) as ->.
  { apply sources_elem in Hvid as (e & He & Hty & Htg & Hsrc).
    assert (task ∈ targets EdgeType.VERIFIES edges vid) as Ht2 by (apply targets_elem; eauto).
    pose proof (own_task _ _ Hwa vid) as Hone. destruct (targets EdgeType.VERIFIES edges vid) as [|x [|y l]]; [set_solver| |cbn in Hone; lia].
    set_solver. }
  exists id, ev. split_and!; [done..|]. destruct Hok as [_ Hk].
  rewrite (Hp t Ht). f_equal. by apply (Hk task (NTask t)), dict_get_elem.
Qed.

Lemma find_verifications_ids task nodes edges :
  nodes_ok nodes -> (fun v => node_id (verif_base v)) <$> _find_verifications task nodes edges None `sublist_of` sources EdgeType.VERIFIES edges task.
Proof.
  intros Hok. rewrite <-find_verifications_index. unfold _find_verifications. rewrite (proj1 (indices_lookup edges task)).
  induction (sources EdgeType.VERIFIES edges task) as [|vid l IH]; [done|]. cbn [omap list_omap].
  destruct (verification_at nodes vid) as [v|] eqn:E; [|by apply sublist_cons].
  rewrite fmap_cons, (verification_at_id _ _ _ Hok E). by apply sublist_skip.
Qed.

(** C37: on a graph whose evidence hangs only off the verification it names and
    whose verifications verify one task each, [task_is_verified] means: at least
    max(1, required_verification_count) different verifications of the task each
    hold passing evidence, of a committed action of the producing process, for
    exactly the artifact versions the task pins now, and every dependency in the
    graph is a VERIFIED task. *)
Theorem verified_task_attested fa fk task t nodes edges :
  nodes_ok nodes -> well_attached nodes edges -> NoDup (sources EdgeType.VERIFIES edges task) ->
  dict_get task nodes = Some (NTask t) -> task_is_verified fa fk t nodes edges None None = true ->
  (exists vids, NoDup vids /\ Z.max 1 (required_verification_count t) <= Z.of_nat (length vids) /\
     Forall (attests fa fk nodes edges task) vids) /\
  forall dep n, dep ∈ depends_on edges task -> dict_get dep nodes = Some n ->
    exists d, n = NTask d /\ established d.
Proof.
  intros Hok Hwa Hnd Ht Hv. assert (task_id_of t = task) as Hid by (by apply (proj2 Hok task (NTask t)), dict_get_elem).
  unfold task_is_verified in Hv. do 2 (case_match; [done|]). rewrite Hid in Hv.
  apply andb_true_iff in Hv as [Hc%bool_decide_eq_true Hdeps]. split.
  - eexists ((fun v => node_id (verif_base v)) <$> filter (fun v => has_valid_evidence fa fk nodes edges None v = true)
       (_find_verifications task nodes edges None)).
    split; [|split; [by rewrite length_fmap|]].
    + eapply sublist_NoDup; [exact Hnd|]. etransitivity; [|by apply (find_verifications_ids task nodes edges)].
      apply fmap_sublist, sublist_filter.
    + apply Forall_forall. intros vid (v & -> & [Hval Hin]%list_elem_of_filter)%list_elem_of_fmap.
      by eapply has_valid_evidence_attests.
  - intros dep n (e & He & Hty & Hsrc & <-)%depends_on_elem Hn. unfold _task_deps_verified in Hdeps.
    rewrite forallb_forall in Hdeps. specialize (Hdeps e (proj1 (list_elem_of_In _ _) He)). cbn in Hdeps.
    rewrite (bool_decide_true _ Hty), bool_decide_true, Hn in Hdeps by congruence. cbn in Hdeps.
    destruct n as [|d| | |]; try done. exists d. split; [done|]. cbn in Hdeps.
    apply andb_true_iff in Hdeps as [?%bool_decide_eq_true Hl]. split; [done|]. by destruct (lifecycle (task_base d)).
Qed.

(** ** Instances *)

Definition vp_base (id : string) (l : NodeLifecycle.t) (v : NodeValidity.t) : VPGNode := mkNode id "g" l v 1 1 "p" 0 [].
Definition vp_task (id : string) : string * AnyNode :=
  (id, NTask (mkTask (vp_base id NodeLifecycle.ADMITTED NodeValidity.UNVERIFIED) "" "" "" [] 1)).
Definition vp_verification (id : string) : string * AnyNode :=
  (id, NVerification (mkVerification (vp_base id NodeLifecycle.ADMITTED NodeValidity.UNVERIFIED) "k" [] None)).
Definition vp_binding (uri : string) (v : Z) : ArtifactVersionBinding := mkBinding uri "a" v "h" "m".
Definition vp_evidence_node (id vid : string) (bs : list ArtifactVersionBinding) : EvidenceNode :=
  mkEvidence (vp_base id NodeLifecycle.ADMITTED NodeValidity.UNVERIFIED) "k" EvidenceResult.PASS (Some vid) (Some "act")
    [] bs None "" "p" None None None None None None None None None None 0.
Definition vp_evidence (id vid : string) (bs : list ArtifactVersionBinding) : string * AnyNode :=
  (id, NEvidence (vp_evidence_node id vid bs)).
Definition vp_artifact (id uri : string) (v : Z) : string * AnyNode :=
  (id, NArtifactRef (mkArtifactRef (vp_base id NodeLifecycle.ADMITTED NodeValidity.UNVERIFIED) (vp_binding uri v))).
Definition vp_edge (ty : EdgeType.t) (s t : string) : VPGEdge := mkEdge (s +:+ ">" +:+ t) "g" ty s t 1 "p" 0.
Definition vp_kernel : KernelEventProvider :=
  mkKernelFacts (fun a => if String.eqb a "act" then Some (mkActionInfo "p" "committed") else None).

Definition vp_nodes : dict AnyNode :=
  [vp_task "a"; vp_artifact "x" "uri" 2; vp_verification "v"; vp_evidence "e" "v" [vp_binding "uri" 2]].
Definition vp_edges : list VPGEdge :=
  [vp_edge EdgeType.PRODUCES "a" "x"; vp_edge EdgeType.VERIFIES "v" "a"; vp_edge EdgeType.PRODUCES "v" "e"].

Lemma vp_nodes_ok : nodes_ok vp_nodes.
Proof.
  split; [apply (bool_decide_unpack (NoDup vp_nodes.*1)); vm_compute; exact I|].
  intros k n Hin. unfold vp_nodes in Hin. rewrite !elem_of_cons, elem_of_nil in Hin.
  by destruct Hin as [[= -> ->]|[[= -> ->]|[[= -> ->]|[[= -> ->]|[]]]]].
Qed.
Lemma vp_well_attached : well_attached vp_nodes vp_edges.
Proof.
  split.
  - intros vid id ev (e & He & Hty & <- & <-)%targets_elem. unfold vp_edges in He.
    rewrite !elem_of_cons, elem_of_nil in He. destruct He as [->|[->|[->|[]]]]; cbn in *; try done. by intros [= <-].
  - intros vid. unfold targets, vp_edges. rewrite !filter_cons, filter_nil. cbn. repeat case_decide; cbn; lia || naive_solver.
Qed.
Lemma verified_task_attested_witness :
  task_is_verified None (Some vp_kernel) (mkTask (vp_base "a" NodeLifecycle.ADMITTED NodeValidity.UNVERIFIED) "" "" "" [] 1)
    vp_nodes vp_edges None None = true /\
  exists vids, NoDup vids /\ 1 <= Z.of_nat (length vids) /\ Forall (attests None (Some vp_kernel) vp_nodes vp_edges "a") vids.
Proof.
  split; [vm_compute; reflexivity|].
  refine (proj1 (verified_task_attested None (Some vp_kernel) "a"
    (mkTask (vp_base "a" NodeLifecycle.ADMITTED NodeValidity.UNVERIFIED) "" "" "" [] 1) vp_nodes vp_edges
    vp_nodes_ok vp_well_attached _ _ _)).
  - apply (bool_decide_unpack (NoDup (sources EdgeType.VERIFIES vp_edges "a"))); vm_compute; exact I.
  - vm_compute; reflexivity.
  - vm_compute; reflexivity.
Defined.

(** Evidence is checked against the verification it names, not the one it is
    found through.  Evidence for task "b", also attached to a verification of
    task "a", makes "a" verified although it says nothing about what "a" pins. *)
Lemma foreign_evidence_verifies :
  let nodes := [vp_task "a"; vp_artifact "x" "uri-a" 7; vp_verification "va";
                vp_task "b"; vp_verification "vb"; vp_evidence "e" "vb" []] in
  let edges := [vp_edge EdgeType.PRODUCES "a" "x"; vp_edge EdgeType.VERIFIES "va" "a"; vp_edge EdgeType.VERIFIES "vb" "b";
                vp_edge EdgeType.PRODUCES "vb" "e"; vp_edge EdgeType.PRODUCES "va" "e"] in
  task_is_verified None (Some vp_kernel)
    (mkTask (vp_base "a" NodeLifecycle.ADMITTED NodeValidity.UNVERIFIED) "" "" "" [] 1) nodes edges None None = true /\
  evidence_versions (vp_evidence_node "e" "vb" []) <> _task_current_artifact_versions "a" nodes edges.
Proof. split; [vm_compute; reflexivity|]. apply (bool_decide_unpack (_ <> _)). vm_compute. exact I. Qed.

(** Two edges from one verification count as two verifications. *)
Lemma doubled_edge_counts_twice :
  let t := mkTask (vp_base "a" NodeLifecycle.ADMITTED NodeValidity.UNVERIFIED) "" "" "" [] 2 in
  let nodes := [("a", NTask t); vp_verification "v"; vp_evidence "e" "v" []] in
  let one := [vp_edge EdgeType.VERIFIES "v" "a"; vp_edge EdgeType.PRODUCES "v" "e"] in
  task_is_verified None (Some vp_kernel) t nodes one None None = false /\
  task_is_verified None (Some vp_kernel) t nodes (mkEdge "again" "g" EdgeType.VERIFIES "v" "a" 1 "p" 0 :: one) None None = true.
Proof. split; vm_compute; reflexivity. Qed.
