(* ===== verification/Patches.v ===== *)
(** * Graph patches, events and node admission
    (runtimes/verified_progress/patches.py, events.py, admission.py)

    A patch is a list of operations that is applied whole or not at all.  Values
    in specifications and metadata are JSON, so none of them is callable. *)

From Stdlib Require Import Ascii.
From S2P Require Import Prelude PyString VpgModels Readiness Verification.
Open Scope Z_scope.

(** ** Operations *)

Record AddNodeOp : Type := mkAddNode {
  an_node_id : string;
  an_graph_id : string;
  an_node_type : string;
  an_created_by_pid : string;
  an_metadata : jobj;
  an_title : string;
  an_description : string;
  an_task_kind : string;
  an_execution_spec : jobj;
  an_required_verification_count : Z;
  an_canonical_uri : string;
  an_artifact_id : string;
  an_version : option Z;
  an_content_hash : string;
  an_media_type : string;
  an_verification_kind : string;
  an_obligation : jobj;
  an_source_action_id : option string;
  an_evidence_kind : string;
  an_result : string;
  an_source_verification_id : option string;
  an_evidence_source_action_id : option string;
  an_source_event_ids : list string;
  an_artifact_bindings : list ArtifactVersionBinding;
  an_evidence_content_ref : option ArtifactVersionBinding;
  an_evidence_hash : string;
  an_produced_by_pid : string;
  an_claim_id : option string;
  an_attempt_id : option string;
  an_semantic_epoch : option Z;
  an_lease_fencing_token : option Z;
  an_provenance_digest : option string;
  an_context_snapshot_id : option string;
  an_context_manifest_id : option string;
  an_context_manifest_hash : option string;
  an_context_working_set_hash : option string;
  an_context_materialized_hash : option string }.

Record AddEdgeOp : Type := mkAddEdge {
  ae_edge_id : string;
  ae_edge_type : string;
  ae_source_node_id : string;
  ae_target_node_id : string;
  ae_created_by_pid : string }.

Record AttachArtifactOp : Type := mkAttachArtifact {
  aa_task_node_id : string;
  aa_artifact : ArtifactVersionBinding;
  aa_created_by_pid : string;
  aa_edge_id : string }.

Record AttachEvidenceOp : Type := mkAttachEvidence {
  av_verification_node_id : string;
  av_evidence_node_id : string;
  av_created_by_pid : string;
  av_edge_id : string }.

Inductive PatchOperation : Type :=
| OAddNode (op : AddNodeOp)
| OAddEdge (op : AddEdgeOp)
| OAttachArtifact (op : AttachArtifactOp)
| OAttachEvidence (op : AttachEvidenceOp).

Record GraphPatchProposal : Type := mkPatch {
  patch_id : string;
  patch_graph_id : string;
  expected_graph_version : Z;
  author_pid : string;
  operations : list PatchOperation;
  patch_reason : string;
  causation_ids : list string;
  idempotency_key : string;
  patch_created_at : Z }.
Definition composite_key (p : GraphPatchProposal) : string * string * string :=
  (author_pid p, patch_graph_id p, idempotency_key p).

Record PatchCommitResult : Type := mkCommitResult {
  cr_graph_id : string;
  cr_patch_id : string;
  committed_graph_version : Z;
  patch_applied : bool;
  is_replay : bool }.

(** *** Field validators of [AddNodeOp] *)

Definition hex_digits : list ascii := chars "0123456789abcdef".
Definition _provenance_digest_is_sha256 (value : option string) : result (option string) :=
  match value with
  | None => Ok None
  | Some v =>
      let normalized := lower (strip v) in
      if bool_decide (length (chars normalized) = 64%nat) && forallb (fun c => bool_decide (c ∈ hex_digits)) (chars normalized)
      then Ok (Some normalized)
      else Raise (ValidationError "provenance_digest must be a 64-character SHA-256 hex digest")
  end.

Definition forbidden_keys : list string := ["callback"; "callable"; "fn"; "function"; "lambda_code"; "exec"].
Definition forbidden_key (key : string) : bool := bool_decide (lower key ∈ forbidden_keys).
Definition host_path (val : json) : bool :=
  match val with JStr s => startswith "/" (strip s) | _ => false end.
Definition _execution_spec_no_secrets (v : jobj) : result jobj :=
  if existsb forbidden_key v.*1 then Raise (ValidationError "execution_spec key is forbidden")
  else if existsb host_path v.*2 then Raise (ValidationError "execution_spec may not contain host absolute paths")
  else Ok v.

(** ** Events *)

Module GraphEventType.
Inductive t : Type :=
| GRAPH_CREATED | GRAPH_PATCH_ACCEPTED | GRAPH_PATCH_REJECTED | GRAPH_VERSION_COMMITTED | GRAPH_CLOSED
| NODE_ADDED | NODE_ADMITTED | NODE_INVALID | EDGE_ADDED | ARTIFACT_ATTACHED | EVIDENCE_ATTACHED
| EXECUTION_ATTEMPT_OBSERVED
| TASK_VERIFIED_DERIVED | TASK_STALE_DERIVED | TASK_CLOSED_DERIVED | TASK_REOPENED_DERIVED
| GOAL_CLOSED_DERIVED | GOAL_REOPENED_DERIVED | READY_FRONTIER_UPDATED
| GRAPH_RECOVERY_STARTED | GRAPH_RECOVERY_COMPLETED | GRAPH_RECOVERY_FAILED.
#[global] Instance t_eq_dec : EqDecision t.
Proof. solve_decision. Defined.
End GraphEventType.

(** An event without its random [event_id] and its wall-clock [recorded_at]; the
    fields no modelled producer sets are left out. *)
Record GraphEvent : Type := mkEvent {
  ge_graph_id : string;
  ge_event_type : GraphEventType.t;
  ge_causation_patch_id : option string;
  ge_subject_id : option string;
  ge_subject_kind : option string;
  ge_node_id : option string;
  to_lifecycle : option string;
  to_validity : option string;
  ge_ready_frontier : list string;
  ready_frontier_count : option Z;
  ge_ready_frontier_hash : option string;
  ge_graph_version : option Z }.

Definition lifecycle_value (l : NodeLifecycle.t) : string :=
  match l with
  | NodeLifecycle.PROPOSED => "proposed" | NodeLifecycle.ADMITTED => "admitted"
  | NodeLifecycle.ACTIVE => "active" | NodeLifecycle.CLOSED => "closed"
  end.

(** ** Admission *)

Definition set_base (f : VPGNode -> VPGNode) (n : AnyNode) : AnyNode :=
  match n with
  | NGoal g => NGoal (mkGoal (f (goal_base g)) (goal_title g) (goal_description g))
  | NTask t => NTask (mkTask (f (task_base t)) (task_title t) (task_description t) (task_kind t)
                        (execution_spec t) (required_verification_count t))
  | NArtifactRef a => NArtifactRef (mkArtifactRef (f (aref_base a)) (aref_binding a))
  | NVerification v => NVerification (mkVerification (f (verif_base v)) (verification_kind v) (obligation v)
                                        (verif_source_action_id v))
  | NEvidence e => NEvidence (mkEvidence (f (evid_base e)) (evidence_kind e) (evid_result e) (source_verification_id e)
      (source_action_id e) (source_event_ids e) (artifact_bindings e) (evidence_content_ref e) (evidence_hash e)
      (produced_by_pid e) (evid_claim_id e) (evid_attempt_id e) (semantic_epoch e) (lease_fencing_token e)
      (provenance_digest e) (context_snapshot_id e) (context_manifest_id e) (context_manifest_hash e)
      (context_working_set_hash e) (context_materialized_hash e) (produced_at e))
  end.
Definition with_status (l : NodeLifecycle.t) (v : NodeValidity.t) (b : VPGNode) : VPGNode :=
  mkNode (node_id b) (node_graph_id b) l v (created_in_version b) (updated_in_version b)
    (created_by_pid b) (created_at b) (metadata b).

Fixpoint _check_task_execution_spec (spec : jobj) : option string :=
  match spec with
  | [] => None
  | (key, val) :: rest =>
      if forbidden_key key then Some ("execution_spec key '" +:+ key +:+ "' forbidden")
      else if host_path val then Some "execution_spec contains host path"
      else _check_task_execution_spec rest
  end.

Definition empty_str (s : string) : bool := String.eqb s "".
Definition when (b : bool) (msg : string) : list string := if b then [msg] else [].

(** The messages of the type-specific checks. *)
Definition node_problems (node : AnyNode) : list string :=
  match node with
  | NGoal g => when (empty_str (goal_title g)) "GoalNode.title required"
  | NTask t =>
      match _check_task_execution_spec (execution_spec t) with Some err => [err] | None => [] end ++
      when (bool_decide (required_verification_count t < 1)) "TaskNode.required_verification_count must be >= 1"
  | NArtifactRef a =>
      let b := aref_binding a in
      when (empty_str (b_canonical_uri b) || empty_str (b_artifact_id b) || empty_str (b_content_hash b))
        "ArtifactRefNode requires canonical_uri/artifact_id/content_hash" ++
      when (bool_decide (b_version b < 0)) "ArtifactRefNode.version must be set"
  | NVerification v => when (empty_str (verification_kind v)) "VerificationNode.verification_kind required"
  | NEvidence e => when (falsy_id (source_action_id e)) "EvidenceNode.source_action_id required"
  end.

Record AdmissionResult : Type := mkAdmission { adm_node : AnyNode; admitted : bool; adm_messages : list string }.
(** [admit] mutates the node it is given and returns it. *)
Definition admit_node (node : AnyNode) (graph_id : string) : AdmissionResult :=
  let b := base node in
  let msgs :=
    when (negb (String.eqb (node_graph_id b) graph_id))
      ("node.graph_id=" +:+ node_graph_id b +:+ " != graph_id=" +:+ graph_id) ++
    when (negb (bool_decide (lifecycle b = NodeLifecycle.PROPOSED)))
      ("fresh nodes must be PROPOSED, got " +:+ lifecycle_value (lifecycle b)) ++
    when (negb (bool_decide (validity b = NodeValidity.UNVERIFIED)))
      ("fresh nodes must be UNVERIFIED, got " +:+ NodeValidity.value (validity b)) ++
    node_problems node in
  match msgs with
  | [] => mkAdmission (set_base (with_status NodeLifecycle.ADMITTED NodeValidity.UNVERIFIED) node) true []
  | _ => mkAdmission (set_base (fun b => with_status (lifecycle b) NodeValidity.INVALID b) node) false msgs
  end.

(** ** Facts *)

Lemma base_set_base f n : base (set_base f n) = f (base n).
Proof. by destruct n. Qed.
