(* ===== verification/PatchValidator.v ===== *)
(** * Patch validation (runtimes/verified_progress/patch_validator.py)

    [validate_patch] runs a patch's operations over a candidate copy of the graph
    and returns the candidate, or raises with nothing changed. *)

From Stdlib Require Import Ascii.
From S2P Require Import Prelude PyString Graph VpgModels Dag Readiness Verification Patches.
Open Scope Z_scope.

Definition MAX_PATCH_OPS : Z := 500.

Record PatchValidationRequest : Type := mkRequest {
  req_patch : GraphPatchProposal;
  current_nodes : dict AnyNode;
  current_edges : list VPGEdge;
  facts_artifact : option ArtifactFactProvider;
  facts_kernel : option KernelEventProvider;
  allow_empty_operations : bool;
  allow_large_operations : bool }.

(** The result object while it is filled, with the loop's working variables. *)
Record Candidate : Type := mkCandidateState {
  cand_nodes : dict AnyNode;
  cand_edges : list VPGEdge;
  cand_edge_ids : gset string;
  pending_dep_edges : list VPGEdge;
  new_nodes : dict AnyNode;
  new_edges : list VPGEdge;
  admitted_nodes : dict AnyNode;
  events : list GraphEvent }.

Definition vpg_raise {A} (c : VPGCode.t) : result A := Raise (vpg_error c).

(** [EdgeType(s)] and [EvidenceResult(s)] *)
Definition edge_type_of (s : string) : result EdgeType.t :=
  if String.eqb s "depends_on" then Ok EdgeType.DEPENDS_ON
  else if String.eqb s "produces" then Ok EdgeType.PRODUCES
  else if String.eqb s "verifies" then Ok EdgeType.VERIFIES
  else Raise (ValueError "is not a valid EdgeType").
Definition evidence_result_of (s : string) : result EvidenceResult.t :=
  if String.eqb s "pass" then Ok EvidenceResult.PASS
  else if String.eqb s "fail" then Ok EvidenceResult.FAIL
  else if String.eqb s "inconclusive" then Ok EvidenceResult.INCONCLUSIVE
  else Raise (ValueError "is not a valid EvidenceResult").

Definition _build_add_node (op : AddNodeOp) (graph_id : string) (version : Z) (now : Z) : result AnyNode :=
  let b := mkNode (an_node_id op) graph_id NodeLifecycle.PROPOSED NodeValidity.UNVERIFIED version version
             (an_created_by_pid op) now (an_metadata op) in
  if String.eqb (an_node_type op) "goal" then Ok (NGoal (mkGoal b (an_title op) (an_description op)))
  else if String.eqb (an_node_type op) "task" then
    Ok (NTask (mkTask b (an_title op) (an_description op) (an_task_kind op) (an_execution_spec op)
                 (an_required_verification_count op)))
  else if String.eqb (an_node_type op) "artifact_ref" then
    Ok (NArtifactRef (mkArtifactRef b (mkBinding (an_canonical_uri op) (an_artifact_id op) (default (-1) (an_version op))
                                         (an_content_hash op) (an_media_type op))))
  else if String.eqb (an_node_type op) "verification" then
    Ok (NVerification (mkVerification b (an_verification_kind op) (an_obligation op) (an_source_action_id op)))
  else if String.eqb (an_node_type op) "evidence" then
    r ← evidence_result_of (an_result op);
    digest ← _provenance_digest_is_sha256 (an_provenance_digest op);
    Ok (NEvidence (mkEvidence b (an_evidence_kind op) r (an_source_verification_id op) (an_evidence_source_action_id op)
      (an_source_event_ids op) (an_artifact_bindings op) (an_evidence_content_ref op) (an_evidence_hash op)
      (an_produced_by_pid op) (an_claim_id op) (an_attempt_id op) (an_semantic_epoch op) (an_lease_fencing_token op)
      digest (an_context_snapshot_id op) (an_context_manifest_id op) (an_context_manifest_hash op)
      (an_context_working_set_hash op) (an_context_materialized_hash op) now))
  else vpg_raise VPGCode.INVALID_NODE_TYPE.

Definition is_goal_or_task (n : option AnyNode) : bool :=
  match n with Some (NGoal _) | Some (NTask _) => true | _ => false end.
Definition is_task_node (n : option AnyNode) : bool := match n with Some (NTask _) => true | _ => false end.
Definition is_artifact (n : option AnyNode) : bool := match n with Some (NArtifactRef _) => true | _ => false end.
Definition is_verification (n : option AnyNode) : bool := match n with Some (NVerification _) => true | _ => false end.
Definition is_evidence (n : option AnyNode) : bool := match n with Some (NEvidence _) => true | _ => false end.

Definition _check_edge_type_combination (e : VPGEdge) (nodes : dict AnyNode) : result unit :=
  let src := dict_get (source_node_id e) nodes in
  let tgt := dict_get (target_node_id e) nodes in
  let bad := vpg_raise VPGCode.INVALID_EDGE_TYPE_COMBINATION in
  match edge_type e with
  | EdgeType.DEPENDS_ON =>
      if negb (is_goal_or_task src) then bad else if negb (is_task_node tgt) then bad else Ok tt
  | EdgeType.PRODUCES =>
      if negb ((is_task_node src && is_artifact tgt) || (is_verification src && is_evidence tgt)) then bad else Ok tt
  | EdgeType.VERIFIES =>
      if negb (is_verification src) then bad else if negb (is_task_node tgt) then bad else Ok tt
  end.

(** [f"{task_id}::{binding.canonical_uri}@{binding.version}"] *)
Definition artifact_node_id (task_id : string) (b : ArtifactVersionBinding) : string :=
  task_id +:+ "::" +:+ b_canonical_uri b +:+ "@" +:+ pretty (b_version b).
Definition _attach_artifact_produces (task_id task_pid : string) (b : ArtifactVersionBinding) (graph_id : string)
    (version : Z) (eid : string) (now : Z) : ArtifactRefNode * VPGEdge :=
  let nid := artifact_node_id task_id b in
  (mkArtifactRef (mkNode nid graph_id NodeLifecycle.ADMITTED NodeValidity.UNVERIFIED version version task_pid now []) b,
   mkEdge eid graph_id EdgeType.PRODUCES task_id nid version task_pid now).

Definition _validate_artifact_binding_against_sdk (b : ArtifactVersionBinding) (pid : string)
    (facts : option ArtifactFactProvider) : result unit :=
  match facts with
  | None => Ok tt
  | Some f =>
      if negb (artifact_exists f pid (b_canonical_uri b) (b_version b)) then vpg_raise VPGCode.ARTIFACT_NOT_FOUND
      else if negb (verify_binding f pid b) then vpg_raise VPGCode.ARTIFACT_HASH_MISMATCH
      else Ok tt
  end.

Section Validate.
Context (req : PatchValidationRequest) (now : Z).
Let patch := req_patch req.
Let graph_id := patch_graph_id patch.
Let proposed_version := expected_graph_version patch + 1.

Definition patch_event (ty : GraphEventType.t) (subject kind : string) (node : option string)
    (lc vd : option string) : GraphEvent :=
  mkEvent graph_id ty (Some (patch_id patch)) (Some subject) (Some kind) node lc vd [] None None (Some proposed_version).

(** [if op.edge_id in cand_edge_ids: raise] *)
Definition check_edge_id (eid : string) (c : Candidate) : result unit :=
  if decide (eid ∈ cand_edge_ids c) then vpg_raise VPGCode.EDGE_ALREADY_EXISTS else Ok tt.

Definition apply_add_node (op : AddNodeOp) (c : Candidate) : result Candidate :=
  if negb (String.eqb (an_graph_id op) graph_id) then vpg_raise VPGCode.EDGE_CROSS_GRAPH
  else if decide (is_Some (dict_get (an_node_id op) (cand_nodes c))) then vpg_raise VPGCode.NODE_ALREADY_EXISTS
  else
    node ← _build_add_node op graph_id proposed_version now;
    let admission := admit_node node graph_id in
    if negb (admitted admission) then vpg_raise VPGCode.PATCH_REJECTED
    else
      let node := adm_node admission in
      let id := node_id (base node) in
      let event ty := patch_event ty id "node" (Some id) (Some (lifecycle_value (lifecycle (base node))))
                        (Some (NodeValidity.value (validity (base node)))) in
      Ok (mkCandidateState (dict_set id node (cand_nodes c)) (cand_edges c) (cand_edge_ids c) (pending_dep_edges c)
            (dict_set id node (new_nodes c)) (new_edges c) (dict_set id node (admitted_nodes c))
            (events c ++ [event GraphEventType.NODE_ADDED; event GraphEventType.NODE_ADMITTED])).

(** [cand_edges.append(e); cand_edge_ids.add(...); res.new_edges.append(e); res.events.append(ev)] *)
Definition push_edge (e : VPGEdge) (ev : GraphEvent) (c : Candidate) : Candidate :=
  mkCandidateState (cand_nodes c) (cand_edges c ++ [e]) ({[ edge_id e ]} ∪ cand_edge_ids c) (pending_dep_edges c)
    (new_nodes c) (new_edges c ++ [e]) (admitted_nodes c) (events c ++ [ev]).
Definition push_pending (e : VPGEdge) (c : Candidate) : Candidate :=
  if decide (edge_type e = EdgeType.DEPENDS_ON)
  then mkCandidateState (cand_nodes c) (cand_edges c) (cand_edge_ids c) (pending_dep_edges c ++ [e])
         (new_nodes c) (new_edges c) (admitted_nodes c) (events c)
  else c.

Definition apply_add_edge (op : AddEdgeOp) (c : Candidate) : result Candidate :=
  match dict_get (ae_source_node_id op) (cand_nodes c), dict_get (ae_target_node_id op) (cand_nodes c) with
  | None, _ => vpg_raise VPGCode.EDGE_SOURCE_NOT_FOUND
  | Some _, None => vpg_raise VPGCode.EDGE_TARGET_NOT_FOUND
  | Some src, Some tgt =>
      if negb (String.eqb (node_graph_id (base src)) graph_id) || negb (String.eqb (node_graph_id (base tgt)) graph_id)
      then vpg_raise VPGCode.EDGE_CROSS_GRAPH
      else
        _ ← check_edge_id (ae_edge_id op) c;
        ty ← edge_type_of (ae_edge_type op);
        let new_edge := mkEdge (ae_edge_id op) graph_id ty (ae_source_node_id op) (ae_target_node_id op)
                          proposed_version (ae_created_by_pid op) now in
        if is_self_loop new_edge then vpg_raise VPGCode.GRAPH_EXECUTION_CYCLE
        else
          _ ← _check_edge_type_combination new_edge (cand_nodes c);
          Ok (push_edge new_edge (patch_event GraphEventType.EDGE_ADDED (edge_id new_edge) "edge" None None None)
                (push_pending new_edge c))
  end.

Definition apply_attach_artifact (op : AttachArtifactOp) (c : Candidate) : result Candidate :=
  match dict_get (aa_task_node_id op) (cand_nodes c) with
  | Some (NTask _) =>
      let binding := aa_artifact op in
      _ ← _validate_artifact_binding_against_sdk binding (aa_created_by_pid op) (facts_artifact req);
      let '(art, e) := _attach_artifact_produces (aa_task_node_id op) (aa_created_by_pid op) binding graph_id
                         proposed_version (aa_edge_id op) now in
      _ ← check_edge_id (aa_edge_id op) c;
      let id := node_id (aref_base art) in
      Ok (push_edge e
            (patch_event GraphEventType.ARTIFACT_ATTACHED id "artifact" (Some id)
               (Some (lifecycle_value (lifecycle (aref_base art)))) None)
            (mkCandidateState (dict_set id (NArtifactRef art) (cand_nodes c)) (cand_edges c) (cand_edge_ids c)
               (pending_dep_edges c) (dict_set id (NArtifactRef art) (new_nodes c)) (new_edges c) (admitted_nodes c)
               (events c)))
  | _ => vpg_raise VPGCode.NODE_NOT_FOUND
  end.

(** The evidence is validated again here, but the outcome is not used. *)
Definition apply_attach_evidence (op : AttachEvidenceOp) (c : Candidate) : result Candidate :=
  match verification_at (cand_nodes c) (av_verification_node_id op), evidence_at (cand_nodes c) (av_evidence_node_id op) with
  | Some verification, Some evidence =>
      let e := mkEdge (av_edge_id op) graph_id EdgeType.PRODUCES (node_id (verif_base verification))
                 (node_id (evid_base evidence)) proposed_version (av_created_by_pid op) now in
      _ ← check_edge_id (av_edge_id op) c;
      Ok (push_edge e (patch_event GraphEventType.EVIDENCE_ATTACHED (node_id (evid_base evidence)) "evidence" None None None) c)
  | _, _ => vpg_raise VPGCode.NODE_NOT_FOUND
  end.

Definition apply_op (op : PatchOperation) (c : Candidate) : result Candidate :=
  match op with
  | OAddNode op => apply_add_node op c
  | OAddEdge op => apply_add_edge op c
  | OAttachArtifact op => apply_attach_artifact op c
  | OAttachEvidence op => apply_attach_evidence op c
  end.
Fixpoint apply_ops (ops : list PatchOperation) (c : Candidate) : result Candidate :=
  match ops with
  | [] => Ok c
  | op :: ops' => c' ← apply_op op c; apply_ops ops' c'
  end.

Definition baseline : Candidate :=
  mkCandidateState (current_nodes req) (current_edges req) (list_to_set (edge_id <$> current_edges req)) [] [] [] [] [].

Definition validate_patch `{SetOrder} : result Candidate :=
  if bool_decide (operations patch = []) && negb (allow_empty_operations req) then vpg_raise VPGCode.PATCH_EMPTY
  else if bool_decide (MAX_PATCH_OPS < Z.of_nat (length (operations patch))) && negb (allow_large_operations req)
  then vpg_raise VPGCode.PATCH_TOO_LARGE
  else
    c ← apply_ops (operations patch) baseline;
    cycle ← detect_cycle (current_edges req) (pending_dep_edges c);
    match cycle with
    | Some path => if bool_decide (1 < Z.of_nat (length path)) then vpg_raise VPGCode.GRAPH_EXECUTION_CYCLE else Ok c
    | None => Ok c
    end.
End Validate.
