(* ===== verification/PatchProps.v ===== *)
(** * Theorems on patch validation

    The type discipline of the graph (which kinds of node an edge may join), its
    preservation by patches, what a patch can and cannot change, and when it is
    rejected for a cycle. *)

From S2P Require Import Prelude PyString Graph VpgModels Dag Readiness ReadinessProps Verification VerificationProps Patches PatchValidator.
Open Scope Z_scope.

(** ** Kinds and typed edges *)

Inductive kind : Type := KGoal | KTask | KArtifact | KVerification | KEvidence.
Definition kind_of (n : AnyNode) : kind :=
  match n with
  | NGoal _ => KGoal | NTask _ => KTask | NArtifactRef _ => KArtifact
  | NVerification _ => KVerification | NEvidence _ => KEvidence
  end.
Definition kind_at (nodes : dict AnyNode) (id : string) : option kind := kind_of <$> dict_get id nodes.

(** The edges the graph language has. *)
Inductive joins : EdgeType.t -> kind -> kind -> Prop :=
| goal_needs_task : joins EdgeType.DEPENDS_ON KGoal KTask
| task_needs_task : joins EdgeType.DEPENDS_ON KTask KTask
| task_makes_artifact : joins EdgeType.PRODUCES KTask KArtifact
| verification_makes_evidence : joins EdgeType.PRODUCES KVerification KEvidence
| verification_checks_task : joins EdgeType.VERIFIES KVerification KTask.
Definition edge_typed (nodes : dict AnyNode) (e : VPGEdge) : Prop :=
  exists k1 k2, kind_at nodes (source_node_id e) = Some k1 /\ kind_at nodes (target_node_id e) = Some k2 /\
    joins (edge_type e) k1 k2.

(** A well-formed graph. *)
Record graph_ok (g : string) (nodes : dict AnyNode) (edges : list VPGEdge) : Prop := {
  gok_nodes : nodes_ok nodes;
  gok_owner : Forall (fun kn => node_graph_id (base kn.2) = g) nodes;
  gok_edge_ids : NoDup (edge_id <$> edges);
  gok_edge_owner : Forall (fun e => edge_graph_id e = g) edges;
  gok_typed : Forall (edge_typed nodes) edges;
  gok_acyclic : ~ cyclic (depends_on edges) }.

Lemma combination_typed e nodes :
  _check_edge_type_combination e nodes = Ok tt <-> edge_typed nodes e.
Proof.
  unfold _check_edge_type_combination, edge_typed, kind_at.
  destruct (dict_get (source_node_id e) nodes) as [src|], (dict_get (target_node_id e) nodes) as [tgt|];
    destruct (edge_type e); try destruct src; try destruct tgt; cbn;
    (split; [intros H1; try done; eexists _, _; repeat split; constructor
            |intros (k1 & k2 & E1 & E2 & H1); simplify_eq; try done; inversion H1]).
Qed.
Lemma combination_unit e nodes u : _check_edge_type_combination e nodes = Ok u -> edge_typed nodes e.
Proof. destruct u. apply combination_typed. Qed.

(** Typing depends on the kinds alone. *)
Lemma edge_typed_mono nodes nodes' e :
  (forall id k, kind_at nodes id = Some k -> kind_at nodes' id = Some k) -> edge_typed nodes e -> edge_typed nodes' e.
Proof. intros Hk (k1 & k2 & H1 & H2 & Hj). exists k1, k2. auto. Qed.
Lemma kind_at_set id n nodes id' :
  kind_at (dict_set id n nodes) id' = if decide (id' = id) then Some (kind_of n) else kind_at nodes id'.
Proof. unfold kind_at. rewrite dict_set_get. by case_decide. Qed.
Lemma kind_set_base f n : kind_of (set_base f n) = kind_of n.
Proof. by destruct n. Qed.

Lemma nodes_ok_set id n nodes : nodes_ok nodes -> node_id (base n) = id -> nodes_ok (dict_set id n nodes).
Proof.
  intros [Hd Hk] Hn. split; [by apply dict_set_ok|]. intros k m Hin.
  apply dict_get_Some in Hin; [|by apply dict_set_ok]. rewrite dict_set_get in Hin. case_decide as E.
  - by simplify_eq.
  - apply Hk. by apply dict_get_elem.
Qed.
Lemma owner_set g id n nodes :
  Forall (fun kn => node_graph_id (base kn.2) = g) nodes -> node_graph_id (base n) = g ->
  Forall (fun kn => node_graph_id (base kn.2) = g) (dict_set id n nodes).
Proof.
  intros Hf Hn. rewrite Forall_forall in Hf |- *. intros kn Hin. apply elem_of_tbl_upsert in Hin.
  destruct Hin as [Hin|[->|(kn0 & Hin & _ & ->)]]; [by apply Hf|done..].
Qed.

(** ** One operation *)

Lemma admit_node_spec n g : admitted (admit_node n g) = true ->
  adm_node (admit_node n g) = set_base (with_status NodeLifecycle.ADMITTED NodeValidity.UNVERIFIED) n /\
  node_graph_id (base n) = g.
Proof.
  unfold admit_node. case_match eqn:E; [|done]. intros _. split; [done|].
  apply app_nil in E as [E _]. unfold when in E. destruct (String.eqb_spec (node_graph_id (base n)) g); done.
Qed.
Lemma build_add_node_id op g v now n : _build_add_node op g v now = Ok n -> node_id (base n) = an_node_id op.
Proof.
  unfold _build_add_node. repeat (case_match; [by intros [= <-]|]). case_match; [|done].
  unfold mbind, result_bind. repeat (case_match; try done). by intros [= <-].
Qed.
Lemma build_add_node_artifact op g v now n :
  an_node_type op = "artifact_ref" -> _build_add_node op g v now = Ok n -> kind_of n = KArtifact.
Proof. unfold _build_add_node. intros ->. cbn. by intros [= <-]. Qed.

Section Ops.
Context (req : PatchValidationRequest) (now : Z).
Let g := patch_graph_id (req_patch req).

(** What every step of the loop maintains, whatever the patch. *)
Record progress (c : Candidate) : Prop := {
  pr_edges : cand_edges c = current_edges req ++ new_edges c;
  pr_ids : cand_edge_ids c = list_to_set (edge_id <$> cand_edges c);
  pr_pending : pending_dep_edges c = filter (fun e => edge_type e = EdgeType.DEPENDS_ON) (new_edges c);
  pr_kept id : dict_get id (new_nodes c) = None -> dict_get id (cand_nodes c) = dict_get id (current_nodes req);
  pr_new id n : dict_get id (new_nodes c) = Some n ->
    dict_get id (cand_nodes c) = Some n /\ node_id (base n) = id /\
    lifecycle (base n) = NodeLifecycle.ADMITTED /\ validity (base n) = NodeValidity.UNVERIFIED }.

Lemma baseline_progress : progress (baseline req).
Proof. split; cbn; [by rewrite app_nil_r|done..]. Qed.

Lemma push_edge_progress e ev c :
  progress c -> progress (push_edge e ev (push_pending e c)).
Proof.
  intros [H1 H2 H3 H4 H5]. unfold push_pending. split; unfold push_edge;
    destruct (decide (edge_type e = EdgeType.DEPENDS_ON)) as [Hd|Hd]; cbn; try done.
  - rewrite H1. by rewrite app_assoc.
  - rewrite H1. by rewrite app_assoc.
  - rewrite H2, fmap_app, list_to_set_app_L. cbn. set_solver.
  - rewrite H2, fmap_app, list_to_set_app_L. cbn. set_solver.
  - rewrite filter_app, H3, filter_cons, filter_nil. by rewrite decide_True.
  - rewrite filter_app, H3, filter_cons, filter_nil. rewrite decide_False by done. by rewrite app_nil_r.
Qed.
Lemma push_other_progress e ev c : edge_type e <> EdgeType.DEPENDS_ON -> progress c -> progress (push_edge e ev c).
Proof.
  intros He Hp. apply (push_edge_progress e ev) in Hp. unfold push_pending in Hp. by rewrite decide_False in Hp.
Qed.

Lemma progress_new_node c id n adm evs :
  progress c -> node_id (base n) = id ->
  lifecycle (base n) = NodeLifecycle.ADMITTED -> validity (base n) = NodeValidity.UNVERIFIED ->
  progress (mkCandidateState (dict_set id n (cand_nodes c)) (cand_edges c) (cand_edge_ids c) (pending_dep_edges c)
              (dict_set id n (new_nodes c)) (new_edges c) adm evs).
Proof.
  intros [H1 H2 H3 H4 H5] Hid Hl Hv.
  split; cbn [cand_nodes cand_edges cand_edge_ids pending_dep_edges new_nodes new_edges]; [done..| |].
  - intros id'. rewrite !dict_set_get. case_decide; [done|]. apply H4.
  - intros id' n'. rewrite !dict_set_get. case_decide as E; [|apply H5]. intros [= <-]. by rewrite E.
Qed.

Lemma apply_add_node_run op c c' :
  apply_add_node req now op c = Ok c' -> exists n0 n adm evs,
    _build_add_node op g (expected_graph_version (req_patch req) + 1) now = Ok n0 /\
    n = set_base (with_status NodeLifecycle.ADMITTED NodeValidity.UNVERIFIED) n0 /\
    dict_get (an_node_id op) (cand_nodes c) = None /\ node_id (base n) = an_node_id op /\ node_graph_id (base n) = g /\
    c' = mkCandidateState (dict_set (an_node_id op) n (cand_nodes c)) (cand_edges c) (cand_edge_ids c)
           (pending_dep_edges c) (dict_set (an_node_id op) n (new_nodes c)) (new_edges c) adm evs.
Proof.
  unfold apply_add_node. case_match; [done|]. case_decide as Hex; [done|]. unfold mbind, result_bind.
  destruct (_build_add_node _ _ _ _) as [n0|e] eqn:Eb; [|done].
  destruct (admitted (admit_node n0 _)) eqn:Ea; [|done]. apply admit_node_spec in Ea as [Hn Hg]. cbn [negb].
  intros [= <-]. pose proof (build_add_node_id _ _ _ _ _ Eb) as Hid.
  assert (node_id (base (set_base (with_status NodeLifecycle.ADMITTED NodeValidity.UNVERIFIED) n0)) = an_node_id op) as Hid'
    by (by rewrite base_set_base).
  eexists n0, _, _, _. rewrite Hn, Hid'. split_and!; [done|done| |done| |done].
  - apply eq_None_not_Some. exact Hex.
  - by rewrite base_set_base.
Qed.

Lemma check_edge_id_Ok eid c u : check_edge_id eid c = Ok u -> eid ∉ cand_edge_ids c.
Proof. unfold check_edge_id. by case_decide. Qed.

Lemma apply_add_edge_run op c c' :
  apply_add_edge req now op c = Ok c' -> exists e ev,
    c' = push_edge e ev (push_pending e c) /\ (edge_id e ∉ cand_edge_ids c) /\ edge_graph_id e = g /\
    edge_typed (cand_nodes c) e.
Proof.
  unfold apply_add_edge. destruct (dict_get _ _) as [src|]; [|done]. destruct (dict_get _ _) as [tgt|]; [|done].
  case_match; [done|]. unfold mbind, result_bind.
  destruct (check_edge_id _ _) as [u|] eqn:Eid; [|done]. destruct (edge_type_of _) as [ty|]; [|done].
  case_match; [done|]. destruct (_check_edge_type_combination _ _) as [u'|] eqn:Ec; [|done].
  intros [= <-]. eexists _, _. split; [done|]. split; [by apply check_edge_id_Ok in Eid|]. split; [done|].
  by apply combination_unit in Ec.
Qed.

(** The state after the artifact's node is written. *)
Definition with_artifact (art : ArtifactRefNode) (c : Candidate) : Candidate :=
  mkCandidateState (dict_set (node_id (aref_base art)) (NArtifactRef art) (cand_nodes c)) (cand_edges c) (cand_edge_ids c)
    (pending_dep_edges c) (dict_set (node_id (aref_base art)) (NArtifactRef art) (new_nodes c)) (new_edges c)
    (admitted_nodes c) (events c).
Lemma apply_attach_artifact_run op c c' :
  apply_attach_artifact req now op c = Ok c' -> exists art e ev,
    c' = push_edge e ev (with_artifact art c) /\ (edge_id e ∉ cand_edge_ids c) /\ edge_graph_id e = g /\
    edge_type e = EdgeType.PRODUCES /\ kind_at (cand_nodes c) (source_node_id e) = Some KTask /\
    target_node_id e = node_id (aref_base art) /\
    node_id (aref_base art) = artifact_node_id (aa_task_node_id op) (aa_artifact op) /\
    node_graph_id (aref_base art) = g /\ lifecycle (aref_base art) = NodeLifecycle.ADMITTED /\
    validity (aref_base art) = NodeValidity.UNVERIFIED.
Proof.
  unfold apply_attach_artifact. destruct (dict_get _ _) as [[|t| | |]|] eqn:Et; try done. unfold mbind, result_bind.
  destruct (_validate_artifact_binding_against_sdk _ _ _); [|done].
  destruct (_attach_artifact_produces _ _ _ _ _ _ _) as [art e] eqn:Ea. unfold _attach_artifact_produces in Ea.
  destruct (check_edge_id _ _) as [u|] eqn:Eid; [|done]. apply check_edge_id_Ok in Eid.
  intros [= <-]. injection Ea as <- <-. eexists _, _, _. split; [done|]. split_and!; try done.
  unfold kind_at. cbn. by rewrite Et.
Qed.
Lemma apply_attach_evidence_run op c c' :
  nodes_ok (cand_nodes c) -> apply_attach_evidence req now op c = Ok c' -> exists e ev,
    c' = push_edge e ev c /\ (edge_id e ∉ cand_edge_ids c) /\ edge_graph_id e = g /\ edge_type e = EdgeType.PRODUCES /\
    edge_typed (cand_nodes c) e.
Proof.
  intros [_ Hk]. unfold apply_attach_evidence, verification_at, evidence_at.
  destruct (dict_get (av_verification_node_id op) _) as [[| | |v|]|] eqn:Ev; try done.
  destruct (dict_get (av_evidence_node_id op) _) as [[| | | |n]|] eqn:En; try done. unfold mbind, result_bind.
  destruct (check_edge_id _ _) as [u|] eqn:Eid; [|done]. apply check_edge_id_Ok in Eid. intros [= <-].
  eexists _, _. split; [done|]. split_and!; try done. exists KVerification, KEvidence. unfold kind_at. cbn.
  pose proof (Hk _ _ (dict_get_elem _ _ _ Ev)) as Hv. pose proof (Hk _ _ (dict_get_elem _ _ _ En)) as He. cbn in Hv, He.
  rewrite Hv, He, Ev, En. split_and!; [done..|constructor].
Qed.

Lemma apply_op_progress op c c' : progress c -> apply_op req now op c = Ok c' -> progress c'.
Proof.
  intros Hp. destruct op as [op|op|op|op]; cbn [apply_op].
  - intros (n0 & n & adm & evs & _ & -> & _ & Hid & _ & ->)%apply_add_node_run.
    apply progress_new_node; [done..| |]; by rewrite base_set_base.
  - intros (e & ev & -> & _)%apply_add_edge_run. by apply push_edge_progress.
  - intros (art & e & ev & -> & _ & _ & Hty & _ & _ & _ & _ & Hl & Hv)%apply_attach_artifact_run.
    apply push_other_progress; [by rewrite Hty|]. by apply progress_new_node.
  - unfold apply_attach_evidence. case_match; [|done]. case_match; [|done]. unfold mbind, result_bind.
    case_match; [|done]. intros [= <-]. by apply push_other_progress.
Qed.
Lemma apply_ops_progress ops c c' : progress c -> apply_ops req now ops c = Ok c' -> progress c'.
Proof.
  revert c. induction ops as [|op ops IH]; intros c Hp; cbn [apply_ops]; [by intros [= <-]|].
  unfold mbind, result_bind. destruct (apply_op req now op c) as [c1|e] eqn:E; [|done].
  apply IH. by eapply apply_op_progress.
Qed.

(** ** Typing *)

(** No attached artifact takes the id of a node of another kind. *)
Definition attach_safe (ops : list PatchOperation) : Prop :=
  forall op, OAttachArtifact op ∈ ops ->
    let id := artifact_node_id (aa_task_node_id op) (aa_artifact op) in
    (forall k, kind_at (current_nodes req) id = Some k -> k = KArtifact) /\
    forall a, OAddNode a ∈ ops -> an_node_id a = id -> an_node_type a = "artifact_ref".

Record typed (ops : list PatchOperation) (c : Candidate) : Prop := {
  ty_progress : progress c;
  ty_nodes : nodes_ok (cand_nodes c);
  ty_owner : Forall (fun kn => node_graph_id (base kn.2) = g) (cand_nodes c);
  ty_edge_ids : NoDup (edge_id <$> cand_edges c);
  ty_edge_owner : Forall (fun e => edge_graph_id e = g) (cand_edges c);
  ty_edges : Forall (edge_typed (cand_nodes c)) (cand_edges c);
  ty_free op : OAttachArtifact op ∈ ops -> forall k,
    kind_at (cand_nodes c) (artifact_node_id (aa_task_node_id op) (aa_artifact op)) = Some k -> k = KArtifact }.

Lemma NoDup_snoc_id (es : list VPGEdge) (e : VPGEdge) :
  NoDup (edge_id <$> es) -> edge_id e ∉ (list_to_set (edge_id <$> es) : gset string) -> NoDup (edge_id <$> (es ++ [e])).
Proof.
  intros Hn He. rewrite fmap_app. apply NoDup_app. split_and!; [done| |apply NoDup_singleton].
  intros x Hx ->%list_elem_of_singleton. apply He. by apply elem_of_list_to_set.
Qed.
Lemma typed_push ops e ev c c0 :
  typed ops c -> progress (push_edge e ev c0) -> cand_nodes c0 = cand_nodes c -> cand_edges c0 = cand_edges c ->
  edge_id e ∉ cand_edge_ids c -> edge_graph_id e = g -> edge_typed (cand_nodes c) e -> typed ops (push_edge e ev c0).
Proof.
  intros [Hp H1 H2 H3 H4 H5 H6] Hp' En Ee Hid Hg Ht. rewrite (pr_ids c Hp) in Hid.
  split; cbn [push_edge cand_nodes cand_edges]; rewrite ?En, ?Ee; try done.
  - by apply NoDup_snoc_id.
  - apply Forall_app. split; [done|]. by repeat constructor.
  - apply Forall_app. split; [done|]. by repeat constructor.
Qed.

Lemma apply_op_typed ops op c c' :
  attach_safe ops -> op ∈ ops -> typed ops c -> apply_op req now op c = Ok c' -> typed ops c'.
Proof.
  intros Hsafe Hin Ht Happ. pose proof (apply_op_progress op c c' (ty_progress _ _ Ht) Happ) as Hp'.
  destruct op as [op|op|op|op]; cbn [apply_op] in Happ.
  - apply apply_add_node_run in Happ as (n0 & n & adm & evs & Hb & -> & Hfree & Hid & Hg & ->).
    destruct Ht as [Hp H1 H2 H3 H4 H5 H6]. split; cbn [cand_nodes cand_edges]; try done.
    + by apply nodes_ok_set.
    + by apply owner_set.
    + eapply Forall_impl; [exact H5|]. intros e. apply edge_typed_mono. intros id k. rewrite kind_at_set.
      case_decide as E; [|done]. unfold kind_at. by rewrite E, Hfree.
    + intros op' Hop' k. rewrite kind_at_set. case_decide as E; [|by apply H6]. intros [= <-].
      rewrite kind_set_base. eapply build_add_node_artifact; [|exact Hb].
      by apply (Hsafe op' Hop').
  - apply apply_add_edge_run in Happ as (e & ev & -> & Hid & Hg & Hty).
    apply (typed_push ops e ev c (push_pending e c)); try done; unfold push_pending; by case_decide.
  - apply apply_attach_artifact_run in Happ as (art & e & ev & -> & Hid & Hg & Hty & Hsrc & Htgt & Hart & Hown & Hl & Hv).
    assert (typed ops (with_artifact art c)) as Ht'.
    { destruct Ht as [Hp H1 H2 H3 H4 H5 H6]. split; cbn [with_artifact cand_nodes cand_edges]; try done.
      - by apply progress_new_node.
      - by apply nodes_ok_set.
      - by apply owner_set.
      - eapply Forall_impl; [exact H5|]. intros e'. apply edge_typed_mono. intros id k. rewrite kind_at_set.
        case_decide as E; [|done]. intros Hk. rewrite E, Hart in Hk. by rewrite (H6 op Hin k Hk).
      - intros op' Hop' k. rewrite kind_at_set. case_decide; [by intros [= <-]|by apply H6]. }
    eapply (typed_push ops e ev _ _ Ht'); try done. exists KTask, KArtifact. rewrite Htgt, Hty. cbn [with_artifact cand_nodes].
    split_and!; rewrite ?kind_at_set; [|by rewrite decide_True|constructor].
    case_decide as E; [|done]. exfalso. rewrite E, Hart in Hsrc. by pose proof (ty_free _ _ Ht op Hin KTask Hsrc).
  - apply apply_attach_evidence_run in Happ as (e & ev & -> & Hid & Hg & Hty & Htyped); [|apply Ht].
    by eapply typed_push.
Qed.
Lemma apply_ops_typed ops ops' c c' :
  attach_safe ops -> ops' ⊆ ops -> typed ops c -> apply_ops req now ops' c = Ok c' -> typed ops c'.
Proof.
  intros Hsafe. revert c. induction ops' as [|op ops' IH]; intros c Hsub Ht; cbn [apply_ops]; [by intros [= <-]|].
  unfold mbind, result_bind. destruct (apply_op req now op c) as [c1|e] eqn:E; [|done].
  apply IH; [set_solver|]. apply (apply_op_typed ops op c c1); [done|set_solver|done..].
Qed.

(** ** The cycle check *)

Lemma depends_on_filter edges n :
  depends_on (filter (fun e => edge_type e = EdgeType.DEPENDS_ON) edges) n = depends_on edges n.
Proof.
  unfold depends_on. rewrite filter_filter. f_equal. apply filter_ext_in. intros e _. tauto.
Qed.
Lemma pending_depends c n : progress c ->
  depends_on (current_edges req ++ pending_dep_edges c) n = depends_on (cand_edges c) n.
Proof.
  intros Hp. rewrite (pr_pending c Hp), (pr_edges c Hp), !depends_on_app. by rewrite depends_on_filter.
Qed.

Context `{SetOrder}.
(** Beyond its operations, a patch is refused exactly for a dependency cycle. *)
Lemma validate_patch_run c :
  validate_patch req now = Ok c <->
  (operations (req_patch req) <> [] \/ allow_empty_operations req = true) /\
  (Z.of_nat (length (operations (req_patch req))) <= MAX_PATCH_OPS \/ allow_large_operations req = true) /\
  apply_ops req now (operations (req_patch req)) (baseline req) = Ok c /\ ~ cyclic (depends_on (cand_edges c)).
Proof.
  unfold validate_patch. set (ops := operations (req_patch req)).
  destruct (decide (ops <> [] \/ allow_empty_operations req = true)) as [He|He]; cycle 1.
  { rewrite bool_decide_true by (destruct (decide (ops = [])); tauto).
    destruct (allow_empty_operations req); [tauto|]. cbn. split; [done|tauto]. }
  replace (bool_decide (ops = []) && negb (allow_empty_operations req)) with false; cycle 1.
  { symmetry. apply andb_false_iff. rewrite bool_decide_eq_false, negb_false_iff. tauto. }
  destruct (decide (Z.of_nat (length ops) <= MAX_PATCH_OPS \/ allow_large_operations req = true)) as [Hl|Hl]; cycle 1.
  { rewrite bool_decide_true by lia. destruct (allow_large_operations req); [tauto|]. cbn. split; [done|tauto]. }
  replace (bool_decide (MAX_PATCH_OPS < Z.of_nat (length ops)) && negb (allow_large_operations req)) with false; cycle 1.
  { symmetry. apply andb_false_iff. rewrite bool_decide_eq_false, negb_false_iff.
    destruct Hl as [Hl|Hl]; [left; lia|by right]. }
  unfold mbind, result_bind. destruct (apply_ops req now ops (baseline req)) as [c1|e] eqn:Ea; [|naive_solver].
  pose proof (apply_ops_progress _ _ _ (baseline_progress) Ea) as Hp.
  pose proof (detect_cycle_spec (current_edges req) (pending_dep_edges c1)) as Hd.
  assert (forall x y, edge (depends_on (current_edges req ++ pending_dep_edges c1)) x y <-> edge (depends_on (cand_edges c1)) x y)
    as Heq by (intros x y; unfold edge; by rewrite pending_depends).
  destruct (detect_cycle _ _) as [[p|]|e]; [| |done].
  - destruct Hd as (cy & x & -> & Hh & Hc). apply (is_cycle_iff _ _ cy Heq) in Hc.
    rewrite bool_decide_true by (rewrite length_app; destruct cy; cbn in *; [done|lia]).
    split; [done|]. intros (_ & _ & [= <-] & Hn). exfalso. apply Hn. by apply cycle_cyclic in Hc.
  - assert (~ cyclic (depends_on (cand_edges c1))) as Hn.
    { intros [x Hc]. apply Hd. exists x. by apply (tc_iff _ _ x x Heq). }
    split; [intros [= <-]; done|]. by intros (_ & _ & [= <-] & _).
Qed.
End Ops.

(** ** The theorems *)

Lemma validated_graph_ok `{SetOrder} req now c :
  graph_ok (patch_graph_id (req_patch req)) (current_nodes req) (current_edges req) ->
  attach_safe req (operations (req_patch req)) ->
  validate_patch req now = Ok c ->
  graph_ok (patch_graph_id (req_patch req)) (cand_nodes c) (cand_edges c).
Proof.
  intros Hg Hsafe (_ & _ & Hops & Hac)%validate_patch_run.
  assert (typed req (operations (req_patch req)) (baseline req)) as H0.
  { split; cbn [baseline cand_nodes cand_edges]; try apply Hg; [apply baseline_progress|].
    intros op Hop k. by apply (Hsafe op Hop). }
  destruct (apply_ops_typed req now _ _ _ _ Hsafe (reflexivity _) H0 Hops). by split.
Qed.

(** C28: a patch keeps the graph well typed.  From a well-formed graph (node and
    edge ids unique, edges only between the kinds of node the language allows, no
    dependency cycle, one owner graph), every accepted patch leads to a
    well-formed graph, provided no attached artifact takes the id of a node of
    another kind. *)
Theorem validate_patch_well_typed `{SetOrder} req now c :
  graph_ok (patch_graph_id (req_patch req)) (current_nodes req) (current_edges req) ->
  attach_safe req (operations (req_patch req)) ->
  validate_patch req now = Ok c ->
  graph_ok (patch_graph_id (req_patch req)) (cand_nodes c) (cand_edges c).
Proof. apply validated_graph_ok. Qed.

(** C36: a patch cannot declare anything verified.  Whatever its operations, the
    nodes an accepted patch writes are ADMITTED and UNVERIFIED, every other node
    is exactly as it was, edges are only added at the end, the guard on the number
    of operations was respected and the dependencies are acyclic. *)
Theorem accepted_patch_changes `{SetOrder} req now c :
  validate_patch req now = Ok c ->
  (allow_large_operations req = false -> Z.of_nat (length (operations (req_patch req))) <= MAX_PATCH_OPS) /\
  (forall id n, dict_get id (new_nodes c) = Some n ->
     dict_get id (cand_nodes c) = Some n /\ node_id (base n) = id /\
     lifecycle (base n) = NodeLifecycle.ADMITTED /\ validity (base n) = NodeValidity.UNVERIFIED) /\
  (forall id, dict_get id (new_nodes c) = None -> dict_get id (cand_nodes c) = dict_get id (current_nodes req)) /\
  cand_edges c = current_edges req ++ new_edges c /\ ~ cyclic (depends_on (cand_edges c)).
Proof.
  intros (_ & Hlen & Hops & Hac)%validate_patch_run.
  destruct (apply_ops_progress req now _ _ _ (baseline_progress req) Hops) as [H1 H2 H3 H4 H5].
  split; [|done]. intros Hl. destruct Hlen; congruence.
Qed.

(** ** Instances *)

Definition pp_patch (ops : list PatchOperation) : GraphPatchProposal := mkPatch "patch" "g" 1 "p" ops "" [] "key" 0.
Definition pp_request (nodes : dict AnyNode) (edges : list VPGEdge) (ops : list PatchOperation) : PatchValidationRequest :=
  mkRequest (pp_patch ops) nodes edges None None false false.
Definition pp_task (id : string) : PatchOperation :=
  OAddNode (mkAddNode id "g" "task" "p" [] "" "" "" [] 1 "" "" None "" "" "k" [] None "k" "inconclusive" None None [] []
    None "" "" None None None None None None None None None None).
Definition pp_edge (eid ty s t : string) : PatchOperation := OAddEdge (mkAddEdge eid ty s t "p").
Definition pp_attach (task uri : string) (v : Z) (eid : string) : PatchOperation :=
  OAttachArtifact (mkAttachArtifact task (vp_binding uri v) "p" eid).
Definition pp_ops : list PatchOperation :=
  [pp_task "b"; pp_edge "e1" "depends_on" "b" "a"; pp_attach "b" "uri" 1 "e2"].
Definition pp_demo : PatchValidationRequest := pp_request [vp_task "a"] [] pp_ops.
Definition pp_result : Candidate :=
  match @validate_patch pp_demo 5 elements_order with Ok c => c | Raise _ => baseline pp_demo end.

Lemma pp_demo_ok : graph_ok "g" [vp_task "a"] [].
Proof.
  split.
  - split; [apply NoDup_singleton|]. by intros k n [= -> ->]%list_elem_of_singleton.
  - by constructor.
  - constructor.
  - constructor.
  - constructor.
  - intros [x Hx]. assert (forall y z, ~ edge (depends_on []) y z) as Hno by (intros y z; unfold edge; cbn; set_solver).
    destruct Hx; by eapply Hno.
Qed.
Lemma pp_demo_safe : attach_safe pp_demo pp_ops.
Proof.
  intros op Hop. unfold pp_ops in Hop. rewrite !elem_of_cons, elem_of_nil in Hop.
  destruct Hop as [?|[?|[Hop|[]]]]; [done..|]. injection Hop as ->. cbn zeta. split.
  - intros k. unfold kind_at. vm_compute. done.
  - intros a Ha. unfold pp_ops in Ha. rewrite !elem_of_cons, elem_of_nil in Ha.
    destruct Ha as [Ha|[?|[?|[]]]]; [|done..]. injection Ha as ->. vm_compute. done.
Qed.
Lemma validate_patch_well_typed_witness : graph_ok "g" (cand_nodes pp_result) (cand_edges pp_result).
Proof.
  apply (@validate_patch_well_typed elements_order pp_demo 5); [exact pp_demo_ok|exact pp_demo_safe|].
  vm_compute. reflexivity.
Defined.
Lemma accepted_patch_changes_witness : ~ cyclic (depends_on (cand_edges pp_result)).
Proof.
  refine (proj2 (proj2 (proj2 (proj2 (@accepted_patch_changes elements_order pp_demo 5 pp_result _))))).
  vm_compute. reflexivity.
Defined.

(** The hypothesis of the typing theorem is needed: attaching an artifact
    overwrites whatever node has the composed id.  Here it replaces a VERIFIED
    task, and the dependency on it no longer joins two tasks. *)
Lemma attach_overwrites_task :
  let victim := ("t::u@1", NTask (mkTask (vp_base "t::u@1" NodeLifecycle.CLOSED NodeValidity.VERIFIED) "" "" "" [] 1)) in
  let req := pp_request [vp_task "t"; victim] [vp_edge EdgeType.DEPENDS_ON "t" "t::u@1"] [pp_attach "t" "u" 1 "e"] in
  match @validate_patch req 5 elements_order with
  | Ok c => kind_at (cand_nodes c) "t::u@1" = Some KArtifact /\
            ~ Forall (edge_typed (cand_nodes c)) (cand_edges c)
  | Raise _ => False
  end.
Proof.
  vm_compute. split; [reflexivity|]. intros [(k1 & k2 & _ & E & Hj) _]%Forall_cons. injection E as <-. inversion Hj.
Qed.
