(* ===== verification/Derivation.v ===== *)
(** * Derived state of the progress graph
    (_recompute_derived_state and its helpers, runtimes/verified_progress/sdk.py)

    After a patch, or on a refresh, validity and lifecycle are derived again:
    explicit seeds and local invalidation make tasks STALE, the loss spreads along
    dependencies to a fixed point, evidence makes tasks VERIFIED, goals close or
    reopen, and the ready frontier is recomputed.  Node objects are shared between
    the dict and the loops over its values, so a loop runs over the keys and reads
    the current object of each. *)

From Stdlib Require Import Ascii.
From S2P Require Import Prelude PyString Graph VpgModels Dag Readiness Invalidation Verification Patches.
Open Scope Z_scope.

(** The iteration order of a set of pairs is unspecified. *)
Class PairOrder := {
  pair_iter : gset (string * Z) -> list (string * Z);
  pair_iter_perm X : pair_iter X ≡ₚ elements X }.

(** ** Predicates on a task *)

Definition _pinned_versions (task_id : string) (nodes : dict AnyNode) (produces_index : gmap string (list string))
    : gset (string * Z) :=
  pin_set (foldl (pin_version nodes) ∅ (default [] (produces_index !! task_id))).

Definition hashable (j : json) : bool := match j with JList _ | JObj _ => false | _ => true end.
(** [(b["canonical_uri"], b["version"])], as an element of a set *)
Definition verified_entry (b : json) : result (json * json) :=
  match b with
  | JObj o =>
      match jget "canonical_uri" o with
      | None => Raise (KeyError "canonical_uri")
      | Some u =>
          match jget "version" o with
          | None => Raise (KeyError "version")
          | Some v => if hashable u && hashable v then Ok (u, v) else Raise (TypeError "unhashable type")
          end
      end
  | _ => Raise (TypeError "indices must be integers")
  end.
Definition _verified_versions (task : TaskNode) : result (option (list (json * json))) :=
  match jget "__verified_artifact_versions" (metadata (task_base task)) with
  | None => Ok None
  | Some raw =>
      if negb (truthy raw) then Ok None
      else match raw with
           | JList l => l' ← all_ok verified_entry l; Ok (Some l')
           | _ => Raise (TypeError "not a list of bindings")
           end
  end.
(** [pinned_now != verified_at], as sets *)
Definition same_pair (uv : string * Z) (p : json * json) : bool := json_eqb (JStr uv.1) p.1 && json_eqb (JInt uv.2) p.2.
Definition versions_differ (pinned : gset (string * Z)) (verified_at : list (json * json)) : bool :=
  negb (forallb (fun uv => existsb (same_pair uv) verified_at) (elements pinned) &&
        forallb (fun p => existsb (fun uv => same_pair uv p) (elements pinned)) verified_at).

Definition _has_superseded_artifact (pinned_versions : gset (string * Z)) (facts_artifact : option ArtifactFactProvider) : bool :=
  match facts_artifact ≫= latest with
  | None => false
  | Some latest =>
      existsb (fun uv =>
        match latest (removeprefix "vpg://" uv.1) with
        | Raise _ => true
        | Ok (Some current) => bool_decide (uv.2 < current)
        | Ok None => false
        end) (elements pinned_versions)
  end.

(** The dependency is a task and not VERIFIED. *)
Definition unverified_task (n : option AnyNode) : bool :=
  match n with Some (NTask dep) => negb (bool_decide (validity (task_base dep) = NodeValidity.VERIFIED)) | _ => false end.
Definition _has_unverified_dependency (task_id : string) (nodes : dict AnyNode) (depends_index : gmap string (list string)) : bool :=
  existsb (fun target => unverified_task (dict_get target nodes)) (default [] (depends_index !! task_id)).

Definition as_py_int (j : json) : option Z :=
  match j with JInt z => Some z | JBool b => Some (if b then 1 else 0) | _ => None end.
Definition _has_fresh_evidence_since_stale (task : TaskNode) (edges : list VPGEdge) : bool :=
  let md := metadata (task_base task) in
  if negb (otruthy (jget "__stale_requires_fresh_evidence" md)) then true
  else match jget "__stale_at_version" md ≫= as_py_int with
       | None => true
       | Some stale_at =>
           let verification_ids : gset string := list_to_set
             (source_node_id <$> filter (fun e => edge_type e = EdgeType.VERIFIES /\ target_node_id e = task_id_of task) edges) in
           existsb (fun e => bool_decide (edge_type e = EdgeType.PRODUCES) &&
                             bool_decide (source_node_id e ∈ verification_ids) &&
                             bool_decide (stale_at <= edge_created_in_version e)) edges
       end.

(** ** The pass *)

Definition set_task_base (f : VPGNode -> VPGNode) (t : TaskNode) : TaskNode :=
  mkTask (f (task_base t)) (task_title t) (task_description t) (task_kind t) (execution_spec t) (required_verification_count t).
(** Assignments to [validity], [lifecycle], [updated_in_version] and [metadata]. *)
Definition rewrite_base (l : NodeLifecycle.t) (v : NodeValidity.t) (version : Z) (md : jobj) (b : VPGNode) : VPGNode :=
  mkNode (node_id b) (node_graph_id b) l v (created_in_version b) version (created_by_pid b) (created_at b) md.

Definition dstate : Type := dict AnyNode * list GraphEvent.

Section Derive.
Context `{PairOrder, Sha256}.
Context (graph_id : string) (graph_version : Z) (causation_patch : string) (edges : list VPGEdge).
Context (facts_artifact : option ArtifactFactProvider) (facts_kernel : option KernelEventProvider).
Context (allow_repair_frontier : bool).
Let verifies_index := (build_verification_indices edges).1.
Let produces_index := (build_verification_indices edges).2.
Let depends_index := _depends_on_index edges.

Definition derived_event (ty : GraphEventType.t) (node : string) : GraphEvent :=
  mkEvent graph_id ty (Some causation_patch) None None (Some node) None None [] None None (Some graph_version).

(** The task and the events it emits. *)
Definition _mark_task_stale (task : TaskNode) (repair_frontier requires_fresh_evidence : bool) : TaskNode * list GraphEvent :=
  let b := task_base task in
  let md := dict_set "__stale_requires_fresh_evidence" (JBool requires_fresh_evidence)
              (dict_set "__repair_ready" (JBool repair_frontier)
                (dict_set "__stale_at_version" (JInt graph_version)
                  (dict_pop "__verified_artifact_versions" (metadata b)))) in
  let stale := derived_event GraphEventType.TASK_STALE_DERIVED (node_id b) in
  if decide (lifecycle b = NodeLifecycle.CLOSED)
  then (set_task_base (rewrite_base NodeLifecycle.ADMITTED NodeValidity.STALE graph_version md) task,
        [stale; derived_event GraphEventType.TASK_REOPENED_DERIVED (node_id b)])
  else (set_task_base (rewrite_base (lifecycle b) NodeValidity.STALE graph_version md) task, [stale]).

Definition put_task (k : string) (te : TaskNode * list GraphEvent) (st : dstate) : dstate :=
  (dict_set k (NTask te.1) st.1, st.2 ++ te.2).
Definition stale_at_key (k : string) (t : TaskNode) (st : dstate) : dstate :=
  put_task k (_mark_task_stale t allow_repair_frontier true) st.

(** A VERIFIED task at a key. *)
Definition verified_task (k : string) (nodes : dict AnyNode) : option TaskNode :=
  match dict_get k nodes with
  | Some (NTask t) => if decide (validity (task_base t) = NodeValidity.VERIFIED) then Some t else None
  | _ => None
  end.

(** 1. explicit seeds *)
Definition seed_step (st : dstate) (k : string) : dstate :=
  match verified_task k st.1 with Some t => stale_at_key k t st | None => st end.
Definition mark_seeds (seed_ids : list string) (st : dstate) : dstate :=
  foldl seed_step st (py_sorted (elements (list_to_set seed_ids : gset string))).

(** 2. task-local invalidation *)
Definition local_step (k : string) (st : dstate) : result dstate :=
  match verified_task k st.1 with
  | None => Ok st
  | Some t =>
      let pinned_now := _pinned_versions (task_id_of t) st.1 produces_index in
      verified_at ← _verified_versions t;
      if match verified_at with Some vs => versions_differ pinned_now vs | None => false end
         || _has_superseded_artifact pinned_now facts_artifact
         || _has_unverified_dependency (task_id_of t) st.1 depends_index
      then Ok (stale_at_key k t st) else Ok st
  end.
Fixpoint local_pass (keys : list string) (st : dstate) : result dstate :=
  match keys with
  | [] => Ok st
  | k :: keys' => st' ← local_step k st; local_pass keys' st'
  end.

(** The body of [while changed]: one sweep over all nodes. *)
Definition sweep_step (acc : dstate * bool) (k : string) : dstate * bool :=
  let '(st, changed) := acc in
  match verified_task k st.1 with
  | None => acc
  | Some t => if _has_unverified_dependency (task_id_of t) st.1 depends_index then (stale_at_key k t st, true) else acc
  end.
Definition sweep (st : dstate) : dstate * bool := foldl sweep_step (st, false) st.1.*1.
Fixpoint sweep_loop (fuel : nat) (st : dstate) : option dstate :=
  match fuel with
  | O => None
  | S fuel' => let '(st', changed) := sweep st in if changed then sweep_loop fuel' st' else Some st'
  end.
(** Every sweep but the last makes a VERIFIED task STALE. *)
Definition sweep_fuel (nodes : dict AnyNode) : nat := S (length (filter (fun k => is_Some (verified_task k nodes)) nodes.*1)).

(** 3. VERIFIED *)
Definition recorded_pins (task_id : string) (nodes : dict AnyNode) : json :=
  JList ((fun uv => JObj [("canonical_uri", JStr uv.1); ("version", JInt uv.2)]) <$>
           pair_iter (_pinned_versions task_id nodes produces_index)).
Definition close_if_due (t : TaskNode) : TaskNode * list GraphEvent :=
  let verified := derived_event GraphEventType.TASK_VERIFIED_DERIVED (task_id_of t) in
  if task_should_be_closed t
  then (set_task_base (fun b => with_status NodeLifecycle.CLOSED (validity b) b) t,
        [verified; derived_event GraphEventType.TASK_CLOSED_DERIVED (task_id_of t)])
  else (t, [verified]).
Definition holds (t : TaskNode) (nodes : dict AnyNode) : bool :=
  task_is_verified facts_artifact facts_kernel t nodes edges (Some verifies_index) (Some produces_index).
Definition derive_step (st : dstate) (k : string) : dstate :=
  match dict_get k st.1 with
  | Some (NTask t) =>
      let b := task_base t in
      let pins := recorded_pins (task_id_of t) st.1 in
      match validity b with
      | NodeValidity.VERIFIED =>
          (dict_set k (NTask (set_task_base (rewrite_base (lifecycle b) NodeValidity.VERIFIED (updated_in_version b)
             (dict_set "__verified_artifact_versions" pins (metadata b))) t)) st.1, st.2)
      | NodeValidity.STALE =>
          if _has_superseded_artifact (_pinned_versions (task_id_of t) st.1 produces_index) facts_artifact then st
          else if negb (_has_fresh_evidence_since_stale t edges) then st
          else if holds t st.1 then
            let md := dict_set "__verified_artifact_versions" pins
                        (dict_pop "__stale_requires_fresh_evidence" (dict_pop "__repair_ready"
                          (dict_pop "__stale_at_version" (metadata b)))) in
            put_task k (close_if_due (set_task_base (rewrite_base NodeLifecycle.ADMITTED NodeValidity.VERIFIED graph_version md) t)) st
          else st
      | NodeValidity.INVALID => st
      | NodeValidity.UNVERIFIED =>
          if holds t st.1 then
            let md := dict_set "__verified_artifact_versions" pins (metadata b) in
            put_task k (close_if_due (set_task_base (rewrite_base (lifecycle b) NodeValidity.VERIFIED graph_version md) t)) st
          else st
      end
  | _ => st
  end.

(** 4. goal closure *)
Definition set_goal (l : NodeLifecycle.t) (g : GoalNode) : AnyNode :=
  NGoal (mkGoal (rewrite_base l (validity (goal_base g)) graph_version (metadata (goal_base g)) (goal_base g))
           (goal_title g) (goal_description g)).
Definition goal_step (st : dstate) (k : string) : dstate :=
  match dict_get k st.1 with
  | Some (NGoal g) =>
      let closed := goal_is_closed g st.1 edges in
      let was_closed := bool_decide (lifecycle (goal_base g) = NodeLifecycle.CLOSED) in
      if closed && negb was_closed then
        (dict_set k (set_goal NodeLifecycle.CLOSED g) st.1,
         st.2 ++ [derived_event GraphEventType.GOAL_CLOSED_DERIVED (node_id (goal_base g))])
      else if negb closed && was_closed then
        (dict_set k (set_goal NodeLifecycle.ACTIVE g) st.1,
         st.2 ++ [derived_event GraphEventType.GOAL_REOPENED_DERIVED (node_id (goal_base g))])
      else st
  | _ => st
  end.

(** 5. ready frontier *)
Definition ready_frontier_hash (frontier : list string) : string := sha256_hexdigest (json_dumps_strings frontier).
Definition frontier_event (ids : list string) : GraphEvent :=
  mkEvent graph_id GraphEventType.READY_FRONTIER_UPDATED (Some causation_patch) None None None None None
    ids (Some (Z.of_nat (length ids))) (Some (ready_frontier_hash ids)) (Some graph_version).

Definition _recompute_derived_state (nodes : dict AnyNode) (invalidation_seed_task_ids : list string) : result dstate :=
  let st := mark_seeds invalidation_seed_task_ids (nodes, []) in
  st ← local_pass st.1.*1 st;
  match sweep_loop (sweep_fuel st.1) st with
  | None => Raise (KernelInvariantViolation "the sweep did not end")
  | Some st =>
      let st := foldl derive_step st st.1.*1 in
      let st := foldl goal_step st st.1.*1 in
      ids ← compute_ready_task_ids st.1 edges;
      Ok (st.1, st.2 ++ [frontier_event ids])
  end.
End Derive.
