(* ===== verification/DerivationProps.v ===== *)
(** * Theorems on the derived state

    The spread of staleness terminates and is exact; after a derivation every
    VERIFIED task rests on VERIFIED dependencies, what became VERIFIED is attested
    in the resulting graph, and goals are closed exactly when they should be. *)

From S2P Require Import Prelude PyString Graph VpgModels Dag Readiness ReadinessProps Invalidation Verification VerificationProps Patches PatchValidator PatchProps Derivation.
Open Scope Z_scope.

(** ** Reading a graph *)

(** The validity of the task at a key. *)
Definition task_validity (nodes : dict AnyNode) (k : string) : option NodeValidity.t :=
  match dict_get k nodes with Some (NTask t) => Some (validity (task_base t)) | _ => None end.
Abbreviation is_verified nodes k := (task_validity nodes k = Some NodeValidity.VERIFIED).

(** Derivation rewrites tasks and goals under their ids and nothing else. *)
Definition evolve_node (o o' : option AnyNode) : Prop :=
  match o, o' with
  | Some (NTask t), Some (NTask t') =>
      task_id_of t' = task_id_of t /\ required_verification_count t' = required_verification_count t
  | Some (NGoal g), Some (NGoal g') => node_id (goal_base g') = node_id (goal_base g)
  | _, _ => o' = o
  end.
Definition evolves (nodes nodes' : dict AnyNode) : Prop :=
  nodes'.*1 = nodes.*1 /\ forall k, evolve_node (dict_get k nodes) (dict_get k nodes').

Lemma evolve_node_refl o : evolve_node o o.
Proof. destruct o as [[]|]; done. Qed.
Lemma evolve_node_trans o1 o2 o3 : evolve_node o1 o2 -> evolve_node o2 o3 -> evolve_node o1 o3.
Proof.
  destruct o1 as [[]|], o2 as [[]|]; cbn; try done; intros H1; try (injection H1 as <-); try done.
  - destruct o3 as [[]|]; cbn; try done. intros ->. done.
  - destruct o3 as [[]|]; cbn; try done. destruct H1 as [-> ->]. done.
Qed.
#[global] Instance evolves_preorder : PreOrder evolves.
Proof.
  split.
  - intros nodes. split; [done|]. intros k. apply evolve_node_refl.
  - intros n1 n2 n3 [K1 E1] [K2 E2]. split; [congruence|]. intros k. by eapply evolve_node_trans.
Qed.
Lemma evolves_set k n n' nodes :
  dict_get k nodes = Some n -> evolve_node (Some n) (Some n') -> evolves nodes (dict_set k n' nodes).
Proof.
  intros Hk He. split; [apply dict_set_same_keys; by rewrite Hk|]. intros k'. rewrite dict_set_get.
  case_decide as E; [by rewrite E, Hk|apply evolve_node_refl].
Qed.
Lemma evolve_node_id n n' : evolve_node (Some n) (Some n') -> node_id (base n') = node_id (base n).
Proof. destruct n, n'; cbn; try done; try (by intros [= ->]). by intros [? _]. Qed.
Lemma evolves_nodes_ok nodes nodes' : evolves nodes nodes' -> nodes_ok nodes -> nodes_ok nodes'.
Proof.
  intros [Hk He] [Hd Hi]. assert (dict_ok nodes') as Hd' by (unfold dict_ok; by rewrite Hk). split; [done|].
  intros k n' Hn'%dict_get_Some; [|done]. specialize (He k). rewrite Hn' in He.
  assert (is_Some (dict_get k nodes)) as [n Hn].
  { apply dict_get_keys. rewrite <-Hk. apply dict_get_keys. by rewrite Hn'. }
  rewrite Hn in He. apply evolve_node_id in He. rewrite He. apply Hi. by apply dict_get_elem.
Qed.
Lemma evolves_task nodes nodes' k : evolves nodes nodes' ->
  is_Some (task_validity nodes k) <-> is_Some (task_validity nodes' k).
Proof.
  intros [_ He]. specialize (He k). unfold task_validity.
  destruct (dict_get k nodes) as [[]|], (dict_get k nodes') as [[]|]; cbn in He; try done;
    split; intros [? ?]; try done; by eexists.
Qed.
Lemma task_validity_set k t nodes k' :
  task_validity (dict_set k (NTask t) nodes) k' =
  if decide (k' = k) then Some (validity (task_base t)) else task_validity nodes k'.
Proof. unfold task_validity. rewrite dict_set_get. by case_decide. Qed.

Lemma unverified_dependency_spec k nodes edges :
  _has_unverified_dependency k nodes (_depends_on_index edges) = true <->
  exists y v, y ∈ depends_on edges k /\ task_validity nodes y = Some v /\ v <> NodeValidity.VERIFIED.
Proof.
  unfold _has_unverified_dependency. rewrite existsb_exists. setoid_rewrite <-list_elem_of_In.
  assert (default [] (_depends_on_index edges !! k) = depends_on edges k) as ->.
  { unfold _depends_on_index. rewrite add_edges_lookup. by rewrite lookup_empty. }
  unfold task_validity, unverified_task. split.
  - intros (y & Hy & Hu). destruct (dict_get y nodes) as [[|t| | |]|] eqn:E; try done.
    apply negb_true_iff, bool_decide_eq_false in Hu. exists y. rewrite E. eauto.
  - intros (y & v & Hy & Hv & Hne). exists y. split; [done|].
    destruct (dict_get y nodes) as [[|t| | |]|]; try done. injection Hv as <-. by rewrite bool_decide_false.
Qed.

(** ** Marking a task stale *)

Section Pass.
Context `{PairOrder, Sha256}.
Context (gid : string) (ver : Z) (patch : string) (edges : list VPGEdge).
Context (fa : option ArtifactFactProvider) (fk : option KernelEventProvider) (repair : bool).
Abbreviation stale_key := (stale_at_key gid ver patch repair).

Lemma verified_task_Some k nodes t :
  verified_task k nodes = Some t <-> dict_get k nodes = Some (NTask t) /\ validity (task_base t) = NodeValidity.VERIFIED.
Proof.
  unfold verified_task. destruct (dict_get k nodes) as [[|t'| | |]|]; try (by split; [|intros [? _]]).
  case_decide as E; (split; [|by intros [[= ->] ?]]); [by intros [= ->]|done].
Qed.
Lemma verified_task_iff k nodes : is_Some (verified_task k nodes) <-> is_verified nodes k.
Proof.
  unfold verified_task, task_validity. destruct (dict_get k nodes) as [[|t| | |]|]; try (split; [intros [? ?]|]; done).
  case_decide as E; [by rewrite E|]. split; [by intros [? ?]|by intros [= ?]].
Qed.
Lemma verified_task_is k nodes t : verified_task k nodes = Some t -> is_verified nodes k.
Proof. intros Ht. apply verified_task_iff. by rewrite Ht. Qed.

Lemma mark_stale_task t :
  validity (task_base (_mark_task_stale gid ver patch t repair true).1) = NodeValidity.STALE /\
  evolve_node (Some (NTask t)) (Some (NTask (_mark_task_stale gid ver patch t repair true).1)).
Proof. unfold _mark_task_stale. by case_decide. Qed.
Lemma stale_key_evolves k t st : verified_task k st.1 = Some t -> evolves st.1 (stale_key k t st).1.
Proof. intros [Hk _]%verified_task_Some. eapply evolves_set; [exact Hk|]. apply mark_stale_task. Qed.
Lemma stale_key_validity k t st k' :
  task_validity (stale_key k t st).1 k' = if decide (k' = k) then Some NodeValidity.STALE else task_validity st.1 k'.
Proof.
  unfold stale_at_key, put_task. cbn [fst]. rewrite task_validity_set. case_decide; [|done].
  f_equal. apply mark_stale_task.
Qed.

(** Tasks only lose VERIFIED, and only to STALE; [P] says which may. *)
Definition loses (P : string -> Prop) (nodes nodes' : dict AnyNode) : Prop :=
  evolves nodes nodes' /\ forall k,
    dict_get k nodes' = dict_get k nodes \/
    (is_verified nodes k /\ task_validity nodes' k = Some NodeValidity.STALE /\ P k).
#[global] Instance loses_preorder P : PreOrder (loses P).
Proof.
  split.
  - intros nodes. split; [reflexivity|]. by left.
  - intros n1 n2 n3 [E1 H1] [E2 H2]. split; [by transitivity n2|]. intros k.
    destruct (H2 k) as [E|(Hv & Hs & HP)]; [unfold task_validity in *; rewrite E; apply H1|].
    destruct (H1 k) as [Hk|(_ & Hs' & _)]; [|congruence]. right. unfold task_validity in *. by rewrite <-Hk.
Qed.
Lemma stale_key_loses (P : string -> Prop) k t st : verified_task k st.1 = Some t -> P k -> loses P st.1 (stale_key k t st).1.
Proof.
  intros Ht HP. split; [by apply stale_key_evolves|]. intros k'. destruct (decide (k' = k)) as [->|Hne].
  - right. split_and!; [by eapply verified_task_is| |done]. rewrite stale_key_validity. by rewrite decide_True.
  - left. unfold stale_at_key, put_task. cbn [fst]. rewrite dict_set_get. by rewrite decide_False.
Qed.
Lemma loses_weaken (P Q : string -> Prop) nodes nodes' : (forall k, P k -> Q k) -> loses P nodes nodes' -> loses Q nodes nodes'.
Proof. intros HPQ [He Hl]. split; [done|]. intros k. destruct (Hl k) as [?|(? & ? & ?)]; [by left|right; auto]. Qed.
Lemma loses_verified P nodes nodes' k : loses P nodes nodes' -> is_verified nodes' k -> is_verified nodes k.
Proof. intros [_ Hl] Hv. destruct (Hl k) as [E|(? & Hs & _)]; [|congruence]. unfold task_validity in *. by rewrite <-E. Qed.

(** ** The sweep *)

Abbreviation dep_lost nodes k := (_has_unverified_dependency k nodes (_depends_on_index edges) = true).
Abbreviation step := (sweep_step gid ver patch edges repair).
Definition verified_count (nodes : dict AnyNode) : nat := length (filter (fun k => is_Some (verified_task k nodes)) nodes.*1).

Lemma filter_strict {A} (P Q : A -> Prop) `{!forall x, Decision (P x), !forall x, Decision (Q x)} (l : list A) x :
  (forall y, Q y -> P y) -> x ∈ l -> P x -> ~ Q x -> (length (filter Q l) < length (filter P l))%nat.
Proof.
  intros HQP. induction l as [|y l IH]; [by intros ?%elem_of_nil|]. intros Hx HP HQ.
  assert (length (filter Q l) <= length (filter P l))%nat as Hle.
  { clear -HQP. induction l as [|z l IH]; [done|]. rewrite !filter_cons.
    destruct (decide (Q z)); [rewrite decide_True by auto|case_decide]; cbn; lia. }
  rewrite !filter_cons. apply elem_of_cons in Hx as [<-|Hx].
  - rewrite decide_False, decide_True by done. cbn. lia.
  - specialize (IH Hx HP HQ). destruct (decide (Q y)); [rewrite decide_True by auto|case_decide]; cbn; lia.
Qed.
Lemma stale_key_count k t st : verified_task k st.1 = Some t -> (verified_count (stale_key k t st).1 < verified_count st.1)%nat.
Proof.
  intros Ht. pose proof (stale_key_loses (fun _ => True) k t st Ht I) as Hl. destruct Hl as [[Hk _] _]. unfold verified_count.
  rewrite Hk. apply (filter_strict _ _ _ k).
  - intros y. rewrite !verified_task_iff, stale_key_validity. by case_decide.
  - apply dict_get_keys. apply verified_task_Some in Ht as [-> _]. by eexists.
  - by rewrite Ht.
  - rewrite verified_task_iff, stale_key_validity. by rewrite decide_True.
Qed.

(** One sweep: either nothing changed and no key has lost a dependency, or
    some VERIFIED task became STALE. *)
Lemma sweep_fold P ks st b st' b' :
  nodes_ok st.1 -> (forall nodes k, loses P st.1 nodes -> is_verified nodes k -> dep_lost nodes k -> P k) ->
  foldl step (st, b) ks = (st', b') ->
  loses P st.1 st'.1 /\
  ((st' = st /\ b' = b /\ forall k, k ∈ ks -> is_verified st.1 k -> ~ dep_lost st.1 k) \/
   (b' = true /\ (verified_count st'.1 < verified_count st.1)%nat)).
Proof.
  intros Hok HP. revert st b Hok HP. induction ks as [|k ks IH]; intros st b Hok HP; cbn [foldl].
  { intros [= <- <-]. split; [reflexivity|]. left. split; [done|]. split; [done|]. by intros k ?%elem_of_nil. }
  unfold sweep_step at 2. destruct (verified_task k st.1) as [t|] eqn:Ht.
  - assert (task_id_of t = k) as Hid.
    { apply verified_task_Some in Ht as [Ht _]. apply (proj2 Hok k (NTask t)). by apply dict_get_elem. }
    rewrite Hid. destruct (_has_unverified_dependency k st.1 _) eqn:Hd.
    + intros Hf. assert (loses P st.1 (stale_key k t st).1) as Hl1.
      { apply stale_key_loses; [done|]. apply (HP st.1 k); [reflexivity|by eapply verified_task_is|done]. }
      pose proof (stale_key_count k t st Ht) as Hc.
      destruct (IH (stale_key k t st) true) as [Hl2 Hr]; [by eapply evolves_nodes_ok; [apply Hl1|]| |done|].
      { intros nodes k' Hl. apply HP. by transitivity (stale_key k t st).1. }
      split; [by transitivity (stale_key k t st).1|]. right.
      destruct Hr as [(-> & -> & _)|(-> & Hc')]; split; [done|done|done|lia].
    + intros Hf. destruct (IH st b Hok HP Hf) as [Hl [(-> & -> & Hs)|Hr]]; (split; [done|]); [left|by right].
      split; [done|]. split; [done|]. intros k' [->|Hk']%elem_of_cons; [|by apply Hs]. congruence.
  - intros Hf. destruct (IH st b Hok HP Hf) as [Hl [(-> & -> & Hs)|Hr]]; (split; [done|]); [left|by right].
    split; [done|]. split; [done|]. intros k' [->|Hk']%elem_of_cons; [|by apply Hs].
    intros Hv%verified_task_iff. rewrite Ht in Hv. by destruct Hv.
Qed.

Definition settled (nodes : dict AnyNode) : Prop :=
  forall k y v, is_verified nodes k -> y ∈ depends_on edges k -> task_validity nodes y = Some v -> v = NodeValidity.VERIFIED.

Lemma sweep_loop_run P fuel st :
  nodes_ok st.1 -> (verified_count st.1 < fuel)%nat ->
  (forall nodes k, loses P st.1 nodes -> is_verified nodes k -> dep_lost nodes k -> P k) ->
  exists st', sweep_loop gid ver patch edges repair fuel st = Some st' /\ loses P st.1 st'.1 /\ settled st'.1.
Proof.
  revert st. induction fuel as [|fuel IH]; intros st Hok Hc HP; [lia|]. cbn [sweep_loop].
  destruct (sweep gid ver patch edges repair st) as [st' b'] eqn:Hf. unfold sweep in Hf.
  destruct (sweep_fold P _ _ _ _ _ Hok HP Hf) as [Hl [(-> & -> & Hs)|(-> & Hc')]].
  - exists st. split; [done|]. split; [done|]. intros k y v Hv Hy Hvy.
    destruct (decide (v = NodeValidity.VERIFIED)) as [|Hne]; [done|]. exfalso. apply (Hs k).
    + apply dict_get_keys. unfold task_validity in Hv. by destruct (dict_get k st.1).
    + done.
    + apply unverified_dependency_spec. by exists y, v.
  - destruct (IH st') as (st2 & H2 & Hl2 & Hs2); [by eapply evolves_nodes_ok; [apply Hl|]|lia| |].
    { intros nodes k Hl'. apply HP. by transitivity st'.1. }
    exists st2. split; [done|]. split; [by transitivity st'.1|done].
Qed.

(** The task-to-task dependencies, and the tasks that rest on VERIFIED ones only. *)
Definition task_needs (nodes : dict AnyNode) (x y : string) : Prop :=
  y ∈ depends_on edges x /\ is_Some (task_validity nodes y).
Definition grounded (nodes : dict AnyNode) (k : string) : Prop :=
  forall y, rtc (task_needs nodes) k y -> is_verified nodes y.

Lemma lost_not_grounded nodes0 nodes k :
  loses (fun k => ~ grounded nodes0 k) nodes0 nodes -> dep_lost nodes k -> ~ grounded nodes0 k.
Proof.
  intros Hl (y & v & Hy & Hv & Hne)%unverified_dependency_spec Hg.
  assert (task_needs nodes0 k y) as Hky.
  { split; [done|]. apply (evolves_task nodes0 nodes y (proj1 Hl)). by rewrite Hv. }
  pose proof (Hg y (rtc_once _ _ Hky)) as Hy0. destruct Hl as [_ Hl]. destruct (Hl y) as [E|(_ & _ & Hng)].
  - unfold task_validity in Hv, Hy0. rewrite E in Hv. congruence.
  - apply Hng. intros z Hz. apply Hg. by eapply rtc_l.
Qed.
Lemma settled_grounded nodes0 nodes P k :
  loses P nodes0 nodes -> settled nodes -> is_verified nodes k -> grounded nodes0 k.
Proof.
  intros Hl Hs Hv y Hy. apply (loses_verified P nodes0 nodes y Hl). revert Hv.
  induction Hy as [x|x y z [Hxy [v Hv0]] _ IH]; [done|]. intros Hx. apply IH.
  destruct (proj1 (evolves_task nodes0 nodes y (proj1 Hl))) as [w Hw]; [by rewrite Hv0|].
  by rewrite Hw, (Hs x y w Hx Hxy Hw).
Qed.
End Pass.

(** C29: the [while changed] loop ends, and its result does not depend on the order
    of the nodes: a task is VERIFIED afterwards exactly when it was VERIFIED and
    everything it transitively depends on was; the VERIFIED tasks that lose it are
    STALE, and every other node is untouched. *)
Theorem stale_spread_terminates_exact gid ver patch edges repair nodes evs :
  nodes_ok nodes ->
  exists nodes' evs', sweep_loop gid ver patch edges repair (sweep_fuel nodes) (nodes, evs) = Some (nodes', evs') /\
    (forall k, is_verified nodes' k <-> is_verified nodes k /\ grounded edges nodes k) /\
    (forall k, is_verified nodes k -> ~ grounded edges nodes k -> task_validity nodes' k = Some NodeValidity.STALE) /\
    (forall k, ~ is_verified nodes k -> dict_get k nodes' = dict_get k nodes) /\ nodes'.*1 = nodes.*1.
Proof.
  intros Hok. set (P := fun k => ~ grounded edges nodes k).
  destruct (sweep_loop_run gid ver patch edges repair P (sweep_fuel nodes) (nodes, evs)) as ([nodes' evs'] & Hrun & Hl & Hs);
    [done|unfold sweep_fuel, verified_count; cbn; lia| |].
  { intros n k Hl _ Hd. by eapply lost_not_grounded. }
  cbn [fst] in *. exists nodes', evs'. split; [done|]. split_and!.
  - intros k. split.
    + intros Hv. split; [by eapply loses_verified|by eapply settled_grounded].
    + intros [Hv Hg]. destruct (proj2 Hl k) as [E|(_ & _ & Hng)]; [|by destruct (Hng Hg)].
      unfold task_validity in *. by rewrite E.
  - intros k Hv Hng. destruct (proj2 Hl k) as [E|(_ & Hst & _)]; [|done]. exfalso. apply Hng.
    eapply settled_grounded; [exact Hl|done|]. unfold task_validity in *. by rewrite E.
  - intros k Hnv. destruct (proj2 Hl k) as [E|(? & _)]; [done|congruence].
  - apply Hl.
Qed.

(** ** Evidence and verification across a derivation *)

Lemma evolves_lookup nodes nodes' k : evolves nodes nodes' ->
  verification_at nodes' k = verification_at nodes k /\ evidence_at nodes' k = evidence_at nodes k.
Proof.
  intros [_ He]. specialize (He k). unfold verification_at, evidence_at.
  destruct (dict_get k nodes) as [[]|], (dict_get k nodes') as [[]|]; cbn in He; try done;
    injection He as ->; done.
Qed.
Lemma pins_evolve nodes nodes' task edges : evolves nodes nodes' ->
  _task_current_artifact_versions task nodes' edges = _task_current_artifact_versions task nodes edges.
Proof.
  intros He. unfold _task_current_artifact_versions. f_equal. generalize (∅ : gmap string Z).
  induction (targets EdgeType.PRODUCES edges task) as [|x l IH]; [done|]. intros m. cbn [foldl]. rewrite IH. f_equal.
  unfold pin_version. destruct He as [_ He]. specialize (He x).
  destruct (dict_get x nodes) as [[]|], (dict_get x nodes') as [[]|]; cbn in He; try done; by injection He as ->.
Qed.
Lemma validate_evidence_evolve ev nodes nodes' edges fa fk : evolves nodes nodes' ->
  valid (validate_evidence ev nodes edges fa fk) = true -> valid (validate_evidence ev nodes' edges fa fk) = true.
Proof.
  intros He. rewrite !validate_evidence_spec. intros [Hb (vid & v & target & H1 & H2 & H3 & H4 & H5)]. split; [done|].
  exists vid, v, target. destruct (evolves_lookup _ _ vid He) as [-> _]. split_and!; [done..|].
  intros t' Ht'. pose proof (proj2 He target) as Ht. rewrite Ht' in Ht. rewrite pins_evolve with (nodes := nodes) by done.
  destruct (dict_get target nodes) as [[|t| | |]|] eqn:E; try done. destruct Ht as [-> _]. by apply H5.
Qed.
Lemma find_verifications_evolve nodes nodes' task edges : evolves nodes nodes' ->
  _find_verifications task nodes' edges None = _find_verifications task nodes edges None.
Proof.
  intros He. unfold _find_verifications. apply omap_ext. intros e. case_match; [|done]. by apply evolves_lookup.
Qed.
Lemma has_valid_evidence_evolve fa fk nodes nodes' edges v : evolves nodes nodes' ->
  has_valid_evidence fa fk nodes edges None v = true -> has_valid_evidence fa fk nodes' edges None v = true.
Proof.
  intros He. unfold has_valid_evidence. rewrite !existsb_exists. intros (ev & Hin & Hv). exists ev.
  split; [|by eapply validate_evidence_evolve]. rewrite <-list_elem_of_In in Hin |- *.
  rewrite elem_find_evidence in Hin |- *. destruct Hin as (id & Hid & Hat). exists id. split; [done|].
  by destruct (evolves_lookup _ _ id He) as [_ ->].
Qed.

Definition est (nodes : dict AnyNode) (k : string) : Prop :=
  exists t, dict_get k nodes = Some (NTask t) /\ established t.
(** What holds of a VERIFIED task's evidence in a graph. *)
Definition attested fa fk (edges : list VPGEdge) (nodes : dict AnyNode) (k : string) : Prop :=
  exists t, dict_get k nodes = Some (NTask t) /\ task_is_verified fa fk t nodes edges None None = true.

Lemma filter_mono_length {A} (P Q : A -> Prop) `{!forall x, Decision (P x), !forall x, Decision (Q x)} (l : list A) :
  (forall x, P x -> Q x) -> (length (filter P l) <= length (filter Q l))%nat.
Proof.
  intros HPQ. induction l as [|x l IH]; [done|]. rewrite !filter_cons.
  destruct (decide (P x)); [rewrite decide_True by auto|case_decide]; cbn; lia.
Qed.
Lemma deps_verified_spec' task nodes edges :
  _task_deps_verified task nodes edges = true <->
  forall y n, y ∈ depends_on edges (task_id_of task) -> dict_get y nodes = Some n -> dep_established n = true.
Proof.
  unfold _task_deps_verified. rewrite forallb_forall. setoid_rewrite <-list_elem_of_In. split.
  - intros H1 y n (e & He & Hty & Hs & <-)%depends_on_elem Hn. specialize (H1 e He). cbn in H1.
    by rewrite (bool_decide_true _ Hty), (bool_decide_true _ Hs), Hn in H1.
  - intros H1 e He. destruct (bool_decide (edge_type e = EdgeType.DEPENDS_ON)) eqn:E1; [|done].
    destruct (bool_decide (source_node_id e = task_id_of task)) eqn:E2; [|done]. cbn.
    apply bool_decide_eq_true in E1, E2. destruct (dict_get (target_node_id e) nodes) eqn:E; [|done].
    eapply H1; [|exact E]. apply depends_on_elem. eauto.
Qed.
Lemma live_iff l : live l = true <-> l <> NodeLifecycle.PROPOSED.
Proof. by destruct l. Qed.

(** Attestation survives every step that keeps established tasks established. *)
Lemma attested_mono fa fk edges nodes nodes' k t' :
  evolves nodes nodes' -> (forall x, est nodes x -> est nodes' x) ->
  attested fa fk edges nodes k -> dict_get k nodes' = Some (NTask t') ->
  lifecycle (task_base t') <> NodeLifecycle.PROPOSED -> validity (task_base t') <> NodeValidity.INVALID ->
  attested fa fk edges nodes' k.
Proof.
  intros He Hest (t & Ht & Hv) Ht' Hl Hi. exists t'. split; [done|].
  pose proof (proj2 He k) as Hk. rewrite Ht, Ht' in Hk. destruct Hk as [Hid Hreq].
  unfold task_is_verified in *. rewrite (proj2 (live_iff _) Hl), (bool_decide_false _ Hi). cbn [negb].
  do 2 (case_match; [done|]). apply andb_true_iff in Hv as [Hc%bool_decide_eq_true Hd]. apply andb_true_iff. split.
  - apply bool_decide_eq_true. rewrite Hid, Hreq, (find_verifications_evolve nodes nodes') by done.
    etransitivity; [exact Hc|]. apply inj_le, filter_mono_length. intros v. by apply has_valid_evidence_evolve.
  - rewrite deps_verified_spec' in Hd |- *. rewrite Hid. intros y n' Hy Hn'.
    assert (is_Some (dict_get y nodes)) as [n Hn].
    { apply dict_get_keys. rewrite <-(proj1 He). apply dict_get_keys. by rewrite Hn'. }
    pose proof (Hd y n Hy Hn) as Hest'. destruct n as [|d| | |]; try done. cbn in Hest'.
    apply andb_true_iff in Hest' as [E1%bool_decide_eq_true E2%live_iff].
    destruct (Hest y) as (d' & Hd' & [F1 F2]); [by exists d|]. rewrite Hn' in Hd'. injection Hd' as ->. cbn.
    by rewrite bool_decide_true, (proj2 (live_iff _) F2).
Qed.

(** ** The whole pass *)

Section Whole.
Context `{PairOrder, Sha256}.
Context (gid : string) (ver : Z) (patch : string) (edges : list VPGEdge).
Context (fa : option ArtifactFactProvider) (fk : option KernelEventProvider) (repair : bool).
Abbreviation anything := (fun _ : string => True).
Abbreviation derive := (derive_step gid ver patch edges fa fk).

(** *** Seeds and local invalidation *)

Lemma mark_seeds_spec seeds nodes evs :
  loses anything nodes (mark_seeds gid ver patch repair seeds (nodes, evs)).1 /\
  forall k, k ∈ seeds -> ~ is_verified (mark_seeds gid ver patch repair seeds (nodes, evs)).1 k.
Proof.
  unfold mark_seeds. assert (forall ks st,
    loses anything st.1 (foldl (seed_step gid ver patch repair) st ks).1 /\
    forall k, k ∈ ks -> ~ is_verified (foldl (seed_step gid ver patch repair) st ks).1 k) as Hgen.
  { induction ks as [|k ks IH]; intros st; cbn [foldl]; [split; [reflexivity|by intros k ?%elem_of_nil]|].
    assert (loses anything st.1 (seed_step gid ver patch repair st k).1 /\ ~ is_verified (seed_step gid ver patch repair st k).1 k)
      as [H1 H2].
    { unfold seed_step. destruct (verified_task k st.1) as [t|] eqn:E.
      - split; [by apply stale_key_loses|]. rewrite stale_key_validity. by rewrite decide_True.
      - split; [reflexivity|]. intros Hv%verified_task_iff. rewrite E in Hv. by destruct Hv. }
    destruct (IH (seed_step gid ver patch repair st k)) as [H3 H4]. split; [by etransitivity|].
    intros k' [->|Hk']%elem_of_cons; [|by apply H4]. intros Hv. apply H2. by eapply loses_verified. }
  destruct (Hgen (py_sorted (elements (list_to_set seeds : gset string))) (nodes, evs)) as [H1 H2]. split; [done|].
  intros k Hk. apply H2. rewrite elem_of_sort_on, elem_of_elements. by apply elem_of_list_to_set.
Qed.

(** Every VERIFIED task's recorded versions can be read. *)
Definition pins_readable (nodes : dict AnyNode) : Prop :=
  forall k t, verified_task k nodes = Some t -> exists r, _verified_versions t = Ok r.
Lemma pins_readable_loses P nodes nodes' : loses P nodes nodes' -> pins_readable nodes -> pins_readable nodes'.
Proof.
  intros [_ Hl] Hr k t Ht. apply (Hr k). destruct (Hl k) as [E|(_ & Hs & _)].
  - apply verified_task_Some in Ht as [Hk Hv]. apply verified_task_Some. by rewrite <-E.
  - apply verified_task_is in Ht. congruence.
Qed.
Lemma local_pass_run ks st : pins_readable st.1 ->
  exists st', local_pass gid ver patch edges fa repair ks st = Ok st' /\ loses anything st.1 st'.1.
Proof.
  revert st. induction ks as [|k ks IH]; intros st Hr; [by exists st|]. cbn [local_pass].
  assert (exists st1, local_step gid ver patch edges fa repair k st = Ok st1 /\ loses anything st.1 st1.1) as (st1 & Hs & Hl).
  { unfold local_step. destruct (verified_task k st.1) as [t|] eqn:E; [|by exists st].
    destruct (Hr k t E) as [r ->]. unfold mbind, result_bind. case_match; [|by exists st].
    eexists. split; [done|]. by apply stale_key_loses. }
  rewrite Hs. unfold mbind, result_bind. destruct (IH st1) as (st' & -> & Hl'); [by eapply pins_readable_loses|].
  exists st'. split; [done|]. by transitivity st1.1.
Qed.

Lemma local_pass_loses ks st st' : local_pass gid ver patch edges fa repair ks st = Ok st' -> loses anything st.1 st'.1.
Proof.
  revert st. induction ks as [|k ks IH]; intros st; [intros [= ->]; reflexivity|]. cbn [local_pass].
  destruct (local_step gid ver patch edges fa repair k st) as [st1|e] eqn:Es; [|done]. cbn. intros Hl%IH.
  assert (loses anything st.1 st1.1) as Hl1; [|by transitivity st1.1].
  unfold local_step in Es. destruct (verified_task k st.1) as [t|] eqn:E; [|by injection Es as ->].
  destruct (_verified_versions t) as [r|]; [|done]. cbn in Es. case_match; injection Es as <-; [|done]. by apply stale_key_loses.
Qed.

(** *** Verification *)

(** One step of phase 3: nothing, or a task becomes or stays VERIFIED. *)
Lemma derive_step_run st k :
  (derive st k).1 = st.1 \/
  exists t t', dict_get k st.1 = Some (NTask t) /\ (derive st k).1 = dict_set k (NTask t') st.1 /\
    evolve_node (Some (NTask t)) (Some (NTask t')) /\ validity (task_base t') = NodeValidity.VERIFIED /\
    ((validity (task_base t) = NodeValidity.VERIFIED /\ lifecycle (task_base t') = lifecycle (task_base t)) \/
     (validity (task_base t) <> NodeValidity.VERIFIED /\ lifecycle (task_base t') <> NodeLifecycle.PROPOSED /\
      task_is_verified fa fk t st.1 edges None None = true)).
Proof.
  unfold derive_step. destruct (dict_get k st.1) as [[|t| | |]|] eqn:Ek; try by left.
  destruct (validity (task_base t)) eqn:Ev.
  - unfold holds. rewrite task_is_verified_index. destruct (task_is_verified fa fk t _ _ _ _) eqn:Eh; [right|by left].
    assert (lifecycle (task_base t) <> NodeLifecycle.PROPOSED) as Hl.
    { unfold task_is_verified in Eh. by destruct (lifecycle (task_base t)). }
    unfold close_if_due. case_match; (eexists t, _; split; [done|]; split; [done|]; split; [done|]; split; [done|];
      right; split; [by rewrite Ev|]; split; [done|done]).
  - right. eexists t, _. split; [done|]. split; [done|]. split; [done|]. split; [done|]. by left.
  - case_match; [by left|]. case_match; [by left|]. unfold holds. rewrite task_is_verified_index.
    destruct (task_is_verified fa fk t _ _ _ _) eqn:Eh; [right|by left].
    unfold close_if_due. case_match; (eexists t, _; split; [done|]; split; [done|]; split; [done|]; split; [done|];
      right; split; [by rewrite Ev|]; split; [done|done]).
  - by left.
Qed.

Record derived (nodes1 nodes : dict AnyNode) : Prop := {
  der_evolves : evolves nodes1 nodes;
  der_settled : settled edges nodes;
  der_attested k : is_verified nodes k -> is_verified nodes1 k \/ attested fa fk edges nodes k }.

Lemma derive_step_derived nodes1 st k : nodes_ok nodes1 -> derived nodes1 st.1 -> derived nodes1 (derive st k).1.
Proof.
  intros Hok1 [He Hs Ha]. destruct (derive_step_run st k) as [->|(t & t' & Hk & -> & Hev & Hv' & Hcase)]; [done|].
  assert (nodes_ok st.1) as Hok by by eapply evolves_nodes_ok.
  assert (task_id_of t = k) as Hid by (apply (proj2 Hok k (NTask t)); by apply dict_get_elem).
  assert (evolves st.1 (dict_set k (NTask t') st.1)) as He' by by eapply evolves_set.
  assert (forall x, est st.1 x -> est (dict_set k (NTask t') st.1) x) as Hest.
  { intros x (d & Hd & Hed). unfold est. rewrite dict_set_get. case_decide as E; [|by exists d].
    subst x. rewrite Hk in Hd. injection Hd as <-. exists t'. split; [done|]. split; [done|].
    destruct Hed as [Hed Hl]. destruct Hcase as [[_ ->]|(? & ? & _)]; done. }
  assert (forall x v, task_validity (dict_set k (NTask t') st.1) x = Some v -> v = NodeValidity.VERIFIED \/
            (x <> k /\ task_validity st.1 x = Some v)) as Hval.
  { intros x v. rewrite task_validity_set. case_decide; [intros [= <-]; by left|by right]. }
  assert (attested fa fk edges st.1 k -> attested fa fk edges (dict_set k (NTask t') st.1) k) as Hatt.
  { intros Hat. eapply attested_mono; [exact He'|exact Hest|exact Hat|by rewrite dict_set_get, decide_True| |by rewrite Hv'].
    destruct Hcase as [[_ ->]|(_ & Hl & _)]; [|done]. destruct Hat as (t0 & Ht0 & Htv). rewrite Hk in Ht0. injection Ht0 as <-.
    unfold task_is_verified in Htv. by destruct (lifecycle (task_base t)). }
  split; [by transitivity st.1| |].
  - intros x y v Hx Hy Hvy. destruct (Hval y v Hvy) as [->|[Hne Hvy']]; [done|].
    rewrite task_validity_set in Hx. case_decide as E; [|by eapply Hs].
    subst x. destruct Hcase as [[Hv _]|(_ & _ & Htv)].
    + apply (Hs k y v); [|done..]. unfold task_validity. by rewrite Hk, Hv.
    + unfold task_is_verified in Htv. do 2 (case_match; [done|]). apply andb_true_iff in Htv as [_ Hd].
      rewrite deps_verified_spec', Hid in Hd. unfold task_validity in Hvy'.
      destruct (dict_get y st.1) as [[|d| | |]|] eqn:Ey; try done. pose proof (Hd y _ Hy Ey) as Hde. cbn in Hde.
      apply andb_true_iff in Hde as [Hde%bool_decide_eq_true _]. congruence.
  - intros x Hx. rewrite task_validity_set in Hx. case_decide as E.
    + subst x. destruct Hcase as [[Hv _]|(_ & _ & Htv)]; [|right; apply Hatt; by exists t].
      destruct (Ha k) as [?|?]; [unfold task_validity; by rewrite Hk, Hv|by left|right; by apply Hatt].
    + destruct (Ha x Hx) as [?|Hat]; [by left|right]. pose proof Hat as (d & Hd & Htv).
      eapply attested_mono; [exact He'|exact Hest|exact Hat|by rewrite dict_set_get, decide_False| |].
      * unfold task_is_verified in Htv. by destruct (lifecycle (task_base d)).
      * unfold task_is_verified in Htv. intros Hi. rewrite Hi in Htv. by destruct (lifecycle (task_base d)).
Qed.
Lemma derive_fold nodes1 ks st : nodes_ok nodes1 -> derived nodes1 st.1 -> derived nodes1 (foldl derive st ks).1.
Proof.
  intros Hok. revert st. induction ks as [|k ks IH]; intros st Hd; [done|]. cbn [foldl]. apply IH.
  by apply derive_step_derived.
Qed.

(** *** Goals *)

(** Only goals change. *)
Definition same_tasks (nodes nodes' : dict AnyNode) : Prop :=
  evolves nodes nodes' /\ forall k t, dict_get k nodes' = Some (NTask t) <-> dict_get k nodes = Some (NTask t).
#[local] Instance same_tasks_preorder : PreOrder same_tasks.
Proof.
  split; [by split; [reflexivity|]|]. intros n1 n2 n3 [E1 H1] [E2 H2]. split; [by transitivity n2|].
  intros k t. by rewrite H2, H1.
Qed.
Lemma same_tasks_match {A} nodes nodes' k (f : TaskNode -> A) (d : A) : same_tasks nodes nodes' ->
  match dict_get k nodes' with Some (NTask t) => f t | _ => d end =
  match dict_get k nodes with Some (NTask t) => f t | _ => d end.
Proof.
  intros [_ Ht]. specialize (Ht k).
  assert ((exists t, dict_get k nodes = Some (NTask t)) \/ ~ exists t, dict_get k nodes = Some (NTask t)) as [[t Hk]|Hno].
  { destruct (dict_get k nodes) as [[|t| | |]|]; [right|left; by exists t|right..]; by intros [? ?]. }
  - rewrite Hk. by rewrite (proj2 (Ht t) Hk).
  - destruct (dict_get k nodes') as [[|t'| | |]|] eqn:E'; cycle 1.
    { exfalso. apply Hno. exists t'. by apply Ht. }
    all: destruct (dict_get k nodes) as [[|t| | |]|]; try done; exfalso; apply Hno; by eexists.
Qed.
Lemma same_tasks_validity nodes nodes' k : same_tasks nodes nodes' -> task_validity nodes' k = task_validity nodes k.
Proof. intros Hs. by apply (same_tasks_match nodes nodes' k (fun t => Some (validity (task_base t))) None). Qed.
Lemma goal_is_closed_same g g' nodes nodes' :
  same_tasks nodes nodes' -> node_id (goal_base g') = node_id (goal_base g) ->
  goal_is_closed g' nodes' edges = goal_is_closed g nodes edges.
Proof.
  intros Hs Hid. unfold goal_is_closed.
  pose proof (fun A k (f : TaskNode -> A) d => same_tasks_match nodes nodes' k f d Hs) as Hm.
  assert (dependent_task_ids g' nodes' edges = dependent_task_ids g nodes edges) as ->.
  { unfold dependent_task_ids. rewrite Hid. apply omap_ext. intros e. case_match; [|done]. apply Hm. }
  destruct (dependent_task_ids g nodes edges) as [|x l]; [done|].
  generalize (x :: l). intros ids. induction ids as [|y ids IH]; [done|]. cbn [forallb]. rewrite IH. f_equal.
  apply (Hm bool y (fun d => bool_decide (validity (task_base d) = NodeValidity.VERIFIED) && live (lifecycle (task_base d)))).
Qed.

Definition goal_right (nodes : dict AnyNode) (k : string) : Prop :=
  forall g, dict_get k nodes = Some (NGoal g) ->
    lifecycle (goal_base g) = NodeLifecycle.CLOSED <-> goal_is_closed g nodes edges = true.

Lemma goal_step_run st k :
  let st' := goal_step gid ver patch edges st k in
  same_tasks st.1 st'.1 /\ goal_right st'.1 k /\ forall k', goal_right st.1 k' -> goal_right st'.1 k'.
Proof.
  cbn zeta. unfold goal_step. destruct (dict_get k st.1) as [[g| | | |]|] eqn:Ek;
    try (split; [reflexivity|]; split; [by intros g' Hg'; rewrite Ek in Hg'|done]).
  assert (forall l, same_tasks st.1 (dict_set k (set_goal ver l g) st.1)) as Hsame.
  { intros l. split; [by eapply evolves_set|]. intros k' t. rewrite dict_set_get. case_decide as E; [|done].
    subst. rewrite Ek. by split. }
  assert (forall l, (l = NodeLifecycle.CLOSED <-> goal_is_closed g st.1 edges = true) ->
    let nodes' := dict_set k (set_goal ver l g) st.1 in
    goal_right nodes' k /\ forall k', goal_right st.1 k' -> goal_right nodes' k') as Hset.
  { intros l Hl nodes'. assert (goal_right nodes' k) as Hk.
    { intros g' Hg'. unfold nodes' in Hg'. rewrite dict_set_get, decide_True in Hg' by done. injection Hg' as <-.
      rewrite (goal_is_closed_same g _ st.1 nodes'); [exact Hl|apply Hsame|done]. }
    split; [done|]. intros k' Hr. destruct (decide (k' = k)) as [->|Hne]; [done|]. intros g' Hg'.
    unfold nodes' in Hg'. rewrite dict_set_get, decide_False in Hg' by done.
    rewrite (goal_is_closed_same g' g' st.1 nodes'); [by apply Hr|apply Hsame|done]. }
  destruct (goal_is_closed g st.1 edges) eqn:Ec; cbn [andb negb];
    (destruct (decide (lifecycle (goal_base g) = NodeLifecycle.CLOSED)) as [Hl|Hl];
     [rewrite (bool_decide_true _ Hl)|rewrite (bool_decide_false _ Hl)]); cbn [andb negb fst].
  - split; [reflexivity|]. split; [|done]. intros g' Hg'. rewrite Ek in Hg'. injection Hg' as <-. by rewrite Ec.
  - split; [apply Hsame|]. by apply Hset.
  - split; [apply Hsame|]. by apply Hset.
  - split; [reflexivity|]. split; [|done]. intros g' Hg'. rewrite Ek in Hg'. injection Hg' as <-. by rewrite Ec.
Qed.
Lemma goal_fold ks st :
  let st' := foldl (goal_step gid ver patch edges) st ks in
  same_tasks st.1 st'.1 /\ (forall k, k ∈ ks -> goal_right st'.1 k) /\ forall k, goal_right st.1 k -> goal_right st'.1 k.
Proof.
  cbn zeta. revert st. induction ks as [|k ks IH]; intros st; cbn [foldl].
  { split; [reflexivity|]. split; [by intros k ?%elem_of_nil|done]. }
  destruct (goal_step_run st k) as (H1 & H2 & H3). destruct (IH (goal_step gid ver patch edges st k)) as (H4 & H5 & H6).
  split; [by etransitivity|]. split; [|auto]. intros k' [->|Hk']%elem_of_cons; auto.
Qed.

Lemma derived_same nodes1 nodes nodes' : derived nodes1 nodes -> same_tasks nodes nodes' -> derived nodes1 nodes'.
Proof.
  intros [H1 H2 H3] Hs. split; [by transitivity nodes; [|apply Hs]| |].
  - intros k y v. rewrite !(same_tasks_validity _ _ _ Hs). apply H2.
  - intros k. rewrite (same_tasks_validity _ _ _ Hs). intros [?|Hat]%H3; [by left|right].
    pose proof Hat as (t & Ht & Htv). eapply attested_mono; [apply Hs| |exact Hat|by apply Hs| |].
    + intros x (d & Hd & Hed). exists d. split; [by apply Hs|done].
    + unfold task_is_verified in Htv. by destruct (lifecycle (task_base t)).
    + unfold task_is_verified in Htv. intros Hi. rewrite Hi in Htv. by destruct (lifecycle (task_base t)).
Qed.
End Whole.

(** What follows the local pass. *)
Lemma derive_after `{PairOrder, Sha256} gid ver patch edges fa fk repair nodes seeds st2 :
  nodes_ok nodes ->
  local_pass gid ver patch edges fa repair (mark_seeds gid ver patch repair seeds (nodes, [])).1.*1
    (mark_seeds gid ver patch repair seeds (nodes, [])) = Ok st2 ->
  exists nodes' evs,
    _recompute_derived_state gid ver patch edges fa fk repair nodes seeds =
      (ids ← compute_ready_task_ids nodes' edges; Ok (nodes', evs ++ [frontier_event gid ver patch ids])) /\
    evolves nodes nodes' /\ settled edges nodes' /\
    (forall k, is_verified nodes' k ->
       attested fa fk edges nodes' k \/ (is_verified nodes k /\ (k ∉ seeds) /\ grounded edges nodes k)) /\
    (forall k, goal_right edges nodes' k).
Proof.
  intros Hok Hlocal. unfold _recompute_derived_state.
  destruct (mark_seeds_spec gid ver patch repair seeds nodes []) as [Hl1 Hseed].
  set (st1 := mark_seeds gid ver patch repair seeds (nodes, [])) in *.
  pose proof (local_pass_loses _ _ _ _ _ _ _ _ _ Hlocal) as Hl2.
  rewrite Hlocal. unfold mbind at 1, result_bind at 1.
  assert (nodes_ok st2.1) as Hok2 by (eapply evolves_nodes_ok; [apply Hl2|]; eapply evolves_nodes_ok; [apply Hl1|done]).
  destruct (sweep_loop_run gid ver patch edges repair (fun _ => True) (sweep_fuel st2.1) st2) as (st3 & -> & Hl3 & Hs3);
    [done|unfold sweep_fuel, verified_count; lia|done|].
  assert (loses (fun _ => True) nodes st3.1) as Hl by (transitivity st2.1; [transitivity st1.1|]; done).
  assert (nodes_ok st3.1) as Hok3 by by eapply evolves_nodes_ok; [apply Hl|].
  assert (derived edges fa fk st3.1 st3.1) as Hd0 by (split; [reflexivity|done|by left]).
  pose proof (derive_fold gid ver patch edges fa fk st3.1 st3.1.*1 st3 Hok3 Hd0) as Hd.
  set (st4 := foldl _ st3 st3.1.*1) in *.
  destruct (goal_fold gid ver patch edges st4.1.*1 st4) as (Hsame & Hgoal & _).
  set (st5 := foldl _ st4 st4.1.*1) in *. pose proof (derived_same edges fa fk _ _ _ Hd Hsame) as Hd5.
  exists st5.1, st5.2. split; [done|]. split_and!.
  - transitivity st3.1; [apply Hl|apply Hd5].
  - apply Hd5.
  - intros k Hv. destruct (der_attested _ _ _ _ _ Hd5 k Hv) as [Hv3|?]; [right|by left].
    split; [by eapply loses_verified|]. split; [|by eapply settled_grounded].
    intros Hk. apply (Hseed k Hk). apply (loses_verified (fun _ => True) st1.1 st3.1 k); [by transitivity st2.1|done].
  - intros k g Hg. apply (Hgoal k); [|done]. rewrite <-(proj1 (proj1 Hsame)). apply dict_get_keys. by rewrite Hg.
Qed.

(** C27: a derivation pass returns whenever the recorded pins of VERIFIED tasks can
    be read (it then fails only if the ready frontier cannot be ordered), and in
    the graph it leaves: every VERIFIED task has only VERIFIED task dependencies;
    a VERIFIED task either satisfies the VERIFIED predicate there, or was VERIFIED
    before, was no seed, and rested on VERIFIED tasks only; a goal is CLOSED
    exactly when its closure predicate holds; artifacts, verifications and
    evidence are untouched; the last event publishes the ready frontier of that
    graph. *)
Theorem derived_state_sound `{PairOrder, Sha256} gid ver patch edges fa fk repair nodes seeds :
  nodes_ok nodes -> pins_readable nodes ->
  exists nodes' evs,
    _recompute_derived_state gid ver patch edges fa fk repair nodes seeds =
      (ids ← compute_ready_task_ids nodes' edges; Ok (nodes', evs ++ [frontier_event gid ver patch ids])) /\
    evolves nodes nodes' /\ settled edges nodes' /\
    (forall k, is_verified nodes' k ->
       attested fa fk edges nodes' k \/ (is_verified nodes k /\ (k ∉ seeds) /\ grounded edges nodes k)) /\
    (forall k, goal_right edges nodes' k).
Proof.
  intros Hok Hpins. destruct (mark_seeds_spec gid ver patch repair seeds nodes []) as [Hl1 _].
  destruct (local_pass_run gid ver patch edges fa repair (mark_seeds gid ver patch repair seeds (nodes, [])).1.*1
    (mark_seeds gid ver patch repair seeds (nodes, []))) as (st2 & Hlocal & _); [by eapply pins_readable_loses|].
  by eapply derive_after.
Qed.
(** A pass that returned. *)
Lemma recompute_Ok `{PairOrder, Sha256} gid ver patch edges fa fk repair nodes seeds nodes' evs :
  nodes_ok nodes -> _recompute_derived_state gid ver patch edges fa fk repair nodes seeds = Ok (nodes', evs) ->
  evolves nodes nodes' /\ settled edges nodes' /\
  (forall k, is_verified nodes' k ->
     attested fa fk edges nodes' k \/ (is_verified nodes k /\ (k ∉ seeds) /\ grounded edges nodes k)) /\
  (forall k, goal_right edges nodes' k).
Proof.
  intros Hok E. destruct (local_pass gid ver patch edges fa repair (mark_seeds gid ver patch repair seeds (nodes, [])).1.*1
    (mark_seeds gid ver patch repair seeds (nodes, []))) as [st2|e] eqn:Hlocal.
  - destruct (derive_after gid ver patch edges fa fk repair nodes seeds st2 Hok Hlocal) as (n & ev & E' & Hr).
    rewrite E' in E. destruct (compute_ready_task_ids n edges); [|done]. by injection E as <- <-.
  - unfold _recompute_derived_state in E. by rewrite Hlocal in E.
Qed.

(** ** Instances *)

Definition elements_pairs : PairOrder := {| pair_iter X := elements X; pair_iter_perm X := Permutation_refl _ |}.
Definition dp_digest : Sha256 := fun s => s.
Definition dp_task (id : string) (v : NodeValidity.t) (md : jobj) : string * AnyNode :=
  (id, NTask (mkTask (mkNode id "g" NodeLifecycle.ADMITTED v 1 1 "p" 0 md) "" "" "" [] 1)).
(** c depends on b, b on a; a is not verified. *)
Definition dp_nodes : dict AnyNode :=
  [dp_task "c" NodeValidity.VERIFIED []; dp_task "b" NodeValidity.VERIFIED []; dp_task "a" NodeValidity.UNVERIFIED [];
   dp_task "d" NodeValidity.VERIFIED []].
Definition dp_edges : list VPGEdge := [demo_edge "c" "b"; demo_edge "b" "a"].
Lemma dp_nodes_ok : nodes_ok dp_nodes.
Proof.
  split; [apply (bool_decide_unpack (NoDup dp_nodes.*1)); vm_compute; exact I|].
  intros k n Hin. unfold dp_nodes in Hin. rewrite !elem_of_cons, elem_of_nil in Hin.
  by destruct Hin as [[= -> ->]|[[= -> ->]|[[= -> ->]|[[= -> ->]|[]]]]].
Qed.
Lemma stale_spread_terminates_exact_witness :
  exists nodes' evs', sweep_loop "g" 2 "p" dp_edges false (sweep_fuel dp_nodes) (dp_nodes, []) = Some (nodes', evs') /\
    (forall k, is_verified nodes' k <-> is_verified dp_nodes k /\ grounded dp_edges dp_nodes k).
Proof.
  destruct (stale_spread_terminates_exact "g" 2 "p" dp_edges false dp_nodes [] dp_nodes_ok) as (n' & e' & H1 & H2 & _).
  exists n', e'. split; [exact H1|exact H2].
Defined.
Example stale_spread_demo :
  (fun st => (fun k => task_validity st.1 k) <$> ["a"; "b"; "c"; "d"]) <$>
    sweep_loop "g" 2 "p" dp_edges false (sweep_fuel dp_nodes) (dp_nodes, []) =
  Some [Some NodeValidity.UNVERIFIED; Some NodeValidity.STALE; Some NodeValidity.STALE; Some NodeValidity.VERIFIED].
Proof. vm_compute. reflexivity. Qed.

Lemma dp_pins_readable : pins_readable dp_nodes.
Proof.
  intros k t [Hk _]%verified_task_Some. apply dict_get_elem in Hk. unfold dp_nodes in Hk.
  rewrite !elem_of_cons, elem_of_nil in Hk. exists None.
  by destruct Hk as [[= -> ->]|[[= -> ->]|[[= -> ->]|[[= -> ->]|[]]]]].
Qed.
Lemma derived_state_sound_witness :
  exists nodes' evs,
    @_recompute_derived_state elements_pairs dp_digest "g" 2 "p" dp_edges None None false dp_nodes ["d"] =
      (ids ← compute_ready_task_ids nodes' dp_edges; Ok (nodes', evs ++ [@frontier_event dp_digest "g" 2 "p" ids])) /\
    settled dp_edges nodes'.
Proof.
  destruct (@derived_state_sound elements_pairs dp_digest "g" 2 "p" dp_edges None None false dp_nodes ["d"]
    dp_nodes_ok dp_pins_readable) as (n' & e & H1 & _ & H2 & _).
  exists n', e. split; [exact H1|exact H2].
Defined.

Definition derive_demo (fa : option ArtifactFactProvider) (nodes : dict AnyNode) (edges : list VPGEdge) : dict AnyNode :=
  match @_recompute_derived_state elements_pairs dp_digest "g" 2 "p" edges fa (Some vp_kernel) false nodes [] with
  | Ok st => st.1
  | Raise _ => []
  end.

(** A task verified while it pinned nothing records an empty list, which later
    reads as no record at all: an artifact attached afterwards leaves it VERIFIED,
    and its version is recorded as if it had been verified, although the VERIFIED
    predicate fails. *)
Lemma attach_after_unpinned_verification_unnoticed :
  let nodes1 := derive_demo None [vp_task "a"; vp_verification "v"; vp_evidence "e" "v" []]
                  [vp_edge EdgeType.VERIFIES "v" "a"; vp_edge EdgeType.PRODUCES "v" "e"] in
  let edges2 := [vp_edge EdgeType.VERIFIES "v" "a"; vp_edge EdgeType.PRODUCES "v" "e"; vp_edge EdgeType.PRODUCES "a" "x"] in
  let nodes2 := derive_demo None (nodes1 ++ [vp_artifact "x" "uri" 1]) edges2 in
  is_verified nodes1 "a" /\ is_verified nodes2 "a" /\
  match dict_get "a" nodes2 with
  | Some (NTask t) => task_is_verified None (Some vp_kernel) t nodes2 edges2 None None = false
  | _ => False
  end.
Proof. vm_compute. split_and!; reflexivity. Qed.

(** A fresh task is not checked against newer artifact versions, a VERIFIED one
    is: deriving twice over the same facts verifies the task and then makes it
    stale. *)
Lemma derivation_not_idempotent :
  let facts := Some (mkArtifactFacts (fun _ _ _ => true) (fun _ _ => true) (Some (fun _ => Ok (Some 3)))) in
  let once := derive_demo facts vp_nodes vp_edges in
  is_verified once "a" /\ task_validity (derive_demo facts once vp_edges) "a" = Some NodeValidity.STALE.
Proof. vm_compute. split; reflexivity. Qed.

(** Tasks are verified in one pass over the nodes, so whether a task and its
    dependency are verified together depends on which comes first. *)
Lemma derivation_depends_on_order :
  let a := [vp_task "a"; vp_verification "va"; vp_evidence "ea" "va" []] in
  let b := [vp_task "b"; vp_verification "vb"; vp_evidence "eb" "vb" []] in
  let edges := [vp_edge EdgeType.DEPENDS_ON "b" "a"; vp_edge EdgeType.VERIFIES "va" "a"; vp_edge EdgeType.PRODUCES "va" "ea";
                vp_edge EdgeType.VERIFIES "vb" "b"; vp_edge EdgeType.PRODUCES "vb" "eb"] in
  is_verified (derive_demo None (a ++ b) edges) "b" /\
  task_validity (derive_demo None (b ++ a) edges) "b" = Some NodeValidity.UNVERIFIED.
Proof. vm_compute. split; reflexivity. Qed.
