(* ===== verification/Resources.v ===== *)
(** * Resource vectors and atomic reservations
    (ResourceVector of runtimes/multi_agent/models.py, and resources.py)

    A vector has four scalar quantities and named model slots.  The constructor
    validates and normalises, so a [dict] of slots is a finite map here; [plus]
    and [minus] build their result through the constructor and can raise.  The
    manager keeps capacities, reservations, an index by owner and the aggregate
    usage of each pool.  Every method but [restore] runs under one lock, so a
    method is one step; [restore] rebuilds outside the lock and takes it only to
    install the result, so it is two steps ([rebuild], [install]) of a [shared]
    manager. *)

From S2P Require Import Prelude PyString.
Open Scope Z_scope.

(** ** Vectors *)

Record ResourceVector : Type := mkVector {
  cpu_millis : Z;
  ram_bytes : Z;
  gpu_count : Z;
  vram_bytes : Z;
  model_slots : gmap string Z }.
#[global] Instance ResourceVector_eq_dec : EqDecision ResourceVector.
Proof. solve_decision. Defined.

(** [ResourceVector()] *)
Definition empty_vector : ResourceVector := mkVector 0 0 0 0 ∅.

(** The items of a [dict[str, int]] of slots, in iteration order; a later item
    whose name strips to the same key overwrites the earlier one. *)
Fixpoint _model_slots_valid (value : list (string * Z)) (normalized : gmap string Z)
    : result (gmap string Z) :=
  match value with
  | [] => Ok normalized
  | (name, count) :: rest =>
      let key := strip name in
      if decide (key = "") then Raise (ValidationError "model slot names must be non-empty")
      else if decide (count < 0) then Raise (ValidationError "model slot quantities must be >= 0")
      else _model_slots_valid rest (if decide (count = 0) then normalized else <[key := count]> normalized)
  end.
Definition _scalar_non_negative (value : Z) : result Z :=
  if decide (value < 0) then Raise (ValidationError "resource quantities must be >= 0") else Ok value.

(** [ResourceVector(cpu_millis=..., ..., model_slots=...)] *)
Definition new_vector (cpu ram gpu vram : Z) (slots : list (string * Z)) : result ResourceVector :=
  cpu ← _scalar_non_negative cpu;
  ram ← _scalar_non_negative ram;
  gpu ← _scalar_non_negative gpu;
  vram ← _scalar_non_negative vram;
  slots ← _model_slots_valid slots ∅;
  Ok (mkVector cpu ram gpu vram slots).

Definition is_zero (v : ResourceVector) : bool :=
  bool_decide (cpu_millis v = 0) && bool_decide (ram_bytes v = 0) && bool_decide (gpu_count v = 0)
  && bool_decide (vram_bytes v = 0) && bool_decide (model_slots v = ∅).

(** [d.get(name, 0)] *)
Definition slot (v : ResourceVector) (name : string) : Z := default 0 (model_slots v !! name).

Definition scalar_names : list (string * (ResourceVector -> Z)) :=
  [("cpu_millis", cpu_millis); ("ram_bytes", ram_bytes); ("gpu_count", gpu_count); ("vram_bytes", vram_bytes)].
(** The entry a resource contributes to the dict of shortages. *)
Definition shortage (name : string) (requested capacity : Z) : list (string * Z) :=
  let missing := requested - capacity in
  if decide (0 < missing) then [(name, missing)] else [].
Definition shortages (self capacity : ResourceVector) : list (string * Z) :=
  flat_map (fun nf => shortage nf.1 (nf.2 self) (nf.2 capacity)) scalar_names ++
  flat_map (fun nr => shortage ("model_slots." +:+ nr.1) nr.2 (slot capacity nr.1))
    (map_to_list (model_slots self)).
Definition fits_within (self capacity : ResourceVector) : bool :=
  bool_decide (shortages self capacity = []).

(** The slot names of both vectors, as the set union enumerates them. *)
Definition slot_names (a b : ResourceVector) : list string :=
  elements (dom (model_slots a) ∪ dom (model_slots b)).
Definition plus (self other : ResourceVector) : result ResourceVector :=
  new_vector (cpu_millis self + cpu_millis other) (ram_bytes self + ram_bytes other)
    (gpu_count self + gpu_count other) (vram_bytes self + vram_bytes other)
    ((fun name => (name, slot self name + slot other name)) <$> slot_names self other).
Definition minus (self other : ResourceVector) : result ResourceVector :=
  new_vector (cpu_millis self - cpu_millis other) (ram_bytes self - ram_bytes other)
    (gpu_count self - gpu_count other) (vram_bytes self - vram_bytes other)
    ((fun name => (name, slot self name - slot other name)) <$> slot_names self other).

(** ** The manager *)

Record ResourceReservation : Type := mkReservation {
  reservation_id : string;
  rr_pool_id : string;
  rr_owner_id : string;
  rr_resources : ResourceVector;
  rr_created_at : Z }.

Record ResourcePoolSnapshot : Type := mkPoolSnapshot {
  snap_pool_id : string;
  snap_capacity : ResourceVector;
  snap_used : ResourceVector;
  snap_available : ResourceVector;
  snap_reservations : list ResourceReservation }.

Module AtomicResourceManager.

Record t : Type := mk {
  _capacities : gmap string ResourceVector;
  _reservations : gmap string ResourceReservation;
  _owner_index : gmap string string;
  _used_by_pool : gmap string ResourceVector }.

Definition __init__ (capacities : gmap string ResourceVector) : t := mk capacities ∅ ∅ ∅.

Definition capacity (pool_id : string) (s : t) : ResourceVector :=
  default empty_vector (_capacities s !! pool_id).
Definition _used_locked (pool_id : string) (s : t) : ResourceVector :=
  default empty_vector (_used_by_pool s !! pool_id).
Definition used := _used_locked.

Definition set_capacity (pool_id : string) (cap : ResourceVector) : M t unit :=
  used ← gets (_used_locked pool_id);
  raise_if (negb (fits_within used cap)) (ValueError "capacity is below active reservations");;
  modify (fun s => mk (<[pool_id := cap]> (_capacities s)) (_reservations s) (_owner_index s) (_used_by_pool s)).

Definition available (pool_id : string) (s : t) : result ResourceVector :=
  minus (capacity pool_id s) (_used_locked pool_id s).
Definition shortages (pool_id : string) (request : ResourceVector) (s : t) : result (list (string * Z)) :=
  avail ← available pool_id s;
  Ok (Resources.shortages request avail).
Definition can_reserve (pool_id : string) (request : ResourceVector) (s : t) : result bool :=
  avail ← available pool_id s;
  Ok (fits_within request avail).

(** [reservation_id or f"reservation:{pool_id}:{owner_id}"] *)
Definition pick_reservation_id (pool_id owner_id : string) (rid : option string) : string :=
  let dflt := "reservation:" +:+ pool_id +:+ ":" +:+ owner_id in
  match rid with Some r => if decide (r = "") then dflt else r | None => dflt end.

(** The three writes of a granted reservation, in order. *)
Definition put_reservation (r : ResourceReservation) : M t unit :=
  modify (fun s => mk (_capacities s) (<[reservation_id r := r]> (_reservations s)) (_owner_index s) (_used_by_pool s));;
  modify (fun s => mk (_capacities s) (_reservations s) (<[rr_owner_id r := reservation_id r]> (_owner_index s)) (_used_by_pool s));;
  total ← gets (_used_locked (rr_pool_id r));
  total ← of_result (plus total (rr_resources r));
  modify (fun s => mk (_capacities s) (_reservations s) (_owner_index s) (<[rr_pool_id r := total]> (_used_by_pool s))).

Definition try_reserve (pool_id owner_id : string) (request : ResourceVector) (reservation_id : option string)
    (now : Z) : M t (option ResourceReservation) :=
  existing_id ← gets (fun s => _owner_index s !! owner_id);
  match existing_id with
  | Some existing_id =>
      existing ← gets (fun s => _reservations s !! existing_id);
      existing ← some_or_raise existing (KeyError existing_id);
      raise_if (bool_decide (rr_pool_id existing <> pool_id) || bool_decide (rr_resources existing <> request))
        (ValueError "owner already has a different resource reservation");;
      mret (Some existing)
  | None =>
      s ← get_state;
      avail ← of_result (available pool_id s);
      if fits_within request avail then
        let rid := pick_reservation_id pool_id owner_id reservation_id in
        raise_if (bool_decide (is_Some (_reservations s !! rid))) (ValueError "reservation_id already exists");;
        let reservation := mkReservation rid pool_id owner_id request now in
        put_reservation reservation;;
        mret (Some reservation)
      else mret None
  end.

Definition release (reservation_or_owner_id : string) : M t bool :=
  rid ← gets (fun s => default reservation_or_owner_id (_owner_index s !! reservation_or_owner_id));
  reservation ← gets (fun s => _reservations s !! rid);
  match reservation with
  | None => mret false
  | Some r =>
      modify (fun s => mk (_capacities s) (delete rid (_reservations s)) (_owner_index s) (_used_by_pool s));;
      modify (fun s => mk (_capacities s) (_reservations s) (delete (rr_owner_id r) (_owner_index s)) (_used_by_pool s));;
      total ← gets (fun s => _used_by_pool s !! rr_pool_id r);
      total ← some_or_raise total (KeyError (rr_pool_id r));
      total ← of_result (minus total (rr_resources r));
      modify (fun s => mk (_capacities s) (_reservations s) (_owner_index s) (<[rr_pool_id r := total]> (_used_by_pool s)));;
      mret true
  end.

Definition get (rid : string) (s : t) : option ResourceReservation := _reservations s !! rid.
Definition for_owner (owner_id : string) (s : t) : option ResourceReservation :=
  match _owner_index s !! owner_id with
  | Some rid => if decide (rid = "") then None else _reservations s !! rid
  | None => None
  end.

(** [self._reservations.values()] *)
Definition rows (s : t) : list ResourceReservation := (map_to_list (_reservations s)).*2.
Definition list_active (pool_id : option string) (s : t) : list ResourceReservation :=
  sort_on reservation_id
    (match pool_id with Some p => filter (fun r => rr_pool_id r = p) (rows s) | None => rows s end).

(** [total = total.plus(...)] over the rows of the pool *)
Fixpoint sum_pool (pool_id : string) (total : ResourceVector) (l : list ResourceReservation) : result ResourceVector :=
  match l with
  | [] => Ok total
  | r :: l' =>
      if decide (rr_pool_id r = pool_id)
      then total' ← plus total (rr_resources r); sum_pool pool_id total' l'
      else sum_pool pool_id total l'
  end.
Definition _recompute_used_locked (pool_id : string) (s : t) : result ResourceVector :=
  sum_pool pool_id empty_vector (rows s).

Definition snapshot_pool (s : t) (p : string) : result ResourcePoolSnapshot :=
  let cap := capacity p s in
  let reservations := sort_on reservation_id (filter (fun r => rr_pool_id r = p) (rows s)) in
  used ← _recompute_used_locked p s;
  if fits_within used cap then
    if decide (used = _used_locked p s) then
      avail ← minus cap used;
      Ok (mkPoolSnapshot p cap used avail reservations)
    else Raise (ValueError "usage aggregate disagrees with its reservations")
  else Raise (ValueError "logical resource pool is overcommitted").
Fixpoint snapshot_loop (s : t) (pools : list string) : result (list ResourcePoolSnapshot) :=
  match pools with
  | [] => Ok []
  | p :: pools' => x ← snapshot_pool s p; xs ← snapshot_loop s pools'; Ok (x :: xs)
  end.
Definition snapshot (pool_id : option string) (s : t) : result (list ResourcePoolSnapshot) :=
  let pool_ids : gset string := dom (_capacities s) ∪ list_to_set (rr_pool_id <$> rows s) in
  let pool_ids := match pool_id with
    | Some p => if decide (p ∈ pool_ids) then {[ p ]} else ∅
    | None => pool_ids end in
  snapshot_loop s (py_sorted (elements pool_ids)).

Definition restore_one (r : ResourceReservation) (now : Z) : M t unit :=
  restored ← try_reserve (rr_pool_id r) (rr_owner_id r) (rr_resources r) (Some (reservation_id r)) now;
  match restored with
  | None => raise (ValueError "durable resource reservations overcommit the pool")
  | Some _ => mret tt
  end.
(** The first half of [restore] runs outside the lock: it copies the capacities
    once and fills a candidate manager of its own. *)
Definition rebuild (reservations : list ResourceReservation) (now : Z) (capacities : gmap string ResourceVector)
    : result t :=
  match for_each (fun r => restore_one r now) (sort_on reservation_id reservations) (__init__ capacities) with
  | (Ok _, rebuilt) => Ok rebuilt
  | (Raise e, _) => Raise e
  end.
(** The second half, under the lock: three tables are replaced, the capacities
    stay those of the live manager. *)
Definition install (rebuilt : t) : M t unit :=
  modify (fun s => mk (_capacities s) (_reservations rebuilt) (_owner_index rebuilt) (_used_by_pool rebuilt)).
(** A call during which no other thread takes the lock. *)
Definition restore (reservations : list ResourceReservation) (now : Z) : M t unit :=
  capacities ← gets _capacities;
  rebuilt ← of_result (rebuild reservations now capacities);
  install rebuilt.

(** A manager that several threads use: its tables, and the candidates of the
    calls of [restore] that have rebuilt but not yet installed. *)
Record shared : Type := mkShared { live : t; rebuilding : list t }.
(** A call that holds the lock from its first to its last access. *)
Definition locked {A} (m : M t A) (x : shared) : shared := mkShared (m (live x)).2 (rebuilding x).
Definition begin_restore (reservations : list ResourceReservation) (now : Z) (x : shared) : shared :=
  match rebuild reservations now (_capacities (live x)) with
  | Ok rebuilt => mkShared (live x) (rebuilt :: rebuilding x)
  | Raise _ => x
  end.
Definition end_restore (i : nat) (x : shared) : shared :=
  match rebuilding x !! i with
  | Some rebuilt => mkShared (install rebuilt (live x)).2 (delete i (rebuilding x))
  | None => x
  end.
End AtomicResourceManager.
