(* ===== verification/ResourceProps.v ===== *)
(** * Theorems on resource reservations

    Vectors are compared quantity by quantity ([qty]); on normalised vectors that
    is equality, so [plus], [minus] and [fits_within] are arithmetic.  The
    invariant [inv] ties the four tables of the manager together and holds in
    every reachable state. *)

From S2P Require Import Prelude PyString Resources.
Import AtomicResourceManager.
Open Scope Z_scope.

(** ** Vectors by quantity *)

Inductive dim : Type := Cpu | Ram | Gpu | Vram | Slot (name : string).
Definition qty (d : dim) (v : ResourceVector) : Z :=
  match d with
  | Cpu => cpu_millis v | Ram => ram_bytes v | Gpu => gpu_count v | Vram => vram_bytes v
  | Slot name => slot v name
  end.

(** What the constructor establishes. *)
Definition slot_ok (name : string) (count : Z) : Prop := strip name = name /\ name <> "" /\ 0 < count.
Record vec_ok (v : ResourceVector) : Prop := {
  ok_cpu : 0 <= cpu_millis v;
  ok_ram : 0 <= ram_bytes v;
  ok_gpu : 0 <= gpu_count v;
  ok_vram : 0 <= vram_bytes v;
  ok_slots : map_Forall slot_ok (model_slots v) }.

Lemma qty_nonneg d v : vec_ok v -> 0 <= qty d v.
Proof.
  intros [? ? ? ? Hs]. destruct d as [| | | |n]; cbn; [done..|]. unfold slot.
  destruct (model_slots v !! n) as [c|] eqn:E; cbn; [|lia]. apply Hs in E as (_ & _ & ?). lia.
Qed.
Lemma empty_vector_ok : vec_ok empty_vector.
Proof. split; cbn; [lia..|]. apply map_Forall_empty. Qed.
Lemma qty_empty d : qty d empty_vector = 0.
Proof. by destruct d. Qed.
Hint Resolve empty_vector_ok : lhos.

(** Two normalised vectors with the same quantities are equal. *)
Lemma vec_ext a b : vec_ok a -> vec_ok b -> (forall d, qty d a = qty d b) -> a = b.
Proof.
  intros Ha Hb Hd. pose proof (Hd Cpu). pose proof (Hd Ram). pose proof (Hd Gpu). pose proof (Hd Vram).
  destruct a as [? ? ? ? sa], b as [? ? ? ? sb]. cbn in *. subst. f_equal. apply map_eq. intros n.
  specialize (Hd (Slot n)). cbn in Hd. unfold slot in Hd. cbn in Hd.
  pose proof (ok_slots _ Ha n) as Ha'. pose proof (ok_slots _ Hb n) as Hb'. cbn in Ha', Hb'.
  destruct (sa !! n) as [x|] eqn:Ea, (sb !! n) as [y|] eqn:Eb; cbn in Hd; [by subst| | |done].
  - destruct (Ha' x eq_refl) as (_ & _ & ?). lia.
  - destruct (Hb' y eq_refl) as (_ & _ & ?). lia.
Qed.

(** The validator on items with distinct, clean names. *)
Definition named (l : list (string * Z)) : Prop := NoDup l.*1 /\ Forall (fun nc => strip nc.1 = nc.1 /\ nc.1 <> "") l.

Lemma slots_valid_named l m :
  named l -> (forall n, n ∈ l.*1 -> m !! n = None) ->
  if decide (Forall (fun nc => 0 <= nc.2) l)
  then exists m', _model_slots_valid l m = Ok m' /\
       forall n, m' !! n = match tbl_find fst n l with
                           | Some nc => if decide (nc.2 = 0) then None else Some nc.2
                           | None => m !! n end
  else exists e, _model_slots_valid l m = Raise e.
Proof.
  revert m. induction l as [|[n c] l IH]; intros m [Hn Hf] Hm.
  { rewrite decide_True by done. by exists m. }
  rewrite fmap_cons in Hn. apply NoDup_cons in Hn as [Hni Hn]. apply Forall_cons in Hf as [[Hs Hne] Hf].
  cbn [fst snd] in *.
  cbn [_model_slots_valid]. rewrite Hs. rewrite (decide_False (P := n = "")) by done.
  destruct (decide (c < 0)) as [Hc|Hc].
  { rewrite decide_False; [by eauto|]. intros [? _]%Forall_cons. cbn in *. lia. }
  set (m1 := if decide (c = 0) then m else <[n:=c]> m).
  assert (forall k, k ∈ l.*1 -> m1 !! k = None) as Hm1.
  { intros k Hk. assert (k <> n) by (by intros ->). unfold m1. destruct (decide (c = 0)); [|rewrite lookup_insert_ne by done];
      apply Hm; set_solver. }
  specialize (IH m1 (conj Hn Hf) Hm1).
  destruct (decide (Forall (fun nc => 0 <= nc.2) l)) as [Hl|Hl].
  - rewrite decide_True by (constructor; cbn; [lia|done]).
    destruct IH as (m' & -> & Hm'). exists m'. split; [done|]. intros k. rewrite Hm'. cbn [tbl_find fst snd].
    destruct (decide (n = k)) as [<-|Hk].
    + destruct (tbl_find fst n l) as [nc|] eqn:E.
      { apply tbl_find_Some in E as [E1 E2]. exfalso. apply Hni. rewrite <-E1. by apply list_elem_of_fmap_2. }
      cbn [snd]. unfold m1. destruct (decide (c = 0)); [apply Hm; set_solver|apply lookup_insert_eq].
    + destruct (tbl_find fst k l); [done|]. unfold m1. destruct (decide (c = 0)); [done|]. by rewrite lookup_insert_ne.
  - rewrite decide_False; [done|]. intros [_ ?]%Forall_cons. done.
Qed.

Section Pointwise.
Context (f : Z -> Z -> Z) (Hf0 : f 0 0 = 0) (a b : ResourceVector) (Ha : vec_ok a) (Hb : vec_ok b).
Let items : list (string * Z) := (fun name => (name, f (slot a name) (slot b name))) <$> slot_names a b.
Let built : result ResourceVector :=
  new_vector (f (cpu_millis a) (cpu_millis b)) (f (ram_bytes a) (ram_bytes b))
    (f (gpu_count a) (gpu_count b)) (f (vram_bytes a) (vram_bytes b)) items.

Lemma items_names : items.*1 = slot_names a b.
Proof. unfold items. rewrite <-list_fmap_compose. apply list_fmap_id. Qed.
Lemma items_named : named items.
Proof.
  split; [rewrite items_names; apply NoDup_elements|]. apply Forall_forall.
  intros x (n & -> & Hn)%list_elem_of_fmap. cbn.
  unfold slot_names in Hn. apply elem_of_elements, elem_of_union in Hn as [[c Hc]%elem_of_dom|[c Hc]%elem_of_dom].
  - by destruct (ok_slots _ Ha n c Hc) as (? & ? & _).
  - by destruct (ok_slots _ Hb n c Hc) as (? & ? & _).
Qed.
Lemma items_find n :
  tbl_find fst n items = if decide (n ∈ slot_names a b) then Some (n, f (slot a n) (slot b n)) else None.
Proof.
  case_decide as Hn.
  - apply (tbl_find_elem fst items (n, f (slot a n) (slot b n))); [apply items_named|].
    by apply (list_elem_of_fmap_2 (fun n => (n, f (slot a n) (slot b n)))).
  - apply tbl_find_None. intros x Hx <-. apply Hn. rewrite <-items_names. by apply list_elem_of_fmap_2.
Qed.
Lemma slot_outside n : n ∉ slot_names a b -> slot a n = 0 /\ slot b n = 0.
Proof.
  unfold slot_names. rewrite elem_of_elements, not_elem_of_union, !not_elem_of_dom.
  intros [E1 E2]. unfold slot. by rewrite E1, E2.
Qed.

(** Building a vector quantity by quantity succeeds exactly when no quantity is
    negative, and the quantities are then those asked for. *)
Lemma built_spec :
  (exists v, built = Ok v /\ vec_ok v /\ forall d, qty d v = f (qty d a) (qty d b)) \/
  (exists e d, built = Raise e /\ f (qty d a) (qty d b) < 0).
Proof.
  unfold built, new_vector, mbind, result_bind, _scalar_non_negative.
  destruct (decide (f (cpu_millis a) (cpu_millis b) < 0)) as [|Hcpu]; [right; eexists _, Cpu; done|].
  destruct (decide (f (ram_bytes a) (ram_bytes b) < 0)) as [|Hram]; [right; eexists _, Ram; done|].
  destruct (decide (f (gpu_count a) (gpu_count b) < 0)) as [|Hgpu]; [right; eexists _, Gpu; done|].
  destruct (decide (f (vram_bytes a) (vram_bytes b) < 0)) as [|Hvram]; [right; eexists _, Vram; done|].
  pose proof (slots_valid_named items ∅ items_named (fun n _ => lookup_empty n)) as Hv.
  case_decide as Hn; [left|right].
  - destruct Hv as (m & -> & Hm). eexists. split; [done|].
    assert (forall n, default 0 (m !! n) = f (slot a n) (slot b n)) as Hq.
    { intros n. rewrite Hm, items_find. destruct (decide (n ∈ slot_names a b)) as [Hn'|Hn'].
      - cbn. case_decide as Hz; [by rewrite Hz|done].
      - destruct (slot_outside n Hn') as [-> ->]. by rewrite lookup_empty. }
    split; [|by intros []; [..|apply Hq]]. constructor; cbn; [lia..|]. intros n c Hc.
    pose proof Hc as Hc'. rewrite Hm, items_find in Hc'.
    destruct (decide (n ∈ slot_names a b)) as [Hin|]; [|by rewrite lookup_empty in Hc'].
    cbn in Hc'. case_decide; [done|]. simplify_eq. destruct items_named as [_ Hnm].
    rewrite Forall_forall in Hn, Hnm. set (x := (n, f (slot a n) (slot b n))).
    assert (x ∈ items) as Hx by (apply (list_elem_of_fmap_2 (fun n => (n, f (slot a n) (slot b n)))); done).
    specialize (Hn x Hx). destruct (Hnm x Hx). cbn in *. split; [done|]. split; [done|]. lia.
  - destruct Hv as [e ->]. exists e. apply not_Forall_Exists in Hn; [|apply _].
    apply Exists_exists in Hn as (x & (n & -> & _)%list_elem_of_fmap & Hx). cbn in Hx.
    exists (Slot n). split; [done|]. cbn. lia.
Qed.
End Pointwise.

(** Addition never raises. *)
Lemma plus_spec a b : vec_ok a -> vec_ok b ->
  exists v, plus a b = Ok v /\ vec_ok v /\ forall d, qty d v = qty d a + qty d b.
Proof.
  intros Ha Hb. destruct (built_spec Z.add eq_refl a b Ha Hb) as [?|(e & d & _ & Hd)]; [done|].
  pose proof (qty_nonneg d a Ha). pose proof (qty_nonneg d b Hb). lia.
Qed.
(** Subtraction raises exactly when some quantity would be negative. *)
Lemma minus_spec a b : vec_ok a -> vec_ok b ->
  (exists v, minus a b = Ok v /\ vec_ok v /\ forall d, qty d v = qty d a - qty d b) \/
  (exists e d, minus a b = Raise e /\ qty d a < qty d b).
Proof.
  intros Ha Hb. destruct (built_spec Z.sub eq_refl a b Ha Hb) as [?|(e & d & He & Hd)]; [by left|].
  right. exists e, d. split; [done|]. lia.
Qed.
Lemma minus_Ok a b : vec_ok a -> vec_ok b -> (forall d, qty d b <= qty d a) ->
  exists v, minus a b = Ok v /\ vec_ok v /\ forall d, qty d v = qty d a - qty d b.
Proof.
  intros Ha Hb Hle. destruct (minus_spec a b Ha Hb) as [?|(e & d & _ & Hd)]; [done|].
  specialize (Hle d). lia.
Qed.

Lemma shortage_nil name r c : shortage name r c = [] <-> r <= c.
Proof. unfold shortage. case_decide; split; intros; try done; lia. Qed.
Lemma flat_map_nil {A B} (f : A -> list B) l : flat_map f l = [] <-> Forall (fun x => f x = []) l.
Proof.
  induction l as [|x l IH]; cbn; [done|]. rewrite Forall_cons, <-IH. apply app_nil.
Qed.
(** A vector fits exactly when every quantity does. *)
Lemma fits_within_iff a b : vec_ok b -> fits_within a b = true <-> forall d, qty d a <= qty d b.
Proof.
  intros Hb. unfold fits_within. rewrite bool_decide_eq_true. unfold Resources.shortages.
  rewrite app_nil, !flat_map_nil. unfold scalar_names.
  rewrite !Forall_cons. cbn [fst snd]. setoid_rewrite shortage_nil. split.
  - intros [(H1 & H2 & H3 & H4 & _) Hs] []; cbn; [done..|]. rewrite Forall_forall in Hs.
    unfold slot at 1. destruct (model_slots a !! name) as [c|] eqn:E; cbn.
    + apply (Hs (name, c)). by apply elem_of_map_to_list.
    + apply (qty_nonneg (Slot name) b Hb).
  - intros Hd. split; [split_and!; [apply (Hd Cpu)|apply (Hd Ram)|apply (Hd Gpu)|apply (Hd Vram)|constructor]|].
    apply Forall_forall. intros [n c] Hn%elem_of_map_to_list. cbn.
    specialize (Hd (Slot n)). cbn in Hd. unfold slot at 1 in Hd. by rewrite Hn in Hd.
Qed.

(** ** The manager's invariant *)

(** What the reservations of a pool sum to. *)
Definition share (p : string) (d : dim) (r : ResourceReservation) : Z :=
  if decide (rr_pool_id r = p) then qty d (rr_resources r) else 0.
Definition load (p : string) (d : dim) (rs : gmap string ResourceReservation) : Z :=
  map_fold (fun _ r acc => share p d r + acc) 0 rs.

Lemma load_empty p d : load p d ∅ = 0.
Proof. apply map_fold_empty. Qed.
Lemma load_insert p d rs rid r : rs !! rid = None -> load p d (<[rid := r]> rs) = share p d r + load p d rs.
Proof. intros E. unfold load. rewrite map_fold_insert_L; [done| |done]. intros. lia. Qed.
Lemma load_delete p d rs rid r : rs !! rid = Some r -> load p d (delete rid rs) = load p d rs - share p d r.
Proof.
  intros E. rewrite <-(insert_delete_id rs rid r E) at 2. rewrite load_insert by apply lookup_delete_eq. lia.
Qed.

Definition row_ok (s : t) (rid : string) (r : ResourceReservation) : Prop :=
  reservation_id r = rid /\ rid <> "" /\ vec_ok (rr_resources r) /\ is_Some (_used_by_pool s !! rr_pool_id r).
Definition all_ok (m : gmap string ResourceVector) : Prop := map_Forall (fun _ v => vec_ok v) m.
Record inv (s : t) : Prop := {
  inv_cap : all_ok (_capacities s);
  inv_used : all_ok (_used_by_pool s);
  inv_rows : map_Forall (row_ok s) (_reservations s);
  inv_owner o rid : _owner_index s !! o = Some rid <->
    exists r, _reservations s !! rid = Some r /\ rr_owner_id r = o;
  inv_load p d : qty d (_used_locked p s) = load p d (_reservations s);
  inv_fits p d : qty d (_used_locked p s) <= qty d (capacity p s) }.

Lemma default_vec_ok m k : all_ok m -> vec_ok (default empty_vector (m !! k)).
Proof.
  intros Hm. destruct (m !! k) eqn:E; cbn; [|apply empty_vector_ok]. by eapply Hm.
Qed.
Lemma all_ok_insert m k v : all_ok m -> vec_ok v -> all_ok (<[k := v]> m).
Proof. intros Hm Hv. by apply map_Forall_insert_2. Qed.
Lemma capacity_ok s p : inv s -> vec_ok (capacity p s).
Proof. intros Hs. apply default_vec_ok, Hs. Qed.
Lemma used_ok s p : inv s -> vec_ok (_used_locked p s).
Proof. intros Hs. apply default_vec_ok, Hs. Qed.
#[local] Hint Resolve default_vec_ok all_ok_insert capacity_ok used_ok inv_cap inv_used : lhos.

Lemma used_insert p v s c rs oi q :
  _used_locked q (mk c rs oi (<[p := v]> (_used_by_pool s))) = if decide (p = q) then v else _used_locked q s.
Proof.
  unfold _used_locked. cbn. case_decide as E; [by rewrite E, lookup_insert_eq|by rewrite lookup_insert_ne].
Qed.

Lemma __init___inv caps : all_ok caps -> inv (__init__ caps).
Proof.
  intros Hc. split; cbn; [done|apply map_Forall_empty|apply map_Forall_empty| | |].
  - intros o rid. rewrite lookup_empty. split; [done|]. by intros (r & ? & _).
  - intros p d. unfold _used_locked. cbn. by rewrite lookup_empty, load_empty; destruct d.
  - intros p d. unfold _used_locked, capacity. cbn. rewrite lookup_empty. cbn [default].
    rewrite qty_empty. apply qty_nonneg. by apply default_vec_ok.
Qed.

Lemma available_spec s p : inv s ->
  exists v, available p s = Ok v /\ vec_ok v /\ forall d, qty d v = qty d (capacity p s) - qty d (_used_locked p s).
Proof. intros Hs. apply minus_Ok; auto with lhos. intros d. apply Hs. Qed.

(** *** Reserving *)

(** The state after a granted reservation whose pool then totals [total]. *)
Definition reserved (s : t) (r : ResourceReservation) (total : ResourceVector) : t :=
  mk (_capacities s) (<[reservation_id r := r]> (_reservations s))
     (<[rr_owner_id r := reservation_id r]> (_owner_index s)) (<[rr_pool_id r := total]> (_used_by_pool s)).

Lemma put_reservation_run s r : inv s -> vec_ok (rr_resources r) ->
  exists total, put_reservation r s = (Ok tt, reserved s r total) /\ vec_ok total /\
    forall d, qty d total = qty d (_used_locked (rr_pool_id r) s) + qty d (rr_resources r).
Proof.
  intros Hs Hr. destruct (plus_spec (_used_locked (rr_pool_id r) s) (rr_resources r)) as (v & Hv & Hok & Hq);
    [by auto with lhos|done|]. exists v. split; [|done].
  unfold put_reservation. run_m. cbn. unfold _used_locked in *. cbn. unfold of_result. by rewrite Hv.
Qed.

Definition fits (s : t) (p : string) (request : ResourceVector) : Prop :=
  forall d, qty d (_used_locked p s) + qty d request <= qty d (capacity p s).

(** The complete behaviour of [try_reserve] in a state of the invariant. *)
Lemma try_reserve_run s p o request rid now : inv s -> vec_ok request ->
  let id := pick_reservation_id p o rid in
  (exists r, for_owner o s = Some r /\
     ((rr_pool_id r = p /\ rr_resources r = request /\ try_reserve p o request rid now s = (Ok (Some r), s)) \/
      (~ (rr_pool_id r = p /\ rr_resources r = request) /\ exists w, try_reserve p o request rid now s = (Raise (ValueError w), s)))) \/
  (for_owner o s = None /\ _owner_index s !! o = None /\
     ((~ fits s p request /\ try_reserve p o request rid now s = (Ok None, s)) \/
      (fits s p request /\ is_Some (get id s) /\ exists w, try_reserve p o request rid now s = (Raise (ValueError w), s)) \/
      (fits s p request /\ get id s = None /\ let r := mkReservation id p o request now in
         exists total, try_reserve p o request rid now s = (Ok (Some r), reserved s r total) /\ vec_ok total /\
           forall d, qty d total = qty d (_used_locked p s) + qty d request))).
Proof.
  intros Hs Hr id. unfold for_owner. destruct (_owner_index s !! o) as [eid|] eqn:Eo.
  - left. pose proof Eo as Eo'. apply (inv_owner s Hs) in Eo' as (r & Er & Ho).
    destruct (inv_rows s Hs eid r Er) as (Hid & Hne & _). rewrite decide_False by done.
    exists r. split; [done|]. unfold try_reserve. run_m. cbn. rewrite Eo. cbn. rewrite Er. cbn.
    destruct (decide (rr_pool_id r = p)) as [Hp|Hp], (decide (rr_resources r = request)) as [Hq|Hq].
    + left. rewrite !bool_decide_false by tauto. done.
    + right. split; [tauto|]. rewrite (bool_decide_true (rr_resources r <> request)) by done. rewrite orb_true_r. eauto.
    + right. split; [tauto|]. rewrite (bool_decide_true (rr_pool_id r <> p)) by done. eauto.
    + right. split; [tauto|]. rewrite (bool_decide_true (rr_pool_id r <> p)) by done. eauto.
  - right. split; [done|]. split; [done|].
    destruct (available_spec s p Hs) as (av & Hav & Hok & Hq).
    unfold try_reserve. run_m. cbn. rewrite Eo. unfold of_result. rewrite Hav. cbn.
    assert (fits_within request av = true <-> fits s p request) as Hf.
    { rewrite fits_within_iff by done. unfold fits. setoid_rewrite Hq. split; intros H1 d; specialize (H1 d); lia. }
    destruct (fits_within request av) eqn:E; [right|left; split; [intros H1%Hf; done|done]].
    assert (fits s p request) as Hfit by tauto. unfold get. fold id.
    destruct (_reservations s !! id) as [r0|] eqn:Er.
    + left. rewrite bool_decide_true by done. eauto.
    + right. rewrite bool_decide_false by (by intros [? ?]). split; [done|]. split; [done|].
      destruct (put_reservation_run s (mkReservation id p o request now) Hs Hr) as (total & Hput & Ht).
      exists total. split; [|done]. cbn. by rewrite Hput.
Qed.

Lemma pick_nonempty p o rid : pick_reservation_id p o rid <> "".
Proof. unfold pick_reservation_id. destruct rid; [case_decide|]; done. Qed.

Lemma reserved_inv s r total :
  inv s -> vec_ok (rr_resources r) -> reservation_id r <> "" -> get (reservation_id r) s = None ->
  _owner_index s !! rr_owner_id r = None -> fits s (rr_pool_id r) (rr_resources r) -> vec_ok total ->
  (forall d, qty d total = qty d (_used_locked (rr_pool_id r) s) + qty d (rr_resources r)) ->
  inv (reserved s r total).
Proof.
  intros Hs Hr Hne Hget Ho Hfit Ht Hq. unfold get in Hget. split; cbn.
  - apply Hs.
  - apply all_ok_insert; [apply Hs|done].
  - apply map_Forall_insert_2.
    + split_and!; [done..|]. cbn. rewrite lookup_insert_eq. by eexists.
    + intros rid r' (? & ? & ? & Hu)%(inv_rows s Hs). split_and!; [done..|]. cbn.
      destruct (decide (rr_pool_id r = rr_pool_id r')) as [->|]; [by rewrite lookup_insert_eq|by rewrite lookup_insert_ne].
  - intros o rid. destruct (decide (rr_owner_id r = o)) as [<-|Hneo].
    + rewrite lookup_insert_eq. split.
      * intros [= <-]. exists r. by rewrite lookup_insert_eq.
      * intros (r' & [[<- <-]|[_ Hr']]%lookup_insert_Some & Hor); [done|].
        assert (_owner_index s !! rr_owner_id r = Some rid) by (apply (inv_owner s Hs); eauto). congruence.
    + rewrite lookup_insert_ne by done. rewrite (inv_owner s Hs).
      split; intros (r' & Hr' & Hor); exists r'; (split; [|done]).
      * rewrite lookup_insert_ne; [done|congruence].
      * apply lookup_insert_Some in Hr' as [[_ <-]|[_ ?]]; [done|done].
  - intros p d. unfold reserved. rewrite used_insert, load_insert by done. unfold share.
    pose proof (inv_load s Hs p d) as Hl. destruct (decide (rr_pool_id r = p)) as [<-|]; rewrite ?Hq; lia.
  - intros p d. unfold reserved. rewrite used_insert.
    destruct (decide (rr_pool_id r = p)) as [<-|]; [rewrite Hq; apply Hfit|apply (inv_fits s Hs)].
Qed.

Lemma try_reserve_inv s p o request rid now :
  inv s -> vec_ok request -> inv (try_reserve p o request rid now s).2.
Proof.
  intros Hs Hr. destruct (try_reserve_run s p o request rid now Hs Hr)
    as [(r & _ & [(_ & _ & ->)|(_ & w & ->)])|(_ & Ho & [(_ & ->)|[(_ & _ & w & ->)|(Hf & Hg & tot & -> & Ht & Hq)]])];
    [done..|].
  apply reserved_inv; cbn; auto using pick_nonempty.
Qed.

(** *** Releasing *)

(** The reservation a name stands for: an owner's first, then one by id. *)
Definition resolve (x : string) (s : t) : string := default x (_owner_index s !! x).
Definition released (s : t) (r : ResourceReservation) (total : ResourceVector) : t :=
  mk (_capacities s) (delete (reservation_id r) (_reservations s)) (delete (rr_owner_id r) (_owner_index s))
     (<[rr_pool_id r := total]> (_used_by_pool s)).

Lemma load_nonneg rs p d : map_Forall (fun _ r => vec_ok (rr_resources r)) rs -> 0 <= load p d rs.
Proof.
  induction rs as [|rid r rs Hn Hfresh IH] using map_first_key_ind; [by rewrite load_empty|].
  intros [Hr Hrs]%map_Forall_insert; [|done]. rewrite load_insert by done. specialize (IH Hrs).
  unfold share. case_decide; [|lia]. pose proof (qty_nonneg d _ Hr). lia.
Qed.
Lemma rows_vec_ok s : inv s -> map_Forall (fun _ r => vec_ok (rr_resources r)) (_reservations s).
Proof. intros Hs rid r (_ & _ & ? & _)%(inv_rows s Hs). done. Qed.
Lemma share_le_load s rid r p d : inv s -> _reservations s !! rid = Some r ->
  share p d r <= load p d (_reservations s).
Proof.
  intros Hs Hr. pose proof (load_delete p d _ _ _ Hr) as Hl.
  assert (0 <= load p d (delete rid (_reservations s))); [|lia].
  apply load_nonneg. apply map_Forall_delete. by apply rows_vec_ok.
Qed.

Lemma release_outcome s x : inv s ->
  (get (resolve x s) s = None /\ release x s = (Ok false, s)) \/
  (exists r total, get (resolve x s) s = Some r /\ release x s = (Ok true, released s r total) /\ vec_ok total /\
     reservation_id r = resolve x s /\
     forall d, qty d total = qty d (_used_locked (rr_pool_id r) s) - qty d (rr_resources r)).
Proof.
  intros Hs. unfold get, release. run_m. cbn. fold (resolve x s).
  destruct (_reservations s !! resolve x s) as [r|] eqn:E; [right|by left].
  destruct (inv_rows s Hs _ _ E) as (Hid & _ & Hr & [u Hu]).
  assert (_used_locked (rr_pool_id r) s = u) as Hul by (unfold _used_locked; by rewrite Hu).
  destruct (minus_Ok u (rr_resources r)) as (v & Hv & Hok & Hq); [by eapply (inv_used s Hs)|done| |].
  { intros d. rewrite <-Hul, (inv_load s Hs). pose proof (share_le_load s _ r (rr_pool_id r) d Hs E) as Hle.
    unfold share in Hle. by rewrite decide_True in Hle. }
  exists r, v. rewrite Hu. cbn. unfold of_result. rewrite Hv. cbn. split; [done|].
  unfold released. rewrite Hid. split; [done|]. split; [done|]. split; [done|]. by rewrite Hul.
Qed.

Lemma released_inv s r total :
  inv s -> get (reservation_id r) s = Some r -> vec_ok total ->
  (forall d, qty d total = qty d (_used_locked (rr_pool_id r) s) - qty d (rr_resources r)) ->
  inv (released s r total).
Proof.
  intros Hs Hg Ht Hq. unfold get in Hg. split; cbn.
  - apply Hs.
  - apply all_ok_insert; [apply Hs|done].
  - apply map_Forall_delete. intros rid r' (? & ? & ? & Hu)%(inv_rows s Hs). split_and!; [done..|]. cbn.
    destruct (decide (rr_pool_id r = rr_pool_id r')) as [->|]; [by rewrite lookup_insert_eq|by rewrite lookup_insert_ne].
  - intros o rid. rewrite !lookup_delete_Some, (inv_owner s Hs). split.
    + intros (Ho & r' & Hr' & Hor). exists r'. split; [|done]. apply lookup_delete_Some. split; [congruence|done].
    + intros (r' & [Hne Hr']%lookup_delete_Some & Hor). split; [|eauto]. intros Ho.
      assert (_owner_index s !! o = Some rid) as E1 by (apply (inv_owner s Hs); eauto).
      assert (_owner_index s !! o = Some (reservation_id r)) as E2 by (apply (inv_owner s Hs); eauto). congruence.
  - intros p d. unfold released. rewrite used_insert, (load_delete _ _ _ _ _ Hg). unfold share.
    pose proof (inv_load s Hs p d) as Hl. destruct (decide (rr_pool_id r = p)) as [<-|]; rewrite ?Hq; lia.
  - intros p d. unfold released. rewrite used_insert. pose proof (inv_fits s Hs p d) as Hf.
    destruct (decide (rr_pool_id r = p)) as [<-|]; [|apply Hf]. rewrite Hq.
    pose proof (qty_nonneg d _ (rows_vec_ok s Hs _ _ Hg)). unfold capacity in *. cbn. lia.
Qed.

Lemma release_inv s x : inv s -> inv (release x s).2.
Proof.
  intros Hs. destruct (release_outcome s x Hs) as [(_ & ->)|(r & tot & Hg & -> & Ht & Hid & Hq)]; [done|].
  apply released_inv; [done| |done|done]. by rewrite Hid.
Qed.

(** *** Capacities and restoration *)

Lemma set_capacity_inv s p c : inv s -> vec_ok c -> inv (set_capacity p c s).2.
Proof.
  intros Hs Hc. unfold set_capacity. run_m. cbn. destruct (fits_within (_used_locked p s) c) eqn:E; cbn; [|done].
  pose proof (proj1 (fits_within_iff (_used_locked p s) c Hc) E) as Hle.
  split; cbn; [by apply all_ok_insert; [apply Hs|]|apply Hs|apply Hs|apply Hs|apply Hs|].
  intros q d. unfold capacity. cbn. destruct (decide (p = q)) as [<-|Hne].
  - rewrite lookup_insert_eq. apply Hle.
  - rewrite lookup_insert_ne by done. apply (inv_fits s Hs).
Qed.

Lemma restore_one_inv s r now : inv s -> vec_ok (rr_resources r) -> inv (restore_one r now s).2.
Proof.
  intros Hs Hr. unfold restore_one. run_m.
  pose proof (try_reserve_inv s (rr_pool_id r) (rr_owner_id r) (rr_resources r) (Some (reservation_id r)) now Hs Hr) as Hi.
  destruct (try_reserve _ _ _ _ _ s) as [[[r'|]|e] s']; done.
Qed.
Lemma restore_loop_inv l now s :
  Forall (fun r => vec_ok (rr_resources r)) l -> inv s -> inv (for_each (fun r => restore_one r now) l s).2.
Proof.
  revert s. induction l as [|r l IH]; intros s Hl Hs; [done|]. apply Forall_cons in Hl as [Hr Hl]. cbn.
  unfold mbind, M_bind. pose proof (restore_one_inv s r now Hs Hr) as Hi.
  destruct (restore_one r now s) as [[u|e] s']; [|done]. by apply IH.
Qed.
(** The capacities are no part of what restoration writes. *)
Lemma restore_loop_caps l now s : _capacities (for_each (fun r => restore_one r now) l s).2 = _capacities s.
Proof.
  apply (within_for_each (keeps _capacities)). intros r.
  unfold restore_one, try_reserve, put_reservation. solve_within.
Qed.
Lemma rebuild_inv l now caps b :
  all_ok caps -> Forall (fun r => vec_ok (rr_resources r)) l -> rebuild l now caps = Ok b ->
  inv b /\ _capacities b = caps.
Proof.
  intros Hcaps Hl. unfold rebuild.
  pose proof (restore_loop_inv (sort_on reservation_id l) now (__init__ caps)) as Hi.
  pose proof (restore_loop_caps (sort_on reservation_id l) now (__init__ caps)) as Hc.
  destruct (for_each _ _ _) as [[u|e] s']; [|done]. intros [= <-]. split; [|done]. apply Hi.
  - by rewrite sort_on_perm.
  - by apply __init___inv.
Qed.

(** ** Reachable states *)

(** The live manager once the candidate [b] is installed. *)
Definition installed (s b : t) : t := (install b s).2.

(** One step of one of the threads that share the manager, on valid arguments.
    A capacity may be set while candidates wait to be installed only when every
    one of them fits it. *)
Inductive step : shared -> shared -> Prop :=
| step_set_capacity p c x : vec_ok c ->
    Forall (fun b => fits_within (_used_locked p b) c = true) (rebuilding x) -> step x (locked (set_capacity p c) x)
| step_try_reserve p o request rid now x : vec_ok request -> step x (locked (try_reserve p o request rid now) x)
| step_release o x : step x (locked (release o) x)
| step_begin_restore l now x : Forall (fun r => vec_ok (rr_resources r)) l -> step x (begin_restore l now x)
| step_end_restore i x : step x (end_restore i x).
Definition reachable (s : t) : Prop :=
  exists caps waiting, all_ok caps /\ rtc step (mkShared (__init__ caps) []) (mkShared s waiting).

Lemma reachable_run caps x : all_ok caps -> rtc step (mkShared (__init__ caps) []) x -> reachable (live x).
Proof. intros Hc Hr. exists caps, (rebuilding x). by destruct x. Qed.

(** The live manager is sound and stays sound whichever candidate is installed. *)
Definition shared_inv (x : shared) : Prop :=
  inv (live x) /\ Forall (fun b => inv (installed (live x) b)) (rebuilding x).

Lemma locked_shared_inv {A} (m : M t A) x :
  within (keeps _capacities) m -> (inv (live x) -> inv (m (live x)).2) -> shared_inv x -> shared_inv (locked m x).
Proof.
  intros Hm Hi [Hs Hw]. split; [by apply Hi|]. cbn. eapply Forall_impl; [exact Hw|]. intros b.
  unfold installed, install, modify. cbn. by rewrite (Hm (live x)).
Qed.
Lemma set_capacity_shared_inv p c x : vec_ok c ->
  Forall (fun b => fits_within (_used_locked p b) c = true) (rebuilding x) ->
  shared_inv x -> shared_inv (locked (set_capacity p c) x).
Proof.
  intros Hc Hf [Hs Hw]. split; [by apply set_capacity_inv|]. cbn.
  rewrite Forall_forall in Hf, Hw |- *. intros b Hb. specialize (Hf b Hb). specialize (Hw b Hb).
  pose proof (set_capacity_inv _ p c Hw Hc) as Hi. revert Hi.
  unfold installed, install, set_capacity, modify. run_m. cbn.
  change (_used_locked p (mk _ _ _ _)) with (_used_locked p b). rewrite Hf. cbn.
  by destruct (fits_within (_used_locked p (live x)) c).
Qed.
Lemma begin_restore_shared_inv l now x :
  Forall (fun r => vec_ok (rr_resources r)) l -> shared_inv x -> shared_inv (begin_restore l now x).
Proof.
  intros Hl [Hs Hw]. unfold begin_restore. destruct (rebuild _ _ _) as [b|e] eqn:E; [|done].
  split; [done|]. constructor; [|done]. apply rebuild_inv in E as [Hi Hc]; [|by apply Hs|done].
  unfold installed, install, modify. cbn. rewrite <-Hc. by destruct b.
Qed.
Lemma end_restore_shared_inv i x : shared_inv x -> shared_inv (end_restore i x).
Proof.
  intros [Hs Hw]. unfold end_restore. destruct (_ !! i) as [b|] eqn:E; [|done]. split.
  - by apply (Forall_lookup_1 _ _ _ _ Hw E).
  - apply (Forall_delete _ _ i) in Hw. eapply Forall_impl; [exact Hw|done].
Qed.

Lemma step_inv x x' : step x x' -> shared_inv x -> shared_inv x'.
Proof.
  intros [] Hs.
  - by apply set_capacity_shared_inv.
  - apply locked_shared_inv; [|by intros; apply try_reserve_inv|done].
    unfold try_reserve, put_reservation. solve_within.
  - apply locked_shared_inv; [|apply release_inv|done]. unfold release. solve_within.
  - by apply begin_restore_shared_inv.
  - by apply end_restore_shared_inv.
Qed.
Lemma reachable_inv s : reachable s -> inv s.
Proof.
  intros (caps & waiting & Hc & Hr).
  assert (shared_inv (mkShared (__init__ caps) [])) as Hi by (split; [by apply __init___inv|constructor]).
  enough (shared_inv (mkShared s waiting)) as [? _] by done. revert Hi. induction Hr; eauto using step_inv.
Qed.

(** ** Auditing *)

Lemma sum_pool_spec p l total :
  vec_ok total -> Forall (fun r => vec_ok (rr_resources r)) l ->
  exists v, sum_pool p total l = Ok v /\ vec_ok v /\
    forall d, qty d v = qty d total + foldr (fun r acc => share p d r + acc) 0 l.
Proof.
  revert total. induction l as [|r l IH]; intros total Ht Hl; cbn.
  - exists total. split; [done|]. split; [done|]. intros d. lia.
  - apply Forall_cons in Hl as [Hr Hl]. unfold share at 1. destruct (decide (rr_pool_id r = p)) as [Hp|Hp].
    + destruct (plus_spec total _ Ht Hr) as (v & Hv & Hok & Hq). unfold mbind, result_bind. rewrite Hv.
      destruct (IH v Hok Hl) as (w & Hw & Hwok & Hwq). exists w. split; [done|]. split; [done|].
      intros d. rewrite Hwq, Hq. unfold share. lia.
    + destruct (IH total Ht Hl) as (w & Hw & Hwok & Hwq). exists w. split; [done|]. split; [done|].
      intros d. rewrite Hwq. lia.
Qed.
Lemma load_rows s p d : load p d (_reservations s) = foldr (fun r acc => share p d r + acc) 0 (rows s).
Proof.
  unfold load, rows. rewrite map_fold_foldr. generalize (map_to_list (_reservations s)).
  intros l. induction l as [|[k r] l IH]; cbn; [done|]. by rewrite IH.
Qed.
Lemma rows_ok s : inv s -> Forall (fun r => vec_ok (rr_resources r)) (rows s).
Proof.
  intros Hs. apply Forall_forall. intros r ([rid r'] & -> & Hr%elem_of_map_to_list)%list_elem_of_fmap.
  by apply (rows_vec_ok s Hs rid).
Qed.
(** The audit's sum is the maintained aggregate. *)
Lemma recompute_used s p : inv s -> _recompute_used_locked p s = Ok (_used_locked p s).
Proof.
  intros Hs. destruct (sum_pool_spec p (rows s) empty_vector empty_vector_ok (rows_ok s Hs)) as (v & Hv & Hok & Hq).
  unfold _recompute_used_locked. rewrite Hv. f_equal. apply vec_ext; auto with lhos. intros d.
  rewrite Hq, qty_empty, (inv_load s Hs), load_rows. lia.
Qed.
Lemma snapshot_pool_run s p : inv s ->
  exists av, snapshot_pool s p =
    Ok (mkPoolSnapshot p (capacity p s) (_used_locked p s) av (list_active (Some p) s)) /\
  vec_ok av /\ forall d, qty d (_used_locked p s) + qty d av = qty d (capacity p s).
Proof.
  intros Hs. destruct (available_spec s p Hs) as (av & Hav & Hok & Hq). exists av.
  split; [|split; [done|intros d; rewrite Hq; lia]].
  unfold snapshot_pool, mbind, result_bind. rewrite (recompute_used s p Hs).
  rewrite (proj2 (fits_within_iff (_used_locked p s) (capacity p s) (capacity_ok s p Hs)) (inv_fits s Hs p)).
  rewrite decide_True by done. unfold available in Hav. by rewrite Hav.
Qed.
Definition snapshot_sound (s : t) (x : ResourcePoolSnapshot) : Prop :=
  snap_capacity x = capacity (snap_pool_id x) s /\ snap_used x = used (snap_pool_id x) s /\
  snap_reservations x = list_active (Some (snap_pool_id x)) s /\
  forall d, qty d (snap_used x) + qty d (snap_available x) = qty d (snap_capacity x) /\ 0 <= qty d (snap_available x).
Lemma snapshot_loop_run s pools : inv s ->
  exists xs, snapshot_loop s pools = Ok xs /\ snap_pool_id <$> xs = pools /\ Forall (snapshot_sound s) xs.
Proof.
  intros Hs. induction pools as [|p pools (xs & Hxs & Hp & Hall)]; [by exists []|].
  destruct (snapshot_pool_run s p Hs) as (av & Hav & Hok & Hq). eexists (_ :: xs). cbn.
  unfold mbind, result_bind. rewrite Hav, Hxs. split; [done|]. split; [f_equal; exact Hp|].
  constructor; [|done]. split_and!; [done..|]. cbn. intros d. split; [apply Hq|by apply qty_nonneg].
Qed.

(** ** The theorems *)

(** C30: however the calls of [set_capacity], [try_reserve], [release] and [restore]
    of several threads interleave, a [restore] being interleaved between the
    rebuild it does outside the lock and the installation it does under it, and
    provided that no [set_capacity] in between lowers a pool below what the
    rebuilt candidate reserves there ([restore_races_set_capacity] is what then
    happens), every quantity of every pool satisfies 0 <= used <= capacity,
    the O(1) aggregate is exactly what the active reservations sum to, and the
    audit [snapshot] never raises: it reports each pool it knows once, in order,
    with used + available = capacity. *)
Theorem reservations_within_capacity s :
  reachable s ->
  (forall p d, 0 <= qty d (used p s) <= qty d (capacity p s) /\ qty d (used p s) = load p d (_reservations s)) /\
  exists xs, snapshot None s = Ok xs /\
    (forall p, p ∈ (snap_pool_id <$> xs) <->
       is_Some (_capacities s !! p) \/ exists rid r, get rid s = Some r /\ rr_pool_id r = p) /\
    NoDup (snap_pool_id <$> xs) /\ Forall (snapshot_sound s) xs.
Proof.
  intros Hs%reachable_inv. split.
  { intros p d. split; [|apply (inv_load s Hs)]. split; [by apply qty_nonneg, used_ok|apply (inv_fits s Hs)]. }
  unfold snapshot. set (ids := _ ∪ _).
  destruct (snapshot_loop_run s (py_sorted (elements ids)) Hs) as (xs & Hxs & Hp & Hall).
  exists xs. rewrite Hp. split; [done|]. split; [|split; [|done]].
  - intros p. rewrite elem_of_sort_on, elem_of_elements. unfold ids.
    rewrite elem_of_union, elem_of_dom, elem_of_list_to_set, list_elem_of_fmap. f_equiv. unfold rows, get. split.
    + intros (r & -> & ([rid r'] & -> & Hr%elem_of_map_to_list)%list_elem_of_fmap). by exists rid, r'.
    + intros (rid & r & Hr & <-). exists r. split; [done|]. apply list_elem_of_fmap. exists (rid, r).
      split; [done|]. by apply elem_of_map_to_list.
  - rewrite sort_on_perm. apply NoDup_elements.
Qed.

(** [try_reserve] is all or nothing.  An owner that already holds a
    reservation gets that same one back when pool and vector agree and a
    ValueError otherwise; a new request that exceeds what is free in some
    quantity returns None; in these cases, and when the reservation id is taken,
    nothing changes.  Otherwise the whole vector is added to exactly its own
    pool, the reservation is the owner's, and every other row and pool is as it
    was. *)
Theorem try_reserve_all_or_nothing s p o request rid now :
  reachable s -> vec_ok request ->
  let id := pick_reservation_id p o rid in
  match try_reserve p o request rid now s, for_owner o s with
  | (Ok (Some r), s'), Some r0 => r = r0 /\ rr_pool_id r = p /\ rr_resources r = request /\ s' = s
  | (Raise _, s'), Some r0 => ~ (rr_pool_id r0 = p /\ rr_resources r0 = request) /\ s' = s
  | (Ok None, s'), None => ~ fits s p request /\ s' = s
  | (Raise _, s'), None => fits s p request /\ is_Some (get id s) /\ s' = s
  | (Ok (Some r), s'), None =>
      fits s p request /\ r = mkReservation id p o request now /\ for_owner o s' = Some r /\
      _reservations s' = <[id := r]> (_reservations s) /\
      forall q d, qty d (used q s') = qty d (used q s) + (if decide (p = q) then qty d request else 0)
  | (Ok None, _), Some _ => False
  end.
Proof.
  intros Hs%reachable_inv Hr id. destruct (try_reserve_run s p o request rid now Hs Hr)
    as [(r & -> & [(? & ? & ->)|(? & w & ->)])|(-> & Ho & [(? & ->)|[(? & ? & w & ->)|(Hf & Hg & tot & -> & Ht & Hq)]])];
    [done..|]. split; [done|]. split; [done|]. split; [|split; [done|]].
  - unfold for_owner, reserved. cbn. rewrite lookup_insert_eq, decide_False by apply pick_nonempty. apply lookup_insert_eq.
  - intros q d. unfold used, reserved. rewrite used_insert. cbn. destruct (decide (p = q)) as [<-|]; [|lia]. by rewrite Hq.
Qed.

(** ** Restoring durable rows *)

Definition restamp (now : Z) (r : ResourceReservation) : ResourceReservation :=
  mkReservation (reservation_id r) (rr_pool_id r) (rr_owner_id r) (rr_resources r) now.
Definition table (now : Z) (l : list ResourceReservation) : gmap string ResourceReservation :=
  list_to_map ((fun r => (reservation_id r, restamp now r)) <$> l).
Definition total_share (p : string) (d : dim) (l : list ResourceReservation) : Z :=
  foldr (fun r acc => share p d r + acc) 0 l.

Lemma table_keys now l : ((fun r => (reservation_id r, restamp now r)) <$> l).*1 = reservation_id <$> l.
Proof. by rewrite <-list_fmap_compose. Qed.
Lemma table_snoc now l r : reservation_id r ∉ (reservation_id <$> l) ->
  table now (l ++ [r]) = <[reservation_id r := restamp now r]> (table now l).
Proof. intros Hr. unfold table. rewrite fmap_app. cbn. apply list_to_map_snoc. by rewrite table_keys. Qed.
Lemma table_lookup now l rid r : NoDup (reservation_id <$> l) ->
  table now l !! rid = Some r <-> exists r0, r0 ∈ l /\ reservation_id r0 = rid /\ r = restamp now r0.
Proof.
  intros Hn. unfold table. rewrite <-elem_of_list_to_map by by rewrite table_keys.
  rewrite list_elem_of_fmap. naive_solver.
Qed.
Lemma total_share_app p d l1 l2 : total_share p d (l1 ++ l2) = total_share p d l1 + total_share p d l2.
Proof. unfold total_share. induction l1 as [|r l1 IH]; cbn; [done|]. rewrite IH. lia. Qed.
Lemma total_share_cons p d r l : total_share p d (r :: l) = share p d r + total_share p d l.
Proof. done. Qed.
#[global] Instance total_share_perm p d : Proper ((≡ₚ) ==> eq) (total_share p d).
Proof. unfold total_share. induction 1; cbn; lia. Qed.
Lemma total_share_nonneg p d l : Forall (fun r => vec_ok (rr_resources r)) l -> 0 <= total_share p d l.
Proof.
  unfold total_share. induction 1 as [|r l Hr _ IH]; cbn; [done|]. unfold share at 1. case_decide; [|lia].
  pose proof (qty_nonneg d _ Hr). lia.
Qed.
Lemma load_table now p d l : NoDup (reservation_id <$> l) -> load p d (table now l) = total_share p d l.
Proof.
  induction l as [|r l IH] using rev_ind; intros Hn; [apply load_empty|].
  rewrite fmap_app in Hn. apply NoDup_app in Hn as (Hn & Hni & _).
  assert (reservation_id r ∉ (reservation_id <$> l)) as Hr by (intros H1; apply (Hni _ H1); set_solver).
  rewrite table_snoc, load_insert by (done || by apply not_elem_of_list_to_map_1; rewrite table_keys).
  rewrite total_share_app, IH by done. cbn. unfold share. cbn. lia.
Qed.

(** Restoration has got through [l1]. *)
Record restored (now : Z) (caps : gmap string ResourceVector) (l1 : list ResourceReservation) (s : t) : Prop := {
  res_inv : inv s;
  res_caps : _capacities s = caps;
  res_rows : _reservations s = table now l1 }.

(** Rows that a manager with these capacities could hold together. *)
Record durable (caps : gmap string ResourceVector) (l : list ResourceReservation) : Prop := {
  dur_ids : NoDup (reservation_id <$> l);
  dur_owners : NoDup (rr_owner_id <$> l);
  dur_named : Forall (fun r => reservation_id r <> "" /\ vec_ok (rr_resources r)) l;
  dur_fits p d : total_share p d l <= qty d (default empty_vector (caps !! p)) }.

Lemma restore_one_run now caps l1 r l2 s :
  durable caps (l1 ++ r :: l2) -> restored now caps l1 s ->
  exists s', restore_one r now s = (Ok tt, s') /\ restored now caps (l1 ++ [r]) s'.
Proof.
  intros Hd [Hs Hc Hrows].
  pose proof (dur_ids _ _ Hd) as Hids. pose proof (dur_owners _ _ Hd) as Hown. pose proof (dur_named _ _ Hd) as Hnm.
  rewrite fmap_app, fmap_cons in Hids, Hown.
  apply NoDup_app in Hids as (Hid1 & Hid2 & _). apply NoDup_app in Hown as (_ & Hown & _).
  apply Forall_app in Hnm as [Hnm1 [[Hne Hvec] Hnm2]%Forall_cons].
  assert (reservation_id r ∉ (reservation_id <$> l1)) as Hfresh by (intros H1; apply (Hid2 _ H1); set_solver).
  assert (pick_reservation_id (rr_pool_id r) (rr_owner_id r) (Some (reservation_id r)) = reservation_id r) as Hpick
    by (unfold pick_reservation_id; by rewrite decide_False).
  unfold restore_one. run_m.
  destruct (try_reserve_run s (rr_pool_id r) (rr_owner_id r) (rr_resources r) (Some (reservation_id r)) now Hs Hvec)
    as [(r0 & Hfo & _)|(_ & Ho & [(Hnf & _)|[(_ & [r0 Hr0] & _)|(Hf & Hg & tot & Hrun & Ht & Hq)]])].
  - exfalso. unfold for_owner in Hfo. destruct (_owner_index s !! rr_owner_id r) as [rid|] eqn:E; [|done].
    apply (inv_owner s Hs) in E as (r1 & Hr1 & Ho1). rewrite Hrows, table_lookup in Hr1 by done.
    destruct Hr1 as (r2 & Hr2 & _ & ->). cbn in Ho1. apply (Hown (rr_owner_id r)); [|set_solver].
    rewrite <-Ho1. by apply list_elem_of_fmap_2.
  - exfalso. apply Hnf. intros d. rewrite (inv_load s Hs), Hrows, load_table by done.
    pose proof (dur_fits _ _ Hd (rr_pool_id r) d) as Hle. rewrite total_share_app, total_share_cons in Hle.
    assert (0 <= total_share (rr_pool_id r) d l2) as Hnn.
    { apply total_share_nonneg. eapply Forall_impl; [exact Hnm2|]. by intros ? []. }
    unfold share in Hle. rewrite decide_True in Hle by done. unfold capacity. rewrite Hc. lia.
  - exfalso. rewrite Hpick in Hr0. unfold get in Hr0. rewrite Hrows, table_lookup in Hr0 by done.
    destruct Hr0 as (r2 & Hr2 & Hid & _). apply Hfresh. rewrite <-Hid. by apply list_elem_of_fmap_2.
  - rewrite Hpick in *. rewrite Hrun. eexists. split; [done|]. split; [|done|].
    + apply reserved_inv; cbn; auto.
    + cbn. rewrite table_snoc by done. by rewrite Hrows.
Qed.

Lemma restore_loop_run now caps l1 l2 s :
  durable caps (l1 ++ l2) -> restored now caps l1 s ->
  exists s', for_each (fun r => restore_one r now) l2 s = (Ok tt, s') /\ restored now caps (l1 ++ l2) s'.
Proof.
  revert l1 s. induction l2 as [|r l2 IH]; intros l1 s Hd Hs; cbn.
  - exists s. by rewrite app_nil_r.
  - destruct (restore_one_run now caps l1 r l2 s Hd Hs) as (s1 & H1 & Hs1).
    rewrite (bind_Ok _ _ _ _ _ H1). rewrite (cons_middle r) in Hd |- *. rewrite app_assoc in Hd |- *. by apply IH.
Qed.

#[global] Instance durable_perm caps : Proper ((≡ₚ) ==> impl) (durable caps).
Proof.
  intros l l' Hp [H1 H2 H3 H4]. split; [by rewrite <-Hp..|]. intros p d. by rewrite <-Hp.
Qed.

Lemma rows_durable s : inv s -> durable (_capacities s) (rows s).
Proof.
  intros Hs. assert (forall l, l ⊆ map_to_list (_reservations s) -> NoDup l.*1 ->
    NoDup (reservation_id <$> l.*2) /\ NoDup (rr_owner_id <$> l.*2)) as Hl.
  { intros l. induction l as [|[rid r] l IH]; [intros; split; constructor|].
    intros Hsub [Hni Hn]%NoDup_cons. destruct IH as [IH1 IH2]; [set_solver|done|].
    assert (forall rid' r', (rid', r') ∈ (rid, r) :: l -> _reservations s !! rid' = Some r') as Hel.
    { intros rid' r' Hin. apply elem_of_map_to_list. by apply Hsub. }
    pose proof (Hel rid r ltac:(set_solver)) as Hr.
    split; cbn; apply NoDup_cons; (split; [|done]); intros (r' & Hk & ([rid' r''] & -> & Hin)%list_elem_of_fmap)%list_elem_of_fmap;
      pose proof (Hel rid' r'' ltac:(set_solver)) as Hr'; cbn in Hk; apply Hni; cbn;
      apply (list_elem_of_fmap_2 fst) in Hin; cbn in Hin.
    - destruct (inv_rows s Hs _ _ Hr) as (<- & _), (inv_rows s Hs _ _ Hr') as (E & _). by rewrite Hk, E.
    - assert (_owner_index s !! rr_owner_id r = Some rid) as E1 by (apply (inv_owner s Hs); eauto).
      assert (_owner_index s !! rr_owner_id r = Some rid') as E2 by (apply (inv_owner s Hs); eauto).
      by assert (rid = rid') as -> by congruence. }
  destruct (Hl (map_to_list (_reservations s))) as [H1 H2]; [done|apply NoDup_fst_map_to_list|].
  split; [done|done| |].
  - apply Forall_forall. intros r ([rid r'] & -> & Hr%elem_of_map_to_list)%list_elem_of_fmap. cbn.
    by destruct (inv_rows s Hs _ _ Hr) as (-> & ? & ? & _).
  - intros p d. pose proof (inv_fits s Hs p d) as Hf. rewrite (inv_load s Hs), load_rows in Hf. exact Hf.
Qed.

(** The rows of any reachable manager, written out in any order and restored
    into a manager with the same capacities, whatever it held before, give back
    every reservation under its id (with a new time stamp), the same owner index
    and the same usage of every pool; restoration of such rows never fails. *)
Theorem restore_live_rows s s0 l now :
  reachable s -> _capacities s0 = _capacities s -> l ≡ₚ rows s ->
  exists s', restore l now s0 = (Ok tt, s') /\ _capacities s' = _capacities s /\
    (forall rid, get rid s' = restamp now <$> get rid s) /\
    _owner_index s' = _owner_index s /\ forall p, used p s' = used p s.
Proof.
  intros Hs%reachable_inv Hc Hl. unfold restore, rebuild. run_m. cbn. unfold gets, install, modify. cbn. rewrite Hc.
  set (l' := sort_on reservation_id l). assert (l' ≡ₚ rows s) as Hl' by (unfold l'; by rewrite sort_on_perm).
  assert (durable (_capacities s) l') as Hd by (eapply durable_perm; [symmetry; exact Hl'|by apply rows_durable]).
  assert (restored now (_capacities s) [] (__init__ (_capacities s))) as H0 by (split; [apply __init___inv, Hs|done..]).
  destruct (restore_loop_run now _ [] l' _ Hd H0) as (s1 & -> & [Hi1 Hc1 Hr1]). cbn [app] in Hr1.
  assert (forall rid, get rid s1 = restamp now <$> get rid s) as Hget.
  { intros rid. apply option_eq. intros r. unfold get. rewrite Hr1, table_lookup by apply Hd. rewrite fmap_Some.
    setoid_rewrite Hl'. split.
    - intros (r0 & ([k r1] & -> & Hk%elem_of_map_to_list)%list_elem_of_fmap & <- & ->). exists r1. cbn.
      by destruct (inv_rows s Hs _ _ Hk) as (-> & _).
    - intros (r0 & Hr0 & ->). exists r0. split; [|by destruct (inv_rows s Hs _ _ Hr0)].
      apply list_elem_of_fmap. exists (rid, r0). split; [done|]. by apply elem_of_map_to_list. }
  eexists. split; [done|]. cbn. split; [done|]. split; [exact Hget|]. split.
  - apply map_eq. intros o. apply option_eq. intros rid. rewrite (inv_owner s1 Hi1), (inv_owner s Hs).
    unfold get in Hget. setoid_rewrite Hget. setoid_rewrite fmap_Some. split.
    + intros (r & (r0 & Hr0 & ->) & <-). by exists r0.
    + intros (r0 & Hr0 & <-). exists (restamp now r0). split; [|done]. by exists r0.
  - intros p. unfold used. apply vec_ext; [by apply (used_ok s1 p)|by apply used_ok|]. intros d.
    transitivity (qty d (_used_locked p s1)); [done|].
    rewrite (inv_load s1 Hi1), (inv_load s Hs), Hr1, load_table, load_rows by apply Hd.
    by rewrite Hl'.
Qed.

(** ** Instances *)

Definition demo_vec : ResourceVector := mkVector 500 1024 0 0 {[ "model-a" := 1 ]}.
Definition demo_cap : ResourceVector := mkVector 1000 4096 1 0 {[ "model-a" := 1; "model-b" := 2 ]}.
Definition demo_init : t := __init__ {[ "pool" := demo_cap ]}.
Definition demo_state : t := (try_reserve "pool" "claim-1" demo_vec None 5 demo_init).2.

Lemma demo_vec_ok : vec_ok demo_vec /\ vec_ok demo_cap.
Proof.
  split; (split; cbn; [lia..|]); repeat (apply map_Forall_insert_2; [by split_and!|]); apply map_Forall_empty.
Qed.
Lemma demo_init_reachable : reachable demo_init.
Proof. exists {[ "pool" := demo_cap ]}, []. split; [|constructor]. apply map_Forall_singleton, demo_vec_ok. Qed.
Lemma demo_reachable : reachable demo_state.
Proof.
  destruct demo_init_reachable as (caps & waiting & Hc & Hr). exists caps, waiting. split; [done|].
  eapply rtc_r; [exact Hr|]. apply (step_try_reserve "pool" "claim-1" demo_vec None 5), demo_vec_ok.
Qed.

(** A restoration during which another thread reserves and then raises the capacity. *)
Definition demo_more : ResourceVector := mkVector 2000 4096 1 0 {[ "model-a" := 2; "model-b" := 2 ]}.
Definition demo_raced : shared :=
  end_restore 0 (locked (set_capacity "pool" demo_more) (locked (try_reserve "pool" "claim-2" demo_vec None 6)
    (begin_restore (rows demo_state) 9 (mkShared demo_init [])))).
Lemma demo_raced_reachable : reachable (live demo_raced).
Proof.
  destruct demo_vec_ok as [Hv Hc]. apply (reachable_run {[ "pool" := demo_cap ]}); [by apply map_Forall_singleton|].
  eapply rtc_l; [apply (step_begin_restore (rows demo_state) 9)|].
  { apply rows_ok, reachable_inv, demo_reachable. }
  eapply rtc_l; [apply (step_try_reserve "pool" "claim-2" demo_vec None 6), Hv|].
  eapply rtc_l; [apply (step_set_capacity "pool" demo_more)|].
  - split; cbn; [lia..|]. repeat (apply map_Forall_insert_2; [by split_and!|]). apply map_Forall_empty.
  - apply List.Forall_forall, List.forallb_forall. vm_compute. reflexivity.
  - apply rtc_once, (step_end_restore 0).
Qed.

Lemma reservations_within_capacity_witness :
  exists xs, snapshot None (live demo_raced) = Ok xs /\ NoDup (snap_pool_id <$> xs) /\
  qty (Slot "model-a") (used "pool" (live demo_raced)) = 1 /\ qty (Slot "model-a") (capacity "pool" (live demo_raced)) = 2.
Proof.
  destruct (reservations_within_capacity (live demo_raced) demo_raced_reachable) as [_ (xs & Hxs & _ & Hn & _)].
  exists xs. split; [exact Hxs|]. split; [exact Hn|]. split; vm_compute; reflexivity.
Defined.

Lemma try_reserve_all_or_nothing_witness :
  ~ fits demo_state "pool" demo_vec /\ (try_reserve "pool" "claim-2" demo_vec None 6 demo_state).1 = Ok None.
Proof.
  pose proof (try_reserve_all_or_nothing demo_state "pool" "claim-2" demo_vec None 6 demo_reachable (proj1 demo_vec_ok)) as H.
  vm_compute in H. split; [exact (proj1 H)|]. vm_compute. reflexivity.
Defined.

Lemma restore_live_rows_witness :
  exists s', restore (rows demo_state) 9 demo_init = (Ok tt, s') /\ used "pool" s' = used "pool" demo_state.
Proof.
  destruct (restore_live_rows demo_state demo_init (rows demo_state) 9 demo_reachable eq_refl (Permutation_refl _))
    as (s' & Hr & _ & _ & _ & Hu).
  exists s'. split; [exact Hr|exact (Hu "pool")].
Defined.

(** A thread has rebuilt a candidate that reserves 10 CPU units of the pool, and
    another thread lowers the capacity to 5 before the candidate is installed:
    both calls succeed, and the pool is left with more used than it has.  The
    audit then refuses. *)
Lemma restore_races_set_capacity :
  let ten := mkVector 10 0 0 0 ∅ in
  let five := mkVector 5 0 0 0 ∅ in
  let x0 := mkShared (__init__ {[ "pool" := ten ]}) [] in
  let x1 := begin_restore [mkReservation "r1" "pool" "claim-1" ten 1] 9 x0 in
  let x2 := locked (set_capacity "pool" five) x1 in
  let s := live (end_restore 0 x2) in
  (set_capacity "pool" five (live x1)).1 = Ok tt /\ cpu_millis (used "pool" s) = 10 /\ cpu_millis (capacity "pool" s) = 5 /\
  snapshot None s = Raise (ValueError "logical resource pool is overcommitted").
Proof. split_and!; vm_compute; reflexivity. Qed.

(** Two durable rows of one owner that agree on pool and vector are not rejected
    as duplicates: the second is dropped without an error. *)
Lemma restore_drops_duplicate_owner :
  let a := mkReservation "r1" "pool" "claim-1" demo_vec 1 in
  let b := mkReservation "r2" "pool" "claim-1" demo_vec 2 in
  (restore [a; b] 9 demo_init).1 = Ok tt /\
  reservation_id <$> list_active None (restore [a; b] 9 demo_init).2 = ["r1"].
Proof. split; vm_compute; reflexivity. Qed.

(** The default ids of two different owners can coincide; the second request is
    then refused with an error although everything it asks for is free. *)
Lemma default_reservation_ids_collide :
  let s0 := __init__ {[ "a" := demo_cap; "a:b" := demo_cap ]} in
  let s1 := (try_reserve "a" "b:c" demo_vec None 1 s0).2 in
  can_reserve "a:b" demo_vec s1 = Ok true /\
  try_reserve "a:b" "c" demo_vec None 2 s1 = (Raise (ValueError "reservation_id already exists"), s1).
Proof. split; vm_compute; reflexivity. Qed.
