(* ===== verification/Claims.v ===== *)
(** * Task claims over a lease authority
    (runtimes/multi_agent/claims.py, lease_adapter.py and LeaseProvider of protocols.py)

    A [TaskClaim] is a mutable record of the scheduler; ownership of the task is
    the exclusive lease of an injected provider.  The provider is untrusted: what
    it returns is a [LeaseInfo] whose attributes may be missing or malformed.
    Claims are objects: the manager's dict and its callers share them, so a
    [World] keeps a store of objects and the dict maps claim ids to addresses.
    [ClaimManager] methods on one object run on the pair of the provider's state
    and that object. *)

From S2P Require Import Prelude VpgModels Resources.
Open Scope Z_scope.

(** ** Records *)

Module ClaimState.
Inductive t := PROPOSED | ACQUIRING | ACTIVE | RELEASED | LOST | COMPLETED | REJECTED.
#[global] Instance eq_dec : EqDecision t.
Proof. solve_decision. Defined.
Definition value (s : t) : string :=
  match s with
  | PROPOSED => "proposed" | ACQUIRING => "acquiring" | ACTIVE => "active" | RELEASED => "released"
  | LOST => "lost" | COMPLETED => "completed" | REJECTED => "rejected"
  end.
End ClaimState.
Definition TERMINAL_CLAIM_STATES : list ClaimState.t :=
  [ClaimState.RELEASED; ClaimState.LOST; ClaimState.COMPLETED; ClaimState.REJECTED].

(** An [expires_at] attribute: absent or [None]; a datetime; a str, by what
    [datetime.fromisoformat] makes of it ([None]: it raises ValueError); a value of
    another type.  A datetime is the instant of its [timestamp()], with whether it
    is aware of its time zone (a naive one is taken in the zone of the host). *)
Inductive expiry : Type :=
| NoExpiry
| DateTime (aware : bool) (t : Z)
| IsoText (parsed : option (bool * Z))
| NotATime.

(** A [fencing_token] attribute, by what [int] makes of it: absent or [None], a
    value [int] converts, or one on which it raises TypeError, ValueError or
    OverflowError with this message. *)
Inductive token : Type :=
| NoToken
| IntToken (z : Z)
| BadToken (message : string).

(** An [owner_pid] attribute: absent, or present (possibly [None]). *)
Inductive owner : Type :=
| NoOwner
| Owner (pid : option string).

(** A [lease_id] attribute: absent, a str, or a value of another type with the text
    [str] gives it. *)
Inductive lease_name : Type :=
| NoLeaseId
| LeaseId (id : string)
| OtherLeaseId (text : string).

(** What a provider returns. *)
Record LeaseInfo : Type := mkLeaseInfo {
  li_lease_name : lease_name;
  li_resource_id : option string;
  li_owner_pid : owner;
  li_fencing_token : token;
  li_expires_at : expiry }.

(** The [lease_id] if it is a str *)
Definition li_lease_id (l : LeaseInfo) : option string :=
  match li_lease_name l with LeaseId i => Some i | _ => None end.

Record TaskClaim : Type := mkTaskClaim {
  tc_claim_id : string;
  tc_graph_id : string;
  tc_graph_version : Z;
  tc_task_id : string;
  tc_agent_id : string;
  tc_process_id : string;
  tc_lease_resource : string;
  tc_lease_id : option string;
  tc_lease_owner_pid : option string;
  tc_lease_fencing_token : option Z;
  tc_lease_expires_at : expiry;
  tc_resource_reservation_id : option string;
  tc_reserved_resources : ResourceVector;
  tc_handoff_id : option string;
  tc_state : ClaimState.t;
  tc_attempt_number : Z;
  tc_reason : option string;
  tc_created_at : Z;
  tc_activated_at : option Z;
  tc_released_at : option Z }.

(** Assignments to the fields of a claim. *)
Definition set_state (st : ClaimState.t) (c : TaskClaim) : TaskClaim :=
  mkTaskClaim (tc_claim_id c) (tc_graph_id c) (tc_graph_version c) (tc_task_id c) (tc_agent_id c)
    (tc_process_id c) (tc_lease_resource c) (tc_lease_id c) (tc_lease_owner_pid c)
    (tc_lease_fencing_token c) (tc_lease_expires_at c) (tc_resource_reservation_id c)
    (tc_reserved_resources c) (tc_handoff_id c) st (tc_attempt_number c) (tc_reason c)
    (tc_created_at c) (tc_activated_at c) (tc_released_at c).
Definition set_reason (r : string) (c : TaskClaim) : TaskClaim :=
  mkTaskClaim (tc_claim_id c) (tc_graph_id c) (tc_graph_version c) (tc_task_id c) (tc_agent_id c)
    (tc_process_id c) (tc_lease_resource c) (tc_lease_id c) (tc_lease_owner_pid c)
    (tc_lease_fencing_token c) (tc_lease_expires_at c) (tc_resource_reservation_id c)
    (tc_reserved_resources c) (tc_handoff_id c) (tc_state c) (tc_attempt_number c) (Some r)
    (tc_created_at c) (tc_activated_at c) (tc_released_at c).
Definition set_lease (lid : string) (own : option string) (tok : option Z) (exp : expiry)
    (c : TaskClaim) : TaskClaim :=
  mkTaskClaim (tc_claim_id c) (tc_graph_id c) (tc_graph_version c) (tc_task_id c) (tc_agent_id c)
    (tc_process_id c) (tc_lease_resource c) (Some lid) own tok exp (tc_resource_reservation_id c)
    (tc_reserved_resources c) (tc_handoff_id c) (tc_state c) (tc_attempt_number c) (tc_reason c)
    (tc_created_at c) (tc_activated_at c) (tc_released_at c).
Definition set_renewal (tok : option Z) (exp : expiry) (c : TaskClaim) : TaskClaim :=
  mkTaskClaim (tc_claim_id c) (tc_graph_id c) (tc_graph_version c) (tc_task_id c) (tc_agent_id c)
    (tc_process_id c) (tc_lease_resource c) (tc_lease_id c) (tc_lease_owner_pid c) tok exp
    (tc_resource_reservation_id c) (tc_reserved_resources c) (tc_handoff_id c) (tc_state c)
    (tc_attempt_number c) (tc_reason c) (tc_created_at c) (tc_activated_at c) (tc_released_at c).
Definition set_times (activated released : option Z) (c : TaskClaim) : TaskClaim :=
  mkTaskClaim (tc_claim_id c) (tc_graph_id c) (tc_graph_version c) (tc_task_id c) (tc_agent_id c)
    (tc_process_id c) (tc_lease_resource c) (tc_lease_id c) (tc_lease_owner_pid c)
    (tc_lease_fencing_token c) (tc_lease_expires_at c) (tc_resource_reservation_id c)
    (tc_reserved_resources c) (tc_handoff_id c) (tc_state c) (tc_attempt_number c) (tc_reason c)
    (tc_created_at c) activated released.

(** [claim.state = st; claim.reason = reason; claim.released_at = now] *)
Definition finished (st : ClaimState.t) (reason : string) (now : Z) (c : TaskClaim) : TaskClaim :=
  set_times (tc_activated_at c) (Some now) (set_reason reason (set_state st c)).

(** ** The lease provider *)

(** [LeaseProvider]: the operations over the state [S] of the authority.  [renew]
    is optional ([getattr(provider, "renew", None)]). *)
Class LeaseProvider (S : Type) := {
  acquire_exclusive (pid resource_id : string) (ttl : Z) : M S (option LeaseInfo);
  provider_release (lease_id : string) : M S bool;
  provider_renew : option (string -> Z -> M S (option LeaseInfo));
  provider_release_all_for_pid (pid : string) : M S nat;
  provider_get (lease_id : string) : M S (option LeaseInfo);
  provider_list_for_resource (resource_id : string) : M S (list LeaseInfo);
  provider_list_for_pid (pid : string) : M S (list LeaseInfo);
  provider_reclaim_expired : M S nat }.

(** [f"vpg://{graph_id}/task/{task_id}/claim"] *)
Definition claim_resource_uri (graph_id task_id : string) : string :=
  String.append "vpg://" (String.append graph_id (String.append "/task/" (String.append task_id "/claim"))).
Definition DEFAULT_CLAIM_TTL : Z := 30 * 60 * 1000000.

(** [LeaseAdapter]: the provider with a default time to live. *)
Module LeaseAdapter.
Section Adapter.
Context {S : Type} `{LeaseProvider S} (_ttl : Z).

Definition acquire (graph_id task_id pid : string) : M S (option LeaseInfo) :=
  acquire_exclusive pid (claim_resource_uri graph_id task_id) _ttl.
Definition release (lease_id : string) : M S bool := provider_release lease_id.
Definition renew (lease_id : string) (ttl : option Z) : M S (option LeaseInfo) :=
  let requested_ttl := default _ttl ttl in
  raise_if (requested_ttl <=? 0) (ValueError "lease renewal ttl must be a positive timedelta") ;;
  match provider_renew with
  | None => mret None
  | Some renew => renew lease_id requested_ttl
  end.
Definition release_all_for_pid (pid : string) : M S nat := provider_release_all_for_pid pid.
Definition get (lease_id : string) : M S (option LeaseInfo) := provider_get lease_id.
Definition list_for_task (graph_id task_id : string) : M S (list LeaseInfo) :=
  provider_list_for_resource (claim_resource_uri graph_id task_id).
Definition list_for_pid (pid : string) : M S (list LeaseInfo) := provider_list_for_pid pid.
Definition reclaim_expired : M S nat := provider_reclaim_expired.
End Adapter.
End LeaseAdapter.

(** [is_lease_active] at the instant [now]: no expiry is permanent; [fromisoformat]
    raises on a bad string; a value that is no time has no [timestamp]. *)
Definition is_lease_active (now : Z) (lease : option LeaseInfo) : result bool :=
  match lease with
  | None => Ok false
  | Some l =>
      match li_expires_at l with
      | NoExpiry => Ok true
      | DateTime _ t | IsoText (Some (_, t)) => Ok (now <=? t)
      | IsoText None => Raise (ValueError "Invalid isoformat string")
      | NotATime => Raise (AttributeError "timestamp")
      end
  end.

(** ** ClaimManager: the methods on one claim *)

Section Manager.
Context {S : Type} `{LeaseProvider S} (_ttl : Z).
(** [str(exc)] *)
Context (exc_str : py_error -> string).

(** A method that touches the provider and one claim object. *)
Definition CM (A : Type) : Type := M (S * TaskClaim) A.
Definition on_provider {A} (m : M S A) : CM A := fun sc =>
  let '(r, s') := m sc.1 in (r, (s', sc.2)).
Definition this : CM TaskClaim := gets snd.
Definition assign (f : TaskClaim -> TaskClaim) : CM unit := modify (fun sc => (sc.1, f sc.2)).

Definition mark_acquiring : CM unit :=
  claim ← this;
  assign (set_state ClaimState.ACQUIRING) ;;
  assign (set_reason (String.append (default "" (tc_reason claim)) "; requesting_kernel_lease")).

(** The fields set when the release of a lease with a malformed token is not
    confirmed: the claim stays non-terminal and remembers the lease. *)
Definition keep_unreleased (lid : string) (own : option string) (lease : LeaseInfo) (reason : string)
    (c : TaskClaim) : TaskClaim :=
  set_reason reason (set_times (tc_activated_at c) None (set_state ClaimState.ACQUIRING
    (set_lease lid own (tc_lease_fencing_token c) (li_expires_at lease) c))).

Definition try_acquire_lease (now : Z) : CM bool :=
  claim ← this;
  lease ← on_provider (LeaseAdapter.acquire _ttl (tc_graph_id claim) (tc_task_id claim) (tc_process_id claim));
  match lease with
  | None => assign (finished ClaimState.REJECTED "kernel_exclusive_lease_refused" now) ;; mret false
  | Some lease =>
      match li_lease_id lease with
      | None | Some EmptyString =>
          assign (finished ClaimState.REJECTED "kernel_lease_missing_lease_id" now) ;; mret false
      | Some lid =>
          let own := match li_owner_pid lease with NoOwner => Some (tc_process_id claim) | Owner p => p end in
          match li_fencing_token lease with
          | BadToken exc =>
              released ← try_except (on_provider (LeaseAdapter.release lid)) (fun release_exc =>
                assign (keep_unreleased lid own lease (String.append
                  "kernel_lease_malformed_fencing_token; release_failed: " (exc_str release_exc))) ;;
                raise (LeaseReleaseFailed (tc_claim_id claim) lid
                  (String.append "malformed fencing token (" (String.append exc
                     (String.append "); release failed: " (exc_str release_exc))))));
              if released : bool then
                assign (finished ClaimState.REJECTED "kernel_lease_malformed_fencing_token" now) ;; mret false
              else
                assign (keep_unreleased lid own lease
                  "kernel_lease_malformed_fencing_token; release_unconfirmed") ;;
                raise (LeaseReleaseFailed (tc_claim_id claim) lid
                  (String.append "malformed fencing token (" (String.append exc
                     "); lease release unconfirmed")))
          | tok =>
              let normalized_token := match tok with IntToken z => Some z | _ => None end in
              assign (set_lease lid own normalized_token (li_expires_at lease)) ;;
              assign (set_state ClaimState.ACTIVE) ;;
              assign (fun c => set_times (Some now) (tc_released_at c) c) ;;
              assign (set_reason "kernel_lease_acquired_ownership_linearized") ;;
              mret true
          end
      end
  end.

(** The checks of a renewed lease against the claim: identity, resource, owner
    and fencing generation.  The result is the token a claim without one adopts. *)
Definition renewal_token (claim : TaskClaim) (lid : string) (lease : LeaseInfo) : option (option Z) :=
  if negb (bool_decide (li_lease_id lease = Some lid)) then None
  else if negb (String.eqb (tc_lease_resource claim) "")
          && negb (bool_decide (li_resource_id lease = Some (tc_lease_resource claim))) then None
  else
    let expected_owner :=
      match tc_lease_owner_pid claim with
      | None | Some EmptyString => tc_process_id claim
      | Some p => p
      end in
    let wrong_owner :=
      match li_owner_pid lease with
      | Owner (Some p) => negb (String.eqb p expected_owner)
      | _ => false
      end in
    if wrong_owner then None
    else match tc_lease_fencing_token claim, li_fencing_token lease with
         | Some expected, IntToken z => if z =? expected then Some None else None
         | Some _, _ => None
         | None, IntToken z => Some (Some z)
         | None, BadToken _ => None
         | None, NoToken => Some None
         end.

(** The expiry of a renewed lease: an aware datetime, or text of one. *)
Definition renewal_expiry (lease : LeaseInfo) : option Z :=
  match li_expires_at lease with
  | DateTime true t | IsoText (Some (true, t)) => Some t
  | _ => None
  end.

Definition renew_claim (ttl : option Z) : CM (option LeaseInfo) :=
  claim ← this;
  match tc_lease_id claim with
  | None | Some EmptyString => mret None
  | Some lid =>
      if negb (bool_decide (tc_state claim = ClaimState.ACTIVE)) then mret None
      else
        lease ← on_provider (LeaseAdapter.renew _ttl lid ttl);
        match lease with
        | None => mret None
        | Some lease =>
            match renewal_token claim lid lease, renewal_expiry lease with
            | Some normalized_token, Some expiry =>
                let tok := match normalized_token with
                           | Some z => Some z | None => tc_lease_fencing_token claim end in
                assign (set_renewal tok (DateTime true expiry)) ;;
                assign (set_reason "kernel_lease_renewed") ;;
                mret (Some lease)
            | _, _ => mret None
            end
        end
  end.

Definition _safe_release : CM unit :=
  claim ← this;
  match tc_lease_id claim with
  | None => mret tt
  | Some lid =>
      released ← try_except (on_provider (LeaseAdapter.release lid)) (fun exc =>
        raise (LeaseReleaseFailed (tc_claim_id claim) lid (exc_str exc)));
      raise_if (negb released)
        (LeaseReleaseFailed (tc_claim_id claim) lid "lease provider did not confirm release")
  end.

Definition complete (now : Z) : CM unit :=
  _safe_release ;;
  assign (finished ClaimState.COMPLETED "task_verified_claim_completed" now).

Definition release (reason : string) (now : Z) : CM unit :=
  claim ← this;
  if bool_decide (tc_state claim = ClaimState.RELEASED) then mret tt
  else _safe_release ;; assign (finished ClaimState.RELEASED reason now).

Definition mark_lost (reason : string) (now : Z) : CM unit :=
  assign (finished ClaimState.LOST reason now).

Definition assert_active_has_live_lease : CM unit :=
  claim ← this;
  if negb (bool_decide (tc_state claim = ClaimState.ACTIVE)) then mret tt
  else match tc_lease_id claim with
       | None => raise (KernelLeaseRequired (tc_claim_id claim) (tc_task_id claim))
       | Some _ => mret tt
       end.
End Manager.

(** ** ClaimManager: the objects and the dict of claims *)

(** The state of the authority, the claim objects by address, the dict
    [_claims] from claim ids to objects, and the wall clock. *)
Record World (S : Type) : Type := mkWorld {
  provider : S;
  objects : list TaskClaim;
  _claims : dict nat;
  wall_clock : Z }.
Arguments mkWorld {S} _ _ _ _.
Arguments provider {S} _.
Arguments objects {S} _.
Arguments _claims {S} _.
Arguments wall_clock {S} _.

Section World.
Context {S : Type} `{LeaseProvider S}.

(** Runs a method on the object at address [r]. *)
Definition call {A} (r : nat) (m : Z -> CM A) : M (World S) A := fun w =>
  match objects w !! r with
  | None => (Raise (KeyError "claim"), w)
  | Some c =>
      let '(out, (s', c')) := m (wall_clock w) (provider w, c) in
      (out, mkWorld s' (<[r := c']> (objects w)) (_claims w) (wall_clock w))
  end.

(** [TaskClaim(...)] allocates; [_book] makes the dict refer to the object.  An
    earlier object of the same id stays with whoever holds it. *)
Definition _book (c : TaskClaim) : M (World S) nat := fun w =>
  let r := length (objects w) in
  (Ok r, mkWorld (provider w) (objects w ++ [c]) (dict_set (tc_claim_id c) r (_claims w)) (wall_clock w)).

Definition propose (claim_id graph_id : string) (graph_version : Z)
    (task_id agent_id process_id lease_resource : string) (attempt_number : Z) : M (World S) nat :=
  now ← gets wall_clock;
  _book (mkTaskClaim claim_id graph_id graph_version task_id agent_id process_id lease_resource
    None None None NoExpiry None empty_vector None ClaimState.PROPOSED attempt_number
    (Some "awaiting_kernel_lease") now None None).

Definition get (claim_id : string) (w : World S) : option TaskClaim :=
  dict_get claim_id (_claims w) ≫= fun r => objects w !! r.
Definition all_claims (w : World S) : list TaskClaim := omap (fun kv => objects w !! kv.2) (_claims w).
Definition active_claims_for_task (graph_id task_id : string) (w : World S) : list TaskClaim :=
  filter (fun c => tc_graph_id c = graph_id /\ tc_task_id c = task_id /\ tc_state c = ClaimState.ACTIVE)
    (all_claims w).
Definition active_claims_for_agent (agent_id : string) (w : World S) : list TaskClaim :=
  filter (fun c => tc_agent_id c = agent_id /\ tc_state c = ClaimState.ACTIVE) (all_claims w).
Definition current_active_claims (agent_id : string) (w : World S) : nat :=
  length (active_claims_for_agent agent_id w).
End World.
