(* ===== verification/ClaimProps.v ===== *)
(** * Task claims: properties

    What a lease authority promises its clients ([LeaseAuthority]), ownership in
    every world the claim manager can reach over such an authority, and the
    behaviour towards a provider that promises nothing. *)

From S2P Require Import Prelude VpgModels Resources Claims.
Open Scope Z_scope.

(** ** The interface: what a lease authority promises *)

(** [live s lid r]: the authority holds the exclusive lease [lid] on [r].
    [issued s lid]: the identifier has been given out.  Identifiers are not given
    out twice, so a lease that is issued and live was live before, on the same
    resource. *)
Record lease_evolution {S : Type} (live : S -> string -> string -> Prop) (issued : S -> string -> Prop)
    (s s' : S) : Prop := {
  evo_issued l : issued s l -> issued s' l;
  evo_live l r : issued s l -> live s' l r -> live s l r }.

Class LeaseAuthority (S : Type) `{LeaseProvider S} := {
  authority_ok : S -> Prop;
  live : S -> string -> string -> Prop;
  issued : S -> string -> Prop;
  (** a step of the authority, for whichever client *)
  authority_step : S -> S -> Prop;
  live_issued s l r : authority_ok s -> live s l r -> issued s l;
  live_one_resource s l r1 r2 : authority_ok s -> live s l r1 -> live s l r2 -> r1 = r2;
  live_exclusive s l1 l2 r : authority_ok s -> live s l1 r -> live s l2 r -> l1 = l2;
  step_evolves s s' : authority_step s s' -> authority_ok s ->
    authority_ok s' /\ lease_evolution live issued s s';
  acquire_promise pid r ttl s : authority_ok s ->
    authority_step s (acquire_exclusive pid r ttl s).2 /\
    forall i, (acquire_exclusive pid r ttl s).1 = Ok (Some i) ->
      exists l z, li_lease_id i = Some l /\ l <> "" /\ li_fencing_token i = IntToken z /\
        ~ issued s l /\ live (acquire_exclusive pid r ttl s).2 l r;
  release_promise l s : authority_ok s ->
    authority_step s (provider_release l s).2 /\
    ((provider_release l s).1 = Ok true -> forall r, ~ live (provider_release l s).2 l r);
  renew_promise f l ttl s : provider_renew = Some f -> authority_ok s -> authority_step s (f l ttl s).2 }.

(** ** What the methods do, for any provider *)

(** Evaluates the methods on a pair. *)
Ltac run_cm := unfold this, assign, on_provider, try_except in *; run_m.

Section AnyProvider.
Context {S : Type} `{LeaseProvider S} (ttl : Z) (exc_str : py_error -> string).

(** What one call of [try_acquire_lease] did, by the provider's answers. *)
Inductive acquire_case (now : Z) (s : S) (c : TaskClaim) : result bool -> S -> TaskClaim -> Prop :=
| acq_raised e s1 :
    acquire_exclusive (tc_process_id c) (claim_resource_uri (tc_graph_id c) (tc_task_id c)) ttl s = (Raise e, s1) ->
    acquire_case now s c (Raise e) s1 c
| acq_refused s1 :
    acquire_exclusive (tc_process_id c) (claim_resource_uri (tc_graph_id c) (tc_task_id c)) ttl s = (Ok None, s1) ->
    acquire_case now s c (Ok false) s1 (finished ClaimState.REJECTED "kernel_exclusive_lease_refused" now c)
| acq_anonymous i s1 :
    acquire_exclusive (tc_process_id c) (claim_resource_uri (tc_graph_id c) (tc_task_id c)) ttl s = (Ok (Some i), s1) ->
    li_lease_id i = None \/ li_lease_id i = Some "" ->
    acquire_case now s c (Ok false) s1 (finished ClaimState.REJECTED "kernel_lease_missing_lease_id" now c)
| acq_malformed_released i s1 lid m s2 :
    acquire_exclusive (tc_process_id c) (claim_resource_uri (tc_graph_id c) (tc_task_id c)) ttl s = (Ok (Some i), s1) ->
    li_lease_id i = Some lid -> lid <> "" -> li_fencing_token i = BadToken m ->
    provider_release lid s1 = (Ok true, s2) ->
    acquire_case now s c (Ok false) s2 (finished ClaimState.REJECTED "kernel_lease_malformed_fencing_token" now c)
| acq_malformed_kept i s1 lid m out s2 reason text own :
    acquire_exclusive (tc_process_id c) (claim_resource_uri (tc_graph_id c) (tc_task_id c)) ttl s = (Ok (Some i), s1) ->
    li_lease_id i = Some lid -> lid <> "" -> li_fencing_token i = BadToken m ->
    provider_release lid s1 = (out, s2) -> out <> Ok true ->
    acquire_case now s c (Raise (LeaseReleaseFailed (tc_claim_id c) lid text)) s2
      (keep_unreleased lid own i reason c)
| acq_granted i s1 lid own tok reason :
    acquire_exclusive (tc_process_id c) (claim_resource_uri (tc_graph_id c) (tc_task_id c)) ttl s = (Ok (Some i), s1) ->
    li_lease_id i = Some lid -> lid <> "" ->
    li_fencing_token i = match tok with Some z => IntToken z | None => NoToken end ->
    own = match li_owner_pid i with NoOwner => Some (tc_process_id c) | Owner p => p end ->
    acquire_case now s c (Ok true) s1
      (set_reason reason (set_times (Some now) (tc_released_at c)
         (set_state ClaimState.ACTIVE (set_lease lid own tok (li_expires_at i) c)))).

Lemma try_acquire_cases now s c :
  acquire_case now s c (try_acquire_lease ttl exc_str now (s, c)).1
    (try_acquire_lease ttl exc_str now (s, c)).2.1 (try_acquire_lease ttl exc_str now (s, c)).2.2.
Proof.
  unfold try_acquire_lease, LeaseAdapter.acquire, LeaseAdapter.release. run_cm.
  destruct (acquire_exclusive _ _ _ s) as [[[i|]|e] s1] eqn:E; cbn; [|by constructor..].
  destruct (li_lease_id i) as [[|a lid']|] eqn:El; cbn; [by eapply acq_anonymous; eauto| |by eapply acq_anonymous; eauto].
  set (lid := String a lid') in *. destruct (li_fencing_token i) as [|z|m] eqn:Et; cbn.
  - by eapply (acq_granted _ _ _ i _ lid _ None).
  - by eapply (acq_granted _ _ _ i _ lid _ (Some z)).
  - destruct (provider_release lid s1) as [[[]|e] s2] eqn:Er; cbn.
    + by eapply acq_malformed_released.
    + by eapply acq_malformed_kept.
    + by eapply acq_malformed_kept.
Qed.

(** [_safe_release] returns exactly when there is no lease or its release is
    confirmed, and does not touch the claim. *)
Lemma safe_release_cases s c :
  match _safe_release exc_str (s, c) with
  | (Ok tt, (s', c')) => c' = c /\
      match tc_lease_id c with None => s' = s | Some l => provider_release l s = (Ok true, s') end
  | (Raise e, (s', c')) => c' = c /\
      exists l text, tc_lease_id c = Some l /\ e = LeaseReleaseFailed (tc_claim_id c) l text /\
        (provider_release l s).2 = s' /\ (provider_release l s).1 <> Ok true
  end.
Proof.
  unfold _safe_release, LeaseAdapter.release. run_cm. destruct (tc_lease_id c) as [l|] eqn:E; [|done].
  destruct (provider_release l s) as [[[]|e] s1] eqn:Er; cbn; rewrite ?Er; cbn; [done| |].
  - split; [done|]. eexists _, _. by rewrite Er.
  - split; [done|]. eexists _, _. by rewrite Er.
Qed.

(** A renewal either leaves the claim as it was or, when it returns a lease,
    sets the expiry and the reason of an ACTIVE claim and keeps its token. *)
Lemma renew_claim_cases t s c :
  let '(out, (s', c')) := renew_claim ttl t (s, c) in
  (s' = s \/ exists f l t', provider_renew = Some f /\ tc_lease_id c = Some l /\ s' = (f l t' s).2) /\
  match out with
  | Ok (Some i) => exists l tok e, tc_state c = ClaimState.ACTIVE /\ tc_lease_id c = Some l /\ l <> "" /\
      renewal_token c l i = Some tok /\ renewal_expiry i = Some e /\
      c' = set_reason "kernel_lease_renewed" (set_renewal
             match tok with Some z => Some z | None => tc_lease_fencing_token c end (DateTime true e) c)
  | _ => c' = c
  end.
Proof.
  unfold renew_claim, LeaseAdapter.renew. run_cm.
  destruct (tc_lease_id c) as [[|a l']|] eqn:El; cbn; [by eauto| |by eauto]. set (l := String a l').
  case_bool_decide as Hst; cbn; [|by eauto].
  destruct (default ttl t <=? 0); cbn; [by eauto|].
  destruct provider_renew as [f|] eqn:Ef; cbn; [|by eauto].
  assert (exists f0 l0 t', Some f = Some f0 /\ Some l = Some l0 /\
            (f l (default ttl t) s).2 = (f0 l0 t' s).2) as Hr by eauto 8.
  destruct (f l (default ttl t) s) as [[[i|]|e] s1] eqn:Er; cbn in *; [|by eauto..].
  destruct (renewal_token c l i) as [tok|] eqn:Et; cbn; [|by eauto].
  destruct (renewal_expiry i) as [x|] eqn:Ex; cbn; [|by eauto].
  split; [by right|]. by exists l, tok, x.
Qed.
End AnyProvider.

(** ** Ownership over a lease authority *)

Section Ownership.
Context {S : Type} `{LeaseAuthority S} (ttl : Z) (exc_str : py_error -> string).

(** One step of a host: the authority serves somebody, time passes, a claim is
    proposed, or a method runs on a claim object. *)
Inductive world_step : World S -> World S -> Prop :=
| ws_authority s' w :
    authority_step (provider w) s' -> world_step w (mkWorld s' (objects w) (_claims w) (wall_clock w))
| ws_clock t w : world_step w (mkWorld (provider w) (objects w) (_claims w) t)
| ws_propose cid g v t a p res n w : world_step w (propose cid g v t a p res n w).2
| ws_mark_acquiring r w : world_step w (call r (fun _ => mark_acquiring) w).2
| ws_try_acquire r w : world_step w (call r (try_acquire_lease ttl exc_str) w).2
| ws_renew r t w : world_step w (call r (fun _ => renew_claim ttl t) w).2
| ws_complete r w : world_step w (call r (complete exc_str) w).2
| ws_release r reason w : world_step w (call r (Claims.release exc_str reason) w).2
| ws_mark_lost r reason w : world_step w (call r (mark_lost reason) w).2.

Definition claim_uri (c : TaskClaim) : string := claim_resource_uri (tc_graph_id c) (tc_task_id c).

(** The claim projects the authority: its lease was issued to it, and if it is
    live it is on the claim's own resource; an ACTIVE claim has a lease; the lease
    of a released or completed claim is gone. *)
Record claim_ok (s : S) (c : TaskClaim) : Prop := {
  co_issued l : tc_lease_id c = Some l -> issued s l;
  co_resource l r : tc_lease_id c = Some l -> live s l r -> r = claim_uri c;
  co_active : tc_state c = ClaimState.ACTIVE -> tc_lease_id c <> None;
  co_closed l r : tc_state c = ClaimState.RELEASED \/ tc_state c = ClaimState.COMPLETED ->
    tc_lease_id c = Some l -> ~ live s l r }.

Record world_ok (w : World S) : Prop := {
  wo_authority : authority_ok (provider w);
  wo_claims i c : objects w !! i = Some c -> claim_ok (provider w) c;
  wo_unique i j ci cj l : objects w !! i = Some ci -> objects w !! j = Some cj ->
    tc_lease_id ci = Some l -> tc_lease_id cj = Some l -> i = j }.

#[local] Abbreviation evolution := (lease_evolution live issued).
#[local] Instance evolution_preorder : PreOrder evolution.
Proof.
  split; [by split|]. intros s1 s2 s3 [H1 H2] [H3 H4]. split; [eauto|].
  intros l r Hi Hl. apply H2, H4; eauto.
Qed.

Lemma claim_ok_evolves s s' c : evolution s s' -> claim_ok s c -> claim_ok s' c.
Proof.
  intros [Hi Hl] [H1 H2 H3 H4]. split; [eauto| |done|]; intros l r.
  - intros E Hr. apply (H2 l); [done|]. apply Hl; eauto.
  - intros Hst E Hr. apply (H4 l r); [done|done|]. apply Hl; eauto.
Qed.

(** A change of state, reason or times keeps the relation to the lease, as long
    as the new state promises nothing more. *)
Lemma claim_ok_same s c c' :
  tc_lease_id c' = tc_lease_id c -> tc_graph_id c' = tc_graph_id c -> tc_task_id c' = tc_task_id c ->
  (tc_state c' = ClaimState.ACTIVE -> tc_lease_id c <> None) ->
  (tc_state c' = ClaimState.RELEASED \/ tc_state c' = ClaimState.COMPLETED ->
     forall l r, tc_lease_id c = Some l -> ~ live s l r) ->
  claim_ok s c -> claim_ok s c'.
Proof.
  intros E Eg Et Ha Hc [H1 H2 H3 H4].
  assert (claim_uri c' = claim_uri c) as Hu by (unfold claim_uri; congruence).
  split; rewrite ?E, ?Hu; auto.
Qed.

(** What a method does to the authority and to its claim. *)
Definition method_ok {A} (m : CM A) : Prop := forall s c, authority_ok s -> claim_ok s c ->
  let '(_, (s', c')) := m (s, c) in
  authority_ok s' /\ evolution s s' /\ claim_ok s' c' /\
  forall l, tc_lease_id c' = Some l -> tc_lease_id c = Some l \/ ~ issued s l.

Lemma release_evolves l s : authority_ok s ->
  authority_ok (provider_release l s).2 /\ evolution s (provider_release l s).2.
Proof. intros Hs. destruct (release_promise l s Hs) as [Hst _]. by apply step_evolves. Qed.

Lemma mark_acquiring_ok : method_ok mark_acquiring.
Proof.
  intros s c Hs Hc. cbn. split_and!; [done|done| |by auto]. by apply (claim_ok_same s c); [..|intros [?|?]|].
Qed.
Lemma mark_lost_ok reason now : method_ok (mark_lost reason now).
Proof.
  intros s c Hs Hc. cbn. split_and!; [done|done| |by auto]. by apply (claim_ok_same s c); [..|intros [?|?]|].
Qed.

Lemma try_acquire_ok now : method_ok (try_acquire_lease ttl exc_str now).
Proof.
  intros s c Hs Hc. pose proof (try_acquire_cases ttl exc_str now s c) as Hcase.
  destruct (try_acquire_lease ttl exc_str now (s, c)) as [out [s' c']]. cbn in Hcase.
  pose proof (acquire_promise (tc_process_id c) (claim_uri c) ttl s Hs) as [Hst Hgr].
  destruct (step_evolves _ _ Hst Hs) as [Hs1 He]. unfold claim_uri in *.
  assert (forall m i s1 lid, acquire_exclusive (tc_process_id c)
            (claim_resource_uri (tc_graph_id c) (tc_task_id c)) ttl s = (Ok (Some i), s1) ->
          li_lease_id i = Some lid -> li_fencing_token i = BadToken m -> False) as Hbad.
  { intros m i s1 lid E El Et. rewrite E in Hgr. destruct (Hgr i eq_refl) as (l & z & _ & _ & Ez & _). congruence. }
  destruct Hcase as [e s1 E|s1 E|i s1 E Ha|i s1 lid m s2 E El _ Et _|i s1 lid m o s2 reason text own E El _ Et _ _
                    |i s1 lid own tok reason E El Hne Et _]; try (by exfalso; eapply Hbad); rewrite E in *; cbn in *.
  - split_and!; auto. by apply (claim_ok_evolves s).
  - split_and!; auto. apply (claim_ok_evolves s); [done|]. by apply (claim_ok_same s c); [..|intros [?|?]|].
  - split_and!; auto. apply (claim_ok_evolves s); [done|]. by apply (claim_ok_same s c); [..|intros [?|?]|].
  - destruct (Hgr i eq_refl) as (l & z & El' & _ & _ & Hni & Hl). assert (l = lid) as -> by congruence.
    split_and!; [done|done| |intros l' [= <-]; by right]. split; cbn.
    + intros l' [= <-]. by eapply live_issued.
    + intros l' r [= <-] Hr. by eapply live_one_resource.
    + done.
    + by intros l' r [?|?].
Qed.

Lemma renew_claim_ok t : method_ok (renew_claim ttl t).
Proof.
  intros s c Hs Hc. pose proof (renew_claim_cases ttl t s c) as Hr.
  destruct (renew_claim ttl t (s, c)) as [out [s' c']]. destruct Hr as [Hs' Hc'].
  assert (authority_ok s' /\ evolution s s') as [Hok He].
  { destruct Hs' as [->|(f & l & t' & Hf & _ & ->)]; [done|].
    apply step_evolves; [|done]. by apply renew_promise. }
  split_and!; [done|done| |].
  - apply (claim_ok_evolves s); [done|]. destruct out as [[i|]|]; [|by subst..].
    destruct Hc' as (l & tok & e & Hst & El & _ & _ & _ & ->). apply (claim_ok_same s c); cbn; try done.
    + congruence.
    + intros [?|?]; congruence.
  - intros l El. left. destruct out as [[i|]|]; [|by subst..]. by destruct Hc' as (? & ? & ? & _ & _ & _ & _ & _ & ->).
Qed.

(** A confirmed release, followed by a closing assignment. *)
Lemma close_ok st reason now :
  st = ClaimState.RELEASED \/ st = ClaimState.COMPLETED ->
  method_ok (_safe_release exc_str ;; assign (finished st reason now)).
Proof.
  intros Hst s c Hs Hc. pose proof (safe_release_cases exc_str s c) as Hcase. unfold mbind, M_bind.
  destruct (_safe_release exc_str (s, c)) as [[[]|e] [s' c']]; destruct Hcase as [-> Hcase]; cbn.
  - destruct (tc_lease_id c) as [l|] eqn:El.
    + destruct (release_promise l s Hs) as [Hstep Hdead]. rewrite Hcase in *. cbn in *.
      destruct (step_evolves _ _ Hstep Hs) as [Hs' He]. split_and!; [done|done| |by auto].
      apply (claim_ok_same s' c); cbn; try done; [by destruct Hst; subst| |by apply (claim_ok_evolves s)].
      intros _ l' r' El'. assert (l' = l) as -> by congruence. by apply Hdead.
    + subst s'. split_and!; [done|done| |by auto].
      apply (claim_ok_same s c); cbn; try done; [by destruct Hst; subst|]. intros _ l' r'. by rewrite El.
  - destruct Hcase as (l & text & El & _ & <- & _). destruct (release_evolves l s Hs) as [Hs' He].
    split_and!; [done|done|by apply (claim_ok_evolves s)|by auto].
Qed.
Lemma complete_ok now : method_ok (complete exc_str now).
Proof. apply close_ok. by right. Qed.
Lemma release_ok reason now : method_ok (Claims.release exc_str reason now).
Proof.
  intros s c Hs Hc. unfold Claims.release. rewrite (bind_Ok this _ (s, c) c (s, c) eq_refl).
  case_bool_decide; [cbn; split_and!; by auto|]. by apply (close_ok ClaimState.RELEASED reason now); [left|..].
Qed.

Lemma call_ok {A} r (m : Z -> CM A) w :
  (forall now, method_ok (m now)) -> world_ok w -> world_ok (call r m w).2.
Proof.
  intros Hm [Hs Hc Hu]. unfold call. destruct (objects w !! r) as [c|] eqn:Er; [|done].
  specialize (Hm (wall_clock w) (provider w) c Hs (Hc _ _ Er)).
  destruct (m (wall_clock w) (provider w, c)) as [out [s' c']]. destruct Hm as (Hs' & He & Hc' & Hl).
  assert (forall i j ci l, i <> j -> objects w !! j = Some ci -> tc_lease_id ci = Some l ->
            i = r -> tc_lease_id c' = Some l -> False) as Hfresh.
  { intros i j ci l Hne Hj Hlj -> [Hold|Hnew]%Hl; [by eapply Hne, Hu|]. by eapply Hnew, co_issued, Hlj; eauto. }
  split; cbn; [done| |].
  - intros i ci [(<- & <- & _)|[Hne Hi]]%list_lookup_insert_Some; [done|]. apply (claim_ok_evolves (provider w)); eauto.
  - intros i j ci cj l Hi Hj Hli Hlj. destruct (decide (i = j)) as [|Hne]; [done|exfalso].
    apply list_lookup_insert_Some in Hi, Hj. destruct Hi as [(<- & <- & _)|[Hi Hi']], Hj as [(<- & <- & _)|[Hj Hj']].
    + done.
    + eapply Hfresh; eauto.
    + eapply (Hfresh r i); eauto.
    + by eapply Hne, Hu.
Qed.

Lemma propose_ok cid g v t a p res n w : world_ok w -> world_ok (propose cid g v t a p res n w).2.
Proof.
  intros [Hs Hc Hu]. split; cbn; [done| |].
  - intros i c [Hi|[_ <-]]%lookup_snoc_Some; [by apply (Hc i); destruct Hi|]. by split; cbn; [..|intros ?? [?|?]].
  - intros i j ci cj l [[_ Hi]|[_ <-]]%lookup_snoc_Some [[_ Hj]|[_ <-]]%lookup_snoc_Some; [by apply Hu|done..].
Qed.

Lemma world_step_ok w w' : world_step w w' -> world_ok w -> world_ok w'.
Proof.
  destruct 1 as [s' w Hst|t w| | | | | | | ]; intros Hw;
    [|by destruct Hw|by apply propose_ok
     |by apply call_ok; [intros; first [apply mark_acquiring_ok|apply try_acquire_ok|apply renew_claim_ok
                                       |apply complete_ok|apply release_ok|apply mark_lost_ok]|]..].
  destruct Hw as [Hs Hc Hu]. destruct (step_evolves _ _ Hst Hs) as [Hs' He].
  split; cbn; [done| |done]. intros i c Hi. apply (claim_ok_evolves (provider w)); eauto.
Qed.

(** A host that starts with no claims over a sound authority. *)
Definition fresh_world (s : S) (now : Z) : World S := mkWorld s [] [] now.

Lemma reachable_world_ok s now w :
  authority_ok s -> rtc world_step (fresh_world s now) w -> world_ok w.
Proof.
  intros Hs Hr. remember (fresh_world s now) as w0 eqn:E.
  assert (world_ok w0) as Hw0 by (subst; by split).
  clear E. induction Hr as [|w0 w1 w Hst _ IH]; [done|]. by apply IH, (world_step_ok w0).
Qed.

(** In a reachable world ownership is single: claims on one resource whose leases
    are live are one object. *)
Lemma live_claims_equal w i j ci cj li lj :
  world_ok w -> objects w !! i = Some ci -> objects w !! j = Some cj -> claim_uri ci = claim_uri cj ->
  tc_lease_id ci = Some li -> tc_lease_id cj = Some lj ->
  (exists r, live (provider w) li r) -> (exists r, live (provider w) lj r) -> i = j.
Proof.
  intros [Hs Hc Hu] Hi Hj Hr Hli Hlj [ri Hvi] [rj Hvj].
  pose proof (co_resource _ _ (Hc i ci Hi) li ri Hli Hvi) as ->.
  pose proof (co_resource _ _ (Hc j cj Hj) lj rj Hlj Hvj) as ->.
  rewrite <-Hr in Hvj. assert (li = lj) as -> by (by eapply live_exclusive). by eapply Hu.
Qed.
End Ownership.

(** ** Properties towards an untrusted provider *)

(** C35: acquisition fails closed, whatever the provider returns.  [True] means an
    ACTIVE claim bound to a named lease with a usable token.  [False] means a
    REJECTED claim (the docstring has it stay ACQUIRING), and a named lease that was
    acquired has been given back, with the provider's confirmation; a lease without a
    usable id is not given back, the provider is not asked again.  An exception is the
    provider's own, with the claim as it was, or LeaseReleaseFailed, with the claim
    kept non-terminal and remembering the lease.  No named lease is lost. *)
Theorem try_acquire_fails_closed {S} `{LeaseProvider S} ttl exc_str now s c :
  let '(answer, s1) :=
    acquire_exclusive (tc_process_id c) (claim_resource_uri (tc_graph_id c) (tc_task_id c)) ttl s in
  let '(out, (s', c')) := try_acquire_lease ttl exc_str now (s, c) in
  match out with
  | Ok true => exists i lid, answer = Ok (Some i) /\ li_lease_id i = Some lid /\ lid <> "" /\
      (forall m, li_fencing_token i <> BadToken m) /\ s' = s1 /\
      tc_state c' = ClaimState.ACTIVE /\ tc_lease_id c' = Some lid
  | Ok false => tc_state c' = ClaimState.REJECTED /\ tc_lease_id c' = tc_lease_id c /\
      (forall i lid, answer = Ok (Some i) -> li_lease_id i = Some lid -> lid <> "" ->
        provider_release lid s1 = (Ok true, s')) /\
      (forall i, answer = Ok (Some i) -> li_lease_id i = None \/ li_lease_id i = Some "" -> s' = s1)
  | Raise e =>
      (answer = Raise e /\ s' = s1 /\ c' = c) \/
      exists i lid text, answer = Ok (Some i) /\ li_lease_id i = Some lid /\ lid <> "" /\
        e = LeaseReleaseFailed (tc_claim_id c) lid text /\ (provider_release lid s1).1 <> Ok true /\
        tc_state c' = ClaimState.ACQUIRING /\ tc_lease_id c' = Some lid
  end.
Proof.
  pose proof (try_acquire_cases ttl exc_str now s c) as Hc.
  destruct (try_acquire_lease ttl exc_str now (s, c)) as [out [s' c']]. cbn [fst snd] in Hc.
  destruct Hc as [e s1 E|s1 E|i s1 E Ha|i s1 lid m s2 E El Hne Et Er|i s1 lid m o s2 reason text own E El Hne Et Er Ho
                 |i s1 lid own tok reason E El Hne Et _]; rewrite E; cbn.
  - by left.
  - done.
  - split_and!; [done..| |done]. intros i' lid [= <-] El Hne. destruct Ha; congruence.
  - split_and!; [done..| |].
    + intros i' lid' [= <-] El' _. congruence.
    + intros i' [= <-] [El'|El']; congruence.
  - right. exists i, lid, text. rewrite Er. done.
  - exists i, lid. split_and!; try done. intros m. rewrite Et. by destruct tok.
Qed.

(** The lease a provider returned has the identity of the claim's: the id, the
    resource, the owner where it names one, the fencing generation, and an aware
    expiry. *)
Definition renewal_matches (c : TaskClaim) (lid : string) (i : LeaseInfo) : Prop :=
  li_lease_id i = Some lid /\
  (tc_lease_resource c <> "" -> li_resource_id i = Some (tc_lease_resource c)) /\
  (forall p, li_owner_pid i = Owner (Some p) ->
     p = match tc_lease_owner_pid c with None | Some EmptyString => tc_process_id c | Some q => q end) /\
  match tc_lease_fencing_token c with
  | Some z => li_fencing_token i = IntToken z
  | None => forall m, li_fencing_token i <> BadToken m
  end /\
  is_Some (renewal_expiry i).

Lemma renewal_token_spec c lid i :
  renewal_matches c lid i <-> is_Some (renewal_token c lid i) /\ is_Some (renewal_expiry i).
Proof.
  unfold renewal_matches, renewal_token.
  set (q := match tc_lease_owner_pid c with None | Some EmptyString => tc_process_id c | Some q => q end).
  case_bool_decide as H1; cbn; [|by split; [intros [? _]|intros [[] _]]].
  destruct (String.eqb_spec (tc_lease_resource c) "") as [H2|H2]; cbn.
  2: case_bool_decide as H3; cbn; [|split; [intros (_ & Hr & _); by destruct H3; apply Hr|by intros [[] _]]].
  all: destruct (li_owner_pid i) as [|[p|]]; cbn;
    [|destruct (String.eqb_spec p q) as [H4|H4]; cbn; [|split; [|by intros [[] _]]];
      [|intros (_ & _ & Ho & _); by destruct H4; apply Ho]|].
  all: destruct (tc_lease_fencing_token c) as [z|], (li_fencing_token i) as [|z'|m]; cbn;
    try (destruct (Z.eqb_spec z' z) as [H5|H5]); split; try (by intros (_ & _ & _ & Ht & _)); try (by intros [[] _]).
  all: try (by intros (_ & _ & _ & Ht & ?); split; [|done]; eauto).
  all: try (intros [_ ?]; split_and!; try done; congruence).
  all: try (intros (_ & _ & _ & Ht & _); congruence).
  all: intros (_ & _ & _ & Ht & _); by destruct (Ht m).
Qed.

(** A renewal is accepted exactly when the returned lease has the identity of the
    claim's; otherwise the claim is untouched. *)
Theorem renew_claim_exact {S} `{LeaseProvider S} ttl t s c f lid i s' :
  tc_state c = ClaimState.ACTIVE -> tc_lease_id c = Some lid -> lid <> "" ->
  provider_renew = Some f -> 0 < default ttl t -> f lid (default ttl t) s = (Ok (Some i), s') ->
  (renewal_matches c lid i -> exists tok e,
     renew_claim ttl t (s, c) = (Ok (Some i), (s', set_reason "kernel_lease_renewed"
       (set_renewal tok (DateTime true e) c))) /\ renewal_expiry i = Some e) /\
  (~ renewal_matches c lid i -> renew_claim ttl t (s, c) = (Ok None, (s', c))).
Proof.
  intros Hst El Hne Hf Ht E. rewrite renewal_token_spec. unfold renew_claim, LeaseAdapter.renew. run_cm.
  rewrite El. destruct lid as [|a l']; [done|]. rewrite bool_decide_eq_true_2 by done. cbn.
  destruct (Z.leb_spec (default ttl t) 0); [lia|]. cbn. rewrite Hf. cbn. rewrite E. cbn.
  destruct (renewal_token c _ i) as [tok|], (renewal_expiry i) as [e|]; cbn.
  - split; [by eauto|]. intros []. eauto.
  - split; [by intros [_ []]|done].
  - split; [by intros [[] _]|done].
  - split; [by intros [_ []]|done].
Qed.
