(* ===== verification/KernelProviders.v ===== *)
(** * The kernel behind the scheduler's provider protocols
    (KernelProcessProvider, KernelLeaseProvider and KernelCapabilityProvider of
    sdk/providers.py)

    The adapters by which the scheduler uses the kernel's process, lease and
    capability services.  A kernel lease is a well-formed [LeaseInfo]: its
    identifier is a str, its token an int and its expiry an aware datetime. *)

From S2P Require Import Prelude KernelModels StateMachine Storage Journal ProcessService CapabilityService LeaseService VpgModels Resources Claims.

(** [_ProcInfo] *)
Record ProcInfo : Type := mkProcInfo {
  proc_pid : string;
  proc_state_value : string;
  proc_capability_set_id : string;
  proc_program_id : string }.

Section Providers.
Context `{UuidSource}.

(** ** KernelProcessProvider *)

Definition proc_info (pcb : ProcessControlBlock) : ProcInfo :=
  mkProcInfo (pcb_pid pcb) (ProcessState.value (pcb_state pcb)) (capability_set_id pcb) (program_id pcb).
Definition process_get (pid : string) (s : KState) : option ProcInfo := proc_info <$> get_process pid s.
Definition process_list_all (s : KState) : list ProcInfo := proc_info <$> list_all s.

(** [spawn(program_id or "agent")] with the service's defaults *)
Definition process_spawn (program : option string) : M KState string :=
  let program := match program with None | Some EmptyString => "agent" | Some p => p end in
  pcb ← spawn program "default" None None "default" 10 None;
  mret (pcb_pid pcb).

(** The transition comes first, so that no lease is granted after the cleanup. *)
Definition process_set_failed (pid : string) : M KState unit :=
  transition pid ProcessState.FAILED None ;;
  release_all_for_pid pid ;;
  mret tt.

(** ** KernelLeaseProvider *)

(** A [ResourceLease] as the scheduler sees it. *)
Definition lease_info (l : ResourceLease) : LeaseInfo :=
  mkLeaseInfo (LeaseId (lease_id l)) (Some (resource_id l)) (Owner (Some (owner_pid l)))
    (IntToken (fencing_token l)) (DateTime true (expires_at l)).

(** Only contention is turned into a refusal; other exceptions propagate. *)
Definition kernel_acquire_exclusive (pid resource : string) (ttl : Z) : M KState (option LeaseInfo) :=
  try_except
    (leases ← atomic_acquire pid [mkClaim resource (Some exclusive)] ttl;
     mret (lease_info <$> head leases))
    (fun e => match e with LeaseAcquisitionFailed _ _ => mret None | _ => raise e end).
Definition kernel_release (lid : string) : M KState bool :=
  n ← LeaseService.release [lid]; mret (bool_decide (n = 1%nat)).
Definition kernel_renew (lid : string) (ttl : Z) : M KState (option LeaseInfo) :=
  l ← renew lid ttl; mret (lease_info <$> l).

#[global] Instance KernelLeaseProvider : LeaseProvider KState := {
  acquire_exclusive := kernel_acquire_exclusive;
  provider_release := kernel_release;
  provider_renew := Some kernel_renew;
  provider_release_all_for_pid := release_all_for_pid;
  provider_get lid := gets (fun s => lease_info <$> get_lease lid s);
  provider_list_for_resource r := gets (fun s => lease_info <$> list_active_leases_for_resource r s);
  provider_list_for_pid pid := gets (fun s => lease_info <$> list_leases_for_pid pid s);
  provider_reclaim_expired := (now ← gets clock_now; reclaim_expired now) }.

(** ** KernelCapabilityProvider *)

Definition capability_check (pid resource op : string) (s : KState) : bool := check pid resource op s.
Definition capabilities_for (pid : string) (s : KState) : list Capability :=
  match get_capability_set pid s with None => [] | Some cs => capabilities cs end.
End Providers.
