(* ===== verification/OwnershipProps.v ===== *)
(** * Task ownership over the kernel

    The kernel's lease service keeps the promises of [ClaimProps.LeaseAuthority],
    so the claims of the scheduler inherit its mutual exclusion: a task has one
    owner. *)

From S2P Require Import Prelude KernelModels StateMachine Storage Journal ProcessService LeaseService LeaseFacts LeaseProps VpgModels Resources Claims ClaimProps KernelProviders.

Section Drawn.
Context `{UuidSource}.

(** Identifiers are drawn in order, and a lease is an old one (same identity,
    resource and mode) or carries an identifier drawn meanwhile. *)
Record drawn (s s' : KState) : Prop := {
  drawn_count : (uuid_count s <= uuid_count s')%N;
  drawn_leases l' : l' ∈ leases_projection s' ->
    (exists l, l ∈ leases_projection s /\ lease_id l' = lease_id l /\ resource_id l' = resource_id l /\
       mode l' = mode l) \/
    exists n, (uuid_count s <= n < uuid_count s')%N /\ lease_id l' = uuid4 n }.

#[global] Instance drawn_preorder : PreOrder drawn.
Proof.
  split; [by split; [lia|eauto 6]|]. intros s1 s2 s3 [H1 H2] [H3 H4]. split; [lia|].
  intros l' [(l & [(l0 & Hl0 & E1 & E2 & E3)|(n & Hn & En)]%H2 & F1 & F2 & F3)|(n & Hn & En)]%H4.
  - left. exists l0. split_and!; congruence.
  - right. exists n. split; [lia|congruence].
  - right. exists n. split; [lia|done].
Qed.

Lemma drawn_same s s' :
  leases_projection s' = leases_projection s -> (uuid_count s <= uuid_count s')%N -> drawn s s'.
Proof. intros E Hn. split; [done|]. rewrite E. eauto 6. Qed.
#[global] Instance drawn_frame : JFrame drawn.
Proof. split; [apply drawn_preorder|..]; intros; apply drawn_same; cbn; try done; lia. Qed.
Lemma drawn_sub f s :
  (forall l', l' ∈ f (leases_projection s) ->
     exists l, l ∈ leases_projection s /\ lease_id l' = lease_id l /\ resource_id l' = resource_id l /\
       mode l' = mode l) -> drawn s (set_leases f s).
Proof. intros Hf. split; [cbn; lia|]. intros l' Hl'. left. by apply Hf. Qed.
Lemma drawn_filter (P : ResourceLease -> Prop) `{!forall l, Decision (P l)} s :
  drawn s (set_leases (filter P) s).
Proof. apply drawn_sub. intros l' [_ Hl']%list_elem_of_filter. eauto. Qed.
Lemma drawn_renew lid now t s : drawn s (set_leases (renew_rows lid now t) s).
Proof.
  apply drawn_sub. intros l' Hl'. unfold renew_rows in Hl'. apply list_elem_of_fmap in Hl' as (l & -> & Hl).
  exists l. by case_decide.
Qed.
Lemma drawn_fences f s : drawn s (set_fences f s).
Proof. by apply drawn_same. Qed.
Lemma drawn_waiters f s : drawn s (set_waiters f s).
Proof. by apply drawn_same. Qed.
Lemma drawn_processes f s : drawn s (set_processes f s).
Proof. by apply drawn_same. Qed.
Lemma drawn_programs f s : drawn s (set_program_states f s).
Proof. by apply drawn_same. Qed.
Hint Resolve drawn_frame drawn_filter drawn_renew drawn_fences drawn_waiters drawn_processes drawn_programs : lhos.

Lemma acquire_claim_drawn pid rows now exp c : within drawn (acquire_claim pid rows now exp c).
Proof.
  unfold acquire_claim. within_step; [unfold next_token; solve_within|]. intros s. unfold fresh_uuid. run_m.
  case_bool_decide; cbn; [apply drawn_same; cbn; [done|lia]|]. split; cbn; [lia|].
  intros l' [Hl'|Hl']%elem_of_app; [by left; eauto|right]. apply list_elem_of_singleton in Hl' as ->.
  exists (uuid_count s). split; [lia|done].
Qed.
Hint Resolve acquire_claim_drawn : lhos.
Lemma publish_drawn evs : within drawn (publish evs).
Proof. unfold publish. solve_within. Qed.
Hint Resolve publish_drawn : lhos.
Lemma atomic_acquire_drawn pid claims ttl : within drawn (atomic_acquire pid claims ttl).
Proof.
  unfold atomic_acquire, acquire_tx, clear_waiters_for_pid, _add_waiter, delete_waiters. solve_within.
Qed.
Lemma transition_drawn pid target wc : within drawn (transition pid target wc).
Proof. unfold transition, _upsert_projection. solve_within. Qed.
Lemma lease_step_drawn s s' : lease_step s s' -> drawn s s'.
Proof.
  intros Hst. destruct Hst as [| | | | | | |t s| |];
    [apply atomic_acquire_drawn|..|by apply drawn_same|apply transition_drawn|by apply emit_frame, drawn_frame];
    match goal with |- drawn ?s (?m ?s).2 => enough (within drawn m) as Hw by apply Hw end.
  - unfold LeaseService.release, release_one, delete_leases. solve_within.
  - unfold release_all_for_pid, delete_row, delete_leases. solve_within.
  - unfold renew. solve_within.
  - unfold reclaim_expired, delete_row, delete_leases. solve_within.
  - unfold remove_waiter, delete_waiters. solve_within.
  - unfold clear_waiters_for_pid, delete_waiters. solve_within.
Qed.

(** ** The kernel is a lease authority *)

(** The identifier is none of those still to be drawn. *)
Definition lease_issued (s : KState) (l : string) : Prop := forall n, (uuid_count s <= n)%N -> l <> uuid4 n.
(** The exclusive lease [l] on [r] is in the table. *)
Definition lease_live (s : KState) (l r : string) : Prop :=
  exists row, row ∈ leases_projection s /\ lease_id row = l /\ resource_id row = r /\ mode row = exclusive.

Lemma drawn_evolution s s' : drawn s s' -> lease_evolution lease_live lease_issued s s'.
Proof.
  intros [Hn Hl]. split.
  - intros l Hi n Hle. apply Hi. lia.
  - intros l r Hi (row & Hrow & <- & <- & Hm). destruct (Hl row Hrow) as [(l0 & H0 & E1 & E2 & E3)|(n & Hn' & En)].
    + exists l0. by rewrite E1, E2, <-E3.
    + exfalso. apply (Hi n); [lia|done].
Qed.

Lemma kernel_acquire_run pid r ttl s :
  kernel_ok s ->
  (kernel_acquire_exclusive pid r ttl s).2 = (atomic_acquire pid [mkClaim r (Some exclusive)] ttl s).2 /\
  ((kernel_acquire_exclusive pid r ttl s).1 = Ok None \/
   exists l, (kernel_acquire_exclusive pid r ttl s).1 = Ok (Some (lease_info l)) /\
     (forall l0, l0 ∈ leases_projection s -> resource_id l0 <> r) /\
     l ∈ leases_projection (kernel_acquire_exclusive pid r ttl s).2 /\
     resource_id l = r /\ owner_pid l = pid /\ mode l = exclusive).
Proof.
  intros Hk. unfold kernel_acquire_exclusive, try_except.
  destruct (atomic_acquire_run pid [mkClaim r (Some exclusive)] ttl s Hk) as (out & s' & E & Hk' & Ho).
  destruct Ho as [Hne|r' Hr|c rest Hc Hn Ht|c ev Hn Ht Hin Hb Hty Hpid|ls F n evs Hne Hn Ht Hfree Hg HF He];
    unfold mbind, M_bind; rewrite E; cbn [fst snd]; [done|by split; [|left]..|].
  split; [done|right]. apply Forall2_cons_inv_l in Hg as (l & ls' & (Hr & Ho & Hm & _) & Hls & ->).
  exists l. split; [done|]. split.
  - intros l0 Hl0 Hr0. specialize (Hfree _ (list_elem_of_here _ _)). unfold busy in Hfree.
    apply not_true_iff_false in Hfree. apply Hfree, existsb_exists. exists l0. split; [|done].
    apply list_elem_of_In, elem_of_leases_on. done.
  - split_and!; [cbn; set_solver|done..].
Qed.

Lemma kernel_acquire_promise pid r ttl s :
  kernel_ok s -> lease_step s (kernel_acquire_exclusive pid r ttl s).2 /\
  forall i, (kernel_acquire_exclusive pid r ttl s).1 = Ok (Some i) ->
    exists l z, li_lease_id i = Some l /\ l <> "" /\ li_fencing_token i = IntToken z /\
      ~ lease_issued s l /\ lease_live (kernel_acquire_exclusive pid r ttl s).2 l r.
Proof.
  intros Hk. destruct (kernel_acquire_run pid r ttl s Hk) as [E Hout]. rewrite E. split; [constructor|].
  destruct Hout as [->|(l & -> & Hfree & Hl & Hr & _ & Hm)]; [done|]. rewrite E in Hl. intros i [= <-].
  exists (lease_id l), (fencing_token l).
  destruct (drawn_leases _ _ (atomic_acquire_drawn pid [mkClaim r (Some exclusive)] ttl s) l Hl)
    as [(l0 & H0 & _ & E2 & _)|(n & Hn & En)].
  { exfalso. apply (Hfree l0 H0). congruence. }
  rewrite En. split_and!; [by rewrite <-En|apply uuid4_nonempty|done| |by exists l].
  intros Hi. apply (Hi n); [lia|done].
Qed.

Lemma kernel_release_promise l s :
  kernel_ok s -> lease_step s (kernel_release l s).2 /\
  ((kernel_release l s).1 = Ok true -> forall r, ~ lease_live (kernel_release l s).2 l r).
Proof.
  intros Hk. assert ((kernel_release l s).2 = (LeaseService.release [l] s).2) as E.
  { unfold kernel_release, mbind, M_bind. by destruct (LeaseService.release [l] s) as [[]]. }
  rewrite E. split; [constructor|]. intros _ r (row & Hrow & Hid & _).
  destruct (release_run [l] s Hk) as (rows & evs & Er & _); [done|]. rewrite Er in Hrow. cbn in Hrow.
  apply list_elem_of_filter in Hrow as [Hn _]. apply Hn. rewrite Hid. set_solver.
Qed.

#[global] Instance KernelLeaseAuthority : LeaseAuthority KState.
Proof.
  refine {| authority_ok := kernel_ok; live := lease_live; issued := lease_issued;
            authority_step := lease_step |}.
  - intros s l r [_ Hk] (row & Hrow & <- & _) n Hn. by apply (lok_fresh s Hk).
  - intros s l r1 r2 [_ Hk] (w1 & H1 & <- & <- & _) (w2 & H2 & E & <- & _). f_equal.
    apply (NoDup_key_inj lease_id (leases_projection s)); try done. apply Hk.
  - intros s l1 l2 r [_ Hk] (w1 & H1 & <- & <- & Hm) (w2 & H2 & <- & E & _).
    destruct (decide (lease_id w1 = lease_id w2)) as [|Hne]; [done|exfalso].
    destruct (lok_excl s Hk w1 w2 H1 H2 (eq_sym E) Hne) as [Hs _]. congruence.
  - intros s s' Hst Hk. split; [by apply (lease_step_ok s)|]. by apply drawn_evolution, lease_step_drawn.
  - intros pid r ttl s. apply kernel_acquire_promise.
  - intros l s. apply kernel_release_promise.
  - intros f l ttl s [= <-] Hk. assert ((kernel_renew l ttl s).2 = (renew l ttl s).2) as ->; [|constructor].
    unfold kernel_renew, mbind, M_bind. by destruct (renew l ttl s) as [[]].
Defined.
End Drawn.

(** ** Properties *)

(** C31: a task has one owner.  In every world the scheduler's claims and the
    kernel can reach from an empty store, whatever other processes do with leases:
    two claims of one task whose kernel leases are held are one and the same claim
    object; an ACTIVE claim carries a lease, which if held is the exclusive lease
    on its own task; and the lease of a claim that was released or completed is
    not held any more. *)
Theorem task_single_owner `{UuidSource} ttl exc_str start now w :
  rtc (world_step ttl exc_str) (fresh_world (init_storage start) now) w ->
  (forall i j ci cj li lj, objects w !! i = Some ci -> objects w !! j = Some cj ->
     tc_graph_id ci = tc_graph_id cj -> tc_task_id ci = tc_task_id cj ->
     tc_lease_id ci = Some li -> tc_lease_id cj = Some lj ->
     (exists r, lease_live (provider w) li r) -> (exists r, lease_live (provider w) lj r) -> i = j) /\
  (forall i c, objects w !! i = Some c -> tc_state c = ClaimState.ACTIVE ->
     exists l, tc_lease_id c = Some l /\
       forall r, lease_live (provider w) l r -> r = claim_resource_uri (tc_graph_id c) (tc_task_id c)) /\
  (forall i c l r, objects w !! i = Some c ->
     tc_state c = ClaimState.RELEASED \/ tc_state c = ClaimState.COMPLETED ->
     tc_lease_id c = Some l -> ~ lease_live (provider w) l r).
Proof.
  intros Hr. apply reachable_world_ok in Hr as Hw; [|apply init_kernel_ok]. split_and!.
  - intros i j ci cj li lj Hi Hj Hg Ht Hli Hlj. apply (live_claims_equal w i j ci cj li lj Hw Hi Hj); try done.
    unfold claim_uri. congruence.
  - intros i c Hi Hst. destruct (wo_claims w Hw i c Hi) as [_ Hres Hact _]. specialize (Hact Hst).
    destruct (tc_lease_id c) as [l|]; [|done]. exists l. split; [done|]. intros r. by apply Hres.
  - intros i c l r Hi Hst Hl. by apply (co_closed _ _ (wo_claims w Hw i c Hi)).
Qed.

(** Two agents claim one task; the first gets the lease, the second is refused. *)
Definition demo_try (r : nat) (w : World KState) : World KState :=
  (call r (@try_acquire_lease KState (@KernelLeaseProvider pretty_uuid) DEFAULT_CLAIM_TTL (fun _ => "error")) w).2.
Definition demo_propose (cid agent pid : string) (w : World KState) : World KState :=
  (propose cid "g" 1 "t" agent pid (claim_resource_uri "g" "t") 0 w).2.
Definition proposed_world : World KState :=
  demo_propose "c2" "a2" "p2" (demo_propose "c1" "a1" "p1" (fresh_world (init_storage 0) 0)).
Definition contended_world : World KState := demo_try 1%nat (demo_try 0%nat proposed_world).

Lemma task_single_owner_witness :
  (tc_state <$> objects contended_world) = [ClaimState.ACTIVE; ClaimState.REJECTED] /\
  forall i c, objects contended_world !! i = Some c -> tc_state c = ClaimState.ACTIVE ->
    exists l, tc_lease_id c = Some l /\
      forall r, lease_live (provider contended_world) l r ->
        r = claim_resource_uri (tc_graph_id c) (tc_task_id c).
Proof.
  split; [vm_compute; reflexivity|].
  apply (@task_single_owner pretty_uuid DEFAULT_CLAIM_TTL (fun _ => "error") 0 0 contended_world).
  set (w0 := fresh_world (init_storage 0) 0).
  apply (rtc_l _ _ (demo_propose "c1" "a1" "p1" w0)); [apply ws_propose|].
  apply (rtc_l _ _ proposed_world); [apply ws_propose|].
  apply (rtc_l _ _ (demo_try 0%nat proposed_world)); [apply ws_try_acquire|].
  apply rtc_once. apply ws_try_acquire.
Defined.

(** The claim URI does not identify the task: tasks of two graphs can share one,
    and then exclude each other. *)
Lemma claim_uri_collides :
  claim_resource_uri "a/task/b" "c" = claim_resource_uri "a" "b/task/c".
Proof. reflexivity. Qed.
