(* ===== verification/Agents.v ===== *)
(** * Agents and the requirements of tasks
    (AgentDescriptor and TaskRequirements of runtimes/multi_agent/models.py,
    registry.py and requirements.py)

    Descriptors are built through their validators; the registry is a dict from
    agent ids to descriptors, whose methods run under one lock.  Requirements are
    decoded from the JSON payload of a task node.  The text [str] makes of a list
    or object, and of an instant, is an argument. *)

From Stdlib Require Import Ascii.
From S2P Require Import Prelude PyString VpgModels Readiness Resources.
Open Scope Z_scope.

(** ** Descriptors *)

Record AgentDescriptor : Type := mkAgent {
  ad_agent_id : string;
  ad_process_id : string;
  ad_specializations : list string;
  ad_supported_task_kinds : list string;
  ad_supported_tools : list string;
  ad_max_concurrency : Z;
  ad_cost_weight : Z;
  ad_resource_capacity : ResourceVector;
  ad_enabled : bool;
  ad_metadata : jobj }.

Definition _non_empty (v : string) : result unit :=
  if String.eqb v "" then Raise (ValidationError "must be non-empty") else Ok tt.
Definition _max_concurrency_ge_zero (v : Z) : result unit :=
  if v <? 0 then Raise (ValidationError "max_concurrency must be >= 0") else Ok tt.
Definition _cost_weight_ge_zero (v : Z) : result unit :=
  if v <? 0 then Raise (ValidationError "cost_weight must be >= 0") else Ok tt.

(** [AgentDescriptor(...)] of values of the declared types *)
Definition new_agent (a : AgentDescriptor) : result AgentDescriptor :=
  _non_empty (ad_agent_id a) ;;
  _non_empty (ad_process_id a) ;;
  _max_concurrency_ge_zero (ad_max_concurrency a) ;;
  _cost_weight_ge_zero (ad_cost_weight a) ;;
  Ok a.

(** ** AgentRegistry *)

(** [**fields] of [update]: the field and its new value. *)
Inductive agent_field : Type :=
| FAgentId (v : string)
| FProcessId (v : string)
| FSpecializations (v : list string)
| FSupportedTaskKinds (v : list string)
| FSupportedTools (v : list string)
| FMaxConcurrency (v : Z)
| FCostWeight (v : Z)
| FResourceCapacity (v : ResourceVector)
| FEnabled (v : bool)
| FMetadata (v : jobj)
| FUnknown (name : string).

Definition set_field (f : agent_field) (a : AgentDescriptor) : result AgentDescriptor :=
  match a with
  | mkAgent i p sp k t m c r e md =>
      match f with
      | FAgentId _ => Raise (ValueError "agent_id is immutable")
      | FProcessId v => Ok (mkAgent i v sp k t m c r e md)
      | FSpecializations v => Ok (mkAgent i p v k t m c r e md)
      | FSupportedTaskKinds v => Ok (mkAgent i p sp v t m c r e md)
      | FSupportedTools v => Ok (mkAgent i p sp k v m c r e md)
      | FMaxConcurrency v => Ok (mkAgent i p sp k t v c r e md)
      | FCostWeight v => Ok (mkAgent i p sp k t m v r e md)
      | FResourceCapacity v => Ok (mkAgent i p sp k t m c v e md)
      | FEnabled v => Ok (mkAgent i p sp k t m c r v md)
      | FMetadata v => Ok (mkAgent i p sp k t m c r e v)
      | FUnknown _ => Raise (ValueError "unknown field")
      end
  end.
Fixpoint set_fields (fs : list agent_field) (a : AgentDescriptor) : result AgentDescriptor :=
  match fs with
  | [] => Ok a
  | f :: fs' => a' ← set_field f a; set_fields fs' a'
  end.

Module AgentRegistry.
(** [_agents] *)
Abbreviation t := (dict AgentDescriptor).

Definition register (agent : AgentDescriptor) : M t AgentDescriptor :=
  agents ← get_state;
  raise_if (bool_decide (is_Some (dict_get (ad_agent_id agent) agents))) (ValueError "already registered") ;;
  modify (dict_set (ad_agent_id agent) agent) ;;
  mret agent.
Definition get (agent_id : string) (agents : t) : option AgentDescriptor := dict_get agent_id agents.
Definition list_ (enabled_only : bool) (agents : t) : list AgentDescriptor :=
  if enabled_only then filter (fun a => ad_enabled a = true) agents.*2 else agents.*2.
(** [fields] is the merged dict: each field at most once, in order. *)
Definition update (agent_id : string) (fields : list agent_field) : M t AgentDescriptor :=
  agents ← get_state;
  cur ← some_or_raise (dict_get agent_id agents) (KeyError agent_id);
  data ← of_result (set_fields fields cur);
  updated ← of_result (new_agent data);
  modify (dict_set agent_id updated) ;;
  mret updated.
Definition set_enabled (agent_id : string) (enabled : bool) : M t AgentDescriptor :=
  update agent_id [FEnabled enabled].
Definition enable (agent_id : string) : M t AgentDescriptor := set_enabled agent_id true.
Definition disable (agent_id : string) : M t AgentDescriptor := set_enabled agent_id false.
Definition remove (agent_id : string) : M t AgentDescriptor :=
  agents ← get_state;
  agent ← some_or_raise (dict_get agent_id agents) (KeyError agent_id);
  modify (dict_pop agent_id) ;;
  mret agent.
Definition clear : M t unit := modify (fun _ => []).
Definition len (agents : t) : nat := length agents.
Definition contains (agent_id : string) (agents : t) : bool := bool_decide (is_Some (dict_get agent_id agents)).
Definition snapshot (agents : t) : t := agents.
End AgentRegistry.

(** ** Task requirements *)

Record TaskRequirements : Type := mkRequirements {
  tr_task_id : string;
  tr_task_kind : string;
  tr_preferred_agent : string;
  tr_required_specializations : list string;
  tr_preferred_specializations : list string;
  tr_required_tools : list string;
  tr_required_capabilities : list string;
  tr_priority : Z;
  tr_estimated_cost : Z;
  tr_resources : ResourceVector;
  tr_max_attempts : option Z }.

(** [int(text)]: optional white space, a sign, decimal digits with single
    underscores between them.  (Digits outside ASCII are not modelled.) *)
Fixpoint int_digits (acc : Z) (after_digit : bool) (l : list ascii) : option Z :=
  match l with
  | [] => if after_digit then Some acc else None
  | a :: l' =>
      let n := Z.of_nat (nat_of_ascii a) in
      if (48 <=? n) && (n <=? 57) then int_digits (acc * 10 + (n - 48)) true l'
      else if (n =? 95) && after_digit then
        match l' with [] => None | _ => int_digits acc false l' end
      else None
  end.
Definition py_int_of_text (s : string) : option Z :=
  match chars (strip s) with
  | "-"%char :: l => Z.opp <$> int_digits 0 false l
  | "+"%char :: l => int_digits 0 false l
  | l => int_digits 0 false l
  end.

Example int_of_text_demo :
  py_int_of_text <$> [" 12 "; "-7"; "1_000"; "1__0"; "_1"; "1_"; ""; "+"; "x"] =
  [Some 12; Some (-7); Some 1000; None; None; None; None; None; None].
Proof. reflexivity. Qed.

(** The body of [try: return int(v) except (TypeError, ValueError)]: [None] when
    the except clause runs.  An infinite float raises OverflowError. *)
Definition try_int (v : json) : result (option Z) :=
  match v with
  | JInt z => Ok (Some z)
  | JBool b => Ok (Some (if b then 1 else 0))
  | JFloat r => match py_int_of_float r with
                | Ok z => Ok (Some z)
                | Raise (ValueError _) => Ok None
                | Raise e => Raise e
                end
  | JStr s => Ok (py_int_of_text s)
  | _ => Ok None
  end.
Definition _as_int (v : option json) (d : Z) : result Z :=
  match v with
  | None => Ok d
  | Some j => z ← try_int j; Ok (default d z)
  end.
Definition _as_int_or_none (v : option json) : result (option Z) :=
  match v with None => Ok None | Some j => try_int j end.

Section Text.
(** [str] of a list or dict, and the ISO text of an instant *)
Context (container_text : json -> string) (iso_text : Z -> string).

Definition py_str (v : json) : string :=
  match v with
  | JNull => "None"
  | JBool true => "True"
  | JBool false => "False"
  | JInt z => pretty z
  | JFloat r => r
  | JStr s => s
  | JTime t => iso_text t
  | JList _ | JObj _ => container_text v
  end.

Definition _to_tuple (v : option json) : list string :=
  match v with
  | None | Some JNull => []
  | Some (JList l) => filter (fun s => s <> "") (py_str <$> l)
  | Some j => if truthy j then [py_str j] else []
  end.

(** [for name, count in raw_slots.items()]: a later name that reads the same
    cannot occur, the keys of an object are strings and unique. *)
Fixpoint decode_slots (raw : jobj) : result (list (string * Z)) :=
  match raw with
  | [] => Ok []
  | (name, count) :: rest =>
      parsed ← _as_int (Some count) 0;
      slots ← decode_slots rest;
      Ok (if 0 <? parsed then (name, parsed) :: slots else slots)
  end.
Definition _decode_resources (value : option json) : result ResourceVector :=
  match value with
  | Some (JObj o) =>
      slots ← match jget "model_slots" o with Some (JObj raw) => decode_slots raw | _ => Ok [] end;
      cpu ← _as_int (jget "cpu_millis" o) 0;
      ram ← _as_int (jget "ram_bytes" o) 0;
      gpu ← _as_int (jget "gpu_count" o) 0;
      vram ← _as_int (jget "vram_bytes" o) 0;
      new_vector (Z.max cpu 0) (Z.max ram 0) (Z.max gpu 0) (Z.max vram 0) slots
  | _ => Ok empty_vector
  end.

(** A section of [metadata], as a dict. *)
Definition section_of (name : string) (payload : jobj) : jobj :=
  match jget "metadata" payload with
  | Some (JObj meta) => match jget name meta with Some (JObj s) => s | _ => [] end
  | _ => []
  end.
(** [sched.get("task_kind", "") or payload.get("task_kind", "")], as a str field. *)
Definition task_kind_of (sched payload : jobj) : result string :=
  let v := default (JStr "") (jget "task_kind" sched) in
  match (if truthy v then v else default (JStr "") (jget "task_kind" payload)) with
  | JStr s => Ok s
  | JTime t => Ok (iso_text t)
  | _ => Raise (ValidationError "task_kind")
  end.

Definition decode_task_requirements (task_id : string) (payload : jobj) : result TaskRequirements :=
  let sched := section_of "scheduler" payload in
  let sdk := section_of "sdk" payload in
  prio ← _as_int (jget "priority" sched) 0;
  cost ← _as_int (jget "estimated_cost" sched) 0;
  res ← _decode_resources (jget "resources" sched);
  attempts ← _as_int_or_none (jget "max_attempts" sched);
  kind ← task_kind_of sched payload;
  Ok (mkRequirements task_id kind (py_str (default (JStr "") (jget "agent" sdk)))
    (_to_tuple (jget "required_specializations" sched)) (_to_tuple (jget "preferred_specializations" sched))
    (_to_tuple (jget "required_tools" sched)) (_to_tuple (jget "required_capabilities" sched))
    prio cost res attempts).
End Text.
