(* ===== verification/Matching.v ===== *)
(** * Eligibility and matching of agents
    (runtimes/multi_agent/eligibility.py and matching.py, with EligibilityResult,
    AgentMatchScore and MatchDecision of models.py)

    Which agents may run a task, and which of them is chosen.  The reasons of a
    result are kept by their branch and data; the text they are rendered to is
    not, so the digest of a decision is an argument, a function of the decision's
    contents. *)

From Stdlib Require Import Ascii.
From S2P Require Import Prelude PyString VpgModels Resources Agents.
Open Scope Z_scope.

(** ** Eligibility *)

Definition _SCHEDULABLE_PROCESS_STATES : list string := ["ready"; "running"; "created"].
Definition _TERMINAL_PROCESS_STATES : list string := ["exited"; "failed"].

Inductive ineligibility : Type :=
| AgentDisabled
| ProcessMissing (process_id : string)
| ProcessStateUnavailable
| ProcessTerminal (state : string)
| ProcessNotSchedulable (state : string)
| NoConcurrency
| CapacityExhausted (active maximum : Z)
| KindUnsupported (task_kind : string) (supported : list string)
| MissingSpecializations (missing : list string)
| MissingTools (missing : list string)
| MissingCapabilities (missing : list string)
| InsufficientResources (shortages : list (string * Z)).

Record EligibilityResult : Type := mkEligibility {
  er_graph_id : string;
  er_graph_version : Z;
  er_task_id : string;
  er_agent_id : string;
  eligible : bool;
  er_reasons : list ineligibility }.

(** A capability checker: [check pid resource op] returns or raises. *)
Abbreviation checker := (string -> string -> string -> result bool).

(** [cap] names a resource and an operation and the checker does not grant it. *)
Definition cap_missing (check : checker) (pid cap : string) : bool :=
  match rsplit1 ":"%char cap with
  | None => false
  | Some (resource, op) =>
      match check pid resource op with Ok ok => negb ok | Raise _ => true end
  end.
Definition _missing_kernel_capabilities (pid : string) (required : list string)
    (capability_checker : option checker) : list string :=
  match capability_checker with
  | None => py_sorted required
  | Some check => py_sorted (filter (fun cap => cap_missing check pid cap = true) required)
  end.

(** [sorted(set(required) - set(held))] *)
Definition missing_from (required held : list string) : list string :=
  py_sorted (filter (fun x => x ∉ held) (remove_dups required)).

Definition process_reasons (agent : AgentDescriptor) (process_exists : bool) (process_state : option string)
    : list ineligibility :=
  if negb process_exists then [ProcessMissing (ad_process_id agent)]
  else match process_state with
       | None => [ProcessStateUnavailable]
       | Some st =>
           if bool_decide (st ∈ _TERMINAL_PROCESS_STATES) then [ProcessTerminal st]
           else if bool_decide (st ∈ _SCHEDULABLE_PROCESS_STATES) then []
           else [ProcessNotSchedulable st]
       end.
Definition capacity_reasons (agent : AgentDescriptor) (active : Z) : list ineligibility :=
  if ad_max_concurrency agent =? 0 then [NoConcurrency]
  else if ad_max_concurrency agent <=? active then [CapacityExhausted active (ad_max_concurrency agent)]
  else [].
Definition kind_reasons (agent : AgentDescriptor) (task_kind : string) : list ineligibility :=
  let kinds := ad_supported_task_kinds agent in
  if negb (String.eqb task_kind "") && negb (bool_decide (kinds = [])) && bool_decide ("*" ∉ kinds)
     && bool_decide (task_kind ∉ kinds)
  then [KindUnsupported task_kind kinds] else [].
(** [if missing: reasons.append(...)] *)
Definition unless_empty (missing : list string) (r : ineligibility) : list ineligibility :=
  match missing with [] => [] | _ => [r] end.

Definition evaluate_eligibility (agent : AgentDescriptor) (task_id graph_id : string) (graph_version : Z)
    (task_kind : string) (required_specializations required_tools required_capabilities : list string)
    (active_claims_for_agent : Z) (process_state : option string) (process_exists : bool)
    (capability_checker : option checker) : EligibilityResult :=
  let missing_specs := missing_from required_specializations (ad_specializations agent) in
  let missing_tools := missing_from required_tools (ad_supported_tools agent) in
  let missing_caps :=
    _missing_kernel_capabilities (ad_process_id agent) required_capabilities capability_checker in
  let reasons :=
    (if ad_enabled agent then [] else [AgentDisabled])
    ++ process_reasons agent process_exists process_state
    ++ capacity_reasons agent active_claims_for_agent
    ++ kind_reasons agent task_kind
    ++ unless_empty missing_specs (MissingSpecializations missing_specs)
    ++ unless_empty missing_tools (MissingTools missing_tools)
    ++ unless_empty missing_caps (MissingCapabilities missing_caps) in
  mkEligibility graph_id graph_version task_id (ad_agent_id agent) (bool_decide (reasons = [])) reasons.

(** ** Matching *)

Definition SPECIALIZATION_BONUS : Z := 10.
Definition LOCALITY_BONUS : Z := 5.
Definition LOCALITY_BONUS_MAX : Z := 25.
Definition PREFERRED_AGENT_BONUS : Z := 20.
Definition LOAD_PENALTY : Z := 1.
Definition COST_PENALTY_DIVISOR : Z := 50.

Inductive match_reason : Type :=
| PreferredAgent (bonus : Z)
| PreferredSpecializations (held : list string) (bonus : Z)
| ContextResidency (resident declared : Z) (bonus : Z)
| Load (load penalty : Z)
| CostWeight (cost penalty : Z)
| TaskPriority (priority bonus : Z)
| Baseline.

Record AgentMatchScore : Type := mkScore {
  ms_agent_id : string;
  ms_score : Z;
  ms_reasons : list match_reason }.

Record MatchDecision : Type := mkDecision {
  md_graph_id : string;
  md_graph_version : Z;
  md_task_id : string;
  selected_agent_id : string;
  candidates : list AgentMatchScore;
  policy_id : string;
  decision_hash : string }.

Definition _cost_of (agent_id : string) (pool : list AgentDescriptor) : Z :=
  match tbl_find ad_agent_id agent_id pool with Some a => ad_cost_weight a | None => 0 end.

Section Match.
(** What the request is about. *)
Context (graph_id : string) (graph_version : Z) (task_id : string) (task_priority : Z)
  (active_claims_by_agent : dict Z) (preferred_specializations : list string) (preferred_agent : string)
  (task_read_keys : list string) (resident_read_keys_by_agent : option (dict (list string)))
  (digest : string -> Z -> string -> list AgentMatchScore -> string).

Definition load_of (agent_id : string) : Z := default 0 (dict_get agent_id active_claims_by_agent).

(** [frozenset(key for key in task_read_keys if key)] *)
Definition declared_reads : list string := remove_dups (filter (fun k => k <> "") task_read_keys).
(** [sorted(set(preferred) & set(held))] *)
Definition held_preferred (agent : AgentDescriptor) : list string :=
  py_sorted (filter (fun x => x ∈ ad_specializations agent) (remove_dups preferred_specializations)).
Definition resident_count (agent : AgentDescriptor) : Z :=
  let resident := match resident_read_keys_by_agent with
                  | None => []
                  | Some m => default [] (dict_get (ad_agent_id agent) m)
                  end in
  Z.of_nat (length (filter (fun k => k ∈ resident) declared_reads)).

(** The terms of the score, each with its reason when it is not zero. *)
Definition score_terms (agent : AgentDescriptor) : list (Z * match_reason) :=
  let held := held_preferred agent in
  let count := resident_count agent in
  let load := load_of (ad_agent_id agent) in
  let cost := ad_cost_weight agent / COST_PENALTY_DIVISOR in
  let term (on : bool) (v : Z) (r : match_reason) := if on then [(v, r)] else [] in
  term (negb (String.eqb preferred_agent "") && String.eqb (ad_agent_id agent) preferred_agent)
    PREFERRED_AGENT_BONUS (PreferredAgent PREFERRED_AGENT_BONUS)
  ++ (let bonus := SPECIALIZATION_BONUS * Z.of_nat (length held) in
      term (negb (bool_decide (held = []))) bonus (PreferredSpecializations held bonus))
  ++ (let bonus := Z.min (LOCALITY_BONUS * count) LOCALITY_BONUS_MAX in
      term (negb (count =? 0)) bonus (ContextResidency count (Z.of_nat (length declared_reads)) bonus))
  ++ (let penalty := LOAD_PENALTY * load in term (negb (load =? 0)) (- penalty) (Load load penalty))
  ++ term (negb (ad_cost_weight agent =? 0) && negb (cost =? 0)) (- cost) (CostWeight (ad_cost_weight agent) cost)
  ++ (let bonus := Z.min task_priority 3 in
      term (negb (task_priority =? 0)) bonus (TaskPriority task_priority bonus)).

Definition score_agent (agent : AgentDescriptor) : AgentMatchScore :=
  let terms := score_terms agent in
  mkScore (ad_agent_id agent) (foldr Z.add 0 terms.*1)
    (match terms.*2 with [] => [Baseline] | rs => rs end).

(** The sort key: score descending, then load, cost and id ascending. *)
Definition rank (pool : list AgentDescriptor) (s : AgentMatchScore) : Z * Z * Z * string :=
  (- ms_score s, load_of (ms_agent_id s), _cost_of (ms_agent_id s) pool, ms_agent_id s).

Definition match_deterministic_best_fit_v1 (eligible_agents : list AgentDescriptor) : MatchDecision :=
  let scored_sorted := sort_on (rank eligible_agents) (score_agent <$> eligible_agents) in
  let selected := match scored_sorted with s :: _ => ms_agent_id s | [] => "" end in
  mkDecision graph_id graph_version task_id selected scored_sorted "deterministic_best_fit_v1"
    (digest graph_id graph_version task_id scored_sorted).
End Match.
