(* ===== verification/MatchingProps.v ===== *)
(** * Eligibility and matching: properties

    Exactly which agents are eligible; the choice among them is the best one and
    does not depend on the order in which agents are listed. *)

From Stdlib Require Import Ascii.
From S2P Require Import Prelude PyString VpgModels Resources Agents Matching.
Open Scope Z_scope.

(** ** Eligibility *)

Lemma app_nil_iff {A} (l k : list A) : l ++ k = [] <-> l = [] /\ k = [].
Proof. destruct l; naive_solver. Qed.
Lemma unless_empty_nil missing r : unless_empty missing r = [] <-> missing = [].
Proof. by destruct missing. Qed.
Lemma sorted_nil (l : list string) : py_sorted l = [] <-> l = [].
Proof.
  split; [|by intros ->]. intros E. apply Permutation_nil_r. by rewrite <-E, sort_on_perm.
Qed.
Lemma filter_nil {A} (P : A -> Prop) `{!forall x, Decision (P x)} (l : list A) :
  filter P l = [] <-> forall x, x ∈ l -> ~ P x.
Proof.
  split.
  - intros E x Hx HP. assert (x ∈ filter P l) as Hin by by apply list_elem_of_filter.
    rewrite E in Hin. set_solver.
  - intros Hn. by apply filter_none.
Qed.
Lemma missing_from_nil required held : missing_from required held = [] <-> required ⊆ held.
Proof.
  unfold missing_from. rewrite sorted_nil, filter_nil. split.
  - intros Hn x Hx. destruct (decide (x ∈ held)) as [|Hni]; [done|]. destruct (Hn x); [|done].
    by apply elem_of_remove_dups.
  - intros Hs x Hx Hni. apply Hni, Hs. by apply elem_of_remove_dups.
Qed.

(** What each group of reasons being empty means. *)
Lemma process_reasons_nil agent ex st :
  process_reasons agent ex st = [] <-> ex = true /\ exists s, st = Some s /\ s ∈ _SCHEDULABLE_PROCESS_STATES.
Proof.
  unfold process_reasons. destruct ex; cbn; [|naive_solver]. destruct st as [s|]; [|naive_solver].
  destruct (decide (s ∈ _TERMINAL_PROCESS_STATES)) as [Ht|Ht].
  - rewrite bool_decide_eq_true_2 by done. split; [done|]. intros [_ (? & [= <-] & Hs)].
    unfold _TERMINAL_PROCESS_STATES, _SCHEDULABLE_PROCESS_STATES in *. set_solver.
  - rewrite bool_decide_eq_false_2 by done. case_bool_decide; naive_solver.
Qed.
Lemma capacity_reasons_nil agent active :
  capacity_reasons agent active = [] <-> ad_max_concurrency agent <> 0 /\ active < ad_max_concurrency agent.
Proof.
  unfold capacity_reasons. destruct (Z.eqb_spec (ad_max_concurrency agent) 0); [by split; [|intros []]|].
  destruct (Z.leb_spec (ad_max_concurrency agent) active); split; try done; lia.
Qed.
Lemma kind_reasons_nil agent kind :
  kind_reasons agent kind = [] <->
  kind = "" \/ ad_supported_task_kinds agent = [] \/ "*" ∈ ad_supported_task_kinds agent \/
  kind ∈ ad_supported_task_kinds agent.
Proof.
  unfold kind_reasons. destruct (String.eqb_spec kind "") as [->|Hk]; cbn; [naive_solver|].
  case_bool_decide as H1; cbn; [naive_solver|]. case_bool_decide as H2; cbn.
  2: { split; [|done]. intros _. right; right; left. destruct (decide ("*" ∈ ad_supported_task_kinds agent)); done. }
  case_bool_decide as H3; cbn.
  - split; [done|]. naive_solver.
  - split; [|done]. intros _. do 3 right. by destruct (decide (kind ∈ ad_supported_task_kinds agent)).
Qed.

(** The capabilities a checker confirms: every one that names an operation. *)
Definition caps_granted (pid : string) (required : list string) (capability_checker : option checker) : Prop :=
  match capability_checker with
  | None => required = []
  | Some check => forall cap resource op, cap ∈ required ->
      rsplit1 ":"%char cap = Some (resource, op) -> check pid resource op = Ok true
  end.
Lemma missing_caps_nil pid required check :
  _missing_kernel_capabilities pid required check = [] <-> caps_granted pid required check.
Proof.
  unfold _missing_kernel_capabilities, caps_granted. destruct check as [check|]; [|apply sorted_nil].
  rewrite sorted_nil, filter_nil. unfold cap_missing. split.
  - intros Hn cap res op Hin E. specialize (Hn cap Hin). rewrite E in Hn.
    destruct (check pid res op) as [[]|]; cbn in Hn; done.
  - intros Hg cap Hin. destruct (rsplit1 _ cap) as [[res op]|] eqn:E; [|done].
    by rewrite (Hg cap res op Hin E).
Qed.

(** All of it together. *)
Lemma eligible_iff agent task gid ver kind specs tools caps active st ex check :
  eligible (evaluate_eligibility agent task gid ver kind specs tools caps active st ex check) = true <->
  ad_enabled agent = true /\
  (ex = true /\ exists s, st = Some s /\ s ∈ _SCHEDULABLE_PROCESS_STATES) /\
  (ad_max_concurrency agent <> 0 /\ active < ad_max_concurrency agent) /\
  (kind = "" \/ ad_supported_task_kinds agent = [] \/ "*" ∈ ad_supported_task_kinds agent \/
   kind ∈ ad_supported_task_kinds agent) /\
  specs ⊆ ad_specializations agent /\ tools ⊆ ad_supported_tools agent /\
  caps_granted (ad_process_id agent) caps check.
Proof.
  cbn [eligible evaluate_eligibility]. rewrite bool_decide_eq_true, !app_nil_iff, !unless_empty_nil.
  rewrite process_reasons_nil, capacity_reasons_nil, kind_reasons_nil, !missing_from_nil, missing_caps_nil.
  apply and_iff_compat_r. by destruct (ad_enabled agent).
Qed.

(** ** Matching *)

Section Best.
Context (graph_id : string) (graph_version : Z) (task_id : string) (task_priority : Z)
  (active_claims_by_agent : dict Z) (preferred_specializations : list string) (preferred_agent : string)
  (task_read_keys : list string) (resident_read_keys_by_agent : option (dict (list string)))
  (digest : string -> Z -> string -> list AgentMatchScore -> string).

#[local] Abbreviation score_agent_ := (score_agent task_priority active_claims_by_agent preferred_specializations
  preferred_agent task_read_keys resident_read_keys_by_agent).
#[local] Abbreviation rank_ := (rank active_claims_by_agent).
#[local] Abbreviation match_ := (match_deterministic_best_fit_v1 graph_id graph_version task_id task_priority
  active_claims_by_agent preferred_specializations preferred_agent task_read_keys resident_read_keys_by_agent digest).

(** Agent [a] is preferred to agent [b]: a higher score; then less load, then a
    lower cost, then the smaller id. *)
Definition outranks (a b : AgentDescriptor) : Prop :=
  let sc x := ms_score (score_agent_ x) in
  let load x := load_of active_claims_by_agent (ad_agent_id x) in
  sc b < sc a \/
  sc a = sc b /\ (load a < load b \/
  load a = load b /\ (ad_cost_weight a < ad_cost_weight b \/
  ad_cost_weight a = ad_cost_weight b /\ py_cmp (ad_agent_id a) (ad_agent_id b) = Lt)).

Lemma cost_of_elem pool a :
  NoDup (ad_agent_id <$> pool) -> a ∈ pool -> _cost_of (ad_agent_id a) pool = ad_cost_weight a.
Proof. intros Hn Ha. unfold _cost_of. by rewrite (tbl_find_elem ad_agent_id pool a). Qed.

Lemma outranks_iff pool a b :
  NoDup (ad_agent_id <$> pool) -> a ∈ pool -> b ∈ pool -> a <> b ->
  py_leb (rank_ pool (score_agent_ a)) (rank_ pool (score_agent_ b)) = true -> outranks a b.
Proof.
  intros Hn Ha Hb Hne. unfold rank, py_leb. rewrite !prod_cmp. cbn [ms_agent_id score_agent].
  rewrite !cost_of_elem by done. unfold outranks. unfold py_cmp at 1 2 3, Z_PyOrd.
  set (sa := ms_score _). set (sb := ms_score (score_agent_ b)).
  destruct (Z.compare_spec (- sa) (- sb)); [|intros _; left; lia|done].
  destruct (Z.compare_spec (load_of active_claims_by_agent (ad_agent_id a)) (load_of active_claims_by_agent (ad_agent_id b)));
    [|intros _; right; split; [lia|by left]|done].
  destruct (Z.compare_spec (ad_cost_weight a) (ad_cost_weight b)); [|intros _; right; split; [lia|right; split; [done|by left]]|done].
  destruct (py_cmp (ad_agent_id a) (ad_agent_id b)) eqn:E; [|intros _|done].
  - apply py_cmp_eq in E. destruct Hne. by apply (NoDup_key_inj ad_agent_id pool).
  - right; split; [lia|]. right; split; [done|]. right; done.
Qed.

Lemma score_agents_inj pool :
  NoDup (ad_agent_id <$> pool) ->
  forall x y, x ∈ score_agent_ <$> pool -> y ∈ score_agent_ <$> pool -> rank_ pool x = rank_ pool y -> x = y.
Proof.
  intros Hn x y (a & -> & Ha)%list_elem_of_fmap (b & -> & Hb)%list_elem_of_fmap [= _ _ _ E].
  f_equal. by apply (NoDup_key_inj ad_agent_id pool).
Qed.

Lemma match_perm pool pool' :
  NoDup (ad_agent_id <$> pool) -> pool ≡ₚ pool' -> match_ pool' = match_ pool.
Proof.
  intros Hn Hp. assert (NoDup (ad_agent_id <$> pool')) as Hn' by by rewrite <-Hp.
  enough (sort_on (rank_ pool') (score_agent_ <$> pool') = sort_on (rank_ pool) (score_agent_ <$> pool)) as E.
  { unfold match_deterministic_best_fit_v1. by rewrite E. }
  transitivity (sort_on (rank_ pool) (score_agent_ <$> pool')).
  - apply sort_on_ext. intros x (a & -> & Ha)%list_elem_of_fmap. unfold rank. cbn [ms_agent_id score_agent].
    rewrite !cost_of_elem; [done|done|by rewrite Hp|done|done].
  - symmetry. apply sort_on_unique; [by apply score_agents_inj|]. by rewrite Hp.
Qed.

(** The candidate list of a non-empty pool starts with the chosen agent, who
    outranks every other. *)
Lemma selected_spec pool :
  NoDup (ad_agent_id <$> pool) -> pool <> [] ->
  exists a, a ∈ pool /\ selected_agent_id (match_ pool) = ad_agent_id a /\
    forall b, b ∈ pool -> b <> a -> outranks a b.
Proof.
  intros Hn Hne. unfold match_deterministic_best_fit_v1. cbn [selected_agent_id].
  pose proof (sort_on_sorted (rank_ pool) (score_agent_ <$> pool)) as Hs.
  pose proof (sort_on_perm (rank_ pool) (score_agent_ <$> pool)) as Hp.
  destruct (sort_on (rank_ pool) (score_agent_ <$> pool)) as [|x xs].
  { apply Permutation_nil_l in Hp. symmetry in Hp. by apply fmap_nil_inv in Hp. }
  assert (x ∈ score_agent_ <$> pool) as (a & -> & Ha)%list_elem_of_fmap by (rewrite <-Hp; set_solver).
  exists a. split; [done|]. split; [done|]. intros b Hb Hba. apply (outranks_iff pool); try done.
  apply StronglySorted_inv in Hs as [_ Hall]. rewrite Forall_forall in Hall.
  assert (score_agent_ b ∈ score_agent_ a :: xs) as Hin by (rewrite Hp; by apply list_elem_of_fmap_2).
  apply elem_of_cons in Hin as [E|Hin]; [|by apply Hall].
  destruct Hba. apply (NoDup_key_inj ad_agent_id pool); try done. by injection E.
Qed.

Lemma outranks_irrefl_pair a b : outranks a b -> outranks b a -> False.
Proof.
  unfold outranks. intros [?|(? & [?|(? & [?|(? & E)])])] [?|(? & [?|(? & [?|(? & E')])])]; try lia.
  rewrite (py_cmp_flip (ad_agent_id a)), E in E'. done.
Qed.
End Best.

(** The priority of the task is the same term for every agent. *)
Lemma score_priority p q act ps pa rk res a :
  ms_score (score_agent p act ps pa rk res a) - Z.min p 3 = ms_score (score_agent q act ps pa rk res a) - Z.min q 3.
Proof.
  assert (forall l k, foldr Z.add 0 (l ++ k) = foldr Z.add 0 l + foldr Z.add 0 k) as Happ.
  { intros l k. induction l as [|x l IH]; cbn; [done|]. rewrite IH. lia. }
  unfold score_agent. cbn [ms_score]. unfold score_terms. cbv zeta. rewrite !fmap_app, !Happ.
  destruct (Z.eqb_spec p 0), (Z.eqb_spec q 0); cbn; lia.
Qed.

(** ** Properties *)

(** An agent is eligible exactly when it is enabled, its process exists and
    is in a schedulable state, it has room for another claim, supports the kind
    of the task, holds every required specialization and tool, and every required
    capability that names an operation is granted by the checker (without a
    checker nothing may be required). *)
Theorem eligibility_exact agent task gid ver kind specs tools caps active st ex check :
  eligible (evaluate_eligibility agent task gid ver kind specs tools caps active st ex check) = true <->
  ad_enabled agent = true /\
  (ex = true /\ exists s, st = Some s /\ s ∈ _SCHEDULABLE_PROCESS_STATES) /\
  (ad_max_concurrency agent <> 0 /\ active < ad_max_concurrency agent) /\
  (kind = "" \/ ad_supported_task_kinds agent = [] \/ "*" ∈ ad_supported_task_kinds agent \/
   kind ∈ ad_supported_task_kinds agent) /\
  specs ⊆ ad_specializations agent /\ tools ⊆ ad_supported_tools agent /\
  caps_granted (ad_process_id agent) caps check.
Proof. apply eligible_iff. Qed.

(** Matching is deterministic and picks the best.  Over agents with
    different ids the whole decision, digest included, is the same for every
    order in which they are listed; an empty pool selects nobody; otherwise the
    selected agent is in the pool and outranks every other by score, then load,
    then cost, then id. *)
Theorem best_fit_deterministic gid ver task prio act ps pa rk res digest pool :
  NoDup (ad_agent_id <$> pool) ->
  let decision := match_deterministic_best_fit_v1 gid ver task prio act ps pa rk res digest in
  (forall pool', pool ≡ₚ pool' -> decision pool' = decision pool) /\
  (pool = [] -> selected_agent_id (decision pool) = "") /\
  (pool <> [] -> exists a, a ∈ pool /\ selected_agent_id (decision pool) = ad_agent_id a /\
     forall b, b ∈ pool -> b <> a -> outranks prio act ps pa rk res a b).
Proof.
  intros Hn decision. split; [|split].
  - intros pool' Hp. by apply match_perm.
  - by intros ->.
  - intros Hne. by apply selected_spec.
Qed.

Definition demo_agent (id : string) (specs : list string) (cost : Z) : AgentDescriptor :=
  mkAgent id (String.append "p-" id) specs [] [] 1 cost empty_vector true [].
Definition demo_match (pref : string) (reads : list string) (resident : dict (list string))
    (pool : list AgentDescriptor) : MatchDecision :=
  match_deterministic_best_fit_v1 "g" 1 "t" 0 [("b", 1)] ["ml"] pref reads (Some resident) (fun _ _ _ _ => "h") pool.

Lemma best_fit_deterministic_witness :
  let pool := [demo_agent "a" [] 100; demo_agent "b" ["ml"] 100; demo_agent "c" ["ml"] 100] in
  selected_agent_id (demo_match "" [] [] pool) = "c" /\
  demo_match "" [] [] (rev pool) = demo_match "" [] [] pool.
Proof.
  intros pool. split; [vm_compute; reflexivity|].
  apply (best_fit_deterministic "g" 1 "t" 0 [("b", 1)] ["ml"] "" [] (Some []) (fun _ _ _ _ => "h") pool).
  - apply (bool_decide_unpack _). vm_compute. exact I.
  - apply Permutation_rev.
Defined.

(** Matching is blind to the priority of the task: it adds the same term to every
    agent. *)
Lemma match_priority_blind gid ver task p q act ps pa rk res digest pool :
  NoDup (ad_agent_id <$> pool) ->
  selected_agent_id (match_deterministic_best_fit_v1 gid ver task p act ps pa rk res digest pool) =
  selected_agent_id (match_deterministic_best_fit_v1 gid ver task q act ps pa rk res digest pool).
Proof.
  intros Hn. destruct (decide (pool = [])) as [->|Hne]; [done|].
  destruct (selected_spec gid ver task p act ps pa rk res digest pool Hn Hne) as (a & Ha & -> & Hbest).
  destruct (selected_spec gid ver task q act ps pa rk res digest pool Hn Hne) as (b & Hb & -> & Hbest').
  destruct (decide (ad_agent_id a = ad_agent_id b)) as [|Hid]; [done|exfalso].
  assert (a <> b) as Hab by congruence.
  specialize (Hbest b Hb (not_eq_sym Hab)). specialize (Hbest' a Ha Hab).
  apply (outranks_irrefl_pair p act ps pa rk res a b Hbest). unfold outranks in *.
  pose proof (score_priority p q act ps pa rk res a). pose proof (score_priority p q act ps pa rk res b).
  destruct Hbest' as [?|[? Hrest]]; [left; lia|right; split; [lia|exact Hrest]].
Qed.

(** The cap on the residency bonus is above the bonus of the preferred agent, so
    five resident reads beat an explicit preference. *)
Lemma locality_outweighs_affinity :
  selected_agent_id (demo_match "a" ["r1"; "r2"; "r3"; "r4"; "r5"] [("b", ["r1"; "r2"; "r3"; "r4"; "r5"])]
    [demo_agent "a" [] 0; demo_agent "b" [] 0]) = "b".
Proof. vm_compute. reflexivity. Qed.

(** A required capability without a colon is not checked at all. *)
Lemma malformed_capability_ignored :
  eligible (evaluate_eligibility (demo_agent "a" [] 0) "t" "g" 1 "" [] [] ["root-access"] 0 (Some "ready") true
    (Some (fun _ _ _ => Ok false))) = true.
Proof. vm_compute. reflexivity. Qed.
