(* ===== verification/Attempts.v ===== *)
(** * Execution attempts (runtimes/multi_agent/attempts.py, with ResourceBinding,
    ContextIdentity, ComputationCost, AgentSnapshot and ScheduledExecutionAttempt
    of models.py)

    An attempt is a mutable record; a method on one attempt is a definition over
    that record, and the manager keeps attempts by id.  Snapshots are immutable
    and built through their validators.  Progress is a float between 0 and 1: it
    is kept as its exact value, in units of 2^-1074, in which every finite float
    is an integer.  The SHA-256 fingerprint of a snapshot is an argument. *)

From Stdlib Require Import Ascii.
From S2P Require Import Prelude PyString VpgModels Patches.
Open Scope Z_scope.

Module AttemptState.
Inductive t := DISPATCHED | RUNNING | PREEMPTED | FAILED | CRASHED | STALE_COGNITION
  | SUCCEEDED_OPERATIONALLY | VERIFIED_SEMANTICALLY.
#[global] Instance eq_dec : EqDecision t.
Proof. solve_decision. Defined.
Definition value (s : t) : string :=
  match s with
  | DISPATCHED => "dispatched" | RUNNING => "running" | PREEMPTED => "preempted" | FAILED => "failed"
  | CRASHED => "crashed" | STALE_COGNITION => "stale_cognition"
  | SUCCEEDED_OPERATIONALLY => "succeeded_operationally" | VERIFIED_SEMANTICALLY => "verified_semantically"
  end.
End AttemptState.

(** ** Resource bindings *)

Record ResourceBinding : Type := mkResBinding {
  rb_operation : string;
  rb_resource_uri : string;
  rb_artifact_id : option string;
  rb_version : option Z;
  rb_content_hash : option string;
  rb_action_id : option string;
  rb_idempotency_key : option string;
  rb_source_event_id : option string;
  rb_source : string;
  rb_known : bool;
  rb_observed_at : option Z }.
#[global] Instance ResourceBinding_eq_dec : EqDecision ResourceBinding.
Proof. solve_decision. Defined.

Definition truthy_opt (o : option string) : bool :=
  match o with None | Some EmptyString => false | Some _ => true end.
(** [normalized = str(value).strip(); return normalized or None] *)
Definition _normalize_optional_string (v : option string) : option string :=
  v ≫= fun s => if decide (strip s = "") then None else Some (strip s).

(** [ResourceBinding(...)] of strings: the validators in order. *)
Definition new_resource_binding (b : ResourceBinding) : result ResourceBinding :=
  let b' := mkResBinding (strip (rb_operation b)) (strip (rb_resource_uri b))
    (_normalize_optional_string (rb_artifact_id b)) (rb_version b)
    (lower <$> _normalize_optional_string (rb_content_hash b))
    (_normalize_optional_string (rb_action_id b)) (_normalize_optional_string (rb_idempotency_key b))
    (_normalize_optional_string (rb_source_event_id b)) (strip (rb_source b)) (rb_known b) (rb_observed_at b) in
  if match rb_version b with Some v => v <? 0 | None => false end then
    Raise (ValidationError "resource version must be >= 0")
  else if String.eqb (rb_operation b') "" then
    Raise (ValidationError "resource binding operation must be non-empty")
  else if rb_known b' && negb (negb (String.eqb (rb_resource_uri b') "") || truthy_opt (rb_artifact_id b')
            || truthy_opt (rb_action_id b') || truthy_opt (rb_source_event_id b')) then
    Raise (ValidationError "known resource binding must carry an auditable identity")
  else Ok b'.

(** [identity]: the first non-empty of uri, artifact, action and event. *)
Fixpoint first_named (l : list (option string)) : option string :=
  match l with
  | [] => None
  | o :: l' => let v := strip (default "" o) in if decide (v = "") then first_named l' else Some v
  end.
Definition identity (b : ResourceBinding) : option string :=
  first_named [Some (rb_resource_uri b); rb_artifact_id b; rb_action_id b; rb_source_event_id b].

(** [sort_key]; [iso] is [isoformat] of an instant. *)
Definition sort_key (iso : Z -> string) (b : ResourceBinding) :=
  (rb_operation b, rb_resource_uri b, default "" (rb_artifact_id b), default (-1) (rb_version b),
   default "" (rb_content_hash b), default "" (rb_action_id b), default "" (rb_idempotency_key b),
   default "" (rb_source_event_id b), match rb_observed_at b with None => "" | Some t => iso t end).

(** ** Context identities and costs *)

Record ContextIdentity : Type := mkContextIdentity {
  ci_snapshot_id : string;
  ci_manifest_id : string;
  ci_manifest_hash : string;
  ci_working_set_hash : string;
  ci_materialized_hash : string }.
#[global] Instance ContextIdentity_eq_dec : EqDecision ContextIdentity.
Proof. solve_decision. Defined.

Definition stripped_non_empty (msg v : string) : result string :=
  if decide (strip v = "") then Raise (ValidationError msg) else Ok (strip v).
Definition new_context_identity (snap man mh wh th : string) : result ContextIdentity :=
  let ne := stripped_non_empty "context identity fields must be non-empty" in
  snap ← ne snap; man ← ne man; mh ← ne mh; wh ← ne wh; th ← ne th;
  Ok (mkContextIdentity snap man (lower mh) (lower wh) (lower th)).

Record ComputationCost : Type := mkCost {
  input_tokens : Z;
  output_tokens : Z;
  cached_input_tokens : Z;
  model_calls : Z;
  tool_calls : Z;
  elapsed_ms : Z;
  monetary_micros : Z }.
#[global] Instance ComputationCost_eq_dec : EqDecision ComputationCost.
Proof. solve_decision. Defined.
Definition cost_fields (c : ComputationCost) : list Z :=
  [input_tokens c; output_tokens c; cached_input_tokens c; model_calls c; tool_calls c; elapsed_ms c;
   monetary_micros c].
Definition new_cost (c : ComputationCost) : result ComputationCost :=
  if existsb (fun v => v <? 0) (cost_fields c)
  then Raise (ValidationError "computation cost counters must be >= 0") else Ok c.
Definition total_tokens (c : ComputationCost) : Z := input_tokens c + output_tokens c.
Definition dominates (c earlier : ComputationCost) : bool :=
  forallb (fun p => p.2 <=? p.1) (combine (cost_fields c) (cost_fields earlier)).

(** ** Snapshots *)

Record AgentSnapshot : Type := mkSnapshot {
  sn_agent_id : string;
  sn_process_id : string;
  sn_task_id : string;
  sn_claim_id : string;
  sn_attempt_id : string;
  sn_graph_id : string;
  sn_graph_version : Z;
  sn_semantic_epoch : Z;
  sn_context_identity : option ContextIdentity;
  sn_read_set : list ResourceBinding;
  sn_write_set : list ResourceBinding;
  sn_progress : Z;
  sn_cost : ComputationCost;
  sn_started_at : Z;
  sn_captured_at : Z;
  sn_ended_at : option Z;
  sn_state : AttemptState.t }.
#[global] Instance AgentSnapshot_eq_dec : EqDecision AgentSnapshot.
Proof. solve_decision. Defined.

(** [1.0] in units of 2^-1074 *)
Definition FLOAT_ONE : Z := 2 ^ 1074.

(** [tuple(sorted(set(bindings), key=sort_key))]: the sets come in any order, which
    is that of the argument here. *)
Definition _normalize_resource_sets (iso : Z -> string) (l : list ResourceBinding) : list ResourceBinding :=
  sort_on (sort_key iso) (remove_dups l).

(** [AgentSnapshot(...)]; [progress] is [None] for a float that is not finite. *)
Definition new_snapshot (iso : Z -> string) (s : AgentSnapshot) (progress : option Z) : result AgentSnapshot :=
  let ne := stripped_non_empty "AgentSnapshot identity fields must be non-empty" in
  agent ← ne (sn_agent_id s); pid ← ne (sn_process_id s); task ← ne (sn_task_id s);
  claim ← ne (sn_claim_id s); attempt ← ne (sn_attempt_id s); graph ← ne (sn_graph_id s);
  if (sn_graph_version s <? 0) || (sn_semantic_epoch s <? 0) then
    Raise (ValidationError "graph_version and semantic_epoch must be >= 0")
  else
    p ← match progress with
        | Some p => if (0 <=? p) && (p <=? FLOAT_ONE) then Ok p
                    else Raise (ValidationError "AgentSnapshot progress must be between 0 and 1")
        | None => Raise (ValidationError "AgentSnapshot progress must be between 0 and 1")
        end;
    if sn_captured_at s <? sn_started_at s then
      Raise (ValidationError "AgentSnapshot captured_at cannot precede started_at")
    else if match sn_ended_at s with Some e => e <? sn_started_at s | None => false end then
      Raise (ValidationError "AgentSnapshot ended_at cannot precede started_at")
    else if match sn_ended_at s with Some e => sn_captured_at s <? e | None => false end then
      Raise (ValidationError "AgentSnapshot captured_at cannot precede ended_at")
    else Ok (mkSnapshot agent pid task claim attempt graph (sn_graph_version s) (sn_semantic_epoch s)
               (sn_context_identity s) (_normalize_resource_sets iso (sn_read_set s))
               (_normalize_resource_sets iso (sn_write_set s)) p (sn_cost s) (sn_started_at s)
               (sn_captured_at s) (sn_ended_at s) (sn_state s)).

(** ** Attempts *)

Record Attempt : Type := mkAttempt {
  at_attempt_id : string;
  at_graph_id : string;
  at_graph_version : Z;
  at_semantic_epoch : Z;
  at_task_id : string;
  at_claim_id : string;
  at_agent_id : string;
  at_process_id : string;
  at_attempt_number : Z;
  at_state : AttemptState.t;
  at_action_ids : list string;
  at_provenance_digest : option string;
  at_context_snapshot_id : option string;
  at_context_manifest_id : option string;
  at_context_manifest_hash : option string;
  at_context_working_set_hash : option string;
  at_context_materialized_hash : option string;
  at_agent_snapshot : option AgentSnapshot;
  at_started_at : Z;
  at_ended_at : option Z;
  at_error : option string }.

(** [ContextIdentity.from_attempt] *)
Definition from_attempt (a : Attempt) : result (option ContextIdentity) :=
  match at_context_snapshot_id a, at_context_manifest_id a, at_context_manifest_hash a,
        at_context_working_set_hash a, at_context_materialized_hash a with
  | None, None, None, None, None => Ok None
  | Some s, Some m, Some mh, Some wh, Some th =>
      if existsb (fun v => String.eqb (strip v) "") [s; m; mh; wh; th]
      then Raise (ValueError "attempt carries a partial context snapshot identity")
      else i ← new_context_identity s m mh wh th; Ok (Some i)
  | _, _, _, _, _ => Raise (ValueError "attempt carries a partial context snapshot identity")
  end.

Definition attempt_identity (a : Attempt) :=
  (at_agent_id a, at_process_id a, at_task_id a, at_claim_id a, at_attempt_id a, at_graph_id a,
   at_graph_version a, at_semantic_epoch a).
Definition snapshot_identity (s : AgentSnapshot) :=
  (sn_agent_id s, sn_process_id s, sn_task_id s, sn_claim_id s, sn_attempt_id s, sn_graph_id s,
   sn_graph_version s, sn_semantic_epoch s).

(** The validator an attempt passes when it is built, as on reading it back from
    the durable store. *)
Definition _agent_snapshot_matches_attempt (a : Attempt) : result Attempt :=
  match at_agent_snapshot a with
  | None => Ok a
  | Some s =>
      if negb (bool_decide (snapshot_identity s = attempt_identity a)) then
        Raise (ValidationError "agent snapshot identity disagrees with execution attempt")
      else if negb (sn_started_at s =? at_started_at a) then
        Raise (ValidationError "agent snapshot start time disagrees with execution attempt")
      else
        sealed ← from_attempt a;
        if negb (bool_decide (sn_context_identity s = sealed)) then
          Raise (ValidationError "agent snapshot context disagrees with execution attempt")
        else Ok a
  end.

(** Assignments to the fields of an attempt. *)
Definition at_set_state (st : AttemptState.t) (ended : option Z) (error : option string) (a : Attempt) : Attempt :=
  mkAttempt (at_attempt_id a) (at_graph_id a) (at_graph_version a) (at_semantic_epoch a) (at_task_id a)
    (at_claim_id a) (at_agent_id a) (at_process_id a) (at_attempt_number a) st (at_action_ids a)
    (at_provenance_digest a) (at_context_snapshot_id a) (at_context_manifest_id a)
    (at_context_manifest_hash a) (at_context_working_set_hash a) (at_context_materialized_hash a)
    (at_agent_snapshot a) (at_started_at a) ended error.
Definition at_set_digest (d : string) (a : Attempt) : Attempt :=
  mkAttempt (at_attempt_id a) (at_graph_id a) (at_graph_version a) (at_semantic_epoch a) (at_task_id a)
    (at_claim_id a) (at_agent_id a) (at_process_id a) (at_attempt_number a) (at_state a) (at_action_ids a)
    (Some d) (at_context_snapshot_id a) (at_context_manifest_id a)
    (at_context_manifest_hash a) (at_context_working_set_hash a) (at_context_materialized_hash a)
    (at_agent_snapshot a) (at_started_at a) (at_ended_at a) (at_error a).
Definition at_set_context (s m mh wh th : string) (a : Attempt) : Attempt :=
  mkAttempt (at_attempt_id a) (at_graph_id a) (at_graph_version a) (at_semantic_epoch a) (at_task_id a)
    (at_claim_id a) (at_agent_id a) (at_process_id a) (at_attempt_number a) (at_state a) (at_action_ids a)
    (at_provenance_digest a) (Some s) (Some m) (Some mh) (Some wh) (Some th)
    (at_agent_snapshot a) (at_started_at a) (at_ended_at a) (at_error a).
Definition at_set_snapshot (s : AgentSnapshot) (a : Attempt) : Attempt :=
  mkAttempt (at_attempt_id a) (at_graph_id a) (at_graph_version a) (at_semantic_epoch a) (at_task_id a)
    (at_claim_id a) (at_agent_id a) (at_process_id a) (at_attempt_number a) (at_state a) (at_action_ids a)
    (at_provenance_digest a) (at_context_snapshot_id a) (at_context_manifest_id a)
    (at_context_manifest_hash a) (at_context_working_set_hash a) (at_context_materialized_hash a)
    (Some s) (at_started_at a) (at_ended_at a) (at_error a).

(** ** AttemptManager: the methods on one attempt *)

Module AttemptManager.
Section Methods.
(** [AgentSnapshot.fingerprint] *)
Context (fingerprint : AgentSnapshot -> string).

(** [error or default] *)
Definition or_default (error dflt : string) : string := if String.eqb error "" then dflt else error.

Definition mark_running : M Attempt unit :=
  modify (fun a => at_set_state AttemptState.RUNNING (at_ended_at a) (at_error a) a).
Definition mark_ended (st : AttemptState.t) (dflt error : string) (now : Z) : M Attempt unit :=
  modify (at_set_state st (Some now) (Some (or_default error dflt))).
Definition mark_crashed : string -> Z -> M Attempt unit := mark_ended AttemptState.CRASHED "crashed".
Definition mark_failed : string -> Z -> M Attempt unit := mark_ended AttemptState.FAILED "failed".
Definition mark_preempted : string -> Z -> M Attempt unit := mark_ended AttemptState.PREEMPTED "preempted".
Definition mark_stale_cognition : string -> Z -> M Attempt unit :=
  mark_ended AttemptState.STALE_COGNITION "stale_cognition".
Definition mark_operationally_succeeded (now : Z) : M Attempt unit :=
  modify (fun a => at_set_state AttemptState.SUCCEEDED_OPERATIONALLY (Some now) (at_error a) a).
Definition mark_semantically_verified (now : Z) : M Attempt bool :=
  st ← gets at_state;
  if bool_decide (st = AttemptState.VERIFIED_SEMANTICALLY) then mret true
  else if negb (bool_decide (st = AttemptState.SUCCEEDED_OPERATIONALLY)) then mret false
  else modify (fun a => at_set_state AttemptState.VERIFIED_SEMANTICALLY (Some now) (at_error a) a) ;;
       mret true.

Definition bind_provenance_digest (digest : string) : M Attempt bool :=
  let normalized := lower (strip digest) in
  raise_if (negb (bool_decide (length (chars normalized) = 64%nat)
                  && forallb (fun c => bool_decide (c ∈ hex_digits)) (chars normalized)))
    (ValueError "provenance digest must be a 64-character SHA-256 hex") ;;
  existing ← gets at_provenance_digest;
  match existing with
  | Some d => if String.eqb d normalized then modify (at_set_digest normalized) ;; mret true else mret false
  | None => modify (at_set_digest normalized) ;; mret true
  end.

(** A field already set to another value. *)
Definition conflicts (existing : option string) (value : string) : bool :=
  match existing with Some v => negb (String.eqb v value) | None => false end.
Definition bind_context_snapshot (snapshot_id manifest_id manifest_hash working_set_hash materialized_hash : string)
    : M Attempt bool :=
  let s := strip snapshot_id in
  let m := strip manifest_id in
  let mh := lower (strip manifest_hash) in
  let wh := lower (strip working_set_hash) in
  let th := lower (strip materialized_hash) in
  raise_if (existsb (fun v => String.eqb v "") [s; m; mh; wh; th])
    (ValueError "context snapshot identity fields must be non-empty") ;;
  a ← get_state;
  if conflicts (at_context_snapshot_id a) s || conflicts (at_context_manifest_id a) m
     || conflicts (at_context_manifest_hash a) mh || conflicts (at_context_working_set_hash a) wh
     || conflicts (at_context_materialized_hash a) th
  then mret false
  else modify (at_set_context s m mh wh th) ;; mret true.

Definition _snapshot_matches_attempt (a : Attempt) (s : AgentSnapshot) : bool :=
  if negb (bool_decide (snapshot_identity s = attempt_identity a) && (sn_started_at s =? at_started_at a))
  then false
  else match from_attempt a with
       | Ok sealed => bool_decide (sn_context_identity s = sealed)
       | Raise _ => false
       end.

Definition bind_agent_snapshot (snapshot : AgentSnapshot) : M Attempt bool :=
  a ← get_state;
  if negb (_snapshot_matches_attempt a snapshot) then mret false
  else if negb (bool_decide (sn_state snapshot = at_state a)) then mret false
  else match at_agent_snapshot a with
       | Some existing => mret (bool_decide (existing = snapshot))
       | None => modify (at_set_snapshot snapshot) ;; mret true
       end.

(** [set(xs).issubset(ys)] *)
Definition subset_of (xs ys : list ResourceBinding) : bool := forallb (fun x => bool_decide (x ∈ ys)) xs.

Definition update_agent_snapshot (snapshot : AgentSnapshot) (expected_fingerprint : string) : M Attempt bool :=
  a ← get_state;
  match at_agent_snapshot a with
  | None => mret false
  | Some existing =>
      if bool_decide (existing = snapshot) then
        mret (String.eqb expected_fingerprint (fingerprint existing))
      else if negb (_snapshot_matches_attempt a snapshot) then mret false
      else if negb (bool_decide (sn_state snapshot = at_state a)) then mret false
      else if negb (String.eqb (fingerprint existing) (lower (strip expected_fingerprint))) then mret false
      else if sn_captured_at snapshot <=? sn_captured_at existing then mret false
      else if sn_progress snapshot <? sn_progress existing then mret false
      else if negb (dominates (sn_cost snapshot) (sn_cost existing)) then mret false
      else if negb (subset_of (sn_read_set existing) (sn_read_set snapshot)) then mret false
      else if negb (subset_of (sn_write_set existing) (sn_write_set snapshot)) then mret false
      else modify (at_set_snapshot snapshot) ;; mret true
  end.
End Methods.

(** ** AttemptManager: the attempts by id *)

(** [_attempts] *)
Abbreviation t := (dict Attempt).

Definition _book (a : Attempt) : M t Attempt := modify (dict_set (at_attempt_id a) a) ;; mret a.
(** The object [start_attempt] builds *)
Definition new_attempt (attempt_id graph_id : string) (graph_version semantic_epoch : Z)
    (task_id claim_id agent_id process_id : string) (attempt_number : Z) (action_ids : list string) (now : Z)
    : Attempt :=
  mkAttempt attempt_id graph_id graph_version semantic_epoch task_id claim_id agent_id process_id
    attempt_number AttemptState.DISPATCHED action_ids None None None None None None None now None None.
Definition start_attempt (attempt_id graph_id : string) (graph_version semantic_epoch : Z)
    (task_id claim_id agent_id process_id : string) (attempt_number : Z) (action_ids : list string) (now : Z)
    : M t Attempt :=
  _book (new_attempt attempt_id graph_id graph_version semantic_epoch task_id claim_id agent_id process_id
    attempt_number action_ids now).

Definition get (attempt_id : string) (d : t) : option Attempt := dict_get attempt_id d.
Definition all_attempts (d : t) : list Attempt := d.*2.
Definition attempts_for_task (task_id : string) (d : t) : list Attempt :=
  filter (fun a => at_task_id a = task_id) (all_attempts d).
Definition attempts_for_agent (agent_id : string) (d : t) : list Attempt :=
  filter (fun a => at_agent_id a = agent_id) (all_attempts d).
(** [sorted(..., key=started_at)[-1]]: the last of the latest. *)
Definition latest_attempt_for_task (task_id : string) (d : t) : option Attempt :=
  last (sort_on at_started_at (attempts_for_task task_id d)).
Definition latest_attempt_for_claim (claim_id : string) (d : t) : option Attempt :=
  last (sort_on at_started_at (filter (fun a => at_claim_id a = claim_id) (all_attempts d))).
Definition count_attempts_for_task (task_id : string) (d : t) : nat := length (attempts_for_task task_id d).
Definition count_attempts_for_epoch (graph_id task_id : string) (semantic_epoch : Z) (d : t) : nat :=
  length (filter (fun a => at_graph_id a = graph_id /\ at_task_id a = task_id /\
                           at_semantic_epoch a = semantic_epoch) (all_attempts d)).
End AttemptManager.
