(* ===== verification/AttemptProps.v ===== *)
(** * Execution attempts: properties

    What no sequence of the manager's methods can undo on an attempt: its
    identity, its sealed provenance and context, and the observations of its
    snapshots; and how an attempt becomes semantically verified. *)

From S2P Require Import Prelude PyString VpgModels Patches Attempts.
Open Scope Z_scope.
Import AttemptManager.

(** A later snapshot keeps what an earlier one observed. *)
Record snapshot_le (s s' : AgentSnapshot) : Prop := {
  sl_captured : sn_captured_at s <= sn_captured_at s';
  sl_progress : sn_progress s <= sn_progress s';
  sl_cost : Forall2 Z.le (cost_fields (sn_cost s)) (cost_fields (sn_cost s'));
  sl_reads : sn_read_set s ⊆ sn_read_set s';
  sl_writes : sn_write_set s ⊆ sn_write_set s' }.
#[global] Instance snapshot_le_preorder : PreOrder snapshot_le.
Proof.
  split.
  - intros s. by split; try lia.
  - intros s1 s2 s3 [? ? H1 ? ?] [? ? H2 ? ?]. split; [lia|lia| |set_solver|set_solver].
    apply Forall2_same_length_lookup. split; [by apply Forall2_length in H1, H2; congruence|].
    intros i x z Hx Hz. destruct (Forall2_lookup_l _ _ _ _ _ H1 Hx) as (y & Hy & Hxy).
    destruct (Forall2_lookup_l _ _ _ _ _ H2 Hy) as (z' & Hz' & Hyz). assert (z = z') by congruence. lia.
Qed.

Lemma dominates_spec c earlier :
  dominates c earlier = true <-> Forall2 Z.le (cost_fields earlier) (cost_fields c).
Proof.
  unfold dominates, cost_fields. destruct c, earlier. cbn. rewrite !andb_true_iff, !Z.leb_le.
  split.
  - intros (? & ? & ? & ? & ? & ? & ? & _). by repeat constructor.
  - intros Hf. repeat (apply Forall2_cons_1 in Hf as [? Hf]). by split_and!.
Qed.
Lemma subset_of_spec xs ys : subset_of xs ys = true <-> xs ⊆ ys.
Proof.
  unfold subset_of. rewrite forallb_forall. split.
  - intros Ha x Hx. apply list_elem_of_In, Ha, bool_decide_eq_true in Hx. done.
  - intros Hs x Hx. apply bool_decide_eq_true. apply Hs. by apply list_elem_of_In.
Qed.

(** [keep o o']: a field that is set keeps its value. *)
Definition sealed {A} (o o' : option A) : Prop := forall x, o = Some x -> o' = Some x.
#[global] Instance sealed_preorder {A} : PreOrder (@sealed A).
Proof. split; [by intros o x|]. intros o1 o2 o3 H1 H2 x Hx. by apply H2, H1. Qed.

(** What holds between an attempt and what a method makes of it. *)
Record advances (a a' : Attempt) : Prop := {
  adv_identity : attempt_identity a' = attempt_identity a /\ at_started_at a' = at_started_at a;
  adv_digest : sealed (at_provenance_digest a) (at_provenance_digest a');
  adv_context1 : sealed (at_context_snapshot_id a) (at_context_snapshot_id a');
  adv_context2 : sealed (at_context_manifest_id a) (at_context_manifest_id a');
  adv_context3 : sealed (at_context_manifest_hash a) (at_context_manifest_hash a');
  adv_context4 : sealed (at_context_working_set_hash a) (at_context_working_set_hash a');
  adv_context5 : sealed (at_context_materialized_hash a) (at_context_materialized_hash a');
  adv_snapshot s : at_agent_snapshot a = Some s ->
    exists s', at_agent_snapshot a' = Some s' /\ snapshot_le s s' }.
#[global] Instance advances_preorder : PreOrder advances.
Proof.
  split.
  - intros a. split; try done. intros s Hs. by exists s.
  - intros a b c [H1 H2 H3 H4 H5 H6 H7 H8] [G1 G2 G3 G4 G5 G6 G7 G8]. split; try by etrans.
    + destruct H1, G1. split; congruence.
    + intros s Hs. destruct (H8 s Hs) as (s1 & Hs1 & Hle). destruct (G8 s1 Hs1) as (s2 & Hs2 & Hle').
      exists s2. split; [done|]. by etrans.
Qed.

Section Steps.
Context (fingerprint : AgentSnapshot -> string).

(** One call of a method of the manager on the attempt. *)
Inductive attempt_step : Attempt -> Attempt -> Prop :=
| as_running a : attempt_step a (mark_running a).2
| as_crashed e t a : attempt_step a (mark_crashed e t a).2
| as_failed e t a : attempt_step a (mark_failed e t a).2
| as_preempted e t a : attempt_step a (mark_preempted e t a).2
| as_stale e t a : attempt_step a (mark_stale_cognition e t a).2
| as_succeeded t a : attempt_step a (mark_operationally_succeeded t a).2
| as_verified t a : attempt_step a (mark_semantically_verified t a).2
| as_digest d a : attempt_step a (bind_provenance_digest d a).2
| as_context s m mh wh th a : attempt_step a (bind_context_snapshot s m mh wh th a).2
| as_bind s a : attempt_step a (bind_agent_snapshot s a).2
| as_update s e a : attempt_step a (update_agent_snapshot fingerprint s e a).2.

Lemma set_state_advances st t e a : advances a (at_set_state st t e a).
Proof. split; try done. intros s Hs. by exists s. Qed.

Lemma bind_digest_advances d a : advances a (bind_provenance_digest d a).2.
Proof.
  unfold bind_provenance_digest. run_m. destruct (negb _); [done|]. cbn.
  destruct (at_provenance_digest a) as [d0|] eqn:E; cbn; [case_match eqn:Heq; [|done]|]; cbn.
  - apply String.eqb_eq in Heq. split; try done; [|intros s Hs; by exists s]. rewrite E. by intros x [= ->]; cbn; f_equal.
  - split; try done; [|intros s Hs; by exists s]. by rewrite E.
Qed.

Lemma conflicts_sealed o v : conflicts o v = false -> sealed o (Some v).
Proof.
  destruct o as [x|]; cbn; [|done]. rewrite negb_false_iff, String.eqb_eq. intros -> y [= ->]. done.
Qed.
Lemma bind_context_advances s m mh wh th a : advances a (bind_context_snapshot s m mh wh th a).2.
Proof.
  unfold bind_context_snapshot. run_m. destruct (existsb _ _); [done|]. unfold mret, M_ret. cbv beta iota.
  case_match eqn:E; [done|]. rewrite !orb_false_iff in E. destruct E as ((((E1 & E2) & E3) & E4) & E5).
  split; cbn; try done; try by apply conflicts_sealed. intros x Hx. by exists x.
Qed.

Lemma bind_snapshot_advances s a : advances a (bind_agent_snapshot s a).2.
Proof.
  unfold bind_agent_snapshot. run_m. destruct (negb _); [done|]. destruct (negb _); [done|].
  destruct (at_agent_snapshot a) eqn:E; [done|]. cbn. split; try done. by rewrite E.
Qed.
Lemma update_snapshot_advances s e a : advances a (update_agent_snapshot fingerprint s e a).2.
Proof.
  unfold update_agent_snapshot. run_m. destruct (at_agent_snapshot a) as [s0|] eqn:E; [|done].
  destruct (bool_decide _); [done|]. destruct (negb _); [done|]. destruct (negb _); [done|].
  destruct (negb (String.eqb _ _)); [done|].
  destruct (Z.leb_spec (sn_captured_at s) (sn_captured_at s0)); [done|].
  destruct (Z.ltb_spec (sn_progress s) (sn_progress s0)); [done|].
  destruct (dominates _ _) eqn:Hd; [|done]. destruct (subset_of (sn_read_set s0) _) eqn:Hr; [|done].
  destruct (subset_of (sn_write_set s0) _) eqn:Hw; [|done]. cbn.
  split; try done. cbn. rewrite E. intros x [= <-]. exists s. split; [done|].
  split; [lia|lia|by apply dominates_spec|by apply subset_of_spec|by apply subset_of_spec].
Qed.

Lemma attempt_step_advances a a' : attempt_step a a' -> advances a a'.
Proof.
  destruct 1; try apply set_state_advances.
  - unfold mark_semantically_verified. run_m. case_bool_decide; [done|]. case_bool_decide; [|done]. apply set_state_advances.
  - apply bind_digest_advances.
  - apply bind_context_advances.
  - apply bind_snapshot_advances.
  - apply update_snapshot_advances.
Qed.

(** Only operational success leads to semantic verification. *)
Lemma verified_step a a' :
  attempt_step a a' -> at_state a' = AttemptState.VERIFIED_SEMANTICALLY ->
  at_state a = AttemptState.VERIFIED_SEMANTICALLY \/ at_state a = AttemptState.SUCCEEDED_OPERATIONALLY.
Proof.
  destruct 1; try done.
  - unfold mark_semantically_verified. run_m. case_bool_decide; [by left|].
    case_bool_decide; cbn; [by right|by left].
  - unfold bind_provenance_digest. run_m. intros Hv. left. revert Hv.
    destruct (negb _); [done|]. cbn. destruct (at_provenance_digest a); [|done]. by case_match.
  - unfold bind_context_snapshot. run_m. intros Hv. left. revert Hv.
    destruct (existsb _ _); [done|]. unfold mret, M_ret. cbv beta iota. by case_match.
  - unfold bind_agent_snapshot. run_m. intros Hv. left. revert Hv.
    destruct (negb _); [done|]. destruct (negb _); [done|]. by destruct (at_agent_snapshot a).
  - unfold update_agent_snapshot. run_m. intros Hv. left. revert Hv.
    destruct (at_agent_snapshot a); [|done]. by repeat (case_match; [done|]).
Qed.
End Steps.

(** ** Properties *)

(** What is sealed on an attempt stays.  No sequence of the manager's methods
    changes the identity of an attempt, replaces a sealed provenance digest or a
    sealed field of its context, or takes back an observation: capture time,
    progress and every cost counter only grow, and the read and write sets only
    gain members.  An attempt becomes semantically verified only through
    operational success. *)
Theorem attempt_seals fingerprint a a' :
  rtc (attempt_step fingerprint) a a' ->
  advances a a' /\
  (at_state a' = AttemptState.VERIFIED_SEMANTICALLY -> at_state a <> AttemptState.VERIFIED_SEMANTICALLY ->
   exists b, rtc (attempt_step fingerprint) a b /\ rtc (attempt_step fingerprint) b a' /\
     at_state b = AttemptState.SUCCEEDED_OPERATIONALLY).
Proof.
  intros Hr. split.
  - apply rtc_preorder; [apply _|]. eapply rtc_subrel; [|exact Hr]. apply attempt_step_advances.
  - induction Hr as [a|a b a' Hst Hr IH]; [done|]. intros Hv Hn.
    destruct (decide (at_state b = AttemptState.VERIFIED_SEMANTICALLY)) as [Hb|Hb].
    + destruct (verified_step fingerprint a b Hst Hb) as [|Hs]; [done|].
      exists a. split_and!; [done|by eapply rtc_l|done].
    + destruct (IH Hv Hb) as (c & H1 & H2 & H3). exists c. split_and!; [by eapply rtc_l|done|done].
Qed.

Definition demo_attempt : Attempt :=
  mkAttempt "at1" "g" 1 1 "t" "c1" "a1" "p1" 0 AttemptState.RUNNING [] None None None None None None None 5 None None.
Definition demo_snapshot (captured progress tokens : Z) : AgentSnapshot :=
  mkSnapshot "a1" "p1" "t" "c1" "at1" "g" 1 1 None [] [] progress (mkCost tokens 0 0 0 0 0 0) 5 captured None
    AttemptState.RUNNING.
Definition demo_fingerprint (s : AgentSnapshot) : string := pretty (sn_captured_at s).
Definition demo_updated : Attempt :=
  (update_agent_snapshot demo_fingerprint (demo_snapshot 7 2 10) "6"
     (bind_agent_snapshot (demo_snapshot 6 1 3) demo_attempt).2).2.

Lemma attempt_seals_witness :
  at_agent_snapshot demo_updated = Some (demo_snapshot 7 2 10) /\
  exists s', at_agent_snapshot demo_updated = Some s' /\ snapshot_le (demo_snapshot 6 1 3) s'.
Proof.
  split; [vm_compute; reflexivity|].
  apply (adv_snapshot (bind_agent_snapshot (demo_snapshot 6 1 3) demo_attempt).2); [|vm_compute; reflexivity].
  apply (attempt_seals demo_fingerprint). apply rtc_once. apply as_update.
Defined.

(** A context bound after a snapshot makes a record that its own validator
    refuses when it is read back. *)
Lemma late_context_breaks_reload :
  let '(ok1, a1) := bind_agent_snapshot (demo_snapshot 6 1 3) demo_attempt in
  let '(ok2, a2) := bind_context_snapshot "s" "m" "h1" "h2" "h3" a1 in
  ok1 = Ok true /\ ok2 = Ok true /\
  _agent_snapshot_matches_attempt a2 =
    Raise (ValidationError "agent snapshot context disagrees with execution attempt").
Proof. vm_compute. done. Qed.
