(* ===== verification/Scheduler.v ===== *)
(** * The scheduling pass
    (_schedule_once_locked and _acquire_claim of runtimes/multi_agent/scheduler.py,
    with what they call, and events.py)

    A pass walks the ready frontier, picks an agent for each task and acquires a
    claim: version and readiness are read again, resources are reserved, the
    kernel lease is requested and the attempt is booked, each step with the
    compensation of the code when a later one fails.  The kernel, the progress
    graph and the durable store are behind [SchedulerHost]; any of them may fail
    and may have changed between two calls.  Skip reasons are data; the list of
    shortages is not rendered into the reason of an event. *)

From Stdlib Require Import Ascii.
From S2P Require Import Prelude PyString VpgModels Resources Claims Agents Matching Patches Attempts.
Open Scope Z_scope.

(** ** Events *)

Module SchedulerEventType.
Inductive t := AGENT_REGISTERED | AGENT_ENABLED | AGENT_DISABLED | AGENT_REMOVED | ELIGIBILITY_EVALUATED
  | MATCH_DECISION_CREATED | CLAIM_PROPOSED | CLAIM_LEASE_ACQUIRED | CLAIM_LEASE_RENEWED | CLAIM_ACTIVATED
  | CLAIM_RELEASED | CLAIM_LOST | CLAIM_COMPLETED | CLAIM_REJECTED | EXECUTION_DISPATCHED
  | EXECUTION_STARTED | EXECUTION_FAILED | EXECUTION_CRASHED | EXECUTION_OPERATIONALLY_SUCCEEDED
  | EXECUTION_SEMANTICALLY_VERIFIED | EXECUTION_SNAPSHOT_BOUND | EXECUTION_STALE_COGNITION
  | EXECUTION_CLEANUP_REQUIRED | EXECUTION_CLEANUP_RESOLVED | EXECUTION_CLEANUP_SUPERSEDED
  | SEMANTIC_INTERRUPT_PROPOSED | SEMANTIC_INTERRUPT_ACKNOWLEDGED | HARNESS_CONTROL
  | SCHEDULING_EPOCH_PLANNED | TASK_HANDOFF_PREPARED | TASK_HANDOFF_COMMITTING | TASK_HANDOFF_COMMITTED
  | TASK_HANDOFF_RECOVERY | TASK_REASSIGNMENT_STARTED | TASK_REASSIGNED | SCHEDULER_RECOVERY_STARTED
  | SCHEDULER_RECOVERY_COMPLETED.
#[global] Instance eq_dec : EqDecision t.
Proof. solve_decision. Defined.
Definition value (e : t) : string :=
  match e with
  | AGENT_REGISTERED => "agent_registered"
  | AGENT_ENABLED => "agent_enabled"
  | AGENT_DISABLED => "agent_disabled"
  | AGENT_REMOVED => "agent_removed"
  | ELIGIBILITY_EVALUATED => "eligibility_evaluated"
  | MATCH_DECISION_CREATED => "match_decision_created"
  | CLAIM_PROPOSED => "claim_proposed"
  | CLAIM_LEASE_ACQUIRED => "claim_Lease_acquired"
  | CLAIM_LEASE_RENEWED => "claim_lease_renewed"
  | CLAIM_ACTIVATED => "claim_activated"
  | CLAIM_RELEASED => "claim_released"
  | CLAIM_LOST => "claim_lost"
  | CLAIM_COMPLETED => "claim_completed"
  | CLAIM_REJECTED => "claim_rejected"
  | EXECUTION_DISPATCHED => "execution_dispatched"
  | EXECUTION_STARTED => "execution_started"
  | EXECUTION_FAILED => "execution_failed"
  | EXECUTION_CRASHED => "execution_crashed"
  | EXECUTION_OPERATIONALLY_SUCCEEDED => "execution_operationally_succeeded"
  | EXECUTION_SEMANTICALLY_VERIFIED => "execution_semantically_verified"
  | EXECUTION_SNAPSHOT_BOUND => "execution_snapshot_bound"
  | EXECUTION_STALE_COGNITION => "execution_stale_cognition"
  | EXECUTION_CLEANUP_REQUIRED => "execution_cleanup_required"
  | EXECUTION_CLEANUP_RESOLVED => "execution_cleanup_resolved"
  | EXECUTION_CLEANUP_SUPERSEDED => "execution_cleanup_superseded"
  | SEMANTIC_INTERRUPT_PROPOSED => "semantic_interrupt_proposed"
  | SEMANTIC_INTERRUPT_ACKNOWLEDGED => "semantic_interrupt_acknowledged"
  | HARNESS_CONTROL => "harness_control"
  | SCHEDULING_EPOCH_PLANNED => "scheduling_epoch_planned"
  | TASK_HANDOFF_PREPARED => "task_handoff_prepared"
  | TASK_HANDOFF_COMMITTING => "task_handoff_committing"
  | TASK_HANDOFF_COMMITTED => "task_handoff_committed"
  | TASK_HANDOFF_RECOVERY => "task_handoff_recovery"
  | TASK_REASSIGNMENT_STARTED => "task_reassignment_started"
  | TASK_REASSIGNED => "task_reassigned"
  | SCHEDULER_RECOVERY_STARTED => "scheduler_recovery_started"
  | SCHEDULER_RECOVERY_COMPLETED => "scheduler_recovery_completed"
  end.
End SchedulerEventType.

(** The fields the scheduler sets; [event_version] and [readiness_graph_version]
    keep their defaults. *)
Record SchedulerEvent : Type := mkSchedEvent {
  se_event_id : string;
  se_event_type : SchedulerEventType.t;
  se_graph_id : string;
  se_task_id : string;
  se_agent_id : string;
  se_claim_id : string;
  se_attempt_id : string;
  se_graph_version : Z;
  se_decision_hash : string;
  se_claim_state : string;
  se_reason : string;
  se_metadata : jobj;
  se_created_at : Z }.

(** ** What the scheduler is given *)

#[global] Instance expiry_eq_dec : EqDecision expiry.
Proof. solve_decision. Defined.
#[global] Instance TaskClaim_eq_dec : EqDecision TaskClaim.
Proof. solve_decision. Defined.
#[global] Instance match_reason_eq_dec : EqDecision match_reason.
Proof. solve_decision. Defined.
#[global] Instance AgentMatchScore_eq_dec : EqDecision AgentMatchScore.
Proof. solve_decision. Defined.
#[global] Instance MatchDecision_eq_dec : EqDecision MatchDecision.
Proof. solve_decision. Defined.
#[global] Instance Attempt_eq_dec : EqDecision Attempt.
Proof. solve_decision. Defined.

(** The rows written with every event. *)
Record Projection : Type := mkProjection {
  pr_claims : list TaskClaim;
  pr_attempts : list Attempt;
  pr_match_log : list MatchDecision;
  pr_idempotent_keys : gset string }.

(** The progress graph, the process and capability providers, and the durable
    store ([mret tt] when there is none).  [process_get] is [None] for an unknown
    process and otherwise its state, if it has one; [vpg_task_evidence_bindings] is
    optional, and a binding without a [get] method is [None]. *)
Class SchedulerHost (S : Type) := {
  vpg_current_graph_version (graph_id : string) : M S Z;
  vpg_ready_frontier (graph_id : string) : M S (list TaskDispatchCandidate);
  vpg_task_node_payload (graph_id task_id : string) : M S (option jobj);
  vpg_task_validity (graph_id task_id : string) : M S (option string);
  vpg_task_evidence_bindings : option (string -> string -> M S (list (option jobj)));
  host_process_get (pid : string) : M S (option (option string));
  host_capabilities : S -> option checker;
  store_append_events (events : list SchedulerEvent) (rows : Projection) : M S unit;
  store_persist_state (rows : Projection) : M S unit;
  host_uuid : M S string }.

(** ** State *)

Record Scheduler (S : Type) : Type := mkScheduler {
  world : World S;                                  (* providers, claim objects, ClaimManager._claims, clock *)
  _registry : AgentRegistry.t;
  _resource_manager : AtomicResourceManager.t;
  _resource_manager_uses_registry : bool;
  _pending_durable_reservations : option (list ResourceReservation);
  claim_rows : list nat;                            (* _claims: the objects, by address *)
  attempt_objects : list Attempt;                   (* the attempt objects, by address *)
  attempts_by_id : dict nat;                        (* _attempts_._attempts *)
  attempt_rows : list nat;                          (* _attempts *)
  _match_log : list MatchDecision;
  _resident_index : dict (dict (gset string));
  _events : list SchedulerEvent;
  _events_by_id : list SchedulerEvent;              (* the dict, by its values *)
  _idempotent_keys : gset string }.
Arguments mkScheduler {S} _ _ _ _ _ _ _ _ _ _ _ _ _ _.
Arguments world {S} _.
Arguments _registry {S} _.
Arguments _resource_manager {S} _.
Arguments _resource_manager_uses_registry {S} _.
Arguments _pending_durable_reservations {S} _.
Arguments claim_rows {S} _.
Arguments attempt_objects {S} _.
Arguments attempts_by_id {S} _.
Arguments attempt_rows {S} _.
Arguments _match_log {S} _.
Arguments _resident_index {S} _.
Arguments _events {S} _.
Arguments _events_by_id {S} _.
Arguments _idempotent_keys {S} _.

Section State.
Context {S : Type}.
Definition set_world (w : World S) (s : Scheduler S) : Scheduler S :=
  mkScheduler w (_registry s) (_resource_manager s) (_resource_manager_uses_registry s)
    (_pending_durable_reservations s) (claim_rows s) (attempt_objects s) (attempts_by_id s) (attempt_rows s) (_match_log s)
    (_resident_index s) (_events s) (_events_by_id s) (_idempotent_keys s).
Definition set_resources (r : AtomicResourceManager.t) (s : Scheduler S) : Scheduler S :=
  mkScheduler (world s) (_registry s) r (_resource_manager_uses_registry s)
    (_pending_durable_reservations s) (claim_rows s) (attempt_objects s) (attempts_by_id s) (attempt_rows s) (_match_log s)
    (_resident_index s) (_events s) (_events_by_id s) (_idempotent_keys s).
Definition set_pending (p : option (list ResourceReservation)) (s : Scheduler S) : Scheduler S :=
  mkScheduler (world s) (_registry s) (_resource_manager s) (_resource_manager_uses_registry s)
    p (claim_rows s) (attempt_objects s) (attempts_by_id s) (attempt_rows s) (_match_log s)
    (_resident_index s) (_events s) (_events_by_id s) (_idempotent_keys s).
Definition set_claim_rows (f : list nat -> list nat) (s : Scheduler S) : Scheduler S :=
  mkScheduler (world s) (_registry s) (_resource_manager s) (_resource_manager_uses_registry s)
    (_pending_durable_reservations s) (f (claim_rows s)) (attempt_objects s) (attempts_by_id s) (attempt_rows s) (_match_log s)
    (_resident_index s) (_events s) (_events_by_id s) (_idempotent_keys s).
Definition set_attempts (o : list Attempt -> list Attempt) (f : dict nat -> dict nat) (g : list nat -> list nat)
    (s : Scheduler S) : Scheduler S :=
  mkScheduler (world s) (_registry s) (_resource_manager s) (_resource_manager_uses_registry s)
    (_pending_durable_reservations s) (claim_rows s) (o (attempt_objects s)) (f (attempts_by_id s)) (g (attempt_rows s)) (_match_log s)
    (_resident_index s) (_events s) (_events_by_id s) (_idempotent_keys s).
Definition set_match_log (f : list MatchDecision -> list MatchDecision) (s : Scheduler S) : Scheduler S :=
  mkScheduler (world s) (_registry s) (_resource_manager s) (_resource_manager_uses_registry s)
    (_pending_durable_reservations s) (claim_rows s) (attempt_objects s) (attempts_by_id s) (attempt_rows s) (f (_match_log s))
    (_resident_index s) (_events s) (_events_by_id s) (_idempotent_keys s).
Definition set_resident (d : dict (dict (gset string))) (s : Scheduler S) : Scheduler S :=
  mkScheduler (world s) (_registry s) (_resource_manager s) (_resource_manager_uses_registry s)
    (_pending_durable_reservations s) (claim_rows s) (attempt_objects s) (attempts_by_id s) (attempt_rows s) (_match_log s)
    d (_events s) (_events_by_id s) (_idempotent_keys s).
Definition set_events (f g : list SchedulerEvent -> list SchedulerEvent) (s : Scheduler S) : Scheduler S :=
  mkScheduler (world s) (_registry s) (_resource_manager s) (_resource_manager_uses_registry s)
    (_pending_durable_reservations s) (claim_rows s) (attempt_objects s) (attempts_by_id s) (attempt_rows s) (_match_log s)
    (_resident_index s) (f (_events s)) (g (_events_by_id s)) (_idempotent_keys s).
Definition set_keys (f : gset string -> gset string) (s : Scheduler S) : Scheduler S :=
  mkScheduler (world s) (_registry s) (_resource_manager s) (_resource_manager_uses_registry s)
    (_pending_durable_reservations s) (claim_rows s) (attempt_objects s) (attempts_by_id s) (attempt_rows s) (_match_log s)
    (_resident_index s) (_events s) (_events_by_id s) (f (_idempotent_keys s)).

(** The objects [_claims] lists. *)
Definition claim_list (s : Scheduler S) : list TaskClaim := omap (fun r => objects (world s) !! r) (claim_rows s).
Definition claim_refs (s : Scheduler S) : list (nat * TaskClaim) :=
  omap (fun r => (fun c => (r, c)) <$> objects (world s) !! r) (claim_rows s).
(** The objects [_attempts] lists, and those of the manager's dict with their addresses. *)
Definition attempt_list (s : Scheduler S) : list Attempt := omap (fun r => attempt_objects s !! r) (attempt_rows s).
Definition attempt_refs (s : Scheduler S) : list (nat * Attempt) :=
  omap (fun kr => (fun a => (kr.2, a)) <$> attempt_objects s !! kr.2) (attempts_by_id s).
Definition attempt_dict (s : Scheduler S) : AttemptManager.t :=
  omap (fun kr => (fun a => (kr.1, a)) <$> attempt_objects s !! kr.2) (attempts_by_id s).
Definition projection (s : Scheduler S) : Projection :=
  mkProjection (claim_list s) (attempt_list s) (_match_log s) (_idempotent_keys s).
End State.

(** [l.remove(x)] by equality: the first equal element goes. *)
Fixpoint remove_first {A} `{EqDecision A} (x : A) (l : list A) : list A :=
  match l with
  | [] => []
  | y :: l' => if decide (y = x) then l' else y :: remove_first x l'
  end.
(** The same on rows that are addresses of [objs]. *)
Fixpoint remove_row {A} `{EqDecision A} (objs : list A) (c : A) (l : list nat) : list nat :=
  match l with
  | [] => []
  | r :: l' => if decide (objs !! r = Some c) then l' else r :: remove_row objs c l'
  end.

(** ** Helpers of the pass *)

Section Pass.
Context {S : Type} `{LeaseProvider S, SchedulerHost S}.
Context (lease_ttl : Z) (exc_str : py_error -> string) (container_text : json -> string) (iso_text : Z -> string)
  (digest : string -> Z -> string -> list AgentMatchScore -> string).

Definition SM (A : Type) : Type := M (Scheduler S) A.
Definition on_world {A} (m : M (World S) A) : SM A := fun s =>
  let '(r, w) := m (world s) in (r, set_world w s).
Definition on_host {A} (m : M S A) : SM A :=
  on_world (fun w => let '(r, h) := m (provider w) in (r, mkWorld h (objects w) (_claims w) (wall_clock w))).
Definition on_resources {A} (m : M AtomicResourceManager.t A) : SM A := fun s =>
  let '(r, m') := m (_resource_manager s) in (r, set_resources m' s).
(** A method of the attempt manager on the object at address [r], and one that
    books a new object. *)
Definition on_attempt {A} (r : nat) (m : M Attempt A) : SM A := fun s =>
  match attempt_objects s !! r with
  | None => (Raise (KeyError "attempt"), s)
  | Some a => let '(out, a') := m a in (out, set_attempts (<[r := a']>) id id s)
  end.
Definition book_object (a : Attempt) : SM nat := fun s =>
  let r := length (attempt_objects s) in
  (Ok r, set_attempts (fun l => l ++ [a]) (dict_set (at_attempt_id a) r) id s).
Definition now : SM Z := gets (fun s => wall_clock (world s)).

(** [record_event(...)] with the defaults of the factory *)
Definition record_event (ty : SchedulerEventType.t) (graph_id task_id agent_id claim_id attempt_id : string)
    (graph_version : Z) (decision_hash claim_state reason : string) (metadata : jobj) : SM SchedulerEvent :=
  id ← on_host host_uuid;
  t ← now;
  mret (mkSchedEvent id ty graph_id task_id agent_id claim_id attempt_id graph_version decision_hash
          claim_state reason metadata t).

(** Two events with equal [model_dump(mode="json")] *)
Definition same_event (a b : SchedulerEvent) : bool :=
  bool_decide ((se_event_id a, se_event_type a, se_graph_id a, se_task_id a, se_agent_id a, se_claim_id a) =
               (se_event_id b, se_event_type b, se_graph_id b, se_task_id b, se_agent_id b, se_claim_id b)) &&
  bool_decide ((se_attempt_id a, se_graph_version a, se_decision_hash a, se_claim_state a, se_reason a, se_created_at a) =
               (se_attempt_id b, se_graph_version b, se_decision_hash b, se_claim_state b, se_reason b, se_created_at b)) &&
  json_eqb (JObj (se_metadata a)) (JObj (se_metadata b)).

(** The event is in memory only after the store accepted it. *)
Definition _record_event (event : SchedulerEvent) : SM unit :=
  existing ← gets (fun s => tbl_find se_event_id (se_event_id event) (_events_by_id s));
  match existing with
  | Some e => raise_if (negb (same_event e event)) (ValueError "conflicting scheduler event id")
  | None =>
      rows ← gets projection;
      on_host (store_append_events [event] rows) ;;
      modify (set_events (fun l => l ++ [event]) (fun l => l ++ [event]))
  end.
(** The batch: the index is updated event by event, the list at the end. *)
Fixpoint accept_events (accepted events : list SchedulerEvent) : SM (list SchedulerEvent) :=
  match events with
  | [] => mret accepted
  | e :: events' =>
      existing ← gets (fun s => tbl_find se_event_id (se_event_id e) (_events_by_id s));
      match existing with
      | Some e0 =>
          raise_if (negb (same_event e0 e)) (ValueError "conflicting scheduler event id") ;;
          accept_events accepted events'
      | None => modify (set_events id (fun l => l ++ [e])) ;; accept_events (accepted ++ [e]) events'
      end
  end.
Definition _record_events (events : list SchedulerEvent) : SM unit :=
  rows ← gets projection;
  on_host (store_append_events events rows) ;;
  accepted ← accept_events [] events;
  modify (set_events (fun l => l ++ accepted) id).
Definition _persist_state : SM unit :=
  rows ← gets projection;
  on_host (store_persist_state rows).

Definition _release_claim_resources (reservation : option string) : SM unit :=
  match reservation with
  | None => mret tt
  | Some rid =>
      modify (fun s => match _pending_durable_reservations s with
                       | None => s
                       | Some p => set_pending (Some (filter (fun r => reservation_id r <> rid) p)) s
                       end) ;;
      on_resources (AtomicResourceManager.release rid) ;;
      mret tt
  end.

(** ** Registered capacities *)

Definition _restore_reservations (reservations : list ResourceReservation) : SM unit :=
  t ← now;
  try_except (on_resources (AtomicResourceManager.restore reservations t)) (fun e =>
    match e with
    | ValueError _ => raise (SchedulerStateCorruption "durable active resource reservations are invalid")
    | _ => raise e
    end).
Definition _try_restore_pending_resources (known_agent_ids : list string) (require_complete : bool) : SM unit :=
  pending ← gets _pending_durable_reservations;
  match pending with
  | None => mret tt
  | Some pending =>
      if bool_decide (Forall (fun r => rr_pool_id r ∈ known_agent_ids) pending) then
        _restore_reservations pending ;; modify (set_pending None)
      else raise_if require_complete
             (SchedulerStateCorruption "durable resource reservations reference unregistered agent pools")
  end.
Definition _sync_registry_resource_capacities : SM unit :=
  uses ← gets _resource_manager_uses_registry;
  if negb uses then mret tt
  else
    agents ← gets (fun s => AgentRegistry.list_ false (_registry s));
    for_each (fun a => on_resources (AtomicResourceManager.set_capacity (ad_agent_id a) (ad_resource_capacity a))) agents ;;
    _try_restore_pending_resources (ad_agent_id <$> agents) false.

(** ** Residency *)

Definition _snapshot_read_keys (s : AgentSnapshot) : gset string :=
  foldr (fun b keys => (match identity b with Some i => {[ i ]} | None => ∅ end)
                       ∪ (match rb_artifact_id b with Some a => if String.eqb a "" then ∅ else {[ a ]} | None => ∅ end)
                       ∪ keys) ∅ (sn_read_set s).
(** [index.setdefault(agent_id, set()).update(keys)] *)
Definition add_residency (snapshot : AgentSnapshot) (index : dict (gset string)) : dict (gset string) :=
  dict_set (sn_agent_id snapshot)
    (default ∅ (dict_get (sn_agent_id snapshot) index) ∪ _snapshot_read_keys snapshot) index.
(** The index of a graph is built from the attempts when it is first read. *)
Definition _agent_resident_read_keys (graph_id : string) : SM (dict (list string)) :=
  s ← get_state;
  index ← match dict_get graph_id (_resident_index s) with
          | Some index => mret index
          | None =>
              let index := foldl (fun ix a =>
                if String.eqb (at_graph_id a) graph_id
                then match at_agent_snapshot a with Some sn => add_residency sn ix | None => ix end
                else ix) [] (AttemptManager.all_attempts (attempt_dict s)) in
              modify (set_resident (dict_set graph_id index (_resident_index s))) ;;
              mret index
          end;
  mret ((fun kv => (kv.1, py_sorted (elements kv.2))) <$> index).

(** ** Eligibility of all agents *)

Definition _evaluate_eligibility_for_task (graph_id : string) (graph_version : Z) (req : TaskRequirements)
    (active_by_agent : dict Z) : SM (list EligibilityResult) :=
  agents ← gets (fun s => AgentRegistry.list_ false (_registry s));
  map_each (fun agent =>
    proc ← on_host (host_process_get (ad_process_id agent));
    cap ← gets (fun s => host_capabilities (provider (world s)));
    let result := evaluate_eligibility agent (tr_task_id req) graph_id graph_version (tr_task_kind req)
      (tr_required_specializations req) (tr_required_tools req) (tr_required_capabilities req)
      (default 0 (dict_get (ad_agent_id agent) active_by_agent))
      (match proc with Some st => st | None => None end) (bool_decide (is_Some proc)) cap in
    res ← gets _resource_manager;
    short ← of_result (AtomicResourceManager.shortages (ad_agent_id agent) (tr_resources req) res);
    mret (if eligible result && negb (bool_decide (short = [])) then
            mkEligibility (er_graph_id result) (er_graph_version result) (er_task_id result)
              (er_agent_id result) false (er_reasons result ++ [InsufficientResources short])
          else result)) agents.

(** ** Keys and epochs *)

Definition _claim_idempotency_key (graph_id task_id : string) (graph_version : Z) : string :=
  graph_id +:+ ":" +:+ task_id +:+ ":v" +:+ pretty graph_version.
(** [isinstance(v, int)]: a bool is one. *)
Definition as_py_int (v : option json) : option Z :=
  match v with Some (JInt z) => Some z | Some (JBool b) => Some (if b then 1 else 0) | _ => None end.
Definition _semantic_epoch (payload : jobj) (graph_version : Z) : Z :=
  match jget "metadata" payload with
  | Some (JObj metadata) =>
      match as_py_int (jget "__stale_at_version" metadata) with
      | Some z => z
      | None => default graph_version (as_py_int (jget "created_in_version" payload))
      end
  | _ => graph_version
  end.
(** [active_claim_count_by_agent] of projections.py *)
Definition active_claim_count_by_agent (claims : list TaskClaim) : dict Z :=
  foldl (fun counts c =>
    if bool_decide (tc_state c = ClaimState.ACTIVE)
    then dict_set (tc_agent_id c) (default 0 (dict_get (tc_agent_id c) counts) + 1) counts
    else counts) [] claims.
Definition _get_claim_locked (task_id : string) (graph_id : option string) (s : Scheduler S)
    : option (nat * TaskClaim) :=
  List.find (fun rc => String.eqb (tc_task_id rc.2) task_id
                       && match graph_id with Some g => String.eqb (tc_graph_id rc.2) g | None => true end
                       && bool_decide (tc_state rc.2 = ClaimState.ACTIVE)) (claim_refs s).

(** ** Acquisition of a claim *)

(** [record_event(CLAIM_REJECTED, ...)] before a claim exists *)
Definition reject (graph_id task_id agent_id : string) (version : Z) (reason : string) : SM bool :=
  e ← record_event SchedulerEventType.CLAIM_REJECTED graph_id task_id agent_id "" "" version "" "" reason [];
  _record_event e ;;
  mret false.

(** Assignments to the claim at address [r]. *)
Definition claim_at (r : nat) : SM TaskClaim :=
  c ← gets (fun s => objects (world s) !! r);
  some_or_raise c (KeyError "claim").
Definition update_claim (r : nat) (f : TaskClaim -> TaskClaim) : SM unit :=
  on_world (call r (fun _ => assign f)).
Definition set_reservation (rid : string) (res : ResourceVector) (handoff : option string) (c : TaskClaim) : TaskClaim :=
  mkTaskClaim (tc_claim_id c) (tc_graph_id c) (tc_graph_version c) (tc_task_id c) (tc_agent_id c)
    (tc_process_id c) (tc_lease_resource c) (tc_lease_id c) (tc_lease_owner_pid c)
    (tc_lease_fencing_token c) (tc_lease_expires_at c) (Some rid) res handoff (tc_state c)
    (tc_attempt_number c) (tc_reason c) (tc_created_at c) (tc_activated_at c) (tc_released_at c).

(** The claim object, its row and its proposal event; when the event cannot be
    recorded, row, dict entry and reservation are taken back. *)
Definition propose_claim (agent : AgentDescriptor) (graph_id task_id claim_id : string) (version attempt_number : Z)
    (reservation : ResourceReservation) (resources : ResourceVector) (handoff_id : option string) : SM nat :=
  r ← on_world (propose claim_id graph_id version task_id (ad_agent_id agent) (ad_process_id agent)
                  (claim_resource_uri graph_id task_id) attempt_number);
  let handoff := match handoff_id with None | Some EmptyString => None | Some h => Some (strip h) end in
  update_claim r (set_reservation (reservation_id reservation) resources handoff) ;;
  on_world (call r (fun _ => mark_acquiring)) ;;
  modify (set_claim_rows (fun l => l ++ [r])) ;;
  try_except
    (e ← record_event SchedulerEventType.CLAIM_PROPOSED graph_id task_id (ad_agent_id agent) claim_id "" version
           "" "" "" [];
     _record_event e) (fun exc =>
    c ← claim_at r;
    modify (fun s => set_claim_rows (remove_row (objects (world s)) c) s) ;;
    on_world (modify (fun w => mkWorld (provider w) (objects w) (dict_pop (tc_claim_id c) (_claims w)) (wall_clock w))) ;;
    _release_claim_resources (tc_resource_reservation_id c) ;;
    raise exc) ;;
  mret r.

(** The handler around [try_acquire_lease]: an unconfirmed release leaves the claim
    and its reservation for reconciliation, any other failure rejects it. *)
Definition lease_request_failed (agent_id : string) (version : Z) (r : nat) (lease_exc : py_error) : SM bool :=
  claim ← claim_at r;
  let cleanup_pending :=
    match lease_exc with LeaseReleaseFailed _ _ _ => true | _ => false end
    && bool_decide (tc_state claim = ClaimState.ACQUIRING) && bool_decide (tc_lease_id claim <> None) in
  (if cleanup_pending then
     update_claim r (fun c => set_reason
       ((match tc_reason c with None | Some EmptyString => "kernel_lease_acquisition_failed" | Some x => x end)
        +:+ "; scheduler_cleanup_pending") (set_times (tc_activated_at c) None c))
   else
     t ← now;
     update_claim r (finished ClaimState.REJECTED ("kernel_lease_acquisition_failed: " +:+ exc_str lease_exc) t) ;;
     _release_claim_resources (tc_resource_reservation_id claim)) ;;
  claim ← claim_at r;
  e ← record_event SchedulerEventType.CLAIM_REJECTED (tc_graph_id claim) (tc_task_id claim) agent_id
        (tc_claim_id claim) "" version "" (ClaimState.value (tc_state claim)) (default "" (tc_reason claim))
        [("cleanup_pending", JBool cleanup_pending)];
  _record_event e ;;
  raise lease_exc.

(** After the lease: the attempt and its two events; when they cannot be recorded
    the lease is released again and the attempt forgotten. *)
Definition book_attempt (agent : AgentDescriptor) (graph_id task_id : string) (version attempt_number semantic_epoch : Z)
    (r : nat) : SM bool :=
  claim ← claim_at r;
  t ← now;
  let attempt := AttemptManager.new_attempt
    ("attempt-" +:+ graph_id +:+ "-" +:+ task_id +:+ "-" +:+ pretty attempt_number) graph_id version semantic_epoch
    task_id (tc_claim_id claim) (ad_agent_id agent) (ad_process_id agent) attempt_number [] t in
  ar ← book_object attempt;
  modify (set_attempts id id (fun l => l ++ [ar])) ;;
  lease_event ← record_event SchedulerEventType.CLAIM_LEASE_ACQUIRED graph_id task_id (ad_agent_id agent)
    (tc_claim_id claim) "" version "" "" (default "" (tc_reason claim)) [];
  dispatch_event ← record_event SchedulerEventType.EXECUTION_DISPATCHED graph_id task_id (ad_agent_id agent)
    (tc_claim_id claim) (at_attempt_id attempt) version "" "" ""
    [("attempt_number", JInt attempt_number); ("semantic_epoch", JInt semantic_epoch)];
  try_except (_record_events [lease_event; dispatch_event]) (fun persist_exc =>
    on_world (call r (Claims.release exc_str "scheduler_state_persistence_failed_after_lease")) ;;
    modify (fun s => set_attempts id (dict_pop (at_attempt_id attempt)) (remove_row (attempt_objects s) attempt) s) ;;
    _release_claim_resources (tc_resource_reservation_id claim) ;;
    try_except _persist_state (fun _ => mret tt) ;;
    raise persist_exc) ;;
  mret true.

Definition _acquire_claim (graph_id task_id : string) (graph_version : Z) (claim_id agent_id : string)
    (attempt_number semantic_epoch : Z) (resources : ResourceVector) (handoff_id : option string) : SM bool :=
  found ← gets (fun s => AgentRegistry.get agent_id (_registry s));
  match found with
  | None => mret false
  | Some agent =>
      current ← on_host (vpg_current_graph_version graph_id);
      if negb (current =? graph_version) then reject graph_id task_id agent_id current
        ("graph version race (used " +:+ pretty graph_version +:+ ", now " +:+ pretty current +:+ ")")
      else
        frontier ← on_host (vpg_ready_frontier graph_id);
        if bool_decide (task_id ∉ VpgModels.tc_task_id <$> frontier)
        then reject graph_id task_id agent_id current "task no longer in ready frontier"
        else
          proc ← on_host (host_process_get (ad_process_id agent));
          match proc with
          | None => reject graph_id task_id agent_id current "agent process missing"
          | Some st =>
              if bool_decide (st = Some "exited" \/ st = Some "failed")
              then reject graph_id task_id agent_id current
                ("agent process in terminal state '" +:+ default "" st +:+ "'")
              else
                t ← now;
                reservation ← on_resources (AtomicResourceManager.try_reserve agent_id claim_id resources None t);
                match reservation with
                | None =>
                    s ← get_state;
                    _ ← of_result (AtomicResourceManager.available agent_id (_resource_manager s));
                    reject graph_id task_id agent_id current "resources no longer available"
                | Some reservation =>
                    r ← propose_claim agent graph_id task_id claim_id current attempt_number reservation resources
                          handoff_id;
                    acquired ← try_except (on_world (call r (try_acquire_lease lease_ttl exc_str)))
                                 (lease_request_failed agent_id current r);
                    if acquired : bool then
                      book_attempt agent graph_id task_id current attempt_number semantic_epoch r
                    else
                      claim ← claim_at r;
                      _release_claim_resources (tc_resource_reservation_id claim) ;;
                      e ← record_event SchedulerEventType.CLAIM_REJECTED graph_id task_id agent_id
                            (tc_claim_id claim) "" current "" ""
                            (match tc_reason claim with
                             | None | Some EmptyString => "kernel_exclusive_lease_refused" | Some x => x end) [];
                      _record_event e ;;
                      mret false
                end
          end
  end.

(** ** The pass *)

Inductive skip_reason : Type :=
| PolicyDeferred
| ActiveClaimExists (claim_id : string)
| MaxClaimsBound
| PayloadMissing
| AttemptsExhausted (attempts max_attempts : Z)
| IdempotentReplay
| NoEligibleAgent (evaluated : list (string * list ineligibility))
| EligibleDisappeared
| ClaimRefused.

Record ScheduleResult : Type := mkScheduleResult {
  dispatched : list (string * string * string);     (* task, agent, claim *)
  skipped : list (string * skip_reason);
  idle : bool;
  policy_stale : bool;
  expected_graph_version_ : option Z;
  observed_graph_version : option Z;
  dispatch_order_applied : list string;
  locality_matched : list string }.
Definition empty_result : ScheduleResult := mkScheduleResult [] [] true false None None [] [].
Definition stale_result (expected observed : Z) : ScheduleResult :=
  mkScheduleResult [] [] true true (Some expected) (Some observed) [] [].

(** What the loop carries: the result so far, the load of each agent, and the
    number of claims made. *)
Record pass_acc : Type := mkAcc {
  acc_dispatched : list (string * string * string);
  acc_skipped : list (string * skip_reason);
  acc_locality : list string;
  acc_active : dict Z;
  acc_claims : nat }.
Definition skip (task_id : string) (why : skip_reason) (acc : pass_acc) : pass_acc :=
  mkAcc (acc_dispatched acc) (acc_skipped acc ++ [(task_id, why)]) (acc_locality acc) (acc_active acc) (acc_claims acc).
Definition note_locality (task_id : string) (on : bool) (acc : pass_acc) : pass_acc :=
  mkAcc (acc_dispatched acc) (acc_skipped acc)
    (if on then acc_locality acc ++ [task_id] else acc_locality acc) (acc_active acc) (acc_claims acc).

(** What is fixed during a pass. *)
Record pass_env : Type := mkPassEnv {
  pe_graph_id : string;
  pe_max_claims : option Z;
  pe_allowed : option (list string);
  pe_version : Z;
  pe_active_claims : list TaskClaim;                (* the claims when the pass began *)
  pe_reads : dict (list string);
  pe_resident : dict (list string) }.

(** [active_claim_by_task.get((graph_id, task_id))]: the last ACTIVE one listed. *)
Definition active_claim_of (env : pass_env) (task_id : string) : option TaskClaim :=
  last (filter (fun c => tc_graph_id c = pe_graph_id env /\ tc_task_id c = task_id /\
                         tc_state c = ClaimState.ACTIVE) (pe_active_claims env)).
(** [attempts_by_task.get((graph_id, task_id), 0)] *)
Definition prior_claims (env : pass_env) (task_id : string) : Z :=
  Z.of_nat (length (filter (fun c => tc_graph_id c = pe_graph_id env /\ tc_task_id c = task_id)
                      (pe_active_claims env))).

(** The selected agent's score names a residency bonus. *)
Definition selected_resident (d : MatchDecision) : bool :=
  match tbl_find ms_agent_id (selected_agent_id d) (candidates d) with
  | Some c => existsb (fun r => match r with ContextResidency _ _ _ => true | _ => false end) (ms_reasons c)
  | None => false
  end.

(** [f"claim-{graph_id}-{task_id}-{current_version}-{attempt_number}"] *)
Definition new_claim_id (graph_id task_id : string) (version attempt_number : Z) : string :=
  "claim-" +:+ graph_id +:+ "-" +:+ task_id +:+ "-" +:+ pretty version +:+ "-" +:+ pretty attempt_number.
(** Matching, its log entry and event, and the acquisition, for one task. *)
Definition match_and_acquire (env : pass_env) (req : TaskRequirements) (semantic_epoch : Z) (idem_key : string)
    (pool : list AgentDescriptor) (acc : pass_acc) : SM pass_acc :=
  let task_id := tr_task_id req in
  let decision := match_deterministic_best_fit_v1 (pe_graph_id env) (pe_version env) task_id (tr_priority req)
    (acc_active acc) (tr_preferred_specializations req) (tr_preferred_agent req)
    (default [] (dict_get task_id (pe_reads env))) (Some (pe_resident env)) digest pool in
  let acc := note_locality task_id (selected_resident decision) acc in
  modify (set_match_log (fun l => l ++ [decision])) ;;
  try_except
    (e ← record_event SchedulerEventType.MATCH_DECISION_CREATED (pe_graph_id env) task_id
           (selected_agent_id decision) "" "" (pe_version env) (decision_hash decision) ""
           ("selected " +:+ selected_agent_id decision) [];
     _record_event e)
    (fun exc => modify (set_match_log (remove_first decision)) ;; raise exc) ;;
  let attempt_number := prior_claims env task_id in
  acquired ← _acquire_claim (pe_graph_id env) task_id (pe_version env)
    (new_claim_id (pe_graph_id env) task_id (pe_version env) attempt_number)
    (selected_agent_id decision) attempt_number semantic_epoch (tr_resources req) None;
  if negb acquired then mret (skip task_id ClaimRefused acc)
  else
    existing ← gets (_get_claim_locked task_id (Some (pe_graph_id env)));
    let agent_id := selected_agent_id decision in
    modify (set_keys (fun k => {[ idem_key ]} ∪ k)) ;;
    _persist_state ;;
    mret (mkAcc (acc_dispatched acc ++
                   [(task_id, agent_id, match existing with Some (_, c) => tc_claim_id c | None => "" end)])
            (acc_skipped acc) (acc_locality acc)
            (dict_set agent_id (default 0 (dict_get agent_id (acc_active acc)) + 1) (acc_active acc))
            (acc_claims acc + 1)%nat).

Definition pass_step (env : pass_env) (candidate : TaskDispatchCandidate) (acc : pass_acc) : SM pass_acc :=
  let task_id := VpgModels.tc_task_id candidate in
  let graph_id := pe_graph_id env in
  if match pe_allowed env with Some allowed => bool_decide (task_id ∉ allowed) | None => false end
  then mret (skip task_id PolicyDeferred acc)
  else match active_claim_of env task_id with
  | Some c => mret (skip task_id (ActiveClaimExists (tc_claim_id c)) acc)
  | None =>
      if match pe_max_claims env with Some m => m <=? Z.of_nat (acc_claims acc) | None => false end
      then mret (skip task_id MaxClaimsBound acc)
      else
        payload ← on_host (vpg_task_node_payload graph_id task_id);
        match payload with
        | None => mret (skip task_id PayloadMissing acc)
        | Some payload =>
            req ← of_result (decode_task_requirements container_text iso_text task_id payload);
            let semantic_epoch := _semantic_epoch payload (pe_version env) in
            n ← gets (fun s => Z.of_nat (AttemptManager.count_attempts_for_epoch graph_id task_id semantic_epoch
                                           (attempt_dict s)));
            if match tr_max_attempts req with Some m => Z.max m 0 <=? n | None => false end
            then mret (skip task_id (AttemptsExhausted n (default 0 (tr_max_attempts req))) acc)
            else
              let idem_key := _claim_idempotency_key graph_id task_id (pe_version env) in
              keys ← gets _idempotent_keys;
              if bool_decide (idem_key ∈ keys) then mret (skip task_id IdempotentReplay acc)
              else
                eligibility ← _evaluate_eligibility_for_task graph_id (pe_version env) req (acc_active acc);
                match filter (fun e => eligible e = true) eligibility with
                | [] =>
                    e ← record_event SchedulerEventType.ELIGIBILITY_EVALUATED graph_id task_id "" "" ""
                          (pe_version env) "" "" "no eligible agent" [];
                    _record_event e ;;
                    mret (skip task_id (NoEligibleAgent ((fun e => (er_agent_id e, er_reasons e)) <$> eligibility)) acc)
                | eligible_agents =>
                    reg ← gets _registry;
                    match omap (fun e => AgentRegistry.get (er_agent_id e) reg) eligible_agents with
                    | [] => mret (skip task_id EligibleDisappeared acc)
                    | pool => match_and_acquire env req semantic_epoch idem_key pool acc
                    end
                end
        end
  end.

Fixpoint pass_loop (env : pass_env) (frontier : list TaskDispatchCandidate) (acc : pass_acc) : SM pass_acc :=
  match frontier with
  | [] => mret acc
  | c :: rest => acc' ← pass_step env c acc; pass_loop env rest acc'
  end.

(** [order_rank]: each requested id once, at its first position. *)
Fixpoint order_ranks (position : Z) (seen : dict Z) (requested : list string) : dict Z :=
  match requested with
  | [] => seen
  | r :: rest =>
      let key := strip r in
      order_ranks (position + 1)
        (if String.eqb key "" || bool_decide (is_Some (dict_get key seen)) then seen
         else dict_set key position seen) rest
  end.
(** [frontier.sort(key=...)], when something is ranked *)
Definition apply_order (ranks : dict Z) (frontier : list TaskDispatchCandidate) : list TaskDispatchCandidate :=
  if bool_decide (ranks = []) then frontier
  else sort_on (fun c => default (Z.of_nat (length ranks)) (dict_get (VpgModels.tc_task_id c) ranks)) frontier.
Definition clean_ids (l : list string) : list string := filter (fun s => s <> "") (strip <$> l).
(** The dict comprehension over [task_read_keys_by_task.items()]. *)
Definition declared_reads_by_task (m : list (string * list string)) : dict (list string) :=
  foldl (fun d kv => if String.eqb (strip kv.1) "" then d else dict_set (strip kv.1) (clean_ids kv.2) d) [] m.

Definition _schedule_once_locked (graph_id : string) (max_claims : option Z) (allowed_task_ids : option (list string))
    (expected_graph_version : option Z) (dispatch_order : list string)
    (task_read_keys_by_task : list (string * list string)) : SM ScheduleResult :=
  _sync_registry_resource_capacities ;;
  frontier ← try_except (on_host (vpg_ready_frontier graph_id)) (fun _ => mret []);
  if bool_decide (VpgModels.tc_task_id <$> frontier = []) then mret empty_result
  else
    let ranks := order_ranks 0 [] dispatch_order in
    let frontier := apply_order ranks frontier in
    resident ← _agent_resident_read_keys graph_id;
    current_version ← on_host (vpg_current_graph_version graph_id);
    if match expected_graph_version with Some v => negb (current_version =? v) | None => false end
    then mret (stale_result (default 0 expected_graph_version) current_version)
    else
      claims ← gets claim_list;
      let env := mkPassEnv graph_id max_claims (clean_ids <$> allowed_task_ids) current_version claims
        (declared_reads_by_task task_read_keys_by_task) resident in
      acc ← pass_loop env frontier (mkAcc [] [] [] (active_claim_count_by_agent claims) 0);
      mret (mkScheduleResult (acc_dispatched acc) (acc_skipped acc) (bool_decide (acc_dispatched acc = []))
              false None None (fst <$> sort_on snd ranks) (acc_locality acc)).
End Pass.
