(* ===== verification/SchedulerProps.v ===== *)
(** * The scheduling pass: properties

    What a pass can do to the claims: it adds one claim per acquisition and leaves
    the others alone, stays within the concurrency of every agent whether it
    returns or raises, and dispatches only what it may. *)

From S2P Require Import Prelude KernelModels Storage KernelProviders PyString VpgModels Resources Claims ClaimProps Agents Matching MatchingProps Patches Attempts Scheduler.
Open Scope Z_scope.

(** ** Counting claims *)

(** The claims of a list of rows. *)
Definition rows_claims (objs : list TaskClaim) (rows : list nat) : list TaskClaim := omap (fun r => objs !! r) rows.
(** What is counted about an ACTIVE claim: agent, graph, task, and whether it has a
    lease. *)
Definition ckey (c : TaskClaim) : string * string * string * bool :=
  (tc_agent_id c, tc_graph_id c, tc_task_id c, bool_decide (tc_lease_id c <> None)).
Definition live_count (sel : string * string * string * bool -> bool) (cs : list TaskClaim) : nat :=
  length (filter (fun c => tc_state c = ClaimState.ACTIVE /\ sel (ckey c) = true) cs).
Definition of_agent (a : string) (k : string * string * string * bool) : bool := bool_decide (k.1.1.1 = a).
Definition of_task (g t : string) (k : string * string * string * bool) : bool :=
  bool_decide ((k.1.1.2, k.1.2) = (g, t)).
Definition active_count (a : string) : list TaskClaim -> nat := live_count (of_agent a).
Definition task_count (g t : string) : list TaskClaim -> nat := live_count (of_task g t).
Definition unleased_count : list TaskClaim -> nat := live_count (fun k => negb k.2).
(** Rows are distinct objects that exist. *)
Definition rows_ok (objs : list TaskClaim) (rows : list nat) : Prop :=
  NoDup rows /\ Forall (fun r => r < length objs)%nat rows.

Definition counts (sel : string * string * string * bool -> bool) (c : TaskClaim) : nat :=
  if decide (tc_state c = ClaimState.ACTIVE /\ sel (ckey c) = true) then 1 else 0.
Lemma counts_inactive sel c : tc_state c <> ClaimState.ACTIVE -> counts sel c = 0%nat.
Proof. intros Hc. unfold counts. rewrite decide_False; [done|tauto]. Qed.
Lemma counts_active sel c : tc_state c = ClaimState.ACTIVE -> counts sel c = (if sel (ckey c) then 1 else 0)%nat.
Proof. intros Hc. unfold counts. case_decide as E; destruct (sel (ckey c)); naive_solver. Qed.
Lemma live_count_app sel cs ds : live_count sel (cs ++ ds) = (live_count sel cs + live_count sel ds)%nat.
Proof. unfold live_count. by rewrite filter_app, length_app. Qed.
Lemma live_count_cons sel c cs : live_count sel (c :: cs) = (counts sel c + live_count sel cs)%nat.
Proof. unfold live_count, counts. rewrite filter_cons. by case_decide. Qed.
Lemma live_count_snoc sel c cs : live_count sel (cs ++ [c]) = (live_count sel cs + counts sel c)%nat.
Proof. rewrite live_count_app, live_count_cons. unfold live_count at 2. cbn. lia. Qed.
Lemma rows_claims_cons objs r rows :
  rows_claims objs (r :: rows) =
  match objs !! r with Some c => c :: rows_claims objs rows | None => rows_claims objs rows end.
Proof. unfold rows_claims. cbn. by destruct (objs !! r). Qed.

Lemma rows_claims_snoc objs rows c :
  Forall (fun r => r < length objs)%nat rows ->
  rows_claims (objs ++ [c]) (rows ++ [length objs]) = rows_claims objs rows ++ [c].
Proof.
  intros Hv. unfold rows_claims. rewrite omap_app. cbn. rewrite lookup_app_r, Nat.sub_diag by lia. cbn.
  f_equal. apply list_omap_ext. clear -Hv. induction Hv as [|r rows Hr _ IH]; constructor; [|done].
  by rewrite lookup_app_l.
Qed.
Lemma rows_claims_old objs rows c :
  Forall (fun r => r < length objs)%nat rows -> rows_claims (objs ++ [c]) rows = rows_claims objs rows.
Proof.
  intros Hv. unfold rows_claims. apply list_omap_ext. clear -Hv.
  induction Hv as [|r rows Hr _ IH]; constructor; [|done]. by rewrite lookup_app_l.
Qed.
Lemma rows_ok_snoc objs rows c : rows_ok objs rows -> rows_ok (objs ++ [c]) (rows ++ [length objs]).
Proof.
  intros [Hn Hv]. split.
  - apply NoDup_app. split_and!; [done| |apply NoDup_singleton]. intros r Hr Hr'.
    apply list_elem_of_singleton in Hr' as ->. rewrite Forall_forall in Hv. specialize (Hv _ Hr). cbn in Hv. lia.
  - apply Forall_app. rewrite length_app. cbn. split; [|constructor; [lia|constructor]].
    eapply Forall_impl; [exact Hv|]. cbn. lia.
Qed.
Lemma rows_ok_old objs rows c : rows_ok objs rows -> rows_ok (objs ++ [c]) rows.
Proof.
  intros [Hn Hv]. split; [done|]. eapply Forall_impl; [exact Hv|]. rewrite length_app. cbn. lia.
Qed.

(** Removing a row of an object that is not ACTIVE changes no count. *)
Lemma remove_row_sublist {A} `{EqDecision A} (objs : list A) c rows : remove_row objs c rows `sublist_of` rows.
Proof. induction rows as [|r rows IH]; cbn; [done|]. case_decide; by constructor. Qed.
Lemma remove_row_ok objs (c : TaskClaim) rows : rows_ok objs rows -> rows_ok objs (remove_row objs c rows).
Proof.
  intros [Hn Hv]. pose proof (remove_row_sublist objs c rows) as Hs. split; [by eapply sublist_NoDup|].
  apply Forall_forall. intros r Hr. rewrite Forall_forall in Hv. apply Hv. by eapply elem_of_sublist.
Qed.
Lemma remove_row_active objs (c : TaskClaim) rows sel :
  tc_state c <> ClaimState.ACTIVE ->
  live_count sel (rows_claims objs (remove_row objs c rows)) = live_count sel (rows_claims objs rows).
Proof.
  intros Hc. induction rows as [|r rows IH]; cbn [remove_row]; [done|]. case_decide as E.
  - rewrite rows_claims_cons, E, live_count_cons, counts_inactive by done. done.
  - rewrite !rows_claims_cons. destruct (objs !! r) as [d|]; [|done]. by rewrite !live_count_cons, IH.
Qed.

(** ** Steps that leave the claims alone *)

Section Keeping.
Context {S : Type} `{LeaseProvider S, SchedulerHost S}.

(** The claims, their rows, the registry and the idempotency keys. *)
Definition core (s : Scheduler S) : list TaskClaim * list nat * (AgentRegistry.t * gset string) :=
  (objects (world s), claim_rows s, (_registry s, _idempotent_keys s)).

Lemma on_host_keeps {A} (m : M S A) : within (keeps core) (on_host m).
Proof. intros s. unfold on_host, on_world, keeps. by destruct (m (provider (world s))) as [r h]. Qed.
Lemma on_resources_keeps {A} (m : M AtomicResourceManager.t A) : within (keeps core) (on_resources m).
Proof. intros s. unfold on_resources, keeps. by destruct (m (_resource_manager s)) as [r h]. Qed.
Lemma on_attempt_keeps {A} r (m : M Attempt A) : within (keeps core) (on_attempt r m).
Proof.
  intros s. unfold on_attempt, keeps. destruct (attempt_objects s !! r) as [a|]; [|done]. by destruct (m a) as [out h].
Qed.
Lemma now_keeps : within (keeps core) now.
Proof. by intros s. Qed.
Hint Resolve on_host_keeps on_resources_keeps now_keeps : lhos.

Lemma record_event_keeps ty g t a c at_ v d st r m : within (keeps core) (record_event ty g t a c at_ v d st r m).
Proof. unfold record_event. solve_within. Qed.
Lemma _record_event_keeps e : within (keeps core) (_record_event e).
Proof. unfold _record_event. solve_within. Qed.
Lemma accept_events_keeps accepted es : within (keeps core) (accept_events accepted es).
Proof.
  revert accepted. induction es as [|e es IH]; intros accepted; cbn [accept_events]; solve_within.
Qed.
Hint Resolve record_event_keeps _record_event_keeps accept_events_keeps : lhos.
Lemma _record_events_keeps es : within (keeps core) (_record_events es).
Proof. unfold _record_events. solve_within. Qed.
Lemma _persist_state_keeps : within (keeps core) _persist_state.
Proof. unfold _persist_state. solve_within. Qed.
Lemma release_resources_keeps rid : within (keeps core) (_release_claim_resources rid).
Proof.
  unfold _release_claim_resources. solve_within. apply within_modify. intros st.
  by destruct (_pending_durable_reservations st).
Qed.
Lemma sync_keeps : within (keeps core) _sync_registry_resource_capacities.
Proof.
  unfold _sync_registry_resource_capacities, _try_restore_pending_resources, _restore_reservations. solve_within.
Qed.
Lemma resident_keeps g : within (keeps core) (_agent_resident_read_keys g).
Proof. unfold _agent_resident_read_keys. solve_within. Qed.
Lemma evaluate_keeps g v req act : within (keeps core) (_evaluate_eligibility_for_task g v req act).
Proof. unfold _evaluate_eligibility_for_task. solve_within. Qed.
Lemma reject_keeps g t a v r : within (keeps core) (reject g t a v r).
Proof. unfold reject. solve_within. Qed.

(** Reasoning forward: a step that keeps the core, then the rest. *)
Lemma bind_keep {A B} (m : M (Scheduler S) A) (k : A -> M (Scheduler S) B) s (P : result B * Scheduler S -> Prop) :
  within (keeps core) m ->
  (forall a s1, core s1 = core s -> P (k a s1)) -> (forall e s1, core s1 = core s -> P (Raise e, s1)) ->
  P ((m ≫= k) s).
Proof.
  intros Hm Hk He. unfold mbind, M_bind. specialize (Hm s). destruct (m s) as [[a|e] s1]; auto.
Qed.
Lemma try_keep {A B} (m : M (Scheduler S) A) (h : py_error -> M (Scheduler S) A)
    (k : A -> M (Scheduler S) B) s (P : result B * Scheduler S -> Prop) :
  within (keeps core) m ->
  (forall a s1, core s1 = core s -> P (k a s1)) -> (forall e s1, core s1 = core s -> P ((h e ≫= k) s1)) ->
  P ((try_except m h ≫= k) s).
Proof.
  intros Hm Hk He. specialize (Hm s). unfold mbind, M_bind, try_except in *.
  destruct (m s) as [[a|e] s1]; [by apply Hk|by apply He].
Qed.
End Keeping.
(** Applies one of these to the statement being run. *)
Ltac at_bind tac :=
  lazymatch goal with
  | |- context [@mbind ?M ?I ?A ?B ?k ?m ?s] => pattern (@mbind M I A B k m s); tac
  end.
Ltac run_keep := at_bind ltac:(apply bind_keep).
Ltac run_try := at_bind ltac:(apply try_keep).
#[export] Hint Resolve on_host_keeps on_resources_keeps now_keeps record_event_keeps _record_event_keeps
  accept_events_keeps _record_events_keeps _persist_state_keeps release_resources_keeps sync_keeps resident_keeps
  evaluate_keeps reject_keeps : lhos.

(** ** Acquisition *)

Section Acquire.
Context {S : Type} `{LeaseProvider S, SchedulerHost S}.
Context (lease_ttl : Z) (exc_str : py_error -> string).

Lemma insert_last {A} (l : list A) x y : <[length l := y]> (l ++ [x]) = l ++ [y].
Proof. rewrite <-(Nat.add_0_r (length l)), insert_app_r. done. Qed.
Lemma lookup_last {A} (l : list A) x : (l ++ [x]) !! length l = Some x.
Proof. rewrite lookup_app_r, Nat.sub_diag by lia. done. Qed.

(** A method on the newest object changes only that object. *)
Lemma call_last {A} (m : Z -> CM A) (s : Scheduler S) objs rows reg c :
  core s = (objs ++ [c], rows, reg) ->
  exists s', on_world (call (length objs) m) s = ((m (wall_clock (world s)) (provider (world s), c)).1, s') /\
    core s' = (objs ++ [(m (wall_clock (world s)) (provider (world s), c)).2.2], rows, reg).
Proof.
  intros Hc. unfold core in Hc. injection Hc as Ho Hr Hg. unfold on_world, call. rewrite Ho, lookup_last.
  destruct (m _ _) as [out [h' c']]. cbn. eexists. split; [reflexivity|]. unfold core. cbn.
  by rewrite insert_last, Hr, Hg.
Qed.

Lemma claim_at_last (s : Scheduler S) objs rows reg c :
  core s = (objs ++ [c], rows, reg) -> claim_at (length objs) s = (Ok c, s).
Proof.
  intros Hc. unfold core in Hc. injection Hc as Ho _ _. unfold claim_at. run_m. by rewrite Ho, lookup_last.
Qed.

(** How an exception may leave the claims: at most one more ACTIVE claim, with the
    key in question. *)
Definition raised_ok (objs : list TaskClaim) (rows : list nat) (reg : AgentRegistry.t * gset string)
    (k : string * string * string * bool) (s' : Scheduler S) : Prop :=
  exists objs' rows', core s' = (objs', rows', reg) /\ rows_ok objs' rows' /\
    forall sel, (live_count sel (rows_claims objs' rows') <=
                 live_count sel (rows_claims objs rows) + (if sel k then 1 else 0))%nat.

Lemma raised_same objs rows reg a s' :
  core s' = (objs, rows, reg) -> rows_ok objs rows -> raised_ok objs rows reg a s'.
Proof. intros Hc Hok. exists objs, rows. split_and!; [done|done|]. lia. Qed.
Lemma raised_last objs rows reg a c s' :
  core s' = (objs ++ [c], rows ++ [length objs], reg) -> rows_ok objs rows ->
  (tc_state c = ClaimState.ACTIVE -> ckey c = a) -> raised_ok objs rows reg a s'.
Proof.
  intros Hc Hok Ha. eexists _, _. split_and!; [exact Hc|by apply rows_ok_snoc|]. intros sel.
  rewrite rows_claims_snoc, live_count_snoc by apply Hok.
  destruct (decide (tc_state c = ClaimState.ACTIVE)) as [Hst|]; [|rewrite counts_inactive by done; lia].
  rewrite counts_active, (Ha Hst) by done. lia.
Qed.

Lemma propose_last cid g v t a p res n (s : Scheduler S) objs rows reg :
  core s = (objs, rows, reg) ->
  exists c s', on_world (propose cid g v t a p res n) s = (Ok (length objs), s') /\
    core s' = (objs ++ [c], rows, reg) /\
    tc_agent_id c = a /\ tc_task_id c = t /\ tc_graph_id c = g /\ tc_process_id c = p.
Proof.
  intros Hc. unfold core in Hc. injection Hc as Ho Hr Hg. unfold on_world, propose, _book. run_m.
  eexists _, _. rewrite Ho. split; [reflexivity|]. unfold core. cbn. by rewrite Hr, Hg.
Qed.

(** The identity of a claim that assignments keep. *)
Definition claim_of (agent : AgentDescriptor) (g t : string) (c : TaskClaim) : Prop :=
  tc_agent_id c = ad_agent_id agent /\ tc_task_id c = t /\ tc_graph_id c = g /\ tc_process_id c = ad_process_id agent.

Lemma propose_claim_spec agent g t cid v n resv res hid (s : Scheduler S) objs rows reg a :
  core s = (objs, rows, reg) -> rows_ok objs rows ->
  match propose_claim agent g t cid v n resv res hid s with
  | (Ok r, s') => r = length objs /\ exists c, core s' = (objs ++ [c], rows ++ [length objs], reg) /\
      tc_state c = ClaimState.ACQUIRING /\ claim_of agent g t c
  | (Raise _, s') => raised_ok objs rows reg a s'
  end.
Proof.
  intros Hc Hok. unfold propose_claim.
  destruct (propose_last cid g v t (ad_agent_id agent) (ad_process_id agent) (claim_resource_uri g t) n s _ _ _ Hc)
    as (c0 & s1 & E1 & Hc1 & Hid). rewrite (bind_Ok _ _ _ _ _ E1). clear E1.
  set (f := set_reservation _ _ _).
  destruct (call_last (fun _ => assign f) s1 objs rows reg c0 Hc1) as (s2 & E2 & Hc2). cbn in E2, Hc2.
  unfold update_claim. rewrite (bind_Ok _ _ _ _ _ E2). clear E2.
  destruct (call_last (fun _ => mark_acquiring) s2 objs rows reg (f c0) Hc2) as (s3 & E3 & Hc3).
  set (c3 := (mark_acquiring (provider (world s2), f c0)).2.2) in Hc3. change (_.1) with (Ok tt) in E3.
  rewrite (bind_Ok _ _ _ _ _ E3). clear E3.
  rewrite (bind_Ok (modify _) _ s3 tt (set_claim_rows (fun l => l ++ [length objs]) s3) eq_refl).
  set (s4 := set_claim_rows _ s3).
  assert (core s4 = (objs ++ [c3], rows ++ [length objs], reg)) as Hc4.
  { unfold core in Hc3 |- *. injection Hc3 as Ho Hr Hg. cbn. by rewrite Ho, Hr, Hg. }
  run_try; [solve_within|intros [] s5 Hc5|intros e s5 Hc5]; rewrite Hc4 in Hc5; cbv beta.
  { split; [done|]. by exists c3. }
  rewrite !bind_assoc, (bind_Ok _ _ _ _ _ (claim_at_last s5 _ _ _ _ Hc5)), !bind_assoc.
  rewrite (bind_Ok (modify _) _ s5 tt _ eq_refl). set (s6 := set_claim_rows _ s5).
  assert (core s6 = (objs ++ [c3], remove_row (objs ++ [c3]) c3 (rows ++ [length objs]), reg)) as Hc6.
  { unfold core in Hc5 |- *. injection Hc5 as Ho Hr Hg. cbn. by rewrite Ho, Hr, Hg. }
  assert (raised_ok objs rows reg a s6) as Hraised.
  { eexists _, _. split_and!; [exact Hc6|by apply remove_row_ok, rows_ok_snoc|]. intros sel.
    rewrite remove_row_active by done. rewrite rows_claims_snoc, live_count_snoc, counts_inactive by first [done|apply Hok]. lia. }
  assert (forall s7, core s7 = core s6 -> raised_ok objs rows reg a s7) as Hkeep.
  { intros s7 E. unfold raised_ok. rewrite E. exact Hraised. }
  rewrite !bind_assoc. run_keep; [by intros ?| |by intros; apply Hkeep].
  intros [] s7 E7. cbv beta. rewrite !bind_assoc. run_keep; [apply release_resources_keeps| |].
  - intros [] s8 E8. cbn. apply Hkeep. congruence.
  - intros e' s8 E8. apply Hkeep. congruence.
Qed.

(** *** While the newest claim is being acquired *)

Section Newest.
Context (objs : list TaskClaim) (rows : list nat) (reg : AgentRegistry.t * gset string)
  (a : string * string * string * bool).

(** The core is as before plus one claim, which is ACTIVE only with the key [a]. *)
Definition newest (s : Scheduler S) : Prop := exists c,
  core s = (objs ++ [c], rows ++ [length objs], reg) /\ (tc_state c = ClaimState.ACTIVE -> ckey c = a).

Lemma newest_raised s : rows_ok objs rows -> newest s -> raised_ok objs rows reg a s.
Proof. intros Hok (c & Hc & Ha). by eapply raised_last. Qed.

Lemma keeps_newest {A} (m : M (Scheduler S) A) : within (keeps core) m -> within (preserves newest) m.
Proof. intros Hm s (c & Hc & Ha). exists c. split; [|done]. rewrite <-Hc. apply Hm. Qed.
Lemma call_newest {A} (m : Z -> CM A) :
  (forall t h c, (tc_state c = ClaimState.ACTIVE -> ckey c = a) ->
     tc_state (m t (h, c)).2.2 = ClaimState.ACTIVE -> ckey (m t (h, c)).2.2 = a) ->
  within (preserves newest) (on_world (call (length objs) m)).
Proof.
  intros Hm s (c & Hc & Ha). destruct (call_last m s _ _ _ _ Hc) as (s' & E & Hc'). rewrite E.
  eexists. split; [exact Hc'|]. by apply Hm.
Qed.

(** A step after which the newest claim is still of that kind, then the rest. *)
Lemma bind_newest {A B} (m : M (Scheduler S) A) (k : A -> M (Scheduler S) B) s (P : result B * Scheduler S -> Prop) :
  within (preserves newest) m -> newest s ->
  (forall x s1, newest s1 -> P (k x s1)) -> (forall e s1, newest s1 -> P (Raise e, s1)) -> P ((m ≫= k) s).
Proof.
  intros Hm Hs Hk He. unfold mbind, M_bind. specialize (Hm s Hs). destruct (m s) as [[x|e] s1]; auto.
Qed.
End Newest.

Lemma claims_release_newest reason t h c :
  let c' := (Claims.release exc_str reason t (h, c)).2.2 in
  ckey c' = ckey c /\ (tc_state c' = ClaimState.ACTIVE -> tc_state c = ClaimState.ACTIVE).
Proof.
  unfold Claims.release. rewrite (bind_Ok this _ (h, c) c (h, c) eq_refl). case_bool_decide; [done|].
  pose proof (safe_release_cases exc_str h c) as Hr. unfold mbind, M_bind.
  destruct (_safe_release exc_str (h, c)) as [[[]|e] [h' c']]; destruct Hr as [-> _]; done.
Qed.

(** The failure handlers only raise, and leave the newest claim of its kind. *)
Lemma lease_request_failed_spec agent_id v e objs rows reg a (s : Scheduler S) :
  newest objs rows reg a s ->
  exists e' s', lease_request_failed exc_str agent_id v (length objs) e s = (Raise e', s') /\ newest objs rows reg a s'.
Proof.
  intros Hs. unfold lease_request_failed.
  set (P := fun x : result bool * Scheduler S => exists e' s', x = (Raise e', s') /\ newest objs rows reg a s').
  change (P (lease_request_failed exc_str agent_id v (length objs) e s)). unfold lease_request_failed.
  assert (forall e s, newest objs rows reg a s -> P (Raise e, s)) as HP by (intros; unfold P; eauto).
  assert (forall r, within (preserves (newest objs rows reg a)) (claim_at r)) as Hat.
  { intros r. apply keeps_newest. unfold claim_at. solve_within. }
  apply (bind_newest objs rows reg a); [apply Hat|done| |apply HP]. intros c s1 Hs1.
  apply (bind_newest objs rows reg a); [|done| |apply HP].
  { destruct (_ && _).
    - apply call_newest. intros t h c' Hc'. cbn. done.
    - apply (within_bind _); [by apply keeps_newest, now_keeps|intros t].
      apply (within_bind _); [|intros _; by apply keeps_newest, release_resources_keeps].
      apply call_newest. done. }
  intros [] s2 Hs2. apply (bind_newest objs rows reg a); [apply Hat|done| |apply HP]. intros c2 s3 Hs3.
  apply (bind_newest objs rows reg a); [by apply keeps_newest, record_event_keeps|done| |apply HP]. intros ev s4 Hs4.
  apply (bind_newest objs rows reg a); [by apply keeps_newest, _record_event_keeps|done| |apply HP].
  intros _ s5 Hs5. by apply HP.
Qed.

Lemma book_attempt_spec agent g t v n ep objs rows reg a (s : Scheduler S) c :
  core s = (objs ++ [c], rows ++ [length objs], reg) -> (tc_state c = ClaimState.ACTIVE -> ckey c = a) ->
  match book_attempt exc_str agent g t v n ep (length objs) s with
  | (Ok b, s') => b = true /\ core s' = core s
  | (Raise _, s') => newest objs rows reg a s'
  end.
Proof.
  intros Hc Ha. assert (forall s1 : Scheduler S, core s1 = core s -> newest objs rows reg a s1) as Hn.
  { intros s1 E. exists c. by rewrite E. }
  unfold book_attempt. rewrite (bind_Ok _ _ _ _ _ (claim_at_last s _ _ _ _ Hc)).
  run_keep; [apply now_keeps|intros now1 s1 E1; cbv beta zeta|by auto].
  run_keep; [by intros ?|intros att s1' E1'; cbv beta|intros; apply Hn; congruence].
  run_keep; [by intros ?|intros [] s2 E2; cbv beta|intros; apply Hn; congruence].
  run_keep; [apply record_event_keeps|intros ev1 s3 E3; cbv beta|intros; apply Hn; congruence].
  run_keep; [apply record_event_keeps|intros ev2 s4 E4; cbv beta|intros; apply Hn; congruence].
  run_try; [apply _record_events_keeps|intros [] s5 E5; cbn; split; [done|congruence]|].
  intros e s5 E5. cbv beta. rewrite !bind_assoc.
  assert (newest objs rows reg a s5) as H5 by (apply Hn; congruence).
  at_bind ltac:(apply (bind_newest objs rows reg a)); [|done| |done].
  { apply call_newest. intros t' h c' Hc'. destruct (claims_release_newest "scheduler_state_persistence_failed_after_lease" t' h c') as [E Hst].
    rewrite E. auto. }
  intros [] s6 H6. cbv beta. rewrite !bind_assoc.
  at_bind ltac:(apply (bind_newest objs rows reg a)); [by apply keeps_newest; intros ?|done| |done].
  intros [] s7 H7. cbv beta. rewrite !bind_assoc.
  at_bind ltac:(apply (bind_newest objs rows reg a)); [by apply keeps_newest, release_resources_keeps|done| |done].
  intros [] s8 H8. cbv beta. rewrite !bind_assoc.
  at_bind ltac:(apply (bind_newest objs rows reg a)); [apply keeps_newest; solve_within|done| |done].
  intros [] s9 H9. done.
Qed.

(** What [try_acquire_lease] makes of a claim that is not ACTIVE. *)
Lemma try_acquire_state t h c :
  tc_state c <> ClaimState.ACTIVE ->
  let '(out, (h', c')) := try_acquire_lease lease_ttl exc_str t (h, c) in
  (tc_agent_id c', tc_task_id c', tc_graph_id c') = (tc_agent_id c, tc_task_id c, tc_graph_id c) /\
  match out with
  | Ok true => tc_state c' = ClaimState.ACTIVE /\ exists l, tc_lease_id c' = Some l
  | _ => tc_state c' <> ClaimState.ACTIVE
  end.
Proof.
  intros Hc. pose proof (try_acquire_cases lease_ttl exc_str t h c) as Hcase.
  destruct (try_acquire_lease lease_ttl exc_str t (h, c)) as [out [h' c']]. cbn in Hcase.
  destruct Hcase; cbn; eauto.
Qed.

(** The outcome of an acquisition: one new ACTIVE claim with a lease; or nothing,
    or one claim that is not ACTIVE; or an exception. *)
Definition acquire_post (objs : list TaskClaim) (rows : list nat) (reg : AgentRegistry.t * gset string)
    (aid t g : string)
    (x : result bool * Scheduler S) : Prop :=
  match x with
  | (Ok true, s') => exists c, core s' = (objs ++ [c], rows ++ [length objs], reg) /\
      tc_state c = ClaimState.ACTIVE /\ ckey c = (aid, g, t, true)
  | (Ok false, s') => core s' = (objs, rows, reg) \/
      exists c, core s' = (objs ++ [c], rows ++ [length objs], reg) /\ tc_state c <> ClaimState.ACTIVE
  | (Raise _, s') => raised_ok objs rows reg (aid, g, t, true) s'
  end.

Lemma acquire_claim_spec g t v cid aid n ep res hid (s : Scheduler S) objs rows reg :
  core s = (objs, rows, reg) -> rows_ok objs rows ->
  (forall ag, AgentRegistry.get aid reg.1 = Some ag -> ad_agent_id ag = aid) ->
  acquire_post objs rows reg aid t g (_acquire_claim lease_ttl exc_str g t v cid aid n ep res hid s).
Proof.
  intros Hc Hok Hreg. set (P := acquire_post objs rows reg aid t g).
  assert (forall e s1, core s1 = core s -> P (Raise e, s1)) as HR.
  { intros e s1 E. apply raised_same; [congruence|done]. }
  assert (forall g' t' a' v' r' s1, core s1 = core s -> P (reject g' t' a' v' r' s1)) as Hrej.
  { intros g' t' a' v' r' s1 E. unfold reject. run_keep; [apply record_event_keeps| |intros; apply HR; congruence].
    intros ev s2 E2. run_keep; [apply _record_event_keeps| |intros; apply HR; congruence].
    intros _ s3 E3. left. congruence. }
  unfold _acquire_claim. rewrite (bind_Ok (gets _) _ s _ s eq_refl).
  assert (_registry s = reg.1) as Hrg by (unfold core in Hc; by injection Hc as _ _ <-). rewrite Hrg.
  destruct (AgentRegistry.get aid reg.1) as [agent|] eqn:Hag; [|by left].
  specialize (Hreg agent eq_refl).
  run_keep; [apply on_host_keeps|intros cur s1 E1|auto]. destruct (negb _); [by auto|].
  run_keep; [apply on_host_keeps|intros fr s2 E2|intros; apply HR; congruence]. case_bool_decide; [apply Hrej; congruence|].
  run_keep; [apply on_host_keeps|intros proc s3 E3|intros; apply HR; congruence].
  destruct proc as [st|]; [|apply Hrej; congruence]. case_bool_decide; [apply Hrej; congruence|].
  run_keep; [apply now_keeps|intros t0 s4 E4|intros; apply HR; congruence].
  run_keep; [apply on_resources_keeps|intros resv s5 E5|intros; apply HR; congruence].
  assert (core s5 = (objs, rows, reg)) as Hc5 by congruence. destruct resv as [resv|].
  2: { rewrite (bind_Ok get_state _ s5 s5 s5 eq_refl).
       run_keep; [apply (within_of_result _)|intros _ s6 E6; apply Hrej; congruence|intros; apply HR; congruence]. }
  pose proof (propose_claim_spec agent g t cid cur n resv res hid s5 objs rows reg (aid, g, t, true) Hc5 Hok) as Hp.
  unfold mbind at 1, M_bind at 1. destruct (propose_claim agent g t cid cur n resv res hid s5) as [[r|e] s6]; [|done].
  destruct Hp as (-> & c & Hc6 & Hst & Hag' & Ht & Hg & _).
  destruct (call_last (try_acquire_lease lease_ttl exc_str) s6 _ _ _ _ Hc6) as (s7 & E7 & Hc7).
  pose proof (try_acquire_state (wall_clock (world s6)) (provider (world s6)) c ltac:(congruence)) as Hta.
  destruct (try_acquire_lease _ _ _ _) as [out [h' c']]. cbn [fst snd] in E7, Hc7. destruct Hta as [Hid Hout].
  injection Hid as Hid1 Hid2 Hid3.
  unfold mbind at 1, M_bind at 1, try_except at 1. rewrite E7. destruct out as [[]|e].
  - destruct Hout as [Hact [l Hl]].
    assert (ckey c' = (aid, g, t, true)) as Hkey.
    { unfold ckey. rewrite bool_decide_true by (by rewrite Hl). congruence. }
    pose proof (book_attempt_spec agent g t cur n ep objs rows reg (aid, g, t, true) s7 c' Hc7 (fun _ => Hkey)) as Hb.
    destruct (book_attempt _ _ _ _ _ _ _ _ s7) as [[b|e] s8].
    + destruct Hb as [-> E8]. exists c'. split_and!; [congruence|done..].
    + by apply newest_raised.
  - rewrite (bind_Ok _ _ _ _ _ (claim_at_last s7 _ _ _ _ Hc7)).
    assert (forall e s8, core s8 = core s7 -> P (Raise e, s8)) as HR7.
    { intros e s8 E8. eapply raised_last; [by rewrite E8|done|done]. }
    run_keep; [apply release_resources_keeps|intros [] s8 E8|by auto].
    run_keep; [apply record_event_keeps|intros ev s9 E9|intros; apply HR7; congruence].
    run_keep; [apply _record_event_keeps|intros _ s10 E10|intros; apply HR7; congruence].
    right. exists c'. split; [congruence|done].
  - assert (newest objs rows reg (aid, g, t, true) s7) as Hn by (exists c'; split; [exact Hc7|done]).
    destruct (lease_request_failed_spec aid cur e objs rows reg (aid, g, t, true) s7 Hn) as (e' & s8 & -> & Hn8).
    by apply newest_raised.
Qed.
End Acquire.

(** ** The pass *)

(** The registry maps each id to the descriptor of that id. *)
Definition registry_ok (reg : AgentRegistry.t) : Prop :=
  dict_ok reg /\ forall k ag, (k, ag) ∈ reg -> ad_agent_id ag = k.

(** The load the pass counts for an agent. *)
Definition load (active : dict Z) (b : string) : Z := default 0 (dict_get b active).

Lemma load_set active a v b : load (dict_set a v active) b = if decide (b = a) then v else load active b.
Proof. unfold load. rewrite dict_set_get. by case_decide. Qed.
Lemma active_claim_count_spec cs b :
  load (active_claim_count_by_agent cs) b = Z.of_nat (active_count b cs).
Proof.
  unfold active_claim_count_by_agent.
  enough (forall d, load (foldl (fun counts c =>
      if bool_decide (tc_state c = ClaimState.ACTIVE)
      then dict_set (tc_agent_id c) (default 0 (dict_get (tc_agent_id c) counts) + 1) counts
      else counts) d cs) b = load d b + Z.of_nat (active_count b cs)) as E by (by rewrite E).
  induction cs as [|c cs IH]; intros d; cbn [foldl]; [cbn; lia|]. unfold active_count. rewrite IH, live_count_cons.
  fold (active_count b). case_bool_decide as Hst; [|rewrite counts_inactive by done; lia].
  rewrite load_set, counts_active by done. unfold of_agent, ckey. cbn [fst]. case_decide as E; case_bool_decide; try congruence; [|lia].
  subst b. unfold load. lia.
Qed.

(** No agent has more ACTIVE claims than at the start, unless it is registered and has
    no more than it may have. *)
Definition within_limits (cs0 cs : list TaskClaim) (reg : AgentRegistry.t) : Prop :=
  forall k, (active_count k cs <= active_count k cs0)%nat \/
    exists ag, (k, ag) ∈ reg /\ Z.of_nat (active_count k cs) <= ad_max_concurrency ag.

(** A dispatch of the pass: an allowed candidate of the frontier without an ACTIVE
    claim, given to a registered and enabled agent. *)
Definition dispatch_ok (env : pass_env) (frontier : list string) (reg : AgentRegistry.t)
    (d : string * string * string) : Prop :=
  d.1.1 ∈ frontier /\ (forall l, pe_allowed env = Some l -> d.1.1 ∈ l) /\
  (forall c, c ∈ pe_active_claims env -> tc_graph_id c = pe_graph_id env -> tc_task_id c = d.1.1 ->
     tc_state c <> ClaimState.ACTIVE) /\
  exists ag, AgentRegistry.get d.1.2 reg = Some ag /\ ad_enabled ag = true.
(** The claim behind a dispatch: ACTIVE and with a lease. *)
Definition held (g : string) (cs : list TaskClaim) (d : string * string * string) : Prop :=
  exists c l, c ∈ cs /\ tc_state c = ClaimState.ACTIVE /\ tc_graph_id c = g /\ tc_task_id c = d.1.1 /\
    tc_agent_id c = d.1.2 /\ tc_lease_id c = Some l.

(** How a pass may change the claims: no agent above its limit, no second ACTIVE
    claim of a task, no ACTIVE claim without a lease, unless it was so before. *)
Record safe_change {S} (cs0 : list TaskClaim) (reg : AgentRegistry.t) (s : Scheduler S) : Prop := {
  sc_registry : _registry s = reg;
  sc_rows : rows_ok (objects (world s)) (claim_rows s);
  sc_agents : within_limits cs0 (claim_list s) reg;
  sc_tasks g t : (task_count g t (claim_list s) <= Nat.max (task_count g t cs0) 1)%nat;
  sc_leased : (unleased_count (claim_list s) <= unleased_count cs0)%nat }.

Section PassProps.
Context {S : Type} `{LeaseProvider S, SchedulerHost S}.
Context (lease_ttl : Z) (exc_str : py_error -> string) (container_text : json -> string) (iso_text : Z -> string)
  (digest : string -> Z -> string -> list AgentMatchScore -> string).
Context (env : pass_env) (frontier : list string) (reg : AgentRegistry.t).
Let cs0 := pe_active_claims env.

(** The loop invariant.  A task with more ACTIVE claims than at the start was
    dispatched in this pass, which its idempotency key shows. *)
Record pass_inv (acc : pass_acc) (s : Scheduler S) : Prop := {
  pi_safe : safe_change cs0 reg s;
  pi_load b : Z.of_nat (active_count b (claim_list s)) <= load (acc_active acc) b;
  pi_fresh g t : (task_count g t cs0 < task_count g t (claim_list s))%nat ->
    g = pe_graph_id env /\ _claim_idempotency_key g t (pe_version env) ∈ _idempotent_keys s;
  pi_dispatched : Forall (dispatch_ok env frontier reg) (acc_dispatched acc);
  pi_held : Forall (held (pe_graph_id env) (claim_list s)) (acc_dispatched acc);
  pi_count : length (acc_dispatched acc) = acc_claims acc;
  pi_bound m : pe_max_claims env = Some m -> Z.of_nat (acc_claims acc) <= Z.max m 0 }.

(** The outcome of a step or of the loop: the invariant, or the limits alone. *)
Definition pass_post (x : result pass_acc * Scheduler S) : Prop :=
  match x with
  | (Ok acc, s') => pass_inv acc s'
  | (Raise _, s') => safe_change cs0 reg s'
  end.

Lemma core_claims (s : Scheduler S) objs rows e :
  core s = (objs, rows, e) -> claim_list s = rows_claims objs rows.
Proof. intros Hc. unfold core in Hc. injection Hc as Ho Hr _. unfold claim_list. by rewrite Ho, Hr. Qed.
Lemma core_fields (s s' : Scheduler S) :
  core s' = core s -> claim_list s' = claim_list s /\ objects (world s') = objects (world s) /\
    claim_rows s' = claim_rows s /\ _registry s' = _registry s /\ _idempotent_keys s' = _idempotent_keys s.
Proof. intros Hc. unfold core in Hc. injection Hc as Ho Hr Hg Hk. unfold claim_list. by rewrite Ho, Hr. Qed.
Lemma core_claim_list (s s' : Scheduler S) : core s' = core s -> claim_list s' = claim_list s.
Proof. intros Hc. apply (core_fields s s' Hc). Qed.
Lemma safe_change_core cs (s s' : Scheduler S) : core s' = core s -> safe_change cs reg s -> safe_change cs reg s'.
Proof.
  intros Hc [H1 H2 H3 H4 H5]. destruct (core_fields s s' Hc) as (E & Eo & Er & Eg & _).
  split; rewrite ?E, ?Eo, ?Er, ?Eg; done.
Qed.
Lemma pass_inv_core acc s s' : core s' = core s -> pass_inv acc s -> pass_inv acc s'.
Proof.
  intros Hc [H1 H2 H3 H4 H5 H6 H7]. destruct (core_fields s s' Hc) as (E & _ & _ & _ & Ek).
  split; rewrite ?E, ?Ek; auto. by apply (safe_change_core _ s).
Qed.
Lemma pass_inv_acc acc acc' s :
  acc_dispatched acc' = acc_dispatched acc -> acc_active acc' = acc_active acc -> acc_claims acc' = acc_claims acc ->
  pass_inv acc s -> pass_inv acc' s.
Proof. intros E1 E2 E3 [H1 H2 H3 H4 H5 H6 H7]. split; rewrite ?E1, ?E2, ?E3; auto. Qed.
Lemma raised_post acc s s' e : core s' = core s -> pass_inv acc s -> pass_post (Raise e, s').
Proof. intros Hc Hi. apply (safe_change_core _ s); [done|apply Hi]. Qed.

(** ** Who can be selected *)

Lemma map_each_results {A B} (f : A -> M (Scheduler S) B) (Q : B -> Prop) l s :
  (forall x s1, x ∈ l -> match f x s1 with (Ok y, _) => Q y | _ => True end) ->
  match map_each f l s with (Ok ys, _) => Forall Q ys | _ => True end.
Proof.
  revert s. induction l as [|x l IH]; intros s Hf; cbn [map_each]; [constructor|].
  pose proof (Hf x s ltac:(set_solver)) as Hx. unfold mbind, M_bind. destruct (f x s) as [[y|e] s1]; [|done].
  specialize (IH s1 ltac:(set_solver)). destruct (map_each f l s1) as [[ys|e] s2]; [|done]. by constructor.
Qed.

(** An eligible result is about a registered, enabled agent with room. *)
Definition can_run (active : dict Z) (e : EligibilityResult) : Prop :=
  eligible e = true -> exists k ag, (k, ag) ∈ reg /\ ad_agent_id ag = er_agent_id e /\
    ad_enabled ag = true /\ load active (ad_agent_id ag) < ad_max_concurrency ag.
Lemma evaluate_can_run g v req active s :
  _registry s = reg ->
  match _evaluate_eligibility_for_task g v req active s with
  | (Ok l, _) => Forall (can_run active) l
  | _ => True
  end.
Proof.
  intros Hreg. unfold _evaluate_eligibility_for_task. rewrite (bind_Ok (gets _) _ s _ s eq_refl). rewrite Hreg.
  apply map_each_results. intros ag s1 Hag. unfold AgentRegistry.list_ in Hag.
  apply list_elem_of_fmap in Hag as ([k ag'] & -> & Hin). cbn [snd].
  unfold mbind, M_bind. destruct (on_host _ s1) as [[proc|e] s2]; [|done]. cbn.
  destruct (AtomicResourceManager.shortages _ _ _) as [short|e]; [|done]. cbn.
  set (r := evaluate_eligibility _ _ _ _ _ _ _ _ _ _ _ _).
  assert (can_run active r) as Hr.
  { intros He. apply eligible_iff in He as (Hen & _ & [_ Hroom] & _). exists k, ag'. done. }
  case_match; [by intros He|exact Hr].
Qed.

Lemma selected_in_pool gid ver task prio act ps pa rk res pool :
  pool <> [] ->
  exists ag, ag ∈ pool /\
    selected_agent_id (match_deterministic_best_fit_v1 gid ver task prio act ps pa rk res digest pool) = ad_agent_id ag.
Proof.
  intros Hne. unfold match_deterministic_best_fit_v1. cbn [selected_agent_id].
  set (l := score_agent _ _ _ _ _ _ <$> pool).
  pose proof (sort_on_perm (rank act pool) l) as Hp. destruct (sort_on (rank act pool) l) as [|x xs].
  { apply Permutation_nil_l in Hp. symmetry in Hp. by apply fmap_nil_inv in Hp. }
  assert (x ∈ l) as (ag & -> & Ha)%list_elem_of_fmap by (rewrite <-Hp; set_solver). by exists ag.
Qed.

(** ** One candidate *)

Lemma registry_unique k1 k2 a1 a2 :
  registry_ok reg -> (k1, a1) ∈ reg -> (k2, a2) ∈ reg -> ad_agent_id a1 = ad_agent_id a2 -> a1 = a2.
Proof.
  intros [Hd Hk] H1 H2 E. pose proof (Hk _ _ H1) as E1. pose proof (Hk _ _ H2) as E2. subst k1 k2. rewrite E in H1.
  pose proof (proj2 (dict_get_Some _ _ _ Hd) H1) as G1. pose proof (proj2 (dict_get_Some _ _ _ Hd) H2) as G2. congruence.
Qed.
Lemma registry_get_id a ag : registry_ok reg -> AgentRegistry.get a reg = Some ag -> (a, ag) ∈ reg /\ ad_agent_id ag = a.
Proof. intros [Hd Hk] Hg. apply dict_get_elem in Hg. split; [done|]. by apply (Hk a). Qed.

(** One more ACTIVE claim with a lease, of a task without one and an agent that had
    room, is a safe change. *)
Lemma one_more_safe acc (s s' : Scheduler S) a ag t :
  registry_ok reg -> pass_inv acc s -> (a, ag) ∈ reg -> load (acc_active acc) a < ad_max_concurrency ag ->
  task_count (pe_graph_id env) t (claim_list s) = 0%nat ->
  _registry s' = reg -> rows_ok (objects (world s')) (claim_rows s') ->
  (forall sel, (live_count sel (claim_list s') <=
                live_count sel (claim_list s) + (if sel (a, pe_graph_id env, t, true) then 1 else 0))%nat) ->
  safe_change cs0 reg s'.
Proof.
  intros Hreg Hi Ha Hroom Hfree Hrg Hrows Hle. destruct (pi_safe _ _ Hi) as [_ _ Hag Htk Hun]. split; [done|done| | |].
  - intros k. specialize (Hle (of_agent k)). unfold of_agent in Hle at 3. cbn in Hle. case_bool_decide as E.
    + subst k. right. exists ag. split; [done|]. pose proof (pi_load _ _ Hi a) as Hl. unfold active_count in *. lia.
    + destruct (Hag k) as [Hk|(ag' & Hin & Hk)]; [left|right; exists ag'; split; [done|]]; unfold active_count in *; lia.
  - intros g t'. specialize (Hle (of_task g t')). specialize (Htk g t'). unfold task_count in *.
    unfold of_task in Hle at 3. cbn in Hle. case_bool_decide as E; [|lia]. injection E as <- <-. lia.
  - specialize (Hle (fun k => negb k.2)). unfold unleased_count in *. cbn in Hle. lia.
Qed.

(** The claims after one more row, and their count. *)
Lemma one_more_claims (s s' : Scheduler S) objs rows c e e' :
  core s = (objs, rows, e) -> rows_ok objs rows -> core s' = (objs ++ [c], rows ++ [length objs], e') ->
  claim_list s' = claim_list s ++ [c] /\ rows_ok (objects (world s')) (claim_rows s') /\
  forall sel, live_count sel (claim_list s') = (live_count sel (claim_list s) + counts sel c)%nat.
Proof.
  intros Hc Hok Hc'. assert (claim_list s' = claim_list s ++ [c]) as E.
  { rewrite (core_claims _ _ _ _ Hc), (core_claims _ _ _ _ Hc'). apply rows_claims_snoc, Hok. }
  split_and!; [done| |intros sel; by rewrite E, live_count_snoc].
  unfold core in Hc'. injection Hc' as -> -> _. by apply rows_ok_snoc.
Qed.
Lemma held_mono g cs c d : held g cs d -> held g (cs ++ [c]) d.
Proof. intros (c' & l & Hin & Hrest). exists c', l. split; [set_solver|done]. Qed.

(** A claim that is not ACTIVE adds nothing to the load. *)
Lemma refused_inv acc s s' objs rows c e :
  pass_inv acc s -> core s = (objs, rows, e) -> rows_ok objs rows ->
  core s' = (objs ++ [c], rows ++ [length objs], e) -> tc_state c <> ClaimState.ACTIVE -> pass_inv acc s'.
Proof.
  intros [[S1 S2 S3 S4 S5] H2 H3 H4 H5 H6 H7] Hc Hok Hc' Hst.
  destruct (one_more_claims s s' objs rows c e e Hc Hok Hc') as (E & Hrows & Hcnt).
  assert (forall sel, live_count sel (claim_list s') = live_count sel (claim_list s)) as Hsame.
  { intros sel. rewrite Hcnt, counts_inactive by done. lia. }
  assert (_registry s' = _registry s /\ _idempotent_keys s' = _idempotent_keys s) as [Eg Ek].
  { unfold core in Hc, Hc'. split; congruence. }
  split; [split| | |done| |done|done].
  - congruence.
  - done.
  - intros k. unfold active_count. rewrite Hsame. apply S3.
  - intros g t. unfold task_count. rewrite Hsame. apply S4.
  - unfold unleased_count. rewrite Hsame. apply S5.
  - intros b. unfold active_count. rewrite Hsame. apply H2.
  - intros g t. unfold task_count at 2. rewrite Hsame, Ek. apply H3.
  - rewrite E. eapply Forall_impl; [exact H5|]. intros d. apply held_mono.
Qed.

(** A dispatch adds one claim and one unit of load. *)
Lemma dispatched_inv acc s s' objs rows c task a ag cid sk loc keys :
  registry_ok reg -> pass_inv acc s -> core s = (objs, rows, (reg, keys)) -> rows_ok objs rows ->
  core s' = (objs ++ [c], rows ++ [length objs],
             (reg, {[ _claim_idempotency_key (pe_graph_id env) task (pe_version env) ]} ∪ keys)) ->
  tc_state c = ClaimState.ACTIVE -> ckey c = (a, pe_graph_id env, task, true) ->
  (a, ag) ∈ reg -> load (acc_active acc) a < ad_max_concurrency ag ->
  task_count (pe_graph_id env) task (claim_list s) = 0%nat ->
  dispatch_ok env frontier reg (task, a, cid) ->
  (forall m, pe_max_claims env = Some m -> Z.of_nat (acc_claims acc) < m) ->
  pass_inv (mkAcc (acc_dispatched acc ++ [(task, a, cid)]) sk loc
              (dict_set a (default 0 (dict_get a (acc_active acc)) + 1) (acc_active acc)) (acc_claims acc + 1)%nat) s'.
Proof.
  intros Hreg Hi Hc Hok Hc' Hst Hkey Hag Hroom Hfree Hd Hmax.
  destruct (one_more_claims s s' objs rows c _ _ Hc Hok Hc') as (E & Hrows & Hcnt).
  assert (forall sel, live_count sel (claim_list s') =
            (live_count sel (claim_list s) + (if sel (a, pe_graph_id env, task, true) then 1 else 0))%nat) as Hcnt'.
  { intros sel. by rewrite Hcnt, counts_active, Hkey. }
  assert (_registry s' = reg /\ _idempotent_keys s' =
            {[ _claim_idempotency_key (pe_graph_id env) task (pe_version env) ]} ∪ _idempotent_keys s) as [Eg Ek].
  { unfold core in Hc, Hc'. split; congruence. }
  split; cbn [acc_dispatched acc_active acc_claims].
  - apply (one_more_safe acc s s' a ag task); try done. intros sel. by rewrite Hcnt'.
  - intros b. rewrite load_set. unfold active_count. rewrite Hcnt'. pose proof (pi_load _ _ Hi b) as Hb.
    unfold load, active_count in *. unfold of_agent at 2. cbn [fst]. case_bool_decide as Ea; case_decide; try congruence; [|lia].
    subst b. lia.
  - intros g t. unfold task_count at 2. rewrite Hcnt', Ek. unfold of_task at 2. cbn [fst snd].
    case_bool_decide as Et; [injection Et as <- <-; set_solver|]. intros Hlt.
    destruct (pi_fresh _ _ Hi g t) as [-> Hin]; [unfold task_count at 2; lia|]. set_solver.
  - apply Forall_app. split; [apply Hi|by constructor].
  - rewrite E. apply Forall_app. split.
    + eapply Forall_impl; [apply (pi_held _ _ Hi)|]. intros d. apply held_mono.
    + constructor; [|constructor]. unfold ckey in Hkey. injection Hkey as K1 K2 K3 K4%bool_decide_eq_true.
      destruct (tc_lease_id c) as [l|] eqn:El; [|done]. exists c, l. split_and!; [set_solver|done..].
  - rewrite length_app. cbn. pose proof (pi_count _ _ Hi). lia.
  - intros m Hm. specialize (Hmax m Hm). lia.
Qed.

(** A candidate that may be dispatched to the agents of a pool. *)
Record candidate_ok (acc : pass_acc) (s : Scheduler S) (task : string) (pool : list AgentDescriptor) : Prop := {
  ca_pool ag : ag ∈ pool -> (ad_agent_id ag, ag) ∈ reg /\ ad_enabled ag = true /\
    load (acc_active acc) (ad_agent_id ag) < ad_max_concurrency ag;
  ca_frontier : task ∈ frontier;
  ca_allowed l : pe_allowed env = Some l -> task ∈ l;
  ca_free c : c ∈ pe_active_claims env -> tc_graph_id c = pe_graph_id env -> tc_task_id c = task ->
    tc_state c <> ClaimState.ACTIVE;
  ca_new : _claim_idempotency_key (pe_graph_id env) task (pe_version env) ∉ _idempotent_keys s;
  ca_max m : pe_max_claims env = Some m -> Z.of_nat (acc_claims acc) < m }.

(** Such a task has no ACTIVE claim. *)
Lemma candidate_free acc s task pool :
  pass_inv acc s -> candidate_ok acc s task pool -> task_count (pe_graph_id env) task (claim_list s) = 0%nat.
Proof.
  intros Hi Hca. assert (task_count (pe_graph_id env) task cs0 = 0%nat) as H0c.
  { unfold task_count, live_count. rewrite (proj2 (filter_nil _ _)); [done|]. intros c Hc [Hst Hk].
    apply bool_decide_eq_true in Hk. injection Hk as Hg Ht. by apply (ca_free _ _ _ _ Hca c). }
  destruct (decide (task_count (pe_graph_id env) task (claim_list s) = 0%nat)) as [|Hne]; [done|].
  destruct (pi_fresh _ _ Hi (pe_graph_id env) task ltac:(lia)) as [_ Hin]. by destruct (ca_new _ _ _ _ Hca).
Qed.

Lemma match_and_acquire_spec req ep pool acc s :
  registry_ok reg -> pass_inv acc s -> pool <> [] -> candidate_ok acc s (tr_task_id req) pool ->
  pass_post (match_and_acquire lease_ttl exc_str digest env req ep
    (_claim_idempotency_key (pe_graph_id env) (tr_task_id req) (pe_version env)) pool acc s).
Proof.
  intros Hreg Hi Hne Hca. pose proof (candidate_free _ _ _ _ Hi Hca) as Hfree.
  destruct Hca as [Hpool Hfr Hall Hno _ Hmax]. unfold match_and_acquire. cbv zeta.
  set (dec := match_deterministic_best_fit_v1 _ _ _ _ _ _ _ _ _ _ _).
  destruct (selected_in_pool (pe_graph_id env) (pe_version env) (tr_task_id req) (tr_priority req) (acc_active acc)
    (tr_preferred_specializations req) (tr_preferred_agent req) (default [] (dict_get (tr_task_id req) (pe_reads env)))
    (Some (pe_resident env)) pool Hne) as (ag & Hag & Hsel). fold dec in Hsel.
  destruct (Hpool ag Hag) as (Hin & Hen & Hroom). rewrite <-Hsel in Hin, Hroom.
  set (acc1 := note_locality _ _ acc). assert (pass_inv acc1 s) as Hi1 by (by apply (pass_inv_acc acc)).
  rewrite (bind_Ok (modify _) _ s tt _ eq_refl). set (s1 := set_match_log _ s). assert (core s1 = core s) as E1 by done.
  run_try; [solve_within|intros [] s2 E2; cbv beta|].
  2: { intros e s2 E2. cbv beta. rewrite bind_assoc. rewrite (bind_Ok (modify _) _ s2 tt _ eq_refl).
       apply (raised_post acc s); [exact (eq_trans E2 E1)|done]. }
  assert (pass_inv acc1 s2) as Hi2 by (apply (pass_inv_core acc1 s); [congruence|done]).
  assert (core s2 = (objects (world s2), claim_rows s2, (reg, _idempotent_keys s2))) as Hc.
  { unfold core. by rewrite (sc_registry _ _ _ (pi_safe _ _ Hi2)). }
  pose proof (sc_rows _ _ _ (pi_safe _ _ Hi2)) as Hok.
  rewrite <-(core_claim_list s s2) in Hfree by congruence. unfold mbind at 1, M_bind at 1. set (cid := new_claim_id _ _ _ _).
  pose proof (acquire_claim_spec lease_ttl exc_str (pe_graph_id env) (tr_task_id req) (pe_version env) cid
    (selected_agent_id dec) (prior_claims env (tr_task_id req)) ep (tr_resources req) None s2 _ _ _ Hc Hok
    (fun ag' E => proj2 (registry_get_id _ _ Hreg E))) as Hacq.
  destruct (_acquire_claim _ _ _ _ _ _ _ _ _ _ _ s2) as [[[]|e] s3].
  - destruct Hacq as (c & Hc3 & Hst & Hkey). cbn [negb]. cbv beta iota.
    rewrite (bind_Ok (gets _) _ s3 _ s3 eq_refl). cbv beta zeta.
    rewrite (bind_Ok (modify _) _ s3 tt _ eq_refl). set (s4 := set_keys _ s3).
    set (d := match _get_claim_locked _ _ _ with Some _ => _ | None => _ end).
    assert (dispatch_ok env frontier reg (tr_task_id req, selected_agent_id dec, d)) as Hd.
    { split_and!; try done. exists ag. split; [|done]. by apply dict_get_Some; [apply Hreg|]. }
    assert (core s4 = (objects (world s2) ++ [c], claim_rows s2 ++ [length (objects (world s2))],
      (reg, {[ _claim_idempotency_key (pe_graph_id env) (tr_task_id req) (pe_version env) ]} ∪ _idempotent_keys s2))) as Hc4.
    { unfold core in Hc3 |- *. injection Hc3 as Ho Hr Hg Hk. cbn. by rewrite Ho, Hr, Hg, Hk. }
    pose proof (fun (s5 : Scheduler S) (E5 : core s5 = core s4) => dispatched_inv acc1 s2 s5 _ _ c (tr_task_id req)
      (selected_agent_id dec) ag d (acc_skipped acc1) (acc_locality acc1) _ Hreg Hi2 Hc Hok
      (eq_trans E5 Hc4) Hst Hkey Hin Hroom Hfree Hd Hmax) as Hinv.
    run_keep; [apply _persist_state_keeps|intros [] s5 E5; by apply Hinv|].
    intros e s5 E5. apply (pi_safe _ _ (Hinv s5 E5)).
  - destruct Hacq as [Hc3|(c & Hc3 & Hst)]; cbn; apply (pass_inv_acc acc1); try done.
    + apply (pass_inv_core acc1 s2); [congruence|done].
    + by eapply (refused_inv acc1 s2 s3).
  - destruct Hacq as (objs' & rows' & Hc3 & Hok' & Hle). cbn. assert (_registry s3 = reg /\ rows_ok (objects (world s3)) (claim_rows s3)) as [Hrg3 Hr3].
    { unfold core in Hc3. injection Hc3 as -> -> Hg _. done. }
    apply (one_more_safe acc1 s2 s3 (selected_agent_id dec) ag (tr_task_id req)); try done.
    intros sel. rewrite (core_claims _ _ _ _ Hc3), (core_claims _ _ _ _ Hc). apply Hle.
Qed.

Lemma skip_post task why acc s s' : core s' = core s -> pass_inv acc s -> pass_post (Ok (skip task why acc), s').
Proof. intros Hc Hi. cbn. apply (pass_inv_acc acc); [done..|]. by apply (pass_inv_core acc s). Qed.

(** The pool of a candidate holds registered agents that can run it. *)
Lemma pool_ok acc results :
  registry_ok reg -> Forall (can_run (acc_active acc)) results ->
  forall ag, ag ∈ omap (fun e => AgentRegistry.get (er_agent_id e) reg) (filter (fun e => eligible e = true) results) ->
  (ad_agent_id ag, ag) ∈ reg /\ ad_enabled ag = true /\ load (acc_active acc) (ad_agent_id ag) < ad_max_concurrency ag.
Proof.
  intros Hreg Hall ag (e & [He Hin]%list_elem_of_filter & Hg)%list_elem_of_omap.
  rewrite Forall_forall in Hall. destruct (Hall e Hin He) as (k & ag' & Hk & Hid & Hen & Hroom).
  destruct (registry_get_id _ _ Hreg Hg) as [Hin' Hid']. assert (ag' = ag) as ->.
  { apply (registry_unique k (er_agent_id e)); [done..|congruence]. }
  rewrite Hid'. rewrite Hid' in Hroom. done.
Qed.

Lemma active_claim_of_None task :
  active_claim_of env task = None ->
  forall c, c ∈ pe_active_claims env -> tc_graph_id c = pe_graph_id env -> tc_task_id c = task ->
    tc_state c <> ClaimState.ACTIVE.
Proof.
  unfold active_claim_of. rewrite last_None, filter_nil. intros Hn c Hc Hg Ht Hst. by apply (Hn c Hc).
Qed.

Lemma decode_task_id task payload req :
  decode_task_requirements container_text iso_text task payload = Ok req -> tr_task_id req = task.
Proof.
  unfold decode_task_requirements, mbind, result_bind. intros E. repeat (case_match; [|done]). by injection E as <-.
Qed.

Lemma pass_step_spec cand acc s :
  registry_ok reg -> VpgModels.tc_task_id cand ∈ frontier -> pass_inv acc s ->
  pass_post (pass_step lease_ttl exc_str container_text iso_text digest env cand acc s).
Proof.
  intros Hreg Hfr Hi. set (P := pass_post). unfold pass_step. cbv zeta. set (task := VpgModels.tc_task_id cand) in *.
  assert (forall why s', core s' = core s -> P (Ok (skip task why acc), s')) as Hskip by (intros; by apply (skip_post _ _ _ s)).
  assert (forall e s', core s' = core s -> P (Raise e, s')) as HR by (intros; by apply (raised_post acc s)).
  destruct (match pe_allowed env with Some _ => _ | None => _ end) eqn:Hall; [by apply Hskip|].
  destruct (active_claim_of env task) as [c|] eqn:Hno; [by apply Hskip|].
  destruct (match pe_max_claims env with Some _ => _ | None => _ end) eqn:Hmax; [by apply Hskip|].
  run_keep; [apply on_host_keeps|intros payload s1 E1; cbv beta|by auto].
  destruct payload as [payload|]; [|by apply Hskip].
  destruct (decode_task_requirements _ _ task payload) as [req|e] eqn:Hdec; [|by apply HR].
  apply decode_task_id in Hdec. rewrite (bind_Ok (of_result (Ok req)) _ s1 req s1 eq_refl).
  rewrite (bind_Ok (gets _) _ s1 _ s1 eq_refl).
  destruct (match tr_max_attempts req with Some _ => _ | None => _ end); [by apply Hskip|].
  rewrite (bind_Ok (gets _) _ s1 _ s1 eq_refl). case_bool_decide as Hkey; [by apply Hskip|].
  assert (forall s' : Scheduler S, core s' = core s -> _registry s' = reg) as Hrg.
  { intros s' E. destruct (core_fields s s' E) as (_ & _ & _ & -> & _). apply Hi. }
  pose proof (evaluate_can_run (pe_graph_id env) (pe_version env) req (acc_active acc) s1 (Hrg _ E1)) as Hcan.
  pose proof (evaluate_keeps (pe_graph_id env) (pe_version env) req (acc_active acc) s1) as E2.
  unfold keeps in E2. unfold mbind at 1, M_bind at 1.
  destruct (_evaluate_eligibility_for_task _ _ _ _ s1) as [[results|e] s2]; cbn [snd] in E2; [|apply HR; congruence].
  pose proof (pool_ok acc results Hreg Hcan) as Hpool.
  destruct (filter _ results) as [|e0 es].
  { run_keep; [apply record_event_keeps|intros ev s3 E3; cbv beta|intros; apply HR; congruence].
    run_keep; [apply _record_event_keeps|intros _ s4 E4; apply Hskip; congruence|intros; apply HR; congruence]. }
  rewrite (bind_Ok (gets _) _ s2 _ s2 eq_refl), (Hrg s2) by congruence.
  destruct (omap _ (e0 :: es)) as [|ag0 pool] eqn:Hom; [apply Hskip; congruence|].
  rewrite <-Hdec at 1. apply match_and_acquire_spec; [done| |done|].
  - apply (pass_inv_core acc s); [congruence|done].
  - rewrite Hdec. split; [done|done| |by apply active_claim_of_None| |].
    + intros l El. rewrite El in Hall. by apply bool_decide_eq_false, dec_stable in Hall.
    + by destruct (core_fields s1 s2) as (_ & _ & _ & _ & ->).
    + intros m Em. rewrite Em in Hmax. apply Z.leb_gt in Hmax. done.
Qed.

Lemma pass_loop_spec cands acc s :
  registry_ok reg -> (forall c, c ∈ cands -> VpgModels.tc_task_id c ∈ frontier) -> pass_inv acc s ->
  pass_post (pass_loop lease_ttl exc_str container_text iso_text digest env cands acc s).
Proof.
  intros Hreg. revert acc s. induction cands as [|c cands IH]; intros acc s Hfr Hi; cbn [pass_loop]; [done|].
  pose proof (pass_step_spec c acc s Hreg ltac:(apply Hfr; set_solver) Hi) as Hst. unfold mbind, M_bind.
  destruct (pass_step _ _ _ _ _ env c acc s) as [[acc'|e] s']; [|done]. apply IH; [set_solver|done].
Qed.
End PassProps.

(** ** A whole pass *)

(** What a returning pass dispatched: of the frontier the graph gave when the pass
    asked, with the authorities at [h], allowed by the
    policy, without an ACTIVE claim before, to a registered and enabled agent, and
    backed by an ACTIVE claim with a lease. *)
Definition dispatch_sound {S} `{SchedulerHost S} (g : string) (allowed : option (list string)) (cs0 : list TaskClaim)
    (reg : AgentRegistry.t) (h : S) (s' : Scheduler S) (d : string * string * string) : Prop :=
  let '(t, a, cid) := d in
  (exists h' frontier, vpg_ready_frontier g h = (Ok frontier, h') /\ t ∈ VpgModels.tc_task_id <$> frontier) /\
  (forall l, allowed = Some l -> t ∈ clean_ids l) /\
  (forall c, c ∈ cs0 -> tc_graph_id c = g -> tc_task_id c = t -> tc_state c <> ClaimState.ACTIVE) /\
  (exists ag, AgentRegistry.get a reg = Some ag /\ ad_enabled ag = true) /\
  held g (claim_list s') d.

Section WholePass.
Context {S : Type} `{LeaseProvider S, SchedulerHost S}.
Context (ttl : Z) (exc : py_error -> string) (ctext : json -> string) (iso : Z -> string)
  (digest : string -> Z -> string -> list AgentMatchScore -> string).

Lemma safe_change_refl (s : Scheduler S) :
  rows_ok (objects (world s)) (claim_rows s) -> safe_change (claim_list s) (_registry s) s.
Proof. intros Hrows. split; [done|done|intros k; by left|lia|lia]. Qed.

(** The authorities when a pass that starts in [s] asks for the frontier. *)
Definition asked (s : Scheduler S) : S := provider (world (_sync_registry_resource_capacities s).2).
(** The pass is a safe change whether it returns or raises; what it dispatched is
    sound. *)
Lemma pass_safe g max allowed expected order reads (s : Scheduler S) :
  registry_ok (_registry s) -> rows_ok (objects (world s)) (claim_rows s) ->
  let '(out, s') := _schedule_once_locked ttl exc ctext iso digest g max allowed expected order reads s in
  safe_change (claim_list s) (_registry s) s' /\
  forall res, out = Ok res ->
    (forall m, max = Some m -> Z.of_nat (length (dispatched res)) <= Z.max m 0) /\
    Forall (dispatch_sound g allowed (claim_list s) (_registry s) (asked s) s') (dispatched res).
Proof.
  intros Hreg Hrows. pattern (_schedule_once_locked ttl exc ctext iso digest g max allowed expected order reads s).
  match goal with |- ?Q _ => set (P := Q) end.
  pose proof (safe_change_refl s Hrows) as Hsafe0.
  assert (forall e s', core s' = core s -> P (Raise e, s')) as HR.
  { intros e s' E. split; [by apply (safe_change_core _ _ s)|done]. }
  assert (forall r s', core s' = core s -> dispatched r = [] -> P (Ok r, s')) as Hempty.
  { intros r s' E Hd. split; [by apply (safe_change_core _ _ s)|]. intros res [= <-].
    rewrite Hd. split; [cbn; lia|constructor]. }
  unfold _schedule_once_locked. pose proof (sync_keeps s) as E1. unfold keeps in E1. unfold mbind at 1, M_bind at 1.
  destruct (_sync_registry_resource_capacities s) as [[[]|e] s1] eqn:Hsync; cbn [snd] in E1; [|by apply HR].
  assert (asked s = provider (world s1)) as Hasked by (unfold asked; by rewrite Hsync).
  unfold mbind at 1, M_bind at 1, try_except at 1. pose proof (on_host_keeps (vpg_ready_frontier g) s1) as E2.
  unfold keeps in E2. destruct (on_host (vpg_ready_frontier g) s1) as [[fr|e] s2] eqn:Hfr; cbn [snd] in E2.
  2: { cbn. by apply Hempty; [congruence|]. }
  assert (exists h', vpg_ready_frontier g (provider (world s1)) = (Ok fr, h')) as [h' Hread].
  { unfold on_host, on_world in Hfr. destruct (vpg_ready_frontier g (provider (world s1))) as [r h']. exists h'. congruence. }
  case_bool_decide; [by apply Hempty; [congruence|]|]. cbv zeta.
  run_keep; [apply resident_keeps|intros resident s3 E3; cbv beta|intros; apply HR; congruence].
  run_keep; [apply on_host_keeps|intros cur s4 E4; cbv beta|intros; apply HR; congruence].
  destruct (match expected with Some _ => _ | None => _ end); [by apply Hempty; [congruence|]|].
  rewrite (bind_Ok (gets _) _ s4 _ s4 eq_refl). cbv beta zeta.
  assert (core s4 = core s) as E by congruence. rewrite (core_claim_list s s4 E).
  set (env := mkPassEnv _ _ _ _ _ _ _).
  match goal with |- context [pass_loop _ _ _ _ _ env ?c _] => set (cands := c) end.
  assert (forall c, c ∈ cands -> VpgModels.tc_task_id c ∈ VpgModels.tc_task_id <$> fr) as Hcands.
  { intros c Hc. apply list_elem_of_fmap_2. unfold cands, apply_order in Hc. case_bool_decide; [done|]. by apply elem_of_sort_on in Hc. }
  assert (pass_inv env (VpgModels.tc_task_id <$> fr) (_registry s)
            (mkAcc [] [] [] (active_claim_count_by_agent (claim_list s)) 0) s4) as Hinv.
  { split; cbn [acc_dispatched acc_active acc_claims pe_active_claims env]; rewrite ?(core_claim_list s s4 E).
    - by apply (safe_change_core _ _ s).
    - intros b. by rewrite active_claim_count_spec.
    - intros g' t'. lia.
    - constructor.
    - constructor.
    - done.
    - lia. }
  pose proof (pass_loop_spec ttl exc ctext iso digest env _ _ cands _ s4 Hreg Hcands Hinv) as Hloop.
  unfold mbind at 1, M_bind at 1. destruct (pass_loop _ _ _ _ _ env cands _ s4) as [[acc|e] s5].
  2: { by split. }
  destruct Hloop as [Hsafe _ _ Hdisp Hheld Hcount Hbound]. unfold P. cbn. split; [done|]. intros res [= <-]. cbn.
  split; [intros m Em; rewrite Hcount; by apply Hbound|]. apply Forall_forall. intros [[t a] cid] Hin.
  rewrite Forall_forall in Hdisp, Hheld. destruct (Hdisp _ Hin) as (D1 & D2 & D3 & D4). split_and!.
  - exists h', fr. by rewrite Hasked.
  - intros l El. apply D2. cbn. by rewrite El.
  - exact D3.
  - exact D4.
  - by apply Hheld.
Qed.
End WholePass.

(** ** Properties *)

(** C32: a scheduling pass is safe.  Whether it returns or raises, and whatever the
    kernel, the graph and the store answer on the way, it brings no registered agent
    above its concurrency (an agent that has more ACTIVE claims already, because its
    concurrency was lowered, ends with no more than it had), gives no task a second
    ACTIVE claim, and adds no ACTIVE claim without a lease.  When it returns, it made at
    most [max_claims] dispatches, and each is of a task in the frontier the graph gave
    this pass, allowed by the policy and without an ACTIVE claim before, to a registered
    and enabled agent, and is backed by an ACTIVE claim with a lease. *)
Theorem schedule_pass_safe {S} `{LeaseProvider S, SchedulerHost S} ttl exc ctext iso digest g max allowed expected
    order reads (s : Scheduler S) :
  registry_ok (_registry s) -> rows_ok (objects (world s)) (claim_rows s) ->
  let '(out, s') := _schedule_once_locked ttl exc ctext iso digest g max allowed expected order reads s in
  (forall k ag, (k, ag) ∈ _registry s ->
     Z.of_nat (active_count k (claim_list s')) <= Z.max (Z.of_nat (active_count k (claim_list s))) (ad_max_concurrency ag)) /\
  (forall g' t, (task_count g' t (claim_list s') <= Nat.max (task_count g' t (claim_list s)) 1)%nat) /\
  (unleased_count (claim_list s') <= unleased_count (claim_list s))%nat /\
  forall res, out = Ok res ->
    (forall m, max = Some m -> Z.of_nat (length (dispatched res)) <= Z.max m 0) /\
    Forall (dispatch_sound g allowed (claim_list s) (_registry s) (asked s) s') (dispatched res).
Proof.
  intros Hreg Hrows. pose proof (pass_safe ttl exc ctext iso digest g max allowed expected order reads s Hreg Hrows) as Hp.
  destruct (_schedule_once_locked _ _ _ _ _ _ _ _ _ _ _ s) as [out s']. destruct Hp as [[_ _ H1 H2 H3] H4].
  split_and!; [|done..]. intros k ag Hin. destruct (H1 k) as [Hk|(ag' & Hin' & Hk)]; [lia|].
  assert (ag' = ag) as ->; [|lia]. apply (registry_unique (_registry s) k k); [done..|]. destruct Hreg as [_ Hid].
  by rewrite (Hid _ _ Hin), (Hid _ _ Hin').
Qed.

(** Two ready tasks and one agent of concurrency 1 over the modelled kernel: one
    task is dispatched, the other waits. *)
Definition ready_candidate (t : string) : TaskDispatchCandidate :=
  mkCandidate "g" 1 t (mkReadinessProof "g" 1 t true true true false) [].
Definition demo_host : SchedulerHost KState := {|
  vpg_current_graph_version _ := mret 1;
  vpg_ready_frontier _ := mret [ready_candidate "t1"; ready_candidate "t2"];
  vpg_task_node_payload _ _ := mret (Some []);
  vpg_task_validity _ _ := mret (Some "unverified");
  vpg_task_evidence_bindings := None;
  host_process_get _ := mret (Some (Some "ready"));
  host_capabilities _ := None;
  store_append_events _ _ := mret tt;
  store_persist_state _ := mret tt;
  host_uuid := @fresh_uuid pretty_uuid |}.
Definition demo_agent : AgentDescriptor := mkAgent "a1" "p1" [] ["*"] [] 1 1 empty_vector true [].
Definition demo_scheduler : Scheduler KState :=
  mkScheduler (fresh_world (init_storage 0) 0) [("a1", demo_agent)] (AtomicResourceManager.__init__ ∅) true None
    [] [] [] [] [] [] [] [] ∅.
Definition demo_pass : result ScheduleResult * Scheduler KState :=
  @_schedule_once_locked KState (@KernelLeaseProvider pretty_uuid) demo_host DEFAULT_CLAIM_TTL (fun _ => "error")
    (fun _ => "text") pretty (fun _ _ _ _ => "digest") "g" None None None [] [] demo_scheduler.

Lemma schedule_pass_safe_witness :
  dispatched <$> (match demo_pass.1 with Ok r => Some r | Raise _ => None end) = Some [("t1", "a1", "claim-g-t1-1-0")] /\
  Z.of_nat (active_count "a1" (claim_list demo_pass.2)) <= 1.
Proof.
  split; [vm_compute; reflexivity|].
  pose proof (@schedule_pass_safe KState (@KernelLeaseProvider pretty_uuid) demo_host DEFAULT_CLAIM_TTL
    (fun _ => "error") (fun _ => "text") pretty (fun _ _ _ _ => "digest") "g" None None None [] [] demo_scheduler) as Hsafe.
  fold demo_pass in Hsafe. destruct demo_pass as [out s']. destruct Hsafe as [Hagents _].
  - split; [apply NoDup_singleton|]. intros k ag Hin. apply list_elem_of_singleton in Hin. by simplify_eq.
  - split; constructor.
  - apply (Hagents "a1" demo_agent). apply list_elem_of_singleton. reflexivity.
Defined.

(** The ranks are positions in the order as given, while an unranked task gets the
    number of ranked ones: after a blank or repeated entry, unranked tasks come
    before ranked ones. *)
Lemma unranked_before_ranked :
  VpgModels.tc_task_id <$> apply_order (order_ranks 0 [] [" "; " "; "a"]) [ready_candidate "b"; ready_candidate "a"] =
  ["b"; "a"].
Proof. vm_compute. reflexivity. Qed.

(** Claim ids do not separate graph and task. *)
Lemma claim_ids_collide : new_claim_id "a-b" "c" 1 0 = new_claim_id "a" "b-c" 1 0.
Proof. reflexivity. Qed.
