(* ===== verification/Lifecycle.v ===== *)
(** * The life of a claim after its dispatch
    (runtimes/multi_agent/scheduler.py: the methods between a dispatch and the end
    of a claim)

    Start, operational success, sealing, renewal, quarantine, completion and
    release.  A method is given a claim by its object (an address) or by its id, as
    in the code; the attempt of a claim is the latest one that names it.  The VPG
    decides what is verified, and a verified task completes a claim only with
    evidence bound to its attempt. *)

From S2P Require Import Prelude PyString VpgModels Resources Claims Agents Matching Attempts Scheduler.
Open Scope Z_scope.

(** [claim: TaskClaim | str] *)
Inductive claim_arg : Type :=
| ClaimObject (r : nat)
| ClaimName (claim_id : string).

Definition str_or_null (o : option string) : json := match o with Some s => JStr s | None => JNull end.
Definition int_or_null (o : option Z) : json := match o with Some z => JInt z | None => JNull end.
(** [binding.get(k)] *)
Definition bget (k : string) (b : jobj) : json := default JNull (jget k b).

Section Lifecycle.
Context {S : Type} `{LeaseProvider S, SchedulerHost S}.
Context (lease_ttl : Z) (exc_str : py_error -> string) (fingerprint : AgentSnapshot -> string)
  (iso_text progress_text : Z -> string).

(** ** Lookups *)

(** [next((c for c in self._claims if c.claim_id == claim_id), None)] *)
Definition find_claim (claim_id : string) (s : Scheduler S) : option (nat * TaskClaim) :=
  List.find (fun rc => String.eqb (tc_claim_id rc.2) claim_id) (claim_refs s).
Definition claim_of_arg (arg : claim_arg) (s : Scheduler S) : option (nat * TaskClaim) :=
  match arg with
  | ClaimObject r => (fun c => (r, c)) <$> objects (world s) !! r
  | ClaimName claim_id => find_claim claim_id s
  end.
(** [latest_attempt_for_claim], with the address of the attempt *)
Definition get_attempt_for_claim (claim_id : string) (s : Scheduler S) : option (nat * Attempt) :=
  last (sort_on (fun ra => at_started_at ra.2) (filter (fun ra => at_claim_id ra.2 = claim_id) (attempt_refs s))).
(** The ACTIVE claim and its attempt, which most methods ask for. *)
Definition live_attempt (arg : claim_arg) (s : Scheduler S) : option (nat * TaskClaim * (nat * Attempt)) :=
  match claim_of_arg arg s with
  | Some (r, claim) =>
      if bool_decide (tc_state claim = ClaimState.ACTIVE)
      then (fun ra => (r, claim, ra)) <$> get_attempt_for_claim (tc_claim_id claim) s
      else None
  | None => None
  end.

(** An event about a claim *)
Definition claim_event (ty : SchedulerEventType.t) (claim : TaskClaim) (attempt_id : string) (graph_version : Z)
    (claim_state reason : string) (metadata : jobj) : SM unit :=
  e ← record_event ty (tc_graph_id claim) (tc_task_id claim) (tc_agent_id claim) (tc_claim_id claim) attempt_id
        graph_version "" claim_state reason metadata;
  _record_event e.

Definition _live_graph_version (graph_id : string) : SM (option Z) :=
  try_except (v ← on_host (vpg_current_graph_version graph_id); mret (Some v)) (fun _ => mret None).

(** ** Execution *)

Definition mark_execution_started (arg : claim_arg) : SM (option nat) :=
  found ← gets (live_attempt arg);
  match found with
  | None => mret None
  | Some (_, claim, (ar, attempt)) =>
      if bool_decide (at_state attempt = AttemptState.DISPATCHED) then
        on_attempt ar AttemptManager.mark_running ;;
        claim_event SchedulerEventType.EXECUTION_STARTED claim (at_attempt_id attempt) (tc_graph_version claim) "" "" [] ;;
        mret (Some ar)
      else if bool_decide (at_state attempt = AttemptState.RUNNING) then mret (Some ar)
      else mret None
  end.

Definition mark_execution_operationally_succeeded (arg : claim_arg) : SM (option nat) :=
  found ← gets (live_attempt arg);
  match found with
  | None => mret None
  | Some (_, claim, (ar, attempt)) =>
      if bool_decide (at_state attempt ∈ [AttemptState.DISPATCHED; AttemptState.RUNNING]) then
        t ← now;
        on_attempt ar (AttemptManager.mark_operationally_succeeded t) ;;
        claim_event SchedulerEventType.EXECUTION_OPERATIONALLY_SUCCEEDED claim (at_attempt_id attempt)
          (tc_graph_version claim) "" "" [] ;;
        mret (Some ar)
      else mret None
  end.

(** ** Sealing *)

Definition bind_attempt_provenance (claim_id digest : string) : SM bool :=
  found ← gets (live_attempt (ClaimName claim_id));
  match found with
  | None => mret false
  | Some (_, _, (ar, _)) =>
      bound ← on_attempt ar (AttemptManager.bind_provenance_digest digest);
      if negb bound then mret false else _persist_state ;; mret true
  end.
Definition bind_attempt_context_snapshot (claim_id snapshot_id manifest_id manifest_hash working_set_hash
    materialized_hash : string) : SM bool :=
  found ← gets (live_attempt (ClaimName claim_id));
  match found with
  | None => mret false
  | Some (_, _, (ar, _)) =>
      bound ← on_attempt ar (AttemptManager.bind_context_snapshot snapshot_id manifest_id manifest_hash
                               working_set_hash materialized_hash);
      if negb bound then mret false else _persist_state ;; mret true
  end.
(** The index of a graph that was not read yet is left to the lazy build. *)
Definition _index_agent_residency (graph_id : string) (snapshot : AgentSnapshot) : SM (S:=S) unit :=
  modify (fun s => match dict_get graph_id (_resident_index s) with
                   | None => s
                   | Some index => set_resident (dict_set graph_id (add_residency snapshot index) (_resident_index s)) s
                   end).
Definition bind_agent_snapshot (claim_id : string) (snapshot : AgentSnapshot) : SM bool :=
  found ← gets (live_attempt (ClaimName claim_id));
  match found with
  | None => mret false
  | Some (_, claim, (ar, attempt)) =>
      if bool_decide (at_agent_snapshot attempt = Some snapshot) then mret true
      else
        bound ← match at_agent_snapshot attempt with
                | None => on_attempt ar (AttemptManager.bind_agent_snapshot snapshot)
                | Some existing =>
                    on_attempt ar (AttemptManager.update_agent_snapshot fingerprint snapshot (fingerprint existing))
                end;
        if negb bound then mret false
        else
          _index_agent_residency (tc_graph_id claim) snapshot ;;
          claim_event SchedulerEventType.EXECUTION_SNAPSHOT_BOUND claim (at_attempt_id attempt)
            (tc_graph_version claim) "" "agent_snapshot_bound"
            [("snapshot_fingerprint", JStr (fingerprint snapshot));
             ("snapshot_state", JStr (AttemptState.value (sn_state snapshot)));
             ("progress", JFloat (progress_text (sn_progress snapshot)));
             ("read_count", JInt (Z.of_nat (length (sn_read_set snapshot))));
             ("write_count", JInt (Z.of_nat (length (sn_write_set snapshot))))] ;;
          mret true
  end.

(** ** Quarantine and renewal *)

Definition mark_stale_cognition (claim_id reason : string) : SM bool :=
  let normalized_reason := AttemptManager.or_default (strip reason) "stale_cognition" in
  found ← gets (live_attempt (ClaimName claim_id));
  match found with
  | None => mret false
  | Some (_, claim, (ar, attempt)) =>
      if bool_decide (at_state attempt = AttemptState.STALE_COGNITION)
      then mret (bool_decide (at_error attempt = Some normalized_reason))
      else if negb (bool_decide (at_state attempt ∈
                [AttemptState.DISPATCHED; AttemptState.RUNNING; AttemptState.SUCCEEDED_OPERATIONALLY]))
      then mret false
      else
        t ← now;
        on_attempt ar (AttemptManager.mark_stale_cognition normalized_reason t) ;;
        live ← _live_graph_version (tc_graph_id claim);
        claim_event SchedulerEventType.EXECUTION_STALE_COGNITION claim (at_attempt_id attempt)
          (tc_graph_version claim) (ClaimState.value (tc_state claim)) normalized_reason
          [("semantic_epoch", JInt (at_semantic_epoch attempt)); ("live_graph_version", int_or_null live);
           ("snapshot_fingerprint", str_or_null (fingerprint <$> at_agent_snapshot attempt))] ;;
        mret true
  end.

Definition renew_claim (claim_id : string) (ttl : option Z) (expected_attempt_id : option string)
    (expected_semantic_epoch : option Z) : SM bool :=
  found ← gets (live_attempt (ClaimName claim_id));
  match found with
  | None => mret false
  | Some (r, _, (_, attempt)) =>
      if match expected_attempt_id with Some e => negb (String.eqb (at_attempt_id attempt) e) | None => false end
      then mret false
      else if match expected_semantic_epoch with Some e => negb (at_semantic_epoch attempt =? e) | None => false end
      then mret false
      else
        lease ← on_world (call r (fun _ => Claims.renew_claim lease_ttl ttl));
        match lease with
        | None => mret false
        | Some _ =>
            claim ← claim_at r;
            claim_event SchedulerEventType.CLAIM_LEASE_RENEWED claim (at_attempt_id attempt) (tc_graph_version claim)
              (ClaimState.value (tc_state claim)) "kernel_lease_renewed"
              [("lease_id", str_or_null (tc_lease_id claim));
               ("lease_fencing_token", int_or_null (tc_lease_fencing_token claim));
               ("lease_expires_at",
                 match tc_lease_expires_at claim with DateTime _ t => JStr (iso_text t) | _ => JNull end)] ;;
            mret true
        end
  end.

(** ** Completion *)

Definition finished_attempt (a : Attempt) : bool :=
  bool_decide (at_state a ∈ [AttemptState.SUCCEEDED_OPERATIONALLY; AttemptState.VERIFIED_SEMANTICALLY]).

Definition _mark_task_completed_locked (r : nat) : SM unit :=
  claim ← claim_at r;
  if negb (bool_decide (tc_state claim = ClaimState.ACTIVE)) then mret tt
  else
    found ← gets (get_attempt_for_claim (tc_claim_id claim));
    match found with
    | None => mret tt
    | Some (ar, attempt) =>
        if negb (finished_attempt attempt) then mret tt
        else
          promoted ←
            (if bool_decide (at_state attempt = AttemptState.SUCCEEDED_OPERATIONALLY) then
               t ← now;
               ok ← on_attempt ar (AttemptManager.mark_semantically_verified t);
               if negb ok then mret false
               else
                 live ← _live_graph_version (tc_graph_id claim);
                 claim_event SchedulerEventType.EXECUTION_SEMANTICALLY_VERIFIED claim (at_attempt_id attempt)
                   (tc_graph_version claim) "" "" [("live_graph_version", int_or_null live)] ;;
                 mret true
             else mret true);
          if negb promoted then mret tt
          else
            on_world (call r (complete exc_str)) ;;
            try_finally
              (claim_event SchedulerEventType.CLAIM_COMPLETED claim "" 0 "" "vpg task verified" [])
              (_release_claim_resources (tc_resource_reservation_id claim))
    end.

(** What the sealed fields of an attempt and the generation of a claim ask of a
    binding of the evidence. *)
Definition binding_matches (claim : TaskClaim) (attempt : Attempt) (binding : jobj) : bool :=
  let agrees key value := json_eqb (bget key binding) value in
  agrees "claim_id" (JStr (tc_claim_id claim))
  && agrees "attempt_id" (JStr (at_attempt_id attempt))
  && agrees "semantic_epoch" (JInt (at_semantic_epoch attempt))
  && match at_provenance_digest attempt with
     | Some d => agrees "provenance_digest" (JStr d)
     | None => true
     end
  && match at_context_snapshot_id attempt with
     | Some i =>
         agrees "context_snapshot_id" (JStr i)
         && agrees "context_manifest_id" (str_or_null (at_context_manifest_id attempt))
         && agrees "context_manifest_hash" (str_or_null (at_context_manifest_hash attempt))
         && agrees "context_working_set_hash" (str_or_null (at_context_working_set_hash attempt))
         && agrees "context_materialized_hash" (str_or_null (at_context_materialized_hash attempt))
     | None => true
     end
  && match jget "lease_fencing_token" binding with
     | Some v => match tc_lease_fencing_token claim with Some z => json_eqb v (JInt z) | None => false end
     | None => true
     end.
Definition _evidence_matches_active_attempt (claim : TaskClaim) : SM bool :=
  found ← gets (get_attempt_for_claim (tc_claim_id claim));
  match found with
  | None => mret false
  | Some (_, attempt) =>
      if negb (finished_attempt attempt) then mret false
      else match vpg_task_evidence_bindings with
      | None => mret true
      | Some lookup =>
          bindings ← try_except (on_host (lookup (tc_graph_id claim) (tc_task_id claim))) (fun _ => mret []);
          mret (existsb (fun b => match b with Some b => binding_matches claim attempt b | None => false end) bindings)
      end
  end.

(** ** Release *)

Definition _clear_task_idempotency (graph_id task_id : string) : SM unit :=
  let prefix := graph_id +:+ ":" +:+ task_id +:+ ":v" in
  modify (set_keys (filter (fun key => startswith prefix key = false))) ;;
  _persist_state.

Definition _release_claim_locked (r : nat) (reason : string) : SM unit :=
  claim ← claim_at r;
  if bool_decide (tc_state claim ∈ [ClaimState.RELEASED; ClaimState.LOST; ClaimState.COMPLETED]) then mret tt
  else
    on_world (call r (Claims.release exc_str reason)) ;;
    try_finally
      (claim_event SchedulerEventType.CLAIM_RELEASED claim "" 0 "" reason [])
      (_release_claim_resources (tc_resource_reservation_id claim)).

(** The attempt of a released claim failed, unless its cognition is stale. *)
Definition end_attempt (claim : TaskClaim) (ar : nat) (attempt : Attempt) (reason : string) : SM unit :=
  let preserve_stale := bool_decide (at_state attempt = AttemptState.STALE_COGNITION) in
  let requested_stale := startswith "stale_cognition" (lower (strip reason)) in
  t ← now;
  (if preserve_stale then mret tt
   else if requested_stale then on_attempt ar (AttemptManager.mark_stale_cognition reason t)
   else on_attempt ar (AttemptManager.mark_failed reason t)) ;;
  let stale := preserve_stale || requested_stale in
  claim_event (if stale then SchedulerEventType.EXECUTION_STALE_COGNITION else SchedulerEventType.EXECUTION_FAILED)
    claim (at_attempt_id attempt) (tc_graph_version claim) "" reason
    (if stale then [("preserved_stale_cognition", JBool true)] else []).

Definition _release_task_locked (graph_id task_id reason : string) (retry : bool) (expected_claim_id : option string)
    : SM bool :=
  found ← gets (_get_claim_locked task_id (Some graph_id));
  let mismatch := match expected_claim_id, found with
                  | None, _ => false
                  | Some _, None => true
                  | Some e, Some (_, claim) => negb (String.eqb (tc_claim_id claim) e)
                  end in
  if mismatch then mret false
  else
    released ← match found with
               | None => mret false
               | Some (r, claim) =>
                   attempt ← gets (get_attempt_for_claim (tc_claim_id claim));
                   match attempt with
                   | None => mret tt
                   | Some (ar, attempt) => end_attempt claim ar attempt reason
                   end ;;
                   _release_claim_locked r reason ;;
                   mret true
               end;
    (if retry then _clear_task_idempotency graph_id task_id else mret tt) ;;
    mret released.

(** ** Observation of the graph *)

Definition observe_claim (graph_id : string) (r : nat) : SM nat :=
  claim ← claim_at r;
  if negb (String.eqb (tc_graph_id claim) graph_id && bool_decide (tc_state claim = ClaimState.ACTIVE)) then mret 0%nat
  else
    validity ← on_host (vpg_task_validity graph_id (tc_task_id claim));
    if negb (bool_decide (validity = Some "verified")) then mret 0%nat
    else
      own ← _evidence_matches_active_attempt claim;
      if own : bool then _mark_task_completed_locked r ;; mret 1%nat else mret 0%nat.
(** The tally of completed claims *)
Definition _observe_vpg_locked (graph_id : string) : SM nat :=
  rows ← gets claim_rows;
  tally ← map_each (observe_claim graph_id) rows;
  mret (sum_list tally).
End Lifecycle.
