(* ===== verification/Reconciliation.v ===== *)
(** * Reconciliation
    (runtimes/multi_agent/reconciliation.py, with the callbacks the scheduler passes
    to it, and reconcile, retire_agent_process, schedule_once and
    schedule_until_idle of scheduler.py)

    Claims are compared with the authorities: the VPG for what is verified or
    stale, the kernel for processes and leases.  Only the projection is repaired.
    A lease that is still present is released first; when the release is not
    confirmed the method raises and the claim stays as it was. *)

From S2P Require Import Prelude PyString VpgModels Resources Claims Agents Matching Attempts Scheduler Lifecycle.
Open Scope Z_scope.

Record ReconciliationIssue : Type := mkIssue {
  issue_id : string;
  summary : string;
  issue_claim_id : string;
  issue_task_id : string;
  issue_agent_id : string }.
(** Without [projection_repairs], which nothing sets, and the two instants. *)
Record ReconciliationResult : Type := mkRecResult {
  issues : list ReconciliationIssue;
  claims_marked_lost : nat;
  claims_completed : nat;
  orphan_leases_released : nat }.
Definition new_result : ReconciliationResult := mkRecResult [] 0 0 0.
Definition add (i : ReconciliationIssue) (res : ReconciliationResult) : ReconciliationResult :=
  mkRecResult (issues res ++ [i]) (claims_marked_lost res) (claims_completed res) (orphan_leases_released res).
Definition count_lost (res : ReconciliationResult) : ReconciliationResult :=
  mkRecResult (issues res) (claims_marked_lost res + 1) (claims_completed res) (orphan_leases_released res).
Definition count_completed (res : ReconciliationResult) : ReconciliationResult :=
  mkRecResult (issues res) (claims_marked_lost res) (claims_completed res + 1) (orphan_leases_released res).
Definition count_released (res : ReconciliationResult) : ReconciliationResult :=
  mkRecResult (issues res) (claims_marked_lost res) (claims_completed res) (orphan_leases_released res + 1).
Definition claim_issue (id summary : string) (c : TaskClaim) : ReconciliationIssue :=
  mkIssue id summary (tc_claim_id c) (tc_task_id c) (tc_agent_id c).

Section Reconciliation.
Context {S : Type} `{LeaseProvider S, SchedulerHost S}.
Context (lease_ttl : Z) (exc_str : py_error -> string) (container_text : json -> string) (iso_text : Z -> string)
  (digest : string -> Z -> string -> list AgentMatchScore -> string).
Implicit Types (res : ReconciliationResult).

(** ** The callbacks *)

Definition _process_is_alive (pid : string) : SM bool :=
  proc ← on_host (host_process_get pid);
  mret match proc with
       | None => false
       | Some st => bool_decide (st <> Some "exited" /\ st <> Some "failed")
       end.
(** With a claim: the evidence has to be its own. *)
Definition _vpg_task_verified (graph_id task_id : string) (claim : option TaskClaim) : SM bool :=
  validity ← on_host (vpg_task_validity graph_id task_id);
  if negb (bool_decide (validity = Some "verified")) then mret false
  else match claim with
       | None => mret true
       | Some claim => _evidence_matches_active_attempt claim
       end.
(** With a claim: one of an older epoch than the staleness. *)
Definition _vpg_task_stale (graph_id task_id : string) (claim : option TaskClaim) : SM bool :=
  validity ← on_host (vpg_task_validity graph_id task_id);
  if negb (bool_decide (validity = Some "stale")) then mret false
  else match claim with
       | None => mret true
       | Some claim =>
           payload ← on_host (vpg_task_node_payload graph_id task_id);
           let stale_at := match jget "metadata" (default [] payload) with
                           | Some (JObj metadata) => as_py_int (jget "__stale_at_version" metadata)
                           | _ => None
                           end in
           match stale_at with
           | None => mret true
           | Some stale_at =>
               attempt ← gets (get_attempt_for_claim (tc_claim_id claim));
               mret (match attempt with
                     | Some (_, a) => at_semantic_epoch a
                     | None => tc_graph_version claim
                     end <? stale_at)
           end
       end.

(** The first lease of the process, or the one the claim names; [lease.lease_id]
    raises on a lease without the attribute. *)
Fixpoint lease_named (lid : string) (leases : list LeaseInfo) : result (option LeaseInfo) :=
  match leases with
  | [] => Ok None
  | l :: leases' =>
      match li_lease_name l with
      | NoLeaseId => Raise (AttributeError "lease_id")
      | LeaseId i => if String.eqb i lid then Ok (Some l) else lease_named lid leases'
      | OtherLeaseId _ => lease_named lid leases'
      end
  end.
Definition owned_by (pid : string) (l : LeaseInfo) : bool :=
  match li_owner_pid l with Owner (Some p) => String.eqb p pid | _ => false end.
Definition _lease_lookup_for_claim (claim : TaskClaim) : SM (option LeaseInfo) :=
  leases ← on_host (LeaseAdapter.list_for_task (tc_graph_id claim) (tc_task_id claim));
  match tc_lease_id claim with
  | None => mret (List.find (owned_by (tc_process_id claim)) leases)
  | Some lid => of_result (lease_named lid leases)
  end.

(** ** Repairs of one claim *)

(** The fields a discovered lease gives a claim; a malformed token is dropped with
    a note in the reason. *)
Definition _bind_claim_lease (lease : LeaseInfo) (claim : TaskClaim) : result TaskClaim :=
  match li_lease_name lease with
  | NoLeaseId => Raise (AttributeError "lease_id")
  | LeaseId lid | OtherLeaseId lid =>
      let own := match li_owner_pid lease with NoOwner => Some (tc_process_id claim) | Owner p => p end in
      let tok := match li_fencing_token lease with IntToken z => Some z | _ => None end in
      let bound := set_lease lid own tok (li_expires_at lease) claim in
      Ok match li_fencing_token lease with
         | BadToken _ =>
             set_reason (match tc_reason claim with
                         | None | Some EmptyString => "malformed_lease_fencing_token_ignored_for_cleanup"
                         | Some prior => prior +:+ "; malformed_lease_fencing_token_ignored_for_cleanup"
                         end) bound
         | _ => bound
         end
  end.
Definition bind_lease (r : nat) (lease : LeaseInfo) : SM (S:=S) unit :=
  claim ← claim_at r;
  bound ← of_result (_bind_claim_lease lease claim);
  update_claim r (fun _ => bound).
Definition _bind_discovered_lease (r : nat) (lease : option LeaseInfo) : SM (S:=S) unit :=
  claim ← claim_at r;
  match lease, tc_lease_id claim with
  | Some l, None => bind_lease r l
  | _, _ => mret tt
  end.

Definition _release_claim_lease (r : nat) res : SM ReconciliationResult :=
  claim ← claim_at r;
  match tc_lease_id claim with
  | None | Some EmptyString => mret res
  | Some lid =>
      released ← try_except (on_host (LeaseAdapter.release lid))
        (fun exc => raise (LeaseReleaseFailed (tc_claim_id claim) lid (exc_str exc)));
      raise_if (negb released) (LeaseReleaseFailed (tc_claim_id claim) lid "lease provider did not confirm release") ;;
      mret (count_released res)
  end.

Definition _lose_claim (r : nat) (reason : string) (lease_present : bool) res : SM ReconciliationResult :=
  res ← (if lease_present then _release_claim_lease r res else mret res);
  t ← now;
  update_claim r (finished ClaimState.LOST reason t) ;;
  claim ← claim_at r;
  mret (add (claim_issue "claim_lost" reason claim) (count_lost res)).

Definition is_some {A} (o : option A) : bool := match o with Some _ => true | None => false end.
(** Look the lease up, bind it, lose the claim. *)
Definition reclaim (r : nat) (claim : TaskClaim) (reason : string) res : SM ReconciliationResult :=
  lease ← _lease_lookup_for_claim claim;
  _bind_discovered_lease r lease ;;
  _lose_claim r reason (is_some lease) res.

Definition _reconcile_active_claim (r : nat) (claim : TaskClaim) res : SM ReconciliationResult :=
  verified ← _vpg_task_verified (tc_graph_id claim) (tc_task_id claim) (Some claim);
  if verified : bool then
    lease ← _lease_lookup_for_claim claim;
    res ← match lease with
          | Some _ => _bind_discovered_lease r lease ;; _release_claim_lease r res
          | None => mret res
          end;
    t ← now;
    update_claim r (finished ClaimState.COMPLETED "vpg_task_verified_claim_completed" t) ;;
    mret (add (claim_issue "task_verified_claim_completed" "Task verified by VPG; claim completed" claim)
            (count_completed res))
  else
    stale ← _vpg_task_stale (tc_graph_id claim) (tc_task_id claim) (Some claim);
    if stale : bool then reclaim r claim "vpg_task_stale_claim_lost" res
    else
      alive ← _process_is_alive (tc_process_id claim);
      if negb alive then reclaim r claim "process_dead_claim_lost" res
      else
        live_lease ← _lease_lookup_for_claim claim;
        _bind_discovered_lease r live_lease ;;
        t ← now;
        live ← of_result (is_lease_active t live_lease);
        if negb live then _lose_claim r "kernel_lease_vanished_claim_lost" (is_some live_lease) res
        else mret res.

(** A claim whose acquisition was interrupted *)
Definition reconcile_pending_claim (r : nat) (claim : TaskClaim) res : SM ReconciliationResult :=
  lease ← _lease_lookup_for_claim claim;
  match lease with
  | None =>
      t ← now;
      update_claim r (finished ClaimState.LOST "reconciled_orphan_proposed_no_kernel_lease" t) ;;
      mret (count_lost (add (claim_issue "orphan_proposed_claim" "PROPOSED claim without live Kernel lease" claim) res))
  | Some l =>
      bind_lease r l ;;
      _lose_claim r "reconciled_uncommitted_claim_with_kernel_lease" true res
  end.
Definition reconcile_claim (r : nat) res : SM ReconciliationResult :=
  claim ← claim_at r;
  match tc_state claim with
  | ClaimState.ACTIVE => _reconcile_active_claim r claim res
  | ClaimState.PROPOSED | ClaimState.ACQUIRING => reconcile_pending_claim r claim res
  | _ => mret res
  end.

Definition _reconcile_attempt (r : nat) res : SM ReconciliationResult :=
  attempt ← gets (fun s => attempt_objects s !! r);
  attempt ← some_or_raise attempt (KeyError "attempt");
  if negb (bool_decide (at_state attempt ∈ [AttemptState.DISPATCHED; AttemptState.RUNNING])) then mret res
  else
    alive ← _process_is_alive (at_process_id attempt);
    if alive : bool then mret res
    else
      t ← now;
      on_attempt r (modify (at_set_state AttemptState.CRASHED (Some t) (Some "process_dead_attempt_crashed"))) ;;
      mret (add (mkIssue "attempt_crashed_dead_process" "Attempt's process died; marked crashed"
                   (at_claim_id attempt) (at_task_id attempt) (at_agent_id attempt)) res).

Fixpoint fold_each {A} (f : A -> ReconciliationResult -> SM (S:=S) ReconciliationResult) (l : list A) res
    : SM ReconciliationResult :=
  match l with
  | [] => mret res
  | x :: l' => res' ← f x res; fold_each f l' res'
  end.
Definition reconcile : SM ReconciliationResult :=
  rows ← gets claim_rows;
  res ← fold_each reconcile_claim rows new_result;
  attempts ← gets attempt_rows;
  fold_each _reconcile_attempt attempts res.

(** ** The scheduler's side *)

(** [states_before.get(claim_id)]: the last claim of that id *)
Definition state_before (before : list TaskClaim) (claim_id : string) : option ClaimState.t :=
  tc_state <$> last (filter (fun c => tc_claim_id c = claim_id) before).
Definition settle (before : list TaskClaim) (r : nat) : SM unit :=
  claim ← claim_at r;
  let was := state_before before (tc_claim_id claim) in
  if bool_decide (tc_state claim = ClaimState.LOST /\ was <> Some ClaimState.LOST) then
    _release_claim_resources (tc_resource_reservation_id claim) ;;
    _clear_task_idempotency (tc_graph_id claim) (tc_task_id claim)
  else if bool_decide (tc_state claim = ClaimState.COMPLETED /\ was <> Some ClaimState.COMPLETED) then
    _release_claim_resources (tc_resource_reservation_id claim)
  else mret tt.
Definition _reconcile_locked : SM ReconciliationResult :=
  before ← gets claim_list;
  res ← reconcile;
  rows ← gets claim_rows;
  for_each (settle before) rows ;;
  _persist_state ;;
  mret res.

(** The claims an agent id holds under an earlier process *)
Definition retire_claim (agent_id process_id : string) (r : nat) : SM nat :=
  claim ← claim_at r;
  if negb (String.eqb (tc_agent_id claim) agent_id) || String.eqb (tc_process_id claim) process_id
     || bool_decide (tc_state claim ∈ TERMINAL_CLAIM_STATES)
  then mret 0%nat
  else
    lease ← _lease_lookup_for_claim claim;
    match lease with
    | None => mret tt
    | Some l =>
        _bind_discovered_lease r (Some l) ;;
        claim ← claim_at r;
        match tc_lease_id claim with
        | None => raise (SchedulerStateCorruption "authoritative lease lookup returned an unbindable lease")
        | Some lid =>
            released ← on_host (LeaseAdapter.release lid);
            raise_if (negb released)
              (LeaseReleaseFailed (tc_claim_id claim) lid "previous agent process lease release was not confirmed")
        end
    end ;;
    on_world (call r (mark_lost "agent_process_replaced")) ;;
    _release_claim_resources (tc_resource_reservation_id claim) ;;
    _clear_task_idempotency (tc_graph_id claim) (tc_task_id claim) ;;
    claim_event SchedulerEventType.CLAIM_LOST claim "" (tc_graph_version claim) "" "agent_process_replaced" [] ;;
    mret 1%nat.
Definition retire_agent_process (agent_id process_id : string) : SM nat :=
  rows ← gets claim_rows;
  retired ← map_each (retire_claim agent_id process_id) rows;
  (if negb (sum_list retired =? 0)%nat then _persist_state else mret tt) ;;
  mret (sum_list retired).

Definition schedule_once (graph_id : string) (max_claims : option Z) (allowed_task_ids : option (list string))
    (expected_graph_version : option Z) (dispatch_order : list string)
    (task_read_keys_by_task : list (string * list string)) : SM ScheduleResult :=
  raise_if (match expected_graph_version with Some v => v <? 0 | None => false end)
    (ValueError "expected_graph_version must be a non-negative integer") ;;
  stale ← match expected_graph_version with
          | None => mret None
          | Some v =>
              observed ← on_host (vpg_current_graph_version graph_id);
              mret (if observed =? v then None else Some (stale_result v observed))
          end;
  match stale with
  | Some res => mret res
  | None =>
      claims ← gets claim_list;
      (if existsb (fun c => String.eqb (tc_graph_id c) graph_id
                            && bool_decide (tc_state c ∈ [ClaimState.PROPOSED; ClaimState.ACQUIRING])) claims
       then _reconcile_locked ;; mret tt else mret tt) ;;
      _schedule_once_locked lease_ttl exc_str container_text iso_text digest graph_id max_claims allowed_task_ids
        expected_graph_version dispatch_order task_read_keys_by_task
  end.

(** [range(max_dispatches + 1)] passes at most, fewer when one dispatches nothing or
    the bound is reached. *)
Fixpoint until_idle (passes : nat) (graph_id : string) (max_dispatches : Z) (max_claims_per_pass : option Z)
    (total : Z) : SM (list ScheduleResult) :=
  match passes with
  | O => mret []
  | Datatypes.S passes' =>
      res ← schedule_once graph_id max_claims_per_pass None None [] [];
      if bool_decide (dispatched res = []) then mret [res]
      else
        let total := total + Z.of_nat (length (dispatched res)) in
        if max_dispatches <=? total then mret [res]
        else
          out ← until_idle passes' graph_id max_dispatches max_claims_per_pass total;
          mret (res :: out)
  end.
Definition schedule_until_idle (graph_id : string) (max_dispatches : Z) (max_claims_per_pass : option Z)
    : SM (list ScheduleResult) :=
  until_idle (Z.to_nat (max_dispatches + 1)) graph_id max_dispatches max_claims_per_pass 0.
End Reconciliation.

(** ** The invariant check *)

Inductive violation : Type :=
| ManyActive (task_id : string) (n : nat)
| NoLease (claim_id : string)
| LeaseNotLive (claim_id : string)
| ProcessNotAlive (claim_id process_id : string).

Section Violations.
Context (lease_is_live : TaskClaim -> bool) (process_is_alive : string -> bool).
(** [by_task], in order of insertion, by the length of its lists *)
Definition active_by_task (claims : list TaskClaim) : dict nat :=
  foldl (fun d c => if bool_decide (tc_state c = ClaimState.ACTIVE)
                    then dict_set (tc_task_id c) (default 0%nat (dict_get (tc_task_id c) d) + 1)%nat d
                    else d) [] claims.
Definition claim_violations (c : TaskClaim) : list violation :=
  if negb (bool_decide (tc_state c = ClaimState.ACTIVE)) then []
  else match tc_lease_id c with
  | None => [NoLease (tc_claim_id c)]
  | Some _ =>
      (if lease_is_live c then [] else [LeaseNotLive (tc_claim_id c)]) ++
      (if process_is_alive (tc_process_id c) then [] else [ProcessNotAlive (tc_claim_id c) (tc_process_id c)])
  end.
Definition detect_invariants_violations (claims : list TaskClaim) : list violation :=
  omap (fun kn => if (1 <? kn.2)%nat then Some (ManyActive kn.1 kn.2) else None) (active_by_task claims)
  ++ mjoin (claim_violations <$> claims).
End Violations.
