(* ===== verification/LifecycleProps.v ===== *)
(** * The scheduler over its life: properties

    Every method but the pass only ends claims: [quiet] is what they can do to the
    claims.  With the pass it gives an invariant of all reachable schedulers, and
    what a pass or a reconciliation guarantees. *)

From S2P Require Import Prelude KernelModels Storage KernelProviders PyString VpgModels Resources Claims ClaimProps Agents Matching Attempts Scheduler SchedulerProps Lifecycle Reconciliation.
Open Scope Z_scope.

(** ** What ending a claim may change *)

(** The identity stays, nothing becomes ACTIVE, a lease is not forgotten. *)
Definition claim_le (c c' : TaskClaim) : Prop :=
  (tc_claim_id c', tc_graph_id c', tc_task_id c', tc_agent_id c', tc_process_id c') =
  (tc_claim_id c, tc_graph_id c, tc_task_id c, tc_agent_id c, tc_process_id c) /\
  (tc_state c' = ClaimState.ACTIVE -> tc_state c = ClaimState.ACTIVE) /\
  (tc_lease_id c <> None -> tc_lease_id c' <> None).
#[global] Instance claim_le_preorder : PreOrder claim_le.
Proof.
  split; [by intros c|]. intros c1 c2 c3 (E1 & A1 & L1) (E2 & A2 & L2). split; [congruence|]. auto.
Qed.

Definition quiet {S} (s s' : Scheduler S) : Prop :=
  _registry s' = _registry s /\ claim_rows s' = claim_rows s /\
  Forall2 claim_le (objects (world s)) (objects (world s')).
#[global] Instance quiet_preorder {S} : PreOrder (@quiet S).
Proof.
  split; [by intros s; split_and!|]. intros s1 s2 s3 (R1 & C1 & F1) (R2 & C2 & F2).
  split_and!; [congruence|congruence|]. by transitivity (objects (world s2)).
Qed.

(** A count that cannot grow when claims end. *)
Definition ends_only (sel : string * string * string * bool -> bool) : Prop :=
  forall c c', claim_le c c' -> tc_state c' = ClaimState.ACTIVE -> sel (ckey c') = true -> sel (ckey c) = true.
Lemma of_agent_ends a : ends_only (of_agent a).
Proof. intros c c' (E & _) _. unfold of_agent, ckey. cbn. injection E as _ _ _ Ea _. by rewrite Ea. Qed.
Lemma of_task_ends g t : ends_only (of_task g t).
Proof. intros c c' (E & _) _. unfold of_task, ckey. cbn. injection E as _ Eg Et _ _. by rewrite Eg, Et. Qed.
Lemma unleased_ends : ends_only (fun k => negb k.2).
Proof.
  intros c c' (_ & _ & L) _. unfold ckey. cbn. rewrite !negb_true_iff, !bool_decide_eq_false. tauto.
Qed.

Lemma quiet_live {S} (s s' : Scheduler S) sel :
  ends_only sel -> quiet s s' -> (live_count sel (claim_list s') <= live_count sel (claim_list s))%nat.
Proof.
  intros Hsel (_ & Hr & Hf). change (live_count sel (rows_claims (objects (world s')) (claim_rows s')) <=
    live_count sel (rows_claims (objects (world s)) (claim_rows s)))%nat. rewrite Hr.
  generalize (claim_rows s) as rows. induction rows as [|r rows IH]; [done|]. rewrite !rows_claims_cons.
  destruct (objects (world s) !! r) as [c|] eqn:E1.
  - destruct (Forall2_lookup_l _ _ _ _ _ Hf E1) as (c' & E2 & Hle). rewrite E2, !live_count_cons.
    unfold counts. case_decide as D; [|lia]. destruct D as [D1 D2]. rewrite decide_True; [lia|].
    split; [by apply (proj1 (proj2 Hle))|by apply (Hsel c c')].
  - rewrite (proj2 (lookup_ge_None _ _)); [done|]. rewrite <-(Forall2_length _ _ _ Hf). by apply lookup_ge_None.
Qed.
Lemma quiet_rows {S} (s s' : Scheduler S) :
  quiet s s' -> rows_ok (objects (world s)) (claim_rows s) -> rows_ok (objects (world s')) (claim_rows s').
Proof. intros (_ & -> & Hf) [Hn Hv]. split; [done|]. by rewrite <-(Forall2_length _ _ _ Hf). Qed.

(** ** The methods are quiet *)

Section Quiet.
Context {S : Type} `{LeaseProvider S, SchedulerHost S}.
Context (lease_ttl : Z) (exc_str : py_error -> string) (fingerprint : AgentSnapshot -> string)
  (iso_text progress_text : Z -> string).

Lemma keeps_quiet {A} (m : M (Scheduler S) A) : within (keeps core) m -> within quiet m.
Proof.
  intros Hm s. specialize (Hm s). unfold keeps, core in Hm. injection Hm as Ho Hr Hg _.
  split_and!; [done|done|]. by rewrite Ho.
Qed.
Lemma call_quiet {A} r (m : Z -> CM A) :
  (forall t h c, claim_le c (m t (h, c)).2.2) -> within quiet (on_world (S:=S) (call r m)).
Proof.
  intros Hm s. unfold on_world, call. destruct (objects (world s) !! r) as [c|] eqn:E; [|by destruct s].
  specialize (Hm (wall_clock (world s)) (provider (world s)) c). destruct (m _ _) as [out [h' c']]. cbn in Hm |- *.
  split_and!; [done|done|]. cbn. rewrite <-(list_insert_id (objects (world s)) r c E) at 1. by apply Forall2_insert.
Qed.
Lemma on_attempt_quiet {A} r (m : M Attempt A) : within quiet (on_attempt (S:=S) r m).
Proof. apply keeps_quiet, on_attempt_keeps. Qed.
Lemma set_keys_quiet f : within quiet (modify (set_keys (S:=S) f)).
Proof. by intros s. Qed.

(** The methods of the claim manager. *)
Lemma complete_le t h c : claim_le c (complete exc_str t (h, c)).2.2.
Proof.
  unfold complete. pose proof (safe_release_cases exc_str h c) as Hr. unfold mbind, M_bind.
  destruct (_safe_release exc_str (h, c)) as [[[]|e] [h' c']]; destruct Hr as [-> _]; done.
Qed.
Lemma release_le reason t h c : claim_le c (Claims.release exc_str reason t (h, c)).2.2.
Proof.
  unfold Claims.release. rewrite (bind_Ok this _ (h, c) c (h, c) eq_refl). case_bool_decide; [done|].
  pose proof (safe_release_cases exc_str h c) as Hr. unfold mbind, M_bind.
  destruct (_safe_release exc_str (h, c)) as [[[]|e] [h' c']]; destruct Hr as [-> _]; done.
Qed.
Lemma renew_le ttl h c : claim_le c (Claims.renew_claim lease_ttl ttl (h, c)).2.2.
Proof.
  pose proof (renew_claim_cases lease_ttl ttl h c) as Hr.
  destruct (Claims.renew_claim lease_ttl ttl (h, c)) as [out [h' c']]. destruct Hr as [_ Hr]. cbn.
  destruct out as [[i|]|]; [|by subst..]. by destruct Hr as (l & tok & e & _ & _ & _ & _ & _ & ->).
Qed.
Lemma mark_lost_le reason t (h : S) c : claim_le c (mark_lost reason t (h, c)).2.2.
Proof. done. Qed.

Lemma claim_at_quiet r : within quiet (claim_at (S:=S) r).
Proof. apply keeps_quiet. unfold claim_at. solve_within. Qed.
Lemma update_claim_quiet r f : (forall c, claim_le c (f c)) -> within quiet (update_claim (S:=S) r f).
Proof. intros Hf. apply call_quiet. intros t h c. apply Hf. Qed.
Lemma index_quiet g sn : within quiet (_index_agent_residency (S:=S) g sn).
Proof. intros s. unfold _index_agent_residency, modify. by destruct (dict_get g (_resident_index s)). Qed.
Hint Resolve complete_le release_le renew_le mark_lost_le call_quiet on_attempt_quiet set_keys_quiet claim_at_quiet index_quiet : lhos.
Hint Extern 3 (within quiet _) => solve [apply keeps_quiet; eauto with lhos] : lhos.

Lemma claim_event_quiet ty c a v st r md : within quiet (claim_event ty c a v st r md).
Proof. unfold claim_event. solve_within. Qed.
Lemma live_version_quiet g : within quiet (_live_graph_version g).
Proof. unfold _live_graph_version. solve_within. Qed.
Lemma clear_quiet g t : within quiet (_clear_task_idempotency g t).
Proof. unfold _clear_task_idempotency. solve_within. Qed.
Hint Resolve claim_event_quiet live_version_quiet clear_quiet : lhos.

Lemma mark_execution_started_quiet arg : within quiet (mark_execution_started arg).
Proof. unfold mark_execution_started. solve_within. Qed.
Lemma mark_execution_operationally_succeeded_quiet arg : within quiet (mark_execution_operationally_succeeded arg).
Proof. unfold mark_execution_operationally_succeeded. solve_within. Qed.
Lemma bind_attempt_provenance_quiet c d : within quiet (bind_attempt_provenance c d).
Proof. unfold bind_attempt_provenance. solve_within. Qed.
Lemma bind_attempt_context_snapshot_quiet c i m mh wh th : within quiet (bind_attempt_context_snapshot c i m mh wh th).
Proof. unfold bind_attempt_context_snapshot. solve_within. Qed.
Lemma bind_agent_snapshot_quiet c sn : within quiet (bind_agent_snapshot fingerprint progress_text c sn).
Proof. unfold bind_agent_snapshot. solve_within. Qed.
Lemma mark_stale_cognition_quiet c r : within quiet (mark_stale_cognition fingerprint c r).
Proof. unfold mark_stale_cognition. solve_within. Qed.
Lemma renew_claim_quiet c ttl a e : within quiet (renew_claim lease_ttl iso_text c ttl a e).
Proof. unfold renew_claim. solve_within. Qed.
Lemma completed_quiet r : within quiet (_mark_task_completed_locked exc_str r).
Proof. unfold _mark_task_completed_locked. solve_within. Qed.
Lemma evidence_quiet c : within quiet (_evidence_matches_active_attempt c).
Proof. unfold _evidence_matches_active_attempt. solve_within. Qed.
Lemma release_claim_quiet r reason : within quiet (_release_claim_locked exc_str r reason).
Proof. unfold _release_claim_locked. solve_within. Qed.
Hint Resolve completed_quiet evidence_quiet release_claim_quiet : lhos.
Lemma end_attempt_quiet c ar a r : within quiet (end_attempt c ar a r).
Proof. unfold end_attempt. solve_within. Qed.
Hint Resolve end_attempt_quiet : lhos.
Lemma release_task_quiet g t reason retry e : within quiet (_release_task_locked exc_str g t reason retry e).
Proof. unfold _release_task_locked. solve_within. Qed.
Lemma observe_quiet g : within quiet (_observe_vpg_locked exc_str g).
Proof. unfold _observe_vpg_locked, observe_claim. solve_within. Qed.

(** *** Reconciliation *)

Lemma process_quiet pid : within quiet (_process_is_alive pid).
Proof. unfold _process_is_alive. solve_within. Qed.
Lemma verified_quiet g t c : within quiet (_vpg_task_verified g t c).
Proof. unfold _vpg_task_verified. solve_within. Qed.
Lemma stale_quiet g t c : within quiet (_vpg_task_stale g t c).
Proof. unfold _vpg_task_stale. solve_within. Qed.
Lemma lookup_quiet c : within quiet (_lease_lookup_for_claim c).
Proof. unfold _lease_lookup_for_claim. solve_within. Qed.
Lemma bind_claim_lease_le l c c' : _bind_claim_lease l c = Ok c' -> claim_le c c'.
Proof. unfold _bind_claim_lease. intros E. repeat case_match; try done; by injection E as <-. Qed.
Lemma bind_lease_quiet r l : within quiet (bind_lease (S:=S) r l).
Proof.
  intros s. unfold bind_lease, claim_at, update_claim, on_world, call. run_m.
  destruct (objects (world s) !! r) as [c|] eqn:E; cbn; [|done].
  destruct (_bind_claim_lease l c) as [c'|e] eqn:Eb; cbn; [|done]. rewrite E. cbn. split_and!; [done|done|]. cbn.
  rewrite <-(list_insert_id (objects (world s)) r c E) at 1. apply Forall2_insert; [done|].
  by apply (bind_claim_lease_le l).
Qed.
Hint Resolve process_quiet verified_quiet stale_quiet lookup_quiet bind_lease_quiet : lhos.
Lemma bind_discovered_quiet r l : within quiet (_bind_discovered_lease (S:=S) r l).
Proof. unfold _bind_discovered_lease. solve_within. Qed.
Lemma release_lease_quiet r res : within quiet (_release_claim_lease exc_str r res).
Proof. unfold _release_claim_lease. solve_within. Qed.
Lemma finish_quiet r st reason t : st <> ClaimState.ACTIVE -> within quiet (update_claim (S:=S) r (finished st reason t)).
Proof. intros Hst. apply update_claim_quiet. intros c. by split_and!. Qed.
Hint Resolve bind_discovered_quiet release_lease_quiet : lhos.
Hint Extern 2 (within quiet (update_claim _ (finished _ _ _))) => apply finish_quiet; discriminate : lhos.
Lemma lose_quiet r reason b res : within quiet (_lose_claim exc_str r reason b res).
Proof. unfold _lose_claim. solve_within. Qed.
Hint Resolve lose_quiet : lhos.
Lemma reclaim_quiet r c reason res : within quiet (reclaim exc_str r c reason res).
Proof. unfold reclaim. solve_within. Qed.
Hint Resolve reclaim_quiet : lhos.
Lemma reconcile_claim_quiet r res : within quiet (reconcile_claim exc_str r res).
Proof. unfold reconcile_claim, _reconcile_active_claim, reconcile_pending_claim. solve_within. Qed.
Lemma reconcile_attempt_quiet r res : within quiet (_reconcile_attempt r res).
Proof. unfold _reconcile_attempt. solve_within. Qed.
Lemma fold_each_within {A} (R : Scheduler S -> Scheduler S -> Prop) `{!PreOrder R} (f : A -> ReconciliationResult -> SM ReconciliationResult) l res :
  (forall x res, within R (f x res)) -> within R (fold_each f l res).
Proof.
  intros Hf. revert res. induction l as [|x l IH]; intros res; cbn [fold_each]; [apply (within_ret R)|].
  apply (within_bind R); [apply Hf|]. intros res'. apply IH.
Qed.
Lemma reconcile_quiet : within quiet (reconcile exc_str).
Proof.
  unfold reconcile. apply (within_bind quiet); [apply (within_gets quiet)|intros rows].
  apply (within_bind quiet); [by apply (fold_each_within quiet), reconcile_claim_quiet|intros res].
  apply (within_bind quiet); [apply (within_gets quiet)|intros ats]. apply (fold_each_within quiet), reconcile_attempt_quiet.
Qed.
Lemma settle_quiet before r : within quiet (settle before r).
Proof. unfold settle. solve_within. Qed.
Hint Resolve reconcile_quiet settle_quiet : lhos.
Lemma reconcile_locked_quiet : within quiet (_reconcile_locked exc_str).
Proof. unfold _reconcile_locked. solve_within. Qed.
Lemma retire_quiet a p : within quiet (retire_agent_process a p).
Proof. unfold retire_agent_process, retire_claim. solve_within. Qed.
End Quiet.
#[export] Hint Extern 3 (within quiet _) => solve [apply keeps_quiet; eauto with lhos] : lhos.
#[export] Hint Resolve mark_execution_started_quiet mark_execution_operationally_succeeded_quiet
  bind_attempt_provenance_quiet bind_attempt_context_snapshot_quiet bind_agent_snapshot_quiet
  mark_stale_cognition_quiet renew_claim_quiet completed_quiet release_claim_quiet release_task_quiet observe_quiet
  reconcile_locked_quiet retire_quiet : lhos.

(** ** The invariant of a scheduler *)

Section Reachable.
Context {S : Type} `{LeaseProvider S, SchedulerHost S}.
Context (lease_ttl : Z) (exc_str : py_error -> string) (fingerprint : AgentSnapshot -> string)
  (container_text : json -> string) (iso_text progress_text : Z -> string)
  (digest : string -> Z -> string -> list AgentMatchScore -> string).

(** A call on the registry: the descriptors of the agents change. *)
Inductive registry_step (reg : AgentRegistry.t) : AgentRegistry.t -> Prop :=
| rg_register agent : registry_step reg (AgentRegistry.register agent reg).2
| rg_update a fields : registry_step reg (AgentRegistry.update a fields reg).2
| rg_remove a : registry_step reg (AgentRegistry.remove a reg).2
| rg_clear : registry_step reg (AgentRegistry.clear reg).2.
Definition with_registry (reg : AgentRegistry.t) (s : Scheduler S) : Scheduler S :=
  mkScheduler (world s) reg (_resource_manager s) (_resource_manager_uses_registry s)
    (_pending_durable_reservations s) (claim_rows s) (attempt_objects s) (attempts_by_id s) (attempt_rows s) (_match_log s)
    (_resident_index s) (_events s) (_events_by_id s) (_idempotent_keys s).
(** No agent is registered with a concurrency above [limit]. *)
Context (limit : string -> Z).
Definition capped (reg : AgentRegistry.t) : Prop := forall k ag, (k, ag) ∈ reg -> ad_max_concurrency ag <= limit k.

(** The methods listed, in any order and whether they return or raise, and what the
    authorities, the clock and the registry may do in between.  (The handoff methods and
    the reading of durable state at construction are not modelled.) *)
Inductive sched_step : Scheduler S -> Scheduler S -> Prop :=
| st_authority h t s : sched_step s (set_world (mkWorld h (objects (world s)) (_claims (world s)) t) s)
| st_registry reg s : registry_step (_registry s) reg -> capped reg -> sched_step s (with_registry reg s)
| st_refresh s : sched_step s (_sync_registry_resource_capacities s).2
| st_capacity p c s : sched_step s (on_resources (AtomicResourceManager.set_capacity p c) s).2
| st_schedule g max allowed expected order reads s :
    sched_step s (schedule_once lease_ttl exc_str container_text iso_text digest g max allowed expected order reads s).2
| st_started arg s : sched_step s (mark_execution_started arg s).2
| st_succeeded arg s : sched_step s (mark_execution_operationally_succeeded arg s).2
| st_provenance c d s : sched_step s (bind_attempt_provenance c d s).2
| st_context c i m mh wh th s : sched_step s (bind_attempt_context_snapshot c i m mh wh th s).2
| st_snapshot c sn s : sched_step s (bind_agent_snapshot fingerprint progress_text c sn s).2
| st_stale c reason s : sched_step s (mark_stale_cognition fingerprint c reason s).2
| st_renew c ttl a e s : sched_step s (renew_claim lease_ttl iso_text c ttl a e s).2
| st_completed r s : sched_step s (_mark_task_completed_locked exc_str r s).2
| st_release r reason s : sched_step s (_release_claim_locked exc_str r reason s).2
| st_release_task g t reason retry e s : sched_step s (_release_task_locked exc_str g t reason retry e s).2
| st_observe g s : sched_step s (_observe_vpg_locked exc_str g s).2
| st_reconcile s : sched_step s (_reconcile_locked exc_str s).2
| st_retire a p s : sched_step s (retire_agent_process a p s).2.

Record sched_ok (s : Scheduler S) : Prop := {
  so_registry : registry_ok (_registry s);
  so_capped : capped (_registry s);
  so_rows : rows_ok (objects (world s)) (claim_rows s);
  so_agents k : Z.of_nat (active_count k (claim_list s)) <= Z.max 0 (limit k);
  so_tasks g t : (task_count g t (claim_list s) <= 1)%nat;
  so_leased : unleased_count (claim_list s) = 0%nat }.

Lemma set_fields_id fs a a' : set_fields fs a = Ok a' -> ad_agent_id a' = ad_agent_id a.
Proof.
  revert a. induction fs as [|f fs IH]; intros a; cbn; [by intros [= <-]|].
  destruct (set_field f a) as [b|] eqn:E; [|done]. cbn. intros ->%IH. destruct a, f; cbn in E; by simplify_eq/=.
Qed.
Lemma registry_set_ok reg ag : registry_ok reg -> registry_ok (dict_set (ad_agent_id ag) ag reg).
Proof.
  intros [Hd Hk]. pose proof (dict_set_ok reg (ad_agent_id ag) ag Hd) as Hd'. split; [done|].
  intros k x Hin%(dict_get_Some _ _ _ Hd'). rewrite dict_set_get in Hin. case_decide; [by simplify_eq|].
  apply (Hk k). by apply dict_get_elem.
Qed.
Lemma registry_step_ok reg reg' : registry_step reg reg' -> registry_ok reg -> registry_ok reg'.
Proof.
  intros [agent|a fields|a|] Hr.
  - unfold AgentRegistry.register. run_m. cbn. case_bool_decide; [done|]. cbn. by apply registry_set_ok.
  - unfold AgentRegistry.update. run_m. cbn. destruct (dict_get a reg) as [cur|] eqn:Ec; [|done]. cbn.
    destruct (set_fields fields cur) as [d|] eqn:Ef; [|done]. cbn. destruct (new_agent d) as [u|] eqn:En; [|done]. cbn.
    assert (u = d) as -> by (revert En; unfold new_agent, mbind, result_bind; repeat case_match; by intros [= ->]).
    assert (a = ad_agent_id d) as ->; [|by apply registry_set_ok].
    rewrite (set_fields_id _ _ _ Ef). symmetry. apply (proj2 Hr a). by apply dict_get_elem.
  - unfold AgentRegistry.remove. run_m. cbn. destruct (dict_get a reg); [|done]. cbn. destruct Hr as [Hd Hk].
    unfold dict_pop, tbl_delete. split.
    + unfold dict_ok in *. eapply sublist_NoDup; [exact Hd|]. apply fmap_sublist, sublist_filter.
    + intros k ag [_ Hin]%list_elem_of_filter. by apply Hk.
  - split; [constructor|]. set_solver.
Qed.

Lemma quiet_ok s s' : quiet s s' -> sched_ok s -> sched_ok s'.
Proof.
  intros Hq [R0 R1 R2 R3 R4 R5]. split.
  - destruct Hq as [-> _]. done.
  - destruct Hq as [-> _]. done.
  - by apply (quiet_rows s).
  - intros k. specialize (R3 k). pose proof (quiet_live s s' _ (of_agent_ends k) Hq). unfold active_count in *. lia.
  - intros g t. specialize (R4 g t). pose proof (quiet_live s s' _ (of_task_ends g t) Hq). unfold task_count in *. lia.
  - pose proof (quiet_live s s' _ unleased_ends Hq). unfold unleased_count in *. lia.
Qed.
Lemma safe_ok s s' : sched_ok s -> safe_change (claim_list s) (_registry s) s' -> sched_ok s'.
Proof.
  intros [R0 R1 R2 R3 R4 R5] [C1 C2 C3 C4 C5]. split; [by rewrite C1|by rewrite C1|done| | |lia].
  - intros k. specialize (R3 k). destruct (C3 k) as [Hk|(ag & Hin & Hk)]; [lia|]. pose proof (R1 k ag Hin). lia.
  - intros g t. specialize (R4 g t). specialize (C4 g t). lia.
Qed.

Lemma schedule_once_ok g max allowed expected order reads s :
  sched_ok s -> sched_ok (schedule_once lease_ttl exc_str container_text iso_text digest g max allowed expected order reads s).2.
Proof.
  change (preserves sched_ok s (schedule_once lease_ttl exc_str container_text iso_text digest g max
    allowed expected order reads s).2). revert s.
  change (within (preserves sched_ok) (schedule_once lease_ttl exc_str container_text iso_text digest g max
    allowed expected order reads)).
  assert (forall A (m : M (Scheduler S) A), within (@quiet S) m -> within (preserves sched_ok) m) as Hq.
  { intros A m Hm s Hs. by apply (quiet_ok s); [apply Hm|]. }
  unfold schedule_once. apply (within_bind _); [apply (within_raise_if _)|intros _].
  apply (within_bind _); [apply Hq; solve_within|intros stale]. destruct stale; [apply (within_ret _)|].
  apply (within_bind _); [apply (within_gets _)|intros claims].
  apply (within_bind _); [apply Hq; solve_within|intros _].
  intros s Hs. pose proof (pass_safe lease_ttl exc_str container_text iso_text digest g max allowed expected order reads s
    (so_registry _ Hs) (so_rows _ Hs)) as Hp.
  destruct (_schedule_once_locked _ _ _ _ _ _ _ _ _ _ _ s) as [out s']. apply (safe_ok s); [done|apply Hp].
Qed.
Lemma step_ok s s' : sched_step s s' -> sched_ok s -> sched_ok s'.
Proof.
  intros Hst. destruct Hst; try (apply quiet_ok; match goal with |- quiet ?s (?m ?s).2 => revert s; change (within quiet m) end;
    by eauto with lhos).
  - apply quiet_ok. by split_and!.
  - intros [R0 R1 R2 R3 R4 R5]. split; [by eapply registry_step_ok|done..].
  - by apply schedule_once_ok.
Qed.
Lemma fresh_ok (s : Scheduler S) : registry_ok (_registry s) -> capped (_registry s) -> claim_rows s = [] -> sched_ok s.
Proof.
  intros Hreg Hcap Hr. assert (claim_list s = []) as E by (unfold claim_list; by rewrite Hr).
  split; rewrite ?E; [done|done| |intros; cbn; lia|intros; cbn; lia|done]. rewrite Hr. split; constructor.
Qed.
Lemma reachable_ok s0 s : sched_ok s0 -> rtc sched_step s0 s -> sched_ok s.
Proof. intros Hs0 Hrun. induction Hrun as [|s0 s1 s2 Hst _ IH]; [done|]. apply IH. by apply (step_ok s0). Qed.
End Reachable.

(** ** Properties *)

Lemma filter_short_unique {A} (P : A -> Prop) `{!forall x, Decision (P x)} (l : list A) i j x y :
  (length (filter P l) <= 1)%nat -> l !! i = Some x -> l !! j = Some y -> P x -> P y -> i = j.
Proof.
  intros Hlen Hi Hj Hx Hy. destruct (decide (i = j)) as [|Hne]; [done|]. exfalso.
  assert (forall i j x y, (i < j)%nat -> l !! i = Some x -> l !! j = Some y -> P x -> P y -> (2 <= length (filter P l))%nat) as Hlt.
  { clear. intros i j x y Hij Hi Hj Hx Hy. rewrite <-(take_drop (Datatypes.S i) l), filter_app, length_app.
    rewrite (take_S_r _ _ _ Hi), filter_app, length_app. cbn. rewrite decide_True by done. cbn.
    assert (y ∈ filter P (drop (Datatypes.S i) l)) as Hin.
    { apply list_elem_of_filter. split; [done|]. apply list_elem_of_lookup. exists (j - Datatypes.S i)%nat.
      rewrite lookup_drop. rewrite <-Hj. f_equal. lia. }
    destruct (filter P (drop (Datatypes.S i) l)); [set_solver|]. cbn. lia. }
  destruct (decide (i < j)%nat); [pose proof (Hlt i j x y)|pose proof (Hlt j i y x)]; naive_solver lia.
Qed.

(** C33: the scheduler's invariant.  From a scheduler without claims, in whatever
    order scheduling passes, the marks and bindings of executions, renewals,
    completions, releases, observation, reconciliation, retirement and capacity changes
    are called, whether they return or raise, and whatever the authorities and the
    registry of agents do in between, no agent holds more ACTIVE claims than the
    largest concurrency it was registered with ([limit]), no task of a graph has two
    ACTIVE claims, and every ACTIVE claim carries a lease.  The handoff methods and
    state restored from a store are not among the steps. *)
Theorem scheduler_invariant {S} `{LeaseProvider S, SchedulerHost S} ttl exc fp ctext iso pt digest limit (s0 s : Scheduler S) :
  registry_ok (_registry s0) -> capped limit (_registry s0) -> claim_rows s0 = [] ->
  rtc (sched_step ttl exc fp ctext iso pt digest limit) s0 s ->
  (forall k, Z.of_nat (active_count k (claim_list s)) <= Z.max 0 (limit k)) /\
  (forall i j c d, claim_list s !! i = Some c -> claim_list s !! j = Some d ->
     tc_state c = ClaimState.ACTIVE -> tc_state d = ClaimState.ACTIVE ->
     tc_graph_id c = tc_graph_id d -> tc_task_id c = tc_task_id d -> i = j) /\
  (forall c, c ∈ claim_list s -> tc_state c = ClaimState.ACTIVE -> exists l, tc_lease_id c = Some l).
Proof.
  intros Hreg Hcap Hr Hrun.
  destruct (reachable_ok ttl exc fp ctext iso pt digest limit s0 s (fresh_ok limit s0 Hreg Hcap Hr) Hrun) as [_ _ _ Hag Htk Hun].
  split_and!; [done| |].
  - intros i j c d Hc Hd Ac Ad Eg Et. eapply filter_short_unique; [apply (Htk (tc_graph_id c) (tc_task_id c))|done|done| |].
    + split; [done|]. by apply bool_decide_eq_true.
    + split; [done|]. apply bool_decide_eq_true. cbn. congruence.
  - intros c Hc Ac. destruct (tc_lease_id c) as [l|] eqn:El; [by exists l|]. exfalso.
    apply nil_length_inv in Hun. eapply not_elem_of_nil. rewrite <-Hun. apply list_elem_of_filter.
    split; [|exact Hc]. split; [done|]. unfold ckey. by rewrite El.
Qed.


(** One task is dispatched and started, the agent's concurrency is raised to two and a
    second pass dispatches another task, the first claim is released and its task
    dispatched again, and the concurrency is put back to one: the two claims stay. *)
Definition demo_schedule (s : Scheduler KState) : Scheduler KState :=
  (@schedule_once KState (@KernelLeaseProvider pretty_uuid) demo_host DEFAULT_CLAIM_TTL (fun _ => "error")
    (fun _ => "text") pretty (fun _ _ _ _ => "digest") "g" None None None [] [] s).2.
Definition demo_started : Scheduler KState :=
  (@mark_execution_started KState demo_host (ClaimName "claim-g-t1-1-0") (demo_schedule demo_scheduler)).2.
Definition demo_concurrency (n : Z) (s : Scheduler KState) : Scheduler KState :=
  with_registry (AgentRegistry.update "a1" [FMaxConcurrency n] (_registry s)).2 s.
Definition demo_released : Scheduler KState :=
  (@_release_task_locked KState (@KernelLeaseProvider pretty_uuid) demo_host (fun _ => "error") "g" "t1" "failed" true None
    (demo_schedule (demo_concurrency 2 demo_started))).2.
Definition demo_again : Scheduler KState := demo_concurrency 1 (demo_schedule demo_released).
Definition demo_limit (k : string) : Z := 2.
Lemma demo_capped reg : bool_decide (Forall (fun r => ad_max_concurrency r.2 <= 2) reg) = true -> capped demo_limit reg.
Proof. intros Hf%bool_decide_eq_true k ag Hin. rewrite Forall_forall in Hf. apply (Hf (k, ag) Hin). Qed.

Lemma scheduler_invariant_witness :
  (tc_state <$> claim_list demo_again) = [ClaimState.RELEASED; ClaimState.ACTIVE; ClaimState.ACTIVE] /\
  (ad_max_concurrency ∘ snd <$> _registry demo_released, ad_max_concurrency ∘ snd <$> _registry demo_again) = ([2], [1]) /\
  Z.of_nat (active_count "a1" (claim_list demo_again)) <= 2.
Proof.
  split; [vm_compute; reflexivity|]. split; [vm_compute; reflexivity|].
  destruct (@scheduler_invariant KState (@KernelLeaseProvider pretty_uuid) demo_host DEFAULT_CLAIM_TTL
    (fun _ => "error") (fun _ => "fingerprint") (fun _ => "text") pretty pretty (fun _ _ _ _ => "digest") demo_limit
    demo_scheduler demo_again) as [Hagents _].
  - split; [apply NoDup_singleton|]. intros k ag Hin. apply list_elem_of_singleton in Hin. by simplify_eq.
  - apply demo_capped. vm_compute. reflexivity.
  - reflexivity.
  - apply (rtc_l _ _ (demo_schedule demo_scheduler)); [apply st_schedule|].
    apply (rtc_l _ _ demo_started); [apply st_started|].
    apply (rtc_l _ _ (demo_concurrency 2 demo_started));
      [apply st_registry; [apply rg_update|apply demo_capped; vm_compute; reflexivity]|].
    apply (rtc_l _ _ (demo_schedule (demo_concurrency 2 demo_started))); [apply st_schedule|].
    apply (rtc_l _ _ demo_released); [apply st_release_task|].
    apply (rtc_l _ _ (demo_schedule demo_released)); [apply st_schedule|].
    apply rtc_once. apply st_registry; [apply rg_update|]. apply demo_capped. vm_compute. reflexivity.
  - exact (Hagents "a1").
Defined.
