(* ===== verification/ReconciliationProps.v ===== *)
(** * Reconciliation: properties

    One claim at a time: what [reconcile] may do to it, on which answers of the
    authorities.  Then the whole walk, and the loop of passes. *)

From S2P Require Import Prelude KernelModels Storage KernelProviders PyString VpgModels Resources Claims ClaimProps Agents Matching Attempts Scheduler SchedulerProps Lifecycle Reconciliation LifecycleProps.
Open Scope Z_scope.

Section One.
Context {S : Type} `{LeaseProvider S, SchedulerHost S}.
Context (exc_str : py_error -> string).

(** ** The state with one claim changed *)

(** All but the host, the resources, the events and the claim objects. *)
Definition frame (s : Scheduler S) :=
  (claim_rows s, attempt_objects s, attempts_by_id s, attempt_rows s, wall_clock (world s)).
(** A question to an authority, and what became of it. *)
Inductive asks (h : S) : S -> Prop :=
  | ask_leases uri : asks h (provider_list_for_resource uri h).2
  | ask_release lid : asks h (provider_release lid h).2
  | ask_validity g t : asks h (vpg_task_validity g t h).2
  | ask_payload g t : asks h (vpg_task_node_payload g t h).2
  | ask_bindings lookup g t : vpg_task_evidence_bindings = Some lookup -> asks h (lookup g t h).2
  | ask_process pid : asks h (host_process_get pid h).2.
(** The authorities stand at [h] after questions asked since [s]. *)
Definition since (s : Scheduler S) (h : S) : Prop := rtc asks (provider (world s)) h.
Lemma since_trans s s1 h : since s (provider (world s1)) -> since s1 h -> since s h.
Proof. unfold since. intros. by etransitivity. Qed.
(** [s] is [s0] with the claim [r] being [c], as far as reconciliation reads it. *)
Definition at_claim (r : nat) (c : TaskClaim) (s0 s : Scheduler S) : Prop :=
  (objects (world s) = <[r := c]> (objects (world s0)) /\ frame s = frame s0) /\ since s0 (provider (world s)).

Definition seen (s : Scheduler S) := (objects (world s), frame s).
(** Nothing but questions. *)
Definition reads (s s' : Scheduler S) : Prop := seen s' = seen s /\ since s (provider (world s')).
#[local] Instance reads_preorder : PreOrder reads.
Proof.
  split; [intros s; split; [done|apply rtc_refl]|]. intros x y z [E1 R1] [E2 R2]. split; [congruence|]. by eapply since_trans.
Qed.
Lemma on_host_reads {A} (m : M S A) : (forall h, asks h (m h).2) -> within reads (on_host m).
Proof.
  intros Hm s. unfold on_host, on_world. specialize (Hm (provider (world s))).
  destruct (m (provider (world s))) as [r h]. split; [done|]. by apply rtc_once.
Qed.
Lemma leases_reads g t : within reads (on_host (LeaseAdapter.list_for_task g t)).
Proof. apply on_host_reads. intros h. apply ask_leases. Qed.
Lemma release_reads lid : within reads (on_host (LeaseAdapter.release lid)).
Proof. apply on_host_reads. intros h. apply ask_release. Qed.
Lemma validity_reads g t : within reads (on_host (vpg_task_validity g t)).
Proof. apply on_host_reads. intros h. apply ask_validity. Qed.
Lemma payload_reads g t : within reads (on_host (vpg_task_node_payload g t)).
Proof. apply on_host_reads. intros h. apply ask_payload. Qed.
Lemma process_reads pid : within reads (on_host (host_process_get pid)).
Proof. apply on_host_reads. intros h. apply ask_process. Qed.
Hint Resolve leases_reads release_reads validity_reads payload_reads process_reads : lhos.

Lemma at_claim_seen r c s0 s s' : reads s s' -> at_claim r c s0 s -> at_claim r c s0 s'.
Proof.
  intros [E R] [[Ho Hf] R0]. unfold seen in E. injection E as E1 E2 E3 E4 E5 E6. split; [|by eapply since_trans].
  split; [congruence|]. unfold frame in *. congruence.
Qed.
Lemma at_claim_refl r c s : objects (world s) !! r = Some c -> at_claim r c s s.
Proof. intros E. split; [|apply rtc_refl]. split; [|done]. by rewrite list_insert_id. Qed.
Lemma at_claim_lookup r c c0 s0 s :
  objects (world s0) !! r = Some c0 -> at_claim r c s0 s -> objects (world s) !! r = Some c.
Proof. intros E0 [[Ho _] _]. rewrite Ho. apply list_lookup_insert_eq. by eapply lookup_lt_Some. Qed.
Lemma claim_at_run r c c0 s0 s :
  objects (world s0) !! r = Some c0 -> at_claim r c s0 s -> claim_at r s = (Ok c, s).
Proof. intros E0 Hs. unfold claim_at. run_m. by rewrite (at_claim_lookup r c c0 s0 s E0 Hs). Qed.
Lemma update_claim_run r f c c0 s0 s :
  objects (world s0) !! r = Some c0 -> at_claim r c s0 s ->
  exists s', update_claim r f s = (Ok tt, s') /\ at_claim r (f c) s0 s'.
Proof.
  intros E0 Hs. pose proof (at_claim_lookup r c c0 s0 s E0 Hs) as E. destruct Hs as [[Ho Hf] HR].
  unfold update_claim, on_world, call. rewrite E. cbn. eexists. split; [reflexivity|]. split; [|exact HR]. split; cbn.
  - by rewrite Ho, list_insert_insert_eq.
  - unfold frame in *. cbn. done.
Qed.

(** A read, then the rest. *)
Lemma bind_seen {A B} (m : M (Scheduler S) A) (k : A -> M (Scheduler S) B) s (P : result B * Scheduler S -> Prop) :
  within reads m ->
  (forall a s1, reads s s1 -> P (k a s1)) -> (forall e s1, reads s s1 -> P (Raise e, s1)) ->
  P ((m ≫= k) s).
Proof.
  intros Hm Hk He. unfold mbind, M_bind. specialize (Hm s). destruct (m s) as [[a|e] s1]; auto.
Qed.

(** ** What the authorities said *)

(** The lease the claim is entitled to among those of its task. *)
Definition matching (c : TaskClaim) (l : LeaseInfo) : Prop :=
  match tc_lease_id c with Some lid => li_lease_id l = Some lid | None => owned_by (tc_process_id c) l = true end.
Definition looked_up (s : Scheduler S) (c : TaskClaim) (answer : option LeaseInfo) : Prop :=
  exists h h' ls, since s h /\ provider_list_for_resource (claim_resource_uri (tc_graph_id c) (tc_task_id c)) h = (Ok ls, h') /\
    match answer with
    | Some l => l ∈ ls /\ matching c l
    | None => forall l, l ∈ ls -> ~ matching c l
    end.
(** Ownership ended: no lease of the claim exists, or its release was confirmed. *)
Definition settled (s : Scheduler S) (c c' : TaskClaim) : Prop :=
  looked_up s c None \/
  exists lid h h', tc_lease_id c' = Some lid /\ lid <> "" /\ since s h /\ provider_release lid h = (Ok true, h').
(** The lease has the empty name, and is never given back. *)
Definition nameless (c' : TaskClaim) : Prop := tc_lease_id c' = Some "".
(** The graph calls the task verified; the claim has a finished attempt, and when the
    graph service has a lookup for evidence, some evidence of the task names this claim
    and this attempt. *)
Definition own_evidence (s : Scheduler S) (c : TaskClaim) : Prop :=
  (exists h h', since s h /\ vpg_task_validity (tc_graph_id c) (tc_task_id c) h = (Ok (Some "verified"), h')) /\
  exists ar a, get_attempt_for_claim (tc_claim_id c) s = Some (ar, a) /\ finished_attempt a = true /\
    forall lookup, vpg_task_evidence_bindings = Some lookup ->
      exists h h' bs b, since s h /\ lookup (tc_graph_id c) (tc_task_id c) h = (Ok bs, h') /\ Some b ∈ bs /\
        binding_matches c a b = true.
Definition alive (s : Scheduler S) (pid : string) : Prop :=
  exists h h' st, since s h /\ host_process_get pid h = (Ok (Some st), h') /\ st <> Some "exited" /\ st <> Some "failed".
(** Process and lease are live at the instant of the walk. *)
Definition seen_live (s : Scheduler S) (c : TaskClaim) : Prop :=
  alive s (tc_process_id c) /\
  exists l, looked_up s c (Some l) /\ is_lease_active (wall_clock (world s)) (Some l) = Ok true.

(** An answer given later in the walk was given since its start. *)
Lemma looked_up_since s s1 c answer : since s (provider (world s1)) -> looked_up s1 c answer -> looked_up s c answer.
Proof. intros HR (h & h' & ls & Hh & ?). exists h, h', ls. split; [by eapply since_trans|done]. Qed.
Lemma settled_since s s1 c c' : since s (provider (world s1)) -> settled s1 c c' -> settled s c c'.
Proof.
  intros HR [?|(lid & h & h' & ? & ? & Hh & ?)]; [left; by eapply looked_up_since|right].
  exists lid, h, h'. split_and!; [done|done|by eapply since_trans|done].
Qed.
Lemma alive_since s s1 pid : since s (provider (world s1)) -> alive s1 pid -> alive s pid.
Proof. intros HR (h & h' & st & Hh & ?). exists h, h', st. split; [by eapply since_trans|done]. Qed.

Lemma on_host_run {A} (m : M S A) (s : Scheduler S) a s1 :
  on_host m s = (Ok a, s1) -> exists h', m (provider (world s)) = (Ok a, h').
Proof. unfold on_host, on_world. destruct (m (provider (world s))) as [r h']. intros [= -> _]. by exists h'. Qed.

Lemma lease_named_spec lid ls :
  match lease_named lid ls with
  | Ok (Some l) => l ∈ ls /\ li_lease_id l = Some lid
  | Ok None => forall l, l ∈ ls -> li_lease_id l <> Some lid
  | Raise _ => True
  end.
Proof.
  induction ls as [|l ls IH]; cbn; [set_solver|]. destruct (li_lease_name l) as [|i|t] eqn:E; [done| |].
  - destruct (String.eqb_spec i lid) as [->|Hne].
    + split; [set_solver|]. unfold li_lease_id. by rewrite E.
    + destruct (lease_named lid ls) as [[l'|]|]; [set_solver| |done]. intros l' [->|Hin]%elem_of_cons; [|by apply IH].
      unfold li_lease_id. rewrite E. congruence.
  - destruct (lease_named lid ls) as [[l'|]|]; [set_solver| |done]. intros l' [->|Hin]%elem_of_cons; [|by apply IH].
    unfold li_lease_id. by rewrite E.
Qed.
Lemma lookup_spec c s :
  match _lease_lookup_for_claim c s with
  | (Ok answer, s1) => reads s s1 /\ looked_up s c answer
  | (Raise _, s1) => reads s s1
  end.
Proof.
  unfold _lease_lookup_for_claim, mbind, M_bind. pose proof (leases_reads (tc_graph_id c) (tc_task_id c) s) as Hk.
  destruct (on_host _ s) as [[ls|e] s1] eqn:E; [|done]. cbn in Hk. destruct (on_host_run _ _ _ _ E) as [h' Hq]. clear E.
  assert (forall answer, match answer with Some l => l ∈ ls /\ matching c l | None => forall l, l ∈ ls -> ~ matching c l end ->
    looked_up s c answer) as Hans.
  { intros answer Ha. exists (provider (world s)), h', ls. split; [apply rtc_refl|done]. }
  revert Hans. unfold matching. destruct (tc_lease_id c) as [lid|]; cbn; intros Hans.
  - unfold of_result. pose proof (lease_named_spec lid ls) as Hn.
    destruct (lease_named lid ls) as [[l|]|]; [by split; [|apply (Hans (Some l))]|by split; [|apply (Hans None)]|done].
  - split; [done|]. destruct (List.find (owned_by (tc_process_id c)) ls) as [l|] eqn:Ef.
    + apply find_some in Ef as [Hin Ho]. apply (Hans (Some l)). split; [by apply list_elem_of_In|done].
    + apply (Hans None). intros l Hin. rewrite (find_none _ _ Ef l) by (by apply list_elem_of_In). done.
Qed.

Lemma verified_spec s c :
  match _vpg_task_verified (tc_graph_id c) (tc_task_id c) (Some c) s with
  | (Ok b, s1) => reads s s1 /\ (b = true -> own_evidence s c)
  | (Raise _, s1) => reads s s1
  end.
Proof.
  unfold _vpg_task_verified. unfold mbind at 1, M_bind at 1.
  pose proof (validity_reads (tc_graph_id c) (tc_task_id c) s) as K1.
  destruct (on_host _ s) as [[v|e] s1] eqn:E1; [|done]. destruct (on_host_run _ _ _ _ E1) as [h1 V1]. cbn [snd] in K1.
  case_bool_decide as Hv; [|done]. cbn [negb]. subst v. unfold _evidence_matches_active_attempt.
  rewrite (bind_Ok (gets _) _ s1 _ s1 eq_refl).
  assert (get_attempt_for_claim (tc_claim_id c) s1 = get_attempt_for_claim (tc_claim_id c) s) as ->.
  { destruct K1 as [K1 _]. unfold seen, frame in K1. injection K1 as _ _ Eo Ei _ _. unfold get_attempt_for_claim, attempt_refs. by rewrite Eo, Ei. }
  destruct (get_attempt_for_claim (tc_claim_id c) s) as [[ar a]|] eqn:Ea; [|done].
  destruct (finished_attempt a) eqn:Hfin; [|done]. cbn [negb].
  assert ((exists h h', since s h /\ vpg_task_validity (tc_graph_id c) (tc_task_id c) h = (Ok (Some "verified"), h'))) as Hval.
  { exists (provider (world s)), h1. split; [apply rtc_refl|done]. }
  destruct vpg_task_evidence_bindings as [lookup|] eqn:El.
  2: { split; [done|]. intros _. split; [done|]. exists ar, a. split_and!; [done|done|]. congruence. }
  unfold mbind, M_bind, try_except.
  pose proof (on_host_reads (lookup (tc_graph_id c) (tc_task_id c)) ltac:(intros h; by apply ask_bindings) s1) as K2.
  destruct (on_host (lookup _ _) s1) as [[bs|e] s2] eqn:E2; cbn in K2 |- *; (split; [by transitivity s1|]); [|done].
  intros (ob & Hin & Hb)%existsb_exists. destruct ob as [b|]; [|done]. destruct (on_host_run _ _ _ _ E2) as [h2 V2].
  split; [done|]. exists ar, a. split_and!; [done|done|]. intros lk Elk. assert (lk = lookup) as -> by congruence.
  exists (provider (world s1)), h2, bs, b. split_and!; [apply K1|done|by apply list_elem_of_In|done].
Qed.
Lemma stale_seen g t c : within reads (_vpg_task_stale g t c).
Proof. unfold _vpg_task_stale. solve_within. Qed.
Lemma alive_spec s pid :
  match _process_is_alive pid s with
  | (Ok b, s1) => reads s s1 /\ (b = true -> alive s pid)
  | (Raise _, s1) => reads s s1
  end.
Proof.
  unfold _process_is_alive, mbind, M_bind. pose proof (process_reads pid s) as K1.
  destruct (on_host _ s) as [[p|e] s1] eqn:E1; [|done]. destruct (on_host_run _ _ _ _ E1) as [h1 V1]. cbn in K1 |- *.
  split; [done|]. destruct p as [st|]; [|done]. intros [Ha Hb]%bool_decide_eq_true.
  exists (provider (world s)), h1, st. split; [apply rtc_refl|done].
Qed.

(** ** Repairs *)

(** A claim agrees with the authorities: it was terminal and is untouched; it stays
    ACTIVE and live; it is lost or completed with its ownership ended, or with a lease
    that has no name to release it by. *)
Definition agrees (s0 : Scheduler S) (c c' : TaskClaim) : Prop :=
  (tc_state c ∈ TERMINAL_CLAIM_STATES /\ c' = c) \/
  (tc_state c = ClaimState.ACTIVE /\ tc_state c' = ClaimState.ACTIVE /\ seen_live s0 c) \/
  ((tc_state c ∉ TERMINAL_CLAIM_STATES) /\ tc_state c' = ClaimState.LOST /\ (settled s0 c c' \/ nameless c')) \/
  (tc_state c = ClaimState.ACTIVE /\ tc_state c' = ClaimState.COMPLETED /\ (settled s0 c c' \/ nameless c') /\ own_evidence s0 c).
Definition reconciled (s0 : Scheduler S) (c : TaskClaim) (ok : bool) (c' : TaskClaim) : Prop :=
  if ok then agrees s0 c c' else tc_state c' = tc_state c.
Definition is_ok {A} (r : result A) : bool := match r with Ok _ => true | Raise _ => false end.
(** The outcome of running a repair of claim [r]. *)
Definition repaired (r : nat) (s0 : Scheduler S) (c : TaskClaim)
    (x : result ReconciliationResult * Scheduler S) : Prop :=
  exists c', at_claim r c' s0 x.2 /\ reconciled s0 c (is_ok x.1) c'.

Section Claim.
Context (r : nat) (s0 : Scheduler S) (c : TaskClaim) (E0 : objects (world s0) !! r = Some c).
Implicit Types (s : Scheduler S) (d : TaskClaim).

Lemma raise_repaired e s d : at_claim r d s0 s -> tc_state d = tc_state c -> repaired r s0 c (Raise e, s).
Proof. intros Hs Hd. by exists d. Qed.

(** A found lease is bound to the claim, which keeps its state. *)
Definition bound_to (d : TaskClaim) : Prop :=
  tc_state d = tc_state c /\ (tc_lease_id d <> None).
Lemma bind_lease_run l s d :
  at_claim r d s0 s -> tc_state d = tc_state c ->
  match bind_lease r l s with
  | (Ok _, s1) => exists d', at_claim r d' s0 s1 /\ bound_to d'
  | (Raise _, s1) => at_claim r d s0 s1
  end.
Proof.
  intros Hs Hd. unfold bind_lease. rewrite (bind_Ok _ _ _ _ _ (claim_at_run r d c s0 s E0 Hs)).
  destruct (_bind_claim_lease l d) as [d'|e] eqn:Eb; [|done].
  rewrite (bind_Ok (of_result (Ok d')) _ s d' s eq_refl).
  destruct (update_claim_run r (fun _ => d') d c s0 s E0 Hs) as (s1 & -> & Hs1). exists d'. split; [done|].
  unfold _bind_claim_lease in Eb. unfold bound_to. rewrite <-Hd. repeat case_match; try done; by injection Eb as <-.
Qed.
Lemma bind_discovered_run l s :
  at_claim r c s0 s ->
  match _bind_discovered_lease r (Some l) s with
  | (Ok _, s1) => exists d', at_claim r d' s0 s1 /\ bound_to d'
  | (Raise _, s1) => at_claim r c s0 s1
  end.
Proof.
  intros Hs. unfold _bind_discovered_lease. rewrite (bind_Ok _ _ _ _ _ (claim_at_run r c c s0 s E0 Hs)).
  destruct (tc_lease_id c) as [lid|] eqn:El; [|by apply bind_lease_run]. cbn. exists c. split; [done|].
  split; [done|]. by rewrite El.
Qed.

Lemma bind_none_run s : at_claim r c s0 s -> _bind_discovered_lease r None s = (Ok tt, s).
Proof. intros Hs. unfold _bind_discovered_lease. by rewrite (bind_Ok _ _ _ _ _ (claim_at_run r c c s0 s E0 Hs)). Qed.

Lemma release_lease_run s d res :
  at_claim r d s0 s -> bound_to d ->
  match _release_claim_lease exc_str r res s with
  | (Ok _, s1) => at_claim r d s0 s1 /\ (settled s0 c d \/ nameless d)
  | (Raise _, s1) => at_claim r d s0 s1
  end.
Proof.
  intros Hs [Hst Hl]. unfold _release_claim_lease. rewrite (bind_Ok _ _ _ _ _ (claim_at_run r d c s0 s E0 Hs)).
  destruct (tc_lease_id d) as [[|a lid]|] eqn:El; [split; [done|by right]| |done].
  unfold LeaseAdapter.release. unfold mbind at 1, M_bind at 1, try_except.
  pose proof (release_reads (String a lid) s) as K. unfold LeaseAdapter.release in K.
  destruct (on_host (provider_release (String a lid)) s) as [[b|e] s1] eqn:E1; cbn in K.
  2: { cbn. by apply (at_claim_seen _ _ _ s). }
  pose proof (proj2 Hs) as HR. apply (at_claim_seen _ _ _ _ s1) in Hs; [|done]. destruct b; cbn; [|done]. split; [done|]. left. right.
  destruct (on_host_run _ _ _ _ E1) as [h' V]. exists (String a lid), (provider (world s)), h'. by rewrite El.
Qed.

(** The claim ends: [LOST] or [COMPLETED]. *)
Lemma lose_run reason s d (present : bool) res :
  at_claim r d s0 s -> (if present then bound_to d else tc_state d = tc_state c /\ looked_up s0 c None) ->
  tc_state c ∉ TERMINAL_CLAIM_STATES ->
  repaired r s0 c (_lose_claim exc_str r reason present res s).
Proof.
  intros Hs Hd Hnt. unfold _lose_claim.
  assert (forall s1 res', at_claim r d s0 s1 -> (settled s0 c d \/ nameless d) -> repaired r s0 c
    ((t ← now; update_claim r (finished ClaimState.LOST reason t);; claim ← claim_at r;
      mret (add (claim_issue "claim_lost" reason claim) (count_lost res'))) s1)) as Hend.
  { intros s1 res' Hs1 Hset. rewrite (bind_Ok now _ s1 _ s1 eq_refl).
    destruct (update_claim_run r (finished ClaimState.LOST reason (wall_clock (world s1))) d c s0 s1 E0 Hs1) as (s2 & E2 & Hs2).
    rewrite (bind_Ok _ _ _ _ _ E2), (bind_Ok _ _ _ _ _ (claim_at_run r _ c s0 s2 E0 Hs2)).
    eexists. split; [exact Hs2|]. right. right. left. split_and!; [done|done|].
    exact Hset. }
  destruct present.
  - pose proof (release_lease_run s d res Hs Hd) as Hr. unfold mbind at 1, M_bind at 1.
    destruct (_release_claim_lease exc_str r res s) as [[res'|e] s1]; [destruct Hr; by apply Hend|].
    apply (raise_repaired _ _ d); [done|apply Hd].
  - rewrite (bind_Ok (mret res) _ s res s eq_refl). apply Hend; [done|]. left. left. apply Hd.
Qed.
Lemma reclaim_repairs reason s res :
  at_claim r c s0 s -> tc_state c ∉ TERMINAL_CLAIM_STATES -> repaired r s0 c (reclaim exc_str r c reason res s).
Proof.
  intros Hs Hnt. unfold reclaim. pose proof (lookup_spec c s) as Hl. unfold mbind at 1, M_bind at 1.
  destruct (_lease_lookup_for_claim c s) as [[answer|e] s1].
  2: { apply (raise_repaired _ _ c); [|done]. by apply (at_claim_seen _ _ _ s). }
  destruct Hl as [K Hl]. apply (looked_up_since s0) in Hl; [|apply Hs]. apply (at_claim_seen _ _ _ _ s1) in Hs; [|done]. destruct answer as [l|].
  - pose proof (bind_discovered_run l s1 Hs) as Hb. unfold mbind at 1, M_bind at 1.
    destruct (_bind_discovered_lease r (Some l) s1) as [[[]|e] s2]; [|by apply (raise_repaired _ _ c)].
    destruct Hb as (d & Hd & Hbd). by apply (lose_run _ _ d).
  - rewrite (bind_Ok _ _ _ _ _ (bind_none_run s1 Hs)). by apply (lose_run _ _ c).
Qed.

(** The claim of a verified task *)
Lemma complete_run s res :
  at_claim r c s0 s -> tc_state c = ClaimState.ACTIVE -> own_evidence s0 c ->
  repaired r s0 c ((lease ← _lease_lookup_for_claim c;
    res ← match lease with
          | Some _ => _bind_discovered_lease r lease ;; _release_claim_lease exc_str r res
          | None => mret res
          end;
    t ← now;
    update_claim r (finished ClaimState.COMPLETED "vpg_task_verified_claim_completed" t) ;;
    mret (add (claim_issue "task_verified_claim_completed" "Task verified by VPG; claim completed" c)
            (count_completed res))) s).
Proof.
  intros Hs Hst Hv. pose proof (lookup_spec c s) as Hl. unfold mbind at 1, M_bind at 1.
  match goal with |- context [mbind ?k] => set (fin := k) end.
  assert (forall s2 d res', at_claim r d s0 s2 -> (settled s0 c d \/ nameless d) -> repaired r s0 c (fin res' s2)) as Hend.
  { intros s2 d res' Hs2 Hset. unfold fin. rewrite (bind_Ok now _ s2 _ s2 eq_refl).
    destruct (update_claim_run r (finished ClaimState.COMPLETED "vpg_task_verified_claim_completed" (wall_clock (world s2)))
      d c s0 s2 E0 Hs2) as (s3 & E3 & Hs3). rewrite (bind_Ok _ _ _ _ _ E3).
    eexists. split; [exact Hs3|]. right. right. right. split_and!; [done|done| |done].
    exact Hset. }
  clearbody fin. destruct (_lease_lookup_for_claim c s) as [[answer|e] s2].
  2: { apply (raise_repaired _ _ c); [|done]. by apply (at_claim_seen _ _ _ s). }
  destruct Hl as [K2 Hl]. apply (looked_up_since s0) in Hl; [|apply Hs]. apply (at_claim_seen _ _ _ _ s2) in Hs; [|done]. destruct answer as [l|].
  - pose proof (bind_discovered_run l s2 Hs) as Hb. unfold mbind at 1, M_bind at 1. unfold mbind at 1, M_bind at 1.
    destruct (_bind_discovered_lease r (Some l) s2) as [[[]|e] s3]; [|by apply (raise_repaired _ _ c)].
    destruct Hb as (d & Hd & Hbd). pose proof (release_lease_run s3 d res Hd Hbd) as Hr.
    destruct (_release_claim_lease exc_str r res s3) as [[res'|e] s4]; [destruct Hr; by apply (Hend _ d)|].
    apply (raise_repaired _ _ d); [done|apply Hbd].
  - rewrite (bind_Ok (mret res) _ s2 res s2 eq_refl). apply (Hend _ c); [done|by left; left].
Qed.

(** The claim of a live process keeps its state as long as its lease is live. *)
Lemma live_run s res :
  reads s0 s -> tc_state c = ClaimState.ACTIVE -> alive s0 (tc_process_id c) ->
  repaired r s0 c ((live_lease ← _lease_lookup_for_claim c;
    _bind_discovered_lease r live_lease ;;
    t ← now;
    live ← of_result (is_lease_active t live_lease);
    if negb live then _lose_claim exc_str r "kernel_lease_vanished_claim_lost" (is_some live_lease) res
    else mret res) s).
Proof.
  intros K Hst Hproc. assert (tc_state c ∉ TERMINAL_CLAIM_STATES) as Hnt by (rewrite Hst; set_solver).
  pose proof (at_claim_seen r c s0 s0 s K (at_claim_refl r c s0 E0)) as Hs.
  pose proof (lookup_spec c s) as Hl. unfold mbind at 1, M_bind at 1.
  destruct (_lease_lookup_for_claim c s) as [[answer|e] s4].
  2: { apply (raise_repaired _ _ c); [|done]. by apply (at_claim_seen _ _ _ s). }
  destruct Hl as [K4 Hl]. apply (looked_up_since s0) in Hl; [|apply Hs]. apply (at_claim_seen _ _ _ _ s4) in Hs; [|done].
  assert (match _bind_discovered_lease r answer s4 with
    | (Ok _, s5) => exists d, at_claim r d s0 s5 /\ if is_some answer then bound_to d else tc_state d = tc_state c /\ looked_up s0 c None
    | (Raise _, s5) => at_claim r c s0 s5 end) as Hb.
  { destruct answer as [l|]; [by apply bind_discovered_run|]. rewrite (bind_none_run s4 Hs). by exists c. }
  unfold mbind at 1, M_bind at 1. destruct (_bind_discovered_lease r answer s4) as [[[]|e] s5]; [|by apply (raise_repaired _ _ c)].
  destruct Hb as (d & Hd & Hbd). assert (tc_state d = tc_state c) as Hds by (destruct answer; apply Hbd).
  rewrite (bind_Ok now _ s5 _ s5 eq_refl). assert (wall_clock (world s5) = wall_clock (world s0)) as ->.
  { destruct Hd as [[_ Hf] _]. unfold frame in Hf. congruence. }
  destruct (is_lease_active (wall_clock (world s0)) answer) as [live|e] eqn:Elive.
  2: { by apply (raise_repaired _ _ d). }
  rewrite (bind_Ok (of_result (Ok live)) _ s5 live s5 eq_refl). destruct live; cbn [negb]; [|by apply (lose_run _ _ d)].
  exists d. split; [done|]. right. left. split_and!; [done|congruence|]. split; [done|].
  destruct answer as [l|]; [|done]. by exists l.
Qed.

Lemma active_run res :
  tc_state c = ClaimState.ACTIVE -> repaired r s0 c (_reconcile_active_claim exc_str r c res s0).
Proof.
  intros Hst. assert (tc_state c ∉ TERMINAL_CLAIM_STATES) as Hnt by (rewrite Hst; set_solver).
  assert (forall s1, reads s0 s1 -> at_claim r c s0 s1) as Hat.
  { intros s1 K. by apply (at_claim_seen _ _ _ s0), at_claim_refl. }
  assert (forall e s1, reads s0 s1 -> repaired r s0 c (Raise e, s1)) as HR.
  { intros e s1 K. by apply (raise_repaired _ _ c); [apply Hat|]. }
  unfold _reconcile_active_claim. pose proof (verified_spec s0 c) as Hv. unfold mbind at 1, M_bind at 1.
  destruct (_vpg_task_verified _ _ _ s0) as [[v|e] s1]; [|by apply HR]. destruct Hv as [K1 Hv]. destruct v.
  { apply complete_run; [by apply Hat|done|by apply Hv]. }
  apply bind_seen; [apply stale_seen|intros st s2 K2|intros e s2 K2; apply HR; by transitivity s1].
  assert (reads s0 s2) as K02 by (by transitivity s1). destruct st.
  { apply reclaim_repairs; [by apply Hat|done]. }
  pose proof (alive_spec s2 (tc_process_id c)) as Ha. unfold mbind at 1, M_bind at 1.
  destruct (_process_is_alive _ s2) as [[alive|e] s3]; [|apply HR; by transitivity s2]. destruct Ha as [K3 Ha].
  assert (reads s0 s3) as K03 by (by transitivity s2).
  destruct alive; cbn [negb]; [|apply reclaim_repairs; [by apply Hat|done]].
  apply live_run; [done|done|]. apply (alive_since s0 s2); [apply K02|by apply Ha].
Qed.
Lemma pending_run res :
  tc_state c ∉ TERMINAL_CLAIM_STATES -> repaired r s0 c (reconcile_pending_claim exc_str r c res s0).
Proof.
  intros Hnt. unfold reconcile_pending_claim. pose proof (lookup_spec c s0) as Hl. unfold mbind at 1, M_bind at 1.
  pose proof (at_claim_refl r c s0 E0) as Hs.
  destruct (_lease_lookup_for_claim c s0) as [[answer|e] s1].
  2: { apply (raise_repaired _ _ c); [|done]. by apply (at_claim_seen _ _ _ s0). }
  destruct Hl as [K Hl]. apply (looked_up_since s0) in Hl; [|apply Hs]. apply (at_claim_seen _ _ _ _ s1) in Hs; [|done]. destruct answer as [l|].
  - pose proof (bind_lease_run l s1 c Hs eq_refl) as Hb. unfold mbind at 1, M_bind at 1.
    destruct (bind_lease r l s1) as [[[]|e] s2]; [|by apply (raise_repaired _ _ c)].
    destruct Hb as (d & Hd & Hbd). by apply (lose_run _ _ d).
  - rewrite (bind_Ok now _ s1 _ s1 eq_refl).
    destruct (update_claim_run r (finished ClaimState.LOST "reconciled_orphan_proposed_no_kernel_lease" (wall_clock (world s1)))
      c c s0 s1 E0 Hs) as (s2 & E2 & Hs2). rewrite (bind_Ok _ _ _ _ _ E2).
    eexists. split; [exact Hs2|]. right. right. left. split_and!; [done|done|by left; left].
Qed.
Lemma reconcile_claim_run res : repaired r s0 c (reconcile_claim exc_str r res s0).
Proof.
  pose proof (at_claim_refl r c s0 E0) as Hs. unfold reconcile_claim.
  rewrite (bind_Ok _ _ _ _ _ (claim_at_run r c c s0 s0 E0 Hs)).
  destruct (tc_state c) eqn:Hst; try (by apply active_run); try (apply pending_run; rewrite Hst; set_solver);
    (exists c; split; [done|]; left; split; [rewrite Hst; set_solver|done]).
Qed.
End Claim.

(** ** The walk *)

Lemma own_evidence_since s s' c : frame s' = frame s -> since s (provider (world s')) -> own_evidence s' c -> own_evidence s c.
Proof.
  intros E HR [(h & h' & Hh & Hv) (ar & a & Ha & Hf & Hb)]. split; [exists h, h'; split; [by eapply since_trans|done]|].
  exists ar, a. split_and!; [|done|].
  - unfold frame in E. injection E as _ Eo Ei _ _. unfold get_attempt_for_claim, attempt_refs in *. by rewrite <-Eo, <-Ei.
  - intros lookup Hl. destruct (Hb lookup Hl) as (h1 & h2 & bs & b & Hh1 & ?). exists h1, h2, bs, b. split; [by eapply since_trans|done].
Qed.
Lemma agrees_frame s s' c c' : frame s' = frame s -> since s (provider (world s')) -> agrees s' c c' -> agrees s c c'.
Proof.
  intros E HR. assert (settled s' c c' \/ nameless c' -> settled s c c' \/ nameless c') as Hset.
  { intros [?|?]; [left; by eapply settled_since|by right]. }
  intros [?|[(? & ? & Hal & l & Hl & Hact)|[(? & ? & ?)|(? & ? & ? & ?)]]]; unfold agrees; [by left|right; left|right; right; left|right; right; right].
  - split_and!; [done|done|]. split; [by eapply alive_since|]. exists l. split; [by eapply looked_up_since|].
    unfold frame in E. injection E as _ _ _ _ Ec. by rewrite <-Ec.
  - split_and!; [done|done|by apply Hset].
  - split_and!; [done|done|by apply Hset|by eapply own_evidence_since].
Qed.
(** Rows not yet visited are as they were; a visited one agrees, or the walk stopped
    and its state is the old one. *)
Lemma walk_run rows s res :
  NoDup rows -> Forall (fun r => r < length (objects (world s)))%nat rows ->
  let x := fold_each (reconcile_claim exc_str) rows res s in
  frame x.2 = frame s /\ (forall r, r ∉ rows -> objects (world x.2) !! r = objects (world s) !! r) /\
  forall r c, r ∈ rows -> objects (world s) !! r = Some c -> exists c', objects (world x.2) !! r = Some c' /\
    (agrees s c c' \/ (is_ok x.1 = false /\ tc_state c' = tc_state c)).
Proof.
  revert s res. induction rows as [|r rows IH]; intros s res Hnd Hv; cbn [fold_each].
  { split_and!; [done|done|]. set_solver. }
  apply NoDup_cons in Hnd as [Hr Hnd]. apply Forall_cons in Hv as [Hlt Hv].
  destruct (lookup_lt_is_Some_2 _ _ Hlt) as [c Hc]. destruct (reconcile_claim_run r s c Hc res) as (c' & [[Ho Hf] HR] & Hrec).
  unfold mbind, M_bind. destruct (reconcile_claim exc_str r res s) as [[res1|e] s1]; cbn [fst snd is_ok] in *.
  - assert (Forall (fun r => r < length (objects (world s1)))%nat rows) as Hv1 by (by rewrite Ho, length_insert).
    specialize (IH s1 res1 Hnd Hv1). cbv zeta in IH. destruct (fold_each _ rows res1 s1) as [out s2]. cbn [fst snd] in *.
    destruct IH as (F2 & N2 & R2). split_and!; [congruence| |].
    + intros r' [Hne Hr']%not_elem_of_cons. rewrite N2, Ho by done. by apply list_lookup_insert_ne.
    + intros r' d [->|Hin]%elem_of_cons Hd.
      * exists c'. rewrite N2, Ho, list_lookup_insert_eq by done. split; [done|]. left. by assert (d = c) as -> by congruence.
      * destruct (R2 r' d Hin) as (d' & Hd' & Ha).
        { rewrite Ho. rewrite list_lookup_insert_ne; [done|]. by intros ->. }
        exists d'. split; [done|]. destruct Ha as [Ha|]; [left|by right]. by eapply agrees_frame.
  - split_and!; [done| |].
    + intros r' [Hne Hr']%not_elem_of_cons. rewrite Ho. by apply list_lookup_insert_ne.
    + intros r' d Hin Hd. rewrite Ho. destruct (decide (r' = r)) as [->|Hne].
      * exists c'. rewrite list_lookup_insert_eq by done. split; [done|]. right. by assert (d = c) as -> by congruence.
      * exists d. rewrite list_lookup_insert_ne by done. split; [done|]. by right.
Qed.
Lemma attempts_walk rows res : within (keeps (fun s => (objects (world s), claim_rows s))) (fold_each _reconcile_attempt rows res).
Proof.
  apply (fold_each_within _). intros r res'. set (π := fun s => _).
  assert (forall A (m : M S A), within (keeps π) (on_host m)) as Hh.
  { intros A m s. unfold on_host, on_world, keeps. by destruct (m (provider (world s))) as [r0 h]. }
  assert (forall A r (m : M Attempt A), within (keeps π) (on_attempt r m)) as Ha.
  { intros A r' m s. unfold on_attempt, keeps. destruct (attempt_objects s !! r') as [a|]; [|done]. by destruct (m a). }
  assert (within (keeps π) (now (S:=S))) as Hn by (by intros s).
  unfold _reconcile_attempt, _process_is_alive. solve_within.
Qed.
End One.

(** ** The loop of passes *)

Definition total_dispatched (out : list ScheduleResult) : Z :=
  Z.of_nat (sum_list ((fun r => length (dispatched r)) <$> out)).
(** The passes before the last dispatched something and stayed below the bound; the
    last one dispatched nothing or reached it. *)
Definition stopped (bound : Z) (out : list ScheduleResult) : Prop :=
  exists pre fin, out = pre ++ [fin] /\ Forall (fun r => dispatched r <> []) pre /\
    (pre = [] \/ total_dispatched pre < bound) /\
    (dispatched fin = [] \/ bound <= total_dispatched out).

Section Loop.
Context {S : Type} `{LeaseProvider S, SchedulerHost S}.
Context (lease_ttl : Z) (exc_str : py_error -> string) (container_text : json -> string) (iso_text : Z -> string)
  (digest : string -> Z -> string -> list AgentMatchScore -> string).

Lemma total_cons r out : total_dispatched (r :: out) = Z.of_nat (length (dispatched r)) + total_dispatched out.
Proof. unfold total_dispatched. cbn. lia. Qed.

Lemma until_idle_spec passes g bound mc total (s : Scheduler S) :
  (passes <> 0)%nat -> bound - total < Z.of_nat passes -> (total = 0 \/ total < bound) ->
  match until_idle lease_ttl exc_str container_text iso_text digest passes g bound mc total s with
  | (Ok out, _) => stopped (bound - total) out
  | _ => True
  end.
Proof.
  revert total s. induction passes as [|passes IH]; intros total s Hne Hfuel Hlow; [done|]. cbn [until_idle].
  unfold mbind at 1, M_bind at 1. destruct (schedule_once _ _ _ _ _ _ _ _ _ _ _ s) as [[res|e] s1]; [|done].
  case_bool_decide as Hd.
  { cbn. exists [], res. split_and!; [done|constructor|by left|by left]. }
  assert (1 <= Z.of_nat (length (dispatched res))) as Hlen by (destruct (dispatched res); [done|cbn; lia]).
  cbv zeta. destruct (Z.leb_spec bound (total + Z.of_nat (length (dispatched res)))) as [Hb|Hb].
  { cbn. exists [], res. split_and!; [done|constructor|by left|]. right. unfold total_dispatched. cbn. lia. }
  unfold mbind, M_bind. specialize (IH (total + Z.of_nat (length (dispatched res))) s1 ltac:(lia) ltac:(lia) ltac:(lia)).
  destruct (until_idle _ _ _ _ _ passes g bound mc _ s1) as [[out|e] s2]; [|done]. cbn.
  destruct IH as (pre & fin & -> & Hpre & Hsum & Hfin). exists (res :: pre), fin. split_and!.
  - done.
  - by constructor.
  - right. rewrite total_cons. destruct Hsum as [->|Hsum]; [unfold total_dispatched; cbn; lia|lia].
  - destruct Hfin as [|Hfin]; [by left|]. right. rewrite total_cons. lia.
Qed.
End Loop.

(** ** Properties *)


(** Scheduling until idle stops for a reason.  For any bound of at least zero the
    loop ends with a pass that dispatched nothing or with the bound reached, never
    because its range ran out; the passes before it dispatched something and
    stayed below the bound. *)
Theorem until_idle_stops {S} `{LeaseProvider S, SchedulerHost S} ttl exc ctext iso digest g bound mc (s : Scheduler S) :
  0 <= bound ->
  match schedule_until_idle ttl exc ctext iso digest g bound mc s with
  | (Ok out, _) => stopped bound out
  | (Raise _, _) => True
  end.
Proof.
  intros Hb. pose proof (until_idle_spec ttl exc ctext iso digest (Z.to_nat (bound + 1)) g bound mc 0 s
    ltac:(lia) ltac:(lia) ltac:(by left)) as Hs. rewrite Z.sub_0_r in Hs. exact Hs.
Qed.
Lemma until_idle_stops_witness :
  exists out s', @schedule_until_idle KState (@KernelLeaseProvider pretty_uuid) demo_host DEFAULT_CLAIM_TTL (fun _ => "error")
    (fun _ => "text") pretty (fun _ _ _ _ => "digest") "g" 5 None demo_scheduler = (Ok out, s') /\
  (dispatched <$> out) = [[("t1", "a1", "claim-g-t1-1-0")]; []] /\ stopped 5 out.
Proof.
  pose proof (@until_idle_stops KState (@KernelLeaseProvider pretty_uuid) demo_host DEFAULT_CLAIM_TTL (fun _ => "error")
    (fun _ => "text") pretty (fun _ _ _ _ => "digest") "g" 5 None demo_scheduler ltac:(lia)) as Hs.
  set (x := schedule_until_idle _ _ _ _ _ _ _ _ _) in *.
  assert (match x.1 with Ok out => dispatched <$> out = [[("t1", "a1", "claim-g-t1-1-0")]; []] | Raise _ => False end) as Hx
    by (vm_compute; reflexivity).
  destruct x as [[out|e] s']; [|done]. by exists out, s'.
Defined.

(** An authority whose processes are dead and which, while it is broken, does not
    confirm the release of the lease of [t2]. *)
Definition dead_lease (uri : string) : LeaseInfo := mkLeaseInfo (LeaseId uri) (Some uri) (Owner (Some "p1")) (IntToken 1) NoExpiry.
Definition dead_kernel : LeaseProvider bool := {|
  acquire_exclusive _ _ _ := mret None;
  provider_release lid := broken ← get_state; mret (negb (broken && String.eqb lid (claim_resource_uri "g" "t2")));
  provider_renew := None;
  provider_release_all_for_pid _ := mret 0%nat;
  provider_get _ := mret None;
  provider_list_for_resource uri := mret [dead_lease uri];
  provider_list_for_pid _ := mret [];
  provider_reclaim_expired := mret 0%nat |}.
Definition dead_host : SchedulerHost bool := {|
  vpg_current_graph_version _ := mret 1;
  vpg_ready_frontier _ := mret [];
  vpg_task_node_payload _ _ := mret (Some []);
  vpg_task_validity _ _ := mret (Some "unverified");
  vpg_task_evidence_bindings := None;
  host_process_get _ := mret (Some (Some "exited"));
  host_capabilities _ := None;
  store_append_events _ _ := mret tt;
  store_persist_state _ := mret tt;
  host_uuid := mret "id" |}.
Definition one_cpu : ResourceVector := mkVector 1 0 0 0 ∅.
Definition dead_claim (t : string) (st : ClaimState.t) : TaskClaim :=
  mkTaskClaim ("claim-" +:+ t) "g" 1 t "a1" "p1" (claim_resource_uri "g" t) (Some (claim_resource_uri "g" t)) (Some "p1")
    (Some 1) NoExpiry (Some ("res-" +:+ t)) one_cpu None st 0 None 0 (Some 0) None.
Definition dead_resources : AtomicResourceManager.t :=
  (AtomicResourceManager.try_reserve "a1" "claim-t2" one_cpu (Some "res-t2") 0
    (AtomicResourceManager.try_reserve "a1" "claim-t1" one_cpu (Some "res-t1") 0
      (AtomicResourceManager.__init__ {[ "a1" := mkVector 2 0 0 0 ∅ ]})).2).2.
Definition dead_scheduler : Scheduler bool :=
  mkScheduler (mkWorld true [dead_claim "t1" ClaimState.ACTIVE; dead_claim "t2" ClaimState.ACTIVE] [] 0) []
    dead_resources true None [0%nat; 1%nat] [] [] [] [] [] [] [] {[ "g:t1:v1"; "g:t2:v1" ]}.
Definition dead_reconcile (s : Scheduler bool) : result ReconciliationResult * Scheduler bool :=
  @_reconcile_locked bool dead_kernel dead_host (fun _ => "error") s.
(** The authority works again. *)
Definition mended (s : Scheduler bool) : Scheduler bool :=
  set_world (mkWorld false (objects (world s)) (_claims (world s)) (wall_clock (world s))) s.


(** A lease that is present under the empty name: its claim is lost without a release,
    and the lease stays. *)
Definition nameless_kernel : LeaseProvider bool := {|
  acquire_exclusive _ _ _ := mret None;
  provider_release _ := raise (RuntimeError "asked");
  provider_renew := None;
  provider_release_all_for_pid _ := mret 0%nat;
  provider_get _ := mret None;
  provider_list_for_resource uri := mret [mkLeaseInfo (LeaseId "") (Some uri) (Owner (Some "p1")) (IntToken 1) NoExpiry];
  provider_list_for_pid _ := mret [];
  provider_reclaim_expired := mret 0%nat |}.
Lemma nameless_lease_kept :
  let c := mkTaskClaim "claim-t1" "g" 1 "t1" "a1" "p1" (claim_resource_uri "g" "t1") (Some "") (Some "p1")
             (Some 1) NoExpiry None one_cpu None ClaimState.ACTIVE 0 None 0 (Some 0) None in
  let s := mkScheduler (mkWorld false [c] [] 0) [] dead_resources true None [0%nat] [] [] [] [] [] [] [] ∅ in
  let x := @reconcile bool nameless_kernel dead_host (fun _ => "error") s in
  is_ok x.1 = true /\ (tc_state <$> claim_list x.2) = [ClaimState.LOST].
Proof. cbv zeta. split; vm_compute; reflexivity. Qed.

(** A reconciliation that raises at one claim never settles the claims it lost before
    it: their reservations and idempotency keys survive every later run, so their
    capacity stays taken and their tasks cannot be dispatched at this version. *)
Lemma reconcile_partial_leak :
  let s1 := (dead_reconcile dead_scheduler).2 in
  let x := dead_reconcile (mended s1) in
  is_ok (dead_reconcile dead_scheduler).1 = false /\ is_ok x.1 = true /\
  (tc_state <$> claim_list x.2) = [ClaimState.LOST; ClaimState.LOST] /\
  AtomicResourceManager.used "a1" (_resource_manager x.2) = one_cpu /\
  _idempotent_keys x.2 = {[ "g:t1:v1" ]}.
Proof. cbv zeta. split_and!; vm_compute; reflexivity. Qed.

(** Releasing a claim guards against the other terminal states but not against
    REJECTED, which becomes RELEASED. *)
Lemma rejected_claim_released :
  let s := mkScheduler (mkWorld false [dead_claim "t1" ClaimState.REJECTED] [] 0) [] dead_resources true None [0%nat]
             [] [] [] [] [] [] [] ∅ in
  (tc_state <$> claim_list (@_release_claim_locked bool dead_kernel dead_host (fun _ => "error") 0 "late" s).2) =
  [ClaimState.RELEASED].
Proof. vm_compute. reflexivity. Qed.

(** The invariant check counts ACTIVE claims by task id alone, so tasks of two graphs
    with one id are reported as a violation. *)
Lemma violation_across_graphs :
  let c1 := dead_claim "t" ClaimState.ACTIVE in
  let c2 := mkTaskClaim "claim-2" "h" 1 "t" "a2" "p2" (claim_resource_uri "h" "t") (Some "l2") (Some "p2") (Some 2)
              NoExpiry None one_cpu None ClaimState.ACTIVE 0 None 0 (Some 0) None in
  detect_invariants_violations (fun _ => true) (fun _ => true) [c1; c2] = [ManyActive "t" 2].
Proof. vm_compute. reflexivity. Qed.
