(* ===== verification/Dispatcher.v ===== *)
(** * System calls (agent_os/kernel/dispatcher.py)

    The requests a program can make (kernel/models.py) and the handler of each in
    [SyscallDispatcher].  A request is an object of one of the request classes,
    with the [request_type] of its class; a field of [SubmitActionRequest] that
    was not given explicitly ([model_fields_set]) is [None].  The texts [str(exc)]
    and [type(exc).__name__] are arguments. *)

From S2P Require Import Prelude KernelModels StateMachine Storage Journal ProcessService CapabilityService SignalService LeaseService ActionService.

(** ** Requests *)

Record SpawnRequest : Type := mkSpawn {
  sp_program_id : string;
  sp_parent_pid : option string;
  sp_namespace_id : string;
  sp_resource_group_id : string;
  sp_initial_state : jobj }.

Record SubmitActionRequest : Type := mkSubmit {
  sa_device_type : string;
  sa_operation : string;
  sa_arguments : jobj;
  sa_resource_claims : list claim;
  sa_side_effect_class : option SideEffectClass.t;
  sa_recovery_policy : option RecoveryPolicy.t;
  sa_idempotency_key : option string;
  sa_timeout_seconds : option Z }.

(** The request classes; the last one stands for a request whose type has no
    handler, such as [ProgramStepRequest]. *)
Inductive request_body : Type :=
| Spawn (r : SpawnRequest)
| SubmitAction (r : SubmitActionRequest)
| InspectAction (aid : string)
| CancelAction (aid : string)
| AcquireResource (claims : list claim)
| ReleaseResource (ids : list string)
| Wait (condition : jobj)
| SendSignal (target sig_type : string) (pl : jobj)
| Checkpoint
| Restore (cid : string)
| Exit (code : string) (result : option string)
| OtherRequest (request_type : string).

Record KernelRequest : Type := mkRequest {
  request_id : string;
  req_pid : string;
  req_body : request_body }.

(** [req.model_copy(update={"pid": pid})] *)
Definition request_as (pid : string) (r : KernelRequest) : KernelRequest :=
  mkRequest (request_id r) pid (req_body r).

(** [req.side_effect_class], [req.recovery_policy] with their defaults *)
Definition effect_class (r : SubmitActionRequest) : SideEffectClass.t :=
  default SideEffectClass.PURE (sa_side_effect_class r).
Definition effect_policy (r : SubmitActionRequest) : RecoveryPolicy.t :=
  default RecoveryPolicy.RETRY (sa_recovery_policy r).

(** ** Assignments to the fields of a process control block *)

Definition pcb_set_capset (p : ProcessControlBlock) (c : string) : ProcessControlBlock :=
  mkPCB (pcb_pid p) (parent_pid p) (program_id p) (pcb_state p) (priority p) (effective_priority p)
    c (namespace_id p) (resource_group_id p) (program_state_ref p) (pending_request_id p)
    (wait_condition p) (checkpoint_ref p) (exit_code p) (result_ref p) (event_cursor p) (pcb_created_at p).
Definition pcb_set_checkpoint (p : ProcessControlBlock) (c : option string) : ProcessControlBlock :=
  mkPCB (pcb_pid p) (parent_pid p) (program_id p) (pcb_state p) (priority p) (effective_priority p)
    (capability_set_id p) (namespace_id p) (resource_group_id p) (program_state_ref p)
    (pending_request_id p) (wait_condition p) c (exit_code p) (result_ref p) (event_cursor p)
    (pcb_created_at p).

(** The identifiers the capabilities of [DEFAULT_CAPABILITIES] drew when their
    module was loaded. *)
Class DefaultCapabilities := default_capability_id : nat -> string.

Definition DEFAULT_CAPABILITIES_full `{DefaultCapabilities} : list Capability :=
  [mkCapability (default_capability_id 0) "device:model/mock" {["invoke"]} [];
   mkCapability (default_capability_id 1) "device:tool/mock" {["invoke"]} [];
   mkCapability (default_capability_id 2) "resource:workspace/*" {["acquire"; "release"]} [];
   mkCapability (default_capability_id 3) "process:signal/*" {["send"]} []].

Section Dispatcher.
Context `{UuidSource, ExcText, DefaultCapabilities} (strict_effect_contracts : bool).

(** [ev = KernelEvent(...); self._journal.append_event(ev); return ev] *)
Definition journaled (pid ty : string) (pl : jobj) : M KState KernelEvent :=
  ev ← new_event pid ty pl; append_event ev ;; mret ev.

(** ** Spawn *)

(** Who the child belongs to: the parent, the capabilities it hands down, the
    namespace and the resource group; [None] is an invalid parent. *)
Definition spawn_context (rpid : string) (r : SpawnRequest) (s : KState)
    : option (option string * option (list Capability) * string * string) :=
  if negb (String.eqb rpid "") then
    match get_process rpid s with
    | None => None
    | Some parent =>
        if bool_decide (sp_parent_pid r = None \/ sp_parent_pid r = Some rpid) then
          Some (Some rpid, Some (match get_capability_set rpid s with Some cs => capabilities cs | None => [] end),
                namespace_id parent, resource_group_id parent)
        else None
    end
  else
    match sp_parent_pid r with
    | Some _ => None
    | None => Some (None, None, if String.eqb (sp_namespace_id r) "" then "default" else sp_namespace_id r,
                    sp_resource_group_id r)
    end.

Definition _handle_spawn (rpid : string) (r : SpawnRequest) : M KState KernelEvent :=
  ctx ← gets (spawn_context rpid r);
  match ctx with
  | None => journaled rpid "SPAWN_FAILED" [("reason", JStr "invalid_parent")]
  | Some (parent, parent_capabilities, namespace, group) =>
      pcb ← ProcessService.spawn (sp_program_id r) namespace None parent group 10 (Some (sp_initial_state r));
      cap_set ← create_capability_set (pcb_pid pcb)
                  (Some (default DEFAULT_CAPABILITIES_full parent_capabilities));
      let pcb := pcb_set_capset pcb (set_id cap_set) in
      ProcessService._upsert_projection pcb ;;
      journaled (pcb_pid pcb) "SPAWN_COMPLETE"
        [("pid", JStr (pcb_pid pcb)); ("program_id", JStr (program_id pcb))]
  end.

(** ** Submit *)

(** The fields of the effect contract the request leaves to their defaults. *)
Definition missing_fields (r : SubmitActionRequest) : list string :=
  (if sa_side_effect_class r is Some _ then [] else ["side_effect_class"]) ++
  (if sa_recovery_policy r is Some _ then [] else ["recovery_policy"]).

(** The admission, with its compensation: whatever was reached is undone as far
    as possible and the exception is raised again. *)
Definition admit_with (pid aid : string) (leases : list ResourceLease) : M KState unit :=
  let ids := lease_id <$> leases in
  let tokens := foldl (fun d l => dict_set (resource_id l) (fencing_token l) d) [] leases in
  try_except
    (admit_action aid ;; mark_intent_durable aid ids (Some tokens) ;; mret tt)
    (fun exc =>
       try_finally
         (try_except
            (current ← gets (get_action aid);
             match current with
             | None => mret tt
             | Some acb =>
                 if decide (acb_state acb = ActionState.SUBMITTED) then reject aid (exc_str exc) ;; mret tt
                 else if decide (acb_state acb = ActionState.ADMITTED) then
                   fail aid (Some [("reason", JStr "admission_failed"); ("detail", JStr (exc_name exc))]) ;; mret tt
                 else mret tt
             end)
            (fun _ => mret tt))
         (suppress (release ids) ;; suppress (clear_waiters_for_pid pid)) ;;
       raise exc).

Definition _handle_submit_action (rid rpid : string) (r : SubmitActionRequest) : M KState KernelEvent :=
  if strict_effect_contracts && negb (bool_decide (missing_fields r = [])) then
    journaled rpid "ACTION_REJECTED"
      [("reason", JStr "effect_contract_required"); ("request_id", JStr rid);
       ("missing_fields", JList (JStr <$> missing_fields r));
       ("device_type", JStr (sa_device_type r)); ("operation", JStr (sa_operation r))]
  else
    enforce rpid (String.append "device:" (sa_device_type r)) "invoke" ;;
    for_each (fun c => enforce rpid (claim_resource c) "acquire") (sa_resource_claims r) ;;
    acb ← submit rpid (sa_device_type r) (sa_operation r) (Some (sa_arguments r)) (effect_class r)
            (effect_policy r) (sa_idempotency_key r) (sa_timeout_seconds r) None
            (Some (sa_resource_claims r));
    leases ← try_except
      (match sa_resource_claims r with
       | [] => mret []
       | claims => atomic_acquire rpid claims DEFAULT_LEASE_TTL
       end)
      (fun exc =>
         reject (action_id acb) (exc_str exc) ;; clear_waiters_for_pid rpid ;; raise exc);
    admit_with rpid (action_id acb) leases ;;
    new_event rpid "ACTION_READY_FOR_DISPATCH"
      [("action_id", JStr (action_id acb)); ("device_type", JStr (sa_device_type r))].

(** ** Inspect and cancel *)

(** The action, when it belongs to the caller. *)
Definition own_action (rpid aid : string) (s : KState) : option ActionControlBlock :=
  match get_action aid s with
  | Some acb => if String.eqb (acb_pid acb) rpid then Some acb else None
  | None => None
  end.

Definition _handle_inspect_action (rpid aid : string) : M KState KernelEvent :=
  found ← gets (own_action rpid aid);
  match found with
  | None => journaled rpid "ACTION_INSPECT_FAILED" [("action_id", JStr aid); ("reason", JStr "not_found")]
  | Some acb =>
      journaled rpid "ACTION_INSPECTED"
        [("action_id", JStr aid); ("state", JStr (ActionState.value (acb_state acb)));
         ("result", jobj_opt (acb_result acb)); ("error", jobj_opt (acb_error acb))]
  end.

Definition _handle_cancel_action (rpid aid : string) : M KState KernelEvent :=
  found ← gets (own_action rpid aid);
  match found with
  | None => new_event rpid "ACTION_CANCEL_FAILED" [("action_id", JStr aid); ("reason", JStr "not_found")]
  | Some acb =>
      cancel aid ;;
      release (lease_ids acb) ;;
      clear_waiters_for_pid (acb_pid acb) ;;
      new_event rpid "ACTION_CANCELLED" [("action_id", JStr aid)]
  end.

(** ** Acquire and release *)

Definition _handle_acquire (rpid : string) (claims : list claim) : M KState KernelEvent :=
  for_each (fun c => enforce rpid (claim_resource c) "acquire") claims ;;
  leases ← atomic_acquire rpid claims DEFAULT_LEASE_TTL;
  new_event rpid "RESOURCE_ACQUIRED"
    [("lease_ids", JList (JStr <$> (lease_id <$> leases)));
     ("resources", JList (JStr <$> (resource_id <$> leases)))].

(** [any(lease is None or lease.owner_pid != req.pid for lease in leases)] *)
Definition foreign_lease (rpid : string) (s : KState) (lid : string) : bool :=
  match get_lease lid s with
  | None => true
  | Some l => negb (String.eqb (owner_pid l) rpid)
  end.

Definition _handle_release (rpid : string) (ids : list string) : M KState KernelEvent :=
  foreign ← gets (fun s => existsb (foreign_lease rpid s) ids);
  if foreign : bool then
    new_event rpid "RESOURCE_RELEASE_FAILED" [("count", JInt 0); ("reason", JStr "not_found")]
  else
    count ← release ids;
    new_event rpid "RESOURCE_RELEASED"
      [("count", JInt (Z.of_nat count)); ("lease_ids", JList (JStr <$> ids))].

(** ** Wait and signal *)

Definition _handle_wait (rpid : string) (condition : jobj) : M KState KernelEvent :=
  transition rpid ProcessState.BLOCKED (Some condition) ;;
  new_event rpid "PROCESS_BLOCKED" [("condition", JObj condition)].

Definition _handle_signal (rpid target sig_type : string) (pl : jobj) : M KState KernelEvent :=
  enforce rpid (String.append "process:signal/" target) "send" ;;
  signal ← send target sig_type (Some rpid) (Some pl);
  new_event rpid "SIGNAL_SENT" [("signal_id", JStr (signal_id signal)); ("target_pid", JStr target)].

(** ** Checkpoint and restore *)

(** The INSERT; [checkpoint_id] is the primary key. *)
Definition insert_checkpoint (c : ProcessCheckpoint) : M KState unit :=
  transaction (
    rows ← gets checkpoints;
    raise_if (bool_decide (checkpoint_id c ∈ checkpoint_id <$> rows)) (IntegrityError "checkpoints") ;;
    modify (set_checkpoints (fun l => l ++ [c]))).

Definition _handle_checkpoint (rpid : string) : M KState KernelEvent :=
  opcb ← gets (get_process rpid);
  pcb ← some_or_raise opcb (ValueError "Process not found");
  offset ← gets next_offset;
  cid ← fresh_uuid;
  now ← gets clock_now;
  insert_checkpoint
    (mkCheckpoint cid rpid offset (event_cursor pcb) (pcb_dump pcb) (program_state_ref pcb)
       (stored_wait (wait_condition pcb)) 0 now) ;;
  ProcessService._upsert_projection (pcb_set_checkpoint pcb (Some cid)) ;;
  journaled rpid "CHECKPOINT_CREATED" [("checkpoint_id", JStr cid); ("journal_offset", JInt offset)].

(** [SELECT * FROM checkpoints WHERE checkpoint_id = ? AND pid = ?] *)
Definition find_checkpoint (cid pid : string) (s : KState) : option ProcessCheckpoint :=
  List.find (fun c => String.eqb (checkpoint_id c) cid && String.eqb (ck_pid c) pid) (checkpoints s).

Definition _handle_restore (rpid cid : string) : M KState KernelEvent :=
  row ← gets (find_checkpoint cid rpid);
  match row with
  | None => journaled rpid "CHECKPOINT_RESTORE_FAILED" [("checkpoint_id", JStr cid); ("reason", JStr "not_found")]
  | Some c => journaled rpid "CHECKPOINT_RESTORED"
                [("checkpoint_id", JStr cid); ("journal_offset", JInt (ck_journal_offset c))]
  end.

(** ** Exit *)

Definition _handle_exit (rpid code : string) (result : option string) : M KState KernelEvent :=
  transition rpid ProcessState.EXITED None ;;
  release_all_for_pid rpid ;;
  opcb ← gets (get_process rpid);
  match opcb with
  | Some pcb => ProcessService._upsert_projection (pcb_set_exit pcb (Some code) result)
  | None => mret tt
  end ;;
  journaled rpid "PROCESS_EXITED" [("exit_code", JStr code); ("result_ref", jstr_opt result)].

(** ** The table of handlers *)

Definition dispatch (r : KernelRequest) : M KState KernelEvent :=
  let pid := req_pid r in
  match req_body r with
  | Spawn q => _handle_spawn pid q
  | SubmitAction q => _handle_submit_action (request_id r) pid q
  | InspectAction aid => _handle_inspect_action pid aid
  | CancelAction aid => _handle_cancel_action pid aid
  | AcquireResource claims => _handle_acquire pid claims
  | ReleaseResource ids => _handle_release pid ids
  | Wait c => _handle_wait pid c
  | SendSignal target ty pl => _handle_signal pid target ty pl
  | Checkpoint => _handle_checkpoint pid
  | Restore cid => _handle_restore pid cid
  | Exit code result => _handle_exit pid code result
  | OtherRequest _ => raise (ValueError "Unknown request type")
  end.
End Dispatcher.
