(* ===== verification/Kernel.v ===== *)
(** * The kernel loop (agent_os/kernel/kernel.py)

    [AgentKernel] over its services: the tick, the step of a process, the dispatch
    of admitted actions to drivers, the recovery of running ones, the recovery from
    deadlocks, [spawn] and [run_until_idle].

    Drivers and programs are arguments ([Machine]).  A call of one is an [await]:
    while it is pending other coroutines of the same kernel may run, so the call is
    a computation over the whole kernel, database included, and may change anything.
    [dispatched] records the action ids of all calls of [driver.dispatch], in order;
    no definition reads it. *)

From S2P Require Import Prelude KernelModels StateMachine Storage Journal ProcessService CapabilityService SignalService LeaseService Deadlock ActionService Dispatcher.

(** ** What drivers and programs return (drivers/base.py, programs/base.py) *)

Inductive driver_status : Type := completed | running | failed | unknown.

Record DriverResult : Type := mkDriverResult {
  dr_status : driver_status;
  dr_output : jobj;
  dr_error : option jobj }.
Record DriverInspect : Type := mkDriverInspect {
  di_status : driver_status;
  di_output : jobj;
  di_error : option jobj }.

(** [ProgramStepResult.request] is [Any]: a request, or an object of another type. *)
Inductive program_request : Type :=
| Syscall (r : KernelRequest)
| NotARequest (type_name : string).

Record ProgramStepResult : Type := mkStepResult {
  new_state : jobj;
  psr_request : option program_request;
  psr_exit_code : option string;
  psr_result_ref : option string }.

(** ** The kernel object *)

Record AgentKernel (X Program Driver : Type) : Type := mkKernel {
  kdb : KState;
  (** the state of drivers, programs and of whatever else runs in the host *)
  outside : X;
  _programs : list (string * Program);
  _drivers : list (string * Driver);
  (** [Clock._logical] *)
  logical : Z;
  (** the calls of [driver.dispatch] so far *)
  dispatched : list string }.
Arguments mkKernel {X Program Driver}.
Arguments kdb {X Program Driver}.
Arguments outside {X Program Driver}.
Arguments _programs {X Program Driver}.
Arguments _drivers {X Program Driver}.
Arguments logical {X Program Driver}.
Arguments dispatched {X Program Driver}.

Class Machine (X Program Driver : Type) := {
  driver_dispatch : Driver -> string -> string -> jobj -> M (AgentKernel X Program Driver) DriverResult;
  driver_inspect : Driver -> string -> M (AgentKernel X Program Driver) DriverInspect;
  program_step : Program -> jobj -> option KernelEvent -> M (AgentKernel X Program Driver) ProgramStepResult;
  program_name : Program -> string }.

(** ** Dicts *)

(** [d.setdefault(k, v)] *)
Definition setdefault (k : string) (v : json) (d : jobj) : jobj :=
  match jget k d with Some _ => d | None => d ++ [(k, v)] end.
(** [{**d, k: v, ...}] *)
Definition dict_with (d : jobj) (items : jobj) : jobj :=
  foldl (fun d kv => dict_set kv.1 kv.2 d) d items.
(** [d or {}], [(d or {}).get(k, default)] *)
Definition get_or (k : string) (v : json) (d : option jobj) : json := default v (jget k (default [] d)).

(** ** Scheduling and recovery decisions *)

Module FIFOScheduler.
Definition select (ready : list ProcessControlBlock) : list ProcessControlBlock :=
  sort_on (fun p => (priority p, pcb_created_at p)) ready.
End FIFOScheduler.

Inductive recovery_mode : Type := retry_mode | inspect_mode | uncertain_mode.
#[global] Instance recovery_mode_eq_dec : EqDecision recovery_mode.
Proof. solve_decision. Defined.

Definition _unknown_recovery_mode (acb : ActionControlBlock) : recovery_mode :=
  match recovery_policy acb with
  | RecoveryPolicy.INSPECT => inspect_mode
  | RecoveryPolicy.UNCERTAIN | RecoveryPolicy.DEAD_LETTER => uncertain_mode
  | RecoveryPolicy.RETRY =>
      match side_effect_class acb with
      | SideEffectClass.PURE => if (retry_count acb <? 1)%Z then retry_mode else inspect_mode
      | SideEffectClass.IDEMPOTENT => inspect_mode
      | _ => uncertain_mode
      end
  end.

Definition _recovery_detail (acb : ActionControlBlock) (detail : jobj) : jobj :=
  let d := setdefault "side_effect_class" (JStr (SideEffectClass.value (side_effect_class acb))) detail in
  let d := setdefault "recovery_policy" (JStr (RecoveryPolicy.value (recovery_policy acb))) d in
  if decide (recovery_policy acb = RecoveryPolicy.DEAD_LETTER)
  then setdefault "recovery_disposition" (JStr "dead_letter") d else d.

(** [_retry_reservation_is_owned_elsewhere] *)
Definition _retry_reservation_is_owned_elsewhere (aid : string) (error : option string) (s : KState) : bool :=
  bool_decide (error = Some "retry_budget_exhausted") &&
  match get_action aid s with
  | None => false
  | Some current => retry_permitted current && (retry_count current =? 1)%Z
  end.

Definition _action_is_running (aid : string) (s : KState) : bool :=
  match get_action aid s with
  | Some a => bool_decide (acb_state a = ActionState.RUNNING)
  | None => false
  end.

(** The last of [list_by_pid]. *)
Definition _get_last_action_id (pid : string) (s : KState) : option string :=
  action_id <$> last (list_by_pid pid s).

Section Kernel.
Context {X Program Driver : Type} `{UuidSource, ExcText, DefaultCapabilities, !Machine X Program Driver}.
Context (strict_effect_contracts : bool).
Abbreviation Kernel := (AgentKernel X Program Driver).

(** A call of a service. *)
Definition on_db {A} (m : M KState A) : M Kernel A := fun k =>
  let '(r, s) := m (kdb k) in
  (r, mkKernel s (outside k) (_programs k) (_drivers k) (logical k) (dispatched k)).
Definition read {A} (f : KState -> A) : M Kernel A := gets (fun k => f (kdb k)).

(** [driver.dispatch(acb.action_id, acb.operation, acb.arguments)] *)
Definition call_dispatch (driver : Driver) (acb : ActionControlBlock) : M Kernel DriverResult :=
  modify (fun k => mkKernel (kdb k) (outside k) (_programs k) (_drivers k) (logical k)
                     (dispatched k ++ [action_id acb])) ;;
  driver_dispatch driver (action_id acb) (operation acb) (arguments acb).

Definition register_program (pid : string) (p : Program) : M Kernel unit :=
  modify (fun k => mkKernel (kdb k) (outside k) (dict_set pid p (_programs k)) (_drivers k) (logical k) (dispatched k)).
Definition register_driver (device : string) (d : Driver) : M Kernel unit :=
  modify (fun k => mkKernel (kdb k) (outside k) (_programs k) (dict_set device d (_drivers k)) (logical k) (dispatched k)).
Definition get_driver (device : string) (k : Kernel) : option Driver := assoc device (_drivers k).

(** ** Ending an action *)

(** [self._signal_service.send(target_pid=acb.pid, ..., source_pid="kernel", ...)] *)
Definition notify (acb : ActionControlBlock) (ty : string) (pl : jobj) : M KState unit :=
  send (acb_pid acb) ty (Some "kernel") (Some (("action_id", JStr (action_id acb)) :: pl)) ;; mret tt.

(** Fail a running action, release its leases, tell the owner if it was this
    call that failed it; [told] is the error of the signal. *)
Definition fail_and_release (acb : ActionControlBlock) (ids : list string) (error told : jobj)
    : M KState unit :=
  f ← fail_if_running (action_id acb) (Some error);
  release ids ;;
  if f : bool then notify acb "ACTION_FAILED" [("error", JObj told)] else mret tt.

(** The same towards UNCERTAIN, with the detail as given. *)
Definition uncertain_and_release (acb : ActionControlBlock) (ids : list string) (detail : jobj)
    : M KState bool :=
  marked ← mark_uncertain_if_running (action_id acb) (Some detail);
  release ids ;;
  (if marked : bool then notify acb "ACTION_UNCERTAIN" [("detail", JObj detail)] else mret tt) ;;
  mret marked.

Definition _mark_uncertain_and_release (acb : ActionControlBlock) (detail : jobj) : M KState unit :=
  uncertain_and_release acb (lease_ids acb) (_recovery_detail acb detail) ;; mret tt.

(** A driver reported completion: commit under the fences, or fail as stale. *)
Definition commit_and_release (acb : ActionControlBlock) (ids : list string) (output : jobj)
    (stale told : option string -> jobj) : M KState unit :=
  now ← gets clock_now;
  '(committed, fence_error) ← commit_if_fenced (action_id acb) (Some output) (Some now);
  if negb committed then fail_and_release acb ids (stale fence_error) (told fence_error)
  else release ids ;; notify acb "ACTION_COMPLETED" [("result", JObj output)].

Definition stale_completion (extra : jobj) (fence_error : option string) : jobj :=
  ("reason", JStr "stale_fenced_completion") :: extra ++ [("detail", jstr_opt fence_error)].

(** ** [_inspect_after_unknown] *)

Definition _inspect_after_unknown (acb : ActionControlBlock) (driver : Driver) (reason : string)
    : M Kernel unit :=
  is_running ← read (_action_is_running (action_id acb));
  if negb is_running then on_db (release (lease_ids acb)) ;; mret tt
  else
    r ← attempt (driver_inspect driver (action_id acb));
    match r with
    | Raise exc =>
        on_db (_mark_uncertain_and_release acb
          [("reason", JStr "inspect_failed"); ("source", JStr reason); ("error", JStr (exc_str exc));
           ("type", JStr (exc_name exc))])
    | Ok inspect =>
        match di_status inspect with
        | completed =>
            let stale := stale_completion [("source", JStr reason)] in
            on_db (commit_and_release acb (lease_ids acb) (di_output inspect) stale stale)
        | failed =>
            let error := match di_error inspect with
                         | Some (_ :: _ as e) => e
                         | _ => [("reason", JStr "inspection_failed")]
                         end in
            on_db (fail_and_release acb (lease_ids acb) error error)
        | unknown =>
            on_db (_mark_uncertain_and_release acb
              [("reason", JStr "inspection_unknown"); ("source", JStr reason)])
        | running => mret tt
        end
    end.

(** ** [_dispatch_pending_actions] *)

(** An admitted action that cannot be dispatched. *)
Definition refuse (acb : ActionControlBlock) (error : jobj) : M KState unit :=
  fail (action_id acb) (Some error) ;;
  release (lease_ids acb) ;;
  clear_waiters_for_pid (acb_pid acb) ;;
  notify acb "ACTION_FAILED" [("error", JObj error)].

(** The one retry of a PURE action after the driver raised: [current] is the row
    re-read after the call. *)
Definition retry_after_exception (acb current : ActionControlBlock) (driver : Driver)
    (initial_error : jobj) : M Kernel unit :=
  let ids := lease_ids acb in
  now ← read clock_now;
  '(reserved, contract_error) ← on_db (reserve_retry_if_fenced (action_id current) (Some now));
  if negb reserved then
    elsewhere ← read (_retry_reservation_is_owned_elsewhere (action_id current) contract_error);
    if elsewhere : bool then mret tt
    else
      on_db (uncertain_and_release acb ids (_recovery_detail current
        [("reason", JStr "retry_fencing_contract_invalid"); ("source", JStr "dispatch_exception");
         ("detail", jstr_opt contract_error); ("initial_error", JObj initial_error);
         ("fencing_tokens", JObj (tokens_dump (fencing_tokens current)))])) ;; mret tt
  else
    is_running ← read (_action_is_running (action_id acb));
    if negb is_running then on_db (release ids) ;; mret tt
    else
      now ← read clock_now;
      '(authorized, validation_error) ← on_db (validate_reserved_retry_if_fenced (action_id acb) (Some now));
      if negb authorized then
        on_db (uncertain_and_release acb ids (_recovery_detail current
          [("reason", JStr "retry_dispatch_contract_invalid"); ("source", JStr "dispatch_exception");
           ("detail", jstr_opt validation_error); ("initial_error", JObj initial_error)])) ;; mret tt
      else
        r ← attempt (call_dispatch driver acb);
        match r with
        | Raise retry_exc =>
            on_db (uncertain_and_release acb ids (_recovery_detail current
              [("reason", JStr "retry_failed"); ("source", JStr "dispatch_exception");
               ("error", JStr (exc_str retry_exc)); ("type", JStr (exc_name retry_exc));
               ("initial_error", JObj initial_error)])) ;; mret tt
        | Ok retry_result =>
            match dr_status retry_result with
            | completed =>
                let stale fence_error := _recovery_detail current
                  [("reason", JStr "stale_fenced_completion"); ("source", JStr "dispatch_exception_retry");
                   ("detail", jstr_opt fence_error); ("initial_error", JObj initial_error);
                   ("fencing_tokens", JObj (tokens_dump (fencing_tokens current)))] in
                on_db (commit_and_release acb ids (dr_output retry_result) stale stale)
            | failed =>
                on_db (uncertain_and_release acb ids (_recovery_detail current
                  (dict_with (default [] (dr_error retry_result))
                     [("reason", get_or "reason" (JStr "retry_failed") (dr_error retry_result));
                      ("source", JStr "dispatch_exception_retry"); ("initial_error", JObj initial_error)]))) ;;
                mret tt
            | unknown =>
                on_db (uncertain_and_release acb ids (_recovery_detail current
                  [("reason", JStr "retry_unknown"); ("source", JStr "dispatch_exception_retry");
                   ("initial_error", JObj initial_error)])) ;; mret tt
            | running => mret tt
            end
        end.

(** [except Exception as e] of the first call *)
Definition on_dispatch_exception (acb : ActionControlBlock) (driver : Driver) (e : py_error)
    : M Kernel unit :=
  let initial_error :=
    [("reason", JStr "driver_dispatch_exception"); ("error", JStr (exc_str e));
     ("type", JStr (exc_name e));
     ("side_effect_class", JStr (SideEffectClass.value (side_effect_class acb)))] in
  match _unknown_recovery_mode acb with
  | retry_mode =>
      current ← read (get_action (action_id acb));
      match current with
      | Some current =>
          if decide (acb_state current = ActionState.RUNNING)
          then retry_after_exception acb current driver initial_error
          else on_db (release (lease_ids acb)) ;; mret tt
      | None => on_db (release (lease_ids acb)) ;; mret tt
      end
  | inspect_mode => _inspect_after_unknown acb driver "dispatch_exception"
  | uncertain_mode =>
      on_db (uncertain_and_release acb (lease_ids acb) (_recovery_detail acb initial_error)) ;; mret tt
  end.

(** ** The retry after an [unknown] outcome *)

(** Reserve the one retry and validate it: whether it may be dispatched. *)
Definition reserve_for_retry (acb : ActionControlBlock) : M Kernel bool :=
  now ← read clock_now;
  '(reserved, reservation_error) ← on_db (reserve_retry_if_fenced (action_id acb) (Some now));
  if negb reserved then
    elsewhere ← read (_retry_reservation_is_owned_elsewhere (action_id acb) reservation_error);
    (if elsewhere : bool then mret tt
     else on_db (_mark_uncertain_and_release acb
            [("reason", JStr "retry_reservation_failed"); ("detail", jstr_opt reservation_error)])) ;;
    mret false
  else
    now ← read clock_now;
    '(authorized, validation_error) ← on_db (validate_reserved_retry_if_fenced (action_id acb) (Some now));
    if negb authorized then
      on_db (_mark_uncertain_and_release acb
        [("reason", JStr "retry_dispatch_contract_invalid"); ("detail", jstr_opt validation_error)]) ;;
      mret false
    else mret true.

(** What the retry returned. *)
Definition finish_retry (acb : ActionControlBlock) (r : DriverResult) : M Kernel unit :=
  match dr_status r with
  | completed =>
      on_db (commit_and_release acb (lease_ids acb) (dr_output r) (stale_completion []) (stale_completion []))
  | failed =>
      on_db (_mark_uncertain_and_release acb
        (dict_with (default [] (dr_error r)) [("reason", get_or "reason" (JStr "retry_failed") (dr_error r))]))
  | unknown => on_db (_mark_uncertain_and_release acb [("reason", JStr "retry_unknown")])
  | running => mret tt
  end.

Definition retry_failed (exc : py_error) : jobj :=
  [("reason", JStr "retry_failed"); ("error", JStr (exc_str exc))].

(** The first call returned [unknown]. *)
Definition on_dispatch_unknown (acb : ActionControlBlock) (driver : Driver) : M Kernel unit :=
  match _unknown_recovery_mode acb with
  | retry_mode =>
      go ← reserve_for_retry acb;
      if go : bool then
        r ← attempt (call_dispatch driver acb);
        match r with
        | Raise exc => on_db (_mark_uncertain_and_release acb (retry_failed exc))
        | Ok retry_result => finish_retry acb retry_result
        end
      else mret tt
  | inspect_mode => _inspect_after_unknown acb driver "dispatch_unknown"
  | uncertain_mode =>
      on_db (_mark_uncertain_and_release acb
        [("reason", JStr "recovery_policy_forbids_blind_retry"); ("disposition", JStr "uncertain")])
  end.

(** What the first call returned or raised. *)
Definition after_dispatch (acb : ActionControlBlock) (driver : Driver) (r : result DriverResult) : M Kernel unit :=
  match r with
  | Raise e => on_dispatch_exception acb driver e
  | Ok res =>
      match dr_status res with
      | completed =>
          on_db (commit_and_release acb (lease_ids acb) (dr_output res)
            (fun fence_error => stale_completion [] fence_error ++
               [("fencing_tokens", JObj (tokens_dump (fencing_tokens acb)))])
            (stale_completion []))
      | failed =>
          let error := default [] (dr_error res) in
          on_db (fail_and_release acb (lease_ids acb) error error)
      | unknown => on_dispatch_unknown acb driver
      | running => mret tt
      end
  end.

(** One admitted action. *)
Definition dispatch_action (acb : ActionControlBlock) : M Kernel unit :=
  '(valid_contract, contract_error) ← read (fun s =>
     validate_action_contract (acb_pid acb) (resource_claims acb) (lease_ids acb) (clock_now s) s);
  if negb valid_contract then
    on_db (refuse acb [("reason", JStr "invalid_resource_contract"); ("detail", jstr_opt contract_error)])
  else
    odriver ← gets (get_driver (device_type acb));
    match odriver with
    | None => on_db (refuse acb [("reason", JStr "no_driver")])
    | Some driver =>
        on_db (ActionService.dispatch (action_id acb)) ;;
        r ← attempt (call_dispatch driver acb);
        after_dispatch acb driver r
    end.

Definition _dispatch_pending_actions : M Kernel unit :=
  admitted ← read (fun s => filter (fun a => acb_state a = ActionState.ADMITTED) (list_non_terminal s));
  for_each dispatch_action admitted.

(** ** [recover_incomplete_actions] *)

(** A running action whose driver is known. *)
Definition recover_with (acb : ActionControlBlock) (driver : Driver) : M Kernel unit :=
  let recovery_mode := _unknown_recovery_mode acb in
  if decide (recovery_mode = uncertain_mode) then
    on_db (_mark_uncertain_and_release acb
      [("reason", JStr "recovery_policy_forbids_inspection"); ("disposition", JStr "uncertain")])
  else
    r ← attempt (driver_inspect driver (action_id acb));
    match r with
    | Raise e =>
        on_db (uncertain_and_release acb (lease_ids acb)
          [("reason", JStr "inspect_failed"); ("error", JStr (exc_str e))]) ;; mret tt
    | Ok inspect =>
        match di_status inspect with
        | completed =>
            on_db (commit_and_release acb (lease_ids acb) (di_output inspect)
              (stale_completion []) (stale_completion []))
        | failed =>
            let error := default [] (di_error inspect) in
            on_db (fail_and_release acb (lease_ids acb) error error)
        | unknown =>
            match recovery_mode with
            | retry_mode =>
                try_except
                  (go ← reserve_for_retry acb;
                   if go : bool then
                     res ← call_dispatch driver acb;
                     finish_retry acb res
                   else mret tt)
                  (fun exc => on_db (_mark_uncertain_and_release acb (retry_failed exc)))
            | inspect_mode =>
                on_db (_mark_uncertain_and_release acb
                  [("reason", JStr "inspection_unknown"); ("source", JStr "recovery")])
            | uncertain_mode =>
                on_db (_mark_uncertain_and_release acb
                  [("reason", JStr "recovery_policy_forbids_blind_retry");
                   ("disposition", JStr "uncertain")])
            end
        | running => mret tt
        end
    end.

(** One running action. *)
Definition recover_action (acb : ActionControlBlock) : M Kernel unit :=
  odriver ← gets (get_driver (device_type acb));
  match odriver with
  | None => on_db (fail_and_release acb (lease_ids acb) [("reason", JStr "no_driver")] [("reason", JStr "no_driver")])
  | Some driver =>
      is_running ← read (_action_is_running (action_id acb));
      if negb is_running then on_db (release (lease_ids acb)) ;; mret tt
      else recover_with acb driver
  end.

Definition recover_incomplete_actions : M Kernel unit :=
  rows ← read (fun s => filter (fun a => acb_state a = ActionState.RUNNING) (list_non_terminal s));
  for_each recover_action rows.

(** ** Deadlock recovery *)

(** [candidates]: the processes of the cycle that exist, as sort keys *)
Definition victim_candidates (cycle : list string) (s : KState) : list (Z * (Z * string)) :=
  omap (fun pid => pcb ← get_process pid s;
          Some (priority pcb, (Z.of_nat (length (list_leases_for_pid pid s)), pid))) cycle.

Definition _select_victim (cycle : list string) (s : KState) : result string :=
  match py_sorted (victim_candidates cycle s) with
  | (_, (_, pid)) :: _ => Ok pid
  | [] => match cycle with pid :: _ => Ok pid | [] => Raise (IndexError "list index out of range") end
  end.

Definition _recover_deadlock (cycle : list string) : M KState unit :=
  victim ← (r ← gets (_select_victim cycle); of_result r);
  let pl := [("cycle", JList (JStr <$> cycle)); ("victim", JStr victim)] in
  emit victim "DEADLOCK_DETECTED" pl ;;
  try_except (transition victim ProcessState.FAILED None ;; mret tt)
    (fun e => match e with IllegalStateTransition _ _ _ => mret tt | _ => raise e end) ;;
  release_all_for_pid victim ;;
  emit victim "DEADLOCK_RECOVERED" pl ;;
  mret tt.

(** ** The step of a process *)

(** The process made a bad step: [FAILED], its leases released. *)
Definition fail_process (pid ty : string) (pl : jobj) : M KState unit :=
  emit pid ty pl ;;
  transition pid ProcessState.FAILED None ;;
  release_all_for_pid pid ;;
  mret tt.

Definition back_to_ready (pid : string) : M KState unit := transition pid ProcessState.READY None ;; mret tt.

(** What a process waits for after submitting: every terminal outcome. *)
Definition action_wait (aid : string) : jobj :=
  [("signal_types", JList [JStr "ACTION_COMPLETED"; JStr "ACTION_FAILED"; JStr "ACTION_UNCERTAIN"]);
   ("action_id", JStr aid)].

(** [submit_action] of the running process *)
Definition run_submission (pid : string) (req : KernelRequest) : M KState unit :=
  out ← try_except (ev ← Dispatcher.dispatch strict_effect_contracts req; mret (Some ev))
          (fun e => match e with LeaseAcquisitionFailed _ _ => mret None | _ => raise e end);
  match out with
  | None => back_to_ready pid
  | Some ev =>
      if String.eqb (event_type ev) "ACTION_REJECTED" then back_to_ready pid
      else
        last ← gets (_get_last_action_id pid);
        match last with
        | Some aid =>
            if String.eqb aid "" then back_to_ready pid
            else transition pid ProcessState.BLOCKED (Some (action_wait aid)) ;; mret tt
        | None => back_to_ready pid
        end
  end.

(** The request of a step, made by the running process. *)
Definition run_request (pid : string) (r : program_request) : M KState unit :=
  match r with
  | NotARequest ty =>
      fail_process pid "PROGRAM_REQUEST_REJECTED"
        [("reason", JStr "invalid_request_type"); ("type", JStr ty)]
  | Syscall req =>
      let req := request_as pid req in
      match req_body req with
      | Exit _ _ => Dispatcher.dispatch strict_effect_contracts req ;; mret tt
      | SubmitAction _ => run_submission pid req
      | Wait _ => Dispatcher.dispatch strict_effect_contracts req ;; mret tt
      | _ => Dispatcher.dispatch strict_effect_contracts req ;; back_to_ready pid
      end
  end.

(** After [program.step] has returned. *)
Definition finish_step (pcb : ProcessControlBlock) (res : ProgramStepResult) : M KState unit :=
  let pid := pcb_pid pcb in
  _save_program_state pid (new_state res) ;;
  offset ← gets next_offset;
  ProcessService._upsert_projection (pcb_set_cursor pcb offset) ;;
  match psr_request res with
  | Some r => run_request pid r
  | None =>
      match psr_exit_code res with
      | Some code =>
          if String.eqb code "" then back_to_ready pid
          else
            rid ← fresh_uuid;
            Dispatcher.dispatch strict_effect_contracts (mkRequest rid pid (Exit code (psr_result_ref res))) ;;
            mret tt
      | None => back_to_ready pid
      end
  end.

(** [READY -> RUNNING], then the re-read control block; [None]: nothing to run *)
Definition begin_step (pid : string) : M KState (option ProcessControlBlock) :=
  started ← try_except (transition pid ProcessState.RUNNING None ;; mret true)
              (fun e => match e with IllegalStateTransition _ _ _ => mret false | _ => raise e end);
  if started : bool then gets (get_process pid) else mret None.

Definition _run_process_step (pcb : ProcessControlBlock) : M Kernel unit :=
  if decide (pcb_state pcb <> ProcessState.READY) then mret tt
  else
    oprogram ← gets (fun k => assoc (pcb_pid pcb) (_programs k));
    match oprogram with
    | None => mret tt
    | Some program =>
        ocurrent ← on_db (begin_step (pcb_pid pcb));
        match ocurrent with
        | None => mret tt
        | Some pcb =>
            state ← read (get_program_state (pcb_pid pcb));
            last_event ← read (read_last_for_pid_since (pcb_pid pcb) (event_cursor pcb));
            r ← attempt (program_step program (dict_set "pid" (JStr (pcb_pid pcb)) state) last_event);
            match r with
            | Raise e =>
                on_db (fail_process (pcb_pid pcb) "PROGRAM_STEP_FAILED"
                  [("error", JStr (exc_str e)); ("type", JStr (exc_name e))])
            | Ok res => on_db (finish_step pcb res)
            end
        end
    end.

(** ** The tick *)

Definition tick : M Kernel unit :=
  modify (fun k => mkKernel (kdb k) (outside k) (_programs k) (_drivers k) (logical k + 1)%Z (dispatched k)) ;;
  on_db (now ← gets clock_now; reclaim_expired now) ;;
  on_db deliver_pending ;;
  recover_incomplete_actions ;;
  deadlocks ← read detect_deadlocks;
  for_each (fun cycle => on_db (_recover_deadlock cycle)) deadlocks ;;
  _dispatch_pending_actions ;;
  on_db deliver_pending ;;
  ready ← read list_ready;
  for_each _run_process_step (FIFOScheduler.select ready).

(** ** Spawn and the outer loop *)

Definition spawn (program : Program) (namespace : string) (initial_state : option jobj) : M Kernel string :=
  on_db (rid ← fresh_uuid;
         Dispatcher.dispatch strict_effect_contracts
           (mkRequest rid "" (Spawn (mkSpawn (program_name program) None namespace "default"
                                       (default [] initial_state))))) ;;
  processes ← read ProcessService.list_all;
  match List.find (fun p => String.eqb (program_id p) (program_name program)) (reverse processes) with
  | Some pcb => register_program (pcb_pid pcb) program ;; mret (pcb_pid pcb)
  | None => raise (RuntimeError "Failed to spawn process")
  end.

Fixpoint run_until_idle (max_ticks : nat) : M Kernel unit :=
  match max_ticks with
  | O => mret tt
  | S n =>
      ready ← read list_ready;
      incomplete ← read list_non_terminal;
      let idle := match ready, incomplete with [], [] => true | _, _ => false end in
      if idle : bool then mret tt
      else tick ;; run_until_idle n
  end.
End Kernel.
