(* ===== verification/KernelFacts.v ===== *)
(** * The kernel loop: what the services keep

    The invariant of the kernel database that the loop relies on ([db_ok]) and the
    budget of driver calls an action has ([budget]).  Every operation of every
    service keeps the invariant and never lowers a budget ([db_step]). *)

From S2P Require Import Prelude KernelModels StateMachine Storage Journal ProcessService CapabilityService SignalService LeaseService LeaseFacts LeaseProps Deadlock ActionService ActionProps Dispatcher.

(** How often [driver.dispatch] may have been called for an action: not before it
    runs, then once and once more per reserved retry. *)
Definition budget (o : option ActionControlBlock) : nat :=
  match o with
  | None => 0
  | Some a =>
      if decide (acb_state a ∈ [ActionState.SUBMITTED; ActionState.ADMITTED]) then 0
      else 1 + Z.to_nat (retry_count a)
  end.

(** At most one retry, and only of an action that permits it. *)
Definition retries_ok (a : ActionControlBlock) : Prop :=
  (0 <= retry_count a <= 1)%Z /\ (retry_count a = 1%Z -> retry_permitted a = true) /\
  (acb_state a ∈ [ActionState.SUBMITTED; ActionState.ADMITTED] -> retry_count a = 0%Z).

Section Facts.
Context `{UuidSource}.

Record db_ok (s : KState) : Prop := {
  db_kernel : kernel_ok s;
  db_actions : actions_ok s;
  db_unused n : (uuid_count s <= n)%N -> get_action (uuid4 n) s = None;
  db_retries aid a : get_action aid s = Some a -> retries_ok a }.

Definition db_step (s s' : KState) : Prop :=
  db_ok s -> db_ok s' /\ forall aid, budget (get_action aid s) <= budget (get_action aid s').

#[global] Instance db_step_preorder : PreOrder db_step.
Proof.
  split; [by intros s Hs; split|]. intros s1 s2 s3 H12 H23 H1.
  destruct (H12 H1) as [H2 L1]. destruct (H23 H2) as [H3 L2]. split; [done|].
  intros aid. by etransitivity; [apply L1|apply L2].
Qed.

Lemma init_db_ok now : db_ok (init_storage now).
Proof. split; [apply init_kernel_ok|apply init_actions_ok|done|done]. Qed.

(** ** Framing *)

(** The part [π] is as it was and no identifier was drawn twice. *)
Definition framed {T} (π : KState -> T) (s s' : KState) : Prop :=
  π s' = π s /\ (uuid_count s <= uuid_count s')%N.
#[global] Instance framed_preorder {T} (π : KState -> T) : PreOrder (framed π).
Proof. split; [by intros s; split|]. intros s1 s2 s3 [E1 L1] [E2 L2]. split; [congruence|lia]. Qed.

Definition lease_part (s : KState) := (leases_projection s, resource_fencing_tokens s).

(** Steps that leave the actions alone. *)
Lemma db_step_kernel s s' :
  (kernel_ok s -> kernel_ok s') -> framed actions_projection s s' -> db_step s s'.
Proof.
  intros Hk [Ha Hu] [Hs1 Hs2 Hs3 Hs4].
  assert (forall aid, get_action aid s' = get_action aid s) as Hg by (intros; unfold get_action; by rewrite Ha).
  split; [|intros aid; by rewrite Hg]. split.
  - by apply Hk.
  - split; [by apply Hk|]. rewrite Ha. apply Hs2.
  - intros n Hn. rewrite Hg. apply Hs3. lia.
  - intros aid a. rewrite Hg. apply Hs4.
Qed.

(** Steps that leave log, actions and leases alone. *)
Lemma db_step_same s s' :
  framed (fun s => (journal_events s, meta_next_offset s, actions_projection s, lease_part s)) s s' ->
  db_step s s'.
Proof.
  intros [E Hu]. injection E as Hj Hm Ha Hl Hf. apply db_step_kernel; [|done].
  intros [K1 K2]. split; [by apply (log_ok_frame s)|by apply (leases_ok_same s)].
Qed.

(** ** Steps of the action service *)

Lemma action_target a target reason a' :
  apply_action_transition a target = Ok (reason, a') ->
  (target <> ActionState.SUBMITTED) /\ (target = ActionState.ADMITTED -> acb_state a = ActionState.SUBMITTED).
Proof.
  unfold apply_action_transition, validate_action_transition. case_decide; [done|].
  destruct (acb_state a), target; cbn; done.
Qed.

Lemma effect_retries a a' ty pl :
  retries_ok a -> act_effect a a' ty pl ->
  retries_ok (acb_row a') /\ budget (Some a) <= budget (Some (acb_row a')).
Proof.
  intros (Hr & Hp & H0) He. destruct He as [target reason a1 res err fin ty pl Ha _ _ _|ids toks|Hrun Hc Hperm].
  - destruct (action_target _ _ _ _ Ha) as [Hsub Hadm]. apply apply_action_fields in Ha as ->.
    unfold retries_ok, budget; cbn. split.
    + split; [done|]. split; [exact Hp|]. intros Hin. apply H0.
      assert (target = ActionState.ADMITTED) as ->%Hadm by set_solver. set_solver.
    + destruct (decide (target ∈ _)) as [Hin|]; [|by case_decide; lia].
      assert (target = ActionState.ADMITTED) as ->%Hadm by set_solver. rewrite decide_True by set_solver. lia.
  - split; [done|]. unfold budget; cbn. by case_decide.
  - unfold retries_ok, budget; cbn. rewrite Hrun, !decide_False by set_solver.
    split; [|lia]. split; [lia|]. split; [done|]. set_solver.
Qed.

(** The leases are left alone; a new action has an id that no later draw gives. *)
Lemma db_step_change s s' :
  (log_ok s -> log_ok s' /\ act_change s s') -> framed lease_part s s' ->
  (forall aid n, get_action aid s = None -> get_action aid s' <> None -> (uuid_count s' <= n)%N -> aid <> uuid4 n) ->
  (forall aid a, get_action aid s = None -> get_action aid s' = Some a -> retries_ok a) ->
  db_step s s'.
Proof.
  intros Hstep [Hl Hu] Hid Hnew [[K1 K2] Ha Hn Hr]. injection Hl as Hl Hf. destruct (Hstep K1) as [K1' Hc].
  destruct (change_ok s s' Ha K1' Hc) as [Ha' _].
  assert (forall aid a, get_action aid s = Some a ->
    exists a', get_action aid s' = Some a' /\ retries_ok a' /\ budget (Some a) <= budget (Some a')) as Hgrow.
  { intros aid a Hga. pose proof (Hr aid a Hga) as Hra.
    destruct Hc as [Hsame|[(b & b' & ty & pl & s1 & Hb & He & -> & Hs1)|(b & s1 & Hb & -> & _ & _ & Hs1)]].
    - exists a. unfold get_action in *. by rewrite Hsame.
    - rewrite get_upserted_action.
      assert (get_action aid s1 = Some a) as -> by (unfold get_action in *; by rewrite Hs1).
      case_decide as Hd; [|by exists a]. rewrite (effect_id _ _ _ _ He) in Hd. subst aid.
      assert (b = a) as -> by congruence. rewrite (effect_row _ _ _ _ He). eexists. split; [done|].
      by eapply effect_retries.
    - rewrite get_upserted_action.
      assert (get_action aid s1 = Some a) as -> by (unfold get_action in *; by rewrite Hs1).
      rewrite decide_False by congruence. by exists a. }
  split; [split|].
  - split; [done|]. by apply (leases_ok_same s).
  - done.
  - intros n Hle. destruct (get_action (uuid4 n) s') eqn:E; [|done]. exfalso.
    apply (Hid (uuid4 n) n); [apply Hn; lia|by rewrite E|done|done].
  - intros aid a Hga. destruct (get_action aid s) as [a0|] eqn:E; [|by eapply Hnew].
    destruct (Hgrow aid a0 E) as (a' & Ha0 & Hra & _). congruence.
  - intros aid. destruct (get_action aid s) as [a0|] eqn:E; [|cbn; lia].
    destruct (Hgrow aid a0 E) as (a' & -> & _ & Hb). done.
Qed.

Lemma update_gets s s' aid : act_update s s' -> get_action aid s = None -> get_action aid s' = None.
Proof.
  intros [->|(a & a' & ty & pl & t & Ha & He & ->)] Hn; [done|]. rewrite get_upserted_action.
  rewrite decide_False; [done|]. rewrite (effect_id _ _ _ _ He). congruence.
Qed.

(** An operation on existing actions. *)
Lemma db_step_update {A} (m : M KState A) :
  (forall s, log_ok s -> act_update s (m s).2) -> within (framed lease_part) m -> within db_step m.
Proof.
  intros Hu Hf s Hs. pose proof (Hu s (proj1 (db_kernel _ Hs))) as Hup. revert Hs. apply db_step_change.
  - intros Hl. by apply update_change.
  - apply Hf.
  - intros aid n Hn. by rewrite (update_gets _ _ _ Hup Hn).
  - intros aid a Hn. by rewrite (update_gets _ _ _ Hup Hn).
Qed.

(** An operation on leases. *)
Lemma db_step_lease {A} (m : M KState A) :
  (forall s, lease_step s (m s).2) -> within (framed actions_projection) m -> within db_step m.
Proof. intros Hl Hf s. apply db_step_kernel; [|apply Hf]. by apply lease_step_ok. Qed.

(** A write to another table. *)
Lemma db_step_modify f :
  (forall s, framed (fun s => (journal_events s, meta_next_offset s, actions_projection s, lease_part s)) s (f s)) ->
  within db_step (modify f).
Proof. intros Hf s. apply db_step_same, Hf. Qed.

Lemma framed_JFrame {T} (π : KState -> T) :
  (forall s f, π (set_journal f s) = π s) -> (forall s f, π (set_meta f s) = π s) ->
  (forall s f, π (set_uuid f s) = π s) -> JFrame (framed π).
Proof.
  intros H1 H2 H3. split; [apply _|intros; split; cbn; [|lia]..]; [apply H1|apply H2|apply H3].
Qed.
Lemma publish_frame R `{!JFrame R} specs : within R (publish specs).
Proof. unfold publish. solve_within. Qed.
End Facts.
#[export] Hint Extern 1 (JFrame (framed _)) => apply framed_JFrame; intros; reflexivity : typeclass_instances.
#[export] Hint Resolve publish_frame : lhos.
#[export] Hint Extern 1 (JFrame (framed _)) => apply framed_JFrame; intros; reflexivity : lhos.

(** The frame conditions: follow the body of the operation. *)
Ltac framing := solve_within; repeat (apply within_modify; intros; by split).

Section Operations.
Context `{UuidSource}.

Lemma delete_leases_frame (P : ResourceLease -> Prop) `{!forall l, Decision (P l)} :
  within (framed actions_projection) (delete_leases P).
Proof. unfold delete_leases. framing. Qed.
#[local] Hint Resolve delete_leases_frame : lhos.
Lemma delete_waiters_frame (P : string * string -> Prop) `{!forall l, Decision (P l)} :
  within (framed actions_projection) (delete_waiters P).
Proof. unfold delete_waiters. framing. Qed.
#[local] Hint Resolve delete_waiters_frame : lhos.

Lemma release_db ids : within db_step (release ids).
Proof. apply db_step_lease; [intros; constructor|]. destruct ids; cbn [release]; unfold release_one; framing. Qed.
Lemma release_all_db pid : within db_step (release_all_for_pid pid).
Proof. apply db_step_lease; [intros; constructor|]. unfold release_all_for_pid, delete_row. framing. Qed.
Lemma reclaim_db t : within db_step (reclaim_expired t).
Proof. apply db_step_lease; [intros; constructor|]. unfold reclaim_expired, delete_row. framing. Qed.
Lemma clear_waiters_db pid : within db_step (clear_waiters_for_pid pid).
Proof. apply db_step_lease; [intros; constructor|]. unfold clear_waiters_for_pid. framing. Qed.
Lemma acquire_db pid claims ttl : within db_step (atomic_acquire pid claims ttl).
Proof.
  apply db_step_lease; [intros; constructor|].
  unfold atomic_acquire, acquire_tx, acquire_claim, next_token, clear_waiters_for_pid, _add_waiter. framing.
Qed.
#[local] Hint Resolve release_db release_all_db reclaim_db clear_waiters_db acquire_db : lhos.

(** ** The journal and the other tables *)

Lemma fresh_uuid_db : within db_step fresh_uuid.
Proof. intros s. apply db_step_same. split; [done|]. cbn. lia. Qed.
Lemma emit_db pid ty pl : within db_step (emit pid ty pl).
Proof.
  intros s Hs. pose proof (db_kernel _ Hs) as [Hl _]. revert Hs. apply db_step_kernel.
  - rewrite emit_spec by done. apply logged_kernel_ok.
  - assert (within (framed actions_projection) (emit pid ty pl)) as Hf by eauto with lhos. apply Hf.
Qed.
Lemma journaled_db pid ty pl : within db_step (journaled pid ty pl).
Proof.
  intros s. assert ((journaled pid ty pl s).2 = (emit pid ty pl s).2) as ->; [|apply emit_db].
  unfold journaled, emit, mbind, M_bind. destruct (new_event pid ty pl s) as [[ev|e] s1]; [|done].
  by destruct (append_event ev s1) as [[ev'|e] s2].
Qed.
Lemma new_event_db pid ty pl : within db_step (new_event pid ty pl).
Proof. apply (within_bind db_step); [apply fresh_uuid_db|]. intros. solve_within. Qed.
#[local] Hint Resolve fresh_uuid_db emit_db journaled_db new_event_db : lhos.

(** Follows a body whose writes go to tables of other services. *)
Ltac stepping := solve_within; repeat (apply db_step_modify; intros; by split).

Lemma upsert_process_db pcb : within db_step (ProcessService._upsert_projection pcb).
Proof. unfold ProcessService._upsert_projection. stepping. Qed.
Lemma save_program_state_db pid st : within db_step (_save_program_state pid st).
Proof. unfold _save_program_state. stepping. Qed.
#[local] Hint Resolve upsert_process_db save_program_state_db : lhos.
Lemma transition_db pid target wc : within db_step (transition pid target wc).
Proof. unfold transition. stepping. Qed.
#[local] Hint Resolve transition_db : lhos.
Lemma spawn_db prog ns cap parent rg prio st : within db_step (ProcessService.spawn prog ns cap parent rg prio st).
Proof. unfold ProcessService.spawn. stepping. Qed.
Lemma send_db target ty src pl : within db_step (send target ty src pl).
Proof. unfold send, _upsert_signal. stepping. Qed.
#[local] Hint Resolve spawn_db send_db : lhos.
Lemma deliver_pending_db : within db_step deliver_pending.
Proof. unfold deliver_pending, deliver_rows, deliver_row, _mark_consumed, consume_row. stepping. Qed.
Lemma create_capability_set_db pid caps : within db_step (create_capability_set pid caps).
Proof. unfold create_capability_set, _upsert_capability_set, insert_capset. stepping. Qed.
Lemma enforce_db pid res op : within db_step (enforce pid res op).
Proof. unfold enforce. stepping. Qed.
#[local] Hint Resolve deliver_pending_db create_capability_set_db enforce_db : lhos.

(** ** Actions *)

Ltac on_actions lem := apply db_step_update; [intros s; apply lem|];
  unfold load_action, applied, _upsert_projection, _upsert_projection_tx, emit_tx; framing.

Lemma upsert_action_frame a : within (framed lease_part) (_upsert_projection a).
Proof. unfold _upsert_projection, _upsert_projection_tx. framing. Qed.
Lemma upsert_action_tx_frame a : within (framed lease_part) (_upsert_projection_tx a).
Proof. unfold _upsert_projection_tx. framing. Qed.
#[local] Hint Resolve upsert_action_frame upsert_action_tx_frame : lhos.

Lemma admit_db aid : within db_step (admit_action aid).
Proof. unfold admit_action. on_actions admit_update. Qed.
Lemma reject_db aid why : within db_step (reject aid why).
Proof. unfold reject. on_actions reject_update. Qed.
Lemma intent_db aid ids toks : within db_step (mark_intent_durable aid ids toks).
Proof. unfold mark_intent_durable. on_actions intent_update. Qed.
Lemma dispatch_db aid : within db_step (ActionService.dispatch aid).
Proof. unfold ActionService.dispatch. on_actions dispatch_update. Qed.
Lemma fail_db aid err : within db_step (fail aid err).
Proof. unfold fail. on_actions fail_update. Qed.
Lemma cancel_db aid : within db_step (cancel aid).
Proof. unfold cancel. on_actions cancel_update. Qed.
Lemma commit_if_fenced_db aid res now : within db_step (commit_if_fenced aid res now).
Proof. unfold commit_if_fenced. on_actions commit_if_fenced_update. Qed.
Lemma reserve_retry_db aid now : within db_step (reserve_retry_if_fenced aid now).
Proof. unfold reserve_retry_if_fenced. on_actions reserve_retry_update. Qed.
Lemma validate_reserved_db aid now : within db_step (validate_reserved_retry_if_fenced aid now).
Proof. intros s. rewrite validate_reserved_pure. reflexivity. Qed.
Lemma fail_if_running_db aid err : within db_step (fail_if_running aid err).
Proof. unfold fail_if_running. on_actions fail_if_running_update. Qed.
Lemma uncertain_if_running_db aid detail : within db_step (mark_uncertain_if_running aid detail).
Proof. unfold mark_uncertain_if_running. on_actions uncertain_if_running_update. Qed.

Lemma submit_db pid dev op args sec rp idem timeout claims :
  within db_step (submit pid dev op args sec rp idem timeout None claims).
Proof.
  intros s Hs. pose proof (db_kernel _ Hs) as [Hl _].
  pose proof (db_unused _ Hs (uuid_count s) (N.le_refl _)) as Hfree.
  pose proof (submit_run pid dev op args sec rp idem timeout None claims s Hl) as (s1 & Hs1 & _ & _ & E).
  set (a := submitted_acb pid dev op args sec rp idem timeout None claims s) in *.
  assert (within (framed lease_part) (submit pid dev op args sec rp idem timeout None claims)) as Hf.
  { unfold submit, choose_id. framing. }
  assert (forall aid, get_action aid (upserted_action a (logged s1 (emitted s1 pid "ACTION_SUBMITTED" (acb_dump a)))) =
    if decide (aid = uuid4 (uuid_count s)) then Some (acb_row a) else get_action aid s) as Hg.
  { intros aid. rewrite get_upserted_action. cbn [a submitted_acb action_id chosen_id].
    assert (get_action aid (logged s1 (emitted s1 pid "ACTION_SUBMITTED" (acb_dump a))) = get_action aid s) as ->
      by (by destruct Hs1 as [->| ->]).
    case_decide as Hd; [|done]. subst. by rewrite Hfree. }
  revert Hs. apply db_step_change.
  - apply act_step_change. by apply act_submit.
  - apply Hf.
  - rewrite E; cbn [snd]. intros aid n Hn. rewrite Hg. case_decide as Hd; [|by rewrite Hn].
    intros _ Hle Heq. subst aid. apply (inj uuid4) in Heq. subst n.
    assert (uuid_count s < uuid_count (upserted_action a (logged s1 (emitted s1 pid "ACTION_SUBMITTED" (acb_dump a)))))%N.
    { destruct Hs1 as [->| ->]; cbn; lia. }
    lia.
  - rewrite E; cbn [snd]. intros aid b Hn. rewrite Hg. case_decide as Hd; [|by rewrite Hn].
    intros [= <-]. split_and!; cbn; try lia; done.
Qed.
#[local] Hint Resolve admit_db reject_db intent_db dispatch_db fail_db cancel_db commit_if_fenced_db
  reserve_retry_db validate_reserved_db fail_if_running_db uncertain_if_running_db submit_db : lhos.

(** ** What the unconditional operations return *)

(** The action [aid] became [a'], logged as one event. *)
Definition changed (s : KState) (a' : ActionControlBlock) (ty : string) (pl : jobj) (t : Z) : KState :=
  upserted_action a' (logged s (emitted_at s (acb_pid a') ty pl t)).
Lemma get_changed aid a a' s ty pl t :
  get_action aid s = Some a -> action_id a' = aid -> acb_conflict a (acb_row a') = acb_row a' ->
  get_action aid (changed s a' ty pl t) = Some (acb_row a').
Proof.
  intros Ha Hid Hc. unfold changed. rewrite get_upserted_action, decide_True by done.
  change (get_action aid (logged _ _)) with (get_action aid s). by rewrite Ha, Hc.
Qed.

Lemma load_bind {B} aid (k : ActionControlBlock -> M KState B) s :
  (load_action aid ≫= k) s =
  match get_action aid s with Some a => k a s | None => (Raise (ValueError "Action not found"), s) end.
Proof. unfold load_action. run_m. by destruct (get_action aid s). Qed.
Lemma applied_bind {B} a target (k : ActionControlBlock -> M KState B) s :
  (applied a target ≫= k) s =
  match validate_action_transition a target with Ok _ => k (acb_set_state a target) s | Raise e => (Raise e, s) end.
Proof. unfold applied, apply_action_transition. by destruct (validate_action_transition a target). Qed.
Lemma validate_action_Ok a target :
  is_Some (assoc (acb_state a, target) ACTION_TRANSITIONS) -> exists why, validate_action_transition a target = Ok why.
Proof.
  intros [why Hw]. unfold validate_action_transition. rewrite Hw, decide_False; [by eexists|].
  destruct (acb_state a), target; cbn in Hw; done || set_solver.
Qed.

Lemma dispatch_run aid s :
  log_ok s ->
  match get_action aid s with
  | Some a =>
      if decide (acb_state a = ActionState.ADMITTED) then
        exists ev, ActionService.dispatch aid s =
          (Ok ev, changed s (acb_set_state a ActionState.RUNNING) "ACTION_RUNNING" [("action_id", JStr aid)] (clock_now s))
      else exists e, ActionService.dispatch aid s = (Raise e, s)
  | None => exists e, ActionService.dispatch aid s = (Raise e, s)
  end.
Proof.
  intros Hs. unfold ActionService.dispatch. rewrite load_bind.
  destruct (get_action aid s) as [a|]; [|by eexists]. rewrite applied_bind.
  case_decide as Hst.
  - destruct (validate_action_Ok a ActionState.RUNNING) as [why ->]; [rewrite Hst; by eexists|].
    rewrite (bind_Ok _ _ _ _ _ (emit_spec _ _ _ _ Hs)). by eexists.
  - unfold validate_action_transition. case_decide; [by eexists|].
    destruct (acb_state a); cbn; done || by eexists.
Qed.
Lemma fail_run aid err a s :
  log_ok s -> get_action aid s = Some a ->
  acb_state a ∈ [ActionState.SUBMITTED; ActionState.ADMITTED; ActionState.RUNNING] ->
  exists ev pl, fail aid err s =
    (Ok ev, changed s (set_outcome (acb_set_state a ActionState.FAILED) (acb_result a) (Some (default [] err)) (Some (clock_now s)))
              "ACTION_FAILED" pl (clock_now s)).
Proof.
  intros Hs Ha Hst. unfold fail. rewrite load_bind, Ha, applied_bind.
  destruct (validate_action_Ok a ActionState.FAILED) as [why ->]; [|].
  { destruct (acb_state a); first [by eexists|set_solver]. }
  rewrite gets_bind, (bind_Ok _ _ _ _ _ (emit_spec _ _ _ _ Hs)). by eexists _, _.
Qed.

(** The two conditional endings: of a running action, or of nothing. *)
Definition ends_if_running (op : M KState bool) (aid : string) (st : ActionState.t) : Prop :=
  forall s, log_ok s ->
  match get_action aid s with
  | Some a =>
      if decide (acb_state a = ActionState.RUNNING) then
        exists err ty pl, op s = (Ok true, changed s (set_outcome (acb_set_state a st) (acb_result a) (Some err)
                                                       (Some (clock_now s))) ty pl (clock_now s))
      else op s = (Ok false, s)
  | None => op s = (Ok false, s)
  end.
Lemma fail_if_running_ends aid err : ends_if_running (fail_if_running aid err) aid ActionState.FAILED.
Proof.
  intros s Hs. unfold fail_if_running, transaction. rewrite gets_bind.
  destruct (get_action aid s) as [a|]; [|done]. case_decide as Hst; [rewrite decide_False by (by intros [])|by rewrite decide_True].
  rewrite applied_bind.
  destruct (validate_action_Ok a ActionState.FAILED) as [why ->]; [rewrite Hst; by eexists|].
  rewrite gets_bind, (bind_Ok _ _ _ _ _ (emit_tx_run _ _ _ _ _ Hs)). by eexists _, _, _.
Qed.
Lemma uncertain_if_running_ends aid d : ends_if_running (mark_uncertain_if_running aid d) aid ActionState.UNCERTAIN.
Proof.
  intros s Hs. unfold mark_uncertain_if_running, transaction. rewrite gets_bind.
  destruct (get_action aid s) as [a|]; [|done]. case_decide as Hst; [rewrite decide_False by (by intros [])|by rewrite decide_True].
  rewrite applied_bind.
  destruct (validate_action_Ok a ActionState.UNCERTAIN) as [why ->]; [rewrite Hst; by eexists|].
  rewrite gets_bind, (bind_Ok _ _ _ _ _ (emit_tx_run _ _ _ _ _ Hs)). by eexists _, _, _.
Qed.

(** ** System calls *)

Context `{ExcText, DefaultCapabilities}.

Lemma syscall_db strict r : within db_step (Dispatcher.dispatch strict r).
Proof.
  unfold Dispatcher.dispatch, _handle_spawn, _handle_submit_action, admit_with, _handle_inspect_action,
    _handle_cancel_action, _handle_acquire, _handle_release, _handle_wait, _handle_signal,
    _handle_checkpoint, insert_checkpoint, _handle_restore, _handle_exit. stepping.
Qed.
End Operations.
#[export] Hint Resolve release_db release_all_db reclaim_db clear_waiters_db acquire_db fresh_uuid_db emit_db
  journaled_db new_event_db upsert_process_db save_program_state_db transition_db spawn_db send_db
  deliver_pending_db create_capability_set_db enforce_db admit_db reject_db intent_db dispatch_db fail_db
  cancel_db commit_if_fenced_db reserve_retry_db validate_reserved_db fail_if_running_db
  uncertain_if_running_db submit_db syscall_db : lhos.
