(* ===== verification/KernelOutcomes.v ===== *)
(** * The kernel loop: how actions, process steps and deadlocks end

    An action the loop dispatches or recovers is still running afterwards, or it
    has ended, its leases are released and a signal that wakes its owner is
    pending.  A step never leaves its process RUNNING when it returns.  Deadlock
    recovery takes the least process of the cycle out of it. *)

From S2P Require Import Prelude KernelModels StateMachine Storage Journal ProcessService CapabilityService SignalService LeaseService LeaseFacts LeaseProps Deadlock DeadlockProps ActionService ActionProps Dispatcher Kernel KernelFacts KernelProps.

(** The signal that reports how an action ended. *)
Definition outcome_signal (st : ActionState.t) : option string :=
  match st with
  | ActionState.COMMITTED => Some "ACTION_COMPLETED"
  | ActionState.FAILED => Some "ACTION_FAILED"
  | ActionState.UNCERTAIN => Some "ACTION_UNCERTAIN"
  | _ => None
  end.

(** The action has ended, its leases are gone, and a pending signal of the right
    type matches what its owner waits for after submitting it. *)
Definition told (acb : ActionControlBlock) (ids : list string) (s : KState) : Prop :=
  exists a g, get_action (action_id acb) s = Some a /\ outcome_signal (acb_state a) = Some (signal_type g) /\
    g ∈ signals_projection s /\ consumed g = false /\ target_pid g = acb_pid acb /\
    _matches_wait_condition (Some (action_wait (action_id acb))) g = true /\
    forall lid, lid ∈ ids -> get_lease lid s = None.
Definition is_running (aid : string) (s : KState) : Prop :=
  exists a, get_action aid s = Some a /\ acb_state a = ActionState.RUNNING.
Definition settled (acb : ActionControlBlock) (s : KState) : Prop :=
  is_running (action_id acb) s \/ told acb (lease_ids acb) s.

Section Endings.
Context `{UuidSource}.

Lemma json_eqb_str a : json_eqb (JStr a) (JStr a) = true.
Proof. cbn. apply String.eqb_refl. Qed.

(** ** Release and notify *)

Lemma release_gone ids s :
  db_ok s -> exists n s', release ids s = (Ok n, s') /\ db_ok s' /\
    actions_projection s' = actions_projection s /\ forall lid, lid ∈ ids -> get_lease lid s' = None.
Proof.
  intros Hs. destruct (release_db ids s Hs) as [Hs' _]. destruct (decide (ids = [])) as [->|Hne].
  - exists 0, s. split_and!; [done..|]. set_solver.
  - destruct (release_run ids s (db_kernel _ Hs) Hne) as (rows & evs & E & _). rewrite E in Hs'. cbn in Hs'.
    eexists _, _. split_and!; [exact E|done|done|]. intros lid Hlid. apply tbl_find_None. cbn.
    intros l [Hl _]%list_elem_of_filter Hid. by subst lid.
Qed.

Lemma notify_run acb ty pl s :
  db_ok s -> ty ∈ ["ACTION_COMPLETED"; "ACTION_FAILED"; "ACTION_UNCERTAIN"] ->
  exists s' g, notify acb ty pl s = (Ok tt, s') /\ db_ok s' /\ actions_projection s' = actions_projection s /\
    leases_projection s' = leases_projection s /\ g ∈ signals_projection s' /\ consumed g = false /\
    target_pid g = acb_pid acb /\ signal_type g = ty /\
    _matches_wait_condition (Some (action_wait (action_id acb))) g = true.
Proof.
  intros Hs Hty. assert (within db_step (notify acb ty pl)) as Hn by (unfold notify; solve_within).
  destruct (Hn s Hs) as [Hs' _]. revert Hs'. pose proof (db_kernel _ Hs) as [Hl _].
  unfold notify, send. rewrite (bind_assoc fresh_uuid), (bind_Ok fresh_uuid _ s _ _ eq_refl), bind_assoc, gets_bind, bind_assoc.
  rewrite (bind_Ok _ _ _ _ _ (emit_spec (set_uuid N.succ s) _ _ _ (fresh_uuid_log_ok s Hl))).
  set (g := mkSignal _ _ _ _ _ _ _). intros Hs'. eexists _, g.
  split; [reflexivity|]. split; [exact Hs'|]. split; [done|]. split; [done|]. split.
  { cbn. apply elem_of_app. right. set_solver. }
  split_and!; [done..|]. unfold _matches_wait_condition, action_wait. cbn.
  rewrite String.eqb_refl. rewrite andb_false_r.
  repeat (apply elem_of_cons in Hty as [->|Hty]; [done|]). set_solver.
Qed.

(** Leases first, then the signal. *)
Lemma tell acb ids s a ty pl :
  db_ok s -> get_action (action_id acb) s = Some a -> outcome_signal (acb_state a) = Some ty ->
  exists s', (release ids ;; notify acb ty pl) s = (Ok tt, s') /\ told acb ids s'.
Proof.
  intros Hs Ha Hty. destruct (release_gone ids s Hs) as (n & s1 & E1 & Hs1 & Ha1 & Hgone).
  rewrite (bind_Ok _ _ _ _ _ E1).
  destruct (notify_run acb ty pl s1) as (s2 & g & E2 & Hs2 & Ha2 & Hl2 & Hg & Hc & Ht & Hgt & Hm); [done| |].
  { destruct (acb_state a); cbn in Hty; simplify_eq; set_solver. }
  exists s2. split; [done|]. exists a, g. unfold get_action, get_lease in *. rewrite Ha2, Ha1, Hl2, Hgt. done.
Qed.

(** ** The endings of a running action *)

Definition ends (acb : ActionControlBlock) (ids : list string) (m : M KState unit) : Prop :=
  forall s, db_ok s -> is_running (action_id acb) s -> exists s', m s = (Ok tt, s') /\ told acb ids s'.

Lemma ended_row op aid st s :
  ends_if_running op aid st -> within db_step op -> db_ok s -> is_running aid s ->
  exists s' a, op s = (Ok true, s') /\ db_ok s' /\ get_action aid s' = Some a /\ acb_state a = st.
Proof.
  intros Hop Hdb Hs (a & Ha & Hst). specialize (Hop s (proj1 (db_kernel _ Hs))). rewrite Ha, decide_True in Hop by done.
  destruct Hop as (err & ty & pl & E). destruct (Hdb s Hs) as [Hs' _]. rewrite E in Hs'.
  eexists _, _. split_and!; [exact E|exact Hs'| |].
  - apply (get_changed aid a); [done| |done]. apply (get_action_id _ _ _ Ha).
  - done.
Qed.

Lemma fail_and_release_ends acb ids e told_e : ends acb ids (fail_and_release acb ids e told_e).
Proof.
  intros s Hs Hr. destruct (ended_row _ _ _ s (fail_if_running_ends (action_id acb) (Some e)) (fail_if_running_db _ _) Hs Hr)
    as (s1 & a & E & Hs1 & Ha & Hst).
  unfold fail_and_release. rewrite (bind_Ok _ _ _ _ _ E). apply (tell acb ids s1 a); [done|done|by rewrite Hst].
Qed.
Lemma uncertain_and_release_ends acb ids d : ends acb ids (uncertain_and_release acb ids d ;; mret tt).
Proof.
  intros s Hs Hr. destruct (ended_row _ _ _ s (uncertain_if_running_ends (action_id acb) (Some d)) (uncertain_if_running_db _ _) Hs Hr)
    as (s1 & a & E & Hs1 & Ha & Hst).
  destruct (tell acb ids s1 a "ACTION_UNCERTAIN" [("detail", JObj d)]) as (s' & E' & Ht); [done|done|by rewrite Hst|].
  exists s'. split; [|done]. unfold uncertain_and_release. rewrite bind_assoc, (bind_Ok _ _ _ _ _ E), bind_assoc.
  revert E'. unfold mbind, M_bind. destruct (release ids s1) as [[n|err] s2]; [|done].
  by destruct (notify _ _ _ s2) as [[[]|err] s3].
Qed.
Lemma mark_uncertain_ends acb d : ends acb (lease_ids acb) (_mark_uncertain_and_release acb d).
Proof. apply uncertain_and_release_ends. Qed.
Lemma commit_and_release_ends acb ids out stale told_e : ends acb ids (commit_and_release acb ids out stale told_e).
Proof.
  intros s Hs Hr. unfold commit_and_release. rewrite gets_bind.
  pose proof Hr as (a & Ha & Hst). pose proof (commit_if_fenced_run (action_id acb) (Some out) (Some (clock_now s)) s
    (proj1 (db_kernel _ Hs))) as Hc. cbn zeta in Hc. rewrite Ha in Hc.
  destruct (_ && _).
  - destruct Hc as (pl & E & _). destruct (commit_if_fenced_db (action_id acb) (Some out) (Some (clock_now s)) s Hs) as [Hs1 _].
    rewrite E in Hs1. rewrite (bind_Ok _ _ _ _ _ E). cbn [negb].
    apply (tell acb ids _ (acb_conflict a (acb_row (committed_acb a (Some out) (clock_now s)))) _ _ Hs1); [|done].
    cbn [snd]. rewrite get_upserted_action, decide_True by (symmetry; apply (get_action_id _ _ _ Ha)).
    change (get_action _ (logged _ _)) with (get_action (action_id acb) s). rewrite Ha. reflexivity.
  - destruct Hc as (e & E). rewrite (bind_Ok _ _ _ _ _ E). by apply fail_and_release_ends.
Qed.

(** An admitted action that is refused. *)
Lemma refuse_ends acb e s :
  db_ok s -> get_action (action_id acb) s = Some acb -> acb_state acb = ActionState.ADMITTED ->
  exists s', refuse acb e s = (Ok tt, s') /\ told acb (lease_ids acb) s'.
Proof.
  intros Hs Ha Hst. destruct (fail_run (action_id acb) (Some e) acb s) as (ev & pl & E); [apply Hs|done|rewrite Hst; set_solver|].
  destruct (fail_db (action_id acb) (Some e) s Hs) as [Hs1 _]. rewrite E in Hs1. cbn in Hs1.
  unfold refuse. rewrite (bind_Ok _ _ _ _ _ E).
  set (s1 := changed s _ _ _ _) in *.
  assert (get_action (action_id acb) s1 = Some (acb_row (set_outcome (acb_set_state acb ActionState.FAILED)
    (acb_result acb) (Some e) (Some (clock_now s))))) as Ha1 by (by apply (get_changed _ acb)).
  destruct (release_gone (lease_ids acb) s1 Hs1) as (n & s2 & E2 & Hs2 & Ha2 & Hgone).
  rewrite (bind_Ok _ _ _ _ _ E2).
  destruct (clear_waiters_db (acb_pid acb) s2 Hs2) as [Hs3 _].
  rewrite clear_waiters_run in Hs3. rewrite (bind_Ok _ _ _ _ _ (clear_waiters_run (acb_pid acb) s2)). cbn in Hs3.
  destruct (notify_run acb "ACTION_FAILED" [("error", JObj e)] (without_waits (acb_pid acb) s2))
    as (s4 & g & E4 & Hs4 & Ha4 & Hl4 & Hg & Hc & Ht & Hgt & Hm); [done|set_solver|].
  exists s4. split; [done|]. exists (acb_row (set_outcome (acb_set_state acb ActionState.FAILED) (acb_result acb) (Some e)
    (Some (clock_now s)))), g. unfold get_action, get_lease in *. rewrite Ha4, Hl4, Hgt. cbn. rewrite Ha2. done.
Qed.
End Endings.

(** ** The loop on one action *)

(** Awaiting the driver leaves the database as it is: nobody interferes. *)
Definition quiet {X Program Driver : Type} `{!Machine X Program Driver} (d : Driver) : Prop :=
  (forall aid op args, within (keeps kdb) (driver_dispatch d aid op args)) /\
  (forall aid, within (keeps kdb) (driver_inspect d aid)).

Section Settling.
Context {X Program Driver : Type} `{UuidSource, ExcText, DefaultCapabilities, !Machine X Program Driver}.
Abbreviation Kernel := (AgentKernel X Program Driver).

Section One.
Context (acb : ActionControlBlock).
Abbreviation aid := (action_id acb).

Definition live (s : KState) : Prop := db_ok s /\ is_running aid s.
Definition concludes {A} (Q : A -> KState -> Prop) (m : M Kernel A) : Prop :=
  forall k, live (kdb k) -> exists a k', m k = (Ok a, k') /\ Q a (kdb k').
Definition settles (m : M Kernel unit) : Prop := concludes (fun _ => settled acb) m.

Lemma settles_ret : settles (mret tt).
Proof. intros k [_ Hr]. exists tt, k. split; [done|by left]. Qed.
Lemma settles_on_db (m : M KState unit) : ends acb (lease_ids acb) m -> settles (on_db m).
Proof. intros Hm k [Hd Hr]. unfold on_db. destruct (Hm _ Hd Hr) as (s' & -> & Ht). eexists tt, _. split; [done|by right]. Qed.
Lemma settles_mark d : settles (on_db (_mark_uncertain_and_release acb d)).
Proof. apply settles_on_db, mark_uncertain_ends. Qed.
Lemma settles_uncertain d : settles (on_db (uncertain_and_release acb (lease_ids acb) d) ;; mret tt).
Proof.
  intros k [Hd Hr]. destruct (uncertain_and_release_ends acb (lease_ids acb) d _ Hd Hr) as (s' & E & Ht).
  revert E. unfold mbind, M_bind, on_db. destruct (uncertain_and_release _ _ _ (kdb k)) as [[b|e] s1]; [|done].
  intros [= ->]. eexists tt, _. split; [done|by right].
Qed.
(** Afterwards [false] says that there is nothing left to do. *)
Lemma settles_then_false (m : M Kernel unit) (P : KState -> Prop) :
  settles m -> concludes (fun (go : bool) s => if go then P s else settled acb s) (m ;; mret false).
Proof.
  intros Hm k Hk. destruct (Hm k Hk) as ([] & k' & E & Hs). exists false, k'. split; [|done].
  by rewrite (bind_Ok _ _ _ _ _ E).
Qed.
Lemma concludes_bind {A B} (Q : A -> KState -> Prop) (R : B -> KState -> Prop) (m : M Kernel A) f :
  concludes Q m -> (forall a k, Q a (kdb k) -> exists b k', f a k = (Ok b, k') /\ R b (kdb k')) ->
  concludes R (m ≫= f).
Proof.
  intros Hm Hf k Hk. destruct (Hm k Hk) as (a & k1 & E & Hq). destruct (Hf a k1 Hq) as (b & k' & E' & Hr).
  exists b, k'. by rewrite (bind_Ok _ _ _ _ _ E).
Qed.

Section Rules.
Context {B : Type} (Q : B -> KState -> Prop).
Lemma settles_read {A} (g : KState -> A) f :
  (forall k, live (kdb k) -> exists b k', f (g (kdb k)) k = (Ok b, k') /\ Q b (kdb k')) ->
  concludes Q (read g ≫= f).
Proof. intros Hf k Hk. by apply Hf. Qed.
Lemma settles_read_any {A} (g : KState -> A) f : (forall v, concludes Q (f v)) -> concludes Q (read g ≫= f).
Proof. intros Hf. apply settles_read. intros k Hk. by apply Hf. Qed.
Lemma settles_attempt {A} (m : M Kernel A) f :
  within (keeps kdb) m -> (forall r, concludes Q (f r)) -> concludes Q (attempt m ≫= f).
Proof.
  intros Hm Hf k Hk. unfold mbind, M_bind, attempt. specialize (Hm k). destruct (m k) as [r k1]. unfold keeps in Hm.
  cbn in Hm. apply Hf. by rewrite Hm.
Qed.
Lemma settles_running f : concludes Q (f true) -> concludes Q (read (_action_is_running aid) ≫= f).
Proof.
  intros Hf. apply settles_read. intros k Hk. pose proof Hk as [_ (a & Ha & Hst)].
  assert (_action_is_running aid (kdb k) = true) as ->; [|by apply Hf].
  unfold _action_is_running. rewrite Ha. by apply bool_decide_eq_true.
Qed.
(** A reservation keeps the action running, a validation changes nothing. *)
Lemma settles_reserve now f :
  (forall r, concludes Q (f r)) -> concludes Q (on_db (reserve_retry_if_fenced aid now) ≫= f).
Proof.
  intros Hf k [Hd (a & Ha & Hst)]. unfold mbind, M_bind, on_db.
  destruct (reserve_retry_db aid now _ Hd) as [Hd' _].
  pose proof (reserve_retry_run aid now _ (proj1 (db_kernel _ Hd))) as Hr. cbn zeta in Hr. rewrite Ha in Hr.
  destruct (_ && _).
  - destruct Hr as (pl & E & _). rewrite E in Hd' |- *. apply Hf. split; [exact Hd'|].
    eexists. cbn [kdb]. rewrite get_upserted_action, decide_True by (symmetry; apply (get_action_id _ _ _ Ha)).
    split; [reflexivity|]. change (get_action _ (logged _ _)) with (get_action aid (kdb k)). by rewrite Ha.
  - destruct Hr as (e & E). rewrite E. apply Hf. by split; [|exists a].
Qed.
Lemma validate_run a now s : exists r, validate_reserved_retry_if_fenced a now s = (Ok r, s).
Proof.
  unfold validate_reserved_retry_if_fenced, transaction. run_m.
  repeat case_match; simplify_eq; by eexists.
Qed.
Lemma settles_validate now f :
  (forall r, concludes Q (f r)) -> concludes Q (on_db (validate_reserved_retry_if_fenced aid now) ≫= f).
Proof.
  intros Hf k Hk. unfold mbind, M_bind, on_db. destruct (validate_run aid now (kdb k)) as [r ->].
  apply Hf. by destruct k.
Qed.
End Rules.
Section WithDriver.
Context (d : Driver) (Hd : quiet d).
Lemma kcall_quiet : within (keeps kdb) (call_dispatch d acb).
Proof. intros k. unfold call_dispatch, modify, mbind, M_bind. apply (proj1 Hd aid _ _ (mkKernel _ _ _ _ _ _)). Qed.

Lemma settles_inspect why : settles (_inspect_after_unknown acb d why).
Proof.
  apply settles_running. cbn [negb]. apply settles_attempt; [apply Hd|]. intros [r|e]; [|apply settles_mark].
  destruct (di_status r); [|apply settles_ret| |apply settles_mark]; apply settles_on_db;
    [apply commit_and_release_ends|apply fail_and_release_ends].
Qed.
Lemma settles_finish r : settles (finish_retry acb r).
Proof.
  unfold finish_retry. destruct (dr_status r); [|apply settles_ret|apply settles_mark..].
  apply settles_on_db, commit_and_release_ends.
Qed.
Lemma reserve_for_retry_concludes :
  concludes (fun (go : bool) s => if go then live s else settled acb s) (reserve_for_retry acb).
Proof.
  unfold reserve_for_retry. apply settles_read_any. intros now. apply settles_reserve. intros [[|] e]; cbn [negb].
  - apply settles_read_any. intros now'. apply settles_validate. intros [[|] e']; cbn [negb].
    + intros k Hk. by exists true, k.
    + apply settles_then_false, settles_mark.
  - apply settles_read_any. intros [|]; apply settles_then_false; [apply settles_ret|apply settles_mark].
Qed.
Lemma settles_unknown : settles (on_dispatch_unknown acb d).
Proof.
  unfold on_dispatch_unknown. destruct (_unknown_recovery_mode acb); [|apply settles_inspect|apply settles_mark].
  eapply concludes_bind; [apply reserve_for_retry_concludes|]. intros [|] k Hk; [|by exists tt, k].
  refine (settles_attempt (fun _ => settled acb) _ _ kcall_quiet _ k Hk). intros [r|e]; [apply settles_finish|apply settles_mark].
Qed.
Lemma settles_retry_exception current err :
  action_id current = aid -> settles (retry_after_exception acb current d err).
Proof.
  intros Hid. unfold retry_after_exception. rewrite Hid. apply settles_read_any. intros now.
  apply settles_reserve. intros [[|] e]; cbn [negb].
  - apply settles_running. cbn [negb]. apply settles_read_any. intros now'.
    apply settles_validate. intros [[|] e']; cbn [negb]; [|apply settles_uncertain].
    apply settles_attempt; [apply kcall_quiet|]. intros [r|e'']; [|apply settles_uncertain].
    destruct (dr_status r); [|apply settles_ret|apply settles_uncertain..].
    apply settles_on_db, commit_and_release_ends.
  - apply settles_read_any. intros [|]; [apply settles_ret|apply settles_uncertain].
Qed.
Lemma settles_exception e : settles (on_dispatch_exception acb d e).
Proof.
  unfold on_dispatch_exception. destruct (_unknown_recovery_mode acb); [|apply settles_inspect|apply settles_uncertain].
  apply settles_read. intros k Hk. pose proof Hk as [_ (a & Ha & Hst)]. rewrite Ha, decide_True by done.
  apply settles_retry_exception; [by apply get_action_id in Ha|done].
Qed.

Lemma settles_inspected :
  settles (is_running ← read (_action_is_running aid);
    if negb is_running then on_db (release (lease_ids acb)) ;; mret tt else recover_with acb d).
Proof.
  apply settles_running. cbn [negb]. unfold recover_with. case_decide; [apply settles_mark|].
  apply settles_attempt; [apply Hd|]. intros [r|e]; [|apply settles_uncertain].
  destruct (di_status r); [apply settles_on_db, commit_and_release_ends|apply settles_ret|
    apply settles_on_db, fail_and_release_ends|].
  destruct (_unknown_recovery_mode acb); [|apply settles_mark..].
  intros k Hk. unfold try_except. destruct (reserve_for_retry_concludes k Hk) as ([|] & k1 & E & Hgo);
    rewrite (bind_Ok _ _ _ _ _ E); [|by exists tt, k1].
  unfold mbind, M_bind. pose proof (kcall_quiet k1) as Hq. unfold keeps in Hq.
  destruct (call_dispatch d acb k1) as [[res|exc] k2]; cbn in Hq.
  - destruct (settles_finish res k2) as ([] & k3 & -> & Hs); [by rewrite Hq|]. by exists tt, k3.
  - apply settles_mark. by rewrite Hq.
Qed.
Lemma settles_called :
  settles (r ← attempt (call_dispatch d acb); after_dispatch acb d r).
Proof.
  apply settles_attempt; [apply kcall_quiet|]. intros [r|e]; [|apply settles_exception].
  unfold after_dispatch. destruct (dr_status r); [apply settles_on_db, commit_and_release_ends|apply settles_ret|
    apply settles_on_db, fail_and_release_ends|apply settles_unknown].
Qed.
End WithDriver.

Lemma recover_settles k :
  (forall d, get_driver (device_type acb) k = Some d -> quiet d) -> live (kdb k) ->
  exists k', recover_action acb k = (Ok tt, k') /\ settled acb (kdb k').
Proof.
  intros Hd Hk. unfold recover_action. rewrite gets_bind. destruct (get_driver (device_type acb) k) as [d|].
  - destruct (settles_inspected d (Hd d eq_refl) k Hk) as ([] & k' & E & Hs). by exists k'.
  - destruct (settles_on_db _ (fail_and_release_ends acb (lease_ids acb) [("reason", JStr "no_driver")]
      [("reason", JStr "no_driver")]) k Hk) as ([] & k' & E & Hs). by exists k'.
Qed.

Lemma dispatch_settles k :
  (forall d, get_driver (device_type acb) k = Some d -> quiet d) -> db_ok (kdb k) ->
  get_action aid (kdb k) = Some acb -> acb_state acb = ActionState.ADMITTED ->
  exists k', dispatch_action acb k = (Ok tt, k') /\ settled acb (kdb k').
Proof.
  intros Hq Hd Ha Hst. unfold dispatch_action, read. rewrite gets_bind.
  assert (forall e, exists k', on_db (refuse acb e) k = (Ok tt, k') /\ settled acb (kdb k')) as Href.
  { intros e. unfold on_db. destruct (refuse_ends acb e _ Hd Ha Hst) as (s' & -> & Ht). eexists. split; [done|by right]. }
  destruct (validate_action_contract _ _ _ _ _) as [[|] err]; cbn [negb]; [|apply Href].
  rewrite gets_bind. destruct (get_driver (device_type acb) k) as [d|]; [|apply Href].
  pose proof (dispatch_run aid _ (proj1 (db_kernel _ Hd))) as Hr. rewrite Ha, decide_True in Hr by done.
  destruct Hr as (ev & E). destruct (dispatch_db aid _ Hd) as [Hd1 _]. rewrite E in Hd1. cbn in Hd1.
  set (k1 := mkKernel (changed (kdb k) (acb_set_state acb ActionState.RUNNING) "ACTION_RUNNING"
    [("action_id", JStr aid)] (clock_now (kdb k))) (outside k) (_programs k) (_drivers k) (logical k) (dispatched k)).
  assert (on_db (ActionService.dispatch aid) k = (Ok ev, k1)) as E1 by (unfold on_db; by rewrite E).
  rewrite (bind_Ok _ _ _ _ _ E1).
  destruct (settles_called d (Hq d eq_refl) k1) as ([] & k' & E' & Hset); [|by exists k'].
  split; [done|]. eexists. split; [by apply (get_changed _ acb)|done].
Qed.
End One.
End Settling.

(** ** Where a process step ends *)

(** The states a step that returned [res] may leave its process in. *)
Definition step_states (res : ProgramStepResult) : list ProcessState.t :=
  match psr_request res with
  | Some (NotARequest _) => [ProcessState.FAILED]
  | Some (Syscall r) =>
      match req_body r with
      | Exit _ _ => [ProcessState.EXITED]
      | Wait _ => [ProcessState.BLOCKED]
      | SubmitAction _ => [ProcessState.READY; ProcessState.BLOCKED]
      | _ => [ProcessState.READY]
      end
  | None =>
      match psr_exit_code res with
      | Some code => if String.eqb code "" then [ProcessState.READY] else [ProcessState.EXITED]
      | None => [ProcessState.READY]
      end
  end.

Section Steps.
Context `{UuidSource, ExcText, DefaultCapabilities}.

Lemma transition_state pid target wc s ev s' :
  log_ok s -> transition pid target wc s = (Ok ev, s') -> log_ok s' /\ proc_state s' pid = Some target.
Proof.
  intros Hs E. pose proof (transition_log_ok pid target wc s Hs) as Hl. rewrite E in Hl. split; [done|].
  rewrite transition_run in E by done. destruct (get_process pid s) as [p|] eqn:Hp; [|done].
  unfold apply_process_transition in E. destruct (validate_process_transition p target wc) as [why|e]; [|done].
  injection E as _ <-. rewrite proc_state_upserted. cbn. rewrite decide_True; [done|]. symmetry. by eapply get_process_pid.
Qed.

(** Cleanup does not touch processes. *)
Lemma release_all_processes pid : within (keeps processes_projection) (release_all_for_pid pid).
Proof.
  unfold release_all_for_pid, delete_row, delete_leases. solve_within; apply publish_frame; apply _.
Qed.
Lemma keeps_states {A} (m : M KState A) s pid st :
  within (keeps processes_projection) m -> proc_state s pid = Some st -> proc_state (m s).2 pid = Some st.
Proof. intros Hm. unfold proc_state, get_process. by rewrite (Hm s). Qed.


Definition lands (m : M KState unit) (pid : string) (states : list ProcessState.t) : Prop :=
  forall s s', db_ok s -> m s = (Ok tt, s') -> exists st, proc_state s' pid = Some st /\ st ∈ states.

Lemma ready_lands pid : lands (back_to_ready pid) pid [ProcessState.READY].
Proof.
  intros s s' Hs (ev & s1 & E & [= <-])%bind_Ok_inv.
  destruct (transition_state _ _ _ _ _ _ (proj1 (db_kernel _ Hs)) E) as [_ ->]. eexists. split; [done|set_solver].
Qed.
Lemma after_db {A} (m : M KState A) s a s1 : within db_step m -> db_ok s -> m s = (Ok a, s1) -> db_ok s1.
Proof. intros Hm Hs E. destruct (Hm s Hs) as [Hd _]. by rewrite E in Hd. Qed.
Lemma fail_lands pid ty pl : lands (fail_process pid ty pl) pid [ProcessState.FAILED].
Proof.
  intros s s' Hs (ev & s1 & E1 & (ev2 & s2 & E2 & (n & s3 & E3 & [= <-])%bind_Ok_inv)%bind_Ok_inv)%bind_Ok_inv.
  assert (db_ok s1) as Hs1 by (by eapply after_db; [apply emit_db| |]).
  destruct (transition_state _ _ _ _ _ _ (proj1 (db_kernel _ Hs1)) E2) as [_ Hst].
  pose proof (keeps_states _ _ _ _ (release_all_processes pid) Hst) as Hst'. rewrite E3 in Hst'.
  eexists. split; [exact Hst'|set_solver].
Qed.
Lemma exit_lands strict rid pid code rr :
  lands (Dispatcher.dispatch strict (mkRequest rid pid (Exit code rr)) ;; mret tt) pid [ProcessState.EXITED].
Proof.
  intros s s' Hs (ev & s1 & E & [= <-])%bind_Ok_inv. unfold Dispatcher.dispatch in E; cbn in E. unfold _handle_exit in E.
  apply bind_Ok_inv in E as (ev1 & s2 & E1 & E). apply bind_Ok_inv in E as (n & s3 & E2 & E).
  apply bind_Ok_inv in E as (opcb & s4 & E3 & E). apply bind_Ok_inv in E as ([] & s5 & E4 & E).
  destruct (transition_state _ _ _ _ _ _ (proj1 (db_kernel _ Hs)) E1) as [_ Hst].
  pose proof (keeps_states _ _ _ _ (release_all_processes pid) Hst) as Hst'. rewrite E2 in Hst'. cbn in Hst'.
  injection E3 as <- <-. assert (proc_state s5 pid = Some ProcessState.EXITED) as Hs5.
  { unfold proc_state in Hst'. destruct (get_process pid s3) as [p|] eqn:Hp; [|done]. injection Hst' as Hx.
    injection E4 as <-. change (proc_state (upserted (pcb_set_exit p (Some code) rr) s3) pid = Some ProcessState.EXITED).
    rewrite proc_state_upserted. cbn. rewrite decide_True by (symmetry; by eapply get_process_pid). by rewrite Hx. }
  assert (within (keeps processes_projection) (journaled pid "PROCESS_EXITED" [("exit_code", JStr code); ("result_ref", jstr_opt rr)])) as Hj.
  { unfold journaled. within_step; [apply new_event_frame; apply _|]. within_step; [apply append_event_frame; apply _|].
    solve_within. }
  pose proof (keeps_states _ _ _ _ Hj Hs5) as Hx. rewrite E in Hx. eexists. split; [exact Hx|set_solver].
Qed.

Lemma then_lands {A} (m : M KState A) f pid states :
  within db_step m -> (forall a, lands (f a) pid states) -> lands (m ≫= f) pid states.
Proof.
  intros Hm Hf s s' Hs (a & s1 & E & E')%bind_Ok_inv. eapply (Hf a); [|exact E']. by eapply after_db.
Qed.
Lemma lands_weaken m pid l l' : lands m pid l -> l ⊆ l' -> lands m pid l'.
Proof. intros Hm Hl s s' Hs E. destruct (Hm s s' Hs E) as (st & ? & ?). exists st. set_solver. Qed.
Lemma block_lands pid wc : lands (transition pid ProcessState.BLOCKED wc ;; mret tt) pid [ProcessState.BLOCKED].
Proof.
  intros s s' Hs (ev & s1 & E & [= <-])%bind_Ok_inv.
  destruct (transition_state _ _ _ _ _ _ (proj1 (db_kernel _ Hs)) E) as [_ ->]. eexists. split; [done|set_solver].
Qed.
Lemma wait_lands strict rid pid c :
  lands (Dispatcher.dispatch strict (mkRequest rid pid (Wait c)) ;; mret tt) pid [ProcessState.BLOCKED].
Proof.
  intros s s' Hs (ev & s1 & E & [= <-])%bind_Ok_inv. unfold Dispatcher.dispatch in E; cbn in E. unfold _handle_wait in E.
  apply bind_Ok_inv in E as (ev1 & s2 & E1 & E).
  destruct (transition_state _ _ _ _ _ _ (proj1 (db_kernel _ Hs)) E1) as [_ Hst].
  assert (within (keeps processes_projection) (new_event pid "PROCESS_BLOCKED" [("condition", JObj c)])) as Hj
    by (apply new_event_frame; apply _).
  pose proof (keeps_states _ _ _ _ Hj Hst) as Hx. rewrite E in Hx. eexists. split; [exact Hx|set_solver].
Qed.
Lemma submission_lands strict pid req : lands (run_submission strict pid req) pid [ProcessState.READY; ProcessState.BLOCKED].
Proof.
  assert (lands (back_to_ready pid) pid [ProcessState.READY; ProcessState.BLOCKED]) as Hr.
  { eapply lands_weaken; [apply ready_lands|set_solver]. }
  unfold run_submission. apply then_lands; [solve_within|]. intros [ev|]; [|done].
  destruct (String.eqb _ _); [done|]. apply then_lands; [solve_within|]. intros [aid|]; [|done].
  destruct (String.eqb _ _); [done|]. eapply lands_weaken; [apply block_lands|set_solver].
Qed.

Lemma finish_step_lands strict pcb res : lands (finish_step strict pcb res) (pcb_pid pcb) (step_states res).
Proof.
  unfold finish_step, step_states. apply then_lands; [solve_within|]. intros _. apply then_lands; [solve_within|].
  intros off. apply then_lands; [solve_within|]. intros _.
  destruct (psr_request res) as [[[rid rp body]|ty]|].
  - unfold run_request, request_as; cbn [request_id req_pid req_body]. destruct body;
      try (apply then_lands; [solve_within|]; intros _; apply ready_lands);
      [apply submission_lands|apply wait_lands|apply exit_lands].
  - apply fail_lands.
  - destruct (psr_exit_code res) as [code|]; [|apply ready_lands].
    destruct (String.eqb code ""); [apply ready_lands|]. apply then_lands; [solve_within|]. intros rid. apply exit_lands.
Qed.
End Steps.

(** The call [program.step] a step of [pcb] makes: the kernel it is made in, with
    what the program returned or raised and the kernel after it. *)
Definition program_call {X Program Driver : Type} `{UuidSource, !Machine X Program Driver} (program : Program)
    (pid : string) (k : AgentKernel X Program Driver) :=
  let k1 := (on_db (begin_step pid) k).2 in
  let cursor := default 0%Z (event_cursor <$> get_process pid (kdb k1)) in
  program_step program (dict_set "pid" (JStr pid) (get_program_state pid (kdb k1)))
    (read_last_for_pid_since pid cursor (kdb k1)) k1.

Lemma begin_step_run `{UuidSource} pcb s :
  db_ok s -> get_process (pcb_pid pcb) s = Some pcb -> pcb_state pcb = ProcessState.READY ->
  exists p s', begin_step (pcb_pid pcb) s = (Ok (Some p), s') /\ db_ok s' /\ get_process (pcb_pid pcb) s' = Some p /\
    pcb_pid p = pcb_pid pcb /\ pcb_state p = ProcessState.RUNNING.
Proof.
  intros Hs Hp Hst. assert (within db_step (begin_step (pcb_pid pcb))) as Hb by (unfold begin_step; solve_within).
  destruct (Hb s Hs) as [Hs' _]. revert Hs'. unfold begin_step, try_except.
  pose proof (transition_run (pcb_pid pcb) ProcessState.RUNNING None s (proj1 (db_kernel _ Hs))) as E. rewrite Hp in E.
  assert (apply_process_transition pcb ProcessState.RUNNING None =
    Ok ("scheduled", pcb_set_state pcb ProcessState.RUNNING None)) as Ht.
  { unfold apply_process_transition, validate_process_transition. by rewrite Hst. }
  rewrite Ht in E. cbv zeta in E.
  pose proof (transition_state _ _ _ _ _ _ (proj1 (db_kernel _ Hs)) E) as [_ Hr].
  unfold mbind, M_bind. rewrite E. unfold gets. cbn [mret M_ret snd]. unfold proc_state in Hr.
  match type of Hr with pcb_state <$> get_process _ ?s1 = _ => set (s1' := s1) in * end.
  destruct (get_process (pcb_pid pcb) s1') as [p|] eqn:E'; [|done]. injection Hr as Hr. intros Hs'.
  exists p, s1'. split; [done|]. split_and!; [done|done|by eapply get_process_pid|done].
Qed.

(** Where a step leaves its process.  Whatever interferes while the program
    runs, a step of a READY process that returns leaves the process in the state
    its outcome calls for: EXITED after an exit, BLOCKED after a wait, READY or
    BLOCKED after a submission, FAILED when the program raised or returned an
    object that is no request, READY otherwise; never RUNNING. *)
Theorem step_outcome {X Program Driver : Type} `{UuidSource, ExcText, DefaultCapabilities}
    `{!Machine X Program Driver, !Interferes X Program Driver} strict (k k' : AgentKernel X Program Driver) pcb program :
  loop_ok k -> get_process (pcb_pid pcb) (kdb k) = Some pcb -> pcb_state pcb = ProcessState.READY ->
  assoc (pcb_pid pcb) (_programs k) = Some program ->
  _run_process_step strict pcb k = (Ok tt, k') ->
  exists st, proc_state (kdb k') (pcb_pid pcb) = Some st /\ st <> ProcessState.RUNNING /\
    match (program_call program (pcb_pid pcb) k).1 with
    | Ok res => st ∈ step_states res
    | Raise _ => st = ProcessState.FAILED
    end.
Proof.
  intros Hk Hp Hst Hprog. destruct (begin_step_run pcb (kdb k) (proj1 Hk) Hp Hst) as (p & s1 & E1 & Hs1 & Hp1 & Hid & Hrun).
  assert (on_db (begin_step (pcb_pid pcb)) k = (Ok (Some p), (on_db (begin_step (pcb_pid pcb)) k).2)) as E.
  { unfold on_db. by rewrite E1. }
  unfold program_call. unfold _run_process_step. rewrite decide_False by (by intros []). rewrite gets_bind, Hprog.
  rewrite (bind_Ok _ _ _ _ _ E). set (k1 := (on_db (begin_step (pcb_pid pcb)) k).2) in *.
  assert (kdb k1 = s1) as Hk1s by (unfold k1, on_db; by rewrite E1).
  assert (loop_ok k1) as Hk1 by (by apply on_db_loop; [unfold begin_step; solve_within|]).
  unfold read. rewrite !gets_bind, Hid, Hk1s, Hp1. cbn [default fmap option_fmap option_map].
  unfold attempt, mbind, M_bind.
  set (call := program_step program _ _). pose proof (program_env program (dict_set "pid" (JStr (pcb_pid pcb))
    (get_program_state (pcb_pid pcb) s1)) (read_last_for_pid_since (pcb_pid pcb) (event_cursor p) s1) k1) as Henv.
  fold call in Henv. destruct (call k1) as [[res|e] k2]; cbn in Henv |- *;
    destruct (env_loop _ _ Henv Hk1) as [Hk2 _]; unfold on_db.
  - destruct (finish_step strict p res (kdb k2)) as [[[]|e] s2] eqn:Ef; [|done]. intros [= <-]. cbn [kdb].
    destruct (finish_step_lands strict p res _ _ Hk2 Ef) as (st & Hx & Hin). rewrite Hid in Hx.
    exists st. split_and!; [done| |done]. intros ->. unfold step_states in Hin. repeat case_match; set_solver.
  - destruct (fail_process _ _ _ (kdb k2)) as [[[]|e'] s2] eqn:Ef; [|done]. intros [= <-]. cbn [kdb].
    destruct (fail_lands _ _ _ _ _ Hk2 Ef) as (st & Hx & Hin). exists st. split_and!; [done|set_solver|set_solver].
Qed.

(** A kernel with one process whose action has been admitted. *)
Definition admitted_kernel (d : Demo.driver) : AgentKernel unit Demo.program Demo.driver :=
  (tick true (spawn true (Demo.one_action SideEffectClass.PURE RecoveryPolicy.RETRY) "" None (Demo.kernel_with d)).2).2.
Lemma admitted_kernel_ok d : loop_ok (admitted_kernel d).
Proof.
  apply (kernel_run_ok true (Demo.kernel_with d)); [|apply new_kernel_ok].
  exact (rtc_l _ _ _ _ (step_spawn true _ "" None _) (rtc_once _ _ (step_tick true _))).
Qed.

(** C5: the loop never strands an action.  When nobody interferes, dispatching an
    admitted action and recovering a running one always return, and afterwards the
    action is still running, or it is COMMITTED, FAILED or UNCERTAIN, none of its
    leases is left, and a pending signal of the matching type wakes the process
    that waits for it. *)
Theorem actions_settle {X Program Driver : Type} `{UuidSource, ExcText, DefaultCapabilities}
    `{!Machine X Program Driver} (k : AgentKernel X Program Driver) acb :
  db_ok (kdb k) -> get_action (action_id acb) (kdb k) = Some acb ->
  (forall d, get_driver (device_type acb) k = Some d -> quiet d) ->
  (acb_state acb = ActionState.ADMITTED ->
   exists k', dispatch_action acb k = (Ok tt, k') /\ settled acb (kdb k')) /\
  (acb_state acb = ActionState.RUNNING ->
   exists k', recover_action acb k = (Ok tt, k') /\ settled acb (kdb k')).
Proof.
  intros Hd Ha Hq. split; intros Hst; [by apply dispatch_settles|].
  apply recover_settles; [done|]. split; [done|]. by exists acb.
Qed.

Lemma actions_settle_witness :
  exists acb k', acb_state acb = ActionState.ADMITTED /\
    dispatch_action acb (admitted_kernel Demo.unknown_driver) = (Ok tt, k') /\ settled acb (kdb k').
Proof.
  pose proof (admitted_kernel_ok Demo.unknown_driver) as [Hd _].
  assert (exists acb, get_action (action_id acb) (kdb (admitted_kernel Demo.unknown_driver)) = Some acb /\
    acb_state acb = ActionState.ADMITTED /\
    get_driver (device_type acb) (admitted_kernel Demo.unknown_driver) = Some Demo.unknown_driver) as (acb & Ha & Hst & Hdr).
  { eexists (default (mkACB "" "" "" "" [] ActionState.SUBMITTED [] [] [] None SideEffectClass.PURE RecoveryPolicy.RETRY 0
      None None None 0 None) (get_action "uuid-9" (kdb (admitted_kernel Demo.unknown_driver)))).
    split_and!; vm_compute; reflexivity. }
  revert Hd Ha Hdr. generalize (admitted_kernel Demo.unknown_driver). intros k Hd Ha Hdr.
  destruct (actions_settle k acb Hd Ha) as [Hx _].
  { intros d E. rewrite Hdr in E. injection E as <-. split; intros; intros k0; reflexivity. }
  destruct (Hx Hst) as (k' & E & Hs). by exists acb, k'.
Defined.

Lemma step_outcome_witness :
  exists pcb (k' : AgentKernel unit Demo.program Demo.driver), pcb_state pcb = ProcessState.READY /\
    proc_state (kdb k') (pcb_pid pcb) = Some ProcessState.BLOCKED.
Proof.
  set (k0 := (spawn true (Demo.one_action SideEffectClass.PURE RecoveryPolicy.RETRY) "" None
    (Demo.kernel_with Demo.unknown_driver)).2).
  assert (loop_ok k0) as Hk.
  { apply (kernel_run_ok true (Demo.kernel_with Demo.unknown_driver)); [|apply new_kernel_ok].
    exact (rtc_once _ _ (step_spawn true _ "" None _)). }
  set (dflt := mkPCB "" None "" ProcessState.CREATED 0 0 "" "" "" "" None None None None None 0 0).
  assert (exists pcb k', get_process (pcb_pid pcb) (kdb k0) = Some pcb /\ pcb_state pcb = ProcessState.READY /\
    assoc (pcb_pid pcb) (_programs k0) = Some (Demo.one_action SideEffectClass.PURE RecoveryPolicy.RETRY) /\
    _run_process_step true pcb k0 = (Ok tt, k') /\ proc_state (kdb k') (pcb_pid pcb) <> Some ProcessState.READY /\
    exists res, (program_call (Demo.one_action SideEffectClass.PURE RecoveryPolicy.RETRY) (pcb_pid pcb) k0).1 = Ok res /\
      step_states res = [ProcessState.READY; ProcessState.BLOCKED])
    as (pcb & k' & Hp & Hst & Hprog & E & Hn & res & Hcall & Hres).
  { exists (default dflt (get_process "uuid-1" (kdb k0))).
    exists (_run_process_step true (default dflt (get_process "uuid-1" (kdb k0))) k0).2.
    split_and!; [vm_compute; reflexivity..|vm_compute; congruence|]. eexists.
    split; vm_compute; reflexivity. }
  revert Hk Hp Hprog E Hcall. generalize k0. intros k Hk Hp Hprog E Hcall.
  destruct (step_outcome true k k' pcb _ Hk Hp Hst Hprog E) as (st & Hs & _ & Hm). rewrite Hcall, Hres in Hm.
  exists pcb, k'. split; [done|]. rewrite Hs in Hn |- *.
  apply elem_of_cons in Hm as [->|Hm%list_elem_of_singleton]; [done|by subst].
Defined.

(** ** Deadlock recovery *)

(** How victims compare: priority, number of leases, pid. *)
Definition victim_key (s : KState) (pid : string) : Z * (Z * string) :=
  (default 0%Z (priority <$> get_process pid s), (Z.of_nat (length (list_leases_for_pid pid s)), pid)).

Section Deadlocks.
Context `{UuidSource}.

Lemma candidates_keys cycle s :
  (forall p, p ∈ cycle -> is_Some (get_process p s)) -> victim_candidates cycle s = victim_key s <$> cycle.
Proof.
  induction cycle as [|p cycle IH]; intros Hp; [done|]. cbn. rewrite <-IH by set_solver.
  unfold victim_candidates, victim_key. cbn. destruct (Hp p) as [pcb ->]; [set_solver|]. done.
Qed.

Lemma select_victim_least cycle s :
  cycle <> [] -> (forall p, p ∈ cycle -> is_Some (get_process p s)) ->
  exists v, _select_victim cycle s = Ok v /\ v ∈ cycle /\
    forall p, p ∈ cycle -> py_leb (victim_key s v) (victim_key s p) = true.
Proof.
  intros Hne Hp. unfold _select_victim. rewrite candidates_keys by done.
  pose proof (sort_on_sorted id (victim_key s <$> cycle)) as Hs.
  destruct (py_sorted (victim_key s <$> cycle)) as [|[pr [n v]] rest] eqn:E.
  - destruct cycle as [|p cycle]; [done|]. apply (f_equal length) in E. by rewrite length_sort_on in E.
  - assert ((pr, (n, v)) ∈ victim_key s <$> cycle) as Hv by (apply (elem_of_sort_on id); rewrite E; set_solver).
    apply list_elem_of_fmap in Hv as (p & Hk & Hv). exists v. split; [done|].
    assert (p = v) as -> by (unfold victim_key in Hk; congruence). split; [done|].
    intros q Hq. rewrite <-Hk.
    assert (victim_key s q ∈ (pr, (n, v)) :: rest) as [->|Hin]%elem_of_cons.
    { rewrite <-E. apply (elem_of_sort_on id), list_elem_of_fmap_2, Hq. }
    + apply py_leb_refl.
    + apply StronglySorted_inv in Hs as [_ Hf]. rewrite Forall_forall in Hf. by apply Hf.
Qed.
End Deadlocks.

(** C6: deadlock recovery breaks the cycle.  For a reported cycle of live
    processes, the recovery returns; it takes the member with the least (priority,
    number of leases, pid), fails it, and removes exactly its waits and its leases:
    the other waits are as before, so every cycle through the victim is gone and no
    new one appears. *)
Theorem deadlock_recovered `{UuidSource} cycle s :
  db_ok s -> cycle ∈ detect_deadlocks s ->
  (forall p, p ∈ cycle -> p <> "" /\
     exists pcb, get_process p s = Some pcb /\
       pcb_state pcb ∈ [ProcessState.READY; ProcessState.RUNNING; ProcessState.BLOCKED; ProcessState.SUSPENDED]) ->
  exists v s', _recover_deadlock cycle s = (Ok tt, s') /\ v ∈ cycle /\
    (forall p, p ∈ cycle -> py_leb (victim_key s v) (victim_key s p) = true) /\
    proc_state s' v = Some ProcessState.FAILED /\
    (forall x y, waits_for s' x y <-> waits_for s x y /\ x <> v /\ y <> v) /\
    (forall l, l ∈ leases_projection s' <-> l ∈ leases_projection s /\ owner_pid l <> v).
Proof.
  intros Hs Hc Hp.
  pose proof (deadlock_nonempty s cycle Hc) as Hne.
  destruct (select_victim_least cycle s Hne) as (v & Ev & Hv & Hleast).
  { intros p Hin. destruct (Hp p Hin) as (_ & pcb & -> & _). done. }
  destruct (Hp v Hv) as (Hv0 & pcb & Hpcb & Hst).
  unfold _recover_deadlock. rewrite bind_assoc, gets_bind, Ev.
  rewrite (bind_Ok (of_result (Ok v)) _ s v s eq_refl).
  set (pl := [("cycle", _); ("victim", _)]). pose proof (db_kernel _ Hs) as [Hl _].
  rewrite (bind_Ok _ _ _ _ _ (emit_spec s v "DEADLOCK_DETECTED" pl Hl)).
  set (s1 := logged s _). assert (db_ok s1) as Hs1.
  { eapply after_db; [apply (emit_db v "DEADLOCK_DETECTED" pl)|exact Hs|by apply emit_spec]. }
  assert (exists ev s2, transition v ProcessState.FAILED None s1 = (Ok ev, s2) /\
    lease_waiters s2 = lease_waiters s1 /\ leases_projection s2 = leases_projection s1) as (ev & s2 & Et & Hw2 & Hl2).
  { rewrite transition_run by apply (db_kernel _ Hs1). change (get_process v s1) with (get_process v s). rewrite Hpcb.
    unfold apply_process_transition, validate_process_transition. destruct (pcb_state pcb); try set_solver; by eexists _, _. }
  assert (db_ok s2) as Hs2 by (eapply after_db; [apply transition_db|exact Hs1|exact Et]).
  destruct (transition_state _ _ _ _ _ _ (proj1 (db_kernel _ Hs1)) Et) as [_ Hst2].
  assert (try_except (transition v ProcessState.FAILED None ;; mret tt)
    (fun e => match e with IllegalStateTransition _ _ _ => mret tt | _ => raise e end) s1 = (Ok tt, s2)) as Etry.
  { unfold try_except. by rewrite (bind_Ok _ _ _ _ _ Et). }
  rewrite (bind_Ok _ _ _ _ _ Etry).
  destruct (release_all_run v s2 (db_kernel _ Hs2) Hv0) as (evs & Er & Hk3 & _).
  rewrite (bind_Ok _ _ _ _ _ Er). set (s3 := published _ evs) in *.
  rewrite (bind_Ok _ _ _ _ _ (emit_spec s3 v "DEADLOCK_RECOVERED" pl (proj1 Hk3))).
  exists v. eexists. split; [reflexivity|]. split_and!; [done|done| | |].
  - exact Hst2.
  - intros x y. unfold waits_for. cbn. rewrite Hw2, Hl2. cbn. setoid_rewrite list_elem_of_filter. cbn. naive_solver.
  - intros l. cbn. rewrite Hl2, list_elem_of_filter. cbn. tauto.
Qed.

(** Two processes, each holding what the other waits for. *)
Definition demo_crossed : M KState unit :=
  p1 ← ProcessService.spawn "a" "ns" None None "default" 10 None;
  p2 ← ProcessService.spawn "b" "ns" None None "default" 5 None;
  atomic_acquire (pcb_pid p1) [mkClaim "R1" None] DEFAULT_LEASE_TTL ;;
  atomic_acquire (pcb_pid p2) [mkClaim "R2" None] DEFAULT_LEASE_TTL ;;
  suppress (atomic_acquire (pcb_pid p1) [mkClaim "R2" None] DEFAULT_LEASE_TTL) ;;
  suppress (atomic_acquire (pcb_pid p2) [mkClaim "R1" None] DEFAULT_LEASE_TTL).
Lemma demo_crossed_ok : db_ok (demo_crossed (init_storage 0)).2.
Proof. assert (within db_step demo_crossed) as Hd by (unfold demo_crossed; solve_within). apply Hd, init_db_ok. Qed.

Lemma deadlock_recovered_witness :
  exists s v s', detect_deadlocks s = [["uuid-0"; "uuid-4"]] /\
    _recover_deadlock ["uuid-0"; "uuid-4"] s = (Ok tt, s') /\ v = "uuid-4" /\
    proc_state s' v = Some ProcessState.FAILED /\ ~ waits_for s' "uuid-0" v.
Proof.
  pose proof demo_crossed_ok as Hs.
  assert (detect_deadlocks (demo_crossed (init_storage 0)).2 = [["uuid-0"; "uuid-4"]] /\
    (exists pcb, get_process "uuid-0" (demo_crossed (init_storage 0)).2 = Some pcb /\ pcb_state pcb = ProcessState.READY /\ priority pcb = 10%Z) /\
    (exists pcb, get_process "uuid-4" (demo_crossed (init_storage 0)).2 = Some pcb /\ pcb_state pcb = ProcessState.READY /\ priority pcb = 5%Z))
    as (Hc & (p1 & Hp1 & Hs1 & Hr1) & (p2 & Hp2 & Hs2 & Hr2)).
  { split; [vm_compute; reflexivity|]. split; eexists; (split; [vm_compute; reflexivity|]); split; reflexivity. }
  revert Hs Hc Hp1 Hp2. generalize (demo_crossed (init_storage 0)).2. intros s Hs Hc Hp1 Hp2.
  destruct (deadlock_recovered ["uuid-0"; "uuid-4"] s Hs) as (v & s' & E & Hv & Hmin & Hst & Hw & Hl).
  - rewrite Hc. set_solver.
  - intros p Hp. repeat (apply elem_of_cons in Hp as [->|Hp]); [| |set_solver]; (split; [done|]);
      [exists p1|exists p2]; rewrite ?Hs1, ?Hs2; (split; [done|set_solver]).
  - exists s, v, s'. assert (v = "uuid-4") as ->.
    { repeat (apply elem_of_cons in Hv as [->|Hv]); [|done|set_solver]. specialize (Hmin "uuid-4" ltac:(set_solver)).
      unfold victim_key in Hmin. rewrite Hp1, Hp2 in Hmin. cbn in Hmin. rewrite Hr1, Hr2 in Hmin. done. }
    split_and!; [done..|]. rewrite Hw. tauto.
Defined.

(** ** Behaviour that differs from the intention *)

Module Deviations.
Import Demo.

(** A program that asks for a device it has no capability for. *)
Definition intruder : program :=
  mkProgram "intruder" (fun _ => Ok (mkStepResult [] (Some (Syscall (mkRequest "r" "" (SubmitAction
    (mkSubmit "tool/other" "write" [] [] (Some SideEffectClass.PURE) (Some RecoveryPolicy.RETRY) None None))))) None None)) false.
(** A program that yields, and is failed by another coroutine while it runs. *)
Definition doomed : program := mkProgram "doomed" (fun _ => Ok (mkStepResult [] None None None)) true.

Definition spawned (p : program) : AgentKernel unit program driver := (spawn true p "" None (kernel_with unknown_driver)).2.

(** A denied request is not handled by the step: the tick raises
    [CapabilityDenied], and the process stays RUNNING, which no later tick
    schedules. *)
Lemma denied_request_strands :
  (exists pid, (tick true (spawned intruder)).1 = Raise (CapabilityDenied pid "device:tool/other" "invoke")) /\
  report (tick true (spawned intruder)).2 = ([], [ProcessState.RUNNING], 0) /\
  report (run_until_idle true 5 (tick true (spawned intruder)).2).2 = ([], [ProcessState.RUNNING], 0).
Proof. split; [eexists; vm_compute; reflexivity|]. split; vm_compute; reflexivity. Qed.

(** The control block read before [program.step] is written back after it: a
    process that was failed meanwhile is READY again. *)
Lemma step_revives_failed_process :
  report (tick true (spawned doomed)).2 = ([], [ProcessState.READY], 0) /\
  (event_type <$> filter (fun e => ev_pid e = "uuid-1") (journal_events (kdb (tick true (spawned doomed)).2))) =
    ["PROCESS_SPAWNED"; "PROCESS_READY"; "CAPABILITY_SET_CREATED"; "SPAWN_COMPLETE"; "PROCESS_RUNNING";
     "PROCESS_FAILED"; "PROCESS_READY"].
Proof. split; vm_compute; reflexivity. Qed.

(** An action cancelled while it runs: its owner waits for signals that only the
    other outcomes send, and stays BLOCKED in an idle kernel. *)
Lemma cancelled_owner_stranded :
  report (run (one_action SideEffectClass.NON_REVERSIBLE RecoveryPolicy.RETRY) cancelled_meanwhile)
    = ([(ActionState.CANCELLED, 1)], [ProcessState.BLOCKED], 0) /\
  list_non_terminal (kdb (run (one_action SideEffectClass.NON_REVERSIBLE RecoveryPolicy.RETRY) cancelled_meanwhile)) = [].
Proof. split; vm_compute; reflexivity. Qed.

(** [_upsert_projection] does not write [capability_set_id]: the control block of
    a spawned process keeps an id that names no capability set. *)
Lemma spawned_capset_id_lost :
  (fun p => bool_decide (capability_set_id p ∈ set_id <$> capability_sets (kdb (spawned doomed))))
    <$> processes_projection (kdb (spawned doomed)) = [false].
Proof. vm_compute. reflexivity. Qed.

(** A cycle among lease owners that are not processes of the kernel: the recovery
    raises, and so does every tick. *)
Lemma foreign_deadlock_stops_ticks :
  (tick true (mkKernel (set_clock (fun _ => 5%Z) demo_deadlock) tt [] [] 0 [])).1 = Raise (ValueError "Process not found").
Proof. vm_compute. reflexivity. Qed.
End Deviations.
