(* ===== verification/Isolation.v ===== *)
(** * System calls: isolation of processes

    A system call made by a process reaches only what that process owns: leases,
    actions and control blocks of others stay as they are.  A child gets the
    authority of its parent and nothing else. *)

From S2P Require Import Prelude KernelModels StateMachine Storage Journal ProcessService CapabilityService SignalService LeaseService LeaseFacts LeaseProps ActionService ActionProps Dispatcher Kernel KernelFacts KernelProps.

(** The capabilities of a process. *)
Definition authority (pid : string) (s : KState) : list Capability :=
  match get_capability_set pid s with Some cs => capabilities cs | None => [] end.

Section Isolation.
Context `{UuidSource, ExcText, DefaultCapabilities} (q : string).

(** What a call of the process [q] may change. *)
Record confined (s s' : KState) : Prop := {
  con_leases l : l ∈ leases_projection s -> owner_pid l <> q -> l ∈ leases_projection s';
  con_new_leases l : l ∈ leases_projection s' -> l ∈ leases_projection s \/ owner_pid l = q;
  con_actions aid a : get_action aid s = Some a -> acb_pid a <> q -> get_action aid s' = Some a;
  con_new_actions aid a : get_action aid s' = Some a -> get_action aid s = Some a \/ acb_pid a = q;
  con_rows aid : is_Some (get_action aid s) -> is_Some (get_action aid s');
  con_processes p pcb : p <> q -> get_process p s = Some pcb -> get_process p s' = Some pcb;
  con_authority p cs : get_capability_set p s = Some cs -> get_capability_set p s' = Some cs;
  con_new_authority p cs :
    get_capability_set p s' = Some cs -> get_capability_set p s = Some cs \/ capabilities cs = authority q s }.

#[global] Instance confined_preorder : PreOrder confined.
Proof.
  split.
  - intros s. split; eauto.
  - intros s1 s2 s3 [A1 A2 A3 A4 A5 A6 A7 A8] [B1 B2 B3 B4 B5 B6 B7 B8]. split; eauto.
    + intros l Hl. destruct (B2 l Hl) as [Hl2|]; [|by right]. by apply A2.
    + intros aid a Ha. destruct (B4 aid a Ha) as [Ha2|]; [|by right]. by apply A4.
    + intros p cs Hc. destruct (B8 p cs Hc) as [Hc2| ->]; [by apply A8|]. right. unfold authority.
      destruct (get_capability_set q s1) as [c1|] eqn:E1; [by rewrite (A7 _ _ E1)|].
      destruct (get_capability_set q s2) as [c2|] eqn:E2; [|done].
      destruct (A8 _ _ E2) as [|Hn]; [congruence|]. rewrite Hn. unfold authority. by rewrite E1.
Qed.

Definition shared_part (s : KState) := (leases_projection s, actions_projection s).
Definition visible_part (s : KState) :=
  (leases_projection s, actions_projection s, processes_projection s, capability_sets s).

Lemma confined_same s s' : framed visible_part s s' -> confined s s'.
Proof.
  intros [E _]. injection E as El Ea Ep Ec.
  assert (forall aid, get_action aid s' = get_action aid s) as Ha by (intros; unfold get_action; by rewrite Ea).
  assert (forall p, get_process p s' = get_process p s) as Hp by (intros; unfold get_process; by rewrite Ep).
  assert (forall p, get_capability_set p s' = get_capability_set p s) as Hc
    by (intros; unfold get_capability_set; by rewrite Ec).
  split; intros; rewrite ?Ha, ?Hp, ?Hc, ?El in *; eauto.
Qed.
Lemma confined_framed {A} (m : M KState A) : within (framed visible_part) m -> within confined m.
Proof. intros Hm s. apply confined_same, Hm. Qed.

(** ** Processes, events, signals, checkpoints *)

Lemma fresh_uuid_confined : within confined fresh_uuid.
Proof. apply confined_framed. eauto with lhos. Qed.
Lemma emit_confined pid ty pl : within confined (emit pid ty pl).
Proof. apply confined_framed. eauto with lhos. Qed.
Lemma new_event_confined pid ty pl : within confined (new_event pid ty pl).
Proof. apply confined_framed. eauto with lhos. Qed.
Lemma append_event_confined ev : within confined (append_event ev).
Proof. apply confined_framed. eauto with lhos. Qed.
#[local] Hint Resolve fresh_uuid_confined emit_confined new_event_confined append_event_confined : lhos.
Lemma journaled_confined pid ty pl : within confined (journaled pid ty pl).
Proof. unfold journaled. solve_within. Qed.
Lemma modify_confined f : (forall s, framed visible_part s (f s)) -> within confined (modify f).
Proof. intros Hf s. apply confined_same, Hf. Qed.
#[local] Hint Resolve journaled_confined : lhos.
Lemma send_confined target ty src pl : within confined (send target ty src pl).
Proof. unfold send, _upsert_signal. solve_within. by apply modify_confined. Qed.
Lemma enforce_confined pid res op : within confined (enforce pid res op).
Proof. unfold enforce. solve_within. Qed.
Lemma clear_waiters_confined pid : within confined (clear_waiters_for_pid pid).
Proof. unfold clear_waiters_for_pid, delete_waiters. solve_within. by apply modify_confined. Qed.
#[local] Hint Resolve send_confined enforce_confined clear_waiters_confined : lhos.

Lemma upsert_own_confined pcb : pcb_pid pcb = q -> within confined (ProcessService._upsert_projection pcb).
Proof.
  intros Hq s. rewrite upsert_run. cbn [snd]. split; eauto.
  intros p pcb' Hne Hp. rewrite get_upserted, decide_False by congruence. done.
Qed.
Lemma step_confined {A B} (m : M KState A) (f : A -> M KState B) s :
  confined s (m s).2 -> (forall a s1, m s = (Ok a, s1) -> confined s1 (f a s1).2) -> confined s ((m ≫= f) s).2.
Proof.
  intros Hm Hf. unfold mbind, M_bind. destruct (m s) as [[a|e] s1]; [|done]. cbn in Hm.
  transitivity s1; [done|]. by apply Hf.
Qed.
Lemma transition_confined target wc : within confined (transition q target wc).
Proof.
  intros s. unfold transition. apply step_confined; [reflexivity|]. intros opcb s1 [= <- <-].
  destruct (get_process q s) as [p|] eqn:E; [|apply step_confined; done].
  apply step_confined; [reflexivity|]. intros p' s1 [= <- <-]. pose proof (get_process_pid _ _ _ E) as Hp.
  unfold apply_process_transition. destruct (validate_process_transition p target wc) as [why|e]; [|reflexivity].
  apply step_confined; [apply emit_confined|]. intros ev s1 _.
  apply step_confined; [by apply upsert_own_confined|]. intros _ s2 _. reflexivity.
Qed.
#[local] Hint Resolve transition_confined : lhos.

(** ** Leases *)

(** The leases with these ids belong to [q]. *)
Definition own_leases (ids : list string) (s : KState) : Prop :=
  forall l, l ∈ leases_projection s -> lease_id l ∈ ids -> owner_pid l = q.

Lemma release_confined ids s : kernel_ok s -> own_leases ids s -> confined s (release ids s).2.
Proof.
  intros Hk Hown. destruct (decide (ids = [])) as [->|Hne]; [reflexivity|].
  destruct (release_run ids s Hk Hne) as (rows & evs & -> & _). cbn [snd]. split; eauto.
  - intros l Hl Hq. cbn. apply list_elem_of_filter. split; [|done]. intros Hin. by apply Hq, Hown.
  - intros l [_ Hl]%list_elem_of_filter. by left.
Qed.
Lemma release_all_confined s : kernel_ok s -> confined s (release_all_for_pid q s).2.
Proof.
  intros Hk. destruct (decide (q = "")) as [->|Hq]; [reflexivity|].
  destruct (release_all_run q s Hk Hq) as (evs & -> & _). cbn [snd]. split; eauto.
  - intros l Hl Hne. cbn. by apply list_elem_of_filter.
  - intros l [_ Hl]%list_elem_of_filter. by left.
Qed.
(** An acquisition adds leases of [q]; what it returns are its own. *)
Lemma acquire_confined claims ttl s :
  kernel_ok s -> confined s (atomic_acquire q claims ttl s).2 /\
  forall ls s', atomic_acquire q claims ttl s = (Ok ls, s') -> own_leases (lease_id <$> ls) s'.
Proof.
  intros Hk. destruct (atomic_acquire_run q claims ttl s Hk) as (out & s' & E & Hk' & Ho). rewrite E. cbn [snd].
  destruct Ho as [Hc|r _|c rest _ _ _|c ev _ _ _ _ _ _|ls F n evs Hc _ _ _ Hg _ _].
  - split; [by apply confined_same|]. intros ls s' [= <- <-] l _ Hin. set_solver.
  - split; [reflexivity|done].
  - split; [reflexivity|done].
  - split; [|done]. apply confined_same. split; [done|]. cbn. lia.
  - assert (forall l, l ∈ ls -> owner_pid l = q) as Hown.
    { intros l [i Hi]%list_elem_of_lookup. eapply Forall2_lookup_r in Hi as (c & _ & Hgc); [|exact Hg]. apply Hgc. }
    split.
    + split; eauto; cbn.
      * intros l Hl _. set_solver.
      * intros l [Hl|Hl]%elem_of_app; [by left|right; auto].
    + intros ls' s' [= <- <-] l Hl (l' & Hid & Hl')%list_elem_of_fmap.
      assert (l = l') as ->; [|auto]. apply (NoDup_key_inj lease_id _ l l' (lok_ids _ (proj2 Hk'))); [done| |done].
      cbn. set_solver.
Qed.

(** ** Actions *)

Definition own_row (aid : string) (s : KState) : Prop := exists a, get_action aid s = Some a /\ acb_pid a = q.
Lemma own_row_confined aid s s' : confined s s' -> own_row aid s -> own_row aid s'.
Proof.
  intros Hc (a & Ha & Hq). destruct (con_rows _ _ Hc aid) as [a' Ha']; [by eexists|]. exists a'. split; [done|].
  destruct (con_new_actions _ _ Hc aid a' Ha') as [Hs|]; [congruence|done].
Qed.

Lemma upsert_own_action a s :
  own_row (action_id a) s -> acb_pid a = q -> confined s (_upsert_projection a s).2.
Proof.
  intros (a0 & Ha0 & Hq0) Hq. change (confined s (upserted_action a s)). split; eauto; intros aid; rewrite get_upserted_action.
  - intros b Hb Hne. rewrite decide_False; [done|]. intros ->. congruence.
  - intros b. case_decide as Hd; [|by left]. subst aid. rewrite Ha0. intros [= <-]. right. exact Hq0.
  - intros Hs. case_decide; [|done]. by eexists.
Qed.
(** An operation on an action of [q]. *)
Lemma own_operation {B} aid s (k : ActionControlBlock -> M KState B) :
  own_row aid s ->
  (forall a, get_action aid s = Some a -> acb_pid a = q -> action_id a = aid -> confined s (k a s).2) ->
  confined s ((load_action aid ≫= k) s).2.
Proof.
  intros (a & Ha & Hq) Hk. rewrite load_bind, Ha. apply Hk; [done..|]. by eapply get_action_id.
Qed.
Lemma own_transition {B} a target (k : ActionControlBlock -> M KState B) s :
  confined s (k (acb_set_state a target) s).2 -> confined s ((applied a target ≫= k) s).2.
Proof. intros Hk. rewrite applied_bind. destruct (validate_action_transition a target); [done|reflexivity]. Qed.
Lemma own_finish a ty pl s :
  own_row (action_id a) s -> acb_pid a = q ->
  confined s ((ev ← emit (acb_pid a) ty pl; _upsert_projection a ;; mret ev) s).2.
Proof.
  intros Hr Hq. pose proof (emit_confined (acb_pid a) ty pl s) as He. apply step_confined; [done|].
  intros ev s1 E. rewrite E in He. apply step_confined; [|reflexivity].
  apply upsert_own_action; [by eapply own_row_confined|done].
Qed.

Ltac own_op := intros Hr; apply own_operation; [done|]; intros a Ha Hq Hid;
  try apply own_transition; rewrite ?gets_bind; apply own_finish; [cbn; rewrite Hid|]; done.
Lemma admit_confined aid s : own_row aid s -> confined s (admit_action aid s).2.
Proof. unfold admit_action. own_op. Qed.
Lemma reject_confined aid why s : own_row aid s -> confined s (reject aid why s).2.
Proof. unfold reject. own_op. Qed.
Lemma intent_confined aid ids toks s : own_row aid s -> confined s (mark_intent_durable aid ids toks s).2.
Proof. unfold mark_intent_durable. own_op. Qed.
Lemma fail_confined aid err s : own_row aid s -> confined s (fail aid err s).2.
Proof. unfold fail. own_op. Qed.
Lemma cancel_confined aid s : own_row aid s -> confined s (cancel aid s).2.
Proof. unfold cancel. own_op. Qed.

(** ** Sequencing, with the invariant of the database carried along *)

Lemma then_confined {A B} (m : M KState A) (f : A -> M KState B) s :
  within db_step m -> db_ok s -> confined s (m s).2 ->
  (forall a s1, m s = (Ok a, s1) -> db_ok s1 -> confined s s1 -> confined s1 (f a s1).2) ->
  confined s ((m ≫= f) s).2.
Proof.
  intros Hd Hs Hm Hf. apply step_confined; [done|]. intros a s1 E. destruct (Hd s Hs) as [Hs1 _].
  rewrite E in Hm, Hs1. by apply Hf.
Qed.
Lemma except_confined {A} (m : M KState A) h s :
  within db_step m -> db_ok s -> confined s (m s).2 ->
  (forall e s1, m s = (Raise e, s1) -> db_ok s1 -> confined s s1 -> confined s1 (h e s1).2) ->
  confined s (try_except m h s).2.
Proof.
  intros Hd Hs Hm Hh. destruct (Hd s Hs) as [Hs1 _]. unfold try_except.
  destruct (m s) as [[a|e] s1] eqn:E; cbn in Hm, Hs1 |- *; [done|]. transitivity s1; [done|]. by apply Hh.
Qed.
Lemma finally_confined {A} (m : M KState A) f s :
  within db_step m -> db_ok s -> confined s (m s).2 ->
  (forall s1, db_ok s1 -> confined s s1 -> (m s).2 = s1 -> confined s1 (f s1).2) -> confined s (try_finally m f s).2.
Proof.
  intros Hd Hs Hm Hf. destruct (Hd s Hs) as [Hs1 _]. unfold try_finally.
  destruct (m s) as [r s1] eqn:E; cbn in Hm, Hs1. specialize (Hf s1 Hs1 Hm eq_refl).
  destruct (f s1) as [[u|e] s2]; cbn in *; by transitivity s1.
Qed.
Lemma suppress_confined {A} (m : M KState A) s : confined s (m s).2 -> confined s (suppress m s).2.
Proof. unfold suppress, try_except, mbind, M_bind. by destruct (m s) as [[a|e] s1]. Qed.
Lemma ignored_state {A} (m : M KState A) s : ((m ;; mret tt) s).2 = (m s).2.
Proof. unfold mbind, M_bind. by destruct (m s) as [[] ?]. Qed.
Lemma ignored_confined {A} (m : M KState A) s : confined s (m s).2 -> confined s ((m ;; mret tt) s).2.
Proof. intros Hm. by apply step_confined. Qed.

(** Leases of [q] stay leases of [q] while the leases are left alone. *)
Lemma own_leases_kept ids s s' : leases_projection s' = leases_projection s -> own_leases ids s -> own_leases ids s'.
Proof. intros E Ho l. rewrite E. apply Ho. Qed.
Lemma action_step_leases {A} (m : M KState A) s : within (framed lease_part) m -> leases_projection (m s).2 = leases_projection s.
Proof. intros Hm. destruct (Hm s) as [E _]. by injection E. Qed.

Ltac lease_free := apply action_step_leases; unfold admit_action, mark_intent_durable, fail, reject, cancel, load_action, applied;
  pose proof upsert_action_frame; framing.
Lemma admit_leases aid s : leases_projection (admit_action aid s).2 = leases_projection s.
Proof. lease_free. Qed.
Lemma intent_leases aid ids toks s : leases_projection (mark_intent_durable aid ids toks s).2 = leases_projection s.
Proof. lease_free. Qed.
Lemma fail_leases aid err s : leases_projection (fail aid err s).2 = leases_projection s.
Proof. lease_free. Qed.
Lemma reject_leases aid why s : leases_projection (reject aid why s).2 = leases_projection s.
Proof. lease_free. Qed.
Lemma cancel_leases aid s : leases_projection (cancel aid s).2 = leases_projection s.
Proof. lease_free. Qed.

(** ** The handlers *)

(** The compensation of a failed admission. *)
Lemma compensate_confined aid exc ids s :
  db_ok s -> own_row aid s -> own_leases ids s ->
  confined s (try_finally
    (try_except
       (current ← gets (get_action aid);
        match current with
        | None => mret tt
        | Some acb =>
            if decide (acb_state acb = ActionState.SUBMITTED) then reject aid (exc_str exc) ;; mret tt
            else if decide (acb_state acb = ActionState.ADMITTED) then
              fail aid (Some [("reason", JStr "admission_failed"); ("detail", JStr (exc_name exc))]) ;; mret tt
            else mret tt
        end)
       (fun _ => mret tt))
    (suppress (release ids) ;; suppress (clear_waiters_for_pid q)) s).2.
Proof.
  intros Hs Hr Hown.
  assert (forall m, (m = mret tt \/ m = (reject aid (exc_str exc) ;; mret tt) \/
     m = (fail aid (Some [("reason", JStr "admission_failed"); ("detail", JStr (exc_name exc))]) ;; mret tt)) ->
     confined s (m s).2 /\ leases_projection (m s).2 = leases_projection s) as Hm.
  { intros m [->|[->| ->]]; [done|split..].
    - by apply ignored_confined, reject_confined.
    - rewrite ignored_state. apply reject_leases.
    - by apply ignored_confined, fail_confined.
    - rewrite ignored_state. apply fail_leases. }
  apply finally_confined; [solve_within|done|..].
  - apply except_confined; [solve_within|done| |reflexivity]. rewrite gets_bind.
    destruct (get_action aid s); [|reflexivity]. repeat case_decide; apply Hm; eauto.
  - intros s1 Hs1 Hc E. apply then_confined; [solve_within|done|..].
    + apply suppress_confined, release_confined; [apply Hs1|]. eapply own_leases_kept; [|done]. rewrite <- E.
      unfold try_except. rewrite gets_bind. destruct (get_action aid s) as [a|]; [|done].
      set (m := if decide _ then _ else _). assert (leases_projection (m s).2 = leases_projection s) as <-.
      { unfold m. repeat case_decide; apply Hm; eauto. }
      by destruct (m s) as [[] ?].
    + intros _ s2 _ Hs2 _. apply suppress_confined, clear_waiters_confined.
Qed.
Lemma admit_with_confined aid ls s :
  db_ok s -> own_row aid s -> own_leases (lease_id <$> ls) s -> confined s (admit_with q aid ls s).2.
Proof.
  intros Hs Hr Hown. unfold admit_with.
  set (toks := Some _). set (body := (admit_action aid ;; _)).
  assert (within db_step body) as Hbd by (unfold body; solve_within).
  assert (confined s (body s).2) as Hbc.
  { unfold body. apply then_confined; [auto with lhos|done|by apply admit_confined|]. intros _ s1 _ _ Hc.
    apply ignored_confined, intent_confined. by eapply own_row_confined. }
  assert (leases_projection (body s).2 = leases_projection s) as Hbl.
  { unfold body. rewrite <- (admit_leases aid s). unfold mbind at 1, M_bind at 1.
    destruct (admit_action aid s) as [[]s1]; [|done]. cbn [snd]. rewrite ignored_state. apply intent_leases. }
  apply except_confined; [done..|]. intros e s1 E Hs1 Hc. rewrite E in Hbl.
  apply step_confined; [|reflexivity]. apply compensate_confined; [done|by eapply own_row_confined|].
  by eapply own_leases_kept.
Qed.

(** A new action: its id is unused and it belongs to [q]. *)
Lemma submit_confined dev op args sec rp idem timeout claims s :
  db_ok s -> let m := submit q dev op args sec rp idem timeout None claims in
  confined s (m s).2 /\ forall a s', m s = (Ok a, s') -> own_row (action_id a) s'.
Proof.
  intros Hs m. pose proof (db_unused _ Hs (uuid_count s) (N.le_refl _)) as Hfree.
  pose proof (submit_run q dev op args sec rp idem timeout None claims s (proj1 (db_kernel _ Hs))) as (s1 & Hs1 & _ & _ & E).
  fold m in E. rewrite E. cbn [snd].
  set (a := submitted_acb q dev op args sec rp idem timeout None claims s) in *.
  set (s2 := logged s1 _) in *.
  assert (forall aid, get_action aid s2 = get_action aid s) as H2 by (by destruct Hs1 as [->| ->]).
  assert (get_action (action_id a) (upserted_action a s2) = Some (acb_row a)) as Hnew.
  { rewrite get_upserted_action, decide_True by done. cbn [a submitted_acb action_id chosen_id]. by rewrite H2, Hfree. }
  split; [|intros a' s' [= <- <-]; by eexists].
  transitivity s2; [apply confined_same; split; [by destruct Hs1 as [->| ->]|destruct Hs1 as [->| ->]; cbn; lia]|].
  assert (get_action (action_id a) s2 = None) as Hnone by (rewrite H2; exact Hfree).
  split; eauto; intros aid; rewrite get_upserted_action.
  - intros b Hb _. rewrite decide_False; [done|]. intros ->. congruence.
  - intros b. case_decide as Hd; [|by left]. subst aid. rewrite Hnone. intros [= <-]. by right.
  - intros Hi. case_decide; [|done]. by eexists.
Qed.
Lemma enforce_all_confined (cs : list claim) : within confined (for_each (fun c => enforce q (claim_resource c) "acquire") cs).
Proof. solve_within. Qed.

Lemma submit_handler_confined strict rid r s : db_ok s -> confined s (_handle_submit_action strict rid q r s).2.
Proof.
  intros Hs. unfold _handle_submit_action. case_match; [apply journaled_confined|].
  apply then_confined; [auto with lhos|done|apply enforce_confined|]. intros _ s1 _ Hs1 _.
  apply then_confined; [solve_within|done|apply enforce_all_confined|]. intros _ s2 _ Hs2 _.
  destruct (submit_confined (sa_device_type r) (sa_operation r) (Some (sa_arguments r)) (effect_class r)
    (effect_policy r) (sa_idempotency_key r) (sa_timeout_seconds r) (Some (sa_resource_claims r)) s2 Hs2) as [Hsub Hrow].
  apply then_confined; [auto with lhos|done|done|]. intros a s3 E Hs3 _. specialize (Hrow a s3 E). clear E Hsub.
  set (get := match sa_resource_claims r with [] => _ | _ => _ end).
  assert (within db_step get) as Hgd by (unfold get; solve_within).
  assert (confined s3 (get s3).2 /\ forall ls s', get s3 = (Ok ls, s') -> own_leases (lease_id <$> ls) s') as [Hgc Hgo].
  { unfold get. destruct (sa_resource_claims r) as [|c cs]; [|apply acquire_confined, Hs3].
    split; [reflexivity|]. intros ls s' [= <- <-] l _. set_solver. }
  apply then_confined; [solve_within|done|..].
  - apply except_confined; [done..|]. intros e s4 _ Hs4 Hc4.
    apply then_confined; [auto with lhos|done|apply reject_confined; by eapply own_row_confined|]. intros _ s5 _ Hs5 _.
    apply step_confined; [apply clear_waiters_confined|reflexivity].
  - intros ls s4 E Hs4 Hc4. unfold try_except in E. destruct (get s3) as [[ls'|e] s4'] eqn:Eg.
    + injection E as <- <-.
      apply then_confined; [unfold admit_with; solve_within|done| |intros; apply new_event_confined].
      apply admit_with_confined; [done|by eapply own_row_confined|by apply Hgo].
    + exfalso. revert E. unfold mbind, M_bind. destruct (reject _ _ _) as [[] ?]; [|done].
      by destruct (clear_waiters_for_pid _ _) as [[] ?].
Qed.

Lemma cancel_handler_confined aid s :
  db_ok s -> (forall a, get_action aid s = Some a -> acb_pid a = q -> own_leases (lease_ids a) s) ->
  confined s (_handle_cancel_action q aid s).2.
Proof.
  intros Hs Hown. unfold _handle_cancel_action, own_action. rewrite gets_bind.
  destruct (get_action aid s) as [a|] eqn:Ha; [|apply new_event_confined].
  destruct (String.eqb_spec (acb_pid a) q) as [Hq|]; [|apply new_event_confined].
  apply then_confined; [auto with lhos|done|apply cancel_confined; by eexists|]. intros ev s1 E Hs1 _.
  apply then_confined; [auto with lhos|done|..].
  { apply release_confined; [apply Hs1|]. eapply own_leases_kept; [|by apply Hown].
    rewrite <- (cancel_leases aid s). by rewrite E. }
  intros n s2 _ Hs2 _. apply step_confined; [rewrite Hq; apply clear_waiters_confined|]. intros; apply new_event_confined.
Qed.
Lemma release_handler_confined ids s : db_ok s -> confined s (_handle_release q ids s).2.
Proof.
  intros Hs. unfold _handle_release. rewrite gets_bind. destruct (existsb _ ids) eqn:E; [apply new_event_confined|].
  apply step_confined; [|intros; apply new_event_confined]. apply release_confined; [apply Hs|].
  intros l Hl Hin. destruct (foreign_lease q s (lease_id l)) eqn:Ef.
  - exfalso. assert (existsb (foreign_lease q s) ids = true); [|congruence].
    apply existsb_exists. exists (lease_id l). by rewrite <- list_elem_of_In.
  - unfold foreign_lease in Ef. rewrite get_lease_elem in Ef by (done || apply Hs).
    by apply negb_false_iff, String.eqb_eq in Ef.
Qed.
Lemma exit_handler_confined code result s : db_ok s -> confined s (_handle_exit q code result s).2.
Proof.
  intros Hs. unfold _handle_exit. apply then_confined; [auto with lhos|done|apply transition_confined|].
  intros _ s1 _ Hs1 _. apply then_confined; [auto with lhos|done|apply release_all_confined, Hs1|].
  intros _ s2 _ Hs2 _. rewrite gets_bind. apply step_confined; [|intros; apply journaled_confined].
  destruct (get_process q s2) as [p|] eqn:E; [|reflexivity]. apply upsert_own_confined. cbn. by eapply get_process_pid.
Qed.
Lemma checkpoint_handler_confined s : confined s (_handle_checkpoint q s).2.
Proof.
  unfold _handle_checkpoint. rewrite gets_bind. destruct (get_process q s) as [p|] eqn:E; [|reflexivity].
  apply step_confined; [reflexivity|]. intros p' s0 [= <- <-]. rewrite gets_bind.
  apply step_confined; [apply fresh_uuid_confined|]. intros cid s1 _. rewrite gets_bind.
  apply step_confined.
  { assert (within confined (insert_checkpoint (mkCheckpoint cid q (next_offset s) (event_cursor p) (pcb_dump p)
      (program_state_ref p) (stored_wait (wait_condition p)) 0 (clock_now s1)))) as Hi; [|apply Hi].
    unfold insert_checkpoint. solve_within. by apply modify_confined. }
  intros _ s2 _. apply step_confined; [apply upsert_own_confined; cbn; by eapply get_process_pid|].
  intros _ s3 _. apply journaled_confined.
Qed.

(** ** Spawn *)

(** A process [c] is the only one written to; its capabilities are [caps]. *)
Record born (c : string) (caps : list Capability) (s s' : KState) : Prop := {
  born_shared : framed shared_part s s';
  born_others p : p <> c -> get_process p s' = get_process p s;
  born_authority p : p <> c -> get_capability_set p s' = get_capability_set p s;
  born_caps cs : get_capability_set c s' = Some cs -> get_capability_set c s = Some cs \/ capabilities cs = caps }.
#[global] Instance born_preorder c caps : PreOrder (born c caps).
Proof.
  split; [intros s; split; eauto; by split|]. intros s1 s2 s3 [A1 A2 A3 A4] [B1 B2 B3 B4].
  split; [by etransitivity|..].
  - intros p Hp. by rewrite B2, A2.
  - intros p Hp. by rewrite B3, A3.
  - intros cs Hc. destruct (B4 cs Hc) as [Hc2|]; [by apply A4|by right].
Qed.
Lemma born_confined c s s' :
  born c (authority q s) s s' -> get_process c s = None -> get_capability_set c s = None -> confined s s'.
Proof.
  intros [[E _] Hp Hau Hca] Hc Hcc. injection E as El Ea.
  assert (forall aid, get_action aid s' = get_action aid s) as Ha by (intros; unfold get_action; by rewrite Ea).
  split; try (intros; rewrite ?Ha, ?El in *; by eauto).
  - intros p pcb _ Hg. rewrite Hp; [done|]. congruence.
  - intros p cs Hg. rewrite Hau; [done|]. congruence.
  - intros p cs Hg. destruct (decide (p = c)) as [->|Hne]; [by auto|]. rewrite <- Hau by done. by left.
Qed.
Lemma born_framed c caps {A} (m : M KState A) : within (framed visible_part) m -> within (born c caps) m.
Proof.
  intros Hm s. destruct (Hm s) as [E Hu]. injection E as El Ea Ep Ec. split.
  - split; [unfold shared_part; congruence|done].
  - intros p _. unfold get_process. by rewrite Ep.
  - intros p _. unfold get_capability_set. by rewrite Ec.
  - intros cs. unfold get_capability_set. rewrite Ec. by left.
Qed.
Lemma upsert_born pcb caps : within (born (pcb_pid pcb) caps) (ProcessService._upsert_projection pcb).
Proof.
  intros s. rewrite upsert_run. cbn [snd]. split; [by split| |done|by left].
  intros p Hp. by rewrite get_upserted, decide_False.
Qed.
Lemma modify_born c caps f : (forall s, framed visible_part s (f s)) -> within (born c caps) (modify f).
Proof. intros Hf. apply born_framed. intros s. apply Hf. Qed.
Lemma emit_born c caps pid ty pl : within (born c caps) (emit pid ty pl).
Proof. apply born_framed. eauto with lhos. Qed.
Lemma fresh_uuid_born c caps : within (born c caps) fresh_uuid.
Proof. apply born_framed. eauto with lhos. Qed.
Lemma journaled_born c caps pid ty pl : within (born c caps) (journaled pid ty pl).
Proof. apply born_framed. unfold journaled. solve_within. Qed.
#[local] Hint Resolve emit_born fresh_uuid_born journaled_born : lhos.
Lemma transition_born c caps target wc : within (born c caps) (transition c target wc).
Proof.
  intros s. unfold transition. rewrite gets_bind. destruct (get_process c s) as [p|] eqn:E; [|reflexivity].
  pose proof (get_process_pid _ _ _ E) as Hp. unfold apply_process_transition.
  set (m := (pcb ← _; _)). assert (within (born c caps) m) as Hm; [|apply Hm].
  unfold m. cbn [some_or_raise]. intros s1. rewrite (bind_Ok (mret p) _ s1 p s1 eq_refl).
  destruct (validate_process_transition p target wc) as [why|e]; [|reflexivity].
  set (p' := pcb_set_state _ _ _). assert (pcb_pid p' = c) as <- by exact Hp.
  pose proof (upsert_born p' caps).
  apply (within_bind (born (pcb_pid p') caps)); [auto with lhos|]. intros. solve_within.
Qed.
#[local] Hint Resolve transition_born : lhos.
Lemma save_state_born c caps pid st : within (born c caps) (_save_program_state pid st).
Proof. unfold _save_program_state. solve_within. by apply modify_born. Qed.
#[local] Hint Resolve save_state_born : lhos.
Lemma capset_born c caps : within (born c caps) (create_capability_set c (Some caps)).
Proof.
  unfold create_capability_set, _upsert_capability_set, insert_capset. solve_within. intros s.
  split; [by split|done|..].
  - intros p Hp. unfold modify; cbn [snd]. rewrite get_capset_upsert. by rewrite decide_False.
  - intros cs. unfold modify; cbn [snd]. rewrite get_capset_upsert, decide_True by done. right.
    by destruct (get_capability_set c s); simplify_eq.
Qed.
Lemma spawn_born prog ns cap parent rg prio st caps s :
  let c := uuid4 (uuid_count s) in
  born c caps s (ProcessService.spawn prog ns cap parent rg prio st s).2 /\
  forall pcb s', ProcessService.spawn prog ns cap parent rg prio st s = (Ok pcb, s') -> pcb_pid pcb = c.
Proof.
  intros c. unfold ProcessService.spawn. set (k := fun pid => _). set (s0 := (fresh_uuid s).2).
  assert (born c caps s s0) as H0' by apply fresh_uuid_born.
  change ((fresh_uuid ≫= k) s) with (k c s0). clearbody s0.
  assert (within (born c caps) (k c)) as Hk.
  { unfold k. solve_within. apply (upsert_born (mkPCB c _ _ _ _ _ _ _ _ _ _ _ _ _ _ _ _)). }
  split; [transitivity s0; [done|apply Hk]|]. intros pcb s'. unfold k.
  intros (cid & s1 & _ & E)%bind_Ok_inv. revert E.
  intros (now & s2 & _ & E)%bind_Ok_inv. revert E. intros (? & s3 & _ & E)%bind_Ok_inv. revert E.
  intros (? & s4 & _ & E)%bind_Ok_inv. revert E. intros (? & s5 & _ & E)%bind_Ok_inv. revert E.
  intros (? & s6 & _ & E)%bind_Ok_inv. revert E. rewrite gets_bind. intros [= <- _].
  destruct (get_process c s6) as [p|] eqn:Ep; cbn; [by eapply get_process_pid|done].
Qed.

Lemma spawn_handler_confined r s :
  q <> "" -> get_process (uuid4 (uuid_count s)) s = None -> get_capability_set (uuid4 (uuid_count s)) s = None ->
  confined s (_handle_spawn q r s).2.
Proof.
  intros Hq Hp Hc. unfold _handle_spawn. rewrite gets_bind.
  destruct (spawn_context q r s) as [[[[parent caps] ns] grp]|] eqn:E; [|apply journaled_confined].
  assert (caps = Some (authority q s)) as ->.
  { unfold spawn_context in E. rewrite (proj2 (String.eqb_neq q "")) in E by done. cbn in E.
    destruct (get_process q s); [|done]. by case_bool_decide; simplify_eq. }
  set (c := uuid4 (uuid_count s)) in *. apply (born_confined c); [|done..].
  destruct (spawn_born (sp_program_id r) ns None parent grp 10 (Some (sp_initial_state r)) (authority q s) s) as [Hb Hpid].
  fold c in Hb, Hpid. unfold mbind at 1, M_bind at 1. destruct (ProcessService.spawn _ _ _ _ _ _ _ s) as [[pcb|e] s1] eqn:Es; [|done].
  specialize (Hpid pcb s1 eq_refl). transitivity s1; [done|]. cbn [default]. rewrite Hpid.
  set (m := (cap_set ← _; _)). assert (within (born c (authority q s)) m) as Hm; [|apply Hm].
  pose proof (capset_born c (authority q s)). unfold m. solve_within. cbn [pcb_pid pcb_set_capset].
  match goal with |- within _ (ProcessService._upsert_projection ?p) => rewrite <- Hpid; apply (upsert_born p) end.
Qed.
End Isolation.

(** ** The leases an action records belong to its process *)

Section Owned.
Context `{UuidSource, ExcText, DefaultCapabilities}.

(** An action names leases of its own process only, and none that is still to be made. *)
Record owned (s : KState) : Prop := {
  ow_leases l aid a : l ∈ leases_projection s -> get_action aid s = Some a -> lease_id l ∈ lease_ids a -> owner_pid l = acb_pid a;
  ow_ids aid a n : get_action aid s = Some a -> (uuid_count s <= n)%N -> uuid4 n ∉ lease_ids a }.
Definition own_step (s s' : KState) : Prop := db_ok s -> owned s -> db_ok s' /\ owned s'.
#[global] Instance own_step_preorder : PreOrder own_step.
Proof. split; [by intros s Hs|]. intros s1 s2 s3 H12 H23 Hd Ho. destruct (H12 Hd Ho). by apply H23. Qed.

(** New leases have new ids, and no action records other leases than before. *)
Record tame (s s' : KState) : Prop := {
  ta_count : (uuid_count s <= uuid_count s')%N;
  ta_leases l' : l' ∈ leases_projection s' ->
    (exists l, l ∈ leases_projection s /\ lease_id l = lease_id l' /\ owner_pid l = owner_pid l') \/
    (exists n, (uuid_count s <= n)%N /\ lease_id l' = uuid4 n);
  ta_actions aid a' : get_action aid s' = Some a' -> lease_ids a' = [] \/
    exists a, get_action aid s = Some a /\ lease_ids a' = lease_ids a /\ acb_pid a' = acb_pid a }.
#[global] Instance tame_preorder : PreOrder tame.
Proof.
  split; [intros s; split; eauto; lia|]. intros s1 s2 s3 [C1 L1 A1] [C2 L2 A2]. split; [lia|..].
  - intros l3 Hl3. destruct (L2 l3 Hl3) as [(l2 & Hl2 & E1 & E2)|(n & Hn & E)]; [|right; exists n; split; [lia|done]].
    destruct (L1 l2 Hl2) as [(l1 & Hl1 & E3 & E4)|(n & Hn & E)]; [left; exists l1|right; exists n]; split_and!; congruence || done.
  - intros aid a3 Ha3. destruct (A2 aid a3 Ha3) as [|(a2 & Ha2 & E1 & E2)]; [by left|].
    destruct (A1 aid a2 Ha2) as [|(a1 & Ha1 & E3 & E4)]; [left; congruence|]. right. exists a1. split_and!; congruence.
Qed.
Lemma tame_owned s s' : tame s s' -> owned s -> owned s'.
Proof.
  intros [C L A] [O1 O2]. split.
  - intros l' aid a' Hl Ha Hin. destruct (A aid a' Ha) as [E|(a & Ha0 & E & Ep)]; [rewrite E in Hin; by apply not_elem_of_nil in Hin|].
    rewrite E in Hin. rewrite Ep. destruct (L l' Hl) as [(l & Hl0 & Ei & <-)|(n & Hn & Ei)].
    + apply (O1 l aid); [done|done|]. by rewrite Ei.
    + destruct (O2 aid a n Ha0 Hn). by rewrite <-Ei.
  - intros aid a' n Ha Hn. destruct (A aid a' Ha) as [->|(a & Ha0 & -> & _)]; [apply not_elem_of_nil|]. apply (O2 aid); [done|lia].
Qed.
Lemma own_tame {A} (m : M KState A) : within db_step m -> within tame m -> within own_step m.
Proof. intros Hd Ht s Hs Ho. split; [by apply Hd|]. eapply tame_owned; [apply Ht|done]. Qed.

(** *** Services that write neither leases nor actions *)

Lemma tame_same s s' : framed shared_part s s' -> tame s s'.
Proof.
  intros [E Hu]. injection E as El Ea. split; [done|rewrite El; eauto|].
  intros aid a Ha. right. exists a. unfold get_action in *. rewrite Ea in Ha. done.
Qed.
Lemma own_framed {A} (m : M KState A) : within db_step m -> within (framed shared_part) m -> within own_step m.
Proof. intros Hd Hf. apply own_tame; [done|]. intros s. apply tame_same, Hf. Qed.
Ltac aside := apply own_framed; [by eauto with lhos|].

Lemma fresh_uuid_own : within own_step fresh_uuid.
Proof. aside. framing. Qed.
Lemma emit_own pid ty pl : within own_step (emit pid ty pl).
Proof. aside. framing. Qed.
Lemma new_event_own pid ty pl : within own_step (new_event pid ty pl).
Proof. aside. framing. Qed.
Lemma journaled_own pid ty pl : within own_step (journaled pid ty pl).
Proof. aside. unfold journaled. framing. Qed.
Lemma upsert_process_own pcb : within own_step (ProcessService._upsert_projection pcb).
Proof. aside. unfold ProcessService._upsert_projection. framing. Qed.
Lemma save_state_own pid st : within own_step (_save_program_state pid st).
Proof. aside. unfold _save_program_state. framing. Qed.
Lemma transition_own pid target wc : within own_step (transition pid target wc).
Proof. aside. unfold transition, ProcessService._upsert_projection. framing. Qed.
Lemma spawn_own prog ns cap parent rg prio st : within own_step (ProcessService.spawn prog ns cap parent rg prio st).
Proof. aside. unfold ProcessService.spawn, transition, _save_program_state, ProcessService._upsert_projection. framing. Qed.
Lemma send_own target ty src pl : within own_step (send target ty src pl).
Proof. aside. unfold send, _upsert_signal. framing. Qed.
Lemma deliver_own : within own_step deliver_pending.
Proof.
  aside. unfold deliver_pending, deliver_rows, deliver_row, _mark_consumed, consume_row, transition, ProcessService._upsert_projection. framing.
Qed.
Lemma capset_own pid caps : within own_step (create_capability_set pid caps).
Proof. aside. unfold create_capability_set, _upsert_capability_set, insert_capset. framing. Qed.
Lemma enforce_own pid res op : within own_step (enforce pid res op).
Proof. aside. unfold enforce. framing. Qed.
Lemma clear_waiters_own pid : within own_step (clear_waiters_for_pid pid).
Proof. aside. unfold clear_waiters_for_pid, delete_waiters. framing. Qed.
Lemma modify_own f : (forall s, framed (fun s => (journal_events s, meta_next_offset s, actions_projection s, lease_part s)) s (f s)) ->
  within own_step (modify f).
Proof.
  intros Hf. apply own_framed; [by apply db_step_modify|]. intros s. destruct (Hf s) as [E Hu]. injection E as _ _ Ea El _.
  split; [|done]. unfold shared_part, modify. cbn. congruence.
Qed.
#[local] Hint Resolve fresh_uuid_own emit_own new_event_own journaled_own upsert_process_own save_state_own transition_own spawn_own
  send_own deliver_own capset_own enforce_own clear_waiters_own : lhos.

(** *** Leases *)

Lemma tame_fewer s s' : framed actions_projection s s' ->
  (forall l', l' ∈ leases_projection s' -> exists l, l ∈ leases_projection s /\ lease_id l = lease_id l' /\ owner_pid l = owner_pid l') ->
  tame s s'.
Proof.
  intros [Ea Hu] Hl. split; [done|by auto|]. intros aid a Ha. right. exists a. unfold get_action in *. by rewrite Ea in Ha.
Qed.
Lemma tame_JFrame : JFrame tame.
Proof. split; [apply _|intros; apply tame_same; split; cbn; done || lia..]. Qed.
#[local] Existing Instance tame_JFrame.
#[local] Hint Resolve tame_JFrame : lhos.
Lemma delete_tame (P : ResourceLease -> Prop) `{!forall l, Decision (P l)} : within tame (delete_leases P).
Proof.
  unfold delete_leases. solve_within. apply within_modify. intros s. apply tame_fewer; [by split|].
  intros l [_ Hl]%list_elem_of_filter. by exists l.
Qed.
Lemma waiters_tame f : within tame (modify (set_waiters f)).
Proof. apply within_modify. intros s. by apply tame_same. Qed.
#[local] Hint Resolve delete_tame waiters_tame : lhos.
Lemma release_own ids : within own_step (release ids).
Proof. apply own_tame; [eauto with lhos|]. destruct ids; cbn [release]; unfold release_one; solve_within. Qed.
Lemma release_all_own pid : within own_step (release_all_for_pid pid).
Proof. apply own_tame; [eauto with lhos|]. unfold release_all_for_pid, delete_row, delete_waiters. solve_within. Qed.
Lemma reclaim_own t : within own_step (reclaim_expired t).
Proof. apply own_tame; [eauto with lhos|]. unfold reclaim_expired, delete_row. solve_within. Qed.
#[local] Hint Resolve release_own release_all_own reclaim_own : lhos.
(** A claim gets a lease under the next identifier. *)
Lemma acquire_claim_tame pid rows now exp c : within tame (acquire_claim pid rows now exp c).
Proof.
  unfold acquire_claim. apply (within_bind tame).
  { unfold next_token. solve_within; apply within_modify; intros s; by apply tame_same. }
  intros tok s. set (k := fun lid => _). change (tame s (k (uuid4 (uuid_count s)) (set_uuid N.succ s)).2). unfold k. clear k.
  rewrite gets_bind. destruct (bool_decide _); [apply tame_same; split; [done|apply N.le_succ_diag_r]|]. split; [apply N.le_succ_diag_r| |]; cbn.
  - intros l [Hl|Hl]%elem_of_app; [left; by exists l|]. apply list_elem_of_singleton in Hl as ->. right. by exists (uuid_count s).
  - intros aid a Ha. right. by exists a.
Qed.
#[local] Hint Resolve acquire_claim_tame : lhos.
Lemma acquire_own pid claims ttl : within own_step (atomic_acquire pid claims ttl).
Proof.
  apply own_tame; [eauto with lhos|]. unfold atomic_acquire, acquire_tx, clear_waiters_for_pid, delete_waiters, _add_waiter. solve_within.
Qed.
Lemma renew_own lid ttl : within own_step (renew lid ttl).
Proof.
  apply own_tame; [apply db_step_lease; [intros; constructor|unfold renew; framing]|]. unfold renew. solve_within.
  apply within_modify. intros s. apply tame_fewer; [by split|]. cbn. intros l' (l & -> & Hl)%list_elem_of_fmap.
  exists l. split; [done|]. by case_decide.
Qed.
#[local] Hint Resolve acquire_own renew_own : lhos.
Lemma grant_own pid cap : within own_step (grant pid cap).
Proof.
  aside || (apply own_framed; [unfold grant, insert_capset; solve_within; apply db_step_modify; intros; by split|]).
  unfold grant, insert_capset. framing.
Qed.

(** *** Actions *)

Lemma upsert_tame a a' s : get_action (action_id a') s = Some a -> lease_ids a' = lease_ids a -> tame s (upserted_action a' s).
Proof.
  intros Ha Hl. split; [cbn; lia|eauto|]. intros aid b. rewrite get_upserted_action. case_decide as Hd; [|eauto].
  rewrite Hd, Ha. intros [= <-]. right. by exists a.
Qed.
Lemma load_tame {B} aid (k : ActionControlBlock -> M KState B) :
  (forall a s, get_action (action_id a) s = Some a -> tame s (k a s).2) -> within tame (load_action aid ≫= k).
Proof.
  intros Hk s. rewrite load_bind. destruct (get_action aid s) as [a|] eqn:Ha; [|reflexivity]. apply Hk. by rewrite (get_action_id _ _ _ Ha).
Qed.
Lemma applied_tame {B} a target (k : ActionControlBlock -> M KState B) s :
  tame s (k (acb_set_state a target) s).2 -> tame s ((applied a target ≫= k) s).2.
Proof. intros Hk. rewrite applied_bind. by destruct (validate_action_transition a target). Qed.
Lemma finish_tame a a' ty pl s : get_action (action_id a') s = Some a -> lease_ids a' = lease_ids a ->
  tame s ((ev ← emit (acb_pid a') ty pl; _upsert_projection a' ;; mret ev) s).2.
Proof.
  intros Ha Hl. assert (framed shared_part s (emit (acb_pid a') ty pl s).2) as Hf.
  { assert (within (framed shared_part) (emit (acb_pid a') ty pl)) as Hw by eauto with lhos. apply Hw. }
  unfold mbind, M_bind. destruct (emit (acb_pid a') ty pl s) as [[ev|e] s1]; [|by apply tame_same]. cbn in Hf.
  transitivity s1; [by apply tame_same|]. apply (upsert_tame a); [|done]. destruct Hf as [E _]. injection E as _ Ea.
  unfold get_action in *. by rewrite Ea.
Qed.
Ltac keeps_leases := apply own_tame; [by eauto with lhos|]; apply load_tame; intros a s Ha; apply applied_tame; rewrite ?gets_bind; by apply (finish_tame a).
Lemma admit_own aid : within own_step (admit_action aid).
Proof. keeps_leases. Qed.
Lemma reject_own aid why : within own_step (reject aid why).
Proof. keeps_leases. Qed.
Lemma dispatch_own aid : within own_step (ActionService.dispatch aid).
Proof. keeps_leases. Qed.
Lemma fail_own aid err : within own_step (fail aid err).
Proof. keeps_leases. Qed.
Lemma cancel_own aid : within own_step (cancel aid).
Proof. keeps_leases. Qed.
Lemma timed_out_own aid : within own_step (mark_timed_out aid).
Proof.
  apply own_tame; [|apply load_tame; intros a s Ha; apply applied_tame; rewrite ?gets_bind; by apply (finish_tame a)].
  apply db_step_update; [intros; by apply timed_out_update|].
  unfold mark_timed_out, load_action, applied, _upsert_projection, _upsert_projection_tx. framing.
Qed.
(** An operation whose outcome is known for a sound log. *)
Lemma own_run {A} (m : M KState A) : within db_step m -> (forall s, db_ok s -> tame s (m s).2) -> within own_step m.
Proof. intros Hd Ht s Hs Ho. split; [by apply Hd|]. by eapply tame_owned; [apply Ht|]. Qed.
Lemma changed_tame a a' s ty pl t pid : get_action (action_id a') s = Some a -> lease_ids a' = lease_ids a ->
  tame s (upserted_action a' (logged s (emitted_at s pid ty pl t))).
Proof.
  intros Ha Hl. etransitivity; [|by apply (upsert_tame a)]. apply tame_same. split; [done|]. cbn. lia.
Qed.
Lemma commit_own aid res now : within own_step (commit_if_fenced aid res now).
Proof.
  apply own_run; [eauto with lhos|]. intros s Hs. pose proof (commit_if_fenced_run aid res now s (proj1 (db_kernel _ Hs))) as E. cbn zeta in E.
  destruct (get_action aid s) as [a|] eqn:Ha; [|by rewrite E]. destruct (_ && _); [|by destruct E as [e ->]]. destruct E as (pl & -> & _).
  apply (changed_tame a); [|done]. cbn. by rewrite (get_action_id _ _ _ Ha).
Qed.
Lemma reserve_own aid now : within own_step (reserve_retry_if_fenced aid now).
Proof.
  apply own_run; [eauto with lhos|]. intros s Hs. pose proof (reserve_retry_run aid now s (proj1 (db_kernel _ Hs))) as E. cbn zeta in E.
  destruct (get_action aid s) as [a|] eqn:Ha; [|by rewrite E]. destruct (_ && _); [|by destruct E as [e ->]]. destruct E as (pl & -> & _).
  apply (changed_tame a); [|done]. cbn. by rewrite (get_action_id _ _ _ Ha).
Qed.
Lemma validate_own aid now : within own_step (validate_reserved_retry_if_fenced aid now).
Proof. intros s. rewrite validate_reserved_pure. reflexivity. Qed.
Lemma ends_own (op : M KState bool) aid st : within db_step op -> ends_if_running op aid st -> within own_step op.
Proof.
  intros Hd He. apply own_run; [done|]. intros s Hs. pose proof (He s (proj1 (db_kernel _ Hs))) as E.
  destruct (get_action aid s) as [a|] eqn:Ha; [|by rewrite E]. case_decide; [|by rewrite E]. destruct E as (err & ty & pl & ->).
  apply (changed_tame a); [|done]. cbn. by rewrite (get_action_id _ _ _ Ha).
Qed.
Lemma fail_running_own aid err : within own_step (fail_if_running aid err).
Proof. eapply ends_own; [eauto with lhos|apply fail_if_running_ends]. Qed.
Lemma uncertain_running_own aid d : within own_step (mark_uncertain_if_running aid d).
Proof. eapply ends_own; [eauto with lhos|apply uncertain_if_running_ends]. Qed.
Lemma submit_own pid dev op args sec rp idem timeout claims : within own_step (submit pid dev op args sec rp idem timeout None claims).
Proof.
  apply own_run; [eauto with lhos|]. intros s Hs.
  destruct (submit_run pid dev op args sec rp idem timeout None claims s (proj1 (db_kernel _ Hs))) as (s1 & Hs1 & _ & _ & ->). cbn [snd].
  set (a := submitted_acb _ _ _ _ _ _ _ _ _ _ _). transitivity (logged s1 (emitted s1 pid "ACTION_SUBMITTED" (acb_dump a))).
  { apply tame_same. split; [by destruct Hs1 as [->| ->]|]. destruct Hs1 as [->| ->]; cbn; lia. }
  split; [cbn; lia|eauto|]. intros aid b. rewrite get_upserted_action. case_decide; [|eauto]. left.
  by destruct (get_action aid _); simplify_eq/=.
Qed.
#[local] Hint Resolve admit_own reject_own dispatch_own fail_own cancel_own timed_out_own commit_own reserve_own validate_own
  fail_running_own uncertain_running_own submit_own grant_own : lhos.

(** Admission records leases that the acquisition gave the same process. *)
Lemma recorded_owned q a a' s s1 : framed shared_part s s1 -> get_action (action_id a') s = Some a -> acb_pid a = q ->
  own_leases q (lease_ids a') s -> (forall n, (uuid_count s <= n)%N -> uuid4 n ∉ lease_ids a') ->
  owned s -> owned (upserted_action a' s1).
Proof.
  intros [E Hu] Ha Hq Hown Hids [O1 O2]. injection E as El Ea.
  assert (forall aid, get_action aid s1 = get_action aid s) as Hg by (intros; unfold get_action; by rewrite Ea).
  split.
  - intros l aid b Hl. rewrite get_upserted_action, Hg. change (l ∈ leases_projection s1) in Hl. rewrite El in Hl. case_decide as Hd.
    + rewrite Hd, Ha. intros [= <-] Hin. cbn. rewrite Hq. by apply Hown.
    + by apply O1.
  - intros aid b n. rewrite get_upserted_action, Hg. cbn. case_decide as Hd.
    + rewrite Hd, Ha. intros [= <-] Hn. apply Hids. lia.
    + intros Hb Hn. apply (O2 aid b); [done|]. lia.
Qed.
Lemma intent_own q aid ids toks s : own_row q aid s -> own_leases q ids s -> (forall n, (uuid_count s <= n)%N -> uuid4 n ∉ ids) ->
  own_step s (mark_intent_durable aid ids toks s).2.
Proof.
  intros (a & Ha & Hq) Hown Hids Hs Ho. split; [by apply intent_db|]. unfold mark_intent_durable. rewrite load_bind, Ha. cbv zeta.
  set (a' := set_intent a ids _). set (pl := [_; _; _]).
  assert (within (framed shared_part) (emit (acb_pid a') "ACTION_INTENT_DURABLE" pl)) as Hf by eauto with lhos.
  specialize (Hf s). unfold mbind, M_bind. destruct (emit _ _ _ s) as [[ev|e] s1]; cbn in Hf.
  - apply (recorded_owned q a a' s s1); [done| |done|done|done|done]. cbn. by rewrite (get_action_id _ _ _ Ha).
  - by eapply tame_owned; [apply tame_same|].
Qed.
Lemma then_own {A B} (m : M KState A) (f : A -> M KState B) s : own_step s (m s).2 ->
  (forall a s1, m s = (Ok a, s1) -> db_ok s -> db_ok s1 -> own_step s1 (f a s1).2) -> own_step s ((m ≫= f) s).2.
Proof.
  intros Hm Hf Hs Ho. destruct (Hm Hs Ho) as [Hs1 Ho1]. unfold mbind, M_bind. destruct (m s) as [[a|e] s1]; [|done]. by apply (Hf a s1).
Qed.
Lemma acquired_ids q claims ttl s ls s' : kernel_ok s -> atomic_acquire q claims ttl s = (Ok ls, s') ->
  forall n, (uuid_count s' <= n)%N -> uuid4 n ∉ (lease_id <$> ls).
Proof.
  intros Hk E n Hn (l & Hid & Hl)%list_elem_of_fmap. destruct (atomic_acquire_run q claims ttl s Hk) as (out & s1 & E1 & Hk' & Ho).
  rewrite E in E1. injection E1 as <- <-. apply (lok_fresh _ (proj2 Hk') n l Hn); [|done].
  inversion Ho; subst; [by apply not_elem_of_nil in Hl|]. cbn. set_solver.
Qed.
Lemma admit_with_own q aid ls s : own_row q aid s -> own_leases q (lease_id <$> ls) s ->
  (forall n, (uuid_count s <= n)%N -> uuid4 n ∉ (lease_id <$> ls)) -> own_step s (admit_with q aid ls s).2.
Proof.
  intros Hr Hown Hids. unfold admit_with. set (toks := Some _).
  set (body := (admit_action aid ;; _)).
  assert (own_step s (body s).2) as Hb.
  { unfold body. apply then_own; [apply admit_own|]. intros ev s1 E Hs Hs1.
    pose proof (admit_confined q aid s Hr) as Hc. pose proof (admit_leases aid s) as El. rewrite E in Hc, El. cbn in Hc, El.
    apply then_own; [|reflexivity]. apply (intent_own q); [by eapply own_row_confined|by eapply own_leases_kept|].
    intros n Hn. apply Hids. etransitivity; [|exact Hn].
    assert (within (framed lease_part) (admit_action aid)) as Hf.
    { unfold admit_action, load_action, applied. pose proof upsert_action_frame. framing. }
    specialize (Hf s). rewrite E in Hf. apply Hf. }
  set (h := fun exc => _). assert (forall e, within own_step (h e)) as Hh by (intros e; unfold h; solve_within).
  unfold try_except. destruct (body s) as [[u|e] s1]; [done|]. transitivity s1; [done|apply Hh].
Qed.
Lemma submit_handler_own strict rid q r : within own_step (_handle_submit_action strict rid q r).
Proof.
  unfold _handle_submit_action. case_match; [eauto with lhos|].
  apply (within_bind own_step); [eauto with lhos|]. intros _. apply (within_bind own_step); [solve_within|]. intros _ s.
  apply then_own; [apply submit_own|]. intros a s1 E Hs Hs1.
  destruct (submit_confined q (sa_device_type r) (sa_operation r) (Some (sa_arguments r)) (effect_class r)
    (effect_policy r) (sa_idempotency_key r) (sa_timeout_seconds r) (Some (sa_resource_claims r)) s Hs) as [_ Hrow].
  specialize (Hrow a s1 E). clear E.
  set (get := match sa_resource_claims r with [] => _ | _ => _ end).
  assert (within own_step get) as Hgd by (unfold get; solve_within).
  assert (confined q s1 (get s1).2 /\ forall ls s', get s1 = (Ok ls, s') -> own_leases q (lease_id <$> ls) s' /\
    forall n, (uuid_count s' <= n)%N -> uuid4 n ∉ (lease_id <$> ls)) as [Hgc Hgo].
  { unfold get. destruct (sa_resource_claims r) as [|c cs].
    - split; [reflexivity|]. intros ls s' [= <- <-]. split; [intros l _|intros n _]; set_solver.
    - destruct (acquire_confined q (c :: cs) DEFAULT_LEASE_TTL s1 (db_kernel _ Hs1)) as [Hc Ho]. split; [exact Hc|]. intros ls s' Eg. split; [by apply (Ho ls s')|].
      by eapply acquired_ids; [apply Hs1|]. }
  apply then_own; [set (h := fun exc => _); assert (within own_step (try_except get h)) as Hw; [unfold h; solve_within|apply Hw]|].
  intros ls s2 E _ Hs2. unfold try_except in E. destruct (get s1) as [[ls'|e] s2'] eqn:Eg.
  - injection E as <- <-. destruct (Hgo ls' s2' eq_refl) as [Hown Hids].
    apply then_own; [|intros; apply new_event_own]. apply admit_with_own; [by eapply own_row_confined|done|done].
  - exfalso. revert E. unfold mbind, M_bind. destruct (reject _ _ _) as [[] ?]; [|done].
    by destruct (clear_waiters_for_pid _ _) as [[] ?].
Qed.
#[local] Hint Resolve submit_handler_own : lhos.
Lemma syscall_own strict r : within own_step (Dispatcher.dispatch strict r).
Proof.
  unfold Dispatcher.dispatch, _handle_spawn, _handle_inspect_action,
    _handle_cancel_action, _handle_acquire, _handle_release, _handle_wait, _handle_signal,
    _handle_checkpoint, insert_checkpoint, _handle_restore, _handle_exit. solve_within; apply modify_own; intros; by split.
Qed.
#[local] Hint Resolve syscall_own : lhos.
Lemma service_own s s' : service_step s s' -> own_step s s'.
Proof.
  destruct 1; try match goal with
    | |- own_step ?s (?m ?s).2 => let Hm := fresh in assert (within own_step m) as Hm by eauto with lhos; apply Hm
    end.
  apply (modify_own (set_clock (fun _ => t)) ltac:(intros; split; [done|cbn; lia]) s).
Qed.

(** *** The kernel loop *)

Context {X Program Driver : Type} `{!Machine X Program Driver, !Interferes X Program Driver} (strict : bool).
Abbreviation Kernel := (AgentKernel X Program Driver).
Definition kernel_owned (k : Kernel) : Prop := db_ok (kdb k) /\ owned (kdb k).
Abbreviation owning := (within (preserves (S:=Kernel) kernel_owned)).

Lemma on_db_owning {A} (m : M KState A) : within own_step m -> owning (on_db m).
Proof. intros Hm k [Hd Ho]. unfold on_db. specialize (Hm (kdb k) Hd Ho). by destruct (m (kdb k)) as [r s]. Qed.
Lemma read_owning {A} (f : KState -> A) : owning (read f).
Proof. by intros k Hk. Qed.
Lemma host_owning f : (forall k, kdb (f k) = kdb k) -> owning (modify f).
Proof. intros Hf k Hk. unfold kernel_owned. cbn. by rewrite Hf. Qed.
Lemma env_owning k k' : rtc env_step k k' -> kernel_owned k -> kernel_owned k'.
Proof.
  induction 1 as [|k k1 k' Hs _ IH]; [done|]. intros [Hd Ho]. apply IH. destruct Hs as [k s Hs|k aid ev s E|k aid now s E|k x ps ds n].
  - by apply (service_own _ _ Hs Hd Ho).
  - pose proof (dispatch_own aid (kdb k) Hd Ho) as Hx. by rewrite E in Hx.
  - pose proof (reserve_own aid now (kdb k) Hd Ho) as Hx. by rewrite E in Hx.
  - done.
Qed.
Lemma call_owning d acb : owning (call_dispatch d acb).
Proof. unfold call_dispatch. within_step; [by apply host_owning|]. intros k Hk. by eapply env_owning; [apply dispatch_env|]. Qed.
Lemma inspect_owning d aid : owning (driver_inspect d aid).
Proof. intros k Hk. by eapply env_owning; [apply inspect_env|]. Qed.
Lemma program_owning p st ev : owning (program_step p st ev).
Proof. intros k Hk. by eapply env_owning; [apply program_env|]. Qed.
#[local] Hint Resolve on_db_owning read_owning call_owning inspect_owning program_owning : lhos.

Lemma notify_own acb ty pl : within own_step (notify acb ty pl).
Proof. unfold notify. solve_within. Qed.
#[local] Hint Resolve notify_own : lhos.
Lemma fail_release_own acb ids e told : within own_step (fail_and_release acb ids e told).
Proof. unfold fail_and_release. solve_within. Qed.
Lemma uncertain_release_own acb ids d : within own_step (uncertain_and_release acb ids d).
Proof. unfold uncertain_and_release. solve_within. Qed.
#[local] Hint Resolve fail_release_own uncertain_release_own : lhos.
Lemma mark_uncertain_own acb d : within own_step (_mark_uncertain_and_release acb d).
Proof. unfold _mark_uncertain_and_release. solve_within. Qed.
Lemma commit_release_own acb ids out stale told : within own_step (commit_and_release acb ids out stale told).
Proof. unfold commit_and_release. solve_within. Qed.
Lemma refuse_own acb e : within own_step (refuse acb e).
Proof. unfold refuse. solve_within. Qed.
Lemma deadlock_own cycle : within own_step (_recover_deadlock cycle).
Proof. unfold _recover_deadlock. solve_within. Qed.
Lemma begin_own pid : within own_step (begin_step pid).
Proof. unfold begin_step. solve_within. Qed.
Lemma fail_process_own pid ty pl : within own_step (fail_process pid ty pl).
Proof. unfold fail_process. solve_within. Qed.
Lemma finish_own pcb r : within own_step (finish_step strict pcb r).
Proof. unfold finish_step, run_request, run_submission, fail_process, back_to_ready. solve_within. Qed.
#[local] Hint Resolve mark_uncertain_own commit_release_own refuse_own deadlock_own begin_own fail_process_own finish_own : lhos.

Lemma reserve_owning acb : owning (reserve_for_retry acb).
Proof. unfold reserve_for_retry. solve_within. Qed.
Lemma finish_retry_owning acb r : owning (finish_retry acb r).
Proof. unfold finish_retry. solve_within. Qed.
Lemma inspect_after_owning acb d why : owning (_inspect_after_unknown acb d why).
Proof. unfold _inspect_after_unknown. solve_within. Qed.
Lemma retry_owning acb current d err : owning (retry_after_exception acb current d err).
Proof. unfold retry_after_exception. solve_within. Qed.
#[local] Hint Resolve reserve_owning finish_retry_owning inspect_after_owning retry_owning : lhos.
Lemma after_owning acb d r : owning (after_dispatch acb d r).
Proof. unfold after_dispatch, on_dispatch_exception, on_dispatch_unknown. solve_within. Qed.
#[local] Hint Resolve after_owning : lhos.
Lemma dispatch_action_owning acb : owning (dispatch_action acb).
Proof. unfold dispatch_action. solve_within. Qed.
Lemma recover_owning acb : owning (recover_action acb).
Proof. unfold recover_action, recover_with. solve_within. Qed.
Lemma run_step_owning pcb : owning (_run_process_step strict pcb).
Proof. unfold _run_process_step. solve_within. Qed.
#[local] Hint Resolve dispatch_action_owning recover_owning run_step_owning : lhos.
Lemma tick_owning : owning (tick strict).
Proof.
  unfold tick, recover_incomplete_actions, _dispatch_pending_actions. solve_within.
  - by apply host_owning.
  - apply on_db_owning. solve_within.
Qed.
Lemma until_idle_owning n : owning (run_until_idle strict n).
Proof. pose proof tick_owning. induction n as [|n IH]; cbn [run_until_idle]; solve_within. Qed.
Lemma spawn_owning p ns st : owning (spawn strict p ns st).
Proof.
  unfold spawn, register_program. solve_within.
  - apply on_db_owning. solve_within.
  - by apply host_owning.
Qed.
Lemma run_owned now x ps ds k : rtc (kernel_step strict) (new_kernel now x ps ds) k -> kernel_owned k.
Proof.
  intros Hr. assert (kernel_owned (new_kernel now x ps ds)) as H0' by (split; [apply init_db_ok|by split]). revert H0'.
  induction Hr as [|k k1 k' Hs _ IH]; [done|]. intros Hk. apply IH. clear IH.
  destruct Hs; [by apply tick_owning|by apply until_idle_owning|by apply spawn_owning|].
  by eapply env_owning; [apply rtc_once|].
Qed.
End Owned.
(** C4: no system call reaches what another process owns, whatever the request
    names and whether it succeeds or raises: leases of others stay, new leases are
    the caller's; actions of others stay, changed or new ones are the caller's;
    control blocks of other processes stay; nobody's capabilities change, and a
    process that did not have any gets at most those of the caller.  This holds in
    every kernel reachable from a new one by ticks, spawns, system calls and the other
    coroutines' use of the services, in which the next identifier to be drawn is not
    already the id of a process or of a capability set. *)
Theorem syscall_isolated {X Program Driver : Type} `{UuidSource, ExcText, DefaultCapabilities}
    `{!Machine X Program Driver, !Interferes X Program Driver} strict now x ps ds (k : AgentKernel X Program Driver) r :
  rtc (kernel_step strict) (new_kernel now x ps ds) k -> req_pid r <> "" ->
  get_process (uuid4 (uuid_count (kdb k))) (kdb k) = None -> get_capability_set (uuid4 (uuid_count (kdb k))) (kdb k) = None ->
  confined (req_pid r) (kdb k) (Dispatcher.dispatch strict r (kdb k)).2.
Proof.
  intros [Hs [Hl _]]%run_owned Hq Hp Hc. revert Hs Hl Hp Hc. generalize (kdb k). intros s Hs Hl Hp Hc.
  destruct r as [rid q body]. cbn [req_pid] in *. unfold Dispatcher.dispatch.
  cbn [req_pid req_body request_id].
  destruct body as [r|r|aid|aid|claims|ids|c|target ty pl| |cid|code result|ty].
  - by apply spawn_handler_confined.
  - by apply submit_handler_confined.
  - pose proof (journaled_confined q) as Hj. unfold _handle_inspect_action. rewrite gets_bind. destruct (own_action q aid s); apply Hj.
  - apply cancel_handler_confined; [done|]. intros a Ha Hqa l Hin Hid. rewrite <-Hqa. by eapply Hl.
  - unfold _handle_acquire. apply then_confined; [solve_within|done|apply enforce_all_confined|]. intros _ s1 _ Hs1 _.
    apply step_confined; [apply acquire_confined, Hs1|]. intros; apply new_event_confined.
  - by apply release_handler_confined.
  - unfold _handle_wait. apply step_confined; [apply transition_confined|]. intros; apply new_event_confined.
  - unfold _handle_signal. apply step_confined; [apply enforce_confined|]. intros _ s1 _.
    apply step_confined; [apply send_confined|]. intros; apply new_event_confined.
  - apply checkpoint_handler_confined.
  - unfold _handle_restore. rewrite gets_bind. destruct (find_checkpoint cid q s); apply journaled_confined.
  - by apply exit_handler_confined.
  - reflexivity.
Qed.

(** Two processes, each with a lease; the first one's is recorded by its action. *)
Module TwoProcesses.
Import Demo.
Definition root_spawn : KernelRequest := mkRequest "r" "" (Spawn (mkSpawn "p" None "" "" [])).
Definition submission : KernelRequest :=
  mkRequest "r" "uuid-0" (SubmitAction (mkSubmit "tool/mock" "write" [] [mkClaim "resource:workspace/a" None]
    (Some SideEffectClass.PURE) (Some RecoveryPolicy.RETRY) None None)).
Definition acquisition : KernelRequest := mkRequest "r" "uuid-7" (AcquireResource [mkClaim "resource:workspace/b" None]).
Definition start : AgentKernel unit program driver := kernel_with unknown_driver.
Definition call (r : KernelRequest) (k : AgentKernel unit program driver) : AgentKernel unit program driver :=
  with_db k (Dispatcher.dispatch true r (kdb k)).2 [].
Definition state : AgentKernel unit program driver := call acquisition (call submission (call root_spawn (call root_spawn start))).
Definition cancellation : KernelRequest := mkRequest "r" "uuid-0" (CancelAction "uuid-14").
Lemma call_step r k : kernel_step true k (call r k).
Proof. apply step_env, env_service, sv_syscall. Qed.
Lemma state_reached : rtc (kernel_step true) start state.
Proof. unfold state. do 4 (eapply rtc_r; [|apply call_step]). reflexivity. Qed.
Definition held (k : AgentKernel unit program driver) : list (string * string) := (fun l => (owner_pid l, resource_id l)) <$> leases_projection (kdb k).
Definition recorded (k : AgentKernel unit program driver) : list (string * list string) := (fun a => (action_id a, lease_ids a)) <$> actions_projection (kdb k).
End TwoProcesses.

(** The first process cancels its action, whose lease is given back; the other's stays. *)
Lemma syscall_isolated_witness :
  TwoProcesses.recorded TwoProcesses.state = [("uuid-14", ["uuid-16"])] /\
  (forall l, l ∈ leases_projection (kdb TwoProcesses.state) -> owner_pid l = "uuid-7" ->
     l ∈ leases_projection (Dispatcher.dispatch true TwoProcesses.cancellation (kdb TwoProcesses.state)).2) /\
  TwoProcesses.held (TwoProcesses.call TwoProcesses.cancellation TwoProcesses.state) = [("uuid-7", "resource:workspace/b")].
Proof.
  split; [vm_compute; reflexivity|]. split; [|vm_compute; reflexivity]. intros l Hl Ho.
  refine (con_leases _ _ _ (syscall_isolated true 0%Z tt [] _ TwoProcesses.state TwoProcesses.cancellation
    TwoProcesses.state_reached _ _ _) l Hl _); [done|vm_compute; reflexivity|vm_compute; reflexivity|]. by rewrite Ho.
Defined.
