(* ===== verification/Outbox.v ===== *)
(** * The transactional outbox (agent_os/services/outbox.py)

    Intents for external deliveries are rows written in the same transaction as
    the internal change they belong to.  Workers claim a row, publish it and
    acknowledge under the token of their claim.

    Timestamps are instants in microseconds: the ISO-8601 texts the table holds
    are in UTC and sort as the instants do.  [SQLiteStorage.dumps] writes JSON with
    sorted keys, so a stored text is modelled by the value with its keys sorted
    ([dumps]), reading it back is that value, and the SHA-256 of a text is an
    argument.  The CHECK constraint of the table makes the status one of the four;
    [time.monotonic()] counts microseconds.  [publish] is a computation over the
    whole state: other workers act while it is awaited. *)

From S2P Require Import Prelude Storage PyString.

Module OutboxStatus.
Inductive t : Type := PENDING | IN_FLIGHT | DELIVERED | FAILED.
#[global] Instance eq_dec : EqDecision t.
Proof. solve_decision. Defined.
End OutboxStatus.

(** [OutboxIntent] *)
Record OutboxIntent : Type := mkIntent {
  in_destination : string;
  in_payload : jobj;
  in_idempotency_key : string;
  in_headers : jobj;
  in_aggregate_type : option string;
  in_aggregate_id : option string;
  in_causation_id : option string;
  in_correlation_id : option string;
  in_outbox_id : option string;
  in_available_at : option datetime }.

(** A row of [transactional_outbox]. *)
Record outbox_row : Type := mkOutboxRow {
  outbox_id : string;
  o_idempotency_key : string;
  o_destination : string;
  o_payload_json : json;
  o_payload_hash : string;
  o_headers_json : json;
  o_aggregate_type : option string;
  o_aggregate_id : option string;
  o_causation_id : option string;
  o_correlation_id : option string;
  o_transaction_id : string;
  o_status : OutboxStatus.t;
  o_attempts : Z;
  o_available_at : Z;
  o_claimed_by : option string;
  o_claim_token : option string;
  o_claimed_at : option Z;
  o_claim_expires_at : option Z;
  o_last_error_json : option json;
  o_delivery_result_json : option json;
  o_created_at : Z;
  o_delivered_at : option Z }.

(** [OutboxRecord]: the columns of the row, with payload and headers decoded. *)
Record OutboxRecord : Type := mkRecord {
  rec_row : outbox_row;
  rec_payload : jobj;
  rec_headers : jobj }.

Record CommitIntentResult : Type := mkCommit { cr_record : OutboxRecord; applied : bool }.
Record DispatchResult : Type := mkDispatchResult {
  ds_record : option OutboxRecord; delivered : bool; ds_error : option string }.

(** What [publish] is given. *)
Record delivery : Type := mkDelivery {
  d_destination : string; d_payload : jobj; d_idempotency_key : string; d_headers : jobj }.

(** The outbox table, the other tables of the same database, the identifiers drawn,
    the two clocks, and the deliveries made so far. *)
Record Outbox (D : Type) : Type := mkOutbox {
  rows : list outbox_row;
  db : D;
  drawn : N;
  utc : Z;
  mono : Z;
  published : list delivery }.
Arguments mkOutbox {D} rows db drawn utc mono published.
Arguments rows {D} o.
Arguments db {D} o.
Arguments drawn {D} o.
Arguments utc {D} o.
Arguments mono {D} o.
Arguments published {D} o.

(** [hashlib.sha256(payload_json.encode()).hexdigest()] by the value of the text *)
Class PayloadDigest := _payload_hash : json -> string.

(** [OutboxIntent.__post_init__] *)
Definition __post_init__ (i : OutboxIntent) : result OutboxIntent :=
  if String.eqb (strip (in_destination i)) "" then Raise (ValueError "destination must be non-empty")
  else if String.eqb (strip (in_idempotency_key i)) "" then Raise (ValueError "idempotency_key must be non-empty")
  else Ok i.

Definition with_rows {D} (f : list outbox_row -> list outbox_row) (s : Outbox D) : Outbox D :=
  mkOutbox (f (rows s)) (db s) (drawn s) (utc s) (mono s) (published s).

(** The columns an UPDATE of the service can set. *)
Definition with_delivery_columns (r : outbox_row) (st : OutboxStatus.t) (attempts avail : Z)
    (by_ token : option string) (at_ expires : option Z) (err res : option json) (done : option Z) : outbox_row :=
  mkOutboxRow (outbox_id r) (o_idempotency_key r) (o_destination r) (o_payload_json r) (o_payload_hash r)
    (o_headers_json r) (o_aggregate_type r) (o_aggregate_id r) (o_causation_id r) (o_correlation_id r)
    (o_transaction_id r) st attempts avail by_ token at_ expires err res (o_created_at r) done.

Section Outbox.
Context {D : Type} `{UuidSource, PayloadDigest, ExcText}.
Implicit Types s : Outbox D.

Definition next_uuid : M (Outbox D) string := fun s =>
  (Ok (uuid4 (drawn s)), mkOutbox (rows s) (db s) (N.succ (drawn s)) (utc s) (mono s) (published s)).

(** [with self._storage.transaction(immediate=True)]: the tables are rolled back,
    the clocks and the identifiers drawn are not. *)
Definition tx {A} (m : M (Outbox D) A) : M (Outbox D) A := fun s =>
  match m s with
  | (Ok a, s') => (Ok a, s')
  | (Raise e, s') => (Raise e, mkOutbox (rows s) (db s) (drawn s') (utc s') (mono s') (published s'))
  end.

(** [value or default or _utc_now()], which must carry a time zone *)
Definition _normalize_time (value default_ : option datetime) : M (Outbox D) Z :=
  now ← gets utc;
  let t := match value with
           | Some v => v
           | None => match default_ with Some d => d | None => aware now end
           end in
  raise_if (negb (tz_aware t)) (ValueError "outbox timestamps must be timezone-aware") ;;
  mret (instant t).

(** [x or uuid4().hex] *)
Definition or_uuid (x : option string) : M (Outbox D) string :=
  match x with
  | Some v => if String.eqb v "" then next_uuid else mret v
  | None => next_uuid
  end.

Definition _row_to_record (r : outbox_row) : result OutboxRecord :=
  if negb (String.eqb (o_payload_hash r) (_payload_hash (o_payload_json r)))
  then Raise (OutboxIntegrityError "outbox payload hash mismatch")
  else
    match o_payload_json r with
    | JObj payload =>
        match o_headers_json r with
        | JObj headers => Ok (mkRecord r payload headers)
        | _ => Raise (OutboxIntegrityError "outbox headers are not an object")
        end
    | _ => Raise (OutboxIntegrityError "outbox payload is not an object")
    end.

(** A SELECT of one row, as a record. *)
Definition record_of (o : option outbox_row) : M (Outbox D) (option OutboxRecord) :=
  match o with
  | None => mret None
  | Some r => rec ← of_result (_row_to_record r); mret (Some rec)
  end.
Definition get (id : string) : M (Outbox D) (option OutboxRecord) :=
  o ← gets (fun s => tbl_find outbox_id id (rows s)); record_of o.
Definition _get_by_idempotency_key_tx (key : string) : M (Outbox D) (option OutboxRecord) :=
  o ← gets (fun s => tbl_find o_idempotency_key key (rows s)); record_of o.
Definition get_by_idempotency_key (key : string) : M (Outbox D) (option OutboxRecord) :=
  _get_by_idempotency_key_tx key.

Definition list_records (status : option OutboxStatus.t) (limit : Z) : M (Outbox D) (list OutboxRecord) :=
  if (limit <? 1)%Z then mret []
  else
    all ← gets rows;
    let selected := filter (fun r => status = None \/ status = Some (o_status r)) all in
    map_each (fun r => of_result (_row_to_record r))
      (take (Z.to_nat limit) (sort_on (fun r => (o_created_at r, outbox_id r)) selected)).

(** ** Intents *)

Definition _assert_same_intent (rec : OutboxRecord) (i : OutboxIntent) : result unit :=
  let r := rec_row rec in
  if String.eqb (o_destination r) (in_destination i) &&
     String.eqb (o_payload_hash r) (_payload_hash (dumps (JObj (in_payload i)))) &&
     bool_decide (dumps (JObj (rec_headers rec)) = dumps (JObj (in_headers i))) &&
     bool_decide (o_aggregate_type r = in_aggregate_type i) &&
     bool_decide (o_aggregate_id r = in_aggregate_id i)
  then Ok tt
  else Raise (OutboxIdempotencyConflict (in_idempotency_key i)).

(** The INSERT; [outbox_id] is the primary key, [idempotency_key] is UNIQUE. *)
Definition insert_row (r : outbox_row) : M (Outbox D) unit :=
  all ← gets rows;
  raise_if (bool_decide (outbox_id r ∈ outbox_id <$> all) ||
            bool_decide (o_idempotency_key r ∈ o_idempotency_key <$> all)) (IntegrityError "transactional_outbox") ;;
  modify (with_rows (fun l => l ++ [r])).

Definition enqueue_tx (i : OutboxIntent) (transaction_id : string) (now : option datetime)
    : M (Outbox D) OutboxRecord :=
  commit_time ← _normalize_time now None;
  available_at ← _normalize_time (in_available_at i) (Some (aware commit_time));
  let payload_json := dumps (JObj (in_payload i)) in
  let headers_json := dumps (JObj (in_headers i)) in
  existing ← _get_by_idempotency_key_tx (in_idempotency_key i);
  match existing with
  | Some rec => of_result (_assert_same_intent rec i) ;; mret rec
  | None =>
      id ← or_uuid (in_outbox_id i);
      insert_row (mkOutboxRow id (in_idempotency_key i) (in_destination i) payload_json (_payload_hash payload_json)
        headers_json (in_aggregate_type i) (in_aggregate_id i) (in_causation_id i) (in_correlation_id i)
        transaction_id OutboxStatus.PENDING 0 available_at None None None None None None commit_time None) ;;
      row ← get id;
      some_or_raise row (OutboxIntegrityError "inserted outbox row vanished")
  end.

Definition enqueue (i : OutboxIntent) (transaction_id : option string) (now : option datetime)
    : M (Outbox D) OutboxRecord :=
  commit_time ← _normalize_time now None;
  tx (tid ← or_uuid transaction_id; enqueue_tx i tid (Some (aware commit_time))).

(** [mutate(tx)] changes the other tables. *)
Definition on_tables {A} (m : M D A) : M (Outbox D) A := fun s =>
  let '(r, d) := m (db s) in (r, mkOutbox (rows s) d (drawn s) (utc s) (mono s) (published s)).

Definition commit_intent {A} (i : OutboxIntent) (mutate : M D A) (transaction_id : option string)
    (now : option datetime) : M (Outbox D) CommitIntentResult :=
  commit_time ← _normalize_time now None;
  tx_id ← or_uuid transaction_id;
  tx (existing ← _get_by_idempotency_key_tx (in_idempotency_key i);
      match existing with
      | Some rec => of_result (_assert_same_intent rec i) ;; mret (mkCommit rec false)
      | None =>
          on_tables mutate ;;
          rec ← enqueue_tx i tx_id (Some (aware commit_time));
          mret (mkCommit rec true)
      end).

(** ** Claims *)

(** The WHERE clause of [claim_next]. *)
Definition claimable (now : Z) (r : outbox_row) : bool :=
  match o_status r with
  | OutboxStatus.PENDING => (o_available_at r <=? now)%Z
  | OutboxStatus.IN_FLIGHT => match o_claim_expires_at r with Some e => (e <=? now)%Z | None => false end
  | _ => false
  end.
Definition claim_order (r : outbox_row) : Z * (Z * string) := (o_available_at r, (o_created_at r, outbox_id r)).

(** [UPDATE transactional_outbox SET ... WHERE ...], with its row count *)
Definition update_where (p : outbox_row -> bool) (f : outbox_row -> outbox_row) : M (Outbox D) nat :=
  n ← gets (fun s => length (filter (fun r => p r = true) (rows s)));
  modify (with_rows (fmap (fun r => if p r then f r else r))) ;;
  mret n.

Definition claimed (worker token : string) (now expires : Z) (r : outbox_row) : outbox_row :=
  with_delivery_columns r OutboxStatus.IN_FLIGHT (o_attempts r + 1) (o_available_at r) (Some worker) (Some token)
    (Some now) (Some expires) (o_last_error_json r) (o_delivery_result_json r) (o_delivered_at r).

Definition claim_next (worker : string) (now : option datetime) (claim_ttl : Z) : M (Outbox D) (option OutboxRecord) :=
  raise_if (String.eqb (strip worker) "") (ValueError "worker_id must be non-empty") ;;
  raise_if (claim_ttl <=? 0)%Z (ValueError "claim_ttl must be positive") ;;
  claim_time ← _normalize_time now None;
  let expires_at := (claim_time + claim_ttl)%Z in
  claim_token ← next_uuid;
  tx (row ← gets (fun s => head (sort_on claim_order (filter (fun r => claimable claim_time r = true) (rows s))));
      match row with
      | None => mret None
      | Some row =>
          n ← update_where (fun r => String.eqb (outbox_id r) (outbox_id row) && claimable claim_time r)
                (claimed worker claim_token claim_time expires_at);
          if decide (n <> 1) then mret None
          else
            rec ← get (outbox_id row);
            match rec with
            | None => raise (OutboxIntegrityError "claimed outbox row vanished")
            | Some rec => mret (Some rec)
            end
      end).

(** The row is claimed with this token, and the claim has not expired. *)
Definition holds_claim (id token : string) (now : Z) (r : outbox_row) : bool :=
  String.eqb (outbox_id r) id && bool_decide (o_status r = OutboxStatus.IN_FLIGHT) &&
  bool_decide (o_claim_token r = Some token) &&
  match o_claim_expires_at r with Some e => (now <? e)%Z | None => false end.

Definition ack (id token : string) (result : json) (now : option datetime) : M (Outbox D) bool :=
  delivered_at ← _normalize_time now None;
  let result_json := match result with JNull => None | v => Some (dumps v) end in
  tx (n ← update_where (holds_claim id token delivered_at)
            (fun r => with_delivery_columns r OutboxStatus.DELIVERED (o_attempts r) (o_available_at r) None None None None
                        None result_json (Some delivered_at));
      mret (bool_decide (n = 1))).

(** [_serialize_error] of an exception, a mapping or a text *)
Inductive delivery_error : Type := Exc (e : py_error) | Mapping_ (m : jobj) | Text (msg : string).
Definition _serialize_error (e : delivery_error) : jobj :=
  match e with
  | Exc e => [("type", JStr (exc_name e)); ("message", JStr (exc_str e))]
  | Text msg => [("message", JStr msg)]
  | Mapping_ m => m
  end.

Definition nack (id token : string) (error : delivery_error) (retry_at : option datetime) (terminal : bool)
    (now : option datetime) : M (Outbox D) bool :=
  failure_time ← _normalize_time now None;
  next_time ← _normalize_time retry_at (Some (aware failure_time));
  let error_json := dumps (JObj (_serialize_error error)) in
  let next_status := if terminal then OutboxStatus.FAILED else OutboxStatus.PENDING in
  tx (n ← update_where (holds_claim id token failure_time)
            (fun r => with_delivery_columns r next_status (o_attempts r) next_time None None None None
                        (Some error_json) (o_delivery_result_json r) (o_delivered_at r));
      mret (bool_decide (n = 1))).

Definition retry_failed (id : string) (available_at : option datetime) : M (Outbox D) bool :=
  retry_time ← _normalize_time available_at None;
  tx (n ← update_where (fun r => String.eqb (outbox_id r) id && bool_decide (o_status r = OutboxStatus.FAILED))
            (fun r => with_delivery_columns r OutboxStatus.PENDING (o_attempts r) retry_time (o_claimed_by r)
                        (o_claim_token r) (o_claimed_at r) (o_claim_expires_at r) (o_last_error_json r)
                        (o_delivery_result_json r) (o_delivered_at r));
      mret (bool_decide (n = 1))).

(** ** Delivery *)

Definition delivery_of (rec : OutboxRecord) : delivery :=
  mkDelivery (o_destination (rec_row rec)) (rec_payload rec) (o_idempotency_key (rec_row rec)) (rec_headers rec).

(** [publisher.publish(...)]: a computation over the whole state. *)
Variable publish : delivery -> M (Outbox D) json.

Definition publish_call (d : delivery) : M (Outbox D) json :=
  modify (fun s => mkOutbox (rows s) (db s) (drawn s) (utc s) (mono s) (published s ++ [d])) ;;
  publish d.

(** [start + timedelta(seconds=max(0.0, time.monotonic() - started))] *)
Definition elapsed_since (start started : Z) : M (Outbox D) Z :=
  now ← gets mono; mret (start + Z.max 0 (now - started))%Z.

(** After [publish] has returned or raised. *)
Definition settle_delivery (rec : OutboxRecord) (token : string) (dispatch_time started retry_delay : Z)
    (max_attempts : option Z) (out : result json) : M (Outbox D) DispatchResult :=
  let id := outbox_id (rec_row rec) in
  completion_time ← elapsed_since dispatch_time started;
  match out with
  | Raise exc =>
      let terminal := match max_attempts with Some m => (m <=? o_attempts (rec_row rec))%Z | None => false end in
      let retry_at := if (retry_delay =? 0)%Z then dispatch_time else (completion_time + retry_delay)%Z in
      nack id token (Exc exc) (Some (aware retry_at)) terminal (Some (aware completion_time)) ;;
      mret (mkDispatchResult (Some rec) false (Some (exc_str exc)))
  | Ok result =>
      acked ← ack id token result (Some (aware completion_time));
      if acked : bool then mret (mkDispatchResult (Some rec) true None)
      else mret (mkDispatchResult (Some rec) false (Some "outbox claim lost before acknowledgement"))
  end.

Definition dispatch_once (worker : string) (now : option datetime) (claim_ttl retry_delay : Z)
    (max_attempts : option Z) : M (Outbox D) DispatchResult :=
  raise_if (retry_delay <? 0)%Z (ValueError "retry_delay must be non-negative") ;;
  raise_if (match max_attempts with Some m => (m <? 1)%Z | None => false end)
    (ValueError "max_attempts must be positive") ;;
  dispatch_time ← _normalize_time now None;
  started ← gets mono;
  orec ← claim_next worker (Some (aware dispatch_time)) claim_ttl;
  match orec with
  | None => mret (mkDispatchResult None false None)
  | Some rec =>
      match o_claim_token (rec_row rec) with
      | None => raise (OutboxIntegrityError "claimed row has no token")
      | Some token =>
          out ← attempt (publish_call (delivery_of rec));
          settle_delivery rec token dispatch_time started retry_delay max_attempts out
      end
  end.

(** Move a failed record past the scan; whether it was moved. *)
Definition defer (id : string) (cursor_time : Z) : M (Outbox D) bool :=
  tx (n ← update_where (fun r => String.eqb (outbox_id r) id && bool_decide (o_status r = OutboxStatus.PENDING) &&
                                 (o_available_at r <=? cursor_time)%Z)
            (fun r => with_delivery_columns r (o_status r) (o_attempts r) (cursor_time + 1) (o_claimed_by r)
                        (o_claim_token r) (o_claimed_at r) (o_claim_expires_at r) (o_last_error_json r)
                        (o_delivery_result_json r) (o_delivered_at r));
      mret (bool_decide (n = 1))).
(** Make the deferred records available again. *)
Definition restore_deferred (ids : list string) (cursor_time : Z) : M (Outbox D) unit :=
  match ids with
  | [] => mret tt
  | _ => tx (for_each (fun id =>
      update_where (fun r => String.eqb (outbox_id r) id && bool_decide (o_status r = OutboxStatus.PENDING) &&
                             (cursor_time <? o_available_at r)%Z)
        (fun r => with_delivery_columns r (o_status r) (o_attempts r) cursor_time (o_claimed_by r)
                    (o_claim_token r) (o_claimed_at r) (o_claim_expires_at r) (o_last_error_json r)
                    (o_delivery_result_json r) (o_delivered_at r)) ;; mret tt) ids)
  end.

(** A retryable failure that is still in reach of the scan. *)
Definition retryable (r : DispatchResult) (current : option OutboxRecord) (cursor_time : Z) : option string :=
  match current with
  | Some c =>
      if negb (delivered r) && bool_decide (o_status (rec_row c) = OutboxStatus.PENDING) &&
         (o_available_at (rec_row c) <=? cursor_time)%Z
      then Some (outbox_id (rec_row c)) else None
  | None => None
  end.

(** [for _ in range(limit)]: the results, the scan clock and the deferred ids *)
Fixpoint drain (worker : string) (claim_ttl retry_delay : Z) (max_attempts : option Z) (limit : nat)
    (acc : list DispatchResult) (cursor_time : Z) (deferred : list string)
    : M (Outbox D) (list DispatchResult * Z * list string) :=
  match limit with
  | O => mret (acc, cursor_time, deferred)
  | S n =>
      iteration_started ← gets mono;
      r ← dispatch_once worker (Some (aware cursor_time)) claim_ttl retry_delay max_attempts;
      cursor_time ← elapsed_since cursor_time iteration_started;
      match ds_record r with
      | None => mret (acc, cursor_time, deferred)
      | Some rec =>
          current ← get (outbox_id (rec_row rec));
          match retryable r current cursor_time with
          | None => drain worker claim_ttl retry_delay max_attempts n (acc ++ [r]) cursor_time deferred
          | Some id =>
              moved ← defer id cursor_time;
              drain worker claim_ttl retry_delay max_attempts n (acc ++ [r]) cursor_time
                (if moved : bool then deferred ++ [id] else deferred)
          end
      end
  end.

Definition dispatch_ready (worker : string) (limit : Z) (now : option datetime) (claim_ttl retry_delay : Z)
    (max_attempts : option Z) : M (Outbox D) (list DispatchResult) :=
  raise_if (limit <? 0)%Z (ValueError "limit must be non-negative") ;;
  cursor_time ← _normalize_time now None;
  '(results, cursor_time, deferred) ← drain worker claim_ttl retry_delay max_attempts (Z.to_nat limit) [] cursor_time [];
  restore_deferred deferred cursor_time ;;
  mret results.
End Outbox.
