(* ===== verification/OutboxProps.v ===== *)
(** * The transactional outbox: correctness

    A committed intent is never lost, changed or committed twice; every delivery
    made for a key is the same; acknowledgements are fenced by the claim; a drain
    with a working publisher delivers everything that is due. *)

From S2P Require Import Prelude Storage PyString Outbox.

(** ** JSON texts *)

Lemma json_nested_ind (P : json -> Prop) :
  (forall j, match j with JList _ | JObj _ => False | _ => True end -> P j) ->
  (forall l, Forall P l -> P (JList l)) -> (forall o, Forall (fun kv => P kv.2) o -> P (JObj o)) -> forall j, P j.
Proof.
  intros Hleaf Hlist Hobj. fix IH 1. intros [| | | | | |l|o]; try by apply Hleaf.
  - apply Hlist. induction l; constructor; [apply IH|done].
  - apply Hobj. induction o as [|[k v] o IHo]; constructor; [apply IH|done].
Qed.

(** [dumps(loads(dumps(j))) == dumps(j)] *)
Lemma dumps_idem j : dumps (dumps j) = dumps j.
Proof.
  induction j as [j Hj|l Hl|o Ho] using json_nested_ind.
  - by destruct j.
  - cbn. f_equal. rewrite <- list_fmap_compose. apply list_fmap_ext. intros i x Hx.
    by eapply (proj1 (Forall_lookup _ _) Hl).
  - cbn. f_equal. set (g := fun kv : string * json => (kv.1, dumps kv.2)).
    assert (Forall (fun kv => g kv = kv) (sort_on fst (g <$> o))) as Hfix.
    { apply Forall_forall. intros kv Hkv. apply elem_of_sort_on, list_elem_of_fmap in Hkv as ([k v] & -> & Hin).
      unfold g; cbn. f_equal. rewrite Forall_forall in Ho. by apply (Ho (k, v)). }
    rewrite Forall_forall in Hfix.
    assert (g <$> sort_on fst (g <$> o) = sort_on fst (g <$> o)) as ->.
    { rewrite <- (list_fmap_id (sort_on fst (g <$> o))) at 2. apply list_fmap_ext. intros i x Hx.
      apply Hfix. by eapply list_elem_of_lookup_2. }
    apply sort_on_id, sort_on_sorted.
Qed.
Lemma dumps_obj o : exists o', dumps (JObj o) = JObj o'.
Proof. by eexists. Qed.

(** ** Rows *)

(** The columns written once. *)
Definition intent_part (r : outbox_row) :=
  (outbox_id r, o_idempotency_key r, o_destination r, o_payload_json r, o_payload_hash r, o_headers_json r,
   (o_aggregate_type r, o_aggregate_id r, o_causation_id r, o_correlation_id r, o_transaction_id r, o_created_at r)).

(** A row over time: its intent stays, attempts are counted, and a delivered row
    does not change any more. *)
Definition row_le (r r' : outbox_row) : Prop :=
  intent_part r' = intent_part r /\ (o_attempts r <= o_attempts r')%Z /\
  (o_status r = OutboxStatus.DELIVERED -> r' = r).
#[global] Instance row_le_preorder : PreOrder row_le.
Proof.
  split; [by intros r|]. intros r1 r2 r3 (E1 & A1 & D1) (E2 & A2 & D2).
  split; [congruence|]. split; [lia|]. intros Hd. specialize (D1 Hd). subst r2. auto.
Qed.

Section Props.
Context {D : Type} `{UuidSource, PayloadDigest, ExcText}.
Implicit Types s : Outbox D.

(** The row decodes, and has a claim exactly while it is in flight. *)
Record row_ok (s : Outbox D) (r : outbox_row) : Prop := {
  row_hash : o_payload_hash r = _payload_hash (o_payload_json r);
  row_payload : exists o, o_payload_json r = JObj o;
  row_headers : exists o, o_headers_json r = dumps (JObj o);
  row_attempts : (0 <= o_attempts r)%Z;
  row_claim : match o_status r with
              | OutboxStatus.IN_FLIGHT =>
                  (exists n, o_claim_token r = Some (uuid4 n) /\ (n < drawn s)%N) /\ is_Some (o_claim_expires_at r)
              | _ => o_claim_token r = None /\ o_claim_expires_at r = None
              end }.

(** The delivery of a row. *)
Definition delivery_row (r : outbox_row) (d : delivery) : Prop :=
  exists rec, _row_to_record r = Ok rec /\ d = delivery_of rec.

Record outbox_ok (s : Outbox D) : Prop := {
  ob_ids : NoDup (outbox_id <$> rows s);
  ob_keys : NoDup (o_idempotency_key <$> rows s);
  ob_rows r : r ∈ rows s -> row_ok s r;
  ob_published d : d ∈ published s -> exists r, r ∈ rows s /\ delivery_row r d }.

(** A claim token of [r'] is the one of [r], or was drawn since [s]. *)
Definition new_token (s : Outbox D) (r r' : outbox_row) : Prop :=
  forall t, o_claim_token r' = Some t -> o_claim_token r = Some t \/ exists n, (drawn s <= n)%N /\ t = uuid4 n.

Record extends (s s' : Outbox D) : Prop := {
  ex_rows r : r ∈ rows s -> exists r', r' ∈ rows s' /\ row_le r r';
  ex_tokens r' t : r' ∈ rows s' -> o_claim_token r' = Some t ->
    (exists r, r ∈ rows s /\ outbox_id r = outbox_id r' /\ o_claim_token r = Some t) \/
    exists n, (drawn s <= n)%N /\ t = uuid4 n;
  ex_published : published s `prefix_of` published s';
  ex_drawn : (drawn s <= drawn s')%N }.
#[global] Instance extends_preorder : PreOrder extends.
Proof.
  split; [intros s; split; [intros r Hr; by exists r|intros r t Hr Ht; left; by exists r|done|lia]|].
  intros s1 s2 s3 [A1 At A2 A3] [B1 Bt B2 B3]. split; [| |by etransitivity|lia].
  - intros r Hr. destruct (A1 r Hr) as (r2 & Hr2 & L2). destruct (B1 r2 Hr2) as (r3 & Hr3 & L3).
    exists r3. split; [done|]. by transitivity r2.
  - intros r t Hr Ht. destruct (Bt r t Hr Ht) as [(r2 & Hr2 & Hid & Ht2)|(n & Hn & ->)]; [|right; exists n; split; [lia|done]].
    destruct (At r2 t Hr2 Ht2) as [(r1 & Hr1 & Hid1 & Ht1)|?]; [|by right]. left. exists r1. split_and!; congruence.
Qed.

Definition op_ok (s s' : Outbox D) : Prop := outbox_ok s -> outbox_ok s' /\ extends s s'.
#[global] Instance op_ok_preorder : PreOrder op_ok.
Proof.
  split; [by intros s Hs|]. intros s1 s2 s3 H12 H23 Hs1. destruct (H12 Hs1) as [Hs2 E1].
  destruct (H23 Hs2) as [Hs3 E2]. split; [done|]. by transitivity s2.
Qed.

Lemma delivery_row_le r r' d : intent_part r' = intent_part r -> delivery_row r d -> delivery_row r' d.
Proof.
  intros E (rec & Hr & ->). unfold delivery_row, _row_to_record, delivery_of in *. injection E as E1 E2 E3 E4 E5 E6 _.
  rewrite E4, E5, E6. destruct (negb _); [done|]. destruct (o_payload_json r); try done.
  destruct (o_headers_json r); try done. injection Hr as <-. eexists. split; [done|]. cbn. congruence.
Qed.

Lemma row_ok_later s s' r : (drawn s <= drawn s')%N -> row_ok s r -> row_ok s' r.
Proof.
  intros Hle [A B C E F]. split; try done. destruct (o_status r); try done.
  destruct F as [(n & Ht & Hn) He]. split; [|done]. exists n. split; [done|lia].
Qed.

(** ** The elementary writes *)

(** Everything but the table of the outbox may move. *)
Lemma others_ok s d n u m : (drawn s <= n)%N -> op_ok s (mkOutbox (rows s) d n u m (published s)).
Proof.
  intros Hn [A B C E]. split; [split; try done|split; [| |done|done]].
  - intros r Hr. eapply row_ok_later; [|by apply C]. done.
  - intros r Hr. by exists r.
  - intros r t Hr Ht. left. by exists r.
Qed.

(** An UPDATE that leaves the intents alone. *)
Definition upd (p : outbox_row -> bool) (f : outbox_row -> outbox_row) (s : Outbox D) : Outbox D :=
  with_rows (fmap (fun r => if p r then f r else r)) s.
Lemma update_where_run p f s : update_where p f s = (Ok (length (filter (fun r => p r = true) (rows s))), upd p f s).
Proof. done. Qed.
Lemma upd_from p f s0 s :
  rows s = rows s0 -> published s = published s0 -> (drawn s0 <= drawn s)%N ->
  (forall r, r ∈ rows s -> p r = true -> row_ok s r -> row_ok s (f r) /\ row_le r (f r) /\ new_token s0 r (f r)) ->
  op_ok s0 (upd p f s).
Proof.
  intros Hrows Hpub Hdr Hf [A B C E]. rewrite <- Hrows, <- ?Hpub in *.
  assert (forall r, r ∈ rows s -> let r' := if p r then f r else r in row_ok s r' /\ row_le r r' /\ new_token s0 r r') as Hr.
  { intros r Hin r'. subst r'. assert (row_ok s r) by (by apply (row_ok_later s0); auto).
    destruct (p r) eqn:Ep; [by apply Hf|]. split_and!; [done|done|by left]. }
  assert (forall g : outbox_row -> string, (forall r r', row_le r r' -> g r' = g r) ->
    g <$> rows (upd p f s) = g <$> rows s) as Hcol.
  { intros g Hg. cbn. rewrite <- list_fmap_compose. apply list_fmap_ext. intros i x Hx. cbn.
    apply Hg, Hr. by eapply list_elem_of_lookup_2. }
  split; [split|split].
  - rewrite Hcol; [done|]. intros r r' (Ei & _). by injection Ei.
  - rewrite Hcol; [done|]. intros r r' (Ei & _). by injection Ei.
  - intros r (r0 & -> & Hin)%list_elem_of_fmap. destruct (Hr r0 Hin) as [Hok _]. by apply (row_ok_later s).
  - intros d Hd. destruct (E d Hd) as (r & Hin & Hdr').
    exists (if p r then f r else r). split; [cbn; apply list_elem_of_fmap; by exists r|].
    eapply delivery_row_le; [|done]. apply (Hr r Hin).
  - intros r Hin. rewrite <- Hrows in Hin. exists (if p r then f r else r). split; [|by apply Hr].
    cbn. apply list_elem_of_fmap. by exists r.
  - intros r t (r0 & -> & Hin)%list_elem_of_fmap Ht. destruct (Hr r0 Hin) as (_ & (Ei & _) & Htok).
    destruct (Htok t Ht) as [Ht0|?]; [left|by right]. exists r0. rewrite <- Hrows. split_and!; [done|by injection Ei|done].
  - cbn. by rewrite Hpub.
  - done.
Qed.
Lemma upd_ok p f s :
  (forall r, r ∈ rows s -> p r = true -> row_ok s r -> row_ok s (f r) /\ row_le r (f r) /\ new_token s r (f r)) ->
  op_ok s (upd p f s).
Proof. by apply upd_from. Qed.

(** A new row. *)
Lemma insert_ok r s :
  row_ok s r -> o_claim_token r = None -> outbox_id r ∉ outbox_id <$> rows s -> o_idempotency_key r ∉ o_idempotency_key <$> rows s ->
  op_ok s (with_rows (fun l => l ++ [r]) s).
Proof.
  intros Hr Hnt Hi Hk [A B C E]. split; [split|split; [| |done|done]].
  - cbn. rewrite fmap_app. apply NoDup_app. split_and!; [done| |apply NoDup_singleton]. set_solver.
  - cbn. rewrite fmap_app. apply NoDup_app. split_and!; [done| |apply NoDup_singleton]. set_solver.
  - intros r' Hin. apply (row_ok_later s); [done|]. apply elem_of_app in Hin as [Hin|Hin]; [by apply C|].
    by apply list_elem_of_singleton in Hin as ->.
  - intros d Hd. destruct (E d Hd) as (r' & Hin & Hdr). exists r'. split; [cbn; set_solver|done].
  - intros r' Hin. exists r'. split; [cbn; set_solver|done].
  - intros r' t Hin Ht. left. exists r'. split_and!; [|done|done]. apply elem_of_app in Hin as [Hin|Hin]; [done|].
    apply list_elem_of_singleton in Hin as ->. congruence.
Qed.

Lemma publish_ok s r d :
  r ∈ rows s -> delivery_row r d ->
  op_ok s (mkOutbox (rows s) (db s) (drawn s) (utc s) (mono s) (published s ++ [d])).
Proof.
  intros Hr Hd [A B C E]. split; [split; try done|split; [| |by apply prefix_app_r|done]].
  - intros r' Hin. apply (row_ok_later s); [done|]. by apply C.
  - intros d' [Hin|Hin]%elem_of_app; [by apply E|]. apply list_elem_of_singleton in Hin as ->. by exists r.
  - intros r' Hin. by exists r'.
  - intros r' t Hin Ht. left. by exists r'.
Qed.

(** ** The operations *)

Lemma tx_ok {A} (m : M (Outbox D) A) : within op_ok m -> within (keeps published) m -> within op_ok (tx m).
Proof.
  intros Hm Hp s Hs. specialize (Hm s Hs). specialize (Hp s). unfold keeps in Hp. unfold tx.
  destruct (m s) as [[a|e] s']; cbn in Hm, Hp |- *; [done|]. destruct Hm as [_ [_ _ Hd]]. rewrite Hp.
  by apply others_ok.
Qed.
Lemma modify_ok f : (forall s, op_ok s (f s)) -> within op_ok (modify (S:=Outbox D) f).
Proof. intros Hf s. apply Hf. Qed.
Lemma next_uuid_ok : within op_ok (next_uuid (D:=D)).
Proof. intros s. apply others_ok. cbn. lia. Qed.
Lemma or_uuid_ok x : within op_ok (or_uuid (D:=D) x).
Proof. unfold or_uuid. pose proof next_uuid_ok. solve_within. Qed.
Lemma normalize_time_ok v d : within op_ok (_normalize_time (D:=D) v d).
Proof. unfold _normalize_time. solve_within. Qed.
Lemma record_of_ok o : within op_ok (record_of (D:=D) o).
Proof. unfold record_of. solve_within. Qed.
Lemma on_tables_ok {A} (m : M D A) : within op_ok (on_tables m).
Proof. intros s. unfold on_tables. destruct (m (db s)) as [r d]. by apply others_ok. Qed.
#[local] Hint Resolve next_uuid_ok or_uuid_ok normalize_time_ok record_of_ok on_tables_ok : lhos.
Lemma get_ok id : within op_ok (get (D:=D) id).
Proof. unfold get. solve_within. Qed.
Lemma get_key_ok key : within op_ok (_get_by_idempotency_key_tx (D:=D) key).
Proof. unfold _get_by_idempotency_key_tx. solve_within. Qed.
#[local] Hint Resolve get_ok get_key_ok : lhos.

(** No operation but [publish] touches the history. *)
Definition quiet {A} (m : M (Outbox D) A) : Prop := within (keeps published) m.
Lemma next_uuid_quiet : quiet (next_uuid (D:=D)).
Proof. done. Qed.
Lemma on_tables_quiet {A} (m : M D A) : quiet (on_tables m).
Proof. intros s. unfold on_tables. by destruct (m (db s)). Qed.
Lemma update_quiet p f : quiet (update_where (D:=D) p f).
Proof. done. Qed.

Lemma update_ok p f :
  (forall s r, r ∈ rows s -> p r = true -> row_ok s r -> row_ok s (f r) /\ row_le r (f r) /\ new_token s r (f r)) ->
  within op_ok (update_where (D:=D) p f).
Proof. intros Hf s. rewrite update_where_run. cbn [snd]. apply upd_ok. auto. Qed.

(** Updates of rows that are not delivered. *)
Lemma columns_ok s0 s r st att avail by_ tok at_ exp err res done_ :
  o_status r <> OutboxStatus.DELIVERED -> (o_attempts r <= att)%Z -> row_ok s r ->
  match st with
  | OutboxStatus.IN_FLIGHT => (exists n, tok = Some (uuid4 n) /\ (n < drawn s)%N) /\ is_Some exp
  | _ => tok = None /\ exp = None
  end ->
  (tok = None \/ tok = o_claim_token r \/ exists n, (drawn s0 <= n)%N /\ tok = Some (uuid4 n)) ->
  let r' := with_delivery_columns r st att avail by_ tok at_ exp err res done_ in
  row_ok s r' /\ row_le r r' /\ new_token s0 r r'.
Proof.
  intros Hnd Ha [A B C E F] Hst Ht r'. split; [split; try done; cbn; lia|]. split; [by split_and!|].
  intros t. cbn. destruct Ht as [->|[->|(n & Hn & ->)]]; [done|by left|]. intros [= <-]. right. by exists n.
Qed.
Lemma holds_claim_status id token now r : holds_claim id token now r = true -> o_status r = OutboxStatus.IN_FLIGHT.
Proof. unfold holds_claim. rewrite !andb_true_iff, bool_decide_eq_true. tauto. Qed.

Ltac tx_op := apply tx_ok; [|unfold quiet, update_where, get, record_of in *; solve_within].
Lemma ack_ok id token res now : within op_ok (ack (D:=D) id token res now).
Proof.
  unfold ack. solve_within. tx_op. apply (within_bind op_ok); [|intros; solve_within].
  apply update_ok. intros s r _ Hp Hr. pose proof (holds_claim_status _ _ _ _ Hp) as Hst.
  apply columns_ok; [by rewrite Hst|lia|done|done|by left].
Qed.
Lemma nack_ok id token err retry terminal now : within op_ok (nack (D:=D) id token err retry terminal now).
Proof.
  unfold nack. solve_within. tx_op. apply (within_bind op_ok); [|intros; solve_within].
  apply update_ok. intros s r _ Hp Hr. pose proof (holds_claim_status _ _ _ _ Hp) as Hst.
  apply columns_ok; [by rewrite Hst|lia|done|by destruct terminal|by left].
Qed.
Lemma retry_failed_ok id avail : within op_ok (retry_failed (D:=D) id avail).
Proof.
  unfold retry_failed. solve_within. tx_op. apply (within_bind op_ok); [|intros; solve_within].
  apply update_ok. intros s r _ [_ Hst%bool_decide_eq_true]%andb_true_iff Hr.
  apply columns_ok; [by rewrite Hst|lia|done| |by auto]. pose proof (row_claim _ _ Hr) as Hc. by rewrite Hst in Hc.
Qed.
(** Moving a pending row in time. *)
Lemma move_ok p avail : (forall r, p r = true -> o_status r = OutboxStatus.PENDING) ->
  within op_ok (update_where (D:=D) p (fun r => with_delivery_columns r (o_status r) (o_attempts r) avail (o_claimed_by r)
     (o_claim_token r) (o_claimed_at r) (o_claim_expires_at r) (o_last_error_json r) (o_delivery_result_json r)
     (o_delivered_at r))).
Proof.
  intros Hp. apply update_ok. intros s r _ Hst%Hp Hr.
  apply columns_ok; [by rewrite Hst|lia|done|apply (row_claim _ _ Hr)|by auto].
Qed.
Lemma defer_ok id t : within op_ok (defer (D:=D) id t).
Proof.
  unfold defer. tx_op. apply (within_bind op_ok); [|intros; solve_within].
  apply move_ok. intros r. rewrite !andb_true_iff, bool_decide_eq_true. tauto.
Qed.
Lemma restore_deferred_ok ids t : within op_ok (restore_deferred (D:=D) ids t).
Proof.
  unfold restore_deferred. destruct ids; [solve_within|]. tx_op. apply (within_for_each op_ok). intros id.
  apply (within_bind op_ok); [|intros; solve_within].
  apply move_ok. intros r. rewrite !andb_true_iff, bool_decide_eq_true. tauto.
Qed.
#[local] Hint Resolve ack_ok nack_ok retry_failed_ok defer_ok restore_deferred_ok : lhos.

(** ** Looking up rows *)

Lemma row_to_record_ok s r : row_ok s r -> exists rec, _row_to_record r = Ok rec /\ rec_row rec = r.
Proof.
  intros [Hh (o & Ho) (h & Hd) _ _]. unfold _row_to_record. rewrite Hh, String.eqb_refl. cbn. rewrite Ho, Hd. cbn.
  by eexists.
Qed.
(** Among rows with distinct ids, one matches. *)
Lemma filter_one l r (q : outbox_row -> bool) :
  NoDup (outbox_id <$> l) -> r ∈ l -> q r = true ->
  filter (fun x => String.eqb (outbox_id x) (outbox_id r) && q x = true) l = [r].
Proof.
  intros Hn Hr Hq. induction l as [|x l IH]; [set_solver|]. rewrite fmap_cons in Hn. apply NoDup_cons in Hn as [Hx Hn].
  apply elem_of_cons in Hr as [->|Hr].
  - rewrite filter_cons_True by (by rewrite String.eqb_refl, Hq). f_equal.
    apply filter_none. intros y Hy Hf. rewrite andb_true_iff, String.eqb_eq in Hf. destruct Hf as [Hid _].
    apply Hx. rewrite <- Hid. by apply list_elem_of_fmap_2.
  - rewrite filter_cons_False; [by apply IH|]. intros Hf. rewrite andb_true_iff, String.eqb_eq in Hf.
    destruct Hf as [Hid _]. apply Hx. rewrite Hid. by apply list_elem_of_fmap_2.
Qed.
Lemma find_upd p f s r :
  NoDup (outbox_id <$> rows s) -> r ∈ rows s -> (forall x, outbox_id (f x) = outbox_id x) ->
  tbl_find outbox_id (outbox_id r) (rows (upd p f s)) = Some (if p r then f r else r).
Proof.
  intros Hn Hr Hf. assert (outbox_id r = outbox_id (if p r then f r else r)) as -> by (destruct (p r); by rewrite ?Hf).
  apply tbl_find_elem; [|cbn; apply list_elem_of_fmap; by exists r].
  cbn. rewrite <- list_fmap_compose. erewrite list_fmap_ext; [exact Hn|]. intros i x _. cbn. destruct (p x); by rewrite ?Hf.
Qed.

(** ** Claiming *)

(** The first claimable row: the least by availability, creation and id. *)
Definition first_claimable (now : Z) (s : Outbox D) : option outbox_row :=
  head (sort_on claim_order (filter (fun r => claimable now r = true) (rows s))).
Lemma first_claimable_spec now s r :
  first_claimable now s = Some r ->
  r ∈ rows s /\ claimable now r = true /\
  forall x, x ∈ rows s -> claimable now x = true -> py_leb (claim_order r) (claim_order x) = true.
Proof.
  unfold first_claimable. intros Hh. set (l := filter _ (rows s)) in *.
  assert (r ∈ l) as Hr.
  { apply (elem_of_sort_on claim_order). destruct (sort_on claim_order l); [done|]. injection Hh as ->. set_solver. }
  apply list_elem_of_filter in Hr as [Hc Hin]. split; [done|]. split; [done|]. intros x Hx Hcx.
  assert (x ∈ sort_on claim_order l) as Hxl by (apply elem_of_sort_on, list_elem_of_filter; done).
  pose proof (sort_on_sorted claim_order l) as Hs. destruct (sort_on claim_order l) as [|y l']; [done|].
  injection Hh as ->. apply StronglySorted_inv in Hs as [_ Hall]. apply elem_of_cons in Hxl as [->|Hxl].
  - apply py_leb_refl.
  - rewrite Forall_forall in Hall. by apply Hall.
Qed.
Lemma first_claimable_None now s : first_claimable now s = None <-> forall r, r ∈ rows s -> claimable now r = false.
Proof.
  unfold first_claimable. rewrite head_None. split.
  - intros Hn r Hr. destruct (claimable now r) eqn:E; [|done]. exfalso.
    assert (r ∈ sort_on claim_order (filter (fun r => claimable now r = true) (rows s))) as Hin.
    { apply elem_of_sort_on, list_elem_of_filter. done. }
    rewrite Hn in Hin. set_solver.
  - intros Hall. rewrite filter_none; [done|]. intros r Hr. rewrite Hall by done. done.
Qed.

Definition drew (s : Outbox D) : Outbox D :=
  mkOutbox (rows s) (db s) (N.succ (drawn s)) (utc s) (mono s) (published s).
Definition took (worker : string) (now ttl : Z) (r : outbox_row) (s : Outbox D) : Outbox D :=
  upd (fun x => String.eqb (outbox_id x) (outbox_id r) && claimable now x)
      (claimed worker (uuid4 (drawn s)) now (now + ttl)) (drew s).

Lemma claim_next_run worker now ttl s :
  outbox_ok s -> String.eqb (strip worker) "" = false -> (0 < ttl)%Z ->
  match first_claimable now s with
  | None => claim_next worker (Some (aware now)) ttl s = (Ok None, drew s)
  | Some r => exists rec, claim_next worker (Some (aware now)) ttl s = (Ok (Some rec), took worker now ttl r s) /\
      rec_row rec = claimed worker (uuid4 (drawn s)) now (now + ttl) r /\ _row_to_record (rec_row rec) = Ok rec
  end.
Proof.
  intros Hs Hw Ht. unfold claim_next. rewrite Hw, (proj2 (Z.leb_gt _ _) Ht).
  assert (forall k : Z -> M (Outbox D) (option OutboxRecord),
    (raise_if false (ValueError "worker_id must be non-empty") ;;
     raise_if false (ValueError "claim_ttl must be positive") ;;
     t ← _normalize_time (Some (aware now)) None; k t) s = k now s) as -> by done.
  set (k := fun token => tx _). change ((next_uuid ≫= k) s) with (k (uuid4 (drawn s)) (drew s)). unfold k, tx.
  rewrite gets_bind. fold (first_claimable now (drew s)). change (first_claimable now (drew s)) with (first_claimable now s).
  destruct (first_claimable now s) as [r|] eqn:E; [|done].
  destruct (first_claimable_spec now s r E) as (Hr & Hc & _). pose proof (ob_rows _ Hs r Hr) as Hok.
  rewrite (bind_Ok _ _ _ _ _ (update_where_run _ _ (drew s))).
  rewrite (filter_one (rows (drew s)) r (claimable now)) by (done || apply Hs).
  rewrite decide_False by (by intros []). fold (took worker now ttl r s).
  set (r' := claimed worker (uuid4 (drawn s)) now (now + ttl) r).
  assert (row_ok (drew s) r') as Hok'.
  { apply (columns_ok s); [|lia|apply (row_ok_later s); [cbn; lia|done]| |].
    - intros Hd. unfold claimable in Hc. by rewrite Hd in Hc.
    - split; [|by eexists]. exists (drawn s). split; [done|]. cbn. lia.
    - right; right. by exists (drawn s). }
  destruct (row_to_record_ok _ _ Hok') as (rec & Hrec & Hrow). exists rec.
  assert (get (outbox_id r) (took worker now ttl r s) = (Ok (Some rec), took worker now ttl r s)) as Hget.
  { unfold get. rewrite gets_bind. unfold took. rewrite find_upd; [|apply Hs|done|done].
    rewrite String.eqb_refl, Hc. cbn. unfold record_of. fold r'. by rewrite Hrec. }
  rewrite (bind_Ok _ _ _ _ _ Hget). rewrite Hrow. done.
Qed.

(** What a successful claim did. *)
Lemma claim_next_inv worker now ttl rec s s' :
  outbox_ok s -> claim_next worker (Some (aware now)) ttl s = (Ok (Some rec), s') ->
  exists r, first_claimable now s = Some r /\ s' = took worker now ttl r s /\
    rec_row rec = claimed worker (uuid4 (drawn s)) now (now + ttl) r /\ _row_to_record (rec_row rec) = Ok rec.
Proof.
  intros Hs E. destruct (String.eqb (strip worker) "") eqn:Hw; [unfold claim_next in E; by rewrite Hw in E|].
  destruct (Z.leb_spec ttl 0) as [Ht|Ht]; [unfold claim_next in E; by rewrite Hw, (proj2 (Z.leb_le _ _) Ht) in E|].
  pose proof (claim_next_run worker now ttl s Hs Hw Ht) as Hrun.
  destruct (first_claimable now s) as [r|]; [|congruence]. exists r.
  destruct Hrun as (rec' & E' & Hrow & Hrec). rewrite E' in E. by injection E as -> <-.
Qed.
Lemma normalize_run v d s :
  (exists t, _normalize_time v d s = (Ok t, s)) \/ exists e, _normalize_time v d s = (Raise e, s).
Proof.
  unfold _normalize_time. rewrite gets_bind.
  set (t := match v with Some x => x | None => match d with Some y => y | None => aware (utc s) end end).
  destruct (tz_aware t); [left|right]; by eexists.
Qed.
Lemma took_ok worker now ttl r s : op_ok s (took worker now ttl r s).
Proof.
  apply upd_from; [done|done|cbn; lia|]. intros x Hx Hp Hok.
  apply andb_true_iff in Hp as [_ Hc]. apply columns_ok; [|lia|done| |].
  - intros Hd. unfold claimable in Hc. by rewrite Hd in Hc.
  - split; [|by eexists]. exists (drawn s). split; [done|]. cbn. lia.
  - right; right. by exists (drawn s).
Qed.
Lemma claim_next_ok worker now ttl : within op_ok (claim_next (D:=D) worker now ttl).
Proof.
  intros s Hs. destruct (String.eqb (strip worker) "") eqn:Hw; [unfold claim_next; by rewrite Hw|].
  destruct (Z.leb_spec ttl 0) as [Ht|Ht].
  { unfold claim_next. by rewrite Hw, (proj2 (Z.leb_le _ _) Ht). }
  destruct (normalize_run now None s) as [[t Hn]|[e Hn]].
  - assert (claim_next worker now ttl s = claim_next worker (Some (aware t)) ttl s) as ->.
    { unfold claim_next. rewrite Hw, (proj2 (Z.leb_gt _ _) Ht). unfold mbind, M_bind, raise_if. cbn [mret M_ret].
      by rewrite Hn. }
    pose proof (claim_next_run worker t ttl s Hs Hw Ht) as Hrun.
    destruct (first_claimable t s) as [r|] eqn:E.
    + destruct Hrun as (rec & -> & _). by apply took_ok.
    + rewrite Hrun. apply others_ok; [lia|done].
  - unfold claim_next. rewrite Hw, (proj2 (Z.leb_gt _ _) Ht). unfold mbind, M_bind, raise_if. cbn [mret M_ret].
    by rewrite Hn.
Qed.
#[local] Hint Resolve claim_next_ok : lhos.

(** ** Committing *)

Lemma insert_row_ok r : (forall s, row_ok s r) -> o_claim_token r = None -> within op_ok (insert_row (D:=D) r).
Proof.
  intros Hr Hnt s. unfold insert_row. rewrite gets_bind. unfold mbind, M_bind, raise_if.
  repeat case_bool_decide; cbn; try reflexivity. by apply insert_ok.
Qed.
Definition new_row (i : OutboxIntent) (id tid : string) (commit_time available_at : Z) : outbox_row :=
  let payload_json := dumps (JObj (in_payload i)) in
  mkOutboxRow id (in_idempotency_key i) (in_destination i) payload_json (_payload_hash payload_json)
    (dumps (JObj (in_headers i))) (in_aggregate_type i) (in_aggregate_id i) (in_causation_id i) (in_correlation_id i)
    tid OutboxStatus.PENDING 0 available_at None None None None None None commit_time None.
Lemma new_row_ok i id tid t a s : row_ok s (new_row i id tid t a).
Proof. split; cbn; eauto; lia. Qed.
Lemma enqueue_tx_ok i tid now : within op_ok (enqueue_tx (D:=D) i tid now).
Proof.
  unfold enqueue_tx. pose proof insert_row_ok as Hi. solve_within.
  apply Hi; [|done]. intros s. apply (new_row_ok i).
Qed.
#[local] Hint Resolve enqueue_tx_ok : lhos.

Ltac quietly := unfold enqueue_tx, _normalize_time, _get_by_idempotency_key_tx, get, record_of, or_uuid, insert_row;
  pose proof next_uuid_quiet; pose proof @on_tables_quiet; unfold quiet in *; solve_within.
Lemma enqueue_ok i tid now : within op_ok (enqueue (D:=D) i tid now).
Proof. unfold enqueue. solve_within. apply tx_ok; [solve_within|quietly]. Qed.
Lemma commit_intent_ok {A} i (m : M D A) tid now : within op_ok (commit_intent i m tid now).
Proof. unfold commit_intent. solve_within. apply tx_ok; [solve_within|quietly]. Qed.
#[local] Hint Resolve enqueue_ok @commit_intent_ok : lhos.

(** ** Runs *)

(** What the clients, the workers and time can do to the outbox. *)
Inductive outbox_step : Outbox D -> Outbox D -> Prop :=
| step_commit {A} i (m : M D A) tid now s : outbox_step s (commit_intent i m tid now s).2
| step_enqueue i tid now s : outbox_step s (enqueue i tid now s).2
| step_claim worker now ttl s : outbox_step s (claim_next worker now ttl s).2
| step_ack id token res now s : outbox_step s (ack id token res now s).2
| step_nack id token err retry terminal now s : outbox_step s (nack id token err retry terminal now s).2
| step_retry id avail s : outbox_step s (retry_failed id avail s).2
| step_defer id t s : outbox_step s (defer id t s).2
| step_restore ids t s : outbox_step s (restore_deferred ids t s).2
| step_publish r rec s : r ∈ rows s -> _row_to_record r = Ok rec ->
    outbox_step s (mkOutbox (rows s) (db s) (drawn s) (utc s) (mono s) (published s ++ [delivery_of rec]))
| step_others d n u m s : (drawn s <= n)%N -> outbox_step s (mkOutbox (rows s) d n u m (published s)).

Lemma outbox_step_ok s s' : outbox_step s s' -> op_ok s s'.
Proof.
  destruct 1 as [A i m tid now s|i tid now s| | | | | | |r rec s Hr Hrec|]; try by (apply others_ok).
  - apply commit_intent_ok.
  - apply enqueue_ok.
  - apply claim_next_ok.
  - apply ack_ok.
  - apply nack_ok.
  - apply retry_failed_ok.
  - apply defer_ok.
  - apply restore_deferred_ok.
  - apply (publish_ok s r); [done|]. by exists rec.
Qed.
Lemma outbox_run_ok s s' : rtc outbox_step s s' -> op_ok s s'.
Proof. induction 1; [reflexivity|]. etransitivity; [by apply outbox_step_ok|done]. Qed.

(** A publisher that reaches the outbox only through its operations. *)
Definition well_behaved (publish : delivery -> M (Outbox D) json) : Prop :=
  forall d s, rtc outbox_step s (publish d s).2.

Section Delivery.
Context (publish : delivery -> M (Outbox D) json) (Hpub : well_behaved publish).

Lemma settle_ok rec token t0 st delay maxa out :
  within op_ok (settle_delivery rec token t0 st delay maxa out).
Proof. unfold settle_delivery, elapsed_since. solve_within. Qed.
Lemma claimed_row s worker now ttl rec s' :
  outbox_ok s -> claim_next worker (Some (aware now)) ttl s = (Ok (Some rec), s') ->
  rec_row rec ∈ rows s' /\ _row_to_record (rec_row rec) = Ok rec.
Proof.
  intros Hs (r & Ef & -> & Hrow & Hrec)%claim_next_inv; [|done]. split; [|done]. rewrite Hrow.
  destruct (first_claimable_spec now s r Ef) as (Hr & Hc & _).
  cbn. apply list_elem_of_fmap. exists r. by rewrite String.eqb_refl, Hc.
Qed.
Lemma attempt_publish_ok rec s :
  rec_row rec ∈ rows s -> _row_to_record (rec_row rec) = Ok rec ->
  op_ok s (attempt (publish_call publish (delivery_of rec)) s).2.
Proof.
  intros Hr Hrec. unfold attempt, publish_call, modify, mbind, M_bind.
  set (s1 := mkOutbox _ _ _ _ _ _). transitivity s1; [apply (publish_ok s (rec_row rec)); [done|by exists rec]|].
  pose proof (outbox_run_ok _ _ (Hpub (delivery_of rec) s1)) as Hp. by destruct (publish (delivery_of rec) s1).
Qed.
(** Sequencing, with what the first part returned. *)
Lemma bind_ok {A B} (m : M (Outbox D) A) (f : A -> M (Outbox D) B) s :
  op_ok s (m s).2 -> (forall a s1, m s = (Ok a, s1) -> outbox_ok s1 -> op_ok s1 (f a s1).2) -> op_ok s ((m ≫= f) s).2.
Proof.
  intros Hm Hf Hs. destruct (Hm Hs) as [Hs1 He]. unfold mbind, M_bind. destruct (m s) as [[a|e] s1]; cbn in *; [|done].
  destruct (Hf a s1 eq_refl Hs1 Hs1) as [Hs2 He2]. split; [done|]. by transitivity s1.
Qed.
Lemma dispatch_once_ok worker now ttl delay maxa : within op_ok (dispatch_once publish worker now ttl delay maxa).
Proof.
  unfold dispatch_once. apply (within_bind op_ok); [solve_within|intros _].
  apply (within_bind op_ok); [solve_within|intros _]. apply (within_bind op_ok); [solve_within|intros t0].
  apply (within_bind op_ok); [solve_within|intros st]. intros s Hs. revert Hs.
  intros Hs. apply bind_ok; [apply claim_next_ok| |done]. intros [rec|] s1 E Hs1; [|reflexivity].
  destruct (o_claim_token (rec_row rec)) as [token|]; [|reflexivity].
  destruct (claimed_row s worker t0 ttl rec s1 Hs E) as [Hr Hrec].
  apply bind_ok; [by apply attempt_publish_ok|]. intros out s2 _ _. apply settle_ok.
Qed.
Lemma drain_ok worker ttl delay maxa n : forall acc t ids, within op_ok (drain publish worker ttl delay maxa n acc t ids).
Proof.
  pose proof dispatch_once_ok. induction n as [|n IH]; intros acc t ids; cbn [drain]; unfold elapsed_since; solve_within.
Qed.
Lemma dispatch_ready_ok worker limit now ttl delay maxa :
  within op_ok (dispatch_ready publish worker limit now ttl delay maxa).
Proof. unfold dispatch_ready. pose proof drain_ok. solve_within. Qed.

(** The whole service: clients, workers, and drains of this publisher. *)
Inductive service_step : Outbox D -> Outbox D -> Prop :=
| service_outbox s s' : outbox_step s s' -> service_step s s'
| service_dispatch worker now ttl delay maxa s :
    service_step s (dispatch_once publish worker now ttl delay maxa s).2
| service_drain worker limit now ttl delay maxa s :
    service_step s (dispatch_ready publish worker limit now ttl delay maxa s).2.
Lemma service_run_ok s s' : rtc service_step s s' -> op_ok s s'.
Proof.
  induction 1 as [|s1 s2 s3 Hst _ IH]; [reflexivity|]. transitivity s2; [|done].
  destruct Hst; [by apply outbox_step_ok|apply dispatch_once_ok|apply dispatch_ready_ok].
Qed.
End Delivery.

(** An empty table. *)
Definition empty_outbox (d : D) (now : Z) : Outbox D := mkOutbox [] d 0 now 0 [].
Lemma empty_ok d now : outbox_ok (empty_outbox d now).
Proof. split; try apply NoDup_nil_2; set_solver. Qed.

Lemma record_row r rec : _row_to_record r = Ok rec -> rec_row rec = r.
Proof.
  unfold _row_to_record. destruct (negb _); [done|]. destruct (o_payload_json r); try done.
  destruct (o_headers_json r); try done. by intros [= <-].
Qed.
(** Deliveries with one key are one delivery. *)
Lemma deliveries_agree s d1 d2 :
  outbox_ok s -> d1 ∈ published s -> d2 ∈ published s -> d_idempotency_key d1 = d_idempotency_key d2 -> d1 = d2.
Proof.
  intros Hs Hd1 Hd2 Hk. destruct (ob_published _ Hs d1 Hd1) as (r1 & Hr1 & rec1 & E1 & ->).
  destruct (ob_published _ Hs d2 Hd2) as (r2 & Hr2 & rec2 & E2 & ->). cbn in Hk.
  rewrite (record_row _ _ E1), (record_row _ _ E2) in Hk.
  assert (r1 = r2) as -> by (by apply (NoDup_key_inj o_idempotency_key (rows s)); [apply Hs|..]). congruence.
Qed.

(** ** Fencing *)

(** The token [t] was drawn, and the row [id] is not claimed with it. *)
Definition stale (id t : string) (s : Outbox D) : Prop :=
  (exists n, (n < drawn s)%N /\ t = uuid4 n) /\ forall r, r ∈ rows s -> outbox_id r = id -> o_claim_token r <> Some t.
Lemma stale_kept id t s s' : op_ok s s' -> outbox_ok s -> stale id t s -> stale id t s'.
Proof.
  intros Hop Hs [(n & Hn & ->) Hst]. destruct (Hop Hs) as [_ [_ Ht _ Hd]]. split; [exists n; split; [lia|done]|].
  intros r Hr Hid Htok. destruct (Ht r _ Hr Htok) as [(r0 & Hr0 & Hid0 & Ht0)|(m & Hm & Heq%(inj uuid4))]; [|lia].
  apply (Hst r0 Hr0); congruence.
Qed.
(** The claim of a later worker makes the token of an earlier one stale. *)
Lemma claim_makes_stale worker now ttl rec t s s' :
  outbox_ok s -> claim_next worker (Some (aware now)) ttl s = (Ok (Some rec), s') ->
  (exists n, (n < drawn s)%N /\ t = uuid4 n) -> stale (outbox_id (rec_row rec)) t s'.
Proof.
  intros Hs (r & Ef & -> & -> & _)%claim_next_inv (n & Hn & ->); [|done].
  destruct (first_claimable_spec now s r Ef) as (Hr & Hc & _). split; [exists n; split; [cbn; lia|done]|].
  intros x (x0 & -> & Hx0)%list_elem_of_fmap Hid.
  assert (x0 = r) as ->.
  { apply (NoDup_key_inj outbox_id (rows s)); [apply Hs|done|done|]. cbn in Hid. by destruct (_ && _). }
  rewrite String.eqb_refl, Hc. cbn. intros [= Heq%(inj uuid4)]. lia.
Qed.
Lemma claim_token_drawn worker now ttl rec s s' :
  outbox_ok s -> claim_next worker (Some (aware now)) ttl s = (Ok (Some rec), s') ->
  exists n, o_claim_token (rec_row rec) = Some (uuid4 n) /\ (n < drawn s')%N.
Proof.
  intros Hs (r & _ & -> & -> & _)%claim_next_inv; [|done]. exists (drawn s). split; [done|]. cbn. lia.
Qed.

(** An update that finds no row changes nothing. *)
Lemma update_nothing p f s :
  (forall r, r ∈ rows s -> p r = false) -> tx (n ← update_where p f; mret (bool_decide (n = 1))) s = (Ok false, s).
Proof.
  intros Hp. unfold tx. rewrite (bind_Ok _ _ _ _ _ (update_where_run p f s)).
  rewrite filter_none by (intros r Hr; by rewrite (Hp r Hr)).
  assert (upd p f s = s) as ->; [|done]. unfold upd, with_rows. destruct s as [l d n u m pu]. cbn in *. f_equal.
  rewrite <- (list_fmap_id l) at 2. apply list_fmap_ext. intros i r Hr. rewrite Hp; [done|]. by eapply list_elem_of_lookup_2.
Qed.
Lemma stale_holds_nothing id t now s : stale id t s -> forall r, r ∈ rows s -> holds_claim id t now r = false.
Proof.
  intros [_ Hst] r Hr. unfold holds_claim. destruct (String.eqb_spec (outbox_id r) id) as [Hid|]; [|done].
  rewrite (bool_decide_eq_false_2 (o_claim_token r = Some t)) by (by apply Hst). by rewrite andb_false_r.
Qed.
Lemma ack_stale id t res now s : stale id t s -> ack id t res (Some (aware now)) s = (Ok false, s).
Proof. intros Hst. apply update_nothing. by apply stale_holds_nothing. Qed.
Lemma nack_stale id t err retry terminal now s :
  stale id t s -> nack id t err (Some (aware retry)) terminal (Some (aware now)) s = (Ok false, s).
Proof. intros Hst. apply update_nothing. by apply stale_holds_nothing. Qed.

(** ** Committing, exactly *)

Definition tables (s : Outbox D) : list outbox_row * D := (rows s, db s).
(** The row is of the same intent, as far as [_assert_same_intent] compares. *)
Definition same_intent (r : outbox_row) (i : OutboxIntent) : bool :=
  String.eqb (o_destination r) (in_destination i) &&
  String.eqb (o_payload_hash r) (_payload_hash (dumps (JObj (in_payload i)))) &&
  bool_decide (o_headers_json r = dumps (JObj (in_headers i))) &&
  bool_decide (o_aggregate_type r = in_aggregate_type i) && bool_decide (o_aggregate_id r = in_aggregate_id i).
Lemma same_intent_new i id tid t a r : intent_part r = intent_part (new_row i id tid t a) -> same_intent r i = true.
Proof.
  intros E. injection E as _ _ E1 _ E2 E3 E4 E5 _ _ _ _. unfold same_intent. rewrite E1, E2, E3, E4, E5.
  by rewrite !String.eqb_refl, !bool_decide_eq_true_2.
Qed.

Lemma existing_found key r s :
  outbox_ok s -> tbl_find o_idempotency_key key (rows s) = Some r ->
  exists rec, _get_by_idempotency_key_tx key s = (Ok (Some rec), s) /\ rec_row rec = r /\
    forall i, _assert_same_intent rec i =
      if same_intent r i then Ok tt else Raise (OutboxIdempotencyConflict (in_idempotency_key i)).
Proof.
  intros Hs E. unfold _get_by_idempotency_key_tx. rewrite gets_bind, E.
  apply tbl_find_Some in E as [_ Hr]. pose proof (ob_rows _ Hs r Hr) as Hok.
  destruct (row_to_record_ok _ _ Hok) as (rec & Hrec & Hrow). exists rec. unfold record_of. rewrite Hrec. split_and!; [done..|].
  intros i. unfold _assert_same_intent, same_intent. rewrite Hrow.
  assert (dumps (JObj (rec_headers rec)) = o_headers_json r) as ->; [|done].
  destruct (row_headers _ _ Hok) as [h Hh]. unfold _row_to_record in Hrec. destruct (negb _); [done|].
  destruct (o_payload_json r); try done. rewrite Hh in *. destruct (dumps (JObj h)) as [| | | | | | |h'] eqn:Ed; try done.
  injection Hrec as <-. cbn [rec_headers]. by rewrite <- Ed, dumps_idem.
Qed.

Lemma or_uuid_run x s : exists v n, (drawn s <= n)%N /\
  or_uuid x s = (Ok v, mkOutbox (rows s) (db s) n (utc s) (mono s) (published s)).
Proof.
  destruct s as [l d n u m pu]. unfold or_uuid. destruct x as [v|]; [destruct (String.eqb v "")|];
    [exists (uuid4 n), (N.succ n)|exists v, n|exists (uuid4 n), (N.succ n)]; (split; [cbn; lia|done]).
Qed.
(** When the intent is available: its own time, or that of the commit. *)
Definition available (i : OutboxIntent) (t : Z) : option Z :=
  match in_available_at i with
  | None => Some t
  | Some a => if tz_aware a then Some (instant a) else None
  end.
Lemma enqueue_new i tid t a s :
  outbox_ok s -> available i t = Some a -> tbl_find o_idempotency_key (in_idempotency_key i) (rows s) = None ->
  exists id n, (drawn s <= n)%N /\ let s1 := mkOutbox (rows s) (db s) n (utc s) (mono s) (published s) in
    if decide (id ∈ outbox_id <$> rows s)
    then enqueue_tx i tid (Some (aware t)) s = (Raise (IntegrityError "transactional_outbox"), s1)
    else exists rec, enqueue_tx i tid (Some (aware t)) s = (Ok rec, with_rows (fun l => l ++ [new_row i id tid t a]) s1) /\
           rec_row rec = new_row i id tid t a.
Proof.
  intros Hs Ha Hnone. unfold enqueue_tx.
  rewrite (bind_Ok (_normalize_time (Some (aware t)) None) _ s t s eq_refl).
  assert (_normalize_time (in_available_at i) (Some (aware t)) s = (Ok a, s)) as Hna.
  { unfold available in Ha. unfold _normalize_time. rewrite gets_bind. destruct (in_available_at i) as [x|].
    - destruct (tz_aware x) eqn:Ex; [|done]. by injection Ha as <-.
    - by injection Ha as <-. }
  rewrite (bind_Ok _ _ _ _ _ Hna).
  assert (_get_by_idempotency_key_tx (in_idempotency_key i) s = (Ok None, s)) as Hg.
  { unfold _get_by_idempotency_key_tx. by rewrite gets_bind, Hnone. }
  rewrite (bind_Ok _ _ _ _ _ Hg).
  destruct (or_uuid_run (in_outbox_id i) s) as (id & n & Hn & Hu).
  exists id, n. split; [done|]. rewrite (bind_Ok _ _ _ _ _ Hu). cbv zeta. set (s1 := mkOutbox _ _ n _ _ _).
  fold (new_row i id tid t a). set (r := new_row i id tid t a).
  assert (in_idempotency_key i ∉ o_idempotency_key <$> rows s) as Hkey.
  { intros (x & Hk & Hx)%list_elem_of_fmap. rewrite tbl_find_None in Hnone. by apply (Hnone x Hx). }
  assert (insert_row r s1 = if decide (id ∈ outbox_id <$> rows s) then (Raise (IntegrityError "transactional_outbox"), s1)
    else (Ok tt, with_rows (fun l => l ++ [r]) s1)) as Hi.
  { unfold insert_row. rewrite gets_bind. cbn [outbox_id o_idempotency_key new_row r s1 rows].
    rewrite (bool_decide_eq_false_2 _ Hkey), orb_false_r. case_decide as Hd.
    - by rewrite bool_decide_eq_true_2.
    - by rewrite bool_decide_eq_false_2. }
  case_decide as Hd; [by unfold mbind, M_bind; rewrite Hi|]. rewrite (bind_Ok _ _ _ _ _ Hi). set (s2 := with_rows _ s1) in *.
  destruct (insert_ok r s1) as [Hs2 _]; [apply new_row_ok|done|done|done|by apply others_ok|].
  destruct (row_to_record_ok s2 r (new_row_ok _ _ _ _ _ _)) as (rec & Hrec & Hrow). exists rec. split; [|done].
  assert (get id s2 = (Ok (Some rec), s2)) as Hget.
  { unfold get. rewrite gets_bind. change id with (outbox_id r). rewrite tbl_find_elem; [|apply Hs2|cbn; set_solver].
    unfold record_of. by rewrite Hrec. }
  by rewrite (bind_Ok _ _ _ _ _ Hget).
Qed.

(** What [commit_intent] does in its transaction, once the key is looked up. *)
Lemma commit_known {A} i (m : M D A) tid t r s :
  outbox_ok s -> tbl_find o_idempotency_key (in_idempotency_key i) (rows s) = Some r ->
  let out := commit_intent i m tid (Some (aware t)) s in
  tables out.2 = tables s /\
  if same_intent r i then exists rec, out.1 = Ok (mkCommit rec false) /\ rec_row rec = r
  else out.1 = Raise (OutboxIdempotencyConflict (in_idempotency_key i)).
Proof.
  intros Hs E out. unfold out, commit_intent. rewrite (bind_Ok (_normalize_time (Some (aware t)) None) _ s t s eq_refl).
  destruct (or_uuid_run tid s) as (v & n & Hn & Hu). rewrite (bind_Ok _ _ _ _ _ Hu). set (s1 := mkOutbox _ _ _ _ _ _).
  destruct (others_ok s (db s) n (utc s) (mono s) Hn Hs) as [Hs1 _]. fold s1 in Hs1.
  destruct (existing_found (in_idempotency_key i) r s1 Hs1 E) as (rec & Hg & Hrow & Hsame). unfold tx.
  rewrite (bind_Ok _ _ _ _ _ Hg), Hsame. destruct (same_intent r i); [|done]. split; [done|]. by exists rec.
Qed.
Lemma commit_new {A} i (m : M D A) tid t a s :
  outbox_ok s -> available i t = Some a -> tbl_find o_idempotency_key (in_idempotency_key i) (rows s) = None ->
  let out := commit_intent i m tid (Some (aware t)) s in
  match m (db s) with
  | (Raise e, _) => out.1 = Raise e /\ tables out.2 = tables s
  | (Ok _, d) => exists id tid',
      if decide (id ∈ outbox_id <$> rows s)
      then out.1 = Raise (IntegrityError "transactional_outbox") /\ tables out.2 = tables s
      else exists rec, out.1 = Ok (mkCommit rec true) /\ rec_row rec = new_row i id tid' t a /\
             tables out.2 = (rows s ++ [rec_row rec], d)
  end.
Proof.
  intros Hs Ha E out. unfold out, commit_intent. rewrite (bind_Ok (_normalize_time (Some (aware t)) None) _ s t s eq_refl).
  destruct (or_uuid_run tid s) as (v & n & Hn & Hu). rewrite (bind_Ok _ _ _ _ _ Hu). set (s1 := mkOutbox _ _ _ _ _ _).
  assert (_get_by_idempotency_key_tx (in_idempotency_key i) s1 = (Ok None, s1)) as Hg.
  { unfold _get_by_idempotency_key_tx. rewrite gets_bind. cbn [rows s1]. by rewrite E. }
  unfold tx. rewrite (bind_Ok _ _ _ _ _ Hg).
  assert (on_tables m s1 = ((m (db s)).1, mkOutbox (rows s) (m (db s)).2 n (utc s) (mono s) (published s))) as Hm.
  { unfold on_tables. cbn [db s1]. by destruct (m (db s)). }
  destruct (m (db s)) as [[x|e] d]; cbn [fst snd] in Hm; [|by unfold mbind, M_bind; rewrite Hm].
  rewrite (bind_Ok _ _ _ _ _ Hm). set (s2 := mkOutbox _ d _ _ _ _) in *.
  destruct (others_ok s d n (utc s) (mono s) Hn Hs) as [Hs2 _]. fold s2 in Hs2.
  destruct (enqueue_new i v t a s2 Hs2 Ha E) as (id & n' & _ & Henq). cbn [rows db utc mono published s2] in Henq. exists id, v.
  case_decide as Hd.
  - unfold mbind, M_bind. by rewrite Henq.
  - destruct Henq as (rec & Henq & Hrow). rewrite (bind_Ok _ _ _ _ _ Henq). exists rec. by rewrite Hrow.
Qed.

(** ** Draining *)

(** A publisher that succeeds within the time of a claim, while nobody else uses
    the table. *)
Definition prompt (publish : delivery -> M (Outbox D) json) (ttl : Z) : Prop :=
  forall d s, exists j dd n u m, publish d s = (Ok j, mkOutbox (rows s) dd n u m (published s)) /\
    (drawn s <= n)%N /\ (mono s <= m < mono s + ttl)%Z.

(** One delivery: the row [r] becomes DELIVERED, the others stay. *)
Record delivered_row (r : outbox_row) (rec : OutboxRecord) (s s' : Outbox D) : Prop := {
  dr_rows : exists f, (forall x, intent_part (f x) = intent_part x /\ o_status (f x) = OutboxStatus.DELIVERED) /\
    rows s' = (fun x => if decide (outbox_id x = outbox_id r) then f x else x) <$> rows s;
  dr_record : intent_part (rec_row rec) = intent_part r;
  dr_published : published s' = published s ++ [delivery_of rec] }.

Section Drain.
Context (publish : delivery -> M (Outbox D) json) (worker : string) (ttl delay : Z) (maxa : option Z).
Context (Hprompt : prompt publish ttl) (Hworker : String.eqb (strip worker) "" = false) (Httl : (0 < ttl)%Z)
  (Hdelay : (delay <? 0)%Z = false) (Hmax : match maxa with Some m => (m <? 1)%Z | None => false end = false).

Definition acked_row (j : json) (now : Z) (x : outbox_row) : outbox_row :=
  with_delivery_columns x OutboxStatus.DELIVERED (o_attempts x) (o_available_at x) None None None None
    None (match j with JNull => None | v => Some (dumps v) end) (Some now).
Lemma ack_holds r tok j now s :
  NoDup (outbox_id <$> rows s) -> r ∈ rows s -> holds_claim (outbox_id r) tok now r = true ->
  ack (outbox_id r) tok j (Some (aware now)) s = (Ok true, upd (holds_claim (outbox_id r) tok now) (acked_row j now) s).
Proof.
  intros Hn Hr Hh. unfold ack. rewrite (bind_Ok (_normalize_time (Some (aware now)) None) _ s now s eq_refl).
  unfold tx. rewrite (bind_Ok _ _ _ _ _ (update_where_run _ _ s)).
  assert (filter (fun x => holds_claim (outbox_id r) tok now x = true) (rows s) = [r]) as ->; [|done].
  rewrite <- (filter_one (rows s) r (fun x => holds_claim (outbox_id r) tok now x) Hn Hr Hh).
  apply list_filter_iff. intros x. unfold holds_claim. by destruct (String.eqb (outbox_id x) (outbox_id r)).
Qed.
Lemma once_prompt t s :
  outbox_ok s ->
  match first_claimable t s with
  | None => dispatch_once publish worker (Some (aware t)) ttl delay maxa s = (Ok (mkDispatchResult None false None), drew s)
  | Some r => exists rec s', dispatch_once publish worker (Some (aware t)) ttl delay maxa s =
        (Ok (mkDispatchResult (Some rec) true None), s') /\ delivered_row r rec s s'
  end.
Proof.
  intros Hs. unfold dispatch_once. rewrite Hdelay, Hmax.
  rewrite (bind_Ok (raise_if false _) _ s tt s eq_refl), (bind_Ok (raise_if false _) _ s tt s eq_refl).
  rewrite (bind_Ok (_normalize_time (Some (aware t)) None) _ s t s eq_refl), gets_bind.
  pose proof (claim_next_run worker t ttl s Hs Hworker Httl) as Hrun.
  destruct (first_claimable t s) as [r|] eqn:Ef; [|by rewrite (bind_Ok _ _ _ _ _ Hrun)].
  destruct Hrun as (rec & Ec & Hrow & Hrec). rewrite (bind_Ok _ _ _ _ _ Ec), Hrow. cbn [claimed o_claim_token with_delivery_columns].
  destruct (first_claimable_spec t s r Ef) as (Hr & Hc & _).
  set (s1 := mkOutbox (rows (took worker t ttl r s)) (db s) (N.succ (drawn s)) (utc s) (mono s) (published s ++ [delivery_of rec])).
  destruct (Hprompt (delivery_of rec) s1) as (j & dd & n & u & m & Ep & Hn & Hm). set (s2 := mkOutbox _ dd _ _ _ _) in Ep.
  assert (attempt (publish_call publish (delivery_of rec)) (took worker t ttl r s) = (Ok (Ok j), s2)) as Ea.
  { unfold attempt, publish_call, modify, mbind, M_bind. change (mkOutbox _ _ _ _ _ _) with s1 at 1. by rewrite Ep. }
  rewrite (bind_Ok _ _ _ _ _ Ea). unfold settle_delivery, elapsed_since.
  set (completion := (t + Z.max 0 (m - mono s))%Z).
  assert (completion < t + ttl)%Z as Hlt by (unfold completion; cbn in Hm; lia).
  set (tok := uuid4 (drawn s)). set (hold := holds_claim (outbox_id r) tok completion).
  set (r' := claimed worker tok t (t + ttl) r).
  assert (rows s2 = (fun x => if String.eqb (outbox_id x) (outbox_id r) && claimable t x then claimed worker tok t (t + ttl) x else x)
            <$> rows s) as Hrows2 by done.
  destruct (took_ok worker t ttl r s Hs) as [Hst _].
  assert (r' ∈ rows s2) as Hr'.
  { rewrite Hrows2. apply list_elem_of_fmap. exists r. by rewrite String.eqb_refl, Hc. }
  assert (hold r' = true) as Hh.
  { unfold hold, holds_claim. cbn. rewrite String.eqb_refl, !bool_decide_eq_true_2 by done. by apply Z.ltb_lt. }
  pose proof (ack_holds r' tok j completion s2 (ob_ids _ Hst) Hr' Hh) as Hack.
  exists rec, (upd hold (acked_row j completion) s2). split.
  - rewrite Hrow. cbn [outbox_id claimed with_delivery_columns]. rewrite bind_assoc, gets_bind.
    rewrite (bind_Ok (mret _) _ s2 completion s2 eq_refl). change (outbox_id r) with (outbox_id r'). rewrite (bind_Ok _ _ _ _ _ Hack).
    done.
  - split; [|by rewrite Hrow|done].
    exists (fun x => acked_row j completion (claimed worker tok t (t + ttl) x)). split; [done|].
    change (rows (upd hold (acked_row j completion) s2)) with ((fun x => if hold x then acked_row j completion x else x) <$> rows s2).
    rewrite Hrows2, <- list_fmap_compose. apply list_fmap_ext. intros k x Hx. cbn.
    apply list_elem_of_lookup_2 in Hx. case_decide as Hid.
    + assert (x = r) as -> by (by apply (NoDup_key_inj outbox_id (rows s)); [apply Hs|..]).
      rewrite String.eqb_refl, Hc. cbn. by fold r'; rewrite Hh.
    + rewrite (proj2 (String.eqb_neq _ _) Hid). cbn. unfold hold, holds_claim. by rewrite (proj2 (String.eqb_neq _ _) Hid).
Qed.

(** The rows that can still be delivered. *)
Definition undelivered (s : Outbox D) : list outbox_row :=
  filter (fun r => o_status r ∈ [OutboxStatus.PENDING; OutboxStatus.IN_FLIGHT]) (rows s).
Lemma claimable_undelivered t r s : r ∈ rows s -> claimable t r = true -> r ∈ undelivered s.
Proof.
  intros Hr Hc. apply list_elem_of_filter. split; [|done]. unfold claimable in Hc. destruct (o_status r); try done; set_solver.
Qed.
Lemma claimable_later t t' r : (t <= t')%Z -> claimable t r = true -> claimable t' r = true.
Proof.
  intros Hle. unfold claimable. destruct (o_status r); try done; [|destruct (o_claim_expires_at r); [|done]];
    rewrite !Z.leb_le; lia.
Qed.
Lemma delivered_fewer r rec s s' :
  outbox_ok s -> r ∈ undelivered s -> delivered_row r rec s s' -> length (undelivered s') < length (undelivered s).
Proof.
  intros Hs [Hst Hr]%list_elem_of_filter [(f & Hf & Hrows) _ _]. unfold undelivered. rewrite Hrows. clear Hrows.
  pose proof (ob_ids _ Hs) as Hn. revert Hn Hr. generalize (rows s). intros l Hn Hr.
  assert (forall l' : list outbox_row, outbox_id r ∉ outbox_id <$> l' -> (fun x => if decide (outbox_id x = outbox_id r) then f x else x) <$> l' = l') as Hid.
  { intros l' Hni. rewrite <- (list_fmap_id l') at 2. apply list_fmap_ext. intros i x Hx. rewrite decide_False; [done|].
    intros E. apply Hni. rewrite <- E. apply list_elem_of_fmap_2. by eapply list_elem_of_lookup_2. }
  apply list_elem_of_split in Hr as (l1 & l2 & ->). rewrite fmap_app, fmap_cons in Hn.
  apply NoDup_app in Hn as (_ & Hd & Hn2). apply NoDup_cons in Hn2 as [Hn2 _].
  rewrite fmap_app, fmap_cons, !Hid; [|done|intros Hin; by apply (Hd _ Hin); left].
  rewrite decide_True by done. rewrite !filter_app, filter_cons_False, filter_cons_True, !length_app; [cbn; lia|done|].
  rewrite (proj2 (Hf r)). set_solver.
Qed.
Lemma prompt_well_behaved : well_behaved publish.
Proof.
  intros d s. destruct (Hprompt d s) as (j & dd & n & u & m & -> & Hn & _). apply rtc_once. by apply step_others.
Qed.

Record drained (t : Z) (s : Outbox D) (rs : list DispatchResult) (t' : Z) (s' : Outbox D) : Prop := {
  dn_ok : outbox_ok s';
  dn_none r : r ∈ rows s' -> claimable t' r = false;
  dn_time : (t <= t')%Z;
  dn_delivered : Forall (fun r => delivered r = true) rs;
  dn_rows x : x ∈ rows s -> exists x', x' ∈ rows s' /\ intent_part x' = intent_part x /\
    (x' = x \/ o_status x' = OutboxStatus.DELIVERED);
  dn_published : published s' = published s ++ (delivery_of <$> omap ds_record rs);
  dn_once : NoDup ((fun rec => outbox_id (rec_row rec)) <$> omap ds_record rs);
  dn_from rec : rec ∈ omap ds_record rs ->
    exists x, x ∈ rows s /\ outbox_id x = outbox_id (rec_row rec) /\ o_status x <> OutboxStatus.DELIVERED }.

Lemma drained_nothing t t' s : (t <= t')%Z -> outbox_ok s -> (forall r, r ∈ rows s -> claimable t' r = false) -> drained t s [] t' s.
Proof.
  intros Hle Hs Hn. split; [done|done|done|constructor| |by rewrite app_nil_r|constructor|set_solver].
  intros x Hx. exists x. auto.
Qed.
Lemma drained_one r rec t t1 s s1 rs t' s' :
  outbox_ok s -> outbox_ok s1 -> r ∈ undelivered s -> delivered_row r rec s s1 -> (t <= t1)%Z ->
  drained t1 s1 rs t' s' -> drained t s (mkDispatchResult (Some rec) true None :: rs) t' s'.
Proof.
  intros Hs Hs1 [Hst Hr]%list_elem_of_filter [(f & Hf & Hrows) Hrec Hpub] Hle [A B C E F G I J].
  assert (outbox_id (rec_row rec) = outbox_id r) as Hid by (by injection Hrec).
  assert (o_status r <> OutboxStatus.DELIVERED) as Hnd by (intros Hd; rewrite Hd in Hst; set_solver).
  assert (f r ∈ rows s1) as Hfr by (rewrite Hrows; apply list_elem_of_fmap; exists r; by rewrite decide_True).
  split; [done|done|lia|by constructor|..].
  - intros x Hx. destruct (F (if decide (outbox_id x = outbox_id r) then f x else x)) as (x' & Hx' & Hi & Ho).
    { rewrite Hrows. apply list_elem_of_fmap. by exists x. }
    exists x'. split; [done|]. case_decide; [|done]. rewrite (proj1 (Hf x)) in Hi. split; [done|]. right.
    destruct Ho as [->|]; [apply Hf|done].
  - rewrite G, Hpub. cbn. by rewrite <- app_assoc.
  - cbn. constructor; [|done]. rewrite Hid. intros (rec' & Hid' & Hin)%list_elem_of_fmap.
    destruct (J rec' Hin) as (x & Hx & Hxid & Hxd). apply Hxd.
    assert (x = f r) as ->; [|apply Hf]. apply (NoDup_key_inj outbox_id (rows s1)); [apply Hs1|done|done|].
    assert (outbox_id (f r) = outbox_id r) as -> by (pose proof (proj1 (Hf r)) as Hfi; by injection Hfi). congruence.
  - cbn. intros rec' [->|Hin]%elem_of_cons; [by exists r|]. destruct (J rec' Hin) as (x & Hx & Hxid & Hxd).
    rewrite Hrows in Hx. apply list_elem_of_fmap in Hx as (x0 & -> & Hx0). exists x0. case_decide; [|done].
    by destruct Hxd; apply Hf.
Qed.

Lemma drain_prompt n : forall acc t ids s,
  outbox_ok s -> length (undelivered s) <= n ->
  exists rs t' s', drain publish worker ttl delay maxa n acc t ids s = (Ok (acc ++ rs, t', ids), s') /\ drained t s rs t' s'.
Proof.
  induction n as [|n IH]; intros acc t ids s Hs Hlen; cbn [drain].
  - exists [], t, s. rewrite app_nil_r. split; [done|]. apply drained_nothing; [lia|done|]. intros r Hr.
    destruct (claimable t r) eqn:E; [|done]. pose proof (claimable_undelivered t r s Hr E) as Hin.
    destruct (undelivered s); [set_solver|cbn in Hlen; lia].
  - rewrite gets_bind. pose proof (once_prompt t s Hs) as Honce.
    pose proof (dispatch_once_ok publish prompt_well_behaved worker (Some (aware t)) ttl delay maxa s Hs) as [Hs1 _].
    destruct (first_claimable t s) as [r|] eqn:Ef.
    + destruct Honce as (rec & s1 & E & Hdr). rewrite E in Hs1. cbn in Hs1. rewrite (bind_Ok _ _ _ _ _ E).
      destruct (first_claimable_spec t s r Ef) as (Hr & Hc & _). pose proof (claimable_undelivered t r s Hr Hc) as Hu.
      unfold elapsed_since. rewrite bind_assoc, gets_bind. set (t1 := (t + Z.max 0 (mono s1 - mono s))%Z).
      rewrite (bind_Ok (mret t1) _ s1 t1 s1 eq_refl). cbn [ds_record].
      assert (exists cur, get (outbox_id (rec_row rec)) s1 = (Ok cur, s1)) as (cur & Hget).
      { unfold get. rewrite gets_bind. destruct (tbl_find _ _ _) as [x|] eqn:Et; [|by eexists].
        apply tbl_find_Some in Et as [_ Hx]. destruct (row_to_record_ok s1 x (ob_rows _ Hs1 x Hx)) as (rx & Hrx & _).
        unfold record_of. rewrite Hrx. by eexists. }
      rewrite (bind_Ok _ _ _ _ _ Hget).
      assert (retryable (mkDispatchResult (Some rec) true None) cur t1 = None) as -> by (by destruct cur).
      destruct (IH (acc ++ [mkDispatchResult (Some rec) true None]) t1 ids s1 Hs1) as (rs & t' & s' & Ed & Hd).
      { pose proof (delivered_fewer r rec s s1 Hs Hu Hdr). lia. }
      rewrite Ed. exists (mkDispatchResult (Some rec) true None :: rs), t', s'. rewrite <- app_assoc. split; [done|].
      eapply drained_one; [done|exact Hs1|done|done| |done]. unfold t1. lia.
    + rewrite Honce in Hs1. cbn [snd] in Hs1. rewrite (bind_Ok _ _ _ _ _ Honce). unfold elapsed_since. rewrite bind_assoc, gets_bind.
      set (t1 := (t + Z.max 0 (mono (drew s) - mono s))%Z). rewrite (bind_Ok (mret t1) _ _ t1 _ eq_refl). cbn [ds_record].
      exists [], t1, (drew s). rewrite app_nil_r. split; [done|].
      assert (t1 = t) as -> by (unfold t1; cbn; lia).
      assert (drained t (drew s) [] t (drew s)) as [A B C E F G I J].
      { apply drained_nothing; [lia|done|]. by apply first_claimable_None. }
      by split.
Qed.
End Drain.
End Props.

(** C7: the outbox keeps what was committed, and every delivery of it is the
    same.  In every state reached from an empty table by clients, workers and
    drains, with other workers acting while a publisher is awaited, a row that was
    there is still there with the same intent, unchanged once it is DELIVERED; no
    two rows have the same key; and all deliveries made with one idempotency key
    have the same destination, payload and headers, those of the row with that
    key, so that a destination that ignores repeated keys applies each intent
    once. *)
Theorem outbox_deliveries_agree {D} `{UuidSource, PayloadDigest, ExcText} (publish : delivery -> M (Outbox D) json) d now s1 s2 :
  well_behaved publish ->
  rtc (service_step publish) (empty_outbox d now) s1 -> rtc (service_step publish) s1 s2 ->
  (forall r, r ∈ rows s1 -> exists r', r' ∈ rows s2 /\ row_le r r') /\
  NoDup (o_idempotency_key <$> rows s2) /\
  published s1 `prefix_of` published s2 /\
  (forall d1 d2, d1 ∈ published s2 -> d2 ∈ published s2 -> d_idempotency_key d1 = d_idempotency_key d2 -> d1 = d2) /\
  (forall d1, d1 ∈ published s2 -> exists r, r ∈ rows s2 /\ o_idempotency_key r = d_idempotency_key d1 /\ delivery_row r d1).
Proof.
  intros Hp Hr1 Hr2. destruct (service_run_ok publish Hp _ _ Hr1 (empty_ok d now)) as [Hs1 _].
  destruct (service_run_ok publish Hp _ _ Hr2 Hs1) as [Hs2 [He _ Hpre _]].
  split_and!; [done|apply Hs2|done|intros d1 d2; by apply deliveries_agree|].
  intros d1 Hd1. destruct (ob_published _ Hs2 d1 Hd1) as (r & Hr & Hdr). exists r. split_and!; [done| |done].
  destruct Hdr as (rec & E & ->). cbn. by rewrite (record_row _ _ E).
Qed.

(** Acknowledgements are fenced.  When a second worker has claimed a row after
    a first one, whatever happened between and after, [ack] and [nack] with the
    token of the first return False and change nothing. *)
Theorem stale_claim_fenced {D} `{UuidSource, PayloadDigest, ExcText} (publish : delivery -> M (Outbox D) json)
    d now0 w1 t1 ttl1 w2 t2 ttl2 rec1 rec2 tok s s1 s2 s3 s4 t res err retry terminal :
  well_behaved publish ->
  rtc (service_step publish) (empty_outbox d now0) s ->
  claim_next w1 (Some (aware t1)) ttl1 s = (Ok (Some rec1), s1) -> o_claim_token (rec_row rec1) = Some tok ->
  rtc (service_step publish) s1 s2 ->
  claim_next w2 (Some (aware t2)) ttl2 s2 = (Ok (Some rec2), s3) ->
  outbox_id (rec_row rec2) = outbox_id (rec_row rec1) ->
  rtc (service_step publish) s3 s4 ->
  ack (outbox_id (rec_row rec1)) tok res (Some (aware t)) s4 = (Ok false, s4) /\
  nack (outbox_id (rec_row rec1)) tok err (Some (aware retry)) terminal (Some (aware t)) s4 = (Ok false, s4).
Proof.
  intros Hp Hr0 E1 Htok Hr1 E2 Hid Hr3.
  destruct (service_run_ok publish Hp _ _ Hr0 (empty_ok d now0)) as [Hs _].
  destruct (claim_next_ok w1 (Some (aware t1)) ttl1 s Hs) as [Hs1 _]. rewrite E1 in Hs1.
  destruct (service_run_ok publish Hp _ _ Hr1 Hs1) as [Hs2 [_ _ _ Hd]].
  destruct (claim_next_ok w2 (Some (aware t2)) ttl2 s2 Hs2) as [Hs3 _]. rewrite E2 in Hs3.
  destruct (claim_token_drawn w1 t1 ttl1 rec1 s s1 Hs E1) as (n & Hn & Hlt).
  assert (stale (outbox_id (rec_row rec1)) tok s3) as Hst.
  { rewrite <- Hid. apply (claim_makes_stale w2 t2 ttl2 rec2 tok s2); [done|done|]. exists n. split; [cbn in *; lia|congruence]. }
  apply (stale_kept _ _ _ s4) in Hst; [|by apply (service_run_ok publish Hp)|done].
  split; [by apply ack_stale|by apply nack_stale].
Qed.

(** A commit is atomic and happens once per key.  With a new key, the change
    and the row are both committed or, when the change raises or the id is taken,
    neither is; with a known key nothing is changed, and the stored record is
    returned when the intent is the same and the commit refused when it is not.
    After a commit, at any later time, committing the intent again does not run
    the change again. *)
Theorem commit_intent_exact {D A B} `{UuidSource, PayloadDigest, ExcText} i (m : M D A) tid t a (s : Outbox D) :
  outbox_ok s -> available i t = Some a ->
  let out := commit_intent i m tid (Some (aware t)) s in
  match tbl_find o_idempotency_key (in_idempotency_key i) (rows s) with
  | Some r =>
      tables out.2 = tables s /\
      if same_intent r i then exists rec, out.1 = Ok (mkCommit rec false) /\ rec_row rec = r
      else out.1 = Raise (OutboxIdempotencyConflict (in_idempotency_key i))
  | None =>
      match m (db s) with
      | (Raise e, _) => out.1 = Raise e /\ tables out.2 = tables s
      | (Ok _, d) => exists id tid',
          if decide (id ∈ outbox_id <$> rows s)
          then out.1 = Raise (IntegrityError "transactional_outbox") /\ tables out.2 = tables s
          else exists rec, out.1 = Ok (mkCommit rec true) /\ rec_row rec = new_row i id tid' t a /\
                 tables out.2 = (rows s ++ [rec_row rec], d)
      end
  end /\
  forall rec, out.1 = Ok (mkCommit rec true) ->
  forall s' (m' : M D B) tid' t', rtc outbox_step out.2 s' ->
    let out' := commit_intent i m' tid' (Some (aware t')) s' in
    (exists rec', out'.1 = Ok (mkCommit rec' false)) /\ tables out'.2 = tables s'.
Proof.
  intros Hs Ha out. split.
  - destruct (tbl_find _ _ _) as [r|] eqn:E; [by apply commit_known|by apply commit_new].
  - intros rec Hrec s' m' tid' t' Hrun out'.
    assert (exists id tid0, rec_row rec = new_row i id tid0 t a /\ rec_row rec ∈ rows out.2) as (id & tid0 & Hrow & Hin).
    { destruct (tbl_find o_idempotency_key (in_idempotency_key i) (rows s)) as [r|] eqn:E.
      - destruct (commit_known i m tid t r s Hs E) as [_ Hc]. fold out in Hc. destruct (same_intent r i); [|congruence].
        destruct Hc as (rec' & Hc & _). congruence.
      - pose proof (commit_new i m tid t a s Hs Ha E) as Hc. fold out in Hc. destruct (m (db s)) as [[x|e] d]; [|destruct Hc; congruence].
        destruct Hc as (id & tid0 & Hc). case_decide; [destruct Hc; congruence|]. destruct Hc as (rec' & Hc & Hrow & Ht).
        exists id, tid0. assert (rec' = rec) as -> by congruence. split; [done|]. injection Ht as -> _. set_solver. }
    destruct (commit_intent_ok i m tid (Some (aware t)) s Hs) as [Hso _].
    destruct (outbox_run_ok _ _ Hrun Hso) as [Hs' [He _ _ _]]. destruct (He _ Hin) as (r' & Hr' & Hle & _).
    rewrite Hrow in Hle.
    assert (tbl_find o_idempotency_key (in_idempotency_key i) (rows s') = Some r') as Hf.
    { assert (o_idempotency_key r' = in_idempotency_key i) as <- by (by injection Hle). apply tbl_find_elem; [apply Hs'|done]. }
    destruct (commit_known i m' tid' t' r' s' Hs' Hf) as [Ht Hc]. rewrite (same_intent_new _ _ _ _ _ _ Hle) in Hc.
    destruct Hc as (rec' & Hc & _). split; [by exists rec'|done].
Qed.

(** A drain delivers what is due.  With a publisher that succeeds within the
    time of a claim, and room for the undelivered rows, [dispatch_ready] returns;
    every row that was due is DELIVERED, every attempt succeeded, each row was
    published at most once, and rows not due are untouched or DELIVERED. *)
Theorem drain_delivers {D} `{UuidSource, PayloadDigest, ExcText} (publish : delivery -> M (Outbox D) json)
    worker limit t ttl delay maxa s :
  outbox_ok s -> prompt publish ttl -> strip worker <> "" -> (0 < ttl)%Z -> (0 <= delay)%Z ->
  match maxa with Some m => (1 <= m)%Z | None => True end ->
  (Z.of_nat (length (undelivered s)) <= limit)%Z ->
  exists results s', dispatch_ready publish worker limit (Some (aware t)) ttl delay maxa s = (Ok results, s') /\
    Forall (fun r => delivered r = true) results /\
    published s' = published s ++ (delivery_of <$> omap ds_record results) /\
    NoDup ((fun rec => outbox_id (rec_row rec)) <$> omap ds_record results) /\
    (forall r, r ∈ rows s -> exists r', r' ∈ rows s' /\ intent_part r' = intent_part r /\
       (r' = r \/ o_status r' = OutboxStatus.DELIVERED) /\
       (claimable t r = true -> o_status r' = OutboxStatus.DELIVERED)).
Proof.
  intros Hs Hp Hw Ht Hd Hm Hl. unfold dispatch_ready. rewrite (proj2 (Z.ltb_ge limit 0)) by lia.
  rewrite (bind_Ok (raise_if false _) _ s tt s eq_refl), (bind_Ok (_normalize_time (Some (aware t)) None) _ s t s eq_refl).
  destruct (drain_prompt publish worker ttl delay maxa Hp) with (n := Z.to_nat limit) (acc := @nil DispatchResult)
    (t := t) (ids := @nil string) (s := s) as (rs & t' & s' & E & [A B C F G I J K]).
  - by apply String.eqb_neq.
  - done.
  - by apply Z.ltb_ge.
  - destruct maxa; [by apply Z.ltb_ge|done].
  - done.
  - lia.
  - rewrite (bind_Ok _ _ _ _ _ E). exists rs, s'. split; [done|]. split_and!; [done..|].
    intros r Hr. destruct (G r Hr) as (r' & Hr' & Hi & Ho). exists r'. split_and!; [done..|]. intros Hc.
    destruct Ho as [->|]; [|done]. pose proof (B r Hr') as Hf. rewrite (claimable_later t t' r C Hc) in Hf. done.
Qed.

(** ** A concrete outbox *)

Module OutboxDemo.
#[export] Instance uuids : UuidSource := pretty_uuid.
#[export] Instance digest : PayloadDigest := fun j => if decide (j = JObj []) then "h0" else "h1".
#[export] Instance texts : ExcText := {| exc_str := fun _ => "error"; exc_name := fun _ => "Error" |}.
Definition intent (key : string) : OutboxIntent :=
  mkIntent "queue" [("b", JInt 1); ("a", JInt 2)] key [] None None None None None None.
(** The internal change counts. *)
Definition count : M nat unit := modify S.
Definition committed : Outbox nat := (commit_intent (intent "k") count None (Some (aware 0)) (empty_outbox 0 0)).2.
(** The publisher takes three microseconds. *)
Definition publisher (d : delivery) : M (Outbox nat) json := fun s =>
  (Ok JNull, mkOutbox (rows s) (db s) (drawn s) (utc s) (mono s + 3) (published s)).
Definition sent : Outbox nat := (dispatch_once publisher "w" (Some (aware 0)) 30 1 None committed).2.

Lemma publisher_prompt : prompt publisher 30.
Proof. intros d s. exists JNull, (db s), (drawn s), (utc s), (mono s + 3)%Z. split; [done|]. split; lia. Qed.
Lemma publisher_ok : well_behaved publisher.
Proof. apply (prompt_well_behaved publisher 30). apply publisher_prompt. Qed.
Lemma committed_reached : rtc (service_step publisher) (empty_outbox 0 0) committed.
Proof. apply rtc_once, service_outbox, step_commit. Qed.
Lemma committed_ok : outbox_ok committed.
Proof. apply (commit_intent_ok (intent "k") count None (Some (aware 0))), empty_ok. Qed.

Example sent_rows : ((fun r => (o_status r, o_attempts r)) <$> rows sent, db sent, published sent) =
  ([(OutboxStatus.DELIVERED, 1%Z)], 1, [mkDelivery "queue" [("a", JInt 2); ("b", JInt 1)] "k" []]).
Proof. vm_compute. reflexivity. Qed.

(** Two claims of the one row, the second after the first has expired. *)
Definition claim1 := claim_next "w1" (Some (aware 0)) 10 committed.
Definition claim2 := claim_next "w2" (Some (aware 20)) 10 claim1.2.

(** A row whose payload does not match its hash is never handed out, and the rows
    behind it are not either: the claim raises and is rolled back every time. *)
Definition corrupted : Outbox nat :=
  with_rows (fmap (fun r => mkOutboxRow (outbox_id r) (o_idempotency_key r) (o_destination r) (JObj [])
    (o_payload_hash r) (o_headers_json r) (o_aggregate_type r) (o_aggregate_id r) (o_causation_id r)
    (o_correlation_id r) (o_transaction_id r) (o_status r) (o_attempts r) (o_available_at r) (o_claimed_by r)
    (o_claim_token r) (o_claimed_at r) (o_claim_expires_at r) (o_last_error_json r) (o_delivery_result_json r)
    (o_created_at r) (o_delivered_at r))) committed.
Definition behind_corrupted : Outbox nat := (enqueue (intent "k2") None (Some (aware 5)) corrupted).2.
Lemma corrupted_row_blocks_queue :
  length (rows behind_corrupted) = 2 /\
  (claim_next "w" (Some (aware 100)) 10 behind_corrupted).1 = Raise (OutboxIntegrityError "outbox payload hash mismatch") /\
  rows (claim_next "w" (Some (aware 100)) 10 behind_corrupted).2 = rows behind_corrupted.
Proof. split_and!; vm_compute; reflexivity. Qed.
End OutboxDemo.
Import OutboxDemo.

Lemma outbox_deliveries_agree_witness :
  published sent <> [] /\
  forall r, r ∈ rows committed -> exists r', r' ∈ rows sent /\ row_le r r'.
Proof.
  split; [vm_compute; done|].
  apply (outbox_deliveries_agree
    publisher 0 0 committed sent publisher_ok committed_reached).
  apply rtc_once, service_dispatch.
Defined.

Lemma stale_claim_fenced_witness :
  exists tok, ack "uuid-1" tok JNull (Some (aware 25)) claim2.2 = (Ok false, claim2.2).
Proof.
  assert (exists r1 s1 r2 s2, claim1 = (Ok (Some r1), s1) /\ claim2 = (Ok (Some r2), s2) /\
    outbox_id (rec_row r1) = "uuid-1" /\ outbox_id (rec_row r2) = outbox_id (rec_row r1) /\
    exists tok, o_claim_token (rec_row r1) = Some tok) as (r1 & s1 & r2 & s2 & E1 & E2 & Hi & Hid & tok & Ht).
  { eexists _, _, _, _. split; [vm_compute; reflexivity|]. split; [vm_compute; reflexivity|].
    split; [reflexivity|]. split; [reflexivity|]. by eexists. }
  exists tok. unfold claim1 in E1. unfold claim2, claim1 in E2 |- *. rewrite E1 in E2. cbn [snd] in E2.
  rewrite E1. cbn [snd]. rewrite E2. cbn [snd]. rewrite <- Hi.
  refine (proj1 (stale_claim_fenced
    publisher 0 0 "w1" 0 10 "w2" 20 10 r1 r2 tok _ s1 s1 s2 s2 25 JNull (Text "late") 25 false
    publisher_ok committed_reached E1 Ht _ E2 Hid _)); apply rtc_refl.
Defined.

Lemma commit_intent_exact_witness :
  (commit_intent (intent "k") count None (Some (aware 9)) committed).2.(db) = 1.
Proof.
  destruct (commit_intent_exact (B := unit)
    (intent "k") count None 0 0 (empty_outbox 0 0) (empty_ok 0 0) eq_refl) as [_ Hagain].
  destruct (commit_intent (intent "k") count None (Some (aware 0)) (empty_outbox 0 0)).1 as [[rec b]|e] eqn:E;
    [|vm_compute in E; discriminate].
  assert (b = true) as -> by (vm_compute in E; congruence).
  destruct (Hagain rec eq_refl _ count None 9%Z (rtc_refl _ _)) as [_ Ht].
  fold committed in Ht. assert (db committed = 1) as <- by (vm_compute; reflexivity).
  exact (f_equal snd Ht).
Defined.

Lemma drain_delivers_witness :
  exists results s', dispatch_ready publisher "w" 5 (Some (aware 0)) 30 1 None committed = (Ok results, s') /\
    Forall (fun r => delivered r = true) results.
Proof.
  assert (Z.of_nat (length (undelivered committed)) <= 5)%Z as Hl by (vm_compute; done).
  destruct (drain_delivers publisher "w" 5 0 30 1 None
    committed committed_ok publisher_prompt) as (results & s' & E & Hd & _); [done|lia|lia|done|done|].
  exists results, s'. done.
Defined.
