(* ===== verification/GraphStore.v ===== *)
(** * The graph store: tables and reads (runtimes/verified_progress/graph_store.py)

    One SQLite database holds, for every graph, its record, the chain of its
    versions, the committed patches and events, a materialized copy of the current
    projection, and the history from which any retained version is read back: a
    header per version and a revision of each entity that changed in it.

    A table is the list of its rows in rowid order.  Timestamps are instants: the
    ISO-8601 texts of the columns are in UTC and sort as the instants do.  Column
    values that are JSON written by [_json_dumps] are JSON values; the text of a node
    is a string, because the store compares and hashes texts.  What pydantic makes of
    a text is an argument ([ModelText]).  [_cached_json] is [_model_to_json]: its table
    is keyed by [id(obj)], and a live object keeps its address.  Every operation starts
    outside a transaction, and integers do not leave the 64 bits of a column. *)

From Stdlib Require Import Ascii.
From S2P Require Import Prelude PyString Storage VpgModels Agents Invalidation Verification Patches PatchValidator Derivation.
Open Scope Z_scope.

(** ** Rows *)

Record GraphRecord : Type := mkGraph {
  gr_graph_id : string;
  gr_owner_pid : string;
  gr_current_version : Z;
  gr_created_at : Z;
  gr_updated_at : Z;
  gr_closed : bool;
  gr_metadata : jobj }.

Record GraphVersion : Type := mkVersion {
  gv_graph_id : string;
  gv_version : Z;
  gv_parent_version : option Z;
  gv_patch_id : string;
  gv_projection_hash : string;
  gv_committed_by_pid : string;
  gv_committed_at : Z }.

(** A row of [graph_patches]; [pt_operations] is the proposal its [operations_json]
    decodes to, [None] when it does not. *)
Record patch_row : Type := mkPatchRow {
  pt_patch_id : string;
  pt_graph_id : string;
  pt_committed_version : Z;
  pt_author_pid : string;
  pt_idempotency_key : string;
  pt_reason : string;
  pt_causation_ids : list string;
  pt_operations : option GraphPatchProposal;
  pt_applied_at : Z }.

(** A [GraphEvent] with its identifier, its time and its payload. *)
Record EventRecord : Type := mkEventRecord {
  evr_event_id : string;
  evr_recorded_at : Z;
  evr_event : GraphEvent;
  evr_payload : jobj }.
(** A row of [graph_events]; [er_columns] carries the other columns, its frontier
    fields are empty. *)
Record event_row : Type := mkEventRow {
  er_event_id : string;
  er_recorded_at : Z;
  er_columns : GraphEvent;
  er_ready_frontier_json : json;
  er_payload_json : jobj }.

Record node_row : Type := mkNodeRow {
  nr_node_id : string;
  nr_graph_id : string;
  nr_node_type : string;
  nr_payload_json : string }.
Record edge_row : Type := mkEdgeRow {
  gr_edge_id : string;
  gr_edge_graph_id : string;
  gr_edge_type : string;
  gr_source_node_id : string;
  gr_target_node_id : string;
  gr_created_in_version : Z;
  gr_created_by_pid : string;
  gr_edge_created_at : Z }.
(** A row of [graph_node_history] or [graph_edge_history]: the row of the entity, at
    a version. *)
Record revision (R : Type) : Type := mkRevision { rv_version : Z; rv_row : R }.
Arguments mkRevision {R} rv_version rv_row.
Arguments rv_version {R} r.
Arguments rv_row {R} r.

Record snapshot_row : Type := mkSnapshot { ss_graph_id : string; ss_version : Z; ss_projection_hash : string }.

Record HistoryRetentionContract : Type := mkRetention {
  hr_graph_id : string;
  earliest_recoverable_version : Z;
  checkpoint_projection_hash : string;
  hr_updated_at : Z;
  hr_updated_by : string;
  hr_reason : string }.
Record HistoryCompactionResult : Type := mkCompaction {
  hc_graph_id : string;
  previous_earliest_version : Z;
  hc_earliest_recoverable_version : Z;
  hc_current_version : Z;
  hc_checkpoint_projection_hash : string;
  deleted_snapshot_headers : nat;
  deleted_node_revisions : nat;
  deleted_edge_revisions : nat }.
(** A row of [graph_history_lifecycle_events]. *)
Record lifecycle_row : Type := mkLifecycle {
  lc_event_id : string;
  lc_graph_id : string;
  lc_operation : string;
  lc_previous_earliest_version : Z;
  lc_earliest_recoverable_version : Z;
  lc_checkpoint_version : Z;
  lc_checkpoint_projection_hash : string;
  lc_actor : string;
  lc_reason : string;
  lc_recorded_at : Z }.

Record idempotency_row : Type := mkIdempotency {
  id_author_pid : string;
  id_graph_id : string;
  id_idempotency_key : string;
  id_patch_id : string;
  id_committed_version : Z;
  id_applied_at : Z }.
Definition id_key (r : idempotency_row) : string * string * string :=
  (id_author_pid r, id_graph_id r, id_idempotency_key r).

Record d3_row : Type := mkD3 {
  d3_record_id : string;
  d3_graph_id : string;
  d3_base_graph_version : Z;
  d3_committed_graph_version : Z;
  d3_result_hash : string;
  d3_payload_json : json;
  d3_recorded_at : Z }.

(** What the commit guards read: rows of [leases_projection], [resource_fencing_tokens]
    and [sdk_artifact_facts].  [le_expires_at] is what [fromisoformat] makes of the
    text, [None] when it raises. *)
Record lease_row : Type := mkLeaseRow {
  le_lease_id : string;
  le_resource_id : string;
  le_owner_pid : string;
  le_mode : string;
  le_fencing_token : Z;
  le_expires_at : option datetime }.
Record fact_row : Type := mkFact {
  fa_artifact_id : string; fa_canonical_uri : string; fa_version : Z; fa_content_hash : string }.

Record LeaseCommitGuard : Type := mkGuard {
  lg_lease_id : string;
  lg_resource_id : string;
  lg_owner_pid : string;
  lg_fencing_token : Z;
  lg_expires_at : datetime }.

(** The database; a table that does not exist is [None]. *)
Record Tables : Type := mkTables {
  graphs : list GraphRecord;
  graph_versions : list GraphVersion;
  graph_patches : list patch_row;
  graph_events : list event_row;
  graph_nodes_projection : list node_row;
  graph_edges_projection : list edge_row;
  graph_projection_snapshots : list snapshot_row;
  graph_node_history : list (revision node_row);
  graph_edge_history : list (revision edge_row);
  graph_history_retention : list HistoryRetentionContract;
  graph_history_lifecycle_events : list lifecycle_row;
  graph_idempotency : list idempotency_row;
  d3_invalidation_results : list d3_row;
  leases_projection : option (list lease_row);
  resource_fencing_tokens : option (list (string * Z));
  sdk_artifact_facts : option (list fact_row) }.

(** What [load_projection_snapshot] returns with [_include_serialized]. *)
Record projection : Type := mkProjection {
  pj_nodes : dict AnyNode;
  pj_edges : list VPGEdge;
  pj_node_json : dict string;
  pj_edge_json : dict string }.
Record _ProjectionCache : Type := mkCache {
  pc_graph_id : string;
  pc_version : Z;
  pc_projection : projection;
  pc_fingerprint : N * N }.
Definition pc_key (c : _ProjectionCache) : string * Z := (pc_graph_id c, pc_version c).

(** One [GraphStore] object over its connection: [total_changes] counts the rows this
    connection has changed, [data_version] moves when another one commits. *)
Record GraphStore : Type := mkStore {
  tables : Tables;
  total_changes : N;
  data_version : N;
  _projection_cache : list _ProjectionCache;
  _read_only : bool;
  wall_clock : Z;
  uuids_drawn : N }.
Abbreviation SM := (M GraphStore).

(** ** Texts *)

(** pydantic's [model_dump_json] and [model_validate_json] of the node and edge
    classes ([None]: it raises), and [json.loads(s)["node_type"]]. *)
Class ModelText := {
  model_dump_json : AnyNode -> string;
  model_validate_json : NodeType.t -> string -> option AnyNode;
  edge_dump_json : VPGEdge -> string;
  edge_validate_json : string -> option VPGEdge;
  loads_node_type : string -> option string }.

(** [s.find(p)], as what follows the first occurrence. *)
Fixpoint after_first (p s : list ascii) : option (list ascii) :=
  match drop_prefix p s with
  | Some rest => Some rest
  | None => match s with [] => None | _ :: s' => after_first p s' end
  end.
(** [s[:s.find(c)]], empty when [c] does not occur *)
Fixpoint upto (c : ascii) (s : list ascii) : option (list ascii) :=
  match s with
  | [] => None
  | a :: s' => if decide (a = c) then Some [] else cons a <$> upto c s'
  end.
Definition quote : ascii := ascii_of_nat 34.
Definition node_type_marker : list ascii := quote :: chars "node_type" ++ [quote; ":"%char; quote].
Definition node_type_of_value (s : string) : option NodeType.t :=
  if String.eqb s "goal" then Some NodeType.GOAL
  else if String.eqb s "task" then Some NodeType.TASK
  else if String.eqb s "artifact_ref" then Some NodeType.ARTIFACT_REF
  else if String.eqb s "verification" then Some NodeType.VERIFICATION
  else if String.eqb s "evidence" then Some NodeType.EVIDENCE
  else None.

(** The type named by a node's text. *)
Definition text_node_type `{ModelText} (s : string) : option string :=
  match after_first node_type_marker (chars s) with
  | Some rest => Some (unchars (default [] (upto quote rest)))
  | None => loads_node_type s
  end.
Definition _node_from_json `{ModelText} (s : string) : result AnyNode :=
  match text_node_type s with
  | None => Raise (ValueError "the text names no node type")
  | Some ntype =>
      match node_type_of_value ntype with
      | None => Raise (ValueError "is not a valid NodeType")
      | Some ty =>
          match model_validate_json ty s with
          | Some n => Ok n
          | None => Raise (ValidationError "the text is not a node")
          end
      end
  end.

Definition _edge_from_row (r : edge_row) : result VPGEdge :=
  ty ← edge_type_of (gr_edge_type r);
  Ok (mkEdge (gr_edge_id r) (gr_edge_graph_id r) ty (gr_source_node_id r) (gr_target_node_id r)
        (gr_created_in_version r) (gr_created_by_pid r) (gr_edge_created_at r)).

(** The columns written for a node and for an edge. *)
Definition row_of_node `{ModelText} (n : AnyNode) : node_row :=
  mkNodeRow (node_id (base n)) (node_graph_id (base n)) (NodeType.value (node_type n)) (model_dump_json n).
Definition row_of_edge (e : VPGEdge) : edge_row :=
  mkEdgeRow (edge_id e) (edge_graph_id e) (EdgeType.value (edge_type e)) (source_node_id e) (target_node_id e)
    (edge_created_in_version e) (edge_created_by_pid e) (edge_created_at e).

Abbreviation nid n := (node_id (base n)).
Abbreviation ngraph n := (node_graph_id (base n)).

(** [compute_projection_hash]; [sn] and [se] are the texts already at hand. *)
Definition hash_entry (id text : string) : string := id +:+ text +:+ "|".
Definition projection_text `{ModelText} (graph_id : string) (version : Z) (nodes : list AnyNode) (edges : list VPGEdge)
    (sn se : option (dict string)) : string :=
  graph_id +:+ "::" +:+ pretty version +:+
  foldr (fun n acc => hash_entry (nid n) (default (model_dump_json n) (sn ≫= dict_get (nid n))) +:+ acc) ""
    (sort_on (fun n => nid n) nodes) +:+
  foldr (fun e acc => hash_entry (edge_id e) (default (edge_dump_json e) (se ≫= dict_get (edge_id e))) +:+ acc) ""
    (sort_on edge_id edges).
Definition compute_projection_hash `{ModelText, Sha256} (graph_id : string) (version : Z) (nodes : list AnyNode)
    (edges : list VPGEdge) (sn se : option (dict string)) : string :=
  sha256_hexdigest (projection_text graph_id version nodes edges sn se).
Definition _empty_projection_hash `{Sha256} (graph_id : string) : string := sha256_hexdigest ("empty:" +:+ graph_id).

(** The object [_json_loads] gives back of what [_json_dumps] wrote. *)
Definition dumps_obj (o : jobj) : jobj := sort_on fst ((fun kv => (kv.1, dumps kv.2)) <$> o).
Definition stored_record (r : GraphRecord) : GraphRecord :=
  mkGraph (gr_graph_id r) (gr_owner_pid r) (gr_current_version r) (gr_created_at r) (gr_updated_at r) (gr_closed r)
    (dumps_obj (gr_metadata r)).

(** ** Statements *)

(** A table of the database: its rows, the change of them, and its name. *)
Record table (R : Type) : Type := mkTable {
  sel : Tables -> list R; upd : (list R -> list R) -> Tables -> Tables; tname : string }.
Arguments mkTable {R} sel upd tname.
Arguments sel {R} t.
Arguments upd {R} t.
Arguments tname {R} t.
Definition GRAPHS : table _ := mkTable graphs (fun f t =>
    mkTables (f (graphs t)) (graph_versions t) (graph_patches t) (graph_events t) (graph_nodes_projection t)
    (graph_edges_projection t) (graph_projection_snapshots t) (graph_node_history t) (graph_edge_history t)
    (graph_history_retention t) (graph_history_lifecycle_events t) (graph_idempotency t)
    (d3_invalidation_results t) (leases_projection t) (resource_fencing_tokens t) (sdk_artifact_facts t)) "graphs".
Definition VERSIONS : table _ := mkTable graph_versions (fun f t =>
    mkTables (graphs t) (f (graph_versions t)) (graph_patches t) (graph_events t) (graph_nodes_projection t)
    (graph_edges_projection t) (graph_projection_snapshots t) (graph_node_history t) (graph_edge_history t)
    (graph_history_retention t) (graph_history_lifecycle_events t) (graph_idempotency t)
    (d3_invalidation_results t) (leases_projection t) (resource_fencing_tokens t) (sdk_artifact_facts t)) "graph_versions".
Definition PATCHES : table _ := mkTable graph_patches (fun f t =>
    mkTables (graphs t) (graph_versions t) (f (graph_patches t)) (graph_events t) (graph_nodes_projection t)
    (graph_edges_projection t) (graph_projection_snapshots t) (graph_node_history t) (graph_edge_history t)
    (graph_history_retention t) (graph_history_lifecycle_events t) (graph_idempotency t)
    (d3_invalidation_results t) (leases_projection t) (resource_fencing_tokens t) (sdk_artifact_facts t)) "graph_patches".
Definition EVENTS : table _ := mkTable graph_events (fun f t =>
    mkTables (graphs t) (graph_versions t) (graph_patches t) (f (graph_events t)) (graph_nodes_projection t)
    (graph_edges_projection t) (graph_projection_snapshots t) (graph_node_history t) (graph_edge_history t)
    (graph_history_retention t) (graph_history_lifecycle_events t) (graph_idempotency t)
    (d3_invalidation_results t) (leases_projection t) (resource_fencing_tokens t) (sdk_artifact_facts t)) "graph_events".
Definition NODES : table _ := mkTable graph_nodes_projection (fun f t =>
    mkTables (graphs t) (graph_versions t) (graph_patches t) (graph_events t) (f (graph_nodes_projection t))
    (graph_edges_projection t) (graph_projection_snapshots t) (graph_node_history t) (graph_edge_history t)
    (graph_history_retention t) (graph_history_lifecycle_events t) (graph_idempotency t)
    (d3_invalidation_results t) (leases_projection t) (resource_fencing_tokens t) (sdk_artifact_facts t)) "graph_nodes_projection".
Definition EDGES : table _ := mkTable graph_edges_projection (fun f t =>
    mkTables (graphs t) (graph_versions t) (graph_patches t) (graph_events t) (graph_nodes_projection t) (f
    (graph_edges_projection t)) (graph_projection_snapshots t) (graph_node_history t) (graph_edge_history t)
    (graph_history_retention t) (graph_history_lifecycle_events t) (graph_idempotency t)
    (d3_invalidation_results t) (leases_projection t) (resource_fencing_tokens t) (sdk_artifact_facts t)) "graph_edges_projection".
Definition SNAPSHOTS : table _ := mkTable graph_projection_snapshots (fun f t =>
    mkTables (graphs t) (graph_versions t) (graph_patches t) (graph_events t) (graph_nodes_projection t)
    (graph_edges_projection t) (f (graph_projection_snapshots t)) (graph_node_history t) (graph_edge_history
    t) (graph_history_retention t) (graph_history_lifecycle_events t) (graph_idempotency t)
    (d3_invalidation_results t) (leases_projection t) (resource_fencing_tokens t) (sdk_artifact_facts t)) "graph_projection_snapshots".
Definition NODE_HISTORY : table _ := mkTable graph_node_history (fun f t =>
    mkTables (graphs t) (graph_versions t) (graph_patches t) (graph_events t) (graph_nodes_projection t)
    (graph_edges_projection t) (graph_projection_snapshots t) (f (graph_node_history t)) (graph_edge_history
    t) (graph_history_retention t) (graph_history_lifecycle_events t) (graph_idempotency t)
    (d3_invalidation_results t) (leases_projection t) (resource_fencing_tokens t) (sdk_artifact_facts t)) "graph_node_history".
Definition EDGE_HISTORY : table _ := mkTable graph_edge_history (fun f t =>
    mkTables (graphs t) (graph_versions t) (graph_patches t) (graph_events t) (graph_nodes_projection t)
    (graph_edges_projection t) (graph_projection_snapshots t) (graph_node_history t) (f (graph_edge_history
    t)) (graph_history_retention t) (graph_history_lifecycle_events t) (graph_idempotency t)
    (d3_invalidation_results t) (leases_projection t) (resource_fencing_tokens t) (sdk_artifact_facts t)) "graph_edge_history".
Definition RETENTION : table _ := mkTable graph_history_retention (fun f t =>
    mkTables (graphs t) (graph_versions t) (graph_patches t) (graph_events t) (graph_nodes_projection t)
    (graph_edges_projection t) (graph_projection_snapshots t) (graph_node_history t) (graph_edge_history t)
    (f (graph_history_retention t)) (graph_history_lifecycle_events t) (graph_idempotency t)
    (d3_invalidation_results t) (leases_projection t) (resource_fencing_tokens t) (sdk_artifact_facts t)) "graph_history_retention".
Definition LIFECYCLE : table _ := mkTable graph_history_lifecycle_events (fun f t =>
    mkTables (graphs t) (graph_versions t) (graph_patches t) (graph_events t) (graph_nodes_projection t)
    (graph_edges_projection t) (graph_projection_snapshots t) (graph_node_history t) (graph_edge_history t)
    (graph_history_retention t) (f (graph_history_lifecycle_events t)) (graph_idempotency t)
    (d3_invalidation_results t) (leases_projection t) (resource_fencing_tokens t) (sdk_artifact_facts t)) "graph_history_lifecycle_events".
Definition IDEMPOTENCY : table _ := mkTable graph_idempotency (fun f t =>
    mkTables (graphs t) (graph_versions t) (graph_patches t) (graph_events t) (graph_nodes_projection t)
    (graph_edges_projection t) (graph_projection_snapshots t) (graph_node_history t) (graph_edge_history t)
    (graph_history_retention t) (graph_history_lifecycle_events t) (f (graph_idempotency t))
    (d3_invalidation_results t) (leases_projection t) (resource_fencing_tokens t) (sdk_artifact_facts t)) "graph_idempotency".
Definition D3 : table _ := mkTable d3_invalidation_results (fun f t =>
    mkTables (graphs t) (graph_versions t) (graph_patches t) (graph_events t) (graph_nodes_projection t)
    (graph_edges_projection t) (graph_projection_snapshots t) (graph_node_history t) (graph_edge_history t)
    (graph_history_retention t) (graph_history_lifecycle_events t) (graph_idempotency t) (f
    (d3_invalidation_results t)) (leases_projection t) (resource_fencing_tokens t) (sdk_artifact_facts t)) "d3_invalidation_results".

Section Statements.
Context {R : Type} (t : table R).
(** A statement that changes [n] rows. *)
Definition exec (n : nat) (f : list R -> list R) : SM unit := modify (fun s =>
  mkStore (upd t f (tables s)) (total_changes s + N.of_nat n) (data_version s) (_projection_cache s) (_read_only s)
    (wall_clock s) (uuids_drawn s)).
Definition select : SM (list R) := gets (fun s => sel t (tables s)).
(** [INSERT INTO t VALUES r]; [key] is the primary key. *)
Definition insert_into {K} `{EqDecision K} (key : R -> K) (r : R) : SM unit :=
  rows ← select;
  raise_if (bool_decide (key r ∈ key <$> rows)) (IntegrityError (tname t)) ;;
  exec 1 (fun l => l ++ [r]).
(** [INSERT ... ON CONFLICT(key) DO UPDATE SET ...] *)
Definition upsert_into {K} `{EqDecision K} (key : R -> K) (r : R) : SM unit :=
  exec 1 (tbl_upsert key (fun _ r => r) r).
(** [DELETE FROM t WHERE p], [UPDATE t SET ... WHERE p]: with the number of rows *)
Definition delete_where (p : R -> bool) : SM nat :=
  rows ← select;
  let n := length (filter (fun r => p r = true) rows) in
  exec n (filter (fun r => p r = false)) ;; mret n.
Definition update_set (p : R -> bool) (f : R -> R) : SM nat :=
  rows ← select;
  let n := length (filter (fun r => p r = true) rows) in
  exec n (fmap (fun r => if p r then f r else r)) ;; mret n.
End Statements.

Definition version_key (v : GraphVersion) : string * Z := (gv_graph_id v, gv_version v).
Definition snapshot_key (r : snapshot_row) : string * Z := (ss_graph_id r, ss_version r).
Definition node_key (r : node_row) : string * string := (nr_graph_id r, nr_node_id r).
Definition edge_key (r : edge_row) : string * string := (gr_edge_graph_id r, gr_edge_id r).
Definition revision_key {R} (key : R -> string * string) (r : revision R) : (string * string) * Z :=
  (key (rv_row r), rv_version r).

(** [with self._immediate_transaction()], and [with self.conn]: an exception rolls the
    tables back; the counters, the cache, the clock and the identifiers stay. *)
Definition with_tables (t : Tables) (s : GraphStore) : GraphStore :=
  mkStore t (total_changes s) (data_version s) (_projection_cache s) (_read_only s) (wall_clock s) (uuids_drawn s).
Definition tx {A} (m : SM A) : SM A := fun s =>
  match m s with
  | (Ok a, s') => (Ok a, s')
  | (Raise e, s') => (Raise e, with_tables (tables s) s')
  end.

Definition _assert_writable : SM unit :=
  ro ← gets _read_only; raise_if ro (PermissionError "read-only GraphStore cannot mutate projections").
Definition vpg {A} (c : VPGCode.t) : SM A := raise (vpg_error c).
Definition vpg_if (b : bool) (c : VPGCode.t) : SM unit := raise_if b (vpg_error c).

(** ** The cache of the last validated projection *)

Definition with_cache (f : list _ProjectionCache -> list _ProjectionCache) (s : GraphStore) : GraphStore :=
  mkStore (tables s) (total_changes s) (data_version s) (f (_projection_cache s)) (_read_only s) (wall_clock s)
    (uuids_drawn s).
Definition _projection_fingerprint (s : GraphStore) : N * N := (total_changes s, data_version s).

Definition _cached_projection (graph_id : string) (version : Z) : SM (option _ProjectionCache) := fun s =>
  match tbl_find pc_key (graph_id, version) (_projection_cache s) with
  | None => (Ok None, s)
  | Some cached =>
      if decide (pc_fingerprint cached = _projection_fingerprint s) then (Ok (Some cached), s)
      else (Ok None, with_cache (tbl_delete pc_key (graph_id, version)) s)
  end.
Definition _remember_projection (graph_id : string) (version : Z) (p : projection) : SM unit := modify (fun s =>
  with_cache (fun l =>
    tbl_upsert pc_key (fun _ c => c) (mkCache graph_id version p (_projection_fingerprint s))
      (filter (fun c => ~ (pc_graph_id c = graph_id /\ pc_key c <> (graph_id, version))) l)) s).
Definition forget_graph (graph_id : string) : SM unit :=
  modify (with_cache (filter (fun c => pc_graph_id c <> graph_id))).

(** ** Commit guards *)

Definition _validate_lease_commit_guard (guard : LeaseCommitGuard) : SM unit :=
  t ← gets tables;
  now ← gets wall_clock;
  match leases_projection t, resource_fencing_tokens t with
  | Some leases, Some tokens =>
      match tbl_find le_lease_id (lg_lease_id guard) leases with
      | None => vpg VPGCode.LEASE_FENCE_LOST
      | Some lease =>
          vpg_if (negb (String.eqb (le_lease_id lease) (lg_lease_id guard)) ||
                  negb (String.eqb (le_resource_id lease) (lg_resource_id guard)) ||
                  negb (String.eqb (le_owner_pid lease) (lg_owner_pid guard)) ||
                  negb (String.eqb (le_mode lease) "exclusive") ||
                  negb (Z.eqb (le_fencing_token lease) (lg_fencing_token guard))) VPGCode.LEASE_FENCE_LOST ;;
          match le_expires_at lease with
          | None => vpg VPGCode.LEASE_FENCE_LOST
          | Some observed =>
              vpg_if (negb (tz_aware observed) || negb (tz_aware (lg_expires_at guard))) VPGCode.LEASE_FENCE_LOST ;;
              vpg_if (instant observed <=? now) VPGCode.LEASE_FENCE_LOST ;;
              vpg_if (negb (bool_decide (dict_get (lg_resource_id guard) tokens = Some (lg_fencing_token guard))))
                VPGCode.LEASE_FENCE_LOST
          end
      end
  | _, _ => vpg VPGCode.LEASE_FENCE_LOST
  end.

(** [MAX(version)] *)
Definition sql_max (l : list Z) : option Z :=
  foldr (fun v acc => Some (match acc with Some w => Z.max v w | None => v end)) None l.
(** One read guard against the facts table. *)
Definition _validate_read_guard (facts : list fact_row) (guard : ArtifactVersionBinding) : SM unit :=
  let artifact_id := removeprefix "vpg://" (strip (b_artifact_id guard)) in
  let canonical_uri := strip (b_canonical_uri guard) in
  let version := b_version guard in
  let expected_hash := lower (strip (b_content_hash guard)) in
  vpg_if (String.eqb artifact_id "" || String.eqb canonical_uri "" || (version <? 1)) VPGCode.READ_SET_UNAVAILABLE ;;
  vpg_if (String.eqb expected_hash "") VPGCode.READ_SET_UNAVAILABLE ;;
  let named := filter (fun f => fa_artifact_id f = artifact_id \/ fa_canonical_uri f = canonical_uri) facts in
  let exact := head (sort_on (fun f => if String.eqb (fa_artifact_id f) artifact_id then 0 else 1)
                       (filter (fun f => fa_version f = version) named)) in
  let latest := sql_max (fa_version <$> named) in
  match exact with
  | None => vpg VPGCode.STALE_COGNITION
  | Some exact =>
      vpg_if (negb (bool_decide (latest = Some version))) VPGCode.STALE_COGNITION ;;
      vpg_if (negb (String.eqb (lower (strip (fa_content_hash exact))) expected_hash)) VPGCode.STALE_COGNITION
  end.
Definition _validate_read_guards (guards : list ArtifactVersionBinding) : SM unit :=
  match guards with
  | [] => mret tt
  | _ =>
      facts ← gets (fun s => sdk_artifact_facts (tables s));
      match facts with
      | None => vpg VPGCode.READ_SET_UNAVAILABLE
      | Some facts => for_each (_validate_read_guard facts) guards
      end
  end.
(** Both, when they are given. *)
Definition validate_guards (commit_guard : option LeaseCommitGuard) (read_guards : option (list ArtifactVersionBinding))
    : SM unit :=
  match commit_guard with Some g => _validate_lease_commit_guard g | None => mret tt end ;;
  match read_guards with Some gs => _validate_read_guards gs | None => mret tt end.

Definition validate_commit_guard (guard : LeaseCommitGuard) : SM unit :=
  _assert_writable ;; tx (_validate_lease_commit_guard guard).

(** ** Reading the record, the versions and the retained history *)

Definition get_record (graph_id : string) : SM (option GraphRecord) :=
  gs ← select GRAPHS; mret (tbl_find gr_graph_id graph_id gs).
Definition get_version (graph_id : string) (version : Z) : SM (option GraphVersion) :=
  vs ← select VERSIONS; mret (tbl_find version_key (graph_id, version) vs).
Definition list_all_graph_ids : SM (list string) := gs ← select GRAPHS; mret (gr_graph_id <$> gs).
Definition has_projection_snapshot (graph_id : string) (version : Z) : SM bool :=
  ss ← select SNAPSHOTS; mret (bool_decide (is_Some (tbl_find snapshot_key (graph_id, version) ss))).

Definition get_history_retention_contract (graph_id : string) : SM HistoryRetentionContract :=
  record ← get_record graph_id;
  match record with
  | None => vpg VPGCode.GRAPH_NOT_FOUND
  | Some record =>
      rs ← select RETENTION;
      match tbl_find hr_graph_id graph_id rs with
      | None => vpg VPGCode.GRAPH_RECOVERY_FAILED
      | Some contract =>
          let floor := earliest_recoverable_version contract in
          vpg_if ((floor <? 0) || (gr_current_version record <? floor)) VPGCode.GRAPH_RECOVERY_FAILED ;;
          vs ← select VERSIONS;
          ss ← select SNAPSHOTS;
          match tbl_find version_key (graph_id, floor) vs, tbl_find snapshot_key (graph_id, floor) ss with
          | Some v, Some s =>
              vpg_if (negb (String.eqb (gv_projection_hash v) (checkpoint_projection_hash contract)) ||
                      negb (String.eqb (ss_projection_hash s) (checkpoint_projection_hash contract)))
                VPGCode.GRAPH_RECOVERY_FAILED ;;
              mret contract
          | _, _ => vpg VPGCode.GRAPH_RECOVERY_FAILED
          end
      end
  end.

(** The rows of the latest revision at or before [version] of each entity of a graph,
    [ORDER BY] its identifier. *)
Section Latest.
Context {R : Type} (key : R -> string * string) (graph_id : string) (version : Z) (hist : list (revision R)).
Definition newer (r r' : revision R) : bool :=
  bool_decide (key (rv_row r') = key (rv_row r)) && (rv_version r' <=? version) && (rv_version r <? rv_version r').
Definition is_latest (r : revision R) : bool :=
  String.eqb (key (rv_row r)).1 graph_id && (rv_version r <=? version) && negb (existsb (newer r) hist).
Definition latest_rows : list R :=
  sort_on (fun r => (key r).2) (rv_row <$> filter (fun r => is_latest r = true) hist).
End Latest.

Definition recovery_failed {A} : result A := Raise (vpg_error VPGCode.GRAPH_RECOVERY_FAILED).
(** Any other exception becomes a failed recovery. *)
Definition or_recovery_failed {A} (r : result A) : result A :=
  match r with
  | Ok a => Ok a
  | Raise (VPGError c) => Raise (VPGError c)
  | Raise _ => recovery_failed
  end.

Section Load.
Context `{ModelText, Sha256}.

Fixpoint decode_nodes (graph_id : string) (rows : list node_row) (nodes : dict AnyNode) : result (dict AnyNode) :=
  match rows with
  | [] => Ok nodes
  | row :: rows' =>
      node ← _node_from_json (nr_payload_json row);
      if negb (String.eqb (ngraph node) graph_id) || negb (String.eqb (nid node) (nr_node_id row)) ||
         negb (String.eqb (NodeType.value (node_type node)) (nr_node_type row)) then recovery_failed
      else if bool_decide (is_Some (dict_get (nid node) nodes)) then recovery_failed
      else decode_nodes graph_id rows' (nodes ++ [(nid node, node)])
  end.

(** Some edge leaves the set of nodes. *)
Definition dangling (ids : list string) (edges : list VPGEdge) : bool :=
  existsb (fun e => negb (bool_decide (source_node_id e ∈ ids)) || negb (bool_decide (target_node_id e ∈ ids))) edges.

Definition load_history (graph_id : string) (version : Z) : SM projection :=
  contract ← get_history_retention_contract graph_id;
  vpg_if (version <? earliest_recoverable_version contract) VPGCode.GRAPH_HISTORY_PRUNED ;;
  ss ← select SNAPSHOTS;
  vs ← select VERSIONS;
  match tbl_find version_key (graph_id, version) vs with
  | None =>
      record ← get_record graph_id;
      match record with None => vpg VPGCode.GRAPH_NOT_FOUND | Some _ => vpg VPGCode.GRAPH_RECOVERY_FAILED end
  | Some version_row =>
      match tbl_find snapshot_key (graph_id, version) ss with
      | None => vpg VPGCode.GRAPH_RECOVERY_FAILED
      | Some header =>
          node_hist ← select NODE_HISTORY;
          let node_rows := latest_rows node_key graph_id version node_hist in
          nodes ← of_result (or_recovery_failed (decode_nodes graph_id node_rows []));
          edge_hist ← select EDGE_HISTORY;
          edges ← of_result (or_recovery_failed (all_ok _edge_from_row (latest_rows edge_key graph_id version edge_hist)));
          vpg_if (existsb (fun e => negb (String.eqb (edge_graph_id e) graph_id)) edges) VPGCode.GRAPH_RECOVERY_FAILED ;;
          vpg_if (negb (bool_decide (NoDup (edge_id <$> edges)))) VPGCode.GRAPH_RECOVERY_FAILED ;;
          vpg_if (dangling nodes.*1 edges) VPGCode.GRAPH_RECOVERY_FAILED ;;
          let actual_hash := compute_projection_hash graph_id version nodes.*2 edges None None in
          vpg_if (negb (String.eqb (ss_projection_hash header) (gv_projection_hash version_row)) ||
                  negb (String.eqb actual_hash (ss_projection_hash header))) VPGCode.GRAPH_RECOVERY_FAILED ;;
          mret (mkProjection nodes edges ((fun r => (nr_node_id r, nr_payload_json r)) <$> node_rows)
                  ((fun e => (edge_id e, edge_dump_json e)) <$> edges))
      end
  end.
(** [load_projection_snapshot(graph_id, version)] *)
Definition load_projection_snapshot (graph_id : string) (version : Z) : SM (dict AnyNode * list VPGEdge) :=
  p ← load_history graph_id version; mret (pj_nodes p, pj_edges p).
(** The same with [_include_serialized=True, _borrow_cached=True] *)
Definition load_parent (graph_id : string) (version : Z) : SM projection :=
  cached ← _cached_projection graph_id version;
  match cached with
  | Some c => mret (pc_projection c)
  | None =>
      p ← load_history graph_id version;
      _remember_projection graph_id version p ;;
      mret p
  end.

(** ** Reading the materialized projection *)

Definition get_node (graph_id node_id : string) : SM (option AnyNode) :=
  rows ← select NODES;
  match tbl_find node_key (graph_id, node_id) rows with
  | None => mret None
  | Some row =>
      node ← of_result (_node_from_json (nr_payload_json row));
      vpg_if (negb (String.eqb (ngraph node) graph_id) || negb (String.eqb (nid node) node_id)) VPGCode.STORAGE_ERROR ;;
      mret (Some node)
  end.
Definition get_edge (graph_id edge_id_ : string) : SM (option VPGEdge) :=
  rows ← select EDGES;
  match tbl_find edge_key (graph_id, edge_id_) rows with
  | None => mret None
  | Some row =>
      edge ← of_result (_edge_from_row row);
      vpg_if (negb (String.eqb (edge_graph_id edge) graph_id) || negb (String.eqb (edge_id edge) edge_id_))
        VPGCode.STORAGE_ERROR ;;
      mret (Some edge)
  end.
Definition of_graph {R} (key : R -> string * string) (graph_id : string) (rows : list R) : list R :=
  filter (fun r => (key r).1 = graph_id) rows.
Definition get_all_nodes (graph_id : string) : SM (list AnyNode) :=
  rows ← select NODES;
  map_each (fun r =>
    node ← of_result (_node_from_json (nr_payload_json r));
    vpg_if (negb (String.eqb (ngraph node) graph_id) || negb (String.eqb (nid node) (nr_node_id r)))
      VPGCode.STORAGE_ERROR ;;
    mret node) (of_graph node_key graph_id rows).
Definition get_all_edges (graph_id : string) : SM (list VPGEdge) :=
  rows ← select EDGES;
  edges ← of_result (all_ok _edge_from_row (of_graph edge_key graph_id rows));
  vpg_if (existsb (fun e => negb (String.eqb (edge_graph_id e) graph_id)) edges) VPGCode.STORAGE_ERROR ;;
  mret edges.
(** The raw rows of a graph, by identifier. *)
Definition _get_materialized_projection_rows (graph_id : string) : SM (list node_row * list edge_row) :=
  ns ← select NODES;
  es ← select EDGES;
  let node_rows := of_graph node_key graph_id ns in
  let edge_rows := of_graph edge_key graph_id es in
  vpg_if (negb (bool_decide (NoDup (nr_node_id <$> node_rows))) || negb (bool_decide (NoDup (gr_edge_id <$> edge_rows))))
    VPGCode.GRAPH_RECOVERY_FAILED ;;
  mret (node_rows, edge_rows).

(** ** Shape of a projection *)

(** The checks [replace_projection] and [commit_patch] make of a complete projection. *)
Definition check_projection (c : VPGCode.t) (graph_id : string) (nodes : list AnyNode) (edges : list VPGEdge)
    : result unit :=
  if negb (bool_decide (NoDup ((fun n => nid n) <$> nodes))) then vpg_raise c
  else if negb (bool_decide (NoDup (edge_id <$> edges))) then vpg_raise c
  else if existsb (fun n => negb (String.eqb (ngraph n) graph_id)) nodes then vpg_raise c
  else if existsb (fun e => negb (String.eqb (edge_graph_id e) graph_id)) edges then vpg_raise c
  else if dangling ((fun n => nid n) <$> nodes) edges then vpg_raise c
  else Ok tt.
Definition _reject_future_history (graph_id : string) (current_version : Z) : SM unit :=
  ss ← select SNAPSHOTS;
  ns ← select NODE_HISTORY;
  es ← select EDGE_HISTORY;
  vpg_if (existsb (fun r => String.eqb (ss_graph_id r) graph_id && (current_version <? ss_version r)) ss ||
          existsb (fun r => String.eqb (nr_graph_id (rv_row r)) graph_id && (current_version <? rv_version r)) ns ||
          existsb (fun r => String.eqb (gr_edge_graph_id (rv_row r)) graph_id && (current_version <? rv_version r)) es)
    VPGCode.GRAPH_RECOVERY_FAILED.
End Load.
