(* ===== verification/GraphCommit.v ===== *)
(** * The graph store: events, commits and the retained history
    (runtimes/verified_progress/graph_store.py)

    [commit_patch] extends a graph by one version in one transaction; [create_graph],
    [close_graph], [replace_projection], [delete_projection] and
    [compact_projection_history] are the other operations that write. *)

From S2P Require Import Prelude PyString Storage VpgModels Agents Invalidation Verification Patches PatchValidator Derivation GraphStore.
Open Scope Z_scope.

(** ** Events *)

(** [str(x)] of a JSON value that is not a string, and [int(x)] of the float with this
    [repr] ([None]: it raises). *)
Class JsonText := { json_str : json -> string; float_int : string -> option Z }.

Section Events.
Context `{Sha256, JsonText}.

Definition frontier_summary (count : Z) (digest : string) : result json :=
  if (count <? 0) || negb (Nat.eqb (String.length digest) 64) then Raise (vpg_error VPGCode.STORAGE_ERROR)
  else Ok (JObj [("count", JInt count); ("encoding", JStr "summary-v1"); ("hash", JStr digest)]).
Definition _serialize_ready_frontier (ev : GraphEvent) : result json :=
  if bool_decide (ge_event_type ev = GraphEventType.READY_FRONTIER_UPDATED) then
    match ge_ready_frontier ev with
    | [] => frontier_summary (default 0 (ready_frontier_count ev))
              (default (ready_frontier_hash []) (ge_ready_frontier_hash ev))
    | f => frontier_summary (Z.of_nat (length f)) (ready_frontier_hash f)
    end
  else Ok (JList (JStr <$> ge_ready_frontier ev)).

(** [int(x)] and [str(x)] of a JSON value; [None] when [int] raises. *)
Definition json_int (j : json) : option Z :=
  match j with
  | JInt z => Some z
  | JBool b => Some (if b then 1 else 0)
  | JStr s => py_int_of_text s
  | JFloat r => float_int r
  | _ => None
  end.
Definition py_str (j : json) : string := match j with JStr s => s | _ => json_str j end.
Definition strings_of (l : list json) : option (list string) := mapM as_str l.
Definition storage_error {A} : result A := Raise (vpg_error VPGCode.STORAGE_ERROR).
(** The frontier, its count and its digest. *)
Definition _deserialize_ready_frontier (raw : json) : result (list string * option Z * option string) :=
  match raw with
  | JList l => match strings_of l with Some f => Ok (f, None, None) | None => storage_error end
  | JObj o =>
      if negb (bool_decide (jget "encoding" o ≫= as_str = Some "summary-v1")) then storage_error
      else match jget "count" o ≫= json_int, py_str <$> jget "hash" o with
           | Some count, Some digest =>
               if (count <? 0) || negb (Nat.eqb (String.length digest) 64) then storage_error
               else Ok ([], Some count, Some digest)
           | _, _ => storage_error
           end
  | _ => storage_error
  end.

Definition with_frontier (f : list string) (count : option Z) (digest : option string) (ev : GraphEvent) : GraphEvent :=
  mkEvent (ge_graph_id ev) (ge_event_type ev) (ge_causation_patch_id ev) (ge_subject_id ev) (ge_subject_kind ev)
    (ge_node_id ev) (to_lifecycle ev) (to_validity ev) f count digest (ge_graph_version ev).
Definition event_to_row (ev : EventRecord) : result event_row :=
  frontier ← _serialize_ready_frontier (evr_event ev);
  Ok (mkEventRow (evr_event_id ev) (evr_recorded_at ev) (with_frontier [] None None (evr_event ev)) frontier
        (dumps_obj (evr_payload ev))).
Definition _row_to_event (r : event_row) : result EventRecord :=
  '(f, count, digest) ←
    (if bool_decide (ge_event_type (er_columns r) = GraphEventType.READY_FRONTIER_UPDATED)
     then _deserialize_ready_frontier (er_ready_frontier_json r)
     else match er_ready_frontier_json r with
          | JList l => match strings_of l with Some f => Ok (f, None, None) | None => storage_error end
          | _ => storage_error
          end);
  Ok (mkEventRecord (er_event_id r) (er_recorded_at r) (with_frontier f count digest (er_columns r)) (er_payload_json r)).

Definition event_order (r : event_row) : Z * string := (er_recorded_at r, er_event_id r).
(** [graph_version >= v], [graph_version <= v] on a column that may be NULL; without a
    bound every row is taken. *)
Definition version_from (since : option Z) (r : event_row) : bool :=
  match since, ge_graph_version (er_columns r) with
  | None, _ => true
  | Some v, Some w => v <=? w
  | Some _, None => false
  end.
Definition version_through (v : Z) (r : event_row) : bool :=
  match ge_graph_version (er_columns r) with Some w => w <=? v | None => false end.
Definition get_events (graph_id : string) (since_version : option Z) : SM (list EventRecord) :=
  rows ← select EVENTS;
  let wanted := filter (fun r => ge_graph_id (er_columns r) = graph_id /\ version_from since_version r = true) rows in
  of_result (all_ok _row_to_event (sort_on event_order wanted)).
(** [ORDER BY ... DESC LIMIT n], reversed *)
Definition get_recent_events (graph_id : string) (through_version limit : Z) : SM (list EventRecord) :=
  raise_if (through_version <? 0) (ValueError "through_version must be >= 0") ;;
  raise_if (limit <? 0) (ValueError "limit must be >= 0") ;;
  if limit =? 0 then mret []
  else
    rows ← select EVENTS;
    let wanted := filter (fun r => ge_graph_id (er_columns r) = graph_id /\ version_through through_version r = true) rows in
    of_result (all_ok _row_to_event (reverse (take (Z.to_nat limit) (reverse (sort_on event_order wanted))))).
End Events.

(** ** Derived invalidation records *)

(** [str(d.get(k) or "")] *)
Definition str_or_empty `{JsonText} (o : option json) : string :=
  match o with
  | Some j => if truthy j then py_str j else ""
  | None => ""
  end.
Definition differs (k : string) (expected : json) (payload : jobj) : bool :=
  match jget k payload with Some v => negb (json_eqb v expected) | None => false end.
(** A copy of an integer field that is a boolean, no integer, or another one. *)
Definition int_differs `{JsonText} (k : string) (expected : Z) (payload : jobj) : bool :=
  match jget k payload with
  | None => false
  | Some (JBool _) => true
  | Some v => negb (bool_decide (json_int v = Some expected))
  end.
Definition _validate_d3_envelope_values `{JsonText} (record_id graph_id : string) (base_graph_version committed_graph_version : Z)
    (result_hash : string) (payload : jobj) (error_code : VPGCode.t) : result unit :=
  if String.eqb record_id "" || String.eqb graph_id "" then vpg_raise error_code
  else if (base_graph_version <? 0) || (committed_graph_version <? 0) then vpg_raise error_code
  else if negb (committed_graph_version =? base_graph_version + 1) then vpg_raise error_code
  else if String.eqb result_hash "" then vpg_raise error_code
  else if differs "record_id" (JStr record_id) payload then vpg_raise error_code
  else if differs "graph_id" (JStr graph_id) payload then vpg_raise error_code
  else if int_differs "base_graph_version" base_graph_version payload then vpg_raise error_code
  else if int_differs "committed_graph_version" committed_graph_version payload then vpg_raise error_code
  else if differs "result_hash" (JStr result_hash) payload then vpg_raise error_code
  else Ok tt.

(** [isinstance(x, int) and not isinstance(x, bool) and x == z] *)
Definition is_int (z : Z) (o : option json) : bool :=
  match o with Some (JInt x) => x =? z | _ => false end.

(** The row written for [d3_record], after its checks. *)
Definition d3_row_of `{JsonText} (record : jobj) (graph_id : string) (expected_version new_version applied_at : Z)
    : result d3_row :=
  let record_id := str_or_empty (jget "record_id" record) in
  let result_hash := str_or_empty (jget "result_hash" record) in
  if differs "graph_id" (JStr graph_id) record then vpg_raise VPGCode.PATCH_REJECTED
  else if negb (is_int expected_version (jget "base_graph_version" record)) then vpg_raise VPGCode.PATCH_REJECTED
  else if negb (match jget "committed_graph_version" record with
                | None => true
                | v => is_int new_version v
                end) then vpg_raise VPGCode.PATCH_REJECTED
  else if String.eqb record_id "" || String.eqb result_hash "" then vpg_raise VPGCode.PATCH_REJECTED
  else
    _validate_d3_envelope_values record_id graph_id expected_version new_version result_hash record
      VPGCode.PATCH_REJECTED ;;
    let payload := filter (fun kv => kv.1 ∉ ["record_id"; "graph_id"; "committed_graph_version"; "recorded_at"]) record in
    Ok (mkD3 record_id graph_id expected_version new_version result_hash (dumps (JObj payload)) applied_at).
Definition insert_d3 `{JsonText} (d3_record : option jobj) (graph_id : string) (expected_version new_version applied_at : Z)
    : SM unit :=
  match d3_record with
  | None => mret tt
  | Some record =>
      row ← of_result (d3_row_of record graph_id expected_version new_version applied_at);
      rows ← select D3;
      vpg_if (bool_decide (is_Some (tbl_find d3_record_id (d3_record_id row) rows))) VPGCode.PATCH_REJECTED ;;
      insert_into D3 d3_record_id row
  end.

(** [{**payload, ...}] *)
Definition dict_update (d : jobj) (kvs : jobj) : jobj := foldl (fun d kv => dict_set kv.1 kv.2 d) d kvs.
Definition d3_envelope `{JsonText} (r : d3_row) : result jobj :=
  match d3_payload_json r with
  | JObj payload =>
      _validate_d3_envelope_values (d3_record_id r) (d3_graph_id r) (d3_base_graph_version r)
        (d3_committed_graph_version r) (d3_result_hash r) payload VPGCode.STORAGE_ERROR ;;
      let columns := [("record_id", JStr (d3_record_id r)); ("graph_id", JStr (d3_graph_id r));
                      ("base_graph_version", JInt (d3_base_graph_version r));
                      ("committed_graph_version", JInt (d3_committed_graph_version r));
                      ("result_hash", JStr (d3_result_hash r)); ("recorded_at", JTime (d3_recorded_at r))] in
      if existsb (fun kv => differs kv.1 kv.2 payload) columns then storage_error
      else Ok (dict_update payload columns)
  | _ => storage_error
  end.
Definition d3_order (r : d3_row) : Z * string := (d3_committed_graph_version r, d3_record_id r).
Definition get_d3_results `{JsonText} (graph_id : string) (since_version : option Z) : SM (list jobj) :=
  rows ← select D3;
  let wanted := filter (fun r => d3_graph_id r = graph_id /\
                                 (default (d3_committed_graph_version r) since_version <= d3_committed_graph_version r)) rows in
  of_result (all_ok d3_envelope (sort_on d3_order wanted)).

(** ** Idempotency *)

Definition has_idempotency (key : string * string * string) : SM (option (string * Z)) :=
  rows ← select IDEMPOTENCY;
  mret ((fun r => (id_patch_id r, id_committed_version r)) <$> tbl_find id_key key rows).
Definition idempotent_replay (key : string * string * string) (commit_guard : option LeaseCommitGuard)
    (read_guards : option (list ArtifactVersionBinding)) : SM (option (string * Z)) :=
  _assert_writable ;;
  tx (rows ← select IDEMPOTENCY;
      match tbl_find id_key key rows with
      | None => mret None
      | Some row =>
          validate_guards commit_guard read_guards ;;
          mret (Some (id_patch_id row, id_committed_version row))
      end).

Section Writes.
Context `{ModelText, Sha256, UuidSource, JsonText}.

(** ** The life of a graph *)

(** The record, its version 0 and the empty projection it stands for. *)
Definition create_body (record : GraphRecord) : SM unit :=
  let gid := gr_graph_id record in
  let empty_hash := compute_projection_hash gid 0 [] [] None None in
  insert_into GRAPHS gr_graph_id (stored_record record) ;;
  insert_into VERSIONS version_key (mkVersion gid 0 None "init" (_empty_projection_hash gid) (gr_owner_pid record)
    (gr_created_at record)) ;;
  update_set VERSIONS (fun v => String.eqb (gv_graph_id v) gid && (gv_version v =? 0))
    (fun v => mkVersion (gv_graph_id v) (gv_version v) (gv_parent_version v) (gv_patch_id v) empty_hash
                (gv_committed_by_pid v) (gv_committed_at v)) ;;
  insert_into SNAPSHOTS snapshot_key (mkSnapshot gid 0 empty_hash) ;;
  insert_into RETENTION hr_graph_id (mkRetention gid 0 empty_hash (gr_created_at record) (gr_owner_pid record)
    "default full-history retention").
Definition create_graph (record : GraphRecord) : SM GraphRecord :=
  _assert_writable ;;
  existing ← get_record (gr_graph_id record);
  vpg_if (bool_decide (is_Some existing)) VPGCode.GRAPH_ALREADY_EXISTS ;;
  tx (create_body record) ;;
  _remember_projection (gr_graph_id record) 0 (mkProjection [] [] [] []) ;;
  mret record.

Definition set_record (version : Z) (updated_at : Z) (closed : bool) (r : GraphRecord) : GraphRecord :=
  mkGraph (gr_graph_id r) (gr_owner_pid r) version (gr_created_at r) updated_at closed (gr_metadata r).
Definition close_graph (graph_id : string) : SM unit :=
  _assert_writable ;;
  now ← gets wall_clock;
  tx (update_set GRAPHS (fun r => String.eqb (gr_graph_id r) graph_id)
        (fun r => set_record (gr_current_version r) now true r) ;; mret tt).

Definition update_record_version (graph_id : string) (new_version : Z) (projection_hash : string) : SM unit :=
  _assert_writable ;; raise (RuntimeError "standalone graph version updates are disabled").
Definition commit_graph_version (gv : GraphVersion) : SM unit :=
  _assert_writable ;; raise (RuntimeError "standalone GraphVersion commits are disabled").

(** ** Committing a patch *)

(** The arguments of [commit_patch]. *)
Record CommitRequest : Type := mkCommitRequest {
  q_patch : GraphPatchProposal;
  q_patch_id : string;
  q_committed_version : Z;
  q_applied_at : Z;
  q_events : list EventRecord;
  q_nodes_to_upsert : list (string * AnyNode);
  q_edges_to_upsert : list VPGEdge;
  q_projection_nodes : option (list AnyNode);
  q_projection_edges : option (list VPGEdge);
  q_commit_guard : option LeaseCommitGuard;
  q_d3_record : option jobj;
  q_read_guards : option (list ArtifactVersionBinding) }.

(** The checks before the transaction; the complete projection. *)
Definition check_request (q : CommitRequest) : result (list AnyNode * list VPGEdge) :=
  let graph_id := patch_graph_id (q_patch q) in
  if negb (String.eqb (q_patch_id q) (patch_id (q_patch q))) then vpg_raise VPGCode.PATCH_REJECTED
  else if negb (q_committed_version q =? expected_graph_version (q_patch q) + 1) then vpg_raise VPGCode.PATCH_REJECTED
  else if existsb (fun kn => negb (String.eqb kn.1 (nid kn.2)) || negb (String.eqb (ngraph kn.2) graph_id))
            (q_nodes_to_upsert q) then vpg_raise VPGCode.PATCH_REJECTED
  else if existsb (fun e => negb (String.eqb (edge_graph_id e) graph_id)) (q_edges_to_upsert q)
  then vpg_raise VPGCode.PATCH_REJECTED
  else if existsb (fun ev => negb (String.eqb (ge_graph_id (evr_event ev)) graph_id)) (q_events q)
  then vpg_raise VPGCode.PATCH_REJECTED
  else match q_projection_nodes q, q_projection_edges q with
       | Some nodes, Some edges =>
           check_projection VPGCode.PATCH_REJECTED graph_id nodes edges ;; Ok (nodes, edges)
       | _, _ => Raise (ValueError "commit_patch requires the complete projection")
       end.

(** The graph is open and at the version the patch expects. *)
Definition check_head (graph_id : string) (new_version : Z) : SM unit :=
  gs ← select GRAPHS;
  match tbl_find gr_graph_id graph_id gs with
  | None => vpg VPGCode.GRAPH_NOT_FOUND
  | Some current =>
      vpg_if (gr_closed current) VPGCode.GRAPH_CLOSED ;;
      vpg_if (negb (gr_current_version current =? new_version - 1)) VPGCode.GRAPH_VERSION_CONFLICT
  end.
(** No revision at or after the new version. *)
Definition check_no_future (graph_id : string) (new_version : Z) : SM unit :=
  ns ← select NODE_HISTORY;
  es ← select EDGE_HISTORY;
  vpg_if (existsb (fun r => String.eqb (nr_graph_id (rv_row r)) graph_id && (new_version <=? rv_version r)) ns ||
          existsb (fun r => String.eqb (gr_edge_graph_id (rv_row r)) graph_id && (new_version <=? rv_version r)) es)
    VPGCode.GRAPH_RECOVERY_FAILED.

(** The text of a materialized row stands for this canonical text. *)
Definition _materialized_node_matches (raw expected_json : string) : bool :=
  String.eqb raw expected_json ||
  match _node_from_json raw with Ok n => String.eqb (model_dump_json n) expected_json | Raise _ => false end.
Definition edge_row_matches (row : edge_row) (graph_id : string) (e : VPGEdge) : bool :=
  String.eqb (gr_edge_graph_id row) graph_id && String.eqb (gr_edge_type row) (EdgeType.value (edge_type e)) &&
  String.eqb (gr_source_node_id row) (source_node_id e) && String.eqb (gr_target_node_id row) (target_node_id e) &&
  (gr_created_in_version row =? edge_created_in_version e) &&
  String.eqb (gr_created_by_pid row) (edge_created_by_pid e) && (gr_edge_created_at row =? edge_created_at e).
Definition node_row_matches (rows : list node_row) (graph_id : string) (parent : projection) (kn : string * AnyNode) : bool :=
  match tbl_find nr_node_id kn.1 rows with
  | None => false
  | Some row =>
      String.eqb (nr_graph_id row) graph_id && String.eqb (nr_node_type row) (NodeType.value (node_type kn.2)) &&
      match dict_get kn.1 (pj_node_json parent) with
      | Some text => _materialized_node_matches (nr_payload_json row) text
      | None => false
      end
  end.
(** The materialized rows are those of the durable parent. *)
Definition check_materialized (graph_id : string) (parent : projection) (node_rows : list node_row)
    (edge_rows : list edge_row) : result unit :=
  if existsb (fun row => match tbl_find edge_id (gr_edge_id row) (pj_edges parent) with
                         | Some e => negb (edge_row_matches row graph_id e)
                         | None => false
                         end) edge_rows then recovery_failed
  else if negb (forallb (node_row_matches node_rows graph_id parent) (pj_nodes parent)) then recovery_failed
  else if negb (forallb (fun e => bool_decide (edge_id e ∈ gr_edge_id <$> edge_rows)) (pj_edges parent)) then recovery_failed
  else Ok tt.

(** The evidence the patch attaches. *)
Definition attached_evidence_ids (patch : GraphPatchProposal) : list string :=
  omap (fun op => match op with OAttachEvidence op => Some (av_evidence_node_id op) | _ => None end) (operations patch).
Definition is_evidence_node (n : AnyNode) : bool := match n with NEvidence _ => true | _ => false end.
(** An extra materialized row is an evidence node of the candidate. *)
Definition staged_row (full_nodes : list AnyNode) (row : node_row) : bool :=
  match _node_from_json (nr_payload_json row), tbl_find (fun n => nid n) (nr_node_id row) full_nodes with
  | Ok m, Some candidate =>
      is_evidence_node m && is_evidence_node candidate &&
      _materialized_node_matches (nr_payload_json row) (model_dump_json candidate)
  | _, _ => false
  end.
(** The extra rows the patch attaches and those it does not. *)
Definition check_staged (q : CommitRequest) (parent : projection) (full_nodes : list AnyNode) (node_rows : list node_row)
    (edge_rows : list edge_row) : result (list string * list string) :=
  let extra := filter (fun r => nr_node_id r ∉ (pj_nodes parent).*1) node_rows in
  let attached := attached_evidence_ids (q_patch q) in
  if negb (forallb (staged_row full_nodes) extra) then recovery_failed
  else if existsb (fun r => negb (bool_decide (gr_edge_id r ∈ edge_id <$> pj_edges parent))) edge_rows then recovery_failed
  else
    let allowed := filter (fun i => i ∈ attached) (nr_node_id <$> extra) in
    let staged := filter (fun i => i ∉ attached) (nr_node_id <$> extra) in
    if existsb (fun i => bool_decide (i ∈ (q_nodes_to_upsert q).*1)) staged then vpg_raise VPGCode.PATCH_REJECTED
    else Ok (allowed, staged).

(** The candidate against the parent and the delta. *)
Definition check_candidate (q : CommitRequest) (parent : projection) (full_nodes durable_nodes : list AnyNode)
    (full_edges : list VPGEdge) (allowed : list string) : result unit :=
  let durable_ids := (fun n => nid n) <$> durable_nodes in
  let edge_ids := edge_id <$> full_edges in
  let parent_ids := (pj_nodes parent).*1 in
  let parent_edge_ids := edge_id <$> pj_edges parent in
  if dangling durable_ids full_edges then vpg_raise VPGCode.PATCH_REJECTED
  else if negb (forallb (fun kn => match tbl_find (fun n => nid n) kn.1 durable_nodes with
                                   | Some c => String.eqb (model_dump_json kn.2) (model_dump_json c)
                                   | None => false
                                   end) (q_nodes_to_upsert q)) then vpg_raise VPGCode.PATCH_REJECTED
  else if negb (forallb (fun e => match tbl_find edge_id (edge_id e) full_edges with
                                  | Some c => String.eqb (edge_dump_json e) (edge_dump_json c)
                                  | None => false
                                  end) (q_edges_to_upsert q)) then vpg_raise VPGCode.PATCH_REJECTED
  else if existsb (fun i => negb (bool_decide (i ∈ (fun n => nid n) <$> full_nodes))) parent_ids ||
          existsb (fun i => negb (bool_decide (i ∈ edge_ids))) parent_edge_ids then vpg_raise VPGCode.PATCH_REJECTED
  else if existsb (fun i => negb (bool_decide (i ∈ parent_ids)) && negb (bool_decide (i ∈ (q_nodes_to_upsert q).*1)) &&
                            negb (bool_decide (i ∈ allowed))) durable_ids then vpg_raise VPGCode.PATCH_REJECTED
  else if existsb (fun i => negb (bool_decide (i ∈ parent_edge_ids)) &&
                            negb (bool_decide (i ∈ edge_id <$> q_edges_to_upsert q))) edge_ids
  then vpg_raise VPGCode.PATCH_REJECTED
  else Ok tt.

(** The entities whose text is not that of the parent's. *)
Definition node_revisions (parent : projection) (nodes : list AnyNode) : list AnyNode :=
  filter (fun n => dict_get (nid n) (pj_nodes parent) = None \/
                   dict_get (nid n) (pj_node_json parent) <> Some (model_dump_json n)) nodes.
Definition edge_revisions (parent : projection) (edges : list VPGEdge) : list VPGEdge :=
  filter (fun e => tbl_find edge_id (edge_id e) (pj_edges parent) = None \/
                   dict_get (edge_id e) (pj_edge_json parent) <> Some (edge_dump_json e)) edges.

(** 1 to 4: the idempotency lock, the patch, the version. *)
Definition write_version (q : CommitRequest) (projection_hash : string) : SM unit :=
  let patch := q_patch q in
  let graph_id := patch_graph_id patch in
  let new_version := q_committed_version q in
  insert_into IDEMPOTENCY id_key (mkIdempotency (author_pid patch) graph_id (idempotency_key patch) (q_patch_id q)
    new_version (q_applied_at q)) ;;
  insert_into PATCHES pt_patch_id (mkPatchRow (q_patch_id q) graph_id new_version (author_pid patch)
    (idempotency_key patch) (patch_reason patch) (causation_ids patch) (Some patch) (q_applied_at q)) ;;
  n ← update_set GRAPHS (fun r => String.eqb (gr_graph_id r) graph_id && (gr_current_version r =? new_version - 1) &&
                                  negb (gr_closed r))
        (fun r => set_record new_version (q_applied_at q) (gr_closed r) r);
  (if Nat.eqb n 1 then mret tt else check_head graph_id new_version ;; vpg VPGCode.GRAPH_VERSION_CONFLICT) ;;
  insert_into VERSIONS version_key (mkVersion graph_id new_version
    (if 0 <? new_version then Some (new_version - 1) else None) (q_patch_id q) projection_hash (author_pid patch)
    (q_applied_at q)).

(** 5 to 7: the events and the materialized projection. *)
Definition write_events (evs : list EventRecord) : SM unit :=
  for_each (fun ev => row ← of_result (event_to_row ev); insert_into EVENTS er_event_id row) evs.
Definition write_projection (nodes : list (string * AnyNode)) (edges : list VPGEdge) : SM unit :=
  for_each (fun kn => upsert_into NODES node_key (row_of_node kn.2)) nodes ;;
  for_each (fun e => upsert_into EDGES edge_key (row_of_edge e)) edges.

(** The rows read back are the candidate's. *)
Definition check_written (graph_id : string) (new_version : Z) (durable_nodes : list AnyNode) (full_edges : list VPGEdge)
    (staged : list string) (projection_hash : string) : SM unit :=
  '(node_rows, edge_rows) ← _get_materialized_projection_rows graph_id;
  let texts := (fun r => (nr_node_id r, nr_payload_json r)) <$> filter (fun r => nr_node_id r ∉ staged) node_rows in
  edges ← of_result (all_ok _edge_from_row edge_rows);
  let nodes := omap (fun kt => tbl_find (fun n => nid n) kt.1 durable_nodes) texts in
  let materialized_hash := compute_projection_hash graph_id new_version nodes edges (Some texts) None in
  vpg_if (negb (bool_decide (list_to_set texts.*1 =@{gset string} list_to_set ((fun n => nid n) <$> durable_nodes))) ||
          negb (bool_decide (list_to_set (gr_edge_id <$> edge_rows) =@{gset string} list_to_set (edge_id <$> full_edges))) ||
          negb (String.eqb materialized_hash projection_hash)) VPGCode.PATCH_REJECTED.

(** 8: the header and the revisions. *)
Definition write_history (graph_id : string) (version : Z) (nodes : list AnyNode) (edges : list VPGEdge) : SM unit :=
  for_each (fun n => insert_into NODE_HISTORY (revision_key node_key)
                       (mkRevision version (mkNodeRow (nid n) graph_id (NodeType.value (node_type n)) (model_dump_json n))))
    (sort_on (fun n => nid n) nodes) ;;
  for_each (fun e => insert_into EDGE_HISTORY (revision_key edge_key)
                       (mkRevision version (mkEdgeRow (edge_id e) graph_id (EdgeType.value (edge_type e))
                          (source_node_id e) (target_node_id e) (edge_created_in_version e) (edge_created_by_pid e)
                          (edge_created_at e))))
    (sort_on edge_id edges).

(** The projection kept in memory after the commit: fresh objects for what changed;
    nothing is kept when a text does not decode. *)
Definition warm_node (parent : projection) (n : AnyNode) : result (string * AnyNode) :=
  match dict_get (nid n) (pj_nodes parent) with
  | Some p =>
      if decide (dict_get (nid n) (pj_node_json parent) = Some (model_dump_json n)) then Ok (nid n, p)
      else m ← _node_from_json (model_dump_json n); Ok (nid n, m)
  | None => m ← _node_from_json (model_dump_json n); Ok (nid n, m)
  end.
Definition warm_edge (parent : projection) (e : VPGEdge) : result VPGEdge :=
  let fresh := match edge_validate_json (edge_dump_json e) with
               | Some e' => Ok e' | None => Raise (ValidationError "the text is not an edge") end in
  match tbl_find edge_id (edge_id e) (pj_edges parent) with
  | Some p => if decide (dict_get (edge_id e) (pj_edge_json parent) = Some (edge_dump_json e)) then Ok p else fresh
  | None => fresh
  end.
Definition warm_cache (graph_id : string) (new_version : Z) (parent : projection) (nodes : list AnyNode)
    (edges : list VPGEdge) : SM unit :=
  match all_ok (warm_node parent) nodes, all_ok (warm_edge parent) edges with
  | Ok ns, Ok es =>
      _remember_projection graph_id new_version
        (mkProjection ns es ((fun n => (nid n, model_dump_json n)) <$> nodes)
           ((fun e => (edge_id e, edge_dump_json e)) <$> edges))
  | _, _ => modify (with_cache (tbl_delete pc_key (graph_id, new_version)))
  end.

(** The body of the transaction: the parent and the durable nodes. *)
Definition commit_body (q : CommitRequest) (full_nodes : list AnyNode) (full_edges : list VPGEdge)
    : SM (projection * list AnyNode) :=
  let graph_id := patch_graph_id (q_patch q) in
  let new_version := q_committed_version q in
  validate_guards (q_commit_guard q) (q_read_guards q) ;;
  check_head graph_id new_version ;;
  parent ← load_parent graph_id (new_version - 1);
  check_no_future graph_id new_version ;;
  '(node_rows, edge_rows) ← _get_materialized_projection_rows graph_id;
  of_result (check_materialized graph_id parent node_rows edge_rows) ;;
  '(allowed, staged) ← of_result (check_staged q parent full_nodes node_rows edge_rows);
  let durable_nodes := filter (fun n => nid n ∉ staged) full_nodes in
  of_result (check_candidate q parent full_nodes durable_nodes full_edges allowed) ;;
  let projection_hash := compute_projection_hash graph_id new_version durable_nodes full_edges
    (Some ((fun n => (nid n, model_dump_json n)) <$> durable_nodes))
    (Some ((fun e => (edge_id e, edge_dump_json e)) <$> full_edges)) in
  write_version q projection_hash ;;
  insert_d3 (q_d3_record q) graph_id (expected_graph_version (q_patch q)) new_version (q_applied_at q) ;;
  write_events (q_events q) ;;
  write_projection (q_nodes_to_upsert q) (q_edges_to_upsert q) ;;
  check_written graph_id new_version durable_nodes full_edges staged projection_hash ;;
  insert_into SNAPSHOTS snapshot_key (mkSnapshot graph_id new_version projection_hash) ;;
  write_history graph_id new_version (node_revisions parent durable_nodes) (edge_revisions parent full_edges) ;;
  mret (parent, durable_nodes).
Definition commit_patch (q : CommitRequest) : SM unit :=
  _assert_writable ;;
  '(full_nodes, full_edges) ← of_result (check_request q);
  '(parent, durable_nodes) ← tx (commit_body q full_nodes full_edges);
  warm_cache (patch_graph_id (q_patch q)) (q_committed_version q) parent durable_nodes full_edges.

(** ** The materialized projection *)

Definition drop_projection (graph_id : string) : SM unit :=
  delete_where NODES (fun r => String.eqb (nr_graph_id r) graph_id) ;;
  delete_where EDGES (fun r => String.eqb (gr_edge_graph_id r) graph_id) ;;
  mret tt.
Definition delete_projection (graph_id : string) : SM unit :=
  _assert_writable ;;
  tx (drop_projection graph_id) ;;
  forget_graph graph_id.

Definition replace_projection (graph_id : string) (expected_graph_version : Z) (nodes : list AnyNode)
    (edges : list VPGEdge) : SM unit :=
  _assert_writable ;;
  let node_list := sort_on (fun n => nid n) nodes in
  let edge_list := sort_on edge_id edges in
  of_result (check_projection VPGCode.GRAPH_RECOVERY_FAILED graph_id node_list edge_list) ;;
  tx (n ← update_set GRAPHS (fun r => String.eqb (gr_graph_id r) graph_id && (gr_current_version r =? expected_graph_version))
            (fun r => r);
      (if Nat.eqb n 1 then mret tt
       else current ← get_record graph_id;
            match current with
            | None => vpg VPGCode.GRAPH_NOT_FOUND
            | Some _ => vpg VPGCode.GRAPH_VERSION_CONFLICT
            end) ;;
      drop_projection graph_id ;;
      for_each (fun n => insert_into NODES node_key (row_of_node n)) node_list ;;
      for_each (fun e => insert_into EDGES edge_key (row_of_edge e)) edge_list) ;;
  forget_graph graph_id.

(** ** Compaction *)

(** [for version in range(a, b + 1): self.load_projection_snapshot(graph_id, version)] *)
Definition load_range (graph_id : string) (a b : Z) : SM unit :=
  for_each (fun v => load_projection_snapshot graph_id v ;; mret tt) (seqZ a (b + 1 - a)).
Definition next_uuid : SM string := fun s =>
  (Ok (uuid4 (uuids_drawn s)),
   mkStore (tables s) (total_changes s) (data_version s) (_projection_cache s) (_read_only s) (wall_clock s)
     (N.succ (uuids_drawn s))).
Definition below {R} (gid : R -> string) (graph_id : string) (version : Z) (r : revision R) : bool :=
  String.eqb (gid (rv_row r)) graph_id && (rv_version r <? version).
Definition at_version {R} (gid : R -> string) (graph_id : string) (version : Z) (r : revision R) : bool :=
  String.eqb (gid (rv_row r)) graph_id && (rv_version r =? version).

(** Drops what is below the floor and writes the checkpoint at the floor. *)
Definition rewrite_history (graph_id : string) (floor : Z) (nodes : dict AnyNode) (edges : list VPGEdge)
    : SM (nat * nat * nat) :=
  headers ← delete_where SNAPSHOTS (fun r => String.eqb (ss_graph_id r) graph_id && (ss_version r <? floor));
  old_nodes ← delete_where NODE_HISTORY (below nr_graph_id graph_id floor);
  old_edges ← delete_where EDGE_HISTORY (below gr_edge_graph_id graph_id floor);
  delete_where NODE_HISTORY (at_version nr_graph_id graph_id floor) ;;
  delete_where EDGE_HISTORY (at_version gr_edge_graph_id graph_id floor) ;;
  write_history graph_id floor nodes.*2 edges ;;
  mret (headers, old_nodes, old_edges).

(** Once the checks have passed: the rewrite, the new contract, its audit row, and the
    same loads again. *)
Definition raise_floor (g : string) (f : Z) (compacted_by reason hash : string) (previous_floor current : Z)
    (nodes : dict AnyNode) (edges : list VPGEdge) : SM HistoryCompactionResult :=
  '(headers, old_nodes, old_edges) ← rewrite_history g f nodes edges;
  recorded_at ← gets wall_clock;
  update_set RETENTION (fun r => String.eqb (hr_graph_id r) g)
    (fun r => mkRetention (hr_graph_id r) f hash recorded_at compacted_by reason) ;;
  event_id ← next_uuid;
  insert_into LIFECYCLE lc_event_id (mkLifecycle event_id g "compact" previous_floor f f hash compacted_by reason recorded_at) ;;
  load_range g f current ;;
  mret (mkCompaction g previous_floor f current hash headers old_nodes old_edges).

Definition compact_projection_history (graph_id : string) (retain_from_version : Z) (compacted_by reason : string)
    : SM HistoryCompactionResult :=
  _assert_writable ;;
  raise_if (String.eqb (strip compacted_by) "") (ValueError "compacted_by must identify the operator") ;;
  raise_if (String.eqb (strip reason) "") (ValueError "reason must explain the retention decision") ;;
  tx (record ← get_record graph_id;
      match record with
      | None => vpg VPGCode.GRAPH_NOT_FOUND
      | Some record =>
          contract ← get_history_retention_contract graph_id;
          let previous_floor := earliest_recoverable_version contract in
          let current_version := gr_current_version record in
          raise_if (retain_from_version <? previous_floor) (ValueError "cannot lower history floor") ;;
          raise_if (current_version <? retain_from_version) (ValueError "retain_from_version exceeds current graph version") ;;
          '(nodes, edges) ← load_projection_snapshot graph_id retain_from_version;
          checkpoint ← get_version graph_id retain_from_version;
          match checkpoint with
          | None => vpg VPGCode.GRAPH_RECOVERY_FAILED
          | Some checkpoint =>
              let checkpoint_hash := gv_projection_hash checkpoint in
              load_range graph_id retain_from_version current_version ;;
              _reject_future_history graph_id current_version ;;
              if retain_from_version =? previous_floor then
                mret (mkCompaction graph_id previous_floor previous_floor current_version checkpoint_hash 0 0 0)
              else
                raise_floor graph_id retain_from_version compacted_by reason checkpoint_hash previous_floor current_version nodes edges
          end
      end).
End Writes.
