(* ===== verification/GraphFacts.v ===== *)
(** * Facts about the graph store's tables and its retained history

    What the statements do to the rows, what [latest_rows] selects, how appending
    revisions and compacting change it, and the invariant of the durable tables. *)

From S2P Require Import Prelude PyString Storage VpgModels Agents Invalidation Verification Patches PatchValidator Derivation GraphStore GraphCommit.
Open Scope Z_scope.

(** ** Keyed lists *)

Section Keyed.
Context {R K : Type} `{EqDecision K} (key : R -> K).
Lemma tbl_find_fmap f k (l : list R) : (forall r, key (f r) = key r) -> tbl_find key k (f <$> l) = f <$> tbl_find key k l.
Proof. intros Hf. induction l as [|r l IH]; cbn; [done|]. rewrite Hf. by case_decide. Qed.
Lemma tbl_find_is_Some k (l : list R) : is_Some (tbl_find key k l) <-> k ∈ key <$> l.
Proof.
  rewrite list_elem_of_fmap. split.
  - intros [r [<- Hr]%tbl_find_Some]. eauto.
  - intros (r & -> & Hr). destruct (tbl_find key (key r) l) eqn:E; [done|].
    by destruct (proj1 (tbl_find_None key _ l) E r Hr).
Qed.
Lemma NoDup_key_snoc (l : list R) r : NoDup (key <$> l) -> key r ∉ key <$> l -> NoDup (key <$> l ++ [r]).
Proof.
  intros Hd Hr. rewrite fmap_app. cbn. apply NoDup_app. split_and!; [done| |apply NoDup_singleton].
  intros k Hk ->%list_elem_of_singleton. done.
Qed.
End Keyed.

(** Sorted lists with the same elements and distinct keys are equal. *)
Lemma sort_on_same {A K} `{PyOrdLaws K} (f : A -> K) l1 l2 :
  NoDup (f <$> l1) -> NoDup (f <$> l2) -> (forall x, x ∈ l1 <-> x ∈ l2) -> sort_on f l1 = sort_on f l2.
Proof.
  intros H1 H2 He. apply sort_on_unique.
  - intros x y Hx Hy. by apply (NoDup_key_inj f l1).
  - apply NoDup_Permutation; [by eapply NoDup_fmap_1|by eapply NoDup_fmap_1|done].
Qed.
Lemma insert_on_fmap {A B K} `{PyOrd K} (g : A -> B) (f : B -> K) x l :
  insert_on f (g x) (g <$> l) = g <$> insert_on (fun x => f (g x)) x l.
Proof. induction l as [|y l IH]; cbn; [done|]. destruct (py_leb _ _); [done|]. cbn. by rewrite <-IH. Qed.
Lemma sort_on_fmap {A B K} `{PyOrd K} (g : A -> B) (f : B -> K) l :
  sort_on f (g <$> l) = g <$> sort_on (fun x => f (g x)) l.
Proof. unfold sort_on. induction l as [|x l IH]; [done|]. cbn. by rewrite IH, insert_on_fmap. Qed.

(** ** Statements *)

Section StatementFacts.
Context {R : Type} (t : table R).
Lemma exec_run n f s :
  exec t n f s = (Ok tt, mkStore (upd t f (tables s)) (total_changes s + N.of_nat n) (data_version s)
                           (_projection_cache s) (_read_only s) (wall_clock s) (uuids_drawn s)).
Proof. done. Qed.
Lemma select_bind {B} (k : list R -> SM B) s : (select t ≫= k) s = k (sel t (tables s)) s.
Proof. done. Qed.
Lemma insert_into_ok {K} `{EqDecision K} (key : R -> K) r s s' :
  insert_into t key r s = (Ok tt, s') ->
  ~ (key r ∈ key <$> sel t (tables s)) /\ exec t 1 (fun l => l ++ [r]) s = (Ok tt, s').
Proof.
  unfold insert_into, select. rewrite gets_bind. unfold raise_if. case_bool_decide; [done|]. by intros.
Qed.
Lemma insert_run {K} `{EqDecision K} (key : R -> K) r s :
  ~ (key r ∈ key <$> sel t (tables s)) -> insert_into t key r s = exec t 1 (fun l => l ++ [r]) s.
Proof. intros Hk. unfold insert_into, select. rewrite gets_bind, bool_decide_eq_false_2 by done. done. Qed.
End StatementFacts.

Lemma get_record_bind {B} g (k : option GraphRecord -> SM B) s :
  (get_record g ≫= k) s = k (tbl_find gr_graph_id g (graphs (tables s))) s.
Proof. done. Qed.
Lemma get_version_bind {B} g v (k : option GraphVersion -> SM B) s :
  (get_version g v ≫= k) s = k (tbl_find version_key (g, v) (graph_versions (tables s))) s.
Proof. done. Qed.
Lemma of_Ok_bind {A B} (a : A) (k : A -> SM B) s : (of_result (Ok a) ≫= k) s = k a s.
Proof. done. Qed.
Lemma vpg_if_bind {B} c (k : unit -> SM B) s : (vpg_if false c ≫= k) s = k tt s.
Proof. done. Qed.
Lemma vpg_if_Ok b c s s' : vpg_if b c s = (Ok tt, s') -> b = false /\ s' = s.
Proof. destruct b; [done|]. by intros [= ->]. Qed.
#[export] Hint Rewrite @select_bind @get_record_bind @of_Ok_bind @vpg_if_bind : lhos_rw.

(** ** The latest revisions *)

Section LatestFacts.
Context {R : Type} (key : R -> string * string).
Implicit Types (hist : list (revision R)) (r : revision R).
Abbreviation rkey r := (key (rv_row r)).

(** [r] is the revision in force at version [v]. *)
Definition in_force (g : string) (v : Z) hist r : Prop :=
  r ∈ hist /\ (rkey r).1 = g /\ rv_version r <= v /\
  forall r', r' ∈ hist -> rkey r' = rkey r -> rv_version r' <= v -> rv_version r' <= rv_version r.

Lemma is_latest_spec g v hist r : r ∈ hist -> is_latest key g v hist r = true <-> in_force g v hist r.
Proof.
  intros Hr. unfold is_latest, in_force. rewrite !andb_true_iff, String.eqb_eq, Z.leb_le, negb_true_iff, <-not_true_iff_false.
  rewrite existsb_exists. split.
  - intros [[Hg Hv] Hn]. split_and!; [done..|]. intros r' Hr' Hk Hv'. apply Z.nlt_ge. intros Hlt. apply Hn. exists r'.
    split; [by apply list_elem_of_In|]. unfold newer. rewrite bool_decide_eq_true_2 by done.
    apply Z.leb_le in Hv'. apply Z.ltb_lt in Hlt. by rewrite Hv', Hlt.
  - intros (_ & Hg & Hv & Hmax). split_and!; [done..|]. intros (r' & Hr'%list_elem_of_In & Hn).
    unfold newer in Hn. apply andb_true_iff in Hn as [[Hk%bool_decide_eq_true Hv'%Z.leb_le]%andb_true_iff Hlt%Z.ltb_lt].
    specialize (Hmax r' Hr' Hk Hv'). lia.
Qed.
Lemma elem_of_latest g v hist x :
  x ∈ latest_rows key g v hist <-> exists r, in_force g v hist r /\ x = rv_row r.
Proof.
  unfold latest_rows. rewrite elem_of_sort_on, list_elem_of_fmap. split.
  - intros (r & -> & [Hl Hr]%list_elem_of_filter). exists r. split; [|done]. by apply is_latest_spec.
  - intros (r & Hf & ->). exists r. split; [done|]. apply list_elem_of_filter. split; [|apply Hf].
    apply is_latest_spec; [apply Hf|done].
Qed.
(** At most one revision of an entity is in force. *)
Lemma in_force_unique g v hist r r' :
  NoDup (revision_key key <$> hist) -> in_force g v hist r -> in_force g v hist r' -> rkey r = rkey r' -> r = r'.
Proof.
  intros Hd (Hr & _ & Hv & Hm) (Hr' & _ & Hv' & Hm') Hk.
  apply (NoDup_key_inj (revision_key key) hist); [done..|]. unfold revision_key. rewrite Hk. f_equal.
  specialize (Hm r' Hr' (eq_sym Hk) Hv'). specialize (Hm' r Hr Hk Hv). lia.
Qed.
Lemma latest_NoDup g v hist : NoDup (revision_key key <$> hist) -> NoDup ((fun x => (key x).2) <$> latest_rows key g v hist).
Proof.
  intros Hd. unfold latest_rows. rewrite sort_on_perm, <-list_fmap_compose.
  apply NoDup_fmap_2_strong.
  - intros r r' [Hl Hr]%list_elem_of_filter [Hl' Hr']%list_elem_of_filter He.
    apply is_latest_spec in Hl; [|done]. apply is_latest_spec in Hl'; [|done].
    apply (in_force_unique g v hist); [done..|]. cbn in He. destruct Hl as (_ & Hg & _), Hl' as (_ & Hg' & _).
    destruct (rkey r), (rkey r'). cbn in *. congruence.
  - apply NoDup_filter. by eapply NoDup_fmap_1.
Qed.
(** Two histories with the same revisions in force give the same rows. *)
Lemma latest_rows_same g v v' hist hist' :
  NoDup (revision_key key <$> hist) -> NoDup (revision_key key <$> hist') ->
  (forall x, (exists r, in_force g v hist r /\ x = rv_row r) <-> (exists r, in_force g v' hist' r /\ x = rv_row r)) ->
  latest_rows key g v hist = latest_rows key g v' hist'.
Proof.
  intros Hd Hd' He.
  rewrite <-(sort_on_id (fun x => (key x).2) (latest_rows key g v hist)) by apply sort_on_sorted.
  rewrite <-(sort_on_id (fun x => (key x).2) (latest_rows key g v' hist')) by apply sort_on_sorted.
  apply sort_on_same; [by apply latest_NoDup..|]. intros x. rewrite !elem_of_latest. apply He.
Qed.
(** The rows of other graphs do not matter. *)
Lemma latest_of_graph g v hist :
  latest_rows key g v hist = latest_rows key g v (filter (fun r => (rkey r).1 = g) hist).
Proof.
  unfold latest_rows. do 2 f_equal. rewrite filter_filter. apply filter_ext_in. intros r Hr.
  unfold is_latest. destruct (String.eqb_spec (rkey r).1 g) as [Hg|Hg]; cbn; [|split; [done|by intros [? _]]].
  assert (existsb (newer key v r) (filter (fun r => (rkey r).1 = g) hist) = existsb (newer key v r) hist) as ->; [|naive_solver].
  apply eq_bool_prop_intro. rewrite !Is_true_true, !existsb_exists. split.
  - intros (r' & [_ Hr']%list_elem_of_In%list_elem_of_filter & Hn). exists r'. split; [by apply list_elem_of_In|done].
  - intros (r' & Hr'%list_elem_of_In & Hn). exists r'. split; [|done]. apply list_elem_of_In, list_elem_of_filter.
    split; [|done]. unfold newer in Hn. apply andb_true_iff in Hn as [[->%bool_decide_eq_true _]%andb_true_iff _]. done.
Qed.
(** Revisions of later versions do not matter. *)
Lemma latest_app_later g v hist new :
  (forall r, r ∈ new -> v < rv_version r) -> latest_rows key g v (hist ++ new) = latest_rows key g v hist.
Proof.
  intros Hn. unfold latest_rows. do 2 f_equal. rewrite filter_app, (filter_none _ new), app_nil_r.
  - apply filter_ext_in. intros r Hr. unfold is_latest. rewrite existsb_app.
    assert (existsb (newer key v r) new = false) as ->; [|by rewrite orb_false_r].
    apply not_true_iff_false. intros (r' & Hr'%list_elem_of_In%Hn & Hv)%existsb_exists. unfold newer in Hv.
    apply andb_true_iff in Hv as [[_ Hv%Z.leb_le]%andb_true_iff _]. lia.
  - intros r Hr%Hn. unfold is_latest. rewrite !andb_true_iff, Z.leb_le. lia.
Qed.
(** A new version: the new revisions, and the old ones of the other entities. *)
Lemma in_force_append g v hist new r :
  (forall r, r ∈ hist -> (rkey r).1 = g -> rv_version r <= v) ->
  (forall r, r ∈ new -> rv_version r = v + 1 /\ (rkey r).1 = g) ->
  in_force g (v + 1) (hist ++ new) r <->
  r ∈ new \/ (in_force g v hist r /\ forall r', r' ∈ new -> rkey r' <> rkey r).
Proof.
  intros Hh Hn. split.
  - intros ([Hr|Hr]%elem_of_app & Hg & Hv & Hm); [right|by left]. split.
    + split_and!; [done|done|by apply Hh|]. intros r' Hr' Hk Hv'. apply Hm; [set_solver|done|lia].
    + intros r' Hr' Hk. destruct (Hn r' Hr') as [Hv' Hg']. specialize (Hm r' ltac:(set_solver) Hk ltac:(lia)).
      specialize (Hh r Hr Hg). lia.
  - intros [Hr|[(Hr & Hg & Hv & Hm) Hno]].
    + destruct (Hn r Hr) as [Hv Hg]. split_and!; [set_solver|done|lia|]. lia.
    + split_and!; [set_solver|done|lia|]. intros r' [Hr'|Hr']%elem_of_app Hk Hv'.
      * apply Hm; [done|done|]. apply Hh; [done|congruence].
      * by destruct (Hno r' Hr').
Qed.
Lemma latest_append g v hist (revs full : list R) new :
  NoDup (revision_key key <$> hist ++ new) -> new ≡ₚ (mkRevision (v + 1) <$> revs) ->
  (forall r, r ∈ hist -> (rkey r).1 = g -> rv_version r <= v) ->
  (forall x, x ∈ full -> (key x).1 = g) -> NoDup ((fun x => (key x).2) <$> full) ->
  (forall x, x ∈ revs -> x ∈ full) -> (forall x, x ∈ full -> x ∈ revs \/ x ∈ latest_rows key g v hist) ->
  (forall x, x ∈ latest_rows key g v hist -> (key x).2 ∈ (fun x => (key x).2) <$> full) ->
  latest_rows key g (v + 1) (hist ++ new) = sort_on (fun x => (key x).2) full.
Proof.
  intros Hd Hn Hh Hg Hf Hr Hfull Hold.
  assert (forall r, r ∈ new <-> exists x, r = mkRevision (v + 1) x /\ x ∈ revs) as Hnew
    by (intros r; rewrite Hn; apply list_elem_of_fmap).
  assert (forall x y, x ∈ full -> y ∈ full -> key x = key y -> x = y) as Hinj.
  { intros x y Hx Hy Hk. apply (NoDup_key_inj (fun x => (key x).2) full); [done..|]. by rewrite Hk. }
  assert (NoDup (revision_key key <$> hist)) as Hd1 by (rewrite fmap_app in Hd; by apply NoDup_app in Hd as (? & _)).
  rewrite <-(sort_on_id (fun x => (key x).2) (latest_rows key g (v + 1) (hist ++ new))) by apply sort_on_sorted.
  apply sort_on_same; [by apply latest_NoDup|done|]. intros x. rewrite elem_of_latest.
  assert (forall r, r ∈ new -> rv_version r = v + 1 /\ (rkey r).1 = g) as Hng.
  { intros r (y & -> & Hy)%Hnew. cbn. auto. }
  split.
  - intros (r & [Hin|[Hin Hno]]%in_force_append & ->); [| |done..].
    + apply Hnew in Hin as (y & -> & Hy). by apply Hr.
    + assert (rv_row r ∈ latest_rows key g v hist) as Hx by (apply elem_of_latest; eauto).
      destruct (proj1 (list_elem_of_fmap _ _ _) (Hold _ Hx)) as (y & Hk & Hy).
      assert (key y = rkey r) as Hk'.
      { destruct Hin as (_ & Hg1 & _). specialize (Hg y Hy). destruct (key y), (rkey r). cbn in *. congruence. }
      destruct (Hfull y Hy) as [Hy'|Hy'].
      * exfalso. apply (Hno (mkRevision (v + 1) y)); [apply Hnew; eauto|done].
      * assert (rv_row r = y) as ->; [|done].
        apply (NoDup_key_inj (fun x => (key x).2) (latest_rows key g v hist)); [by apply latest_NoDup|done..].
  - intros Hx. destruct (decide (Exists (fun y => key y = key x) revs)) as [(y & Hy & Hk)%Exists_exists|Hno].
    + assert (y = x) as -> by auto. exists (mkRevision (v + 1) x). split; [|done].
      apply in_force_append; [done..|]. left. apply Hnew. eauto.
    + destruct (Hfull x Hx) as [Hx'|(r & Hin & ->)%elem_of_latest]; [exfalso; apply Hno, Exists_exists; eauto|].
      exists r. split; [|done]. apply in_force_append; [done..|]. right. split; [done|].
      intros r' (y & -> & Hy)%Hnew Hk. apply Hno, Exists_exists. eauto.
Qed.
(** Compaction: what is in force at the floor stands for everything up to it. *)
Lemma in_force_compact g f v hist hist' x :
  f <= v ->
  (forall r, r ∈ hist' <-> (r ∈ hist /\ ~ ((rkey r).1 = g /\ rv_version r <= f)) \/
                           (rv_version r = f /\ exists r0, in_force g f hist r0 /\ rv_row r = rv_row r0)) ->
  (exists r, in_force g v hist r /\ x = rv_row r) <-> (exists r, in_force g v hist' r /\ x = rv_row r).
Proof.
  intros Hfv Hh'. split.
  - intros (r & (Hr & Hg & Hv & Hm) & ->). destruct (decide (rv_version r <= f)) as [Hf|Hf].
    + exists (mkRevision f (rv_row r)). split; [|done]. split_and!; cbn; [|done|done|].
      * apply Hh'. right. split; [done|]. exists r. split; [|done]. split_and!; [done..|]. intros r' Hr' Hk Hv'. apply Hm; [done|done|lia].
      * intros r' [[Hr' Hn]|[-> _]]%Hh' Hk Hv'; [|done]. specialize (Hm r' Hr' Hk Hv'). lia.
    + exists r. split; [|done]. split_and!; [|done|done|].
      * apply Hh'. left. split; [done|]. lia.
      * intros r' [[Hr' _]|[-> _]]%Hh' Hk Hv'; [by apply Hm|lia].
  - intros (r & (Hr & Hg & Hv & Hm) & ->). apply Hh' in Hr as [[Hr Hn]|[Hf (r0 & Hr0 & Hrow)]].
    + exists r. split; [|done]. split_and!; [done..|]. intros r' Hr' Hk Hv'.
      destruct (decide (rv_version r' <= f)) as [Hf'|Hf']; [|apply Hm; [|done..]; apply Hh'; left; split; [done|lia]].
      assert (~ rv_version r <= f) by naive_solver. lia.
    + exists r0. split; [|done]. destruct Hr0 as (Hr0 & Hg0 & Hv0 & Hm0). split_and!; [done|done|lia|].
      intros r' Hr' Hk Hv'. destruct (decide (rv_version r' <= f)) as [Hf'|Hf']; [by apply Hm0|].
      assert (rv_version r' <= rv_version r) as Hle; [|lia].
      apply Hm; [apply Hh'; left; split; [done|lia]|congruence|done].
Qed.
End LatestFacts.

(** ** The content of a version *)

Lemma dangling_spec ids es :
  dangling ids es = false <-> forall e, e ∈ es -> source_node_id e ∈ ids /\ target_node_id e ∈ ids.
Proof.
  unfold dangling. rewrite <-not_true_iff_false, existsb_exists. split.
  - intros Hn e He. split; apply dec_stable; intros Hx; apply Hn; exists e; (split; [by apply list_elem_of_In|]);
      rewrite (bool_decide_eq_false_2 _ Hx); [done|by rewrite orb_true_r].
  - intros Hall (e & He%list_elem_of_In & Hx). destruct (Hall e He) as [H1 H2]. by rewrite !bool_decide_eq_true_2 in Hx.
Qed.

Section Content.
Context `{ModelText, Sha256}.
Implicit Types (t : Tables) (g : string) (v : Z).

(** Reading back the text of a node gives the node. *)
Definition text_ok (n : AnyNode) : Prop := _node_from_json (model_dump_json n) = Ok n.
Definition canonical_node (r : node_row) : Prop := exists n, r = row_of_node n /\ text_ok n.
Definition canonical_edge (r : edge_row) : Prop := exists e, r = row_of_edge e.
Definition ok_of {A} (r : result A) : option A := match r with Ok a => Some a | Raise _ => None end.
Definition node_of (r : node_row) : option AnyNode := ok_of (_node_from_json (nr_payload_json r)).
Definition edge_of (r : edge_row) : option VPGEdge := ok_of (_edge_from_row r).
Definition content t g v : list AnyNode * list VPGEdge :=
  (omap node_of (latest_rows node_key g v (graph_node_history t)),
   omap edge_of (latest_rows edge_key g v (graph_edge_history t))).

Lemma edge_row_roundtrip e : _edge_from_row (row_of_edge e) = Ok e.
Proof. destruct e as [? ? [] ? ? ? ? ?]; done. Qed.
Lemma row_of_edge_inj e e' : row_of_edge e = row_of_edge e' -> e = e'.
Proof. intros E. pose proof (edge_row_roundtrip e) as He. rewrite E, edge_row_roundtrip in He. congruence. Qed.
Lemma row_of_node_inj n n' : text_ok n -> text_ok n' -> row_of_node n = row_of_node n' -> n = n'.
Proof. unfold text_ok. intros Hn Hn' [= _ _ _ E]. rewrite E in Hn. congruence. Qed.
Lemma node_of_row n : text_ok n -> node_of (row_of_node n) = Some n.
Proof. unfold node_of. cbn. by intros ->. Qed.
Lemma edge_of_row e : edge_of (row_of_edge e) = Some e.
Proof. unfold edge_of. by rewrite edge_row_roundtrip. Qed.
Lemma canonical_nodes rows : Forall canonical_node rows ->
  rows = row_of_node <$> omap node_of rows /\ Forall text_ok (omap node_of rows).
Proof.
  induction 1 as [|? rows (n & -> & Hn) _ [IH1 IH2]]; [done|]. cbn. rewrite (node_of_row n Hn). cbn.
  split; [by rewrite <-IH1|by constructor].
Qed.
Lemma canonical_edges rows : Forall canonical_edge rows -> rows = row_of_edge <$> omap edge_of rows.
Proof. induction 1 as [|? rows (e & ->) _ IH]; [done|]. cbn. rewrite edge_of_row. cbn. by rewrite <-IH. Qed.
Lemma nodes_of_rows (ns : list AnyNode) : Forall text_ok ns -> omap node_of (row_of_node <$> ns) = ns.
Proof. induction 1 as [|n ns Hn _ IH]; [done|]. cbn. rewrite node_of_row by done. by rewrite IH. Qed.
Lemma edges_of_rows (es : list VPGEdge) : omap edge_of (row_of_edge <$> es) = es.
Proof. induction es as [|e es IH]; [done|]. cbn. rewrite edge_of_row. by rewrite IH. Qed.

Abbreviation ids ns := ((fun n => nid n) <$> ns).
Abbreviation entries ns := ((fun n => (nid n, n)) <$> ns).
Lemma entries_keys (ns : list AnyNode) : (entries ns).*1 = ids ns.
Proof. by rewrite <-list_fmap_compose. Qed.
Lemma entries_values (ns : list AnyNode) : (entries ns).*2 = ns.
Proof. rewrite <-list_fmap_compose. apply list_fmap_id. Qed.

Lemma decode_nodes_rows g ns acc :
  Forall text_ok ns -> Forall (fun n => ngraph n = g) ns -> NoDup (acc.*1 ++ ids ns) ->
  decode_nodes g (row_of_node <$> ns) acc = Ok (acc ++ entries ns).
Proof.
  intros Ht. revert acc. induction Ht as [|n ns Hn _ IH]; intros acc Hg Hd; cbn; [by rewrite app_nil_r|].
  unfold text_ok in Hn. rewrite Hn. cbn. apply Forall_cons in Hg as [-> Hg].
  rewrite !String.eqb_refl. cbn. rewrite bool_decide_eq_false_2.
  - rewrite IH; [by rewrite <-app_assoc|done|]. by rewrite fmap_app, <-app_assoc.
  - rewrite dict_get_keys. intros Hin. apply NoDup_app in Hd as (_ & Hx & _). apply (Hx _ Hin). cbn. left.
Qed.
Lemma all_ok_edges (es : list VPGEdge) : all_ok _edge_from_row (row_of_edge <$> es) = Ok es.
Proof. induction es as [|e es IH]; cbn; [done|]. fold row_of_edge. rewrite edge_row_roundtrip. by rewrite IH. Qed.

(** ** The invariant of the durable tables *)

(** Entities of one graph, each once, edges between its nodes: what a version holds. *)
Record shaped g (c : list AnyNode * list VPGEdge) : Prop := {
  sh_nodes : NoDup (ids c.1);
  sh_edges : NoDup (edge_id <$> c.2);
  sh_graph : Forall (fun n => ngraph n = g) c.1;
  sh_edge_graph : Forall (fun e => edge_graph_id e = g) c.2;
  sh_closed : dangling (ids c.1) c.2 = false }.

Definition find_record t g := tbl_find gr_graph_id g (graphs t).
Definition find_version t g v := tbl_find version_key (g, v) (graph_versions t).
Definition find_snapshot t g v := tbl_find snapshot_key (g, v) (graph_projection_snapshots t).
Definition find_retention t g := tbl_find hr_graph_id g (graph_history_retention t).
Definition patch_key (p : patch_row) : string * Z := (pt_graph_id p, pt_committed_version p).
Definition find_patch t g v := tbl_find patch_key (g, v) (graph_patches t).
Abbreviation floor_of c := (earliest_recoverable_version c).
Definition rev_graph {R} (key : R -> string * string) (r : revision R) : string := (key (rv_row r)).1.

(** A patch row and its payload agree. *)
Definition patch_ok (g : string) (v : Z) (p : patch_row) : Prop :=
  exists op, pt_operations p = Some op /\ patch_id op = pt_patch_id p /\ patch_graph_id op = g /\
    expected_graph_version op = v - 1 /\ author_pid op = pt_author_pid p /\ idempotency_key op = pt_idempotency_key p.

Record graph_inv t g (r : GraphRecord) (c : HistoryRetentionContract) : Prop := {
  gi_floor : 0 <= floor_of c <= gr_current_version r;
  gi_versions v : is_Some (find_version t g v) <-> 0 <= v <= gr_current_version r;
  gi_parents v gv : find_version t g v = Some gv -> gv_parent_version gv = if v =? 0 then None else Some (v - 1);
  gi_init gv : find_version t g 0 = Some gv -> gv_patch_id gv = "init";
  gi_patches v : is_Some (find_patch t g v) <-> 1 <= v <= gr_current_version r;
  gi_patch v p gv : find_patch t g v = Some p -> find_version t g v = Some gv ->
    patch_ok g v p /\ gv_patch_id gv = pt_patch_id p;
  gi_snapshots v : find_snapshot t g v =
    if decide (floor_of c <= v) then (fun gv => mkSnapshot g v (gv_projection_hash gv)) <$> find_version t g v else None;
  gi_checkpoint : gv_projection_hash <$> find_version t g (floor_of c) = Some (checkpoint_projection_hash c);
  gi_node_rows rev : rev ∈ graph_node_history t -> rev_graph node_key rev = g ->
    floor_of c <= rv_version rev <= gr_current_version r;
  gi_edge_rows rev : rev ∈ graph_edge_history t -> rev_graph edge_key rev = g ->
    floor_of c <= rv_version rev <= gr_current_version r;
  gi_closed v : floor_of c <= v <= gr_current_version r -> dangling (ids (content t g v).1) (content t g v).2 = false;
  gi_hash v gv : floor_of c <= v -> find_version t g v = Some gv ->
    gv_projection_hash gv = compute_projection_hash g v (content t g v).1 (content t g v).2 None None }.

(** No row of a graph that does not exist. *)
Record no_rows t g : Prop := {
  nr_version v : find_version t g v = None;
  nr_snapshot v : find_snapshot t g v = None;
  nr_patch v : find_patch t g v = None;
  nr_retention : find_retention t g = None;
  nr_nodes rev : rev ∈ graph_node_history t -> rev_graph node_key rev <> g;
  nr_edges rev : rev ∈ graph_edge_history t -> rev_graph edge_key rev <> g }.

Record keys_ok t : Prop := {
  ko_graphs : NoDup (gr_graph_id <$> graphs t);
  ko_versions : NoDup (version_key <$> graph_versions t);
  ko_snapshots : NoDup (snapshot_key <$> graph_projection_snapshots t);
  ko_retention : NoDup (hr_graph_id <$> graph_history_retention t);
  ko_patches : NoDup (patch_key <$> graph_patches t);
  ko_patch_ids : NoDup (pt_patch_id <$> graph_patches t);
  ko_idempotency : NoDup (id_key <$> graph_idempotency t);
  ko_nodes : NoDup (node_key <$> graph_nodes_projection t);
  ko_edges : NoDup (edge_key <$> graph_edges_projection t);
  ko_node_history : NoDup (revision_key node_key <$> graph_node_history t);
  ko_edge_history : NoDup (revision_key edge_key <$> graph_edge_history t) }.

(** The idempotency rows are those of the committed patches. *)
Definition idem_of (p : patch_row) : idempotency_row :=
  mkIdempotency (pt_author_pid p) (pt_graph_id p) (pt_idempotency_key p) (pt_patch_id p) (pt_committed_version p)
    (pt_applied_at p).

Definition graph_state t g : Prop :=
  match find_record t g with
  | Some r => exists c, find_retention t g = Some c /\ graph_inv t g r c
  | None => no_rows t g
  end.
Record tables_ok t : Prop := {
  to_keys : keys_ok t;
  to_node_rows : Forall (fun r => canonical_node (rv_row r)) (graph_node_history t);
  to_edge_rows : Forall (fun r => canonical_edge (rv_row r)) (graph_edge_history t);
  to_idempotency : graph_idempotency t = idem_of <$> graph_patches t;
  to_graphs g : graph_state t g }.

(** The rows in force are those of the content. *)
Lemma latest_node_rows t g v : tables_ok t ->
  latest_rows node_key g v (graph_node_history t) = row_of_node <$> (content t g v).1 /\ Forall text_ok (content t g v).1.
Proof.
  intros Ht. apply canonical_nodes. apply Forall_forall. intros x (r & (Hr & _) & ->)%elem_of_latest.
  exact (proj1 (Forall_forall _ _) (to_node_rows t Ht) r Hr).
Qed.
Lemma latest_edge_rows t g v : tables_ok t ->
  latest_rows edge_key g v (graph_edge_history t) = row_of_edge <$> (content t g v).2.
Proof.
  intros Ht. apply canonical_edges. apply Forall_forall. intros x (r & (Hr & _) & ->)%elem_of_latest.
  exact (proj1 (Forall_forall _ _) (to_edge_rows t Ht) r Hr).
Qed.
Lemma content_shaped t g v r c :
  tables_ok t -> graph_inv t g r c -> floor_of c <= v <= gr_current_version r -> shaped g (content t g v).
Proof.
  intros Ht Hi Hv. destruct (latest_node_rows t g v Ht) as [Hn Hx]. pose proof (latest_edge_rows t g v Ht) as He.
  split.
  - pose proof (latest_NoDup node_key g v _ (ko_node_history t (to_keys t Ht))) as Hd.
    rewrite Hn, <-list_fmap_compose in Hd. exact Hd.
  - pose proof (latest_NoDup edge_key g v _ (ko_edge_history t (to_keys t Ht))) as Hd.
    rewrite He, <-list_fmap_compose in Hd. exact Hd.
  - apply Forall_forall. intros n Hin.
    assert (row_of_node n ∈ latest_rows node_key g v (graph_node_history t)) as (rev & (_ & Hg & _) & Hrow)%elem_of_latest
      by (rewrite Hn; by apply list_elem_of_fmap_2). by rewrite <-Hrow in Hg.
  - apply Forall_forall. intros e Hin.
    assert (row_of_edge e ∈ latest_rows edge_key g v (graph_edge_history t)) as (rev & (_ & Hg & _) & Hrow)%elem_of_latest
      by (rewrite He; by apply list_elem_of_fmap_2). by rewrite <-Hrow in Hg.
  - by apply (gi_closed t g r c).
Qed.
End Content.

(** * Reading a version back (load_projection_snapshot, graph_store.py)

    What a load returns on every branch, that the connection-local cache changes
    nothing but the order of the entries, and the histories the tables stand for. *)

Abbreviation ids ns := ((fun n => nid n) <$> ns).
Abbreviation entries ns := ((fun n => (nid n, n)) <$> ns).
Abbreviation floor_of c := (earliest_recoverable_version c).

Section Load.
Context `{ModelText, Sha256}.
Implicit Types (t : Tables) (s : GraphStore) (g : string) (v : Z).

Definition node_texts (ns : list AnyNode) : dict string := (fun n => (nid n, model_dump_json n)) <$> ns.
Definition edge_texts (es : list VPGEdge) : dict string := (fun e => (edge_id e, edge_dump_json e)) <$> es.
Definition projection_of (c : list AnyNode * list VPGEdge) : projection :=
  mkProjection (entries c.1) c.2 (node_texts c.1) (edge_texts c.2).

(** ** Hashes *)

(** The order of the entities does not matter. *)
Lemma hash_perm g v ns ns' es es' sn se :
  NoDup (ids ns) -> NoDup (edge_id <$> es) -> ns ≡ₚ ns' -> es ≡ₚ es' ->
  compute_projection_hash g v ns es sn se = compute_projection_hash g v ns' es' sn se.
Proof.
  intros Hn He Hp Hp'. unfold compute_projection_hash, projection_text.
  rewrite (sort_on_unique (fun n => nid n) ns ns'), (sort_on_unique edge_id es es'); [done| |done| |done];
    intros x y Hx Hy.
  - by apply (NoDup_key_inj edge_id es).
  - by apply (NoDup_key_inj (fun n => nid n) ns).
Qed.
Lemma foldr_hash_ext {A} (f h : A -> string) (l : list A) :
  (forall x, x ∈ l -> f x = h x) -> foldr (fun x acc => f x +:+ acc) "" l = foldr (fun x acc => h x +:+ acc) "" l.
Proof. induction l as [|x l IH]; intros Hx; cbn; [done|]. rewrite Hx by set_solver. by rewrite IH by set_solver. Qed.
(** Texts at hand that are the entities' own change nothing. *)
Lemma hash_texts g v ns es sn se :
  (forall d n x, sn = Some d -> n ∈ ns -> dict_get (nid n) d = Some x -> x = model_dump_json n) ->
  (forall d e x, se = Some d -> e ∈ es -> dict_get (edge_id e) d = Some x -> x = edge_dump_json e) ->
  compute_projection_hash g v ns es sn se = compute_projection_hash g v ns es None None.
Proof.
  intros Hn He. unfold compute_projection_hash, projection_text.
  rewrite (foldr_hash_ext (fun n => hash_entry (nid n) (default (model_dump_json n) (sn ≫= dict_get (nid n))))
             (fun n => hash_entry (nid n) (default (model_dump_json n) (None ≫= dict_get (nid n))))).
  1: rewrite (foldr_hash_ext (fun e => hash_entry (edge_id e) (default (edge_dump_json e) (se ≫= dict_get (edge_id e))))
             (fun e => hash_entry (edge_id e) (default (edge_dump_json e) (None ≫= dict_get (edge_id e))))); [done|].
  - intros e Hin%elem_of_sort_on. destruct se as [d|]; [|done]. cbn.
    destruct (dict_get (edge_id e) d) as [x|] eqn:E; [|done]. cbn. by rewrite (He d e x).
  - intros n Hin%elem_of_sort_on. destruct sn as [d|]; [|done]. cbn.
    destruct (dict_get (nid n) d) as [x|] eqn:E; [|done]. cbn. by rewrite (Hn d n x).
Qed.
Lemma node_texts_get ns n x :
  NoDup (ids ns) -> n ∈ ns -> dict_get (nid n) (node_texts ns) = Some x -> x = model_dump_json n.
Proof.
  intros Hd Hn (m & [= Hk ->] & Hm)%dict_get_elem%list_elem_of_fmap. f_equal.
  by apply (NoDup_key_inj (fun n => nid n) ns).
Qed.
Lemma edge_texts_get es e x :
  NoDup (edge_id <$> es) -> e ∈ es -> dict_get (edge_id e) (edge_texts es) = Some x -> x = edge_dump_json e.
Proof.
  intros Hd Hn (m & [= Hk ->] & Hm)%dict_get_elem%list_elem_of_fmap. f_equal. by apply (NoDup_key_inj edge_id es).
Qed.

(** ** The retention contract *)

Lemma contract_exact t g s r c : tables s = t -> tables_ok t ->
  find_record t g = Some r -> find_retention t g = Some c -> graph_inv t g r c ->
  get_history_retention_contract g s = (Ok c, s).
Proof.
  intros <- Ht Hr Hc Hi. unfold get_history_retention_contract. unfold find_record in Hr. unfold find_retention in Hc.
  rewrite get_record_bind, Hr, select_bind. cbn [sel RETENTION]. rewrite Hc.
  destruct (gi_floor _ _ _ _ Hi) as [Hf1 Hf2].
  replace ((floor_of c <? 0) || (gr_current_version r <? floor_of c)) with false by lia.
  rewrite vpg_if_bind, !select_bind. cbn [sel VERSIONS SNAPSHOTS].
  destruct (proj2 (gi_versions _ _ _ _ Hi (floor_of c)) ltac:(lia)) as [gv Hgv].
  pose proof (gi_snapshots _ _ _ _ Hi (floor_of c)) as Hs. rewrite decide_True, Hgv in Hs by lia. cbn in Hs.
  pose proof (gi_checkpoint _ _ _ _ Hi) as Hh. rewrite Hgv in Hh. cbn in Hh. injection Hh as Hh.
  unfold find_version in Hgv. unfold find_snapshot in Hs. rewrite Hgv, Hs. cbn. by rewrite Hh, String.eqb_refl.
Qed.

(** ** Loads *)

Lemma load_ok t g v s r c : tables s = t -> tables_ok t ->
  find_record t g = Some r -> find_retention t g = Some c -> graph_inv t g r c ->
  floor_of c <= v <= gr_current_version r ->
  load_history g v s = (Ok (projection_of (content t g v)), s).
Proof.
  intros Es Ht Hr Hc Hi Hv. unfold load_history. rewrite (bind_Ok _ _ _ _ _ (contract_exact t g s r c Es Ht Hr Hc Hi)).
  replace (v <? floor_of c) with false by lia. rewrite vpg_if_bind, !select_bind. cbn [sel VERSIONS SNAPSHOTS]. rewrite Es.
  destruct (gi_floor _ _ _ _ Hi) as [Hf1 Hf2].
  destruct (proj2 (gi_versions _ _ _ _ Hi v) ltac:(lia)) as [gv Hgv].
  pose proof (gi_snapshots _ _ _ _ Hi v) as Hs. rewrite decide_True, Hgv in Hs by lia. cbn in Hs.
  pose proof (gi_hash _ _ _ _ Hi v gv ltac:(lia) Hgv) as Hh.
  unfold find_version in Hgv. unfold find_snapshot in Hs. rewrite Hgv, Hs, select_bind. cbn [sel NODE_HISTORY]. rewrite Es.
  destruct (latest_node_rows t g v Ht) as [Hn Hx]. rewrite Hn.
  destruct (content_shaped t g v r c Ht Hi Hv) as [S1 S2 S3 S4 S5].
  rewrite (decode_nodes_rows g _ [] Hx S3) by exact S1. cbn [or_recovery_failed]. rewrite of_Ok_bind, select_bind.
  cbn [sel EDGE_HISTORY]. rewrite Es, (latest_edge_rows t g v Ht), all_ok_edges. cbn [or_recovery_failed]. rewrite of_Ok_bind.
  assert (existsb (fun e => negb (String.eqb (edge_graph_id e) g)) (content t g v).2 = false) as ->.
  { apply not_true_iff_false. intros (e & He%list_elem_of_In & Hne)%existsb_exists.
    rewrite (proj1 (Forall_forall _ _) S4 e He), String.eqb_refl in Hne. done. }
  rewrite bool_decide_eq_true_2, vpg_if_bind by done. cbn [negb].
  rewrite vpg_if_bind, app_nil_l, entries_keys, S5, vpg_if_bind, entries_values. cbn [ss_projection_hash].
  rewrite <-Hh, String.eqb_refl. cbn [negb orb]. rewrite vpg_if_bind.
  unfold projection_of, node_texts, edge_texts, mret, M_ret. by rewrite <-list_fmap_compose.
Qed.
Lemma load_pruned t g v s r c : tables s = t -> tables_ok t ->
  find_record t g = Some r -> find_retention t g = Some c -> graph_inv t g r c -> v < floor_of c ->
  load_history g v s = (Raise (vpg_error VPGCode.GRAPH_HISTORY_PRUNED), s).
Proof.
  intros Es Ht Hr Hc Hi Hv. unfold load_history. rewrite (bind_Ok _ _ _ _ _ (contract_exact t g s r c Es Ht Hr Hc Hi)).
  by replace (v <? floor_of c) with true by lia.
Qed.
Lemma load_beyond t g v s r c : tables s = t -> tables_ok t ->
  find_record t g = Some r -> find_retention t g = Some c -> graph_inv t g r c -> gr_current_version r < v ->
  load_history g v s = (Raise (vpg_error VPGCode.GRAPH_RECOVERY_FAILED), s).
Proof.
  intros Es Ht Hr Hc Hi Hv. unfold load_history. rewrite (bind_Ok _ _ _ _ _ (contract_exact t g s r c Es Ht Hr Hc Hi)).
  pose proof (gi_floor _ _ _ _ Hi) as Hf. replace (v <? floor_of c) with false by lia.
  rewrite vpg_if_bind, !select_bind. cbn [sel VERSIONS SNAPSHOTS].
  destruct (tbl_find version_key (g, v) (graph_versions (tables s))) as [gv|] eqn:E.
  - exfalso. subst t. assert (is_Some (find_version (tables s) g v)) as Hx%(gi_versions _ _ _ _ Hi) by (exists gv; exact E). lia.
  - rewrite get_record_bind. unfold find_record in Hr. rewrite Es, Hr. done.
Qed.
Lemma load_unknown t g v s : tables s = t -> find_record t g = None ->
  load_history g v s = (Raise (vpg_error VPGCode.GRAPH_NOT_FOUND), s).
Proof.
  intros <- Hr. unfold load_history, get_history_retention_contract. rewrite bind_assoc, get_record_bind.
  unfold find_record in Hr. by rewrite Hr.
Qed.

(** ** The histories the tables stand for *)

(** What a graph holds: whether it takes patches, the first version that can be read,
    and the nodes and edges of that version and of each one since. *)
Record History : Type := mkHistory {
  h_closed : bool;
  h_floor : Z;
  h_versions : list (list AnyNode * list VPGEdge) }.
Definition history t g : option History :=
  match find_record t g, find_retention t g with
  | Some r, Some c =>
      Some (mkHistory (gr_closed r) (floor_of c)
              (content t g <$> seqZ (floor_of c) (gr_current_version r + 1 - floor_of c)))
  | _, _ => None
  end.
Definition h_current (h : History) : Z := h_floor h + Z.of_nat (length (h_versions h)) - 1.

(** The version [v] of a history. *)
Definition h_at (h : History) (v : Z) : option (list AnyNode * list VPGEdge) :=
  if v <? h_floor h then None else h_versions h !! Z.to_nat (v - h_floor h).

Lemma history_Some t g h : tables_ok t -> history t g = Some h ->
  exists r c, find_record t g = Some r /\ find_retention t g = Some c /\ graph_inv t g r c /\
    h = mkHistory (gr_closed r) (floor_of c) (content t g <$> seqZ (floor_of c) (gr_current_version r + 1 - floor_of c)).
Proof.
  intros Ht. unfold history. pose proof (to_graphs t Ht g) as Hg. unfold graph_state in Hg.
  destruct (find_record t g) as [r|] eqn:Er; [|done]. destruct Hg as (c & Hc & Hi). rewrite Hc. intros [= <-]. eauto 6.
Qed.
Lemma history_None t g : tables_ok t -> history t g = None -> find_record t g = None.
Proof.
  intros Ht. unfold history. pose proof (to_graphs t Ht g) as Hg. unfold graph_state in Hg.
  destruct (find_record t g) as [r|] eqn:Er; [|done]. destruct Hg as (c & Hc & Hi). by rewrite Hc.
Qed.
Lemma h_at_content t g a b cl v :
  h_at (mkHistory cl a (content t g <$> seqZ a (b + 1 - a))) v = if decide (a <= v <= b) then Some (content t g v) else None.
Proof.
  unfold h_at. cbn. destruct (Z.ltb_spec v a); [by rewrite decide_False by lia|].
  rewrite list_lookup_fmap. case_decide.
  - rewrite (proj2 (lookup_seqZ a (b + 1 - a) (Z.to_nat (v - a)) v)) by lia. done.
  - by rewrite (lookup_seqZ_ge a (b + 1 - a) (Z.to_nat (v - a))) by lia.
Qed.

(** ** The cache *)

(** The same nodes, edges and texts, in some order. *)
Record agrees (p : projection) (c : list AnyNode * list VPGEdge) : Prop := {
  ag_nodes : pj_nodes p ≡ₚ entries c.1;
  ag_edges : pj_edges p ≡ₚ c.2;
  ag_node_json : pj_node_json p ≡ₚ node_texts c.1;
  ag_edge_json : pj_edge_json p ≡ₚ edge_texts c.2 }.
Lemma projection_of_agrees c : agrees (projection_of c) c.
Proof. by split. Qed.

(** An entry whose fingerprint is the current one holds a version that can be read. *)
Record cache_ok s : Prop := {
  co_keys : NoDup (pc_key <$> _projection_cache s);
  co_bound e : e ∈ _projection_cache s ->
    ((pc_fingerprint e).1 <= total_changes s)%N /\ ((pc_fingerprint e).2 <= data_version s)%N;
  co_content e : e ∈ _projection_cache s -> pc_fingerprint e = _projection_fingerprint s ->
    exists h c, history (tables s) (pc_graph_id e) = Some h /\ h_at h (pc_version e) = Some c /\ agrees (pc_projection e) c }.
Definition store_ok s : Prop := tables_ok (tables s) /\ cache_ok s.

Lemma load_known s g v h c : store_ok s -> history (tables s) g = Some h -> h_at h v = Some c ->
  load_history g v s = (Ok (projection_of c), s) /\ c = content (tables s) g v.
Proof.
  intros [Ht _] Hh Hc. destruct (history_Some _ _ _ Ht Hh) as (r & ret & Hr & Hret & Hi & ->).
  rewrite h_at_content in Hc. case_decide as Hv; [|done]. injection Hc as <-. split; [|done]. by eapply load_ok.
Qed.

(** What a load gives, on every branch. *)
Definition load_result (h : option History) (v : Z) : result (list AnyNode * list VPGEdge) :=
  match h with
  | None => Raise (vpg_error VPGCode.GRAPH_NOT_FOUND)
  | Some h =>
      match h_at h v with
      | Some c => Ok c
      | None => Raise (vpg_error (if v <? h_floor h then VPGCode.GRAPH_HISTORY_PRUNED else VPGCode.GRAPH_RECOVERY_FAILED))
      end
  end.
Lemma load_exact s g v : tables_ok (tables s) ->
  load_history g v s = (match load_result (history (tables s) g) v with Ok c => Ok (projection_of c) | Raise e => Raise e end, s).
Proof.
  intros Ht. destruct (history (tables s) g) as [h|] eqn:Eh; cbn [load_result].
  - destruct (history_Some _ _ _ Ht Eh) as (r & c & Hr & Hc & Hi & ->). rewrite h_at_content. case_decide as Hv.
    + by eapply load_ok.
    + cbn [h_floor]. destruct (Z.ltb_spec v (floor_of c)); [by eapply load_pruned|]. eapply load_beyond; [done..|]. lia.
  - apply load_unknown with (t := tables s); [done|]. by apply history_None.
Qed.

(** Everything but the cache is the same. *)
Definition same_db s s' : Prop := exists c, s' = with_cache (fun _ => c) s.
Lemma same_db_trans s1 s2 s3 : same_db s1 s2 -> same_db s2 s3 -> same_db s1 s3.
Proof. intros [c ->] [c' ->]. by exists c'. Qed.

Lemma cached_projection_ok s g v : store_ok s ->
  exists o s', _cached_projection g v s = (Ok o, s') /\ same_db s s' /\ store_ok s' /\
    forall e, o = Some e -> exists h c, history (tables s) g = Some h /\ h_at h v = Some c /\ agrees (pc_projection e) c.
Proof.
  intros [Ht Hc]. unfold _cached_projection. destruct (tbl_find pc_key (g, v) _) as [e|] eqn:E.
  - apply tbl_find_Some in E as [[= <- <-] He]. case_decide as Hf.
    + eexists _, _. split_and!; [done|by eexists (_projection_cache s); destruct s|done|]. intros e' [= <-]. by apply Hc.
    + eexists _, _. split_and!; [done|by eexists| |done]. split; [done|]. destruct Hc as [H1 H2 H3]. split; cbn.
      * by apply filter_keys_NoDup.
      * intros e' [_ He']%list_elem_of_filter. by apply H2.
      * intros e' [_ He']%list_elem_of_filter. by apply H3.
  - eexists _, _. split_and!; [done|by eexists (_projection_cache s); destruct s|done|done].
Qed.
Lemma remember_ok s g v p h c : store_ok s -> history (tables s) g = Some h -> h_at h v = Some c -> agrees p c ->
  exists s', _remember_projection g v p s = (Ok tt, s') /\ same_db s s' /\ store_ok s'.
Proof.
  intros [Ht [H1 H2 H3]] Hh Hc Ha. eexists. split_and!; [done|by eexists|]. split; [done|].
  set (l := filter (fun c0 => ~ (pc_graph_id c0 = g /\ pc_key c0 <> (g, v))) (_projection_cache s)).
  assert (NoDup (pc_key <$> l)) as Hl by by apply filter_keys_NoDup.
  assert (forall e, e ∈ tbl_upsert pc_key (fun _ c0 => c0) (mkCache g v p (_projection_fingerprint s)) l ->
            e ∈ _projection_cache s \/ e = mkCache g v p (_projection_fingerprint s)) as He.
  { intros e [He|[->|(e0 & _ & _ & ->)]]%elem_of_tbl_upsert; [|by right..]. left.
    by apply list_elem_of_filter in He as [_ He]. }
  split; cbn.
  - by apply tbl_upsert_NoDup.
  - intros e [Hin| ->]%He; [by apply H2|]. cbn. lia.
  - intros e [Hin| ->]%He Hf; [by apply H3|]. eauto.
Qed.
Lemma load_parent_safe s g v : store_ok s -> exists r s', load_parent g v s = (r, s') /\ same_db s s' /\ store_ok s'.
Proof.
  intros Hs. destruct (cached_projection_ok s g v Hs) as (o & s1 & E1 & Hd1 & Hs1 & Ho).
  unfold load_parent. rewrite (bind_Ok _ _ _ _ _ E1). destruct o as [e|]; [eauto 6|].
  pose proof (load_exact s1 g v (proj1 Hs1)) as El.
  destruct (history (tables s1) g) as [h|] eqn:Eh; cbn [load_result] in El.
  2:{ rewrite (bind_Raise _ _ _ _ _ El). eauto 6. }
  destruct (h_at h v) as [c|] eqn:Ec; [|rewrite (bind_Raise _ _ _ _ _ El); eauto 6].
  rewrite (bind_Ok _ _ _ _ _ El).
  destruct (remember_ok s1 g v (projection_of c) h c Hs1 Eh Ec (projection_of_agrees c)) as (s2 & E2 & Hd2 & Hs2).
  rewrite (bind_Ok _ _ _ _ _ E2). eexists _, s2. split_and!; [done| |done]. by eapply same_db_trans.
Qed.
Lemma load_parent_ok s g v h c : store_ok s -> history (tables s) g = Some h -> h_at h v = Some c ->
  exists p s', load_parent g v s = (Ok p, s') /\ agrees p c /\ same_db s s' /\ store_ok s'.
Proof.
  intros Hs Hh Hc. destruct (cached_projection_ok s g v Hs) as (o & s1 & E1 & Hd1 & Hs1 & Ho).
  unfold load_parent. rewrite (bind_Ok _ _ _ _ _ E1). destruct o as [e|].
  - destruct (Ho e eq_refl) as (h' & c' & Hh' & Hc' & Ha). exists (pc_projection e), s1. split_and!; [done| |done..]. congruence.
  - destruct Hd1 as [l ->]. destruct (load_known _ g v h c Hs1 Hh Hc) as [El _]. rewrite (bind_Ok _ _ _ _ _ El).
    destruct (remember_ok _ g v (projection_of c) h c Hs1 Hh Hc (projection_of_agrees c)) as (s2 & E2 & Hd2 & Hs2).
    rewrite (bind_Ok _ _ _ _ _ E2). exists (projection_of c), s2. split_and!; [done|apply projection_of_agrees| |done].
    eapply same_db_trans; [by eexists|exact Hd2].
Qed.
End Load.
