(* ===== verification/GraphOps.v ===== *)
(** * What the writing operations do to the histories

    Each operation of the store, from a consistent store to a consistent one, as a
    change of the histories the tables stand for. *)

From S2P Require Import Prelude PyString Storage VpgModels Agents Invalidation Verification Patches PatchValidator Derivation GraphStore GraphCommit GraphFacts.
Open Scope Z_scope.

(** ** Tables as lenses *)

Class Lawful {R} (t : table R) : Prop := {
  sel_upd f tb : sel t (upd t f tb) = f (sel t tb);
  upd_same f tb : f (sel t tb) = sel t tb -> upd t f tb = tb;
  upd_upd f h tb : upd t f (upd t h tb) = upd t (fun l => f (h l)) tb;
  upd_ext f h tb : f (sel t tb) = h (sel t tb) -> upd t f tb = upd t h tb }.
Ltac lawful := split; [by intros f []|intros f []; cbn; by intros ->|by intros f h []|intros f h []; cbn; by intros ->].
#[export] Instance graphs_lawful : Lawful GRAPHS.
Proof. lawful. Qed.
#[export] Instance versions_lawful : Lawful VERSIONS.
Proof. lawful. Qed.
#[export] Instance patches_lawful : Lawful PATCHES.
Proof. lawful. Qed.
#[export] Instance events_lawful : Lawful EVENTS.
Proof. lawful. Qed.
#[export] Instance nodes_lawful : Lawful NODES.
Proof. lawful. Qed.
#[export] Instance edges_lawful : Lawful EDGES.
Proof. lawful. Qed.
#[export] Instance snapshots_lawful : Lawful SNAPSHOTS.
Proof. lawful. Qed.
#[export] Instance node_history_lawful : Lawful NODE_HISTORY.
Proof. lawful. Qed.
#[export] Instance edge_history_lawful : Lawful EDGE_HISTORY.
Proof. lawful. Qed.
#[export] Instance retention_lawful : Lawful RETENTION.
Proof. lawful. Qed.
#[export] Instance lifecycle_lawful : Lawful LIFECYCLE.
Proof. lawful. Qed.
#[export] Instance idempotency_lawful : Lawful IDEMPOTENCY.
Proof. lawful. Qed.
#[export] Instance d3_lawful : Lawful D3.
Proof. lawful. Qed.

(** ** The change counter *)

(** Writes: the cache is left alone, and the counter moves when a table does. *)
Record writes (s s' : GraphStore) : Prop := {
  wr_cache : _projection_cache s' = _projection_cache s;
  wr_version : data_version s' = data_version s;
  wr_mode : _read_only s' = _read_only s;
  wr_count : (total_changes s <= total_changes s')%N;
  wr_tables : total_changes s' = total_changes s -> tables s' = tables s }.
#[export] Instance writes_preorder : PreOrder writes.
Proof.
  split; [by intros s|]. intros s1 s2 s3 [A1 A2 A3 A4 A5] [B1 B2 B3 B4 B5]. split; [congruence..|lia|].
  intros E. rewrite B5, A5; [done|lia..].
Qed.
Lemma exec_writes {R} (t : table R) `{!Lawful t} n f s :
  (n = 0%nat -> f (sel t (tables s)) = sel t (tables s)) -> writes s (exec t n f s).2.
Proof. intros Hf. split; cbn; [done..|lia|]. intros E. apply upd_same, Hf. lia. Qed.

Section Writes.
Context {R : Type} (t : table R) `{!Lawful t}.
Lemma insert_writes {K} `{EqDecision K} (key : R -> K) r : within writes (insert_into t key r).
Proof.
  unfold insert_into, select. apply (within_bind writes); [apply (within_gets writes)|]. intros rows.
  apply (within_bind writes); [apply (within_raise_if writes)|]. intros _ s. by apply exec_writes.
Qed.
Lemma upsert_writes {K} `{EqDecision K} (key : R -> K) r : within writes (upsert_into t key r).
Proof. intros s. by apply exec_writes. Qed.
Lemma delete_writes p : within writes (delete_where t p).
Proof.
  intros s. unfold delete_where. rewrite select_bind. cbv zeta.
  apply (exec_writes t _ (filter (fun r => p r = false)) s). intros E. apply filter_all. intros r Hr.
  apply not_true_iff_false. intros Hp. apply length_zero_iff_nil in E.
  assert (r ∈ filter (fun r => p r = true) (sel t (tables s))) as Hx by by apply list_elem_of_filter. rewrite E in Hx. set_solver.
Qed.
Lemma update_writes p f : within writes (update_set t p f).
Proof.
  intros s. unfold update_set. rewrite select_bind. cbv zeta.
  apply (exec_writes t _ (fmap (fun r => if p r then f r else r)) s). intros E.
  rewrite <-(list_fmap_id (sel t (tables s))) at 2. apply list_fmap_ext. intros i r Hr. destruct (p r) eqn:Hp; [|done].
  apply length_zero_iff_nil in E.
  assert (r ∈ filter (fun r => p r = true) (sel t (tables s))) as Hx
    by (apply list_elem_of_filter; split; [done|by eapply list_elem_of_lookup_2]).
  rewrite E in Hx. set_solver.
Qed.
End Writes.
#[export] Hint Extern 1 (within writes (insert_into _ _ _)) => apply insert_writes; apply _ : lhos.
#[export] Hint Extern 1 (within writes (upsert_into _ _ _)) => apply upsert_writes; apply _ : lhos.
#[export] Hint Extern 1 (within writes (delete_where _ _)) => apply delete_writes; apply _ : lhos.
#[export] Hint Extern 1 (within writes (update_set _ _ _)) => apply update_writes; apply _ : lhos.

(** The part of a store a read leaves alone: everything. *)
Definition reads {A} (m : SM A) : Prop := forall s, (m s).2 = s.

Section Cache.
Context `{ModelText, Sha256}.
Implicit Types s : GraphStore.

(** Stale entries stay stale. *)
Lemma cache_writes s s' :
  cache_ok s -> writes s s' -> cache_ok s'.
Proof.
  intros [H1 H2 H3] [W1 W2 W3 W4 W5]. split; rewrite W1; [done|..].
  - intros e He. destruct (H2 e He) as [Ha Hb]. rewrite W2. lia.
  - intros e He Hf. destruct (H2 e He) as [Ha Hb]. unfold _projection_fingerprint in *. rewrite Hf in Ha. cbn in Ha.
    assert (total_changes s' = total_changes s) as E by lia. rewrite (W5 E). apply H3; [done|].
    unfold _projection_fingerprint. rewrite Hf. congruence.
Qed.
(** A rollback keeps the counter. *)
Lemma writes_rollback s s' : writes s s' -> writes s (with_tables (tables s) s').
Proof. intros [W1 W2 W3 W4 W5]. by split. Qed.
Lemma tx_writes {A} (m : SM A) : within writes m -> within writes (tx m).
Proof.
  intros Hm s. unfold tx. specialize (Hm s). destruct (m s) as [[a|e] s'] eqn:E; [done|]. by apply writes_rollback.
Qed.
Lemma tx_raise {A} (m : SM A) s e s' : tx m s = (Raise e, s') -> tables s' = tables s.
Proof. unfold tx. destruct (m s) as [[a|?] ?]; [done|]. by intros [= _ <-]. Qed.
Lemma tx_Ok {A} (m : SM A) s a s' : tx m s = (Ok a, s') -> m s = (Ok a, s').
Proof. unfold tx. by destruct (m s) as [[?|?] ?]. Qed.
Lemma tx_run {A} (m : SM A) s a s' : m s = (Ok a, s') -> tx m s = (Ok a, s').
Proof. unfold tx. by intros ->. Qed.
Lemma store_same s s' : store_ok s -> writes s s' -> tables s' = tables s -> store_ok s'.
Proof. intros [Ht Hc] Hw E. split; [by rewrite E|by eapply cache_writes]. Qed.

(** Dropping entries keeps the cache consistent. *)
Lemma cache_filter (P : _ProjectionCache -> Prop) `{!forall x, Decision (P x)} s :
  store_ok s -> store_ok (with_cache (filter P) s).
Proof.
  intros [Ht [C1 C2 C3]]. split; [done|]. split; cbn.
  - by apply filter_keys_NoDup.
  - intros e [_ He]%list_elem_of_filter. by apply C2.
  - intros e [_ He]%list_elem_of_filter. by apply C3.
Qed.
End Cache.

(** ** Graphs a change does not concern *)

Section Frame.
Context `{ModelText, Sha256}.
Implicit Types (t : Tables) (g : string).

Record same_graph t t' g : Prop := {
  sg_record : find_record t' g = find_record t g;
  sg_version v : find_version t' g v = find_version t g v;
  sg_snapshot v : find_snapshot t' g v = find_snapshot t g v;
  sg_patch v : find_patch t' g v = find_patch t g v;
  sg_retention : find_retention t' g = find_retention t g;
  sg_nodes : filter (fun r => rev_graph node_key r = g) (graph_node_history t') =
             filter (fun r => rev_graph node_key r = g) (graph_node_history t);
  sg_edges : filter (fun r => rev_graph edge_key r = g) (graph_edge_history t') =
             filter (fun r => rev_graph edge_key r = g) (graph_edge_history t) }.

Lemma same_graph_refl t g : same_graph t t g.
Proof. by split. Qed.
Lemma same_graph_trans t1 t2 t3 g : same_graph t1 t2 g -> same_graph t2 t3 g -> same_graph t1 t3 g.
Proof. intros [A1 A2 A3 A4 A5 A6 A7] [B1 B2 B3 B4 B5 B6 B7]. split; intros; congruence. Qed.
Lemma same_content t t' g v : same_graph t t' g -> content t' g v = content t g v.
Proof.
  intros Hs. unfold content. rewrite (latest_of_graph node_key g v (graph_node_history t')),
    (latest_of_graph node_key g v (graph_node_history t)), (latest_of_graph edge_key g v (graph_edge_history t')),
    (latest_of_graph edge_key g v (graph_edge_history t)).
  pose proof (sg_nodes _ _ _ Hs) as E1. pose proof (sg_edges _ _ _ Hs) as E2. unfold rev_graph in E1, E2.
  by rewrite E1, E2.
Qed.
Lemma same_history t t' g : same_graph t t' g -> history t' g = history t g.
Proof.
  intros Hs. unfold history. rewrite (sg_record _ _ _ Hs), (sg_retention _ _ _ Hs).
  destruct (find_record t g); [|done]. destruct (find_retention t g); [|done]. do 2 f_equal. apply list_fmap_ext.
  intros i x _. by apply same_content.
Qed.
Lemma filter_rows {R} (key : R -> string * string) g (hist hist' : list (revision R)) rev :
  filter (fun r => rev_graph key r = g) hist' = filter (fun r => rev_graph key r = g) hist ->
  rev ∈ hist' -> rev_graph key rev = g -> rev ∈ hist.
Proof.
  intros E Hin Hg. assert (rev ∈ filter (fun r => rev_graph key r = g) hist') as Hx by by apply list_elem_of_filter.
  rewrite E in Hx. by apply list_elem_of_filter in Hx as [_ Hx].
Qed.
Lemma same_state t t' g : same_graph t t' g -> graph_state t g -> graph_state t' g.
Proof.
  intros Hs. pose proof (fun v => same_content t t' g v Hs) as Hc. destruct Hs as [S1 S2 S3 S4 S5 S6 S7].
  unfold graph_state. rewrite S1. destruct (find_record t g) as [r|].
  - intros (c & Hret & [I1 I2 I3 I4 I5 I6 I7 I8 I9 I10 I11 I12]). exists c. split; [by rewrite S5|].
    split; intros; rewrite ?S2, ?S3, ?S4, ?Hc in *; eauto using filter_rows.
  - intros [N1 N2 N3 N4 N5 N6]. split; intros; rewrite ?S2, ?S3, ?S4, ?S5 in *; eauto; intros Hg;
      [eapply N5|eapply N6]; eauto using filter_rows.
Qed.
End Frame.

(** ** Changes of the materialized projection *)

(** A relation between the tables. *)
Definition tabs (Q : Tables -> Tables -> Prop) : GraphStore -> GraphStore -> Prop := fun s s' => Q (tables s) (tables s').
#[export] Instance tabs_preorder Q `{!PreOrder Q} : PreOrder (tabs Q).
Proof. unfold tabs. split; [by intros s|]. intros s1 s2 s3 H1 H2. by transitivity (tables s2). Qed.
Lemma tx_tabs {A} Q `{!PreOrder Q} (m : SM A) : within (tabs Q) m -> within (tabs Q) (tx m).
Proof. intros Hm s. unfold tx. specialize (Hm s). destruct (m s) as [[a|e] s']; [done|]. unfold tabs. cbn. reflexivity. Qed.

(** The tables the histories are read from are the same; keys stay unique. *)
Record durable_same (t t' : Tables) : Prop := {
  ds_graphs : graphs t' = graphs t;
  ds_versions : graph_versions t' = graph_versions t;
  ds_patches : graph_patches t' = graph_patches t;
  ds_snapshots : graph_projection_snapshots t' = graph_projection_snapshots t;
  ds_nodes : graph_node_history t' = graph_node_history t;
  ds_edges : graph_edge_history t' = graph_edge_history t;
  ds_retention : graph_history_retention t' = graph_history_retention t;
  ds_idempotency : graph_idempotency t' = graph_idempotency t;
  ds_node_keys : NoDup (node_key <$> graph_nodes_projection t) -> NoDup (node_key <$> graph_nodes_projection t');
  ds_edge_keys : NoDup (edge_key <$> graph_edges_projection t) -> NoDup (edge_key <$> graph_edges_projection t') }.
#[export] Instance durable_same_preorder : PreOrder durable_same.
Proof.
  split; [by intros t|]. intros t1 t2 t3 [A1 A2 A3 A4 A5 A6 A7 A8 A9 A10] [B1 B2 B3 B4 B5 B6 B7 B8 B9 B10].
  split; [congruence..|auto|auto].
Qed.

Section Materialized.
Context `{ModelText, Sha256}.
Implicit Types (t : Tables) (s : GraphStore).

Lemma durable_same_graph t t' g : durable_same t t' -> same_graph t t' g.
Proof.
  intros [D1 D2 D3 D4 D5 D6 D7 D8 D9 D10]. split; intros; unfold find_record, find_version, find_snapshot, find_patch, find_retention; congruence.
Qed.
Lemma durable_same_ok t t' : durable_same t t' -> tables_ok t -> tables_ok t'.
Proof.
  intros Hd [[K1 K2 K3 K4 K5 K6 K7 K8 K9 K10 K11] T2 T3 T4 T5]. pose proof (fun g => durable_same_graph t t' g Hd) as Hg.
  destruct Hd as [D1 D2 D3 D4 D5 D6 D7 D8 D9 D10]. split; [split|..]; rewrite ?D1, ?D2, ?D3, ?D4, ?D5, ?D6, ?D7, ?D8; eauto.
  intros g. eapply same_state; [apply Hg|apply T5].
Qed.

Lemma insert_durable {R K} `{EqDecision K} (t : table R) `{!Lawful t} (key : R -> K) r :
  (forall tb, ~ (key r ∈ key <$> sel t tb) -> durable_same tb (upd t (fun l => l ++ [r]) tb)) ->
  within (tabs durable_same) (insert_into t key r).
Proof.
  intros Hd s. unfold insert_into. rewrite select_bind. unfold raise_if. case_bool_decide as E; cbn; [reflexivity|].
  unfold mbind, M_bind, mret, M_ret. rewrite exec_run. cbn. by apply Hd.
Qed.
Lemma upsert_durable {R K} `{EqDecision K} (t : table R) (key : R -> K) r :
  (forall tb, durable_same tb (upd t (tbl_upsert key (fun _ r => r) r) tb)) -> within (tabs durable_same) (upsert_into t key r).
Proof. intros Hd s. apply Hd. Qed.
Lemma delete_durable {R} (t : table R) p :
  (forall tb, durable_same tb (upd t (filter (fun r => p r = false)) tb)) -> within (tabs durable_same) (delete_where t p).
Proof. intros Hd s. apply Hd. Qed.

Lemma insert_event_durable r : within (tabs durable_same) (insert_into EVENTS er_event_id r).
Proof. apply (insert_durable EVENTS). by intros []. Qed.
Lemma insert_d3_durable r : within (tabs durable_same) (insert_into D3 d3_record_id r).
Proof. apply (insert_durable D3). by intros []. Qed.
Lemma insert_node_durable r : within (tabs durable_same) (insert_into NODES node_key r).
Proof. apply (insert_durable NODES). intros [] Hk. split; cbn in *; try done. intros Hd. by apply NoDup_key_snoc. Qed.
Lemma insert_edge_durable r : within (tabs durable_same) (insert_into EDGES edge_key r).
Proof. apply (insert_durable EDGES). intros [] Hk. split; cbn in *; try done. intros Hd. by apply NoDup_key_snoc. Qed.
Lemma upsert_node_durable r : within (tabs durable_same) (upsert_into NODES node_key r).
Proof. apply (upsert_durable NODES). intros []. split; cbn in *; try done. intros Hd. by apply tbl_upsert_NoDup. Qed.
Lemma upsert_edge_durable r : within (tabs durable_same) (upsert_into EDGES edge_key r).
Proof. apply (upsert_durable EDGES). intros []. split; cbn in *; try done. intros Hd. by apply tbl_upsert_NoDup. Qed.
Lemma drop_projection_durable g : within (tabs durable_same) (drop_projection g).
Proof.
  unfold drop_projection. apply (within_bind _).
  - apply (delete_durable NODES). intros []. split; cbn in *; try done. intros Hd. by apply filter_keys_NoDup.
  - intros _. apply (within_bind _); [|intros _; apply (within_ret _)].
    apply (delete_durable EDGES). intros []. split; cbn in *; try done. intros Hd. by apply filter_keys_NoDup.
Qed.
End Materialized.
#[export] Hint Resolve insert_event_durable insert_d3_durable insert_node_durable insert_edge_durable upsert_node_durable
  upsert_edge_durable drop_projection_durable : lhos.

(** An operation that leaves the histories alone. *)
Section Stutter.
Context `{ModelText, Sha256}.
Definition stutters {A} (m : SM A) : Prop :=
  forall s, store_ok s -> store_ok (m s).2 /\ forall g, history (tables (m s).2) g = history (tables s) g.

Lemma stutters_writes {A} (m : SM A) : within writes m -> within (tabs durable_same) m -> stutters m.
Proof.
  intros Hw Hd s [Ht Hc]. specialize (Hw s). specialize (Hd s). unfold tabs in Hd. split; [split|].
  - by eapply durable_same_ok.
  - by eapply cache_writes.
  - intros g. apply same_history. by apply durable_same_graph.
Qed.
Lemma stutters_bind {A B} (m : SM A) (k : A -> SM B) : stutters m -> (forall a, stutters (k a)) -> stutters (m ≫= k).
Proof.
  intros Hm Hk s Hs. destruct (Hm s Hs) as [H1 H2]. unfold mbind, M_bind. destruct (m s) as [[a|e] s1]; cbn in *; [|done].
  destruct (Hk a s1 H1) as [H3 H4]. split; [done|]. intros g. by rewrite H4.
Qed.
Lemma stutters_reads {A} (m : SM A) : reads m -> stutters m.
Proof. intros Hm s Hs. rewrite (Hm s). split; [exact Hs|done]. Qed.
Lemma stutters_forget g : stutters (forget_graph g).
Proof. intros s Hs. split; [|done]. by apply (cache_filter _ s Hs). Qed.

Lemma writable_bind {B} (k : unit -> SM B) s : _read_only s = false -> (_assert_writable ≫= k) s = k tt s.
Proof. intros E. unfold _assert_writable. rewrite bind_assoc, gets_bind. by rewrite E. Qed.
Lemma readonly_bind {B} (k : unit -> SM B) s : _read_only s = true ->
  (_assert_writable ≫= k) s = (Raise (PermissionError "read-only GraphStore cannot mutate projections"), s).
Proof. intros E. unfold _assert_writable. rewrite bind_assoc, gets_bind. by rewrite E. Qed.
Lemma writable_reads : reads _assert_writable.
Proof. intros s. unfold _assert_writable. rewrite gets_bind. by destruct (_read_only s). Qed.
Lemma writes_drop g : within writes (drop_projection g).
Proof. unfold drop_projection. solve_within. Qed.

Lemma delete_projection_stutters g : stutters (delete_projection g).
Proof.
  unfold delete_projection. apply stutters_bind; [apply stutters_reads, writable_reads|]. intros _.
  apply stutters_bind; [|intros _; apply stutters_forget].
  apply stutters_writes; [apply tx_writes, writes_drop|apply (tx_tabs _), drop_projection_durable].
Qed.
Lemma update_same_durable {R} (t : table R) `{!Lawful t} p : within (tabs durable_same) (update_set t p (fun r => r)).
Proof.
  intros s. unfold update_set, tabs. rewrite select_bind. cbv zeta. unfold mbind, M_bind. rewrite exec_run. cbn.
  rewrite upd_same; [reflexivity|]. rewrite <-(list_fmap_id (sel t (tables s))) at 2. apply list_fmap_ext. intros i r _. by destruct (p r).
Qed.
Hint Resolve writes_drop : lhos.
Hint Extern 1 (within (tabs durable_same) (update_set _ _ (fun r => r))) => apply update_same_durable; apply _ : lhos.
Lemma replace_projection_stutters g v ns es : stutters (replace_projection g v ns es).
Proof.
  unfold replace_projection. apply stutters_bind; [apply stutters_reads, writable_reads|]. intros _. cbv zeta.
  apply stutters_bind; [by apply stutters_reads|]. intros _. apply stutters_bind; [|intros _; apply stutters_forget].
  apply stutters_writes; [apply tx_writes|apply (tx_tabs _)]; unfold get_record, select, vpg; solve_within.
Qed.
End Stutter.

(** ** Creating and closing a graph *)

(** The histories with that of [g] replaced. *)
Definition h_upd (g : string) (h : option History) (H : string -> option History) : string -> option History :=
  fun g' => if decide (g' = g) then h else H g'.
Definition becomes `{ModelText} (g : string) (h : History) (t t' : Tables) : Prop :=
  forall g', history t' g' = h_upd g (Some h) (history t) g'.

Section Lifecycle.
Context `{ModelText, Sha256, UuidSource, JsonText}.
Implicit Types (t : Tables) (s : GraphStore) (g : string).

(** A change that concerns one graph. *)
Lemma one_graph t t' g h :
  tables_ok t -> keys_ok t' ->
  Forall (fun r => canonical_node (rv_row r)) (graph_node_history t') ->
  Forall (fun r => canonical_edge (rv_row r)) (graph_edge_history t') ->
  graph_idempotency t' = idem_of <$> graph_patches t' ->
  (forall g', g' <> g -> same_graph t t' g') -> graph_state t' g -> history t' g = Some h ->
  tables_ok t' /\ becomes g h t t'.
Proof.
  intros Ht Hk Hn He Hi Hs Hg Hh. split.
  - split; [done..|]. intros g'. destruct (decide (g' = g)) as [->|Hne]; [done|]. eapply same_state; [by apply Hs|apply Ht].
  - intros g'. unfold h_upd. case_decide as E; [by subst|]. by apply same_history, Hs.
Qed.

Lemma find_graph_other {R} (key : R -> string * Z) (l : list R) r g v :
  (key r).1 <> g -> tbl_find key (g, v) (l ++ [r]) = tbl_find key (g, v) l.
Proof.
  intros Hg. rewrite tbl_find_app. destruct (tbl_find key (g, v) l); [done|]. cbn. rewrite decide_False; [done|].
  intros E. by rewrite E in Hg.
Qed.
Lemma find_id_other {R} (key : R -> string) (l : list R) r g :
  key r <> g -> tbl_find key g (l ++ [r]) = tbl_find key g l.
Proof. intros Hg. rewrite tbl_find_app. destruct (tbl_find key g l); [done|]. cbn. by rewrite decide_False. Qed.
Lemma find_snoc {R K} `{EqDecision K} (key : R -> K) (l : list R) r k :
  tbl_find key (key r) l = None -> tbl_find key k (l ++ [r]) = if decide (k = key r) then Some r else tbl_find key k l.
Proof.
  intros Hn. rewrite tbl_find_app. case_decide as E.
  - subst. rewrite Hn. cbn. by rewrite decide_True.
  - destruct (tbl_find key k l); [done|]. cbn. by rewrite decide_False.
Qed.

(** The tables after the inserts of [create_graph]. *)
Definition created (record : GraphRecord) t : Tables :=
  let g := gr_graph_id record in
  let empty_hash := compute_projection_hash g 0 [] [] None None in
  upd RETENTION (fun l => l ++ [mkRetention g 0 empty_hash (gr_created_at record) (gr_owner_pid record)
                                 "default full-history retention"])
    (upd SNAPSHOTS (fun l => l ++ [mkSnapshot g 0 empty_hash])
      (upd VERSIONS (fun l => l ++ [mkVersion g 0 None "init" empty_hash (gr_owner_pid record) (gr_created_at record)])
        (upd GRAPHS (fun l => l ++ [stored_record record]) t))).

Lemma update_last {R} (p : R -> bool) (f : R -> R) (l : list R) r r' :
  (forall x, x ∈ l -> p x = false) -> p r = true -> f r = r' ->
  (fun r => if p r then f r else r) <$> (l ++ [r]) = l ++ [r'].
Proof.
  intros Hp Hr <-. rewrite fmap_app. cbn. rewrite Hr. f_equal. rewrite <-(list_fmap_id l) at 2. apply list_fmap_ext.
  intros i x Hx. rewrite Hp; [done|]. by eapply list_elem_of_lookup_2.
Qed.
Lemma not_in_keys {R K} `{EqDecision K} (key : R -> K) (l : list R) r : tbl_find key (key r) l = None -> ~ (key r ∈ key <$> l).
Proof. intros Hn Hin%(tbl_find_is_Some key). rewrite Hn in Hin. by destruct Hin. Qed.

Lemma created_ok t record :
  tables_ok t -> gr_current_version record = 0 -> find_record t (gr_graph_id record) = None ->
  tables_ok (created record t) /\ becomes (gr_graph_id record) (mkHistory (gr_closed record) 0 [([], [])]) t (created record t).
Proof.
  intros Ht Hv Hr. set (g := gr_graph_id record) in *.
  assert (no_rows t g) as Hn by (pose proof (to_graphs t Ht g) as Hg; unfold graph_state in Hg; by rewrite Hr in Hg).
  assert (forall v, content (created record t) g v = ([], [])) as Hcon.
  { intros v. unfold content. cbn. destruct Hn as [_ _ _ _ N5 N6].
    unfold latest_rows. rewrite (filter_none _ (graph_node_history t)), (filter_none _ (graph_edge_history t)); [done|..];
      intros r Hin Hl; unfold is_latest in Hl; apply andb_true_iff in Hl as [[Hl%String.eqb_eq _]%andb_true_iff _].
    - by apply (N6 r Hin).
    - by apply (N5 r Hin). }
  pose proof Hn as [N1 N2 N3 N4 N5 N6]. unfold find_version in N1. unfold find_snapshot in N2. unfold find_retention in N4.
  pose proof (to_keys t Ht) as [K1 K2 K3 K4 K5 K6 K7 K8 K9 K10 K11].
  assert (find_record (created record t) g = Some (stored_record record)) as Hr'.
  { unfold find_record in *. cbn. rewrite find_snoc by done. by rewrite decide_True. }
  assert (find_retention (created record t) g =
          Some (mkRetention g 0 (compute_projection_hash g 0 [] [] None None) (gr_created_at record) (gr_owner_pid record)
                  "default full-history retention")) as Hc'.
  { unfold find_retention. cbn. rewrite find_snoc by done. by rewrite decide_True. }
  assert (forall v, find_version (created record t) g v =
     if decide (v = 0) then Some (mkVersion g 0 None "init" (compute_projection_hash g 0 [] [] None None)
                                    (gr_owner_pid record) (gr_created_at record)) else None) as Hv'.
  { intros v. unfold find_version. cbn. rewrite find_snoc by apply N1. cbn.
    destruct (decide (v = 0)) as [->|Hne]; [by rewrite decide_True|].
    rewrite decide_False by (unfold version_key; cbn; congruence). apply N1. }
  apply (one_graph t _ g); [done|split; cbn|..].
  - apply NoDup_key_snoc; [done|apply not_in_keys]; first [exact (N1 0)|exact (N2 0)|done].
  - apply NoDup_key_snoc; [done|apply not_in_keys]; first [exact (N1 0)|exact (N2 0)|done].
  - apply NoDup_key_snoc; [done|apply not_in_keys]; first [exact (N1 0)|exact (N2 0)|done].
  - apply NoDup_key_snoc; [done|apply not_in_keys]; first [exact (N1 0)|exact (N2 0)|done].
  - done.
  - done.
  - done.
  - done.
  - done.
  - done.
  - done.
  - apply Ht.
  - apply Ht.
  - apply Ht.
  - intros g' Hne. split; intros; unfold find_record, find_version, find_snapshot, find_patch, find_retention; cbn; try done.
    + by apply find_id_other.
    + by apply find_graph_other.
    + by apply find_graph_other.
    + by apply find_id_other.
  - unfold graph_state. rewrite Hr'. eexists. split; [exact Hc'|]. split;
      cbn [earliest_recoverable_version checkpoint_projection_hash gr_current_version stored_record]; rewrite ?Hv; try lia.
    + intros v. rewrite Hv'. case_decide; split; intros; [lia|done|by destruct H3|lia].
    + intros v gv. rewrite Hv'. case_decide; [|done]. intros [= <-]. by subst.
    + intros gv. rewrite Hv'. by intros [= <-].
    + intros v. change (find_patch (created record t) g v) with (find_patch t g v). rewrite N3. split; [by intros []|lia].
    + intros v p gv. change (find_patch (created record t) g v) with (find_patch t g v). by rewrite N3.
    + intros v. rewrite Hv'. unfold find_snapshot. cbn. rewrite find_snoc by apply N2. cbn.
      destruct (decide (v = 0)) as [->|Hne]; [by rewrite !decide_True by done|].
      rewrite (decide_False (P := (g, v) = _)) by (unfold snapshot_key; cbn; congruence). rewrite N2. by case_decide.
    + by rewrite Hv'.
    + intros rev Hin Hg. by destruct (N5 rev Hin).
    + intros rev Hin Hg. by destruct (N6 rev Hin).
    + intros v _. by rewrite Hcon.
    + intros v gv _. rewrite Hv', Hcon. case_decide; [|done]. intros [= <-]. by subst.
  - unfold history. rewrite Hr', Hc'. cbn [earliest_recoverable_version gr_current_version stored_record gr_closed].
    rewrite Hv. change (seqZ 0 (0 + 1 - 0)) with [0]. cbn [fmap list_fmap]. by rewrite Hcon.
Qed.

Lemma becomes_history g h t t' : becomes g h t t' -> history t' g = Some h.
Proof. intros Hb. rewrite (Hb g). unfold h_upd. by rewrite decide_True. Qed.

Lemma create_body_run record s : tables_ok (tables s) -> find_record (tables s) (gr_graph_id record) = None ->
  exists s', create_body record s = (Ok tt, s') /\ tables s' = created record (tables s) /\ writes s s'.
Proof.
  intros Ht Hr. set (g := gr_graph_id record) in *.
  assert (no_rows (tables s) g) as [N1 N2 N3 N4 N5 N6]
    by (pose proof (to_graphs _ Ht g) as Hg; unfold graph_state in Hg; by rewrite Hr in Hg).
  unfold find_version in N1. unfold find_snapshot in N2. unfold find_retention in N4. unfold find_record in Hr.
  assert (within writes (create_body record)) as Hw by (unfold create_body; solve_within).
  specialize (Hw s). destruct (create_body record s) as [res s'] eqn:E. cbn in Hw. exists s'.
  enough (res = Ok tt /\ tables s' = created record (tables s)) as [-> ->] by done.
  revert E. unfold create_body. fold g.
  unfold mbind at 1, M_bind at 1. rewrite insert_run by (by apply not_in_keys). rewrite exec_run. cbv beta iota.
  unfold mbind at 1, M_bind at 1. rewrite insert_run by (apply not_in_keys; exact (N1 0)). rewrite exec_run. cbv beta iota.
  unfold update_set. rewrite bind_assoc, select_bind. cbv zeta. rewrite bind_assoc. unfold mbind at 1, M_bind at 1. rewrite exec_run.
  unfold mret at 1, M_ret at 1. unfold mbind at 1, M_bind at 1. cbv beta iota.
  unfold mbind at 1, M_bind at 1. rewrite insert_run by (apply not_in_keys; exact (N2 0)). rewrite exec_run. cbv beta iota.
  rewrite insert_run by (apply not_in_keys; exact N4). rewrite exec_run. intros [= <- <-]. split; [done|].
  cbn [tables]. unfold created. fold g. destruct (tables s) as [t1 t2 t3 t4 t5 t6 t7 t8 t9 t10 t11 t12 t13 t14 t15 t16].
  cbn. f_equal. apply update_last.
  - intros v Hv. apply not_true_iff_false. intros [Hg%String.eqb_eq H0v%Z.eqb_eq]%andb_true_iff.
    apply (proj1 (tbl_find_None version_key _ _) (N1 0) v Hv). unfold version_key. congruence.
  - cbn. by rewrite String.eqb_refl.
  - done.
Qed.

Lemma create_graph_exact record s : store_ok s -> gr_current_version record = 0 ->
  let g := gr_graph_id record in
  match create_graph record s with
  | (Ok r, s') => r = record /\ _read_only s = false /\ history (tables s) g = None /\ store_ok s' /\
      becomes g (mkHistory (gr_closed record) 0 [([], [])]) (tables s) (tables s')
  | (Raise e, s') => s' = s /\
      ((_read_only s = true /\ e = PermissionError "read-only GraphStore cannot mutate projections") \/
       (_read_only s = false /\ is_Some (history (tables s) g) /\ e = vpg_error VPGCode.GRAPH_ALREADY_EXISTS))
  end.
Proof.
  intros Hs Hv g. pose proof Hs as [Ht Hc]. unfold create_graph.
  destruct (_read_only s) eqn:Ero; [rewrite readonly_bind by done; split; [done|by left]|].
  rewrite writable_bind, get_record_bind by done.
  change (tbl_find gr_graph_id (gr_graph_id record) (graphs (tables s))) with (find_record (tables s) g).
  destruct (find_record (tables s) g) as [r|] eqn:Er.
  { rewrite bool_decide_eq_true_2 by done. unfold vpg_if, raise_if, raise, mbind, M_bind. split; [done|]. right.
    split_and!; [done| |done]. destruct (history (tables s) g) eqn:E; [done|].
    apply (history_None _ _ Ht) in E. congruence. }
  rewrite bool_decide_eq_false_2 by (by intros []). rewrite vpg_if_bind. 
  destruct (create_body_run record s Ht Er) as (s1 & E1 & Et & Hw).
  rewrite (bind_Ok _ _ _ _ _ (tx_run _ _ _ _ E1)).
  destruct (created_ok (tables s) record Ht Hv Er) as [Ht' Hb]. rewrite <-Et in Ht', Hb.
  assert (store_ok s1) as Hs1 by (split; [done|by eapply cache_writes]).
  destruct (remember_ok s1 (gr_graph_id record) 0 (mkProjection [] [] [] []) _ ([], []) Hs1 (becomes_history _ _ _ _ Hb) eq_refl)
    as (s2 & E2 & [c ->] & Hs2); [by split|].
  rewrite (bind_Ok _ _ _ _ _ E2). split_and!; [done..| |done|done].
  unfold history. by rewrite Er.
Qed.

(** Closing a graph leaves its versions. *)
Definition h_close (h : History) : History := mkHistory true (h_floor h) (h_versions h).
Lemma close_graph_exact g s : store_ok s ->
  match close_graph g s with
  | (Ok _, s') => _read_only s = false /\ store_ok s' /\
      forall g', history (tables s') g' = if decide (g' = g) then h_close <$> history (tables s) g else history (tables s) g'
  | (Raise e, s') => s' = s /\ _read_only s = true /\ e = PermissionError "read-only GraphStore cannot mutate projections"
  end.
Proof.
  intros [Ht Hc]. unfold close_graph. destruct (_read_only s) eqn:Ero; [by rewrite readonly_bind|].
  rewrite writable_bind, gets_bind by done.
  set (f := fun r => set_record (gr_current_version r) (wall_clock s) true r).
  set (p := fun r => String.eqb (gr_graph_id r) g).
  destruct (update_set GRAPHS p f s) as [r1 s1] eqn:E.
  assert (r1 = Ok (length (filter (fun r => p r = true) (graphs (tables s)))) /\
          tables s1 = upd GRAPHS (fmap (fun r => if p r then f r else r)) (tables s)) as [-> Et].
  { unfold update_set in E. rewrite select_bind in E. unfold mbind, M_bind in E. rewrite exec_run in E. by injection E as <- <-. }
  assert (writes s s1) as Hw by (pose proof (update_writes GRAPHS p f s) as Hw; by rewrite E in Hw).
  rewrite (tx_run _ s tt s1) by (by rewrite (bind_Ok _ _ _ _ _ E)).
  assert (forall g', find_record (tables s1) g' = (fun r => if p r then f r else r) <$> find_record (tables s) g') as Hr.
  { intros g'. rewrite Et. unfold find_record. cbn. apply tbl_find_fmap. intros r. by destruct (p r). }
  assert (forall g' v, content (tables s1) g' v = content (tables s) g' v) as Hcon by (intros; by rewrite Et).
  assert (tables_ok (tables s1)) as Ht1.
  { rewrite Et in *. destruct Ht as [[K1 K2 K3 K4 K5 K6 K7 K8 K9 K10 K11] T2 T3 T4 T5].
    split; [split|..]; try done.
    - cbn. rewrite <-list_fmap_compose. erewrite list_fmap_ext; [exact K1|]. intros i r _. cbn. by destruct (p r).
    - intros g'. specialize (T5 g'). unfold graph_state in *. rewrite Hr. destruct (find_record (tables s) g') as [r|].
      + destruct T5 as (c & Hret & [I1 I2 I3 I4 I5 I6 I7 I8 I9 I10 I11 I12]). exists c. split; [done|].
        assert (gr_current_version (if p r then f r else r) = gr_current_version r) as Ev by by destruct (p r).
        split; cbn beta; rewrite ?Ev; done.
      + destruct T5 as [N1 N2 N3 N4 N5 N6]. by split. }
  split_and!; [done|split; [done|by eapply cache_writes]|].
  intros g'. unfold history. rewrite Hr.
  assert (find_retention (tables s1) g' = find_retention (tables s) g') as -> by by rewrite Et.
  destruct (find_record (tables s) g') as [r|] eqn:Er.
  2:{ cbn. case_decide as Eg; [|done]. subst. by rewrite Er. }
  assert (gr_graph_id r = g') as Hg by by apply tbl_find_Some in Er as [? _]. cbn [fmap option_fmap option_map].
  assert (forall l, content (tables s1) g' <$> l = content (tables s) g' <$> l) as Hl
    by (intros l; apply list_fmap_ext; intros; apply Hcon).
  unfold p. rewrite Hg. destruct (find_retention (tables s) g') as [c|] eqn:Ec.
  - destruct (String.eqb_spec g' g) as [->|Hne].
    + rewrite decide_True, Er, Ec, Hl by done. done.
    + by rewrite decide_False, Hl.
  - case_decide; [subst; by rewrite Er, Ec|done].
Qed.
End Lifecycle.
