(* ===== verification/GraphCommitProps.v ===== *)
(** * Committing a patch extends the history by the candidate

    The effect of [commit_patch] on the tables, and on the histories they stand for. *)

From Stdlib Require Import Ascii.
From S2P Require Import Prelude PyString Storage VpgModels Agents Invalidation Verification Patches PatchValidator Derivation GraphStore GraphCommit GraphFacts GraphOps.
Open Scope Z_scope.

(** ** What pydantic guarantees of the texts *)

(** No float outside the JSON numbers, which [model_dump_json] writes as [null]. *)
Fixpoint json_finite (j : json) : bool :=
  match j with
  | JFloat r => negb (bool_decide (r ∈ ["nan"; "inf"; "-inf"]))
  | JList l => forallb json_finite l
  | JObj o => forallb (fun kv => json_finite kv.2) o
  | _ => true
  end.
Definition obj_finite (o : jobj) : bool := forallb (fun kv => json_finite kv.2) o.
(** A node its class's validators accept as it is. *)
Definition node_valid (n : AnyNode) : bool :=
  obj_finite (metadata (base n)) &&
  match n with
  | NTask t => obj_finite (execution_spec t)
  | NVerification v => obj_finite (obligation v)
  | NEvidence e => bool_decide (ok_of (_provenance_digest_is_sha256 (provenance_digest e)) = Some (provenance_digest e))
  | _ => true
  end.
(** [model_validate_json] reads back what [model_dump_json] writes, and the type of a
    node is the first [node_type] of its text. *)
Class ModelTextLaws `{ModelText} : Prop := {
  dump_type n : exists rest, after_first node_type_marker (chars (model_dump_json n)) =
    Some (chars (NodeType.value (node_type n)) ++ quote :: rest);
  validate_dump n : node_valid n = true -> model_validate_json (node_type n) (model_dump_json n) = Some n;
  edge_validate_dump e : edge_validate_json (edge_dump_json e) = Some e }.

Lemma upto_app c l rest : c ∉ l -> upto c (l ++ c :: rest) = Some l.
Proof.
  induction l as [|a l IH]; cbn; intros Hc; [by rewrite decide_True|]. rewrite decide_False by set_solver.
  by rewrite IH by set_solver.
Qed.
Lemma node_text_ok `{ModelTextLaws} n : node_valid n = true -> text_ok n.
Proof.
  intros Hn. unfold text_ok, _node_from_json, text_node_type. destruct (dump_type n) as [rest ->].
  rewrite upto_app by (destruct n; apply (bool_decide_unpack (_ ∉ (_ : list _))); vm_compute; exact I).
  cbn [from_option id]. unfold id. rewrite String.string_of_list_ascii_of_string.
  assert (node_type_of_value (NodeType.value (node_type n)) = Some (node_type n)) as -> by by destruct n.
  by rewrite validate_dump.
Qed.
Lemma edge_text_inj `{ModelTextLaws} e e' : edge_dump_json e = edge_dump_json e' -> e = e'.
Proof. intros E. pose proof (edge_validate_dump e) as He. rewrite E, edge_validate_dump in He. congruence. Qed.

(** ** Reads *)

Lemma reads_gets {A} (f : GraphStore -> A) : reads (gets f).
Proof. done. Qed.
Lemma reads_bind {A B} (m : SM A) (k : A -> SM B) : reads m -> (forall a, reads (k a)) -> reads (m ≫= k).
Proof. intros Hm Hk s. unfold mbind, M_bind. specialize (Hm s). destruct (m s) as [[a|e] s1]; cbn in Hm; subst; [apply Hk|done]. Qed.
Lemma reads_vpg_if b c : reads (vpg_if b c).
Proof. by destruct b. Qed.
Lemma reads_for_each {A} (f : A -> SM unit) l : (forall x, reads (f x)) -> reads (for_each f l).
Proof. intros Hf. induction l as [|x l IH]; cbn; [done|]. by apply reads_bind. Qed.
Ltac solve_reads := repeat first
  [ apply reads_bind; [|intros ?] | apply reads_gets | apply reads_vpg_if
  | apply reads_for_each; intros ? | done | case_match ].

Lemma lease_guard_reads g : reads (_validate_lease_commit_guard g).
Proof. unfold _validate_lease_commit_guard. solve_reads. Qed.
Lemma read_guard_reads facts g : reads (_validate_read_guard facts g).
Proof. unfold _validate_read_guard. solve_reads. Qed.
Lemma guards_read cg rg : reads (validate_guards cg rg).
Proof.
  unfold validate_guards. apply reads_bind; [destruct cg; [apply lease_guard_reads|done]|]. intros _.
  destruct rg as [gs|]; [|done]. unfold _validate_read_guards. destruct gs; [done|].
  apply reads_bind; [apply reads_gets|]. intros [facts|]; [|done]. apply reads_for_each. apply read_guard_reads.
Qed.
Lemma check_no_future_reads g v : reads (check_no_future g v).
Proof. unfold check_no_future. solve_reads. Qed.
Lemma check_head_reads g v : reads (check_head g v).
Proof. unfold check_head. solve_reads. Qed.
Lemma materialized_reads g : reads (_get_materialized_projection_rows g).
Proof. unfold _get_materialized_projection_rows. solve_reads. Qed.
Lemma check_written_reads `{ModelText, Sha256} g v ns es st h : reads (check_written g v ns es st h).
Proof.
  unfold check_written. apply reads_bind; [apply materialized_reads|]. intros [nrs ers]. cbv zeta.
  apply reads_bind; [done|]. intros es'. apply reads_vpg_if.
Qed.
Lemma reads_Ok {A} (m : SM A) s a s' : reads m -> m s = (Ok a, s') -> s' = s.
Proof. intros Hm E. specialize (Hm s). by rewrite E in Hm. Qed.

(** ** The checks *)

Lemma check_projection_Ok c g ns es : check_projection c g ns es = Ok tt -> shaped g (ns, es).
Proof.
  unfold check_projection. case_bool_decide as C1; [|done]. case_bool_decide as C2; [|done]. cbn.
  destruct (existsb _ ns) eqn:C3; [done|]. destruct (existsb _ es) eqn:C4; [done|].
  destruct (dangling _ es) eqn:C5; [done|]. intros _. split; cbn; [done|done| | |done]; apply Forall_forall; intros x Hx.
  - apply not_true_iff_false in C3. destruct (String.eqb_spec (ngraph x) g) as [|Hne]; [done|]. exfalso. apply C3, existsb_exists.
    exists x. split; [by apply list_elem_of_In|]. by apply String.eqb_neq in Hne as ->.
  - apply not_true_iff_false in C4. destruct (String.eqb_spec (edge_graph_id x) g) as [|Hne]; [done|]. exfalso. apply C4, existsb_exists.
    exists x. split; [by apply list_elem_of_In|]. by apply String.eqb_neq in Hne as ->.
Qed.
Lemma check_projection_run c g ns es : shaped g (ns, es) -> check_projection c g ns es = Ok tt.
Proof.
  intros [S1 S2 S3 S4 S5]. cbn [fst snd] in *. unfold check_projection. rewrite !bool_decide_eq_true_2 by done. cbn [negb].
  assert (existsb (fun n => negb (String.eqb (ngraph n) g)) ns = false) as ->.
  { apply not_true_iff_false. intros (n & Hn%list_elem_of_In & Hx)%existsb_exists.
    rewrite (proj1 (Forall_forall _ _) S3 n Hn), String.eqb_refl in Hx. done. }
  assert (existsb (fun e => negb (String.eqb (edge_graph_id e) g)) es = false) as ->.
  { apply not_true_iff_false. intros (n & Hn%list_elem_of_In & Hx)%existsb_exists.
    rewrite (proj1 (Forall_forall _ _) S4 n Hn), String.eqb_refl in Hx. done. }
  by rewrite S5.
Qed.

(** The request is about one graph, one version and one complete projection. *)
Lemma check_request_Ok q ns es : check_request q = Ok (ns, es) ->
  q_patch_id q = patch_id (q_patch q) /\ q_committed_version q = expected_graph_version (q_patch q) + 1 /\
  q_projection_nodes q = Some ns /\ q_projection_edges q = Some es /\ shaped (patch_graph_id (q_patch q)) (ns, es).
Proof.
  unfold check_request. destruct (String.eqb_spec (q_patch_id q) (patch_id (q_patch q))); [|done]. cbn.
  destruct (Z.eqb_spec (q_committed_version q) (expected_graph_version (q_patch q) + 1)); [|done]. cbn.
  destruct (existsb _ (q_nodes_to_upsert q)); [done|]. destruct (existsb _ (q_edges_to_upsert q)); [done|].
  destruct (existsb _ (q_events q)); [done|]. destruct (q_projection_nodes q) as [ns'|]; [|done].
  destruct (q_projection_edges q) as [es'|]; [|done]. unfold mbind, result_bind.
  destruct (check_projection _ _ _ _) as [[]|] eqn:E; [|done]. intros [= <- <-]. split_and!; try done.
  by apply check_projection_Ok in E.
Qed.
Lemma check_head_Ok g v s s' : check_head g v s = (Ok tt, s') ->
  exists r, find_record (tables s) g = Some r /\ gr_closed r = false /\ gr_current_version r = v - 1.
Proof.
  unfold check_head. rewrite select_bind. cbn [sel GRAPHS]. unfold find_record.
  destruct (tbl_find gr_graph_id g (graphs (tables s))) as [r|]; [|done].
  destruct (gr_closed r) eqn:Ec; [done|]. rewrite vpg_if_bind. intros [E _]%vpg_if_Ok. exists r. split_and!; [done..|].
  apply negb_false_iff, Z.eqb_eq in E. done.
Qed.

(** ** The writes *)

Lemma for_each_insert {A R K} `{EqDecision K} (t : table R) `{!Lawful t} (key : R -> K) (f : A -> R) l s s' :
  NoDup (key <$> sel t (tables s)) -> for_each (fun x => insert_into t key (f x)) l s = (Ok tt, s') ->
  NoDup (key <$> sel t (tables s) ++ (f <$> l)) /\ tables s' = upd t (fun rows => rows ++ (f <$> l)) (tables s).
Proof.
  revert s. induction l as [|x l IH]; intros s Hd; cbn.
  - intros [= <-]. rewrite app_nil_r. split; [done|]. symmetry. apply upd_same. by rewrite app_nil_r.
  - intros ([] & s1 & [Hk E1]%insert_into_ok & E2)%bind_Ok_inv. rewrite exec_run in E1. injection E1 as <-. cbn [tables] in E2.
    apply IH in E2 as [Hd' Et]; cbn [tables] in *.
    + rewrite sel_upd, <-app_assoc in Hd'. split; [exact Hd'|]. rewrite Et, upd_upd. apply upd_ext. by rewrite <-app_assoc.
    + rewrite sel_upd. by apply NoDup_key_snoc.
Qed.
Lemma for_each_insert_run {A R K} `{EqDecision K} (t : table R) `{!Lawful t} (key : R -> K) (f : A -> R) l s :
  NoDup (key <$> sel t (tables s) ++ (f <$> l)) ->
  exists s', for_each (fun x => insert_into t key (f x)) l s = (Ok tt, s') /\
             tables s' = upd t (fun rows => rows ++ (f <$> l)) (tables s).
Proof.
  revert s. induction l as [|x l IH]; intros s Hd; cbn.
  - exists s. split; [done|]. symmetry. apply upd_same. by rewrite app_nil_r.
  - rewrite (bind_Ok _ _ _ _ _ (eq_trans (insert_run t key (f x) s ltac:(
      rewrite fmap_app in Hd; apply NoDup_app in Hd as (_ & Hx & _); intros Hin; apply (Hx _ Hin); cbn; left)) (exec_run _ _ _ _))).
    destruct (IH (mkStore (upd t (fun l => l ++ [f x]) (tables s)) (total_changes s + 1) (data_version s)
                    (_projection_cache s) (_read_only s) (wall_clock s) (uuids_drawn s))) as (s' & E & Et).
    + cbn [tables]. rewrite sel_upd, <-app_assoc. exact Hd.
    + exists s'. split; [exact E|]. rewrite Et. cbn [tables]. rewrite upd_upd. apply upd_ext. by rewrite <-app_assoc.
Qed.

Section Commit.
Context `{ModelTextLaws, Sha256, UuidSource, JsonText}.
Implicit Types (t : Tables) (s : GraphStore) (g : string) (q : CommitRequest).

Definition advanced (q : CommitRequest) (r : GraphRecord) : bool :=
  String.eqb (gr_graph_id r) (patch_graph_id (q_patch q)) && (gr_current_version r =? q_committed_version q - 1) &&
  negb (gr_closed r).
Definition version_row_of (q : CommitRequest) (hash : string) : GraphVersion :=
  mkVersion (patch_graph_id (q_patch q)) (q_committed_version q)
    (if 0 <? q_committed_version q then Some (q_committed_version q - 1) else None) (q_patch_id q) hash
    (author_pid (q_patch q)) (q_applied_at q).
Definition patch_row_of (q : CommitRequest) : patch_row :=
  mkPatchRow (q_patch_id q) (patch_graph_id (q_patch q)) (q_committed_version q) (author_pid (q_patch q))
    (idempotency_key (q_patch q)) (patch_reason (q_patch q)) (causation_ids (q_patch q)) (Some (q_patch q)) (q_applied_at q).
(** The tables after the version is written. *)
Definition versioned (q : CommitRequest) (hash : string) t : Tables :=
  upd VERSIONS (fun l => l ++ [version_row_of q hash])
    (upd GRAPHS (fmap (fun r => if advanced q r then set_record (q_committed_version q) (q_applied_at q) (gr_closed r) r else r))
      (upd PATCHES (fun l => l ++ [patch_row_of q]) (upd IDEMPOTENCY (fun l => l ++ [idem_of (patch_row_of q)]) t))).

Lemma write_version_Ok q hash s s' : write_version q hash s = (Ok tt, s') ->
  tables s' = versioned q hash (tables s) /\
  ~ (id_key (idem_of (patch_row_of q)) ∈ id_key <$> graph_idempotency (tables s)) /\
  ~ (q_patch_id q ∈ pt_patch_id <$> graph_patches (tables s)) /\
  ~ ((patch_graph_id (q_patch q), q_committed_version q) ∈ version_key <$> graph_versions (tables s)).
Proof.
  unfold write_version. intros ([] & s1 & [K1 E1]%insert_into_ok & E)%bind_Ok_inv. rewrite exec_run in E1. injection E1 as <-.
  apply bind_Ok_inv in E as ([] & s2 & [K2 E2]%insert_into_ok & E). rewrite exec_run in E2. injection E2 as <-.
  apply bind_Ok_inv in E as (n & s3 & E3 & E). unfold update_set in E3. rewrite select_bind in E3. unfold mbind at 1, M_bind in E3.
  rewrite exec_run in E3. injection E3 as En <-.
  apply bind_Ok_inv in E as ([] & s4 & E4 & E). destruct (Nat.eqb n 1).
  2:{ apply bind_Ok_inv in E4 as ([] & ? & _ & E4). done. }
  injection E4 as <-. apply insert_into_ok in E as [K5 E5]. rewrite exec_run in E5. injection E5 as <-.
  split; [done|]. split_and!; [exact K1|exact K2|exact K5].
Qed.

Definition node_revs (v : Z) (ns : list AnyNode) : list (revision node_row) :=
  (fun n => mkRevision v (row_of_node n)) <$> sort_on (fun n => nid n) ns.
Definition edge_revs (v : Z) (es : list VPGEdge) : list (revision edge_row) :=
  (fun e => mkRevision v (row_of_edge e)) <$> sort_on edge_id es.
Definition with_history (v : Z) (ns : list AnyNode) (es : list VPGEdge) t : Tables :=
  upd EDGE_HISTORY (fun l => l ++ edge_revs v es) (upd NODE_HISTORY (fun l => l ++ node_revs v ns) t).
(** The rows [write_history] writes are those of the entities of the graph. *)
Lemma history_rows g v (ns : list AnyNode) (es : list VPGEdge) :
  Forall (fun n => ngraph n = g) ns -> Forall (fun e => edge_graph_id e = g) es ->
  (fun n => mkRevision v (mkNodeRow (nid n) g (NodeType.value (node_type n)) (model_dump_json n))) <$>
    sort_on (fun n => nid n) ns = node_revs v ns /\
  (fun e => mkRevision v (mkEdgeRow (edge_id e) g (EdgeType.value (edge_type e))
                          (source_node_id e) (target_node_id e) (edge_created_in_version e) (edge_created_by_pid e)
                          (edge_created_at e))) <$> sort_on edge_id es = edge_revs v es.
Proof.
  intros Hn He. split; apply list_fmap_ext; intros i x Hx%list_elem_of_lookup_2%elem_of_sort_on.
  - unfold row_of_node. by rewrite (proj1 (Forall_forall _ _) Hn x Hx).
  - unfold row_of_edge. by rewrite (proj1 (Forall_forall _ _) He x Hx).
Qed.
Lemma write_history_Ok g v ns es s s' :
  Forall (fun n => ngraph n = g) ns -> Forall (fun e => edge_graph_id e = g) es ->
  NoDup (revision_key node_key <$> graph_node_history (tables s)) ->
  NoDup (revision_key edge_key <$> graph_edge_history (tables s)) ->
  write_history g v ns es s = (Ok tt, s') ->
  tables s' = with_history v ns es (tables s) /\
  NoDup (revision_key node_key <$> graph_node_history (tables s')) /\
  NoDup (revision_key edge_key <$> graph_edge_history (tables s')).
Proof.
  intros Hn He Kn Ke. destruct (history_rows g v ns es Hn He) as [Rn Re].
  unfold write_history. intros ([] & s1 & E1 & E2)%bind_Ok_inv.
  apply (for_each_insert NODE_HISTORY (revision_key node_key)) in E1 as [Hd1 Et1]; [|done].
  apply (for_each_insert EDGE_HISTORY (revision_key edge_key)) in E2 as [Hd2 Et2]; [|by rewrite Et1].
  rewrite Rn in *. rewrite Re in *. rewrite Et2, Et1 in *. done.
Qed.

(** ** The parent, in whatever order it was loaded *)

Section Parent.
Context (g : string) (p : projection) (c : list AnyNode * list VPGEdge) (Ha : agrees p c) (Hc : shaped g c).
Lemma parent_ids : (pj_nodes p).*1 ≡ₚ ids c.1.
Proof. rewrite (ag_nodes _ _ Ha). by rewrite entries_keys. Qed.
Lemma parent_node_get k n : dict_get k (pj_nodes p) = Some n <-> n ∈ c.1 /\ nid n = k.
Proof.
  rewrite dict_get_Some, (ag_nodes _ _ Ha).
  - rewrite list_elem_of_fmap. naive_solver.
  - unfold dict_ok. rewrite parent_ids. apply Hc.
Qed.
Lemma parent_text_get k x : dict_get k (pj_node_json p) = Some x -> exists n, n ∈ c.1 /\ nid n = k /\ x = model_dump_json n.
Proof.
  intros Hx%dict_get_elem. rewrite (ag_node_json _ _ Ha) in Hx. apply list_elem_of_fmap in Hx as (n & [= -> ->] & Hn). eauto.
Qed.
Lemma parent_edge_text_get k x : dict_get k (pj_edge_json p) = Some x -> exists e, e ∈ c.2 /\ edge_id e = k /\ x = edge_dump_json e.
Proof.
  intros Hx%dict_get_elem. rewrite (ag_edge_json _ _ Ha) in Hx. apply list_elem_of_fmap in Hx as (n & [= -> ->] & Hn). eauto.
Qed.
(** An entity that gets no revision is the parent's. *)
Lemma node_kept ns n : Forall text_ok c.1 -> text_ok n -> n ∈ ns -> n ∉ node_revisions p ns -> n ∈ c.1.
Proof.
  intros Hc1 Hn Hin Hno. unfold node_revisions in Hno. rewrite list_elem_of_filter in Hno.
  destruct (dict_get (nid n) (pj_node_json p)) as [x|] eqn:E; [|by destruct Hno; split; [right|]].
  destruct (decide (x = model_dump_json n)) as [->|Hne]; [|destruct Hno; split; [right; congruence|done]].
  apply parent_text_get in E as (m & Hm & _ & E). pose proof (proj1 (Forall_forall _ _) Hc1 m Hm) as Hm'.
  unfold text_ok in *. rewrite <-E, Hn in Hm'. by simplify_eq.
Qed.
Lemma edge_kept es e : e ∈ es -> e ∉ edge_revisions p es -> e ∈ c.2.
Proof.
  intros Hin Hno. unfold edge_revisions in Hno. rewrite list_elem_of_filter in Hno.
  destruct (dict_get (edge_id e) (pj_edge_json p)) as [x|] eqn:E; [|by destruct Hno; split; [right|]].
  destruct (decide (x = edge_dump_json e)) as [->|Hne]; [|destruct Hno; split; [right; congruence|done]].
  apply parent_edge_text_get in E as (m & Hm & _ & E). apply edge_text_inj in E. by subst.
Qed.
End Parent.

(** ** The transaction *)

Definition commit_hash (q : CommitRequest) (dn : list AnyNode) (es : list VPGEdge) : string :=
  compute_projection_hash (patch_graph_id (q_patch q)) (q_committed_version q) dn es (Some (node_texts dn)) (Some (edge_texts es)).
Definition committed (q : CommitRequest) (p : projection) (dn : list AnyNode) (es : list VPGEdge) t : Tables :=
  with_history (q_committed_version q) (node_revisions p dn) (edge_revisions p es)
    (upd SNAPSHOTS (fun l => l ++ [mkSnapshot (patch_graph_id (q_patch q)) (q_committed_version q) (commit_hash q dn es)]) t).

Lemma write_events_writes evs : within writes (write_events evs).
Proof. unfold write_events. solve_within. Qed.
Lemma write_events_durable evs : within (tabs durable_same) (write_events evs).
Proof. unfold write_events. solve_within. Qed.
Lemma write_projection_writes ns es : within writes (write_projection ns es).
Proof. unfold write_projection. solve_within. Qed.
Lemma write_projection_durable ns es : within (tabs durable_same) (write_projection ns es).
Proof. unfold write_projection. solve_within. Qed.
Lemma insert_d3_writes d g a b c : within writes (insert_d3 d g a b c).
Proof. unfold insert_d3, select, vpg_if. solve_within. Qed.
Lemma insert_d3_row_durable d g a b c : within (tabs durable_same) (insert_d3 d g a b c).
Proof. unfold insert_d3, select, vpg_if. solve_within. Qed.
Lemma write_version_writes q h : within writes (write_version q h).
Proof.
  unfold write_version. do 3 (apply (within_bind _); [eauto with lhos|intros ?]). apply (within_bind _); [|intros _; eauto with lhos].
  case_match; [apply (within_ret _)|]. apply (within_bind _); [|intros _; apply (within_raise _)].
  intros s. rewrite check_head_reads. reflexivity.
Qed.
Lemma write_history_writes g v ns es : within writes (write_history g v ns es).
Proof. unfold write_history. solve_within. Qed.

(** What a committed transaction went through. *)
Record commit_trace (q : CommitRequest) (ns : list AnyNode) (es : list VPGEdge) (p : projection) (dn : list AnyNode) s s1 s' : Prop := {
  ct_guards : (validate_guards (q_commit_guard q) (q_read_guards q) s).1 = Ok tt;
  ct_head : exists r, find_record (tables s) (patch_graph_id (q_patch q)) = Some r /\ gr_closed r = false /\
    gr_current_version r = q_committed_version q - 1;
  ct_parent : load_parent (patch_graph_id (q_patch q)) (q_committed_version q - 1) s = (Ok p, s1);
  ct_checks : exists nrs ers allowed staged,
    _get_materialized_projection_rows (patch_graph_id (q_patch q)) s1 = (Ok (nrs, ers), s1) /\
    check_materialized (patch_graph_id (q_patch q)) p nrs ers = Ok tt /\
    check_staged q p ns nrs ers = Ok (allowed, staged) /\
    dn = filter (fun n => nid n ∉ staged) ns /\ check_candidate q p ns dn es allowed = Ok tt;
  ct_writes : writes s1 s';
  ct_counter : (total_changes s1 < total_changes s')%N;
  ct_tables : exists s2 s3 s4 s5, write_version q (commit_hash q dn es) s1 = (Ok tt, s2) /\
    durable_same (tables s2) (tables s3) /\
    insert_into SNAPSHOTS snapshot_key (mkSnapshot (patch_graph_id (q_patch q)) (q_committed_version q) (commit_hash q dn es)) s3
      = (Ok tt, s4) /\
    write_history (patch_graph_id (q_patch q)) (q_committed_version q) (node_revisions p dn) (edge_revisions p es) s4 = (Ok tt, s5) /\
    s' = s5 }.
Lemma within_Ok {A} (R : GraphStore -> GraphStore -> Prop) (m : SM A) s r s' : within R m -> m s = (r, s') -> R s s'.
Proof. intros Hm E. specialize (Hm s). by rewrite E in Hm. Qed.

Lemma commit_body_inv q ns es s p dn s' : commit_body q ns es s = (Ok (p, dn), s') ->
  exists s1, commit_trace q ns es p dn s s1 s'.
Proof.
  unfold commit_body. intros ([] & s0 & E0 & E)%bind_Ok_inv. pose proof (reads_Ok _ _ _ _ (guards_read _ _) E0) as ->.
  apply bind_Ok_inv in E as ([] & s0 & E1 & E). pose proof (reads_Ok _ _ _ _ (check_head_reads _ _) E1) as ->.
  apply bind_Ok_inv in E as (p' & s1 & E2 & E).
  apply bind_Ok_inv in E as ([] & s0 & E3 & E). pose proof (reads_Ok _ _ _ _ (check_no_future_reads _ _) E3) as ->.
  apply bind_Ok_inv in E as ([nrs ers] & s0 & E4 & E). pose proof (reads_Ok _ _ _ _ (materialized_reads _) E4) as ->.
  apply bind_Ok_inv in E as ([] & s0 & E5 & E). injection E5 as E5 <-.
  apply bind_Ok_inv in E as ([allowed staged] & s0 & E6 & E). injection E6 as E6 <-.
  apply bind_Ok_inv in E as ([] & s0 & E7 & E). injection E7 as E7 <-.
  apply bind_Ok_inv in E as ([] & s2 & E8 & E). apply bind_Ok_inv in E as ([] & s3 & E9 & E).
  apply bind_Ok_inv in E as ([] & s4 & E10 & E). apply bind_Ok_inv in E as ([] & s5 & E11 & E).
  apply bind_Ok_inv in E as ([] & s0 & E12 & E). pose proof (reads_Ok _ _ _ _ (check_written_reads _ _ _ _ _ _) E12) as ->.
  apply bind_Ok_inv in E as ([] & s6 & E13 & E). apply bind_Ok_inv in E as ([] & s7 & E14 & E).
  injection E as -> <- <-. exists s1.
  pose proof (within_Ok _ _ _ _ _ (write_version_writes _ _) E8) as W1.
  pose proof (within_Ok _ _ _ _ _ (insert_d3_writes _ _ _ _ _) E9) as W2.
  pose proof (within_Ok _ _ _ _ _ (write_events_writes _) E10) as W3.
  pose proof (within_Ok _ _ _ _ _ (write_projection_writes _ _) E11) as W4.
  pose proof (within_Ok _ _ _ _ _ (insert_writes SNAPSHOTS _ _) E13) as W5.
  pose proof (within_Ok _ _ _ _ _ (write_history_writes _ _ _ _) E14) as W6.
  split; [by rewrite E0|by eapply check_head_Ok|done|..].
  - eexists _, _, _, _. split_and!; [exact E4|done|exact E6|done|exact E7].
  - by repeat (etransitivity; [eassumption|]).
  - apply insert_into_ok in E13 as [_ E13]. rewrite exec_run in E13. apply (f_equal (fun x => total_changes x.2)) in E13. cbn in E13.
    destruct W1, W2, W3, W4, W6. lia.
  - exists s2, s5, s6, s7. split_and!; [exact E8| |exact E13|exact E14|done].
    transitivity (tables s3); [by apply (within_Ok _ _ _ _ _ (insert_d3_row_durable _ _ _ _ _) E9)|].
    transitivity (tables s4); [by apply (within_Ok _ _ _ _ _ (write_events_durable _) E10)|].
    by apply (within_Ok _ _ _ _ _ (write_projection_durable _ _) E11).
Qed.

(** ** The tables after the commit *)

Record commit_effect (q : CommitRequest) (p : projection) (dn : list AnyNode) (es : list VPGEdge) t t' : Prop := {
  ce_graphs : graphs t' = (fun r => if advanced q r then set_record (q_committed_version q) (q_applied_at q) (gr_closed r) r else r)
    <$> graphs t;
  ce_versions : graph_versions t' = graph_versions t ++ [version_row_of q (commit_hash q dn es)];
  ce_patches : graph_patches t' = graph_patches t ++ [patch_row_of q];
  ce_idempotency : graph_idempotency t' = graph_idempotency t ++ [idem_of (patch_row_of q)];
  ce_snapshots : graph_projection_snapshots t' = graph_projection_snapshots t ++
    [mkSnapshot (patch_graph_id (q_patch q)) (q_committed_version q) (commit_hash q dn es)];
  ce_retention : graph_history_retention t' = graph_history_retention t;
  ce_nodes : graph_node_history t' = graph_node_history t ++ node_revs (q_committed_version q) (node_revisions p dn);
  ce_edges : graph_edge_history t' = graph_edge_history t ++ edge_revs (q_committed_version q) (edge_revisions p es);
  ce_key_idem : ~ (id_key (idem_of (patch_row_of q)) ∈ id_key <$> graph_idempotency t);
  ce_key_patch : ~ (q_patch_id q ∈ pt_patch_id <$> graph_patches t);
  ce_key_nodes : NoDup (node_key <$> graph_nodes_projection t');
  ce_key_edges : NoDup (edge_key <$> graph_edges_projection t');
  ce_key_node_history : NoDup (revision_key node_key <$> graph_node_history t');
  ce_key_edge_history : NoDup (revision_key edge_key <$> graph_edge_history t') }.

Lemma revisions_sub p (ns : list AnyNode) (es : list VPGEdge) g : shaped g (ns, es) ->
  Forall (fun n => ngraph n = g) (node_revisions p ns) /\ Forall (fun e => edge_graph_id e = g) (edge_revisions p es).
Proof.
  intros [_ _ S3 S4 _]. split; apply Forall_forall; intros x [_ Hx]%list_elem_of_filter;
    [exact (proj1 (Forall_forall _ _) S3 x Hx)|exact (proj1 (Forall_forall _ _) S4 x Hx)].
Qed.
(** With distinct keys, membership in a part of a list is decidable by key. *)
Lemma key_in_or_out {A K} `{EqDecision K} (key : A -> K) (part l : list A) x :
  NoDup (key <$> l) -> (forall y, y ∈ part -> y ∈ l) -> x ∈ l -> x ∈ part \/ x ∉ part.
Proof.
  intros Hd Hsub Hx. destruct (decide (key x ∈ key <$> part)) as [(y & Hk & Hy)%list_elem_of_fmap|Hno].
  - left. rewrite (NoDup_key_inj key l x y); auto.
  - right. intros Hin. apply Hno. by apply list_elem_of_fmap_2.
Qed.

Lemma trace_effect q ns es p dn s s1 s' :
  tables_ok (tables s1) -> shaped (patch_graph_id (q_patch q)) (dn, es) ->
  commit_trace q ns es p dn s s1 s' -> commit_effect q p dn es (tables s1) (tables s').
Proof.
  intros Ht Hsh [_ _ _ _ _ _ (s2 & s3 & s4 & s5 & E2 & Hd & E4 & E5 & ->)].
  apply write_version_Ok in E2 as (Et2 & K1 & K2 & K3). apply insert_into_ok in E4 as [K4 E4].
  rewrite exec_run in E4. injection E4 as <-. rewrite Et2 in Hd. pose proof (to_keys _ Ht) as [_ _ _ _ _ _ _ K8 K9 K10 K11].
  destruct Hd as [D1 D2 D3 D4 D5 D6 D7 D8 D9 D10]. destruct (revisions_sub p dn es _ Hsh) as [R1 R2].
  apply write_history_Ok in E5 as (Et5 & K12 & K13); [|done|done|by cbn; rewrite D5|by cbn; rewrite D6].
  rewrite Et5 in *. split; try done; cbn; rewrite ?D1, ?D2, ?D3, ?D4, ?D5, ?D6, ?D7, ?D8; try done.
  - by apply D9.
  - by apply D10.
Qed.

(** The content of the new version is the candidate's. *)
Lemma effect_content q p c dn es t t' : tables_ok t -> commit_effect q p dn es t t' ->
  let g := patch_graph_id (q_patch q) in
  let v := q_committed_version q in
  c = content t g (v - 1) -> agrees p c -> shaped g c -> shaped g (dn, es) ->
  Forall text_ok dn ->
  (forall rev, rev ∈ graph_node_history t -> rev_graph node_key rev = g -> rv_version rev <= v - 1) ->
  (forall rev, rev ∈ graph_edge_history t -> rev_graph edge_key rev = g -> rv_version rev <= v - 1) ->
  (forall i, i ∈ ids c.1 -> i ∈ ids dn) -> (forall i, i ∈ edge_id <$> c.2 -> i ∈ edge_id <$> es) ->
  content t' g v = (sort_on (fun n => nid n) dn, sort_on edge_id es).
Proof.
  intros Ht Hce g v -> Ha Hc [S1 S2 S3 S4 _] Htx Hn He Hni Hei. cbn [fst snd] in *.
  destruct (latest_node_rows t g (v - 1) Ht) as [Ln Lt]. pose proof (latest_edge_rows t g (v - 1) Ht) as Le.
  pose proof Hc as [C1 C2 C3 C4 C5]. unfold content. rewrite (ce_nodes _ _ _ _ _ _ Hce), (ce_edges _ _ _ _ _ _ Hce). f_equal.
  - replace v with (v - 1 + 1) at 1 by lia. unfold v.
    rewrite (latest_append node_key g (v - 1) _ (row_of_node <$> node_revisions p dn) (row_of_node <$> dn)).
    + rewrite sort_on_fmap. apply nodes_of_rows. apply Forall_forall. intros n Hx%elem_of_sort_on.
      exact (proj1 (Forall_forall _ _) Htx n Hx).
    + pose proof (ce_key_node_history _ _ _ _ _ _ Hce) as Hk. by rewrite (ce_nodes _ _ _ _ _ _ Hce) in Hk.
    + unfold node_revs. fold v. replace (v - 1 + 1) with v by lia. rewrite <-list_fmap_compose. by rewrite sort_on_perm.
    + intros r Hr Hg. by apply Hn.
    + intros x (n & -> & Hx)%list_elem_of_fmap. cbn. exact (proj1 (Forall_forall _ _) S3 n Hx).
    + by rewrite <-list_fmap_compose.
    + intros x (n & -> & [_ Hx]%list_elem_of_filter)%list_elem_of_fmap. by apply list_elem_of_fmap_2.
    + intros x (n & -> & Hx)%list_elem_of_fmap. 
      destruct (key_in_or_out (fun n => nid n) (node_revisions p dn) dn n) as [Hin|Hno];
        [done|by intros y [_ Hy]%list_elem_of_filter|done|..].
      * left. by apply list_elem_of_fmap_2.
      * right. rewrite Ln. apply list_elem_of_fmap_2. apply (node_kept p (content t g (v - 1)) Ha dn n); [done| |done|done].
        exact (proj1 (Forall_forall _ _) Htx n Hx).
    + intros x. rewrite Ln. intros (n & -> & Hx)%list_elem_of_fmap. rewrite <-list_fmap_compose. apply Hni.
      by apply (list_elem_of_fmap_2 (fun n => nid n)).
  - replace v with (v - 1 + 1) at 1 by lia. unfold v.
    rewrite (latest_append edge_key g (v - 1) _ (row_of_edge <$> edge_revisions p es) (row_of_edge <$> es)).
    + rewrite sort_on_fmap. apply edges_of_rows.
    + pose proof (ce_key_edge_history _ _ _ _ _ _ Hce) as Hk. by rewrite (ce_edges _ _ _ _ _ _ Hce) in Hk.
    + unfold edge_revs. fold v. replace (v - 1 + 1) with v by lia. rewrite <-list_fmap_compose. by rewrite sort_on_perm.
    + intros r Hr Hg. by apply He.
    + intros x (e & -> & Hx)%list_elem_of_fmap. cbn. exact (proj1 (Forall_forall _ _) S4 e Hx).
    + by rewrite <-list_fmap_compose.
    + intros x (e & -> & [_ Hx]%list_elem_of_filter)%list_elem_of_fmap. by apply list_elem_of_fmap_2.
    + intros x (e & -> & Hx)%list_elem_of_fmap. 
      destruct (key_in_or_out edge_id (edge_revisions p es) es e) as [Hin|Hno];
        [done|by intros y [_ Hy]%list_elem_of_filter|done|..].
      * left. by apply list_elem_of_fmap_2.
      * right. rewrite Le. apply list_elem_of_fmap_2. apply (edge_kept p (content t g (v - 1)) Ha es e); done.
    + intros x. rewrite Le. intros (e & -> & Hx)%list_elem_of_fmap. rewrite <-list_fmap_compose. apply Hei.
      by apply (list_elem_of_fmap_2 edge_id).
Qed.

(** ** The invariant and the histories after the commit *)

Section Effect.
Context (q : CommitRequest) (p : projection) (dn : list AnyNode) (es : list VPGEdge) (t t' : Tables).
Context (r : GraphRecord) (c : HistoryRetentionContract).
Let g := patch_graph_id (q_patch q).
Let v := q_committed_version q.
Context (Ht : tables_ok t) (Hce : commit_effect q p dn es t t').
Context (Hr : find_record t g = Some r) (Hopen : gr_closed r = false) (Hcur : gr_current_version r = v - 1).
Context (Hret : find_retention t g = Some c) (Hi : graph_inv t g r c).

Lemma effect_record g' : find_record t' g' =
  if decide (g' = g) then Some (set_record v (q_applied_at q) false r) else find_record t g'.
Proof.
  unfold find_record. rewrite (ce_graphs _ _ _ _ _ _ Hce). rewrite tbl_find_fmap by (intros x; by destruct (advanced q x)).
  destruct (tbl_find gr_graph_id g' (graphs t)) as [x|] eqn:E; cbn.
  - pose proof (tbl_find_Some _ _ _ _ E) as [Hg _]. case_decide as Hd.
    + subst g'. unfold find_record in Hr. rewrite Hd in E. rewrite Hr in E. injection E as <-.
      assert (advanced q r = true) as ->.
      { unfold advanced. fold g v. rewrite Hd, Hcur, Hopen, String.eqb_refl, Z.eqb_refl. done. }
      by rewrite Hopen.
    + assert (advanced q x = false) as ->; [|done]. unfold advanced. fold g. rewrite Hg.
      by apply String.eqb_neq in Hd as ->.
  - case_decide as Hd; [|done]. subst g'. unfold find_record in Hr. congruence.
Qed.
Lemma version_new : find_version t g v = None.
Proof.
  destruct (find_version t g v) as [x|] eqn:E; [|done].
  assert (is_Some (find_version t g v)) as Hx%(gi_versions _ _ _ _ Hi) by (rewrite E; done). lia.
Qed.
Lemma effect_version g' v' : find_version t' g' v' =
  if decide ((g', v') = (g, v)) then Some (version_row_of q (commit_hash q dn es)) else find_version t g' v'.
Proof. unfold find_version. rewrite (ce_versions _ _ _ _ _ _ Hce). by rewrite find_snoc by exact version_new. Qed.
Lemma effect_patch g' v' : find_patch t' g' v' =
  if decide ((g', v') = (g, v)) then Some (patch_row_of q) else find_patch t g' v'.
Proof.
  unfold find_patch. rewrite (ce_patches _ _ _ _ _ _ Hce). rewrite find_snoc; [done|].
  destruct (tbl_find patch_key (patch_key (patch_row_of q)) (graph_patches t)) as [x|] eqn:E; [|done].
  assert (is_Some (find_patch t g v)) as Hx%(gi_patches _ _ _ _ Hi) by (exists x; exact E). lia.
Qed.
Lemma effect_snapshot g' v' : find_snapshot t' g' v' =
  if decide ((g', v') = (g, v)) then Some (mkSnapshot g v (commit_hash q dn es)) else find_snapshot t g' v'.
Proof.
  unfold find_snapshot. rewrite (ce_snapshots _ _ _ _ _ _ Hce). rewrite find_snoc; [done|].
  pose proof (gi_snapshots _ _ _ _ Hi v) as E. rewrite version_new in E. unfold find_snapshot in E.
  etransitivity; [exact E|]. by case_decide.
Qed.
Lemma effect_keys : keys_ok t'.
Proof.
  destruct (to_keys t Ht) as [K1 K2 K3 K4 K5 K6 K7 K8 K9 K10 K11].
  pose proof version_new as Vn. pose proof (gi_snapshots _ _ _ _ Hi v) as Sn. rewrite Vn in Sn.
  split; try apply Hce; rewrite ?(ce_retention _ _ _ _ _ _ Hce); try done.
  - rewrite (ce_graphs _ _ _ _ _ _ Hce), <-list_fmap_compose. erewrite list_fmap_ext; [exact K1|].
    intros i x _. cbn. by destruct (advanced q x).
  - rewrite (ce_versions _ _ _ _ _ _ Hce). apply NoDup_key_snoc; [done|]. by apply not_in_keys.
  - rewrite (ce_snapshots _ _ _ _ _ _ Hce). apply NoDup_key_snoc; [done|]. apply not_in_keys.
    unfold find_snapshot in Sn. etransitivity; [exact Sn|]. by case_decide.
  - rewrite (ce_patches _ _ _ _ _ _ Hce). apply NoDup_key_snoc; [done|]. apply not_in_keys.
    destruct (tbl_find patch_key (patch_key (patch_row_of q)) (graph_patches t)) as [x|] eqn:E; [|done].
    assert (is_Some (find_patch t g v)) as Hx%(gi_patches _ _ _ _ Hi) by (exists x; exact E). lia.
  - rewrite (ce_patches _ _ _ _ _ _ Hce). apply NoDup_key_snoc; [done|]. apply Hce.
  - rewrite (ce_idempotency _ _ _ _ _ _ Hce). apply NoDup_key_snoc; [done|]. apply Hce.
Qed.
Lemma filter_other {R} (key : R -> string * string) (hist : list (revision R)) new g' :
  (forall x, x ∈ new -> rev_graph key x = g) -> g' <> g ->
  filter (fun x => rev_graph key x = g') (hist ++ new) = filter (fun x => rev_graph key x = g') hist.
Proof.
  intros Hn Hne. rewrite filter_app, (filter_none _ new), app_nil_r; [done|]. intros x Hx Hg. specialize (Hn x Hx). congruence.
Qed.

Context (Hsh : shaped g (dn, es)) (Htx : Forall text_ok dn).
Lemma new_node_rev x : x ∈ node_revs v (node_revisions p dn) -> rev_graph node_key x = g /\ rv_version x = v /\ canonical_node (rv_row x).
Proof.
  intros (n & -> & [_ Hn]%elem_of_sort_on%list_elem_of_filter)%list_elem_of_fmap. split_and!; [|done|].
  - exact (proj1 (Forall_forall _ _) (sh_graph _ _ Hsh) n Hn).
  - exists n. split; [done|]. exact (proj1 (Forall_forall _ _) Htx n Hn).
Qed.
Lemma new_edge_rev x : x ∈ edge_revs v (edge_revisions p es) -> rev_graph edge_key x = g /\ rv_version x = v /\ canonical_edge (rv_row x).
Proof.
  intros (n & -> & [_ Hn]%elem_of_sort_on%list_elem_of_filter)%list_elem_of_fmap. split_and!; [|done|by exists n].
  exact (proj1 (Forall_forall _ _) (sh_edge_graph _ _ Hsh) n Hn).
Qed.
Lemma effect_others g' : g' <> g -> same_graph t t' g'.
Proof.
  intros Hne. split.
  - rewrite effect_record. by rewrite decide_False.
  - intros v'. rewrite effect_version. by rewrite decide_False by congruence.
  - intros v'. rewrite effect_snapshot. by rewrite decide_False by congruence.
  - intros v'. rewrite effect_patch. by rewrite decide_False by congruence.
  - unfold find_retention. by rewrite (ce_retention _ _ _ _ _ _ Hce).
  - rewrite (ce_nodes _ _ _ _ _ _ Hce). apply filter_other; [|done]. intros x Hx. by apply new_node_rev.
  - rewrite (ce_edges _ _ _ _ _ _ Hce). apply filter_other; [|done]. intros x Hx. by apply new_edge_rev.
Qed.
Lemma effect_old_content v' : v' < v -> content t' g v' = content t g v'.
Proof.
  intros Hv. unfold content. rewrite (ce_nodes _ _ _ _ _ _ Hce), (ce_edges _ _ _ _ _ _ Hce), !latest_app_later; [done|..];
    intros x Hx; [apply new_edge_rev in Hx|apply new_node_rev in Hx]; lia.
Qed.

Context (Hreq : q_patch_id q = patch_id (q_patch q)) (Hexp : v = expected_graph_version (q_patch q) + 1).
Context (Hnew : content t' g v = (sort_on (fun n => nid n) dn, sort_on edge_id es)).
Lemma commit_hash_plain : commit_hash q dn es = compute_projection_hash g v dn es None None.
Proof.
  destruct Hsh as [S1 S2 _ _ _]. unfold commit_hash. apply hash_texts.
  - intros d n x [= <-] Hn. by apply node_texts_get.
  - intros d e x [= <-] He. by apply edge_texts_get.
Qed.
Lemma sorted_shaped : shaped g (sort_on (fun n => nid n) dn, sort_on edge_id es).
Proof.
  destruct Hsh as [S1 S2 S3 S4 S5]. cbn [fst snd] in *. split; cbn [fst snd].
  - by rewrite sort_on_perm.
  - by rewrite sort_on_perm.
  - by rewrite sort_on_perm.
  - by rewrite sort_on_perm.
  - rewrite dangling_spec in *. intros e He%elem_of_sort_on. rewrite sort_on_perm. by apply S5.
Qed.
Lemma effect_graph_inv : graph_inv t' g (set_record v (q_applied_at q) false r) c.
Proof.
  destruct Hi as [I1 I2 I3 I4 I5 I6 I7 I8 I9 I10 I11 I12]. split; cbn [set_record gr_current_version]; rewrite ?Hcur in *.
  - lia.
  - intros v'. rewrite effect_version. case_decide as E; [injection E as ->; split; [lia|done]|].
    rewrite I2. assert (v' <> v) by congruence. lia.
  - intros v' gv. rewrite effect_version. case_decide as E; [|apply I3]. injection E as ->. intros [= <-]. cbn. fold v.
    replace (0 <? v) with true by lia. by replace (v =? 0) with false by lia.
  - intros gv. rewrite effect_version. case_decide as E; [|apply I4]. injection E as E. lia.
  - intros v'. rewrite effect_patch. case_decide as E; [injection E as ->; split; [lia|done]|].
    rewrite I5. assert (v' <> v) by congruence. lia.
  - intros v' pr gv. rewrite effect_patch, effect_version. case_decide as E; [|apply I6]. injection E as ->.
    intros [= <-] [= <-]. split; [|done]. exists (q_patch q). cbn. fold g v. split_and!; try done. lia.
  - intros v'. rewrite effect_snapshot, effect_version. case_decide as E; [|apply I7]. injection E as ->.
    rewrite decide_True by lia. done.
  - rewrite effect_version. rewrite decide_False; [done|]. intros [= E]. lia.
  - intros rev. rewrite (ce_nodes _ _ _ _ _ _ Hce). intros [Hin|Hin]%elem_of_app Hg; [specialize (I9 rev Hin Hg); lia|].
    apply new_node_rev in Hin. lia.
  - intros rev. rewrite (ce_edges _ _ _ _ _ _ Hce). intros [Hin|Hin]%elem_of_app Hg; [specialize (I10 rev Hin Hg); lia|].
    apply new_edge_rev in Hin. lia.
  - intros v' Hv'. destruct (decide (v' = v)) as [->|Hne].
    + rewrite Hnew. apply sorted_shaped.
    + rewrite effect_old_content by lia. apply I11. lia.
  - intros v' gv Hf. rewrite effect_version. case_decide as E.
    + injection E as ->. intros [= <-]. rewrite Hnew. cbn [gv_projection_hash version_row_of fst snd].
      rewrite commit_hash_plain. destruct Hsh as [S1 S2 _ _ _]. apply hash_perm; [done|done|by rewrite sort_on_perm..].
    + intros Hgv. assert (v' < v).
      { assert (is_Some (find_version t g v')) as Hx%I2 by (rewrite Hgv; done). lia. }
      rewrite effect_old_content by done. by apply I12.
Qed.
Lemma effect_ok : tables_ok t' /\
  becomes g (mkHistory false (floor_of c) ((content t g <$> seqZ (floor_of c) (gr_current_version r + 1 - floor_of c)) ++
    [(sort_on (fun n => nid n) dn, sort_on edge_id es)])) t t'.
Proof.
  pose proof (gi_floor _ _ _ _ Hi) as Hf.
  apply (one_graph t _ g); [done|exact effect_keys|..].
  - rewrite (ce_nodes _ _ _ _ _ _ Hce). apply Forall_app. split; [apply Ht|]. apply Forall_forall. intros x Hx. by apply new_node_rev.
  - rewrite (ce_edges _ _ _ _ _ _ Hce). apply Forall_app. split; [apply Ht|]. apply Forall_forall. intros x Hx. by apply new_edge_rev.
  - rewrite (ce_idempotency _ _ _ _ _ _ Hce), (ce_patches _ _ _ _ _ _ Hce), fmap_app. by rewrite (to_idempotency t Ht).
  - exact effect_others.
  - unfold graph_state. rewrite effect_record, decide_True by done. exists c. split; [|exact effect_graph_inv].
    unfold find_retention. rewrite (ce_retention _ _ _ _ _ _ Hce). exact Hret.
  - unfold history. rewrite effect_record, decide_True by done.
    assert (find_retention t' g = Some c) as -> by (unfold find_retention; rewrite (ce_retention _ _ _ _ _ _ Hce); exact Hret).
    cbn [set_record gr_closed gr_current_version]. do 2 f_equal. rewrite Hcur.
    replace (v + 1 - floor_of c) with ((v - 1 + 1 - floor_of c) + 1) by lia. rewrite seqZ_app by lia.
    rewrite fmap_app. f_equal.
    + apply list_fmap_ext. intros i x Hx%lookup_seqZ. apply effect_old_content. lia.
    + replace (floor_of c + (v - 1 + 1 - floor_of c)) with v by lia. assert (seqZ v 1 = [v]) as -> by (unfold seqZ; cbn; f_equal; lia).
      cbn. by rewrite Hnew.
Qed.
End Effect.

(** ** The checks of the candidate *)

Lemma existsb_out {A} (l : list A) (P : A -> Prop) `{!forall x, Decision (P x)} :
  existsb (fun i => negb (bool_decide (P i))) l = false -> forall i, i ∈ l -> P i.
Proof.
  intros Hf i Hi. apply dec_stable. intros Hn. apply not_true_iff_false in Hf. apply Hf, existsb_exists. exists i.
  split; [by apply list_elem_of_In|]. by rewrite bool_decide_eq_false_2.
Qed.
Lemma check_candidate_Ok q p ns dn es allowed : check_candidate q p ns dn es allowed = Ok tt ->
  dangling (ids dn) es = false /\ (forall i, i ∈ (pj_nodes p).*1 -> i ∈ ids ns) /\
  (forall i, i ∈ edge_id <$> pj_edges p -> i ∈ edge_id <$> es) /\
  (forall k n, (k, n) ∈ q_nodes_to_upsert q -> exists m, m ∈ dn /\ nid m = k /\ model_dump_json m = model_dump_json n) /\
  (forall e, e ∈ q_edges_to_upsert q -> e ∈ es) /\
  (forall i, i ∈ ids dn -> (i ∈ (pj_nodes p).*1) \/ (i ∈ (q_nodes_to_upsert q).*1) \/ (i ∈ allowed)) /\
  (forall i, i ∈ edge_id <$> es -> (i ∈ edge_id <$> pj_edges p) \/ (i ∈ edge_id <$> q_edges_to_upsert q)).
Proof.
  unfold check_candidate. cbv zeta. destruct (dangling (ids dn) es); [done|].
  destruct (forallb _ (q_nodes_to_upsert q)) eqn:Fn; [|done]. destruct (forallb _ (q_edges_to_upsert q)) eqn:Fe; [|done].
  destruct (existsb _ (pj_nodes p).*1) eqn:E1; [done|]. destruct (existsb _ (edge_id <$> pj_edges p)) eqn:E2; [done|]. cbn [negb orb].
  destruct (existsb _ (ids dn)) eqn:E3; [done|]. destruct (existsb _ (edge_id <$> es)) eqn:E4; [done|].
  intros _. split; [done|]. split; [by apply (existsb_out _ (fun i => i ∈ ids ns))|].
  split; [by apply (existsb_out _ (fun i => i ∈ edge_id <$> es))|]. split_and!.
  - intros k n Hin%list_elem_of_In. pose proof (proj1 (forallb_forall _ _) Fn _ Hin) as Hk. cbn in Hk.
    destruct (tbl_find _ k dn) as [m|] eqn:Em; [|done]. apply tbl_find_Some in Em as [Hm Hmin]. apply String.eqb_eq in Hk. eauto.
  - intros e Hin%list_elem_of_In. pose proof (proj1 (forallb_forall _ _) Fe _ Hin) as Hk. cbn in Hk.
    destruct (tbl_find edge_id (edge_id e) es) as [m|] eqn:Em; [|done]. apply tbl_find_Some in Em as [Hm Hmin].
    apply String.eqb_eq, edge_text_inj in Hk. by subst.
  - intros i Hi. apply dec_stable. intros Hn. apply not_true_iff_false in E3. apply E3, existsb_exists. exists i.
    split; [by apply list_elem_of_In|]. rewrite !bool_decide_eq_false_2 by tauto. done.
  - intros i Hi. apply dec_stable. intros Hn. apply not_true_iff_false in E4. apply E4, existsb_exists. exists i.
    split; [by apply list_elem_of_In|]. rewrite !bool_decide_eq_false_2 by tauto. done.
Qed.
(** What is staged: evidence in the materialized projection that no version holds and
    that the patch does not attach. *)
Lemma check_staged_Ok q p ns nrs ers allowed staged : check_staged q p ns nrs ers = Ok (allowed, staged) ->
  (forall i, i ∈ allowed -> i ∈ attached_evidence_ids (q_patch q)) /\
  forall i, i ∈ staged ->
    (i ∈ nr_node_id <$> nrs) /\ ~ (i ∈ (pj_nodes p).*1) /\ ~ (i ∈ attached_evidence_ids (q_patch q)) /\
    ~ (i ∈ (q_nodes_to_upsert q).*1) /\ exists n, n ∈ ns /\ nid n = i /\ is_evidence_node n = true.
Proof.
  unfold check_staged. cbv zeta. destruct (negb (forallb _ _)) eqn:E1; [done|]. destruct (existsb _ ers); [done|].
  destruct (existsb _ _) eqn:E2; [done|]. intros [= <- <-]. split; [by intros i [Hi _]%list_elem_of_filter|].
  intros i Hi. pose proof Hi as Hs. apply list_elem_of_filter in Hi as [Hna (row & -> & [Hp Hrow]%list_elem_of_filter)%list_elem_of_fmap].
  split_and!; [by apply list_elem_of_fmap_2|done|done|..].
  - intros Hu. apply not_true_iff_false in E2. apply E2, existsb_exists. exists (nr_node_id row).
    split; [by apply list_elem_of_In|]. by apply bool_decide_eq_true.
  - apply negb_false_iff, forallb_forall with (x := row) in E1; [|by apply list_elem_of_In, list_elem_of_filter].
    unfold staged_row in E1. destruct (_node_from_json _) as [m|]; [|done].
    destruct (tbl_find _ (nr_node_id row) ns) as [n|] eqn:En; [|done]. apply tbl_find_Some in En as [Hk Hn].
    exists n. split_and!; [done..|]. apply andb_true_iff in E1 as [E1 _]. by apply andb_true_iff in E1 as [_ E1].
Qed.

(** ** Commits *)

Lemma commit_body_safe q ns es s r s' : store_ok s -> commit_body q ns es s = (r, s') ->
  exists s1, same_db s s1 /\ store_ok s1 /\ writes s1 s'.
Proof.
  intros Hs. assert (same_db s s) as Hself by (exists (_projection_cache s); by destruct s).
  assert (forall (e : py_error) x, s' = x -> x = s -> exists s1, same_db s s1 /\ store_ok s1 /\ writes s1 s') as Hself2
    by (intros e x -> ->; exists s; split_and!; [done..|reflexivity]).
  unfold commit_body. intros [([] & s0 & E0 & E)|(e & E & ->)]%bind_inv.
  2:{ apply (Hself2 e s'); [done|]. pose proof (guards_read (q_commit_guard q) (q_read_guards q) s) as Hg. by rewrite E in Hg. }
  pose proof (reads_Ok _ _ _ _ (guards_read _ _) E0) as ->. apply bind_inv in E as [([] & s0 & E1 & E)|(e & E & ->)].
  2:{ apply (Hself2 e s'); [done|]. pose proof (check_head_reads (patch_graph_id (q_patch q)) (q_committed_version q) s) as Hg.
      by rewrite E in Hg. }
  pose proof (reads_Ok _ _ _ _ (check_head_reads _ _) E1) as ->.
  destruct (load_parent_safe s (patch_graph_id (q_patch q)) (q_committed_version q - 1) Hs) as (rp & s1 & El & Hd & Hs1).
  exists s1. split_and!; [done..|]. apply bind_inv in E as [(p & s0 & E2 & E)|(e & E & ->)].
  2:{ rewrite El in E. injection E as _ <-. reflexivity. }
  rewrite El in E2. injection E2 as -> <-. revert E. match goal with |- ?m s1 = _ -> _ => set (rest := m) end.
  enough (within writes rest) as Hw by (intros E; specialize (Hw s1); by rewrite E in Hw). unfold rest.
  assert (forall A (m : SM A), reads m -> within writes m) as Hr by (intros A m Hm x; rewrite (Hm x); reflexivity).
  apply (within_bind _); [apply Hr, check_no_future_reads|intros _].
  apply (within_bind _); [apply Hr, materialized_reads|intros [nrs ers]].
  apply (within_bind _); [apply (within_of_result _)|intros _].
  apply (within_bind _); [apply (within_of_result _)|intros [allowed staged]]. cbv zeta.
  apply (within_bind _); [apply (within_of_result _)|intros _].
  apply (within_bind _); [apply write_version_writes|intros _].
  apply (within_bind _); [apply insert_d3_writes|intros _].
  apply (within_bind _); [apply write_events_writes|intros _].
  apply (within_bind _); [apply write_projection_writes|intros _].
  apply (within_bind _); [apply Hr, check_written_reads|intros _].
  apply (within_bind _); [eauto with lhos|intros _].
  apply (within_bind _); [apply write_history_writes|intros _]. apply (within_ret _).
Qed.

Lemma warm_nodes_run p c g dn : agrees p c -> shaped g c -> Forall text_ok c.1 -> Forall text_ok dn ->
  all_ok (warm_node p) dn = Ok (entries dn).
Proof.
  intros Ha Hc Hct. induction 1 as [|n dn Hn _ IH]; [done|]. cbn [all_ok fmap list_fmap].
  assert (warm_node p n = Ok (nid n, n)) as ->; [|by rewrite IH].
  unfold warm_node. unfold text_ok in Hn.
  destruct (dict_get (nid n) (pj_nodes p)) as [m|] eqn:Em; [|by rewrite Hn]. case_decide as E; [|by rewrite Hn].
  apply (parent_node_get g p c Ha Hc) in Em as [Hm Hk]. apply (parent_text_get p c Ha) in E as (m' & Hm' & Hk' & Ed).
  assert (m' = m) as -> by (apply (NoDup_key_inj (fun n => nid n) c.1); [apply Hc|done|done|congruence]).
  pose proof (proj1 (Forall_forall _ _) Hct m Hm) as Hmt. unfold text_ok in Hmt. rewrite <-Ed, Hn in Hmt. by injection Hmt as ->.
Qed.
Lemma warm_edges_run p c g es : agrees p c -> shaped g c -> all_ok (warm_edge p) es = Ok es.
Proof.
  intros Ha Hc. induction es as [|e es IH]; [done|]. cbn [all_ok].
  assert (warm_edge p e = Ok e) as ->; [|by rewrite IH]. unfold warm_edge. rewrite edge_validate_dump.
  destruct (tbl_find edge_id (edge_id e) (pj_edges p)) as [m|] eqn:Em; [|done]. case_decide as E; [|done].
  apply tbl_find_Some in Em as [Hk Hm]. rewrite (ag_edges _ _ Ha) in Hm.
  apply (parent_edge_text_get p c Ha) in E as (m' & Hm' & Hk' & Ed). apply edge_text_inj in Ed as <-.
  by rewrite (NoDup_key_inj edge_id c.2 m e (sh_edges _ _ Hc) Hm Hm' Hk).
Qed.

Definition h_append (h : History) (c : list AnyNode * list VPGEdge) : History :=
  mkHistory (h_closed h) (h_floor h) (h_versions h ++ [c]).
(** The materialized rows are those of the content, and evidence no version holds. *)
Record cache_of t g (c : list AnyNode * list VPGEdge) : Prop := {
  cf_node n : n ∈ c.1 -> exists row, row ∈ of_graph node_key g (graph_nodes_projection t) /\ nr_node_id row = nid n /\
    _materialized_node_matches (nr_payload_json row) (model_dump_json n) = true;
  cf_extra row : row ∈ of_graph node_key g (graph_nodes_projection t) ->
    (nr_node_id row ∈ ids c.1) \/ exists e, _node_from_json (nr_payload_json row) = Ok (NEvidence e);
  cf_edge e : e ∈ c.2 -> row_of_edge e ∈ of_graph edge_key g (graph_edges_projection t);
  cf_edge_extra row : row ∈ of_graph edge_key g (graph_edges_projection t) -> gr_edge_id row ∈ edge_id <$> c.2 }.
(** The projection a commit makes durable: the candidate without the staged evidence. *)
Record made_durable (q : CommitRequest) t (h : History) (dn : list AnyNode) (es : list VPGEdge) : Prop := {
  md_open : h_closed h = false;
  md_version : q_committed_version q = h_current h + 1;
  md_expected : expected_graph_version (q_patch q) = h_current h;
  md_shaped : shaped (patch_graph_id (q_patch q)) (dn, es);
  md_edges : q_projection_edges q = Some es;
  md_nodes : exists ns, q_projection_nodes q = Some ns /\
    (forall n, n ∈ dn -> n ∈ ns) /\
    (forall n, n ∈ ns -> n ∉ dn ->
       is_evidence_node n = true /\
       (nid n ∈ nr_node_id <$> of_graph node_key (patch_graph_id (q_patch q)) (graph_nodes_projection t)) /\
       ~ (nid n ∈ attached_evidence_ids (q_patch q)) /\ ~ (nid n ∈ (q_nodes_to_upsert q).*1));
  md_keeps : forall c, h_at h (h_current h) = Some c ->
    (forall i, i ∈ ids c.1 -> i ∈ ids dn) /\ (forall i, i ∈ edge_id <$> c.2 -> i ∈ edge_id <$> es) /\
    (forall i, i ∈ ids dn -> (i ∈ ids c.1) \/ (i ∈ (q_nodes_to_upsert q).*1) \/ (i ∈ attached_evidence_ids (q_patch q))) /\
    (forall i, i ∈ edge_id <$> es -> (i ∈ edge_id <$> c.2) \/ (i ∈ edge_id <$> q_edges_to_upsert q));
  md_upserts : (forall k n, (k, n) ∈ q_nodes_to_upsert q -> exists m, m ∈ dn /\ nid m = k /\ model_dump_json m = model_dump_json n) /\
    (forall e, e ∈ q_edges_to_upsert q -> e ∈ es);
  md_cache : forall c, h_at h (h_current h) = Some c -> cache_of t (patch_graph_id (q_patch q)) c }.

Lemma materialized_rows g s nrs ers s' : _get_materialized_projection_rows g s = (Ok (nrs, ers), s') ->
  nrs = of_graph node_key g (graph_nodes_projection (tables s)) /\ ers = of_graph edge_key g (graph_edges_projection (tables s)).
Proof.
  unfold _get_materialized_projection_rows. rewrite !select_bind. cbv zeta. intros ([] & s1 & _ & E)%bind_Ok_inv. by injection E as <- <- _.
Qed.
Lemma edge_row_matches_eq row g e : edge_row_matches row g e = true -> gr_edge_id row = edge_id e -> edge_graph_id e = g ->
  row = row_of_edge e.
Proof.
  unfold edge_row_matches. rewrite !andb_true_iff, !String.eqb_eq, !Z.eqb_eq. destruct row; cbn.
  intros ((((((-> & ->) & ->) & ->) & ->) & ->) & ->) -> <-. done.
Qed.
Lemma checks_cache q p ns t c allowed staged : let g := patch_graph_id (q_patch q) in
  let nrs := of_graph node_key g (graph_nodes_projection t) in
  let ers := of_graph edge_key g (graph_edges_projection t) in
  agrees p c -> shaped g c -> check_materialized g p nrs ers = Ok tt -> check_staged q p ns nrs ers = Ok (allowed, staged) -> cache_of t g c.
Proof.
  intros g nrs ers Ha Hc. unfold check_materialized, check_staged. cbv zeta.
  destruct (existsb _ ers) eqn:E1; [done|]. destruct (forallb _ (pj_nodes p)) eqn:E2; [|done]. destruct (forallb _ (pj_edges p)) eqn:E3; [|done].
  cbn [negb]. intros _. destruct (forallb (staged_row ns) _) eqn:E4; [|done]. cbn [negb].
  destruct (existsb (fun r => negb (bool_decide (gr_edge_id r ∈ edge_id <$> pj_edges p))) ers) eqn:E5; [done|]. intros _. split.
  - intros n Hn. assert ((nid n, n) ∈ pj_nodes p) as Hp by (rewrite (ag_nodes _ _ Ha); by apply (list_elem_of_fmap_2 (fun n => (nid n, n)))).
    pose proof (proj1 (forallb_forall _ _) E2 _ (proj1 (list_elem_of_In _ _) Hp)) as Hm. unfold node_row_matches in Hm. cbn [fst snd] in Hm.
    destruct (tbl_find nr_node_id (nid n) nrs) as [row|] eqn:Er; [|done]. apply tbl_find_Some in Er as [Hid Hin].
    apply andb_true_iff in Hm as [_ Hm]. destruct (dict_get (nid n) (pj_node_json p)) as [x|] eqn:Ex; [|done].
    apply (parent_text_get p c Ha) in Ex as (m & Hm' & Hk & ->).
    rewrite (NoDup_key_inj (fun n => nid n) c.1 m n (sh_nodes _ _ Hc) Hm' Hn Hk) in Hm. by exists row.
  - intros row Hrow. destruct (decide (nr_node_id row ∈ ids c.1)) as [?|Hno]; [by left|right].
    assert (row ∈ filter (fun r => nr_node_id r ∉ (pj_nodes p).*1) nrs) as Hx.
    { apply list_elem_of_filter. split; [|done]. by rewrite (parent_ids p c Ha). }
    pose proof (proj1 (forallb_forall _ _) E4 row (proj1 (list_elem_of_In _ _) Hx)) as Hst. unfold staged_row in Hst.
    destruct (_node_from_json (nr_payload_json row)) as [m|]; [|done]. destruct (tbl_find _ _ ns); [|done].
    apply andb_true_iff in Hst as [Hst _]. apply andb_true_iff in Hst as [Hst _]. destruct m; try done. eauto.
  - intros e He. assert (e ∈ pj_edges p) as Hp by by rewrite (ag_edges _ _ Ha).
    pose proof (proj1 (forallb_forall _ _) E3 e (proj1 (list_elem_of_In _ _) Hp)) as Hin. apply bool_decide_eq_true in Hin.
    apply list_elem_of_fmap in Hin as (row & Hid & Hrow).
    assert (tbl_find edge_id (gr_edge_id row) (pj_edges p) = Some e) as Hf.
    { rewrite <-Hid. apply tbl_find_elem; [|done]. rewrite (ag_edges _ _ Ha). apply Hc. }
    rewrite <-(edge_row_matches_eq row g e); [done| |done|exact (proj1 (Forall_forall _ _) (sh_edge_graph _ _ Hc) e He)].
    apply not_false_iff_true. intros Hfalse. apply not_true_iff_false in E1. apply E1, existsb_exists. exists row.
    split; [by apply list_elem_of_In|]. rewrite Hf. by rewrite Hfalse.
  - intros row Hrow. pose proof (existsb_out ers (fun r => gr_edge_id r ∈ edge_id <$> pj_edges p) E5 row Hrow) as Hx. cbn in Hx.
    by rewrite (ag_edges _ _ Ha) in Hx.
Qed.
(** The candidate without the staged rows. *)
Lemma candidate_durable q ns es p dn s s1 s' t h c :
  commit_trace q ns es p dn s s1 s' -> check_request q = Ok (ns, es) -> tables s1 = t ->
  h_closed h = false -> q_committed_version q = h_current h + 1 ->
  h_at h (h_current h) = Some c -> agrees p c -> shaped (patch_graph_id (q_patch q)) c ->
  made_durable q t h dn es.
Proof.
  intros Htr Hreq <- Ho Hv Hc Ha Hsc. apply check_request_Ok in Hreq as (_ & Hexp & Hpn & Hpe & [S1 S2 S3 S4 S5]).
  destruct (ct_checks _ _ _ _ _ _ _ _ Htr) as (nrs & ers & allowed & staged & Em & Emt & Est & -> & Ecc).
  apply materialized_rows in Em as [-> ->]. apply check_candidate_Ok in Ecc as (D1 & D2 & D3 & D4 & D5 & D6 & D7).
  pose proof (check_staged_Ok _ _ _ _ _ _ _ Est) as [Hal Hst]. cbn [fst snd] in *.
  assert (cache_of (tables s1) (patch_graph_id (q_patch q)) c) as Hcache by by eapply checks_cache.
  split; [done|done|lia| |done|..|done|intros c' Hc'; by rewrite Hc in Hc'; injection Hc' as <-].
  - split; cbn [fst snd]; [by apply filter_keys_NoDup|done| |done|done].
    apply Forall_forall. intros n [_ Hn]%list_elem_of_filter. exact (proj1 (Forall_forall _ _) S3 n Hn).
  - exists ns. split; [done|]. split; [by intros n [_ Hn]%list_elem_of_filter|]. intros n Hn Hnd.
    destruct (decide (nid n ∈ staged)) as [Hin|Hout]; [|by destruct Hnd; apply list_elem_of_filter].
    destruct (Hst _ Hin) as (H1' & _ & H3' & H4' & m & Hm & Hk & He).
    rewrite (NoDup_key_inj (fun n => nid n) ns n m); [|done..]. rewrite Hk. done.
  - intros c' Hc'. rewrite Hc in Hc'. injection Hc' as <-. split.
    + intros i Hi. assert (i ∈ (pj_nodes p).*1) as Hp by (by rewrite (parent_ids p c Ha)).
      destruct (proj1 (list_elem_of_fmap _ _ _) (D2 i Hp)) as (n & -> & Hn). apply (list_elem_of_fmap_2 (fun n => nid n)).
      apply list_elem_of_filter. split; [|done]. intros Hin. by apply Hst in Hin as (_ & Hx & _).
    + split_and!.
      * intros i Hi. apply D3. by rewrite (ag_edges _ _ Ha).
      * intros i Hi. rewrite <-(parent_ids p c Ha). destruct (D6 i Hi) as [?|[?|?%Hal]]; auto.
      * intros i Hi. rewrite <-(ag_edges _ _ Ha). auto.
Qed.

Lemma h_current_content t g cl a b : a <= b -> h_current (mkHistory cl a (content t g <$> seqZ a (b + 1 - a))) = b.
Proof. intros Hab. unfold h_current. cbn. rewrite length_fmap, length_seqZ. lia. Qed.

Lemma commit_patch_run q s : store_ok s -> (forall ns, q_projection_nodes q = Some ns -> Forall (fun n => node_valid n = true) ns) ->
  let g := patch_graph_id (q_patch q) in
  match commit_patch q s with
  | (Ok _, s') => store_ok s' /\ _read_only s = false /\ exists h dn es,
      (validate_guards (q_commit_guard q) (q_read_guards q) s).1 = Ok tt /\
      history (tables s) g = Some h /\ made_durable q (tables s) h dn es /\
      becomes g (h_append h (sort_on (fun n => nid n) dn, sort_on edge_id es)) (tables s) (tables s') /\
      graph_patches (tables s') = graph_patches (tables s) ++ [patch_row_of q]
  | (Raise _, s') => store_ok s' /\ tables s' = tables s
  end.
Proof.
  intros Hs Hval g. unfold commit_patch. destruct (_read_only s) eqn:Ero; [by rewrite readonly_bind|].
  rewrite writable_bind by done. destruct (check_request q) as [[ns es]|e] eqn:Ereq; [|done]. rewrite of_Ok_bind.
  destruct (commit_body q ns es s) as [rb sb] eqn:Eb.
  destruct (commit_body_safe _ _ _ _ _ _ Hs Eb) as (s1 & [l ->] & Hs1 & Hw).
  destruct rb as [[p dn]|e].
  2:{ rewrite (bind_Raise _ _ _ e (with_tables (tables s) sb)) by (unfold tx; by rewrite Eb). split; [|done].
      apply (store_same (with_cache (fun _ => l) s)); [done| |done]. apply (writes_rollback _ _ Hw). }
  rewrite (bind_Ok _ _ _ _ _ (tx_run _ _ _ _ Eb)).
  destruct (commit_body_inv _ _ _ _ _ _ _ Eb) as [s1 Htr]. destruct (ct_head _ _ _ _ _ _ _ _ Htr) as (r & Hr & Ho & Hcur).
  pose proof (to_graphs _ (proj1 Hs) g) as Hg. unfold graph_state in Hg. fold g in Hr. rewrite Hr in Hg. destruct Hg as (c & Hret & Hi).
  pose proof (gi_floor _ _ _ _ Hi) as Hfl. set (v := q_committed_version q) in *.
  set (h := mkHistory (gr_closed r) (floor_of c) (content (tables s) g <$> seqZ (floor_of c) (gr_current_version r + 1 - floor_of c))).
  assert (history (tables s) g = Some h) as Hh by (unfold history; by rewrite Hr, Hret).
  assert (h_current h = v - 1) as Hhc by (unfold h; rewrite h_current_content; lia).
  assert (h_at h (v - 1) = Some (content (tables s) g (v - 1))) as Hat.
  { unfold h. rewrite h_at_content, decide_True by lia. done. }
  destruct (load_parent_ok s g (v - 1) h _ Hs Hh Hat) as (p' & s1' & El & Ha & [l' Es1] & Hs1').
  pose proof (ct_parent _ _ _ _ _ _ _ _ Htr) as El'. fold g v in El'. rewrite El in El'. injection El' as -> ->.
  assert (tables s1 = tables s) as Et by by rewrite Es1.
  pose proof (content_shaped _ g (v - 1) r c (proj1 Hs) Hi ltac:(lia)) as Hsc.
  assert (made_durable q (tables s) h dn es) as Hmd.
  { eapply candidate_durable; [exact Htr|done|done|done|fold v; lia|by rewrite Hhc|done|done]. }
  destruct (md_nodes _ _ _ _ _ Hmd) as (ns' & Hns & Hsub & _). pose proof (Hval ns' Hns) as Hv.
  assert (Forall text_ok dn) as Htx.
  { apply Forall_forall. intros n Hn. apply node_text_ok. exact (proj1 (Forall_forall _ _) Hv n (Hsub n Hn)). }
  pose proof (md_shaped _ _ _ _ _ Hmd) as Hsh. fold g in Hsh.
  assert (commit_effect q p dn es (tables s) (tables sb)) as Hce.
  { rewrite <-Et. apply (trace_effect q ns es p dn s); [by rewrite Et; apply Hs|done|done]. }
  destruct (md_keeps _ _ _ _ _ Hmd _ ltac:(rewrite Hhc; exact Hat)) as (Hk1 & Hk2 & _).
  assert (content (tables sb) g v = (sort_on (fun n => nid n) dn, sort_on edge_id es)) as Hnew.
  { apply (effect_content q p (content (tables s) g (v - 1)) dn es (tables s)); try done; [apply Hs| |];
      intros rev Hin Hgr; [apply (gi_node_rows _ _ _ _ Hi) in Hin|apply (gi_edge_rows _ _ _ _ Hi) in Hin]; try done; lia. }
  apply check_request_Ok in Ereq as (Hid & Hexp & _).
  destruct (effect_ok q p dn es (tables s) (tables sb) r c (proj1 Hs) Hce Hr Ho Hcur Hret Hi Hsh Htx Hid Hexp Hnew) as [Htb Hbec].
  fold g in Hbec. change (mkHistory false (floor_of c) _) with (mkHistory false (h_floor h) (h_versions h ++ [(sort_on (fun n => nid n) dn, sort_on edge_id es)])) in Hbec.
  assert (mkHistory false (h_floor h) (h_versions h ++ [(sort_on (fun n => nid n) dn, sort_on edge_id es)]) =
          h_append h (sort_on (fun n => nid n) dn, sort_on edge_id es)) as Eh by (unfold h_append, h; cbn; by rewrite Ho).
  rewrite Eh in Hbec.
  assert (store_ok sb) as Hsb.
  { split; [done|]. eapply cache_writes; [apply Hs1'|]. exact (ct_writes _ _ _ _ _ _ _ _ Htr). }
  unfold warm_cache. rewrite (warm_nodes_run p _ g dn Ha Hsc (proj2 (latest_node_rows _ g (v - 1) (proj1 Hs))) Htx).
  rewrite (warm_edges_run p _ g es Ha Hsc).
  destruct (remember_ok sb g v (mkProjection (entries dn) es (node_texts dn) (edge_texts es)) _
              (sort_on (fun n => nid n) dn, sort_on edge_id es) Hsb (becomes_history _ _ _ _ Hbec)) as (s2 & E2 & [l2 ->] & Hs2).
  - unfold h_at, h_append. cbn [h_floor h_versions]. unfold h_current in Hhc. replace (v <? h_floor h) with false by lia.
    replace (Z.to_nat (v - h_floor h)) with (length (h_versions h)) by lia. by rewrite list_lookup_middle.
  - split; cbn [pj_nodes pj_edges pj_node_json pj_edge_json fst snd]; unfold node_texts, edge_texts; by rewrite sort_on_perm.
  - fold g v. unfold node_texts, edge_texts in E2. rewrite E2. split; [done|]. split; [done|]. exists h, dn, es.
    split_and!; [apply (ct_guards _ _ _ _ _ _ _ _ Htr)|done|done|exact Hbec|apply Hce].
Qed.
End Commit.
