(* ===== verification/GraphCompaction.v ===== *)
(** * Compaction keeps every retained version (compact_projection_history, graph_store.py)

    Raising the floor drops the headers and revisions below it and installs a
    complete checkpoint at it; what every later version holds does not change. *)

From S2P Require Import Prelude PyString Storage VpgModels Agents Invalidation Verification Patches PatchValidator Derivation GraphStore GraphCommit GraphFacts GraphOps GraphCommitProps.
Open Scope Z_scope.

Section Compact.
Context `{ModelTextLaws, Sha256, UuidSource, JsonText}.
Implicit Types (t : Tables) (s : GraphStore) (g : string).

(** The fields a statement does not change. *)
Definition side (s : GraphStore) := (_projection_cache s, _read_only s, wall_clock s, uuids_drawn s).
Lemma delete_run {R} (tb : table R) p s : exists n s', delete_where tb p s = (Ok n, s') /\ side s' = side s /\
  tables s' = upd tb (filter (fun r => p r = false)) (tables s).
Proof.
  unfold delete_where, update_set. rewrite select_bind. cbv zeta. rewrite (bind_Ok _ _ _ _ _ (exec_run tb _ _ _)).
  by eexists _, _.
Qed.
Lemma update_run {R} (tb : table R) p f s : exists n s', update_set tb p f s = (Ok n, s') /\ side s' = side s /\
  tables s' = upd tb (fmap (fun r => if p r then f r else r)) (tables s).
Proof.
  unfold delete_where, update_set. rewrite select_bind. cbv zeta. rewrite (bind_Ok _ _ _ _ _ (exec_run tb _ _ _)).
  by eexists _, _.
Qed.
Lemma write_history_run g v ns es s :
  Forall (fun n => ngraph n = g) ns -> Forall (fun e => edge_graph_id e = g) es ->
  NoDup (revision_key node_key <$> graph_node_history (tables s) ++ node_revs v ns) ->
  NoDup (revision_key edge_key <$> graph_edge_history (tables s) ++ edge_revs v es) ->
  exists s', write_history g v ns es s = (Ok tt, s') /\ tables s' = with_history v ns es (tables s).
Proof.
  intros Hn He Kn Ke. destruct (history_rows g v ns es Hn He) as [Rn Re]. unfold write_history.
  destruct (for_each_insert_run NODE_HISTORY (revision_key node_key)
    (fun n => mkRevision v (mkNodeRow (nid n) g (NodeType.value (node_type n)) (model_dump_json n)))
    (sort_on (fun n => nid n) ns) s) as (s1 & E1 & Et1); [by rewrite Rn|].
  rewrite (bind_Ok _ _ _ _ _ E1). rewrite Rn in Et1.
  destruct (for_each_insert_run EDGE_HISTORY (revision_key edge_key)
    (fun e => mkRevision v (mkEdgeRow (edge_id e) g (EdgeType.value (edge_type e)) (source_node_id e) (target_node_id e)
       (edge_created_in_version e) (edge_created_by_pid e) (edge_created_at e))) (sort_on edge_id es) s1) as (s2 & E2 & Et2);
    [rewrite Re, Et1; exact Ke|].
  exists s2. split; [exact E2|]. rewrite Et2, Re, Et1. done.
Qed.

(** The revisions of a graph up to the floor. *)
Definition upto_floor {R} (key : R -> string * string) (g : string) (f : Z) (r : revision R) : Prop :=
  rev_graph key r = g /\ rv_version r <= f.
#[global] Instance upto_floor_dec {R} key g f (r : revision R) : Decision (upto_floor key g f r) := _.
Definition compacted_rows {R} (key : R -> string * string) (g : string) (f : Z) (hist new : list (revision R)) : list (revision R) :=
  filter (fun r => ~ upto_floor key g f r) hist ++ new.
Definition compacted (g : string) (f : Z) (ns : list AnyNode) (es : list VPGEdge) (c : HistoryRetentionContract)
    (ev : lifecycle_row) t : Tables :=
  upd LIFECYCLE (fun l => l ++ [ev])
    (upd RETENTION (fmap (fun r => if String.eqb (hr_graph_id r) g then c else r))
      (upd EDGE_HISTORY (fun l => compacted_rows edge_key g f l (edge_revs f es))
        (upd NODE_HISTORY (fun l => compacted_rows node_key g f l (node_revs f ns))
          (upd SNAPSHOTS (filter (fun r => (String.eqb (ss_graph_id r) g && (ss_version r <? f)) = false)) t)))).

Lemma filter_below_at {R} (gid : R -> string) (key : R -> string * string) g f (l : list (revision R)) :
  (forall x, gid x = (key x).1) ->
  filter (fun r => at_version gid g f r = false) (filter (fun r => below gid g f r = false) l) =
  filter (fun r => ~ upto_floor key g f r) l.
Proof.
  intros Hg. rewrite filter_filter. apply filter_ext_in. intros r _. unfold at_version, below, upto_floor, rev_graph.
  rewrite Hg. destruct (String.eqb_spec (key (rv_row r)).1 g) as [E|E]; cbn; [|tauto].
  rewrite Z.eqb_neq, Z.ltb_ge. split; [lia|]. intros Hn. assert (~ rv_version r <= f) by tauto. lia.
Qed.

Section Effect.
Context (t : Tables) (g : string) (r : GraphRecord) (c : HistoryRetentionContract) (f : Z) (c' : HistoryRetentionContract) (ev : lifecycle_row).
Context (Ht : tables_ok t) (Hr : find_record t g = Some r) (Hret : find_retention t g = Some c) (Hi : graph_inv t g r c).
Context (Hf : floor_of c <= f <= gr_current_version r).
Let ns := (content t g f).1.
Let es := (content t g f).2.
Context (Hc1 : hr_graph_id c' = g) (Hc2 : floor_of c' = f)
        (Hc3 : gv_projection_hash <$> find_version t g f = Some (checkpoint_projection_hash c')).
Let t' := compacted g f ns es c' ev t.

Lemma compact_shaped : shaped g (ns, es).
Proof. exact (content_shaped t g f r c Ht Hi Hf). Qed.
(** The checkpoint holds what was in force at the floor. *)
Lemma checkpoint_nodes x : x ∈ node_revs f ns <->
  rv_version x = f /\ exists r0, in_force node_key g f (graph_node_history t) r0 /\ rv_row x = rv_row r0.
Proof.
  destruct (latest_node_rows t g f Ht) as [Ln _]. unfold node_revs. rewrite list_elem_of_fmap. split.
  - intros (n & -> & Hn%elem_of_sort_on). split; [done|].
    assert (row_of_node n ∈ latest_rows node_key g f (graph_node_history t)) as (r0 & Hr0 & E)%elem_of_latest
      by (rewrite Ln; by apply list_elem_of_fmap_2). eauto.
  - intros [Hv (r0 & Hr0 & E)]. assert (rv_row x ∈ latest_rows node_key g f (graph_node_history t)) as Hx
      by (apply elem_of_latest; eauto). rewrite Ln in Hx. apply list_elem_of_fmap in Hx as (n & Hx & Hn). exists n.
    split; [|by apply elem_of_sort_on]. destruct x. cbn in *. congruence.
Qed.
Lemma checkpoint_edges x : x ∈ edge_revs f es <->
  rv_version x = f /\ exists r0, in_force edge_key g f (graph_edge_history t) r0 /\ rv_row x = rv_row r0.
Proof.
  pose proof (latest_edge_rows t g f Ht) as Le. unfold edge_revs. rewrite list_elem_of_fmap. split.
  - intros (n & -> & Hn%elem_of_sort_on). split; [done|].
    assert (row_of_edge n ∈ latest_rows edge_key g f (graph_edge_history t)) as (r0 & Hr0 & E)%elem_of_latest
      by (rewrite Le; by apply list_elem_of_fmap_2). eauto.
  - intros [Hv (r0 & Hr0 & E)]. assert (rv_row x ∈ latest_rows edge_key g f (graph_edge_history t)) as Hx
      by (apply elem_of_latest; eauto). rewrite Le in Hx. apply list_elem_of_fmap in Hx as (n & Hx & Hn). exists n.
    split; [|by apply elem_of_sort_on]. destruct x. cbn in *. congruence.
Qed.
Lemma compacted_NoDup {R} (key : R -> string * string) hist new :
  NoDup (revision_key key <$> hist) -> NoDup (revision_key key <$> new) ->
  (forall x, x ∈ new -> rev_graph key x = g /\ rv_version x = f) ->
  NoDup (revision_key key <$> compacted_rows key g f hist new).
Proof.
  intros H1' H2' Hn. unfold compacted_rows. rewrite fmap_app. apply NoDup_app. split_and!; [by apply filter_keys_NoDup| |done].
  intros k (x & -> & [Hx _]%list_elem_of_filter)%list_elem_of_fmap (y & Hk & Hy)%list_elem_of_fmap.
  apply Hx. destruct (Hn y Hy) as [Hg Hv]. unfold revision_key in Hk. injection Hk as Hk1 Hk2.
  unfold upto_floor, rev_graph in *. rewrite Hk1. lia || (split; [done|lia]).
Qed.
Lemma node_revs_NoDup : NoDup (revision_key node_key <$> node_revs f ns).
Proof.
  unfold node_revs. rewrite <-list_fmap_compose. apply (NoDup_fmap_2_strong _).
  - intros x y Hx%elem_of_sort_on Hy%elem_of_sort_on E. apply (NoDup_key_inj (fun n => nid n) ns); [apply compact_shaped|done|done|].
    cbn in E. unfold revision_key, node_key in E. cbn in E. congruence.
  - rewrite sort_on_perm. eapply NoDup_fmap_1, (sh_nodes _ _ compact_shaped).
Qed.
Lemma edge_revs_NoDup : NoDup (revision_key edge_key <$> edge_revs f es).
Proof.
  unfold edge_revs. rewrite <-list_fmap_compose. apply (NoDup_fmap_2_strong _).
  - intros x y Hx%elem_of_sort_on Hy%elem_of_sort_on E. apply (NoDup_key_inj edge_id es); [apply compact_shaped|done|done|].
    cbn in E. unfold revision_key, edge_key in E. cbn in E. congruence.
  - rewrite sort_on_perm. eapply NoDup_fmap_1, (sh_edges _ _ compact_shaped).
Qed.
Lemma node_revs_in x : x ∈ node_revs f ns -> rev_graph node_key x = g /\ rv_version x = f.
Proof. intros [Hv (r0 & (_ & Hg & _) & E)]%checkpoint_nodes. unfold rev_graph. rewrite E. done. Qed.
Lemma edge_revs_in x : x ∈ edge_revs f es -> rev_graph edge_key x = g /\ rv_version x = f.
Proof. intros [Hv (r0 & (_ & Hg & _) & E)]%checkpoint_edges. unfold rev_graph. rewrite E. done. Qed.
Lemma compacted_elem {R} (key : R -> string * string) hist new x :
  x ∈ compacted_rows key g f hist new <-> (x ∈ hist /\ ~ (rev_graph key x = g /\ rv_version x <= f)) \/ x ∈ new.
Proof. unfold compacted_rows. rewrite elem_of_app, list_elem_of_filter. unfold upto_floor. tauto. Qed.

(** Every retained version holds what it held. *)
Lemma compacted_content v : f <= v -> content t' g v = content t g v.
Proof.
  intros Hv. destruct (to_keys t Ht) as [_ _ _ _ _ _ _ _ _ K10 K11]. unfold content. cbn. f_equal; f_equal; symmetry.
  - apply latest_rows_same; [done| |].
    + apply compacted_NoDup; [done|apply node_revs_NoDup|apply node_revs_in].
    + intros x. apply (in_force_compact node_key g f); [done|]. intros y. etransitivity; [apply compacted_elem|]. apply or_iff_compat_l, checkpoint_nodes.
  - apply latest_rows_same; [done| |].
    + apply compacted_NoDup; [done|apply edge_revs_NoDup|apply edge_revs_in].
    + intros x. apply (in_force_compact edge_key g f); [done|]. intros y. etransitivity; [apply compacted_elem|]. apply or_iff_compat_l, checkpoint_edges.
Qed.
Lemma compacted_other {R} (key : R -> string * string) hist new g' :
  g' <> g -> (forall x, x ∈ new -> rev_graph key x = g) ->
  filter (fun x => rev_graph key x = g') (compacted_rows key g f hist new) = filter (fun x => rev_graph key x = g') hist.
Proof.
  intros Hne Hn. unfold compacted_rows. rewrite filter_app, (filter_none _ new), app_nil_r.
  - rewrite filter_filter. apply filter_ext_in. intros x _. unfold upto_floor. split; [tauto|]. intros Hg. split; [done|].
    intros [Hg' _]. congruence.
  - intros x Hx Hg. specialize (Hn x Hx). congruence.
Qed.
Lemma compacted_retention g' : find_retention t' g' = if decide (g' = g) then Some c' else find_retention t g'.
Proof.
  unfold find_retention. cbn. rewrite tbl_find_fmap.
  - destruct (tbl_find hr_graph_id g' (graph_history_retention t)) as [x|] eqn:E; cbn.
    + pose proof (tbl_find_Some _ _ _ _ E) as [Hg _]. rewrite Hg. case_decide as Hd.
      * subst g'. by rewrite Hd, String.eqb_refl.
      * by apply String.eqb_neq in Hd as ->.
    + case_decide as Hd; [|done]. subst g'. unfold find_retention in Hret. congruence.
  - intros x. destruct (String.eqb_spec (hr_graph_id x) g); [congruence|done].
Qed.
Lemma compacted_snapshot g' v : find_snapshot t' g' v = if decide (g' = g /\ v < f) then None else find_snapshot t g' v.
Proof.
  unfold find_snapshot. cbn. rewrite tbl_find_filter by apply (to_keys t Ht).
  destruct (tbl_find snapshot_key (g', v) (graph_projection_snapshots t)) as [x|] eqn:E; [|by case_decide].
  apply tbl_find_Some in E as [[= Hg Hv] _]. rewrite Hg, Hv.
  destruct (decide (g' = g /\ v < f)) as [[E Hlt]|Hn].
  - apply Z.ltb_lt in Hlt. by rewrite E, String.eqb_refl, Hlt.
  - rewrite decide_True; [done|]. destruct (String.eqb_spec g' g); [|done]. cbn. apply Z.ltb_ge. lia || (apply Z.nlt_ge; tauto).
Qed.
Lemma compacted_ok : tables_ok t' /\
  becomes g (mkHistory (gr_closed r) f (content t g <$> seqZ f (gr_current_version r + 1 - f))) t t'.
Proof.
  pose proof (to_keys t Ht) as [K1 K2 K3 K4 K5 K6 K7 K8 K9 K10 K11].
  assert (find_record t' g = Some r) as Hr' by exact Hr.
  assert (find_retention t' g = Some c') as Hret' by (rewrite compacted_retention; by rewrite decide_True).
  apply (one_graph t _ g); [done|split; try done|..].
  - cbn. by apply filter_keys_NoDup.
  - cbn. rewrite <-list_fmap_compose. erewrite list_fmap_ext; [exact K4|]. intros i x _. cbn.
    destruct (String.eqb_spec (hr_graph_id x) g); [congruence|done].
  - cbn. apply compacted_NoDup; [done|apply node_revs_NoDup|apply node_revs_in].
  - cbn. apply compacted_NoDup; [done|apply edge_revs_NoDup|apply edge_revs_in].
  - cbn. apply Forall_forall. intros x [[Hx _]|[_ (r0 & (Hr0 & _) & ->)]%checkpoint_nodes]%compacted_elem;
      exact (proj1 (Forall_forall _ _) (to_node_rows t Ht) _ ltac:(eassumption)).
  - cbn. apply Forall_forall. intros x [[Hx _]|[_ (r0 & (Hr0 & _) & ->)]%checkpoint_edges]%compacted_elem;
      exact (proj1 (Forall_forall _ _) (to_edge_rows t Ht) _ ltac:(eassumption)).
  - apply Ht.
  - intros g' Hne. split; try done.
    + intros v. rewrite compacted_snapshot. by rewrite decide_False by tauto.
    + rewrite compacted_retention. by rewrite decide_False.
    + apply compacted_other; [done|]. intros x Hx. by apply node_revs_in.
    + apply compacted_other; [done|]. intros x Hx. by apply edge_revs_in.
  - unfold graph_state. rewrite Hr'. exists c'. split; [done|].
    destruct Hi as [I1 I2 I3 I4 I5 I6 I7 I8 I9 I10 I11 I12]. split; rewrite ?Hc2; try done.
    + lia.
    + intros v. rewrite compacted_snapshot. case_decide as E; [by rewrite decide_False by lia|]. rewrite I7.
      change (find_version t' g v) with (find_version t g v). assert (~ v < f) by tauto. by rewrite !decide_True by lia.
    + intros rev [[Hin Hn]|[_ ->]%node_revs_in]%compacted_elem Hg; [|lia]. specialize (I9 rev Hin Hg).
      assert (~ rv_version rev <= f) by tauto. lia.
    + intros rev [[Hin Hn]|[_ ->]%edge_revs_in]%compacted_elem Hg; [|lia]. specialize (I10 rev Hin Hg).
      assert (~ rv_version rev <= f) by tauto. lia.
    + intros v Hv. rewrite compacted_content by lia. apply I11. lia.
    + intros v gv Hv Hgv. rewrite compacted_content by lia. apply I12; [lia|done].
  - unfold history. rewrite Hr', Hret', Hc2. do 2 f_equal. apply list_fmap_ext. intros i x Hx%lookup_seqZ. apply compacted_content. lia.
Qed.
End Effect.

(** ** The operation *)

Lemma load_snapshot_run g v s h c : tables_ok (tables s) -> history (tables s) g = Some h -> h_at h v = Some c ->
  load_projection_snapshot g v s = (Ok (entries c.1, c.2), s).
Proof.
  intros Ht Hh Hc. unfold load_projection_snapshot. pose proof (load_exact s g v Ht) as E. rewrite Hh in E.
  cbn [load_result] in E. rewrite Hc in E. by rewrite (bind_Ok _ _ _ _ _ E).
Qed.
Lemma load_range_run g a b s : tables_ok (tables s) ->
  (forall v, a <= v <= b -> exists h c, history (tables s) g = Some h /\ h_at h v = Some c) -> load_range g a b s = (Ok tt, s).
Proof.
  intros Ht Hv. unfold load_range.
  assert (forall v, v ∈ seqZ a (b + 1 - a) -> a <= v <= b) as Hin by (intros v Hx%elem_of_seqZ; lia). revert Hin.
  generalize (seqZ a (b + 1 - a)). intros l Hin. induction l as [|v l IH]; [done|]. cbn [for_each].
  destruct (Hv v) as (h & c & Hh & Hc); [apply Hin; left|].
  rewrite bind_assoc, (bind_Ok _ _ _ _ _ (load_snapshot_run g v s h c Ht Hh Hc)). apply IH. intros w Hw. apply Hin. by right.
Qed.
Lemma no_future_run g s r c : tables_ok (tables s) -> find_record (tables s) g = Some r -> graph_inv (tables s) g r c ->
  _reject_future_history g (gr_current_version r) s = (Ok tt, s).
Proof.
  intros Ht Hr Hi. unfold _reject_future_history. rewrite !select_bind. cbn [sel SNAPSHOTS NODE_HISTORY EDGE_HISTORY].
  destruct (existsb _ (graph_projection_snapshots _)) eqn:E1.
  { exfalso. apply existsb_exists in E1 as (x & Hx%list_elem_of_In & [Hg%String.eqb_eq Hv%Z.ltb_lt]%andb_true_iff).
    pose proof (tbl_find_elem snapshot_key _ x (ko_snapshots _ (to_keys _ Ht)) Hx) as Hf. unfold snapshot_key in Hf at 2.
    rewrite Hg in Hf. pose proof (gi_snapshots _ _ _ _ Hi (ss_version x)) as Hs. unfold find_snapshot in Hs. rewrite Hf in Hs.
    case_decide; [|done]. destruct (find_version (tables s) g (ss_version x)) as [gv|] eqn:Ev; [|done].
    assert (is_Some (find_version (tables s) g (ss_version x))) as Hy%(gi_versions _ _ _ _ Hi) by (rewrite Ev; done). lia. }
  destruct (existsb _ (graph_node_history _)) eqn:E2.
  { exfalso. apply existsb_exists in E2 as (x & Hx%list_elem_of_In & [Hg%String.eqb_eq Hv%Z.ltb_lt]%andb_true_iff).
    pose proof (gi_node_rows _ _ _ _ Hi x Hx Hg). lia. }
  destruct (existsb _ (graph_edge_history _)) eqn:E3; [|done].
  exfalso. apply existsb_exists in E3 as (x & Hx%list_elem_of_In & [Hg%String.eqb_eq Hv%Z.ltb_lt]%andb_true_iff).
  pose proof (gi_edge_rows _ _ _ _ Hi x Hx Hg). lia.
Qed.

Definition snapshots_cut (g : string) (f : Z) t : Tables :=
  upd SNAPSHOTS (filter (fun r => (String.eqb (ss_graph_id r) g && (ss_version r <? f)) = false)) t.
Lemma rewrite_history_run g f s r c : tables_ok (tables s) ->
  graph_inv (tables s) g r c -> floor_of c <= f <= gr_current_version r ->
  let ns := (content (tables s) g f).1 in
  let es := (content (tables s) g f).2 in
  exists k s', rewrite_history g f (entries ns) es s = (Ok k, s') /\ side s' = side s /\
    tables s' = upd EDGE_HISTORY (fun l => compacted_rows edge_key g f l (edge_revs f es))
        (upd NODE_HISTORY (fun l => compacted_rows node_key g f l (node_revs f ns)) (snapshots_cut g f (tables s))).
Proof.
  intros Ht Hi Hf ns es. pose proof (compact_shaped (tables s) g r c f Ht Hi Hf) as [_ _ S3 S4 _].
  unfold rewrite_history.
  destruct (delete_run SNAPSHOTS (fun r => String.eqb (ss_graph_id r) g && (ss_version r <? f)) s) as (n1 & s1 & E1 & F1 & T1).
  destruct (delete_run NODE_HISTORY (below nr_graph_id g f) s1) as (n2 & s2 & E2 & F2 & T2).
  destruct (delete_run EDGE_HISTORY (below gr_edge_graph_id g f) s2) as (n3 & s3 & E3 & F3 & T3).
  destruct (delete_run NODE_HISTORY (at_version nr_graph_id g f) s3) as (n4 & s4 & E4 & F4 & T4).
  destruct (delete_run EDGE_HISTORY (at_version gr_edge_graph_id g f) s4) as (n5 & s5 & E5 & F5 & T5).
  rewrite (bind_Ok _ _ _ _ _ E1), (bind_Ok _ _ _ _ _ E2), (bind_Ok _ _ _ _ _ E3), (bind_Ok _ _ _ _ _ E4), (bind_Ok _ _ _ _ _ E5).
  rewrite T4, T3, T2, T1 in T5. rewrite entries_values.
  assert (graph_node_history (tables s5) = filter (fun r => ~ upto_floor node_key g f r) (graph_node_history (tables s))) as En.
  { rewrite T5. cbn. by apply (filter_below_at nr_graph_id node_key). }
  assert (graph_edge_history (tables s5) = filter (fun r => ~ upto_floor edge_key g f r) (graph_edge_history (tables s))) as Ee.
  { rewrite T5. cbn. by apply (filter_below_at gr_edge_graph_id edge_key). }
  destruct (write_history_run g f ns es s5 S3 S4) as (s' & E & Et).
  - rewrite En. apply (compacted_NoDup g f); [apply (to_keys _ Ht)|by apply (node_revs_NoDup _ _ r c)|by apply node_revs_in].
  - rewrite Ee. apply (compacted_NoDup g f); [apply (to_keys _ Ht)|by apply (edge_revs_NoDup _ _ r c)|by apply edge_revs_in].
  - rewrite (bind_Ok _ _ _ _ _ E). eexists _, s'. split; [done|]. split.
    + assert (within (keeps side) (write_history g f ns es)) as Hk by (unfold write_history, insert_into, select, exec; solve_within).
      specialize (Hk s5). rewrite E in Hk. unfold keeps in Hk. cbn [snd] in Hk. congruence.
    + rewrite Et. unfold with_history. clear -T5 En Ee. rewrite T5 in *.
      destruct (tables s) as [t1 t2 t3 t4 t5 t6 t7 t8 t9 t10 t11 t12 t13 t14 t15 t16].
      cbn in *. unfold compacted_rows. by rewrite <-En, <-Ee.
Qed.

(** The history from version [f] on. *)
Definition h_drop (f : Z) (h : History) : History :=
  mkHistory (h_closed h) f (drop (Z.to_nat (f - h_floor h)) (h_versions h)).
Lemma h_drop_content t g cl a b f : a <= f <= b ->
  h_drop f (mkHistory cl a (content t g <$> seqZ a (b + 1 - a))) = mkHistory cl f (content t g <$> seqZ f (b + 1 - f)).
Proof.
  intros Hf. unfold h_drop. cbn. f_equal. replace (b + 1 - a) with ((f - a) + (b + 1 - f)) by lia.
  rewrite seqZ_app, fmap_app by lia. rewrite drop_app_length'; [|rewrite length_fmap, length_seqZ; lia].
  by replace (a + (f - a)) with f by lia.
Qed.

Lemma side_fields s s' : side s' = side s ->
  _projection_cache s' = _projection_cache s /\ _read_only s' = _read_only s /\ wall_clock s' = wall_clock s /\ uuids_drawn s' = uuids_drawn s.
Proof. unfold side. by intros [= -> -> -> ->]. Qed.
Lemma raise_floor_run g f by_ reason gv s r c : tables_ok (tables s) ->
  find_record (tables s) g = Some r -> find_retention (tables s) g = Some c -> graph_inv (tables s) g r c ->
  floor_of c <= f <= gr_current_version r -> find_version (tables s) g f = Some gv ->
  ~ (uuid4 (uuids_drawn s) ∈ lc_event_id <$> graph_history_lifecycle_events (tables s)) ->
  exists k s', raise_floor g f by_ reason (gv_projection_hash gv) (floor_of c) (gr_current_version r)
      (entries (content (tables s) g f).1) (content (tables s) g f).2 s = (Ok k, s') /\
    hc_earliest_recoverable_version k = f /\ hc_current_version k = gr_current_version r /\
    previous_earliest_version k = floor_of c /\ tables_ok (tables s') /\
    becomes g (mkHistory (gr_closed r) f (content (tables s) g <$> seqZ f (gr_current_version r + 1 - f))) (tables s) (tables s').
Proof.
  intros Ht Hr Hret Hi Hf Hgv Hfresh. unfold raise_floor.
  destruct (rewrite_history_run g f s r c Ht Hi Hf) as ([[k1 k2] k3] & s1 & E1 & F1 & T1). rewrite (bind_Ok _ _ _ _ _ E1), gets_bind.
  destruct (update_run RETENTION (fun r => String.eqb (hr_graph_id r) g)
    (fun r => mkRetention (hr_graph_id r) f (gv_projection_hash gv) (wall_clock s1) by_ reason) s1) as (n2 & s2 & E2 & F2 & T2).
  rewrite (bind_Ok _ _ _ _ _ E2).
  apply side_fields in F1 as (C1 & R1 & W1 & U1). apply side_fields in F2 as (C2 & R2 & W2 & U2).
  unfold next_uuid at 1. unfold mbind at 1, M_bind at 1. cbv beta iota.
  set (ev := mkLifecycle (uuid4 (uuids_drawn s2)) g "compact" (floor_of c) f f (gv_projection_hash gv) by_ reason (wall_clock s1)).
  set (s3 := mkStore (tables s2) (total_changes s2) (data_version s2) (_projection_cache s2) (_read_only s2) (wall_clock s2) (N.succ (uuids_drawn s2))).
  assert (~ (lc_event_id ev ∈ lc_event_id <$> sel LIFECYCLE (tables s3))) as Hk.
  { cbn. rewrite T2, T1. cbn. by rewrite U2, U1. }
  set (c' := mkRetention g f (gv_projection_hash gv) (wall_clock s1) by_ reason).
  set (s4 := mkStore (upd LIFECYCLE (fun l => l ++ [ev]) (tables s3)) (total_changes s3 + 1) (data_version s3) (_projection_cache s3)
               (_read_only s3) (wall_clock s3) (uuids_drawn s3)).
  rewrite (bind_Ok (insert_into LIFECYCLE lc_event_id ev) _ s3 tt s4) by (rewrite insert_run by exact Hk; done).
  assert (tables s4 = compacted g f (content (tables s) g f).1 (content (tables s) g f).2 c' ev (tables s)) as T4.
  { unfold s4, s3. cbn [tables]. rewrite T2, T1. unfold compacted. f_equal. apply upd_ext. apply list_fmap_ext.
    intros i x _. destruct (String.eqb_spec (hr_graph_id x) g) as [E|]; [|done]. by rewrite E. }
  destruct (compacted_ok (tables s) g r c f c' ev Ht Hr Hret Hi Hf eq_refl eq_refl ltac:(by rewrite Hgv)) as [Ht4 Hb].
  rewrite <-T4 in Ht4, Hb. rewrite (bind_Ok (load_range g f (gr_current_version r)) _ s4 tt s4).
  - eexists _, s4. split_and!; done.
  - apply load_range_run; [done|]. intros v Hv. eexists _, _. split; [exact (becomes_history _ _ _ _ Hb)|].
    by rewrite h_at_content, decide_True.
Qed.

Lemma raise_if_bind {B} e (k : unit -> SM B) s : (raise_if false e ≫= k) s = k tt s.
Proof. done. Qed.

(** The answer and the history after the operation. *)
Definition compact_outcome (g : string) (f : Z) (by_ reason : string) s : result History :=
  if _read_only s then Raise (PermissionError "read-only GraphStore cannot mutate projections")
  else if String.eqb (strip by_) "" then Raise (ValueError "compacted_by must identify the operator")
  else if String.eqb (strip reason) "" then Raise (ValueError "reason must explain the retention decision")
  else match history (tables s) g with
       | None => Raise (vpg_error VPGCode.GRAPH_NOT_FOUND)
       | Some h =>
           if f <? h_floor h then Raise (ValueError "cannot lower history floor")
           else if h_current h <? f then Raise (ValueError "retain_from_version exceeds current graph version")
           else Ok (h_drop f h)
       end.
Lemma load_history_reads g v : reads (load_history g v).
Proof. unfold load_history, get_history_retention_contract, get_record, or_recovery_failed. solve_reads. Qed.
Lemma load_range_reads g a b : reads (load_range g a b).
Proof.
  unfold load_range, load_projection_snapshot. apply reads_for_each. intros v. apply reads_bind; [|done].
  apply reads_bind; [apply load_history_reads|done].
Qed.
Lemma raise_floor_writes g f by_ reason h a b ns es : within writes (raise_floor g f by_ reason h a b ns es).
Proof.
  unfold raise_floor, rewrite_history, write_history. repeat first [within_step|solve [eauto with lhos]].
  - by intros s.
  - intros s. rewrite load_range_reads. reflexivity.
Qed.

Lemma compact_run g f by_ reason s : store_ok s ->
  ~ (uuid4 (uuids_drawn s) ∈ lc_event_id <$> graph_history_lifecycle_events (tables s)) ->
  match compact_projection_history g f by_ reason s, compact_outcome g f by_ reason s with
  | (Ok k, s'), Ok h => store_ok s' /\ becomes g h (tables s) (tables s') /\
      hc_earliest_recoverable_version k = f /\ hc_current_version k = h_current h
  | (Raise e, s'), Raise e' => e = e' /\ s' = s
  | _, _ => False
  end.
Proof.
  intros [Ht Hc] Hfresh. unfold compact_projection_history, compact_outcome.
  destruct (_read_only s) eqn:Ero; [by rewrite readonly_bind|]. rewrite writable_bind by done.
  destruct (String.eqb (strip by_) ""); [done|]. rewrite raise_if_bind. destruct (String.eqb (strip reason) ""); [done|].
  rewrite raise_if_bind. match goal with |- context [tx ?m s] => set (body := m) end.
  destruct (history (tables s) g) as [h|] eqn:Eh.
  2:{ assert (body s = (Raise (vpg_error VPGCode.GRAPH_NOT_FOUND), s)) as E.
      { unfold body. rewrite get_record_bind. apply history_None in Eh; [|done]. unfold find_record in Eh. by rewrite Eh. }
      unfold tx. rewrite E. split; [done|]. by destruct s. }
  destruct (history_Some _ _ _ Ht Eh) as (r & c & Hr & Hret & Hi & Eh'). pose proof (gi_floor _ _ _ _ Hi) as Hfl.
  assert (h_current h = gr_current_version r) as Ecur by (rewrite Eh'; apply h_current_content; lia).
  assert (h_floor h = floor_of c) as Efl by by rewrite Eh'. rewrite Ecur, Efl.
  unfold body. clear body. unfold tx.
  rewrite get_record_bind. unfold find_record in Hr. rewrite Hr. fold (find_record (tables s) g) in Hr.
  rewrite (bind_Ok _ _ _ _ _ (contract_exact _ g s r c eq_refl Ht Hr Hret Hi)).
  destruct (Z.ltb_spec f (floor_of c)) as [Hlt|Hge]; [split; [done|by destruct s]|]. rewrite raise_if_bind.
  destruct (Z.ltb_spec (gr_current_version r) f) as [Hlt|Hle]; [split; [done|by destruct s]|]. rewrite raise_if_bind.
  assert (h_at h f = Some (content (tables s) g f)) as Hat by (rewrite Eh', h_at_content, decide_True by lia; done).
  rewrite (bind_Ok _ _ _ _ _ (load_snapshot_run g f s h _ Ht Eh Hat)).
  destruct (proj2 (gi_versions _ _ _ _ Hi f) ltac:(lia)) as [gv Hgv].
  rewrite get_version_bind. unfold find_version in Hgv. rewrite Hgv. fold (find_version (tables s) g f) in Hgv. cbv zeta.
  rewrite (bind_Ok _ _ _ _ _ (load_range_run g f (gr_current_version r) s Ht ltac:(
    intros v Hv; exists h, (content (tables s) g v); split; [done|]; rewrite Eh', h_at_content, decide_True by lia; done))).
  rewrite (bind_Ok _ _ _ _ _ (no_future_run g s r c Ht Hr Hi)).
  assert (h_current (h_drop f h) = gr_current_version r) as Ecd.
  { rewrite Eh', h_drop_content by lia. apply h_current_content. lia. }
  rewrite Ecd. destruct (Z.eqb_spec f (floor_of c)) as [->|Hne].
  - split; [done|]. split; [|done]. intros g'. unfold h_upd. case_decide as E; [|done]. subst g'. rewrite Eh. f_equal.
    by rewrite Eh', h_drop_content by lia.
  - destruct (raise_floor_run g f by_ reason gv s r c Ht Hr Hret Hi ltac:(lia) Hgv Hfresh) as (k & s' & Ek & K1 & K2 & K3 & Ht' & Hb).
    pose proof (raise_floor_writes g f by_ reason (gv_projection_hash gv) (floor_of c) (gr_current_version r)
      (entries (content (tables s) g f).1) (content (tables s) g f).2 s) as Hw. rewrite Ek in Hw.
    rewrite Ek. split_and!; [by split; [|eapply cache_writes]| |done|done].
    by rewrite Eh', h_drop_content by lia.
Qed.
End Compact.
