(* ===== verification/GraphRecovery.v ===== *)
(** * Crash recovery of the materialized projection
    (runtimes/verified_progress/recovery.py)

    The audit chain of versions, headers and patches is validated, then the current
    version is loaded from the history and replaces the materialized rows. *)

From S2P Require Import Prelude PyString Storage VpgModels Agents Invalidation Verification Patches PatchValidator Derivation GraphStore GraphCommit GraphFacts GraphOps GraphCommitProps GraphCompaction.
Open Scope Z_scope.

Definition failed_if (b : bool) : SM unit := vpg_if b VPGCode.GRAPH_RECOVERY_FAILED.

(** A version row at its place in the chain. *)
Definition chain_row_ok (v : Z) (row : GraphVersion) : bool :=
  bool_decide (gv_parent_version row = if v =? 0 then None else Some (v - 1)) &&
  negb ((v =? 0) && negb (String.eqb (gv_patch_id row) "init")).
(** The header of a retained version row. *)
Definition header_ok (floor : Z) (snapshots : list snapshot_row) (row : GraphVersion) : bool :=
  (gv_version row <? floor) ||
  match tbl_find snapshot_key (version_key row) snapshots with
  | None => false
  | Some s => String.eqb (ss_projection_hash s) (gv_projection_hash row)
  end.
(** A patch row at its place, against its payload and its version row. *)
Definition patch_row_ok (graph_id : string) (version_rows : list GraphVersion) (v : Z) (row : patch_row) : bool :=
  (pt_committed_version row =? v) &&
  match pt_operations row with
  | None => false
  | Some patch =>
      String.eqb (patch_id patch) (pt_patch_id row) && String.eqb (patch_graph_id patch) graph_id &&
      String.eqb (pt_graph_id row) graph_id && (expected_graph_version patch =? v - 1) &&
      String.eqb (author_pid patch) (pt_author_pid row) && String.eqb (idempotency_key patch) (pt_idempotency_key row) &&
      match version_rows !! Z.to_nat v with
      | Some gv => String.eqb (gv_patch_id gv) (patch_id patch)
      | None => false
      end
  end.
(** [all(f(i, x) for i, x in enumerate(l, start))] *)
Fixpoint enum_all {A} (f : Z -> A -> bool) (start : Z) (l : list A) : bool :=
  match l with [] => true | x :: l' => f start x && enum_all f (start + 1) l' end.

Definition validate_recovery_history (graph_id : string) : SM GraphRecord :=
  record ← get_record graph_id;
  match record with
  | None => vpg VPGCode.GRAPH_NOT_FOUND
  | Some record =>
      retention ← get_history_retention_contract graph_id;
      vs ← select VERSIONS;
      let version_rows := sort_on gv_version (filter (fun v => gv_graph_id v = graph_id) vs) in
      failed_if (negb (bool_decide (gv_version <$> version_rows = seqZ 0 (gr_current_version record + 1)))) ;;
      failed_if (negb (enum_all chain_row_ok 0 version_rows)) ;;
      ss ← select SNAPSHOTS;
      failed_if (negb (forallb (header_ok (earliest_recoverable_version retention) ss) version_rows)) ;;
      failed_if (existsb (fun r => String.eqb (ss_graph_id r) graph_id &&
                   negb (bool_decide (is_Some (tbl_find version_key (snapshot_key r) vs)))) ss) ;;
      ps ← select PATCHES;
      let patch_rows := sort_on pt_committed_version (filter (fun p => pt_graph_id p = graph_id) ps) in
      failed_if (negb (Z.of_nat (length patch_rows) =? gr_current_version record)) ;;
      failed_if (negb (enum_all (patch_row_ok graph_id version_rows) 1 patch_rows)) ;;
      mret record
  end.

Section Recover.
Context `{ModelText, Sha256, UuidSource, JsonText}.

Definition recovery_event (ty : GraphEventType.t) (graph_id : string) (payload : jobj) : SM EventRecord :=
  id ← next_uuid;
  now ← gets wall_clock;
  mret (mkEventRecord id now (mkEvent graph_id ty None (Some graph_id) None None None None [] None None None) payload).

Definition verify_and_recover (graph_id : string) : SM (list EventRecord * GraphRecord) :=
  record ← validate_recovery_history graph_id;
  let current := gr_current_version record in
  started ← recovery_event GraphEventType.GRAPH_RECOVERY_STARTED graph_id [("current_version", JInt current)];
  ns ← select NODES;
  es ← select EDGES;
  let previous_node_count := length (of_graph node_key graph_id ns) in
  let previous_edge_count := length (of_graph edge_key graph_id es) in
  '(nodes, edges) ← load_projection_snapshot graph_id current;
  replace_projection graph_id current nodes.*2 edges ;;
  events ← get_events graph_id (Some current);
  let committed := filter (fun ev => ge_graph_version (evr_event ev) = Some current) events in
  completed ← recovery_event GraphEventType.GRAPH_RECOVERY_COMPLETED graph_id
    [("current_version", JInt current);
     ("previous_materialized_node_count", JInt (Z.of_nat previous_node_count));
     ("previous_materialized_edge_count", JInt (Z.of_nat previous_edge_count));
     ("materialized_node_count", JInt (Z.of_nat (length nodes)));
     ("materialized_edge_count", JInt (Z.of_nat (length edges)))];
  mret (started :: committed ++ [completed], record).
End Recover.

(** ** Facts *)

Section RecoverFacts.
Context `{ModelTextLaws, Sha256, UuidSource, JsonText}.
Implicit Types (t : Tables) (s : GraphStore) (g : string).

(** A keyed table with a row for each version of a range, in order. *)
Lemma sorted_versions {R} (key : R -> string * Z) (rows : list R) g a (n : nat) :
  NoDup (key <$> rows) -> (forall v, is_Some (tbl_find key (g, v) rows) <-> a <= v < a + Z.of_nat n) ->
  (fun x => (key x).2) <$> sort_on (fun x => (key x).2) (filter (fun x => (key x).1 = g) rows) = seqZ a (Z.of_nat n).
Proof.
  intros Hd Hv. set (l := filter (fun x => (key x).1 = g) rows).
  assert (NoDup ((fun x => (key x).2) <$> l)) as Hl.
  { apply NoDup_fmap_2_strong.
    - intros x y [Hx Hxr]%list_elem_of_filter [Hy Hyr]%list_elem_of_filter E. apply (NoDup_key_inj key rows); [done..|].
      destruct (key x), (key y). cbn in *. congruence.
    - apply NoDup_filter. by eapply NoDup_fmap_1. }
  assert (forall v, v ∈ (fun x => (key x).2) <$> l <-> a <= v < a + Z.of_nat n) as Hin.
  { intros v. rewrite list_elem_of_fmap, <-Hv. split.
    - intros (x & -> & [Hg Hx]%list_elem_of_filter). apply tbl_find_is_Some. apply list_elem_of_fmap. exists x.
      split; [|done]. destruct (key x). cbn in *. congruence.
    - intros (x & [Hk Hx]%tbl_find_Some). exists x. rewrite Hk. split; [done|]. apply list_elem_of_filter. by rewrite Hk. }
  rewrite <-(sort_on_fmap (fun x => (key x).2) (fun v => v)).
  rewrite <-(sort_on_id (fun v : Z => v) (seqZ a (Z.of_nat n))).
  - apply sort_on_same; [by rewrite list_fmap_id|rewrite list_fmap_id; apply NoDup_seqZ|].
    intros v. rewrite Hin, elem_of_seqZ. lia.
  - apply (StronglySorted_weaken Z.lt).
    + intros x y Hxy. unfold key_le, py_leb, py_cmp, Z_PyOrd. apply Z.compare_lt_iff in Hxy as ->. done.
    + revert a Hv Hin. clear. intros a _ _. revert a. induction n as [|n IH]; intros a; [constructor|].
      replace (Z.of_nat (S n)) with (Z.succ (Z.of_nat n)) by lia. rewrite seqZ_cons by lia. constructor.
      * replace (Z.pred (Z.succ (Z.of_nat n))) with (Z.of_nat n) by lia. apply IH.
      * apply Forall_forall. intros x Hx%elem_of_seqZ. lia.
Qed.
Lemma enum_all_spec {A} (f : Z -> A -> bool) start l :
  enum_all f start l = true <-> forall i x, l !! i = Some x -> f (start + Z.of_nat i) x = true.
Proof.
  revert start. induction l as [|y l IH]; intros start; cbn; [done|]. rewrite andb_true_iff, IH. split.
  - intros [Hy Hl] [|i] x; cbn; [intros [= <-]; by rewrite Z.add_0_r|]. intros Hx. specialize (Hl i x Hx).
    by replace (start + Z.of_nat (S i)) with (start + 1 + Z.of_nat i) by lia.
  - intros Hall. split; [specialize (Hall O y eq_refl); by rewrite Z.add_0_r in Hall|]. intros i x Hx.
    specialize (Hall (S i) x Hx). by replace (start + 1 + Z.of_nat i) with (start + Z.of_nat (S i)) by lia.
Qed.
(** The row at each place of the sorted table. *)
Lemma sorted_lookup {R} (key : R -> string * Z) (rows : list R) g a (n : nat) i x :
  NoDup (key <$> rows) -> (forall v, is_Some (tbl_find key (g, v) rows) <-> a <= v < a + Z.of_nat n) ->
  sort_on (fun x => (key x).2) (filter (fun x => (key x).1 = g) rows) !! i = Some x ->
  tbl_find key (g, a + Z.of_nat i) rows = Some x /\ (i < n)%nat.
Proof.
  intros Hd Hv Hx. pose proof (sorted_versions key rows g a n Hd Hv) as E.
  assert (((fun x => (key x).2) <$> sort_on (fun x => (key x).2) (filter (fun x => (key x).1 = g) rows)) !! i = Some (key x).2) as Hi.
  { rewrite list_lookup_fmap. by rewrite Hx. }
  rewrite E in Hi. apply lookup_seqZ in Hi as [Hk Hn].
  apply list_elem_of_lookup_2, elem_of_sort_on, list_elem_of_filter in Hx as [Hg Hx]. split; [|lia].
  rewrite <-(tbl_find_elem key rows x Hd Hx). f_equal. destruct (key x). cbn in *. congruence.
Qed.
Lemma sorted_length {R} (key : R -> string * Z) (rows : list R) g a (n : nat) :
  NoDup (key <$> rows) -> (forall v, is_Some (tbl_find key (g, v) rows) <-> a <= v < a + Z.of_nat n) ->
  length (sort_on (fun x => (key x).2) (filter (fun x => (key x).1 = g) rows)) = n.
Proof.
  intros Hd Hv. pose proof (f_equal length (sorted_versions key rows g a n Hd Hv)) as E.
  rewrite length_fmap, length_seqZ in E. lia.
Qed.
(** The audit chain of an intact graph validates. *)
Lemma validate_history_run g s r c : tables_ok (tables s) -> find_record (tables s) g = Some r ->
  find_retention (tables s) g = Some c -> graph_inv (tables s) g r c -> validate_recovery_history g s = (Ok r, s).
Proof.
  intros Ht Hr Hc Hi. pose proof (to_keys _ Ht) as Hk. pose proof (gi_floor _ _ _ _ Hi) as Hf.
  set (cur := gr_current_version r) in *.
  assert (forall v, is_Some (tbl_find version_key (g, v) (graph_versions (tables s))) <-> 0 <= v < 0 + Z.of_nat (Z.to_nat (cur + 1))) as Hvs
    by (intros v; rewrite (gi_versions _ _ _ _ Hi v); fold cur; lia).
  assert (forall v, is_Some (tbl_find patch_key (g, v) (graph_patches (tables s))) <-> 1 <= v < 1 + Z.of_nat (Z.to_nat cur)) as Hps
    by (intros v; rewrite (gi_patches _ _ _ _ Hi v); fold cur; lia).
  unfold validate_recovery_history. rewrite get_record_bind. unfold find_record in Hr. rewrite Hr.
  rewrite (bind_Ok _ _ _ _ _ (contract_exact (tables s) g s r c eq_refl Ht Hr Hc Hi)), select_bind. cbn [sel VERSIONS]. cbv zeta.
  set (vrows := sort_on gv_version (filter (fun v => gv_graph_id v = g) (graph_versions (tables s)))).
  assert (forall i x, vrows !! i = Some x -> find_version (tables s) g (Z.of_nat i) = Some x /\ Z.of_nat i <= cur) as Hrow.
  { intros i x Hx. destruct (sorted_lookup version_key _ g 0 _ i x (ko_versions _ Hk) Hvs Hx) as [Hx' Hlt]. split; [exact Hx'|lia]. }
  assert (gv_version <$> vrows = seqZ 0 (cur + 1)) as Hseq.
  { rewrite <-(Z2Nat.id (cur + 1)) by lia. exact (sorted_versions version_key _ g 0 _ (ko_versions _ Hk) Hvs). }
  rewrite bool_decide_eq_true_2 by exact Hseq. unfold failed_if. rewrite vpg_if_bind.
  assert (enum_all chain_row_ok 0 vrows = true) as ->.
  { apply enum_all_spec. intros i x [Hx _]%Hrow. rewrite Z.add_0_l. unfold chain_row_ok.
    rewrite bool_decide_eq_true_2 by exact (gi_parents _ _ _ _ Hi _ x Hx).
    destruct (Z.eqb_spec (Z.of_nat i) 0) as [E|E]; [|done]. rewrite E in Hx. by rewrite (gi_init _ _ _ _ Hi x Hx). }
  rewrite vpg_if_bind, select_bind. cbn [sel SNAPSHOTS].
  assert (forall x, x ∈ vrows -> find_version (tables s) g (gv_version x) = Some x /\ version_key x = (g, gv_version x)) as Hmem.
  { intros x [Hg Hx]%elem_of_sort_on%list_elem_of_filter. unfold find_version, version_key. rewrite <-Hg. split; [|done].
    exact (tbl_find_elem version_key _ x (ko_versions _ Hk) Hx). }
  assert (forallb (header_ok (floor_of c) (graph_projection_snapshots (tables s))) vrows = true) as ->.
  { apply forallb_forall. intros x [Hx Hkey]%list_elem_of_In%Hmem. unfold header_ok. rewrite Hkey.
    destruct (Z.ltb_spec (gv_version x) (floor_of c)); [done|]. cbn [orb].
    pose proof (gi_snapshots _ _ _ _ Hi (gv_version x)) as Hs. rewrite decide_True, Hx in Hs by lia.
    unfold find_snapshot in Hs. rewrite Hs. cbn. apply String.eqb_refl. }
  rewrite vpg_if_bind.
  assert (existsb (fun r0 => String.eqb (ss_graph_id r0) g &&
     negb (bool_decide (is_Some (tbl_find version_key (snapshot_key r0) (graph_versions (tables s))))))
     (graph_projection_snapshots (tables s)) = false) as ->.
  { apply not_true_iff_false. intros (x & Hx%list_elem_of_In & [Hg%String.eqb_eq Hn]%andb_true_iff)%existsb_exists.
    pose proof (tbl_find_elem snapshot_key _ x (ko_snapshots _ Hk) Hx) as Hfx. unfold snapshot_key in Hfx at 2. rewrite Hg in Hfx.
    pose proof (gi_snapshots _ _ _ _ Hi (ss_version x)) as Hs. unfold find_snapshot in Hs. rewrite Hfx in Hs.
    unfold snapshot_key in Hn. rewrite Hg in Hn.
    case_decide; [|done]. unfold find_version in Hs.
    destruct (tbl_find version_key (g, ss_version x) (graph_versions (tables s))); done. }
  rewrite vpg_if_bind, select_bind. cbn [sel PATCHES].
  set (prows := sort_on pt_committed_version (filter (fun p => pt_graph_id p = g) (graph_patches (tables s)))).
  assert (length prows = Z.to_nat cur) as -> by exact (sorted_length patch_key _ g 1 _ (ko_patches _ Hk) Hps).
  rewrite (proj2 (Z.eqb_eq (Z.of_nat (Z.to_nat cur)) (gr_current_version r))) by (subst cur; lia). rewrite vpg_if_bind.
  assert (enum_all (patch_row_ok g vrows) 1 prows = true) as ->; [|done].
  apply enum_all_spec. intros i x Hx. destruct (sorted_lookup patch_key _ g 1 _ i x (ko_patches _ Hk) Hps Hx) as [Hx' Hlt].
  set (v := 1 + Z.of_nat i) in *. pose proof (proj2 (gi_versions _ _ _ _ Hi v)) as [gv Hgv]; [fold cur; lia|].
  destruct (gi_patch _ _ _ _ Hi v x gv Hx' Hgv) as [(op & O1 & O2 & O3 & O4 & O5 & O6) Hid].
  apply tbl_find_Some in Hx' as [[= Hg Hv] _]. unfold patch_row_ok. rewrite O1.
  destruct (vrows !! Z.to_nat v) as [gv'|] eqn:Egv.
  - destruct (Hrow _ _ Egv) as [Hgv' _]. rewrite Z2Nat.id in Hgv' by lia. assert (gv' = gv) as -> by congruence.
    rewrite Hid, O2, O3, O4, O5, O6, Hg, Hv, !Z.eqb_refl, !String.eqb_refl. done.
  - exfalso. apply lookup_ge_None in Egv. pose proof (f_equal length Hseq) as E. rewrite length_fmap, length_seqZ in E. lia.
Qed.
(** ** Replacing the materialized rows *)

Lemma filter_single_key {A K} (key : A -> K) (p : A -> bool) (l : list A) x :
  NoDup (key <$> l) -> x ∈ l -> p x = true -> (forall y, p y = true -> key y = key x) -> length (filter (fun y => p y = true) l) = 1%nat.
Proof.
  intros Hd Hx Hp Hk. assert (filter (fun y => p y = true) l ≡ₚ [x]) as ->; [|done].
  apply NoDup_Permutation; [apply NoDup_filter; by eapply NoDup_fmap_1|apply NoDup_singleton|].
  intros y. rewrite list_elem_of_filter, list_elem_of_singleton. split; [|by intros ->].
  intros [Hy Hin]. by apply (NoDup_key_inj key l); [| | |apply Hk].
Qed.
(** The rows of the other graphs, then the given ones. *)
Definition other_rows {R} (gid : R -> string) (g : string) (new l : list R) : list R :=
  filter (fun r => String.eqb (gid r) g = false) l ++ new.
Definition replaced (g : string) (ns : list AnyNode) (es : list VPGEdge) t : Tables :=
  upd EDGES (other_rows gr_edge_graph_id g (row_of_edge <$> sort_on edge_id es))
    (upd NODES (other_rows nr_graph_id g (row_of_node <$> sort_on (fun n => nid n) ns)) t).

Lemma replaced_rows g ns es t :
  graph_nodes_projection (replaced g ns es t) =
    other_rows nr_graph_id g (row_of_node <$> sort_on (fun n => nid n) ns) (graph_nodes_projection t) /\
  graph_edges_projection (replaced g ns es t) =
    other_rows gr_edge_graph_id g (row_of_edge <$> sort_on edge_id es) (graph_edges_projection t).
Proof. done. Qed.
Lemma other_rows_NoDup {R} (gid : R -> string) (key : R -> string * string) g new (l : list R) :
  (forall r, gid r = (key r).1) -> NoDup (key <$> l) -> NoDup (key <$> new) -> Forall (fun r => gid r = g) new ->
  NoDup (key <$> filter (fun r => String.eqb (gid r) g = false) l ++ new).
Proof.
  intros Hg Hl Hn Hf. rewrite fmap_app. apply NoDup_app. split_and!; [by apply filter_keys_NoDup| |done].
  intros k (x & -> & [Hx _]%list_elem_of_filter)%list_elem_of_fmap (y & E & Hy)%list_elem_of_fmap.
  pose proof (proj1 (Forall_forall _ _) Hf y Hy) as Hyg. cbn in Hyg. apply String.eqb_neq in Hx. apply Hx.
  rewrite Hg in Hyg |- *. congruence.
Qed.
Lemma sorted_keys_NoDup {A R} (id : A -> string) (key : R -> string * string) (row : A -> R) (l : list A) :
  (forall x, (key (row x)).2 = id x) -> NoDup (id <$> l) -> NoDup (key <$> (row <$> sort_on id l)).
Proof.
  intros Hk Hd. apply (NoDup_fmap_1 snd). rewrite <-!list_fmap_compose.
  rewrite (list_fmap_ext _ id) by (intros ? x _; apply Hk). by rewrite (sort_on_perm id).
Qed.
Lemma replace_run g v ns es s r : store_ok s -> _read_only s = false -> find_record (tables s) g = Some r ->
  gr_current_version r = v -> shaped g (ns, es) ->
  exists s', replace_projection g v ns es s = (Ok tt, s') /\ tables s' = replaced g ns es (tables s).
Proof.
  intros [Ht Hc] Hro Hr Hv Hsh. pose proof (to_keys _ Ht) as Hk. unfold replace_projection. rewrite writable_bind by done. cbv zeta.
  assert (shaped g (sort_on (fun n => nid n) ns, sort_on edge_id es)) as Hsh'.
  { destruct Hsh as [S1 S2 S3 S4 S5]. cbn [fst snd] in *. split; cbn [fst snd]; rewrite ?sort_on_perm; [done..|].
    rewrite dangling_spec in S5. apply dangling_spec. intros e He%elem_of_sort_on. rewrite !sort_on_perm. by apply S5. }
  rewrite (check_projection_run _ g _ _ Hsh'), of_Ok_bind.
  match goal with |- context [tx ?m] => set (body := m) end.
  assert (exists s', body s = (Ok tt, s') /\ tables s' = replaced g ns es (tables s)) as (s' & E & Et).
  2:{ rewrite (bind_Ok _ _ _ _ _ (tx_run _ _ _ _ E)). eexists. split; [done|]. exact Et. }
  unfold body. clear body. unfold update_set at 1. rewrite bind_assoc, select_bind. cbv zeta. cbn [sel GRAPHS].
  unfold find_record in Hr. apply tbl_find_Some in Hr as [Hg Hin].
  rewrite (filter_single_key gr_graph_id _ _ r (ko_graphs _ Hk) Hin);
    [|by rewrite Hg, Hv, String.eqb_refl, Z.eqb_refl|by intros y [->%String.eqb_eq _]%andb_true_iff].
  rewrite bind_assoc, (bind_Ok _ _ _ _ _ (exec_run GRAPHS _ _ _)).
  rewrite (upd_same (t := GRAPHS)) by (rewrite <-(list_fmap_id (sel GRAPHS (tables s))) at 2; apply list_fmap_ext; intros i x _; by case_match).
  match goal with |- context [mkStore ?a ?b ?c ?d ?e ?f ?h] => set (s1 := mkStore a b c d e f h) end.
  assert (tables s1 = tables s) as T1 by done. clearbody s1.
  change (exists s', (drop_projection g ;; for_each (fun n => insert_into NODES node_key (row_of_node n)) (sort_on (fun n => nid n) ns) ;;
    for_each (fun e => insert_into EDGES edge_key (row_of_edge e)) (sort_on edge_id es)) s1 = (Ok tt, s') /\ tables s' = replaced g ns es (tables s)).
  unfold drop_projection.
  destruct (delete_run NODES (fun r => String.eqb (nr_graph_id r) g) s1) as (n2 & s2 & E2 & _ & T2).
  destruct (delete_run EDGES (fun r => String.eqb (gr_edge_graph_id r) g) s2) as (n3 & s3 & E3 & _ & T3).
  rewrite bind_assoc, (bind_Ok _ _ _ _ _ E2), bind_assoc, (bind_Ok _ _ _ _ _ E3).
  rewrite T2, T1 in T3. destruct Hsh as [S1 S2 S3 S4 _]. cbn [fst snd] in *.
  destruct (for_each_insert_run NODES node_key row_of_node (sort_on (fun n => nid n) ns) s3) as (s4 & E4 & T4).
  { rewrite T3. cbn. apply (other_rows_NoDup nr_graph_id); [done|apply Hk|by apply sorted_keys_NoDup|].
    apply Forall_fmap. rewrite sort_on_perm. exact S3. }
  destruct (for_each_insert_run EDGES edge_key row_of_edge (sort_on edge_id es) s4) as (s5 & E5 & T5).
  { rewrite T4, T3. cbn. apply (other_rows_NoDup gr_edge_graph_id); [done|apply Hk|by apply sorted_keys_NoDup|].
    apply Forall_fmap. rewrite sort_on_perm. exact S4. }
  exists s5. split.
  - change ((for_each (fun n => insert_into NODES node_key (row_of_node n)) (sort_on (fun n => nid n) ns) ;;
      for_each (fun e => insert_into EDGES edge_key (row_of_edge e)) (sort_on edge_id es)) s3 = (Ok tt, s5)).
    by rewrite (bind_Ok _ _ _ _ _ E4).
  - rewrite T5, T4, T3. by destruct (tables s).
Qed.
(** ** What recovery leaves *)

Lemma content_sorted t g v : tables_ok t ->
  sort_on (fun n => nid n) (content t g v).1 = (content t g v).1 /\ sort_on edge_id (content t g v).2 = (content t g v).2.
Proof.
  intros Ht. destruct (latest_node_rows t g v Ht) as [Hn Hx]. pose proof (latest_edge_rows t g v Ht) as He. split.
  - assert (row_of_node <$> sort_on (fun n => nid n) (content t g v).1 = row_of_node <$> (content t g v).1) as E.
    { change (fun n => nid n) with (fun n => (node_key (row_of_node n)).2).
      rewrite <-(sort_on_fmap row_of_node (fun x => (node_key x).2)), <-Hn. apply sort_on_id, sort_on_sorted. }
    apply (f_equal (omap node_of)) in E. rewrite !nodes_of_rows in E; [exact E|exact Hx|]. by rewrite sort_on_perm.
  - assert (row_of_edge <$> sort_on edge_id (content t g v).2 = row_of_edge <$> (content t g v).2) as E.
    { change edge_id with (fun e => (edge_key (row_of_edge e)).2).
      rewrite <-(sort_on_fmap row_of_edge (fun x => (edge_key x).2)), <-He. apply sort_on_id, sort_on_sorted. }
    apply (f_equal (omap edge_of)) in E. by rewrite !edges_of_rows in E.
Qed.
Lemma of_graph_other {R} (gid : R -> string) (key : R -> string * string) g g' new (l : list R) :
  (forall r, gid r = (key r).1) -> Forall (fun r => gid r = g) new ->
  of_graph key g' (other_rows gid g new l) = if decide (g' = g) then new else of_graph key g' l.
Proof.
  intros Hg Hn. rewrite Forall_forall in Hn. unfold of_graph, other_rows. rewrite filter_app, filter_filter. case_decide as E.
  - subst g'. rewrite filter_none, filter_all; [done| |].
    + intros r Hr. rewrite <-Hg. by apply Hn.
    + intros r _ [Hr Hx]. rewrite Hg in Hx. apply String.eqb_neq in Hx. done.
  - rewrite (filter_none _ new), app_nil_r.
    + apply filter_ext_in. intros r _. rewrite Hg, String.eqb_neq. split; [by intros [? _]|]. intros Hr. split; [done|congruence].
    + intros r Hr%Hn. rewrite <-Hg. congruence.
Qed.
Lemma map_each_nodes g ns s : Forall text_ok ns -> Forall (fun n => ngraph n = g) ns ->
  map_each (fun r =>
    node ← of_result (_node_from_json (nr_payload_json r));
    vpg_if (negb (String.eqb (ngraph node) g) || negb (String.eqb (nid node) (nr_node_id r))) VPGCode.STORAGE_ERROR ;;
    mret node) (row_of_node <$> ns) s = (Ok ns, s).
Proof.
  induction 1 as [|n ns Hn _ IH]; [done|]. intros [Hg Hgs]%Forall_cons. cbn [fmap list_fmap map_each].
  rewrite bind_assoc. cbn [nr_payload_json row_of_node]. unfold text_ok in Hn. rewrite Hn, of_Ok_bind, Hg.
  cbn [nr_node_id]. rewrite !String.eqb_refl. cbn [negb orb]. rewrite bind_assoc, vpg_if_bind.
  specialize (IH Hgs). change ((map_each (fun r => node ← of_result (_node_from_json (nr_payload_json r));
    vpg_if (negb (String.eqb (ngraph node) g) || negb (String.eqb (nid node) (nr_node_id r))) VPGCode.STORAGE_ERROR ;;
    mret node) (row_of_node <$> ns) ≫= fun ys => mret (n :: ys)) s = (Ok (n :: ns), s)). by rewrite (bind_Ok _ _ _ _ _ IH).
Qed.
(** The materialized rows of [g] are the nodes and edges of [c]. *)
Definition materialized s g (c : list AnyNode * list VPGEdge) : Prop :=
  of_graph node_key g (graph_nodes_projection (tables s)) = row_of_node <$> c.1 /\
  of_graph edge_key g (graph_edges_projection (tables s)) = row_of_edge <$> c.2.
Lemma materialized_entities s g c : materialized s g c -> Forall text_ok c.1 -> shaped g c ->
  get_all_nodes g s = (Ok c.1, s) /\ get_all_edges g s = (Ok c.2, s).
Proof.
  intros [Hn He] Hx [_ _ S3 S4 _]. split.
  - unfold get_all_nodes. rewrite select_bind. cbn [sel NODES]. rewrite Hn. by apply map_each_nodes.
  - unfold get_all_edges. rewrite select_bind. cbn [sel EDGES]. rewrite He, all_ok_edges, of_Ok_bind.
    assert (existsb (fun e => negb (String.eqb (edge_graph_id e) g)) c.2 = false) as ->; [|done].
    apply not_true_iff_false. intros (e & Hin%list_elem_of_In & Hne)%existsb_exists.
    by rewrite (proj1 (Forall_forall _ _) S4 e Hin), String.eqb_refl in Hne.
Qed.
Definition events_readable g t : Prop :=
  Forall (fun r => ge_graph_id (er_columns r) = g -> exists e, _row_to_event r = Ok e) (graph_events t).
Lemma all_ok_Ok {A B} (f : A -> result B) l : (forall x, x ∈ l -> exists y, f x = Ok y) -> exists ys, all_ok f l = Ok ys.
Proof.
  induction l as [|x l IH]; intros Hl; [by exists []|]. destruct (Hl x) as [y Hy]; [by left|].
  destruct IH as [ys Hys]; [intros z Hz; apply Hl; by right|]. exists (y :: ys). cbn. by rewrite Hy, Hys.
Qed.
Lemma get_events_run g since s : events_readable g (tables s) -> exists evs, get_events g since s = (Ok evs, s).
Proof.
  intros Hr. unfold get_events. rewrite select_bind. cbv zeta.
  destruct (all_ok_Ok _row_to_event (sort_on event_order (filter (fun r => ge_graph_id (er_columns r) = g /\
    version_from since r = true) (sel EVENTS (tables s))))) as [ys ->]; [|by exists ys].
  intros x [[Hg _] Hx]%elem_of_sort_on%list_elem_of_filter. exact (proj1 (Forall_forall _ _) Hr x Hx Hg).
Qed.
(** ** The operation *)

Definition bump s : GraphStore :=
  mkStore (tables s) (total_changes s) (data_version s) (_projection_cache s) (_read_only s) (wall_clock s) (N.succ (uuids_drawn s)).
Lemma recovery_event_run ty g payload s : exists ev, recovery_event ty g payload s = (Ok ev, bump s) /\
  ge_event_type (evr_event ev) = ty /\ evr_payload ev = payload.
Proof. by eexists. Qed.
Lemma bump_ok s : store_ok s -> store_ok (bump s).
Proof. by intros [Ht [C1 C2 C3]]. Qed.
Lemma recovery_event_stutters ty g payload : stutters (recovery_event ty g payload).
Proof. intros s Hs. split; [by apply bump_ok|done]. Qed.
Lemma validate_reads g : reads (validate_recovery_history g).
Proof. unfold validate_recovery_history, get_history_retention_contract, get_record, failed_if. solve_reads. Qed.
Lemma recover_stutters g : stutters (verify_and_recover g).
Proof.
  unfold verify_and_recover. apply stutters_bind; [apply stutters_reads, validate_reads|]. intros record. cbv zeta.
  apply stutters_bind; [apply recovery_event_stutters|]. intros started.
  apply stutters_bind; [by apply stutters_reads|]. intros ns. apply stutters_bind; [by apply stutters_reads|]. intros es.
  apply stutters_bind.
  { apply stutters_reads. unfold load_projection_snapshot. apply reads_bind; [apply load_history_reads|done]. }
  intros [nodes edges]. apply stutters_bind; [apply replace_projection_stutters|]. intros _.
  apply stutters_bind; [apply stutters_reads; unfold get_events; solve_reads|]. intros evs.
  apply stutters_bind; [apply recovery_event_stutters|]. intros ev. by apply stutters_reads.
Qed.
Lemma recover_run g s h : store_ok s -> _read_only s = false -> history (tables s) g = Some h -> events_readable g (tables s) ->
  exists started mid completed r s' c, verify_and_recover g s = (Ok (started :: mid ++ [completed], r), s') /\
    find_record (tables s) g = Some r /\ gr_current_version r = h_current h /\ h_at h (h_current h) = Some c /\
    materialized s' g c /\ get_all_nodes g s' = (Ok c.1, s') /\ get_all_edges g s' = (Ok c.2, s') /\
    (forall g', g' <> g -> of_graph node_key g' (graph_nodes_projection (tables s')) = of_graph node_key g' (graph_nodes_projection (tables s)) /\
                of_graph edge_key g' (graph_edges_projection (tables s')) = of_graph edge_key g' (graph_edges_projection (tables s))) /\
    ge_event_type (evr_event started) = GraphEventType.GRAPH_RECOVERY_STARTED /\
    ge_event_type (evr_event completed) = GraphEventType.GRAPH_RECOVERY_COMPLETED /\
    Forall (fun ev => ge_graph_version (evr_event ev) = Some (h_current h)) mid.
Proof.
  intros Hs Hro Hh Hev. pose proof Hs as [Ht Hc]. destruct (history_Some _ _ _ Ht Hh) as (r & c & Hr & Hret & Hi & Eh).
  pose proof (gi_floor _ _ _ _ Hi) as Hf. set (cur := gr_current_version r) in *.
  assert (h_current h = cur) as Ecur by (rewrite Eh; apply h_current_content; lia). rewrite Ecur.
  assert (h_at h cur = Some (content (tables s) g cur)) as Hat by (rewrite Eh, h_at_content, decide_True by lia; done).
  pose proof (content_shaped _ g cur r c Ht Hi ltac:(lia)) as Hsh. destruct (content_sorted _ g cur Ht) as [Sn Se].
  destruct (latest_node_rows _ g cur Ht) as [_ Hx]. destruct (content (tables s) g cur) as [ns es] eqn:Econ. cbn [fst snd] in *.
  unfold verify_and_recover. rewrite (bind_Ok _ _ _ _ _ (validate_history_run g s r c Ht Hr Hret Hi)). cbv zeta. fold cur.
  destruct (recovery_event_run GraphEventType.GRAPH_RECOVERY_STARTED g [("current_version", JInt cur)] s) as (ev1 & E1 & Y1 & _).
  rewrite (bind_Ok _ _ _ _ _ E1), !select_bind.
  rewrite (bind_Ok _ _ _ _ _ (load_snapshot_run g cur (bump s) h (ns, es) Ht Hh Hat)). cbn [fst snd].
  rewrite entries_values.
  destruct (replace_run g cur ns es (bump s) r (bump_ok s Hs) Hro Hr eq_refl Hsh) as (s2 & E2 & T2). cbn [tables bump] in T2.
  rewrite (bind_Ok _ _ _ _ _ E2).
  destruct (get_events_run g (Some cur) s2) as (evs & E3); [unfold events_readable; rewrite T2; exact Hev|].
  rewrite (bind_Ok _ _ _ _ _ E3).
  match goal with |- context [recovery_event ?ty g ?pl ≫= _] => destruct (recovery_event_run ty g pl s2) as (ev2 & E4 & Y2 & _) end.
  rewrite (bind_Ok _ _ _ _ _ E4).
  assert (materialized (bump s2) g (ns, es)) as Hm.
  { destruct (replaced_rows g ns es (tables s)) as [Rn Re]. split; cbn [tables bump fst snd]; rewrite T2.
    - rewrite Rn, (of_graph_other nr_graph_id), decide_True; [by rewrite Sn|done|done|]. apply Forall_fmap. rewrite Sn. apply Hsh.
    - rewrite Re, (of_graph_other gr_edge_graph_id), decide_True; [by rewrite Se|done|done|]. apply Forall_fmap. rewrite Se. apply Hsh. }
  destruct (materialized_entities _ _ _ Hm Hx Hsh) as [Gn Ge].
  exists ev1, (filter (fun ev => ge_graph_version (evr_event ev) = Some cur) evs), ev2, r, (bump s2), (ns, es).
  split_and!; try done.
  - intros g' Hne. cbn [tables bump]. destruct (replaced_rows g ns es (tables s)) as [Rn Re].
    rewrite T2, Rn, Re, (of_graph_other nr_graph_id), (of_graph_other gr_edge_graph_id); [|done| |done|].
    + by rewrite !decide_False by done.
    + apply Forall_fmap. rewrite Se. apply Hsh.
    + apply Forall_fmap. rewrite Sn. apply Hsh.
  - apply Forall_forall. by intros ev [Hx' _]%list_elem_of_filter.
Qed.
End RecoverFacts.
