(* ===== verification/GraphWorld.v ===== *)
(** * Several connections on one graph database (graph_store.py, recovery.py)

    Stores opened on the same database, each with its own cache and counters, run
    their operations one transaction at a time. The histories the tables stand for
    only grow, close and lose old versions. *)

From S2P Require Import Prelude PyString Storage VpgModels Agents Invalidation Verification Patches PatchValidator Derivation GraphStore GraphCommit GraphFacts GraphOps GraphCommitProps GraphCompaction GraphRecovery.
Open Scope Z_scope.

(** The public operations of [GraphStore] that take a transaction, and recovery. *)
Inductive op : Type :=
  | OpCreate (record : GraphRecord)
  | OpCommit (q : CommitRequest)
  | OpReplay (key : string * string * string) (guard : option LeaseCommitGuard) (reads : option (list ArtifactVersionBinding))
  | OpGuard (guard : LeaseCommitGuard)
  | OpClose (g : string)
  | OpCompact (g : string) (f : Z) (by_ reason : string)
  | OpDelete (g : string)
  | OpReplace (g : string) (v : Z) (nodes : list AnyNode) (edges : list VPGEdge)
  | OpRecover (g : string)
  | OpUpdateVersion (g : string) (v : Z) (hash : string)
  | OpCommitVersion (gv : GraphVersion).

(** ** Histories *)

(** What an operation other than a commit may do to the histories. *)
Inductive h_keep : (string -> option History) -> (string -> option History) -> Prop :=
  | h_stutter H H' : (forall g, H' g = H g) -> h_keep H H'
  | h_create H H' g closed : H g = None -> (forall g', H' g' = h_upd g (Some (mkHistory closed 0 [([], [])])) H g') -> h_keep H H'
  | h_closing H H' g h : H g = Some h -> (forall g', H' g' = h_upd g (Some (h_close h)) H g') -> h_keep H H'
  | h_compact H H' g h f : H g = Some h -> h_floor h <= f <= h_current h ->
      (forall g', H' g' = h_upd g (Some (h_drop f h)) H g') -> h_keep H H'.
(** What an operation may do to the histories. *)
Inductive h_step : (string -> option History) -> (string -> option History) -> Prop :=
  | h_kept H H' : h_keep H H' -> h_step H H'
  | h_commit H H' g h c : H g = Some h -> h_closed h = false -> shaped g c ->
      (forall g', H' g' = h_upd g (Some (h_append h c)) H g') -> h_step H H'.

(** Later histories agree with earlier ones on what both can read. *)
Record h_extends (h h' : History) : Prop := {
  he_floor : h_floor h <= h_floor h';
  he_current : h_current h <= h_current h';
  he_closed : h_closed h = true -> h_closed h' = true;
  he_at v : h_floor h' <= v <= h_current h -> h_at h' v = h_at h v }.
Definition extends (H H' : string -> option History) : Prop :=
  forall g h, H g = Some h -> exists h', H' g = Some h' /\ h_extends h h'.
(** Every graph has a version that can be read. *)
Definition h_nonempty (H : string -> option History) : Prop := forall g h, H g = Some h -> h_floor h <= h_current h.

#[export] Instance h_extends_preorder : PreOrder h_extends.
Proof.
  split.
  - intros h. by split.
  - intros h1 h2 h3 [F1 C1 L1 A1] [F2 C2 L2 A2]. split; [lia|lia|auto|]. intros v Hv. rewrite A2 by lia. apply A1. lia.
Qed.
#[export] Instance extends_preorder : PreOrder extends.
Proof.
  split.
  - intros H g h Hh. exists h. by split.
  - intros H1 H2 H3 E12 E23 g h Hh. destruct (E12 g h Hh) as (h' & Hh' & Ee). destruct (E23 g h' Hh') as (h'' & Hh'' & Ee').
    exists h''. split; [done|]. by transitivity h'.
Qed.
Lemma h_append_extends h c : h_floor h <= h_current h -> h_extends h (h_append h c).
Proof.
  intros Hne. unfold h_current in *. split; unfold h_current, h_at; cbn; rewrite ?length_app; cbn; [lia|lia|done|].
  intros v Hv. destruct (Z.ltb_spec v (h_floor h)); [done|]. rewrite lookup_app_l; [done|]. lia.
Qed.
Lemma h_close_extends h : h_extends h (h_close h).
Proof. by split. Qed.
Lemma h_drop_extends h f : h_floor h <= f <= h_current h -> h_extends h (h_drop f h) /\ h_current (h_drop f h) = h_current h.
Proof.
  unfold h_current. intros Hf. split; [split|]; unfold h_drop, h_at; cbn; rewrite ?length_drop; [lia|unfold h_current; cbn; rewrite length_drop; lia|done| |lia].
  unfold h_current. intros v Hv. destruct (Z.ltb_spec v f); [lia|]. destruct (Z.ltb_spec v (h_floor h)); [lia|].
  rewrite lookup_drop. f_equal. lia.
Qed.
Lemma h_upd_extends H H' g h h' : H g = Some h -> h_extends h h' -> (forall g', H' g' = h_upd g (Some h') H g') -> extends H H'.
Proof.
  intros Hh He Hup g0 h0 Hh0. rewrite Hup. unfold h_upd. case_decide as E.
  - subst g0. exists h'. split; [done|]. congruence.
  - exists h0. by split.
Qed.
Lemma h_step_extends H H' : h_step H H' -> h_nonempty H -> extends H H' /\ h_nonempty H'.
Proof.
  assert (forall (H H' : string -> option History) g h', (forall g', H' g' = h_upd g (Some h') H g') -> h_floor h' <= h_current h' ->
    h_nonempty H -> h_nonempty H') as Hne.
  { intros H1 H1' g h' Hup Hh' Hn g0 h0. rewrite Hup. unfold h_upd. case_decide; [intros [= <-]; done|apply Hn]. }
  intros [H0 H0' [H1 H1' E|H1 H1' g cl Hn Hup|H1 H1' g h Hh Hup|H1 H1' g h f Hh Hf Hup]|H1 H1' g h c Hh Hop Hsh Hup] Hall.
  - split; [intros g h Hh; exists h; by rewrite E|intros g h; rewrite E; apply Hall].
  - split; [|by eapply Hne]. intros g0 h0 Hh0. rewrite Hup. unfold h_upd. case_decide; [congruence|by exists h0].
  - split; [by eapply h_upd_extends, Hup; [|apply h_close_extends]|]. eapply Hne, Hall; [exact Hup|]. exact (Hall _ _ Hh).
  - destruct (h_drop_extends h f Hf) as [He Hc]. split; [by eapply h_upd_extends|]. eapply Hne, Hall; [exact Hup|]. rewrite Hc. cbn. lia.
  - pose proof (Hall _ _ Hh) as Hfc. split; [by eapply h_upd_extends, Hup; [|apply h_append_extends]|].
    eapply Hne, Hall; [exact Hup|]. pose proof (h_append_extends h c Hfc) as [_ Hc _ _]. cbn. lia.
Qed.

(** ** Operations *)

Section World.
Context `{ModelTextLaws, Sha256, UuidSource, JsonText}.
Implicit Types (s : GraphStore) (t : Tables) (g : string).

Definition run_op (o : op) : SM unit :=
  match o with
  | OpCreate record => create_graph record ;; mret tt
  | OpCommit q => commit_patch q
  | OpReplay key guard reads => idempotent_replay key guard reads ;; mret tt
  | OpGuard guard => validate_commit_guard guard
  | OpClose g => close_graph g
  | OpCompact g f by_ reason => compact_projection_history g f by_ reason ;; mret tt
  | OpDelete g => delete_projection g
  | OpReplace g v nodes edges => replace_projection g v nodes edges
  | OpRecover g => verify_and_recover g ;; mret tt
  | OpUpdateVersion g v hash => update_record_version g v hash
  | OpCommitVersion gv => commit_graph_version gv
  end.
(** A record is created at version 0, the nodes of a commit are values of their models,
    and the random identifier a compaction draws is a new one. *)
Definition admissible (o : op) s : Prop :=
  match o with
  | OpCreate record => gr_current_version record = 0
  | OpCommit q => forall ns, q_projection_nodes q = Some ns -> Forall (fun n => node_valid n = true) ns
  | OpCompact _ _ _ _ => ~ (uuid4 (uuids_drawn s) ∈ lc_event_id <$> graph_history_lifecycle_events (tables s))
  | _ => True
  end.
(** What an operation does, returning or raising. *)
Definition refines (R : (string -> option History) -> (string -> option History) -> Prop) s s' : Prop :=
  store_ok s' /\ R (history (tables s)) (history (tables s')).

Lemma snd_bind_ret {A} (m : SM A) s : ((m ;; mret tt) s).2 = (m s).2.
Proof. unfold mbind, M_bind. by destruct (m s) as [[a|e] s']. Qed.
Lemma refines_stutter {A} (m : SM A) s : stutters m -> store_ok s -> refines h_keep s (m s).2.
Proof. intros Hm Hs. destruct (Hm s Hs) as [Hs' Hh]. split; [done|]. by apply h_stutter. Qed.
Lemma refines_same s s' : store_ok s' -> tables s' = tables s -> refines h_keep s s'.
Proof. intros Hs Ht. split; [done|]. rewrite Ht. by apply h_stutter. Qed.
Lemma tx_reads {A} (m : SM A) : reads m -> reads (tx m).
Proof. intros Hm s. unfold tx. specialize (Hm s). destruct (m s) as [[a|e] s']; cbn in *; subst; [done|]. by destruct s. Qed.
Lemma replay_reads key cg rg : reads (idempotent_replay key cg rg).
Proof.
  unfold idempotent_replay. apply reads_bind; [apply writable_reads|]. intros _. apply tx_reads. apply reads_bind; [done|].
  intros rows. case_match; [|done]. apply reads_bind; [apply guards_read|done].
Qed.
Lemma history_bounds t g h : tables_ok t -> history t g = Some h -> h_floor h <= h_current h.
Proof.
  intros Ht Hh. destruct (history_Some _ _ _ Ht Hh) as (r & c & Hr & Hc & Hi & ->). pose proof (gi_floor _ _ _ _ Hi).
  rewrite h_current_content by lia. cbn. lia.
Qed.
Lemma op_keep_refines o s : (forall q, o <> OpCommit q) -> store_ok s -> admissible o s -> refines h_keep s (run_op o s).2.
Proof.
  intros Hne Hs Ha. destruct o as [record|q|key cg rg|guard|g|g f b r|g|g v ns es|g|g v hash|gv]; cbn [run_op admissible] in *.
  - rewrite snd_bind_ret. pose proof (create_graph_exact record s Hs Ha) as E. destruct (create_graph record s) as [[r|e] s']; cbn.
    + destruct E as (_ & _ & Hn & Hs' & Hb). split; [done|]. by eapply h_create.
    + destruct E as [-> _]. by apply refines_same.
  - by destruct (Hne q).
  - rewrite snd_bind_ret. apply refines_stutter; [apply stutters_reads, replay_reads|done].
  - apply refines_stutter; [|done]. apply stutters_reads. unfold validate_commit_guard.
    apply reads_bind; [apply writable_reads|]. intros _. apply tx_reads, lease_guard_reads.
  - pose proof (close_graph_exact g s Hs) as E. destruct (close_graph g s) as [[u|e] s']; cbn.
    + destruct E as (_ & Hs' & Hh). split; [done|]. destruct (history (tables s) g) as [h|] eqn:Eh.
      * eapply h_closing; [exact Eh|]. intros g'. rewrite Hh. by unfold h_upd.
      * apply h_stutter. intros g'. rewrite Hh. case_decide; [by subst|done].
    + destruct E as [-> _]. by apply refines_same.
  - rewrite snd_bind_ret. pose proof (compact_run g f b r s Hs Ha) as E. unfold compact_outcome in E.
    destruct (compact_projection_history g f b r s) as [[u|e] s']; cbn.
    + destruct (_read_only s); [done|]. destruct (String.eqb (strip b) ""); [done|]. destruct (String.eqb (strip r) ""); [done|].
      destruct (history (tables s) g) as [h|] eqn:Eh; [|done].
      destruct (Z.ltb_spec f (h_floor h)); [done|]. destruct (Z.ltb_spec (h_current h) f); [done|].
      destruct E as (Hs' & Hb & _). split; [done|]. eapply h_compact; [exact Eh| |exact Hb]. lia.
    + assert (s' = s) as ->; [|by apply refines_same]. repeat case_match; naive_solver.
  - apply refines_stutter; [apply delete_projection_stutters|done].
  - apply refines_stutter; [apply replace_projection_stutters|done].
  - rewrite snd_bind_ret. apply refines_stutter; [apply recover_stutters|done].
  - apply refines_stutter; [|done]. apply stutters_reads. unfold update_record_version. apply reads_bind; [apply writable_reads|done].
  - apply refines_stutter; [|done]. apply stutters_reads. unfold commit_graph_version. apply reads_bind; [apply writable_reads|done].
Qed.
Lemma commit_refines q s : store_ok s -> admissible (OpCommit q) s -> refines h_step s (commit_patch q s).2.
Proof.
  cbn [admissible]. intros Hs Ha.
  pose proof (commit_patch_run q s Hs Ha) as E. destruct (commit_patch q s) as [[u|e] s']; cbn.
  - destruct E as (Hs' & _ & h & dn & es & _ & Hh & Hm & Hb & _). split; [done|].
      eapply h_commit; [exact Hh|apply Hm| |exact Hb].
      destruct (md_shaped _ _ _ _ _ Hm) as [S1 S2 S3 S4 S5]. cbn [fst snd] in *. split; cbn [fst snd]; rewrite ?sort_on_perm; [done..|].
      rewrite dangling_spec in S5. apply dangling_spec. intros x Hx%elem_of_sort_on. rewrite !sort_on_perm. by apply S5.
  - destruct E as [Hs' Ht]. split; [done|]. apply h_kept. rewrite Ht. by apply h_stutter.
Qed.
Lemma op_refines o s : store_ok s -> admissible o s -> refines h_step s (run_op o s).2.
Proof.
  intros Hs Ha. destruct o as [record|q| | | | | | | | |];
    try (match goal with |- refines _ _ (run_op ?o s).2 => destruct (op_keep_refines o s ltac:(done) Hs Ha) as [Hs' Hh] end;
         split; [done|by apply h_kept]).
  by apply commit_refines.
Qed.

(** ** Committed patches stay *)

Definition committed_patches s : list patch_row := graph_patches (tables s).
Abbreviation keeps_patches := (keeps committed_patches).
Lemma tx_keeps {A} (m : SM A) : within keeps_patches m -> within keeps_patches (tx m).
Proof. intros Hm s. unfold tx. specialize (Hm s). by destruct (m s) as [[a|e] s']. Qed.
Lemma reads_keep {A} (m : SM A) : reads m -> within keeps_patches m.
Proof. intros Hm s. unfold keeps. by rewrite Hm. Qed.
Lemma load_snapshot_reads g v : reads (load_projection_snapshot g v).
Proof. unfold load_projection_snapshot. apply reads_bind; [apply load_history_reads|done]. Qed.
Lemma compact_history_reads g : reads (get_history_retention_contract g).
Proof. unfold get_history_retention_contract, get_record. solve_reads. Qed.
Lemma no_future_reads g v : reads (_reject_future_history g v).
Proof. unfold _reject_future_history. solve_reads. Qed.
Ltac solve_keeps :=
  repeat first
    [ within_step | progress unfold vpg_if, vpg | apply tx_keeps | apply (within_modify _); by intros []
    | apply reads_keep; first [by apply load_snapshot_reads | by apply load_range_reads | by apply compact_history_reads
        | by apply no_future_reads | by apply validate_reads] | by intros ? ].
Lemma replace_keeps g v ns es : within keeps_patches (replace_projection g v ns es).
Proof.
  unfold replace_projection, _assert_writable, drop_projection, get_record, forget_graph, insert_into, delete_where, update_set, select, exec, vpg.
  solve_keeps.
Qed.
Lemma raise_floor_keeps g f by_ reason h a b ns es : within keeps_patches (raise_floor g f by_ reason h a b ns es).
Proof.
  unfold raise_floor, rewrite_history, write_history, insert_into, upsert_into, delete_where, update_set, select, exec. solve_keeps.
Qed.
Lemma op_keeps o : (forall q, o <> OpCommit q) -> within keeps_patches (run_op o).
Proof.
  intros Hne. destruct o as [record|q|key cg rg|guard|g|g f b r|g|g v ns es|g|g v hash|gv]; cbn [run_op].
  - unfold create_graph, create_body, _assert_writable, get_record, _remember_projection, insert_into, update_set, select, exec. solve_keeps.
  - by destruct (Hne q).
  - apply (within_bind _); [apply reads_keep, replay_reads|intros _; apply (within_ret _)].
  - apply reads_keep. unfold validate_commit_guard. apply reads_bind; [apply writable_reads|]. intros _. apply tx_reads, lease_guard_reads.
  - unfold close_graph, _assert_writable, update_set, select, exec. solve_keeps.
  - unfold compact_projection_history, _assert_writable, get_record, get_version, select.
    repeat first [apply raise_floor_keeps | progress solve_keeps].
  - unfold delete_projection, drop_projection, _assert_writable, forget_graph, delete_where, select, exec. solve_keeps.
  - apply replace_keeps.
  - unfold verify_and_recover, recovery_event, get_events, select. repeat first [apply replace_keeps | progress solve_keeps].
  - unfold update_record_version, _assert_writable. solve_keeps.
  - unfold commit_graph_version, _assert_writable. solve_keeps.
Qed.
Lemma op_patches o s : store_ok s -> admissible o s -> committed_patches s `prefix_of` committed_patches (run_op o s).2.
Proof.
  intros Hs Ha. destruct o as [record|q| | | | | | | | |];
    try (match goal with |- _ `prefix_of` committed_patches (run_op ?o s).2 => pose proof (op_keeps o ltac:(done) s) as E end;
         unfold keeps in E; by rewrite E).
  cbn [run_op admissible] in *. pose proof (commit_patch_run q s Hs Ha) as E. unfold committed_patches.
  destruct (commit_patch q s) as [[u|e] s']; cbn.
  - destruct E as (_ & _ & h & dn & es & _ & _ & _ & _ & ->). by apply prefix_app_r.
  - by destruct E as [_ ->].
Qed.

(** ** Connections *)

(** The tables of the database and the stores opened on it. *)
Record World : Type := mkWorld { db : Tables; conns : list GraphStore }.

(** Another connection changed the tables to [t]: SQLite's [data_version] moves when it
    did. Time may have passed. *)
Record observes (t : Tables) (p p' : GraphStore) : Prop := {
  ob_tables : tables p' = t;
  ob_version : (data_version p <= data_version p')%N;
  ob_seen : data_version p' = data_version p -> t = tables p;
  ob_changes : total_changes p' = total_changes p;
  ob_cache : _projection_cache p' = _projection_cache p;
  ob_mode : _read_only p' = _read_only p;
  ob_uuids : uuids_drawn p' = uuids_drawn p }.
(** Connection [i] goes from [s] to [s'], the others see the tables it leaves. *)
Record acts (i : nat) (s s' : GraphStore) (w w' : World) : Prop := {
  ac_from : conns w !! i = Some s;
  ac_to : conns w' !! i = Some s';
  ac_db : db w' = tables s';
  ac_length : length (conns w') = length (conns w);
  ac_others j p p' : j <> i -> conns w !! j = Some p -> conns w' !! j = Some p' -> observes (db w') p p' }.
(** Connection [i] runs an operation, to its return or its exception. *)
Definition performs (i : nat) (o : op) (w w' : World) : Prop := exists s, admissible o s /\ acts i s (run_op o s).2 w w'.
(** A store is opened; a store runs an operation; or something else writes the
    database, the materialized rows, events, leases and facts included, but not the
    durable history. *)
Inductive w_step (w w' : World) : Prop :=
  | w_open changes version ro clock drawn :
      w' = mkWorld (db w) (conns w ++ [mkStore (db w) changes version [] ro clock drawn]) -> w_step w w'
  | w_op i o : performs i o w w' -> w_step w w'
  | w_env : durable_same (db w) (db w') -> Forall2 (observes (db w')) (conns w) (conns w') -> w_step w w'.

Definition empty_tables : Tables := mkTables [] [] [] [] [] [] [] [] [] [] [] [] [] None None None.
Definition empty_world : World := mkWorld empty_tables [].
Definition reachable (w : World) : Prop := rtc w_step empty_world w.

Record world_ok (w : World) : Prop := {
  wo_db : tables_ok (db w);
  wo_conns : Forall (fun s => store_ok s /\ tables s = db w) (conns w) }.

Lemma empty_tables_ok : tables_ok empty_tables.
Proof.
  split; [split; apply NoDup_nil_2|apply Forall_nil_2|apply Forall_nil_2|done|].
  intros g. unfold graph_state. cbn. split; try done; intros rev Hin; by apply not_elem_of_nil in Hin.
Qed.
Lemma observes_ok t p p' : store_ok p -> tables_ok t -> observes t p p' -> store_ok p'.
Proof.
  intros [Hp [C1 C2 C3]] Ht [O1 O2 O3 O4 O5 O6 O7]. split; [by rewrite O1|]. split; rewrite ?O5; [done|..].
  - intros e He. destruct (C2 e He). rewrite O4. split; [done|]. lia.
  - intros e He Hf. destruct (C2 e He) as [Ca Cb]. unfold _projection_fingerprint in Hf. rewrite O4 in Hf.
    assert (data_version p' = data_version p) as Hv.
    { pose proof (f_equal snd Hf) as Hf2. cbn in Hf2. lia. }
    rewrite O1, (O3 Hv). apply C3; [done|]. unfold _projection_fingerprint. by rewrite Hf, Hv.
Qed.
Lemma open_ok w changes version ro clock drawn : world_ok w ->
  world_ok (mkWorld (db w) (conns w ++ [mkStore (db w) changes version [] ro clock drawn])).
Proof.
  intros [Hdb Hc]. split; [done|]. cbn. apply Forall_app. split; [done|]. apply Forall_singleton.
  split; [|done]. split; [done|]. split; cbn; [apply NoDup_nil_2| |]; intros e He; by apply not_elem_of_nil in He.
Qed.
Lemma acts_ok i s s' w w' : world_ok w -> acts i s s' w w' -> store_ok s' -> world_ok w'.
Proof.
  intros [Hdb Hc] [Hs Hs' Hdb' Hl Ho] Hok'. pose proof (proj1 (Forall_forall _ _) Hc) as Hcs.
  split; [rewrite Hdb'; apply Hok'|]. apply Forall_lookup. intros j p' Hp'. destruct (decide (j = i)) as [->|Hne].
  - assert (p' = s') as -> by congruence. done.
  - destruct (conns w !! j) as [p|] eqn:Ep.
    2:{ apply lookup_ge_None in Ep. apply lookup_lt_Some in Hp'. lia. }
    specialize (Ho j p p' Hne Ep Hp'). split; [|apply Ho].
    apply (observes_ok (db w') p p'); [apply (Hcs p (list_elem_of_lookup_2 _ _ _ Ep))|rewrite Hdb'; apply Hok'|exact Ho].
Qed.
Lemma acts_from i s s' w w' : world_ok w -> acts i s s' w w' -> store_ok s /\ tables s = db w.
Proof. intros [_ Hc] [Hs _ _ _ _]. exact (proj1 (Forall_forall _ _) Hc s (list_elem_of_lookup_2 _ _ _ Hs)). Qed.
Lemma env_ok w w' : world_ok w -> durable_same (db w) (db w') -> Forall2 (observes (db w')) (conns w) (conns w') -> world_ok w'.
Proof.
  intros [Hdb Hc] Hd Hobs. pose proof (durable_same_ok _ _ Hd Hdb) as Hdb'. split; [done|]. apply Forall_lookup. intros j p' Hp'.
  destruct (Forall2_lookup_r _ _ _ _ _ Hobs Hp') as (p & Hp & Ho). split; [|apply Ho].
  eapply observes_ok; [apply (proj1 (Forall_forall _ _) Hc p (list_elem_of_lookup_2 _ _ _ Hp))|done|exact Ho].
Qed.
Lemma env_histories w w' g : durable_same (db w) (db w') -> history (db w') g = history (db w) g.
Proof. intros Hd. apply same_history. by apply durable_same_graph. Qed.
Lemma w_step_sim w w' : world_ok w -> w_step w w' ->
  world_ok w' /\ h_step (history (db w)) (history (db w')) /\ graph_patches (db w) `prefix_of` graph_patches (db w').
Proof.
  intros Hw [n m ro clock u ->|i o (s & Ha & Hact)|Hd Hobs].
  - split; [by apply open_ok|split; [by apply h_kept, h_stutter|done]].
  - destruct (acts_from _ _ _ _ _ Hw Hact) as [Hok Et]. destruct (op_refines o s Hok Ha) as [Hok' Hh].
    pose proof (op_patches o s Hok Ha) as Hp. unfold committed_patches in Hp. rewrite Et, <-(ac_db _ _ _ _ _ Hact) in Hh, Hp.
    split; [by eapply acts_ok|done].
  - split; [by eapply env_ok|]. split; [apply h_kept, h_stutter; intros g; by apply env_histories|]. by rewrite (ds_patches _ _ Hd).
Qed.
Lemma w_steps_sim w w' : world_ok w -> rtc w_step w w' ->
  world_ok w' /\ rtc h_step (history (db w)) (history (db w')) /\ extends (history (db w)) (history (db w')) /\
  graph_patches (db w) `prefix_of` graph_patches (db w').
Proof.
  intros Hw Hr. induction Hr as [w|w1 w2 w3 Hs _ IH].
  - split_and!; [done|reflexivity|reflexivity|done].
  - destruct (w_step_sim w1 w2 Hw Hs) as (Hw2 & Hh & Hp). destruct (IH Hw2) as (Hw3 & Hhs & He & Hps).
    split_and!; [done|by eapply rtc_l| |by transitivity (graph_patches (db w2))].
    transitivity (history (db w2)); [|done]. apply h_step_extends; [done|].
    intros g h Hg. by apply (history_bounds (db w1) g); [apply Hw|].
Qed.
Lemma reachable_db_ok w : reachable w -> world_ok w.
Proof. intros Hr. eapply w_steps_sim; [|exact Hr]. split; [apply empty_tables_ok|by apply Forall_nil_2]. Qed.
Lemma conn_ok w s : world_ok w -> s ∈ conns w -> store_ok s /\ tables s = db w.
Proof. intros [_ Hc] Hs. exact (proj1 (Forall_forall _ _) Hc s Hs). Qed.

(** One store running operations, from the empty database. *)
Fixpoint run_ops (os : list op) s : GraphStore :=
  match os with [] => s | o :: os' => run_ops os' (run_op o s).2 end.
Fixpoint admissible_all (os : list op) s : Prop :=
  match os with [] => True | o :: os' => admissible o s /\ admissible_all os' (run_op o s).2 end.
Lemma admissible_take n os s : admissible_all os s -> admissible_all (take n os) s.
Proof. revert n s. induction os as [|o os IH]; intros [|n] s; cbn; [done..|]. intros [Ha Hos]. auto. Qed.
Definition solo s : World := mkWorld (tables s) [s].
Lemma solo_performs o s : admissible o s -> performs 0 o (solo s) (solo (run_op o s).2).
Proof.
  intros Ha. exists s. split; [done|]. split; try done. by intros [|j] p p' Hj.
Qed.
Lemma solo_steps os s : admissible_all os s -> rtc w_step (solo s) (solo (run_ops os s)).
Proof.
  revert s. induction os as [|o os IH]; intros s; cbn; [reflexivity|]. intros [Ha Hos]. eapply rtc_l; [|by apply IH].
  eapply w_op. by apply solo_performs.
Qed.
Lemma solo_reachable os changes version ro clock drawn :
  let s := mkStore empty_tables changes version [] ro clock drawn in
  admissible_all os s -> reachable (solo (run_ops os s)).
Proof.
  intros s Ha. eapply rtc_l; [|exact (solo_steps os s Ha)]. by eapply w_open.
Qed.
End World.
