(* ===== verification/GraphDemo.v ===== *)
(** * A store to run: texts of the models that can be read back

    A concrete [ModelText] that satisfies [ModelTextLaws], and the requests, tables and
    connections the theorems of GraphStoreProps.v are applied to. *)

From Stdlib Require Import Ascii.
From stdpp Require Import countable.
From S2P Require Import Prelude PyString Storage VpgModels Agents Invalidation Verification Patches PatchValidator Derivation GraphStore GraphCommit GraphFacts GraphOps GraphCommitProps GraphCompaction GraphRecovery GraphWorld.
Open Scope Z_scope.

(** ** Codes *)

Section JsonInd.
Variable P : json -> Prop.
Hypotheses (Hnull : P JNull) (Hbool : forall b, P (JBool b)) (Hint : forall z, P (JInt z)) (Hfloat : forall r, P (JFloat r))
  (Hstr : forall s, P (JStr s)) (Htime : forall t, P (JTime t))
  (Hlist : forall l, Forall P l -> P (JList l)) (Hobj : forall o, Forall (fun kv => P kv.2) o -> P (JObj o)).
Fixpoint json_nested_ind (j : json) : P j :=
  match j with
  | JNull => Hnull | JBool b => Hbool b | JInt z => Hint z | JFloat r => Hfloat r | JStr s => Hstr s | JTime t => Htime t
  | JList l => Hlist l ((fix go l := match l return Forall P l with
                                     | [] => Forall_nil_2 _ | j :: l' => Forall_cons_2 _ _ _ (json_nested_ind j) (go l') end) l)
  | JObj o => Hobj o ((fix go o := match o return Forall (fun kv : string * json => P kv.2) o with
                                   | [] => Forall_nil_2 _ | (k, j) :: o' => Forall_cons_2 _ (k, j) _ (json_nested_ind j) (go o') end) o)
  end.
End JsonInd.

Module Codes.
Definition leaf : Type := bool + Z + Z + string + string.
Fixpoint json_tree (j : json) : gen_tree leaf :=
  match j with
  | JNull => GenNode 0 []
  | JBool b => GenLeaf (inl (inl (inl (inl b))))
  | JInt z => GenLeaf (inl (inl (inl (inr z))))
  | JTime z => GenLeaf (inl (inl (inr z)))
  | JFloat r => GenLeaf (inl (inr r))
  | JStr s => GenLeaf (inr s)
  | JList l => GenNode 1 (json_tree <$> l)
  | JObj o => GenNode 2 ((fun kv => GenNode 3 [GenLeaf (inr kv.1); json_tree kv.2]) <$> o)
  end.
Fixpoint tree_json (t : gen_tree leaf) : json :=
  match t with
  | GenLeaf (inl (inl (inl (inl b)))) => JBool b
  | GenLeaf (inl (inl (inl (inr z)))) => JInt z
  | GenLeaf (inl (inl (inr z))) => JTime z
  | GenLeaf (inl (inr r)) => JFloat r
  | GenLeaf (inr s) => JStr s
  | GenNode 1 l => JList (tree_json <$> l)
  | GenNode 2 l => JObj ((fun t => match t with GenNode 3 [GenLeaf (inr k); t'] => (k, tree_json t') | _ => ("", JNull) end) <$> l)
  | GenNode _ _ => JNull
  end.
Lemma tree_json_tree j : tree_json (json_tree j) = j.
Proof.
  induction j as [| | | | | |l IH|o IH] using json_nested_ind; cbn; [done..| |]; f_equal; rewrite <-list_fmap_compose.
  - induction IH as [|x l Hx _ IHl]; cbn; [done|]. by rewrite Hx, IHl.
  - induction IH as [|[k x] o Hx _ IHo]; cbn; [done|]. cbn in Hx. by rewrite Hx, IHo.
Qed.
#[export] Instance json_countable : Countable json := inj_countable' json_tree tree_json tree_json_tree.

#[export] Program Instance lifecycle_countable : Countable NodeLifecycle.t := inj_countable'
  (fun x => match x with NodeLifecycle.PROPOSED => 0%nat | NodeLifecycle.ADMITTED => 1%nat | NodeLifecycle.ACTIVE => 2%nat | NodeLifecycle.CLOSED => 3%nat end)
  (fun n => match n with 0%nat => NodeLifecycle.PROPOSED | 1%nat => NodeLifecycle.ADMITTED | 2%nat => NodeLifecycle.ACTIVE | _ => NodeLifecycle.CLOSED end) _.
Solve Obligations with by intros [].
#[export] Program Instance validity_countable : Countable NodeValidity.t := inj_countable'
  (fun x => match x with NodeValidity.UNVERIFIED => 0%nat | NodeValidity.VERIFIED => 1%nat | NodeValidity.STALE => 2%nat | NodeValidity.INVALID => 3%nat end)
  (fun n => match n with 0%nat => NodeValidity.UNVERIFIED | 1%nat => NodeValidity.VERIFIED | 2%nat => NodeValidity.STALE | _ => NodeValidity.INVALID end) _.
Solve Obligations with by intros [].
#[export] Program Instance result_countable : Countable EvidenceResult.t := inj_countable'
  (fun x => match x with EvidenceResult.PASS => 0%nat | EvidenceResult.FAIL => 1%nat | EvidenceResult.INCONCLUSIVE => 2%nat end)
  (fun n => match n with 0%nat => EvidenceResult.PASS | 1%nat => EvidenceResult.FAIL | _ => EvidenceResult.INCONCLUSIVE end) _.
Solve Obligations with by intros [].
#[export] Program Instance edge_type_countable : Countable EdgeType.t := inj_countable'
  (fun x => match x with EdgeType.DEPENDS_ON => 0%nat | EdgeType.PRODUCES => 1%nat | EdgeType.VERIFIES => 2%nat end)
  (fun n => match n with 0%nat => EdgeType.DEPENDS_ON | 1%nat => EdgeType.PRODUCES | _ => EdgeType.VERIFIES end) _.
Solve Obligations with by intros [].
#[export] Instance binding_eq_dec : EqDecision ArtifactVersionBinding.
Proof. solve_decision. Defined.
#[export] Program Instance binding_countable : Countable ArtifactVersionBinding := inj_countable'
  (fun b => ([b_canonical_uri b; b_artifact_id b; b_content_hash b; b_media_type b], b_version b))
  (fun x => match x with ([u; a; h; m], v) => mkBinding u a v h m | _ => mkBinding "" "" 0 "" "" end) _.
Solve Obligations with by intros [].

(** Numbers one after the other, each ended by a mark. *)
Fixpoint pos_chars (p : positive) : list ascii :=
  match p with
  | xI p => "1"%char :: pos_chars p
  | xO p => "0"%char :: pos_chars p
  | xH => [";"%char]
  end.
Definition codes_chars (l : list positive) : list ascii := concat (pos_chars <$> l).
Fixpoint chars_codes (l : list ascii) : list positive :=
  match l with
  | [] => []
  | c :: l' =>
      if decide (c = ";"%char) then xH :: chars_codes l'
      else match chars_codes l' with
           | p :: ps => (if decide (c = "1"%char) then xI p else xO p) :: ps
           | [] => []
           end
  end.
Lemma chars_codes_chars l : chars_codes (codes_chars l) = l.
Proof.
  induction l as [|p l IH]; [done|]. unfold codes_chars in *. cbn. induction p as [p IHp|p IHp|]; cbn; by rewrite ?IHp, ?IH.
Qed.

(** A record as the list of its fields' codes. *)
Definition base_codes (b : VPGNode) : list positive :=
  [encode (node_id b); encode (node_graph_id b); encode (lifecycle b); encode (validity b); encode (created_in_version b); encode (updated_in_version b); encode (created_by_pid b); encode (created_at b); encode (metadata b)].
Definition node_codes (n : AnyNode) : list positive :=
  base_codes (base n) ++
  match n with
  | NGoal g => [encode (goal_title g); encode (goal_description g)]
  | NTask t => [encode (task_title t); encode (task_description t); encode (task_kind t); encode (execution_spec t); encode (required_verification_count t)]
  | NArtifactRef a => [encode (aref_binding a)]
  | NVerification v => [encode (verification_kind v); encode (obligation v); encode (verif_source_action_id v)]
  | NEvidence e =>
      [encode (evidence_kind e); encode (evid_result e); encode (source_verification_id e); encode (source_action_id e); encode (source_event_ids e); encode (artifact_bindings e); encode (evidence_content_ref e); encode (evidence_hash e); encode (produced_by_pid e); encode (evid_claim_id e); encode (evid_attempt_id e); encode (semantic_epoch e); encode (lease_fencing_token e); encode (provenance_digest e); encode (context_snapshot_id e); encode (context_manifest_id e); encode (context_manifest_hash e); encode (context_working_set_hash e); encode (context_materialized_hash e); encode (produced_at e)]
  end.
Definition codes_base (l : list positive) : option VPGNode :=
  match l with
  | [p0; p1; p2; p3; p4; p5; p6; p7; p8] =>
      b0 ← decode p0; b1 ← decode p1; b2 ← decode p2; b3 ← decode p3; b4 ← decode p4; b5 ← decode p5; b6 ← decode p6; b7 ← decode p7; b8 ← decode p8; Some (mkNode b0 b1 b2 b3 b4 b5 b6 b7 b8)
  | _ => None
  end.
Definition codes_node (ty : NodeType.t) (l : list positive) : option AnyNode :=
  b ← codes_base (take 9 l);
  match ty, drop 9 l with
  | NodeType.GOAL, [q0; q1] =>
      x0 ← decode q0; x1 ← decode q1; Some (NGoal (mkGoal b x0 x1))
  | NodeType.TASK, [q0; q1; q2; q3; q4] =>
      x0 ← decode q0; x1 ← decode q1; x2 ← decode q2; x3 ← decode q3; x4 ← decode q4; Some (NTask (mkTask b x0 x1 x2 x3 x4))
  | NodeType.ARTIFACT_REF, [q0] =>
      x0 ← decode q0; Some (NArtifactRef (mkArtifactRef b x0))
  | NodeType.VERIFICATION, [q0; q1; q2] =>
      x0 ← decode q0; x1 ← decode q1; x2 ← decode q2; Some (NVerification (mkVerification b x0 x1 x2))
  | NodeType.EVIDENCE, [q0; q1; q2; q3; q4; q5; q6; q7; q8; q9; q10; q11; q12; q13; q14; q15; q16; q17; q18; q19] =>
      x0 ← decode q0; x1 ← decode q1; x2 ← decode q2; x3 ← decode q3; x4 ← decode q4; x5 ← decode q5; x6 ← decode q6; x7 ← decode q7; x8 ← decode q8; x9 ← decode q9; x10 ← decode q10; x11 ← decode q11; x12 ← decode q12; x13 ← decode q13; x14 ← decode q14; x15 ← decode q15; x16 ← decode q16; x17 ← decode q17; x18 ← decode q18; x19 ← decode q19; Some (NEvidence (mkEvidence b x0 x1 x2 x3 x4 x5 x6 x7 x8 x9 x10 x11 x12 x13 x14 x15 x16 x17 x18 x19))
  | _, _ => None
  end.
Definition edge_codes (e : VPGEdge) : list positive :=
  [encode (edge_id e); encode (edge_graph_id e); encode (edge_type e); encode (source_node_id e); encode (target_node_id e); encode (edge_created_in_version e); encode (edge_created_by_pid e); encode (edge_created_at e)].
Definition codes_edge (l : list positive) : option VPGEdge :=
  match l with
  | [q0; q1; q2; q3; q4; q5; q6; q7] =>
      x0 ← decode q0; x1 ← decode q1; x2 ← decode q2; x3 ← decode q3; x4 ← decode q4; x5 ← decode q5; x6 ← decode q6; x7 ← decode q7; Some (mkEdge x0 x1 x2 x3 x4 x5 x6 x7)
  | _ => None
  end.
Lemma codes_base_codes b : codes_base (base_codes b) = Some b.
Proof. unfold codes_base, base_codes. rewrite !decode_encode. by destruct b. Qed.
Lemma codes_node_codes n : codes_node (node_type n) (node_codes n) = Some n.
Proof.
  unfold codes_node, node_codes. rewrite take_app_length', drop_app_length' by done. rewrite codes_base_codes.
  destruct n as [x|x|x|x|x]; cbn [node_type base]; rewrite !decode_encode; by destruct x.
Qed.
Lemma codes_edge_codes e : codes_edge (edge_codes e) = Some e.
Proof. unfold codes_edge, edge_codes. rewrite !decode_encode. by destruct e. Qed.

Definition head_chars (n : AnyNode) : list ascii := node_type_marker ++ chars (NodeType.value (node_type n)) ++ [quote].
#[export] Instance texts : ModelText := {|
  model_dump_json := fun n => unchars (head_chars n ++ codes_chars (node_codes n));
  model_validate_json := fun ty s =>
    rest ← after_first node_type_marker (chars s);
    codes_node ty (chars_codes (drop (S (String.length (NodeType.value ty))) rest));
  edge_dump_json := fun e => unchars (codes_chars (edge_codes e));
  edge_validate_json := fun s => codes_edge (chars_codes (chars s));
  loads_node_type := fun _ => None |}.
Lemma drop_prefix_app p l : drop_prefix p (p ++ l) = Some l.
Proof. induction p as [|x p IH]; cbn; [done|]. by rewrite decide_True. Qed.
Lemma after_first_app p l : after_first p (p ++ l) = Some l.
Proof. destruct p as [|x p]; cbn; [by destruct l|]. rewrite decide_True by done. by rewrite drop_prefix_app. Qed.
#[export] Instance texts_laws : ModelTextLaws.
Proof.
  split.
  - intros n. exists (codes_chars (node_codes n)). cbn [model_dump_json texts]. rewrite chars_unchars. unfold head_chars.
    by rewrite <-!app_assoc, after_first_app.
  - intros n _. cbn [model_dump_json model_validate_json texts]. rewrite chars_unchars. unfold head_chars.
    rewrite <-!app_assoc, after_first_app. cbn [mbind option_bind].
    replace (S (String.length (NodeType.value (node_type n)))) with (length (chars (NodeType.value (node_type n)) ++ [quote]))
      by by destruct n.
    rewrite app_assoc, drop_app_length, chars_codes_chars. apply codes_node_codes.
  - intros e. cbn [edge_dump_json edge_validate_json texts]. rewrite chars_unchars, chars_codes_chars. apply codes_edge_codes.
Qed.
(** A digest of 64 characters: the end of the text. *)
#[export] Instance digest : Sha256 := fun s => unchars (take 64 (reverse (chars s) ++ replicate 64 "0"%char)).
#[export] Instance uuids : UuidSource := pretty_uuid.
#[export] Instance json_texts : JsonText := {| json_str := fun _ => ""; float_int := fun _ => None |}.
End Codes.

(** ** A run *)

Module GraphRun.
Export Codes.
Definition record0 : GraphRecord := mkGraph "g" "p" 0 0 0 false [].
Definition task (id : string) (v : Z) (validity : NodeValidity.t) : AnyNode :=
  NTask (mkTask (mkNode id "g" NodeLifecycle.ADMITTED validity v v "p" 0 []) "title" "text" "task" [("k", JInt 1)] 1).
Definition edge (v : Z) : VPGEdge := mkEdge "e1" "g" EdgeType.DEPENDS_ON "t2" "t1" v "p" 0.
Definition patch (id : string) (v : Z) : GraphPatchProposal := mkPatch id "g" v "p" [] "why" [] id 0.
Definition guard : LeaseCommitGuard := mkGuard "l1" "r1" "p" 7 (aware 100).
Definition request (id : string) (v : Z) (new : list AnyNode) (new_edges : list VPGEdge) (all : list AnyNode) (edges : list VPGEdge)
    (g : option LeaseCommitGuard) : CommitRequest :=
  mkCommitRequest (patch id v) id (v + 1) 5 [] ((fun n => (nid n, n)) <$> new) new_edges (Some all) (Some edges) g None None.
Definition t1 := task "t1" 1 NodeValidity.UNVERIFIED.
Definition t2 := task "t2" 2 NodeValidity.UNVERIFIED.
Definition request1 : CommitRequest := request "patch1" 0 [t1] [] [t1] [] None.
Definition request2 : CommitRequest := request "patch2" 1 [t2] [edge 2] [t2; t1] [edge 2] None.
(** A store opened on the empty database, then the graph and two patches. *)
Definition opened : GraphStore := mkStore empty_tables 0 1 [] false 10 0.
Definition store1 : GraphStore := Eval vm_compute in (create_graph record0 opened).2.
Definition store2 : GraphStore := Eval vm_compute in (commit_patch request1 store1).2.
Definition store3 : GraphStore := Eval vm_compute in (commit_patch request2 store2).2.
End GraphRun.
