(* ===== verification/GraphStoreProps.v ===== *)
(** * What the graph store promises (graph_store.py, recovery.py)

    The claims about the stores of a database any number of connections share:
    committed versions never change, commits are atomic, fenced and made once,
    compaction keeps what it retains, and recovery restores the current version. *)

From S2P Require Import Prelude PyString Storage VpgModels Agents Invalidation Verification Patches PatchValidator Derivation GraphStore GraphCommit GraphFacts GraphOps GraphCommitProps GraphCompaction GraphRecovery GraphWorld GraphDemo.
Open Scope Z_scope.

(** ** Guards *)

(** The lease the guard names is held: exclusive, its resource's current token, not
    expired. *)
Definition lease_held (guard : LeaseCommitGuard) (s : GraphStore) : Prop :=
  exists leases tokens lease expiry,
    leases_projection (tables s) = Some leases /\ resource_fencing_tokens (tables s) = Some tokens /\
    tbl_find le_lease_id (lg_lease_id guard) leases = Some lease /\
    le_resource_id lease = lg_resource_id guard /\ le_owner_pid lease = lg_owner_pid guard /\
    le_mode lease = "exclusive" /\ le_fencing_token lease = lg_fencing_token guard /\
    le_expires_at lease = Some expiry /\ tz_aware expiry = true /\ tz_aware (lg_expires_at guard) = true /\
    wall_clock s < instant expiry /\ dict_get (lg_resource_id guard) tokens = Some (lg_fencing_token guard).
Lemma lease_guard_exact guard s : (_validate_lease_commit_guard guard s).1 = Ok tt <-> lease_held guard s.
Proof.
  unfold _validate_lease_commit_guard, lease_held. rewrite !gets_bind. split.
  - destruct (leases_projection (tables s)) as [leases|]; [|done]. destruct (resource_fencing_tokens (tables s)) as [tokens|]; [|done].
    destruct (tbl_find le_lease_id (lg_lease_id guard) leases) as [lease|] eqn:El; [|done].
    destruct (String.eqb_spec (le_lease_id lease) (lg_lease_id guard)) as [E1|]; [|done].
    destruct (String.eqb_spec (le_resource_id lease) (lg_resource_id guard)) as [E2|]; [|done].
    destruct (String.eqb_spec (le_owner_pid lease) (lg_owner_pid guard)) as [E3|]; [|done].
    destruct (String.eqb_spec (le_mode lease) "exclusive") as [E4|]; [|done].
    destruct (Z.eqb_spec (le_fencing_token lease) (lg_fencing_token guard)) as [E5|]; [|done]. cbn [negb orb]. rewrite vpg_if_bind.
    destruct (le_expires_at lease) as [expiry|] eqn:Ee; [|done].
    destruct (tz_aware expiry) eqn:Ea; [|done]. destruct (tz_aware (lg_expires_at guard)) eqn:Eb; [|done]. cbn [negb orb]. rewrite vpg_if_bind.
    destruct (Z.leb_spec (instant expiry) (wall_clock s)); [done|]. rewrite vpg_if_bind. case_bool_decide as Et; [|done]. intros _.
    exists leases, tokens, lease, expiry. by split_and!.
  - intros (leases & tokens & lease & expiry & -> & -> & El & E2 & E3 & E4 & E5 & Ee & Ea & Eb & Hlt & Et). rewrite El.
    apply tbl_find_Some in El as [El _]. rewrite El, E2, E3, E4, E5, !String.eqb_refl, Z.eqb_refl, Ee. cbn [negb orb]. rewrite vpg_if_bind.
    rewrite Ea, Eb. cbn [negb orb]. rewrite vpg_if_bind. replace (instant expiry <=? wall_clock s) with false by lia.
    rewrite vpg_if_bind, bool_decide_eq_true_2 by done. done.
Qed.
(** What a reader saw of an artifact is still its latest version, with the same content. *)
Definition read_current (guard : ArtifactVersionBinding) (s : GraphStore) : Prop :=
  let names f := fa_artifact_id f = removeprefix "vpg://" (strip (b_artifact_id guard)) \/
                 fa_canonical_uri f = strip (b_canonical_uri guard) in
  exists facts fact, sdk_artifact_facts (tables s) = Some facts /\ fact ∈ facts /\ names fact /\
    fa_version fact = b_version guard /\ lower (strip (fa_content_hash fact)) = lower (strip (b_content_hash guard)) /\
    forall f, f ∈ facts -> names f -> fa_version f <= b_version guard.
Lemma sql_max_spec l m : sql_max l = Some m -> forall v, v ∈ l -> v <= m.
Proof.
  revert m. induction l as [|x l IH]; intros m; [done|]. change (sql_max (x :: l)) with (Some (match sql_max l with Some w => Z.max x w | None => x end)).
  intros [= <-] v [->|Hv]%elem_of_cons.
  - destruct (sql_max l); lia.
  - destruct (sql_max l) as [w|] eqn:E; [specialize (IH w eq_refl v Hv); lia|]. destruct l; [by apply not_elem_of_nil in Hv|done].
Qed.
Lemma read_guard_sound facts guard s : sdk_artifact_facts (tables s) = Some facts ->
  (_validate_read_guard facts guard s).1 = Ok tt -> read_current guard s.
Proof.
  intros Hf. unfold _validate_read_guard. cbv zeta.
  destruct (_ || _ || _); [done|]. rewrite vpg_if_bind. destruct (String.eqb _ ""); [done|]. rewrite vpg_if_bind.
  set (named := filter _ facts). destruct (head _) as [fact|] eqn:Eh; [|done].
  case_bool_decide as Em; [|done]. cbn [negb]. rewrite vpg_if_bind.
  destruct (String.eqb_spec (lower (strip (fa_content_hash fact))) (lower (strip (b_content_hash guard)))) as [Eq|]; [|done]. intros _.
  apply head_Some_elem_of in Eh. apply elem_of_sort_on, list_elem_of_filter in Eh as [Ev [Hn Hin]%list_elem_of_filter].
  exists facts, fact. split_and!; [done..|]. intros f Hfin Hnf. apply (sql_max_spec _ _ Em).
  apply list_elem_of_fmap. exists f. split; [done|]. by apply list_elem_of_filter.
Qed.
Lemma for_each_Ok {A} (f : A -> SM unit) l s : (forall x, reads (f x)) ->
  (for_each f l s).1 = Ok tt -> forall x, x ∈ l -> (f x s).1 = Ok tt.
Proof.
  intros Hr. induction l as [|y l IH]; cbn; [intros _ x Hx; by apply not_elem_of_nil in Hx|]. unfold mbind, M_bind.
  pose proof (Hr y s) as Ey. destruct (f y s) as [[[]|e] s1] eqn:E; cbn in Ey; subst; [|done].
  intros Hl x [->|Hx]%elem_of_cons; [by rewrite E|by apply IH].
Qed.
Lemma guards_sound cg rg s : (validate_guards cg rg s).1 = Ok tt ->
  (forall g, cg = Some g -> lease_held g s) /\ (forall gs g, rg = Some gs -> g ∈ gs -> read_current g s).
Proof.
  unfold validate_guards. unfold mbind at 1, M_bind at 1.
  assert (reads (match cg with Some g => _validate_lease_commit_guard g | None => mret tt end)) as Hr
    by (destruct cg; [apply lease_guard_reads|done]). specialize (Hr s).
  destruct (match cg with Some g => _validate_lease_commit_guard g | None => mret tt end s) as [[[]|e] s1] eqn:E1; cbn in Hr; subst s1; [|done].
  intros E2. split.
  - intros g ->. apply lease_guard_exact. by rewrite E1.
  - intros gs g -> Hg. unfold _validate_read_guards in E2. destruct gs as [|g0 gs]; [by apply not_elem_of_nil in Hg|].
    rewrite gets_bind in E2. destruct (sdk_artifact_facts (tables s)) as [facts|] eqn:Ef; [|done].
    eapply read_guard_sound; [exact Ef|]. eapply for_each_Ok; [intros x; apply read_guard_reads|exact E2|exact Hg].
Qed.

(** ** Reads *)

Section Claims.
Context `{ModelTextLaws, Sha256, UuidSource, JsonText}.
Implicit Types (s : GraphStore) (g : string) (w : World).

(** What loading version [v] of a history returns. *)
Definition loaded (h : option History) (v : Z) : result (dict AnyNode * list VPGEdge) :=
  match load_result h v with Ok c => Ok (entries c.1, c.2) | Raise e => Raise e end.
Lemma load_snapshot_exact s g v : tables_ok (tables s) -> load_projection_snapshot g v s = (loaded (history (tables s) g) v, s).
Proof.
  intros Ht. unfold load_projection_snapshot, loaded. pose proof (load_exact s g v Ht) as E.
  destruct (load_result (history (tables s) g) v) as [c|e]; [by rewrite (bind_Ok _ _ _ _ _ E)|by rewrite (bind_Raise _ _ _ _ _ E)].
Qed.
Lemma h_at_Some h v : h_floor h <= v <= h_current h <-> is_Some (h_at h v).
Proof.
  unfold h_at, h_current. destruct (Z.ltb_spec v (h_floor h)).
  - split; [lia|by intros []].
  - rewrite lookup_lt_is_Some. lia.
Qed.
Lemma loaded_Ok h v x : loaded h v = Ok x -> exists h0 c, h = Some h0 /\ h_at h0 v = Some c /\ x = (entries c.1, c.2).
Proof.
  unfold loaded. destruct h as [h0|]; [|done]. cbn. destruct (h_at h0 v) as [c|] eqn:E; [|done]. intros [= <-]. eauto.
Qed.
(** What is read of one history can be read of a later one, or is gone. *)
Lemma loaded_extends K K' g v x : extends K K' -> loaded (K g) v = Ok x ->
  loaded (K' g) v = Ok x \/ loaded (K' g) v = Raise (vpg_error VPGCode.GRAPH_HISTORY_PRUNED).
Proof.
  intros He (h & c & Hh & Hc & ->)%loaded_Ok. destruct (He g h Hh) as (h' & Hh' & [E1 E2 E3 E4]). rewrite Hh'.
  assert (h_floor h <= v <= h_current h) as Hv by (apply h_at_Some; by rewrite Hc). unfold loaded. cbn.
  destruct (Z.ltb_spec v (h_floor h')) as [Hlt|Hge].
  - right. unfold h_at. by rewrite (proj2 (Z.ltb_lt _ _) Hlt).
  - left. by rewrite E4, Hc by lia.
Qed.
Lemma loaded_append h c v : h_floor h <= h_current h ->
  loaded (Some (h_append h c)) v = if decide (v = h_current h + 1) then Ok (entries c.1, c.2) else loaded (Some h) v.
Proof.
  intros Hne. unfold loaded. cbn. unfold h_at, h_append, h_current in *. cbn. destruct (Z.ltb_spec v (h_floor h)).
  - rewrite decide_False by lia. done.
  - case_decide as E.
    + rewrite lookup_app_r by lia. by replace (Z.to_nat (v - h_floor h) - length (h_versions h))%nat with 0%nat by lia.
    + destruct (decide (Z.to_nat (v - h_floor h) < length (h_versions h))%nat); [by rewrite lookup_app_l by lia|].
      by rewrite !lookup_ge_None_2 by (rewrite ?length_app; cbn; lia).
Qed.
Lemma loaded_drop h f v : h_floor h <= f <= h_current h ->
  loaded (Some (h_drop f h)) v = if decide (v < f) then Raise (vpg_error VPGCode.GRAPH_HISTORY_PRUNED) else loaded (Some h) v.
Proof.
  intros Hf. unfold loaded. cbn. unfold h_at, h_drop, h_current in *. cbn. case_decide.
  - by rewrite (proj2 (Z.ltb_lt v f)).
  - replace (v <? f) with false by lia. replace (v <? h_floor h) with false by lia. rewrite lookup_drop.
    by replace (Z.to_nat (f - h_floor h) + Z.to_nat (v - f))%nat with (Z.to_nat (v - h_floor h)) by lia.
Qed.
Lemma reachable_conn w s : reachable w -> s ∈ conns w -> store_ok s /\ tables s = db w.
Proof. intros Hr. apply conn_ok. by apply reachable_db_ok. Qed.

(** Reading rows alike in two states. *)
Lemma map_each_same {A B} (f : A -> SM B) l (sa sb : GraphStore) :
  (forall x, (f x sa).1 = (f x sb).1 /\ reads (f x)) -> (map_each f l sa).1 = (map_each f l sb).1.
Proof.
  intros Hf. induction l as [|x l IH]; cbn; [done|]. unfold mbind, M_bind, mret, M_ret.
  destruct (Hf x) as [Hx Hrx]. pose proof (Hrx sa) as Ra. pose proof (Hrx sb) as Rb.
  destruct (f x sa) as [[a|ea] sa1], (f x sb) as [[b|eb] sb1]; cbn in *; subst; try congruence. injection Hx as <-.
  destruct (map_each f l sa) as [[la|?] ?], (map_each f l sb) as [[lb|?] ?]; cbn in *; congruence.
Qed.

(** ** Claims *)

(** C10: The store implements append-only histories. In every database reachable by any
    number of connections, each with its own cache, running operations that return or raise, while something else rewrites
    materialized rows, events, leases and facts, the durable tables stand for one
    history per graph; a step only creates a graph with an empty version 0, appends a well-shaped
    version to an open one, closes one, drops versions before the current one, or
    changes no history; and every connection reads exactly that history, with the
    documented errors for unknown, pruned and future versions. *)
Theorem store_refines_histories w : reachable w ->
  rtc h_step (fun _ => None) (history (db w)) /\
  (forall w', w_step w w' -> h_step (history (db w)) (history (db w'))) /\
  (forall s g v, s ∈ conns w -> load_projection_snapshot g v s = (loaded (history (db w) g) v, s)).
Proof.
  intros Hr. pose proof (reachable_db_ok w Hr) as Hw. split_and!.
  - eapply rtc_l; [apply h_kept, h_stutter with (H' := history (db empty_world)); done|].
    eapply w_steps_sim; [|exact Hr]. split; [apply empty_tables_ok|by apply Forall_nil_2].
  - intros w' Hs. by apply w_step_sim.
  - intros s g v Hs. destruct (conn_ok w s Hw Hs) as [[Ht _] E]. rewrite <-E. by apply load_snapshot_exact.
Qed.

(** C11: A committed version never changes. What one connection once read of a version,
    every connection reads after any further steps of any connections, or is told that
    the version has been pruned. *)
Theorem readable_versions_stable w w' s s' g v x : reachable w -> rtc w_step w w' -> s ∈ conns w -> s' ∈ conns w' ->
  load_projection_snapshot g v s = (Ok x, s) ->
  load_projection_snapshot g v s' = (Ok x, s') \/
  load_projection_snapshot g v s' = (Raise (vpg_error VPGCode.GRAPH_HISTORY_PRUNED), s').
Proof.
  intros Hr Hs Hin Hin' El. destruct (reachable_conn w s Hr Hin) as [[Ht _] Et].
  destruct (reachable_conn w' s' (rtc_trans _ _ _ Hr Hs) Hin') as [[Ht' _] Et'].
  destruct (w_steps_sim w w' (reachable_db_ok w Hr) Hs) as (_ & _ & He & _).
  rewrite load_snapshot_exact, Et in El by done. injection El as El. rewrite !load_snapshot_exact, Et' by done.
  destruct (loaded_extends _ _ g v x He El) as [->| ->]; auto.
Qed.

(** C12: commit_patch is atomic, versioned and fenced. When it returns, the graph was open
    at exactly the version the patch expected, the lease of its guard was held with the
    resource's current fencing token and every artifact of its read set was still at the
    version read; the next version reads back as the given projection without the
    evidence staged for later, contains every upserted node and edge and nothing the patch
    does not name or the parent hold, and no other version of any graph changes. When it
    raises, nothing durable changes. *)
Theorem commit_patch_exact w s q : reachable w -> s ∈ conns w ->
  (forall ns, q_projection_nodes q = Some ns -> Forall (fun n => node_valid n = true) ns) ->
  let g := patch_graph_id (q_patch q) in
  match commit_patch q s with
  | (Ok _, s') => exists h dn es,
      history (tables s) g = Some h /\ made_durable q (tables s) h dn es /\
      (forall guard, q_commit_guard q = Some guard -> lease_held guard s) /\
      (forall guards guard, q_read_guards q = Some guards -> guard ∈ guards -> read_current guard s) /\
      load_projection_snapshot g (h_current h + 1) s' = (Ok (entries (sort_on (fun n => nid n) dn), sort_on edge_id es), s') /\
      (forall g' v, (g', v) <> (g, h_current h + 1) ->
         (load_projection_snapshot g' v s').1 = (load_projection_snapshot g' v s).1)
  | (Raise _, s') => tables s' = tables s
  end.
Proof.
  intros Hr Hin Hv g. destruct (reachable_conn w s Hr Hin) as [Hs _]. pose proof (commit_patch_run q s Hs Hv) as E.
  destruct (commit_patch q s) as [[u|e] s']; [|apply E]. destruct E as (Hs' & _ & h & dn & es & Hg & Hh & Hm & Hb & _). fold g in Hh, Hb.
  destruct (guards_sound _ _ _ Hg) as [Hl Hread]. pose proof (history_bounds _ _ _ (proj1 Hs) Hh) as Hne.
  exists h, dn, es. split_and!; [done|done|done|done| |].
  - rewrite load_snapshot_exact, (becomes_history _ _ _ _ Hb), loaded_append, decide_True by (done || apply Hs'). done.
  - intros g' v Hgv. rewrite !load_snapshot_exact by (apply Hs || apply Hs'). cbn [fst]. rewrite Hb. unfold h_upd. case_decide as Eg; [|done].
    subst g'. rewrite loaded_append, decide_False, Hh by (done || congruence). done.
Qed.

(** C13: A patch is committed once. After a commit returned, and whatever any connection
    did since, looking up its author, graph and key gives the patch and its version; a
    commit with the same author, graph and key, with the same patch id, or for a version
    that is not newer raises and changes no table. *)
Theorem committed_patch_once w w1 w2 i s s2 q : reachable w -> performs i (OpCommit q) w w1 -> conns w !! i = Some s ->
  (commit_patch q s).1 = Ok tt -> rtc w_step w1 w2 -> s2 ∈ conns w2 ->
  let p := q_patch q in
  has_idempotency (composite_key p) s2 = (Ok (Some (q_patch_id q, q_committed_version q)), s2) /\
  forall q', (forall ns, q_projection_nodes q' = Some ns -> Forall (fun n => node_valid n = true) ns) ->
    composite_key (q_patch q') = composite_key p \/ q_patch_id q' = q_patch_id q \/
    (patch_graph_id (q_patch q') = patch_graph_id p /\ q_committed_version q' <= q_committed_version q) ->
    exists e s', commit_patch q' s2 = (Raise e, s') /\ tables s' = tables s2.
Proof.
  intros Hr Hp Hi Hok Hsteps Hin p. pose proof (reachable_db_ok w Hr) as Hw.
  destruct (w_step_sim w w1 Hw (w_op _ _ _ _ Hp)) as (Hw1 & _ & _). destruct (w_steps_sim w1 w2 Hw1 Hsteps) as (Hw2 & _ & He & Hpre).
  destruct (conn_ok w2 s2 Hw2 Hin) as [Hs2 Et2].
  destruct Hp as (s0 & Ha & [Hi0 _ Hdb _ _]). assert (s0 = s) as -> by congruence. cbn [run_op admissible] in *.
  destruct (conn_ok w s Hw (list_elem_of_lookup_2 _ _ _ Hi)) as [Hs _]. pose proof (commit_patch_run q s Hs Ha) as E.
  destruct (commit_patch q s) as [[u|e] s1]; [|done]. cbn [snd] in Hdb. destruct E as (Hs1 & _ & h & dn & es & _ & Hh & Hm & Hb & Hpat).
  assert (patch_row_of q ∈ graph_patches (tables s2)) as Hrow.
  { rewrite Et2. destruct Hpre as [l ->]. rewrite Hdb, Hpat. apply elem_of_app. left. apply elem_of_app. right. by left. }
  pose proof (to_keys _ (proj1 Hs2)) as Hk. pose proof (to_idempotency _ (proj1 Hs2)) as Hid.
  split.
  - unfold has_idempotency. rewrite select_bind. cbn [sel IDEMPOTENCY].
    assert (idem_of (patch_row_of q) ∈ graph_idempotency (tables s2)) as Hidem by (rewrite Hid; by apply list_elem_of_fmap_2).
    pose proof (tbl_find_elem id_key _ _ (ko_idempotency _ Hk) Hidem) as Ef.
    change (id_key (idem_of (patch_row_of q))) with (composite_key p) in Ef. by rewrite Ef.
  - intros q' Hv' Hsame. pose proof (commit_patch_run q' s2 Hs2 Hv') as E'. destruct (commit_patch q' s2) as [[u'|e] s'] eqn:Ec.
    2:{ exists e, s'. split; [done|]. apply E'. }
    exfalso. destruct E' as (Hs' & _ & h' & dn' & es' & _ & Hh' & Hm' & _ & Hpat'). pose proof (to_keys _ (proj1 Hs')) as Hk'.
    pose proof (to_idempotency _ (proj1 Hs')) as Hid'. destruct Hsame as [Hc|[Hc|[Hg Hle]]].
    + pose proof (ko_idempotency _ Hk') as Hd. rewrite Hid', Hpat', !fmap_app in Hd. apply NoDup_app in Hd as (_ & Hd & _).
      apply (Hd (composite_key p)); [|cbn; rewrite <-Hc; by left].
      change (composite_key p) with (id_key (idem_of (patch_row_of q))). by do 2 apply list_elem_of_fmap_2.
    + pose proof (ko_patch_ids _ Hk') as Hd. rewrite Hpat', fmap_app in Hd. apply NoDup_app in Hd as (_ & Hd & _).
      apply (Hd (q_patch_id q)); [|cbn; rewrite <-Hc; by left].
      change (q_patch_id q) with (pt_patch_id (patch_row_of q)). by apply list_elem_of_fmap_2.
    + assert (history (db w1) (patch_graph_id p) = Some (h_append h (sort_on (fun n => nid n) dn, sort_on edge_id es))) as H1h
        by (rewrite Hdb; exact (becomes_history _ _ _ _ Hb)).
      destruct (He _ _ H1h) as (h2 & Hh2 & [_ Hcur _ _]). rewrite Hg, Et2, Hh2 in Hh'. injection Hh' as <-.
      pose proof (md_version _ _ _ _ _ Hm). pose proof (md_version _ _ _ _ _ Hm').
      assert (h_current (h_append h (sort_on (fun n => nid n) dn, sort_on edge_id es)) = h_current h + 1) as Eapp
        by (unfold h_current, h_append; cbn; rewrite length_app; cbn; lia). lia.
Qed.

(** C14: Compaction keeps what it retains. It refuses, changing nothing, a read-only store, a
    blank operator or reason, an unknown graph, and a floor below the present one or above the
    current version; otherwise it returns, versions from the new floor on read as before,
    those below it are reported pruned, and no other graph changes. *)
Theorem compaction_exact w s g f by_ reason : reachable w -> s ∈ conns w ->
  ~ (uuid4 (uuids_drawn s) ∈ lc_event_id <$> graph_history_lifecycle_events (tables s)) ->
  match compact_projection_history g f by_ reason s, compact_outcome g f by_ reason s with
  | (Ok k, s'), Ok h => hc_earliest_recoverable_version k = f /\ hc_current_version k = h_current h /\
      (forall g' v, (load_projection_snapshot g' v s').1 =
         if decide (g' = g /\ v < f) then Raise (vpg_error VPGCode.GRAPH_HISTORY_PRUNED)
         else (load_projection_snapshot g' v s).1)
  | (Raise e, s'), Raise e' => e = e' /\ s' = s
  | _, _ => False
  end.
Proof.
  intros Hr Hin Hfresh. destruct (reachable_conn w s Hr Hin) as [Hs _]. pose proof (compact_run g f by_ reason s Hs Hfresh) as E.
  unfold compact_outcome in *. destruct (compact_projection_history g f by_ reason s) as [[k|e] s'].
  2:{ repeat case_match; naive_solver. }
  destruct (_read_only s); [done|]. destruct (String.eqb (strip by_) ""); [done|]. destruct (String.eqb (strip reason) ""); [done|].
  destruct (history (tables s) g) as [h|] eqn:Eh; [|done].
  destruct (Z.ltb_spec f (h_floor h)); [done|]. destruct (Z.ltb_spec (h_current h) f); [done|]. destruct E as (Hs' & Hb & Hf & Hc).
  split_and!; [done|done|]. intros g' v. rewrite !load_snapshot_exact by (apply Hs || apply Hs'). cbn [fst]. rewrite Hb. unfold h_upd.
  destruct (decide (g' = g)) as [->|Hne].
  - rewrite loaded_drop, Eh by lia. destruct (decide (v < f)); [by rewrite decide_True|rewrite decide_False by tauto; done].
  - by rewrite decide_False by tauto.
Qed.

(** C15: Recovery restores the current version. Whatever the materialized rows of a known
    graph are, verify_and_recover on a writable store whose events can be decoded returns
    the graph's record, its events framed by the recovery events; the materialized nodes and
    edges are then exactly those of the current version, those of other graphs are as before, and every version of
    every graph reads as before. *)
Theorem recovery_restores w s g h : reachable w -> s ∈ conns w -> _read_only s = false -> history (tables s) g = Some h ->
  events_readable g (tables s) ->
  exists started mid completed r s' c, verify_and_recover g s = (Ok (started :: mid ++ [completed], r), s') /\
    gr_graph_id r = g /\ gr_current_version r = h_current h /\
    load_projection_snapshot g (h_current h) s = (Ok (entries c.1, c.2), s) /\
    get_all_nodes g s' = (Ok c.1, s') /\ get_all_edges g s' = (Ok c.2, s') /\
    (forall g', g' <> g -> (get_all_nodes g' s').1 = (get_all_nodes g' s).1 /\ (get_all_edges g' s').1 = (get_all_edges g' s).1) /\
    (forall g' v, (load_projection_snapshot g' v s').1 = (load_projection_snapshot g' v s).1) /\
    ge_event_type (evr_event started) = GraphEventType.GRAPH_RECOVERY_STARTED /\
    ge_event_type (evr_event completed) = GraphEventType.GRAPH_RECOVERY_COMPLETED.
Proof.
  intros Hr Hin Hro Hh Hev. destruct (reachable_conn w s Hr Hin) as [Hs _].
  destruct (recover_run g s h Hs Hro Hh Hev) as (st & mid & co & r & s' & c & E & Hrec & Hcur & Hat & _ & Gn & Ge & Ho & Y1 & Y2 & _).
  destruct (recover_stutters g s Hs) as [Hs' Hsame]. rewrite E in Hs', Hsame. cbn [snd] in *.
  exists st, mid, co, r, s', c. unfold find_record in Hrec. apply tbl_find_Some in Hrec as [Hg _]. split_and!; try done.
  - rewrite load_snapshot_exact by apply Hs. unfold loaded. rewrite Hh. cbn. by rewrite Hat.
  - intros g' Hne. destruct (Ho g' Hne) as [En Ee]. unfold get_all_nodes, get_all_edges. rewrite !select_bind. cbn [sel NODES EDGES].
    rewrite En, Ee. split.
    + apply map_each_same. intros x. split; [|solve_reads]. unfold mbind, M_bind. destruct (_node_from_json (nr_payload_json x)); [|done]. cbn.
      by destruct (negb _ || negb _).
    + destruct (all_ok _edge_from_row _); [|done]. rewrite !of_Ok_bind. by destruct (existsb _ _).
  - intros g' v. rewrite !load_snapshot_exact by (apply Hs || apply Hs'). cbn [fst]. by rewrite Hsame.
Qed.
End Claims.

(** ** The run of GraphDemo.v *)

Module GraphWitness.
Import GraphRun.
Definition ops : list op := [OpCreate record0; OpCommit request1; OpCommit request2; OpDelete "g"].
Definition store4 : GraphStore := Eval vm_compute in (delete_projection "g" store3).2.
Lemma run_prefix n s : run_ops (take n ops) opened = s -> reachable (solo s).
Proof.
  intros <-. apply (solo_reachable (take n ops)).
  assert (admissible_all ops opened) as Ha.
  { cbn [admissible_all admissible ops]. split_and!; [done| |  |done|done]; intros ns [= <-]; repeat constructor. }
  by apply admissible_take.
Qed.
Lemma reachable1 : reachable (solo store1).
Proof. apply (run_prefix 1). vm_compute. reflexivity. Qed.
Lemma reachable2 : reachable (solo store2).
Proof. apply (run_prefix 2). vm_compute. reflexivity. Qed.
Lemma reachable3 : reachable (solo store3).
Proof. apply (run_prefix 3). vm_compute. reflexivity. Qed.
Lemma reachable4 : reachable (solo store4).
Proof. apply (run_prefix 4). vm_compute. reflexivity. Qed.
Lemma valid_request q ns : q_projection_nodes q = Some ns -> forallb node_valid ns = true ->
  forall ns', q_projection_nodes q = Some ns' -> Forall (fun n => node_valid n = true) ns'.
Proof. intros -> Hv ns' [= <-]. apply Forall_forall. intros n Hn%list_elem_of_In. exact (proj1 (forallb_forall _ _) Hv n Hn). Qed.
Lemma performs1 : performs 0 (OpCommit request1) (solo store1) (solo store2).
Proof.
  assert (store2 = (run_op (OpCommit request1) store1).2) as -> by (vm_compute; reflexivity). apply solo_performs.
  exact (valid_request request1 [t1] eq_refl eq_refl).
Qed.
Lemma performs2 : performs 0 (OpCommit request2) (solo store2) (solo store3).
Proof.
  assert (store3 = (run_op (OpCommit request2) store2).2) as -> by (vm_compute; reflexivity). apply solo_performs.
  exact (valid_request request2 [t2; t1] eq_refl eq_refl).
Qed.
Lemma in_solo s : s ∈ conns (solo s).
Proof. by left. Qed.

Lemma store_refines_histories_witness :
  load_projection_snapshot "g" 1 store3 = (loaded (history (tables store3) "g") 1, store3) /\
  (load_projection_snapshot "g" 1 store3).1 = Ok ([("t1", t1)], []).
Proof.
  split; [|vm_compute; reflexivity].
  exact (proj2 (proj2 (store_refines_histories (solo store3) reachable3)) store3 "g" 1 (in_solo store3)).
Defined.
Lemma readable_versions_stable_witness :
  load_projection_snapshot "g" 1 store3 = (Ok ([("t1", t1)], []), store3) \/
  load_projection_snapshot "g" 1 store3 = (Raise (vpg_error VPGCode.GRAPH_HISTORY_PRUNED), store3).
Proof.
  apply (readable_versions_stable (solo store2) (solo store3) store2 store3 "g" 1 _ reachable2).
  - apply rtc_once. exact (w_op _ _ _ _ performs2).
  - apply in_solo.
  - apply in_solo.
  - vm_compute. reflexivity.
Defined.
Lemma commit_patch_exact_witness :
  match commit_patch request2 store2 with
  | (Ok _, s') => (load_projection_snapshot "g" 1 s').1 = Ok ([("t1", t1)], [])
  | (Raise _, _) => False
  end.
Proof.
  pose proof (commit_patch_exact (solo store2) store2 request2 reachable2 (in_solo store2)
    (valid_request request2 [t2; t1] eq_refl eq_refl)) as E.
  assert ((commit_patch request2 store2).1 = Ok tt) as Eok by (vm_compute; reflexivity).
  assert ((load_projection_snapshot "g" 1 store2).1 = Ok ([("t1", t1)], [])) as Eold by (vm_compute; reflexivity).
  assert (option_map h_current (history (tables store2) "g") = Some 1) as Ecur by (vm_compute; reflexivity).
  destruct (commit_patch request2 store2) as [[u|e] s']; [|discriminate Eok].
  destruct E as (h & dn & es & Hh & _ & _ & _ & _ & Hold). rewrite <-Eold. apply Hold.
  change (patch_graph_id (q_patch request2)) with "g" in Hh. rewrite Hh in Ecur. injection Ecur as ->. discriminate.
Defined.
Lemma committed_patch_once_witness :
  has_idempotency ("p", "g", "patch1") store3 = (Ok (Some ("patch1", 1)), store3) /\
  exists e s', commit_patch request1 store3 = (Raise e, s') /\ tables s' = tables store3.
Proof.
  destruct (committed_patch_once (solo store1) (solo store2) (solo store3) 0 store1 store3 request1 reachable1 performs1 eq_refl
    ltac:(vm_compute; reflexivity) (rtc_once _ _ (w_op _ _ _ _ performs2)) (in_solo store3)) as [Hi Hn].
  split; [exact Hi|]. apply (Hn request1); [exact (valid_request request1 [t1] eq_refl eq_refl)|by left].
Defined.
Lemma compaction_exact_witness :
  match compact_projection_history "g" 1 "op" "why" store3 with
  | (Ok _, s') => (load_projection_snapshot "g" 0 s').1 = Raise (vpg_error VPGCode.GRAPH_HISTORY_PRUNED) /\
      (load_projection_snapshot "g" 1 s').1 = (load_projection_snapshot "g" 1 store3).1
  | (Raise _, _) => False
  end.
Proof.
  pose proof (compaction_exact (solo store3) store3 "g" 1 "op" "why" reachable3 (in_solo store3) (not_elem_of_nil _)) as E.
  assert (exists k, (compact_projection_history "g" 1 "op" "why" store3).1 = Ok k) as [k Ek] by (eexists; vm_compute; reflexivity).
  destruct (compact_projection_history "g" 1 "op" "why" store3) as [[k'|e] s']; [|discriminate Ek].
  destruct (compact_outcome "g" 1 "op" "why" store3) as [h|e]; [|destruct E]. destruct E as (_ & _ & Hl).
  split; rewrite Hl; [by rewrite decide_True|by rewrite decide_False by lia].
Defined.
Lemma recovery_restores_witness :
  (get_all_nodes "g" store4).1 = Ok [] /\
  exists r s', verify_and_recover "g" store4 = (Ok r, s') /\ exists c, get_all_nodes "g" s' = (Ok c.1, s') /\
    (load_projection_snapshot "g" 2 store4).1 = Ok (entries c.1, c.2).
Proof.
  split; [vm_compute; reflexivity|].
  assert (exists h, history (tables store4) "g" = Some h /\ h_current h = 2) as (h & Hh & Hc) by (eexists; vm_compute; split; reflexivity).
  destruct (recovery_restores (solo store4) store4 "g" h reachable4 (in_solo store4) eq_refl Hh (Forall_nil_2 _))
    as (st & mid & co & r & s' & c & E & _ & _ & El & En & _).
  eexists _, s'. split; [exact E|]. exists c. split; [exact En|]. rewrite Hc in El. by rewrite El.
Defined.
End GraphWitness.
