(* ===== verification/ProgressRuntime.v ===== *)
(** * The verified progress runtime (VerifiedProgressRuntime,
    runtimes/verified_progress/sdk.py)

    The entry points of the runtime over a graph store: a patch is validated against
    the materialized projection, the derived state of the candidate is recomputed, and
    the outcome is committed as one version. The fact providers are those the runtime
    was constructed with; operations of a patch are values of their classes, so
    [_normalize_patch_operations] changes nothing. *)

From S2P Require Import Prelude PyString Storage Graph VpgModels Agents Dag Readiness Invalidation Verification Patches PatchValidator Derivation GraphStore GraphCommit GraphRecovery.
Open Scope Z_scope.

(** The private keyword arguments of [submit_patch]. *)
Record SubmitOptions : Type := mkSubmit {
  so_allow_empty_operations : bool;
  so_allow_large_operations : bool;
  so_allow_repair_frontier : bool;
  so_invalidation_seed_task_ids : list string;
  so_commit_guard : option LeaseCommitGuard;
  so_d3_record : option jobj;
  so_read_guards : option (list ArtifactVersionBinding) }.
Definition default_options : SubmitOptions := mkSubmit false false false [] None None None.

Definition is_integrity_error (e : py_error) : bool := match e with IntegrityError _ => true | _ => false end.

Section Runtime.
Context `{ModelText, Sha256, UuidSource, JsonText, SetOrder, PairOrder}.
Context (facts_artifact : option ArtifactFactProvider) (facts_kernel : option KernelEventProvider).

Definition get_graph (graph_id : string) : SM GraphRecord :=
  rec ← get_record graph_id;
  match rec with None => vpg VPGCode.GRAPH_NOT_FOUND | Some rec => mret rec end.
Definition create_graph (owner_pid : string) (graph_id : option string) (metadata : option jobj) : SM GraphRecord :=
  id ← match graph_id with
       | Some g => if String.eqb g "" then next_uuid else mret g
       | None => next_uuid
       end;
  now ← gets wall_clock;
  GraphCommit.create_graph (mkGraph id owner_pid 0 now now false (default [] metadata)).
Definition close_graph (graph_id : string) : SM GraphRecord :=
  rec ← get_graph graph_id;
  vpg_if (gr_closed rec) VPGCode.GRAPH_CLOSED ;;
  GraphCommit.close_graph graph_id ;;
  get_graph graph_id.

(** [{n.node_id: n for n in ...}] *)
Definition node_dict (nodes : list AnyNode) : dict AnyNode := foldl (fun d n => dict_set (nid n) n d) [] nodes.
Definition snapshot_projection (graph_id : string) : SM (dict AnyNode * list VPGEdge) :=
  get_graph graph_id ;;
  nodes ← get_all_nodes graph_id;
  edges ← get_all_edges graph_id;
  mret (node_dict nodes, edges).

(** The identifiers and times the events are constructed with. *)
Definition stamp_event (ev : GraphEvent) : SM EventRecord :=
  id ← next_uuid; now ← gets wall_clock; mret (mkEventRecord id now ev []).

(** The nodes whose text is not that of the snapshot. *)
Definition changed_nodes (current nodes : dict AnyNode) : list (string * AnyNode) :=
  filter (fun kn => (model_dump_json <$> dict_get kn.1 current) <> Some (model_dump_json kn.2)) nodes.

(** What is handed to the store. *)
Definition commit_request (opts : SubmitOptions) (patch : GraphPatchProposal) (new_version now : Z) (current : dict AnyNode)
    (c : Candidate) (nodes : dict AnyNode) (evs : list EventRecord) : CommitRequest :=
  mkCommitRequest patch (patch_id patch) new_version now evs (changed_nodes current nodes) (new_edges c)
    (Some nodes.*2) (Some (cand_edges c)) (so_commit_guard opts) (so_d3_record opts) (so_read_guards opts).
Definition replayed (patch : GraphPatchProposal) (idem : string * Z) : PatchCommitResult :=
  mkCommitResult (patch_graph_id patch) idem.1 idem.2 false true.

(** From the snapshot to the request, without access to the database. *)
Definition build_request (opts : SubmitOptions) (patch : GraphPatchProposal) (current_version : Z)
    (current_nodes : dict AnyNode) (current_edges : list VPGEdge) : SM CommitRequest :=
  let graph_id := patch_graph_id patch in
  now ← gets wall_clock;
  c ← of_result (validate_patch (mkRequest patch current_nodes current_edges facts_artifact facts_kernel
                                   (so_allow_empty_operations opts) (so_allow_large_operations opts)) now);
  let new_version := current_version + 1 in
  '(nodes, derived_events) ← of_result (_recompute_derived_state graph_id new_version (patch_id patch) (cand_edges c)
      facts_artifact facts_kernel (so_allow_repair_frontier opts) (cand_nodes c) (so_invalidation_seed_task_ids opts));
  evs ← map_each stamp_event (events c ++ derived_events);
  mret (commit_request opts patch new_version now current_nodes c nodes evs).
Definition prepare_commit (opts : SubmitOptions) (patch : GraphPatchProposal) (current_version : Z) : SM CommitRequest :=
  '(current_nodes, current_edges) ← snapshot_projection (patch_graph_id patch);
  build_request opts patch current_version current_nodes current_edges.

(** A call that nothing interrupts. *)
Definition submit_patch (opts : SubmitOptions) (patch : GraphPatchProposal) : SM PatchCommitResult :=
  let graph_id := patch_graph_id patch in
  rec ← get_graph graph_id;
  vpg_if (gr_closed rec) VPGCode.GRAPH_CLOSED ;;
  idem ← idempotent_replay (composite_key patch) (so_commit_guard opts) (so_read_guards opts);
  match idem with
  | Some idem => mret (replayed patch idem)
  | None =>
      vpg_if (negb (expected_graph_version patch =? gr_current_version rec)) VPGCode.GRAPH_VERSION_CONFLICT ;;
      q ← prepare_commit opts patch (gr_current_version rec);
      try_except
        (commit_patch q ;;
         mret (mkCommitResult graph_id (patch_id patch) (q_committed_version q) true false))
        (fun e =>
           if is_integrity_error e then
             raced ← idempotent_replay (composite_key patch) (so_commit_guard opts) (so_read_guards opts);
             match raced with
             | None => raise e
             | Some idem => mret (replayed patch idem)
             end
           else raise e)
  end.

(** The accesses of a call to the database are transactions of their own, and other
    connections run between them.  [Submission] is what a call knows between two of
    them: nothing; the record of an open graph; that its key is not taken and its
    version is the expected one; that the graph still exists; the nodes; nodes, edges
    and the request built from them; the integrity error of a lost race; its outcome. *)
Inductive Submission : Type :=
  | SubStart
  | SubOpen (rec : GraphRecord)
  | SubFresh (rec : GraphRecord)
  | SubKnown (rec : GraphRecord)
  | SubNodes (rec : GraphRecord) (nodes : list AnyNode)
  | SubReady (rec : GraphRecord) (nodes : list AnyNode) (edges : list VPGEdge) (q : CommitRequest)
  | SubRaced (e : py_error)
  | SubDone (r : result PatchCommitResult).

(** One access, and what the call does until the next one. *)
Definition access {A} (m : SM A) (next : A -> Submission) (failed : py_error -> Submission) (s : GraphStore)
    : Submission * GraphStore :=
  match m s with (Ok a, s') => (next a, s') | (Raise e, s') => (failed e, s') end.
Definition fails (e : py_error) : Submission := SubDone (Raise e).
Definition replay_key (opts : SubmitOptions) (patch : GraphPatchProposal) : SM (option (string * Z)) :=
  idempotent_replay (composite_key patch) (so_commit_guard opts) (so_read_guards opts).
Definition advance (opts : SubmitOptions) (patch : GraphPatchProposal) (p : Submission) : GraphStore -> Submission * GraphStore :=
  let graph_id := patch_graph_id patch in
  match p with
  | SubStart => access (get_graph graph_id)
      (fun rec => if gr_closed rec then fails (vpg_error VPGCode.GRAPH_CLOSED) else SubOpen rec) fails
  | SubOpen rec => access (replay_key opts patch)
      (fun idem => match idem with
         | Some idem => SubDone (Ok (replayed patch idem))
         | None => if expected_graph_version patch =? gr_current_version rec then SubFresh rec
                   else fails (vpg_error VPGCode.GRAPH_VERSION_CONFLICT) end) fails
  | SubFresh rec => access (get_graph graph_id) (fun _ => SubKnown rec) fails
  | SubKnown rec => access (get_all_nodes graph_id) (SubNodes rec) fails
  | SubNodes rec nodes =>
      access (edges ← get_all_edges graph_id;
              q ← build_request opts patch (gr_current_version rec) (node_dict nodes) edges; mret (edges, q))
        (fun eq => SubReady rec nodes eq.1 eq.2) fails
  | SubReady _ _ _ q => access (commit_patch q)
      (fun _ => SubDone (Ok (mkCommitResult graph_id (patch_id patch) (q_committed_version q) true false)))
      (fun e => if is_integrity_error e then SubRaced e else fails e)
  | SubRaced e => access (replay_key opts patch)
      (fun idem => match idem with Some idem => SubDone (Ok (replayed patch idem)) | None => fails e end) fails
  | SubDone r => fun s => (SubDone r, s)
  end.

Definition refresh_derived_state (graph_id author_pid reason : string) (idempotency_key : option string)
    (expected_graph_version : option Z) (d3_record : option jobj) (seeds : list string)
    (read_guards : list ArtifactVersionBinding) : SM PatchCommitResult :=
  current ← match expected_graph_version with
            | Some v => mret v
            | None => rec ← get_graph graph_id; mret (gr_current_version rec)
            end;
  key ← match idempotency_key with
        | Some k => if String.eqb k "" then u ← next_uuid; mret ("refresh-" +:+ u) else mret k
        | None => u ← next_uuid; mret ("refresh-" +:+ u)
        end;
  id ← next_uuid;
  now ← gets wall_clock;
  submit_patch (mkSubmit true false true seeds None d3_record (Some read_guards))
    (mkPatch id graph_id current author_pid [] reason [] key now).

Definition query_ready_frontier (graph_id : string) : SM (list TaskDispatchCandidate) :=
  rec ← get_graph graph_id;
  '(nodes, edges) ← snapshot_projection graph_id;
  of_result (compute_ready_frontier graph_id (gr_current_version rec) nodes edges).
Definition inspect_node (graph_id node_id : string) : SM (option AnyNode) := get_graph graph_id ;; get_node graph_id node_id.
Definition inspect_edge (graph_id edge_id : string) : SM (option VPGEdge) := get_graph graph_id ;; get_edge graph_id edge_id.

Definition get_recent_events (graph_id : string) (through_version limit : Z) : SM (list EventRecord) :=
  get_graph graph_id ;; GraphCommit.get_recent_events graph_id through_version limit.
Definition get_d3_results (graph_id : string) (since_version : option Z) : SM (list jobj) :=
  get_graph graph_id ;; GraphCommit.get_d3_results graph_id since_version.

Definition rebuild_projection (graph_id : string) : SM (dict AnyNode * list VPGEdge * list EventRecord) :=
  rec ← validate_recovery_history graph_id;
  let version := gr_current_version rec in
  '(nodes, edges) ← load_projection_snapshot graph_id version;
  replace_projection graph_id version nodes.*2 edges ;;
  evs ← get_events graph_id (Some version);
  mret (nodes, edges, filter (fun ev => ge_graph_version (evr_event ev) = Some version) evs).
Definition recover (graph_id : string) : SM (list EventRecord * GraphRecord) := verify_and_recover graph_id.
End Runtime.
