(* ===== verification/ProgressRuntimeProps.v ===== *)
(** * Committed versions of the progress graph are sound
    (VerifiedProgressRuntime, runtimes/verified_progress/sdk.py)

    Validation, derivation and the store composed: what [submit_patch], interleaved
    access by access with other connections and calls, returns and
    leaves behind, and what every readable version of every graph satisfies. *)

From S2P Require Import Prelude PyString Storage Graph VpgModels Agents Dag Readiness ReadinessProps Invalidation Verification VerificationProps Patches PatchValidator PatchProps Derivation DerivationProps GraphStore GraphCommit GraphFacts GraphOps GraphCommitProps GraphCompaction GraphRecovery GraphWorld GraphDemo GraphStoreProps ProgressRuntime.
Open Scope Z_scope.

(** ** Edges in any order *)

Lemma depends_on_same es es' : (forall e, e ∈ es <-> e ∈ es') -> forall x y, y ∈ depends_on es x <-> y ∈ depends_on es' x.
Proof. intros He x y. rewrite !depends_on_elem. naive_solver. Qed.
Lemma cyclic_same es es' : (forall e, e ∈ es <-> e ∈ es') -> cyclic (depends_on es) -> cyclic (depends_on es').
Proof. intros He [x Hx]. exists x. apply (tc_iff (edge (depends_on es)) (edge (depends_on es')) x x); [|done]. intros a b. by apply depends_on_same. Qed.

Lemma Forall2_elem_l {A B} (P : A -> B -> Prop) l k x : Forall2 P l k -> x ∈ l -> exists y, y ∈ k /\ P x y.
Proof.
  intros Hf [i Hi]%list_elem_of_lookup. destruct (Forall2_lookup_l _ _ _ _ _ Hf Hi) as (y & Hy & HP). exists y.
  split; [by eapply list_elem_of_lookup_2|done].
Qed.
Lemma Forall2_elem_r {A B} (P : A -> B -> Prop) l k y : Forall2 P l k -> y ∈ k -> exists x, x ∈ l /\ P x y.
Proof.
  intros Hf [i Hi]%list_elem_of_lookup. destruct (Forall2_lookup_r _ _ _ _ _ Hf Hi) as (x & Hx & HP). exists x.
  split; [by eapply list_elem_of_lookup_2|done].
Qed.

(** ** Closure of goals *)

Lemma goal_is_closed_spec g nodes edges : nodes_ok nodes ->
  goal_is_closed g nodes edges = true <->
  (exists y t, y ∈ depends_on edges (node_id (goal_base g)) /\ dict_get y nodes = Some (NTask t)) /\
  (forall y t, y ∈ depends_on edges (node_id (goal_base g)) -> dict_get y nodes = Some (NTask t) ->
     validity (task_base t) = NodeValidity.VERIFIED /\ live (lifecycle (task_base t)) = true).
Proof.
  intros [Hd Hid].
  assert (forall y, y ∈ dependent_task_ids g nodes edges <-> exists t, y ∈ depends_on edges (node_id (goal_base g)) /\ dict_get y nodes = Some (NTask t)) as Hdep.
  { intros y. unfold dependent_task_ids. rewrite list_elem_of_omap. split.
    - intros (e & He & Hy). case_bool_decide as E1; [|done]. case_bool_decide as E2; [|done]. cbn in Hy.
      destruct (dict_get (target_node_id e) nodes) as [[|t| | |]|] eqn:Et; try done. injection Hy as <-. exists t.
      rewrite (Hid _ _ (dict_get_elem _ _ _ Et) : task_id_of t = target_node_id e). split; [|done]. apply depends_on_elem. by exists e.
    - intros (t & (e & He & Hty & Hs & <-)%depends_on_elem & Ht). exists e. split; [done|].
      rewrite !bool_decide_eq_true_2 by done. cbn. rewrite Ht. f_equal. exact (Hid _ _ (dict_get_elem _ _ _ Ht)). }
  unfold goal_is_closed. destruct (dependent_task_ids g nodes edges) as [|i ids] eqn:E.
  - split; [done|]. intros [(y & t & Hy & Ht) _]. exfalso. assert (y ∈ []) as Hx by (apply Hdep; eauto). by apply not_elem_of_nil in Hx.
  - rewrite forallb_forall. split.
    + intros Hall. split.
      * destruct (proj1 (Hdep i)) as (t & Hy & Ht); [left|]. eauto.
      * intros y t Hy Ht. assert (y ∈ i :: ids) as Hin by (apply Hdep; eauto).
        specialize (Hall y (proj1 (list_elem_of_In _ _) Hin)). rewrite Ht in Hall.
        apply andb_true_iff in Hall as [Hv%bool_decide_eq_true Hl]. done.
    + intros [_ Hall] y Hy%list_elem_of_In. apply Hdep in Hy as (t & Hy & Ht). rewrite Ht. destruct (Hall y t Hy Ht) as [Hv Hl].
      by rewrite bool_decide_eq_true_2.
Qed.

(** ** The snapshot a patch is validated against *)

Section Submit.
Context `{ModelTextLaws, Sha256, UuidSource, JsonText, SetOrder, PairOrder}.
Implicit Types (t : Tables) (s : GraphStore) (g : string).

Lemma edge_from_row_eq row e : _edge_from_row row = Ok e -> row = row_of_edge e.
Proof.
  unfold _edge_from_row, edge_type_of. destruct row as [i gid ty ? ? ? ? ?]. cbn.
  destruct (String.eqb_spec ty "depends_on"); [by intros [= <-]; subst|].
  destruct (String.eqb_spec ty "produces"); [by intros [= <-]; subst|].
  destruct (String.eqb_spec ty "verifies"); [by intros [= <-]; subst|done].
Qed.
Lemma all_ok_rows rows es : all_ok _edge_from_row rows = Ok es -> rows = row_of_edge <$> es.
Proof.
  revert es. induction rows as [|row rows IH]; intros es; cbn; [by intros [= <-]|].
  destruct (_edge_from_row row) as [e|] eqn:Ee; [|done]. cbn. destruct (all_ok _edge_from_row rows) as [es'|]; [|done]. cbn.
  intros [= <-]. rewrite (edge_from_row_eq row e Ee). cbn. f_equal. by apply IH.
Qed.
Lemma get_graph_run g s r s' : get_graph g s = (Ok r, s') -> s' = s /\ find_record (tables s) g = Some r.
Proof. unfold get_graph. rewrite get_record_bind. unfold find_record. destruct (tbl_find _ g _); [|done]. by intros [= -> ->]. Qed.
(** Each node with the row it was read from. *)
Definition read_from g (row : node_row) (n : AnyNode) : Prop :=
  _node_from_json (nr_payload_json row) = Ok n /\ ngraph n = g /\ nid n = nr_node_id row.
Lemma get_all_nodes_run g s ns s' : get_all_nodes g s = (Ok ns, s') ->
  s' = s /\ Forall2 (read_from g) (of_graph node_key g (graph_nodes_projection (tables s))) ns.
Proof.
  unfold get_all_nodes. rewrite select_bind. cbn [sel NODES]. generalize (of_graph node_key g (graph_nodes_projection (tables s))).
  intros rows. revert ns s'. induction rows as [|row rows IH]; intros ns s'; [intros [= <- ->]; by split|]. cbn [map_each].
  intros (n & s1 & E1 & (ys & s2 & E2 & [= <- <-])%bind_Ok_inv)%bind_Ok_inv.
  destruct (_node_from_json (nr_payload_json row)) as [m|] eqn:Em; [|done]. rewrite of_Ok_bind in E1.
  apply bind_Ok_inv in E1 as ([] & s3 & [Hb ->]%vpg_if_Ok & [= -> ->]). apply IH in E2 as [-> Hrows]. split; [done|].
  constructor; [|done]. apply orb_false_iff in Hb as [H1'%negb_false_iff%String.eqb_eq H2'%negb_false_iff%String.eqb_eq]. done.
Qed.
Lemma get_all_edges_run g s es s' : get_all_edges g s = (Ok es, s') ->
  s' = s /\ of_graph edge_key g (graph_edges_projection (tables s)) = row_of_edge <$> es.
Proof.
  unfold get_all_edges. rewrite select_bind. cbn [sel EDGES]. destruct (all_ok _edge_from_row _) as [es'|] eqn:E; [|done].
  rewrite of_Ok_bind. intros ([] & s1 & [_ ->]%vpg_if_Ok & [= -> ->])%bind_Ok_inv. split; [done|]. by apply all_ok_rows.
Qed.
Lemma dict_set_new {A} k (v : A) (d : dict A) : ~ (k ∈ d.*1) -> dict_set k v d = d ++ [(k, v)].
Proof.
  unfold dict_set. induction d as [|[k' v'] d IH]; cbn; [done|]. intros Hk. rewrite not_elem_of_cons in Hk. destruct Hk as [Hne Hk].
  rewrite decide_False by done. by rewrite IH.
Qed.
Lemma node_dict_entries ns : NoDup (ids ns) -> node_dict ns = entries ns.
Proof.
  unfold node_dict. intros Hd.
  assert (forall acc, NoDup (acc.*1 ++ ids ns) -> foldl (fun d n => dict_set (nid n) n d) acc ns = acc ++ entries ns) as Hgen; [|by apply (Hgen [])].
  clear Hd. induction ns as [|n ns IH]; intros acc Hd; cbn; [by rewrite app_nil_r|].
  assert (~ (nid n ∈ acc.*1)) as Hn by (apply NoDup_app in Hd as (_ & Hx & _); intros Hin; apply (Hx _ Hin); cbn; left).
  rewrite dict_set_new by done. rewrite IH; [by rewrite <-app_assoc|]. by rewrite fmap_app, <-app_assoc.
Qed.
Lemma of_graph_keys {R} (key : R -> string * string) g (rows : list R) :
  NoDup (key <$> rows) -> NoDup ((fun r => (key r).2) <$> of_graph key g rows).
Proof.
  intros Hd. unfold of_graph. apply NoDup_fmap_2_strong.
  - intros x y [Hx Hxr]%list_elem_of_filter [Hy Hyr]%list_elem_of_filter E. apply (NoDup_key_inj key rows); [done..|].
    destruct (key x), (key y). cbn in *. congruence.
  - apply NoDup_filter. by eapply NoDup_fmap_1.
Qed.
Lemma snapshot_run g s nodes es s' : keys_ok (tables s) -> snapshot_projection g s = (Ok (nodes, es), s') ->
  exists ns, s' = s /\ nodes = entries ns /\ NoDup (ids ns) /\ NoDup (edge_id <$> es) /\
    Forall2 (read_from g) (of_graph node_key g (graph_nodes_projection (tables s))) ns /\
    of_graph edge_key g (graph_edges_projection (tables s)) = row_of_edge <$> es.
Proof.
  intros Hk. unfold snapshot_projection. intros (r & s1 & [-> _]%get_graph_run & E)%bind_Ok_inv.
  apply bind_Ok_inv in E as (ns & s2 & [-> Hns]%get_all_nodes_run & E).
  apply bind_Ok_inv in E as (es' & s3 & [-> Hes]%get_all_edges_run & [= <- <- <-]). exists ns.
  assert (NoDup (ids ns)) as Hd.
  { pose proof (of_graph_keys node_key g _ (ko_nodes _ Hk)) as Hd.
    assert (ids ns = (fun r => (node_key r).2) <$> of_graph node_key g (graph_nodes_projection (tables s))) as ->; [|done].
    clear -Hns. induction Hns as [|row n rows ns (_ & _ & Hid) _ IH]; cbn; [done|]. by rewrite Hid, IH. }
  split_and!; [done|by apply node_dict_entries|done| |done|done].
  pose proof (of_graph_keys edge_key g _ (ko_edges _ Hk)) as He. rewrite Hes, <-list_fmap_compose in He. exact He.
Qed.

(** ** The snapshot and the durable parent *)

Lemma entries_get ns k n : NoDup (ids ns) -> dict_get k (entries ns) = Some n <-> n ∈ ns /\ nid n = k.
Proof.
  intros Hd. rewrite dict_get_Some by (unfold dict_ok; by rewrite entries_keys). rewrite list_elem_of_fmap. naive_solver.
Qed.
Lemma entries_nodes_ok ns : NoDup (ids ns) -> nodes_ok (entries ns).
Proof.
  intros Hd. split; [unfold dict_ok; by rewrite entries_keys|]. by intros k n (m & [= -> ->] & _)%list_elem_of_fmap.
Qed.
Section Baseline.
Context (t : Tables) (g : string) (c : list AnyNode * list VPGEdge) (ns : list AnyNode) (es : list VPGEdge).
Hypotheses (Hc : cache_of t g c) (Hx : Forall text_ok c.1) (Hsh : shaped g c)
  (Hns : Forall2 (read_from g) (of_graph node_key g (graph_nodes_projection t)) ns)
  (Hes : of_graph edge_key g (graph_edges_projection t) = row_of_edge <$> es)
  (Hd : NoDup (ids ns)) (Hde : NoDup (edge_id <$> es)) (Hv : Forall (fun n => node_valid n = true) ns).

(** The parent's nodes are in the snapshot. *)
Lemma parent_in_snapshot n : n ∈ c.1 -> n ∈ ns.
Proof.
  intros Hn. destruct (cf_node _ _ _ Hc n Hn) as (row & Hrow & Hid & Hm).
  destruct (Forall2_elem_l _ _ _ _ Hns Hrow) as (m & Hm' & Hread & _ & _).
  assert (m = n) as ->; [|done]. pose proof (proj1 (Forall_forall _ _) Hx n Hn) as Htn. unfold text_ok in Htn.
  unfold _materialized_node_matches in Hm. apply orb_true_iff in Hm as [Hraw%String.eqb_eq|Hm]; [rewrite Hraw in Hread; congruence|].
  rewrite Hread in Hm. apply String.eqb_eq in Hm.
  pose proof (node_text_ok m (proj1 (Forall_forall _ _) Hv m Hm')) as Htm. unfold text_ok in Htm. rewrite Hm in Htm. congruence.
Qed.
(** The edges are the parent's. *)
Lemma same_edges e : e ∈ es <-> e ∈ c.2.
Proof.
  split.
  - intros He. assert (row_of_edge e ∈ of_graph edge_key g (graph_edges_projection t)) as Hrow by (rewrite Hes; by apply list_elem_of_fmap_2).
    apply (cf_edge_extra _ _ _ Hc) in Hrow as (e' & Hid & He')%list_elem_of_fmap. pose proof (cf_edge _ _ _ Hc e' He') as Hrow'.
    rewrite Hes in Hrow'. apply list_elem_of_fmap in Hrow' as (e2 & ->%row_of_edge_inj & He2). cbn in Hid.
    by rewrite (NoDup_key_inj edge_id es e e2 Hde He He2 Hid).
  - intros He. pose proof (cf_edge _ _ _ Hc e He) as Hrow. rewrite Hes in Hrow.
    by apply list_elem_of_fmap in Hrow as (e2 & ->%row_of_edge_inj & He2).
Qed.
Lemma snapshot_graph_ok : graph_ok g (entries c.1) c.2 -> graph_ok g (entries ns) es.
Proof.
  intros [G1 G2 G3 G4 G5 G6]. split.
  - by apply entries_nodes_ok.
  - apply Forall_forall. intros kn (n & -> & Hn)%list_elem_of_fmap. cbn.
    by destruct (Forall2_elem_r _ _ _ _ Hns Hn) as (row & _ & _ & Hg & _).
  - done.
  - apply Forall_forall. intros e He%same_edges. exact (proj1 (Forall_forall _ _) G4 e He).
  - apply Forall_forall. intros e He%same_edges. destruct (proj1 (Forall_forall _ _) G5 e He) as (k1 & k2 & K1 & K2 & J).
    assert (forall i k, kind_at (entries c.1) i = Some k -> kind_at (entries ns) i = Some k) as Hkind.
    { intros i k. unfold kind_at. destruct (dict_get i (entries c.1)) as [n|] eqn:En; [|done]. intros [= <-].
      apply entries_get in En as [Hn <-]; [|apply Hsh]. by rewrite (proj2 (entries_get ns (nid n) n Hd) (conj (parent_in_snapshot n Hn) eq_refl)). }
    exists k1, k2. auto.
  - intros Hcy. apply G6. eapply cyclic_same; [|exact Hcy]. apply same_edges.
Qed.
End Baseline.

(** ** What a version of a graph is to satisfy *)

(** Well typed, VERIFIED tasks rest on VERIFIED tasks, and goals are closed exactly when
    they should be. *)
Record version_sound g (c : list AnyNode * list VPGEdge) : Prop := {
  vs_graph : graph_ok g (entries c.1) c.2;
  vs_settled : settled c.2 (entries c.1);
  vs_goals k : goal_right c.2 (entries c.1) k }.

Lemma empty_sound g : version_sound g ([], []).
Proof.
  split; cbn.
  - split; [apply (entries_nodes_ok []), NoDup_nil_2|apply Forall_nil_2|apply NoDup_nil_2|apply Forall_nil_2|apply Forall_nil_2|].
    intros [x Hx]. assert (forall a b, ~ edge (depends_on []) a b) as Hno by (intros a b Hb; by apply not_elem_of_nil in Hb).
    destruct Hx; by eapply Hno.
  - done.
  - done.
Qed.
Lemma evolves_kind nodes nodes' i : evolves nodes nodes' -> kind_at nodes' i = kind_at nodes i.
Proof.
  intros [_ He]. specialize (He i). unfold kind_at. destruct (dict_get i nodes) as [[]|], (dict_get i nodes') as [[]|]; cbn in *; try done; congruence.
Qed.

Lemma nodes_ok_ids nodes : nodes_ok nodes -> ids nodes.*2 = nodes.*1.
Proof. intros [_ Hid]. rewrite <-list_fmap_compose. apply list_fmap_ext. intros i [k n] Hn%list_elem_of_lookup_2. by apply Hid. Qed.
Section Durable.
Context (g : string) (nodes : dict AnyNode) (es : list VPGEdge) (dn : list AnyNode).
Hypotheses (Hok : nodes_ok nodes) (Htyped : Forall (edge_typed nodes) es) (Hac : ~ cyclic (depends_on es))
  (Hset : settled es nodes) (Hgoal : forall k, goal_right es nodes k) (Hsh : shaped g (dn, es))
  (Hsub : forall n, n ∈ dn -> n ∈ nodes.*2) (Hout : forall n, n ∈ nodes.*2 -> n ∉ dn -> is_evidence_node n = true).

Lemma durable_get k n : dict_get k (entries (sort_on (fun n => nid n) dn)) = Some n -> dict_get k nodes = Some n.
Proof.
  intros [Hn <-]%entries_get; [|rewrite sort_on_perm; apply Hsh]. rewrite elem_of_sort_on in Hn.
  apply Hsub, list_elem_of_fmap in Hn as ([k n'] & -> & Hn). cbn. apply dict_get_Some; [apply Hok|].
  by rewrite (proj2 Hok k n' Hn).
Qed.
Lemma durable_keeps k n : dict_get k nodes = Some n -> is_evidence_node n = false -> dict_get k (entries (sort_on (fun n => nid n) dn)) = Some n.
Proof.
  intros Hn He. apply dict_get_elem in Hn. apply entries_get; [rewrite sort_on_perm; apply Hsh|]. split; [|by apply Hok].
  rewrite elem_of_sort_on.
  assert (n ∈ nodes.*2) as Hin2 by (apply list_elem_of_fmap; by exists (k, n)).
  destruct (key_in_or_out (fun n => nid n) dn nodes.*2 n) as [Hin|Hno]; [|done|done|done|].
  - rewrite nodes_ok_ids by done. apply Hok.
  - by rewrite (Hout n Hin2 Hno) in He.
Qed.
Lemma durable_task k tk : dict_get k (entries (sort_on (fun n => nid n) dn)) = Some (NTask tk) <-> dict_get k nodes = Some (NTask tk).
Proof. split; [apply durable_get|]. intros Hk. by apply durable_keeps. Qed.
Lemma durable_validity k : task_validity (entries (sort_on (fun n => nid n) dn)) k = task_validity nodes k.
Proof.
  unfold task_validity. destruct (dict_get k nodes) as [n|] eqn:En.
  - destruct n as [x|x|x|x|x]; [by rewrite (durable_keeps k (NGoal x))|by rewrite (durable_keeps k (NTask x))|
      by rewrite (durable_keeps k (NArtifactRef x))|by rewrite (durable_keeps k (NVerification x))|].
    destruct (dict_get k (entries _)) as [m|] eqn:Em; [|done]. apply durable_get in Em. rewrite En in Em. by injection Em as <-.
  - destruct (dict_get k (entries _)) as [m|] eqn:Em; [|done]. apply durable_get in Em. congruence.
Qed.
Lemma sorted_edges e : e ∈ sort_on edge_id es <-> e ∈ es.
Proof. apply elem_of_sort_on. Qed.
Lemma durable_sound : version_sound g (sort_on (fun n => nid n) dn, sort_on edge_id es).
Proof.
  pose proof (depends_on_same _ _ sorted_edges) as Hdep. destruct Hsh as [S1 S2 S3 S4 S5]. cbn [fst snd] in *. split; cbn [fst snd].
  - split.
    + apply entries_nodes_ok. by rewrite sort_on_perm.
    + apply Forall_forall. intros kn (n & -> & Hn)%list_elem_of_fmap. rewrite elem_of_sort_on in Hn. exact (proj1 (Forall_forall _ _) S3 n Hn).
    + by rewrite sort_on_perm.
    + by rewrite sort_on_perm.
    + apply Forall_forall. intros e He%sorted_edges. destruct (proj1 (Forall_forall _ _) Htyped e He) as (k1 & k2 & K1 & K2 & J).
      destruct (proj1 (dangling_spec _ _) S5 e He) as [Hs Ht].
      assert (forall i k, i ∈ ids dn -> kind_at nodes i = Some k -> kind_at (entries (sort_on (fun n => nid n) dn)) i = Some k) as Hkind.
      { intros i k (n & -> & Hn)%list_elem_of_fmap. unfold kind_at.
        assert (dict_get (nid n) (entries (sort_on (fun n => nid n) dn)) = Some n) as En.
        { apply entries_get; [by rewrite sort_on_perm|]. split; [by apply elem_of_sort_on|done]. }
        by rewrite En, (durable_get _ _ En). }
      exists k1, k2. auto.
    + intros Hcy. apply Hac. eapply cyclic_same; [|exact Hcy]. apply sorted_edges.
  - intros k y v Hk Hy%Hdep. rewrite durable_validity in *. by apply (Hset k y v).
  - intros k gl Hk. apply durable_get in Hk. rewrite (Hgoal k gl Hk).
    rewrite !goal_is_closed_spec; [|by apply entries_nodes_ok; rewrite sort_on_perm|done].
    split; intros [(y & t & Hy & Ht) Hall]; (split; [exists y, t; split; [by apply Hdep|by apply durable_task]|]);
      intros y' t' Hy' Ht'; apply (Hall y'); [by apply Hdep|by apply durable_task|by apply Hdep|by apply durable_task].
Qed.
End Durable.

(** ** The steps of a submission *)

(** Nothing but identifiers was drawn. *)
Definition quiet s s' : Prop :=
  s' = mkStore (tables s) (total_changes s) (data_version s) (_projection_cache s) (_read_only s) (wall_clock s) (uuids_drawn s').
#[local] Instance quiet_preorder : PreOrder quiet.
Proof. split; [by intros []|]. unfold quiet. intros x y z E1 E2. rewrite E1 in E2. exact E2. Qed.
Lemma quiet_store_ok s s' : quiet s s' -> store_ok s -> store_ok s'.
Proof. intros -> [Ht [C1 C2 C3]]. by split. Qed.
Lemma quiet_tables s s' : quiet s s' -> tables s' = tables s.
Proof. by intros ->. Qed.
Lemma reads_quiet {A} (m : SM A) : reads m -> within quiet m.
Proof. intros Hm s. rewrite Hm. reflexivity. Qed.
Lemma reads_map_each {A B} (f : A -> SM B) l : (forall x, reads (f x)) -> reads (map_each f l).
Proof.
  intros Hf. induction l as [|x l IH]; cbn; [done|]. apply reads_bind; [done|]. intros y. by apply reads_bind.
Qed.
Lemma snapshot_reads g : reads (snapshot_projection g).
Proof.
  unfold snapshot_projection, get_graph, get_all_nodes, get_all_edges, get_record. apply reads_bind; [solve_reads|]. intros _.
  apply reads_bind; [|intros ns; solve_reads]. apply reads_bind; [done|]. intros rows. apply reads_map_each. intros x. solve_reads.
Qed.
Lemma stamp_quiet ev : within quiet (stamp_event ev).
Proof. by intros []. Qed.
Section Prepare.
Context (fa : option ArtifactFactProvider) (fk : option KernelEventProvider) (opts : SubmitOptions) (patch : GraphPatchProposal).
Abbreviation g := (patch_graph_id patch).
Definition submitted (nodes : dict AnyNode) (es : list VPGEdge) : PatchValidationRequest :=
  mkRequest patch nodes es fa fk (so_allow_empty_operations opts) (so_allow_large_operations opts).
Abbreviation derive cur c := (_recompute_derived_state g (cur + 1) (patch_id patch) (cand_edges c) fa fk
  (so_allow_repair_frontier opts) (cand_nodes c) (so_invalidation_seed_task_ids opts)).

(** The request [q] is what validating the patch against the nodes and edges read and
    deriving the state of the candidate [c], which gives [nodes], ask the store for. *)
Definition built (rec : GraphRecord) (ns : list AnyNode) (es : list VPGEdge) (q : CommitRequest) (c : Candidate) (nodes : dict AnyNode) : Prop :=
  expected_graph_version patch = gr_current_version rec /\
  exists now derived evs, validate_patch (submitted (node_dict ns) es) now = Ok c /\
    derive (gr_current_version rec) c = Ok (nodes, derived) /\ evr_event <$> evs = events c ++ derived /\
    q = commit_request opts patch (gr_current_version rec + 1) now (node_dict ns) c nodes evs.

Lemma stamps_run l s evs s' : map_each stamp_event l s = (Ok evs, s') -> evr_event <$> evs = l.
Proof.
  revert s evs s'. induction l as [|ev l IH]; intros s evs s'; cbn [map_each]; [by intros [= <- _]|].
  intros (r & s1 & E1 & (rs & s2 & E2 & [= <- _])%bind_Ok_inv)%bind_Ok_inv. cbn. f_equal; [|by eapply IH].
  unfold stamp_event in E1. apply bind_Ok_inv in E1 as (i & s3 & _ & E1). rewrite gets_bind in E1. by injection E1 as <- _.
Qed.
Lemma build_quiet cur nodes es : within quiet (build_request fa fk opts patch cur nodes es).
Proof. unfold build_request. repeat first [within_step | apply stamp_quiet]. Qed.
Lemma build_run rec ns es s q s' : expected_graph_version patch = gr_current_version rec ->
  build_request fa fk opts patch (gr_current_version rec) (node_dict ns) es s = (Ok q, s') -> exists c nodes, built rec ns es q c nodes.
Proof.
  intros Hx E. unfold build_request in E. rewrite gets_bind in E. fold (submitted (node_dict ns) es) in E.
  destruct (validate_patch (submitted (node_dict ns) es) (wall_clock s)) as [c|] eqn:Ev; [|done]. rewrite of_Ok_bind in E. cbv zeta in E.
  destruct (_recompute_derived_state _ _ _ _ _ _ _ _ _) as [[nodes derived]|] eqn:Ed; [|done]. rewrite of_Ok_bind in E.
  apply bind_Ok_inv in E as (evs & s2 & Es%stamps_run & [= <- <-]). exists c, nodes. split; [done|]. by exists (wall_clock s), derived, evs.
Qed.

(** ** A call and what runs between its accesses *)

(** What a call knows is consistent. *)
Definition phase_ok (p : Submission) : Prop :=
  match p with
  | SubFresh rec | SubKnown rec | SubNodes rec _ => expected_graph_version patch = gr_current_version rec
  | SubReady rec ns es q => exists c nodes, built rec ns es q c nodes
  | _ => True
  end.
(** What is asked of a submission: attached artifacts take no id of another kind of node,
    and the nodes read and derived are values of their models. *)
Definition submittable (p : Submission) : Prop :=
  match p with
  | SubReady rec ns es q => attach_safe (submitted (node_dict ns) es) (operations patch) /\
      Forall (fun n => node_valid n = true) ns /\
      forall pn, q_projection_nodes q = Some pn -> Forall (fun n => node_valid n = true) pn
  | _ => True
  end.
(** When it commits and no version was committed since it read the record, the
    materialized rows of the graph are those it read. *)
Definition undisturbed (p : Submission) s : Prop :=
  match p with
  | SubReady rec ns es q => forall r, find_record (tables s) g = Some r -> gr_current_version r = gr_current_version rec ->
      (get_all_nodes g s).1 = Ok ns /\ (get_all_edges g s).1 = Ok es
  | _ => True
  end.

(** A result that repeats a committed patch. *)
Definition repeats t (r : PatchCommitResult) : Prop :=
  patch_applied r = false /\ is_replay r = true /\ cr_graph_id r = g /\
  exists p, p ∈ graph_patches t /\ id_key (idem_of p) = composite_key patch /\ cr_patch_id r = pt_patch_id p /\
    committed_graph_version r = pt_committed_version p.
Lemma replay_run cg rg s idem s' : tables_ok (tables s) -> idempotent_replay (composite_key patch) cg rg s = (Ok (Some idem), s') ->
  repeats (tables s) (replayed patch idem).
Proof.
  intros Ht. unfold idempotent_replay. intros ([] & s1 & E1 & E%tx_Ok)%bind_Ok_inv.
  assert (s1 = s) as -> by exact (reads_Ok _ _ _ _ writable_reads E1).
  rewrite select_bind in E. cbn [sel IDEMPOTENCY] in E. destruct (tbl_find id_key (composite_key patch) _) as [row|] eqn:Er; [|done].
  apply bind_Ok_inv in E as ([] & s2 & _ & [= <- _]). apply tbl_find_Some in Er as [Hk Hin].
  rewrite (to_idempotency _ Ht) in Hin. apply list_elem_of_fmap in Hin as (p & -> & Hp). split_and!; try done. by exists p.
Qed.
(** A result that made a new version: the graph stood open at the expected version and
    with the guards held; its rows were the snapshot that was validated; and the
    version made is the edges of the candidate and its derived nodes, less evidence the
    patch does not attach. *)
Record applies s s' (p : Submission) (r : PatchCommitResult) (c : Candidate) (nodes : dict AnyNode) (h : History) (dn : list AnyNode) : Prop := {
  ap_flags : patch_applied r = true /\ is_replay r = false /\ cr_graph_id r = g /\ cr_patch_id r = patch_id patch;
  ap_version : committed_graph_version r = h_current h + 1 /\ expected_graph_version patch = h_current h /\ h_closed h = false;
  ap_built : exists rec ns es q, p = SubReady rec ns es q /\ built rec ns es q c nodes /\
    (snapshot_projection g s).1 = Ok (node_dict ns, es);
  ap_nodes : (forall n, n ∈ dn -> n ∈ nodes.*2) /\
    (forall n, n ∈ nodes.*2 -> n ∉ dn -> is_evidence_node n = true /\ nid n ∉ attached_evidence_ids patch);
  ap_guards : (forall guard, so_commit_guard opts = Some guard -> lease_held guard s) /\
    (forall guards guard, so_read_guards opts = Some guards -> guard ∈ guards -> read_current guard s);
  ap_history : history (tables s) g = Some h;
  ap_becomes : becomes g (h_append h (sort_on (fun n => nid n) dn, sort_on edge_id (cand_edges c))) (tables s) (tables s');
  ap_sound b : h_at h (h_current h) = Some b -> graph_ok g (entries b.1) b.2 ->
    version_sound g (sort_on (fun n => nid n) dn, sort_on edge_id (cand_edges c)) }.

(** The snapshot is the rows of the version that is extended. *)
Lemma reread s ns es : keys_ok (tables s) -> is_Some (find_record (tables s) g) ->
  (get_all_nodes g s).1 = Ok ns -> (get_all_edges g s).1 = Ok es ->
  (snapshot_projection g s).1 = Ok (node_dict ns, es) /\ node_dict ns = entries ns /\ NoDup (ids ns) /\ NoDup (edge_id <$> es) /\
  Forall2 (read_from g) (of_graph node_key g (graph_nodes_projection (tables s))) ns /\
  of_graph edge_key g (graph_edges_projection (tables s)) = row_of_edge <$> es.
Proof.
  intros Hk [r Hr] Hn He.
  assert (snapshot_projection g s = (Ok (node_dict ns, es), s)) as Es.
  { unfold snapshot_projection. assert (get_graph g s = (Ok r, s)) as Eg.
    { unfold get_graph. rewrite get_record_bind. unfold find_record in Hr. by rewrite Hr. }
    rewrite (bind_Ok _ _ _ _ _ Eg). destruct (get_all_nodes g s) as [rn s1] eqn:En. cbn in Hn. subst rn.
    destruct (get_all_nodes_run _ _ _ _ En) as [-> _]. rewrite (bind_Ok _ _ _ _ _ En).
    destruct (get_all_edges g s) as [re s1] eqn:Ee. cbn in He. subst re. destruct (get_all_edges_run _ _ _ _ Ee) as [-> _].
    by rewrite (bind_Ok _ _ _ _ _ Ee). }
  destruct (snapshot_run g s _ _ _ Hk Es) as (ns' & _ & E & Hd & Hde & Hns & Hes). rewrite Es. split; [done|].
  assert (node_dict ns = entries ns') as E2 by exact E.
  destruct (get_all_nodes g s) as [rn s1] eqn:En. cbn in Hn. subst rn. destruct (get_all_nodes_run _ _ _ _ En) as [_ Hf].
  assert (ns = ns') as ->.
  { clear -Hns Hf. revert ns Hf. induction Hns as [|row n rows l (Hj & _) _ IH]; intros ns Hf; inversion Hf as [|? ? ? ? (Hj' & _)]; subst; [done|].
    f_equal; [congruence|by apply IH]. }
  by split_and!.
Qed.
Lemma commit_applies s rec ns es q s' : let p := SubReady rec ns es q in
  store_ok s -> phase_ok p -> submittable p -> undisturbed p s -> commit_patch q s = (Ok tt, s') ->
  store_ok s' /\ exists c nodes h dn, applies s s' p (mkCommitResult g (patch_id patch) (q_committed_version q) true false) c nodes h dn.
Proof.
  intros p Hs (c & nodes & Hb) (Hsafe & Hv0 & Hv) Hun Ec. pose proof Hs as [Ht _].
  pose proof (commit_patch_run q s Hs Hv) as E. rewrite Ec in E. pose proof Hb as (Hx & now & derived & evs & Ev & Ed & _ & Eq).
  destruct E as (Hs' & _ & h & dn & es' & Hg & Hh & Hm & Hbec & _). split; [done|]. exists c, nodes, h, dn.
  assert (q_patch q = patch /\ q_commit_guard q = so_commit_guard opts /\ q_read_guards q = so_read_guards opts /\
    q_projection_nodes q = Some nodes.*2 /\ q_projection_edges q = Some (cand_edges c)) as (Eqp & Eqc & Eqr & Eqn & Eqe) by by rewrite Eq.
  rewrite Eqp in Hh, Hbec. pose proof (md_edges _ _ _ _ _ Hm) as Hme. rewrite Eqe in Hme. injection Hme as <-.
  destruct (md_nodes _ _ _ _ _ Hm) as (pn & Hpn & Hin & Hout). rewrite Eqn in Hpn. injection Hpn as <-. rewrite Eqp in Hout.
  destruct (guards_sound _ _ _ Hg) as [Hl Hread]. rewrite Eqc in Hl. rewrite Eqr in Hread.
  pose proof (md_expected _ _ _ _ _ Hm) as Hexp. rewrite Eqp in Hexp.
  destruct (history_Some _ _ _ Ht Hh) as (r & ret & Hr & Hret & Hi & Eh). pose proof (gi_floor _ _ _ _ Hi) as Hf.
  assert (h_current h = gr_current_version r) as Hcur by (rewrite Eh; by rewrite h_current_content by lia).
  destruct (Hun r Hr ltac:(lia)) as [Hn He].
  destruct (reread s ns es (to_keys _ Ht) (mk_is_Some _ _ Hr) Hn He) as (Esnap & Edict & Hd & Hde & Hns & Hes).
  split; [done|split_and!; [exact (md_version _ _ _ _ _ Hm)|done|exact (md_open _ _ _ _ _ Hm)]|by exists rec, ns, es, q| |done|done|done|].
  - split; [done|]. intros n Hn1 Hn2. destruct (Hout n Hn1 Hn2) as (? & _ & ? & _). done.
  - intros b Hat Hok. assert (b = content (tables s) g (h_current h)) as Eb.
    { rewrite Eh, h_at_content, decide_True in Hat by (rewrite <-?Eh; lia). rewrite Eh. congruence. }
    pose proof (content_shaped _ g (h_current h) r ret Ht Hi ltac:(lia)) as Hsh. destruct (latest_node_rows _ g (h_current h) Ht) as [_ Htx].
    rewrite <-Eb in Hsh, Htx. pose proof (md_cache _ _ _ _ _ Hm b Hat) as Hcache. rewrite Eqp in Hcache.
    pose proof (snapshot_graph_ok (tables s) g b ns es Hcache Htx Hsh Hns Hes Hd Hde Hv0 Hok) as Hbase. rewrite <-Edict in Hbase.
    pose proof (validated_graph_ok (submitted (node_dict ns) es) _ c Hbase Hsafe Ev) as [G1 G2 G3 G4 G5 G6]. cbn [req_patch submitted] in *.
    destruct (recompute_Ok _ _ _ _ _ _ _ _ _ _ _ G1 Ed) as (Hevo & Hset & _ & Hgoal).
    pose proof (md_shaped _ _ _ _ _ Hm) as Hmsh. rewrite Eqp in Hmsh.
    apply (durable_sound g nodes); [by eapply evolves_nodes_ok| |done|done|done|exact Hmsh|done|by intros n Hn1 Hn2; apply Hout].
    apply Forall_forall. intros e Hin'. destruct (proj1 (Forall_forall _ _) G5 e Hin') as (k1 & k2 & K1 & K2 & J).
    exists k1, k2. by rewrite !(evolves_kind _ _ _ Hevo).
Qed.

(** One access of a call. *)
Definition outcome (p p' : Submission) s s' : Prop :=
  match p' with
  | SubDone (Ok r) => (tables s' = tables s /\ repeats (tables s) r) \/ exists c nodes h dn, applies s s' p r c nodes h dn
  | _ => tables s' = tables s
  end.
Lemma get_graph_reads : reads (get_graph g).
Proof. unfold get_graph, get_record. solve_reads. Qed.
Lemma get_all_nodes_reads : reads (get_all_nodes g).
Proof. unfold get_all_nodes. apply reads_bind; [done|]. intros rows. apply reads_map_each. intros x. solve_reads. Qed.
Lemma get_all_edges_reads : reads (get_all_edges g).
Proof. unfold get_all_edges. solve_reads. Qed.
(** An access that only draws identifiers. *)
Lemma access_quiet {A} (m : SM A) next failed s : within quiet m -> store_ok s ->
  store_ok (access m next failed s).2 /\ tables (access m next failed s).2 = tables s.
Proof.
  intros Hm Hs. unfold access. specialize (Hm s). destruct (m s) as [[a|e] s']; cbn in *; (split; [by eapply quiet_store_ok|by apply quiet_tables]).
Qed.
Lemma replay_access next failed s : store_ok s ->
  let x := access (replay_key opts patch) next failed s in
  x.2 = s /\ ((exists e, x.1 = failed e) \/ x.1 = next None \/ exists idem, x.1 = next (Some idem) /\ repeats (tables s) (replayed patch idem)).
Proof.
  intros [Ht _]. cbv zeta. unfold access, replay_key. pose proof (replay_reads (composite_key patch) (so_commit_guard opts) (so_read_guards opts) s) as Hrs.
  destruct (idempotent_replay _ _ _ s) as [[[idem|]|e] s'] eqn:E; cbn in *; subst s'; split; [done| |done|auto|done|eauto].
  right. right. exists idem. split; [done|]. by eapply replay_run.
Qed.
Lemma advance_run p s : store_ok s -> phase_ok p -> submittable p -> undisturbed p s -> (forall r, p <> SubDone r) ->
  let x := advance fa fk opts patch p s in store_ok x.2 /\ phase_ok x.1 /\ outcome p x.1 s x.2.
Proof.
  intros Hs Hp Hsub Hun Hnd. destruct p as [|rec|rec|rec|rec ns|rec ns es q|e|r]; cbn [advance]; cbv zeta.
  - pose proof (access_quiet (get_graph g) (fun rec => if gr_closed rec then fails (vpg_error VPGCode.GRAPH_CLOSED) else SubOpen rec) fails s
      (reads_quiet _ get_graph_reads) Hs) as [Hs' Ht]. split; [done|]. revert Ht. unfold access. destruct (get_graph g s) as [[rec|e] s']; cbn; [|done].
    by destruct (gr_closed rec).
  - destruct (replay_access (fun idem => match idem with
         | Some idem => SubDone (Ok (replayed patch idem))
         | None => if expected_graph_version patch =? gr_current_version rec then SubFresh rec
                   else fails (vpg_error VPGCode.GRAPH_VERSION_CONFLICT) end) fails s Hs) as [-> [[e ->]|[->|(idem & -> & Hr)]]]; [done| |by split_and!; [| |left]].
    by destruct (Z.eqb_spec (expected_graph_version patch) (gr_current_version rec)).
  - pose proof (access_quiet (get_graph g) (fun _ => SubKnown rec) fails s (reads_quiet _ get_graph_reads) Hs) as [Hs' Ht].
    split; [done|]. revert Ht. unfold access. by destruct (get_graph g s) as [[r|e] s'].
  - pose proof (access_quiet (get_all_nodes g) (SubNodes rec) fails s (reads_quiet _ get_all_nodes_reads) Hs) as [Hs' Ht].
    split; [done|]. revert Ht. unfold access. by destruct (get_all_nodes g s) as [[r|e] s'].
  - set (m := (edges ← get_all_edges g; _)).
    assert (within quiet m) as Hm.
    { apply (within_bind quiet); [apply reads_quiet, get_all_edges_reads|]. intros es. apply (within_bind quiet); [apply build_quiet|]. intros q. by within_step. }
    pose proof (access_quiet m (fun eq => SubReady rec ns eq.1 eq.2) fails s Hm Hs) as [Hs' Ht]. split; [done|]. revert Ht.
    unfold access. destruct (m s) as [[[es q]|e] s'] eqn:Em; cbn; [|done]. intros Ht. split; [|done].
    apply bind_Ok_inv in Em as (es1 & s1 & _ & (q1 & s2 & Eq & [= <- <- _])%bind_Ok_inv). by eapply build_run.
  - unfold access. destruct (commit_patch q s) as [[[]|e] s'] eqn:Ec.
    + destruct (commit_applies s rec ns es q s' Hs Hp Hsub Hun Ec) as [Hs' Ha]. split_and!; [done|done|by right].
    + pose proof (commit_patch_run q s Hs (proj2 (proj2 Hsub))) as Hr. rewrite Ec in Hr. destruct Hr as [Hs' Ht]. split; [done|].
      cbn. by destruct (is_integrity_error e).
  - destruct (replay_access (fun idem => match idem with Some idem => SubDone (Ok (replayed patch idem)) | None => fails e end) fails s Hs)
      as [-> [[e' ->]|[->|(idem & -> & Hr)]]]; [done|done|by split_and!; [| |left]].
  - by destruct (Hnd r).
Qed.

(** The accesses of a call in a row, nothing between them. *)
Fixpoint proceed (n : nat) (p : Submission) s : Submission * GraphStore :=
  match n with O => (p, s) | S n => let x := advance fa fk opts patch p s in proceed n x.1 x.2 end.
Lemma proceed_done n r s : proceed n (SubDone r) s = (SubDone r, s).
Proof. by induction n. Qed.
Lemma proceed_S n p s p' s' : advance fa fk opts patch p s = (p', s') -> proceed (S n) p s = proceed n p' s'.
Proof. intros E. cbn [proceed]. by rewrite E. Qed.
Lemma ret_bind_l {A B} (a : A) (k : A -> SM B) s : (mret a ≫= k) s = k a s.
Proof. done. Qed.
(** An access on both sides. *)
Ltac steps E := rewrite ?bind_assoc; erewrite proceed_S by (cbn [advance]; unfold access, replay_key; rewrite E; reflexivity);
  first [rewrite (bind_Ok _ _ _ _ _ E) | rewrite (bind_Raise _ _ _ _ _ E)]; unfold fails; rewrite ?proceed_done.
Lemma commit_proceeds n rec ns es q s : proceed (S (S n)) (SubReady rec ns es q) s =
  let x := try_except (commit_patch q ;; mret (mkCommitResult g (patch_id patch) (q_committed_version q) true false))
    (fun e => if is_integrity_error e then
       raced ← idempotent_replay (composite_key patch) (so_commit_guard opts) (so_read_guards opts);
       match raced with None => raise e | Some idem => mret (replayed patch idem) end else raise e) s in (SubDone x.1, x.2).
Proof.
  cbv zeta. unfold try_except. destruct (commit_patch q s) as [[[]|e] s'] eqn:Ec; steps Ec; [done|].
  destruct (is_integrity_error e); [|by rewrite proceed_done].
  destruct (idempotent_replay (composite_key patch) (so_commit_guard opts) (so_read_guards opts) s') as [[[idem|]|e'] s2] eqn:Ei; steps Ei; by rewrite ?proceed_done.
Qed.
(** A call that nothing interrupts makes the accesses in this order. *)
Lemma submit_patch_proceeds s : proceed 7 SubStart s = (SubDone (submit_patch fa fk opts patch s).1, (submit_patch fa fk opts patch s).2).
Proof.
  unfold submit_patch. cbv zeta. destruct (get_graph g s) as [[rec|e] s0] eqn:Eg; steps Eg; [|done].
  pose proof Eg as [-> _]%get_graph_run. destruct (gr_closed rec); [by rewrite ?proceed_done|]. rewrite vpg_if_bind.
  pose proof (replay_reads (composite_key patch) (so_commit_guard opts) (so_read_guards opts) s) as Hrs.
  destruct (idempotent_replay (composite_key patch) (so_commit_guard opts) (so_read_guards opts) s) as [[[idem|]|e] s0] eqn:Ei; cbn in Hrs; subst s0; steps Ei; [by rewrite ?proceed_done| |done].
  destruct (Z.eqb_spec (expected_graph_version patch) (gr_current_version rec)) as [Hx|]; [|by rewrite ?proceed_done].
  cbn [negb]. rewrite vpg_if_bind. unfold prepare_commit, snapshot_projection. steps Eg.
  destruct (get_all_nodes g s) as [[ns|e] s0] eqn:En; steps En; [|done].
  destruct (get_all_edges g s0) as [[es|e] s1] eqn:Ee.
  2:{ rewrite ?bind_assoc, (bind_Raise _ _ _ _ _ Ee). erewrite proceed_S; [by rewrite ?proceed_done|]. cbn [advance]. unfold access. by rewrite (bind_Raise _ _ _ _ _ Ee). }
  rewrite ?bind_assoc, (bind_Ok _ _ _ _ _ Ee).
  destruct (build_request fa fk opts patch (gr_current_version rec) (node_dict ns) es s1) as [[q|e] s2] eqn:Eq.
  - erewrite proceed_S by (cbn [advance]; unfold access; by rewrite (bind_Ok _ _ _ _ _ Ee), (bind_Ok _ _ _ _ _ Eq)).
    rewrite ret_bind_l, (bind_Ok _ _ _ _ _ Eq). apply (commit_proceeds 0).
  - erewrite proceed_S by (cbn [advance]; unfold access; by rewrite (bind_Ok _ _ _ _ _ Ee), (bind_Raise _ _ _ _ _ Eq)).
    by rewrite ret_bind_l, (bind_Raise _ _ _ _ _ Eq).
Qed.
End Prepare.

(** ** Databases the runtime reaches *)

(** A call of [submit_patch] on a connection. *)
Record Call : Type := mkCall {
  c_conn : nat;
  c_artifacts : option ArtifactFactProvider;
  c_kernel : option KernelEventProvider;
  c_opts : SubmitOptions;
  c_patch : GraphPatchProposal;
  c_phase : Submission }.
Definition with_phase (p : Submission) (c : Call) : Call :=
  mkCall (c_conn c) (c_artifacts c) (c_kernel c) (c_opts c) (c_patch c) p.
(** Stores on one database, and the calls under way. *)
Record Sys : Type := mkSys { world : World; calls : list Call }.
Definition empty_sys : Sys := mkSys empty_world [].
Definition accesses (c : Call) : GraphStore -> Submission * GraphStore :=
  advance (c_artifacts c) (c_kernel c) (c_opts c) (c_patch c) (c_phase c).
Definition call_ok (c : Call) : Prop := phase_ok (c_artifacts c) (c_kernel c) (c_opts c) (c_patch c) (c_phase c).
(** The conditions on the commit of a call. *)
Definition acceptable (c : Call) s : Prop :=
  submittable (c_artifacts c) (c_kernel c) (c_opts c) (c_patch c) (c_phase c) /\ undisturbed (c_patch c) (c_phase c) s.

(** Versions are committed by calls of [submit_patch] only, which run access by access
    between each other's; anything else the stores do, other connections and other
    writers of the materialized rows included, goes on between any two accesses. *)
Inductive r_step : Sys -> Sys -> Prop :=
  | r_open w cs changes version ro clock drawn :
      r_step (mkSys w cs) (mkSys (mkWorld (db w) (conns w ++ [mkStore (db w) changes version [] ro clock drawn])) cs)
  | r_op w w' cs i o : (forall q, o <> OpCommit q) -> performs i o w w' -> r_step (mkSys w cs) (mkSys w' cs)
  | r_env w w' cs : durable_same (db w) (db w') -> Forall2 (observes (db w')) (conns w) (conns w') -> r_step (mkSys w cs) (mkSys w' cs)
  | r_call w cs c : c_phase c = SubStart -> r_step (mkSys w cs) (mkSys w (cs ++ [c]))
  | r_advance w w' cs k c s : cs !! k = Some c -> acceptable c s -> acts (c_conn c) s (accesses c s).2 w w' ->
      r_step (mkSys w cs) (mkSys w' (<[k := with_phase (accesses c s).1 c]> cs)).
Definition versions_sound (K : string -> option History) : Prop :=
  forall g h v c, K g = Some h -> h_at h v = Some c -> version_sound g c.

Lemma h_keep_sound K K' : h_keep K K' -> versions_sound K -> versions_sound K'.
Proof.
  intros [K1 K1' E|K1 K1' g cl Hn Hup|K1 K1' g h Hh Hup|K1 K1' g h f Hh Hf Hup] Hall g0 h0 v c.
  - rewrite E. apply Hall.
  - rewrite Hup. unfold h_upd. case_decide; [|apply Hall]. subst. intros [= <-]. unfold h_at. cbn. destruct (v <? 0); [done|].
    destruct (Z.to_nat (v - 0)); [|done]. intros [= <-]. apply empty_sound.
  - rewrite Hup. unfold h_upd. case_decide; [|apply Hall]. subst. intros [= <-]. by apply (Hall g h v c).
  - rewrite Hup. unfold h_upd. case_decide; [|apply Hall]. subst. intros [= <-] Hc.
    destruct (h_drop_extends h f Hf) as [[_ _ _ Hat] Hcur].
    assert (h_floor (h_drop f h) <= v <= h_current (h_drop f h)) as Hv by (apply h_at_Some; by rewrite Hc).
    rewrite Hcur in Hv. rewrite Hat in Hc by done. by apply (Hall g h v c).
Qed.
Lemma becomes_sound t t' g h c : becomes g (h_append h c) t t' -> history t g = Some h -> h_floor h <= h_current h ->
  version_sound g c -> versions_sound (history t) -> versions_sound (history t').
Proof.
  intros Hb Hh Hne Hc Hall g0 h0 v c0. rewrite Hb. unfold h_upd. case_decide; [|apply Hall]. subst. intros [= <-] Hat.
  pose proof (loaded_append h c v Hne) as El. unfold loaded in El. cbn in El. rewrite Hat in El. case_decide.
  - injection El as E1 E2. assert (c0 = c) as ->; [|done]. destruct c0, c. cbn in *. f_equal; [|done].
    apply (f_equal (fmap snd)) in E1. by rewrite !entries_values in E1.
  - destruct (h_at h v) as [c1|] eqn:E1; [|done]. injection El as E2 E3. apply (Hall g h v c0 Hh). rewrite E1. f_equal. destruct c0, c1. cbn in *.
    f_equal; [|done]. apply (f_equal (fmap snd)) in E2. by rewrite !entries_values in E2.
Qed.
Record sys_ok (x : Sys) : Prop := {
  so_world : world_ok (world x);
  so_versions : versions_sound (history (db (world x)));
  so_calls : Forall call_ok (calls x) }.

Lemma accesses_run c s : store_ok s -> call_ok c -> acceptable c s ->
  store_ok (accesses c s).2 /\ call_ok (with_phase (accesses c s).1 c) /\
  ((exists r, c_phase c = SubDone r /\ accesses c s = (SubDone r, s)) \/
   outcome (c_artifacts c) (c_kernel c) (c_opts c) (c_patch c) (c_phase c) (accesses c s).1 s (accesses c s).2).
Proof.
  intros Hs Hc [Hsub Hun]. unfold call_ok, accesses in *.
  assert ((exists r, c_phase c = SubDone r) \/ forall r, c_phase c <> SubDone r) as [[r Er]|Hnd]
    by (destruct (c_phase c); first [by right|left; eauto]).
  - rewrite Er. cbn. split; [done|]. split; [done|]. left. by exists r.
  - destruct (advance_run _ _ _ _ _ s Hs Hc Hsub Hun Hnd) as (Hs' & Hp & Ho). split; [done|]. split; [done|]. by right.
Qed.
Lemma accesses_sound c s : store_ok s -> call_ok c -> acceptable c s -> versions_sound (history (tables s)) ->
  versions_sound (history (tables (accesses c s).2)).
Proof.
  intros Hs Hc Ha Hall. destruct (accesses_run c s Hs Hc Ha) as (_ & _ & [(r & _ & ->)|Ho]); [done|].
  revert Ho. unfold outcome. destruct (accesses c s) as [p' s']. cbn [fst snd].
  destruct p' as [| | | | | | |[r|e]]; try (by intros ->). intros [[-> _]|(cd & nodes & h & dn & Hap)]; [done|].
  pose proof (ap_history _ _ _ _ _ _ _ _ _ _ _ _ Hap) as Hh.
  pose proof (history_bounds _ _ _ (proj1 Hs) Hh) as Hb. assert (is_Some (h_at h (h_current h))) as [b Hat] by (apply h_at_Some; lia).
  eapply becomes_sound; [exact (ap_becomes _ _ _ _ _ _ _ _ _ _ _ _ Hap)|done|done| |done].
  apply (ap_sound _ _ _ _ _ _ _ _ _ _ _ _ Hap b Hat). exact (vs_graph _ _ (Hall _ h _ b Hh Hat)).
Qed.
Lemma r_step_ok x x' : r_step x x' -> sys_ok x -> sys_ok x'.
Proof.
  intros [w cs n m ro clock u|w w' cs i o Hne (s & Ha & Hact)|w w' cs Hd Hobs|w cs c Hc|w w' cs k c s Hk Hacc Hact] [Hw Hall Hcs]; cbn in *.
  - split; [by apply open_ok|done|done].
  - destruct (acts_from _ _ _ _ _ Hw Hact) as [Hok Et]. destruct (op_keep_refines o s Hne Hok Ha) as [Hok' Hh].
    rewrite Et, <-(ac_db _ _ _ _ _ Hact) in Hh. split; [by eapply acts_ok|by eapply h_keep_sound|done].
  - split; [by eapply env_ok| |done]. intros g h v c. cbn. rewrite (env_histories w w' g Hd). apply Hall.
  - split; [done|done|]. apply Forall_app. split; [done|]. constructor; [|done]. unfold call_ok. by rewrite Hc.
  - destruct (acts_from _ _ _ _ _ Hw Hact) as [Hok Et]. pose proof (Forall_lookup_1 _ _ _ _ Hcs Hk) as Hc.
    destruct (accesses_run c s Hok Hc Hacc) as (Hs' & Hc' & _). split; cbn.
    + by eapply acts_ok.
    + rewrite (ac_db _ _ _ _ _ Hact). apply accesses_sound; [done|done|done|]. by rewrite Et.
    + by apply Forall_insert.
Qed.
Lemma reaches_ok x : rtc r_step empty_sys x -> sys_ok x.
Proof.
  assert (sys_ok empty_sys) as H0'.
  { split; [split; [apply empty_tables_ok|by apply Forall_nil_2]|done|by apply Forall_nil_2]. }
  intros Hr. revert H0'. induction Hr; eauto using r_step_ok.
Qed.

(** C9: submit_patch.  A call makes its accesses in a fixed order, each a transaction of
    its own, and is [submit_patch] when nothing runs between them.  Whatever other
    connections and calls do between them, an access that does not return a result
    leaves every table as it was; and when the call returns, either it reports a patch that
    was already committed under the same author, graph and key, changing no table; or
    the graph stood open at the expected version with the guards held, and the next
    version reads back as the edges and the derived nodes (less evidence the patch
    does not attach) of the candidate that validation made of the snapshot, no other
    version of any graph changes, and, if the version extended was well typed, the
    new one is well typed, its VERIFIED tasks depend on VERIFIED tasks only and its
    goals are closed exactly when they should be.  At its commit the submission is
    [acceptable]: attached artifacts take no id of another kind of node, its nodes are
    values of their models, and unless another version was committed since, the
    materialized rows of the graph are those it read. *)
Theorem submit_patch_exact :
  (forall fa fk opts patch s, proceed fa fk opts patch 7 SubStart s =
     (SubDone (submit_patch fa fk opts patch s).1, (submit_patch fa fk opts patch s).2)) /\
  forall x c s, rtc r_step empty_sys x -> c ∈ calls x -> conns (world x) !! c_conn c = Some s ->
    acceptable c s -> (forall r, c_phase c <> SubDone r) ->
    let g := patch_graph_id (c_patch c) in
    match accesses c s with
    | (SubDone (Ok r), s') =>
        (tables s' = tables s /\ repeats (c_patch c) (tables s) r) \/
        exists cand nodes h dn,
          applies (c_artifacts c) (c_kernel c) (c_opts c) (c_patch c) s s' (c_phase c) r cand nodes h dn /\
          load_projection_snapshot g (h_current h + 1) s' =
            (Ok (entries (sort_on (fun n => nid n) dn), sort_on edge_id (cand_edges cand)), s') /\
          (forall g' v, (g', v) <> (g, h_current h + 1) ->
             (load_projection_snapshot g' v s').1 = (load_projection_snapshot g' v s).1)
    | (_, s') => tables s' = tables s
    end.
Proof.
  split; [apply submit_patch_proceeds|]. intros x c s Hx Hin Hconn Ha Hnd. cbv zeta. destruct (reaches_ok x Hx) as [Hw _ Hcs].
  destruct (conn_ok _ s Hw (list_elem_of_lookup_2 _ _ _ Hconn)) as [Hs _].
  destruct (accesses_run c s Hs (proj1 (Forall_forall _ _) Hcs c Hin) Ha) as (Hs' & _ & [(r & Hr & _)|Ho]); [by destruct (Hnd r)|].
  destruct (accesses c s) as [p' s']. cbn [fst snd] in *. destruct p' as [| | | | | | |[r|e]]; [exact Ho..| |exact Ho].
  destruct Ho as [Hrep|(cand & nodes & h & dn & Hap)]; [by left|right]. exists cand, nodes, h, dn.
  pose proof (ap_history _ _ _ _ _ _ _ _ _ _ _ _ Hap) as Hh. pose proof (ap_becomes _ _ _ _ _ _ _ _ _ _ _ _ Hap) as Hb.
  pose proof (history_bounds _ _ _ (proj1 Hs) Hh) as Hne. split_and!; [done| |].
  - rewrite load_snapshot_exact, (becomes_history _ _ _ _ Hb), loaded_append, decide_True by (done || apply Hs'). done.
  - intros g' v Hgv. rewrite !load_snapshot_exact by (apply Hs || apply Hs'). cbn [fst]. rewrite Hb. unfold h_upd. case_decide as Eg; [|done].
    subst g'. rewrite loaded_append, decide_False, Hh by (done || congruence). done.
Qed.

(** C8: Every committed version is sound. In every database the runtime reaches, with any
    number of connections, calls of submit_patch interleaved access by access, compaction,
    recovery and foreign writes to the materialized rows, whatever version of whatever
    graph a connection can read is well typed and acyclic, has VERIFIED tasks depending
    on VERIFIED tasks only, and goals closed exactly when they should be; provided that
    every submission is [acceptable] when it commits: attached artifacts take no id of
    another kind of node (the validator does not check it, [attach_overwrites_task]),
    its nodes are values of their models, and unless a version was committed meanwhile
    the materialized rows of the graph are those it read. *)
Theorem committed_versions_sound x s g v nodes es : rtc r_step empty_sys x -> s ∈ conns (world x) ->
  (load_projection_snapshot g v s).1 = Ok (nodes, es) -> version_sound g (nodes.*2, es) /\ nodes = entries nodes.*2.
Proof.
  intros [Hw Hall _]%reaches_ok Hin El. destruct (conn_ok _ s Hw Hin) as [[Ht _] Et].
  rewrite load_snapshot_exact in El by done. cbn in El. rewrite Et in El.
  apply loaded_Ok in El as (h & c & Hh & Hc & [= -> ->]). rewrite entries_values. split; [|done].
  destruct c as [ns es]. by apply (Hall g h v).
Qed.
End Submit.

(** ** A run *)

Module RuntimeRun.
Import GraphRun.
#[export] Instance set_order : SetOrder := elements_order.
#[export] Instance pair_order : PairOrder := elements_pairs.
Definition ops : list PatchOperation := [pp_task "a"; pp_task "b"; pp_edge "e1" "depends_on" "b" "a"].
Definition first : GraphPatchProposal := mkPatch "patch1" "g" 0 "p" ops "why" [] "key1" 0.
(** A second call that expects the same version. *)
Definition second : GraphPatchProposal := mkPatch "patch2" "g" 0 "p" [pp_task "c"] "why" [] "key2" 0.
Definition call_of (patch : GraphPatchProposal) : Call := mkCall 0 None None default_options patch SubStart.

(** Calls on one connection, advanced in the order given. *)
Definition State : Type := GraphStore * list Call.
Definition sys_of (st : State) : Sys := mkSys (solo st.1) st.2.
Definition drive (k : nat) (st : State) : State :=
  match st.2 !! k with
  | Some c => ((accesses c st.1).2, <[k := with_phase (accesses c st.1).1 c]> st.2)
  | None => st
  end.
Definition committing (c : Call) : bool := match c_phase c with SubReady _ _ _ _ => true | _ => false end.
Fixpoint quietly (ks : list nat) (st : State) : option State :=
  match ks with
  | [] => Some st
  | k :: ks' => match st.2 !! k with
                | Some c => if committing c || negb (Nat.eqb (c_conn c) 0) then None else quietly ks' (drive k st)
                | None => None
                end
  end.
Lemma drive_step k st c : st.2 !! k = Some c -> c_conn c = 0%nat -> acceptable c st.1 -> r_step (sys_of st) (sys_of (drive k st)).
Proof.
  destruct st as [s cs]. cbn. intros Hk H0 Ha. unfold sys_of, drive. cbn. rewrite Hk. cbn. apply (r_advance _ _ _ _ _ s); [done|done|].
  rewrite H0. split; try done. by intros [|j] p p' Hj.
Qed.
Lemma quietly_reaches ks st st' : quietly ks st = Some st' -> rtc r_step (sys_of st) (sys_of st').
Proof.
  revert st. induction ks as [|k ks IH]; intros st; cbn; [by intros [= ->]|]. destruct (st.2 !! k) as [c|] eqn:Ek; [|done].
  destruct (committing c) eqn:Ec; [done|]. destruct (Nat.eqb_spec (c_conn c) 0) as [H0|]; [|done]. cbn. intros E.
  eapply rtc_l; [|by apply IH]. eapply drive_step; [done|done|]. unfold committing in Ec. unfold acceptable. by destruct (c_phase c).
Qed.

(** Both calls read before either commits: the first then commits version 1. *)
Definition prepared : State := Eval vm_compute in
  default (store1, []) (quietly [0; 1; 0; 1; 0; 0; 1; 1; 0; 1]%nat (store1, [call_of first; call_of second])).
Definition first_ready : Call := Eval vm_compute in default (call_of first) (prepared.2 !! 0%nat).
Definition second_ready : Call := Eval vm_compute in default (call_of second) (prepared.2 !! 1%nat).
Definition state_a : State := Eval vm_compute in drive 0 prepared.
Definition state_b : State := Eval vm_compute in drive 1 state_a.

Lemma prepared_reaches : rtc r_step empty_sys (sys_of prepared).
Proof.
  eapply rtc_l; [apply (r_open empty_world [] 0 1 false 10 0)|].
  eapply rtc_l; [apply (r_op _ (solo store1) [] 0 (OpCreate record0)); [done|]|].
  { assert (store1 = (run_op (OpCreate record0) opened).2) as -> by (vm_compute; reflexivity). by apply (solo_performs (OpCreate record0) opened). }
  eapply rtc_l; [by apply (r_call _ [] (call_of first))|]. eapply rtc_l; [by apply (r_call _ _ (call_of second))|].
  apply (quietly_reaches [0; 1; 0; 1; 0; 0; 1; 1; 0; 1]%nat (store1, [call_of first; call_of second])). vm_compute. reflexivity.
Qed.
(** No patch of the run attaches anything. *)
Ltac no_attach := intros op Hop; exfalso; repeat (apply elem_of_cons in Hop as [Hop|Hop]; [discriminate Hop|]); by apply not_elem_of_nil in Hop.
Lemma first_acceptable : acceptable first_ready prepared.1.
Proof.
  split; [split; [no_attach|split; [apply Forall_nil_2|intros pn [= <-]; by repeat constructor]]|].
  intros r _ _. split; vm_compute; reflexivity.
Qed.
(** The second finds another version. *)
Lemma second_acceptable : acceptable second_ready state_a.1.
Proof.
  split; [split; [no_attach|split; [apply Forall_nil_2|intros pn [= <-]; by repeat constructor]]|].
  intros r Hr Hv. vm_compute in Hr. injection Hr as <-. discriminate Hv.
Qed.
Lemma state_b_reaches : rtc r_step empty_sys (sys_of state_b).
Proof.
  eapply rtc_r; [eapply rtc_r; [exact prepared_reaches|]|].
  - apply (drive_step 0 prepared first_ready); [reflexivity|reflexivity|exact first_acceptable].
  - change (drive 0 prepared) with state_a. apply (drive_step 1 state_a second_ready); [reflexivity|reflexivity|exact second_acceptable].
Qed.

Lemma submit_patch_exact_witness :
  match accesses first_ready prepared.1 with
  | (SubDone (Ok r), s') => patch_applied r = true /\ (load_projection_snapshot "g" 0 s').1 = (load_projection_snapshot "g" 0 prepared.1).1
  | _ => False
  end /\ c_phase <$> state_b.2 !! 1%nat = Some (SubDone (Raise (vpg_error VPGCode.GRAPH_VERSION_CONFLICT))).
Proof.
  split; [|vm_compute; reflexivity].
  assert (first_ready ∈ calls (sys_of prepared)) as Hin by (left; reflexivity).
  pose proof (proj2 submit_patch_exact (sys_of prepared) first_ready prepared.1 prepared_reaches Hin eq_refl first_acceptable
    ltac:(intros r; discriminate)) as E.
  assert (match accesses first_ready prepared.1 with (SubDone (Ok r), _) => patch_applied r | _ => false end = true) as Eok by (vm_compute; reflexivity).
  assert (option_map h_current (history (tables prepared.1) "g") = Some 0) as Ecur by (vm_compute; reflexivity).
  destruct (accesses first_ready prepared.1) as [[| | | | | | |[r|e]] s']; try discriminate Eok.
  split; [done|]. destruct E as [[_ [Hp _]]|(cand & nodes & h & dn & Ha & _ & Hold)]; [congruence|]. apply Hold.
  pose proof (ap_history _ _ _ _ _ _ _ _ _ _ _ _ Ha) as Hh. change (patch_graph_id (c_patch first_ready)) with "g" in Hh. rewrite Hh in Ecur.
  injection Ecur as ->. discriminate.
Defined.
Lemma committed_versions_sound_witness :
  exists nodes es, (load_projection_snapshot "g" 1 state_b.1).1 = Ok (nodes, es) /\ length nodes = 2%nat /\
    version_sound "g" (nodes.*2, es).
Proof.
  assert (exists nodes es, (load_projection_snapshot "g" 1 state_b.1).1 = Ok (nodes, es) /\ length nodes = 2%nat) as (nodes & es & El & Hn)
    by (do 2 eexists; vm_compute; split; reflexivity).
  exists nodes, es. split; [exact El|]. split; [exact Hn|].
  exact (proj1 (committed_versions_sound (sys_of state_b) state_b.1 "g" 1 nodes es state_b_reaches (GraphWitness.in_solo state_b.1) El)).
Defined.
(** A caller that lost the race for its own key is not given the winner's result: its
    commit fails on the version before the key is inserted, with an exception that
    [submit_patch] does not handle. *)
Example raced_retry_conflicts :
  (commit_patch request1 store2).1 = Raise (vpg_error VPGCode.GRAPH_VERSION_CONFLICT) /\
  is_integrity_error (vpg_error VPGCode.GRAPH_VERSION_CONFLICT) = false /\
  (has_idempotency (composite_key (q_patch request1)) store2).1 = Ok (Some ("patch1", 1)).
Proof. vm_compute. split_and!; reflexivity. Qed.
End RuntimeRun.
