(* ===== verification/ArtifactUri.v ===== *)
(** * Artifact URIs (agent_os/artifacts/uri.py)

    Parsing and normalization of [artifact://] and [workspace://] URIs.  A string is
    its UTF-8 bytes.  [unicodedata.normalize("NFC", ...)] is an argument; percent
    decoding, with the replacement of ill-formed UTF-8, is modelled. *)

From Stdlib Require Import Ascii.
From S2P Require Import Prelude PyString.

Class Nfc := nfc : string -> string.
(** Normalization leaves ASCII text alone. *)
Definition is_ascii (s : string) : bool := forallb (fun a => nat_of_ascii a <? 128) (chars s).
Class NfcLaws `{Nfc} : Prop := nfc_ascii s : is_ascii s = true -> nfc s = s.

(** ** String methods *)

(** What is before and after the first occurrence of [sep]; [None] when there is none. *)
Fixpoint partition_chars (sep l : list ascii) : option (list ascii * list ascii) :=
  match drop_prefix sep l with
  | Some r => Some ([], r)
  | None => match l with
            | [] => None
            | c :: l' => (fun ab => (c :: ab.1, ab.2)) <$> partition_chars sep l'
            end
  end.
(** [s.split(sep)] for a separator of one character. *)
Fixpoint split_chars (sep : ascii) (l : list ascii) : list (list ascii) :=
  match l with
  | [] => [[]]
  | c :: l' => if decide (c = sep) then [] :: split_chars sep l'
               else match split_chars sep l' with w :: ws => (c :: w) :: ws | [] => [[c]] end
  end.
Definition slash : ascii := "/"%char.
(** [s.lstrip("/")] and [s.strip("/")] *)
Definition lstrip_slash (s : string) : string := unchars (lstrip_with [[slash]] (chars s)).
Definition strip_slash (s : string) : string :=
  unchars (rstrip_with [[slash]] (lstrip_with [[slash]] (chars s))).
(** ["/".join(l)] *)
Fixpoint join_chars (l : list (list ascii)) : list ascii :=
  match l with [] => [] | [w] => w | w :: l' => w ++ slash :: join_chars l' end.

(** ** urllib.parse.unquote *)

Definition hex_value (a : ascii) : option nat :=
  let n := nat_of_ascii a in
  if (48 <=? n) && (n <=? 57) then Some (n - 48)
  else if (65 <=? n) && (n <=? 70) then Some (n - 55)
  else if (97 <=? n) && (n <=? 102) then Some (n - 87) else None.
(** [unquote_to_bytes]: a percent sign not followed by two hexadecimal digits stays. *)
Fixpoint unquote_bytes (l : list ascii) : list ascii :=
  match l with
  | [] => []
  | c :: l1 =>
      match l1 with
      | a :: b :: l3 =>
          if decide (c = "%"%char) then
            match hex_value a, hex_value b with
            | Some x, Some y => ascii_of_nat (16 * x + y) :: unquote_bytes l3
            | _, _ => c :: unquote_bytes l1
            end
          else c :: unquote_bytes l1
      | _ => c :: unquote_bytes l1
      end
  end.
Definition U_FFFD : list ascii := ascii_of_nat <$> [239; 191; 189].
(** The ranges of the bytes that continue a sequence, by its first byte. *)
Definition continuation (n : nat) : list (nat * nat) :=
  let c := (128, 191) in
  if (194 <=? n) && (n <=? 223) then [c]
  else if n =? 224 then [(160, 191); c]
  else if n =? 237 then [(128, 159); c]
  else if (225 <=? n) && (n <=? 239) then [c; c]
  else if n =? 240 then [(144, 191); c; c]
  else if n =? 244 then [(128, 143); c; c]
  else if (241 <=? n) && (n <=? 243) then [c; c; c] else [].
(** [bytes.decode("utf-8", "replace")], as UTF-8: each maximal ill-formed part becomes
    U+FFFD. [pending] is the sequence read so far and [need] what it still needs. *)
Fixpoint utf8_replace (pending : list ascii) (need : list (nat * nat)) (l : list ascii) : list ascii :=
  match l with
  | [] => match need with [] => [] | _ => U_FFFD end
  | b :: l' =>
      let n := nat_of_ascii b in
      let start :=
        if n <? 128 then b :: utf8_replace [] [] l'
        else match continuation n with
             | [] => U_FFFD ++ utf8_replace [] [] l'
             | rs => utf8_replace [b] rs l'
             end in
      match need with
      | [] => start
      | (lo, hi) :: need' =>
          if (lo <=? n) && (n <=? hi) then
            match need' with
            | [] => pending ++ b :: utf8_replace [] [] l'
            | _ => utf8_replace (pending ++ [b]) need' l'
            end
          else U_FFFD ++ start
      end
  end.
(** The runs of ASCII characters are decoded one by one, the others stay. [run] is the
    ASCII run read so far. *)
Fixpoint unquote_runs (run l : list ascii) : list ascii :=
  let flush := utf8_replace [] [] (unquote_bytes run) in
  match l with
  | [] => flush
  | a :: l' => if nat_of_ascii a <? 128 then unquote_runs (run ++ [a]) l'
               else flush ++ a :: unquote_runs [] l'
  end.
Definition unquote (s : string) : string :=
  if decide ("%"%char ∈ chars s) then unchars (unquote_runs [] (chars s)) else s.

Example unquote_ascii : unquote "a%2Fb%2e%%41%zz" = "a/b.%A%zz".
Proof. vm_compute. reflexivity. Qed.
Example unquote_ill_formed :
  chars (unquote "%C3%A9%E2%82x%FF") = (ascii_of_nat <$> [195; 169]) ++ U_FFFD ++ ["x"%char] ++ U_FFFD.
Proof. vm_compute. reflexivity. Qed.

(** ** Canonical URIs *)

Record CanonicalURI : Type := mkCanonicalURI { cu_namespace_id : string; cu_path : string; cu_canonical : string }.
Definition artifact_uri (namespace_id path : string) : string := "artifact://" +:+ namespace_id +:+ "/" +:+ path.
Definition canonical_uri_of (namespace_id path : string) : CanonicalURI :=
  mkCanonicalURI namespace_id path (artifact_uri namespace_id path).

Definition dot_dot : list ascii := ["."; "."]%char.
Definition is_control (a : ascii) : bool :=
  let n := nat_of_ascii a in ((1 <=? n) && (n <=? 31)) || (n =? 127).
Definition is_letter (a : ascii) : bool :=
  let n := nat_of_ascii a in ((65 <=? n) && (n <=? 90)) || ((97 <=? n) && (n <=? 122)).
Definition backslash : ascii := ascii_of_nat 92.
Definition is_windows_drive (l : list ascii) : bool :=
  match l with
  | a :: b :: c :: _ => is_letter a && bool_decide (b = ":"%char) && bool_decide (c = backslash \/ c = slash)
  | _ => false
  end.

(** The namespace and the raw path of a URI of a known scheme. *)
Definition split_namespace (uri scheme : string) (rest : list ascii) : result (string * string) :=
  if String.eqb scheme "workspace" then
    if startswith "/" (unchars rest) then Ok ("", lstrip_slash (unchars rest))
    else match partition_chars [slash] rest with
         | Some (a, b) => if decide (a = []) then Ok ("", unchars rest) else Ok (unchars a, unchars b)
         | None => Ok ("", unchars rest)
         end
  else match partition_chars [slash] rest with
       | Some (a, b) =>
           if decide (a = []) then Raise (InvalidArtifactURI uri "missing namespace_id")
           else Ok (unchars a, unchars b)
       | None => Raise (InvalidArtifactURI uri "missing namespace_id")
       end.

Section Uri.
Context `{Nfc}.

(** Steps 3 to 9: decoding, the rejected characters and forms, and the segments. *)
Definition normalize_path (uri raw_path : string) : result string :=
  let nfc_path := chars (nfc (unquote raw_path)) in
  if decide (ascii_of_nat 0 ∈ nfc_path) then Raise (InvalidArtifactURI uri "NUL byte in path")
  else if existsb is_control nfc_path then Raise (InvalidArtifactURI uri "control character in path")
  else if is_windows_drive nfc_path then Raise (InvalidArtifactURI uri "Windows drive path detected")
  else if bool_decide (is_Some (drop_prefix [backslash; backslash] nfc_path)) ||
          bool_decide (is_Some (drop_prefix [slash; slash] nfc_path))
  then Raise (InvalidArtifactURI uri "UNC path detected")
  else if decide (backslash ∈ nfc_path) then Raise (InvalidArtifactURI uri "backslash in path — use forward slash")
  else
    let segs := split_chars slash nfc_path in
    let segments := filter (fun seg => seg <> ["."%char] /\ seg <> []) segs in
    if decide (dot_dot ∈ segs) then Raise (PathTraversalRejected uri)
    else let normalized_path := join_chars segments in
         if decide (normalized_path = []) then Raise (InvalidArtifactURI uri "empty path after normalization")
         else Ok (unchars normalized_path).

Definition canonicalize_uri (uri : string) : result CanonicalURI :=
  if String.eqb uri "" then Raise (InvalidArtifactURI uri "empty or non-string")
  else match partition_chars (chars "://") (chars uri) with
  | None => Raise (InvalidArtifactURI uri "no scheme separator '://'")
  | Some (pre, rest) =>
      let scheme := lower (unchars pre) in
      if negb (String.eqb scheme "artifact" || String.eqb scheme "workspace")
      then Raise (InvalidArtifactURI uri ("unsupported scheme: " +:+ scheme))
      else
        np ← split_namespace uri scheme rest;
        if String.eqb np.1 "" && String.eqb scheme "artifact"
        then Raise (InvalidArtifactURI uri "missing namespace_id for artifact scheme")
        else path ← normalize_path uri np.2; Ok (canonical_uri_of np.1 path)
  end.

(** [PathTraversalRejected] is an [InvalidArtifactURI]. *)
Definition is_canonical (uri : string) : bool :=
  match canonicalize_uri uri with Ok r => String.eqb (cu_canonical r) uri | Raise _ => false end.

Definition resolve_workspace_uri (uri caller_namespace_id : string) : result CanonicalURI :=
  if startswith "workspace://" uri then
    c ← canonicalize_uri uri;
    Ok (if String.eqb (cu_namespace_id c) "" then
          mkCanonicalURI caller_namespace_id (cu_path c) (artifact_uri caller_namespace_id (cu_path c))
        else c)
  else canonicalize_uri uri.
End Uri.

(** ** Facts *)

(** A path in normal form: named segments, none of which refers to a directory, and
    no character the checks reject. *)
Definition safe_path (path : string) : Prop :=
  path <> "" /\
  (forall seg, seg ∈ split_chars slash (chars path) -> seg <> [] /\ seg <> ["."%char] /\ seg <> dot_dot) /\
  (forall a, a ∈ chars path -> a <> ascii_of_nat 0 /\ is_control a = false /\ a <> backslash).

Lemma split_chars_nonempty sep l : split_chars sep l <> [].
Proof. destruct l as [|c l]; cbn; [done|]. case_decide; [done|]. by destruct (split_chars sep l). Qed.
Lemma split_no_sep sep l seg : seg ∈ split_chars sep l -> sep ∉ seg.
Proof.
  revert seg. induction l as [|c l IH]; cbn; intros seg.
  - intros ->%list_elem_of_singleton. apply not_elem_of_nil.
  - case_decide as Hc.
    + intros [->|Hin]%elem_of_cons; [apply not_elem_of_nil|by apply IH].
    + destruct (split_chars sep l) as [|w ws] eqn:E; [by destruct (split_chars_nonempty sep l)|].
      intros [->|Hin]%elem_of_cons; [|by apply IH; right].
      intros [?|Hin]%elem_of_cons; [done|]. apply (IH w); [left|done].
Qed.
Lemma split_elem sep l seg a : seg ∈ split_chars sep l -> a ∈ seg -> a ∈ l.
Proof.
  revert seg. induction l as [|c l IH]; cbn; intros seg.
  - intros ->%list_elem_of_singleton. by intros ?%elem_of_nil.
  - case_decide as Hc.
    + intros [->|Hin]%elem_of_cons; [by intros ?%elem_of_nil|]. intros Ha. right. by eapply IH.
    + destruct (split_chars sep l) as [|w ws] eqn:E; [by destruct (split_chars_nonempty sep l)|].
      intros [->|Hin]%elem_of_cons.
      * intros [->|Ha]%elem_of_cons; [left|]. right. eapply IH; [left|done].
      * intros Ha. right. eapply IH; [by right|done].
Qed.
Lemma split_app sep w l : sep ∉ w ->
  split_chars sep (w ++ l) = match split_chars sep l with v :: vs => (w ++ v) :: vs | [] => [w] end.
Proof.
  induction w as [|c w IH]; cbn; intros Hw;
    [destruct (split_chars sep l) eqn:E; [by destruct (split_chars_nonempty sep l)|done]|].
  apply not_elem_of_cons in Hw as [Hc Hw]. rewrite decide_False by done. rewrite IH by done.
  by destruct (split_chars sep l).
Qed.
Lemma split_join ws : ws <> [] -> (forall w, w ∈ ws -> slash ∉ w) -> split_chars slash (join_chars ws) = ws.
Proof.
  induction ws as [|w ws IH]; [done|]. intros _ Hws. destruct ws as [|v ws].
  - cbn [join_chars]. rewrite <-(app_nil_r w) at 1. rewrite split_app by (apply Hws; left). cbn. by rewrite app_nil_r.
  - change (join_chars (w :: v :: ws)) with (w ++ slash :: join_chars (v :: ws)).
    rewrite split_app by (apply Hws; left). cbn [split_chars]. rewrite decide_True by done. rewrite app_nil_r.
    f_equal. apply IH; [done|]. intros u Hu. apply Hws. by right.
Qed.
Lemma join_split l : join_chars (split_chars slash l) = l.
Proof.
  induction l as [|c l IH]; [done|]. cbn [split_chars]. case_decide as Hc.
  - subst c. destruct (split_chars slash l) as [|w ws] eqn:E; [by destruct (split_chars_nonempty slash l)|].
    change (slash :: join_chars (w :: ws) = slash :: l). by rewrite IH.
  - destruct (split_chars slash l) as [|w ws] eqn:E; [by destruct (split_chars_nonempty slash l)|].
    rewrite <-IH. by destruct ws.
Qed.
Lemma join_elem ws a : a ∈ join_chars ws -> a = slash \/ exists w, w ∈ ws /\ a ∈ w.
Proof.
  induction ws as [|w ws IH]; cbn; [by intros ?%elem_of_nil|]. destruct ws as [|v ws].
  - intros Ha. right. exists w. split; [left|done].
  - intros [Ha|[->|Ha]%elem_of_cons]%elem_of_app; [right; exists w; split; [left|done]|by left|].
    destruct (IH Ha) as [->|(u & Hu & Ha')]; [by left|]. right. exists u. split; [by right|done].
Qed.
Lemma partition_one sep l a b : partition_chars [sep] l = Some (a, b) -> l = a ++ sep :: b /\ sep ∉ a.
Proof.
  revert a. induction l as [|c l IH]; cbn; [done|]. intros a. case_decide as Hc.
  - intros [= <- <-]. subst c. split; [done|apply not_elem_of_nil].
  - destruct (partition_chars [sep] l) as [[x y]|]; cbn; [|done]. intros [= <- <-].
    destruct (IH x eq_refl) as [-> Hx]. split; [done|]. apply not_elem_of_cons. done.
Qed.
Lemma partition_at_sep sep a b : sep ∉ a -> partition_chars [sep] (a ++ sep :: b) = Some (a, b).
Proof.
  induction a as [|c a IH]; cbn; intros Ha; [by rewrite decide_True|].
  apply not_elem_of_cons in Ha as [Hc Ha]. rewrite decide_False by done. by rewrite IH.
Qed.
Lemma chars_app s t : chars (s +:+ t) = chars s ++ chars t.
Proof. induction s as [|a s IH]; [done|]. change (a :: chars (s +:+ t) = a :: (chars s ++ chars t)). by rewrite IH. Qed.
Lemma unchars_chars s : unchars (chars s) = s.
Proof. apply String.string_of_list_ascii_of_string. Qed.

Section UriFacts.
Context `{Nfc}.

Lemma normalize_path_safe uri raw path : normalize_path uri raw = Ok path -> safe_path path.
Proof.
  unfold normalize_path. set (p := chars (nfc (unquote raw))).
  case_decide as H0; [done|]. destruct (existsb is_control p) eqn:H1; [done|].
  destruct (is_windows_drive p); [done|]. destruct (_ || _); [done|].
  case_decide as H2; [done|]. case_decide as H3; [done|]. case_decide as H4; [done|]. intros [= <-].
  set (ws := filter _ _) in *.
  assert (forall w, w ∈ ws -> w <> [] /\ w <> ["."%char] /\ w ∈ split_chars slash p) as Hws.
  { intros w Hw. unfold ws in Hw. apply list_elem_of_filter in Hw as [[? ?] ?]. done. }
  assert (ws <> []) as Hne by (intros E; apply H4; by rewrite E).
  split; [|split].
  - intros E. apply H4. rewrite <-(chars_unchars (join_chars ws)). by rewrite E.
  - rewrite chars_unchars, split_join; [|done|intros w Hw; apply (split_no_sep slash p), Hws, Hw].
    intros seg Hseg. destruct (Hws seg Hseg) as (? & ? & Hin). split_and!; [done|done|]. intros ->. done.
  - rewrite chars_unchars. intros a [->|(w & Hw & Ha)]%join_elem; [done|].
    assert (a ∈ p) as Hp by (eapply split_elem; [apply Hws, Hw|done]).
    split_and!; [by intros ->| |by intros ->].
    destruct (is_control a) eqn:E; [|done]. exfalso.
    enough (existsb is_control p = true) by congruence.
    apply existsb_exists. exists a. split; [by apply list_elem_of_In|done].
Qed.
Lemma split_namespace_slash uri scheme rest ns raw :
  split_namespace uri scheme rest = Ok (ns, raw) -> slash ∉ chars ns.
Proof.
  unfold split_namespace. intros Hs. repeat case_match; simplify_eq/=; try apply not_elem_of_nil;
    rewrite chars_unchars; by eapply partition_one.
Qed.

(** What ASCII text without percent signs the normalization returns, it returns again. *)
Lemma normalize_path_again uri path `{!NfcLaws} : safe_path path -> is_ascii path = true ->
  "%"%char ∉ chars path -> is_windows_drive (chars path) = false -> normalize_path uri path = Ok path.
Proof.
  intros (Hne & Hsegs & Hcs) Hascii Hpct Hdrive. unfold normalize_path, unquote.
  rewrite (decide_False (P := "%"%char ∈ chars path)) by done. rewrite nfc_ascii by done.
  rewrite decide_False by (intros Hin; by destruct (Hcs _ Hin)).
  destruct (existsb is_control (chars path)) eqn:Hc.
  { apply existsb_exists in Hc as (a & Hin%list_elem_of_In & Ha). destruct (Hcs a Hin) as (_ & ? & _). congruence. }
  rewrite Hdrive, !bool_decide_eq_false_2; cbn [orb].
  - rewrite decide_False by (intros Hin; by destruct (Hcs _ Hin) as (_ & _ & ?)).
    rewrite decide_False by (intros Hin; by destruct (Hsegs _ Hin) as (_ & _ & ?)).
    rewrite filter_all by (intros seg Hin; by destruct (Hsegs seg Hin) as (? & ? & _)).
    rewrite join_split, unchars_chars. rewrite decide_False; [done|].
    intros E. apply Hne, chars_inj. by rewrite E.
  - intros [r Hr%drop_prefix_Some]. destruct (Hsegs []) as [[] _]; [|done].
    rewrite Hr. cbn. left.
  - intros [r Hr%drop_prefix_Some]. destruct (Hcs backslash) as (_ & _ & []); [|done]. rewrite Hr. left.
Qed.
End UriFacts.

Lemma canonicalize_split `{Nfc} uri r : canonicalize_uri uri = Ok r ->
  exists ns raw path, split_namespace uri (lower (unchars (default ([], []) (partition_chars (chars "://") (chars uri))).1))
      (default ([], []) (partition_chars (chars "://") (chars uri))).2 = Ok (ns, raw) /\
    normalize_path uri raw = Ok path /\ r = canonical_uri_of ns path.
Proof.
  unfold canonicalize_uri. destruct (String.eqb uri ""); [done|].
  destruct (partition_chars _ _) as [[pre rest]|] eqn:E; [|done]. cbn [default fst snd].
  destruct (negb _); [done|]. cbn. destruct (split_namespace _ _ _) as [[ns raw]|]; cbn; [|done].
  destruct (_ && _); [done|]. destruct (normalize_path uri raw) as [path|] eqn:Hp; cbn; [|done].
  intros [= <-]. by exists ns, raw, path.
Qed.
Lemma canonicalize_artifact `{Nfc} ns path : ns <> "" -> slash ∉ chars ns ->
  canonicalize_uri (artifact_uri ns path) =
  (p ← normalize_path (artifact_uri ns path) path; Ok (canonical_uri_of ns p)).
Proof.
  intros Hns Hs. unfold canonicalize_uri.
  assert (partition_chars (chars "://") (chars (artifact_uri ns path)) =
    Some (chars "artifact", chars ns ++ slash :: chars path)) as ->.
  { unfold artifact_uri. rewrite !chars_app. reflexivity. }
  change (String.eqb (artifact_uri ns path) "") with false. cbn iota.
  change (lower (unchars (chars "artifact"))) with "artifact". cbn [negb orb String.eqb].
  unfold split_namespace. cbn [String.eqb Ascii.eqb Bool.eqb]. rewrite partition_at_sep by done.
  rewrite decide_False by (intros E; apply Hns, chars_inj; by rewrite E).
  rewrite !unchars_chars. cbn. by destruct (String.eqb_spec ns "").
Qed.

(** C24: Canonical URIs are safe. The URI canonicalize_uri returns is
    artifact://namespace/path with a namespace without slashes and a path whose segments
    are non-empty and neither "." nor "..", without NUL, control characters and
    backslashes, so no path leads out of its namespace. A canonical URI with a namespace
    is its own canonical form when its path is ASCII text without percent signs and does
    not begin like a Windows drive. *)
Theorem canonicalize_safe `{NfcLaws} uri r : canonicalize_uri uri = Ok r ->
  cu_canonical r = artifact_uri (cu_namespace_id r) (cu_path r) /\
  (slash ∉ chars (cu_namespace_id r)) /\ safe_path (cu_path r) /\
  (cu_namespace_id r <> "" -> is_ascii (cu_path r) = true -> "%"%char ∉ chars (cu_path r) ->
   is_windows_drive (chars (cu_path r)) = false ->
   canonicalize_uri (cu_canonical r) = Ok r /\ is_canonical (cu_canonical r) = true).
Proof.
  intros (ns & raw & path & Hns & Hp & ->)%canonicalize_split.
  apply split_namespace_slash in Hns. apply normalize_path_safe in Hp.
  cbn [canonical_uri_of cu_canonical cu_namespace_id cu_path].
  split; [done|]. split; [done|]. split; [done|]. intros Hne Ha Hpct Hd.
  assert (canonicalize_uri (artifact_uri ns path) = Ok (canonical_uri_of ns path)) as Hc.
  { rewrite canonicalize_artifact by done. by rewrite normalize_path_again. }
  split; [exact Hc|]. unfold is_canonical. rewrite Hc. apply String.eqb_refl.
Qed.

(** Text that is its own normal form, for evaluation. *)
Definition nfc_id : Nfc := fun s => s.
Lemma nfc_id_laws : @NfcLaws nfc_id.
Proof. done. Qed.

Lemma canonicalize_safe_witness :
  @canonicalize_uri nfc_id "Artifact://ns-1/./docs//a%20b.md" = Ok (canonical_uri_of "ns-1" "docs/a b.md") /\
  (slash ∉ chars "ns-1") /\ safe_path "docs/a b.md".
Proof.
  assert (@canonicalize_uri nfc_id "Artifact://ns-1/./docs//a%20b.md" = Ok (canonical_uri_of "ns-1" "docs/a b.md")) as E
    by (vm_compute; reflexivity).
  split; [exact E|]. destruct (@canonicalize_safe nfc_id nfc_id_laws _ _ E) as (_ & H1 & H2 & _). by split.
Defined.

(** The module says that canonicalization is idempotent; a percent sign that was encoded
    is decoded by the second pass. *)
Lemma canonicalize_twice_decodes :
  @canonicalize_uri nfc_id "artifact://ns-1/100%2525" = Ok (canonical_uri_of "ns-1" "100%25") /\
  @canonicalize_uri nfc_id "artifact://ns-1/100%25" = Ok (canonical_uri_of "ns-1" "100%").
Proof. split; vm_compute; reflexivity. Qed.
(** The check for a Windows drive comes before "." segments and slashes are dropped. *)
Lemma windows_drive_accepted :
  @canonicalize_uri nfc_id "artifact://ns-1/./C:/x" = Ok (canonical_uri_of "ns-1" "C:/x") /\
  @canonicalize_uri nfc_id "artifact://ns-1/C:/x" = Raise (InvalidArtifactURI "artifact://ns-1/C:/x" "Windows drive path detected").
Proof. split; vm_compute; reflexivity. Qed.
