(* ===== verification/ArtifactModels.v ===== *)
(** * Artifact file system: models and tables
    (agent_os/artifacts/models.py, projections.py and the tables of storage/schema.py)

    The records of the file system, their JSON forms, the tables they are kept in and
    the content store on disk.

    Every statement on a table is a transaction of its own, so the process can be stopped
    between any two of them: [stop_at] says after how many durable writes it is, and
    [durable] marks each write. A stopped process raises [Killed], which nothing catches. *)

From S2P Require Import Prelude KernelModels Storage Journal.
Open Scope Z_scope.

(** ** Records *)

Record ArtifactRecord : Type := mkArtifact {
  ar_artifact_id : string; ar_namespace_id : string; ar_canonical_uri : string;
  ar_current_version : Z; ar_artifact_type : string; ar_created_by_pid : string;
  ar_created_at : Z; ar_updated_at : Z; ar_deleted : bool; ar_metadata : jobj }.
Record ArtifactVersion : Type := mkVersion {
  av_artifact_id : string; av_version : Z; av_content_ref : string; av_content_hash : string;
  av_size_bytes : Z; av_parent_version : option Z; av_committed_by_pid : string;
  av_committed_action_id : string; av_committed_at : Z }.
Inductive HandleMode : Type := Mode_read | Mode_write | Mode_append.
Definition handle_mode_value (m : HandleMode) : string :=
  match m with Mode_read => "read" | Mode_write => "write" | Mode_append => "append" end.
Definition handle_mode_of (v : string) : option HandleMode :=
  if String.eqb v "read" then Some Mode_read else if String.eqb v "write" then Some Mode_write
  else if String.eqb v "append" then Some Mode_append else None.
Record ArtifactHandle : Type := mkHandle {
  ah_handle_id : string; ah_pid : string; ah_artifact_id : string; ah_mode : HandleMode;
  ah_opened_version : option Z; ah_expected_version : option Z; ah_lease_id : option string;
  ah_transaction_id : option string; ah_opened_at : Z; ah_closed_at : option Z }.
Definition is_open (h : ArtifactHandle) : bool := match ah_closed_at h with None => true | Some _ => false end.

Module TransactionState.
Inductive t : Type := opened | staged | committed | aborted | conflicted | uncertain.
Definition value (s : t) : string :=
  match s with opened => "open" | staged => "staged" | committed => "committed" | aborted => "aborted"
  | conflicted => "conflicted" | uncertain => "uncertain" end.
Definition all : list t := [opened; staged; committed; aborted; conflicted; uncertain].
Definition of_value (v : string) : option t := List.find (fun s => String.eqb (value s) v) all.
#[global] Instance eq_dec : EqDecision t.
Proof. solve_decision. Defined.
End TransactionState.
Definition TERMINAL_TRANSACTION_STATES : list TransactionState.t :=
  [TransactionState.committed; TransactionState.aborted; TransactionState.conflicted; TransactionState.uncertain].
Record WriteTransaction : Type := mkTxn {
  wt_transaction_id : string; wt_artifact_id : string; wt_pid : string; wt_expected_version : option Z;
  wt_staged_content_ref : string; wt_staged_content_hash : string; wt_staged_size_bytes : Z;
  wt_state : TransactionState.t; wt_idempotency_key : string; wt_created_at : Z; wt_finished_at : option Z }.
Definition is_terminal (t : WriteTransaction) : bool := bool_decide (wt_state t ∈ TERMINAL_TRANSACTION_STATES).
(** [txn.state = st; txn.finished_at = now] *)
Definition txn_finish (st : TransactionState.t) (now : Z) (t : WriteTransaction) : WriteTransaction :=
  mkTxn (wt_transaction_id t) (wt_artifact_id t) (wt_pid t) (wt_expected_version t) (wt_staged_content_ref t)
    (wt_staged_content_hash t) (wt_staged_size_bytes t) st (wt_idempotency_key t) (wt_created_at t) (Some now).
(** The staged content, and [state = "staged"]. *)
Definition txn_stage (ref hash : string) (size : Z) (t : WriteTransaction) : WriteTransaction :=
  mkTxn (wt_transaction_id t) (wt_artifact_id t) (wt_pid t) (wt_expected_version t) ref hash size
    TransactionState.staged (wt_idempotency_key t) (wt_created_at t) (wt_finished_at t).

Record ArtifactNamespace : Type := mkNamespace {
  ns_namespace_id : string; ns_owner_pid : string; ns_root_uri : string; ns_quota_bytes : option Z;
  ns_max_open_handles : option Z; ns_created_at : Z }.
Inductive MountMode : Type := private | shared_readonly | shared_readwrite | copy_on_write.
#[global] Instance MountMode_eq_dec : EqDecision MountMode.
Proof. solve_decision. Defined.
Definition mount_mode_value (m : MountMode) : string :=
  match m with private => "private" | shared_readonly => "shared_readonly"
  | shared_readwrite => "shared_readwrite" | copy_on_write => "copy_on_write" end.
Definition mount_mode_of (v : string) : option MountMode :=
  List.find (fun m => String.eqb (mount_mode_value m) v) [private; shared_readonly; shared_readwrite; copy_on_write].
Record NamespaceMount : Type := mkMount {
  nm_mount_id : string; nm_namespace_id : string; nm_mount_point : string; nm_source_namespace_id : string;
  nm_source_prefix : string; nm_mode : MountMode; nm_created_at : Z }.
Record NamespaceSnapshot : Type := mkSnapshot {
  sn_snapshot_id : string; sn_namespace_id : string; sn_artifact_versions : list (string * Z);
  sn_content_refs : list (string * string); sn_created_by_pid : string; sn_created_at : Z }.
Record ArtifactWatch : Type := mkWatch {
  aw_watch_id : string; aw_pid : string; aw_namespace_id : string; aw_uri_prefix : string;
  aw_created_at : Z; aw_active : bool }.
(** A row of the table [artifact_idempotency]. *)
Record IdempotencyRow : Type := mkIdem {
  ik_idempotency_key : string; ik_artifact_id : string; ik_pid : string; ik_transaction_id : string;
  ik_result_state : string; ik_result_version : option Z; ik_created_at : Z }.
Record StagedArtifact : Type := mkStaged {
  sa_transaction_id : string; sa_content_ref : string; sa_content_hash : string; sa_size_bytes : Z }.
(** It has no [content_hash]. *)
Record StorageCommitResult : Type := mkCommitResult {
  cr_transaction_id : string; cr_content_ref : string; cr_committed : bool }.
Record StorageTransactionStatus : Type := mkStatus {
  ts_transaction_id : string; ts_status : string; ts_content_ref : string; ts_content_hash : string }.

(** ** JSON forms: [model_dump(mode="json")] and [Model( **payload)] *)

Definition artifact_dump (r : ArtifactRecord) : jobj :=
  [("artifact_id", JStr (ar_artifact_id r)); ("namespace_id", JStr (ar_namespace_id r));
   ("canonical_uri", JStr (ar_canonical_uri r)); ("current_version", JInt (ar_current_version r));
   ("artifact_type", JStr (ar_artifact_type r)); ("created_by_pid", JStr (ar_created_by_pid r));
   ("created_at", JTime (ar_created_at r)); ("updated_at", JTime (ar_updated_at r));
   ("deleted", JBool (ar_deleted r)); ("metadata", JObj (ar_metadata r))].
Definition artifact_load (fresh : string) (now : Z) (o : jobj) : option ArtifactRecord :=
  i ← dfl as_str fresh "artifact_id" o; n ← req as_str "namespace_id" o; u ← req as_str "canonical_uri" o;
  v ← dfl as_int 0 "current_version" o; t ← dfl as_str "file" "artifact_type" o;
  p ← req as_str "created_by_pid" o; c ← dfl as_time now "created_at" o; w ← dfl as_time now "updated_at" o;
  d ← dfl as_bool false "deleted" o; m ← dfl as_obj [] "metadata" o;
  Some (mkArtifact i n u v t p c w d m).
Definition version_load (now : Z) (o : jobj) : option ArtifactVersion :=
  i ← req as_str "artifact_id" o; v ← req as_int "version" o; r ← req as_str "content_ref" o;
  h ← req as_str "content_hash" o; z ← req as_int "size_bytes" o; p ← nul as_int "parent_version" o;
  b ← req as_str "committed_by_pid" o; a ← req as_str "committed_action_id" o;
  t ← dfl as_time now "committed_at" o;
  Some (mkVersion i v r h z p b a t).
Definition handle_dump (h : ArtifactHandle) : jobj :=
  [("handle_id", JStr (ah_handle_id h)); ("pid", JStr (ah_pid h)); ("artifact_id", JStr (ah_artifact_id h));
   ("mode", JStr (handle_mode_value (ah_mode h))); ("opened_version", jint_opt (ah_opened_version h));
   ("expected_version", jint_opt (ah_expected_version h)); ("lease_id", jstr_opt (ah_lease_id h));
   ("transaction_id", jstr_opt (ah_transaction_id h)); ("opened_at", JTime (ah_opened_at h));
   ("closed_at", jtime_opt (ah_closed_at h))].
Definition handle_load (fresh : string) (now : Z) (o : jobj) : option ArtifactHandle :=
  i ← dfl as_str fresh "handle_id" o; p ← req as_str "pid" o; a ← req as_str "artifact_id" o;
  m ← req (fun j => as_str j ≫= handle_mode_of) "mode" o; ov ← nul as_int "opened_version" o;
  ev ← nul as_int "expected_version" o; l ← nul as_str "lease_id" o; t ← nul as_str "transaction_id" o;
  oa ← dfl as_time now "opened_at" o; ca ← nul as_time "closed_at" o;
  Some (mkHandle i p a m ov ev l t oa ca).
Definition txn_dump (t : WriteTransaction) : jobj :=
  [("transaction_id", JStr (wt_transaction_id t)); ("artifact_id", JStr (wt_artifact_id t));
   ("pid", JStr (wt_pid t)); ("expected_version", jint_opt (wt_expected_version t));
   ("staged_content_ref", JStr (wt_staged_content_ref t)); ("staged_content_hash", JStr (wt_staged_content_hash t));
   ("staged_size_bytes", JInt (wt_staged_size_bytes t)); ("state", JStr (TransactionState.value (wt_state t)));
   ("idempotency_key", JStr (wt_idempotency_key t)); ("created_at", JTime (wt_created_at t));
   ("finished_at", jtime_opt (wt_finished_at t))].
Definition txn_load (fresh : string) (now : Z) (o : jobj) : option WriteTransaction :=
  i ← dfl as_str fresh "transaction_id" o; a ← req as_str "artifact_id" o; p ← req as_str "pid" o;
  e ← nul as_int "expected_version" o; r ← dfl as_str "" "staged_content_ref" o;
  h ← dfl as_str "" "staged_content_hash" o; z ← dfl as_int 0 "staged_size_bytes" o;
  s ← dfl (fun j => as_str j ≫= TransactionState.of_value) TransactionState.opened "state" o;
  k ← req as_str "idempotency_key" o; c ← dfl as_time now "created_at" o; f ← nul as_time "finished_at" o;
  Some (mkTxn i a p e r h z s k c f).
Definition namespace_dump (n : ArtifactNamespace) : jobj :=
  [("namespace_id", JStr (ns_namespace_id n)); ("owner_pid", JStr (ns_owner_pid n));
   ("root_uri", JStr (ns_root_uri n)); ("quota_bytes", jint_opt (ns_quota_bytes n));
   ("max_open_handles", jint_opt (ns_max_open_handles n)); ("created_at", JTime (ns_created_at n))].
Definition namespace_load (now : Z) (o : jobj) : option ArtifactNamespace :=
  i ← req as_str "namespace_id" o; p ← req as_str "owner_pid" o; r ← req as_str "root_uri" o;
  q ← nul as_int "quota_bytes" o; m ← nul as_int "max_open_handles" o; c ← dfl as_time now "created_at" o;
  Some (mkNamespace i p r q m c).
Definition mount_dump (m : NamespaceMount) : jobj :=
  [("mount_id", JStr (nm_mount_id m)); ("namespace_id", JStr (nm_namespace_id m));
   ("mount_point", JStr (nm_mount_point m)); ("source_namespace_id", JStr (nm_source_namespace_id m));
   ("source_prefix", JStr (nm_source_prefix m)); ("mode", JStr (mount_mode_value (nm_mode m)));
   ("created_at", JTime (nm_created_at m))].
Definition mount_load (fresh : string) (now : Z) (o : jobj) : option NamespaceMount :=
  i ← dfl as_str fresh "mount_id" o; n ← req as_str "namespace_id" o; p ← req as_str "mount_point" o;
  s ← req as_str "source_namespace_id" o; x ← req as_str "source_prefix" o;
  m ← dfl (fun j => as_str j ≫= mount_mode_of) private "mode" o; c ← dfl as_time now "created_at" o;
  Some (mkMount i n p s x m c).
Definition snapshot_dump (s : NamespaceSnapshot) : jobj :=
  [("snapshot_id", JStr (sn_snapshot_id s)); ("namespace_id", JStr (sn_namespace_id s));
   ("artifact_versions", JObj (prod_map id JInt <$> sn_artifact_versions s));
   ("content_refs", JObj (prod_map id JStr <$> sn_content_refs s));
   ("created_by_pid", JStr (sn_created_by_pid s)); ("created_at", JTime (sn_created_at s))].
Definition obj_of {A} (f : json -> option A) (j : json) : option (list (string * A)) :=
  o ← as_obj j; mapM (fun kv => pair kv.1 <$> f kv.2) o.
Definition snapshot_load (fresh : string) (now : Z) (o : jobj) : option NamespaceSnapshot :=
  i ← dfl as_str fresh "snapshot_id" o; n ← req as_str "namespace_id" o;
  v ← dfl (obj_of as_int) [] "artifact_versions" o; r ← dfl (obj_of as_str) [] "content_refs" o;
  p ← req as_str "created_by_pid" o; c ← dfl as_time now "created_at" o;
  Some (mkSnapshot i n v r p c).
Definition watch_dump (w : ArtifactWatch) : jobj :=
  [("watch_id", JStr (aw_watch_id w)); ("pid", JStr (aw_pid w)); ("namespace_id", JStr (aw_namespace_id w));
   ("uri_prefix", JStr (aw_uri_prefix w)); ("created_at", JTime (aw_created_at w)); ("active", JBool (aw_active w))].
Definition watch_load (fresh : string) (now : Z) (o : jobj) : option ArtifactWatch :=
  i ← dfl as_str fresh "watch_id" o; p ← req as_str "pid" o; n ← req as_str "namespace_id" o;
  u ← req as_str "uri_prefix" o; c ← dfl as_time now "created_at" o; a ← dfl as_bool true "active" o;
  Some (mkWatch i p n u c a).

(** ** State *)

Record AState : Type := mkAState {
  kernel_state : KState;
  artifacts_projection : list ArtifactRecord;
  artifact_versions_projection : list ArtifactVersion;
  artifact_handles_projection : list ArtifactHandle;
  write_transactions_projection : list WriteTransaction;
  namespaces_projection : list ArtifactNamespace;
  mounts_projection : list NamespaceMount;
  artifact_watches_projection : list ArtifactWatch;
  artifact_idempotency : list IdempotencyRow;
  namespace_snapshots_projection : list NamespaceSnapshot;
  (** the files under cas/ and staging/, by name *)
  cas : gmap string string;
  staging : gmap string string;
  (** [_active_txns] of the driver *)
  active_txns : gset string;
  (** after so many durable writes the process is stopped; a file being written then
      keeps so many bytes *)
  stop_at : option (nat * nat) }.

Definition set_kernel f (s : AState) : AState :=
  mkAState (f (kernel_state s)) (artifacts_projection s) (artifact_versions_projection s)
    (artifact_handles_projection s) (write_transactions_projection s) (namespaces_projection s)
    (mounts_projection s) (artifact_watches_projection s) (artifact_idempotency s)
    (namespace_snapshots_projection s) (cas s) (staging s) (active_txns s) (stop_at s).
Definition set_artifacts f (s : AState) : AState :=
  mkAState (kernel_state s) (f (artifacts_projection s)) (artifact_versions_projection s)
    (artifact_handles_projection s) (write_transactions_projection s) (namespaces_projection s)
    (mounts_projection s) (artifact_watches_projection s) (artifact_idempotency s)
    (namespace_snapshots_projection s) (cas s) (staging s) (active_txns s) (stop_at s).
Definition set_versions f (s : AState) : AState :=
  mkAState (kernel_state s) (artifacts_projection s) (f (artifact_versions_projection s))
    (artifact_handles_projection s) (write_transactions_projection s) (namespaces_projection s)
    (mounts_projection s) (artifact_watches_projection s) (artifact_idempotency s)
    (namespace_snapshots_projection s) (cas s) (staging s) (active_txns s) (stop_at s).
Definition set_handles f (s : AState) : AState :=
  mkAState (kernel_state s) (artifacts_projection s) (artifact_versions_projection s) (f
    (artifact_handles_projection s)) (write_transactions_projection s) (namespaces_projection s)
    (mounts_projection s) (artifact_watches_projection s) (artifact_idempotency s)
    (namespace_snapshots_projection s) (cas s) (staging s) (active_txns s) (stop_at s).
Definition set_txns f (s : AState) : AState :=
  mkAState (kernel_state s) (artifacts_projection s) (artifact_versions_projection s)
    (artifact_handles_projection s) (f (write_transactions_projection s)) (namespaces_projection s)
    (mounts_projection s) (artifact_watches_projection s) (artifact_idempotency s)
    (namespace_snapshots_projection s) (cas s) (staging s) (active_txns s) (stop_at s).
Definition set_namespaces f (s : AState) : AState :=
  mkAState (kernel_state s) (artifacts_projection s) (artifact_versions_projection s)
    (artifact_handles_projection s) (write_transactions_projection s) (f (namespaces_projection s))
    (mounts_projection s) (artifact_watches_projection s) (artifact_idempotency s)
    (namespace_snapshots_projection s) (cas s) (staging s) (active_txns s) (stop_at s).
Definition set_mounts f (s : AState) : AState :=
  mkAState (kernel_state s) (artifacts_projection s) (artifact_versions_projection s)
    (artifact_handles_projection s) (write_transactions_projection s) (namespaces_projection s) (f
    (mounts_projection s)) (artifact_watches_projection s) (artifact_idempotency s)
    (namespace_snapshots_projection s) (cas s) (staging s) (active_txns s) (stop_at s).
Definition set_watches f (s : AState) : AState :=
  mkAState (kernel_state s) (artifacts_projection s) (artifact_versions_projection s)
    (artifact_handles_projection s) (write_transactions_projection s) (namespaces_projection s)
    (mounts_projection s) (f (artifact_watches_projection s)) (artifact_idempotency s)
    (namespace_snapshots_projection s) (cas s) (staging s) (active_txns s) (stop_at s).
Definition set_idempotency f (s : AState) : AState :=
  mkAState (kernel_state s) (artifacts_projection s) (artifact_versions_projection s)
    (artifact_handles_projection s) (write_transactions_projection s) (namespaces_projection s)
    (mounts_projection s) (artifact_watches_projection s) (f (artifact_idempotency s))
    (namespace_snapshots_projection s) (cas s) (staging s) (active_txns s) (stop_at s).
Definition set_snapshots f (s : AState) : AState :=
  mkAState (kernel_state s) (artifacts_projection s) (artifact_versions_projection s)
    (artifact_handles_projection s) (write_transactions_projection s) (namespaces_projection s)
    (mounts_projection s) (artifact_watches_projection s) (artifact_idempotency s) (f
    (namespace_snapshots_projection s)) (cas s) (staging s) (active_txns s) (stop_at s).
Definition set_cas f (s : AState) : AState :=
  mkAState (kernel_state s) (artifacts_projection s) (artifact_versions_projection s)
    (artifact_handles_projection s) (write_transactions_projection s) (namespaces_projection s)
    (mounts_projection s) (artifact_watches_projection s) (artifact_idempotency s)
    (namespace_snapshots_projection s) (f (cas s)) (staging s) (active_txns s) (stop_at s).
Definition set_staging f (s : AState) : AState :=
  mkAState (kernel_state s) (artifacts_projection s) (artifact_versions_projection s)
    (artifact_handles_projection s) (write_transactions_projection s) (namespaces_projection s)
    (mounts_projection s) (artifact_watches_projection s) (artifact_idempotency s)
    (namespace_snapshots_projection s) (cas s) (f (staging s)) (active_txns s) (stop_at s).
Definition set_active f (s : AState) : AState :=
  mkAState (kernel_state s) (artifacts_projection s) (artifact_versions_projection s)
    (artifact_handles_projection s) (write_transactions_projection s) (namespaces_projection s)
    (mounts_projection s) (artifact_watches_projection s) (artifact_idempotency s)
    (namespace_snapshots_projection s) (cas s) (staging s) (f (active_txns s)) (stop_at s).
Definition set_stop f (s : AState) : AState :=
  mkAState (kernel_state s) (artifacts_projection s) (artifact_versions_projection s)
    (artifact_handles_projection s) (write_transactions_projection s) (namespaces_projection s)
    (mounts_projection s) (artifact_watches_projection s) (artifact_idempotency s)
    (namespace_snapshots_projection s) (cas s) (staging s) (active_txns s) (f (stop_at s)).

(** The file system a kernel state starts with. *)
Definition init_artifacts (k : KState) : AState := mkAState k [] [] [] [] [] [] [] [] [] ∅ ∅ ∅ None.

Abbreviation AM := (M AState).

(** A durable write: the process may be stopped before it. *)
Definition durable {A} (m : AM A) : AM A := fun s =>
  match stop_at s with
  | Some (O, _) => (Raise Killed, s)
  | Some (S n, k) => m (set_stop (fun _ => Some (n, k)) s)
  | None => m s
  end.
(** A call of a kernel service; [on_kernel_read] when it writes nothing durable. *)
Definition on_kernel_read {A} (m : M KState A) : AM A := fun s =>
  let '(r, k) := m (kernel_state s) in (r, set_kernel (fun _ => k) s).
Definition on_kernel {A} (m : M KState A) : AM A := durable (on_kernel_read m).
(** [datetime.now(UTC)] and [uuid4().hex] *)
Definition now_utc : AM Z := gets (fun s => clock_now (kernel_state s)).
Definition fresh_id `{UuidSource} : AM string := on_kernel_read fresh_uuid.
Definition journal_event `{UuidSource} (pid ty : string) (pl : jobj) : AM unit :=
  on_kernel (emit pid ty pl) ;; mret tt.

(** ** Artifacts *)

(** [loads(dumps(d)) or {}] *)
Definition reloaded (o : jobj) : jobj := match dumps (JObj o) with JObj o' => o' | _ => [] end.
Definition artifact_conflict (old new : ArtifactRecord) : ArtifactRecord :=
  mkArtifact (ar_artifact_id old) (ar_namespace_id old) (ar_canonical_uri old) (ar_current_version new)
    (ar_artifact_type old) (ar_created_by_pid old) (ar_created_at old) (ar_updated_at new) (ar_deleted new)
    (reloaded (ar_metadata new)).
Definition artifact_row (r : ArtifactRecord) : ArtifactRecord :=
  mkArtifact (ar_artifact_id r) (ar_namespace_id r) (ar_canonical_uri r) (ar_current_version r)
    (ar_artifact_type r) (ar_created_by_pid r) (ar_created_at r) (ar_updated_at r) (ar_deleted r)
    (reloaded (ar_metadata r)).
Definition get_artifact (id : string) (s : AState) : option ArtifactRecord :=
  tbl_find ar_artifact_id id (artifacts_projection s).
Definition get_artifact_by_uri (uri : string) (s : AState) : option ArtifactRecord :=
  tbl_find ar_canonical_uri uri (artifacts_projection s).
(** [canonical_uri] is UNIQUE; the conflict on [artifact_id] is resolved first. *)
Definition upsert_artifact (rec : ArtifactRecord) : AM unit := durable (
  rows ← gets artifacts_projection;
  raise_if (bool_decide (tbl_find ar_artifact_id (ar_artifact_id rec) rows = None) &&
            bool_decide (ar_canonical_uri rec ∈ ar_canonical_uri <$> rows))
    (IntegrityError "artifacts_projection") ;;
  modify (set_artifacts (tbl_upsert ar_artifact_id artifact_conflict (artifact_row rec)))).
(** [ORDER BY canonical_uri] *)
Definition list_artifacts (namespace_id : string) (s : AState) : list ArtifactRecord :=
  sort_on ar_canonical_uri
    (filter (fun a => ar_namespace_id a = namespace_id /\ ar_deleted a = false) (artifacts_projection s)).

(** ** Versions *)

Definition version_key (v : ArtifactVersion) : string * Z := (av_artifact_id v, av_version v).
(** INSERT OR IGNORE *)
Definition insert_version (ver : ArtifactVersion) : AM unit := durable (
  modify (set_versions (tbl_upsert version_key (fun old _ => old) ver))).
Definition get_version (artifact_id : string) (version : Z) (s : AState) : option ArtifactVersion :=
  tbl_find version_key (artifact_id, version) (artifact_versions_projection s).
Definition list_versions (artifact_id : string) (s : AState) : list ArtifactVersion :=
  sort_on av_version (filter (fun v => av_artifact_id v = artifact_id) (artifact_versions_projection s)).
(** The sum over the join of versions and artifacts of the namespace. *)
Definition count_committed_bytes (namespace_id : string) (s : AState) : Z :=
  foldr (fun v acc =>
    foldr (fun a acc' => if decide (ar_artifact_id a = av_artifact_id v /\ ar_namespace_id a = namespace_id)
                         then av_size_bytes v + acc' else acc') acc (artifacts_projection s))
    0 (artifact_versions_projection s).
(** [SELECT version ... WHERE committed_action_id = ?] *)
Definition version_of_txn (tid : string) (s : AState) : option ArtifactVersion :=
  tbl_find av_committed_action_id tid (artifact_versions_projection s).

(** ** Handles *)

Definition handle_conflict (old new : ArtifactHandle) : ArtifactHandle :=
  mkHandle (ah_handle_id old) (ah_pid old) (ah_artifact_id old) (ah_mode old) (ah_opened_version old)
    (ah_expected_version old) (ah_lease_id old) (ah_transaction_id new) (ah_opened_at old) (ah_closed_at new).
Definition upsert_handle (h : ArtifactHandle) : AM unit := durable (
  modify (set_handles (tbl_upsert ah_handle_id handle_conflict h))).
Definition get_handle (id : string) (s : AState) : option ArtifactHandle :=
  tbl_find ah_handle_id id (artifact_handles_projection s).
Definition list_open_handles_for_pid (pid : string) (s : AState) : list ArtifactHandle :=
  filter (fun h => ah_pid h = pid /\ ah_closed_at h = None) (artifact_handles_projection s).
Definition count_open_handles (pid : string) (s : AState) : nat := length (list_open_handles_for_pid pid s).

(** ** Transactions *)

Definition txn_conflict (old new : WriteTransaction) : WriteTransaction :=
  mkTxn (wt_transaction_id old) (wt_artifact_id old) (wt_pid old) (wt_expected_version old)
    (wt_staged_content_ref new) (wt_staged_content_hash new) (wt_staged_size_bytes new) (wt_state new)
    (wt_idempotency_key old) (wt_created_at old) (wt_finished_at new).
Definition upsert_transaction (t : WriteTransaction) : AM unit := durable (
  modify (set_txns (tbl_upsert wt_transaction_id txn_conflict t))).
Definition get_transaction (id : string) (s : AState) : option WriteTransaction :=
  tbl_find wt_transaction_id id (write_transactions_projection s).
Definition txn_key (t : WriteTransaction) : string * string * string :=
  (wt_artifact_id t, wt_pid t, wt_idempotency_key t).
Definition find_transaction_by_idempotency (artifact_id pid key : string) (s : AState) : option WriteTransaction :=
  tbl_find txn_key (artifact_id, pid, key) (write_transactions_projection s).
Definition list_active_transactions_for_pid (pid : string) (s : AState) : list WriteTransaction :=
  filter (fun t => wt_pid t = pid /\ is_terminal t = false) (write_transactions_projection s).

(** ** Namespaces, mounts, watches, snapshots *)

Definition namespace_conflict (old new : ArtifactNamespace) : ArtifactNamespace :=
  mkNamespace (ns_namespace_id old) (ns_owner_pid old) (ns_root_uri old) (ns_quota_bytes new)
    (ns_max_open_handles new) (ns_created_at old).
Definition upsert_namespace (n : ArtifactNamespace) : AM unit := durable (
  modify (set_namespaces (tbl_upsert ns_namespace_id namespace_conflict n))).
Definition get_namespace (id : string) (s : AState) : option ArtifactNamespace :=
  tbl_find ns_namespace_id id (namespaces_projection s).
(** ON CONFLICT DO NOTHING *)
Definition upsert_mount (m : NamespaceMount) : AM unit := durable (
  modify (set_mounts (tbl_upsert nm_mount_id (fun old _ => old) m))).
Definition list_mounts (namespace_id : string) (s : AState) : list NamespaceMount :=
  sort_on nm_mount_point (filter (fun m => nm_namespace_id m = namespace_id) (mounts_projection s)).
Definition delete_mount (mount_id : string) : AM unit := durable (
  modify (set_mounts (tbl_delete nm_mount_id mount_id))).
Definition watch_conflict (old new : ArtifactWatch) : ArtifactWatch :=
  mkWatch (aw_watch_id old) (aw_pid old) (aw_namespace_id old) (aw_uri_prefix old) (aw_created_at old) (aw_active new).
Definition upsert_watch (w : ArtifactWatch) : AM unit := durable (
  modify (set_watches (tbl_upsert aw_watch_id watch_conflict w))).
Definition list_active_watches (namespace_id : string) (s : AState) : list ArtifactWatch :=
  filter (fun w => aw_namespace_id w = namespace_id /\ aw_active w = true) (artifact_watches_projection s).
(** Objects are written with their keys sorted. *)
Definition snapshot_row (s : NamespaceSnapshot) : NamespaceSnapshot :=
  mkSnapshot (sn_snapshot_id s) (sn_namespace_id s) (sort_on fst (sn_artifact_versions s))
    (sort_on fst (sn_content_refs s)) (sn_created_by_pid s) (sn_created_at s).
Definition upsert_snapshot (snap : NamespaceSnapshot) : AM unit := durable (
  rows ← gets namespace_snapshots_projection;
  raise_if (bool_decide (sn_snapshot_id snap ∈ sn_snapshot_id <$> rows)) (IntegrityError "namespace_snapshots_projection") ;;
  modify (set_snapshots (fun l => l ++ [snapshot_row snap]))).
Definition get_snapshot (id : string) (s : AState) : option NamespaceSnapshot :=
  tbl_find sn_snapshot_id id (namespace_snapshots_projection s).

(** ** Idempotency *)

Definition idem_key (r : IdempotencyRow) : string * string * string :=
  (ik_idempotency_key r, ik_artifact_id r, ik_pid r).
(** INSERT OR IGNORE *)
Definition insert_idempotency (key artifact_id pid tid state : string) (version : option Z) : AM unit :=
  now ← now_utc;
  durable (modify (set_idempotency (tbl_upsert idem_key (fun old _ => old) (mkIdem key artifact_id pid tid state version now)))).
Definition get_idempotency (key artifact_id pid : string) (s : AState) : option IdempotencyRow :=
  tbl_find idem_key (key, artifact_id, pid) (artifact_idempotency s).
