(* ===== verification/LocalArtifactStorage.v ===== *)
(** * Content-addressable storage on the local file system
    (agent_os/drivers/local_artifact_storage.py)

    Files under staging/ are named by their transaction, files under cas/ by the
    digest of their content. The directories are on one file system, so moving a file is
    one write; other I/O errors are not modelled. References are digests: the empty
    reference would name the directory itself. The adapter of the driver protocol
    ([dispatch], [inspect]) forwards to the methods here. *)

From S2P Require Import Prelude KernelModels Storage Journal Invalidation ArtifactModels.
Open Scope Z_scope.

Section Driver.
Context `{Sha256}.

(** Writing a file: when the process is stopped in it, a part of the content is there. *)
Definition write_file (name content : string) : AM unit := fun s =>
  match stop_at s with
  | Some (O, k) => (Raise Killed, set_staging <[name := String.substring 0 k content]> s)
  | Some (S n, k) => (Ok tt, set_staging <[name := content]> (set_stop (fun _ => Some (n, k)) s))
  | None => (Ok tt, set_staging <[name := content]> s)
  end.
Definition byte_length (s : string) : Z := Z.of_nat (String.length s).

Definition stage (transaction_id content : string) : AM StagedArtifact :=
  write_file transaction_id content ;;
  let content_hash := sha256_hexdigest content in
  modify (set_active (union {[transaction_id]})) ;;
  mret (mkStaged transaction_id content_hash content_hash (byte_length content)).
(** [source] is the content of the file, if it exists. *)
Definition stage_from_file (transaction_id : string) (source_path : string) (source : option string) : AM StagedArtifact :=
  content ← some_or_raise source (FileNotFoundError source_path);
  stage transaction_id content.

Definition commit (transaction_id : string) : AM StorageCommitResult :=
  file ← gets (fun s => staging s !! transaction_id);
  match file with
  | None => mret (mkCommitResult transaction_id "" false)
  | Some content =>
      let content_hash := sha256_hexdigest content in
      durable (modify (fun s =>
        set_staging (delete transaction_id)
          (if decide (is_Some (cas s !! content_hash)) then s else set_cas <[content_hash := content]> s))) ;;
      modify (set_active (fun a => a ∖ {[transaction_id]})) ;;
      mret (mkCommitResult transaction_id content_hash true)
  end.

Definition abort (transaction_id : string) : AM bool :=
  file ← gets (fun s => staging s !! transaction_id);
  match file with
  | Some _ =>
      durable (modify (set_staging (delete transaction_id))) ;;
      modify (set_active (fun a => a ∖ {[transaction_id]})) ;;
      mret true
  | None => mret false
  end.

Definition read (content_ref : string) : AM string :=
  file ← gets (fun s => cas s !! content_ref);
  some_or_raise file (FileNotFoundError content_ref).
Definition exists_ (content_ref : string) (s : AState) : bool := bool_decide (is_Some (cas s !! content_ref)).
Definition size (content_ref : string) : AM Z :=
  file ← gets (fun s => cas s !! content_ref);
  content ← some_or_raise file (FileNotFoundError content_ref);
  mret (byte_length content).

Definition inspect_transaction (transaction_id : string) (s : AState) : StorageTransactionStatus :=
  match staging s !! transaction_id with
  | Some content => mkStatus transaction_id "staged" (sha256_hexdigest content) (sha256_hexdigest content)
  | None => mkStatus transaction_id "unknown" "" ""
  end.
Definition delete_content (content_ref : string) : AM bool :=
  file ← gets (fun s => cas s !! content_ref);
  match file with
  | Some _ => durable (modify (set_cas (delete content_ref))) ;; mret true
  | None => mret false
  end.
Definition total_size (s : AState) : Z := map_fold (fun _ content acc => byte_length content + acc) 0 (cas s).
Definition content_count (s : AState) : nat := map_size (cas s).

(** The directory is listed in the order of [map_to_list]; the result does not depend on
    it. *)
Definition recover (known_transaction_ids : gset string) : AM (gmap string string) :=
  files ← gets (fun s => map_to_list (staging s));
  for_each (fun f =>
    if decide (f.1 ∈ known_transaction_ids) then mret tt
    else durable (modify (set_staging (delete f.1))) ;; modify (set_active (fun a => a ∖ {[f.1]}))) files ;;
  mret (list_to_map (((fun f => (f.1, "staged")) <$> filter (fun f => f.1 ∈ known_transaction_ids) files))).
Definition list_orphaned_staging (s : AState) : list string := (map_to_list (staging s)).*1.
(** A new driver on the directories of an earlier one. *)
Definition _discover_staging_transactions : AM unit :=
  names ← gets (fun s => dom (staging s));
  modify (set_active (union names)).
Definition reset : AM unit :=
  modify (set_active (fun _ => ∅)) ;;
  files ← gets (fun s => map_to_list (staging s));
  for_each (fun f => durable (modify (set_staging (delete f.1)))) files.
End Driver.
