(* ===== verification/NamespaceService.v ===== *)
(** * Artifact namespaces (agent_os/artifacts/namespace_service.py)

    A private namespace per process, mounts of other namespaces into it, snapshots. *)

From Stdlib Require Import Ascii.
From S2P Require Import Prelude PyString KernelModels Storage Journal LeaseService ArtifactUri ArtifactModels.
Open Scope Z_scope.

Section Namespaces.
Context `{UuidSource}.

Definition create_namespace (pid : string) (quota_bytes max_open_handles : option Z) : AM ArtifactNamespace :=
  let namespace_id := "ns-" +:+ pid in
  existing ← gets (get_namespace namespace_id);
  match existing with
  | Some ns => mret ns
  | None =>
      now ← now_utc;
      let ns := mkNamespace namespace_id pid ("artifact://" +:+ namespace_id) quota_bytes max_open_handles now in
      upsert_namespace ns ;;
      journal_event pid "ARTIFACT_NAMESPACE_CREATED" (namespace_dump ns) ;;
      mret ns
  end.
Definition get_namespace_for_pid (pid : string) (s : AState) : option ArtifactNamespace :=
  get_namespace ("ns-" +:+ pid) s.

(** [DELETE FROM mounts_projection WHERE target_namespace_id = ?]: the table has no such
    column. *)
Definition delete_mounts_of_target (namespace_id : string) : AM unit :=
  raise (OperationalError "no such column: target_namespace_id").
Definition delete_namespace_rows (namespace_id : string) : AM unit := durable (transaction (
  modify (set_artifacts (filter (fun a => ar_namespace_id a <> namespace_id))) ;;
  delete_mounts_of_target namespace_id ;;
  modify (set_namespaces (tbl_delete ns_namespace_id namespace_id)))).
Definition delete_namespace (pid : string) : AM bool :=
  let namespace_id := "ns-" +:+ pid in
  ns ← gets (get_namespace namespace_id);
  match ns with
  | None => mret false
  | Some _ =>
      delete_namespace_rows namespace_id ;;
      journal_event pid "ARTIFACT_NAMESPACE_DELETED" [("namespace_id", JStr namespace_id)] ;;
      mret true
  end.

Definition with_quota (q : Z) (n : ArtifactNamespace) : ArtifactNamespace :=
  mkNamespace (ns_namespace_id n) (ns_owner_pid n) (ns_root_uri n) (Some q) (ns_max_open_handles n) (ns_created_at n).
Definition set_quota (namespace_id : string) (quota_bytes : Z) : AM unit :=
  ns ← gets (get_namespace namespace_id);
  ns ← some_or_raise ns (ValueError ("Namespace not found: " +:+ namespace_id));
  upsert_namespace (with_quota quota_bytes ns) ;;
  journal_event (ns_owner_pid ns) "ARTIFACT_NAMESPACE_QUOTA_SET"
    [("namespace_id", JStr namespace_id); ("quota_bytes", JInt quota_bytes)].

(** ** Mounts *)

Definition mount (target_pid mount_point source_namespace_id source_prefix mode : string) : AM NamespaceMount :=
  let target_ns_id := "ns-" +:+ target_pid in
  ns ← gets (get_namespace target_ns_id);
  some_or_raise ns (ValueError ("Target namespace not found: " +:+ target_ns_id)) ;;
  id ← fresh_id;
  m ← some_or_raise (mount_mode_of mode) (ValidationError "NamespaceMount");
  now ← now_utc;
  let mnt := mkMount id target_ns_id (strip_slash mount_point) source_namespace_id (strip_slash source_prefix) m now in
  upsert_mount mnt ;;
  journal_event target_pid "ARTIFACT_MOUNT_CREATED" (mount_dump mnt) ;;
  mret mnt.
Definition unmount (target_pid mount_point : string) : AM bool :=
  let target_ns_id := "ns-" +:+ target_pid in
  let mount_point := strip_slash mount_point in
  mounts ← gets (list_mounts target_ns_id);
  match List.find (fun m => String.eqb (nm_mount_point m) mount_point) mounts with
  | Some m =>
      delete_mount (nm_mount_id m) ;;
      journal_event target_pid "ARTIFACT_MOUNT_REMOVED"
        [("mount_id", JStr (nm_mount_id m)); ("mount_point", JStr mount_point)] ;;
      mret true
  | None => mret false
  end.
Definition list_mounts_for_pid (pid : string) (s : AState) : list NamespaceMount := list_mounts ("ns-" +:+ pid) s.

(** [len(s)]: the bytes that do not continue a UTF-8 sequence. *)
Definition py_len (s : string) : Z :=
  Z.of_nat (length (filter (fun a => ~ (128 <= nat_of_ascii a < 192)%nat) (chars s))).
Definition mount_applies (path : string) (m : NamespaceMount) : bool :=
  let mp := nm_mount_point m in String.eqb path mp || startswith (mp +:+ "/") path.
Definition _pick_mount_longest_prefix (mounts : list NamespaceMount) (path : string) : option NamespaceMount :=
  (foldl (fun acc mnt =>
     if mount_applies path mnt && (acc.2 <? py_len (nm_mount_point mnt))
     then (Some mnt, py_len (nm_mount_point mnt)) else acc) (None, -1) mounts).1.
(** [path[len(mp):]] of a path that starts with [mp], below the source prefix. *)
Definition mounted_path (m : NamespaceMount) (path : string) : string :=
  let relative := lstrip_slash (removeprefix (nm_mount_point m) path) in
  if String.eqb (nm_source_prefix m) "" then relative
  else strip_slash (nm_source_prefix m +:+ "/" +:+ relative).
Definition resolve_mount (target_namespace_id path : string) (s : AState) : string * string * MountMode :=
  match _pick_mount_longest_prefix (list_mounts target_namespace_id s) path with
  | None => (target_namespace_id, path, private)
  | Some mnt => (nm_source_namespace_id mnt, mounted_path mnt path, nm_mode mnt)
  end.

(** ** Snapshots *)

(** [f"{artifact_id}:{version}"] *)
Definition version_ref_key (artifact_id : string) (version : Z) : string := artifact_id +:+ ":" +:+ pretty version.
Definition snapshot_of (artifacts : list ArtifactRecord) (s : AState) : list (string * Z) * list (string * string) :=
  foldl (fun acc a =>
    if 0 <? ar_current_version a then
      (dict_set (ar_canonical_uri a) (ar_current_version a) acc.1,
       match get_version (ar_artifact_id a) (ar_current_version a) s with
       | Some ver => dict_set (version_ref_key (ar_artifact_id a) (av_version ver)) (av_content_ref ver) acc.2
       | None => acc.2
       end)
    else acc) ([], []) artifacts.
Definition create_snapshot (pid : string) (namespace_id : option string) : AM NamespaceSnapshot :=
  let namespace_id := default ("ns-" +:+ pid) namespace_id in
  ns ← gets (get_namespace namespace_id);
  some_or_raise ns (ValueError ("Namespace not found: " +:+ namespace_id)) ;;
  vr ← gets (fun s => snapshot_of (list_artifacts namespace_id s) s);
  id ← fresh_id;
  now ← now_utc;
  let snap := mkSnapshot id namespace_id vr.1 vr.2 pid now in
  upsert_snapshot snap ;;
  journal_event pid "ARTIFACT_SNAPSHOT_CREATED" (snapshot_dump snap) ;;
  mret snap.

(** ** Projection *)

Definition payload_str (k : string) (ev : KernelEvent) : AM string :=
  some_or_raise (jget k (payload ev) ≫= as_str) (KeyError k).
Definition handle_event (ev : KernelEvent) : AM unit :=
  let ty := event_type ev in
  if String.eqb ty "ARTIFACT_NAMESPACE_CREATED" then
    now ← now_utc;
    ns ← some_or_raise (namespace_load now (payload ev)) (ValidationError "ArtifactNamespace");
    upsert_namespace ns
  else if String.eqb ty "ARTIFACT_NAMESPACE_QUOTA_SET" then
    id ← payload_str "namespace_id" ev;
    existing_ns ← gets (get_namespace id);
    match existing_ns with
    | Some ns =>
        q ← some_or_raise (jget "quota_bytes" (payload ev) ≫= as_int) (KeyError "quota_bytes");
        upsert_namespace (with_quota q ns)
    | None => mret tt
    end
  else if String.eqb ty "ARTIFACT_MOUNT_CREATED" then
    fresh ← fresh_id; now ← now_utc;
    mnt ← some_or_raise (mount_load fresh now (payload ev)) (ValidationError "NamespaceMount");
    upsert_mount mnt
  else if String.eqb ty "ARTIFACT_MOUNT_REMOVED" then
    id ← payload_str "mount_id" ev; delete_mount id
  else if String.eqb ty "ARTIFACT_NAMESPACE_DELETED" then
    id ← payload_str "namespace_id" ev; delete_namespace_rows id
  else if String.eqb ty "ARTIFACT_SNAPSHOT_CREATED" then
    fresh ← fresh_id; now ← now_utc;
    snap ← some_or_raise (snapshot_load fresh now (payload ev)) (ValidationError "NamespaceSnapshot");
    upsert_snapshot snap
  else mret tt.
End Namespaces.
