(* ===== verification/ArtifactService.v ===== *)
(** * The artifact file system (agent_os/artifacts/service.py)

    Reads, handles, write transactions, recovery, watches and deletion over the tables
    and the content store. The capability, lease and signal services are optional; a flag
    says whether the service was constructed with each. Content is bytes. *)

From S2P Require Import Prelude PyString KernelModels Storage Journal CapabilityService LeaseService SignalService Invalidation ArtifactUri ArtifactModels.
From S2P Require LocalArtifactStorage NamespaceService.
Open Scope Z_scope.

Definition _DEFAULT_MAX_OPEN_HANDLES : nat := 64.
(** [f"{total_bytes / quota_bytes * 100}"], as the [repr] of the float. *)
Class PercentText := percent_of : Z -> Z -> string.

Section Service.
Context `{UuidSource, Sha256, Nfc}.
Context (capability_service lease_service signal_service : bool).

(** ** Resolution and access *)

(** [op_map.get(operation, operation)] *)
Definition capability_op (operation : string) : string :=
  if String.eqb operation "append" then "write" else operation.
Definition namespace_resource (namespace_id : string) : string := "artifact://" +:+ namespace_id +:+ "/**".
Definition check_capability (pid namespace_id operation uri : string) : AM unit :=
  if capability_service then
    ok ← gets (fun s => check pid (namespace_resource namespace_id) (capability_op operation) (kernel_state s));
    raise_if (negb ok) (CapabilityDenied pid uri operation)
  else mret tt.
(** The mount with the longest matching mount point, if its mode lets reads through. *)
Definition best_mount (mounts : list NamespaceMount) (path : string) : option NamespaceMount :=
  (foldl (fun acc mnt =>
     let mp := nm_mount_point mnt in
     if (String.eqb path mp || startswith (mp +:+ "/") path) && (acc.2 <? NamespaceService.py_len mp)
     then (Some mnt, NamespaceService.py_len mp) else acc) (None, -1) mounts).1.
Definition through_mounts (canonical : CanonicalURI) (mounts : list NamespaceMount) : CanonicalURI :=
  match best_mount mounts (cu_path canonical) with
  | Some m =>
      if bool_decide (nm_mode m ∈ [shared_readonly; copy_on_write; shared_readwrite]) then
        let relative := lstrip_slash (removeprefix (nm_mount_point m) (cu_path canonical)) in
        let resolved_path := if String.eqb (nm_source_prefix m) "" then relative
                             else strip_slash (nm_source_prefix m +:+ "/" +:+ relative) in
        canonical_uri_of (nm_source_namespace_id m) resolved_path
      else canonical
  | None => canonical
  end.
Definition resolve_mounts (namespace_id operation : string) (canonical : CanonicalURI) (s : AState) : CanonicalURI :=
  if String.eqb operation "read" && String.eqb (cu_namespace_id canonical) namespace_id then
    match get_artifact_by_uri (cu_canonical canonical) s with
    | Some a => if ar_deleted a then through_mounts canonical (list_mounts namespace_id s) else canonical
    | None => through_mounts canonical (list_mounts namespace_id s)
    end
  else canonical.
Definition _resolve_and_check (pid uri operation : string) : AM CanonicalURI :=
  let namespace_id := "ns-" +:+ pid in
  canonical ← of_result (resolve_workspace_uri uri namespace_id);
  check_capability pid (cu_namespace_id canonical) operation (cu_canonical canonical) ;;
  canonical ← gets (resolve_mounts namespace_id operation canonical);
  (if String.eqb (cu_namespace_id canonical) namespace_id then mret tt
   else check_capability pid (cu_namespace_id canonical) operation (cu_canonical canonical)) ;;
  mret canonical.

(** [ArtifactRecord(namespace_id=..., canonical_uri=..., created_by_pid=...)] *)
Definition new_artifact (namespace_id uri pid : string) : AM ArtifactRecord :=
  id ← fresh_id; now ← now_utc;
  mret (mkArtifact id namespace_id uri 0 "file" pid now now false []).
Definition _create_artifact_record (canonical : CanonicalURI) (pid : string) : AM ArtifactRecord :=
  let namespace_id := cu_namespace_id canonical in
  ns ← gets (get_namespace namespace_id);
  some_or_raise ns (NamespaceNotFound namespace_id) ;;
  rec ← new_artifact namespace_id (cu_canonical canonical) pid;
  upsert_artifact rec ;;
  journal_event pid "ARTIFACT_CREATED" (artifact_dump rec) ;;
  mret rec.

(** ** Reads *)

(** [f"{canonical}@v{version}"] *)
Definition at_version (uri : string) (v : Z) : string := uri +:+ "@v" +:+ pretty v.
(** [version or artifact.current_version] *)
Definition version_or (v : option Z) (current : Z) : Z :=
  match v with Some z => if z =? 0 then current else z | None => current end.
Definition live_artifact (canonical : CanonicalURI) : AM ArtifactRecord :=
  artifact ← gets (get_artifact_by_uri (cu_canonical canonical));
  match artifact with
  | Some a => raise_if (ar_deleted a) (ArtifactNotFound (cu_canonical canonical)) ;; mret a
  | None => raise (ArtifactNotFound (cu_canonical canonical))
  end.
Definition read (pid uri : string) (version : option Z) : AM string :=
  canonical ← _resolve_and_check pid uri "read";
  artifact ← live_artifact canonical;
  raise_if (ar_current_version artifact =? 0) (ArtifactNotFound (cu_canonical canonical)) ;;
  let target_version := version_or version (ar_current_version artifact) in
  raise_if ((target_version <? 1) || (ar_current_version artifact <? target_version))
    (VersionConflict (ar_artifact_id artifact) (Some target_version) (Some (ar_current_version artifact))) ;;
  ver ← gets (get_version (ar_artifact_id artifact) target_version);
  ver ← some_or_raise ver (ArtifactNotFound (at_version (cu_canonical canonical) target_version));
  LocalArtifactStorage.read (av_content_ref ver).
Definition read_metadata (pid uri : string) (version : option Z) : AM jobj :=
  canonical ← _resolve_and_check pid uri "read";
  artifact ← live_artifact canonical;
  let target_version := version_or version (ar_current_version artifact) in
  ver ← gets (get_version (ar_artifact_id artifact) target_version);
  ver ← some_or_raise ver (ArtifactNotFound (at_version (cu_canonical canonical) target_version));
  mret [("artifact_id", JStr (ar_artifact_id artifact)); ("canonical_uri", JStr (ar_canonical_uri artifact));
        ("namespace_id", JStr (ar_namespace_id artifact)); ("version", JInt (av_version ver));
        ("size_bytes", JInt (av_size_bytes ver)); ("content_hash", JStr (av_content_hash ver));
        ("committed_at", JTime (av_committed_at ver)); ("committed_by_pid", JStr (av_committed_by_pid ver))].
(** An empty prefix selects everything. *)
Definition list_artifacts (pid : string) (uri_prefix : option string) : AM (list jobj) :=
  let namespace_id := "ns-" +:+ pid in
  ns ← gets (get_namespace namespace_id);
  some_or_raise ns (NamespaceNotFound namespace_id) ;;
  artifacts ← gets (ArtifactModels.list_artifacts namespace_id);
  mret ((fun a => [("artifact_id", JStr (ar_artifact_id a)); ("canonical_uri", JStr (ar_canonical_uri a));
                   ("current_version", JInt (ar_current_version a)); ("artifact_type", JStr (ar_artifact_type a))])
        <$> filter (fun a => startswith (default "" uri_prefix) (ar_canonical_uri a) = true) artifacts).
Definition list_versions (pid uri : string) : AM (list jobj) :=
  canonical ← _resolve_and_check pid uri "read";
  artifact ← gets (get_artifact_by_uri (cu_canonical canonical));
  artifact ← some_or_raise artifact (ArtifactNotFound (cu_canonical canonical));
  versions ← gets (ArtifactModels.list_versions (ar_artifact_id artifact));
  mret ((fun v => [("artifact_id", JStr (av_artifact_id v)); ("version", JInt (av_version v));
                   ("size_bytes", JInt (av_size_bytes v)); ("content_hash", JStr (av_content_hash v));
                   ("committed_at", JTime (av_committed_at v)); ("parent_version", jint_opt (av_parent_version v))])
        <$> versions).

(** ** Handles *)

Definition lease_resource (artifact_id : string) : string := "artifact:" +:+ artifact_id.
Definition acquire_exclusive (pid artifact_id : string) : AM (list ResourceLease) :=
  on_kernel (atomic_acquire pid [mkClaim (lease_resource artifact_id) (Some exclusive)] DEFAULT_LEASE_TTL).
Definition open (pid uri mode : string) (expected_version : option Z) : AM ArtifactHandle :=
  md ← some_or_raise (handle_mode_of mode) (InvalidArtifactURI uri ("invalid mode: " +:+ mode));
  let writes := match md with Mode_read => false | _ => true end in
  canonical ← _resolve_and_check pid uri mode;
  open_count ← gets (count_open_handles pid);
  raise_if (_DEFAULT_MAX_OPEN_HANDLES <=? open_count)%nat (QuotaExceeded "max_open_handles=64") ;;
  artifact ← gets (get_artifact_by_uri (cu_canonical canonical));
  leases_preacquired ←
    (if bool_decide (artifact = None) && writes && lease_service then
       placeholder ← new_artifact (cu_namespace_id canonical) (cu_canonical canonical) pid;
       acquire_exclusive pid (ar_artifact_id placeholder)
     else mret []);
  artifact ←
    match artifact with
    | Some a => mret a
    | None => raise_if (negb writes) (ArtifactNotFound (cu_canonical canonical)) ;;
              _create_artifact_record canonical pid
    end;
  lease_id ←
    (if writes && lease_service then
       match leases_preacquired with
       | l :: _ => mret (Some (lease_id l))
       | [] => leases ← acquire_exclusive pid (ar_artifact_id artifact); mret (lease_id <$> head leases)
       end
     else mret None);
  id ← fresh_id; now ← now_utc;
  let handle := mkHandle id pid (ar_artifact_id artifact) md
    (match md with Mode_write => None | _ => Some (ar_current_version artifact) end)
    expected_version lease_id None now None in
  upsert_handle handle ;;
  journal_event pid "ARTIFACT_HANDLE_OPENED" (handle_dump handle) ;;
  mret handle.
Definition handle_close (now : Z) (h : ArtifactHandle) : ArtifactHandle :=
  mkHandle (ah_handle_id h) (ah_pid h) (ah_artifact_id h) (ah_mode h) (ah_opened_version h) (ah_expected_version h)
    (ah_lease_id h) (ah_transaction_id h) (ah_opened_at h) (Some now).
Definition close (handle_id : string) : AM bool :=
  handle ← gets (get_handle handle_id);
  match handle with
  | None => mret false
  | Some h =>
      if negb (is_open h) then mret false
      else
        now ← now_utc;
        upsert_handle (handle_close now h) ;;
        match ah_lease_id h with
        | Some l => if negb (String.eqb l "") && lease_service then on_kernel (release [l]) ;; mret tt else mret tt
        | None => mret tt
        end ;;
        journal_event (ah_pid h) "ARTIFACT_HANDLE_CLOSED"
          [("handle_id", JStr handle_id); ("lease_id", jstr_opt (ah_lease_id h))] ;;
        mret true
  end.
Definition close_all_for_pid (pid : string) : AM nat :=
  handles ← gets (list_open_handles_for_pid pid);
  closed ← map_each (fun h => close (ah_handle_id h)) handles;
  mret (length (filter (fun b => b = true) closed)).

(** ** Write transactions *)

Definition is_state (t : WriteTransaction) (l : list TransactionState.t) : bool := bool_decide (wt_state t ∈ l).
Abbreviation st_value t := (TransactionState.value (wt_state t)).
Definition txn_event (ty : string) (t : WriteTransaction) : AM unit := journal_event (wt_pid t) ty (txn_dump t).

Definition new_transaction (pid idempotency_key : string) (expected_version : option Z) (artifact : ArtifactRecord)
    : AM WriteTransaction :=
  raise_if (match expected_version with Some e => negb (ar_current_version artifact =? e) | None => false end)
    (VersionConflict (ar_artifact_id artifact) expected_version (Some (ar_current_version artifact))) ;;
  id ← fresh_id; now ← now_utc;
  let txn := mkTxn id (ar_artifact_id artifact) pid (Some (version_or expected_version (ar_current_version artifact)))
    "" "" 0 TransactionState.opened idempotency_key now None in
  upsert_transaction txn ;;
  txn_event "ARTIFACT_TXN_BEGUN" txn ;;
  mret txn.
Definition begin_write (pid uri idempotency_key : string) (expected_version : option Z) : AM WriteTransaction :=
  canonical ← _resolve_and_check pid uri "write";
  artifact ← gets (get_artifact_by_uri (cu_canonical canonical));
  artifact ← match artifact with Some a => mret a | None => _create_artifact_record canonical pid end;
  existing ← gets (find_transaction_by_idempotency (ar_artifact_id artifact) pid idempotency_key);
  match existing with
  | Some t =>
      raise_if (is_state t [TransactionState.aborted; TransactionState.conflicted])
        (IdempotencyConflict (wt_transaction_id t) (st_value t)) ;;
      mret t
  | None => new_transaction pid idempotency_key expected_version artifact
  end.

(** The quota of the artifact's namespace, for [size] more bytes. *)
Definition check_quota (txn : WriteTransaction) (size : Z) : AM unit :=
  artifact ← gets (get_artifact (wt_artifact_id txn));
  match artifact with
  | None => mret tt
  | Some a =>
      ns ← gets (get_namespace (ar_namespace_id a));
      match ns ≫= ns_quota_bytes with
      | None => mret tt
      | Some quota =>
          current_usage ← gets (count_committed_bytes (ar_namespace_id a));
          if quota <? current_usage + size then
            LocalArtifactStorage.abort (wt_transaction_id txn) ;;
            raise (QuotaExceeded ("namespace " +:+ ar_namespace_id a +:+ " quota: " +:+
                     pretty (current_usage + size) +:+ " > " +:+ pretty quota))
          else mret tt
      end
  end.
Definition stage (transaction_id content : string) : AM WriteTransaction :=
  txn ← gets (get_transaction transaction_id);
  txn ← some_or_raise txn (TransactionNotFound transaction_id);
  raise_if (is_state txn [TransactionState.committed; TransactionState.aborted; TransactionState.conflicted])
    (IdempotencyConflict transaction_id (st_value txn)) ;;
  staged ← LocalArtifactStorage.stage transaction_id content;
  check_quota txn (sa_size_bytes staged) ;;
  let txn := txn_stage (sa_content_ref staged) (sa_content_hash staged) (sa_size_bytes staged) txn in
  upsert_transaction txn ;;
  txn_event "ARTIFACT_TXN_STAGED" txn ;;
  mret txn.

(** [a.current_version = v; a.updated_at = now] *)
Definition with_version (v now : Z) (a : ArtifactRecord) : ArtifactRecord :=
  mkArtifact (ar_artifact_id a) (ar_namespace_id a) (ar_canonical_uri a) v (ar_artifact_type a)
    (ar_created_by_pid a) (ar_created_at a) now (ar_deleted a) (ar_metadata a).
(** The version a transaction adds to its artifact. *)
Definition next_version (a : ArtifactRecord) (txn : WriteTransaction) (ref hash : string) (now : Z) : ArtifactVersion :=
  mkVersion (ar_artifact_id a) (ar_current_version a + 1) ref hash (wt_staged_size_bytes txn)
    (if 0 <? ar_current_version a then Some (ar_current_version a) else None)
    (wt_pid txn) (wt_transaction_id txn) now.

Definition _notify_watches (uri : string) (new_version : Z) (writer_pid : string) : AM nat :=
  if negb signal_service then mret 0%nat
  else
    rows ← gets (fun s => filter (fun w => aw_active w = true /\ aw_pid w <> writer_pid) (artifact_watches_projection s));
    sent ← map_each (fun w =>
      if startswith (aw_uri_prefix w) uri then
        on_kernel (send (aw_pid w) "ARTIFACT_CHANGED" (Some writer_pid)
          (Some [("canonical_uri", JStr uri); ("new_version", JInt new_version);
                 ("watch_id", JStr (aw_watch_id w)); ("uri_prefix", JStr (aw_uri_prefix w))])) ;; mret true
      else mret false) rows;
    mret (length (filter (fun b => b = true) sent)).

Definition commit_conflict (txn : WriteTransaction) (a : ArtifactRecord) : AM WriteTransaction :=
  now ← now_utc;
  let txn' := txn_finish TransactionState.conflicted now txn in
  upsert_transaction txn' ;;
  LocalArtifactStorage.abort (wt_transaction_id txn) ;;
  txn_event "ARTIFACT_TXN_CONFLICTED" txn' ;;
  raise (VersionConflict (ar_artifact_id a) (wt_expected_version txn) (Some (ar_current_version a))).
(** Steps 4 to 8. *)
Definition commit_version (txn : WriteTransaction) (a : ArtifactRecord) (ref hash : string) : AM WriteTransaction :=
  let new_version := ar_current_version a + 1 in
  now ← now_utc;
  insert_version (next_version a txn ref hash now) ;;
  upsert_artifact (with_version new_version now a) ;;
  let txn' := txn_finish TransactionState.committed now txn in
  upsert_transaction txn' ;;
  insert_idempotency (wt_idempotency_key txn) (ar_artifact_id a) (wt_pid txn) (wt_transaction_id txn)
    "committed" (Some new_version) ;;
  journal_event (wt_pid txn) "ARTIFACT_TXN_COMMITTED" (txn_dump txn' ++ [("new_version", JInt new_version)]) ;;
  _notify_watches (ar_canonical_uri a) new_version (wt_pid txn) ;;
  mret txn'.
Definition commit (transaction_id : string) : AM WriteTransaction :=
  txn ← gets (get_transaction transaction_id);
  txn ← some_or_raise txn (TransactionNotFound transaction_id);
  if is_state txn [TransactionState.committed] then mret txn
  else
    raise_if (is_state txn [TransactionState.aborted; TransactionState.conflicted])
      (IdempotencyConflict transaction_id (st_value txn)) ;;
    raise_if (negb (is_state txn [TransactionState.staged])) (VersionConflict (wt_artifact_id txn) None (Some 0)) ;;
    artifact ← gets (get_artifact (wt_artifact_id txn));
    artifact ← some_or_raise artifact (ArtifactNotFound (wt_artifact_id txn));
    if match wt_expected_version txn with Some e => negb (ar_current_version artifact =? e) | None => false end
    then commit_conflict txn artifact
    else
      commit_result ← LocalArtifactStorage.commit transaction_id;
      (* the result has no content_hash *)
      let committed_hash := wt_staged_content_hash txn in
      let committed_ref := if String.eqb (cr_content_ref commit_result) "" then wt_staged_content_ref txn
                           else cr_content_ref commit_result in
      there ← gets (LocalArtifactStorage.exists_ (wt_staged_content_ref txn));
      if negb (cr_committed commit_result) && String.eqb (cr_content_ref commit_result) "" && negb there then
        now ← now_utc;
        let txn' := txn_finish TransactionState.uncertain now txn in
        upsert_transaction txn' ;;
        txn_event "ARTIFACT_TXN_UNCERTAIN" txn' ;;
        mret txn'
      else commit_version txn artifact committed_ref committed_hash.

Definition abort (transaction_id : string) : AM WriteTransaction :=
  txn ← gets (get_transaction transaction_id);
  txn ← some_or_raise txn (TransactionNotFound transaction_id);
  if is_state txn [TransactionState.committed; TransactionState.aborted] then mret txn
  else
    LocalArtifactStorage.abort transaction_id ;;
    now ← now_utc;
    let txn' := txn_finish TransactionState.aborted now txn in
    upsert_transaction txn' ;;
    txn_event "ARTIFACT_TXN_ABORTED" txn' ;;
    mret txn'.

Definition write (pid uri content idempotency_key : string) (expected_version : option Z) : AM WriteTransaction :=
  txn ← begin_write pid uri idempotency_key expected_version;
  if is_state txn [TransactionState.committed] then mret txn
  else stage (wt_transaction_id txn) content ;; commit (wt_transaction_id txn).

(** ** Recovery *)

(** A committed transaction's missing version; [true] when one was created. *)
Definition recover_version (txn : WriteTransaction) : AM bool :=
  artifact ← gets (get_artifact (wt_artifact_id txn));
  match artifact with
  | None => mret false
  | Some a =>
      existing ← gets (version_of_txn (wt_transaction_id txn));
      match existing with
      | Some _ => mret false
      | None =>
          now ← now_utc;
          insert_version (next_version a txn (wt_staged_content_ref txn) (wt_staged_content_hash txn) now) ;;
          upsert_artifact (with_version (ar_current_version a + 1) now a) ;;
          mret true
      end
  end.
Definition recover_txn (txn : WriteTransaction) : AM bool :=
  there ← gets (LocalArtifactStorage.exists_ (wt_staged_content_ref txn));
  if there : bool then
    created ← recover_version txn;
    now ← now_utc;
    upsert_transaction (txn_finish TransactionState.committed now txn) ;;
    mret created
  else
    now ← now_utc;
    upsert_transaction (txn_finish TransactionState.aborted now txn) ;;
    mret false.
Record RecoveryReport : Type := mkReport { uncertain_resolved : nat; orphaned_cleaned : nat; versions_created : nat }.
Definition recover : AM RecoveryReport :=
  rows ← gets (fun s => filter (fun t => wt_state t = TransactionState.uncertain) (write_transactions_projection s));
  created ← map_each recover_txn rows;
  known_txns ← gets (fun s => list_to_set (wt_transaction_id <$> write_transactions_projection s) : gset string);
  orphan_report ← LocalArtifactStorage.recover known_txns;
  mret (mkReport (length rows) (map_size orphan_report) (length (filter (fun b => b = true) created))).

(** ** Watches, usage, deletion *)

Definition watch (pid uri_prefix : string) : AM ArtifactWatch :=
  id ← fresh_id; now ← now_utc;
  let w := mkWatch id pid ("ns-" +:+ pid) uri_prefix now true in
  upsert_watch w ;;
  journal_event pid "ARTIFACT_WATCH_REGISTERED" (watch_dump w) ;;
  mret w.
Definition watch_off (w : ArtifactWatch) : ArtifactWatch :=
  mkWatch (aw_watch_id w) (aw_pid w) (aw_namespace_id w) (aw_uri_prefix w) (aw_created_at w) false.
Definition unwatch (watch_id : string) : AM bool :=
  durable (modify (set_watches (tbl_update aw_watch_id watch_off watch_id))) ;; mret true.
Definition list_watches (pid : string) (s : AState) : list ArtifactWatch := list_active_watches ("ns-" +:+ pid) s.

Definition get_namespace_usage `{PercentText} (namespace_id : string) : AM jobj :=
  ns ← gets (get_namespace namespace_id);
  ns ← some_or_raise ns (NamespaceNotFound namespace_id);
  total_bytes ← gets (count_committed_bytes namespace_id);
  artifacts ← gets (ArtifactModels.list_artifacts namespace_id);
  version_count ← gets (fun s => foldr (fun a n => length (ArtifactModels.list_versions (ar_artifact_id a) s) + n)%nat 0%nat artifacts);
  mret [("total_bytes", JInt total_bytes); ("artifact_count", JInt (Z.of_nat (length artifacts)));
        ("version_count", JInt (Z.of_nat version_count)); ("quota_bytes", jint_opt (ns_quota_bytes ns));
        ("quota_used_pct", match ns_quota_bytes ns with
                           | Some q => if q =? 0 then JNull else JFloat (percent_of total_bytes q)
                           | None => JNull
                           end)].

Definition artifact_delete (now : Z) (a : ArtifactRecord) : ArtifactRecord :=
  mkArtifact (ar_artifact_id a) (ar_namespace_id a) (ar_canonical_uri a) (ar_current_version a) (ar_artifact_type a)
    (ar_created_by_pid a) (ar_created_at a) now true (ar_metadata a).
Definition delete_ (pid uri : string) : AM bool :=
  canonical ← _resolve_and_check pid uri "write";
  artifact ← gets (get_artifact_by_uri (cu_canonical canonical));
  a ← some_or_raise artifact (ArtifactNotFound (cu_canonical canonical));
  now ← now_utc;
  upsert_artifact (artifact_delete now a) ;;
  journal_event pid "ARTIFACT_DELETED"
    [("artifact_id", JStr (ar_artifact_id a)); ("canonical_uri", JStr (cu_canonical canonical))] ;;
  mret true.

(** ** Projection *)

Definition is_txn_event (ty : string) : bool :=
  bool_decide (ty ∈ ["ARTIFACT_TXN_STAGED"; "ARTIFACT_TXN_COMMITTED"; "ARTIFACT_TXN_ABORTED";
                     "ARTIFACT_TXN_CONFLICTED"; "ARTIFACT_TXN_UNCERTAIN"]).
(** The version of a replayed commit. *)
Definition replay_commit (txn : WriteTransaction) (new_version : Z) : AM unit :=
  now ← now_utc;
  insert_version (mkVersion (wt_artifact_id txn) new_version (wt_staged_content_ref txn) (wt_staged_content_hash txn)
    (wt_staged_size_bytes txn) (if 1 <? new_version then Some (new_version - 1) else None) (wt_pid txn)
    (wt_transaction_id txn) (match wt_finished_at txn with Some _ => wt_created_at txn | None => now end)) ;;
  artifact ← gets (get_artifact (wt_artifact_id txn));
  match artifact with
  | Some a => now ← now_utc; upsert_artifact (with_version new_version now a)
  | None => mret tt
  end.
Definition handle_event (ev : KernelEvent) : AM unit :=
  let ty := event_type ev in
  if String.eqb ty "ARTIFACT_CREATED" then
    fresh ← fresh_id; now ← now_utc;
    rec ← some_or_raise (artifact_load fresh now (payload ev)) (ValidationError "ArtifactRecord");
    upsert_artifact rec
  else if String.eqb ty "ARTIFACT_VERSION_COMMITTED" then
    now ← now_utc;
    ver ← some_or_raise (version_load now (payload ev)) (ValidationError "ArtifactVersion");
    insert_version ver ;;
    artifact ← gets (get_artifact (av_artifact_id ver));
    match artifact with
    | Some a => upsert_artifact (with_version (av_version ver) (av_committed_at ver) a)
    | None => mret tt
    end
  else if String.eqb ty "ARTIFACT_HANDLE_OPENED" then
    fresh ← fresh_id; now ← now_utc;
    handle ← some_or_raise (handle_load fresh now (payload ev)) (ValidationError "ArtifactHandle");
    upsert_handle handle
  else if String.eqb ty "ARTIFACT_HANDLE_CLOSED" then
    handle_id ← NamespaceService.payload_str "handle_id" ev;
    closed_handle ← gets (get_handle handle_id);
    match closed_handle with
    | Some h => now ← now_utc; upsert_handle (handle_close now h)
    | None => mret tt
    end
  else if String.eqb ty "ARTIFACT_TXN_BEGUN" then
    fresh ← fresh_id; now ← now_utc;
    txn ← some_or_raise (txn_load fresh now (payload ev)) (ValidationError "WriteTransaction");
    upsert_transaction txn
  else if is_txn_event ty then
    fresh ← fresh_id; now ← now_utc;
    txn ← some_or_raise (txn_load fresh now (filter (fun kv => kv.1 <> "new_version") (payload ev)))
            (ValidationError "WriteTransaction");
    upsert_transaction txn ;;
    match jget "new_version" (payload ev) with
    | Some j =>
        if String.eqb ty "ARTIFACT_TXN_COMMITTED" then
          new_version ← some_or_raise (as_int j) (ValidationError "ArtifactVersion");
          replay_commit txn new_version
        else mret tt
    | None => mret tt
    end
  else if String.eqb ty "ARTIFACT_DELETED" then
    artifact_id ← NamespaceService.payload_str "artifact_id" ev;
    artifact ← gets (get_artifact artifact_id);
    match artifact with
    | Some a => now ← now_utc; upsert_artifact (artifact_delete now a)
    | None => mret tt
    end
  else if String.eqb ty "ARTIFACT_WATCH_REGISTERED" then
    fresh ← fresh_id; now ← now_utc;
    w ← some_or_raise (watch_load fresh now (payload ev)) (ValidationError "ArtifactWatch");
    upsert_watch w
  else mret tt.
End Service.
