(* ===== verification/ArtifactFacts.v ===== *)
(** * Facts about the artifact file system: what every operation keeps

    The invariant of the artifact, version and transaction tables and of the content
    store, and that every method keeps it wherever it is stopped: versions are only
    added, content is only added, identities do not change. *)

From S2P Require Import Prelude PyString KernelModels Storage Journal CapabilityService LeaseService SignalService Invalidation ArtifactUri ArtifactModels.
From S2P Require LocalArtifactStorage NamespaceService.
From S2P Require Import ArtifactService.
Open Scope Z_scope.

(** ** Tables *)

Section Upsert.
Context {R K : Type} `{EqDecision K} (key : R -> K).
Lemma tbl_upsert_None upd r (t : list R) : tbl_find key (key r) t = None -> tbl_upsert key upd r t = t ++ [r].
Proof.
  induction t as [|r0 t IH]; cbn; [done|]. case_decide as Hk; [done|].
  intros E. by rewrite IH.
Qed.
Lemma tbl_upsert_fmap {T} (g : R -> T) upd r r0 (t : list R) : tbl_find key (key r) t = Some r0 ->
  (forall x, g (upd x r) = g x) -> g <$> tbl_upsert key upd r t = g <$> t.
Proof.
  intros E Hg. induction t as [|x t IH]; cbn in *; [done|].
  destruct (decide (key x = key r)); cbn; [by rewrite Hg|]. by rewrite IH.
Qed.
(** A row of the table after an update of the row [r0]. *)
Lemma tbl_upsert_elem upd r r0 (t : list R) x : NoDup (key <$> t) -> tbl_find key (key r) t = Some r0 ->
  (x ∈ tbl_upsert key upd r t <-> x = upd r0 r \/ x ∈ t /\ key x <> key r).
Proof.
  induction t as [|y t IH]; cbn; [done|]. intros [Hn Hd]%NoDup_cons. case_decide as Hk.
  - intros [= ->]. rewrite !elem_of_cons. split.
    + intros [->|Hx]; [by left|]. right. split; [by right|]. intros E. apply Hn. rewrite Hk, <-E. by apply list_elem_of_fmap_2.
    + intros [->|[[->|Hx] ?]]; [by left|done|by right].
  - intros E. rewrite !elem_of_cons, (IH Hd E). naive_solver.
Qed.
(** INSERT OR IGNORE adds at the end or does nothing. *)
Lemma tbl_ignore_prefix r (t : list R) :
  tbl_upsert key (fun old _ => old) r t = match tbl_find key (key r) t with Some _ => t | None => t ++ [r] end.
Proof.
  induction t as [|x t IH]; cbn; [done|]. case_decide; [done|]. rewrite IH. by destruct (tbl_find _ _ t).
Qed.
End Upsert.

(** ** Steps *)

(** A bind, at a state. *)
Lemma at_bind {S A B} (R : S -> S -> Prop) `{!Transitive R} (m : M S A) (k : A -> M S B) s :
  R s (m s).2 -> (forall a s1, m s = (Ok a, s1) -> R s1 (k a s1).2) -> R s ((m ≫= k) s).2.
Proof.
  intros Hm Hk. unfold mbind, M_bind. destruct (m s) as [[a|e] s1] eqn:E; cbn in *; [|done].
  transitivity s1; [done|]. by apply Hk.
Qed.

(** What the invariant is about, and the identifiers drawn. *)
Definition core (s : AState) :=
  (artifacts_projection s, artifact_versions_projection s, write_transactions_projection s, cas s).
Definition drawn (s : AState) : N := uuid_count (kernel_state s).
Definition quiet (s s' : AState) : Prop := core s' = core s /\ (drawn s <= drawn s')%N.
#[global] Instance quiet_preorder : PreOrder quiet.
Proof. split; [by intros s; split|]. intros s1 s2 s3 [E1 L1] [E2 L2]. split; [congruence|lia]. Qed.

Definition uuid_le (k k' : KState) : Prop := (uuid_count k <= uuid_count k')%N.
#[global] Instance uuid_le_preorder : PreOrder uuid_le.
Proof. unfold uuid_le. split; [intros k; lia|]. intros k1 k2 k3. lia. Qed.
#[global] Instance uuid_le_frame : JFrame uuid_le.
Proof. split; [apply _|intros; cbn; unfold uuid_le; cbn; lia..]. Qed.

Section Quiet.
Context `{UuidSource}.
Lemma durable_quiet {A} (m : AM A) : within quiet m -> within quiet (durable m).
Proof.
  intros Hm s. unfold durable. destruct (stop_at s) as [[[|n] k]|]; [reflexivity| |apply Hm].
  transitivity (set_stop (fun _ => Some (n, k)) s); [by split|apply Hm].
Qed.
Lemma on_kernel_read_quiet {A} (m : M KState A) : within uuid_le m -> within quiet (on_kernel_read m).
Proof.
  intros Hm s. unfold on_kernel_read. specialize (Hm (kernel_state s)). destruct (m (kernel_state s)) as [r k].
  split; [done|exact Hm].
Qed.
Lemma on_kernel_quiet {A} (m : M KState A) : within uuid_le m -> within quiet (on_kernel m).
Proof. intros Hm. by apply durable_quiet, on_kernel_read_quiet. Qed.
Lemma fresh_id_quiet : within quiet fresh_id.
Proof. apply on_kernel_read_quiet. eauto with lhos typeclass_instances. Qed.
Lemma now_quiet : within quiet now_utc.
Proof. intros s. reflexivity. Qed.
Lemma journal_event_quiet pid ty pl : within quiet (journal_event pid ty pl).
Proof. unfold journal_event. within_step; [|solve_within]. apply on_kernel_quiet. eauto with lhos typeclass_instances. Qed.
Lemma modify_uuid f : (forall k, uuid_count (f k) = uuid_count k) -> within uuid_le (modify f).
Proof. intros Hf k. unfold uuid_le. cbn. rewrite Hf. lia. Qed.
End Quiet.
#[export] Hint Resolve fresh_id_quiet now_quiet journal_event_quiet : lhos.
#[export] Hint Extern 2 (within uuid_le (modify _)) => apply modify_uuid; reflexivity : lhos.
#[export] Hint Extern 2 (within quiet (modify _)) => intros ?; split; reflexivity : lhos.
#[export] Hint Extern 2 (within quiet (durable _)) => apply durable_quiet : lhos.

Section KernelCalls.
Context `{UuidSource}.
Lemma publish_uuid specs : within uuid_le (publish specs).
Proof. unfold publish. solve_within; eauto with lhos typeclass_instances. Qed.
#[local] Hint Resolve publish_uuid : lhos.
Lemma atomic_acquire_uuid pid claims ttl : within uuid_le (atomic_acquire pid claims ttl).
Proof.
  unfold atomic_acquire, acquire_tx, acquire_claim, next_token, clear_waiters_for_pid, _add_waiter, delete_waiters.
  solve_within; eauto with lhos typeclass_instances.
Qed.
Lemma release_uuid ids : within uuid_le (release ids).
Proof.
  unfold release, release_one, delete_leases. solve_within; eauto with lhos typeclass_instances.
Qed.
Lemma send_uuid target ty src pl : within uuid_le (send target ty src pl).
Proof. unfold send, _upsert_signal. solve_within; eauto with lhos typeclass_instances. Qed.
End KernelCalls.
#[export] Hint Resolve atomic_acquire_uuid release_uuid send_uuid : lhos.
#[export] Hint Extern 2 (within quiet (on_kernel _)) => apply on_kernel_quiet : lhos.

(** ** The invariant *)

Section Invariant.
Context `{UuidSource, Sha256}.

Definition version_keys (vs : list ArtifactVersion) : list (string * Z) := version_key <$> vs.
(** The versions of an artifact are numbered from 1 to its current version; the next one
    may be there when a commit was stopped before it raised the current version. *)
Definition spans (vs : list ArtifactVersion) (a : ArtifactRecord) : Prop :=
  0 <= ar_current_version a /\
  (forall v, (ar_artifact_id a, v) ∈ version_keys vs -> 1 <= v <= ar_current_version a + 1) /\
  (forall v, 1 <= v <= ar_current_version a -> (ar_artifact_id a, v) ∈ version_keys vs).
Definition version_ok (arts : list ArtifactRecord) (c : gmap string string) (v : ArtifactVersion) : Prop :=
  av_artifact_id v ∈ ar_artifact_id <$> arts /\ is_Some (c !! av_content_ref v) /\
  av_parent_version v = (if 1 <? av_version v then Some (av_version v - 1) else None).

Record core_ok (u : N) (arts : list ArtifactRecord) (vs : list ArtifactVersion) (ts : list WriteTransaction)
    (c : gmap string string) : Prop := {
  co_ids : NoDup (ar_artifact_id <$> arts);
  co_uris : NoDup (ar_canonical_uri <$> arts);
  co_drawn a : a ∈ arts -> exists n, (n < u)%N /\ ar_artifact_id a = uuid4 n;
  co_uri a : a ∈ arts -> exists path, ar_canonical_uri a = artifact_uri (ar_namespace_id a) path;
  co_txns : NoDup (wt_transaction_id <$> ts);
  co_txn_keys : NoDup (txn_key <$> ts);
  co_txn_drawn t : t ∈ ts -> exists n, (n < u)%N /\ wt_transaction_id t = uuid4 n;
  co_keys : NoDup (version_keys vs);
  co_spans a : a ∈ arts -> spans vs a;
  co_versions v : v ∈ vs -> version_ok arts c v;
  co_digests : map_Forall (fun h content => sha256_hexdigest content = h) c }.
Definition fs_ok (s : AState) : Prop :=
  core_ok (drawn s) (artifacts_projection s) (artifact_versions_projection s) (write_transactions_projection s) (cas s).

(** The identity of an artifact stays, and its current version does not go back. *)
Definition artifact_le (a a' : ArtifactRecord) : Prop :=
  ar_artifact_id a' = ar_artifact_id a /\ ar_canonical_uri a' = ar_canonical_uri a /\
  ar_namespace_id a' = ar_namespace_id a /\ ar_current_version a <= ar_current_version a'.
Record grows (s s' : AState) : Prop := {
  gr_artifacts a : a ∈ artifacts_projection s -> exists a', a' ∈ artifacts_projection s' /\ artifact_le a a';
  gr_versions : artifact_versions_projection s `prefix_of` artifact_versions_projection s';
  gr_cas : cas s ⊆ cas s';
  gr_drawn : (drawn s <= drawn s')%N }.
#[global] Instance grows_preorder : PreOrder grows.
Proof.
  split.
  - intros s. split; [|done..|lia]. intros a Ha. exists a. split; [done|]. split_and!; [done..|lia].
  - intros s1 s2 s3 H12 H23. split.
    + intros a Ha. destruct (gr_artifacts _ _ H12 a Ha) as (a' & Ha' & ? & ? & ? & ?).
      destruct (gr_artifacts _ _ H23 a' Ha') as (b & Hb & ? & ? & ? & ?). exists b. split; [done|].
      split_and!; [congruence..|lia].
    + etransitivity; [apply H12|apply H23].
    + etransitivity; [apply H12|apply H23].
    + pose proof (gr_drawn _ _ H12). pose proof (gr_drawn _ _ H23). lia.
Qed.
Definition fs_step (s s' : AState) : Prop := fs_ok s -> fs_ok s' /\ grows s s'.
#[global] Instance fs_step_preorder : PreOrder fs_step.
Proof.
  split; [intros s Hs; split; [done|reflexivity]|]. intros s1 s2 s3 H12 H23 H1.
  destruct (H12 H1) as [H2 G1]. destruct (H23 H2) as [H3 G2]. split; [done|by transitivity s2].
Qed.

Lemma core_drawn u u' arts vs ts c : (u <= u')%N -> core_ok u arts vs ts c -> core_ok u' arts vs ts c.
Proof.
  intros Hu []. split; try done.
  - intros a Ha. destruct (co_drawn0 a Ha) as (n & ? & ?). exists n. split; [lia|done].
  - intros t Ht. destruct (co_txn_drawn0 t Ht) as (n & ? & ?). exists n. split; [lia|done].
Qed.
Lemma quiet_step s s' : quiet s s' -> fs_step s s'.
Proof.
  intros [E Hu] Hs. unfold core in E. simplify_eq.
  assert (artifacts_projection s' = artifacts_projection s /\ artifact_versions_projection s' = artifact_versions_projection s /\
    write_transactions_projection s' = write_transactions_projection s /\ cas s' = cas s) as (E1 & E2 & E3 & E4) by (by simplify_eq).
  split.
  - unfold fs_ok. rewrite E1, E2, E3, E4. by apply (core_drawn (drawn s)).
  - split; [|by rewrite E2|by rewrite E4|done]. rewrite E1. intros a Ha. exists a. split; [done|]. split_and!; [done..|lia].
Qed.
Lemma within_quiet {A} (m : AM A) : within quiet m -> within fs_step m.
Proof. intros Hm s. apply quiet_step, Hm. Qed.

(** ** The writes *)

Lemma durable_step {A} (m : AM A) s :
  (forall st, fs_step (set_stop st s) (m (set_stop st s)).2) -> fs_step s (durable m s).2.
Proof.
  intros Hm. unfold durable. destruct (stop_at s) as [[[|n] k]|] eqn:E; [reflexivity| |].
  - transitivity (set_stop (fun _ => Some (n, k)) s); [apply quiet_step; by split|apply Hm].
  - transitivity (set_stop (fun x => x) s); [apply quiet_step; by split|].
    replace s with (set_stop (fun x => x) s) at 2 by (by destruct s). apply Hm.
Qed.
(** A change of the artifact table. *)
Lemma artifacts_step s f : fs_ok s ->
  core_ok (drawn s) (f (artifacts_projection s)) (artifact_versions_projection s) (write_transactions_projection s) (cas s) ->
  (forall a, a ∈ artifacts_projection s -> exists a', a' ∈ f (artifacts_projection s) /\ artifact_le a a') ->
  fs_step s (set_artifacts f s).
Proof. intros Hs Hok Hle _. split; [exact Hok|]. by split. Qed.

Lemma insert_artifact_ok u arts vs ts c rec n path : core_ok u arts vs ts c ->
  ar_artifact_id rec = uuid4 n -> (n < u)%N -> ar_artifact_id rec ∉ ar_artifact_id <$> arts ->
  ar_canonical_uri rec ∉ ar_canonical_uri <$> arts -> ar_current_version rec = 0 ->
  ar_canonical_uri rec = artifact_uri (ar_namespace_id rec) path -> core_ok u (arts ++ [rec]) vs ts c.
Proof.
  intros [] Hid Hn Hnew Huri Hcv Hpath. split; try done.
  - rewrite fmap_app. apply NoDup_app. split_and!; [done| |apply NoDup_singleton]. set_solver.
  - rewrite fmap_app. apply NoDup_app. split_and!; [done| |apply NoDup_singleton]. set_solver.
  - intros a [Ha| ->%list_elem_of_singleton]%elem_of_app; [auto|by exists n].
  - intros a [Ha| ->%list_elem_of_singleton]%elem_of_app; [auto|by exists path].
  - intros a [Ha| ->%list_elem_of_singleton]%elem_of_app; [auto|]. split_and!; [lia| |lia].
    intros v (x & Hx & Hv)%list_elem_of_fmap. injection Hx as Hx _. exfalso. apply Hnew. rewrite Hx. by apply co_versions0.
  - intros v Hv. destruct (co_versions0 v Hv) as (? & ? & ?). split; [|done]. rewrite fmap_app. set_solver.
Qed.

Lemma upsert_new_artifact s rec n path : fs_ok s ->
  ar_artifact_id rec = uuid4 n -> (n < drawn s)%N -> ar_artifact_id rec ∉ ar_artifact_id <$> artifacts_projection s ->
  ar_current_version rec = 0 -> ar_canonical_uri rec = artifact_uri (ar_namespace_id rec) path ->
  fs_step s (upsert_artifact rec s).2.
Proof.
  intros Hs Hid Hn Hnew Hcv Hpath. unfold upsert_artifact. apply durable_step. intros st.
  rewrite gets_bind. apply (at_bind fs_step); [apply (within_raise_if fs_step)|].
  intros [] s1 E. unfold raise_if in E.
  assert (tbl_find ar_artifact_id (ar_artifact_id rec) (artifacts_projection (set_stop st s)) = None) as Hnone.
  { apply tbl_find_None. intros r Hr Er. apply Hnew. rewrite <-Er. by apply list_elem_of_fmap_2. }
  rewrite Hnone, bool_decide_eq_true_2 in E by done. cbn [andb] in E. case_bool_decide as Hu; [done|].
  injection E as <-. apply artifacts_step; [exact Hs| |].
  - rewrite (tbl_upsert_None ar_artifact_id _ (artifact_row rec)) by exact Hnone.
    by apply (insert_artifact_ok _ _ _ _ _ (artifact_row rec) n path).
  - intros a Ha. exists a. split; [|split_and!; [done..|lia]].
    rewrite (tbl_upsert_None ar_artifact_id _ (artifact_row rec)) by exact Hnone. set_solver.
Qed.

(** The current version stays or, once the next version is there, goes up to it. *)
Lemma upsert_same_artifact s a rec : fs_ok s -> get_artifact (ar_artifact_id rec) s = Some a ->
  ar_current_version rec = ar_current_version a \/
  ar_current_version rec = ar_current_version a + 1 /\
    (ar_artifact_id a, ar_current_version a + 1) ∈ version_keys (artifact_versions_projection s) ->
  fs_step s (upsert_artifact rec s).2.
Proof.
  intros Hs Hget Hcv. unfold upsert_artifact. apply durable_step. intros st.
  rewrite gets_bind. unfold get_artifact in Hget. cbn [artifacts_projection set_stop].
  rewrite Hget, bool_decide_eq_false_2 by done. cbn [andb raise_if].
  change (fs_step (set_stop st s) (set_artifacts (tbl_upsert ar_artifact_id artifact_conflict (artifact_row rec)) (set_stop st s))).
  pose proof (co_ids _ _ _ _ _ Hs) as Hids. set (arts := artifacts_projection s) in *.
  assert (forall x, x ∈ tbl_upsert ar_artifact_id artifact_conflict (artifact_row rec) arts <->
    x = artifact_conflict a (artifact_row rec) \/ x ∈ arts /\ ar_artifact_id x <> ar_artifact_id rec) as Hin
    by (intros x; by apply (tbl_upsert_elem ar_artifact_id artifact_conflict (artifact_row rec) a arts x)).
  pose proof Hget as [Hid Ha]%tbl_find_Some.
  apply artifacts_step; [exact Hs| |].
  - destruct Hs. cbn [artifacts_projection set_stop]. fold arts. split; try done.
    + by rewrite (tbl_upsert_fmap ar_artifact_id ar_artifact_id _ _ a).
    + by rewrite (tbl_upsert_fmap ar_artifact_id ar_canonical_uri _ _ a).
    + intros x [->|[Hx _]]%Hin; [by apply (co_drawn0 a)|auto].
    + intros x [->|[Hx _]]%Hin; [by apply (co_uri0 a)|auto].
    + intros x [->|[Hx _]]%Hin; [|auto]. destruct (co_spans0 a Ha) as (H1 & H2 & H3).
      destruct Hcv as [E|[E Hk]]; unfold spans; cbn; rewrite E; [done|]. split_and!; [lia| |].
      * intros v Hv%H2. lia.
      * intros v Hv. destruct (decide (v = ar_current_version a + 1)) as [->|]; [done|]. apply H3. lia.
    + intros v Hv. destruct (co_versions0 v Hv) as (? & ? & ?). split; [|done].
      by rewrite (tbl_upsert_fmap ar_artifact_id ar_artifact_id _ _ a).
  - intros x Hx. destruct (decide (ar_artifact_id x = ar_artifact_id rec)) as [E|E].
    + assert (x = a) as -> by (apply (NoDup_key_inj ar_artifact_id arts); [done..|congruence]).
      exists (artifact_conflict a (artifact_row rec)). split; [apply Hin; by left|].
      split_and!; [done..|cbn; destruct Hcv as [->|[-> _]]; lia].
    + exists x. split; [apply Hin; by right|]. split_and!; [done..|lia].
Qed.

(** The version after the current one of an artifact, unless it is there already. *)
Lemma insert_next_version s a txn ref hash now : fs_ok s -> get_artifact (ar_artifact_id a) s = Some a ->
  is_Some (cas s !! ref) -> fs_step s (insert_version (next_version a txn ref hash now) s).2.
Proof.
  intros Hs Hget Href. unfold insert_version. apply durable_step. intros st. set (ver := next_version _ _ _ _ _).
  change (fs_step (set_stop st s) (set_versions (tbl_upsert version_key (fun old _ => old) ver) (set_stop st s))).
  pose proof Hget as [_ Ha]%tbl_find_Some. destruct Hs as [H1 H2 H3 H4 H5 H6 H7 Hkeys Hspans Hvers H10].
  set (vs := artifact_versions_projection s) in *.
  intros _. unfold fs_ok. cbn -[tbl_upsert]. fold vs. rewrite (tbl_ignore_prefix version_key ver vs).
  destruct (tbl_find version_key (version_key ver) vs) as [old|] eqn:E.
  { split; [by split|]. split; cbn -[tbl_upsert]; [| |done..]; [intros x Hx; exists x; split; [done|split_and!; [done..|lia]]|].
    fold vs. by rewrite (tbl_ignore_prefix version_key ver vs), E. }
  assert (version_key ver ∉ version_keys vs) as Hnew.
  { intros (x & Hx & Hin)%list_elem_of_fmap. rewrite tbl_find_None in E. by apply (E x). }
  destruct (Hspans a Ha) as (S1 & S2 & S3).
  split; [split; try done|].
  - unfold version_keys. rewrite fmap_app. apply NoDup_app. split_and!; [done| |apply NoDup_singleton]. intros k Hk ->%list_elem_of_singleton. done.
  - intros x Hx. destruct (Hspans x Hx) as (X1 & X2 & X3). unfold spans, version_keys. rewrite fmap_app. split_and!; [done| |].
    + intros v [Hv|Hv%list_elem_of_singleton]%elem_of_app; [by apply X2|]. injection Hv as Hid ->.
      assert (x = a) as -> by (by apply (NoDup_key_inj ar_artifact_id (artifacts_projection s))). lia.
    + intros v Hv. apply elem_of_app. left. by apply X3.
  - intros v [Hv| ->%list_elem_of_singleton]%elem_of_app; [by apply Hvers|].
    split_and!; [by apply (list_elem_of_fmap_2 ar_artifact_id)|done|]. cbn.
    destruct (0 <? ar_current_version a) eqn:Ec; destruct (1 <? ar_current_version a + 1) eqn:Ec'; try lia; [f_equal; lia|done].
  - split; cbn -[tbl_upsert]; [intros x Hx; exists x; split; [done|split_and!; [done..|lia]]| |done..].
    fold vs. rewrite (tbl_ignore_prefix version_key ver vs), E. by eexists.
Qed.
Lemma insert_version_run ver s : exists r s', insert_version ver s = (r, s') /\ artifacts_projection s' = artifacts_projection s /\
  write_transactions_projection s' = write_transactions_projection s /\ cas s' = cas s /\
  forall u, r = Ok u -> version_key ver ∈ version_keys (artifact_versions_projection s').
Proof.
  assert (forall st, version_key ver ∈ version_keys (artifact_versions_projection
    (set_versions (tbl_upsert version_key (fun old _ => old) ver) (set_stop st s)))) as Hin.
  { intros st. cbn -[tbl_upsert]. rewrite (tbl_ignore_prefix version_key).
    destruct (tbl_find _ _ _) eqn:E.
    - apply tbl_find_Some in E as [<- Hin]. by apply list_elem_of_fmap_2.
    - unfold version_keys. rewrite fmap_app. set_solver. }
  unfold insert_version, durable. destruct (stop_at s) as [[[|n] k]|] eqn:E; eexists _, _; (split; [reflexivity|]);
    (split_and!; [done..|]); [done|intros _ _; apply (Hin (fun _ => Some (n, k)))|intros _ _].
  generalize (Hin (fun x => x)). by destruct s.
Qed.

(** A transaction that is in the table, or a new one with a new key. *)
Lemma upsert_txn_step s t : fs_ok s ->
  is_Some (get_transaction (wt_transaction_id t) s) \/
  find_transaction_by_idempotency (wt_artifact_id t) (wt_pid t) (wt_idempotency_key t) s = None /\
  (exists n, (n < drawn s)%N /\ wt_transaction_id t = uuid4 n) ->
  fs_step s (upsert_transaction t s).2.
Proof.
  intros Hs Ht. unfold upsert_transaction. apply durable_step. intros st _.
  split; [|split; [intros x Hx; exists x; split; [done|split_and!; [done..|cbn; lia]]|done..]].
  destruct Hs. split; try done; cbn -[tbl_upsert].
  - by apply tbl_upsert_NoDup.
  - destruct (tbl_find wt_transaction_id (wt_transaction_id t) (write_transactions_projection s)) as [t0|] eqn:E.
    + by rewrite (tbl_upsert_fmap wt_transaction_id txn_key _ _ t0).
    + destruct Ht as [[t0 Ht]|[Ht _]]; [unfold get_transaction in Ht; congruence|].
      rewrite tbl_upsert_None by done. rewrite fmap_app. apply NoDup_app. split_and!; [done| |apply NoDup_singleton].
      intros k (x & -> & Hx)%list_elem_of_fmap Hk%list_elem_of_singleton.
      unfold find_transaction_by_idempotency in Ht. rewrite tbl_find_None in Ht. by apply (Ht x).
  - intros x [Hx|[->|(y & Hy & _ & ->)]]%elem_of_tbl_upsert; [by apply co_txn_drawn0| |by apply (co_txn_drawn0 y)].
    destruct Ht as [[t0 [<- Ht]%tbl_find_Some]|[_ Ht]]; [by apply co_txn_drawn0|done].
Qed.
End Invariant.

(** A digest is not the empty text. *)
Class Sha256Laws `{Sha256} : Prop := sha256_nonempty content : sha256_hexdigest content <> "".

(** ** The driver *)

Section DriverFacts.
Context `{UuidSource, Sha256}.
Lemma write_file_quiet name content : within quiet (LocalArtifactStorage.write_file name content).
Proof. intros s. unfold LocalArtifactStorage.write_file. destruct (stop_at s) as [[[|n] k]|]; by split. Qed.
#[local] Hint Resolve write_file_quiet : lhos.
Lemma driver_stage_quiet tid content : within quiet (LocalArtifactStorage.stage tid content).
Proof. unfold LocalArtifactStorage.stage. solve_within. Qed.
Lemma driver_abort_quiet tid : within quiet (LocalArtifactStorage.abort tid).
Proof. unfold LocalArtifactStorage.abort. solve_within. Qed.
Lemma driver_read_quiet ref : within quiet (LocalArtifactStorage.read ref).
Proof. unfold LocalArtifactStorage.read. solve_within. Qed.
Lemma driver_recover_quiet known : within quiet (LocalArtifactStorage.recover known).
Proof. unfold LocalArtifactStorage.recover. solve_within. Qed.

Lemma cas_insert_ok u arts vs ts c content : core_ok u arts vs ts c -> c !! sha256_hexdigest content = None ->
  core_ok u arts vs ts (<[sha256_hexdigest content := content]> c).
Proof.
  intros [] Hnew. split; try done.
  - intros v Hv. destruct (co_versions0 v Hv) as (? & ? & ?). split_and!; [done| |done].
    destruct (decide (av_content_ref v = sha256_hexdigest content)) as [->|]; [by rewrite lookup_insert_eq|by rewrite lookup_insert_ne].
  - by apply map_Forall_insert_2.
Qed.
Lemma driver_commit_step tid : within fs_step (LocalArtifactStorage.commit tid).
Proof.
  intros s. unfold LocalArtifactStorage.commit. rewrite gets_bind. destruct (staging s !! tid) as [content|]; [|reflexivity].
  apply (at_bind fs_step).
  - apply durable_step. intros st Hs. cbn. case_decide as Hc; [by apply quiet_step|].
    apply eq_None_not_Some in Hc. split; [by apply cas_insert_ok|].
    split; [intros x Hx; exists x; split; [done|split_and!; [done..|lia]]|done| |apply N.le_refl]. by apply insert_subseteq.
  - intros [] s1 _. apply (within_quiet (_ ;; _)). solve_within.
Qed.
(** What a commit of the driver leaves. *)
Lemma driver_commit_run tid s cr s1 : LocalArtifactStorage.commit tid s = (Ok cr, s1) ->
  artifacts_projection s1 = artifacts_projection s /\ artifact_versions_projection s1 = artifact_versions_projection s /\
  write_transactions_projection s1 = write_transactions_projection s /\ kernel_state s1 = kernel_state s /\
  match staging s !! tid with
  | None => cr = mkCommitResult tid "" false /\ s1 = s
  | Some content => cr = mkCommitResult tid (sha256_hexdigest content) true /\
      is_Some (cas s1 !! sha256_hexdigest content) /\
      cas s1 = (if decide (is_Some (cas s !! sha256_hexdigest content)) then cas s
                else <[sha256_hexdigest content := content]> (cas s))
  end.
Proof.
  unfold LocalArtifactStorage.commit. rewrite gets_bind. destruct (staging s !! tid) as [content|] eqn:E; [|by intros [= <- <-]].
  intros ([] & s2 & Hd & Hm)%bind_Ok_inv. unfold mbind, M_bind in Hm. cbn in Hm. injection Hm as <- <-. cbn.
  unfold durable, modify in Hd.
  destruct (stop_at s) as [[[|n] k]|]; [done|..]; injection Hd as <-; cbn;
    (case_decide as Hc; [by split_and!|]); (split_and!; try done; cbn [cas set_cas]; by rewrite lookup_insert_eq).
Qed.
End DriverFacts.
#[export] Hint Resolve driver_stage_quiet driver_abort_quiet driver_read_quiet driver_recover_quiet : lhos.

(** ** Resolution *)

Section ServiceFacts.
Context `{UuidSource, Sha256, Nfc} (capability_service lease_service signal_service : bool).
Abbreviation resolve := (_resolve_and_check capability_service).
Abbreviation checkc := (check_capability capability_service).

Lemma check_capability_run pid ns op uri s : checkc pid ns op uri s =
  (if capability_service && negb (check pid (namespace_resource ns) (capability_op op) (kernel_state s))
   then Raise (CapabilityDenied pid uri op) else Ok tt, s).
Proof.
  unfold check_capability. destruct capability_service; [|done]. rewrite gets_bind. unfold raise_if.
  by destruct (negb _).
Qed.
(** A URI that names its namespace. *)
Definition well_formed (c : CanonicalURI) : Prop := cu_canonical c = artifact_uri (cu_namespace_id c) (cu_path c).
Lemma canonicalize_wf uri c : canonicalize_uri uri = Ok c -> well_formed c.
Proof. by intros (ns & raw & path & _ & _ & ->)%canonicalize_split. Qed.
Lemma resolve_workspace_wf uri ns c : resolve_workspace_uri uri ns = Ok c -> well_formed c.
Proof.
  unfold resolve_workspace_uri. destruct (startswith _ _); [|apply canonicalize_wf].
  destruct (canonicalize_uri uri) as [c0|] eqn:E; cbn; [|done]. intros [= <-].
  destruct (String.eqb _ _); [done|by eapply canonicalize_wf].
Qed.
Lemma resolve_mounts_wf ns op c s : well_formed c -> well_formed (resolve_mounts ns op c s).
Proof.
  intros Hc. assert (forall l, well_formed (through_mounts c l)) as Hm.
  { intros l. unfold through_mounts. destruct (best_mount l (cu_path c)) as [m|]; [|done]. by case_bool_decide. }
  unfold resolve_mounts. destruct (_ && _); [|done]. destruct (get_artifact_by_uri _ _) as [a|]; [|done].
  by destruct (ar_deleted a).
Qed.
(** Resolution changes nothing; when it returns, the checks passed in both namespaces. *)
Lemma resolve_run pid uri op s c s1 : resolve pid uri op s = (Ok c, s1) ->
  s1 = s /\ well_formed c /\
  exists c0, resolve_workspace_uri uri ("ns-" +:+ pid) = Ok c0 /\ c = resolve_mounts ("ns-" +:+ pid) op c0 s /\
    (capability_service = true -> check pid (namespace_resource (cu_namespace_id c)) (capability_op op) (kernel_state s) = true).
Proof.
  unfold _resolve_and_check. intros (c0 & s0 & Hr & Hk)%bind_Ok_inv. unfold of_result in Hr. injection Hr as Hr <-.
  apply bind_Ok_inv in Hk as ([] & s0 & Hc & Hk). rewrite check_capability_run in Hc.
  destruct (capability_service && _) eqn:E1; [done|]. injection Hc as <-.
  rewrite gets_bind in Hk. set (c1 := resolve_mounts _ _ _ _) in *.
  apply bind_Ok_inv in Hk as ([] & s0 & Hc & Hk). injection Hk as <- <-.
  assert (s0 = s /\ (capability_service = true ->
    check pid (namespace_resource (cu_namespace_id c1)) (capability_op op) (kernel_state s) = true)) as [-> Hcap].
  { destruct (String.eqb_spec (cu_namespace_id c1) ("ns-" +:+ pid)) as [E|_].
    - injection Hc as <-. split; [done|]. intros Hcs. rewrite Hcs in E1. cbn in E1. apply negb_false_iff in E1.
      enough (cu_namespace_id c0 = cu_namespace_id c1) as <- by done.
      revert E. unfold c1, resolve_mounts. destruct (String.eqb op "read"); [|done]. cbn [andb].
      destruct (String.eqb_spec (cu_namespace_id c0) ("ns-" +:+ pid)) as [E0|]; [|done]. rewrite E0. done.
    - rewrite check_capability_run in Hc. clear E1. destruct (capability_service && _) eqn:E2; [done|]. simplify_eq.
      split; [done|]. intros Hcs. rewrite Hcs in E2. cbn in E2. by apply negb_false_iff in E2. }
  split; [done|]. split; [|by exists c0]. apply resolve_mounts_wf. by eapply resolve_workspace_wf.
Qed.
Lemma resolve_raise pid uri op s : (resolve pid uri op s).2 = s.
Proof.
  unfold _resolve_and_check, mbind, M_bind. cbn. destruct (resolve_workspace_uri _ _) as [c|]; [|done].
  rewrite check_capability_run. destruct (_ && _); [done|]. cbn. destruct (String.eqb _ _); [done|].
  rewrite check_capability_run. by destruct (_ && _).
Qed.
Lemma check_capability_quiet pid ns op uri : within quiet (checkc pid ns op uri).
Proof. intros s. by rewrite check_capability_run. Qed.
#[local] Hint Resolve check_capability_quiet : lhos.
Lemma resolve_quiet pid uri op : within quiet (resolve pid uri op).
Proof. unfold _resolve_and_check. solve_within. Qed.
End ServiceFacts.
#[export] Hint Resolve resolve_quiet : lhos.

(** ** The methods *)

Section Steps.
Context `{UuidSource, Sha256Laws}.
Lemma step_intro s s' : (fs_ok s -> fs_step s s') -> fs_step s s'.
Proof. intros Hi Hs. by apply Hi. Qed.
Lemma at_quiet {A B} (m : AM A) (k : A -> AM B) s : within quiet m ->
  (forall a s1, m s = (Ok a, s1) -> quiet s s1 -> fs_step s1 (k a s1).2) -> fs_step s ((m ≫= k) s).2.
Proof.
  intros Hm Hk. apply (at_bind fs_step); [apply quiet_step, Hm|]. intros a s1 E. apply Hk; [done|].
  specialize (Hm s). by rewrite E in Hm.
Qed.
Lemma quiet_same s s1 : quiet s s1 ->
  artifacts_projection s1 = artifacts_projection s /\ artifact_versions_projection s1 = artifact_versions_projection s /\
  write_transactions_projection s1 = write_transactions_projection s /\ cas s1 = cas s.
Proof. intros [E _]. unfold core in E. by simplify_eq. Qed.
Lemma quiet_tail {A} (m : AM A) s : within quiet m -> fs_step s (m s).2.
Proof. intros Hm. apply quiet_step, Hm. Qed.
Lemma raise_if_Ok {S} b e (s s1 : S) u : raise_if b e s = (Ok u, s1) -> b = false /\ s1 = s.
Proof. destruct b; [done|]. by intros [= _ <-]. Qed.
Lemma some_or_raise_Ok {S A} (o : option A) e (s s1 : S) a : some_or_raise o e s = (Ok a, s1) -> o = Some a /\ s1 = s.
Proof. destruct o; [|done]. by intros [= -> <-]. Qed.
(** A write that changes one table leaves the others. *)
Lemma upsert_artifact_keeps rec s r s1 : upsert_artifact rec s = (r, s1) ->
  artifact_versions_projection s1 = artifact_versions_projection s /\
  write_transactions_projection s1 = write_transactions_projection s /\ cas s1 = cas s /\ kernel_state s1 = kernel_state s.
Proof.
  unfold upsert_artifact, durable. intros E. unfold mbind, M_bind, gets, raise_if in E.
  destruct (stop_at s) as [[[|n] k]|]; [by simplify_eq|..]; cbn -[tbl_upsert] in E; destruct (_ && _); by injection E as _ <-.
Qed.
Lemma upsert_txn_ids t s r s1 : upsert_transaction t s = (r, s1) -> is_Some (get_transaction (wt_transaction_id t) s) ->
  wt_transaction_id <$> write_transactions_projection s1 = wt_transaction_id <$> write_transactions_projection s.
Proof.
  intros E [t0 Ht]. unfold upsert_transaction, durable in E. unfold get_transaction in Ht.
  destruct (stop_at s) as [[[|n] k]|]; [by simplify_eq|..]; cbn -[tbl_upsert] in E; injection E as _ <-;
    by apply (tbl_upsert_fmap wt_transaction_id wt_transaction_id _ _ t0).
Qed.

Lemma create_record_step canonical pid s : well_formed canonical -> fs_step s (_create_artifact_record canonical pid s).2.
Proof.
  intros Hwf. apply step_intro. intros Hs. unfold _create_artifact_record. rewrite gets_bind.
  apply at_quiet; [solve_within|]. intros ns s1 [_ ->]%some_or_raise_Ok _.
  set (rec := mkArtifact (uuid4 (drawn s)) (cu_namespace_id canonical) (cu_canonical canonical) 0 "file" pid
    (clock_now (kernel_state s)) (clock_now (kernel_state s)) false []).
  set (s1 := set_kernel (fun _ => set_uuid N.succ (kernel_state s)) s).
  rewrite (bind_Ok _ _ s rec s1) by reflexivity.
  transitivity s1; [apply quiet_step; split; [done|unfold drawn; cbn; lia]|].
  apply (at_bind fs_step); [|intros u s2 _; apply (quiet_tail (_ ;; _)); solve_within].
  apply step_intro. intros Hs1. apply (upsert_new_artifact s1 rec (drawn s) (cu_path canonical)); try done.
  - unfold drawn; cbn. lia.
  - intros (a & Hid & Ha)%list_elem_of_fmap. destruct (co_drawn _ _ _ _ _ Hs a Ha) as (n & Hn & Hid').
    cbn in Hid. rewrite Hid' in Hid. apply (inj uuid4) in Hid. lia.
Qed.
Lemma new_transaction_step pid key ev a s :
  find_transaction_by_idempotency (ar_artifact_id a) pid key s = None -> fs_step s (new_transaction pid key ev a s).2.
Proof.
  intros Hf. unfold new_transaction. apply at_quiet; [solve_within|]. intros [] s1 [_ ->]%raise_if_Ok _.
  apply at_quiet; [solve_within|]. intros id s1 Hid Hq1. unfold now_utc. rewrite gets_bind. injection Hid as <- <-.
  apply (at_bind fs_step); [|intros u s3 _; apply (quiet_tail (_ ;; _)); unfold txn_event; solve_within].
  apply step_intro. intros Hs2. apply upsert_txn_step; [done|]. right. split; [exact Hf|].
  exists (drawn s). split; [unfold drawn; cbn; lia|done].
Qed.
Lemma check_quota_quiet txn size : within quiet (check_quota txn size).
Proof. unfold check_quota. solve_within. Qed.
Lemma txn_event_quiet ty t : within quiet (txn_event ty t).
Proof. unfold txn_event. solve_within. Qed.
#[local] Hint Resolve check_quota_quiet txn_event_quiet : lhos.
Lemma get_txn_id tid t s : get_transaction tid s = Some t -> wt_transaction_id t = tid.
Proof. by intros [? _]%tbl_find_Some. Qed.
Lemma stage_step tid content : within fs_step (stage tid content).
Proof.
  intros s. unfold stage. rewrite gets_bind. apply at_quiet; [solve_within|].
  intros t s1 [Ht ->]%some_or_raise_Ok _. pose proof (get_txn_id _ _ _ Ht) as Hid.
  apply at_quiet; [solve_within|]. intros [] s1 [_ ->]%raise_if_Ok _.
  apply at_quiet; [solve_within|]. intros staged s1 _ Hq1. apply at_quiet; [solve_within|]. intros [] s2 _ Hq2.
  apply (at_bind fs_step); [|intros u s3 _; apply (quiet_tail (_ ;; _)); solve_within].
  apply step_intro. intros Hs2. apply upsert_txn_step; [done|]. left. exists t. unfold get_transaction in *. cbn.
  destruct (quiet_same _ _ Hq1) as (_ & _ & E1 & _). destruct (quiet_same _ _ Hq2) as (_ & _ & E2 & _). by rewrite E2, E1, Hid.
Qed.

Context `{Nfc} (capability_service lease_service signal_service : bool).
Lemma notify_quiet uri v pid : within quiet (_notify_watches signal_service uri v pid).
Proof. unfold _notify_watches. solve_within. Qed.
Lemma insert_idempotency_quiet k a p t st v : within quiet (insert_idempotency k a p t st v).
Proof. unfold insert_idempotency. solve_within. Qed.
#[local] Hint Resolve notify_quiet insert_idempotency_quiet : lhos.

(** The version and the current version, for content that is there. *)
Lemma add_version_step {B} a txn ref hash now (k : AM B) s :
  get_artifact (ar_artifact_id a) s = Some a -> is_Some (cas s !! ref) ->
  (forall s1, write_transactions_projection s1 = write_transactions_projection s -> fs_step s1 (k s1).2) ->
  fs_step s ((insert_version (next_version a txn ref hash now) ;;
              upsert_artifact (with_version (ar_current_version a + 1) now a) ;; k) s).2.
Proof.
  intros Ha Href Hk. apply (at_bind fs_step).
  { apply step_intro. intros Hs. by apply insert_next_version. }
  intros [] s1 E1. destruct (insert_version_run (next_version a txn ref hash now) s) as (r & s1' & E1' & A1 & T1 & C1 & K1).
  rewrite E1 in E1'. injection E1' as <- <-. specialize (K1 tt eq_refl).
  apply (at_bind fs_step).
  - apply step_intro. intros Hs1. apply (upsert_same_artifact s1 a); [done| |].
    + unfold get_artifact in *. cbn. by rewrite A1.
    + right. done.
  - intros [] s2 E2. apply Hk. destruct (upsert_artifact_keeps _ _ _ _ E2) as (_ & -> & _). done.
Qed.
Lemma get_artifact_self id a s : get_artifact id s = Some a -> get_artifact (ar_artifact_id a) s = Some a.
Proof. intros Ha. pose proof Ha as [-> _]%tbl_find_Some. done. Qed.
Lemma get_txn_same tid t s s' : write_transactions_projection s' = write_transactions_projection s ->
  get_transaction tid s = Some t -> is_Some (get_transaction (wt_transaction_id t) s').
Proof. intros E Ht. pose proof (get_txn_id _ _ _ Ht) as ->. exists t. unfold get_transaction in *. by rewrite E. Qed.

Lemma commit_version_step txn a ref hash tid s : get_transaction tid s = Some txn ->
  get_artifact (ar_artifact_id a) s = Some a -> is_Some (cas s !! ref) ->
  fs_step s (commit_version signal_service txn a ref hash s).2.
Proof.
  intros Ht Ha Href. unfold commit_version, now_utc. rewrite gets_bind. apply add_version_step; [done..|].
  intros s1 T1. apply (at_bind fs_step); [|intros u s2 _; apply (quiet_tail (_ ;; _)); solve_within].
  apply step_intro. intros Hs1. apply upsert_txn_step; [done|]. left. by apply (get_txn_same tid txn s s1).
Qed.
Lemma commit_step tid : within fs_step (commit signal_service tid).
Proof.
  intros s. unfold commit. rewrite gets_bind. apply at_quiet; [solve_within|].
  intros t s1 [Ht ->]%some_or_raise_Ok _. destruct (is_state t [TransactionState.committed]); [reflexivity|].
  apply at_quiet; [solve_within|]. intros [] s1 [_ ->]%raise_if_Ok _.
  apply at_quiet; [solve_within|]. intros [] s1 [_ ->]%raise_if_Ok _. rewrite gets_bind.
  apply at_quiet; [solve_within|]. intros a s1 [Ha%get_artifact_self ->]%some_or_raise_Ok _.
  destruct (match wt_expected_version t with Some e => _ | None => false end).
  { unfold commit_conflict, now_utc. rewrite gets_bind. apply (at_bind fs_step).
    - apply step_intro. intros Hs. apply upsert_txn_step; [done|]. left. by apply (get_txn_same tid t s s).
    - intros u s1 _. apply (quiet_tail (_ ;; _)). solve_within. }
  apply (at_bind fs_step); [apply driver_commit_step|]. intros cr s1 Hcr.
  destruct (driver_commit_run _ _ _ _ Hcr) as (A1 & V1 & T1 & K1 & Hfile). rewrite gets_bind.
  assert (get_transaction tid s1 = Some t) as Ht1 by (unfold get_transaction in *; by rewrite T1).
  assert (get_artifact (ar_artifact_id a) s1 = Some a) as Ha1 by (unfold get_artifact in *; by rewrite A1).
  unfold LocalArtifactStorage.exists_.
  destruct (staging s !! tid) as [content|].
  - destruct Hfile as (-> & Hc & _). cbn [cr_committed cr_content_ref negb andb].
    rewrite (proj2 (String.eqb_neq (sha256_hexdigest content) "")) by apply sha256_nonempty.
    by apply (commit_version_step t a _ _ tid).
  - destruct Hfile as [-> ->]. cbn [cr_committed cr_content_ref negb andb String.eqb]. case_bool_decide as Hc; cbn [negb].
    + by apply (commit_version_step t a _ _ tid).
    + unfold now_utc. rewrite gets_bind. apply (at_bind fs_step).
      * apply step_intro. intros Hs. apply upsert_txn_step; [done|]. left. by apply (get_txn_same tid t s s).
      * intros u s1 _. apply (quiet_tail (_ ;; _)). solve_within.
Qed.
Lemma abort_step tid : within fs_step (abort tid).
Proof.
  intros s. unfold abort. rewrite gets_bind. apply at_quiet; [solve_within|].
  intros t s1 [Ht ->]%some_or_raise_Ok _. destruct (is_state t _); [reflexivity|].
  apply at_quiet; [solve_within|]. intros b s1 _ Hq. unfold now_utc. rewrite gets_bind. apply (at_bind fs_step).
  - apply step_intro. intros Hs. apply upsert_txn_step; [done|]. left. apply (get_txn_same tid t s s1); [|done].
    by destruct (quiet_same _ _ Hq) as (_ & _ & ? & _).
  - intros u s2 _. apply (quiet_tail (_ ;; _)). solve_within.
Qed.
Lemma begin_write_step pid uri key ev : within fs_step (begin_write capability_service pid uri key ev).
Proof.
  intros s. unfold begin_write. apply at_quiet; [solve_within|].
  intros c s1 (-> & Hwf & _)%resolve_run _. rewrite gets_bind. apply (at_bind fs_step).
  { destruct (get_artifact_by_uri _ s) as [a|]; [reflexivity|by apply create_record_step]. }
  intros a s1 _. rewrite gets_bind. destruct (find_transaction_by_idempotency _ _ _ s1) as [t|] eqn:E.
  - apply (quiet_tail (_ ;; _)). solve_within.
  - by apply new_transaction_step.
Qed.
Lemma write_step pid uri content key ev : within fs_step (write capability_service signal_service pid uri content key ev).
Proof.
  unfold write. within_step; [apply begin_write_step|]. destruct (is_state _ _); [solve_within|].
  within_step; [apply stage_step|apply commit_step].
Qed.

Definition txn_ids (s : AState) : list string := wt_transaction_id <$> write_transactions_projection s.
Lemma get_txn_in t s : wt_transaction_id t ∈ txn_ids s -> is_Some (get_transaction (wt_transaction_id t) s).
Proof.
  intros (x & Hx & Hin)%list_elem_of_fmap. apply not_eq_None_Some. intros E. unfold get_transaction in E.
  rewrite tbl_find_None in E. by apply (E x).
Qed.
(** Recovery of a transaction of the table. *)
Definition recovers (s s' : AState) : Prop := fs_step s s' /\ txn_ids s' = txn_ids s.
#[local] Instance recovers_preorder : PreOrder recovers.
Proof.
  split; [by intros s; split; [reflexivity|]|]. intros s1 s2 s3 [Ha E1] [Hb E2]. split; [by transitivity s2|congruence].
Qed.
Lemma finish_recovers st now t s : wt_transaction_id t ∈ txn_ids s ->
  recovers s (upsert_transaction (txn_finish st now t) s).2.
Proof.
  intros Ht%get_txn_in. split.
  - apply step_intro. intros Hs. apply upsert_txn_step; [done|by left].
  - destruct (upsert_transaction _ s) as [r s1] eqn:E. by apply (upsert_txn_ids _ _ _ _ E).
Qed.
Lemma recover_version_recovers t s : is_Some (cas s !! wt_staged_content_ref t) -> recovers s (recover_version t s).2.
Proof.
  intros Href. unfold recover_version. rewrite gets_bind. destruct (get_artifact _ s) as [a|] eqn:Ha; [|reflexivity].
  rewrite gets_bind. destruct (version_of_txn _ s); [reflexivity|]. unfold now_utc. rewrite gets_bind. split.
  - apply add_version_step; [by eapply get_artifact_self|done|]. intros s1 _. reflexivity.
  - assert (within (keeps write_transactions_projection) (insert_version (next_version a t (wt_staged_content_ref t)
      (wt_staged_content_hash t) (clock_now (kernel_state s))) ;;
      upsert_artifact (with_version (ar_current_version a + 1) (clock_now (kernel_state s)) a) ;; mret true)) as Hk.
    { within_step; [|within_step; [|solve_within]].
      - intros s1. destruct (insert_version_run (next_version a t (wt_staged_content_ref t) (wt_staged_content_hash t) (clock_now (kernel_state s))) s1) as (r & s2 & -> & _ & ? & _). done.
      - intros s1. destruct (upsert_artifact _ s1) as [r s2] eqn:E. by apply upsert_artifact_keeps in E as (_ & ? & _). }
    unfold txn_ids. by rewrite Hk.
Qed.
Lemma recover_txn_recovers t s : wt_transaction_id t ∈ txn_ids s -> recovers s (recover_txn t s).2.
Proof.
  intros Ht. unfold recover_txn. rewrite gets_bind. unfold LocalArtifactStorage.exists_, now_utc. case_bool_decide as Hc.
  - apply (at_bind recovers); [by apply recover_version_recovers|]. intros b s1 E. rewrite gets_bind.
    apply (at_bind recovers); [|intros; reflexivity]. apply finish_recovers.
    destruct (recover_version_recovers t s Hc) as [_ Hids]. rewrite E in Hids. cbn in Hids. by rewrite Hids.
  - rewrite gets_bind. apply (at_bind recovers); [by apply finish_recovers|intros; reflexivity].
Qed.
Lemma recover_txns_recovers rows s : (forall t, t ∈ rows -> wt_transaction_id t ∈ txn_ids s) -> recovers s (map_each recover_txn rows s).2.
Proof.
  revert s. induction rows as [|t rows IH]; intros s Hrows; [reflexivity|]. cbn.
  apply (at_bind recovers); [apply recover_txn_recovers, Hrows; left|]. intros b s1 E.
  apply (at_bind recovers); [|intros; reflexivity]. apply IH. intros t' Ht'.
  destruct (recover_txn_recovers t s (Hrows t (list_elem_of_here _ _))) as [_ Hids]. rewrite E in Hids. cbn in Hids. rewrite Hids.
  apply Hrows. by right.
Qed.
Lemma recover_step : within fs_step recover.
Proof.
  intros s. unfold recover. rewrite gets_bind. apply (at_bind fs_step).
  - apply recover_txns_recovers. intros t [_ Ht]%list_elem_of_filter. by apply (list_elem_of_fmap_2 wt_transaction_id).
  - intros bs s1 _. apply (quiet_tail (_ ≫= _)). solve_within.
Qed.

(** Reads and the other tables. *)
Lemma upsert_handle_quiet h : within quiet (upsert_handle h).
Proof. unfold upsert_handle. solve_within. Qed.
#[local] Hint Resolve upsert_handle_quiet : lhos.
Lemma read_quiet pid uri v : within quiet (read capability_service pid uri v).
Proof. unfold read, live_artifact. solve_within. Qed.
Lemma read_metadata_quiet pid uri v : within quiet (read_metadata capability_service pid uri v).
Proof. unfold read_metadata, live_artifact. solve_within. Qed.
Lemma new_artifact_quiet ns uri pid : within quiet (new_artifact ns uri pid).
Proof. unfold new_artifact. solve_within. Qed.
Lemma acquire_quiet pid id : within quiet (acquire_exclusive pid id).
Proof. unfold acquire_exclusive. solve_within. Qed.
#[local] Hint Resolve new_artifact_quiet acquire_quiet : lhos.
Lemma open_step pid uri mode ev : within fs_step (open capability_service lease_service pid uri mode ev).
Proof.
  intros s. unfold open. apply at_quiet; [solve_within|]. intros md s1 [_ ->]%some_or_raise_Ok _.
  apply at_quiet; [solve_within|]. intros c s1 (-> & Hwf & _)%resolve_run _. rewrite gets_bind.
  apply at_quiet; [solve_within|]. intros [] s1 [_ ->]%raise_if_Ok _. rewrite gets_bind.
  apply at_quiet; [solve_within|]. intros ls s1 _ _. apply (at_bind fs_step).
  { destruct (get_artifact_by_uri _ s) as [a|]; [reflexivity|].
    apply at_quiet; [solve_within|]. intros [] s2 _ _. by apply create_record_step. }
  intros a s2 _. apply (quiet_tail (_ ≫= _)). solve_within.
Qed.
Lemma close_quiet id : within quiet (close lease_service id).
Proof. unfold close. solve_within. Qed.
#[local] Hint Resolve close_quiet : lhos.
Lemma close_all_quiet pid : within quiet (close_all_for_pid lease_service pid).
Proof. unfold close_all_for_pid. solve_within. Qed.
Lemma watch_quiet pid p : within quiet (watch pid p).
Proof. unfold watch, upsert_watch. solve_within. Qed.
Lemma unwatch_quiet id : within quiet (unwatch id).
Proof. unfold unwatch. solve_within. Qed.
Lemma delete_step pid uri : within fs_step (delete_ capability_service pid uri).
Proof.
  intros s. unfold delete_. apply at_quiet; [solve_within|]. intros c s1 (-> & _ & _)%resolve_run _. rewrite gets_bind.
  apply at_quiet; [solve_within|]. intros a s1 [Ha ->]%some_or_raise_Ok _. unfold now_utc. rewrite gets_bind.
  apply (at_bind fs_step); [|intros u s1 _; apply (quiet_tail (_ ;; _)); solve_within].
  apply step_intro. intros Hs. apply (upsert_same_artifact s a); [done| |by left]. cbn.
  apply tbl_find_Some in Ha as [_ Ha]. apply tbl_find_elem; [apply Hs|done].
Qed.
End Steps.

(** * Runs of the artifact file system that return

    What the tables hold after the steps of a write, when each of them returns. *)

(** ** Single writes *)

Lemma set_stop_id s : set_stop (fun x => x) s = s.
Proof. by destruct s. Qed.
Lemma durable_Ok {A} (m : AM A) s a s1 : durable m s = (Ok a, s1) -> exists st, m (set_stop st s) = (Ok a, s1).
Proof.
  unfold durable. destruct (stop_at s) as [[[|n] k]|]; [done|by exists (fun _ => Some (n, k))|].
  intros E. exists (fun x => x). by rewrite set_stop_id.
Qed.
Lemma upsert_artifact_Ok rec s u s1 : upsert_artifact rec s = (Ok u, s1) ->
  exists st, s1 = set_artifacts (tbl_upsert ar_artifact_id artifact_conflict (artifact_row rec)) (set_stop st s).
Proof.
  intros (st & E)%durable_Ok. exists st. rewrite gets_bind in E. apply bind_Ok_inv in E as ([] & s2 & [_ ->]%raise_if_Ok & E).
  by injection E as _ <-.
Qed.
Lemma upsert_txn_Ok t s u s1 : upsert_transaction t s = (Ok u, s1) ->
  exists st, s1 = set_txns (tbl_upsert wt_transaction_id txn_conflict t) (set_stop st s).
Proof. intros (st & E)%durable_Ok. exists st. by injection E as _ <-. Qed.
Lemma insert_version_Ok ver s u s1 : insert_version ver s = (Ok u, s1) ->
  exists st, s1 = set_versions (tbl_upsert version_key (fun old _ => old) ver) (set_stop st s).
Proof. intros (st & E)%durable_Ok. exists st. by injection E as _ <-. Qed.

(** The content store and the staged files, too. *)
Definition files (s : AState) := (core s, staging s).
Definition still (s s' : AState) : Prop := files s' = files s.
#[global] Instance still_preorder : PreOrder still.
Proof. split; [done|]. unfold still. intros s1 s2 s3. congruence. Qed.
Lemma still_same s s1 : still s s1 ->
  artifacts_projection s1 = artifacts_projection s /\ artifact_versions_projection s1 = artifact_versions_projection s /\
  write_transactions_projection s1 = write_transactions_projection s /\ cas s1 = cas s /\ staging s1 = staging s.
Proof. unfold still, files, core. intros E. by simplify_eq. Qed.
Lemma on_kernel_still {A} (m : M KState A) : within still (on_kernel m).
Proof.
  intros s. unfold on_kernel, durable, on_kernel_read.
  destruct (stop_at s) as [[[|n] k]|]; [done|..]; by destruct (m _) as [r k'].
Qed.
#[export] Hint Resolve on_kernel_still : lhos.

Section Runs.
Context `{UuidSource, Sha256Laws, Nfc} (capability_service lease_service signal_service : bool).
Lemma journal_event_still pid ty pl : within still (journal_event pid ty pl).
Proof. unfold journal_event. solve_within. Qed.
#[local] Hint Resolve journal_event_still : lhos.
Lemma still_Ok {A} (m : AM A) s r s1 : within still m -> m s = (r, s1) -> still s s1.
Proof. intros Hm E. specialize (Hm s). by rewrite E in Hm. Qed.
Lemma notify_still uri v pid : within still (_notify_watches signal_service uri v pid).
Proof. unfold _notify_watches. solve_within. Qed.
Lemma insert_idempotency_still k a p t st v : within still (insert_idempotency k a p t st v).
Proof.
  unfold insert_idempotency, now_utc. intros s. rewrite gets_bind. unfold durable.
  by destruct (stop_at s) as [[[|n] k']|].
Qed.
#[local] Hint Resolve notify_still insert_idempotency_still : lhos.

Lemma create_record_Ok c pid s a s1 : fs_ok s -> _create_artifact_record c pid s = (Ok a, s1) ->
  ar_canonical_uri a = cu_canonical c /\ ar_namespace_id a = cu_namespace_id c /\ ar_current_version a = 0 /\ ar_deleted a = false /\
  artifacts_projection s1 = artifacts_projection s ++ [a] /\ artifact_versions_projection s1 = artifact_versions_projection s /\
  write_transactions_projection s1 = write_transactions_projection s /\ cas s1 = cas s.
Proof.
  intros Hs E. unfold _create_artifact_record in E. rewrite gets_bind in E.
  apply bind_Ok_inv in E as (ns & s2 & [_ ->]%some_or_raise_Ok & E).
  apply bind_Ok_inv in E as (rec & s2 & En & E). unfold new_artifact in En. injection En as <- <-.
  apply bind_Ok_inv in E as ([] & s2 & (st & ->)%upsert_artifact_Ok & E).
  apply bind_Ok_inv in E as ([] & s3 & Ej & E). injection E as <- <-.
  apply still_Ok, still_same in Ej as (EA & EV & ET & EC & _); [|apply journal_event_still].
  split_and!; try done. rewrite EA. cbn -[tbl_upsert]. apply (tbl_upsert_None ar_artifact_id).
  apply tbl_find_None. intros x Hx. destruct (co_drawn _ _ _ _ _ Hs x Hx) as (n & Hn & ->). cbn.
  intros Eq%(inj uuid4). subst n. unfold drawn in Hn. lia.
Qed.

(** The current version of a URI; 0 when there is no artifact. *)
Definition current_of (uri : string) (s : AState) : Z :=
  match get_artifact_by_uri uri s with Some a => ar_current_version a | None => 0 end.
(** The transaction [begin_write] returns: an earlier one of the key, or a new one on the
    current version, which is the expected one. *)
Record begun (pid uri key : string) (expected : option Z) (s : AState) (c : CanonicalURI) (a : ArtifactRecord)
    (t : WriteTransaction) (s1 : AState) : Prop := {
  bg_resolved : _resolve_and_check capability_service pid uri "write" s = (Ok c, s);
  bg_uri : ar_canonical_uri a = cu_canonical c;
  bg_artifact : a ∈ artifacts_projection s1;
  bg_current : ar_current_version a = current_of (cu_canonical c) s;
  bg_artifacts : artifacts_projection s1 = artifacts_projection s /\ a ∈ artifacts_projection s \/
    get_artifact_by_uri (cu_canonical c) s = None /\ artifacts_projection s1 = artifacts_projection s ++ [a];
  bg_versions : artifact_versions_projection s1 = artifact_versions_projection s;
  bg_cas : cas s1 = cas s;
  bg_txn : get_transaction (wt_transaction_id t) s1 = Some t;
  bg_key : txn_key t = (ar_artifact_id a, pid, key);
  bg_kind : t ∈ write_transactions_projection s /\ wt_state t <> TransactionState.aborted /\ wt_state t <> TransactionState.conflicted \/
    wt_state t = TransactionState.opened /\ wt_expected_version t = Some (ar_current_version a) /\
    (forall e, expected = Some e -> ar_current_version a = e) }.

Lemma new_transaction_Ok pid key ev a s t s1 : fs_ok s -> new_transaction pid key ev a s = (Ok t, s1) ->
  artifacts_projection s1 = artifacts_projection s /\ artifact_versions_projection s1 = artifact_versions_projection s /\
  cas s1 = cas s /\ get_transaction (wt_transaction_id t) s1 = Some t /\ txn_key t = (ar_artifact_id a, pid, key) /\
  wt_state t = TransactionState.opened /\ wt_expected_version t = Some (ar_current_version a) /\
  (forall e, ev = Some e -> ar_current_version a = e).
Proof.
  intros Hs E. unfold new_transaction in E. apply bind_Ok_inv in E as ([] & s2 & [Hev ->]%raise_if_Ok & E).
  apply bind_Ok_inv in E as (id & s2 & Hid & E). injection Hid as <- <-. unfold now_utc in E. rewrite gets_bind in E.
  apply bind_Ok_inv in E as ([] & s2 & (st & ->)%upsert_txn_Ok & E).
  apply bind_Ok_inv in E as ([] & s3 & Ej & E). injection E as <- <-.
  apply still_Ok, still_same in Ej as (EA & EV & ET & EC & _); [|apply journal_event_still].
  assert (forall e, ev = Some e -> ar_current_version a = e) as Hexp.
  { intros e ->. apply negb_false_iff, Z.eqb_eq in Hev. done. }
  split_and!; try done.
  - unfold get_transaction. rewrite ET. cbn -[tbl_upsert].
    assert (tbl_find wt_transaction_id (uuid4 (uuid_count (kernel_state s))) (write_transactions_projection s) = None) as Hnone.
    { apply tbl_find_None. intros x Hx. destruct (co_txn_drawn _ _ _ _ _ Hs x Hx) as (n & Hn & ->).
      intros Eq%(inj uuid4). subst n. unfold drawn in Hn. lia. }
    rewrite (tbl_upsert_None wt_transaction_id) by exact Hnone. rewrite tbl_find_app. cbn. rewrite Hnone. by rewrite decide_True.
  - cbn. f_equal. unfold version_or. destruct ev as [e|]; [|done]. destruct (e =? 0); [done|]. by rewrite (Hexp e).
Qed.
Lemma begin_write_Ok pid uri key ev s t s1 : fs_ok s -> begin_write capability_service pid uri key ev s = (Ok t, s1) ->
  exists c a, begun pid uri key ev s c a t s1.
Proof.
  intros Hs E. unfold begin_write in E. apply bind_Ok_inv in E as (c & s0 & Hres & E).
  pose proof (resolve_run _ _ _ _ _ _ _ Hres) as (-> & Hwf & _). rewrite gets_bind in E.
  apply bind_Ok_inv in E as (a & sa & Ea & E). rewrite gets_bind in E. exists c, a.
  assert (fs_ok sa /\ ar_canonical_uri a = cu_canonical c /\ a ∈ artifacts_projection sa /\
    ar_current_version a = current_of (cu_canonical c) s /\
    (artifacts_projection sa = artifacts_projection s /\ a ∈ artifacts_projection s \/
     get_artifact_by_uri (cu_canonical c) s = None /\ artifacts_projection sa = artifacts_projection s ++ [a]) /\
    artifact_versions_projection sa = artifact_versions_projection s /\ cas sa = cas s /\
    write_transactions_projection sa = write_transactions_projection s) as (Hsa & Hu & Hin & Hcv & Hart & HV & HC & HT).
  { unfold current_of. destruct (get_artifact_by_uri (cu_canonical c) s) as [a0|] eqn:Eg.
    - injection Ea as <- <-. apply tbl_find_Some in Eg as [? ?]. split_and!; try done. by left.
    - pose proof (create_record_step c pid s Hwf Hs) as [Hok _]. rewrite Ea in Hok.
      destruct (create_record_Ok c pid s a sa Hs Ea) as (? & ? & ? & ? & EA & ? & ? & ?).
      split_and!; try done; [rewrite EA; set_solver|]. right. done. }
  destruct (find_transaction_by_idempotency _ _ _ sa) as [t0|] eqn:Ef.
  - apply bind_Ok_inv in E as ([] & s2 & [Hst ->]%raise_if_Ok & E). injection E as <- <-.
    apply tbl_find_Some in Ef as [Hk Ht]. unfold is_state in Hst. apply bool_decide_eq_false in Hst.
    split; try done.
    + unfold get_transaction. apply tbl_find_elem; [apply Hsa|done].
    + left. rewrite <-HT. split_and!; [done|..]; intros Ex; apply Hst; rewrite Ex; set_solver.
  - destruct (new_transaction_Ok pid key ev a sa t s1 Hsa E) as (EA & EV & EC & Hg & Hk & Hst & Hx & He).
    split; try congruence. right. done.
Qed.

Lemma check_quota_Ok t size s u s1 : check_quota t size s = (Ok u, s1) -> s1 = s.
Proof.
  unfold check_quota. rewrite gets_bind. destruct (get_artifact _ s) as [a|]; [|by intros [= _ <-]].
  rewrite gets_bind. destruct (_ ≫= _) as [q|]; [|by intros [= _ <-]]. rewrite gets_bind.
  destruct (q <? _); [|by intros [= _ <-]]. intros (b & s2 & _ & E)%bind_Ok_inv. done.
Qed.
Abbreviation digest := sha256_hexdigest.
Definition quiet_core (s s1 : AState) : Prop :=
  artifacts_projection s1 = artifacts_projection s /\ artifact_versions_projection s1 = artifact_versions_projection s /\
  write_transactions_projection s1 = write_transactions_projection s /\ cas s1 = cas s.
Lemma driver_stage_Ok tid content s sg s2 : LocalArtifactStorage.stage tid content s = (Ok sg, s2) ->
  sg = mkStaged tid (digest content) (digest content) (LocalArtifactStorage.byte_length content) /\
  core s2 = core s /\ staging s2 = <[tid := content]> (staging s).
Proof.
  unfold LocalArtifactStorage.stage. intros ([] & s1 & Ew & E)%bind_Ok_inv. injection E as <- <-.
  unfold LocalArtifactStorage.write_file in Ew.
  destruct (stop_at s) as [[[|n] k]|]; [done|..]; injection Ew as <-; done.
Qed.
Abbreviation staged_txn content t :=
  (txn_stage (digest content) (digest content) (LocalArtifactStorage.byte_length content) t).
Lemma stage_Ok tid content t s t1 s1 : get_transaction tid s = Some t -> stage tid content s = (Ok t1, s1) ->
  t1 = staged_txn content t /\
  (wt_state t ∉ [TransactionState.committed; TransactionState.aborted; TransactionState.conflicted]) /\
  artifacts_projection s1 = artifacts_projection s /\ artifact_versions_projection s1 = artifact_versions_projection s /\
  cas s1 = cas s /\ staging s1 !! tid = Some content /\ get_transaction tid s1 = Some t1.
Proof.
  intros Ht E. unfold stage in E. rewrite gets_bind, Ht in E.
  apply bind_Ok_inv in E as (t' & s2 & Et & E). injection Et as <- <-.
  apply bind_Ok_inv in E as ([] & s2 & [Hst ->]%raise_if_Ok & E). apply bool_decide_eq_false in Hst.
  apply bind_Ok_inv in E as (sg & s2 & Hsg & E).
  apply bind_Ok_inv in E as ([] & s3 & Eq%check_quota_Ok & E). subst s3.
  apply bind_Ok_inv in E as ([] & s3 & (st & ->)%upsert_txn_Ok & E).
  apply bind_Ok_inv in E as ([] & s3 & Ej & E). injection E as <- <-.
  apply still_Ok, still_same in Ej as (EA & EV & ET & EC & EG); [|apply journal_event_still].
  apply driver_stage_Ok in Hsg as (-> & Ecore & Estg).
  assert (quiet_core s s2) as (CA & CV & CT & CC) by (unfold core in Ecore; unfold quiet_core; by simplify_eq).
  split_and!; [done|done|by rewrite EA|by rewrite EV|by rewrite EC| |].
  - rewrite EG. cbn. rewrite Estg. by rewrite lookup_insert_eq.
  - unfold get_transaction in *. rewrite ET. cbn -[tbl_upsert].
    rewrite CT.
    pose proof Ht as [Hid _]%tbl_find_Some. rewrite <-Hid.
    rewrite (tbl_find_upsert_eq wt_transaction_id txn_conflict (staged_txn content t)) by done.
    cbn [staged_txn wt_transaction_id txn_stage]. by rewrite Hid, Ht.
Qed.

(** The tables after a version was added for content that is in the store. *)
Record added (a : ArtifactRecord) (t : WriteTransaction) (ref hash : string) (s s' : AState) : Prop := {
  ad_artifacts : exists now, artifacts_projection s' =
    tbl_upsert ar_artifact_id artifact_conflict (artifact_row (with_version (ar_current_version a + 1) now a)) (artifacts_projection s);
  ad_versions : exists now, artifact_versions_projection s' =
    tbl_upsert version_key (fun old _ => old) (next_version a t ref hash now) (artifact_versions_projection s);
  ad_cas : cas s' = cas s }.
Lemma commit_version_Ok t a ref hash s t' s' : commit_version signal_service t a ref hash s = (Ok t', s') ->
  (exists now, t' = txn_finish TransactionState.committed now t) /\ added a t ref hash s s'.
Proof.
  unfold commit_version, now_utc. rewrite gets_bind.
  intros ([] & s1 & (st1 & ->)%insert_version_Ok & E)%bind_Ok_inv.
  apply bind_Ok_inv in E as ([] & s1 & (st2 & ->)%upsert_artifact_Ok & E).
  apply bind_Ok_inv in E as ([] & s1 & (st3 & ->)%upsert_txn_Ok & E).
  match type of E with ?m ?x = _ => assert (still x s') as Hst end.
  { eapply still_Ok; [|exact E]. solve_within. }
  apply still_same in Hst as (EA & EV & _ & EC & _).
  apply bind_Ok_inv in E as (u1 & s2 & _ & E). apply bind_Ok_inv in E as (u2 & s3 & _ & E).
  apply bind_Ok_inv in E as (u3 & s4 & _ & E). injection E as <- _.
  split; [by eexists|]. split; [eexists; by rewrite EA|eexists; by rewrite EV|by rewrite EC].
Qed.
Lemma commit_Ok tid content t s t' s' : get_transaction tid s = Some t -> wt_state t = TransactionState.staged ->
  staging s !! tid = Some content -> commit signal_service tid s = (Ok t', s') ->
  exists a s1, get_artifact (wt_artifact_id t) s = Some a /\
    (forall e, wt_expected_version t = Some e -> ar_current_version a = e) /\
    (exists now, t' = txn_finish TransactionState.committed now t) /\
    artifacts_projection s1 = artifacts_projection s /\ artifact_versions_projection s1 = artifact_versions_projection s /\
    cas s1 = (if decide (is_Some (cas s !! digest content)) then cas s else <[digest content := content]> (cas s)) /\
    added a t (digest content) (wt_staged_content_hash t) s1 s'.
Proof.
  intros Ht Hst Hfile E. unfold commit in E. rewrite gets_bind, Ht in E.
  apply bind_Ok_inv in E as (t0 & s1 & Et & E). injection Et as <- <-. unfold is_state in E. rewrite Hst in E.
  rewrite bool_decide_eq_false_2 in E by set_solver.
  apply bind_Ok_inv in E as ([] & s1 & [_ ->]%raise_if_Ok & E).
  apply bind_Ok_inv in E as ([] & s1 & [_ ->]%raise_if_Ok & E). rewrite gets_bind in E.
  apply bind_Ok_inv in E as (a & s1 & [Ha ->]%some_or_raise_Ok & E).
  destruct (match wt_expected_version t with Some e => negb (ar_current_version a =? e) | None => false end) eqn:Hexp.
  { unfold commit_conflict, now_utc in E. rewrite gets_bind in E.
    apply bind_Ok_inv in E as (u1 & s2 & _ & E). apply bind_Ok_inv in E as (u2 & s3 & _ & E).
    by apply bind_Ok_inv in E as (u3 & s4 & _ & E). }
  apply bind_Ok_inv in E as (cr & s1 & Hcr & E). destruct (driver_commit_run _ _ _ _ Hcr) as (A1 & V1 & T1 & K1 & Hf).
  rewrite Hfile in Hf. destruct Hf as (-> & _ & HC). rewrite gets_bind in E. cbn [cr_committed cr_content_ref negb andb] in E.
  rewrite (proj2 (String.eqb_neq (digest content) "")) in E by apply sha256_nonempty.
  apply commit_version_Ok in E as [Htxn Had]. exists a, s1. split_and!; try done.
  intros e He. rewrite He in Hexp. apply negb_false_iff, Z.eqb_eq in Hexp. done.
Qed.
End Runs.
