(* ===== verification/ArtifactSdk.v ===== *)
(** * The artifact SDK and the rebuild of its tables
    (agent_os/sdk/artifact_sdk.py, sdk/client.py)

    The facade for agent processes; methods that only forward are the methods they
    forward to. Rebuilding from the journal clears the artifact tables with the others. *)

From S2P Require Import Prelude PyString KernelModels Storage Journal CapabilityService LeaseService SignalService Invalidation ArtifactUri ArtifactModels.
From S2P Require ProcessService ActionService LocalArtifactStorage NamespaceService.
From S2P Require Import ArtifactService.
Open Scope Z_scope.

Section Sdk.
Context `{UuidSource, Sha256, Nfc} (capability_service lease_service signal_service : bool).

(** [content.decode("utf-8")]: well-formed text is what replacement leaves alone. *)
Definition sdk_read_text (pid uri : string) (version : option Z) : AM string :=
  content ← read capability_service pid uri version;
  raise_if (negb (bool_decide (utf8_replace [] [] (chars content) = chars content))) (ValueError "UnicodeDecodeError") ;;
  mret content.
(** [idempotency_key or f"auto-{uuid4().hex}"] *)
Definition sdk_write (pid uri content : string) (idempotency_key : option string) (expected_version : option Z)
    : AM WriteTransaction :=
  key ← (if String.eqb (default "" idempotency_key) "" then id ← fresh_id; mret ("auto-" +:+ id)
         else mret (default "" idempotency_key));
  write capability_service signal_service pid uri content key expected_version.
Definition sdk_stat (pid uri : string) : AM jobj := read_metadata capability_service pid uri None.
(** [except Exception]: being stopped is not one. *)
Definition sdk_exists (pid uri : string) : AM bool :=
  try_except (read_metadata capability_service pid uri None ;; mret true)
    (fun e => match e with Killed => raise Killed | _ => mret false end).
Definition sdk_get_usage `{PercentText} (pid : string) : AM jobj := get_namespace_usage ("ns-" +:+ pid).
Definition sdk_mount (target_pid mount_point source_pid source_prefix mode : string) : AM NamespaceMount :=
  NamespaceService.mount target_pid mount_point ("ns-" +:+ source_pid) source_prefix mode.

(** ** Rebuilding *)

Definition clear_artifacts (s : AState) : AState :=
  mkAState (clear_projections (kernel_state s)) [] [] [] [] [] [] [] [] [] (cas s) (staging s) (active_txns s) (stop_at s).
Definition rebuild_projections (handlers : list (KernelEvent -> AM unit)) : AM nat :=
  durable (modify clear_artifacts) ;;
  events ← gets (fun s => read_all (kernel_state s));
  for_each (fun ev => for_each (fun h => h ev) handlers) events ;;
  mret (length events).
(** [create_kernel] attaches no artifact services, so their handlers are not in the list. *)
Definition rebuild_from_journal : AM nat :=
  rebuild_projections ((fun h ev => on_kernel (h ev)) <$>
    [ProcessService.handle_event; ActionService.handle_event; CapabilityService.handle_event;
     LeaseService.handle_event; SignalService.handle_event]).
(** The handlers of a kernel with its artifact services. *)
Definition rebuild_with_artifacts : AM nat :=
  rebuild_projections (((fun h ev => on_kernel (h ev)) <$>
    [ProcessService.handle_event; ActionService.handle_event; CapabilityService.handle_event;
     LeaseService.handle_event; SignalService.handle_event]) ++
    [NamespaceService.handle_event; ArtifactService.handle_event]).

Lemma within_handlers (R : AState -> AState -> Prop) `{!PreOrder R} (handlers : list (KernelEvent -> AM unit)) evs :
  Forall (fun h => forall ev, within R (h ev)) handlers ->
  within R (for_each (fun ev => for_each (fun h => h ev) handlers) evs).
Proof.
  intros Hh. apply (within_for_each R). intros ev. induction Hh as [|h hs Hh _ IH]; cbn; [apply (within_ret R)|].
  apply (within_bind R); [apply Hh|done].
Qed.
(** Every artifact is gone after it. *)
Lemma rebuild_forgets_artifacts s n s' : rebuild_from_journal s = (Ok n, s') ->
  artifacts_projection s' = [] /\ artifact_versions_projection s' = [] /\ namespaces_projection s' = [].
Proof.
  set (part := fun s => (artifacts_projection s, artifact_versions_projection s, namespaces_projection s)).
  assert (forall A (m : M KState A), within (keeps part) (on_kernel m)) as Hk.
  { intros A m x. unfold on_kernel, durable, on_kernel_read. destruct (stop_at x) as [[[|i] j]|]; [done|..]; by destruct (m _). }
  unfold rebuild_from_journal, rebuild_projections. intros ([] & s1 & E1 & E)%bind_Ok_inv.
  rewrite gets_bind in E. apply bind_Ok_inv in E as ([] & s2 & E2 & E). injection E as _ <-.
  assert (part s1 = ([], [], [])) as P1.
  { unfold durable in E1. destruct (stop_at s) as [[[|i] j]|]; [done|..]; by injection E1 as <-. }
  assert (part s2 = ([], [], [])) as P2; [|unfold part in P2; by simplify_eq].
  rewrite <-P1. match type of E2 with ?m s1 = _ => assert (within (keeps part) m) as Hm end.
  { apply (within_handlers (keeps part)). rewrite Forall_fmap. apply Forall_true. intros h ev. apply Hk. }
  specialize (Hm s1). by rewrite E2 in Hm.
Qed.
End Sdk.
