(* ===== verification/ArtifactProps.v ===== *)
(** * What the artifact file system promises (agent_os/artifacts)

    Any sequence of its operations, each stopped at any durable write, interleaved with
    other kernel activity and restarts: versions are immutable and their content stays,
    what is written is read back, and access goes through the capabilities of the
    namespace an artifact is in. *)

From S2P Require Import Prelude PyString KernelModels Storage Journal CapabilityService LeaseService SignalService Invalidation ArtifactUri ArtifactModels.
From S2P Require LocalArtifactStorage NamespaceService.
From S2P Require Import ArtifactService ArtifactFacts ArtifactSdk.
Open Scope Z_scope.

(** ** Operations and runs *)

(** The methods of [ArtifactFSService] and [NamespaceService]. *)
Inductive fs_op : Type :=
  | FRead (pid uri : string) (version : option Z)
  | FMetadata (pid uri : string) (version : option Z)
  | FList (pid : string) (prefix : option string)
  | FVersions (pid uri : string)
  | FOpen (pid uri mode : string) (expected : option Z)
  | FClose (handle_id : string)
  | FCloseAll (pid : string)
  | FBegin (pid uri key : string) (expected : option Z)
  | FStage (tid content : string)
  | FCommit (tid : string)
  | FAbort (tid : string)
  | FWrite (pid uri content key : string) (expected : option Z)
  | FRecover
  | FWatch (pid prefix : string)
  | FUnwatch (watch_id : string)
  | FDelete (pid uri : string)
  | FCreateNamespace (pid : string) (quota handles : option Z)
  | FDeleteNamespace (pid : string)
  | FSetQuota (ns : string) (quota : Z)
  | FMount (pid point source prefix mode : string)
  | FUnmount (pid point : string)
  | FSnapshot (pid : string) (ns : option string).

Definition drop_result {A} (m : AM A) : AM unit := m ;; mret tt.

Section Runs.
Context `{UuidSource, Sha256Laws, Nfc} (capability_service lease_service signal_service : bool).

Definition run_fs (o : fs_op) : AM unit :=
  match o with
  | FRead p u v => drop_result (read capability_service p u v)
  | FMetadata p u v => drop_result (read_metadata capability_service p u v)
  | FList p x => drop_result (list_artifacts p x)
  | FVersions p u => drop_result (list_versions capability_service p u)
  | FOpen p u m e => drop_result (open capability_service lease_service p u m e)
  | FClose h => drop_result (close lease_service h)
  | FCloseAll p => drop_result (close_all_for_pid lease_service p)
  | FBegin p u k e => drop_result (begin_write capability_service p u k e)
  | FStage t c => drop_result (stage t c)
  | FCommit t => drop_result (commit signal_service t)
  | FAbort t => drop_result (abort t)
  | FWrite p u c k e => drop_result (write capability_service signal_service p u c k e)
  | FRecover => drop_result recover
  | FWatch p x => drop_result (watch p x)
  | FUnwatch w => drop_result (unwatch w)
  | FDelete p u => drop_result (delete_ capability_service p u)
  | FCreateNamespace p q h => drop_result (NamespaceService.create_namespace p q h)
  | FDeleteNamespace p => drop_result (NamespaceService.delete_namespace p)
  | FSetQuota n q => NamespaceService.set_quota n q
  | FMount p m s x d => drop_result (NamespaceService.mount p m s x d)
  | FUnmount p m => drop_result (NamespaceService.unmount p m)
  | FSnapshot p n => drop_result (NamespaceService.create_snapshot p n)
  end.

(** An operation that is stopped after some writes, or not; any activity of the other
    services of the kernel; a restart, with a new driver. *)
Inductive fs_next (s : AState) : AState -> Prop :=
  | next_op o st : fs_next s (run_fs o (set_stop (fun _ => st) s)).2
  | next_kernel k : (uuid_count (kernel_state s) <= uuid_count k)%N -> fs_next s (set_kernel (fun _ => k) s)
  | next_restart : fs_next s (LocalArtifactStorage._discover_staging_transactions (set_active (fun _ => ∅) s)).2.
Definition fs_reachable (s : AState) : Prop := exists k, rtc fs_next (init_artifacts k) s.

Lemma delete_namespace_quiet pid : within quiet (NamespaceService.delete_namespace pid).
Proof.
  unfold NamespaceService.delete_namespace. within_step; [solve_within|]. case_match; [|solve_within].
  within_step; [|solve_within]. unfold NamespaceService.delete_namespace_rows. apply durable_quiet.
  intros s1. reflexivity.
Qed.
Lemma upsert_snapshot_quiet snap : within quiet (upsert_snapshot snap).
Proof. unfold upsert_snapshot. apply durable_quiet. solve_within. Qed.
#[local] Hint Resolve upsert_snapshot_quiet : lhos.
Lemma namespace_ops_quiet o : within quiet (match o with
  | FCreateNamespace p q h => drop_result (NamespaceService.create_namespace p q h)
  | FSetQuota n q => NamespaceService.set_quota n q
  | FMount p m s x d => drop_result (NamespaceService.mount p m s x d)
  | FUnmount p m => drop_result (NamespaceService.unmount p m)
  | FSnapshot p n => drop_result (NamespaceService.create_snapshot p n)
  | _ => mret tt end).
Proof.
  destruct o; unfold drop_result, NamespaceService.create_namespace, NamespaceService.set_quota, NamespaceService.mount,
    NamespaceService.unmount, NamespaceService.create_snapshot, upsert_namespace, upsert_mount, delete_mount;
    solve_within.
Qed.
Lemma drop_step {A} (m : AM A) : within fs_step m -> within fs_step (drop_result m).
Proof. intros Hm. unfold drop_result. within_step; [done|solve_within]. Qed.
Lemma drop_quiet {A} (m : AM A) : within quiet m -> within fs_step (drop_result m).
Proof. intros Hm. by apply drop_step, within_quiet. Qed.
Lemma run_fs_step o : within fs_step (run_fs o).
Proof.
  pose proof (namespace_ops_quiet o) as Hns.
  destruct o; cbn [run_fs]; try (by apply within_quiet).
  - apply drop_quiet, read_quiet.
  - apply drop_quiet, read_metadata_quiet.
  - apply drop_quiet. unfold list_artifacts. solve_within.
  - apply drop_quiet. unfold list_versions. solve_within.
  - apply drop_step, open_step.
  - apply drop_quiet, close_quiet.
  - apply drop_quiet, close_all_quiet.
  - apply drop_step, begin_write_step.
  - apply drop_step, stage_step.
  - apply drop_step, commit_step.
  - apply drop_step, abort_step.
  - apply drop_step, write_step.
  - apply drop_step, recover_step.
  - apply drop_quiet, watch_quiet.
  - apply drop_quiet, unwatch_quiet.
  - apply drop_step, delete_step.
  - apply drop_quiet, delete_namespace_quiet.
Qed.
Lemma next_step s s' : fs_next s s' -> fs_step s s'.
Proof.
  intros [o st|k Hk|].
  - transitivity (set_stop (fun _ => st) s); [by apply quiet_step|apply run_fs_step].
  - apply quiet_step. by split.
  - apply quiet_step. by split.
Qed.
Lemma init_fs_ok k : fs_ok (init_artifacts k).
Proof. split; cbn; try done; try apply NoDup_nil_2; try (by intros ? ?%elem_of_nil). Qed.
Lemma steps_ok s s' : rtc fs_next s s' -> fs_step s s'.
Proof. intros Hr. apply (rtc_preorder fs_step). eapply rtc_subrel; [|exact Hr]. apply next_step. Qed.
Lemma afs_reachable_ok s : fs_reachable s -> fs_ok s.
Proof. intros [k Hr]. apply (steps_ok _ _ Hr), init_fs_ok. Qed.

(** ** Reading *)

(** The bytes of a version. *)
Definition content_of (id : string) (v : Z) (s : AState) : option string :=
  get_version id v s ≫= fun ver => cas s !! av_content_ref ver.
Lemma content_there s a v : fs_ok s -> a ∈ artifacts_projection s -> 1 <= v <= ar_current_version a ->
  exists ver content, get_version (ar_artifact_id a) v s = Some ver /\ cas s !! av_content_ref ver = Some content /\
    sha256_hexdigest content = av_content_ref ver /\ content_of (ar_artifact_id a) v s = Some content.
Proof.
  intros Hs Ha Hv. destruct (co_spans _ _ _ _ _ Hs a Ha) as (_ & _ & Hin).
  apply Hin, list_elem_of_fmap in Hv as (ver & Hk & Hver). unfold content_of.
  assert (get_version (ar_artifact_id a) v s = Some ver) as Hg.
  { unfold get_version. rewrite Hk. apply tbl_find_elem; [apply Hs|done]. }
  destruct (co_versions _ _ _ _ _ Hs ver Hver) as (_ & [content Hc] & _).
  exists ver, content. rewrite Hg. split_and!; [done..| |done]. by apply (co_digests _ _ _ _ _ Hs).
Qed.
Lemma get_version_grows s s' id v ver : fs_ok s' -> grows s s' -> get_version id v s = Some ver -> get_version id v s' = Some ver.
Proof.
  intros Hs' Hg [Hk Hver]%tbl_find_Some. unfold get_version. rewrite <-Hk. apply tbl_find_elem; [apply Hs'|].
  destruct (gr_versions _ _ Hg) as [vs ->]. set_solver.
Qed.
Lemma content_grows s s' id v content : fs_ok s' -> grows s s' -> content_of id v s = Some content -> content_of id v s' = Some content.
Proof.
  intros Hs' Hg. unfold content_of. destruct (get_version id v s) as [ver|] eqn:E; cbn; [|done]. intros Hc.
  rewrite (get_version_grows s s' id v ver) by done. cbn. eapply lookup_weaken; [done|apply Hg].
Qed.
Lemma by_uri_elem uri s a : get_artifact_by_uri uri s = Some a -> a ∈ artifacts_projection s.
Proof. by intros [_ ?]%tbl_find_Some. Qed.
Lemma artifact_by_uri_grows s s' uri a : fs_ok s' -> grows s s' -> get_artifact_by_uri uri s = Some a ->
  exists a', get_artifact_by_uri uri s' = Some a' /\ artifact_le a a'.
Proof.
  intros Hs' Hg [Hu Ha]%tbl_find_Some. destruct (gr_artifacts _ _ Hg a Ha) as (a' & Ha' & Hle). exists a'. split; [|done].
  unfold get_artifact_by_uri. destruct Hle as (_ & <- & _) in Hu. rewrite <-Hu. apply tbl_find_elem; [apply Hs'|done].
Qed.

(** What a read returns of an artifact that is there. *)
Lemma read_run pid uri v c a s : fs_ok s -> _resolve_and_check capability_service pid uri "read" s = (Ok c, s) ->
  get_artifact_by_uri (cu_canonical c) s = Some a -> ar_deleted a = false -> 1 <= version_or v (ar_current_version a) <= ar_current_version a ->
  exists content, content_of (ar_artifact_id a) (version_or v (ar_current_version a)) s = Some content /\
    read capability_service pid uri v s = (Ok content, s).
Proof.
  intros Hs Hr Ha Hd Hv. pose proof Ha as [_ Hin]%tbl_find_Some.
  set (w := version_or v (ar_current_version a)) in *.
  destruct (content_there s a w Hs Hin Hv) as (ver & content & Hg & Hc & _ & Hco). exists content. split; [done|].
  unfold read. rewrite (bind_Ok _ _ s c s Hr). unfold live_artifact. rewrite (bind_Ok _ _ s a s) by (rewrite gets_bind, Ha, Hd; done).
  rewrite (bind_Ok _ _ s tt s) by (unfold raise_if; rewrite (proj2 (Z.eqb_neq _ _)) by lia; done).
  fold w.
  rewrite (bind_Ok _ _ s tt s) by (unfold raise_if; destruct (w <? 1) eqn:E1, (ar_current_version a <? w) eqn:E2; cbn; [lia..|done]).
  rewrite gets_bind, Hg. rewrite (bind_Ok _ _ s ver s) by done. unfold LocalArtifactStorage.read. by rewrite gets_bind, Hc.
Qed.

(** C16: Versions are immutable. In every state the file system reaches, with operations
    stopped at any write, restarts and any other activity of the kernel: every version of
    an artifact from 1 to the current one can be read by whoever may read the artifact
    while it is not deleted, its bytes have the digest that names them, and at most one
    version more has been prepared. Whatever happens afterwards, the artifact keeps its
    identity, its current version does not go back, and reading the version again returns
    the same bytes, unless the artifact has been deleted. *)
Theorem artifact_versions_immutable s s' a v : fs_reachable s -> rtc fs_next s s' ->
  a ∈ artifacts_projection s -> 1 <= v <= ar_current_version a ->
  exists ver content a', get_version (ar_artifact_id a) v s = Some ver /\ sha256_hexdigest content = av_content_ref ver /\
    (forall w, is_Some (get_version (ar_artifact_id a) w s) -> 1 <= w <= ar_current_version a + 1) /\
    (forall pid uri c, _resolve_and_check capability_service pid uri "read" s = (Ok c, s) ->
       cu_canonical c = ar_canonical_uri a -> ar_deleted a = false ->
       read capability_service pid uri (Some v) s = (Ok content, s)) /\
    a' ∈ artifacts_projection s' /\ artifact_le a a' /\ get_version (ar_artifact_id a) v s' = Some ver /\
    (forall pid uri c, _resolve_and_check capability_service pid uri "read" s' = (Ok c, s') ->
       cu_canonical c = ar_canonical_uri a -> ar_deleted a' = false ->
       read capability_service pid uri (Some v) s' = (Ok content, s')).
Proof.
  intros Hs%afs_reachable_ok Hr Ha Hv. destruct (steps_ok _ _ Hr Hs) as [Hs' Hg].
  destruct (content_there s a v Hs Ha Hv) as (ver & content & Hver & _ & Hdig & Hco).
  destruct (gr_artifacts _ _ Hg a Ha) as (a' & Ha' & Hle). exists ver, content, a'.
  assert (forall st b, fs_ok st -> b ∈ artifacts_projection st -> artifact_le a b -> content_of (ar_artifact_id a) v st = Some content ->
    forall pid uri c, _resolve_and_check capability_service pid uri "read" st = (Ok c, st) ->
    cu_canonical c = ar_canonical_uri a -> ar_deleted b = false -> read capability_service pid uri (Some v) st = (Ok content, st)) as Hread.
  { intros st b Hst Hb (Eid & Eu & _ & Ecv) Hc pid uri c Hres Hcan Hd.
    assert (version_or (Some v) (ar_current_version b) = v) as Ev
      by (unfold version_or; by rewrite (proj2 (Z.eqb_neq v 0)) by lia).
    destruct (read_run pid uri (Some v) c b st) as (x & Hx & ->); [done..| |done|rewrite Ev; lia|].
    - unfold get_artifact_by_uri. rewrite Hcan, <-Eu. apply tbl_find_elem; [apply Hst|done].
    - rewrite Eid, Ev in Hx. congruence. }
  split_and!; [done|done| |apply Hread; [done..|split_and!; [done..|lia]|done]|done|done|by apply (get_version_grows s s')|].
  - intros w [x [Hk Hx]%tbl_find_Some]. apply (co_spans _ _ _ _ _ Hs a Ha). unfold version_keys. rewrite <-Hk. by apply list_elem_of_fmap_2.
  - apply Hread; [done..|]. by apply (content_grows s s').
Qed.

(** ** Writing *)

(** What a process may write it reads under the same URI, once it is there. *)
Lemma resolve_read_back pid uri s c s' c' a :
  _resolve_and_check capability_service pid uri "write" s = (Ok c, s) ->
  _resolve_and_check capability_service pid uri "read" s' = (Ok c', s') ->
  get_artifact_by_uri (cu_canonical c) s' = Some a -> ar_deleted a = false -> c' = c.
Proof.
  intros (_ & _ & c0 & Hc0 & -> & _)%resolve_run (_ & _ & c1 & Hc1 & -> & _)%resolve_run Ha Hd.
  rewrite Hc0 in Hc1. injection Hc1 as <-. unfold resolve_mounts in *. cbn [String.eqb Ascii.eqb Bool.eqb andb] in *.
  destruct (String.eqb _ _); [|done]. by rewrite Ha, Hd.
Qed.
(** The record after a version was added. *)
Lemma added_artifact a t ref hash s s1 s' : fs_ok s -> fs_ok s' -> added a t ref hash s1 s' ->
  artifacts_projection s1 = artifacts_projection s -> a ∈ artifacts_projection s ->
  exists a', get_artifact_by_uri (ar_canonical_uri a) s' = Some a' /\ ar_artifact_id a' = ar_artifact_id a /\
    ar_current_version a' = ar_current_version a + 1 /\ ar_deleted a' = ar_deleted a.
Proof.
  intros Hs Hs' Had E Ha. destruct (ad_artifacts _ _ _ _ _ _ Had) as [now EA]. rewrite E in EA.
  set (rec := artifact_row (with_version (ar_current_version a + 1) now a)) in *.
  exists (artifact_conflict a rec). split; [|done].
  assert (artifact_conflict a rec ∈ artifacts_projection s') as Hin.
  { rewrite EA. apply (tbl_upsert_elem ar_artifact_id artifact_conflict rec a); [apply Hs| |by left].
    exact (tbl_find_elem ar_artifact_id _ a (co_ids _ _ _ _ _ Hs) Ha). }
  apply (tbl_find_elem ar_canonical_uri _ (artifact_conflict a rec)); [apply Hs'|done].
Qed.
Lemma added_versions a t ref hash s s' : added a t ref hash s s' ->
  get_version (ar_artifact_id a) (ar_current_version a + 1) s = None ->
  exists now, artifact_versions_projection s' = artifact_versions_projection s ++ [next_version a t ref hash now].
Proof.
  intros Had Hnone. destruct (ad_versions _ _ _ _ _ _ Had) as [now ->]. exists now.
  rewrite (tbl_ignore_prefix version_key). unfold get_version in Hnone. unfold version_key at 2. cbn. by rewrite Hnone.
Qed.

(** What a write that returns has done: an earlier transaction with its key is returned, or
    the next version is there. *)
Definition write_outcome (pid uri content key : string) (expected : option Z) (s : AState) (txn : WriteTransaction)
    (s' : AState) (c : CanonicalURI) (a : ArtifactRecord) : Prop :=
  txn ∈ write_transactions_projection s /\ artifact_versions_projection s' = artifact_versions_projection s /\
    ar_current_version a = current_of (cu_canonical c) s \/
  ar_current_version a = current_of (cu_canonical c) s + 1 /\
    (forall e, expected = Some e -> (forall t, t ∈ write_transactions_projection s -> txn_key t <> txn_key txn) ->
       current_of (cu_canonical c) s = e) /\
    (get_version (ar_artifact_id a) (ar_current_version a) s = None ->
      (exists now, artifact_versions_projection s' = artifact_versions_projection s ++
         [mkVersion (ar_artifact_id a) (ar_current_version a) (sha256_hexdigest content) (sha256_hexdigest content)
            (LocalArtifactStorage.byte_length content)
            (if 1 <? ar_current_version a then Some (ar_current_version a - 1) else None) pid (wt_transaction_id txn) now]) /\
      (forall c', _resolve_and_check capability_service pid uri "read" s' = (Ok c', s') -> ar_deleted a = false ->
         read capability_service pid uri None s' = (Ok content, s'))).

(** C17: What is written is read back. When write returns in a state the file system
    reaches, its transaction is committed; either it is the earlier transaction of the same
    idempotency key and no version was added, or the current version of the artifact went up
    by one, from the expected version if one was given and the key is new. Unless a stopped
    commit had left that version behind, it is the one version added, with the digest and
    size of the content, and a read of the same URI by a process that may read it returns
    exactly the content, while the artifact is not deleted (no other content has its
    digest). *)
Theorem write_then_read pid uri content key expected s txn s' : fs_reachable s ->
  (forall x, sha256_hexdigest x = sha256_hexdigest content -> x = content) ->
  write capability_service signal_service pid uri content key expected s = (Ok txn, s') ->
  exists c a, _resolve_and_check capability_service pid uri "write" s = (Ok c, s) /\
    get_artifact_by_uri (cu_canonical c) s' = Some a /\ wt_state txn = TransactionState.committed /\
    txn_key txn = (ar_artifact_id a, pid, key) /\ write_outcome pid uri content key expected s txn s' c a.
Proof.
  intros Hs%afs_reachable_ok Hinj E.
  assert (fs_ok s') as Hs' by (pose proof (write_step capability_service signal_service pid uri content key expected s Hs) as [Hok _]; by rewrite E in Hok).
  unfold write in E. apply bind_Ok_inv in E as (t & s1 & Eb & E).
  assert (fs_ok s1) as Hs1 by (pose proof (begin_write_step capability_service pid uri key expected s Hs) as [Hok _]; by rewrite Eb in Hok).
  destruct (begin_write_Ok capability_service pid uri key expected s t s1 Hs Eb) as (c & a & B).
  pose proof (bg_artifact _ _ _ _ _ _ _ _ _ _ B) as Ha. pose proof (bg_uri _ _ _ _ _ _ _ _ _ _ B) as Hu.
  exists c. destruct (is_state t [TransactionState.committed]) eqn:Hst.
  - injection E as <- <-. apply bool_decide_eq_true, list_elem_of_singleton in Hst. exists a.
    split; [apply B|]. split; [rewrite <-Hu; apply (tbl_find_elem ar_canonical_uri); [apply Hs1|done]|].
    split; [done|]. split; [apply B|]. left.
    destruct (bg_kind _ _ _ _ _ _ _ _ _ _ B) as [(? & _)|(? & _)]; [|congruence]. split_and!; [done|apply B..].
  - apply bind_Ok_inv in E as (t1 & s2 & Es & E).
    assert (fs_ok s2) as Hs2 by (pose proof (stage_step (wt_transaction_id t) content s1 Hs1) as [Hok _]; by rewrite Es in Hok).
    destruct (stage_Ok _ _ t _ _ _ (bg_txn _ _ _ _ _ _ _ _ _ _ B) Es) as (-> & _ & A2 & V2 & C2 & Hfile & Hg2).
    destruct (commit_Ok signal_service _ content _ _ _ _ Hg2 eq_refl Hfile E) as (a0 & s3 & Ha0 & _ & [now ->] & A3 & V3 & C3 & Had).
    pose proof (bg_key _ _ _ _ _ _ _ _ _ _ B) as Hkey.
    assert (a0 = a) as ->.
    { apply tbl_find_Some in Ha0 as [Hid Hin]. apply (NoDup_key_inj ar_artifact_id (artifacts_projection s2)); [apply Hs2|done|by rewrite A2|].
      rewrite Hid. cbn. unfold txn_key in Hkey. congruence. }
    destruct (added_artifact a _ _ _ s2 s3 s' Hs2 Hs' Had A3) as (a' & Ha' & Hid' & Hcv' & Hd'); [by rewrite A2|].
    exists a'. split; [apply B|]. split; [by rewrite <-Hu|]. split; [done|]. split; [rewrite Hid'; exact Hkey|]. right.
    pose proof (bg_current _ _ _ _ _ _ _ _ _ _ B) as Hcur. split; [lia|]. split.
    { intros e He Hno. rewrite <-Hcur. destruct (bg_kind _ _ _ _ _ _ _ _ _ _ B) as [(Hin & _)|(_ & _ & Hx)]; [|by apply Hx].
      by destruct (Hno t Hin). }
    intros Hnone. rewrite Hid', Hcv' in Hnone |- *.
    assert (artifact_versions_projection s3 = artifact_versions_projection s) as V by (rewrite V3, V2; apply B).
    destruct (added_versions a _ _ _ s3 s' Had) as [nowv EV]; [unfold get_version in *; by rewrite V|]. rewrite V in EV.
    assert (1 <= ar_current_version a + 1) as Hge by (pose proof (co_spans _ _ _ _ _ Hs1 a Ha) as (? & _); lia).
    split.
    + exists nowv. rewrite EV. unfold next_version. cbn.
      assert ((if 0 <? ar_current_version a then Some (ar_current_version a) else None) =
        (if 1 <? ar_current_version a + 1 then Some (ar_current_version a + 1 - 1) else None)) as ->.
      { destruct (0 <? ar_current_version a) eqn:E1, (1 <? ar_current_version a + 1) eqn:E2; try lia; [|done].
        f_equal. lia. }
      unfold txn_key in Hkey. by injection Hkey as _ -> _.
    + intros c' Hres Hdel. assert (c' = c) as -> by (eapply resolve_read_back; [apply B|done|by rewrite <-Hu|done]).
      destruct (read_run pid uri None c a' s') as (x & Hx & ->); [done|done|by rewrite <-Hu|done|cbn; rewrite Hcv'; lia|]. do 2 f_equal.
      apply Hinj. unfold content_of in Hx. cbn [version_or] in Hx. rewrite Hid', Hcv' in Hx.
      assert (get_version (ar_artifact_id a) (ar_current_version a + 1) s' =
        Some (next_version a (txn_stage (sha256_hexdigest content) (sha256_hexdigest content) (LocalArtifactStorage.byte_length content) t)
               (sha256_hexdigest content) (sha256_hexdigest content) nowv)) as Hgv.
      { unfold get_version. apply (tbl_find_elem version_key _ (next_version a _ _ _ nowv)); [apply Hs'|]. rewrite EV. set_solver. }
      rewrite Hgv in Hx. cbn in Hx. by apply (co_digests _ _ _ _ _ Hs').
Qed.
End Runs.

(** ** Access *)

Lemma artifact_uri_inj ns path ns' path' : artifact_uri ns path = artifact_uri ns' path' ->
  (slash ∉ chars ns) -> (slash ∉ chars ns') -> ns = ns'.
Proof.
  intros E%(f_equal chars) H1 H2. unfold artifact_uri in E. rewrite !chars_app in E. apply app_inv_head in E.
  assert (partition_chars [slash] (chars ns ++ chars "/" ++ chars path) = Some (chars ns, chars path)) as P1
    by (by apply (partition_at_sep slash)).
  rewrite E in P1. change (chars "/" ++ chars path') with (slash :: chars path') in P1. rewrite (partition_at_sep slash (chars ns') (chars path')) in P1 by done.
  injection P1 as Eq _. by apply chars_inj.
Qed.

Section Access.
Context `{UuidSource, Sha256Laws, Nfc} (lease_service signal_service : bool).

(** The process may do [op] in the namespace that the URI of the artifact names, which is
    the namespace of the artifact when identifiers have no slashes. *)
Definition permitted (pid op : string) (a : ArtifactRecord) (s : AState) : Prop :=
  exists ns path, ar_canonical_uri a = artifact_uri ns path /\
    check pid (namespace_resource ns) op (kernel_state s) = true /\
    ((slash ∉ chars ns) -> (slash ∉ chars (ar_namespace_id a)) -> ns = ar_namespace_id a).
Lemma resolved_permitted pid uri op s c a s1 : _resolve_and_check true pid uri op s = (Ok c, s1) ->
  (exists path, ar_canonical_uri a = artifact_uri (ar_namespace_id a) path) ->
  ar_canonical_uri a = cu_canonical c -> permitted pid (capability_op op) a s.
Proof.
  intros (-> & Hwf & c0 & _ & _ & Hcap)%resolve_run [path Hpath] Hu.
  exists (cu_namespace_id c), (cu_path c). split; [by rewrite Hu|]. split; [by apply Hcap|].
  intros H1' H2'. apply (artifact_uri_inj _ (cu_path c) _ path); [|done..]. by rewrite <-Hpath, Hu.
Qed.
Lemma live_artifact_Ok c s a s1 : live_artifact c s = (Ok a, s1) ->
  s1 = s /\ get_artifact_by_uri (cu_canonical c) s = Some a /\ ar_deleted a = false.
Proof.
  unfold live_artifact. rewrite gets_bind. destruct (get_artifact_by_uri _ s) as [b|]; [|done].
  intros ([] & s2 & [Hd ->]%raise_if_Ok & E)%bind_Ok_inv. by injection E as <- <-.
Qed.

(** C18: Access goes through capabilities. With the capability service in place: what a
    process reads are the bytes of a version, from 1 to the current one, of an artifact that
    is not deleted and in whose namespace it may read, also when a mount led there; a write
    transaction it gets, and an artifact it deletes, are of a namespace in which it may
    write; and an operation whose URI does not resolve, or whose checks fail, raises before
    it changes anything. *)
Theorem artifact_access_checked pid uri s : fs_reachable true lease_service signal_service s ->
  (forall v content s1, read true pid uri v s = (Ok content, s1) -> exists a,
     a ∈ artifacts_projection s /\ ar_deleted a = false /\ permitted pid "read" a s /\
     1 <= version_or v (ar_current_version a) <= ar_current_version a /\
     content_of (ar_artifact_id a) (version_or v (ar_current_version a)) s = Some content /\ s1 = s) /\
  (forall key expected t s1, begin_write true pid uri key expected s = (Ok t, s1) -> exists a,
     a ∈ artifacts_projection s1 /\ txn_key t = (ar_artifact_id a, pid, key) /\ permitted pid "write" a s) /\
  (forall b s1, delete_ true pid uri s = (Ok b, s1) -> exists a, a ∈ artifacts_projection s /\ permitted pid "write" a s) /\
  (forall e s1, _resolve_and_check true pid uri "read" s = (Raise e, s1) ->
     s1 = s /\ (forall v, read true pid uri v s = (Raise e, s))) /\
  (forall e s1, _resolve_and_check true pid uri "write" s = (Raise e, s1) ->
     s1 = s /\ (forall key x, begin_write true pid uri key x s = (Raise e, s)) /\ delete_ true pid uri s = (Raise e, s)).
Proof.
  intros Hs%afs_reachable_ok. split_and!.
  - intros v content s1 E. unfold read in E. apply bind_Ok_inv in E as (c & s0 & Hres & E).
    pose proof (resolve_run _ _ _ _ _ _ _ Hres) as (-> & _ & _).
    apply bind_Ok_inv in E as (a & s0 & (-> & Ha & Hd)%live_artifact_Ok & E). exists a.
    apply bind_Ok_inv in E as ([] & s0 & [_ ->]%raise_if_Ok & E). set (w := version_or v (ar_current_version a)) in *.
    apply bind_Ok_inv in E as ([] & s0 & [Hw ->]%raise_if_Ok & E). rewrite gets_bind in E.
    apply bind_Ok_inv in E as (ver & s0 & [Hv ->]%some_or_raise_Ok & E).
    unfold LocalArtifactStorage.read in E. rewrite gets_bind in E. apply some_or_raise_Ok in E as [Hc ->].
    pose proof Ha as [Hu Hin]%tbl_find_Some. apply orb_false_iff in Hw as [Hw1 Hw2]. split_and!; try done; try lia.
    + eapply (resolved_permitted pid uri "read"); [done|by apply (co_uri _ _ _ _ _ Hs)|done].
    + unfold content_of. by rewrite Hv.
  - intros key x t s1 E.
    assert (fs_ok s1) as Hs1 by (pose proof (begin_write_step true pid uri key x s Hs) as [Hok _]; by rewrite E in Hok).
    destruct (begin_write_Ok true pid uri key x s t s1 Hs E) as (c & a & B). exists a.
    split; [apply B|]. split; [apply B|]. eapply (resolved_permitted pid uri "write"); [apply B|apply (co_uri _ _ _ _ _ Hs1), B|apply B].
  - intros b s1 E. unfold delete_ in E. apply bind_Ok_inv in E as (c & s0 & Hres & E).
    pose proof (resolve_run _ _ _ _ _ _ _ Hres) as (-> & _ & _). rewrite gets_bind in E.
    apply bind_Ok_inv in E as (a & s0 & [Ha ->]%some_or_raise_Ok & E). exists a. pose proof Ha as [Hu Hin]%tbl_find_Some.
    split; [done|]. eapply (resolved_permitted pid uri "write"); [done|by apply (co_uri _ _ _ _ _ Hs)|done].
  - intros e s1 E. pose proof (resolve_raise true pid uri "read" s) as Hst. rewrite E in Hst. cbn in Hst. subst s1.
    split; [done|]. intros v. unfold read. by rewrite (bind_Raise _ _ _ _ _ E).
  - intros e s1 E. pose proof (resolve_raise true pid uri "write" s) as Hst. rewrite E in Hst. cbn in Hst. subst s1.
    split; [done|]. split; [|unfold delete_; by rewrite (bind_Raise _ _ _ _ _ E)].
    intros key x. unfold begin_write. by rewrite (bind_Raise _ _ _ _ _ E).
Qed.
End Access.

(** ** Mounts *)

Import NamespaceService.

Lemma mount_applies_spec path m : mount_applies path m = true <->
  exists k, chars path = chars (nm_mount_point m) ++ k /\ (k = [] \/ head k = Some slash).
Proof.
  unfold mount_applies, startswith. rewrite orb_true_iff, bool_decide_eq_true, chars_app.
  split.
  - intros [<-%String.eqb_eq|[r Hr%drop_prefix_Some]].
    + exists []. split; [by rewrite app_nil_r|by left].
    + exists (slash :: r). split; [by rewrite Hr, <-app_assoc|by right].
  - intros (k & E & [->|Hk]).
    + left. apply String.eqb_eq, chars_inj. by rewrite E, app_nil_r.
    + right. destruct k as [|x k]; [done|]. injection Hk as ->. exists k. apply drop_prefix_Some. by rewrite E, <-app_assoc.
Qed.
Lemma py_len_app l k : length (filter (fun a => ~ (128 <= Ascii.nat_of_ascii a < 192)%nat) (l ++ k)) =
  (length (filter (fun a => ~ (128 <= Ascii.nat_of_ascii a < 192)%nat) l) +
   length (filter (fun a => ~ (128 <= Ascii.nat_of_ascii a < 192)%nat) k))%nat.
Proof. by rewrite filter_app, length_app. Qed.
(** Of two mount points that apply, the longer in characters extends the other. *)
Lemma mount_points_comparable path m m' : mount_applies path m = true -> mount_applies path m' = true ->
  chars (nm_mount_point m) `prefix_of` chars (nm_mount_point m') ->
  nm_mount_point m = nm_mount_point m' \/ py_len (nm_mount_point m) < py_len (nm_mount_point m').
Proof.
  intros (k & E & Hk)%mount_applies_spec (k' & E' & _)%mount_applies_spec [j Hj].
  destruct j as [|x j]; [left; apply chars_inj; by rewrite Hj, app_nil_r|right].
  rewrite Hj, <-app_assoc in E'. rewrite E in E'. apply app_inv_head in E'.
  assert (x = slash) as -> by (destruct Hk as [->|Hk]; [done|]; subst k; by injection Hk).
  unfold py_len. rewrite Hj, py_len_app. rewrite filter_cons_True by (vm_compute; lia). cbn. lia.
Qed.
Lemma mount_longest_or_same path m m' : mount_applies path m = true -> mount_applies path m' = true ->
  nm_mount_point m = nm_mount_point m' \/ py_len (nm_mount_point m) < py_len (nm_mount_point m') \/
  py_len (nm_mount_point m') < py_len (nm_mount_point m).
Proof.
  intros Hm Hm'. pose proof Hm as (k & E & _)%mount_applies_spec. pose proof Hm' as (k' & E' & _)%mount_applies_spec.
  destruct (prefix_weak_total (chars (nm_mount_point m)) (chars (nm_mount_point m')) (chars path)) as [Hp|Hp].
  - by exists k.
  - by exists k'.
  - destruct (mount_points_comparable path m m' Hm Hm' Hp); auto.
  - destruct (mount_points_comparable path m' m Hm' Hm Hp); auto.
Qed.

(** The mount that wins: one that applies and is at least as long as all that do. *)
Definition longest_mount (mounts : list NamespaceMount) (path : string) (best : option NamespaceMount) : Prop :=
  match best with
  | None => forall m, m ∈ mounts -> mount_applies path m = false
  | Some b => b ∈ mounts /\ mount_applies path b = true /\
      forall m, m ∈ mounts -> mount_applies path m = true ->
        nm_mount_point m = nm_mount_point b \/ py_len (nm_mount_point m) < py_len (nm_mount_point b)
  end.
Lemma pick_longest mounts path : longest_mount mounts path (_pick_mount_longest_prefix mounts path).
Proof.
  unfold _pick_mount_longest_prefix. set (f := fun acc mnt => _).
  enough (forall l acc don, longest_mount don path acc.1 ->
    acc.2 = match acc.1 with Some b => py_len (nm_mount_point b) | None => -1 end ->
    longest_mount (don ++ l) path (foldl f acc l).1) as Hgen
    by (apply (Hgen mounts (None, -1) []); [by intros m ?%elem_of_nil|done]).
  induction l as [|m l IH]; intros acc don Hd Hlen; [by rewrite app_nil_r|]. cbn [foldl].
  rewrite (cons_middle m don l), app_assoc. apply IH; unfold f.
  - destruct (mount_applies path m) eqn:Hm; cbn [andb].
    + assert (forall z, 0 <= py_len z) as Hpos by (intros z; unfold py_len; lia).
      destruct (acc.2 <? py_len (nm_mount_point m)) eqn:Hlt; cbn [fst].
      * split; [set_solver|]. split; [done|]. intros m' [Hm'| ->%list_elem_of_singleton]%elem_of_app Ha; [|by left].
        right. destruct (acc.1) as [b|]; [|by rewrite (Hd m' Hm') in Ha].
        destruct Hd as (_ & _ & Hd). destruct (Hd m' Hm' Ha) as [->|]; lia.
      * destruct (acc.1) as [b|]; [|specialize (Hpos (nm_mount_point m)); lia]. destruct Hd as (Hb & Hab & Hd).
        split; [set_solver|]. split; [done|]. intros m' [Hm'| ->%list_elem_of_singleton]%elem_of_app Ha; [auto|].
        destruct (mount_longest_or_same path m b Hm Hab) as [?|[?|?]]; [by left|by right|lia].
    + destruct (acc.1) as [b|].
      * destruct Hd as (Hb & Hab & Hd). split; [set_solver|]. split; [done|].
        intros m' [Hm'| ->%list_elem_of_singleton]%elem_of_app Ha; [auto|congruence].
      * intros m' [Hm'| ->%list_elem_of_singleton]%elem_of_app; [auto|done].
  - destruct (_ && _); [done|exact Hlen].
Qed.

(** Reads go through the longest mount. The mount resolve_mount picks for a path applies
    to it, and every other mount that applies has the same mount point or a shorter one;
    none is picked only if none applies. The resolution of reads agrees with it: a path of
    the caller's namespace without a live artifact there is read where resolve_mount leads,
    unless that mount is private, and with a live artifact it is read in place. *)
Theorem mount_resolution_agrees `{Nfc} (c : CanonicalURI) s : let ns := cu_namespace_id c in
  longest_mount (list_mounts ns s) (cu_path c) (_pick_mount_longest_prefix (list_mounts ns s) (cu_path c)) /\
  resolve_mounts ns "read" c s =
    match get_artifact_by_uri (cu_canonical c) s with
    | Some (mkArtifact _ _ _ _ _ _ _ _ false _) => c
    | _ => match resolve_mount ns (cu_path c) s with
           | (_, _, private) => c
           | (ns', path', _) => canonical_uri_of ns' path'
           end
    end.
Proof.
  intros ns. split; [apply pick_longest|]. unfold resolve_mounts, through_mounts, resolve_mount. fold ns. rewrite !String.eqb_refl. cbn [andb].
  change (best_mount (list_mounts ns s) (cu_path c)) with (_pick_mount_longest_prefix (list_mounts ns s) (cu_path c)).
  destruct (get_artifact_by_uri _ s) as [[? ? ? ? ? ? ? ? [] ?]|]; cbn [ar_deleted]; [|done|];
    (destruct (_pick_mount_longest_prefix _ _) as [[? ? ? ? ? [] ?]|]; reflexivity).
Qed.

(** ** Runs *)

Module ArtifactRun.
#[local] Instance run_uuid : UuidSource := pretty_uuid.
#[local] Instance run_sha : Sha256 := fun content => "sha:" +:+ content.
#[local] Instance run_sha_laws : @Sha256Laws run_sha.
Proof. done. Qed.
#[local] Instance run_nfc : Nfc := nfc_id.

(** Two processes with their own namespaces; the second may also read the first. *)
Definition run_kernel : KState := set_capability_sets (fun _ =>
  [mkCapabilitySet "s1" "1" [demo_cap "artifact://ns-1/**" ["read"; "write"]];
   mkCapabilitySet "s2" "2" [demo_cap "artifact://ns-2/**" ["read"; "write"]; demo_cap "artifact://ns-1/**" ["read"]]])
  (init_storage 0).
Abbreviation runs o s := ((run_fs true true true o (set_stop (fun _ => None) s)).2) (only parsing).
(** Stopped after so many writes. *)
Abbreviation stopped o n s := ((run_fs true true true o (set_stop (fun _ => Some (n%nat, 0%nat)) s)).2) (only parsing).
Definition run0 : AState := init_artifacts run_kernel.
Definition run01 : AState := runs (FCreateNamespace "1" (Some 10) None) run0.
Definition run1 : AState := runs (FCreateNamespace "2" None None) run01.
Definition doc : string := "workspace:///docs/a.md".
Definition run2 : AState := runs (FWrite "1" doc "one" "k1" None) run1.
Definition run3 : AState := runs (FWrite "1" doc "two" "k2" (Some 1)) run2.
Lemma run1_reachable : fs_reachable true true true run1.
Proof. exists run_kernel. apply (rtc_l _ _ run01); [apply next_op|]. apply rtc_once, next_op. Qed.
Lemma run2_reachable : fs_reachable true true true run2.
Proof. destruct run1_reachable as [k Hr]. exists k. eapply rtc_r; [exact Hr|]. apply next_op. Qed.
Lemma run2_run3 : rtc (fs_next true true true) run2 run3.
Proof. apply rtc_once, next_op. Qed.

Abbreviation doc_artifact s := (get_artifact_by_uri "artifact://ns-1/docs/a.md" s).
Example run_reads : (read true "1" doc None run3).1 = Ok "two" /\ (read true "1" doc (Some 1) run3).1 = Ok "one" /\
  (read true "2" "artifact://ns-1/docs/a.md" None run3).1 = Ok "two" /\
  (begin_write true "2" "artifact://ns-1/docs/a.md" "k" None run3).1 = Raise (CapabilityDenied "2" "artifact://ns-1/docs/a.md" "write").
Proof. split_and!; vm_compute; reflexivity. Qed.

Lemma write_then_read_witness : exists txn s' c a,
  write true true "1" doc "one" "k1" None run1 = (Ok txn, s') /\ get_artifact_by_uri (cu_canonical c) s' = Some a /\
  wt_state txn = TransactionState.committed /\ write_outcome true "1" doc "one" "k1" None run1 txn s' c a.
Proof.
  destruct (write true true "1" doc "one" "k1" None run1) as [[txn|e] s'] eqn:E.
  - destruct (write_then_read true true true "1" doc "one" "k1" None run1 txn s' run1_reachable) as (c & a & _ & Ha & Ht & _ & Ho).
    + intros x Hx. by injection Hx.
    + exact E.
    + exists txn, s', c, a. split; [reflexivity|]. split; [exact Ha|]. split; [exact Ht|exact Ho].
  - exfalso. assert (match (write true true "1" doc "one" "k1" None run1).1 with Ok _ => true | _ => false end = true) as Hok
      by (vm_compute; reflexivity). rewrite E in Hok. discriminate Hok.
Defined.
Lemma artifact_versions_immutable_witness : exists a ver content, doc_artifact run2 = Some a /\
  get_version (ar_artifact_id a) 1 run2 = Some ver /\ sha256_hexdigest content = av_content_ref ver /\
  get_version (ar_artifact_id a) 1 run3 = Some ver.
Proof.
  assert (ar_current_version <$> doc_artifact run2 = Some 1) as Hcv by (vm_compute; reflexivity).
  destruct (doc_artifact run2) as [a|] eqn:E; [|discriminate Hcv]. injection Hcv as Hcv. exists a.
  destruct (artifact_versions_immutable true true true run2 run3 a 1 run2_reachable run2_run3) as
    (ver & content & _ & Hv & Hd & _ & _ & _ & _ & Hv' & _); [exact (by_uri_elem _ _ _ E)|lia|].
  exists ver, content. split; [reflexivity|]. split; [exact Hv|]. split; [exact Hd|exact Hv'].
Defined.
Lemma artifact_access_checked_witness : exists a content, read true "1" doc None run2 = (Ok content, run2) /\
  a ∈ artifacts_projection run2 /\ permitted "1" "read" a run2.
Proof.
  destruct (artifact_access_checked true true "1" doc run2 run2_reachable) as (Hread & _).
  destruct (read true "1" doc None run2) as [[content|e] s1] eqn:E.
  - destruct (Hread None content s1 E) as (a & Ha & _ & Hp & _ & _ & ->). exists a, content.
    split; [reflexivity|]. split; [exact Ha|exact Hp].
  - exfalso. assert (match (read true "1" doc None run2).1 with Ok _ => true | _ => false end = true) as Hok
      by (vm_compute; reflexivity). rewrite E in Hok. discriminate Hok.
Defined.

(** *** Behaviour that differs from what the code means *)

(** [open] acquires the lease of a new artifact under an identifier the artifact does not
    get, so a second writer is let in. *)
Definition opened_twice : AState := runs (FOpen "1" doc "write" None) (runs (FOpen "1" doc "write" None) run1).
Definition last_txn (s : AState) : string := default "" (wt_transaction_id <$> last (write_transactions_projection s)).
Definition staged_one : AState :=
  let s := runs (FBegin "1" doc "k1" None) run1 in runs (FStage (last_txn s) "one") s.
Definition tid_one : string := last_txn staged_one.

Lemma open_new_not_exclusive :
  (fun h => (ah_artifact_id h, handle_mode_value (ah_mode h), is_open h)) <$> artifact_handles_projection opened_twice =
    [("uuid-5", "write", true); ("uuid-5", "write", true)] /\
  resource_id <$> leases_projection (kernel_state opened_twice) = ["artifact:uuid-2"; "artifact:uuid-5"].
Proof. split; vm_compute; reflexivity. Qed.

(** Keys and states of the transactions; references and digests of the versions. *)
Definition view (s : AState) :=
  ((fun t => (wt_idempotency_key t, TransactionState.value (wt_state t))) <$> write_transactions_projection s,
   (fun v => (av_content_ref v, av_content_hash v)) <$> artifact_versions_projection s).
(** A commit stopped between its version and the current version: the next write is told
    that it is committed, and its content is lost. *)
Definition lost : AState := runs (FWrite "1" doc "two" "k2" None) (stopped (FCommit tid_one) 2 staged_one).
Lemma stopped_commit_loses_write :
  view lost = ([("k1", "staged"); ("k2", "committed")], [("sha:one", "sha:one")]) /\ (read true "1" doc None lost).1 = Ok "one".
Proof. split; vm_compute; reflexivity. Qed.
(** Stopped after the current version was raised, the commit is retried and reported as a
    conflict, although its version is the current one. *)
Definition retried : AState := stopped (FCommit tid_one) 3 staged_one.
Lemma stopped_commit_conflicts :
  (read true "1" doc None retried).1 = Ok "one" /\
  (commit true tid_one (set_stop (fun _ => None) retried)).1 = Raise (VersionConflict "uuid-2" (Some 0) (Some 1)) /\
  view (runs (FCommit tid_one) retried) = ([("k1", "conflicted")], [("sha:one", "sha:one")]).
Proof. split_and!; vm_compute; reflexivity. Qed.
(** Recovery resolves uncertain transactions only: a commit stopped after its content was
    stored stays staged. *)
Lemma recovery_skips_stopped_commit :
  (recover (set_stop (fun _ => None) (stopped (FCommit tid_one) 1 staged_one))).1 = Ok (mkReport 0 0 0) /\
  (view (runs FRecover (stopped (FCommit tid_one) 1 staged_one))).1 = [("k1", "staged")].
Proof. split; vm_compute; reflexivity. Qed.
(** Content staged again and stopped before the transaction was updated: the version has
    the digest of the first content. *)
Lemma restaged_digest_differs :
  view (runs (FCommit tid_one) (stopped (FStage tid_one "other") 1 staged_one)) = ([("k1", "committed")], [("sha:other", "sha:one")]).
Proof. vm_compute. reflexivity. Qed.
(** A namespace is never deleted: the statement names a column its table does not have. *)
Lemma delete_namespace_raises :
  (NamespaceService.delete_namespace "1" run1).1 = Raise (OperationalError "no such column: target_namespace_id") /\
  is_Some (get_namespace "ns-1" (NamespaceService.delete_namespace "1" run1).2).
Proof. split; [vm_compute; reflexivity|]. vm_compute. by eexists. Qed.
(** A write to a deleted artifact is committed and cannot be read. *)
Definition rewritten : AState := runs (FWrite "1" doc "x" "k9" None) (runs (FDelete "1" doc) run2).
Lemma deleted_artifact_written :
  view rewritten = ([("k1", "committed"); ("k9", "committed")], [("sha:one", "sha:one"); ("sha:x", "sha:x")]) /\
  (read true "1" doc None rewritten).1 = Raise (ArtifactNotFound "artifact://ns-1/docs/a.md").
Proof. split; vm_compute; reflexivity. Qed.
(** The quota of 10 bytes is checked when content is staged, not when it is committed. *)
Definition over_quota : AState :=
  let s := runs (FBegin "1" "workspace:///b" "kb" None) (runs (FBegin "1" "workspace:///a" "ka" None) run1) in
  let ts := wt_transaction_id <$> write_transactions_projection s in
  foldl (fun s t => runs (FCommit t) s) (foldl (fun s t => runs (FStage t "sevens!") s) s ts) ts.
Lemma quota_exceeded : count_committed_bytes "ns-1" over_quota = 14 /\
  (get_namespace "ns-1" over_quota ≫= ns_quota_bytes) = Some 10.
Proof. split; vm_compute; reflexivity. Qed.
(** A process without any capability is told of the changes in every namespace. *)
Lemma watch_not_checked :
  (fun g => (target_pid g, signal_type g)) <$> signals_projection (kernel_state
    (runs (FWrite "1" doc "one" "k1" None) (runs (FWatch "3" "artifact://ns-1/") run1))) = [("3", "ARTIFACT_CHANGED")].
Proof. vm_compute. reflexivity. Qed.
(** Rebuilding with the handlers of the artifact services gives the versions back. *)
Lemma rebuild_versions : view (rebuild_with_artifacts run3).2 = view run3.
Proof. vm_compute. reflexivity. Qed.
End ArtifactRun.
