(* ===== verification/ContextModels.v ===== *)
(** * Context virtual memory: models, estimator, pager and page selection
    (agent_os/context/models.py, estimator.py, pager.py and policies.py)

    A manifest names byte ranges of committed artifact versions; each becomes a
    sequence of pages.  Bytes are lists of bytes.  The token estimator is an argument
    ([TokenEstimator]), of which the default one is defined; so are the decoders of
    text encodings and pydantic's text of a binding.  Which references are loaded under
    the budgets is decided by one of two policies. *)

From S2P Require Import Prelude PyString Storage Invalidation VpgModels.
From Stdlib Require Import Ascii Strings.Byte.
Open Scope Z_scope.

Abbreviation bytes := (list Byte.byte).
Definition len {A} (l : list A) : Z := Z.of_nat (length l).

(** [b[start:end]]: negative positions count from the end, positions beyond an end
    are that end. *)
Definition slice_index (n i : Z) : nat :=
  Z.to_nat (if i <? 0 then Z.max 0 (i + n) else Z.min i n).
Definition py_slice {A} (i j : Z) (l : list A) : list A :=
  take (slice_index (len l) j - slice_index (len l) i) (drop (slice_index (len l) i) l).

(** ** Hashes *)

Section Hashes.
Context `{Sha256}.
Definition nul_char : string := String (ascii_of_nat 0) EmptyString.
Definition _hash_bytes (data : bytes) : string := sha256_hexdigest (String.string_of_list_byte data).
Definition _deterministic_hash (fields : list string) : string := sha256_hexdigest (join nul_char fields).
Definition _content_hash_for (data : bytes) : string := _hash_bytes data.
End Hashes.

Definition str_bool (b : bool) : string := if b then "True" else "False".
Definition str_opt (o : option Z) : string := match o with Some z => pretty z | None => "None" end.
(** [data.hex()] *)
Definition byte_hex (b : Byte.byte) : string :=
  let n := Byte.to_nat b in
  String (hex_digit (n / 16)) (String (hex_digit (n mod 16)) EmptyString).
Definition hex (data : bytes) : string := foldr (fun b acc => byte_hex b +:+ acc) "" data.

(** ** Manifests *)

Record ContentRef : Type := mkRef {
  rf_ref_id : string;
  rf_canonical_uri : string;
  rf_artifact_id : string;
  rf_version : Z;
  rf_content_hash : string;
  rf_media_type : string;
  rf_encoding : string;
  rf_priority : Z;
  rf_required : bool;
  rf_pinnable : bool;
  rf_recoverable : bool;
  rf_start_byte : option Z;
  rf_end_byte : option Z;
  rf_metadata : jobj }.

Record ContextManifest : Type := mkManifest {
  mf_manifest_id : string;
  mf_owner_pid : string;
  mf_refs : list ContentRef;
  mf_token_budget : Z;
  mf_byte_budget : option Z;
  mf_page_size_bytes : Z;
  mf_policy_id : string;
  mf_created_at : Z;
  mf_metadata : jobj }.

Section ManifestHash.
Context `{Sha256}.
Definition ref_hash (r : ContentRef) : string :=
  _deterministic_hash
    [rf_ref_id r; rf_canonical_uri r; rf_artifact_id r; pretty (rf_version r); rf_content_hash r;
     rf_media_type r; rf_encoding r; pretty (rf_priority r); str_bool (rf_required r);
     str_bool (rf_pinnable r); str_opt (rf_start_byte r); str_opt (rf_end_byte r)].
Definition manifest_hash (m : ContextManifest) : string :=
  _deterministic_hash
    ([mf_manifest_id m; mf_owner_pid m] ++ py_sorted (ref_hash <$> mf_refs m) ++
     [pretty (mf_token_budget m); str_opt (mf_byte_budget m); pretty (mf_page_size_bytes m); mf_policy_id m]).
End ManifestHash.

(** ** Pages, working sets, handles *)

Record ContextPage : Type := mkPage {
  pg_page_id : string;
  pg_canonical_uri : string;
  pg_artifact_id : string;
  pg_version : Z;
  pg_content_hash : string;
  pg_byte_start : Z;
  pg_byte_end : Z;
  pg_page_hash : string;
  pg_estimated_tokens : Z;
  pg_size_bytes : Z;
  pg_required : bool;
  pg_priority : Z;
  pg_pinned : bool;
  pg_resident : bool }.

(** [WORKING_SET_STATES]; the service only makes resident ones. *)
Inductive WorkingSetState : Type :=
  ws_created | ws_loading | ws_resident | ws_partially_resident | ws_evicted | ws_closed | ws_failed.
Record WorkingSet : Type := mkWorkingSet {
  ws_working_set_id : string;
  ws_pid : string;
  ws_manifest_id : string;
  ws_manifest_hash : string;
  ws_policy_id : string;
  ws_token_budget : Z;
  ws_byte_budget : option Z;
  ws_selected_page_ids : list string;
  ws_omitted_page_ids : list string;
  ws_tokens_used : Z;
  ws_bytes_used : Z;
  ws_state : WorkingSetState;
  ws_created_at : Z;
  ws_updated_at : Z }.

Record ContextHandle : Type := mkHandle {
  ch_handle_id : string;
  ch_pid : string;
  ch_working_set_id : string;
  ch_opened_at : Z;
  ch_closed_at : option Z;
  ch_pinned_page_ids : list string }.

Record LoadedPage : Type := mkLoadedPage {
  lp_page_id : string;
  lp_canonical_uri : string;
  lp_artifact_id : string;
  lp_version : Z;
  lp_content_hash : string;
  lp_page_hash : string;
  lp_byte_start : Z;
  lp_byte_end : Z;
  lp_size_bytes : Z;
  lp_required : bool;
  lp_priority : Z;
  lp_media_type : string;
  lp_encoding : string;
  lp_estimated_tokens : Z;
  lp_content : bytes }.
Record OmittedRef : Type := mkOmitted {
  om_ref_id : string;
  om_reason : string;
  om_requested_tokens : option Z }.
Record VersionBinding : Type := mkBinding {
  vb_page_id : string;
  vb_canonical_uri : string;
  vb_artifact_id : string;
  vb_version : Z;
  vb_content_hash : string }.
Record LoadedContext : Type := mkLoaded {
  lc_context_id : string;
  lc_pid : string;
  lc_manifest_id : string;
  lc_manifest_hash : string;
  lc_working_set_id : string;
  lc_ordered_pages : list LoadedPage;
  lc_token_budget : Z;
  lc_tokens_used : Z;
  lc_byte_budget : option Z;
  lc_bytes_used : Z;
  lc_omitted_refs : list OmittedRef;
  lc_version_bindings : list VersionBinding;
  lc_materialized_hash : string;
  lc_created_at : Z }.

Record PageBinding : Type := mkPageBinding {
  pb_page_id : string;
  pb_canonical_uri : string;
  pb_artifact_id : string;
  pb_version : Z;
  pb_content_hash : string;
  pb_page_hash : string;
  pb_byte_start : Z;
  pb_byte_end : Z }.
Record ContextSnapshot : Type := mkSnapshot {
  sn_snapshot_id : string;
  sn_pid : string;
  sn_manifest_hash : string;
  sn_working_set_hash : string;
  sn_materialized_hash : string;
  sn_policy_id : string;
  sn_estimator_id : string;
  sn_page_bindings : list PageBinding;
  sn_tokens_used : Z;
  sn_bytes_used : Z;
  sn_created_at : Z }.

(** ** Token estimates *)

Class TokenEstimator := {
  estimator_id : string;
  estimate : bytes -> string -> string -> Z }.

(** The number of characters [content.decode(encoding, errors="strict")] gives, [None]
    when the encoding is unknown or the bytes are not of it. *)
Class Codecs := decoded_length : string -> bytes -> option Z.

(** [math.ceil(n / d)] for counts of things in memory, where the quotient of floats
    does not cross an integer. *)
Definition ceil_div (n d : Z) : Z := - (- n / d).

Section ByteEstimator.
Context `{Codecs}.
(** The length of [_decode]'s text. *)
Definition _decode (content : bytes) (media_type encoding : string) : option Z :=
  if decide (content = []) then Some 0
  else if existsb (fun p => startswith p media_type) ["image/"; "audio/"; "video/"; "application/octet-stream"]
  then None
  else decoded_length (if String.eqb encoding "" then "utf-8" else encoding) content.
Definition byte_estimate (content : bytes) (media_type encoding : string) : Z :=
  match _decode content media_type encoding with
  | None => ceil_div (len content) 4
  | Some n => ceil_div (Z.max n 1) 4
  end.
Definition DeterministicByteTokenEstimator : TokenEstimator :=
  {| estimator_id := "byte_x4_utf8_v1"; estimate := byte_estimate |}.
End ByteEstimator.

Definition validate_estimate (value : Z) : result Z :=
  if value <? 0 then Raise (ErrInvalidEstimator ("token estimator returned negative value: " +:+ pretty value))
  else Ok value.

(** ** The pager *)

Section Pager.
Context `{Sha256, TokenEstimator}.

Definition _stable_page_id (artifact_id : string) (version : Z) (content_hash : string)
    (byte_start byte_end page_size page_index : Z) : string :=
  _deterministic_hash
    [join nul_char [artifact_id; pretty version; content_hash; pretty byte_start; pretty byte_end;
               pretty page_size; pretty page_index]].

Definition page_of (ref : ContentRef) (page_size page_index byte_start byte_end : Z) (chunk : bytes)
    : ContextPage :=
  mkPage
    (_stable_page_id (rf_artifact_id ref) (rf_version ref) (rf_content_hash ref) byte_start byte_end
       page_size page_index)
    (rf_canonical_uri ref) (rf_artifact_id ref) (rf_version ref) (rf_content_hash ref) byte_start byte_end
    (_content_hash_for chunk) (Z.max (estimate chunk (rf_media_type ref) (rf_encoding ref)) 0) (len chunk)
    (rf_required ref) (rf_priority ref) false false.

(** The loop over [range(num_pages)]. *)
Definition page_at (ref : ContentRef) (page_size start : Z) (payload : bytes) (i : Z) : ContextPage :=
  let s := i * page_size in
  let e := Z.min ((i + 1) * page_size) (len payload) in
  page_of ref page_size i (start + s) (start + e) (py_slice s e payload).
Definition py_range (n : Z) : list Z := Z.of_nat <$> seq 0 (Z.to_nat n).

Definition split_pages (ref : ContentRef) (page_size start : Z) (payload : bytes) : list ContextPage :=
  page_at ref page_size start payload <$> py_range (ceil_div (len payload) page_size).

Definition ref_start (ref : ContentRef) : Z := default 0 (rf_start_byte ref).
Definition ref_end (ref : ContentRef) (full_bytes : bytes) : Z := default (len full_bytes) (rf_end_byte ref).

(** The pages of the bytes that were read. *)
Definition pages_of_bytes (ref : ContentRef) (page_size : Z) (full_bytes : bytes) : result (list ContextPage) :=
  let start := ref_start ref in
  let end_ := ref_end ref full_bytes in
  if negb ((0 <=? start) && (start <=? end_) && (end_ <=? len full_bytes)) then
    Raise (ErrInvalidRange ("ref " +:+ rf_ref_id ref +:+ ": range [" +:+ pretty start +:+ ", " +:+
             pretty end_ +:+ ") out of bounds (content length " +:+ pretty (len full_bytes) +:+ ")"))
  else
    let payload := py_slice start end_ full_bytes in
    if len payload =? 0 then Ok [page_of ref page_size 0 start end_ payload]
    else if page_size =? 0 then Raise ZeroDivisionError
    else Ok (split_pages ref page_size start payload).

(** The supplier is any reader: the host's, or the cache of one load. *)
Definition compute_pages_for_ref {S} (read_version : string -> Z -> string -> M S bytes) (ref : ContentRef)
    (page_size : Z) : M S (list ContextPage) :=
  full_bytes ← read_version (rf_artifact_id ref) (rf_version ref) (rf_canonical_uri ref);
  of_result (pages_of_bytes ref page_size full_bytes).
End Pager.

(** * Page selection *)


Definition PRIORITY_STABLE_POLICY_ID : string := "priority_stable_v1".
Definition LIFECYCLE_POLICY_ID : string := "recoverability_residual_lifecycle_v1".

Record RefPages : Type := mkRefPages { rp_ref : ContentRef; rp_pages : list ContextPage }.
Definition sum_on {A} (f : A -> Z) (l : list A) : Z := foldr (fun x acc => f x + acc) 0 l.
Definition token_cost (rp : RefPages) : Z := sum_on pg_estimated_tokens (rp_pages rp).
Definition byte_cost (rp : RefPages) : Z := sum_on pg_size_bytes (rp_pages rp).

Definition _ref_sort_key (ref : ContentRef) : Z * (Z * (string * (Z * (Z * string)))) :=
  ((if rf_required ref then 0 else 1), (- rf_priority ref, (rf_canonical_uri ref, (rf_version ref,
   (default 0 (rf_start_byte ref), rf_ref_id ref))))).
Definition sort_refs_deterministic (refs : list ContentRef) : list ContentRef := sort_on _ref_sort_key refs.

Definition required_cost (cost : RefPages -> Z) (l : list RefPages) : Z :=
  sum_on cost (filter (fun rp => rf_required (rp_ref rp)) l).
Definition budget_text (n : Z) (unit_ : string) (budget : Z) : string :=
  "required pages (" +:+ pretty n +:+ " " +:+ unit_ +:+ ") exceed budget (" +:+ pretty budget +:+ " " +:+ unit_ +:+ ")".
(** Both budgets must hold all required references. *)
Definition check_required (m : ContextManifest) (l : list RefPages) : result unit :=
  let t := required_cost token_cost l in
  let b := required_cost byte_cost l in
  if mf_token_budget m <? t then
    Raise (ErrRequiredBudgetExceeded (budget_text t "tokens" (mf_token_budget m)))
  else match mf_byte_budget m with
       | Some budget => if budget <? b then Raise (ErrRequiredBudgetExceeded (budget_text b "bytes" budget))
                        else Ok tt
       | None => Ok tt
       end.

Record Selection : Type := mkSelection {
  sl_selected : list ContextPage;
  sl_omitted_ref_ids : list string;
  sl_tokens_used : Z;
  sl_bytes_used : Z }.
Definition take_ref (rp : RefPages) (s : Selection) : Selection :=
  mkSelection (sl_selected s ++ rp_pages rp) (sl_omitted_ref_ids s) (sl_tokens_used s + token_cost rp)
    (sl_bytes_used s + byte_cost rp).
Definition omit_ref (rp : RefPages) (s : Selection) : Selection :=
  mkSelection (sl_selected s) (sl_omitted_ref_ids s ++ [rf_ref_id (rp_ref rp)]) (sl_tokens_used s) (sl_bytes_used s).
Definition exceeds (m : ContextManifest) (rp : RefPages) (s : Selection) : bool :=
  (mf_token_budget m <? sl_tokens_used s + token_cost rp) ||
  match mf_byte_budget m with Some budget => budget <? sl_bytes_used s + byte_cost rp | None => false end.
(** One round of the selection loop, the same in both policies. *)
Definition select_step (m : ContextManifest) (s : Selection) (rp : RefPages) : Selection :=
  if rf_required (rp_ref rp) then take_ref rp s
  else if exceeds m rp s then omit_ref rp s else take_ref rp s.
Definition select_loop (m : ContextManifest) (l : list RefPages) : Selection :=
  foldl (select_step m) (mkSelection [] [] 0 0) l.

Definition unsupported (m : ContextManifest) : py_error :=
  ErrInvalidPolicy ("unsupported context policy: " +:+ mf_policy_id m).

Definition select_pages_v1 (m : ContextManifest) (ref_pages : list RefPages) : result Selection :=
  if negb (String.eqb (mf_policy_id m) PRIORITY_STABLE_POLICY_ID) then Raise (unsupported m)
  else _ ← check_required m ref_pages; Ok (select_loop m ref_pages).

(** ** The lifecycle policy *)

Definition json_str (j : json) : option string := match j with JStr s => Some s | _ => None end.
(** A read set is only asked for its members. *)
Definition read_set_from_metadata (m : ContextManifest) : option (list string) :=
  match jget "read_set" (mf_metadata m) with
  | None | Some JNull => None
  | Some (JStr s) => Some [s]
  | Some (JList l) => Some (omap json_str l)
  | Some (JObj o) => Some o.*1
  | Some _ => None
  end.

Definition _lifecycle_keep_sort_key (read_set : option (list string)) (ref : ContentRef)
    : Z * (Z * (Z * (Z * (string * (Z * (Z * string)))))) :=
  let in_read_set := match read_set with None => true | Some l => bool_decide (rf_ref_id ref ∈ l) end in
  ((if rf_required ref then 0 else 1), (- rf_priority ref, ((if in_read_set then 0 else 1),
   ((if negb (rf_recoverable ref) then 0 else 1), (rf_canonical_uri ref, (rf_version ref,
   (default 0 (rf_start_byte ref), rf_ref_id ref))))))).
Definition sort_ref_pages_lifecycle (ref_pages : list RefPages) (read_set : option (list string)) : list RefPages :=
  sort_on (fun rp => _lifecycle_keep_sort_key read_set (rp_ref rp)) ref_pages.

Inductive PrefixKind : Type := initial | identical | append | truncate | prefix_changed.
Record PrefixStability : Type := mkPrefix {
  px_prefix_stable : bool;
  px_kind : PrefixKind;
  px_first_divergence_index : option Z }.
Fixpoint common_prefix (xs ys : list string) : Z :=
  match xs, ys with
  | x :: xs', y :: ys' => if decide (x = y) then 1 + common_prefix xs' ys' else 0
  | _, _ => 0
  end.
Definition analyze_prefix_stability (previous_page_order : option (list string)) (new_page_order : list string)
    : PrefixStability :=
  match previous_page_order with
  | None => mkPrefix true initial None
  | Some previous =>
      let common := common_prefix previous new_page_order in
      if (common =? len previous) && (common =? len new_page_order) then mkPrefix true identical None
      else if common =? len previous then mkPrefix true append None
      else if common =? len new_page_order then mkPrefix true truncate None
      else mkPrefix false prefix_changed (Some common)
  end.

Record LifecycleSelection : Type := mkLifecycle {
  ls_selection : Selection;
  ls_prefix : PrefixStability }.
Definition as_v1_tuple (s : LifecycleSelection) : Selection := ls_selection s.
Definition select_pages_lifecycle_v1 (m : ContextManifest) (ref_pages : list RefPages)
    (read_set previous_page_order : option (list string)) : result LifecycleSelection :=
  if negb (String.eqb (mf_policy_id m) LIFECYCLE_POLICY_ID) then Raise (unsupported m)
  else
    let ordered := sort_ref_pages_lifecycle ref_pages read_set in
    _ ← check_required m ordered;
    let s := select_loop m ordered in
    Ok (mkLifecycle s (analyze_prefix_stability previous_page_order (pg_page_id <$> sl_selected s))).

Definition select_pages (m : ContextManifest) (ref_pages : list RefPages)
    (read_set previous_page_order : option (list string)) : result Selection :=
  if String.eqb (mf_policy_id m) PRIORITY_STABLE_POLICY_ID then select_pages_v1 m ref_pages
  else if String.eqb (mf_policy_id m) LIFECYCLE_POLICY_ID then
    s ← select_pages_lifecycle_v1 m ref_pages read_set previous_page_order; Ok (as_v1_tuple s)
  else Raise (unsupported m).
