(* ===== verification/ContextService.v ===== *)
(** * The context service (agent_os/context/service.py and sdk.py)

    Working sets, handles, pins and snapshots of each process.  The artifact store and
    the capability checks are a host ([ContextHost]), whose state is part of the
    service's and may change between calls.  A process's map that is absent is the empty
    map ([setdefault] leaves one behind, which no method tells from none). *)

From S2P Require Import Prelude PyString KernelModels Storage Invalidation VpgModels ContextModels.
Open Scope Z_scope.

(** What the service is given: [VersionContentProvider] and [CapabilityChecker]. *)
Class ContextHost := {
  host : Type;
  host_read_version : host -> string -> Z -> string -> result bytes;
  can_context_operation : host -> string -> string -> bool;
  can_artifact_read : host -> string -> string -> Z -> bool }.
(** pydantic's [model_dump_json] of a binding *)
Class BindingText := binding_json : VersionBinding -> string.

(** Something to read committed bytes from. *)
Abbreviation reader S := (string -> Z -> string -> M S bytes).

(** ** [_VersionContentCache] *)

Record VersionContentCache : Type := mkCache {
  cache_bytes : list ((string * Z * string) * bytes);
  underlying_reads : Z;
  served_reads : Z }.
Definition empty_cache : VersionContentCache := mkCache [] 0 0.
Definition cached_read_version `{ContextHost} (w : host) (artifact_id : string) (version : Z) (canonical_uri : string)
    : M VersionContentCache bytes :=
  modify (fun c => mkCache (cache_bytes c) (underlying_reads c) (served_reads c + 1)) ;;
  let key := (artifact_id, version, canonical_uri) in
  cached ← gets (fun c => tbl_find fst key (cache_bytes c));
  match cached with
  | Some kv => mret kv.2
  | None =>
      modify (fun c => mkCache (cache_bytes c) (underlying_reads c + 1) (served_reads c)) ;;
      data ← of_result (host_read_version w artifact_id version canonical_uri);
      modify (fun c => mkCache (tbl_upsert fst (fun _ kv => kv) (key, data) (cache_bytes c))
                         (underlying_reads c) (served_reads c)) ;;
      mret data
  end.

(** ** State *)

Record HandleRec : Type := mkRec {
  hr_handle : ContextHandle;
  hr_manifest : option ContextManifest;
  hr_loaded : option LoadedContext;
  hr_working_set : option WorkingSet }.
Record ContextEvent : Type := mkCEvent { ce_event : string; ce_at : Z; ce_fields : jobj }.
Abbreviation idem_map := (list ((string * string * string) * string)).

Record CState `{ContextHost} : Type := mkCState {
  world : host;
  ws_by_pid : dict (dict WorkingSet);
  handles_by_pid : dict (dict HandleRec);
  snaps : dict ContextSnapshot;
  pin_counts : dict Z;
  idem_load : idem_map;
  idem_snapshot : idem_map;
  idem_restore : idem_map;
  c_events : list ContextEvent;
  c_clock : Z;
  c_uuid : N }.

Section Service.
Context `{ContextHost, BindingText, UuidSource, Sha256, TokenEstimator}.
Abbreviation CM := (M CState).

Definition set_ws f (s : CState) : CState :=
  mkCState _ (world s) (f (ws_by_pid s)) (handles_by_pid s) (snaps s) (pin_counts s) (idem_load s) (idem_snapshot s)
    (idem_restore s) (c_events s) (c_clock s) (c_uuid s).
Definition set_handles f (s : CState) : CState :=
  mkCState _ (world s) (ws_by_pid s) (f (handles_by_pid s)) (snaps s) (pin_counts s) (idem_load s) (idem_snapshot s)
    (idem_restore s) (c_events s) (c_clock s) (c_uuid s).
Definition set_snaps f (s : CState) : CState :=
  mkCState _ (world s) (ws_by_pid s) (handles_by_pid s) (f (snaps s)) (pin_counts s) (idem_load s) (idem_snapshot s)
    (idem_restore s) (c_events s) (c_clock s) (c_uuid s).
Definition set_pins f (s : CState) : CState :=
  mkCState _ (world s) (ws_by_pid s) (handles_by_pid s) (snaps s) (f (pin_counts s)) (idem_load s) (idem_snapshot s)
    (idem_restore s) (c_events s) (c_clock s) (c_uuid s).
Definition set_idem_load f (s : CState) : CState :=
  mkCState _ (world s) (ws_by_pid s) (handles_by_pid s) (snaps s) (pin_counts s) (f (idem_load s)) (idem_snapshot s)
    (idem_restore s) (c_events s) (c_clock s) (c_uuid s).
Definition set_idem_snapshot f (s : CState) : CState :=
  mkCState _ (world s) (ws_by_pid s) (handles_by_pid s) (snaps s) (pin_counts s) (idem_load s) (f (idem_snapshot s))
    (idem_restore s) (c_events s) (c_clock s) (c_uuid s).
Definition set_idem_restore f (s : CState) : CState :=
  mkCState _ (world s) (ws_by_pid s) (handles_by_pid s) (snaps s) (pin_counts s) (idem_load s) (idem_snapshot s)
    (f (idem_restore s)) (c_events s) (c_clock s) (c_uuid s).
Definition set_events f (s : CState) : CState :=
  mkCState _ (world s) (ws_by_pid s) (handles_by_pid s) (snaps s) (pin_counts s) (idem_load s) (idem_snapshot s)
    (idem_restore s) (f (c_events s)) (c_clock s) (c_uuid s).
Definition set_uuid f (s : CState) : CState :=
  mkCState _ (world s) (ws_by_pid s) (handles_by_pid s) (snaps s) (pin_counts s) (idem_load s) (idem_snapshot s)
    (idem_restore s) (c_events s) (c_clock s) (f (c_uuid s)).

Definition _utcnow : CM Z := gets c_clock.
Definition _uuid : CM string := fun s => (Ok (uuid4 (c_uuid s)), set_uuid N.succ s).
Definition _emit (kind : string) (fields : jobj) : CM unit :=
  now ← _utcnow; modify (set_events (fun l => l ++ [mkCEvent kind now fields])).

(** [d.setdefault(pid, {})] read, and [d.setdefault(pid, {})[k] = v] *)
Definition submap {A} (pid : string) (d : dict (dict A)) : dict A := default [] (dict_get pid d).
Definition sub_set {A} (pid k : string) (v : A) (d : dict (dict A)) : dict (dict A) :=
  dict_set pid (dict_set k v (submap pid d)) d.
Definition _ws_map (pid : string) (s : CState) : dict WorkingSet := submap pid (ws_by_pid s).
Definition _handles_map (pid : string) (s : CState) : dict HandleRec := submap pid (handles_by_pid s).
Definition book_ws (pid ws_id : string) (ws : WorkingSet) : CM unit := modify (set_ws (sub_set pid ws_id ws)).
Definition book_handle (pid handle_id : string) (rec : HandleRec) : CM unit :=
  modify (set_handles (sub_set pid handle_id rec)).

(** Code that works on an object of its own, here the cache of a load. *)
Definition run_local {L A} (m : M L A) (l : L) : CM (A * L) := fun s =>
  match m l with (Ok a, l') => (Ok (a, l'), s) | (Raise e, _) => (Raise e, s) end.

Definition _require_handle_owned (rec : HandleRec) (pid handle_id : string) : CM unit :=
  raise_if (negb (String.eqb (ch_pid (hr_handle rec)) pid))
    (ErrHandleNotOwned ("handle " +:+ handle_id +:+ " belongs to " +:+ ch_pid (hr_handle rec) +:+ ", not " +:+ pid)) ;;
  raise_if (bool_decide (is_Some (ch_closed_at (hr_handle rec))))
    (ErrHandleClosed ("handle " +:+ handle_id +:+ " is closed")).

Definition _sink_page {S} (content : reader S) (ref : ContentRef)
    (manifest : ContextManifest) : M S (list ContextPage) :=
  compute_pages_for_ref content ref (mf_page_size_bytes manifest).

(** ** Loading *)

Definition validate_manifest (manifest : ContextManifest) (caller_pid : string) : CM unit :=
  raise_if (mf_token_budget manifest <=? 0) (ErrInvalidManifest "token_budget must be > 0") ;;
  raise_if (mf_page_size_bytes manifest <=? 0) (ErrInvalidManifest "page_size_bytes must be > 0") ;;
  let ids := rf_ref_id <$> mf_refs manifest in
  raise_if (negb (len (remove_dups ids) =? len ids)) (ErrDuplicateRefId "manifest contains duplicate ref_id") ;;
  raise_if (negb (String.eqb (mf_owner_pid manifest) caller_pid))
    (ErrCapabilityDenied ("manifest.owner_pid " +:+ mf_owner_pid manifest +:+ " != caller " +:+ caller_pid)) ;;
  w ← gets world;
  raise_if (negb (can_context_operation w caller_pid "load"))
    (ErrCapabilityDenied (caller_pid +:+ ": context load capability denied")).

Definition _resolve_and_verify_ref {S} (w : host) (content : reader S) (ref : ContentRef) (caller_pid : string) : M S bytes :=
  raise_if (negb (can_artifact_read w caller_pid (rf_artifact_id ref) (rf_version ref)))
    (ErrCapabilityDenied (caller_pid +:+ ": cannot read artifact " +:+ rf_artifact_id ref +:+ " v" +:+
       pretty (rf_version ref))) ;;
  content_bytes ← try_except (content (rf_artifact_id ref) (rf_version ref) (rf_canonical_uri ref))
    (fun e => match e with
              | FileNotFoundError what =>
                  raise (ErrArtifactNotFound (rf_artifact_id ref +:+ " v" +:+ pretty (rf_version ref) +:+ ": " +:+ what))
              | _ => raise e
              end);
  let actual_hash := _content_hash_for content_bytes in
  raise_if (negb (String.eqb actual_hash (rf_content_hash ref)))
    (ErrInvalidContentHash ("ref " +:+ rf_ref_id ref +:+ ": expected " +:+ rf_content_hash ref +:+ ", got " +:+
       actual_hash)) ;;
  mret content_bytes.

Definition verified_pages {S} (w : host) (content : reader S) (manifest : ContextManifest) (caller_pid : string)
    (ref : ContentRef) : M S RefPages :=
  _resolve_and_verify_ref w content ref caller_pid ;;
  pages ← _sink_page content ref manifest;
  mret (mkRefPages ref pages).
Definition _pages_for_manifest {S} (w : host) (content : reader S) (manifest : ContextManifest) (caller_pid : string)
    : M S (list RefPages) :=
  map_each (verified_pages w content manifest caller_pid) (sort_refs_deterministic (mf_refs manifest)).

(** [{ref.artifact_id: ref for ref in manifest.refs}] *)
Definition ref_by_artifact (refs : list ContentRef) : dict ContentRef :=
  foldl (fun d r => dict_set (rf_artifact_id r) r d) [] refs.
Definition loaded_page (refs : dict ContentRef) (page : ContextPage) (content_bytes : bytes) : LoadedPage :=
  let ref := dict_get (pg_artifact_id page) refs in
  mkLoadedPage (pg_page_id page) (pg_canonical_uri page) (pg_artifact_id page) (pg_version page) (pg_content_hash page)
    (pg_page_hash page) (pg_byte_start page) (pg_byte_end page) (len content_bytes) (pg_required page)
    (pg_priority page) (match ref with Some r => rf_media_type r | None => "application/octet-stream" end)
    (match ref with Some r => rf_encoding r | None => "utf-8" end) (pg_estimated_tokens page) content_bytes.
Definition version_binding (page : ContextPage) : VersionBinding :=
  mkBinding (pg_page_id page) (pg_canonical_uri page) (pg_artifact_id page) (pg_version page) (pg_content_hash page).
Definition read_page {S} (content : reader S) (refs : dict ContentRef) (page : ContextPage) : M S LoadedPage :=
  full_bytes ← content (pg_artifact_id page) (pg_version page) (pg_canonical_uri page);
  mret (loaded_page refs page (py_slice (pg_byte_start page) (pg_byte_end page) full_bytes)).
Definition direct_reader {S} (w : host) : reader S := fun a v u => of_result (host_read_version w a v u).
(** The pages of an omitted reference are computed again, past the cache. *)
Definition omitted_ref {S} (w : host) (manifest : ContextManifest) (ref : ContentRef) : M S OmittedRef :=
  pages ← _sink_page (direct_reader w) ref manifest;
  mret (mkOmitted (rf_ref_id ref) "optional_skipped" (Some (sum_on pg_estimated_tokens pages))).
Definition materialized_hash_of (bindings : list VersionBinding) (pages : list LoadedPage) : string :=
  _deterministic_hash ((binding_json <$> bindings) ++ ((fun lp => hex (lp_content lp)) <$> pages)).

(** The identifiers and the instant are drawn by [load]. *)
Definition _materialize {S} (w : host) (content : reader S) (manifest : ContextManifest)
    (caller_pid working_set_id context_id : string) (now : Z) (sel : Selection) : M S (WorkingSet * LoadedContext) :=
  loaded_pages ← map_each (read_page content (ref_by_artifact (mf_refs manifest))) (sl_selected sel);
  omitted ← map_each (omitted_ref w manifest)
    (filter (fun r => rf_ref_id r ∈ sl_omitted_ref_ids sel) (mf_refs manifest));
  let bindings := version_binding <$> sl_selected sel in
  let ws := mkWorkingSet working_set_id caller_pid (mf_manifest_id manifest) (manifest_hash manifest)
    (mf_policy_id manifest) (mf_token_budget manifest) (mf_byte_budget manifest) (pg_page_id <$> sl_selected sel)
    (sl_omitted_ref_ids sel) (sl_tokens_used sel) (sl_bytes_used sel) ws_resident now now in
  mret (ws, mkLoaded context_id caller_pid (mf_manifest_id manifest) (manifest_hash manifest) working_set_id
    loaded_pages (mf_token_budget manifest) (sl_tokens_used sel) (mf_byte_budget manifest) (sl_bytes_used sel)
    omitted bindings (materialized_hash_of bindings loaded_pages) now).

Definition jpage_event (context_id : string) (p : LoadedPage) : jobj :=
  [("context_id", JStr context_id); ("page_id", JStr (lp_page_id p)); ("artifact_id", JStr (lp_artifact_id p));
   ("version", JInt (lp_version p))].
Definition emit_load_events (manifest : ContextManifest) (caller_pid handle_id ws_id : string) (loaded : LoadedContext)
    : CM unit :=
  _emit "CONTEXT_MANIFEST_ACCEPTED" [("manifest_id", JStr (mf_manifest_id manifest));
    ("manifest_hash", JStr (manifest_hash manifest)); ("pid", JStr caller_pid)] ;;
  _emit "CONTEXT_LOAD_STARTED" [("handle_id", JStr handle_id); ("working_set_id", JStr ws_id)] ;;
  for_each (fun p => _emit "CONTEXT_PAGE_MATERIALIZED" (jpage_event (lc_context_id loaded) p)) (lc_ordered_pages loaded) ;;
  for_each (fun om => _emit "CONTEXT_PAGE_OMITTED" [("context_id", JStr (lc_context_id loaded));
    ("ref_id", JStr (om_ref_id om)); ("reason", JStr (om_reason om))]) (lc_omitted_refs loaded) ;;
  _emit "CONTEXT_WORKING_SET_RESIDENT" [("working_set_id", JStr ws_id); ("tokens_used", JInt (lc_tokens_used loaded));
    ("bytes_used", JInt (lc_bytes_used loaded)); ("page_count", JInt (len (lc_ordered_pages loaded)));
    ("omitted_count", JInt (len (lc_omitted_refs loaded)))].

(** [self._handles_map(pid)[handle_id]] and its handle and context *)
Definition stored_handle (pid handle_id : string) : CM (ContextHandle * option LoadedContext) :=
  rec ← gets (fun s => dict_get handle_id (_handles_map pid s));
  rec ← some_or_raise rec (KeyError handle_id);
  mret (hr_handle rec, hr_loaded rec).

(** The reference pages, their selection and the context of a new working set. *)
Definition load_new (manifest : ContextManifest) (caller_pid ws_id context_id : string)
    : CM (WorkingSet * LoadedContext) :=
  w ← gets world; now ← _utcnow;
  rps ← run_local (_pages_for_manifest w (cached_read_version w) manifest caller_pid) empty_cache;
  sel ← of_result (select_pages manifest rps.1 (read_set_from_metadata manifest) None);
  res ← run_local (_materialize w (cached_read_version w) manifest caller_pid ws_id context_id now sel) rps.2;
  mret res.1.
Definition load (manifest : ContextManifest) (caller_pid idempotency_key : string)
    : CM (ContextHandle * option LoadedContext) :=
  validate_manifest manifest caller_pid ;;
  let idem_key := (caller_pid, manifest_hash manifest, idempotency_key) in
  known ← gets (fun s => tbl_find fst idem_key (idem_load s));
  match (if String.eqb idempotency_key "" then None else known) with
  | Some kv => stored_handle caller_pid kv.2
  | None =>
      ws_id ← _uuid; handle_id ← _uuid; context_id ← _uuid;
      wl ← load_new manifest caller_pid ws_id context_id;
      now ← _utcnow;
      let handle := mkHandle handle_id caller_pid ws_id now None [] in
      book_ws caller_pid ws_id wl.1 ;;
      book_handle caller_pid handle_id (mkRec handle (Some manifest) (Some wl.2) (Some wl.1)) ;;
      (if String.eqb idempotency_key "" then mret tt
       else modify (set_idem_load (tbl_upsert fst (fun _ kv => kv) (idem_key, handle_id)))) ;;
      emit_load_events manifest caller_pid handle_id ws_id wl.2 ;;
      mret (handle, Some wl.2)
  end.

(** ** Handles *)

Definition _find_handle_owner (handle_id : string) (s : CState) : option string :=
  fst <$> List.find (fun kv => bool_decide (is_Some (dict_get handle_id kv.2))) (handles_by_pid s).
Definition _get_owning_rec (pid handle_id : string) : CM HandleRec :=
  rec ← gets (fun s => dict_get handle_id (_handles_map pid s));
  match rec with
  | Some rec => mret rec
  | None =>
      owner ← gets (_find_handle_owner handle_id);
      match owner with
      | Some o => raise_if (negb (String.eqb o pid))
                    (ErrHandleNotOwned ("handle " +:+ handle_id +:+ " belongs to " +:+ o +:+ ", not " +:+ pid))
      | None => mret tt
      end ;;
      raise (ErrInvalidManifest ("handle " +:+ handle_id +:+ " not found"))
  end.

Definition read (pid handle_id : string) : CM LoadedContext :=
  rec ← _get_owning_rec pid handle_id;
  _require_handle_owned rec pid handle_id ;;
  some_or_raise (hr_loaded rec) (ErrInvalidManifest ("handle " +:+ handle_id +:+ " has no loaded context")).

Record Inspection : Type := mkInspection {
  in_context_id : string; in_handle_id : string; in_pid : string; in_working_set_id : string;
  in_manifest_id : string; in_manifest_hash : string; in_policy_id : string; in_estimator_id : string;
  in_page_count : Z; in_tokens_used : Z; in_token_budget : Z; in_bytes_used : Z; in_byte_budget : option Z;
  in_omitted_count : Z; in_closed : bool }.
Definition rec_policy (rec : HandleRec) : string :=
  match hr_manifest rec with Some m => mf_policy_id m | None => "" end.
Definition inspect (pid handle_id : string) : CM Inspection :=
  rec ← _get_owning_rec pid handle_id;
  loaded ← some_or_raise (hr_loaded rec) (ErrInvalidManifest ("handle " +:+ handle_id +:+ " not found"));
  mret (mkInspection (lc_context_id loaded) (ch_handle_id (hr_handle rec)) (lc_pid loaded) (lc_working_set_id loaded)
    (lc_manifest_id loaded) (lc_manifest_hash loaded) (rec_policy rec) estimator_id (len (lc_ordered_pages loaded))
    (lc_tokens_used loaded) (lc_token_budget loaded) (lc_bytes_used loaded) (lc_byte_budget loaded)
    (len (lc_omitted_refs loaded)) (bool_decide (is_Some (ch_closed_at (hr_handle rec))))).

(** ** Pins *)

Definition with_pins (pins : list string) (h : ContextHandle) : ContextHandle :=
  mkHandle (ch_handle_id h) (ch_pid h) (ch_working_set_id h) (ch_opened_at h) (ch_closed_at h) pins.
Definition with_handle (h : ContextHandle) (rec : HandleRec) : HandleRec :=
  mkRec h (hr_manifest rec) (hr_loaded rec) (hr_working_set rec).
Definition pin_count (counts : dict Z) (pg : string) : Z := default 0 (dict_get pg counts).
Definition inc_pin (counts : dict Z) (pg : string) : dict Z := dict_set pg (pin_count counts pg + 1) counts.
Definition dec_pin (counts : dict Z) (pg : string) : dict Z :=
  if 0 <? pin_count counts pg then dict_set pg (pin_count counts pg - 1) counts else counts.
Definition pin_event (kind pid handle_id pg : string) : CM unit :=
  _emit kind [("page_id", JStr pg); ("pid", JStr pid); ("handle_id", JStr handle_id)].

Definition pin (pid handle_id : string) (page_ids : list string) : CM (list string) :=
  rec ← _get_owning_rec pid handle_id;
  _require_handle_owned rec pid handle_id ;;
  modify (set_pins (fun counts => foldl inc_pin counts page_ids)) ;;
  let new_pins := py_sorted (remove_dups (ch_pinned_page_ids (hr_handle rec) ++ page_ids)) in
  book_handle pid handle_id (with_handle (with_pins new_pins (hr_handle rec)) rec) ;;
  for_each (pin_event "CONTEXT_PAGE_PINNED" pid handle_id) page_ids ;;
  mret new_pins.
Definition unpin (pid handle_id : string) (page_ids : list string) : CM (list string) :=
  rec ← _get_owning_rec pid handle_id;
  _require_handle_owned rec pid handle_id ;;
  modify (set_pins (fun counts => foldl dec_pin counts page_ids)) ;;
  let new_pins := py_sorted (remove_dups (filter (fun p => p ∉ page_ids) (ch_pinned_page_ids (hr_handle rec)))) in
  book_handle pid handle_id (with_handle (with_pins new_pins (hr_handle rec)) rec) ;;
  for_each (pin_event "CONTEXT_PAGE_UNPINNED" pid handle_id) page_ids ;;
  mret new_pins.

(** ** Eviction *)

Record Eviction : Type := mkEviction {
  ev_evicted_pages : list string;
  ev_tokens_freed : Z;
  ev_target_tokens : Z;
  ev_pinned_blocked : list string }.
(** The optional pages of the handles of a working set. *)
Definition optional_pages (working_set_id : string) (handles : dict HandleRec) : list LoadedPage :=
  filter (fun p => negb (lp_required p))
    (mjoin ((fun kv => match hr_loaded kv.2 with Some l => lc_ordered_pages l | None => [] end) <$>
      filter (fun kv => ws_working_set_id <$> hr_working_set kv.2 = Some working_set_id) handles)).
Definition is_pinned (counts : dict Z) (p : LoadedPage) : bool := 0 <? pin_count counts (lp_page_id p).
Definition evict_step (target_tokens : Z) (acc : list string * Z) (c : string * Z) : list string * Z :=
  if target_tokens <=? acc.2 then acc else (acc.1 ++ [c.1], acc.2 + c.2).
Definition evict (pid working_set_id : string) (target_tokens : Z) : CM Eviction :=
  ws ← gets (fun s => dict_get working_set_id (_ws_map pid s));
  match ws with
  | None =>
      other ← gets (fun s => List.find (fun kv => bool_decide (is_Some (dict_get working_set_id kv.2))) (ws_by_pid s));
      match other with
      | Some kv => raise (ErrHandleNotOwned ("working set " +:+ working_set_id +:+ " belongs to " +:+ kv.1 +:+
                            ", not " +:+ pid))
      | None => raise (ErrInvalidManifest ("working set " +:+ working_set_id +:+ " not found"))
      end
  | Some _ =>
      _emit "CONTEXT_EVICTION_STARTED" [("working_set_id", JStr working_set_id); ("target_tokens", JInt target_tokens);
        ("pid", JStr pid)] ;;
      pages ← gets (fun s => optional_pages working_set_id (_handles_map pid s));
      counts ← gets pin_counts;
      let pinned_blocked := lp_page_id <$> filter (fun p => is_pinned counts p) pages in
      let candidates := sort_on (fun t => (t.2, t.1))
        ((fun p => (lp_page_id p, lp_estimated_tokens p)) <$> filter (fun p => negb (is_pinned counts p)) pages) in
      let '(evicted, freed_tokens) := foldl (evict_step target_tokens) ([], 0) candidates in
      _emit "CONTEXT_PAGE_EVICTED" [("page_ids", JList (JStr <$> evicted)); ("freed_tokens", JInt freed_tokens);
        ("pid", JStr pid)] ;;
      _emit "CONTEXT_EVICTION_COMPLETED" [("working_set_id", JStr working_set_id);
        ("evicted_ids", JList (JStr <$> evicted)); ("tokens_freed", JInt freed_tokens); ("pid", JStr pid)] ;;
      mret (mkEviction evicted freed_tokens target_tokens pinned_blocked)
  end.

(** ** Snapshots *)

(** [next((... for p in pages if p.page_id == page_id), default)] *)
Definition page_with_id (page_id : string) (pages : list LoadedPage) : option LoadedPage :=
  tbl_find lp_page_id page_id pages.
Definition page_binding (pages : list LoadedPage) (vb : VersionBinding) : PageBinding :=
  let p := page_with_id (vb_page_id vb) pages in
  mkPageBinding (vb_page_id vb) (vb_canonical_uri vb) (vb_artifact_id vb) (vb_version vb) (vb_content_hash vb)
    (match p with Some p => lp_page_hash p | None => "" end)
    (match p with Some p => lp_byte_start p | None => 0 end)
    (match p with Some p => lp_byte_end p | None => 0 end).
Definition has_context (context_id : string) (kv : string * HandleRec) : bool :=
  match hr_loaded kv.2 with Some l => String.eqb (lc_context_id l) context_id | None => false end.
Definition snapshot_of (rec : HandleRec) (loaded : LoadedContext) (pid snapshot_id : string) (now : Z) : ContextSnapshot :=
  mkSnapshot snapshot_id pid (lc_manifest_hash loaded)
    (_deterministic_hash [lc_working_set_id loaded; pretty (len (lc_ordered_pages loaded))])
    (lc_materialized_hash loaded) (rec_policy rec) estimator_id
    (page_binding (lc_ordered_pages loaded) <$> lc_version_bindings loaded)
    (lc_tokens_used loaded) (lc_bytes_used loaded) now.
Definition snapshot (pid context_id idempotency_key : string) : CM ContextSnapshot :=
  let idem := (pid, context_id, idempotency_key) in
  known ← gets (fun s => tbl_find fst idem (idem_snapshot s));
  match (if String.eqb idempotency_key "" then None else known) with
  | Some kv => snap ← gets (fun s => dict_get kv.2 (snaps s)); some_or_raise snap (KeyError kv.2)
  | None =>
      found ← gets (fun s => List.find (has_context context_id) (_handles_map pid s));
      match found with
      | Some (_, mkRec h m (Some loaded) ws) =>
          snapshot_id ← _uuid; now ← _utcnow;
          let snap := snapshot_of (mkRec h m (Some loaded) ws) loaded pid snapshot_id now in
          modify (set_snaps (dict_set snapshot_id snap)) ;;
          (if String.eqb idempotency_key "" then mret tt
           else modify (set_idem_snapshot (tbl_upsert fst (fun _ kv => kv) (idem, snapshot_id)))) ;;
          _emit "CONTEXT_SNAPSHOT_CREATED" [("snapshot_id", JStr snapshot_id); ("context_id", JStr context_id);
            ("pid", JStr pid)] ;;
          mret snap
      | _ => raise (ErrInvalidManifest ("context " +:+ context_id +:+ " not found for pid " +:+ pid))
      end
  end.

(** The check of one binding against the artifact store. *)
Definition verify_binding (w : host) (snapshot_id : string) (b : PageBinding) : CM unit :=
  content ← of_result (match host_read_version w (pb_artifact_id b) (pb_version b) (pb_canonical_uri b) with
    | Raise (FileNotFoundError _) =>
        Raise (ErrSnapshotCorrupt ("snapshot " +:+ snapshot_id +:+ ": artifact " +:+ pb_artifact_id b +:+ " v" +:+
          pretty (pb_version b) +:+ " missing"))
    | r => r
    end);
  raise_if (negb (String.eqb (_content_hash_for content) (pb_content_hash b)))
    (ErrSnapshotCorrupt ("snapshot " +:+ snapshot_id +:+ ": page " +:+ pb_page_id b +:+ " hash mismatch")) ;;
  raise_if (negb (String.eqb (_content_hash_for (py_slice (pb_byte_start b) (pb_byte_end b) content)) (pb_page_hash b)))
    (ErrSnapshotCorrupt ("snapshot " +:+ snapshot_id +:+ ": page " +:+ pb_page_id b +:+ " page-hash mismatch")).
Definition restored_page (w : host) (b : PageBinding) : CM LoadedPage :=
  content ← of_result (host_read_version w (pb_artifact_id b) (pb_version b) (pb_canonical_uri b));
  let content_bytes := py_slice (pb_byte_start b) (pb_byte_end b) content in
  mret (mkLoadedPage (pb_page_id b) (pb_canonical_uri b) (pb_artifact_id b) (pb_version b) (pb_content_hash b)
    (pb_page_hash b) (pb_byte_start b) (pb_byte_end b) (len content_bytes) false 0 "application/octet-stream" "utf-8" 0
    content_bytes).
Definition binding_of (b : PageBinding) : VersionBinding :=
  mkBinding (pb_page_id b) (pb_canonical_uri b) (pb_artifact_id b) (pb_version b) (pb_content_hash b).
Definition restored_context (snap : ContextSnapshot) (pid ws_id context_id : string) (now : Z) (pages : list LoadedPage)
    : LoadedContext :=
  mkLoaded context_id pid "" (sn_manifest_hash snap) ws_id pages (sn_tokens_used snap) (sn_tokens_used snap)
    (Some (sn_bytes_used snap)) (sn_bytes_used snap) [] (binding_of <$> sn_page_bindings snap)
    (sn_materialized_hash snap) now.
Definition restored_ws (snap : ContextSnapshot) (pid ws_id : string) (now : Z) : WorkingSet :=
  mkWorkingSet ws_id pid "" (sn_manifest_hash snap) (sn_policy_id snap) (sn_tokens_used snap) (Some (sn_bytes_used snap))
    (pb_page_id <$> sn_page_bindings snap) [] (sn_tokens_used snap) (sn_bytes_used snap) ws_resident now now.

Definition restore_snapshot (pid snapshot_id idempotency_key : string) : CM (ContextHandle * option LoadedContext) :=
  let idem := (pid, snapshot_id, idempotency_key) in
  known ← gets (fun s => tbl_find fst idem (idem_restore s));
  match (if String.eqb idempotency_key "" then None else known) with
  | Some kv => stored_handle pid kv.2
  | None =>
      snap ← gets (fun s => dict_get snapshot_id (snaps s));
      snap ← some_or_raise snap (ErrSnapshotCorrupt ("snapshot " +:+ snapshot_id +:+ " not found"));
      raise_if (negb (String.eqb (sn_pid snap) pid))
        (ErrCapabilityDenied ("snapshot " +:+ snapshot_id +:+ " owned by " +:+ sn_pid snap +:+ ", not " +:+ pid)) ;;
      w ← gets world;
      for_each (verify_binding w snapshot_id) (sn_page_bindings snap) ;;
      pages ← map_each (restored_page w) (sn_page_bindings snap);
      let restored_hash := materialized_hash_of (binding_of <$> sn_page_bindings snap) pages in
      raise_if (negb (String.eqb restored_hash (sn_materialized_hash snap)))
        (ErrSnapshotCorrupt ("snapshot " +:+ snapshot_id +:+ ": re-materialized hash " +:+ restored_hash +:+
           " != recorded " +:+ sn_materialized_hash snap)) ;;
      ws_id ← _uuid; handle_id ← _uuid; context_id ← _uuid; now ← _utcnow;
      let handle := mkHandle handle_id pid ws_id now None [] in
      let loaded := restored_context snap pid ws_id context_id now pages in
      let ws := restored_ws snap pid ws_id now in
      book_ws pid ws_id ws ;;
      book_handle pid handle_id (mkRec handle None (Some loaded) (Some ws)) ;;
      (if String.eqb idempotency_key "" then mret tt
       else modify (set_idem_restore (tbl_upsert fst (fun _ kv => kv) (idem, handle_id)))) ;;
      _emit "CONTEXT_SNAPSHOT_RESTORED" [("snapshot_id", JStr snapshot_id); ("handle_id", JStr handle_id)] ;;
      mret (handle, Some loaded)
  end.

(** ** Closing *)

Definition closed_handle (now : Z) (h : ContextHandle) : ContextHandle :=
  mkHandle (ch_handle_id h) (ch_pid h) (ch_working_set_id h) (ch_opened_at h) (Some now) (ch_pinned_page_ids h).
Definition close (pid handle_id : string) : CM bool :=
  rec ← gets (fun s => dict_get handle_id (_handles_map pid s));
  match rec with
  | None => mret true
  | Some rec =>
      if decide (is_Some (ch_closed_at (hr_handle rec))) then mret true
      else
        _require_handle_owned rec pid handle_id ;;
        modify (set_pins (fun counts => foldl dec_pin counts (ch_pinned_page_ids (hr_handle rec)))) ;;
        now ← _utcnow;
        book_handle pid handle_id (with_handle (closed_handle now (hr_handle rec)) rec) ;;
        _emit "CONTEXT_HANDLE_CLOSED" [("handle_id", JStr handle_id); ("pid", JStr pid);
          ("working_set_id", JStr (ch_working_set_id (hr_handle rec)))] ;;
        mret true
  end.

Definition list_working_sets (pid : string) (s : CState) : list WorkingSet := (_ws_map pid s).*2.

(** How many pins [dec_pin] takes back over a list of pages. *)
Definition release_pins (pages : list string) (acc : dict Z * Z) : dict Z * Z :=
  foldl (fun acc pg => (dec_pin acc.1 pg, if 0 <? pin_count acc.1 pg then acc.2 + 1 else acc.2)) acc pages.
Record Cleanup : Type := mkCleanup { cl_released_handles : Z; cl_released_pins : Z }.
Definition cleanup_handle (pid : string) (c : Cleanup) (rec : HandleRec) : CM Cleanup :=
  if decide (is_Some (ch_closed_at (hr_handle rec))) then mret c
  else
    counts ← gets pin_counts;
    let '(counts', n) := release_pins (ch_pinned_page_ids (hr_handle rec)) (counts, cl_released_pins c) in
    modify (set_pins (fun _ => counts')) ;;
    now ← _utcnow;
    book_handle pid (ch_handle_id (hr_handle rec)) (with_handle (closed_handle now (hr_handle rec)) rec) ;;
    mret (mkCleanup (cl_released_handles c + 1) n).
Fixpoint cleanup_loop (pid : string) (c : Cleanup) (recs : list HandleRec) : CM Cleanup :=
  match recs with
  | [] => mret c
  | rec :: recs' => c' ← cleanup_handle pid c rec; cleanup_loop pid c' recs'
  end.
Definition cleanup_process (pid : string) : CM Cleanup :=
  handles ← gets (fun s => (_handles_map pid s).*2);
  cleanup_loop pid (mkCleanup 0 0) handles.
End Service.
