(* ===== verification/ContextFacts.v ===== *)
(** * Facts about context pages, selection and loading

    Slices and pages of bytes; the selection loop as a choice of references; reading
    through the cache of a load gives what reading the artifact store gives, with one
    read per version, so a load is a function of the store, the manifest and the caller
    ([load_plan]). *)

From S2P Require Import Prelude PyString KernelModels Storage Invalidation VpgModels ContextModels ContextService.
Open Scope Z_scope.

(** ** Slices *)

Lemma len_nonneg {A} (l : list A) : 0 <= len l.
Proof. unfold len. lia. Qed.
Lemma len_app {A} (l k : list A) : len (l ++ k) = len l + len k.
Proof. unfold len. rewrite length_app. lia. Qed.
Lemma join_cons {A} (x : list A) (l : list (list A)) : mjoin (x :: l) = x ++ mjoin l.
Proof. done. Qed.
Lemma slice_in {A} i j (l : list A) :
  0 <= i -> i <= j -> j <= len l -> py_slice i j l = take (Z.to_nat (j - i)) (drop (Z.to_nat i) l).
Proof.
  intros Hi Hj Hl. unfold py_slice, slice_index.
  rewrite (proj2 (Z.ltb_ge i 0)), (proj2 (Z.ltb_ge j 0)) by lia. f_equal; [lia|f_equal; lia].
Qed.
Lemma len_slice {A} i j (l : list A) :
  0 <= i -> i <= j -> j <= len l -> len (py_slice i j l) = j - i.
Proof.
  intros Hi Hj Hl. rewrite slice_in by done. unfold len in *. rewrite length_take, length_drop. lia.
Qed.
Lemma slice_slice {A} a b i j (l : list A) :
  0 <= a -> a <= b -> b <= len l -> 0 <= i -> i <= j -> j <= b - a ->
  py_slice i j (py_slice a b l) = py_slice (a + i) (a + j) l.
Proof.
  intros. rewrite (slice_in i j) by (rewrite ?len_slice; lia). rewrite !slice_in by lia.
  rewrite skipn_firstn_comm, take_take, drop_drop. f_equal; [lia|f_equal; lia].
Qed.
Lemma slice_all {A} (l : list A) : py_slice 0 (len l) l = l.
Proof. rewrite slice_in by (pose proof (len_nonneg l); lia). cbn. apply take_ge. unfold len. lia. Qed.
Lemma slice_app {A} i j k (l : list A) :
  0 <= i -> i <= j -> j <= k -> k <= len l -> py_slice i j l ++ py_slice j k l = py_slice i k l.
Proof.
  intros. rewrite !slice_in by lia.
  assert (drop (Z.to_nat j) l = drop (Z.to_nat (j - i)) (drop (Z.to_nat i) l)) as ->
    by (rewrite drop_drop; f_equal; lia).
  rewrite <-(take_drop (Z.to_nat (j - i)) (take (Z.to_nat (k - i)) (drop (Z.to_nat i) l))).
  rewrite take_take, skipn_firstn_comm. f_equal; f_equal; lia.
Qed.

Lemma remove_dups_length (l : list string) : length (remove_dups l) = length l <-> NoDup l.
Proof.
  assert (forall l : list string, (length (remove_dups l) <= length l)%nat) as Hle.
  { clear. intros l. induction l as [|x l IH]; cbn; [done|]. case_decide; cbn; lia. }
  induction l as [|x l IH]; cbn; [split; [constructor|done]|]. rewrite NoDup_cons, <-IH. pose proof (Hle l).
  case_decide; cbn; split; [lia|tauto|intros ?; split; [done|lia]|lia].
Qed.
Lemma ceil_div_spec n d : 0 < d -> (ceil_div n d - 1) * d < n <= ceil_div n d * d.
Proof.
  intros Hd. unfold ceil_div. pose proof (Z.div_mod (- n) d ltac:(lia)).
  pose proof (Z.mod_pos_bound (- n) d Hd). nia.
Qed.

(** ** Pages *)

(** [pages] follow one another from [a] to [b] without gap or overlap. *)
Fixpoint contiguous (a b : Z) (pages : list ContextPage) : Prop :=
  match pages with
  | [] => a = b
  | p :: pages' => pg_byte_start p = a /\ contiguous (pg_byte_end p) b pages'
  end.
(** The bytes of a page. *)
Definition page_bytes (full : bytes) (p : ContextPage) : bytes := py_slice (pg_byte_start p) (pg_byte_end p) full.

Section Pages.
Context `{Sha256, TokenEstimator}.

(** What a page says of its reference and of its bytes. *)
Definition page_ok (ref : ContentRef) (full : bytes) (p : ContextPage) : Prop :=
  pg_artifact_id p = rf_artifact_id ref /\ pg_version p = rf_version ref /\
  pg_canonical_uri p = rf_canonical_uri ref /\ pg_content_hash p = rf_content_hash ref /\
  pg_required p = rf_required ref /\ pg_priority p = rf_priority ref /\
  ref_start ref <= pg_byte_start p <= pg_byte_end p /\ pg_byte_end p <= ref_end ref full /\
  pg_size_bytes p = pg_byte_end p - pg_byte_start p /\
  pg_page_hash p = _content_hash_for (page_bytes full p) /\
  pg_estimated_tokens p = Z.max 0 (estimate (page_bytes full p) (rf_media_type ref) (rf_encoding ref)).
Definition range_ok (ref : ContentRef) (full : bytes) : Prop :=
  0 <= ref_start ref /\ ref_start ref <= ref_end ref full /\ ref_end ref full <= len full.

Lemma page_of_ok ref full n i a b :
  0 <= ref_start ref -> ref_start ref <= a -> a <= b -> b <= ref_end ref full -> ref_end ref full <= len full ->
  page_ok ref full (page_of ref n i a b (py_slice a b full)).
Proof. intros. unfold page_ok, page_of, page_bytes. cbn. rewrite len_slice by lia. split_and!; lia || done. Qed.

Section Split.
Context (ref : ContentRef) (full : bytes) (n : Z) (Hn : 0 < n) (Hr : range_ok ref full).
Let start := ref_start ref.
Let payload := py_slice start (ref_end ref full) full.
Let L := len payload.
Let N := Z.to_nat (ceil_div L n).

Lemma L_eq : L = ref_end ref full - start.
Proof. destruct Hr as (? & ? & ?). unfold L, payload. by rewrite len_slice. Qed.
Lemma N_bounds : 0 <= L -> (Z.of_nat N - 1) * n < L \/ N = 0%nat.
Proof. intros. pose proof (ceil_div_spec L n Hn). unfold N. destruct (Z.le_gt_cases (ceil_div L n) 0); [right; lia|left; lia]. Qed.
Lemma N_covers : L <= Z.of_nat N * n.
Proof. pose proof (ceil_div_spec L n Hn). unfold N. pose proof (len_nonneg payload). unfold L in *. nia. Qed.

(** The page at index [i], when it is one. *)
Lemma page_at_eq i : Z.of_nat i * n <= L ->
  page_at ref n start payload (Z.of_nat i) =
  page_of ref n (Z.of_nat i) (start + Z.of_nat i * n) (start + Z.min ((Z.of_nat i + 1) * n) L)
    (py_slice (start + Z.of_nat i * n) (start + Z.min ((Z.of_nat i + 1) * n) L) full).
Proof.
  intros Hi. unfold page_at. cbn zeta. fold L. destruct Hr as (? & ? & ?). pose proof L_eq. f_equal.
  unfold payload. apply slice_slice; unfold start in *; try lia; nia.
Qed.

(** From index [i] on, for [m] pages that reach the end. *)
Lemma split_from m i : (i + m = N)%nat -> (0 < m)%nat ->
  Forall (fun p => page_ok ref full p /\ 0 < pg_size_bytes p <= n) (page_at ref n start payload <$> (Z.of_nat <$> seq i m)) /\
  contiguous (start + Z.of_nat i * n) (start + L) (page_at ref n start payload <$> (Z.of_nat <$> seq i m)) /\
  mjoin (page_bytes full <$> (page_at ref n start payload <$> (Z.of_nat <$> seq i m))) =
    py_slice (start + Z.of_nat i * n) (start + L) full.
Proof.
  revert i. induction m as [|m IH]; intros i Hi Hm; [lia|]. destruct Hr as (Hr1 & Hr2 & Hr3). pose proof L_eq as HL.
  pose proof (len_nonneg payload) as HL0. fold L in HL0. pose proof (N_bounds HL0) as HN. pose proof N_covers as HC.
  assert (Z.of_nat i * n < L) as Hlt by (destruct HN; [nia|lia]).
  cbn [seq]. rewrite !fmap_cons, page_at_eq, join_cons by lia.
  set (e := Z.min ((Z.of_nat i + 1) * n) L).
  assert (page_ok ref full (page_of ref n (Z.of_nat i) (start + Z.of_nat i * n) (start + e)
            (py_slice (start + Z.of_nat i * n) (start + e) full))) as Hp
    by (apply page_of_ok; unfold start, e in *; nia).
  assert (0 < pg_size_bytes (page_of ref n (Z.of_nat i) (start + Z.of_nat i * n) (start + e)
            (py_slice (start + Z.of_nat i * n) (start + e) full)) <= n) as Hs.
  { cbn. rewrite len_slice; unfold start, e in *; nia. }
  destruct m as [|m].
  - assert (e = L) as He by (unfold e; nia). clearbody e. subst e. split_and!.
    + by constructor; [split|constructor].
    + done.
    + cbn. by rewrite app_nil_r.
  - assert (e = (Z.of_nat i + 1) * n) as He by (unfold e; destruct HN; [nia|lia]).
    destruct (IH (S i)) as (H1 & H2 & H3); [lia|lia|].
    replace (Z.of_nat (S i) * n) with e in H2, H3 by lia. split_and!.
    + constructor; [by split|exact H1].
    + cbn. split; [done|exact H2].
    + rewrite H3. unfold page_bytes. cbn. apply slice_app; unfold start, e in *; nia.
Qed.

(** All pages but the last are full. *)
Lemma split_full : Forall (fun p => pg_size_bytes p = n)
  (page_at ref n start payload <$> (Z.of_nat <$> seq 0 (pred N))).
Proof.
  apply Forall_fmap, Forall_fmap, Forall_forall. intros i Hi. apply elem_of_seq in Hi. unfold compose.
  destruct Hr as (Hr1 & Hr2 & Hr3). pose proof L_eq as HL. pose proof (len_nonneg payload) as HL0. fold L in HL0.
  destruct (N_bounds HL0) as [HN|?]; [|lia].
  rewrite page_at_eq by nia. cbn. rewrite len_slice; unfold start in *; nia.
Qed.
End Split.

(** The pages of a reference: they cover its range in order, all but the last full. *)
Definition pages_cover (ref : ContentRef) (n : Z) (full : bytes) (pages : list ContextPage) : Prop :=
  Forall (page_ok ref full) pages /\
  contiguous (ref_start ref) (ref_end ref full) pages /\
  mjoin (page_bytes full <$> pages) = py_slice (ref_start ref) (ref_end ref full) full /\
  exists init last, pages = init ++ [last] /\ Forall (fun p => pg_size_bytes p = n) init /\
    pg_size_bytes last <= n /\ (pg_size_bytes last = 0 -> init = [] /\ ref_start ref = ref_end ref full).

Lemma split_pages_cover ref n full : 0 < n -> range_ok ref full ->
  len (py_slice (ref_start ref) (ref_end ref full) full) <> 0 ->
  pages_cover ref n full (split_pages ref n (ref_start ref) (py_slice (ref_start ref) (ref_end ref full) full)).
Proof.
  intros Hn Hr HL. set (payload := py_slice _ _ full) in *.
  pose proof (N_covers ref full n Hn) as HC. fold payload in HC. pose proof (len_nonneg payload) as H0'.
  assert (0 < Z.to_nat (ceil_div (len payload) n))%nat as HN by nia.
  destruct (split_from ref full n Hn Hr (Z.to_nat (ceil_div (len payload) n)) 0) as (H1 & H2 & H3); [done..|].
  pose proof (split_full ref full n Hn Hr) as H4. pose proof (L_eq ref full Hr) as HE. fold payload in H1, H2, H3, H4, HE.
  change (Z.of_nat 0 * n) with 0 in H2, H3. rewrite Z.add_0_r in H2, H3.
  replace (ref_start ref + len payload) with (ref_end ref full) in H2, H3 by lia.
  unfold split_pages, py_range. destruct (Z.to_nat (ceil_div (len payload) n)) as [|k]; [lia|]. split_and!.
  - eapply Forall_impl; [exact H1|]. by intros p [? _].
  - exact H2.
  - exact H3.
  - rewrite seq_S, !fmap_app in H1 |- *. cbn [Nat.pred] in H4. eexists _, _. split; [done|]. split; [exact H4|].
    apply Forall_app in H1 as [_ [[_ ?] _]%Forall_cons]. split; [|intros ?]; lia.
Qed.

Lemma pages_of_bytes_ok ref n full : 0 < n -> range_ok ref full ->
  exists pages, pages_of_bytes ref n full = Ok pages /\ pages_cover ref n full pages.
Proof.
  intros Hn Hr. pose proof Hr as (H1 & H2 & H3). unfold pages_of_bytes.
  rewrite !(proj2 (Z.leb_le _ _)) by done. cbn [andb negb].
  pose proof (len_slice _ _ _ H1 H2 H3) as HL. destruct (Z.eqb_spec (len (py_slice (ref_start ref) (ref_end ref full) full)) 0) as [E|E].
  - eexists. split; [done|]. split_and!.
    + constructor; [|constructor]. by apply page_of_ok.
    + done.
    + cbn. rewrite app_nil_r. done.
    + exists [], (page_of ref n 0 (ref_start ref) (ref_end ref full) (py_slice (ref_start ref) (ref_end ref full) full)).
      cbn. rewrite E. split_and!; [done|constructor|lia|]. intros _. split; [done|lia].
  - rewrite (proj2 (Z.eqb_neq n 0)) by lia. eexists. split; [done|]. by apply split_pages_cover.
Qed.
Lemma pages_of_bytes_out ref n full : ~ range_ok ref full ->
  exists what, pages_of_bytes ref n full = Raise (ErrInvalidRange what).
Proof.
  intros Hr. unfold pages_of_bytes, range_ok in *.
  destruct (Z.leb_spec 0 (ref_start ref)), (Z.leb_spec (ref_start ref) (ref_end ref full)),
    (Z.leb_spec (ref_end ref full) (len full)); cbn; try (by eexists). lia.
Qed.
End Pages.

(** ** Selection *)

Lemma sum_on_app {A} (f : A -> Z) l k : sum_on f (l ++ k) = sum_on f l + sum_on f k.
Proof. induction l as [|x l IH]; cbn; [done|]. fold (sum_on f (l ++ k)) (sum_on f l). rewrite IH. lia. Qed.
Lemma sum_on_join {A B} (f : A -> Z) (g : B -> list A) l :
  sum_on f (mjoin (g <$> l)) = sum_on (fun x => sum_on f (g x)) l.
Proof. induction l as [|x l IH]; [done|]. rewrite fmap_cons, join_cons, sum_on_app, IH. done. Qed.
Lemma sum_on_nonneg {A} (f : A -> Z) l : Forall (fun x => 0 <= f x) l -> 0 <= sum_on f l.
Proof. induction 1 as [|x l Hx Hl IH]; cbn; [lia|]. fold (sum_on f l). lia. Qed.

Abbreviation rp_id rp := (rf_ref_id (rp_ref rp)).
Abbreviation rp_required rp := (rf_required (rp_ref rp)).
(** The references of [l] that are not among the omitted ones. *)
Definition kept (omitted : list string) (l : list RefPages) : list RefPages := filter (fun rp => rp_id rp ∉ omitted) l.
Definition within_bytes (m : ContextManifest) (b : Z) : Prop :=
  match mf_byte_budget m with Some budget => b <= budget | None => True end.

(** What the loop has done with the references [l]: all are kept but the omitted, each
    of which is optional and did not fit with what was kept before it. *)
Record selection_of (m : ContextManifest) (l : list RefPages) (sel : Selection) : Prop := {
  so_selected : sl_selected sel = mjoin (rp_pages <$> kept (sl_omitted_ref_ids sel) l);
  so_tokens : sl_tokens_used sel = sum_on token_cost (kept (sl_omitted_ref_ids sel) l);
  so_bytes : sl_bytes_used sel = sum_on byte_cost (kept (sl_omitted_ref_ids sel) l);
  so_omitted id : id ∈ sl_omitted_ref_ids sel ->
    exists pre rp post, l = pre ++ rp :: post /\ rp_id rp = id /\ rp_required rp = false /\
      ~ (sum_on token_cost (kept (sl_omitted_ref_ids sel) pre) + token_cost rp <= mf_token_budget m /\
         within_bytes m (sum_on byte_cost (kept (sl_omitted_ref_ids sel) pre) + byte_cost rp)) }.

Lemma kept_snoc o l rp : kept o (l ++ [rp]) = kept o l ++ (if decide (rp_id rp ∉ o) then [rp] else []).
Proof. unfold kept. by rewrite filter_app. Qed.
Lemma kept_more o id l : id ∉ (fun rp => rp_id rp) <$> l -> kept (o ++ [id]) l = kept o l.
Proof.
  intros Hid. apply filter_ext_in. intros rp Hrp. rewrite not_elem_of_app, list_elem_of_singleton.
  split; [by intros [? _]|]. intros ?. split; [done|]. intros E. apply Hid, list_elem_of_fmap. by exists rp.
Qed.
Lemma exceeds_iff m rp s : exceeds m rp s = false <->
  sl_tokens_used s + token_cost rp <= mf_token_budget m /\ within_bytes m (sl_bytes_used s + byte_cost rp).
Proof.
  unfold exceeds, within_bytes. rewrite orb_false_iff, Z.ltb_ge. destruct (mf_byte_budget m); [|tauto].
  by rewrite Z.ltb_ge.
Qed.

Lemma select_loop_snoc m l rp : select_loop m (l ++ [rp]) = select_step m (select_loop m l) rp.
Proof. unfold select_loop. by rewrite foldl_app. Qed.
Lemma select_loop_ids m l : sl_omitted_ref_ids (select_loop m l) ⊆ (fun rp => rp_id rp) <$> l.
Proof.
  induction l as [|rp l IH] using rev_ind; [done|]. rewrite select_loop_snoc, fmap_app. unfold select_step.
  destruct (rp_required rp); [cbn; set_solver|]. destruct (exceeds _ _ _); cbn; set_solver.
Qed.
Lemma select_loop_of m l : NoDup ((fun rp => rp_id rp) <$> l) -> selection_of m l (select_loop m l).
Proof.
  induction l as [|rp l IH] using rev_ind; intros Hnd.
  { by constructor; cbn; [..|intros id ?%elem_of_nil]. }
  rewrite fmap_app in Hnd. apply NoDup_app in Hnd as (Hnd & Hnew & _).
  assert (rp_id rp ∉ (fun rp => rp_id rp) <$> l) as Hrp.
  { intros Hin. apply (Hnew _ Hin). by apply list_elem_of_singleton. }
  destruct (IH Hnd) as [H1 H2 H3 H4]. rewrite select_loop_snoc. pose proof (select_loop_ids m l) as Hids.
  set (s := select_loop m l) in *.
  assert (rp_id rp ∉ sl_omitted_ref_ids s) as Hno by (intros ?; apply Hrp; by apply Hids).
  assert (forall id, id ∈ sl_omitted_ref_ids s -> exists pre rp' post, l ++ [rp] = pre ++ rp' :: post /\ rp_id rp' = id /\
    rp_required rp' = false /\
      ~ (sum_on token_cost (kept (sl_omitted_ref_ids s) pre) + token_cost rp' <= mf_token_budget m /\
         within_bytes m (sum_on byte_cost (kept (sl_omitted_ref_ids s) pre) + byte_cost rp'))) as Hold.
  { intros id Hid. destruct (H4 id Hid) as (pre & rp' & post & -> & ?). exists pre, rp', (post ++ [rp]).
    by rewrite <-app_assoc. }
  assert (selection_of m (l ++ [rp]) (take_ref rp s)) as Htake.
  { constructor; cbn; rewrite ?kept_snoc; try (rewrite decide_True by done).
    - rewrite fmap_app, join_app, H1. cbn. by rewrite app_nil_r.
    - rewrite sum_on_app, H2. cbn. lia.
    - rewrite sum_on_app, H3. cbn. lia.
    - done. }
  unfold select_step. destruct (rp_required rp) eqn:Er; [done|]. destruct (exceeds m rp s) eqn:Ee; [|done].
  assert (forall pre, pre ⊆ l -> kept (sl_omitted_ref_ids s ++ [rp_id rp]) pre = kept (sl_omitted_ref_ids s) pre) as Hk.
  { intros pre Hpre. apply kept_more. intros (y & Hy1 & Hy2)%list_elem_of_fmap. apply Hrp, list_elem_of_fmap.
    exists y. split; [done|]. by apply Hpre. }
  constructor; cbn; rewrite ?kept_snoc; try (rewrite decide_False by set_solver); rewrite ?app_nil_r, ?Hk by done; try done.
  intros id [Hid|Hid]%elem_of_app; [|apply list_elem_of_singleton in Hid as ->].
  - destruct (H4 id Hid) as (pre & rp' & post & El & ? & ? & ?). exists pre, rp', (post ++ [rp]).
    rewrite Hk by set_solver. rewrite El, <-app_assoc. done.
  - exists l, rp, []. rewrite Hk by done. split_and!; [done..|]. rewrite <-H2, <-H3, <-exceeds_iff. by rewrite Ee.
Qed.

(** *** Budgets *)

Definition required_first (l : list RefPages) : Prop :=
  forall pre rp post, l = pre ++ rp :: post -> rp_required rp = true -> Forall (fun rp' => rp_required rp' = true) pre.
Definition costs_ok (l : list RefPages) : Prop := Forall (fun rp => 0 <= token_cost rp /\ 0 <= byte_cost rp) l.

Lemma required_cost_app c l k : required_cost c (l ++ k) = required_cost c l + required_cost c k.
Proof. unfold required_cost. by rewrite filter_app, sum_on_app. Qed.
Lemma required_cost_nonneg c l : Forall (fun rp => 0 <= c rp) l -> 0 <= required_cost c l.
Proof. intros Hl. unfold required_cost. apply sum_on_nonneg. rewrite Forall_forall in *. intros rp [_ ?]%list_elem_of_filter. by apply Hl. Qed.
Lemma required_cost_one c rp : rp_required rp = true -> required_cost c [rp] = c rp.
Proof.
  intros Hr. unfold required_cost. rewrite filter_cons, decide_True, filter_nil by (by rewrite Hr). apply Z.add_0_r.
Qed.
Lemma select_loop_required m l : Forall (fun rp => rp_required rp = true) l ->
  sl_tokens_used (select_loop m l) = required_cost token_cost l /\
  sl_bytes_used (select_loop m l) = required_cost byte_cost l.
Proof.
  induction l as [|rp l IH] using rev_ind; [done|]. intros [Hl [Hrp _]%Forall_cons]%Forall_app.
  destruct (IH Hl) as [IH1 IH2]. rewrite select_loop_snoc, !required_cost_app, !(required_cost_one _ rp Hrp).
  unfold select_step. rewrite Hrp. cbn. lia.
Qed.
Lemma check_required_iff m l : check_required m l = Ok tt <->
  required_cost token_cost l <= mf_token_budget m /\ within_bytes m (required_cost byte_cost l).
Proof.
  unfold check_required, within_bytes. destruct (Z.ltb_spec (mf_token_budget m) (required_cost token_cost l)).
  - split; [done|]. intros []. lia.
  - destruct (mf_byte_budget m) as [b|]; [|tauto]. destruct (Z.ltb_spec b (required_cost byte_cost l)); split; try done.
    intros []. lia.
Qed.
Lemma select_loop_budget m l : required_first l -> costs_ok l -> check_required m l = Ok tt ->
  sl_tokens_used (select_loop m l) <= mf_token_budget m /\ within_bytes m (sl_bytes_used (select_loop m l)).
Proof.
  rewrite check_required_iff. induction l as [|rp l IH] using rev_ind; intros Hf Hc Hb.
  { exact Hb. }
  assert (check_required m l = Ok tt) as Hl.
  { apply check_required_iff. rewrite !required_cost_app in Hb. destruct Hb as [Hb1 Hb2]. apply Forall_app in Hc as [_ Hc].
    assert (0 <= required_cost token_cost [rp]) by (apply required_cost_nonneg; eapply Forall_impl; [done|]; naive_solver).
    assert (0 <= required_cost byte_cost [rp]) by (apply required_cost_nonneg; eapply Forall_impl; [done|]; naive_solver).
    split; [lia|]. unfold within_bytes in *. destruct (mf_byte_budget m); [lia|done]. }
  destruct (rp_required rp) eqn:Er.
  - pose proof (Hf l rp [] eq_refl Er) as Hall.
    assert (Forall (fun rp => rp_required rp = true) (l ++ [rp])) as Hall' by (apply Forall_app; split; [done|by repeat constructor]).
    destruct (select_loop_required m _ Hall') as [-> ->]. done.
  - rewrite select_loop_snoc. unfold select_step. rewrite Er. destruct (exceeds m rp _) eqn:Ee.
    + cbn. apply IH; [|by apply Forall_app in Hc as []|by apply check_required_iff].
      intros pre rp' post -> Hr. by apply (Hf pre rp' (post ++ [rp])); [rewrite <-app_assoc|].
    + apply exceeds_iff in Ee. exact Ee.
Qed.

Lemma py_leb_fst {B} `{PyOrd B} (x y : Z) (a b : B) : py_leb (x, a) (y, b) = true -> x <= y.
Proof.
  unfold py_leb, py_cmp at 1, prod_PyOrd. cbn. unfold py_cmp at 1, Z_PyOrd. destruct (Z.compare_spec x y); [lia|lia|done].
Qed.
Lemma sorted_required_first {B} `{PyOrd B} (k : RefPages -> B) (g : RefPages -> Z * B) l :
  (forall rp, g rp = (if rp_required rp then 0 else 1, k rp)) -> StronglySorted (key_le g) l -> required_first l.
Proof.
  intros Hg Hs pre rp post -> Hr. apply Forall_forall. intros x Hx.
  assert (key_le g x rp) as Hle.
  { revert Hs Hx. induction pre as [|y pre IH]; cbn; intros Hs Hx; [by apply elem_of_nil in Hx|].
    inversion Hs as [|? ? Hs' Hall]; subst. apply elem_of_cons in Hx as [->|Hx]; [|by apply IH].
    rewrite Forall_forall in Hall. apply Hall. set_solver. }
  unfold key_le in Hle. rewrite !Hg, Hr in Hle. apply py_leb_fst in Hle. destruct (rp_required x); [done|lia].
Qed.
Lemma required_first_fmap {B} `{PyOrd B} (k : ContentRef -> B) (g : ContentRef -> Z * B) refs (l : list RefPages) :
  (forall r, g r = (if rf_required r then 0 else 1, k r)) -> StronglySorted (key_le g) refs -> rp_ref <$> l = refs ->
  required_first l.
Proof.
  intros Hg Hs Hl. apply (sorted_required_first (fun rp => k (rp_ref rp)) (fun rp => g (rp_ref rp))).
  - intros rp. apply Hg.
  - subst refs. clear -Hs. induction l as [|x l IH]; [constructor|]. cbn in Hs. inversion Hs as [|? ? Hs' Hall]; subst.
    constructor; [by apply IH|]. apply Forall_forall. intros y Hy.
    apply (proj1 (Forall_forall _ _) Hall (rp_ref y)), list_elem_of_fmap. by exists y.
Qed.

(** Which references are loaded, by either policy. *)
Lemma select_pages_loop m rps rs prev sel : required_first rps -> select_pages m rps rs prev = Ok sel ->
  exists l, l ≡ₚ rps /\ required_first l /\ check_required m l = Ok tt /\ sel = select_loop m l.
Proof.
  intros Hf. unfold select_pages, select_pages_v1, select_pages_lifecycle_v1.
  destruct (String.eqb (mf_policy_id m) PRIORITY_STABLE_POLICY_ID); cbn [negb].
  - destruct (check_required m rps) as [[]|] eqn:Ec; cbn; [|done]. intros [= <-]. by exists rps.
  - destruct (String.eqb (mf_policy_id m) LIFECYCLE_POLICY_ID); cbn [negb]; [|done].
    destruct (check_required m _) as [[]|] eqn:Ec; cbn; [|done]. intros [= <-].
    exists (sort_ref_pages_lifecycle rps rs). split_and!; [apply sort_on_perm| |done|done].
    apply (sorted_required_first (fun rp => (_lifecycle_keep_sort_key rs (rp_ref rp)).2)
             (fun rp => _lifecycle_keep_sort_key rs (rp_ref rp))); [by intros rp|apply sort_on_sorted].
Qed.

(** * What a load computes *)


Section Load.
Context `{ContextHost, BindingText, UuidSource, Sha256, TokenEstimator}.

(** ** The cache *)

Definition cache_key (kv : (string * Z * string) * bytes) : string * Z * string := kv.1.
(** The cache holds what the store does, each version read once. *)
Record cache_ok (w : host) (c : VersionContentCache) : Prop := {
  co_bytes kv : kv ∈ cache_bytes c -> host_read_version w kv.1.1.1 kv.1.1.2 kv.1.2 = Ok kv.2;
  co_keys : NoDup (cache_bytes c).*1;
  co_reads : underlying_reads c = len (cache_bytes c) }.
Lemma empty_cache_ok w : cache_ok w empty_cache.
Proof. by split; cbn; [intros kv ?%elem_of_nil|constructor|]. Qed.

(** [m], started on a good cache, does what [m'] does without one. *)
Definition cached_as {A} (w : host) (m : M VersionContentCache A) (m' : M unit A) : Prop :=
  forall c, cache_ok w c -> exists r c', m c = (r, c') /\ m' tt = (r, tt) /\ (forall a, r = Ok a -> cache_ok w c').

Lemma cached_ret {A} w (a : A) : cached_as w (mret a) (mret a).
Proof. intros c Hc. by exists (Ok a), c. Qed.
Lemma cached_raise {A} w e : cached_as (A:=A) w (raise e) (raise e).
Proof. intros c Hc. by exists (Raise e), c. Qed.
Lemma cached_raise_if w b e : cached_as w (raise_if b e) (raise_if b e).
Proof. destruct b; [apply cached_raise|apply cached_ret]. Qed.
Lemma cached_of_result {A} w (r : result A) : cached_as w (of_result r) (of_result r).
Proof. intros c Hc. by exists r, c. Qed.
Lemma cached_bind {A B} w m m' (k k' : A -> _) :
  cached_as w m m' -> (forall a, cached_as w (k a) (k' a)) -> cached_as (A:=B) w (a ← m; k a) (a ← m'; k' a).
Proof.
  intros Hm Hk c Hc. destruct (Hm c Hc) as ([a|e] & c' & E1 & E2 & Hc').
  - destruct (Hk a c') as (r & c'' & E3 & E4 & Hr); [by apply (Hc' a)|]. exists r, c''.
    unfold mbind, M_bind. by rewrite E1, E2, E3, E4.
  - exists (Raise e), c'. unfold mbind, M_bind. by rewrite E1, E2.
Qed.
Lemma cached_map_each {A B} w (f f' : A -> _) l :
  (forall a, cached_as (A:=B) w (f a) (f' a)) -> cached_as w (map_each f l) (map_each f' l).
Proof.
  intros Hf. induction l as [|x l IH]; [apply cached_ret|]. cbn. apply cached_bind; [apply Hf|]. intros y.
  apply cached_bind; [apply IH|]. intros ys. apply cached_ret.
Qed.
Lemma cached_try {A} w m m' (h : py_error -> M _ A) h' :
  cached_as w m m' -> (forall e, exists e', h e = raise e' /\ h' e = raise e') ->
  cached_as w (try_except m h) (try_except m' h').
Proof.
  intros Hm Hh c Hc. destruct (Hm c Hc) as ([a|e] & c' & E1 & E2 & Hc').
  - exists (Ok a), c'. unfold try_except. by rewrite E1, E2.
  - destruct (Hh e) as (e' & E3 & E4). exists (Raise e'), c'. unfold try_except. by rewrite E1, E2, E3, E4.
Qed.
Lemma cached_read w a v u : cached_as w (cached_read_version w a v u) (direct_reader w a v u).
Proof.
  intros c Hc. unfold cached_read_version, direct_reader, mbind, M_bind, modify, gets, of_result. cbn [cache_bytes].
  destruct (tbl_find fst (a, v, u) (cache_bytes c)) as [kv|] eqn:E.
  - apply tbl_find_Some in E as [E1 E2]. pose proof (co_bytes w c Hc kv E2) as Hr. rewrite E1 in Hr. cbn in Hr.
    eexists _, _. split; [done|]. rewrite Hr. split; [done|]. intros _ _. by destruct Hc.
  - destruct (host_read_version w a v u) as [b|e] eqn:Er; eexists _, _; (split; [done|]); (split; [done|]); [|done].
    intros _ _. cbn. assert (tbl_upsert fst (fun _ kv => kv) ((a, v, u), b) (cache_bytes c) = cache_bytes c ++ [((a, v, u), b)]) as ->.
    { pose proof (proj1 (tbl_find_None fst _ _) E) as Hn. clear -Hn. induction (cache_bytes c) as [|kv l IH]; cbn; [done|].
      rewrite decide_False by (apply Hn; set_solver). rewrite IH; [done|]. set_solver. }
    split; cbn.
    + intros kv [Hkv|Hkv]%elem_of_app; [by apply (co_bytes w c)|]. apply list_elem_of_singleton in Hkv as ->. done.
    + rewrite fmap_app. apply NoDup_app. split_and!; [by apply (co_keys w c)| |by apply NoDup_singleton].
      intros k (kv & -> & Hkv)%list_elem_of_fmap Hk. apply list_elem_of_singleton in Hk. cbn in Hk.
      by apply (proj1 (tbl_find_None fst _ _) E kv).
    + rewrite (co_reads w c), len_app by done. done.
Qed.

Create HintDb cached.
#[local] Hint Resolve cached_ret cached_raise cached_raise_if cached_of_result cached_bind cached_map_each cached_read : cached.

Lemma cached_verify w ref pid :
  cached_as w (_resolve_and_verify_ref w (cached_read_version w) ref pid) (_resolve_and_verify_ref w (direct_reader w) ref pid).
Proof.
  unfold _resolve_and_verify_ref. apply cached_bind; [auto with cached|]. intros _. apply cached_bind.
  - apply cached_try; [auto with cached|]. intros e. destruct e; by eexists.
  - intros b. auto 6 with cached.
Qed.
Lemma cached_sink w ref m : cached_as w (_sink_page (cached_read_version w) ref m) (_sink_page (direct_reader w) ref m).
Proof. unfold _sink_page, compute_pages_for_ref. auto with cached. Qed.
Lemma cached_pages w m pid :
  cached_as w (_pages_for_manifest w (cached_read_version w) m pid) (_pages_for_manifest w (direct_reader w) m pid).
Proof.
  apply cached_map_each. intros r. unfold verified_pages. apply cached_bind; [apply cached_verify|]. intros _.
  apply cached_bind; [apply cached_sink|]. auto with cached.
Qed.
Lemma cached_materialize w m pid ws ctx now sel :
  cached_as w (_materialize w (cached_read_version w) m pid ws ctx now sel) (_materialize w (direct_reader w) m pid ws ctx now sel).
Proof.
  unfold _materialize. apply cached_bind.
  - apply cached_map_each. intros p. unfold read_page. auto with cached.
  - intros pages. apply cached_bind; [|auto with cached]. apply cached_map_each. intros r.
    unfold omitted_ref, _sink_page, compute_pages_for_ref, direct_reader. auto 6 with cached.
Qed.

(** What a load makes, of the store [w] and without a cache. *)
Definition load_plan (w : host) (now : Z) (m : ContextManifest) (pid ws ctx : string) : result (WorkingSet * LoadedContext) :=
  fst ((rps ← _pages_for_manifest w (direct_reader w) m pid;
        sel ← of_result (select_pages m rps (read_set_from_metadata m) None);
        _materialize w (direct_reader w) m pid ws ctx now sel) tt).

(** The cache changes nothing but the number of reads: each version is read once. *)
Lemma load_new_plan m pid ws ctx s : load_new m pid ws ctx s = (load_plan (world s) (c_clock s) m pid ws ctx, s).
Proof.
  unfold load_new, load_plan, gets, _utcnow, run_local, of_result, mbind, M_bind.
  destruct (cached_pages (world s) m pid empty_cache (empty_cache_ok _)) as ([rps|e] & c & -> & -> & Hc); [|done].
  specialize (Hc rps eq_refl). unfold gets. cbn [fst snd].
  destruct (select_pages m rps _ _) as [sel|e]; [|done].
  by destruct (cached_materialize (world s) m pid ws ctx (c_clock s) sel c Hc) as ([r|e] & c' & -> & -> & _).
Qed.
Lemma load_reads_once w m pid rps c :
  _pages_for_manifest w (cached_read_version w) m pid empty_cache = (Ok rps, c) ->
  NoDup (cache_bytes c).*1 /\ underlying_reads c = len (cache_bytes c).
Proof.
  intros E. destruct (cached_pages w m pid empty_cache (empty_cache_ok _)) as (r & c' & E' & _ & Hc).
  rewrite E in E'. injection E' as <- <-. destruct (Hc rps eq_refl). done.
Qed.

(** ** The plan as a function *)

Lemma map_each_unit {A B} (f : A -> M unit B) l ys : map_each f l tt = (Ok ys, tt) -> Forall2 (fun x y => f x tt = (Ok y, tt)) l ys.
Proof.
  revert ys. induction l as [|x l IH]; cbn; intros ys; [intros [= <-]; constructor|].
  unfold mbind, M_bind. destruct (f x tt) as [[y|e] []] eqn:Ef; [|done]. destruct (map_each f l tt) as [[zs|e] []]; [|done].
  intros [= <-]. constructor; [done|]. by apply IH.
Qed.
Lemma map_each_pure {S A B} (f : A -> M S B) (g : A -> B) l s :
  (forall x, x ∈ l -> f x s = (Ok (g x), s)) -> map_each f l s = (Ok (g <$> l), s).
Proof.
  induction l as [|x l IH]; intros Hf; [done|]. cbn. unfold mbind, M_bind. rewrite Hf by set_solver.
  rewrite IH; [done|]. intros y Hy. apply Hf. set_solver.
Qed.

(** The bytes of a version and the pages of a reference, in the store [w]. *)
Definition content_of (w : host) (a : string) (v : Z) (u : string) : bytes :=
  match host_read_version w a v u with Ok b => b | Raise _ => [] end.
Definition ref_pages_of (w : host) (n : Z) (r : ContentRef) : list ContextPage :=
  match pages_of_bytes r n (content_of w (rf_artifact_id r) (rf_version r) (rf_canonical_uri r)) with
  | Ok ps => ps | Raise _ => []
  end.
Definition plan_page (w : host) (m : ContextManifest) (p : ContextPage) : LoadedPage :=
  loaded_page (ref_by_artifact (mf_refs m)) p (page_bytes (content_of w (pg_artifact_id p) (pg_version p) (pg_canonical_uri p)) p).
Definition plan_omitted (w : host) (m : ContextManifest) (r : ContentRef) : OmittedRef :=
  mkOmitted (rf_ref_id r) "optional_skipped" (Some (sum_on pg_estimated_tokens (ref_pages_of w (mf_page_size_bytes m) r))).
Definition plan_ws (m : ContextManifest) (pid ws : string) (now : Z) (sel : Selection) : WorkingSet :=
  mkWorkingSet ws pid (mf_manifest_id m) (manifest_hash m) (mf_policy_id m) (mf_token_budget m) (mf_byte_budget m)
    (pg_page_id <$> sl_selected sel) (sl_omitted_ref_ids sel) (sl_tokens_used sel) (sl_bytes_used sel) ws_resident now now.
Definition plan_context (w : host) (m : ContextManifest) (pid ws ctx : string) (now : Z) (sel : Selection) : LoadedContext :=
  let bindings := version_binding <$> sl_selected sel in
  let pages := plan_page w m <$> sl_selected sel in
  mkLoaded ctx pid (mf_manifest_id m) (manifest_hash m) ws pages (mf_token_budget m) (sl_tokens_used sel)
    (mf_byte_budget m) (sl_bytes_used sel)
    (plan_omitted w m <$> filter (fun r => rf_ref_id r ∈ sl_omitted_ref_ids sel) (mf_refs m))
    bindings (materialized_hash_of bindings pages) now.

(** A reference that may be read and holds what it says, with its pages. *)
Definition ref_verified (w : host) (m : ContextManifest) (pid : string) (r : ContentRef) (rp : RefPages) : Prop :=
  can_artifact_read w pid (rf_artifact_id r) (rf_version r) = true /\
  exists full, host_read_version w (rf_artifact_id r) (rf_version r) (rf_canonical_uri r) = Ok full /\
    _content_hash_for full = rf_content_hash r /\ rp_ref rp = r /\
    pages_of_bytes r (mf_page_size_bytes m) full = Ok (rp_pages rp).

Lemma verified_pages_inv w m pid r rp :
  verified_pages w (direct_reader w) m pid r tt = (Ok rp, tt) -> ref_verified w m pid r rp.
Proof.
  unfold verified_pages, _resolve_and_verify_ref, _sink_page, compute_pages_for_ref, direct_reader, try_except, of_result,
    raise_if, mbind, M_bind.
  destruct (can_artifact_read _ _ _ _) eqn:Ec; cbn; [|done].
  destruct (host_read_version _ _ _ _) as [full|[]] eqn:Er; cbn; try done.
  destruct (String.eqb_spec (_content_hash_for full) (rf_content_hash r)) as [Eh|]; cbn; [|done].
  destruct (pages_of_bytes _ _ _) as [ps|] eqn:Ep; [|done]. intros [= <-]. split; [done|]. by exists full.
Qed.
Lemma ref_verified_pages w m pid r rp : ref_verified w m pid r rp ->
  rp_ref rp = r /\ rp_pages rp = ref_pages_of w (mf_page_size_bytes m) r.
Proof.
  intros (_ & full & Hr & _ & Hrp & Hp). split; [done|]. unfold ref_pages_of, content_of. by rewrite Hr, Hp.
Qed.
Lemma pages_verified w m pid rps : _pages_for_manifest w (direct_reader w) m pid tt = (Ok rps, tt) ->
  Forall2 (ref_verified w m pid) (sort_refs_deterministic (mf_refs m)) rps.
Proof. intros E. eapply Forall2_impl; [apply map_each_unit, E|]. intros r rp. apply verified_pages_inv. Qed.

Lemma pages_of_bytes_ids r n full ps p : pages_of_bytes r n full = Ok ps -> p ∈ ps ->
  pg_artifact_id p = rf_artifact_id r /\ pg_version p = rf_version r /\ pg_canonical_uri p = rf_canonical_uri r.
Proof.
  unfold pages_of_bytes. destruct (negb _); [done|]. destruct (_ =? 0).
  { intros [= <-] ->%list_elem_of_singleton. done. }
  destruct (_ =? 0); [done|]. intros [= <-]. unfold split_pages. intros (i & -> & _)%list_elem_of_fmap. done.
Qed.
Lemma select_loop_elem m l p : p ∈ sl_selected (select_loop m l) -> exists rp, rp ∈ l /\ p ∈ rp_pages rp.
Proof.
  induction l as [|rp l IH] using rev_ind; [by intros ?%elem_of_nil|]. rewrite select_loop_snoc. unfold select_step.
  assert (p ∈ sl_selected (take_ref rp (select_loop m l)) -> exists rp', rp' ∈ l ++ [rp] /\ p ∈ rp_pages rp') as Ht.
  { cbn. intros [Hp|Hp]%elem_of_app; [destruct (IH Hp) as (rp' & ? & ?); exists rp'|exists rp]; set_solver. }
  destruct (rp_required rp); [done|]. destruct (exceeds _ _ _); [|done]. cbn. intros Hp.
  destruct (IH Hp) as (rp' & ? & ?). exists rp'. set_solver.
Qed.
Lemma verified_elem w m pid rps rp : Forall2 (ref_verified w m pid) (sort_refs_deterministic (mf_refs m)) rps ->
  rp ∈ rps -> rp_ref rp ∈ mf_refs m /\ ref_verified w m pid (rp_ref rp) rp.
Proof.
  intros Hv [i Hi]%list_elem_of_lookup. destruct (Forall2_lookup_r _ _ _ _ _ Hv Hi) as (r & Hr & Hrp).
  destruct (ref_verified_pages _ _ _ _ _ Hrp) as [-> _]. split; [|done]. apply list_elem_of_lookup_2 in Hr.
  by apply elem_of_sort_on in Hr.
Qed.
Lemma verified_refs w m pid rps : Forall2 (ref_verified w m pid) (sort_refs_deterministic (mf_refs m)) rps ->
  rp_ref <$> rps = sort_refs_deterministic (mf_refs m).
Proof.
  induction 1 as [|r rp refs rps Hr Hs IH]; [done|]. cbn. destruct (ref_verified_pages _ _ _ _ _ Hr) as [-> _]. by rewrite IH.
Qed.
Lemma verified_first w m pid rps : Forall2 (ref_verified w m pid) (sort_refs_deterministic (mf_refs m)) rps -> required_first rps.
Proof.
  intros Hv. apply (required_first_fmap (fun r => (_ref_sort_key r).2) _ref_sort_key (sort_refs_deterministic (mf_refs m)));
    [done|apply sort_on_sorted|by eapply verified_refs].
Qed.
(** The pages selected are pages of references that were verified. *)
Lemma selected_verified w m pid rps rs prev sel p :
  Forall2 (ref_verified w m pid) (sort_refs_deterministic (mf_refs m)) rps -> select_pages m rps rs prev = Ok sel ->
  p ∈ sl_selected sel -> exists rp, rp ∈ rps /\ p ∈ rp_pages rp.
Proof.
  intros Hv Hs Hp. destruct (select_pages_loop m rps rs prev sel (verified_first _ _ _ _ Hv) Hs) as (l & Hl & _ & _ & ->).
  destruct (select_loop_elem _ _ _ Hp) as (rp & Hrp & Hin). exists rp. by rewrite Hl in Hrp.
Qed.

Lemma materialize_plan w m pid rps rs prev sel ws ctx now :
  Forall2 (ref_verified w m pid) (sort_refs_deterministic (mf_refs m)) rps -> select_pages m rps rs prev = Ok sel ->
  _materialize w (direct_reader w) m pid ws ctx now sel tt = (Ok (plan_ws m pid ws now sel, plan_context w m pid ws ctx now sel), tt).
Proof.
  intros Hv Hs. unfold _materialize, mbind at 1, M_bind at 1.
  rewrite (map_each_pure _ (plan_page w m)).
  2:{ intros p Hp. destruct (selected_verified _ _ _ _ _ _ _ _ Hv Hs Hp) as (rp & Hrp & Hpp).
      destruct (verified_elem _ _ _ _ _ Hv Hrp) as (_ & _ & full & Hr & _ & _ & Hps).
      destruct (pages_of_bytes_ids _ _ _ _ _ Hps Hpp) as (E1 & E2 & E3).
      unfold read_page, direct_reader, of_result, mbind, M_bind, plan_page, content_of. by rewrite E1, E2, E3, Hr. }
  unfold mbind at 1, M_bind at 1. rewrite (map_each_pure _ (plan_omitted w m)); [done|].
  intros r [_ Hr]%list_elem_of_filter.
  assert (r ∈ rp_ref <$> rps) as (rp & -> & Hrp)%list_elem_of_fmap.
  { rewrite (verified_refs _ _ _ _ Hv). by apply elem_of_sort_on. }
  destruct (verified_elem _ _ _ _ _ Hv Hrp) as (_ & _ & full & Hf & _ & _ & Hps).
  unfold omitted_ref, _sink_page, compute_pages_for_ref, direct_reader, of_result, mbind, M_bind, plan_omitted, ref_pages_of, content_of.
  by rewrite Hf, Hps.
Qed.
Lemma load_plan_eq w now m pid ws ctx :
  load_plan w now m pid ws ctx =
    (rps ← fst (_pages_for_manifest w (direct_reader w) m pid tt);
     sel ← select_pages m rps (read_set_from_metadata m) None;
     Ok (plan_ws m pid ws now sel, plan_context w m pid ws ctx now sel)).
Proof.
  unfold load_plan, mbind at 1 2, M_bind at 1 2. destruct (_pages_for_manifest w _ m pid tt) as [[rps|e] []] eqn:Ep; [|done].
  unfold of_result, mbind, result_bind. cbn [fst]. destruct (select_pages m rps _ _) as [sel|e] eqn:Es; [|done].
  by rewrite (materialize_plan w m pid rps _ _ sel ws ctx now (pages_verified _ _ _ _ Ep) Es).
Qed.

(** ** When a load succeeds *)

Definition ref_plan (w : host) (m : ContextManifest) (r : ContentRef) : RefPages :=
  mkRefPages r (ref_pages_of w (mf_page_size_bytes m) r).
Definition validated (w : host) (m : ContextManifest) (pid : string) : Prop :=
  0 < mf_token_budget m /\ 0 < mf_page_size_bytes m /\ NoDup (rf_ref_id <$> mf_refs m) /\ mf_owner_pid m = pid /\
  can_context_operation w pid "load" = true.
(** The caller may load the manifest, and what it requires is there and fits. *)
Definition loadable (w : host) (m : ContextManifest) (pid : string) : Prop :=
  validated w m pid /\ Forall (fun r => ref_verified w m pid r (ref_plan w m r)) (mf_refs m) /\
  mf_policy_id m ∈ [PRIORITY_STABLE_POLICY_ID; LIFECYCLE_POLICY_ID] /\
  check_required m (ref_plan w m <$> mf_refs m) = Ok tt.

Lemma ref_verified_plan w m pid r rp : ref_verified w m pid r rp -> rp = ref_plan w m r.
Proof. intros Hr. destruct (ref_verified_pages _ _ _ _ _ Hr) as [E1 E2]. destruct rp. cbn in *. by subst. Qed.
Lemma verified_plans w m pid rps : Forall2 (ref_verified w m pid) (sort_refs_deterministic (mf_refs m)) rps ->
  rps = ref_plan w m <$> sort_refs_deterministic (mf_refs m).
Proof.
  induction 1 as [|r rp refs rps Hr Hs IH]; [done|]. cbn. rewrite (ref_verified_plan _ _ _ _ _ Hr), IH. done.
Qed.
Lemma verified_pages_run w m pid r : ref_verified w m pid r (ref_plan w m r) ->
  verified_pages w (direct_reader w) m pid r tt = (Ok (ref_plan w m r), tt).
Proof.
  intros (Hc & full & Hf & Hh & _ & Hp).
  unfold verified_pages, _resolve_and_verify_ref, _sink_page, compute_pages_for_ref, direct_reader, try_except, of_result,
    raise_if, mbind, M_bind.
  rewrite Hc, Hf. cbn. rewrite Hh, String.eqb_refl. cbn. by rewrite Hp.
Qed.
Lemma pages_run w m pid : Forall (fun r => ref_verified w m pid r (ref_plan w m r)) (mf_refs m) ->
  _pages_for_manifest w (direct_reader w) m pid tt = (Ok (ref_plan w m <$> sort_refs_deterministic (mf_refs m)), tt).
Proof.
  intros Hv. apply map_each_pure. intros r Hr%elem_of_sort_on. apply verified_pages_run.
  rewrite Forall_forall in Hv. by apply Hv.
Qed.
Lemma sum_on_perm {A} (f : A -> Z) l k : l ≡ₚ k -> sum_on f l = sum_on f k.
Proof.
  apply (foldr_permutation_proper (=) (fun x acc => f x + acc)); [intros x; by intros ?? ->|intros; lia].
Qed.
Lemma check_required_perm m l k : l ≡ₚ k -> check_required m l = check_required m k.
Proof.
  intros Hp. unfold check_required, required_cost. rewrite !(sum_on_perm _ (filter _ l) (filter (fun rp => rp_required rp) k)); [done|by rewrite Hp..].
Qed.
Lemma plan_perm w m : ref_plan w m <$> sort_refs_deterministic (mf_refs m) ≡ₚ ref_plan w m <$> mf_refs m.
Proof. apply fmap_Permutation, sort_on_perm. Qed.

Lemma select_pages_iff m rps rs prev :
  (exists sel, select_pages m rps rs prev = Ok sel) <->
  mf_policy_id m ∈ [PRIORITY_STABLE_POLICY_ID; LIFECYCLE_POLICY_ID] /\ check_required m rps = Ok tt.
Proof.
  unfold select_pages, select_pages_v1, select_pages_lifecycle_v1.
  destruct (String.eqb_spec (mf_policy_id m) PRIORITY_STABLE_POLICY_ID) as [E|E]; cbn [negb].
  - rewrite E. destruct (check_required m rps) as [[]|] eqn:Ec; cbn.
    + split; [intros _; split; [set_solver|done]|by eexists].
    + split; [by intros []|by intros [_ ?]].
  - destruct (String.eqb_spec (mf_policy_id m) LIFECYCLE_POLICY_ID) as [E'|E']; cbn [negb].
    + rewrite E', (check_required_perm m (sort_ref_pages_lifecycle rps rs) rps) by apply sort_on_perm.
      destruct (check_required m rps) as [[]|] eqn:Ec; cbn.
      * split; [intros _; split; [set_solver|done]|by eexists].
      * split; [by intros []|by intros [_ ?]].
    + split; [by intros []|]. intros [Hin _]. set_solver.
Qed.
Lemma load_plan_iff w now m pid ws ctx : validated w m pid ->
  (exists wl, load_plan w now m pid ws ctx = Ok wl) <-> loadable w m pid.
Proof.
  intros Hval. rewrite load_plan_eq. split.
  - intros [wl E]. destruct (_pages_for_manifest w _ m pid tt) as [[rps|e] []] eqn:Ep; [|done].
    apply pages_verified in Ep. unfold mbind, result_bind in E. cbn [fst] in E.
    destruct (select_pages m rps _ _) as [sel|e] eqn:Es; [|done].
    destruct (proj1 (select_pages_iff m rps (read_set_from_metadata m) None)) as [Hp Hc]; [by eexists|].
    rewrite (verified_plans _ _ _ _ Ep), (check_required_perm _ _ _ (plan_perm w m)) in Hc.
    split_and!; [done| |done|done]. apply Forall_forall. intros r Hr.
    assert (r ∈ sort_refs_deterministic (mf_refs m)) as [i Hi]%list_elem_of_lookup by (by apply elem_of_sort_on).
    destruct (Forall2_lookup_l _ _ _ _ _ Ep Hi) as (rp & _ & Hrp). by rewrite <-(ref_verified_plan _ _ _ _ _ Hrp).
  - intros (_ & Hv & Hp & Hc). rewrite (pages_run w m pid Hv). unfold mbind, result_bind. cbn [fst].
    rewrite <-(check_required_perm _ _ _ (plan_perm w m)) in Hc.
    destruct (proj2 (select_pages_iff m (ref_plan w m <$> sort_refs_deterministic (mf_refs m)) (read_set_from_metadata m) None) (conj Hp Hc)) as [sel ->].
    by eexists.
Qed.

Lemma load_plan_inv w now m pid ws ctx wl : load_plan w now m pid ws ctx = Ok wl ->
  exists rps sel, Forall2 (ref_verified w m pid) (sort_refs_deterministic (mf_refs m)) rps /\
    select_pages m rps (read_set_from_metadata m) None = Ok sel /\
    wl = (plan_ws m pid ws now sel, plan_context w m pid ws ctx now sel).
Proof.
  rewrite load_plan_eq. destruct (_pages_for_manifest w _ m pid tt) as [[rps|e] []] eqn:Ep; [|done].
  unfold mbind, result_bind. cbn [fst]. destruct (select_pages m rps _ _) as [sel|e] eqn:Es; [|done]. intros [= <-].
  exists rps, sel. split_and!; [by eapply pages_verified|done|done].
Qed.
End Load.
