(* ===== verification/ContextProps.v ===== *)
(** * Properties of the context virtual memory

    Paging covers the bytes of a reference exactly; a load gives what it was asked for,
    within its budgets and whatever the order of references; a snapshot restores; what
    a process does stays with the process. *)

From S2P Require Import Prelude PyString KernelModels Storage Invalidation VpgModels ContextModels ContextService ContextFacts.
Open Scope Z_scope.

(** The bytes a reference asks for. *)
Definition ref_bytes `{ContextHost} (w : host) (r : ContentRef) : bytes :=
  let full := content_of w (rf_artifact_id r) (rf_version r) (rf_canonical_uri r) in
  py_slice (ref_start r) (ref_end r full) full.

(** ** Paging *)

(** C23: paging is exact.  Whatever the pages are read through, a reference whose range
    lies in the committed bytes gives pages that follow one another without gap or
    overlap over exactly that range; their bytes together are the range, each page has
    the digest and the size of its bytes, all but the last have the page size, and only
    an empty range gives an empty page.  Any other range is refused. *)
Theorem paging_exact `{Sha256, TokenEstimator} {S} (rd : reader S) ref n full s s' :
  0 < n -> rd (rf_artifact_id ref) (rf_version ref) (rf_canonical_uri ref) s = (Ok full, s') ->
  (range_ok ref full /\ exists pages, compute_pages_for_ref rd ref n s = (Ok pages, s') /\ pages_cover ref n full pages) \/
  (~ range_ok ref full /\ exists what, compute_pages_for_ref rd ref n s = (Raise (ErrInvalidRange what), s')).
Proof.
  intros Hn Hr. unfold compute_pages_for_ref, mbind, M_bind, of_result. rewrite Hr.
  assert (Decision (range_ok ref full)) as Hd by (unfold range_ok; apply _).
  destruct (decide (range_ok ref full)) as [Hok|Hno]; [left|right]; (split; [done|]).
  - destruct (pages_of_bytes_ok ref n full Hn Hok) as (pages & -> & Hp). by exists pages.
  - destruct (pages_of_bytes_out ref n full Hno) as [what ->]. by exists what.
Qed.

Section Runs.
Context `{ContextHost, BindingText, UuidSource, Sha256, TokenEstimator}.

(** ** Runs *)

Lemma submap_set {A} p' p k (v : A) d : submap p' (sub_set p k v d) = if decide (p' = p) then dict_set k v (submap p d) else submap p' d.
Proof. unfold submap at 1, sub_set. rewrite dict_set_get. by case_decide. Qed.
Lemma submap_get {A} p' p k k' (v : A) d :
  dict_get k' (submap p' (sub_set p k v d)) = if decide (p' = p /\ k' = k) then Some v else dict_get k' (submap p' d).
Proof.
  rewrite submap_set. destruct (decide (p' = p)) as [->|Hp].
  - rewrite dict_set_get. destruct (decide (k' = k)) as [->|Hk]; [by rewrite decide_True|by rewrite decide_False by tauto].
  - by rewrite decide_False by tauto.
Qed.

(** Code that only adds events. *)
Definition emits (m : M CState unit) : Prop := forall s, exists evs, m s = (Ok tt, set_events (fun l => l ++ evs) s).
Lemma emits_ret : emits (mret tt).
Proof. intros s. exists []. unfold set_events. rewrite app_nil_r. by destruct s. Qed.
Lemma emits_emit k fs : emits (_emit k fs).
Proof. intros s. by eexists. Qed.
Lemma emits_bind m k : emits m -> emits k -> emits (m ;; k).
Proof.
  intros Hm Hk s. destruct (Hm s) as [e1 E1]. destruct (Hk (set_events (fun l => l ++ e1) s)) as [e2 E2]. exists (e1 ++ e2).
  unfold mbind, M_bind. rewrite E1, E2. unfold set_events. cbn. by rewrite app_assoc.
Qed.
Lemma emits_each {A} (f : A -> M CState unit) l : (forall x, emits (f x)) -> emits (for_each f l).
Proof. intros Hf. induction l as [|x l IH]; [apply emits_ret|]. by apply emits_bind. Qed.
Lemma emits_load m pid h ws l : emits (emit_load_events m pid h ws l).
Proof. unfold emit_load_events. repeat first [apply emits_bind|apply emits_emit|apply emits_each; intros]. Qed.

Lemma manifest_validate_run m pid s :
  (validated (world s) m pid /\ validate_manifest m pid s = (Ok tt, s)) \/
  (~ validated (world s) m pid /\ exists e, validate_manifest m pid s = (Raise e, s)).
Proof.
  unfold validate_manifest, validated, raise_if, gets, mbind, M_bind.
  destruct (Z.leb_spec (mf_token_budget m) 0); cbn; [right; split; [lia|by eexists]|].
  destruct (Z.leb_spec (mf_page_size_bytes m) 0); cbn; [right; split; [lia|by eexists]|].
  assert (len (remove_dups (rf_ref_id <$> mf_refs m)) = len (rf_ref_id <$> mf_refs m) <-> NoDup (rf_ref_id <$> mf_refs m)) as Hd.
  { unfold len. rewrite Nat2Z.inj_iff. apply remove_dups_length. }
  destruct (Z.eqb_spec (len (remove_dups (rf_ref_id <$> mf_refs m))) (len (rf_ref_id <$> mf_refs m))) as [E|E]; cbn;
    [|right; split; [tauto|by eexists]].
  destruct (String.eqb_spec (mf_owner_pid m) pid); cbn; [|right; split; [tauto|by eexists]].
  destruct (can_context_operation (world s) pid "load"); cbn; [left; tauto|right; split; [|by eexists]].
  intros (_ & _ & _ & _ & ?). done.
Qed.

(** The state after a new load. *)
Definition loaded_state (m : ContextManifest) (pid key : string) (s : CState) (wl : WorkingSet * LoadedContext) (s' : CState)
    : Prop :=
  let ws := uuid4 (c_uuid s) in
  let hid := uuid4 (N.succ (c_uuid s)) in
  exists evs n, s' = mkCState _ (world s) (sub_set pid ws wl.1 (ws_by_pid s))
    (sub_set pid hid (mkRec (mkHandle hid pid ws (c_clock s) None []) (Some m) (Some wl.2) (Some wl.1)) (handles_by_pid s))
    (snaps s) (pin_counts s)
    (if String.eqb key "" then idem_load s
     else tbl_upsert fst (fun _ kv => kv) ((pid, manifest_hash m, key), hid) (idem_load s))
    (idem_snapshot s) (idem_restore s) (c_events s ++ evs) (c_clock s) n /\ n = N.succ (N.succ (N.succ (c_uuid s))).
(** A load that is not a replay. *)
Definition new_load (m : ContextManifest) (pid key : string) (s : CState) : Prop :=
  key = "" \/ tbl_find fst (pid, manifest_hash m, key) (idem_load s) = None.

Lemma load_run m pid key s r s' : new_load m pid key s -> load m pid key s = (r, s') ->
  (validated (world s) m pid /\ exists wl,
     load_plan (world s) (c_clock s) m pid (uuid4 (c_uuid s)) (uuid4 (N.succ (N.succ (c_uuid s)))) = Ok wl /\
     r = Ok (mkHandle (uuid4 (N.succ (c_uuid s))) pid (uuid4 (c_uuid s)) (c_clock s) None [], Some wl.2) /\
     loaded_state m pid key s wl s') \/
  (~ loadable (world s) m pid /\ (exists e, r = Raise e) /\ exists n, (c_uuid s <= n)%N /\ s' = set_uuid (fun _ => n) s).
Proof.
  intros Hnew. unfold load, mbind at 1, M_bind at 1.
  destruct (manifest_validate_run m pid s) as [[Hv ->]|[Hv [e ->]]].
  2:{ intros [= <- <-]. right. split; [by intros []|]. split; [by eexists|]. exists (c_uuid s). split; [done|]. by destruct s. }
  unfold gets at 1, mbind at 1, M_bind at 1.
  assert ((if String.eqb key "" then None else tbl_find fst (pid, manifest_hash m, key) (idem_load s)) = None) as ->.
  { destruct Hnew as [->| ->]; [done|]. by destruct (String.eqb key ""). }
  unfold _uuid, mbind at 1 2 3, M_bind at 1 2 3. unfold mbind at 1, M_bind at 1. cbn [c_uuid set_uuid].
  rewrite load_new_plan. cbn [world c_clock set_uuid].
  destruct (load_plan _ _ _ _ _ _) as [wl|e] eqn:Ep.
  - intros E. left. split; [done|]. exists wl. split; [done|].
    unfold _utcnow, gets, book_ws, book_handle, modify, mbind at 1 2 3 4, M_bind at 1 2 3 4 in E. cbn [c_clock set_uuid] in E.
    destruct (String.eqb key "") eqn:Ek.
    + unfold mret at 1, M_ret at 1 in E. unfold mbind, M_bind in E.
      match type of E with context[emit_load_events ?a ?b ?c ?d ?e ?st] => destruct (emits_load a b c d e st) as [evs Ee] end.
      rewrite Ee in E. injection E as <- <-. split; [done|]. unfold loaded_state. rewrite Ek. by eexists _, _.
    + unfold mbind, M_bind in E.
      match type of E with context[emit_load_events ?a ?b ?c ?d ?e ?st] => destruct (emits_load a b c d e st) as [evs Ee] end.
      rewrite Ee in E. injection E as <- <-. split; [done|]. unfold loaded_state. rewrite Ek. by eexists _, _.
  - intros [= <- <-]. right. split; [|split; [by eexists|]].
    + intros Hl. apply (load_plan_iff _ (c_clock s) _ _ (uuid4 (c_uuid s)) (uuid4 (N.succ (N.succ (c_uuid s)))) Hv) in Hl as [wl Hwl].
      congruence.
    + exists (N.succ (N.succ (N.succ (c_uuid s)))). split; [lia|done].
Qed.

(** ** Loading *)

(** What a loaded context is, of a store, a manifest and a selection of its
    references. *)
Record context_of (w : host) (m : ContextManifest) (pid : string) (l : LoadedContext) (rps : list RefPages) (sel : Selection)
    : Prop := {
  cx_pid : lc_pid l = pid;
  cx_refs : rps ≡ₚ ref_plan w m <$> mf_refs m;
  cx_cover rp : rp ∈ rps -> pages_cover (rp_ref rp) (mf_page_size_bytes m)
    (content_of w (rf_artifact_id (rp_ref rp)) (rf_version (rp_ref rp)) (rf_canonical_uri (rp_ref rp))) (rp_pages rp);
  cx_selection : selection_of m rps sel;
  cx_pages : lc_ordered_pages l = plan_page w m <$> sl_selected sel;
  cx_content : mjoin (lp_content <$> lc_ordered_pages l) = mjoin ((fun rp => ref_bytes w (rp_ref rp)) <$> kept (sl_omitted_ref_ids sel) rps);
  cx_omitted id : id ∈ om_ref_id <$> lc_omitted_refs l <-> id ∈ sl_omitted_ref_ids sel;
  cx_tokens : lc_tokens_used l = sum_on lp_estimated_tokens (lc_ordered_pages l);
  cx_token_budget : lc_tokens_used l <= mf_token_budget m;
  cx_bytes : lc_bytes_used l = len (mjoin (lp_content <$> lc_ordered_pages l));
  cx_byte_budget : within_bytes m (lc_bytes_used l) }.

Lemma range_of_pages r n full ps : pages_of_bytes r n full = Ok ps -> range_ok r full.
Proof.
  intros E. assert (Decision (range_ok r full)) as Hd by (unfold range_ok; apply _).
  destruct (decide (range_ok r full)) as [|Hno]; [done|]. destruct (pages_of_bytes_out r n full Hno). congruence.
Qed.
Lemma verified_cover w m pid r rp : 0 < mf_page_size_bytes m -> ref_verified w m pid r rp ->
  pages_cover r (mf_page_size_bytes m) (content_of w (rf_artifact_id r) (rf_version r) (rf_canonical_uri r)) (rp_pages rp).
Proof.
  intros Hn (_ & full & Hf & _ & _ & Hp). unfold content_of. rewrite Hf.
  destruct (pages_of_bytes_ok r _ full Hn (range_of_pages _ _ _ _ Hp)) as (ps & E & Hc). congruence.
Qed.
Lemma cover_costs r n full ps : pages_cover r n full ps ->
  0 <= sum_on pg_estimated_tokens ps /\ 0 <= sum_on pg_size_bytes ps.
Proof.
  intros (Hok & _). split; apply sum_on_nonneg; (eapply Forall_impl; [exact Hok|]); intros p Hp;
    destruct Hp as (_ & _ & _ & _ & _ & _ & ? & _ & Es & _ & Et); lia.
Qed.
Lemma cover_content w m r n ps :
  pages_cover r n (content_of w (rf_artifact_id r) (rf_version r) (rf_canonical_uri r)) ps ->
  mjoin (lp_content <$> (plan_page w m <$> ps)) = ref_bytes w r.
Proof.
  intros (Hok & _ & Hj & _). unfold ref_bytes. rewrite <-Hj. f_equal. rewrite <-list_fmap_compose.
  apply list_fmap_ext. intros i p Hp. apply (Forall_lookup_1 _ _ _ _ Hok) in Hp as (E1 & E2 & E3 & _).
  unfold plan_page. cbn. by rewrite E1, E2, E3.
Qed.
Lemma plan_sizes w m r n ps :
  0 <= ref_start r -> ref_end r (content_of w (rf_artifact_id r) (rf_version r) (rf_canonical_uri r)) <=
    len (content_of w (rf_artifact_id r) (rf_version r) (rf_canonical_uri r)) ->
  pages_cover r n (content_of w (rf_artifact_id r) (rf_version r) (rf_canonical_uri r)) ps ->
  sum_on pg_size_bytes ps = len (mjoin (lp_content <$> (plan_page w m <$> ps))).
Proof.
  intros Hs He (Hok & _). induction Hok as [|p ps Hp Hok IH]; [done|].
  rewrite !fmap_cons, join_cons, len_app, <-IH. cbn [sum_on foldr]. f_equal.
  destruct Hp as (E1 & E2 & E3 & _ & _ & _ & [H5 H6] & H7 & H8 & _). unfold plan_page, loaded_page, page_bytes. cbn.
  rewrite E1, E2, E3, len_slice; lia.
Qed.
Lemma join_map_join {A B C} (f : B -> list C) (g : A -> list B) l :
  mjoin (f <$> mjoin (g <$> l)) = mjoin ((fun x => mjoin (f <$> g x)) <$> l).
Proof. induction l as [|x l IH]; [done|]. by rewrite !fmap_cons, !join_cons, fmap_app, join_app, IH. Qed.
Lemma sum_on_fmap {A B} (f : B -> Z) (g : A -> B) l : sum_on f (g <$> l) = sum_on (fun x => f (g x)) l.
Proof. induction l as [|x l IH]; [done|]. cbn. fold (sum_on f (g <$> l)). by rewrite IH. Qed.
Lemma sum_on_ext {A} (f g : A -> Z) l : (forall x, x ∈ l -> f x = g x) -> sum_on f l = sum_on g l.
Proof.
  induction l as [|x l IH]; [done|]. intros Hfg. cbn. fold (sum_on f l) (sum_on g l).
  rewrite IH, Hfg by set_solver. done.
Qed.
Lemma len_join {A} (l : list (list A)) : len (mjoin l) = sum_on len l.
Proof. induction l as [|x l IH]; [done|]. by rewrite join_cons, len_app, IH. Qed.

(** What the references of a verified plan are. *)
Lemma plan_refs w m pid rps l : 0 < mf_page_size_bytes m ->
  Forall2 (ref_verified w m pid) (sort_refs_deterministic (mf_refs m)) rps -> l ≡ₚ rps ->
  l ≡ₚ ref_plan w m <$> mf_refs m /\
  (forall rp, rp ∈ l ->
     let full := content_of w (rf_artifact_id (rp_ref rp)) (rf_version (rp_ref rp)) (rf_canonical_uri (rp_ref rp)) in
     pages_cover (rp_ref rp) (mf_page_size_bytes m) full (rp_pages rp) /\ range_ok (rp_ref rp) full) /\ costs_ok l.
Proof.
  intros Hn Hv Hl.
  assert (forall rp, rp ∈ l ->
     let full := content_of w (rf_artifact_id (rp_ref rp)) (rf_version (rp_ref rp)) (rf_canonical_uri (rp_ref rp)) in
     pages_cover (rp_ref rp) (mf_page_size_bytes m) full (rp_pages rp) /\ range_ok (rp_ref rp) full) as Hc.
  { intros rp Hrp. rewrite Hl in Hrp. destruct (verified_elem _ _ _ _ _ Hv Hrp) as [_ Hr]. cbn zeta.
    split; [by eapply verified_cover|]. destruct Hr as (_ & full & Hf & _ & _ & Hp). unfold content_of. rewrite Hf.
    by eapply range_of_pages. }
  split_and!; [|done|].
  - rewrite Hl, (verified_plans _ _ _ _ Hv). apply plan_perm.
  - apply Forall_forall. intros rp Hrp. destruct (Hc rp Hrp) as [Hcov _]. exact (cover_costs _ _ _ _ Hcov).
Qed.

Lemma plan_context_of w now m pid ws ctx wl : validated w m pid -> load_plan w now m pid ws ctx = Ok wl ->
  exists rps sel, required_first rps /\ context_of w m pid wl.2 rps sel.
Proof.
  intros (_ & Hn & Hnd & _) (rps & sel & Hv & Hs & ->)%load_plan_inv.
  destruct (select_pages_loop m rps _ _ sel (verified_first _ _ _ _ Hv) Hs) as (l & Hl & Hf & Hc & ->).
  destruct (plan_refs _ _ _ _ _ Hn Hv Hl) as (Hp & Hcov & Hcost).
  assert (NoDup ((fun rp => rp_id rp) <$> l)) as Hnd'.
  { rewrite Hp, <-list_fmap_compose. by rewrite (list_fmap_ext _ rf_ref_id). }
  pose proof (select_loop_of m l Hnd') as Hsel. destruct (select_loop_budget m l Hf Hcost Hc) as [Hb1 Hb2].
  set (sel := select_loop m l) in *. exists l, sel. split; [done|].
  assert (forall rp, rp ∈ kept (sl_omitted_ref_ids sel) l -> rp ∈ l) as Hk by (by intros rp [_ ?]%list_elem_of_filter).
  split; cbn [plan_context snd lc_pid lc_ordered_pages lc_omitted_refs lc_tokens_used lc_bytes_used]; try done.
  - intros rp Hrp. by apply Hcov.
  - rewrite (so_selected m l sel Hsel), <-list_fmap_compose, join_map_join. f_equal. apply list_fmap_ext. intros i rp Hi.
    rewrite list_fmap_compose. eapply cover_content, Hcov, Hk, list_elem_of_lookup_2, Hi.
  - intros id. rewrite <-list_fmap_compose, list_elem_of_fmap. split; [by intros (r & -> & [? _]%list_elem_of_filter)|].
    intros Hid. assert (id ∈ (fun rp => rp_id rp) <$> l) as Hin by (by apply (select_loop_ids m l)).
    apply list_elem_of_fmap in Hin as (rp & -> & Hrp). exists (rp_ref rp). split; [done|]. apply list_elem_of_filter.
    split; [done|]. rewrite Hp in Hrp. by apply list_elem_of_fmap in Hrp as (r & -> & ?).
  - rewrite sum_on_fmap, (so_tokens m l sel Hsel), (so_selected m l sel Hsel). cbn. by rewrite (sum_on_join pg_estimated_tokens rp_pages).
  - rewrite (so_bytes m l sel Hsel), (so_selected m l sel Hsel), <-list_fmap_compose, join_map_join, len_join, sum_on_fmap.
    apply sum_on_ext. intros rp Hrp. destruct (Hcov rp (Hk rp Hrp)) as [Hcv (? & ? & ?)].
    rewrite list_fmap_compose. by eapply plan_sizes.
Qed.

(** C19: a load is exact.  Unless it replays an earlier one, it succeeds exactly when the
    manifest is well formed and its caller's, the caller may load and may read every
    reference, each reference holds the bytes its digest says, and the required
    references fit the budgets under a known policy.  Then the context is the pages of
    the kept references, each complete; its tokens and bytes are within the budgets;
    what is omitted is optional and did not fit with what was kept before it.  A load
    that is refused changes nothing. *)
Theorem context_load_exact m pid key s r s' :
  new_load m pid key s -> load m pid key s = (r, s') ->
  match r with
  | Ok (h, Some l) =>
      loadable (world s) m pid /\
      (exists rps sel, required_first rps /\ context_of (world s) m pid l rps sel) /\
      dict_get (ch_handle_id h) (_handles_map pid s') = Some (mkRec h (Some m) (Some l) (dict_get (ch_working_set_id h) (_ws_map pid s')))
  | Ok (_, None) => False
  | Raise _ => ~ loadable (world s) m pid /\ exists n, s' = set_uuid (fun _ => n) s
  end.
Proof.
  intros Hnew E. destruct (load_run _ _ _ _ _ _ Hnew E) as [(Hv & wl & Hp & -> & Hs)|(Hno & [e ->] & n & _ & Hs)]; [|by eauto].
  split_and!.
  - eapply load_plan_iff; [done|]. by exists wl.
  - by eapply plan_context_of.
  - destruct Hs as (evs & n & -> & _). unfold _handles_map, _ws_map. cbn [handles_by_pid ws_by_pid ch_handle_id ch_working_set_id]. by rewrite !submap_get, !decide_True.
Qed.

(** *** The order of references *)

Definition with_refs (refs : list ContentRef) (m : ContextManifest) : ContextManifest :=
  mkManifest (mf_manifest_id m) (mf_owner_pid m) refs (mf_token_budget m) (mf_byte_budget m) (mf_page_size_bytes m)
    (mf_policy_id m) (mf_created_at m) (mf_metadata m).
(** The media type and encoding of the last reference of an artifact. *)
Definition last_media (refs : list ContentRef) (artifact_id : string) : string * string :=
  match last (filter (fun r => rf_artifact_id r = artifact_id) refs) with
  | Some r => (rf_media_type r, rf_encoding r)
  | None => ("application/octet-stream", "utf-8")
  end.
Definition media_from (refs : list ContentRef) (l : LoadedContext) : Prop :=
  forall p, p ∈ lc_ordered_pages l -> (lp_media_type p, lp_encoding p) = last_media refs (lp_artifact_id p).
(** All references of one artifact name the same media type and encoding. *)
Definition media_agree (refs : list ContentRef) : Prop :=
  forall r r', r ∈ refs -> r' ∈ refs -> rf_artifact_id r = rf_artifact_id r' ->
    (rf_media_type r, rf_encoding r) = (rf_media_type r', rf_encoding r').
(** A page without its media type and encoding. *)
Definition strip_media (p : LoadedPage) : LoadedPage :=
  mkLoadedPage (lp_page_id p) (lp_canonical_uri p) (lp_artifact_id p) (lp_version p) (lp_content_hash p) (lp_page_hash p)
    (lp_byte_start p) (lp_byte_end p) (lp_size_bytes p) (lp_required p) (lp_priority p) "" "" (lp_estimated_tokens p)
    (lp_content p).
Definition same_context (l l' : LoadedContext) : Prop :=
  strip_media <$> lc_ordered_pages l = strip_media <$> lc_ordered_pages l' /\
  lc_version_bindings l = lc_version_bindings l' /\ lc_materialized_hash l = lc_materialized_hash l' /\
  lc_manifest_hash l = lc_manifest_hash l' /\ lc_tokens_used l = lc_tokens_used l' /\
  lc_bytes_used l = lc_bytes_used l' /\ lc_omitted_refs l ≡ₚ lc_omitted_refs l'.

Lemma ref_by_artifact_last refs a : dict_get a (ref_by_artifact refs) = last (filter (fun r => rf_artifact_id r = a) refs).
Proof.
  induction refs as [|r refs IH] using rev_ind; [done|]. unfold ref_by_artifact in *. rewrite foldl_app, filter_app. cbn [foldl].
  rewrite dict_set_get. case_decide as E.
  - rewrite filter_cons_True by done. by rewrite filter_nil, last_snoc.
  - rewrite IH, filter_cons_False by done. by rewrite filter_nil, app_nil_r.
Qed.
Lemma plan_page_media w m p : (lp_media_type (plan_page w m p), lp_encoding (plan_page w m p)) = last_media (mf_refs m) (pg_artifact_id p).
Proof. unfold plan_page, loaded_page, last_media. cbn. rewrite ref_by_artifact_last. by destruct (last _). Qed.
Lemma last_media_agree refs refs' a : refs ≡ₚ refs' -> media_agree refs' -> last_media refs a = last_media refs' a.
Proof.
  intros Hp Ha. unfold last_media. assert (filter (fun r => rf_artifact_id r = a) refs ≡ₚ filter (fun r => rf_artifact_id r = a) refs') as Hf by (by rewrite Hp).
  destruct (last (filter _ refs)) as [r|] eqn:E, (last (filter _ refs')) as [r'|] eqn:E'.
  - apply last_Some_elem_of, list_elem_of_filter in E as [E1 E2], E' as [E1' E2']. apply Ha; [by rewrite <-Hp|done|congruence].
  - apply last_None in E'. rewrite E' in Hf. apply Permutation_nil_r in Hf. by rewrite Hf in E.
  - apply last_None in E. rewrite E in Hf. apply Permutation_nil_l in Hf. by rewrite <-Hf in E'.
  - done.
Qed.
Lemma page_eq_media p q : strip_media p = strip_media q -> (lp_media_type p, lp_encoding p) = (lp_media_type q, lp_encoding q) -> p = q.
Proof. destruct p, q. cbn. intros E1 E2. injection E1; injection E2; intros; by subst. Qed.

Lemma sorted_refs_eq refs refs' : refs ≡ₚ refs' -> NoDup (rf_ref_id <$> refs) ->
  sort_refs_deterministic refs = sort_refs_deterministic refs'.
Proof.
  intros Hp Hnd. apply sort_on_unique; [|done]. intros x y Hx Hy [= _ _ _ _ _ E].
  apply list_elem_of_lookup in Hx as [i Hi], Hy as [j Hj].
  assert (i = j) as ->; [|congruence]. eapply NoDup_lookup; [exact Hnd|by rewrite list_lookup_fmap, Hi|].
  rewrite list_lookup_fmap, Hj. cbn. by rewrite E.
Qed.
Lemma manifest_hash_perm refs m : refs ≡ₚ mf_refs m -> manifest_hash (with_refs refs m) = manifest_hash m.
Proof.
  intros Hp. unfold manifest_hash. cbn. do 4 f_equal. apply sort_on_unique; [done|]. by rewrite Hp.
Qed.
Lemma loadable_perm w refs m pid : refs ≡ₚ mf_refs m -> loadable w (with_refs refs m) pid <-> loadable w m pid.
Proof.
  intros Hp.
  assert (NoDup (rf_ref_id <$> refs) <-> NoDup (rf_ref_id <$> mf_refs m)) as Hnd by (by rewrite Hp).
  assert (check_required m (ref_plan w m <$> refs) = check_required m (ref_plan w m <$> mf_refs m)) as Hc
    by (apply check_required_perm; by rewrite Hp).
  assert (Forall (fun r => ref_verified w m pid r (ref_plan w m r)) refs <->
          Forall (fun r => ref_verified w m pid r (ref_plan w m r)) (mf_refs m)) as Hv by (by rewrite Hp).
  unfold loadable, validated in *. cbn [with_refs mf_refs mf_token_budget mf_page_size_bytes mf_owner_pid mf_policy_id].
  rewrite <-Hnd, <-Hv, <-Hc. done.
Qed.
Lemma plan_perm_same w now refs m pid ws ctx wl wl' : refs ≡ₚ mf_refs m -> NoDup (rf_ref_id <$> mf_refs m) ->
  load_plan w now m pid ws ctx = Ok wl -> load_plan w now (with_refs refs m) pid ws ctx = Ok wl' ->
  same_context wl.2 wl'.2 /\ media_from (mf_refs m) wl.2 /\ media_from refs wl'.2 /\
  (media_agree (mf_refs m) -> lc_ordered_pages wl.2 = lc_ordered_pages wl'.2).
Proof.
  intros Hp Hnd (rps & sel & Hv & Hs & ->)%load_plan_inv (rps' & sel' & Hv' & Hs' & ->)%load_plan_inv.
  assert (rps' = rps) as ->.
  { rewrite (verified_plans _ _ _ _ Hv), (verified_plans _ _ _ _ Hv'). cbn.
    by rewrite (sorted_refs_eq (mf_refs m) refs) by done. }
  assert (sel' = sel) as -> by (change (select_pages m rps (read_set_from_metadata m) None = Ok sel') in Hs'; congruence).
  unfold same_context, media_from. cbn [snd plan_context lc_ordered_pages lc_version_bindings lc_materialized_hash lc_manifest_hash
    lc_tokens_used lc_bytes_used lc_omitted_refs]. split_and!; try done.
  - by rewrite <-!list_fmap_compose.
  - unfold materialized_hash_of. by rewrite <-!list_fmap_compose.
  - by rewrite manifest_hash_perm.
  - change (plan_omitted w (with_refs refs m)) with (plan_omitted w m). apply fmap_Permutation, filter_Permutation.
    cbn. by rewrite Hp.
  - intros p (page & -> & _)%list_elem_of_fmap. apply plan_page_media.
  - intros p (page & -> & _)%list_elem_of_fmap. apply (plan_page_media w (with_refs refs m)).
  - intros Ha. apply list_fmap_ext. intros _ page _. apply page_eq_media; [done|]. rewrite !plan_page_media.
    symmetry. by apply last_media_agree.
Qed.

(** C20: what the order of references changes.  With its references listed in any
    other order a manifest is loaded exactly when it was, under the same identifiers:
    the same pages in the same order with the same bytes, the same bindings, digests
    and costs, and the same references omitted.  Only the media type and encoding of a
    page depend on the order, being those of the last reference of its artifact; when the
    references of each artifact agree on them the pages are the same in full. *)
Theorem load_order_independent refs m pid s : refs ≡ₚ mf_refs m ->
  match load m pid "" s, load (with_refs refs m) pid "" s with
  | (Ok (h, Some l), _), (Ok (h', Some l'), _) =>
      h = h' /\ same_context l l' /\ media_from (mf_refs m) l /\ media_from refs l' /\
      (media_agree (mf_refs m) -> lc_ordered_pages l = lc_ordered_pages l')
  | (Raise _, _), (Raise _, _) => True
  | _, _ => False
  end.
Proof.
  intros Hp. destruct (load m pid "" s) as [r s1] eqn:E1. destruct (load (with_refs refs m) pid "" s) as [r' s2] eqn:E2.
  apply load_run in E1; [|by left]. apply load_run in E2; [|by left].
  destruct E1 as [(Hv & wl & Hw & -> & _)|(Hn & [e ->] & _)], E2 as [(Hv' & wl' & Hw' & -> & _)|(Hn' & [e' ->] & _)].
  - split; [done|]. eapply plan_perm_same; [done|by destruct Hv as (_ & _ & ? & _)|done..].
  - destruct Hn'. apply (proj2 (loadable_perm _ _ _ _ Hp)), (proj1 (load_plan_iff _ (c_clock s) _ _ (uuid4 (c_uuid s)) (uuid4 (N.succ (N.succ (c_uuid s)))) Hv)). by exists wl.
  - destruct Hn. apply (proj1 (loadable_perm _ _ _ _ Hp)), (proj1 (load_plan_iff _ (c_clock s) _ _ (uuid4 (c_uuid s)) (uuid4 (N.succ (N.succ (c_uuid s)))) Hv')). by exists wl'.
  - done.
Qed.
End Runs.

(** * The states of the service

    The operations as changes of the tables, the invariant of the tables and what a
    change leaves alone. *)


Section States.
Context `{ContextHost, BindingText, UuidSource, Sha256, TokenEstimator}.
Implicit Types (s : CState) (pid hid : string).

Definition set_world (w : host) (s : CState) : CState :=
  mkCState _ w (ws_by_pid s) (handles_by_pid s) (snaps s) (pin_counts s) (idem_load s) (idem_snapshot s) (idem_restore s)
    (c_events s) (c_clock s) (c_uuid s).
Definition set_clock (t : Z) (s : CState) : CState :=
  mkCState _ (world s) (ws_by_pid s) (handles_by_pid s) (snaps s) (pin_counts s) (idem_load s) (idem_snapshot s)
    (idem_restore s) (c_events s) t (c_uuid s).

(** ** Operations *)

Inductive cop : Type :=
| op_load (m : ContextManifest) (key : string)
| op_read (hid : string)
| op_inspect (hid : string)
| op_pin (hid : string) (pages : list string)
| op_unpin (hid : string) (pages : list string)
| op_evict (ws : string) (target : Z)
| op_snapshot (ctx key : string)
| op_restore (sid key : string)
| op_close (hid : string)
| op_cleanup.
Definition run_op (pid : string) (o : cop) (s : CState) : CState :=
  match o with
  | op_load m key => (load m pid key s).2
  | op_read hid => (read pid hid s).2
  | op_inspect hid => (inspect pid hid s).2
  | op_pin hid pages => (pin pid hid pages s).2
  | op_unpin hid pages => (unpin pid hid pages s).2
  | op_evict ws target => (evict pid ws target s).2
  | op_snapshot ctx key => (snapshot pid ctx key s).2
  | op_restore sid key => (restore_snapshot pid sid key s).2
  | op_close hid => (close pid hid s).2
  | op_cleanup => (cleanup_process pid s).2
  end.
(** A process calls the service, or the world around it changes. *)
Inductive cstep (s : CState) : CState -> Prop :=
| step_op pid o : cstep s (run_op pid o s)
| step_host w : cstep s (set_world w s)
| step_time t : cstep s (set_clock t s).
Definition start (w : host) (t : Z) : CState := mkCState _ w [] [] [] [] [] [] [] [] t 0%N.
Definition reachable (s : CState) : Prop := exists w t, rtc cstep (start w t) s.

(** ** Changes *)

Definition same_ids (rec rec' : HandleRec) : Prop :=
  hr_loaded rec' = hr_loaded rec /\ hr_working_set rec' = hr_working_set rec /\ hr_manifest rec' = hr_manifest rec /\
  ch_pid (hr_handle rec') = ch_pid (hr_handle rec) /\ ch_handle_id (hr_handle rec') = ch_handle_id (hr_handle rec).
Definition binding_of_page (p : LoadedPage) : VersionBinding :=
  mkBinding (lp_page_id p) (lp_canonical_uri p) (lp_artifact_id p) (lp_version p) (lp_content_hash p).
(** A context whose digests are those of its pages. *)
Definition context_wf (l : LoadedContext) : Prop :=
  lc_version_bindings l = binding_of_page <$> lc_ordered_pages l /\
  lc_materialized_hash l = materialized_hash_of (lc_version_bindings l) (lc_ordered_pages l) /\
  forall p, p ∈ lc_ordered_pages l -> lp_page_hash p = _content_hash_for (lp_content p) /\ lp_size_bytes p = len (lp_content p) /\
    exists full, _content_hash_for full = lp_content_hash p /\ lp_content p = py_slice (lp_byte_start p) (lp_byte_end p) full.

(** A handle for a new context, with the next three identifiers. *)
Definition new_rec (pid : string) (s : CState) (rec : HandleRec) : Prop :=
  exists l ws m, rec = mkRec (mkHandle (uuid4 (N.succ (c_uuid s))) pid (uuid4 (c_uuid s)) (c_clock s) None []) m (Some l) (Some ws) /\
    lc_context_id l = uuid4 (N.succ (N.succ (c_uuid s))) /\ lc_pid l = pid /\ ws_pid ws = pid /\ context_wf l.

(** What one call changes: nothing but events and unused identifiers; a handle's pins or
    its closing time; a new working set and handle; a new snapshot. *)
Inductive change (pid : string) (s : CState) : CState -> Prop :=
| change_quiet evs n : (c_uuid s <= n)%N -> change pid s (set_uuid (fun _ => n) (set_events (fun l => l ++ evs) s))
| change_touch hid rec rec' f evs : dict_get hid (_handles_map pid s) = Some rec -> same_ids rec rec' ->
    change pid s (set_events (fun l => l ++ evs) (set_handles (sub_set pid hid rec') (set_pins f s)))
| change_add rec ws il ir evs : new_rec pid s rec ->
    (forall kv, kv ∈ il -> kv ∈ idem_load s \/ (kv.1.1.1 = pid /\ kv.2 = uuid4 (N.succ (c_uuid s)))) ->
    (forall kv, kv ∈ ir -> kv ∈ idem_restore s \/ (kv.1.1.1 = pid /\ kv.2 = uuid4 (N.succ (c_uuid s)))) ->
    hr_working_set rec = Some ws ->
    change pid s (mkCState _ (world s) (sub_set pid (uuid4 (c_uuid s)) ws (ws_by_pid s))
      (sub_set pid (uuid4 (N.succ (c_uuid s))) rec (handles_by_pid s)) (snaps s) (pin_counts s) il (idem_snapshot s) ir
      (c_events s ++ evs) (c_clock s) (N.succ (N.succ (N.succ (c_uuid s)))))
| change_snap sn isn evs : sn_snapshot_id sn = uuid4 (c_uuid s) -> sn_pid sn = pid ->
    (forall kv, kv ∈ isn -> kv ∈ idem_snapshot s \/ kv.2 = uuid4 (c_uuid s)) ->
    change pid s (mkCState _ (world s) (ws_by_pid s) (handles_by_pid s) (dict_set (uuid4 (c_uuid s)) sn (snaps s))
      (pin_counts s) (idem_load s) isn (idem_restore s) (c_events s ++ evs) (c_clock s) (N.succ (c_uuid s))).

(** ** The invariant *)

Definition known (n : N) (x : string) : Prop := exists k, (k < n)%N /\ x = uuid4 k.
Definition rec_ok (n : N) (pid hid : string) (rec : HandleRec) : Prop :=
  ch_pid (hr_handle rec) = pid /\ ch_handle_id (hr_handle rec) = hid /\ known n hid /\
  exists l, hr_loaded rec = Some l /\ context_wf l /\ lc_pid l = pid /\ known n (lc_context_id l).
Definition loaded_id (rec : HandleRec) : option string := lc_context_id <$> hr_loaded rec.
Record ctx_inv (s : CState) : Prop := {
  ci_rec pid hid rec : dict_get hid (_handles_map pid s) = Some rec -> rec_ok (c_uuid s) pid hid rec;
  ci_unique pid h1 h2 r1 r2 : dict_get h1 (_handles_map pid s) = Some r1 -> dict_get h2 (_handles_map pid s) = Some r2 ->
    loaded_id r1 = loaded_id r2 -> h1 = h2;
  ci_keys pid : dict_ok (_handles_map pid s);
  ci_snaps sid sn : dict_get sid (snaps s) = Some sn -> known (c_uuid s) sid /\ sn_snapshot_id sn = sid;
  ci_idem_load kv : kv ∈ idem_load s -> is_Some (dict_get kv.2 (_handles_map kv.1.1.1 s));
  ci_idem_restore kv : kv ∈ idem_restore s -> is_Some (dict_get kv.2 (_handles_map kv.1.1.1 s));
  ci_idem_snapshot kv : kv ∈ idem_snapshot s -> is_Some (dict_get kv.2 (snaps s)) }.

Lemma known_le n n' x : known n x -> (n <= n')%N -> known n' x.
Proof. intros (k & Hk & ->) Hn. exists k. split; [lia|done]. Qed.
Lemma rec_ok_le n n' pid hid rec : rec_ok n pid hid rec -> (n <= n')%N -> rec_ok n' pid hid rec.
Proof.
  intros (H1' & H2' & H3' & l & H4' & H5' & H6' & H7') Hn. split_and!; [done..|by eapply known_le|]. exists l.
  split_and!; [done..|by eapply known_le].
Qed.
Lemma known_fresh n k x : known n x -> (n <= k)%N -> x <> uuid4 k.
Proof. intros (i & Hi & ->) Hn E. apply uuid4_inj in E. lia. Qed.

Lemma inv_start w t : ctx_inv (start w t).
Proof. split; cbn; try done; try (by intros kv ?%elem_of_nil). intros. constructor. Qed.

Lemma touch_get pid hid rec rec' s pid' hid' r :
  dict_get hid (_handles_map pid s) = Some rec -> same_ids rec rec' ->
  dict_get hid' (submap pid' (sub_set pid hid rec' (handles_by_pid s))) = Some r ->
  exists r0, dict_get hid' (_handles_map pid' s) = Some r0 /\ same_ids r0 r.
Proof.
  intros Hd Hs. rewrite submap_get. case_decide as E.
  - destruct E as [-> ->]. intros [= <-]. by exists rec.
  - intros Hr. exists r. split; [exact Hr|]. done.
Qed.
Lemma touch_some pid hid rec' s pid' hid' :
  is_Some (dict_get hid' (_handles_map pid' s)) -> is_Some (dict_get hid' (submap pid' (sub_set pid hid rec' (handles_by_pid s)))).
Proof. intros Hs. rewrite submap_get. by case_decide. Qed.
Lemma sub_set_ok {A} pid hid (v : A) d pid' : (forall p, dict_ok (submap p d)) -> dict_ok (submap pid' (sub_set pid hid v d)).
Proof. intros Hd. rewrite submap_set. case_decide; [|apply Hd]. apply dict_set_ok, Hd. Qed.

Lemma inv_touch pid hid rec rec' f evs s : ctx_inv s -> dict_get hid (_handles_map pid s) = Some rec -> same_ids rec rec' ->
  ctx_inv (set_events (fun l => l ++ evs) (set_handles (sub_set pid hid rec') (set_pins f s))).
Proof.
  intros Hs Hd Hi. split; unfold _handles_map; cbn [handles_by_pid set_events set_handles set_pins c_uuid snaps idem_load idem_restore idem_snapshot].
  - intros p h r Hr. destruct (touch_get _ _ _ _ _ _ _ _ Hd Hi Hr) as (r0 & H0' & (E1 & _ & _ & E2 & E3)).
    destruct (ci_rec s Hs _ _ _ H0') as (? & ? & ? & l & ? & ?). split_and!; [congruence..|done|]. exists l. split; [congruence|done].
  - intros p h1 h2 r1 r2 Hr1 Hr2 El. destruct (touch_get _ _ _ _ _ _ _ _ Hd Hi Hr1) as (q1 & Hq1 & (E1 & _)).
    destruct (touch_get _ _ _ _ _ _ _ _ Hd Hi Hr2) as (q2 & Hq2 & (E2 & _)). eapply (ci_unique s Hs); [done..|].
    unfold loaded_id in *. congruence.
  - intros p. apply sub_set_ok. apply (ci_keys s Hs).
  - apply (ci_snaps s Hs).
  - intros kv Hkv. by apply touch_some, (ci_idem_load s Hs).
  - intros kv Hkv. by apply touch_some, (ci_idem_restore s Hs).
  - apply (ci_idem_snapshot s Hs).
Qed.
Lemma new_rec_ok pid s rec : new_rec pid s rec -> rec_ok (N.succ (N.succ (N.succ (c_uuid s)))) pid (uuid4 (N.succ (c_uuid s))) rec.
Proof.
  intros (l & ws & m & -> & Ec & Ep & _ & Hl). split_and!; [done..|by exists (N.succ (c_uuid s)); split; [lia|]|].
  exists l. split_and!; [done..|]. exists (N.succ (N.succ (c_uuid s))). split; [lia|done].
Qed.
Lemma inv_change pid s s' : ctx_inv s -> change pid s s' -> ctx_inv s'.
Proof.
  intros Hs [evs n Hn|hid rec rec' f evs Hd Hi|rec ws il ir evs Hr Hil Hir Hw|sn isn evs Hsn Hp His].
  - destruct Hs as [H1' H2' H3' H4' H5' H6' H7']. split; try done.
    + intros p h r Hr. eapply rec_ok_le; [by apply H1'|done].
    + intros sid sn Hsn. destruct (H4' _ _ Hsn) as [Hk ?]. split; [|done]. by eapply known_le.
  - by eapply inv_touch.
  - assert (forall p h r, dict_get h (submap p (sub_set pid (uuid4 (N.succ (c_uuid s))) rec (handles_by_pid s))) = Some r ->
      (p = pid /\ h = uuid4 (N.succ (c_uuid s)) /\ r = rec) \/ dict_get h (_handles_map p s) = Some r) as Hget.
    { intros p h r. rewrite submap_get. case_decide as E; [|by right]. destruct E as [-> ->]. intros [= <-]. by left. }
    assert (forall p h r, dict_get h (_handles_map p s) = Some r -> loaded_id r <> loaded_id rec /\ h <> uuid4 (N.succ (c_uuid s))) as Hold.
    { intros p h r Hr'. destruct (ci_rec s Hs _ _ _ Hr') as (_ & _ & Hk & l & El & _ & _ & Hkl). split.
      - destruct Hr as (l' & ? & ? & -> & Ec & _). unfold loaded_id. rewrite El. cbn. rewrite Ec. intros [= E].
        revert E. eapply known_fresh; [done|lia].
      - eapply known_fresh; [done|lia]. }
    split; unfold _handles_map; cbn [handles_by_pid c_uuid snaps idem_load idem_restore idem_snapshot].
    + intros p h r Hr'. destruct (Hget _ _ _ Hr') as [(-> & -> & ->)|Hq]; [by apply new_rec_ok|]. eapply rec_ok_le; [by apply (ci_rec s Hs)|lia].
    + intros p h1 h2 r1 r2 Hr1 Hr2 El. destruct (Hget _ _ _ Hr1) as [(_ & -> & ->)|Hq1], (Hget _ _ _ Hr2) as [(_ & -> & ->)|Hq2].
      * done.
      * destruct (Hold _ _ _ Hq2). congruence.
      * destruct (Hold _ _ _ Hq1). congruence.
      * by eapply (ci_unique s Hs).
    + intros p. apply sub_set_ok, (ci_keys s Hs).
    + intros sid sn Hsn. destruct (ci_snaps s Hs _ _ Hsn). split; [|done]. eapply known_le; [done|lia].
    + intros kv Hkv. destruct (Hil kv Hkv) as [Hin|[-> ->]]; [by apply touch_some, (ci_idem_load s Hs)|].
      rewrite submap_get. by rewrite decide_True.
    + intros kv Hkv. destruct (Hir kv Hkv) as [Hin|[-> ->]]; [by apply touch_some, (ci_idem_restore s Hs)|].
      rewrite submap_get. by rewrite decide_True.
    + apply (ci_idem_snapshot s Hs).
  - destruct Hs as [H1' H2' H3' H4' H5' H6' H7']. split; try done; cbn [c_uuid snaps idem_snapshot].
    + intros p h r Hr. eapply rec_ok_le; [by apply H1'|cbn; lia].
    + intros sid sn'. rewrite dict_set_get. case_decide as E; [|intros Hs'; destruct (H4' _ _ Hs'); split; [eapply known_le; [done|lia]|done]].
      intros [= <-]. subst sid. split; [|done]. exists (c_uuid s). split; [lia|done].
    + intros kv Hkv. rewrite dict_set_get. case_decide; [done|]. destruct (His kv Hkv) as [Hin|E']; [by apply H7'|done].
Qed.

(** ** Every operation is such a change *)

Lemma plan_context_wf w now m pid ws ctx wl : validated w m pid -> load_plan w now m pid ws ctx = Ok wl -> context_wf wl.2.
Proof.
  intros (_ & Hn & _) (rps & sel & Hv & Hs & ->)%load_plan_inv. split_and!; cbn [snd plan_context lc_version_bindings lc_ordered_pages lc_materialized_hash].
  - by rewrite <-list_fmap_compose.
  - done.
  - intros q (p & -> & Hp)%list_elem_of_fmap. destruct (selected_verified _ _ _ _ _ _ _ _ Hv Hs Hp) as (rp & Hrp & Hpp).
    destruct (verified_elem _ _ _ _ _ Hv Hrp) as [_ Hr]. pose proof (verified_cover _ _ _ _ _ Hn Hr) as (Hok & _).
    apply (proj1 (Forall_forall _ _) Hok) in Hpp as (E1 & E2 & E3 & E4 & _ & _ & _ & _ & _ & E5 & _).
    destruct Hr as (_ & full & Hf & Hh & _ & _). unfold plan_page. rewrite E1, E2, E3. unfold content_of in *. rewrite Hf in *.
    split_and!; [exact E5|done|]. exists full. split; [|done]. cbn. by rewrite E4.
Qed.
Lemma idem_upsert (il : idem_map) pid a b hid kv :
  kv ∈ tbl_upsert fst (fun _ kv => kv) ((pid, a, b), hid) il -> kv ∈ il \/ (kv.1.1.1 = pid /\ kv.2 = hid).
Proof. intros [Hin|[->|(r0 & _ & _ & ->)]]%elem_of_tbl_upsert; [by left|by right|by right]. Qed.
Lemma stored_quiet pid hid s : (stored_handle pid hid s).2 = s.
Proof. unfold stored_handle, gets, some_or_raise, mbind, M_bind. by destruct (dict_get hid _). Qed.

Lemma load_change m pid key s : rtc (change pid) s (load m pid key s).2.
Proof.
  destruct (decide (key = "" \/ tbl_find fst (pid, manifest_hash m, key) (idem_load s) = None)) as [Hnew|Hold].
  - destruct (load m pid key s) as [r s'] eqn:E. destruct (load_run _ _ _ _ _ _ Hnew E) as [(Hv & wl & Hp & _ & Hs)|(_ & _ & n & Hn & Hs)].
    + apply rtc_once. destruct Hs as (evs & n & -> & ->). apply change_add.
      * pose proof (plan_context_wf _ _ _ _ _ _ _ Hv Hp) as Hwf.
        apply load_plan_inv in Hp as (rps & sel & _ & _ & ->). by eexists _, _, _.
      * intros kv. destruct (String.eqb key ""); [by left|]. apply idem_upsert.
      * by left.
      * done.
    + cbn. subst s'. apply rtc_once. eapply (change_quiet pid s []) in Hn. unfold set_events in Hn. cbn in Hn.
      by rewrite app_nil_r in Hn.
  - unfold load, mbind at 1, M_bind at 1. destruct (manifest_validate_run m pid s) as [[_ ->]|[_ [e ->]]]; [|apply rtc_refl].
    unfold gets at 1, mbind at 1, M_bind at 1. destruct (String.eqb_spec key "") as [->|Hk]; [by destruct Hold; left|].
    destruct (tbl_find fst _ (idem_load s)) as [kv|] eqn:Ek; [|by destruct Hold; right]. rewrite stored_quiet. apply rtc_refl.
Qed.

(** A handle is found under its own process, or an exception is raised. *)
Lemma owning_run pid hid s :
  (exists rec, dict_get hid (_handles_map pid s) = Some rec /\ _get_owning_rec pid hid s = (Ok rec, s)) \/
  (dict_get hid (_handles_map pid s) = None /\ exists e, _get_owning_rec pid hid s = (Raise e, s)).
Proof.
  unfold _get_owning_rec, gets, mbind, M_bind. destruct (dict_get hid (_handles_map pid s)) as [rec|]; [left; by exists rec|].
  right. split; [done|]. destruct (_find_handle_owner hid s) as [o|]; [|by eexists].
  unfold raise_if. by destruct (negb _); eexists.
Qed.
Lemma require_run rec pid hid s :
  (ch_pid (hr_handle rec) = pid /\ ch_closed_at (hr_handle rec) = None /\ _require_handle_owned rec pid hid s = (Ok tt, s)) \/
  (exists e, _require_handle_owned rec pid hid s = (Raise e, s)).
Proof.
  unfold _require_handle_owned, raise_if, mbind, M_bind. destruct (String.eqb_spec (ch_pid (hr_handle rec)) pid) as [E|E]; cbn; [|right; by eexists].
  destruct (ch_closed_at (hr_handle rec)) as [t|]; cbn; [right; by eexists|left; done].
Qed.
(** The handle a call may use. *)
Definition usable (pid hid : string) (s : CState) (rec : HandleRec) : Prop :=
  dict_get hid (_handles_map pid s) = Some rec /\ ch_pid (hr_handle rec) = pid /\ ch_closed_at (hr_handle rec) = None.
(** Goes past [_get_owning_rec] and [_require_handle_owned]; a raise is the right case. *)
Ltac use_handle pid hid s rec Hu :=
  let Hd := fresh in let e := fresh in let Hp := fresh in let Hc := fresh in
  unfold mbind, M_bind; destruct (owning_run pid hid s) as [(rec & Hd & ->)|(_ & e & ->)]; [|right; by eexists];
  destruct (require_run rec pid hid s) as [(Hp & Hc & ->)|[e ->]]; [|right; by eexists];
  pose proof (conj Hd (conj Hp Hc) : usable pid hid s rec) as Hu.

Lemma context_read_run pid hid s : (exists l rec, usable pid hid s rec /\ hr_loaded rec = Some l /\ read pid hid s = (Ok l, s)) \/
  exists e, read pid hid s = (Raise e, s).
Proof.
  unfold read. use_handle pid hid s rec Hu. destruct (hr_loaded rec) as [l|] eqn:El; [left; by exists l, rec|right; by eexists].
Qed.
Lemma inspect_quiet pid hid s : (inspect pid hid s).2 = s.
Proof.
  unfold inspect, mbind, M_bind. destruct (owning_run pid hid s) as [(rec & _ & ->)|(_ & e & ->)]; [|done].
  by destruct (hr_loaded rec).
Qed.
Lemma emit_all_quiet (m : M CState unit) (s : CState) : emits m -> exists evs, m s = (Ok tt, set_events (fun l => l ++ evs) s).
Proof. by intros Hm. Qed.

Lemma pin_run pid hid pages s :
  (exists rec evs, usable pid hid s rec /\
     let pins := py_sorted (remove_dups (ch_pinned_page_ids (hr_handle rec) ++ pages)) in
     pin pid hid pages s = (Ok pins, set_events (fun l => l ++ evs) (set_handles (sub_set pid hid (with_handle (with_pins pins (hr_handle rec)) rec))
       (set_pins (fun counts => foldl inc_pin counts pages) s)))) \/
  exists e, pin pid hid pages s = (Raise e, s).
Proof.
  unfold pin. use_handle pid hid s rec Hu. left.
  unfold book_handle, modify. cbn zeta.
  match goal with |- context[for_each ?f ?l ?st] => destruct (emits_each f l (fun x => emits_emit _ _) st) as [evs Ee] end.
  exists rec, evs. split; [done|]. by rewrite Ee.
Qed.
Lemma unpin_run pid hid pages s :
  (exists rec evs, usable pid hid s rec /\
     let pins := py_sorted (remove_dups (filter (fun p => p ∉ pages) (ch_pinned_page_ids (hr_handle rec)))) in
     unpin pid hid pages s = (Ok pins, set_events (fun l => l ++ evs) (set_handles (sub_set pid hid (with_handle (with_pins pins (hr_handle rec)) rec))
       (set_pins (fun counts => foldl dec_pin counts pages) s)))) \/
  exists e, unpin pid hid pages s = (Raise e, s).
Proof.
  unfold unpin. use_handle pid hid s rec Hu. left.
  unfold book_handle, modify. cbn zeta.
  match goal with |- context[for_each ?f ?l ?st] => destruct (emits_each f l (fun x => emits_emit _ _) st) as [evs Ee] end.
  exists rec, evs. split; [done|]. by rewrite Ee.
Qed.
Lemma close_run pid hid s :
  (exists rec evs, usable pid hid s rec /\
     close pid hid s = (Ok true, set_events (fun l => l ++ evs) (set_handles (sub_set pid hid (with_handle (closed_handle (c_clock s) (hr_handle rec)) rec))
       (set_pins (fun counts => foldl dec_pin counts (ch_pinned_page_ids (hr_handle rec))) s)))) \/
  exists r, close pid hid s = (r, s).
Proof.
  unfold close, gets, mbind, M_bind. destruct (dict_get hid (_handles_map pid s)) as [rec|] eqn:Ed; [|right; by eexists].
  case_decide; [right; by eexists|].
  destruct (require_run rec pid hid s) as [(? & ? & ->)|[e ->]]; [left|right; by eexists]. by eexists rec, _.
Qed.

Lemma quiet_once pid s evs : rtc (change pid) s (set_events (fun l => l ++ evs) s).
Proof. apply rtc_once. pose proof (change_quiet pid s evs (c_uuid s)) as Hq. unfold set_uuid in Hq. apply Hq. lia. Qed.
Lemma pins_change pid hid s rec pins f evs : usable pid hid s rec ->
  rtc (change pid) s (set_events (fun l => l ++ evs) (set_handles (sub_set pid hid (with_handle (with_pins pins (hr_handle rec)) rec)) (set_pins f s))).
Proof. intros (Hd & _). by eapply rtc_once, change_touch. Qed.
Lemma close_change pid hid s : rtc (change pid) s (close pid hid s).2.
Proof.
  destruct (close_run pid hid s) as [(rec & evs & (Hd & _) & ->)|[r ->]]; [|apply rtc_refl]. by eapply rtc_once, change_touch.
Qed.

(** ** Eviction *)

Lemma emit_run k fs s : _emit k fs s = (Ok tt, set_events (fun l => l ++ [mkCEvent k (c_clock s) fs]) s).
Proof. done. Qed.
Lemma evict_run pid ws target s :
  (exists e evs, evict pid ws target s = (Ok e, set_events (fun l => l ++ evs) s) /\
     let pages := optional_pages ws (_handles_map pid s) in
     let candidates := sort_on (fun t => (t.2, t.1))
       ((fun p => (lp_page_id p, lp_estimated_tokens p)) <$> filter (fun p => negb (is_pinned (pin_counts s) p)) pages) in
     (ev_evicted_pages e, ev_tokens_freed e) = foldl (evict_step target) ([], 0) candidates /\
     ev_pinned_blocked e = lp_page_id <$> filter (fun p => is_pinned (pin_counts s) p) pages) \/
  exists e, evict pid ws target s = (Raise e, s).
Proof.
  unfold evict, gets, mbind, M_bind. destruct (dict_get ws (_ws_map pid s)).
  - left. rewrite emit_run. match goal with |- context[set_events ?f s] => set (s1 := set_events f s) end.
    change (_handles_map pid s1) with (_handles_map pid s). change (pin_counts s1) with (pin_counts s).
    destruct (foldl (evict_step target) _ _) as [evicted freed]. rewrite !emit_run.
    eexists (mkEviction evicted freed target _), _. split; [|by split]. unfold s1, set_events. cbn. by rewrite <-!app_assoc.
  - right. destruct (List.find _ (ws_by_pid s)) as [[]|]; by eexists.
Qed.

Lemma evict_steps_sub target cs acc id : id ∈ (foldl (evict_step target) acc cs).1 -> id ∈ acc.1 \/ id ∈ cs.*1.
Proof.
  revert acc. induction cs as [|c cs IH]; intros acc; cbn [foldl]; [by left|]. intros [Hin|Hin]%IH; [|right; set_solver].
  unfold evict_step in Hin. destruct (_ <=? _); [by left|]. cbn in Hin. apply elem_of_app in Hin as [?|?]; [by left|right; set_solver].
Qed.
(** Required and pinned pages are never evicted, and an eviction only adds events. *)
Lemma evict_respects_pins pid ws target s e s' id : evict pid ws target s = (Ok e, s') -> id ∈ ev_evicted_pages e ->
  (exists evs, s' = set_events (fun l => l ++ evs) s) /\ pin_count (pin_counts s) id <= 0 /\
  exists p, p ∈ optional_pages ws (_handles_map pid s) /\ lp_page_id p = id /\ lp_required p = false.
Proof.
  intros E Hid. destruct (evict_run pid ws target s) as [(e' & evs & E' & Hf & _)|[e' E']]; rewrite E' in E; [|done].
  injection E as <- <-. split; [by eexists|]. pose proof (f_equal fst Hf) as Hev. cbn [fst] in Hev. rewrite Hev in Hid.
  apply evict_steps_sub in Hid as [Hid|Hid]; [by apply elem_of_nil in Hid|].
  apply list_elem_of_fmap in Hid as ([i t] & -> & Hin). apply elem_of_sort_on, list_elem_of_fmap in Hin as (p & [= -> ->] & Hp).
  apply list_elem_of_filter in Hp as [Hn Hp]. cbn. unfold is_pinned in Hn. split.
  - destruct (Z.ltb_spec 0 (pin_count (pin_counts s) (lp_page_id p))); [by destruct Hn|lia].
  - exists p. split; [done|]. split; [done|]. unfold optional_pages in Hp. apply list_elem_of_filter in Hp as [Hr _].
    by destruct (lp_required p).
Qed.

(** ** Snapshots *)

Lemma context_snapshot_run pid ctx key s :
  (exists hid h m l ws isn evs, List.find (has_context ctx) (_handles_map pid s) = Some (hid, mkRec h m (Some l) ws) /\
     (forall kv, kv ∈ isn -> kv ∈ idem_snapshot s \/ kv.2 = uuid4 (c_uuid s)) /\
     let sn := snapshot_of (mkRec h m (Some l) ws) l pid (uuid4 (c_uuid s)) (c_clock s) in
     snapshot pid ctx key s = (Ok sn, mkCState _ (world s) (ws_by_pid s) (handles_by_pid s)
       (dict_set (uuid4 (c_uuid s)) sn (snaps s)) (pin_counts s) (idem_load s) isn (idem_restore s)
       (c_events s ++ evs) (c_clock s) (N.succ (c_uuid s)))) \/
  (exists r, snapshot pid ctx key s = (r, s) /\
     (key = "" -> List.find (has_context ctx) (_handles_map pid s) = None)).
Proof.
  unfold snapshot, gets, mbind, M_bind. destruct (String.eqb_spec key "") as [->|Hk].
  2:{ destruct (tbl_find fst _ (idem_snapshot s)) as [kv|] eqn:Ek.
      { right. destruct (dict_get kv.2 (snaps s)); by eexists. }
      destruct (List.find _ _) as [[hid [h m [l|] ws]]|] eqn:Ef; [left|right; by eexists..].
      eexists hid, h, m, l, ws, (tbl_upsert fst (fun _ kv => kv) ((pid, ctx, key), uuid4 (c_uuid s)) (idem_snapshot s)), _.
      split; [done|]. split; [|done]. intros kv [?|[_ ?]]%idem_upsert; auto. }
  destruct (List.find _ _) as [[hid [h m [l|] ws]]|] eqn:Ef.
  - left. eexists hid, h, m, l, ws, (idem_snapshot s), _. split; [done|]. split; [by left|done].
  - apply List.find_some in Ef as [_ Ef]. done.
  - right. eexists. by split.
Qed.
Lemma snapshot_change pid ctx key s : rtc (change pid) s (snapshot pid ctx key s).2.
Proof.
  destruct (context_snapshot_run pid ctx key s) as [(hid & h & m & l & ws & isn & evs & _ & Hi & ->)|(r & -> & _)]; [|apply rtc_refl].
  by apply rtc_once, change_snap.
Qed.

(** A binding the store confirms, with its page. *)
Definition restored (b : PageBinding) (content : bytes) : LoadedPage :=
  mkLoadedPage (pb_page_id b) (pb_canonical_uri b) (pb_artifact_id b) (pb_version b) (pb_content_hash b)
    (pb_page_hash b) (pb_byte_start b) (pb_byte_end b) (len content) false 0 "application/octet-stream" "utf-8" 0 content.
Definition binding_ok (w : host) (b : PageBinding) (p : LoadedPage) : Prop :=
  exists full, host_read_version w (pb_artifact_id b) (pb_version b) (pb_canonical_uri b) = Ok full /\
    _content_hash_for full = pb_content_hash b /\
    _content_hash_for (py_slice (pb_byte_start b) (pb_byte_end b) full) = pb_page_hash b /\
    p = restored b (py_slice (pb_byte_start b) (pb_byte_end b) full).
Lemma verify_run w sid b s :
  (exists p, binding_ok w b p /\ verify_binding w sid b s = (Ok tt, s)) \/ (exists e, verify_binding w sid b s = (Raise e, s)).
Proof.
  unfold verify_binding, of_result, raise_if, mbind, M_bind.
  destruct (host_read_version w _ _ _) as [full|e] eqn:Er; [|right; destruct e; by eexists].
  destruct (String.eqb_spec (_content_hash_for full) (pb_content_hash b)); cbn; [|right; by eexists].
  destruct (String.eqb_spec (_content_hash_for (py_slice (pb_byte_start b) (pb_byte_end b) full)) (pb_page_hash b)); cbn; [left|right; by eexists].
  eexists. split; [|done]. by exists full.
Qed.
Lemma verify_ok w sid b p s : binding_ok w b p -> verify_binding w sid b s = (Ok tt, s).
Proof.
  intros (full & Hf & Hh & Hp & _). unfold verify_binding, of_result, raise_if, mbind, M_bind. rewrite Hf, Hh, String.eqb_refl. cbn.
  by rewrite Hp, String.eqb_refl.
Qed.
Lemma verify_all w sid bs s :
  (exists ps, Forall2 (binding_ok w) bs ps /\ for_each (verify_binding w sid) bs s = (Ok tt, s)) \/
  (exists e, for_each (verify_binding w sid) bs s = (Raise e, s)).
Proof.
  induction bs as [|b bs IH]; cbn; [left; by exists []|]. unfold mbind, M_bind.
  destruct (verify_run w sid b s) as [(p & Hb & ->)|[e ->]]; [|right; by eexists].
  destruct IH as [(ps & Hps & ->)|[e ->]]; [left; exists (p :: ps); split; [by constructor|done]|right; by eexists].
Qed.
Lemma verify_all_ok w sid bs ps s : Forall2 (binding_ok w) bs ps -> for_each (verify_binding w sid) bs s = (Ok tt, s).
Proof.
  induction 1 as [|b p bs ps Hb Hbs IH]; cbn; [done|]. unfold mbind, M_bind. by rewrite (verify_ok w sid b p s Hb), IH.
Qed.
Lemma restored_all w bs ps s : Forall2 (binding_ok w) bs ps -> map_each (restored_page w) bs s = (Ok ps, s).
Proof.
  induction 1 as [|b p bs ps (full & Hf & _ & _ & ->) Hbs IH]; cbn; [done|].
  unfold mbind, M_bind, restored_page at 1, of_result. unfold mbind, M_bind. rewrite Hf. cbn. by rewrite IH.
Qed.

(** The state after a snapshot was restored. *)
Definition restored_state (pid sid key : string) (snap : ContextSnapshot) (pages : list LoadedPage) (s s' : CState) : Prop :=
  let ws := restored_ws snap pid (uuid4 (c_uuid s)) (c_clock s) in
  let hid := uuid4 (N.succ (c_uuid s)) in
  let l := restored_context snap pid (uuid4 (c_uuid s)) (uuid4 (N.succ (N.succ (c_uuid s)))) (c_clock s) pages in
  exists evs, s' = mkCState _ (world s) (sub_set pid (uuid4 (c_uuid s)) ws (ws_by_pid s))
    (sub_set pid hid (mkRec (mkHandle hid pid (uuid4 (c_uuid s)) (c_clock s) None []) None (Some l) (Some ws)) (handles_by_pid s))
    (snaps s) (pin_counts s) (idem_load s) (idem_snapshot s)
    (if String.eqb key "" then idem_restore s else tbl_upsert fst (fun _ kv => kv) ((pid, sid, key), hid) (idem_restore s))
    (c_events s ++ evs) (c_clock s) (N.succ (N.succ (N.succ (c_uuid s)))).
Definition restorable (w : host) (snap : ContextSnapshot) (pages : list LoadedPage) : Prop :=
  Forall2 (binding_ok w) (sn_page_bindings snap) pages /\
  materialized_hash_of (binding_of <$> sn_page_bindings snap) pages = sn_materialized_hash snap.

Lemma restore_run pid sid key s :
  (exists snap pages s', dict_get sid (snaps s) = Some snap /\ sn_pid snap = pid /\ restorable (world s) snap pages /\
     restored_state pid sid key snap pages s s' /\
     restore_snapshot pid sid key s =
       (Ok (mkHandle (uuid4 (N.succ (c_uuid s))) pid (uuid4 (c_uuid s)) (c_clock s) None [],
            Some (restored_context snap pid (uuid4 (c_uuid s)) (uuid4 (N.succ (N.succ (c_uuid s)))) (c_clock s) pages)), s')) \/
  (exists r, restore_snapshot pid sid key s = (r, s) /\
     (key = "" \/ tbl_find fst (pid, sid, key) (idem_restore s) = None ->
      (exists e, r = Raise e) /\ forall snap pages, dict_get sid (snaps s) = Some snap -> sn_pid snap = pid ->
        ~ restorable (world s) snap pages)).
Proof.
  unfold restore_snapshot, gets, mbind, M_bind.
  destruct (if String.eqb key "" then None else tbl_find fst (pid, sid, key) (idem_restore s)) as [kv|] eqn:Ek.
  { right. exists (stored_handle pid kv.2 s).1. split; [|intros [->|E]; [done|by rewrite E in Ek; destruct (String.eqb key "")]]. rewrite <-(stored_quiet pid kv.2 s) at 3. by destruct (stored_handle _ _ s). }
  destruct (dict_get sid (snaps s)) as [snap|] eqn:Es; cbn [some_or_raise mret M_ret raise];
    [|right; eexists; split; [done|]; intros _; split; [by eexists|done]].
  destruct (String.eqb_spec (sn_pid snap) pid) as [Ep|Ep]; cbn [negb raise_if raise mret M_ret];
    [|right; eexists; split; [done|]; intros _; split; [by eexists|]; intros ? ? [= <-]; done].
  destruct (verify_all (world s) sid (sn_page_bindings snap) s) as [(ps & Hps & ->)|[e He]].
  2:{ rewrite He. right. eexists. split; [done|]. intros _. split; [by eexists|]. intros ? ps [= <-] _ [Hps _].
      rewrite (verify_all_ok _ sid _ _ s Hps) in He. done. }
  rewrite (restored_all _ _ _ s Hps).
  destruct (String.eqb_spec (materialized_hash_of (binding_of <$> sn_page_bindings snap) ps) (sn_materialized_hash snap)) as [Eh|Eh];
    cbn [negb raise_if raise mret M_ret].
  - left. exists snap, ps. destruct (String.eqb key "") eqn:Ekey.
    + eexists. split_and!; [done..| |reflexivity]. unfold restored_state. rewrite Ekey. by eexists.
    + eexists. split_and!; [done..| |reflexivity]. unfold restored_state. rewrite Ekey. by eexists.
  - right. eexists. split; [done|]. intros _. split; [by eexists|]. intros ? ps' [= <-] _ [Hps' Eh'].
    enough (ps' = ps) by congruence. clear -Hps Hps'. revert ps' Hps'.
    induction Hps as [|b p bs ps (f1 & H1' & _ & _ & ->) Hbs IH]; intros ps' Hps'; inversion Hps' as [|? p' ? ps'' (f2 & H2' & _ & _ & ->)]; subst; [done|].
    rewrite H1' in H2'. injection H2' as ->. f_equal. by apply IH.
Qed.
Lemma restored_wf w snap pid ws ctx now pages : restorable w snap pages -> context_wf (restored_context snap pid ws ctx now pages).
Proof.
  intros [Hps Hh]. unfold context_wf. cbn. split_and!; [|done|].
  - clear Hh. induction Hps as [|b p bs ps (full & _ & _ & _ & ->) Hbs IH]; [done|]. cbn. by f_equal.
  - intros p [i Hi]%list_elem_of_lookup. destruct (Forall2_lookup_r _ _ _ _ _ Hps Hi) as (b & _ & full & _ & E1 & E2 & ->).
    cbn. split_and!; [done|done|]. by exists full.
Qed.
Lemma restore_change pid sid key s : rtc (change pid) s (restore_snapshot pid sid key s).2.
Proof.
  destruct (restore_run pid sid key s) as [(snap & pages & s' & _ & _ & Hr & (evs & ->) & ->)|(r & -> & _)]; [|apply rtc_refl].
  apply rtc_once, change_add.
  - eexists _, _, _. split; [done|]. split_and!; [done..|]. by eapply restored_wf.
  - by left.
  - intros kv. destruct (String.eqb key ""); [by left|]. apply idem_upsert.
  - done.
Qed.

(** ** Cleaning up *)

Definition held_ids (pid : string) (s : CState) (rec : HandleRec) : Prop :=
  exists r0, dict_get (ch_handle_id (hr_handle rec)) (_handles_map pid s) = Some r0 /\ same_ids r0 rec.
Lemma cleanup_change pid c recs s : Forall (held_ids pid s) recs -> rtc (change pid) s (cleanup_loop pid c recs s).2.
Proof.
  revert c s. induction recs as [|rec recs IH]; intros c s Hall; [apply rtc_refl|].
  apply Forall_cons in Hall as [(r0 & Hr0 & Hi) Hall]. cbn. unfold mbind at 1, M_bind at 1, cleanup_handle.
  case_decide as Hc; [by apply IH|]. unfold gets, mbind, M_bind.
  destruct (release_pins (ch_pinned_page_ids (hr_handle rec)) (pin_counts s, cl_released_pins c)) as [counts' n].
  unfold modify, _utcnow, gets, book_handle, modify. cbn [mret M_ret].
  match goal with |- context[cleanup_loop pid _ recs ?st] => set (s1 := st) end.
  assert (change pid s s1) as Hs1.
  { pose proof (change_touch pid s _ r0 (with_handle (closed_handle (c_clock s) (hr_handle rec)) rec) (fun _ => counts') [] Hr0) as Ht.
    unfold set_events in Ht. cbn in Ht. rewrite app_nil_r in Ht. apply Ht. destruct Hi as (? & ? & ? & ? & ?). by split_and!. }
  eapply rtc_l; [exact Hs1|]. apply IH. eapply Forall_impl; [exact Hall|]. intros r (q & Hq & Hqi).
  unfold held_ids, s1, _handles_map. cbn [handles_by_pid set_handles set_pins]. rewrite submap_get. case_decide as E; [|by exists q].
  destruct E as [_ E]. eexists. split; [done|]. rewrite E in Hq. unfold _handles_map in Hr0, Hq. rewrite Hr0 in Hq. injection Hq as <-.
  destruct Hi as (? & ? & ? & ? & ?), Hqi as (? & ? & ? & ? & ?). unfold same_ids. cbn. split_and!; congruence.
Qed.
Lemma op_change pid o s : ctx_inv s -> rtc (change pid) s (run_op pid o s).
Proof.
  intros Hs. destruct o as [m key|hid|hid|hid pages|hid pages|ws target|ctx key|sid key|hid|]; cbn.
  - apply load_change.
  - destruct (context_read_run pid hid s) as [(l & rec & _ & _ & ->)|[e ->]]; apply rtc_refl.
  - rewrite inspect_quiet. apply rtc_refl.
  - destruct (pin_run pid hid pages s) as [(rec & evs & Hu & ->)|[e ->]]; [by apply pins_change|apply rtc_refl].
  - destruct (unpin_run pid hid pages s) as [(rec & evs & Hu & ->)|[e ->]]; [by apply pins_change|apply rtc_refl].
  - destruct (evict_run pid ws target s) as [(e & evs & -> & _)|[e ->]]; [apply quiet_once|apply rtc_refl].
  - apply snapshot_change.
  - apply restore_change.
  - apply close_change.
  - apply cleanup_change. apply Forall_forall. intros rec ([hid rec'] & -> & Hin)%list_elem_of_fmap.
    apply (dict_get_Some _ _ _ (ci_keys s Hs pid)) in Hin. destruct (ci_rec s Hs _ _ _ Hin) as (_ & E & _). exists rec'. cbn. by rewrite E.
Qed.
Lemma inv_changes pid s s' : ctx_inv s -> rtc (change pid) s s' -> ctx_inv s'.
Proof. intros Hs Hr. induction Hr as [|s s1 s' Hc Hr IH]; [done|]. by eapply IH, inv_change. Qed.
Lemma inv_step s s' : ctx_inv s -> cstep s s' -> ctx_inv s'.
Proof.
  intros Hs [pid o|w|t]; [by eapply inv_changes, op_change|destruct Hs; by split..].
Qed.
Lemma inv_steps s s' : ctx_inv s -> rtc cstep s s' -> ctx_inv s'.
Proof. intros Hs Hr. induction Hr as [|s s1 s' Hc Hr IH]; [done|]. by eapply IH, inv_step. Qed.
Lemma ctx_reachable_inv s : reachable s -> ctx_inv s.
Proof. intros (w & t & Hr). eapply inv_steps, Hr. apply inv_start. Qed.

(** ** What a call leaves alone *)

(** Nothing of the other processes is touched, and no snapshot or context is lost. *)
Record leaves (pid : string) (s s' : CState) : Prop := {
  lv_handles pid' : pid' <> pid -> _handles_map pid' s' = _handles_map pid' s;
  lv_ws pid' : pid' <> pid -> _ws_map pid' s' = _ws_map pid' s;
  lv_world : world s' = world s;
  lv_snaps sid sn : dict_get sid (snaps s) = Some sn -> dict_get sid (snaps s') = Some sn;
  lv_loaded pid' hid rec : dict_get hid (_handles_map pid' s) = Some rec ->
    exists rec', dict_get hid (_handles_map pid' s') = Some rec' /\ same_ids rec rec' }.
Lemma same_ids_refl rec : same_ids rec rec.
Proof. done. Qed.
Lemma same_ids_trans r1 r2 r3 : same_ids r1 r2 -> same_ids r2 r3 -> same_ids r1 r3.
Proof. intros (?&?&?&?&?) (?&?&?&?&?). unfold same_ids. split_and!; congruence. Qed.
Lemma leaves_refl pid s : leaves pid s s.
Proof. split; try done. intros. by eexists. Qed.
Lemma leaves_trans pid s1 s2 s3 : leaves pid s1 s2 -> leaves pid s2 s3 -> leaves pid s1 s3.
Proof.
  intros H12 H23. split.
  - intros p Hp. by rewrite (lv_handles _ _ _ H23), (lv_handles _ _ _ H12).
  - intros p Hp. by rewrite (lv_ws _ _ _ H23), (lv_ws _ _ _ H12).
  - by rewrite (lv_world _ _ _ H23), (lv_world _ _ _ H12).
  - intros. by eapply (lv_snaps _ _ _ H23), (lv_snaps _ _ _ H12).
  - intros p h r Hr. destruct (lv_loaded _ _ _ H12 _ _ _ Hr) as (r2 & Hr2 & ?). destruct (lv_loaded _ _ _ H23 _ _ _ Hr2) as (r3 & Hr3 & ?).
    exists r3. split; [done|]. by eapply same_ids_trans.
Qed.
Lemma change_leaves pid s s' : ctx_inv s -> change pid s s' -> leaves pid s s'.
Proof.
  intros Hs [evs n Hn|hid rec rec' f evs Hd Hi|rec ws il ir evs Hr _ _ _|sn isn evs Hsn _ _].
  - split; try done. intros. by eexists.
  - split; unfold _handles_map; cbn [handles_by_pid set_events set_handles set_pins]; try done.
    + intros p Hp. by rewrite submap_set, decide_False.
    + intros p h r Hr. rewrite submap_get. case_decide as E; [|by exists r]. destruct E as [-> ->]. exists rec'.
      split; [done|]. unfold _handles_map in Hd. rewrite Hd in Hr. by injection Hr as <-.
  - split; unfold _handles_map, _ws_map; cbn [handles_by_pid ws_by_pid snaps world]; try done.
    + intros p Hp. by rewrite submap_set, decide_False.
    + intros p Hp. by rewrite submap_set, decide_False.
    + intros p h r Hr'. rewrite submap_get. case_decide as E; [|by exists r]. destruct E as [-> ->].
      destruct (ci_rec s Hs _ _ _ Hr') as (_ & _ & Hk & _). exfalso. eapply known_fresh; [exact Hk| |done]. lia.
  - split; try done; [|intros; by eexists]. intros sid sn' Hs'. cbn [snaps]. rewrite dict_set_get. case_decide as E; [|done].
    destruct (ci_snaps s Hs _ _ Hs') as [Hk _]. exfalso. eapply known_fresh; [exact Hk| |exact E]. lia.
Qed.
Lemma op_leaves pid o s : ctx_inv s -> leaves pid s (run_op pid o s).
Proof.
  intros Hs. pose proof (op_change pid o s Hs) as Hr. revert Hs. induction Hr as [a|a b c Hc Hr IH]; intros Hs; [apply leaves_refl|].
  eapply leaves_trans; [by apply change_leaves|]. by eapply IH, inv_change.
Qed.
Lemma steps_snaps s s' sid sn : ctx_inv s -> rtc cstep s s' -> dict_get sid (snaps s) = Some sn -> dict_get sid (snaps s') = Some sn.
Proof.
  intros Hs Hr. revert Hs. induction Hr as [a|a b c Hc Hr IH]; [done|]. intros Hs Hsn. apply IH; [by eapply inv_step|].
  destruct Hc as [pid o|w|t]; [|done|done]. by apply (lv_snaps _ _ _ (op_leaves pid o a Hs)).
Qed.

(** C22: a process uses only what is its own.  In every reachable state a call changes no
    handle and no working set of another process, loses no snapshot and no context of
    anybody, and leaves the artifact store alone; a context is read only through an
    open handle of the process, and is its context, with the digests of its pages; a
    snapshot is restored only for the process that took it. *)
Theorem context_isolated pid o s : reachable s ->
  leaves pid s (run_op pid o s) /\
  (forall hid l s', read pid hid s = (Ok l, s') -> exists rec, usable pid hid s rec /\ hr_loaded rec = Some l /\ lc_pid l = pid /\ context_wf l) /\
  (forall sid key h l s', tbl_find fst (pid, sid, key) (idem_restore s) = None ->
     restore_snapshot pid sid key s = (Ok (h, l), s') -> exists sn, dict_get sid (snaps s) = Some sn /\ sn_pid sn = pid).
Proof.
  intros Hs%ctx_reachable_inv. split_and!.
  - by apply op_leaves.
  - intros hid l s' E. destruct (context_read_run pid hid s) as [(l' & rec & Hu & Hl & E')|[e E']]; rewrite E' in E; [|done].
    injection E as <- <-. exists rec. destruct (ci_rec s Hs _ _ _ (proj1 Hu)) as (_ & _ & _ & l0 & El & Hwf & Hp & _).
    rewrite Hl in El. injection El as <-. done.
  - intros sid key h l s' Hk E. destruct (restore_run pid sid key s) as [(sn & ps & s1 & Hsn & Hp & _)|(r & E' & Hr)]; [by exists sn|].
    destruct (Hr (or_intror Hk)) as [[e ->] _]. congruence.
Qed.

(** ** Snapshots restore *)

(** The store still has the versions of the pages of [l]. *)
Definition supplies (w : host) (l : LoadedContext) : Prop :=
  forall p, p ∈ lc_ordered_pages l -> exists full, host_read_version w (lp_artifact_id p) (lp_version p) (lp_canonical_uri p) = Ok full /\
    _content_hash_for full = lp_content_hash p /\ py_slice (lp_byte_start p) (lp_byte_end p) full = lp_content p.
(** The process may restore contexts and read the versions of the pages of [l]. *)
Definition may_restore (w : host) (pid : string) (l : LoadedContext) : Prop :=
  can_context_operation w pid "restore" = true /\
  forall p, p ∈ lc_ordered_pages l -> can_artifact_read w pid (lp_artifact_id p) (lp_version p) = true.
(** Page identifiers, which are digests of the ranges, tell the pages of [l] apart. *)
Definition page_ids_ok (l : LoadedContext) : Prop :=
  forall p q, p ∈ lc_ordered_pages l -> q ∈ lc_ordered_pages l -> lp_page_id p = lp_page_id q ->
    lp_page_hash p = lp_page_hash q /\ lp_byte_start p = lp_byte_start q /\ lp_byte_end p = lp_byte_end q.
Definition page_binding_of (p : LoadedPage) : PageBinding :=
  mkPageBinding (lp_page_id p) (lp_canonical_uri p) (lp_artifact_id p) (lp_version p) (lp_content_hash p) (lp_page_hash p)
    (lp_byte_start p) (lp_byte_end p).
(** A page as a snapshot restores it: without the marks of its reference. *)
Definition restored_form (p : LoadedPage) : LoadedPage := restored (page_binding_of p) (lp_content p).

Lemma snapshot_bindings l : context_wf l -> page_ids_ok l ->
  page_binding (lc_ordered_pages l) <$> lc_version_bindings l = page_binding_of <$> lc_ordered_pages l.
Proof.
  intros (-> & _) Hid. rewrite <-list_fmap_compose. apply list_fmap_ext. intros i p Hp%list_elem_of_lookup_2.
  unfold compose, page_binding, page_with_id. cbn. destruct (tbl_find lp_page_id (lp_page_id p) (lc_ordered_pages l)) as [q|] eqn:E.
  - apply tbl_find_Some in E as [E Hq]. destruct (Hid q p Hq Hp E) as (-> & -> & ->). done.
  - by destruct (proj1 (tbl_find_None _ _ _) E p Hp).
Qed.
Lemma bindings_restored l : context_wf l -> binding_of <$> (page_binding_of <$> lc_ordered_pages l) = lc_version_bindings l.
Proof. intros (-> & _). by rewrite <-list_fmap_compose. Qed.
Lemma supplied_ok w l : context_wf l -> supplies w l ->
  Forall2 (binding_ok w) (page_binding_of <$> lc_ordered_pages l) (restored_form <$> lc_ordered_pages l).
Proof.
  intros (_ & _ & Hwf) Hsup. apply Forall2_fmap, Forall_Forall2_diag, Forall_forall. intros p Hp.
  destruct (Hsup p Hp) as (full & Hf & Hh & Hc). exists full. cbn. rewrite Hc. destruct (Hwf p Hp) as (-> & _). done.
Qed.
Lemma hash_restored bs l : materialized_hash_of bs (restored_form <$> l) = materialized_hash_of bs l.
Proof. unfold materialized_hash_of. by rewrite <-list_fmap_compose. Qed.

Lemma find_context pid hid s rec l : ctx_inv s -> dict_get hid (_handles_map pid s) = Some rec -> hr_loaded rec = Some l ->
  List.find (has_context (lc_context_id l)) (_handles_map pid s) = Some (hid, rec).
Proof.
  intros Hs Hd Hl. destruct (List.find _ _) as [[hid' rec']|] eqn:E.
  - apply List.find_some in E as [Hin Hc]. apply list_elem_of_In in Hin.
    apply (dict_get_Some _ _ _ (ci_keys s Hs pid)) in Hin. unfold has_context in Hc. cbn in Hc.
    destruct (hr_loaded rec') as [l'|] eqn:El'; [|done]. apply String.eqb_eq in Hc.
    assert (hid' = hid) as -> by (eapply (ci_unique s Hs); [done..|]; unfold loaded_id; rewrite Hl, El'; cbn; by rewrite Hc).
    congruence.
  - pose proof (List.find_none _ _ E (hid, rec)) as Hn. unfold has_context in Hn. cbn in Hn. rewrite Hl, String.eqb_refl in Hn.
    discriminate Hn. apply list_elem_of_In. by apply dict_get_elem.
Qed.

(** C21: a snapshot restores the context it was taken of.  A context that can be read and
    whose page identifiers tell its pages apart can be snapshotted.  At any later time,
    whatever happened in between, restoring the snapshot for a process that may restore
    and still may read the versions gives back the same pages in the same order with the
    same bytes, ranges and digests, as long as the artifact store still has the versions
    they were taken from; a restored page is not required and has priority and cost zero,
    the default media type and encoding ([restored_form]).  Whatever is restored has the
    bindings, digests and total costs of the context, and pages of the recorded digests
    only, whatever the store gives. *)
Theorem snapshot_restores pid hid s l s0 s2 : reachable s -> read pid hid s = (Ok l, s0) -> page_ids_ok l ->
  exists sn s1, snapshot pid (lc_context_id l) "" s = (Ok sn, s1) /\
  (rtc cstep s1 s2 -> forall r s3, restore_snapshot pid (sn_snapshot_id sn) "" s2 = (r, s3) ->
   (may_restore (world s2) pid l -> supplies (world s2) l -> exists h l', r = Ok (h, Some l') /\ lc_ordered_pages l' = restored_form <$> lc_ordered_pages l) /\
   (forall h l', r = Ok (h, l') -> exists l'', l' = Some l'' /\ lc_pid l'' = pid /\ lc_version_bindings l'' = lc_version_bindings l /\
      lc_manifest_hash l'' = lc_manifest_hash l /\ lc_materialized_hash l'' = lc_materialized_hash l /\
      lc_tokens_used l'' = lc_tokens_used l /\ lc_bytes_used l'' = lc_bytes_used l /\
      materialized_hash_of (lc_version_bindings l) (lc_ordered_pages l'') = lc_materialized_hash l /\
      Forall2 (fun p q => lp_page_id q = lp_page_id p /\ _content_hash_for (lp_content q) = lp_page_hash p)
        (lc_ordered_pages l) (lc_ordered_pages l''))).
Proof.
  intros Hs%ctx_reachable_inv E Hid.
  destruct (context_read_run pid hid s) as [(l' & rec & Hu & Hl & E')|[e E']]; rewrite E' in E; [|done]. injection E as <- <-. clear E'.
  destruct (ci_rec s Hs _ _ _ (proj1 Hu)) as (_ & _ & _ & l0 & El & Hwf & Hp & _). rewrite Hl in El. injection El as <-.
  pose proof (find_context _ _ _ _ _ Hs (proj1 Hu) Hl) as Hfind.
  destruct (context_snapshot_run pid (lc_context_id l') "" s) as [(hid' & h & m & l & ws & isn & evs & Hf & Hisn & Hsnap)|(r & _ & Hno)];
    [|rewrite Hno in Hfind by done; done].
  rewrite Hfind in Hf. injection Hf as <- ->. cbn in Hl. injection Hl as ->.
  eexists _, _. split; [exact Hsnap|]. intros Hr r s3 Hres. cbn [snapshot_of sn_snapshot_id] in Hres.
  set (sn := snapshot_of _ _ _ _ _) in *.
  assert (ctx_inv (snapshot pid (lc_context_id l') "" s).2) as Hs1 by (eapply inv_changes, snapshot_change; done).
  rewrite Hsnap in Hs1. cbn [snd] in Hs1.
  assert (dict_get (uuid4 (c_uuid s)) (snaps s2) = Some sn) as Hsn.
  { eapply steps_snaps; [exact Hs1|exact Hr|]. cbn [snaps]. rewrite dict_set_get. by rewrite decide_True. }
  pose proof (snapshot_bindings _ Hwf Hid) as Hb.
  destruct (restore_run pid (uuid4 (c_uuid s)) "" s2) as [(sn' & ps & s4 & Hsn' & _ & [Hps Hh] & _ & Hres')|(r' & Hres' & Hno)];
    rewrite Hres' in Hres; injection Hres as <- <-.
  - rewrite Hsn in Hsn'. injection Hsn' as <-. unfold sn in Hps, Hh. cbn [snapshot_of sn_page_bindings sn_materialized_hash] in Hps, Hh.
    rewrite Hb in Hps, Hh. rewrite bindings_restored in Hh by done. split.
    + intros _ Hsup. eexists _, _. split; [done|]. cbn. pose proof (supplied_ok _ _ Hwf Hsup) as Hps'.
      pose proof (restored_all _ _ _ s2 Hps) as R1. pose proof (restored_all _ _ _ s2 Hps') as R2. congruence.
    + intros h0 l0 [= <- <-]. eexists. split; [done|]. cbn [restored_context lc_pid lc_version_bindings lc_manifest_hash
        lc_materialized_hash lc_tokens_used lc_bytes_used lc_ordered_pages]. unfold sn. cbn [snapshot_of sn_page_bindings sn_manifest_hash sn_materialized_hash sn_tokens_used sn_bytes_used].
      rewrite Hb, bindings_restored by done. split_and!; try done.
      rewrite (Forall2_fmap_l page_binding_of) in Hps. eapply Forall2_impl; [exact Hps|]. intros p q (full & _ & _ & E2 & ->). done.
  - destruct (Hno (or_introl eq_refl)) as [[e ->] Hno']. split; [|done]. intros _ Hsup. exfalso.
    apply (Hno' sn (restored_form <$> lc_ordered_pages l') Hsn eq_refl). unfold restorable, sn.
    cbn [snapshot_of sn_page_bindings sn_materialized_hash]. rewrite Hb, bindings_restored, hash_restored by done.
    split; [by apply supplied_ok|]. by destruct Hwf as (_ & <- & _).
Qed.
End States.

(** ** Runs *)

Module ContextRun.
(** A store of two artifacts, with a switch for the right to read. *)
Definition bytes_of (s : string) : bytes := String.list_byte_of_string s.
Definition disk : list ((string * Z * string) * bytes) :=
  [(("a", 1, "artifact://ns/a"), bytes_of "hello world"); (("b", 1, "artifact://ns/b"), bytes_of "0123456789")].
#[export] Instance run_host : ContextHost :=
  {| host := bool * list ((string * Z * string) * bytes);
     host_read_version := fun w a v u =>
       match tbl_find fst (a, v, u) w.2 with Some kv => Ok kv.2 | None => Raise (FileNotFoundError (a +:+ " is missing")) end;
     can_context_operation := fun _ _ _ => true;
     can_artifact_read := fun w _ _ _ => w.1 |}.
#[export] Instance run_text : BindingText := fun b => vb_page_id b +:+ "|" +:+ vb_content_hash b.
#[export] Instance run_uuid : UuidSource := pretty_uuid.
#[export] Instance run_sha : Sha256 := fun s => "#" +:+ s.
#[export] Instance run_codecs : Codecs := fun _ b => Some (len b).
#[export] Instance run_estimator : TokenEstimator := DeterministicByteTokenEstimator.

Definition ref_a (id media : string) (priority : Z) (required : bool) : ContentRef :=
  mkRef id "artifact://ns/a" "a" 1 (_content_hash_for (bytes_of "hello world")) media "utf-8" priority required true false None None [].
Definition ref_b (id : string) (priority : Z) (required : bool) : ContentRef :=
  mkRef id "artifact://ns/b" "b" 1 (_content_hash_for (bytes_of "0123456789")) "text/plain" "utf-8" priority required true false (Some 2) (Some 10) [].
Definition manifest (pid : string) (refs : list ContentRef) (budget : Z) : ContextManifest :=
  mkManifest "m" pid refs budget None 4 PRIORITY_STABLE_POLICY_ID 0 [].
Definition m1 : ContextManifest := manifest "p1" [ref_b "r2" 1 false; ref_a "r1" "text/plain" 0 true] 5.
Definition s0 : CState := start ((true, disk) : @host run_host) 0.
Definition s1 : CState := run_op "p1" (op_load m1 "") s0.

(** Three pages of the required reference and two of the optional one. *)
Example m1_pages : (fun r => match r with
    | (Ok (h, Some l), _) => Some (ch_handle_id h, lp_content <$> lc_ordered_pages l, lc_tokens_used l, om_ref_id <$> lc_omitted_refs l)
    | _ => None end) (load m1 "p1" "" s0) =
  Some ("uuid-1", bytes_of <$> ["hell"; "o wo"; "rld"; "2345"; "6789"], 5, []).
Proof. vm_compute. reflexivity. Qed.
(** With one token less the optional reference is left out. *)
Example m1_omits : (fun r => match r with
    | (Ok (h, Some l), _) => Some (lp_content <$> lc_ordered_pages l, lc_tokens_used l, om_ref_id <$> lc_omitted_refs l)
    | _ => None end) (load (manifest "p1" (mf_refs m1) 4) "p1" "" s0) =
  Some (bytes_of <$> ["hell"; "o wo"; "rld"], 3, ["r2"]).
Proof. vm_compute. reflexivity. Qed.

(** *** Deviations *)

Definition page1 : string := default "" (nth_error (default [] ((fun h => match hr_loaded h with Some l => lp_page_id <$> lc_ordered_pages l | None => [] end) <$>
  dict_get "uuid-1" (_handles_map "p1" s1))) 3).
(** Pins are counted for all processes: another process takes back a pin it never made,
    and the page its owner still pins is evicted. *)
Definition s2 : CState := run_op "p2" (op_load (manifest "p2" [ref_b "r2" 1 false] 5) "") (run_op "p1" (op_pin "uuid-1" [page1]) s1).
Definition evicted (s : CState) : option (list string) :=
  match (evict "p1" "uuid-0" 1 s).1 with Ok e => Some (ev_evicted_pages e) | Raise _ => None end.
Lemma unpin_of_other_process :
  evicted s2 <> Some [page1] /\ evicted (run_op "p2" (op_unpin "uuid-4" [page1]) s2) = Some [page1] /\
  (ch_pinned_page_ids ∘ hr_handle <$> dict_get "uuid-1" (_handles_map "p1" (run_op "p2" (op_unpin "uuid-4" [page1]) s2))) = Some [page1].
Proof. vm_compute. split_and!; [discriminate|reflexivity|reflexivity]. Qed.
(** A page pinned twice through one handle stays pinned when the handle is closed. *)
Lemma double_pin_leaks :
  pin_count (pin_counts (run_op "p1" (op_close "uuid-1") (run_op "p1" (op_pin "uuid-1" [page1; page1]) s1))) page1 = 1.
Proof. vm_compute. reflexivity. Qed.
(** An eviction evicts nothing: the pages it reports are read as before. *)
Lemma evicted_pages_stay : evicted s1 <> None /\ evicted s1 <> Some [] /\
  (read "p1" "uuid-1" (run_op "p1" (op_evict "uuid-0" 1) s1)).1 = (read "p1" "uuid-1" s1).1.
Proof. vm_compute. split_and!; [discriminate..|reflexivity]. Qed.
(** The cheapest page goes first, whatever its priority. *)
Definition m2 : ContextManifest :=
  manifest "p1" [ref_a "low" "text/plain" 0 false;
    mkRef "high" "artifact://ns/b" "b" 1 (_content_hash_for (bytes_of "0123456789")) "text/plain" "utf-8" 9 false true false (Some 0) (Some 4) []] 99.
Definition big_pages (m : ContextManifest) : ContextManifest :=
  mkManifest "m" "p1" (mf_refs m) (mf_token_budget m) None 64 PRIORITY_STABLE_POLICY_ID 0 [].
Lemma eviction_ignores_priority :
  let s := run_op "p1" (op_load (big_pages m2) "") s0 in
  exists l high low, read "p1" "uuid-1" s = (Ok l, s) /\ lc_ordered_pages l = [high; low] /\
    lp_priority low < lp_priority high /\ evicted s = Some [lp_page_id high].
Proof. eexists _, _, _. split; [vm_compute; reflexivity|]. split; [reflexivity|]. split; [reflexivity|]. vm_compute. reflexivity. Qed.
(** A page gets the media type of the last reference of its artifact. *)
Lemma media_type_of_last_reference :
  let refs := [ref_a "r1" "text/plain" 0 true; ref_a "r2" "image/png" 0 false] in
  match (load (manifest "p1" refs 99) "p1" "" s0).1 with
  | Ok (_, Some l) => Forall (fun p => lp_media_type p = "image/png") (lc_ordered_pages l) /\ len (lc_ordered_pages l) = 6
  | _ => False
  end.
Proof. vm_compute. split; [repeat constructor|reflexivity]. Qed.
(** A restored context has no required pages, so they can be evicted. *)
Definition s3 : CState := run_op "p1" (op_restore "uuid-3" "") (run_op "p1" (op_snapshot "uuid-2" "") s1).
Lemma restored_pages_evictable :
  match (evict "p1" "uuid-0" 100 s1).1, (evict "p1" "uuid-4" 100 s3).1 with
  | Ok e, Ok e' => length (ev_evicted_pages e) = 2%nat /\ length (ev_evicted_pages e') = 5%nat /\
      (forall l, read "p1" "uuid-5" s3 = (Ok l, s3) -> Forall (fun p => lp_required p = false) (lc_ordered_pages l))
  | _, _ => False
  end.
Proof. vm_compute. split_and!; [reflexivity..|]. intros l [= <-]. repeat constructor. Qed.
(** The read capability is checked by a load but not when a snapshot is restored. *)
Lemma restore_without_capability :
  let s := set_world ((false, disk) : @host run_host) (run_op "p1" (op_snapshot "uuid-2" "") s1) in
  (exists e, (load m1 "p1" "" s).1 = Raise (ErrCapabilityDenied e)) /\
  match (restore_snapshot "p1" "uuid-3" "" s).1 with
  | Ok (_, Some l) => lp_content <$> lc_ordered_pages l = (bytes_of <$> ["hell"; "o wo"; "rld"; "2345"; "6789"])
  | _ => False
  end.
Proof. split; [eexists; vm_compute; reflexivity|vm_compute; reflexivity]. Qed.
(** Called with references that are not sorted, the stable policy goes over its budget. *)
Lemma unsorted_selection_over_budget :
  let rps := ref_plan ((true, disk) : @host run_host) m1 <$> mf_refs m1 in
  match select_pages_v1 (manifest "p1" (mf_refs m1) 4) rps with Ok sel => sl_tokens_used sel = 5 | Raise _ => False end.
Proof. vm_compute. reflexivity. Qed.
(** An empty range is accepted and costs a token. *)
Lemma empty_reference_costs :
  let r := mkRef "r" "artifact://ns/b" "b" 1 (_content_hash_for (bytes_of "0123456789")) "text/plain" "utf-8" 0 true true false (Some 3) (Some 3) [] in
  match (load (manifest "p1" [r] 9) "p1" "" s0).1 with Ok (_, Some l) => lc_tokens_used l = 1 /\ lc_bytes_used l = 0 | _ => False end.
Proof. vm_compute. done. Qed.

(** *** The theorems at this run *)

Lemma s1_reachable : reachable s1.
Proof. exists ((true, disk) : @host run_host), 0. apply rtc_once. apply (step_op s0 "p1" (op_load m1 "")). Qed.

Lemma paging_exact_witness : let r := ref_b "r2" 1 false in
  range_ok r (bytes_of "0123456789") /\ exists pages,
    compute_pages_for_ref (direct_reader ((true, disk) : @host run_host)) r 3 tt = (Ok pages, tt) /\ pages_cover r 3 (bytes_of "0123456789") pages /\
    pg_byte_end <$> pages = [5; 8; 10].
Proof.
  destruct (paging_exact (direct_reader ((true, disk) : @host run_host)) (ref_b "r2" 1 false) 3 (bytes_of "0123456789") tt tt)
    as [(Hr & pages & Hp & Hc)|(Hn & _)]; [done|vm_compute; reflexivity| |].
  - split; [done|]. exists pages. split; [done|]. split; [done|]. vm_compute in Hp. injection Hp as <-. reflexivity.
  - destruct Hn. vm_compute. done.
Defined.

Lemma load_m1 : exists h l, (load m1 "p1" "" s0).1 = Ok (h, Some l).
Proof. eexists _, _. vm_compute. reflexivity. Qed.
Lemma context_load_exact_witness : new_load m1 "p1" "" s0 /\
  match load m1 "p1" "" s0 with
  | (Ok (h, Some l), _) => loadable (world s0) m1 "p1" /\ exists rps sel, required_first rps /\ context_of (world s0) m1 "p1" l rps sel
  | _ => False
  end.
Proof.
  split; [by left|]. destruct load_m1 as (h & l & E). pose proof (context_load_exact m1 "p1" "" s0 _ _ (or_introl eq_refl) (surjective_pairing _)) as Hl.
  rewrite E in Hl. destruct (load m1 "p1" "" s0) as [r s']. cbn in E. subst r. destruct Hl as (H1 & H2 & _). by split.
Defined.

Lemma load_order_independent_witness : let refs := reverse (mf_refs m1) in refs ≡ₚ mf_refs m1 /\
  match load m1 "p1" "" s0, load (with_refs refs m1) "p1" "" s0 with
  | (Ok (h, Some l), _), (Ok (h', Some l'), _) => same_context l l' /\ lc_ordered_pages l = lc_ordered_pages l'
  | _, _ => False
  end.
Proof.
  split; [apply reverse_Permutation|]. destruct load_m1 as (h & l & E).
  pose proof (load_order_independent (reverse (mf_refs m1)) m1 "p1" s0 (reverse_Permutation _)) as Hl.
  destruct (load m1 "p1" "" s0) as [r s']. cbn in E. subst r.
  destruct (load (with_refs (reverse (mf_refs m1)) m1) "p1" "" s0) as [[[h' [l'|]]|e] s2']; [|done|done].
  destruct Hl as (_ & Hsame & _ & _ & Hpages). split; [done|]. apply Hpages. intros r r' Hr Hr'. cbn in Hr, Hr'.
  rewrite !elem_of_cons, elem_of_nil in Hr, Hr'. by destruct_or?; subst.
Defined.

(** The snapshot is restored after the handles of the process were closed. *)
Definition later : CState := set_clock 9 (run_op "p1" op_cleanup (run_op "p1" (op_snapshot "uuid-2" "") s1)).
Lemma snapshot_restores_witness : reachable s1 /\ exists l, read "p1" "uuid-1" s1 = (Ok l, s1) /\ page_ids_ok l /\ may_restore (world later) "p1" l /\ supplies (world later) l /\
  match restore_snapshot "p1" "uuid-3" "" later with
  | (Ok (_, Some l'), _) => lc_ordered_pages l' = restored_form <$> lc_ordered_pages l
  | _ => False
  end.
Proof.
  split; [exact s1_reachable|]. assert (exists l, read "p1" "uuid-1" s1 = (Ok l, s1)) as [l El] by (eexists; vm_compute; reflexivity).
  exists l. assert (page_ids_ok l) as Hid.
  { vm_compute in El. injection El as <-. intros q1 q2 H1 H2. cbn [lc_ordered_pages] in H1, H2. rewrite !elem_of_cons, elem_of_nil in H1, H2.
    destruct_or?; subst; done. }
  assert (supplies (world later) l) as Hsup.
  { vm_compute in El. injection El as <-. intros q Hq. cbn [lc_ordered_pages] in Hq. rewrite !elem_of_cons, elem_of_nil in Hq.
    destruct_or?; subst; try done; eexists; (split; [vm_compute; reflexivity|]); by vm_compute. }
  assert (may_restore (world later) "p1" l) as Hmay by done.
  split_and!; [done..|].
  destruct (snapshot_restores "p1" "uuid-1" s1 l s1 later s1_reachable El Hid) as (sn & s1' & Es & Hr).
  assert (lc_context_id l = "uuid-2") as Ec by (vm_compute in El; by injection El as <-). rewrite Ec in Es.
  assert (sn_snapshot_id sn = "uuid-3") as Esn by (vm_compute in Es; by injection Es as <- _).
  assert (s1' = run_op "p1" (op_snapshot "uuid-2" "") s1) as -> by (change (s1' = (snapshot "p1" "uuid-2" "" s1).2); by rewrite Es).
  rewrite Esn in Hr. destruct (restore_snapshot "p1" "uuid-3" "" later) as [r s'].
  destruct (Hr ltac:(eapply rtc_l; [apply (step_op _ "p1" op_cleanup)|]; eapply rtc_once, step_time) r s' eq_refl) as [Hok _].
  destruct (Hok Hmay Hsup) as (h & l' & -> & Hl). exact Hl.
Defined.

Lemma context_isolated_witness : reachable s1 /\ leaves "p2" s1 (run_op "p2" (op_restore "uuid-3" "") s1) /\
  (exists l, read "p1" "uuid-1" s1 = (Ok l, s1) /\ lc_pid l = "p1" /\ context_wf l).
Proof.
  split; [exact s1_reachable|]. split; [apply (context_isolated "p2" (op_restore "uuid-3" "") s1 s1_reachable)|].
  assert (exists l, read "p1" "uuid-1" s1 = (Ok l, s1)) as [l El] by (eexists; vm_compute; reflexivity). exists l. split; [done|].
  destruct (context_isolated "p1" op_cleanup s1 s1_reachable) as (_ & Hr & _).
  destruct (Hr _ _ _ El) as (rec & _ & _ & Hp & Hwf). exact (conj Hp Hwf).
Defined.
End ContextRun.
